(* ===== verification/_CoqProject ===== *)
-Q . S2P
Prelude.v
Kfifo.v
FileLock.v
Bfc.v
BfcInit.v
Slab.v
PageAlloc.v
PageTable.v
Mm.v
Cow.v
Vma.v
AddrSpace.v
Rbtree.v
Vring.v
Sched.v
Sync.v
Futex.v
Block.v
Fat.v
FatCache.v
FatChain.v
FatFile.v
Threads.v
PageCache.v
PageCacheInv.v
PageCacheSafe.v
PageCacheUse.v
PageCacheFrame.v
PageCacheAlone.v
PageCacheSeq.v
FatPages.v
FatIo.v
FatWrite.v
