(* ===== verification/Prelude.v ===== *)
(** * Verification of the os-test kernel

    os-test is a small x86-64 kernel with a Unix-like system-call interface.
    The sources are under src/: the machine-independent core (kernel/xcore),
    the Unix layer (kernel/bsd), the drivers (kernel/driver), the processor
    code (arch/x64) and user programs (user).  This development is a shallow
    embedding of the parts of the kernel on which the rest relies to keep its
    data intact: physical memory, address spaces, scheduling and blocking,
    futexes, file locks, and the block layer with the FAT32 file system and the
    page cache on top of it.

    ** How the model corresponds to the code

    Every C function that is modelled is a definition of the same name, and
    the parts of a long function (the body of a loop, one critical section)
    are definitions that it calls.  Structures are records and pointers are
    indices or addresses into a map of such records, so aliasing and dangling
    pointers are those of the code.  Integers are [Z]; where the C type can
    wrap, the wrap-around is written out ([u8] to [u64], [s32], [s64]).  Code
    that can fault returns an [option]: [None] is an access outside an array
    or to an object that does not exist, a failed ASSERT or BUG_ON, or a loop
    that has run out of fuel.  A theorem that an operation returns [Some]
    therefore says that none of this happens.  Code with many reads and writes
    is written in the state monad [prog] below, with the total-correctness
    predicate [wp].

    Spin locks are not part of the state.  What the code does under one lock
    is one step, and concurrency is the interleaving of such steps: as
    sequences of operations (Sched, Futex, FileLock), as step relations with
    an inductively defined set of reachable states (Kfifo, Sync, FatCache), as
    pools of threads (Threads, PageCache), or as an adversary that writes
    shared memory between steps (Vring).

    Outcomes decided elsewhere are arguments: outside Slab, whether [kmalloc]
    succeeds ([oracle] below); what the disk controller does with a command (Block),
    what a word of user memory contains and whether a signal is pending
    (Futex), the time, what another task has done while a caller slept
    (FileLock), the calls of the page cache that unmapping makes (AddrSpace,
    where they are an interface; the cache itself is PageCache).  All other
    code that a modelled function calls is modelled too.

    Where the code reads a value before it takes the lock, the value is an
    argument of the step and may be stale.  The orders of steps that the code
    leaves open and does not survive are named, as premises of the theorems
    that need them to be absent: [unraced] in Sched, [fproper] in Futex.  What
    happens otherwise is a theorem or a finding of its own.  In the same way
    FatCache has the error exits of writers as steps, and its theorem leaves
    out the sectors that such a writer did not invalidate.

    ** Files

    - Prelude: machine integers, arrays, little-endian words, sequences of
      operations and simulations between them, fuelled loops, the program
      monad, tactics and hint databases.
    - Kfifo: kernel/bsd/kfifo.c.  The byte ring refines a bounded queue; with
      a producer and a consumer interleaved at their atomic accesses, nothing
      is lost, duplicated or reordered and no slot is copied by both.
    - FileLock: kernel/bsd/file_lock.c.  POSIX, OFD and BSD locks on the lock
      list of an inode: exclusion over all sequences of requests, closes and
      exits; the exact effect of F_SETLK on every byte; blocking requests.
    - Bfc, BfcInit, PageAlloc: kernel/xcore/mem/alloc.c and the boot-time
      allocator of arch/x64/paging.c.  The linked free list of page
      descriptors refines a list of disjoint free intervals (first fit,
      coalescing), no page is granted twice and none is lost; the list that
      boot builds satisfies the invariant.  PageAlloc is the interface, a
      class with its laws, against which the next files are proved.
    - Slab: kernel/xcore/mem/slab.c over Bfc.  Size classes, partial lists and
      dedicated caches on the bytes of memory, with the free lists inside the
      free objects: nothing is handed out twice or overlaps, contents are
      kept; the pages that the partial lists lose.
    - PageTable: kernel/xcore/mem/user_mapping.c.  Mapping, unmapping and
      moving of user pages in four-level tables, as updates of a map from
      virtual pages to entries, with the reference counts of the frames.
    - Mm, Cow: the structures of kernel/xcore/mm_types.h, the copying of page
      tables on fork and the copy-on-write faults of kernel/xcore/trap.c.  The
      invariant [isolated] says that counts are numbers of mappings and that a
      writable private frame is mapped once; fork and faults keep it.
    - Vma, AddrSpace: kernel/xcore/mem/vma.c and the munmap and mprotect calls
      of kernel/bsd/syscall.c.  Sorted region lists, specified by what they
      say about each address; the search for free ranges; unmapping through
      list, page tables and reference counts together, with the write-back of
      shared file mappings (kernel/bsd/file_fault.c).
    - Rbtree: kernel/xcore/rbtree.c.  Insertion, removal and search of the
      intrusive red-black tree, pointer write by pointer write, against
      inductive trees: order, colours, parent pointers, logarithmic search.
    - Vring: kernel/driver/virtio_ring.c over Bfc.  Memory safety against an
      arbitrary device, exactly-once completion with a correct one.
    - Sched: kernel/xcore/sched.c and sched.h, the context switch, timer
      interrupts, job control, task creation and exit.  No task is lost, run
      twice or left with a stale timer in any interleaving without the races
      of [unraced]; what two of these races do; slots are only reused when no
      processor refers to them; round robin.
    - Sync: kernel/xcore/wait_queue.c, mutex.c and completion.c.  Mutual
      exclusion and no lost wake-ups for any number of threads, proved against
      the class [Blocker] of blocking and waking, which Sched implements.
    - Futex: kernel/bsd/futex.c over Sched.  WAIT, WAKE and REQUEUE: results
      on every branch, batches equal to one pass, no lost wake-ups as long as
      steps are [fproper]; the call of REQUEUE that never returns.
    - Block: kernel/driver/blk_dev.c.  Range checks, splitting of transfers,
      partitions, of which none can write outside its range, the scan of the
      partition table.
    - Fat, FatCache, FatChain, FatFile: kernel/bsd/fat32.c over Block.  The
      cache of FAT sectors, sequentially and under concurrency; entries,
      summary and mounting; chains and their allocation and release; cluster
      maps, page input and output, truncation.  Chain and file theorems are
      about the FAT as a function from clusters to entries and about the
      sectors outside it, so they also say what does not change.
    - Threads: programs whose steps interleave, as resumptions; running one
      alone, pools and schedules; a program logic in which a thread owns a
      multiset of tokens and every step keeps an invariant of state and tokens.
    - PageCache: kernel/bsd/page_cache.c as such threads, over any file system
      that offers the page operations of [struct address_space_operations].
      PageCacheInv has the invariant (descriptor lists, pins, what the flags
      promise, coherence) and how updates keep it; PageCacheSafe the class
      [FileSystem] of what the cache asks of a file system and the proof of
      every function; PageCacheUse the theorems about arbitrary threads in
      arbitrary interleavings: held pages stay, no store is lost;
      PageCacheFrame what no call changes; PageCacheAlone the results of calls
      when the others are idle: getting a page returns it, flushing makes
      stores durable; and the three ways in which getting a page goes wrong;
      PageCacheSeq sequences of calls of one thread that holds pages.
    - FatPages: the page operations of FAT32 are such a file system, so the
      theorems about threads hold for files on a volume, down to its sectors.
    - FatIo, FatWrite: [fat32_read] and [fat32_write] over PageCache and
      FatFile.  Reads, and writes that stay inside the file, refine an array
      of bytes, and a write is on the disk when it returns; what a write of no
      bytes past the end does.

    ** Bounds and fuel

    Loops over data are structural recursion.  A loop without such a bound is
    [ploop k], which allows [2^k] iterations.  In every theorem about such a
    loop the result is shown to be reached, by a rank that decreases: 31
    rounds of doubling for a WAKE whose count is an [int], 33 for loops over
    32-bit cluster counts, [RB_STEPS] for paths in a tree of fewer than [2^64]
    nodes.  The loops of the page allocator have one unit of fuel for each
    page descriptor, which the list cannot exceed.  Flushing needs one round
    for each page descriptor at most; the fuel of [page_cache_get_ra] counts its
    calls to itself, and none is needed when it can succeed.  Where the code
    itself does not terminate, as in REQUEUE, the theorem says that no fuel
    suffices.
    Tables have the sizes of the code (1024 tasks, 64 futex buckets, 8192
    cached FAT sectors).

    ** What is not modelled

    - Effects outside the state of the modelled component: TLB invalidation,
      KASAN shadow memory, statistics that nothing reads back, log messages.
    - Weak memory: atomic accesses are sequentially consistent.
    - Assembly (boot, trap entry, user-copy routines) and register-level
      device drivers (AHCI, xHCI, PCI, virtio transports, graphics), whose
      meaning is that of the hardware.
    - Writes that extend a file are modelled, without a theorem on what they
      store; the lock of an inode is not.
    - The directories of FAT32, faults on file mappings, the VFS and the
      in-memory file systems, sockets, terminals, event descriptors, signal
      delivery and program loading.
    - User programs, the vendored sources of the compositor, tests and tools.
*)
From stdpp Require Export base numbers list gmap.
From Stdlib Require Export ZArith Lia.
Open Scope Z_scope.

(** ** Machine integers

    A [w]-bit unsigned integer is the [Z] in [0, 2^w); every C operation that
    can leave that range is followed by an explicit wrap-around. *)

Definition u8 (x : Z) : Z := x mod 2 ^ 8.
Definition u16 (x : Z) : Z := x mod 2 ^ 16.
Definition u32 (x : Z) : Z := x mod 2 ^ 32.
Definition u64 (x : Z) : Z := x mod 2 ^ 64.

Definition UINT32_MAX : Z := 2 ^ 32 - 1.
Definition UINT64_MAX : Z := 2 ^ 64 - 1.

(** Reinterpretation of a [w]-bit pattern as a signed integer. *)
Definition s32 (x : Z) : Z := (x + 2 ^ 31) mod 2 ^ 32 - 2 ^ 31.
Definition s64 (x : Z) : Z := (x + 2 ^ 63) mod 2 ^ 64 - 2 ^ 63.

Definition is_u32 (x : Z) : Prop := 0 <= x < 2 ^ 32.
Definition is_u64 (x : Z) : Prop := 0 <= x < 2 ^ 64.

Lemma u16_small x : 0 <= x < 2 ^ 16 -> u16 x = x.
Proof. intros. by apply Z.mod_small. Qed.

Lemma u32_small x : 0 <= x < 2 ^ 32 -> u32 x = x.
Proof. intros. by apply Z.mod_small. Qed.

Lemma u64_small x : 0 <= x < 2 ^ 64 -> u64 x = x.
Proof. intros. by apply Z.mod_small. Qed.

Lemma u16_range x : 0 <= u16 x < 2 ^ 16.
Proof. by apply Z.mod_pos_bound. Qed.

Lemma u32_range x : 0 <= u32 x < 2 ^ 32.
Proof. by apply Z.mod_pos_bound. Qed.

Lemma u64_range x : 0 <= u64 x < 2 ^ 64.
Proof. by apply Z.mod_pos_bound. Qed.

Lemma s64_small x : - 2 ^ 63 <= x < 2 ^ 63 -> s64 x = x.
Proof. intros. unfold s64. rewrite Z.mod_small; lia. Qed.

Lemma s32_small x : - 2 ^ 31 <= x < 2 ^ 31 -> s32 x = x.
Proof. intros. unfold s32. rewrite Z.mod_small; lia. Qed.

(** Index arithmetic on a ring of [c] slots. *)
Lemma ring_mod_neg a c : - c <= a < 0 -> a mod c = a + c.
Proof.
  intros. rewrite <- (Z.mod_add a 1 c) by lia. rewrite Z.mod_small; lia.
Qed.

Lemma ring_succ a c : 0 <= a < c -> (a + 1) mod c = if a + 1 =? c then 0 else a + 1.
Proof.
  intros. destruct (Z.eqb_spec (a + 1) c) as [-> | ?].
  - apply Z.mod_same. lia.
  - apply Z.mod_small. lia.
Qed.

Lemma ring_sub a b c : 0 <= a < c -> 0 <= b < c ->
  (a - b) mod c = if b <=? a then a - b else a - b + c.
Proof.
  intros. destruct (Z.leb_spec b a).
  - apply Z.mod_small. lia.
  - apply ring_mod_neg. lia.
Qed.

(** [i] slots past [h] and back. *)
Lemma ring_offset_inv h i c : 0 <= i < c -> ((h + i) mod c - h) mod c = i.
Proof.
  intros. rewrite Zminus_mod_idemp_l. replace (h + i - h) with i by lia.
  by apply Z.mod_small.
Qed.

Lemma ring_offset_to h t c : 0 <= t < c -> (h + (t - h) mod c) mod c = t.
Proof.
  intros. rewrite Zplus_mod_idemp_r. replace (h + (t - h)) with t by lia.
  by apply Z.mod_small.
Qed.

(** Bit-flag tests: [x & m] used as a C condition. *)
Definition has_flag (x m : Z) : bool := negb (Z.land x m =? 0).
Definition set_flag (x m : Z) : Z := Z.lor x m.
Definition clear_flag (x m : Z) : Z := Z.ldiff x m.

Lemma has_flag_lor x a b : has_flag x (Z.lor a b) = has_flag x a || has_flag x b.
Proof.
  unfold has_flag. rewrite Z.land_lor_distr_r. apply eq_true_iff_eq.
  rewrite orb_true_iff, !negb_true_iff, !Z.eqb_neq, Z.lor_eq_0_iff. destruct (decide (Z.land x a = 0)); tauto.
Qed.

Lemma has_flag_set x m m' : has_flag (set_flag x m) m' = has_flag x m' || has_flag m m'.
Proof.
  unfold set_flag, has_flag at 1. rewrite Z.land_comm. etrans; [apply (has_flag_lor m' x m) |].
  unfold has_flag. by rewrite !(Z.land_comm m').
Qed.

Lemma has_flag_clear x m m' : Z.land m m' = 0 -> has_flag (clear_flag x m) m' = has_flag x m'.
Proof.
  intros Hd. unfold has_flag, clear_flag. do 2 f_equal. apply Z.bits_inj'. intros n Hn.
  rewrite !Z.land_spec, Z.ldiff_spec. apply (f_equal (fun z => Z.testbit z n)) in Hd.
  rewrite Z.land_spec, Z.bits_0 in Hd. destruct (Z.testbit x n), (Z.testbit m n), (Z.testbit m' n); done.
Qed.

Lemma has_flag_clear_same x m m' : Z.ldiff m' m = 0 -> has_flag (clear_flag x m) m' = false.
Proof.
  intros Hd. unfold has_flag, clear_flag. apply negb_false_iff, Z.eqb_eq, Z.bits_inj'. intros n Hn.
  rewrite Z.land_spec, Z.ldiff_spec, Z.bits_0. apply (f_equal (fun z => Z.testbit z n)) in Hd.
  rewrite Z.ldiff_spec, Z.bits_0 in Hd. destruct (Z.testbit x n), (Z.testbit m n), (Z.testbit m' n); done.
Qed.

(** ** errno (include/uapi/xos/errno.h) *)

Definition EPERM : Z := 1.
Definition ENOENT : Z := 2.
Definition EINTR : Z := 4.
Definition EIO : Z := 5.
Definition EBADF : Z := 9.
Definition EAGAIN : Z := 11.
Definition ENOMEM : Z := 12.
Definition EFAULT : Z := 14.
Definition EEXIST : Z := 17.
Definition EINVAL : Z := 22.
Definition EMFILE : Z := 24.
Definition ENOLCK : Z := 37.
Definition ENOSYS : Z := 38.

Definition EPROTO : Z := 71.
Definition ERESTART : Z := 85.
Definition EOPNOTSUPP : Z := 95.
Definition ETIMEDOUT : Z := 110.
Definition EWOULDBLOCK : Z := EAGAIN.

Definition PAGE_SHIFT : Z := 12.
Definition PAGE_SIZE : Z := 4096.

(** utils/macro.h and arch/x64/memlayout.h. *)
Definition ALIGN_UP (val aligned : Z) : Z := Z.land (u64 (val + aligned - 1)) (Z.lnot (aligned - 1)).
Definition PHY_TO_PAGE (addr : Z) : Z := Z.shiftr addr PAGE_SHIFT.
Definition GET_PAGE_NUM (len : Z) : Z := u64 (len + PAGE_SIZE - 1) / PAGE_SIZE.

(** ** Allocation failures

    Code that calls [kmalloc] for a fixed-size descriptor is run against an
    oracle: the list of outcomes of the successive calls (an exhausted list
    means that all further calls succeed). *)

Definition oracle := list bool.

Definition kmalloc_ok (m : oracle) : bool * oracle :=
  match m with
  | [] => (true, [])
  | b :: m' => (b, m')
  end.

Definition no_oom (m : oracle) : Prop := Forall (fun b => b = true) m.

Lemma no_oom_nil : no_oom [].
Proof. constructor. Qed.

Lemma kmalloc_ok_no_oom m : no_oom m -> (kmalloc_ok m).1 = true /\ no_oom (kmalloc_ok m).2.
Proof. intros H. destruct H; [split; [done | constructor] | by split]. Qed.

(** ** Automation *)

(** Turn boolean comparisons into their propositions everywhere. *)
Ltac bool_to_prop :=
  repeat match goal with
  | H : (_ && _)%bool = true |- _ => apply andb_true_iff in H; destruct H
  | H : (_ && _)%bool = false |- _ => apply andb_false_iff in H
  | H : (_ || _)%bool = true |- _ => apply orb_true_iff in H
  | H : (_ || _)%bool = false |- _ => apply orb_false_iff in H; destruct H
  | H : negb _ = true |- _ => apply negb_true_iff in H
  | H : negb _ = false |- _ => apply negb_false_iff in H
  | H : (_ <? _) = true |- _ => apply Z.ltb_lt in H
  | H : (_ <? _) = false |- _ => apply Z.ltb_ge in H
  | H : (_ <=? _) = true |- _ => apply Z.leb_le in H
  | H : (_ <=? _) = false |- _ => apply Z.leb_gt in H
  | H : (_ =? _) = true |- _ => apply Z.eqb_eq in H
  | H : (_ =? _) = false |- _ => apply Z.eqb_neq in H
  end.

(** Split the goal along the first [match] or [if] it contains. *)
Ltac split_match :=
  match goal with
  | |- context [match ?x with _ => _ end] =>
      let E := fresh "E" in destruct x eqn:E
  end.

Ltac split_match_in H :=
  match type of H with
  | context [match ?x with _ => _ end] =>
      let E := fresh "E" in destruct x eqn:E
  end.

(** Decompose list membership hypotheses. *)
Ltac elem_inv :=
  repeat match goal with
  | H : _ ∈ [] |- _ => by apply not_elem_of_nil in H
  | H : _ ∈ [_] |- _ => apply list_elem_of_singleton in H; subst
  | H : _ ∈ _ :: _ |- _ => apply elem_of_cons in H; destruct H as [H | H]; [subst |]
  | H : _ ∈ _ ++ _ |- _ => apply elem_of_app in H; destruct H as [H | H]
  end.

(** Evaluate flag tests on words built by setting and clearing flags. *)
Ltac flag_const :=
  repeat match goal with
  | |- context [has_flag ?a ?b] =>
      let v := eval vm_compute in (has_flag a b) in
      match v with
      | true => change (has_flag a b) with true
      | false => change (has_flag a b) with false
      end
  end; rewrite ?orb_false_r, ?orb_true_r.

Ltac flags :=
  repeat first [rewrite has_flag_set | rewrite has_flag_clear by reflexivity
               | rewrite has_flag_clear_same by reflexivity]; flag_const.

Create HintDb xos.
Create Rewrite HintDb xos.
#[export] Hint Resolve u32_range u64_range : xos.
#[export] Hint Rewrite u32_small u64_small using lia : xos.

(** ** Arrays as lists

    [splice off d l] is the array [l] after [memcpy] of the block [d] at
    offset [off]; the caller guarantees that the block fits. *)

Definition splice {A} (off : nat) (d l : list A) : list A :=
  take off l ++ d ++ drop (off + length d) l.

Definition slice {A} (off n : nat) (l : list A) : list A := take n (drop off l).

Section arrays.
Context {A : Type}.
Implicit Types (l d : list A).

Lemma length_splice off d l :
  (off + length d <= length l)%nat -> length (splice off d l) = length l.
Proof.
  intros. unfold splice. rewrite !length_app, length_take, length_drop. lia.
Qed.

Lemma length_slice off n l :
  (off + n <= length l)%nat -> length (slice off n l) = n.
Proof. intros. unfold slice. rewrite length_take, length_drop. lia. Qed.

Lemma slice_splice_eq off d l :
  (off + length d <= length l)%nat ->
  slice off (length d) (splice off d l) = d.
Proof.
  intros. unfold slice, splice.
  rewrite drop_app_length' by (rewrite length_take; lia).
  apply take_app_length.
Qed.

(** Writing back what is there. *)
Lemma splice_slice off n l :
  (off + n <= length l)%nat -> splice off (slice off n l) l = l.
Proof.
  intros. unfold splice. rewrite length_slice by done. unfold slice.
  rewrite <- drop_drop, take_drop. apply take_drop.
Qed.

(** A slice that does not meet the written block is unchanged. *)
Lemma slice_splice_ne off d l off' n :
  (off + length d <= length l)%nat ->
  (off' + n <= off \/ off + length d <= off')%nat ->
  slice off' n (splice off d l) = slice off' n l.
Proof.
  intros Hb Hd. unfold slice. apply list_eq. intros i.
  destruct (decide (i < n)%nat) as [Hi | Hi].
  2:{ rewrite !lookup_ge_None_2; [done | rewrite length_take; lia ..]. }
  rewrite !lookup_take_lt, !lookup_drop by done. unfold splice.
  destruct Hd as [Hd | Hd].
  - rewrite lookup_app_l by (rewrite length_take; lia).
    by rewrite lookup_take_lt by lia.
  - rewrite lookup_app_r by (rewrite length_take; lia).
    rewrite lookup_app_r by (rewrite length_take; lia).
    rewrite lookup_drop, length_take. f_equal. lia.
Qed.

(** Single-cell writes. *)
Lemma slice_insert_ne off b l off' n :
  (off < off' \/ off' + n <= off)%nat ->
  slice off' n (<[off := b]> l) = slice off' n l.
Proof.
  intros Hd. unfold slice. destruct Hd.
  - by rewrite drop_insert_lt by lia.
  - rewrite drop_insert_ge by lia. by rewrite take_insert_ge by lia.
Qed.

Lemma slice_insert_in off b l off' n :
  (off' <= off < off' + n)%nat ->
  slice off' n (<[off := b]> l) = <[(off - off')%nat := b]> (slice off' n l).
Proof.
  intros. unfold slice. rewrite drop_insert_ge by lia.
  by rewrite take_insert_lt by lia.
Qed.

Lemma lookup_slice off n l i :
  (i < n)%nat -> slice off n l !! i = l !! (off + i)%nat.
Proof. intros. unfold slice. by rewrite lookup_take_lt, lookup_drop. Qed.

(** Growing an array prefix by the element just written. *)
Lemma take_S_insert k x l :
  (k < length l)%nat -> take (S k) (<[k := x]> l) = take k l ++ [x].
Proof.
  intros. erewrite take_S_r by (by apply list_lookup_insert_eq).
  by rewrite take_insert_ge by lia.
Qed.
End arrays.

#[export] Hint Rewrite @length_splice @length_slice using lia : xos.

(** [a[i]] with a C index: a fault outside the array. *)
Definition arr_get {A} (l : list A) (i : Z) : option A :=
  if i <? 0 then None else l !! Z.to_nat i.

Definition arr_set {A} (l : list A) (i : Z) (v : A) : option (list A) :=
  if (i <? 0) || (Z.of_nat (length l) <=? i) then None else Some (<[Z.to_nat i := v]> l).

Section c_arrays.
Context {A : Type}.
Implicit Types (l : list A) (i j : Z).

Lemma arr_get_Some l i : 0 <= i < Z.of_nat (length l) -> exists x, arr_get l i = Some x.
Proof.
  intros. unfold arr_get. rewrite (proj2 (Z.ltb_ge _ _)) by lia.
  apply lookup_lt_is_Some_2. lia.
Qed.

Lemma arr_get_lookup l i x : arr_get l i = Some x -> l !! Z.to_nat i = Some x.
Proof. unfold arr_get. by destruct (i <? 0). Qed.

Lemma arr_get_bound l i x : arr_get l i = Some x -> 0 <= i < Z.of_nat (length l).
Proof.
  unfold arr_get. destruct (Z.ltb_spec i 0); [done |]. intros ?%lookup_lt_Some. lia.
Qed.

Lemma arr_set_Some l i v : 0 <= i < Z.of_nat (length l) ->
  arr_set l i v = Some (<[Z.to_nat i := v]> l).
Proof.
  intros. unfold arr_set. rewrite (proj2 (Z.ltb_ge i 0)), (proj2 (Z.leb_gt _ i)) by lia. done.
Qed.

Lemma arr_get_insert_eq l i v : 0 <= i < Z.of_nat (length l) ->
  arr_get (<[Z.to_nat i := v]> l) i = Some v.
Proof.
  intros. unfold arr_get. rewrite (proj2 (Z.ltb_ge i 0)) by lia. apply list_lookup_insert_eq. lia.
Qed.

Lemma arr_get_insert_ne l i j v : 0 <= i -> i <> j -> arr_get (<[Z.to_nat i := v]> l) j = arr_get l j.
Proof.
  intros. unfold arr_get. destruct (Z.ltb_spec j 0); [done |]. apply list_lookup_insert_ne. lia.
Qed.
End c_arrays.

(** ** Little-endian words *)

Definition is_byte (b : Z) : Prop := 0 <= b < 2 ^ 8.

(** [p[0] | p[1] << 8 | p[2] << 16 | p[3] << 24] and its inverse. *)
Definition le32 (b0 b1 b2 b3 : Z) : Z :=
  Z.lor (Z.lor (Z.lor b0 (Z.shiftl b1 8)) (Z.shiftl b2 16)) (Z.shiftl b3 24).
Definition le32_bytes (v : Z) : list Z := [u8 v; u8 (Z.shiftr v 8); u8 (Z.shiftr v 16); u8 (Z.shiftr v 24)].

Lemma lor_disjoint a b k : 0 <= k -> 0 <= b < 2 ^ k -> Z.lor (Z.shiftl a k) b = a * 2 ^ k + b.
Proof.
  intros Hk Hb. rewrite <- Z.shiftl_mul_pow2 by done.
  assert (Hz : Z.land (Z.shiftl a k) b = 0).
  { apply Z.bits_inj'. intros n Hn. rewrite Z.land_spec, Z.bits_0. destruct (decide (n < k)).
    - by rewrite Z.shiftl_spec_low.
    - destruct (decide (b = 0)) as [-> | ?]; [by rewrite Z.bits_0, andb_false_r |].
      rewrite (Z.bits_above_log2 b n); [apply andb_false_r | lia |]. apply Z.log2_lt_pow2; [lia |].
      eapply Z.lt_le_trans; [apply Hb | apply Z.pow_le_mono_r; lia]. }
  rewrite <- Z.lxor_lor by done. by rewrite <- Z.add_nocarry_lxor.
Qed.

Lemma lor_shiftl_add a b k : 0 <= k -> 0 <= a < 2 ^ k -> Z.lor a (Z.shiftl b k) = a + b * 2 ^ k.
Proof. intros. rewrite Z.lor_comm, lor_disjoint by done. lia. Qed.

Lemma le32_add b0 b1 b2 b3 : is_byte b0 -> is_byte b1 -> is_byte b2 ->
  le32 b0 b1 b2 b3 = b0 + b1 * 2 ^ 8 + b2 * 2 ^ 16 + b3 * 2 ^ 24.
Proof.
  unfold is_byte, le32. intros. rewrite (lor_shiftl_add b0) by lia.
  rewrite (lor_shiftl_add (b0 + _)) by lia. by rewrite lor_shiftl_add by lia.
Qed.

Lemma le32_range b0 b1 b2 b3 : is_byte b0 -> is_byte b1 -> is_byte b2 -> is_byte b3 -> 0 <= le32 b0 b1 b2 b3 < 2 ^ 32.
Proof. intros. rewrite le32_add by done. unfold is_byte in *. lia. Qed.

Lemma le32_roundtrip v : is_u32 v ->
  le32 (u8 v) (u8 (Z.shiftr v 8)) (u8 (Z.shiftr v 16)) (u8 (Z.shiftr v 24)) = v.
Proof.
  intros Hv. unfold is_u32 in Hv. rewrite le32_add by (apply Z.mod_pos_bound; lia).
  rewrite !Z.shiftr_div_pow2 by lia. unfold u8. Z.to_euclidean_division_equations. lia.
Qed.

(** A filter only looks at the elements. *)
Lemma filter_ext_in {A} (P Q : A -> Prop) `{!forall x, Decision (P x), !forall x, Decision (Q x)} (l : list A) :
  (forall x, x ∈ l -> P x <-> Q x) -> filter P l = filter Q l.
Proof.
  induction l as [| x l IH]; intros Hl0; [done |]. rewrite !filter_cons.
  assert (Hl : filter P l = filter Q l) by (apply IH; intros; apply Hl0; by right).
  destruct (decide (P x)) as [HP | HP]; rewrite Hl.
  - rewrite decide_True; [done |]. apply Hl0; [left | done].
  - rewrite decide_False; [done |]. intros HQ. apply HP, Hl0; [left | done].
Qed.

(** ** Operation sequences and functional refinement

    A component is a step function from a state and an operation to the next
    state and the operation's result.  [run] folds it over a sequence and
    collects the results, which is what a caller observes. *)

Section runs.
Context {S O R : Type} (f : S -> O -> S * R).

Fixpoint run (s : S) (ops : list O) : S * list R :=
  match ops with
  | [] => (s, [])
  | o :: ops' =>
      let '(s', r) := f s o in
      let '(s'', rs) := run s' ops' in (s'', r :: rs)
  end.

Lemma run_invariant (I : S -> Prop) (ok : O -> Prop) :
  (forall s o, I s -> ok o -> I (f s o).1) ->
  forall ops s, I s -> Forall ok ops -> I (run s ops).1.
Proof.
  intros Hstep ops. induction ops as [| o ops IH]; intros s Hs Hok; [done |].
  inversion_clear Hok as [| ? ? Ho Hops]. cbn.
  specialize (Hstep s o Hs Ho). destruct (f s o) as [s' r].
  specialize (IH s' Hstep Hops). by destruct (run s' ops).
Qed.
End runs.

Section refinement.
Context {S Q O R : Type} (impl : S -> O -> S * R) (spec : Q -> O -> Q * R).
Context (rel : S -> Q -> Prop) (ok : O -> Prop).

(** A forward simulation between deterministic components makes their
    results equal on every sequence of admissible operations. *)
Lemma run_refines :
  (forall s q o, rel s q -> ok o ->
     (impl s o).2 = (spec q o).2 /\ rel (impl s o).1 (spec q o).1) ->
  forall ops s q, rel s q -> Forall ok ops ->
    (run impl s ops).2 = (run spec q ops).2 /\
    rel (run impl s ops).1 (run spec q ops).1.
Proof.
  intros Hsim ops. induction ops as [| o ops IH]; intros s q Hrel Hok; [done |].
  inversion_clear Hok as [| ? ? Ho Hops]. cbn.
  destruct (Hsim s q o Hrel Ho) as [Hr Hrel'].
  destruct (impl s o) as [s' r], (spec q o) as [q' r']. cbn in *.
  destruct (IH s' q' Hrel' Hops) as [Hrs Hfin].
  destruct (run impl s' ops), (run spec q' ops). cbn in *. by subst.
Qed.
End refinement.

(** ** Loops without a structural bound

    [loop2 f k] runs the body [f] at most [2^k] times; the body returns the
    next state or the result. *)

Section loops.
Context {S R : Type} (f : S -> option (S + R)).

Fixpoint loop2 (k : nat) (s : S) : option (S + R) :=
  match k with
  | O => f s
  | Datatypes.S k' => r ← loop2 k' s; match r with inl s' => loop2 k' s' | inr x => Some (inr x) end
  end.

(** A loop that keeps an invariant and never returns runs out of any fuel. *)
Lemma loop2_forever (I : S -> Prop) :
  (forall s, I s -> exists s', f s = Some (inl s') /\ I s') ->
  forall k s, I s -> exists s', loop2 k s = Some (inl s') /\ I s'.
Proof.
  intros Hstep k. induction k as [| k IH]; intros s Hs; [auto |]. cbn [loop2].
  destruct (IH s Hs) as (s1 & -> & Hs1). cbn. auto.
Qed.

(** A rank that decreases bounds the number of iterations.  The rank is a
    ghost: the invariant relates it to the state. *)
Lemma loop2_rank (I : Z -> S -> Prop) (Q : R -> Prop) :
  (forall n s, I n s -> exists r, f s = Some r /\
     match r with inl s' => exists n', I n' s' /\ 0 <= n' < n | inr x => Q x end) ->
  forall k n s, I n s -> n < 2 ^ Z.of_nat k -> exists x, loop2 k s = Some (inr x) /\ Q x.
Proof.
  intros Hstep.
  assert (Hk : forall k n s, I n s -> exists r, loop2 k s = Some r /\
    match r with inl s' => exists n', I n' s' /\ 0 <= n' /\ n' <= n - 2 ^ Z.of_nat k | inr x => Q x end).
  { induction k as [| k IH]; intros n s Hs.
    - destruct (Hstep n s Hs) as (r & Hr & Hp). exists r. split; [done |]. destruct r; [| done].
      destruct Hp as (n' & ? & ?). exists n'. change (2 ^ Z.of_nat 0) with 1. split_and!; [done | lia ..].
    - cbn [loop2]. destruct (IH n s Hs) as (r & -> & Hp). cbn. destruct r as [s' | x]; [| by eexists].
      destruct Hp as (n' & Hs' & H0 & Hm). destruct (IH n' s' Hs') as (r & -> & Hp').
      exists r. split; [done |]. destruct r as [s'' |]; [| done]. destruct Hp' as (n'' & ? & ? & ?).
      exists n''. split_and!; [done | done |].
      replace (Z.of_nat (Datatypes.S k)) with (Z.of_nat k + 1) by lia. rewrite Z.pow_add_r by lia. lia. }
  intros k n s Hs Hm. destruct (Hk k n s Hs) as (r & Hr & Hp). destruct r as [s' | x].
  - destruct Hp as (? & ? & ? & ?). lia.
  - by exists x.
Qed.

Lemma loop2_total (I : S -> Prop) (m : S -> Z) (Q : R -> Prop) :
  (forall s, I s -> exists r, f s = Some r /\
     match r with inl s' => I s' /\ 0 <= m s' < m s | inr x => Q x end) ->
  forall k s, I s -> m s < 2 ^ Z.of_nat k -> exists x, loop2 k s = Some (inr x) /\ Q x.
Proof.
  intros Hstep k s Hs Hm. apply (loop2_rank (fun n s => I s /\ m s = n) Q) with (n := m s); [| done | done].
  intros n s0 [Hs0 <-]. destruct (Hstep s0 Hs0) as (r & Hr & Hp). exists r. split; [done |].
  destruct r as [s' |]; [| done]. destruct Hp. by exists (m s').
Qed.
End loops.

(** Operations that may fault: a fault stops the run. *)
Section fallible_runs.
Context {S O : Type} (f : S -> O -> option S).

Fixpoint run_opt (s : S) (ops : list O) : option S :=
  match ops with
  | [] => Some s
  | o :: ops' => s' ← f s o; run_opt s' ops'
  end.

Lemma run_opt_ok (I : S -> Prop) (ok : O -> Prop) :
  (forall s o, I s -> ok o -> exists s', f s o = Some s' /\ I s') ->
  forall ops s, I s -> Forall ok ops -> exists s', run_opt s ops = Some s' /\ I s'.
Proof.
  intros Hstep ops. induction ops as [| o ops IH]; intros s Hs Hok; [by exists s |].
  inversion_clear Hok. destruct (Hstep s o) as (s' & Heq & Hs'); [done | done |].
  cbn. rewrite Heq. by apply IH.
Qed.

Lemma run_opt_safe (I : S -> Prop) :
  (forall s o, I s -> exists s', f s o = Some s' /\ I s') ->
  forall ops s, I s -> exists s', run_opt s ops = Some s' /\ I s'.
Proof.
  intros Hstep ops s Hs. apply (run_opt_ok I (fun _ => True)); [auto | done |]. by apply Forall_true.
Qed.
End fallible_runs.

(** ** Programs

    Code that reads and writes one shared state and may fault: a state monad
    over [option], with the total-correctness predicate [wp].  [wp m s Q] says
    that [m] started in [s] ends without a fault in a result and a state
    satisfying [Q]. *)

Definition prog (S A : Type) : Type := S -> option (A * S).

#[export] Instance prog_ret {S} : MRet (prog S) := fun A a s => Some (a, s).
#[export] Instance prog_bind {S} : MBind (prog S) :=
  fun A B f m s => match m s with Some (a, s') => f a s' | None => None end.

Definition wp {S A} (m : prog S A) (s : S) (Q : A -> S -> Prop) : Prop :=
  exists a s', m s = Some (a, s') /\ Q a s'.

(** [for (;;) body]: at most [2^k] iterations; the body says what to go on
    with or what to return. *)
Definition ploop {S X R} (k : nat) (body : X -> prog S (X + R)) (x : X) : prog S R :=
  fun s =>
    match loop2 (fun xs : X * S =>
        match body xs.1 xs.2 with
        | Some (inl x', s') => Some (inl (x', s'))
        | Some (inr r, s') => Some (inr (r, s'))
        | None => None
        end) k (x, s) with
    | Some (inr rs) => Some rs
    | _ => None
    end.

Section wp_rules.
Context {S : Type}.

Lemma wp_ret {A} (a : A) (s : S) (Q : A -> S -> Prop) : Q a s -> wp (mret a) s Q.
Proof. intros. by exists a, s. Qed.

Lemma wp_bind {A B} (m : prog S A) (f : A -> prog S B) s Q :
  wp m s (fun a s' => wp (f a) s' Q) -> wp (m ≫= f) s Q.
Proof.
  intros (a & s' & Hm & b & s'' & Hf & HQ). exists b, s''. split; [| done].
  unfold mbind, prog_bind. by rewrite Hm.
Qed.

Lemma wp_mono {A} (m : prog S A) s (P Q : A -> S -> Prop) :
  wp m s P -> (forall a s', P a s' -> Q a s') -> wp m s Q.
Proof. intros (a & s' & Hm & HP) H. exists a, s'. auto. Qed.

(** A loop whose rank decreases returns. *)
Lemma wp_ploop {X R} (I : Z -> X -> S -> Prop) (body : X -> prog S (X + R)) Q k n x s :
  (forall n x s, I n x s -> wp (body x) s (fun r s' =>
     match r with inl x' => exists n', I n' x' s' /\ 0 <= n' < n | inr y => Q y s' end)) ->
  I n x s -> n < 2 ^ Z.of_nat k -> wp (ploop k body x) s Q.
Proof.
  intros Hbody HI Hm. unfold wp, ploop.
  edestruct (loop2_rank (fun xs : X * S =>
        match body xs.1 xs.2 with
        | Some (inl x', s') => Some (inl (x', s'))
        | Some (inr r, s') => Some (inr (r, s'))
        | None => None
        end) (fun n xs => I n xs.1 xs.2) (fun rs => Q rs.1 rs.2))
    as (rs & -> & HQ); [| exact HI | exact Hm |].
  - intros n0 [x0 s0] HI0. destruct (Hbody n0 x0 s0 HI0) as (r & s1 & Hr & Hp). cbn in *. rewrite Hr.
    destruct r; by eexists.
  - exists rs.1, rs.2. by destruct rs.
Qed.

Lemma ploop_forever {X R} (I : X -> S -> Prop) (body : X -> prog S (X + R)) :
  (forall x s, I x s -> exists x' s', body x s = Some (inl x', s') /\ I x' s') ->
  forall k x s, I x s -> ploop k body x s = None.
Proof.
  intros Hbody k x s HI. unfold ploop. edestruct (loop2_forever (fun xs : X * S =>
        match body xs.1 xs.2 with
        | Some (inl x', s') => Some (inl (x', s'))
        | Some (inr r, s') => Some (inr (r, s'))
        | None => None
        end) (fun xs => I xs.1 xs.2)) as (xs & -> & _); [| exact HI | done].
  intros [x0 s0] H0. destruct (Hbody x0 s0 H0) as (x' & s' & He & H'). cbn in *. rewrite He. by eexists.
Qed.

Lemma wp_val {A} (m : prog S A) s a s' (Q : A -> S -> Prop) : m s = Some (a, s') -> Q a s' -> wp m s Q.
Proof. intros. by exists a, s'. Qed.

(** Programs are deterministic: what is shown separately holds together. *)
Lemma wp_both {A} (m : prog S A) s (P Q : A -> S -> Prop) : wp m s P -> wp m s Q -> wp m s (fun a s' => P a s' /\ Q a s').
Proof. intros (a & s' & Hm & HP) (a' & s'' & Hm' & HQ). rewrite Hm in Hm'. injection Hm' as <- <-. by exists a, s'. Qed.

(** A body that returns at once. *)
Lemma ploop_return {X R} (body : X -> prog S (X + R)) k x s r s' :
  body x s = Some (inr r, s') -> ploop k body x s = Some (r, s').
Proof.
  intros Hb. destruct (wp_ploop (fun _ x0 s0 => x0 = x /\ s0 = s) body (fun r0 s0 => r0 = r /\ s0 = s') k 0 x s)
    as (r0 & s0 & He & -> & ->); [| done | | done].
  - intros n x0 s0 [-> ->]. exists (inr r), s'. done.
  - apply Z.pow_pos_nonneg; lia.
Qed.
End wp_rules.
