(* ===== verification/Kfifo.v ===== *)
(** * kfifo: the single-producer single-consumer element ring
    (kernel/bsd/kfifo.c, kernel/bsd/kfifo.h)

    The ring is modelled at byte level: [buf] is the kmalloc'd array of
    [cap * esize] bytes, [head] and [tail] the two slot indices.  One slot is
    always left empty, so the ring holds at most [cap - 1] elements.

    - Section [ops] of the file: the operations, one definition per function.
    - [Spec]: the queue a ring stands for and the refinement lemmas.
    - [Spsc]: the producer and the consumer as interleaved threads, at the
      granularity of the code's atomic loads and stores. *)
From S2P Require Import Prelude.

Record kfifo := Kfifo {
  buf : option (list Z);   (* NULL or the byte array *)
  cap : Z;
  esize : Z;
  head : Z;
  tail : Z;
}.

(** [mem] is the result of [kmalloc((size_t)cap * esize)]. *)
Definition kfifo_alloc (kf : kfifo) (mem : option (list Z)) (cap' esize' : Z)
  : kfifo * bool :=
  if (cap' =? 0) || (esize' =? 0) then (kf, false)
  else match mem with
       | None => (Kfifo None (cap kf) (esize kf) (head kf) (tail kf), false)
       | Some b => (Kfifo (Some b) cap' esize' 0 0, true)
       end.

Definition kfifo_free (kf : kfifo) : kfifo :=
  match buf kf with
  | None => kf
  | Some _ => Kfifo None (cap kf) (esize kf) (head kf) (tail kf)
  end.

Definition kfifo_len (kf : kfifo) : Z :=
  let h := head kf in
  let t := tail kf in
  if h <=? t then u32 (t - h) else u32 (cap kf - h + t).

Definition kfifo_reset (kf : kfifo) : kfifo :=
  Kfifo (buf kf) (cap kf) (esize kf) (tail kf) (tail kf).

(** Byte offset of slot [i]. *)
Definition slot_off (kf : kfifo) (i : Z) : nat := Z.to_nat (i * esize kf).

Definition kfifo_in (kf : kfifo) (elem : list Z) : kfifo * bool :=
  match buf kf with
  | None => (kf, false)
  | Some b =>
      let h := head kf in
      let t := tail kf in
      let next := u32 (t + 1) mod cap kf in
      if next =? h then (kf, false)
      else
        let b' := splice (slot_off kf t) (take (Z.to_nat (esize kf)) elem) b in
        (Kfifo (Some b') (cap kf) (esize kf) (head kf) next, true)
  end.

(** The [for] loop of [kfifo_in_batch]: [n] iterations remain, [p] is the
    rest of the source array. *)
Fixpoint in_loop (n : nat) (kf : kfifo) (p : list Z) (done : Z) : kfifo * Z :=
  match n with
  | O => (kf, done)
  | S n' =>
      match kfifo_in kf p with
      | (kf', false) => (kf', done)
      | (kf', true) => in_loop n' kf' (drop (Z.to_nat (esize kf)) p) (u32 (done + 1))
      end
  end.

Definition kfifo_in_batch (kf : kfifo) (elems : list Z) (count : Z) : kfifo * Z :=
  match buf kf with
  | None => (kf, 0)
  | Some _ => if count =? 0 then (kf, 0) else in_loop (Z.to_nat count) kf elems 0
  end.

(** [None]: empty (or unallocated); [Some e]: the bytes copied to [out]. *)
Definition kfifo_out (kf : kfifo) : kfifo * option (list Z) :=
  match buf kf with
  | None => (kf, None)
  | Some b =>
      let h := head kf in
      let t := tail kf in
      if h =? t then (kf, None)
      else
        let e := slice (slot_off kf h) (Z.to_nat (esize kf)) b in
        (Kfifo (buf kf) (cap kf) (esize kf) (u32 (h + 1) mod cap kf) (tail kf), Some e)
  end.

Fixpoint out_loop (n : nat) (kf : kfifo) (out : list (list Z)) : kfifo * list (list Z) :=
  match n with
  | O => (kf, out)
  | S n' =>
      match kfifo_out kf with
      | (kf', None) => (kf', out)
      | (kf', Some e) => out_loop n' kf' (out ++ [e])
      end
  end.

(** Returns the elements written to [out]; the C result is their number. *)
Definition kfifo_out_batch (kf : kfifo) (count : Z) : kfifo * list (list Z) :=
  match buf kf with
  | None => (kf, [])
  | Some _ => if count =? 0 then (kf, []) else out_loop (Z.to_nat count) kf []
  end.

(** ** The queue a ring stands for *)
Module Spec.

(** Well-formedness: what [kfifo_alloc] establishes and every operation
    keeps. *)
Definition wf (kf : kfifo) : Prop :=
  0 < cap kf < 2 ^ 32 /\ 0 < esize kf < 2 ^ 32 /\
  0 <= head kf < cap kf /\ 0 <= tail kf < cap kf /\
  match buf kf with
  | None => False
  | Some b => Z.of_nat (length b) = cap kf * esize kf
  end.

Definition slot (kf : kfifo) (i : Z) : list Z :=
  match buf kf with
  | None => []
  | Some b => slice (slot_off kf i) (Z.to_nat (esize kf)) b
  end.

(** The elements between [head] and [tail], oldest first. *)
Definition contents (kf : kfifo) : list (list Z) :=
  (fun i => slot kf ((head kf + Z.of_nat i) mod cap kf)) <$>
    seq 0 (Z.to_nat ((tail kf - head kf) mod cap kf)).

Lemma length_contents kf :
  length (contents kf) = Z.to_nat ((tail kf - head kf) mod cap kf).
Proof. unfold contents. by rewrite length_fmap, length_seq. Qed.

Lemma kfifo_len_contents kf :
  wf kf -> kfifo_len kf = Z.of_nat (length (contents kf)).
Proof.
  intros (? & ? & ? & ? & _). rewrite length_contents, ring_sub by done.
  unfold kfifo_len. destruct (Z.leb_spec (head kf) (tail kf));
    rewrite u32_small; lia.
Qed.

Lemma contents_bound kf : wf kf -> Z.of_nat (length (contents kf)) <= cap kf - 1.
Proof.
  intros (? & _). rewrite length_contents.
  pose proof (Z.mod_pos_bound (tail kf - head kf) (cap kf)). lia.
Qed.

Lemma contents_nil_iff kf : wf kf -> contents kf = [] <-> head kf = tail kf.
Proof.
  intros (? & ? & ? & ? & _).
  rewrite <- length_zero_iff_nil, length_contents, ring_sub by done.
  destruct (Z.leb_spec (head kf) (tail kf)); lia.
Qed.

(** The ring is full exactly when it holds [cap - 1] elements. *)
Lemma full_iff kf :
  wf kf ->
  u32 (tail kf + 1) mod cap kf = head kf <->
  Z.of_nat (length (contents kf)) = cap kf - 1.
Proof.
  intros (? & ? & ? & ? & _).
  rewrite length_contents, ring_sub, u32_small, ring_succ by lia.
  destruct (Z.eqb_spec (tail kf + 1) (cap kf)), (Z.leb_spec (head kf) (tail kf)); lia.
Qed.

Lemma slot_range kf i :
  wf kf -> 0 <= i < cap kf ->
  match buf kf with
  | None => False
  | Some b => (slot_off kf i + Z.to_nat (esize kf) <= length b)%nat
  end.
Proof.
  intros (? & ? & ? & ? & Hb) Hi. destruct (buf kf); [| done].
  unfold slot_off. nia.
Qed.

(** Distinct slots are disjoint byte ranges. *)
Lemma slots_disjoint kf i j :
  wf kf -> 0 <= i < cap kf -> 0 <= j < cap kf -> i <> j ->
  (slot_off kf i + Z.to_nat (esize kf) <= slot_off kf j \/
   slot_off kf j + Z.to_nat (esize kf) <= slot_off kf i)%nat.
Proof.
  intros (? & ? & ? & ? & Hb) Hi Hj Hne. unfold slot_off.
  destruct (Z.lt_total i j) as [| [|]]; [left | done | right]; nia.
Qed.

Definition store (kf : kfifo) (t : Z) (e : list Z) (t' : Z) : kfifo :=
  match buf kf with
  | None => kf
  | Some b => Kfifo (Some (splice (slot_off kf t) e b)) (cap kf) (esize kf) (head kf) t'
  end.

Lemma slot_store_eq kf t e t' :
  wf kf -> 0 <= t < cap kf -> Z.of_nat (length e) = esize kf ->
  slot (store kf t e t') t = e.
Proof.
  intros Hwf Ht He. pose proof (slot_range kf t Hwf Ht).
  unfold slot, store. destruct (buf kf) eqn:E; [| done]. cbn.
  change (slot_off _ t) with (slot_off kf t) at 1.
  replace (Z.to_nat (esize kf)) with (length e) in * by lia.
  by apply slice_splice_eq.
Qed.

Lemma slot_store_ne kf t e t' i :
  wf kf -> 0 <= t < cap kf -> 0 <= i < cap kf -> i <> t ->
  Z.of_nat (length e) = esize kf ->
  slot (store kf t e t') i = slot kf i.
Proof.
  intros Hwf Ht Hi Hne He. pose proof (slot_range kf t Hwf Ht).
  pose proof (slots_disjoint kf i t Hwf Hi Ht Hne) as Hd.
  unfold slot, store. destruct (buf kf) eqn:E; [| done]. cbn.
  change (slot_off _ i) with (slot_off kf i) at 1.
  replace (Z.to_nat (esize kf)) with (length e) in * by lia.
  by apply slice_splice_ne.
Qed.

Lemma wf_store kf t e t' :
  wf kf -> 0 <= t < cap kf -> 0 <= t' < cap kf ->
  Z.of_nat (length e) = esize kf -> wf (store kf t e t').
Proof.
  intros Hwf Ht Ht' He. pose proof (slot_range kf t Hwf Ht).
  destruct Hwf as (? & ? & ? & ? & Hb).
  unfold wf, store. destruct (buf kf) eqn:E; [| done]. cbn.
  rewrite length_splice by lia. lia.
Qed.

Lemma kfifo_in_unfold kf elem :
  wf kf ->
  kfifo_in kf elem =
    if u32 (tail kf + 1) mod cap kf =? head kf then (kf, false)
    else (store kf (tail kf) (take (Z.to_nat (esize kf)) elem)
            (u32 (tail kf + 1) mod cap kf), true).
Proof.
  intros (? & ? & ? & ? & Hb). unfold kfifo_in, store.
  by destruct (buf kf) eqn:E.
Qed.

Lemma contents_store kf e :
  wf kf -> Z.of_nat (length e) = esize kf ->
  Z.of_nat (length (contents kf)) < cap kf - 1 ->
  contents (store kf (tail kf) e (u32 (tail kf + 1) mod cap kf)) = contents kf ++ [e].
Proof.
  intros Hwf He Hfull. pose proof Hwf as (? & ? & ? & ? & Hb).
  rewrite length_contents in Hfull.
  assert (Ht : 0 <= u32 (tail kf + 1) mod cap kf < cap kf) by (apply Z.mod_pos_bound; lia).
  unfold contents at 1.
  replace (head (store _ _ _ _)) with (head kf) by (unfold store; by destruct (buf kf)).
  replace (cap (store _ _ _ _)) with (cap kf) by (unfold store; by destruct (buf kf)).
  replace (tail (store _ _ _ _)) with (u32 (tail kf + 1) mod cap kf)
    by (unfold store; by destruct (buf kf)).
  assert (Hn : (u32 (tail kf + 1) mod cap kf - head kf) mod cap kf =
               (tail kf - head kf) mod cap kf + 1).
  { revert Hfull. rewrite u32_small, ring_succ, !ring_sub by (try lia; split_match; lia).
    destruct (Z.eqb_spec (tail kf + 1) (cap kf)), (Z.leb_spec (head kf) (tail kf));
      repeat split_match; bool_to_prop; lia. }
  rewrite Hn. pose proof (Z.mod_pos_bound (tail kf - head kf) (cap kf) ltac:(lia)).
  rewrite Z2Nat.inj_add, Nat.add_comm, seq_S, fmap_app by lia.
  rewrite Nat.add_0_l. f_equal.
  - apply list_fmap_ext. intros ? i Hi. apply lookup_seq in Hi as [-> Hi].
    apply slot_store_ne; [done .. | apply Z.mod_pos_bound; lia | | done].
    intros Heq. apply (f_equal (fun x => (x - head kf) mod cap kf)) in Heq.
    rewrite ring_offset_inv in Heq by lia. lia.
  - cbn. rewrite Z2Nat.id, ring_offset_to by lia.
    by rewrite slot_store_eq.
Qed.

(** Enqueue: refused exactly when [cap - 1] elements are queued, otherwise
    the element goes to the back of the queue. *)
Lemma kfifo_in_refines kf elem :
  wf kf -> esize kf <= Z.of_nat (length elem) ->
  if Z.of_nat (length (contents kf)) =? cap kf - 1
  then kfifo_in kf elem = (kf, false)
  else exists kf', kfifo_in kf elem = (kf', true) /\ wf kf' /\
         cap kf' = cap kf /\ esize kf' = esize kf /\
         contents kf' = contents kf ++ [take (Z.to_nat (esize kf)) elem].
Proof.
  intros Hwf He. pose proof (full_iff kf Hwf) as Hfull.
  pose proof (contents_bound kf Hwf). pose proof Hwf as (? & ? & ? & ? & Hb).
  rewrite kfifo_in_unfold by done.
  destruct (Z.eqb_spec (u32 (tail kf + 1) mod cap kf) (head kf)),
    (Z.eqb_spec (Z.of_nat (length (contents kf))) (cap kf - 1)); try tauto.
  assert (Hl : Z.of_nat (length (take (Z.to_nat (esize kf)) elem)) = esize kf)
    by (rewrite length_take; lia).
  eexists. split; [done |]. split; [| split; [| split]].
  - apply wf_store; [done .. | apply Z.mod_pos_bound; lia | done].
  - unfold store. by destruct (buf kf).
  - unfold store. by destruct (buf kf).
  - apply contents_store; [done .. |]. lia.
Qed.

(** Dequeue: empty is reported exactly on the empty queue, otherwise the
    oldest element leaves. *)
Lemma kfifo_out_refines kf :
  wf kf ->
  match contents kf with
  | [] => kfifo_out kf = (kf, None)
  | e :: q => exists kf', kfifo_out kf = (kf', Some e) /\ wf kf' /\
                cap kf' = cap kf /\ esize kf' = esize kf /\ contents kf' = q
  end.
Proof.
  intros Hwf. pose proof (contents_nil_iff kf Hwf) as Hnil.
  pose proof Hwf as (? & ? & ? & ? & Hb).
  assert (Hout : kfifo_out kf =
    if head kf =? tail kf then (kf, None)
    else (Kfifo (buf kf) (cap kf) (esize kf) (u32 (head kf + 1) mod cap kf) (tail kf),
          Some (slot kf (head kf)))).
  { unfold kfifo_out, slot. by destruct (buf kf). }
  rewrite Hout. destruct (contents kf) as [| e q] eqn:Hc.
  { destruct (Z.eqb_spec (head kf) (tail kf)); tauto. }
  destruct (Z.eqb_spec (head kf) (tail kf)) as [Heq | Hne].
  { apply Hnil in Heq. done. }
  set (h' := u32 (head kf + 1) mod cap kf).
  assert (0 <= h' < cap kf) by (apply Z.mod_pos_bound; lia).
  assert (Hn : (tail kf - head kf) mod cap kf = (tail kf - h') mod cap kf + 1).
  { unfold h' in *. rewrite u32_small in * by lia. rewrite ring_succ in * by lia.
    rewrite !ring_sub by lia.
    destruct (Z.eqb_spec (head kf + 1) (cap kf)); repeat split_match; bool_to_prop; lia. }
  pose proof (Z.mod_pos_bound (tail kf - h') (cap kf) ltac:(lia)).
  unfold contents in Hc. rewrite Hn, Z2Nat.inj_add, Nat.add_comm in Hc by lia.
  cbn [Z.to_nat Pos.to_nat Pos.iter_op Nat.add seq fmap list_fmap] in Hc.
  injection Hc as He Hq.
  exists (Kfifo (buf kf) (cap kf) (esize kf) h' (tail kf)).
  split; [| split; [| split; [done | split; [done |]]]].
  - rewrite <- He, Z.add_0_r, Z.mod_small by lia. done.
  - unfold wf. cbn. tauto.
  - unfold contents. cbn [cap head tail]. rewrite <- Hq, <- fmap_S_seq.
    rewrite <- list_fmap_compose. apply list_fmap_ext. intros ? i Hi. cbn.
    unfold h'. rewrite u32_small, Zplus_mod_idemp_l by lia.
    by replace (head kf + Z.of_nat (S i)) with (head kf + 1 + Z.of_nat i) by lia.
Qed.

Lemma contents_reset kf : wf kf -> wf (kfifo_reset kf) /\ contents (kfifo_reset kf) = [].
Proof.
  intros Hwf. assert (wf (kfifo_reset kf)) as Hr.
  { destruct Hwf as (? & ? & ? & ? & Hb). unfold wf. cbn. tauto. }
  split; [done |]. by apply contents_nil_iff.
Qed.

(** The first [n] elements of [sz] bytes of an array. *)
Fixpoint chunks (n sz : nat) (l : list Z) : list (list Z) :=
  match n with
  | O => []
  | S n' => take sz l :: chunks n' sz (drop sz l)
  end.

Lemma in_loop_refines n kf p done :
  wf kf -> Z.of_nat n * esize kf <= Z.of_nat (length p) ->
  0 <= done -> done + Z.of_nat n < 2 ^ 32 ->
  exists kf' k, in_loop n kf p done = (kf', done + Z.of_nat k) /\ wf kf' /\
    k = (n `min` Z.to_nat (cap kf - 1 - Z.of_nat (length (contents kf))))%nat /\
    cap kf' = cap kf /\ esize kf' = esize kf /\
    contents kf' = contents kf ++ chunks k (Z.to_nat (esize kf)) p.
Proof.
  revert kf p done. induction n as [| n IH]; intros kf p d Hwf Hp Hd Hb.
  { exists kf, 0%nat. rewrite Z.add_0_r, app_nil_r. done. }
  cbn [in_loop]. pose proof (contents_bound kf Hwf).
  assert (He : esize kf <= Z.of_nat (length p)) by (destruct Hwf as (? & ? & _); nia).
  pose proof (kfifo_in_refines kf p Hwf He) as Hin.
  destruct (Z.eqb_spec (Z.of_nat (length (contents kf))) (cap kf - 1)) as [Hf | Hf].
  { rewrite Hin. exists kf, 0%nat. rewrite Z.add_0_r, app_nil_r.
    repeat split_and; done || lia. }
  destruct Hin as (kf1 & -> & Hwf1 & Hcap & Hes & Hc).
  destruct (IH kf1 (drop (Z.to_nat (esize kf)) p) (u32 (d + 1))) 
    as (kf2 & k & H2 & Hwf2 & Hk & Hcap2 & Hes2 & Hc2).
  - done.
  - rewrite Hes, length_drop. lia.
  - apply u32_range.
  - rewrite u32_small by lia. lia.
  - rewrite u32_small in H2 by lia. rewrite u32_small by lia.
    assert (length (contents kf1) = S (length (contents kf)))
      by (rewrite Hc, length_app; cbn; lia).
    exists kf2, (S k). repeat split_and; [| done | | congruence .. |].
    + rewrite H2. f_equal. lia.
    + rewrite Hk. lia.
    + rewrite Hc2, Hc, Hes, <- app_assoc. done.
Qed.

Lemma out_loop_refines n kf out :
  wf kf ->
  exists kf', out_loop n kf out = (kf', out ++ take n (contents kf)) /\ wf kf' /\
    cap kf' = cap kf /\ esize kf' = esize kf /\ contents kf' = drop n (contents kf).
Proof.
  revert kf out. induction n as [| n IH]; intros kf out Hwf.
  { exists kf. rewrite take_0, app_nil_r, drop_0. done. }
  cbn [out_loop]. pose proof (kfifo_out_refines kf Hwf) as Ho.
  destruct (contents kf) as [| e q] eqn:Hc.
  { rewrite Ho. exists kf. rewrite take_nil, app_nil_r, drop_nil. done. }
  destruct Ho as (kf1 & -> & Hwf1 & Hcap1 & Hes1 & <-).
  destruct (IH kf1 (out ++ [e]) Hwf1) as (kf2 & -> & Hwf2 & Hcap2 & Hes2 & Hc2).
  exists kf2. cbn. rewrite <- app_assoc. by repeat split_and; try congruence.
Qed.

End Spec.

(** ** Producer and consumer as concurrent threads

    The code relies on the SPSC discipline: only the producer stores [tail],
    only the consumer stores [head], and the element bytes are copied outside
    any lock.  A step is one atomic load (with the local test that follows
    it), one byte of a [memcpy], or one atomic store. *)
Module Spsc.
Import Spec.

(** Producer: idle, or past the full test with [k] bytes of [e] copied. *)
Inductive ppc := PIdle | PCopy (e : list Z) (k : nat).
(** Consumer: idle, or past the empty test with [out] copied so far. *)
Inductive cpc := CIdle | CCopy (out : list Z).

Record state := State {
  ring : kfifo;
  prod : ppc;
  cons_ : cpc;
  produced : list (list Z);  (* elements whose [kfifo_in] returned true *)
  consumed : list (list Z);  (* elements whose [kfifo_out] returned true *)
}.

Definition nbytes (kf : kfifo) : nat := Z.to_nat (esize kf).

Definition put_byte (kf : kfifo) (off : nat) (b : Z) : kfifo :=
  Kfifo ((fun l => <[off := b]> l) <$> buf kf) (cap kf) (esize kf) (head kf) (tail kf).

Definition set_tail (kf : kfifo) (t : Z) : kfifo :=
  Kfifo (buf kf) (cap kf) (esize kf) (head kf) t.
Definition set_head (kf : kfifo) (h : Z) : kfifo :=
  Kfifo (buf kf) (cap kf) (esize kf) h (tail kf).

Inductive step : state -> state -> Prop :=
| p_load kf c ps cs e :
    length e = nbytes kf ->
    u32 (tail kf + 1) mod cap kf <> head kf ->
    step (State kf PIdle c ps cs) (State kf (PCopy e 0) c ps cs)
| p_copy kf c ps cs e k b :
    e !! k = Some b ->
    step (State kf (PCopy e k) c ps cs)
         (State (put_byte kf (slot_off kf (tail kf) + k)%nat b) (PCopy e (S k)) c ps cs)
| p_store kf c ps cs e :
    step (State kf (PCopy e (length e)) c ps cs)
         (State (set_tail kf (u32 (tail kf + 1) mod cap kf)) PIdle c (ps ++ [e]) cs)
| c_load kf p ps cs :
    head kf <> tail kf ->
    step (State kf p CIdle ps cs) (State kf p (CCopy []) ps cs)
| c_copy kf p ps cs out l b :
    (length out < nbytes kf)%nat ->
    buf kf = Some l ->
    l !! (slot_off kf (head kf) + length out)%nat = Some b ->
    step (State kf p (CCopy out) ps cs) (State kf p (CCopy (out ++ [b])) ps cs)
| c_store kf p ps cs out :
    length out = nbytes kf ->
    step (State kf p (CCopy out) ps cs)
         (State (set_head kf (u32 (head kf + 1) mod cap kf)) p CIdle ps (cs ++ [out])).

Definition initial (s : state) : Prop :=
  wf (ring s) /\ contents (ring s) = [] /\
  prod s = PIdle /\ cons_ s = CIdle /\ produced s = [] /\ consumed s = [].

(** What holds between any two steps. *)
Definition inv (s : state) : Prop :=
  let kf := ring s in
  wf kf /\
  produced s = consumed s ++ contents kf /\
  match prod s with
  | PIdle => True
  | PCopy e k =>
      length e = nbytes kf /\ (k <= length e)%nat /\
      Z.of_nat (length (contents kf)) < cap kf - 1 /\
      take k (slot kf (tail kf)) = take k e
  end /\
  match cons_ s with
  | CIdle => True
  | CCopy out => head kf <> tail kf /\ out = take (length out) (slot kf (head kf))
  end.

Lemma wf_put_byte kf off b : wf kf -> wf (put_byte kf off b).
Proof.
  unfold wf, put_byte. destruct (buf kf); cbn; [| tauto]. by rewrite length_insert.
Qed.

Lemma slot_put_byte_ne kf i j k b :
  wf kf -> 0 <= i < cap kf -> 0 <= j < cap kf -> i <> j -> (k < nbytes kf)%nat ->
  slot (put_byte kf (slot_off kf i + k) b) j = slot kf j.
Proof.
  intros Hwf Hi Hj Hne Hk. pose proof (slots_disjoint kf i j Hwf Hi Hj Hne) as Hd.
  unfold slot, put_byte. destruct (buf kf); [| done]. cbn.
  change (slot_off _ j) with (slot_off kf j) at 1. unfold nbytes in Hk.
  apply slice_insert_ne. lia.
Qed.

Lemma slot_put_byte_eq kf i k b :
  wf kf -> 0 <= i < cap kf -> (k < nbytes kf)%nat ->
  slot (put_byte kf (slot_off kf i + k) b) i = <[k := b]> (slot kf i).
Proof.
  intros Hwf Hi Hk. unfold slot, put_byte.
  destruct Hwf as (_ & _ & _ & _ & Hb). destruct (buf kf); [| done]. cbn.
  change (slot_off _ i) with (slot_off kf i) at 1. unfold nbytes in Hk.
  rewrite slice_insert_in by lia. f_equal. lia.
Qed.

Lemma length_slot kf i : wf kf -> 0 <= i < cap kf -> length (slot kf i) = nbytes kf.
Proof.
  intros Hwf Hi. pose proof (slot_range kf i Hwf Hi). unfold slot.
  destruct (buf kf); [| done]. by apply length_slice.
Qed.

(** The slot [tail] is never part of the queue. *)
Lemma contents_put_byte kf k b :
  wf kf -> (k < nbytes kf)%nat ->
  contents (put_byte kf (slot_off kf (tail kf) + k) b) = contents kf.
Proof.
  intros Hwf Hk. pose proof Hwf as (? & ? & ? & ? & _).
  unfold contents. cbn [put_byte head tail cap].
  apply list_fmap_ext. intros ? i Hi. apply lookup_seq in Hi as [-> Hi].
  apply slot_put_byte_ne; [done .. | apply Z.mod_pos_bound; lia | | done].
  intros Heq. symmetry in Heq. apply (f_equal (fun x => (x - head kf) mod cap kf)) in Heq.
  pose proof (Z.mod_pos_bound (tail kf - head kf) (cap kf) ltac:(lia)).
  rewrite ring_offset_inv in Heq; lia.
Qed.

(** Publishing [tail] appends the slot it pointed at. *)
Lemma contents_set_tail kf :
  wf kf -> Z.of_nat (length (contents kf)) < cap kf - 1 ->
  wf (set_tail kf (u32 (tail kf + 1) mod cap kf)) /\
  contents (set_tail kf (u32 (tail kf + 1) mod cap kf)) = contents kf ++ [slot kf (tail kf)].
Proof.
  intros Hwf Hf. pose proof Hwf as (? & ? & ? & ? & Hb).
  assert (Hl : Z.of_nat (length (slot kf (tail kf))) = esize kf)
    by (rewrite length_slot by done; unfold nbytes; lia).
  assert (Heq : set_tail kf (u32 (tail kf + 1) mod cap kf) =
    store kf (tail kf) (slot kf (tail kf)) (u32 (tail kf + 1) mod cap kf)).
  { pose proof (slot_range kf (tail kf) Hwf ltac:(lia)) as Hr.
    unfold set_tail, store, slot in *. destruct (buf kf) as [l|]; [| done].
    f_equal. f_equal. by rewrite splice_slice. }
  rewrite Heq. split.
  - apply wf_store; [done .. | apply Z.mod_pos_bound; lia | done].
  - by apply contents_store.
Qed.

(** Publishing [head] drops the slot it pointed at. *)
Lemma contents_set_head kf :
  wf kf -> head kf <> tail kf ->
  wf (set_head kf (u32 (head kf + 1) mod cap kf)) /\
  contents kf = slot kf (head kf) :: contents (set_head kf (u32 (head kf + 1) mod cap kf)).
Proof.
  intros Hwf Hne. pose proof (kfifo_out_refines kf Hwf) as Ho.
  pose proof (contents_nil_iff kf Hwf) as Hnil.
  destruct (contents kf) as [| e q]; [tauto |].
  destruct Ho as (kf' & Hout & Hwf' & _ & _ & Hq).
  unfold kfifo_out in Hout. unfold slot, set_head.
  destruct (buf kf) as [l |] eqn:Hl; [| done].
  destruct (Z.eqb_spec (head kf) (tail kf)); [done |].
  injection Hout as <- <-. by rewrite Hq.
Qed.

Lemma inv_initial s : initial s -> inv s.
Proof.
  intros (? & Hc & Hp & Hcc & Hps & Hcs). unfold inv.
  by rewrite Hc, Hp, Hcc, Hps, Hcs.
Qed.

Lemma inv_step s s' : inv s -> step s s' -> inv s'.
Proof.
  intros (Hwf & Hq & Hp & Hc) Hs. pose proof Hwf as (Hcap & Hes & Hh & Ht & _).
  destruct Hs as [kf c ps cs e He Hn | kf c ps cs e k b Hb | kf c ps cs e
    | kf p ps cs Hn | kf p ps cs out l b Hlt Hl Hb | kf p ps cs out Hlen];
    cbn [ring prod cons_ produced consumed] in *.
  - pose proof (contents_bound kf Hwf).
    assert (Z.of_nat (length (contents kf)) <> cap kf - 1)
      by (rewrite <- full_iff; done).
    unfold inv. cbn [ring prod cons_ produced consumed]. rewrite !take_0.
    repeat split_and; done || lia.
  - destruct Hp as (Hle & Hk & Hfull & Htk).
    assert (Hkn : (k < nbytes kf)%nat)
      by (apply lookup_lt_Some in Hb; lia).
    unfold inv. cbn [ring prod cons_ produced consumed].
    rewrite contents_put_byte by done.
    split; [by apply wf_put_byte |]. split; [done |]. split.
    + split; [done |]. split; [lia |]. split; [done |]. cbn [tail put_byte].
      rewrite slot_put_byte_eq by done.
      rewrite take_S_insert by (rewrite length_slot; done).
      rewrite Htk. by erewrite take_S_r.
    + destruct c as [| out]; [done |]. destruct Hc as [Hne Hout].
      split; [done |]. cbn [head put_byte].
      by rewrite slot_put_byte_ne by (done || congruence).
  - destruct Hp as (Hle & Hk & Hfull & Htk).
    destruct (contents_set_tail kf Hwf Hfull) as [Hwf' Hc'].
    unfold inv. cbn [ring prod cons_ produced consumed]. rewrite Hc'.
    split; [done |]. split; [| split; [done |]].
    + rewrite Hq, <- app_assoc. do 3 f_equal.
      rewrite take_ge in Htk by (rewrite length_slot; [lia | done ..]).
      by rewrite Htk, take_ge.
    + destruct c as [| out]; [done |]. destruct Hc as [Hne Hout].
      split; [| done]. cbn [head tail set_tail].
      intros Heq. symmetry in Heq. apply full_iff in Heq; [| done]. lia.
  - unfold inv. by repeat split_and.
  - destruct Hc as [Hne Hout]. unfold inv. repeat split_and; try done. cbn.
    rewrite length_app. cbn. rewrite Nat.add_1_r.
    assert (Hs : slot kf (head kf) !! length out = Some b).
    { unfold slot. rewrite Hl. unfold nbytes in Hlt. by rewrite lookup_slice. }
    erewrite take_S_r by done. by rewrite <- Hout.
  - destruct Hc as [Hne Hout].
    destruct (contents_set_head kf Hwf Hne) as [Hwf' Hc'].
    unfold inv. cbn [ring prod cons_ produced consumed].
    split; [done |]. split; [| split; [| done]].
    + rewrite Hq, Hc', <- app_assoc. do 2 f_equal. cbn.
      rewrite Hout, take_ge; [done |]. rewrite length_slot by done. lia.
    + destruct p as [| e k]; [done |]. destruct Hp as (? & ? & Hf & ?).
      repeat split_and; try done. rewrite Hc' in Hf. cbn [length] in Hf.
      cbn [cap set_head]. lia.
Qed.

Definition reachable (s s' : state) : Prop := rtc step s s'.

Lemma inv_reachable s s' : initial s -> reachable s s' -> inv s'.
Proof.
  intros Hi Hr. apply inv_initial in Hi. induction Hr; [done |].
  eauto using inv_step.
Qed.
End Spsc.

(** ** A ring is a bounded queue *)
Module Refinement.
Import Spec.

Inductive op :=
| OpIn (elem : list Z)
| OpInBatch (elems : list Z) (count : Z)
| OpOut
| OpOutBatch (count : Z)
| OpLen
| OpReset.

Inductive res :=
| RIn (ok : bool)
| RNum (n : Z)
| ROut (e : option (list Z))
| ROuts (es : list (list Z))
| RUnit.

Definition impl (kf : kfifo) (o : op) : kfifo * res :=
  match o with
  | OpIn e => let '(kf', b) := kfifo_in kf e in (kf', RIn b)
  | OpInBatch es n => let '(kf', k) := kfifo_in_batch kf es n in (kf', RNum k)
  | OpOut => let '(kf', e) := kfifo_out kf in (kf', ROut e)
  | OpOutBatch n => let '(kf', es) := kfifo_out_batch kf n in (kf', ROuts es)
  | OpLen => (kf, RNum (kfifo_len kf))
  | OpReset => (kfifo_reset kf, RUnit)
  end.

(** The specification: a list of elements with room for [c - 1]. *)
Section spec.
Context (c es : Z).

Definition room (q : list (list Z)) : nat := Z.to_nat (c - 1 - Z.of_nat (length q)).

Definition spec (q : list (list Z)) (o : op) : list (list Z) * res :=
  match o with
  | OpIn e =>
      if Z.of_nat (length q) =? c - 1 then (q, RIn false)
      else (q ++ [take (Z.to_nat es) e], RIn true)
  | OpInBatch l n =>
      let k := (Z.to_nat n `min` room q)%nat in
      (q ++ chunks k (Z.to_nat es) l, RNum (Z.of_nat k))
  | OpOut => match q with [] => (q, ROut None) | e :: q' => (q', ROut (Some e)) end
  | OpOutBatch n => (drop (Z.to_nat n) q, ROuts (take (Z.to_nat n) q))
  | OpLen => (q, RNum (Z.of_nat (length q)))
  | OpReset => ([], RUnit)
  end.

Definition ok (o : op) : Prop :=
  match o with
  | OpIn e => es <= Z.of_nat (length e)
  | OpInBatch l n => is_u32 n /\ n * es <= Z.of_nat (length l)
  | OpOutBatch n => is_u32 n
  | _ => True
  end.

Definition rel (kf : kfifo) (q : list (list Z)) : Prop :=
  wf kf /\ cap kf = c /\ esize kf = es /\ contents kf = q.
End spec.

Lemma simulation c es kf q o :
  rel c es kf q -> ok es o ->
  (impl kf o).2 = (spec c es q o).2 /\ rel c es (impl kf o).1 (spec c es q o).1.
Proof.
  intros (Hwf & <- & <- & <-) Hok. destruct o as [e | l n | | n | |]; cbn in *.
  - pose proof (kfifo_in_refines kf e Hwf Hok) as H.
    destruct (_ =? _); [by rewrite H |].
    destruct H as (kf' & -> & ? & ? & ? & ?). done.
  - destruct Hok as [Hn Hl]. pose proof Hwf as (? & ? & _ & _ & Hb).
    unfold kfifo_in_batch. destruct (buf kf) eqn:E; [| done].
    destruct (Z.eqb_spec n 0) as [-> | Hne]; cbn.
    { by rewrite app_nil_r. }
    destruct (in_loop_refines (Z.to_nat n) kf l 0) as (kf' & k & -> & ? & -> & ? & ? & ?);
      [done | unfold is_u32 in *; lia .. |]. done.
  - pose proof (kfifo_out_refines kf Hwf) as H.
    destruct (contents kf) eqn:E; [by rewrite H |].
    destruct H as (kf' & -> & ? & ? & ? & ?). done.
  - pose proof Hwf as (? & ? & _ & _ & Hb).
    unfold kfifo_out_batch. destruct (buf kf) eqn:E; [| done].
    destruct (Z.eqb_spec n 0) as [-> | Hne]; cbn; [done |].
    destruct (out_loop_refines (Z.to_nat n) kf [] Hwf) as (kf' & -> & ? & ? & ? & ?).
    done.
  - by rewrite kfifo_len_contents.
  - destruct (contents_reset kf Hwf). done.
Qed.

Lemma rel_alloc kf0 b c es :
  0 < c < 2 ^ 32 -> 0 < es < 2 ^ 32 -> Z.of_nat (length b) = c * es ->
  exists kf, kfifo_alloc kf0 (Some b) c es = (kf, true) /\ rel c es kf [].
Proof.
  intros. unfold kfifo_alloc.
  destruct (Z.eqb_spec c 0), (Z.eqb_spec es 0); cbn; try lia.
  eexists. split; [done |]. assert (Hwf : wf (Kfifo (Some b) c es 0 0)).
  { unfold wf. cbn. lia. }
  repeat split_and; try done.
Qed.
End Refinement.

(** ** Properties *)
Import Refinement.

(** C16.  A freshly allocated ring is indistinguishable from a bounded FIFO
    queue: for every sequence of enqueues, dequeues, batch operations, length
    queries and resets, the results returned by the code are those of a queue
    of at most [cap - 1] elements of [esize] bytes. *)
Theorem kfifo_refines_queue (kf0 : kfifo) (b : list Z) (c es : Z) (ops : list op) :
  0 < c < 2 ^ 32 -> 0 < es < 2 ^ 32 -> Z.of_nat (length b) = c * es ->
  Forall (ok es) ops ->
  let '(kf, allocated) := kfifo_alloc kf0 (Some b) c es in
  allocated = true /\ (run impl kf ops).2 = (run (spec c es) [] ops).2.
Proof.
  intros Hc Hes Hb Hops. destruct (rel_alloc kf0 b c es Hc Hes Hb) as (kf & -> & Hrel).
  split; [done |].
  apply (run_refines impl (spec c es) (rel c es) (ok es) (simulation c es) ops kf [] Hrel Hops).
Qed.

Definition demo_ops : list op :=
  [OpIn [1; 2]; OpIn [3; 4]; OpIn [5; 6]; OpLen; OpOut; OpInBatch [7; 8; 9; 10] 2; OpOutBatch 5; OpOut].

Lemma kfifo_refines_queue_witness :
  let '(kf, allocated) :=
    kfifo_alloc (Kfifo None 0 0 0 0) (Some (replicate 6 0)) 3 2 in
  allocated = true /\ (run impl kf demo_ops).2 = (run (spec 3 2) [] demo_ops).2.
Proof.
  apply (kfifo_refines_queue (Kfifo None 0 0 0 0) (replicate 6 0) 3 2 demo_ops);
    [lia | lia | done |].
  repeat constructor; cbn; lia || (unfold is_u32; lia) .
Defined.

(** C23.  Producer and consumer may be interleaved arbitrarily: in every
    reachable state what was dequeued, followed by what is still queued, is
    exactly what was enqueued, in order; and while both threads copy bytes
    they touch different slots. *)
Theorem spsc_fifo (s0 s : Spsc.state) :
  Spsc.initial s0 -> Spsc.reachable s0 s ->
  Spsc.produced s = Spsc.consumed s ++ Spec.contents (Spsc.ring s) /\
  Z.of_nat (length (Spec.contents (Spsc.ring s))) <= cap (Spsc.ring s) - 1 /\
  (forall e k out, Spsc.prod s = Spsc.PCopy e k -> Spsc.cons_ s = Spsc.CCopy out ->
     tail (Spsc.ring s) <> head (Spsc.ring s)).
Proof.
  intros Hi Hr. destruct (Spsc.inv_reachable s0 s Hi Hr) as (Hwf & Hq & _ & Hc).
  split; [done |]. split; [by apply Spec.contents_bound |].
  intros e k out _ Ho. rewrite Ho in Hc. destruct Hc. congruence.
Qed.

Definition spsc_demo : Spsc.state :=
  Spsc.State (Kfifo (Some [0; 0]) 2 1 0 0) Spsc.PIdle Spsc.CIdle [] [].

Lemma spsc_fifo_witness :
  exists s, Spsc.reachable spsc_demo s /\ Spsc.consumed s = [[7]] /\
    Spsc.produced s = Spsc.consumed s ++ Spec.contents (Spsc.ring s).
Proof.
  eexists.
  assert (Hr : Spsc.reachable spsc_demo
    (Spsc.State (Kfifo (Some [7; 0]) 2 1 1 1) Spsc.PIdle Spsc.CIdle [[7]] [[7]])).
  { eapply rtc_l; [apply (Spsc.p_load _ _ _ _ [7]); [done | by vm_compute] |].
    eapply rtc_l; [by apply (Spsc.p_copy _ _ _ _ [7] 0 7) |].
    eapply rtc_l; [apply (Spsc.p_store _ _ _ _ [7]) |].
    eapply rtc_l; [by apply Spsc.c_load |].
    eapply rtc_l; [eapply (Spsc.c_copy _ _ _ _ [] _ 7); [unfold Spsc.nbytes; cbn; lia | done | done] |].
    eapply rtc_l; [by apply (Spsc.c_store _ _ _ _ [7]) |].
    apply rtc_refl. }
  split; [exact Hr |]. split; [done |].
  apply (spsc_fifo spsc_demo); [| exact Hr].
  repeat split; cbn; lia.
Defined.
