(* ===== verification/FileLock.v ===== *)
(** * Advisory file locks (kernel/bsd/file_lock.c)

    POSIX record locks (owned by a process), OFD record locks (owned by an
    open file description) and BSD [flock] locks (whole file, owned by a
    description) share one list per inode.

    - The definitions follow the C functions one by one.  The list [i_flock]
      is the circular list without its sentinel; [wq]/[wakes] record whether
      the inode's wait queue exists and how many times it was woken; [mem] is
      the outcome of the successive [kmalloc] calls.
    - A blocking request is the C loop: each iteration runs under the inode's
      spin lock, and between two iterations other tasks run.  [apply_lock] and
      [do_flock] take the list of what each wake-up finds. *)
From S2P Require Import Prelude.

Definition F_RDLCK : Z := 0.
Definition F_WRLCK : Z := 1.
Definition F_UNLCK : Z := 2.
Definition F_GETLK : Z := 5.
Definition F_SETLK : Z := 6.
Definition F_SETLKW : Z := 7.
Definition F_OFD_GETLK : Z := 36.
Definition F_OFD_SETLK : Z := 37.
Definition F_OFD_SETLKW : Z := 38.
Definition SEEK_SET : Z := 0.
Definition SEEK_CUR : Z := 1.
Definition SEEK_END : Z := 2.
Definition LOCK_SH : Z := 1.
Definition LOCK_EX : Z := 2.
Definition LOCK_NB : Z := 4.
Definition LOCK_UN : Z := 8.

(** A [struct file *]: [None] is NULL. *)
Definition file_ptr := option Z.

Record file_lock := FileLock {
  owner_pid : Z;
  owner_file : file_ptr;
  is_ofd : bool;
  is_bsd : bool;
  type : Z;
  start : Z;
  end_ : Z;
}.

(** The part of [struct inode] the lock code uses. *)
Record inode := Inode {
  i_flock : list file_lock;
  size : Z;
  wq : bool;
  wakes : nat;
  mem : oracle;
}.

Definition set_locks (ip : inode) (l : list file_lock) : inode :=
  Inode l (size ip) (wq ip) (wakes ip) (mem ip).
Definition set_mem (ip : inode) (m : oracle) : inode :=
  Inode (i_flock ip) (size ip) (wq ip) (wakes ip) m.

(** [if (ip->wq) __wake_up(ip->wq, 0)] *)
Definition wake (ip : inode) : inode :=
  if wq ip then Inode (i_flock ip) (size ip) (wq ip) (S (wakes ip)) (mem ip) else ip.

Definition FLOCK_END_EOF : Z := UINT64_MAX.

Definition flock_end (s len : Z) : Z :=
  if len =? 0 then FLOCK_END_EOF else u64 (s + len).

Section requester.
(** The owner on whose behalf the code runs. *)
Context (pid : Z) (fowner : file_ptr) (iso : bool).

(** Same class and same owner: the test of [find_conflict] and
    [locks_delete_range]. *)
Definition same_owner (fl : file_lock) : bool :=
  eqb (is_ofd fl) iso &&
  (if iso then bool_decide (owner_file fl = fowner) else owner_pid fl =? pid).

Fixpoint find_conflict (l : list file_lock) (ty s e : Z) : option file_lock :=
  match l with
  | [] => None
  | fl :: l' =>
      if is_bsd fl then find_conflict l' ty s e
      else if same_owner fl then find_conflict l' ty s e
      else if (type fl =? F_RDLCK) && (ty =? F_RDLCK) then find_conflict l' ty s e
      else if (start fl <? e) && (s <? end_ fl) then Some fl
      else find_conflict l' ty s e
  end.

(** The [continue] conditions of the walk in [locks_delete_range]. *)
Definition delete_skips (s e : Z) (fl : file_lock) : bool :=
  is_bsd fl || negb (same_owner fl) || ((end_ fl <=? s) || (e <=? start fl)).

(** Allocate a residual and push it at the back of the list, or drop it. *)
Definition push_residual (l : list file_lock) (m : oracle) (ty s e : Z)
  : list file_lock * oracle :=
  let '(ok, m') := kmalloc_ok m in
  if ok then (l ++ [FileLock pid fowner iso false ty s e], m') else (l, m').

Definition push_residuals (s e : Z) (fl : file_lock) (rest : list file_lock) (m : oracle)
  : list file_lock * oracle :=
  let '(rest1, m1) :=
    if start fl <? s then push_residual rest m (type fl) (start fl) s else (rest, m) in
  if e <? end_ fl then push_residual rest1 m1 (type fl) e (end_ fl) else (rest1, m1).

(** The walk: [visited] has been passed, [todo] is what the cursor still has
    ahead.  Residuals are appended to the list being walked; the cursor was
    advanced before, so those of the last node are not visited. *)
Fixpoint delete_walk (fuel : nat) (s e : Z) (visited todo : list file_lock) (m : oracle)
  : option (list file_lock * oracle) :=
  match todo with
  | [] => Some (visited, m)
  | fl :: rest =>
      match fuel with
      | O => None
      | S fuel' =>
          if delete_skips s e fl then delete_walk fuel' s e (visited ++ [fl]) rest m
          else
            let '(rest', m') := push_residuals s e fl rest m in
            match rest with
            | [] => Some (visited ++ rest', m')
            | _ => delete_walk fuel' s e visited rest' m'
            end
      end
  end.

(** Three times the length is enough fuel: a removed lock leaves at most two
    residuals, which the walk then skips (see [delete_walk_enough]). *)
Definition locks_delete_range (ip : inode) (s e : Z) : inode :=
  match delete_walk (3 * length (i_flock ip)) s e [] (i_flock ip) (mem ip) with
  | Some (l, m) => set_mem (set_locks ip l) m
  | None => ip
  end.

Definition locks_insert (ip : inode) (ty s e : Z) : inode * Z :=
  let ip1 := locks_delete_range ip s e in
  let '(ok, m) := kmalloc_ok (mem ip1) in
  let ip2 := set_mem ip1 m in
  if ok
  then (set_locks ip2 (i_flock ip2 ++ [FileLock pid fowner iso false ty s e]), 0)
  else (ip2, - ENOMEM).

(** One iteration of the loop of [apply_lock], under [i_flock_lock];
    [None] is a conflict. *)
Definition apply_iter (ip : inode) (ty s e : Z) : inode * option Z :=
  if ty =? F_UNLCK then (wake (locks_delete_range ip s e), Some 0)
  else match find_conflict (i_flock ip) ty s e with
       | None => let '(ip', r) := locks_insert ip ty s e in (wake ip', Some r)
       | Some _ => (ip, None)
       end.
End requester.

(** [inode_wq_get]: the wait queue, allocated on first use. *)
Definition inode_wq_get (ip : inode) : inode * bool :=
  if wq ip then (ip, true)
  else let '(ok, m) := kmalloc_ok (mem ip) in
       if ok then (Inode (i_flock ip) (size ip) true (wakes ip) m, true)
       else (set_mem ip m, false).

(** What a sleeping task finds when it runs again: the lock list other tasks
    left and whether a signal is pending. *)
Record wakeup := Wakeup { w_locks : list file_lock; w_signal : bool }.

Inductive outcome :=
| Done (r : Z) (ip : inode)
| Asleep (ip : inode).

Section blocking.
Context (iter : inode -> inode * option Z).

(** The conflict branch shared by [apply_lock] and [do_flock]. *)
Fixpoint lock_loop (blocking : bool) (ip : inode) (env : list wakeup) : outcome :=
  match iter ip with
  | (ip', Some r) => Done r ip'
  | (ip', None) =>
      if negb blocking then Done (- EAGAIN) ip'
      else
        let '(ip1, have_wq) := inode_wq_get ip' in
        if negb have_wq then Done (- ENOMEM) ip1
        else match env with
             | [] => Asleep ip1
             | w :: env' =>
                 let ip2 := set_locks ip1 (w_locks w) in
                 if w_signal w then Done (- ERESTART) ip2
                 else lock_loop blocking ip2 env'
             end
  end.
End blocking.

Definition apply_lock (ip : inode) (pid : Z) (fowner : file_ptr) (iso : bool)
  (ty s e : Z) (blocking : bool) (env : list wakeup) : outcome :=
  lock_loop (fun ip => apply_iter pid fowner iso ip ty s e) blocking ip env.

Record flock := Flock {
  l_type : Z;
  l_whence : Z;
  l_start : Z;
  l_len : Z;
  l_pid : Z;
}.

(** [struct file]: its address, whether it has an inode, its offset. *)
Record file := File { f_id : Z; f_has_inode : bool; f_offset : Z }.

(** Steps 1 and 2 of [do_fcntl_lock] and [do_fcntl_lock_ofd]: validation and
    the absolute byte range. *)
Definition resolve_range (f : file) (ip : inode) (lk : flock) : Z + (Z * Z) :=
  if negb ((l_type lk =? F_RDLCK) || (l_type lk =? F_WRLCK) || (l_type lk =? F_UNLCK))
  then inl (- EINVAL)
  else if negb ((l_whence lk =? SEEK_SET) || (l_whence lk =? SEEK_CUR) || (l_whence lk =? SEEK_END))
  then inl (- EINVAL)
  else
    let base := if l_whence lk =? SEEK_SET then 0
                else if l_whence lk =? SEEK_CUR then f_offset f
                else size ip in
    if l_start lk <? 0 then inl (- EINVAL)
    else
      let s := u64 (base + u64 (l_start lk)) in
      let e := flock_end s (u64 (l_len lk)) in
      if e <? s then inl (- EINVAL) else inr (s, e).

(** The probe of [F_GETLK] and [F_OFD_GETLK]. *)
Definition report (conf : option file_lock) (lk : flock) : flock :=
  match conf with
  | Some c => Flock (type c) SEEK_SET (s64 (start c))
                (if end_ c =? FLOCK_END_EOF then 0 else s64 (u64 (end_ c - start c)))
                (owner_pid c)
  | None => Flock F_UNLCK SEEK_SET 0 0 0
  end.

Definition do_fcntl_lock (pid : Z) (f : file) (cmd : Z) (lk : flock) (ip : inode)
  (env : list wakeup) : outcome * flock :=
  if negb (f_has_inode f) then (Done (- ENOLCK) ip, lk)
  else match resolve_range f ip lk with
       | inl err => (Done err ip, lk)
       | inr (s, e) =>
           if cmd =? F_GETLK
           then (Done 0 ip, report (find_conflict pid None false (i_flock ip) (l_type lk) s e) lk)
           else (apply_lock ip pid None false (l_type lk) s e (cmd =? F_SETLKW) env, lk)
       end.

Definition do_fcntl_lock_ofd (pid : Z) (f : file) (cmd : Z) (lk : flock) (ip : inode)
  (env : list wakeup) : outcome * flock :=
  if negb (f_has_inode f) then (Done (- ENOLCK) ip, lk)
  else match resolve_range f ip lk with
       | inl err => (Done err ip, lk)
       | inr (s, e) =>
           if cmd =? F_OFD_GETLK
           then (Done 0 ip,
                 report (find_conflict pid (Some (f_id f)) true (i_flock ip) (l_type lk) s e) lk)
           else (apply_lock ip pid (Some (f_id f)) true (l_type lk) s e (cmd =? F_OFD_SETLKW) env, lk)
       end.

(** BSD [flock]. *)
Definition flock_op_type (op : Z) : Z :=
  if op =? LOCK_SH then F_RDLCK else if op =? LOCK_EX then F_WRLCK else -1.

Fixpoint bsd_flock_conflict (l : list file_lock) (f : Z) (ty : Z) : option file_lock :=
  match l with
  | [] => None
  | fl :: l' =>
      if negb (is_bsd fl) then bsd_flock_conflict l' f ty
      else if bool_decide (owner_file fl = Some f) then bsd_flock_conflict l' f ty
      else if (type fl =? F_RDLCK) && (ty =? F_RDLCK) then bsd_flock_conflict l' f ty
      else Some fl
  end.

(** Removal of the nodes that satisfy [p] from the list. *)
Definition drop_if (p : file_lock -> bool) (l : list file_lock) : list file_lock :=
  List.filter (fun fl => negb (p fl)) l.

Definition bsd_flock_drop (l : list file_lock) (f : Z) : list file_lock :=
  drop_if (fun fl => is_bsd fl && bool_decide (owner_file fl = Some f)) l.

Definition flock_iter (pid f op : Z) (ip : inode) : inode * option Z :=
  if op =? LOCK_UN then (wake (set_locks ip (bsd_flock_drop (i_flock ip) f)), Some 0)
  else
    let ty := flock_op_type op in
    if ty <? 0 then (ip, Some (- EINVAL))
    else match bsd_flock_conflict (i_flock ip) f ty with
         | None =>
             let ip1 := set_locks ip (bsd_flock_drop (i_flock ip) f) in
             let '(ok, m) := kmalloc_ok (mem ip1) in
             let ip2 := set_mem ip1 m in
             if ok
             then (wake (set_locks ip2 (i_flock ip2 ++
                     [FileLock pid (Some f) false true ty 0 FLOCK_END_EOF])), Some 0)
             else (ip2, Some (- ENOMEM))
         | Some _ => (ip, None)
         end.

Definition do_flock (pid : Z) (f : file) (operation : Z) (ip : inode) (env : list wakeup)
  : outcome :=
  let op := Z.ldiff operation LOCK_NB in
  let nb := has_flag operation LOCK_NB in
  if negb (f_has_inode f) then
    if negb ((op =? LOCK_SH) || (op =? LOCK_EX) || (op =? LOCK_UN)) then Done (- EINVAL) ip
    else Done 0 ip
  else lock_loop (flock_iter pid (f_id f) op) (negb nb) ip env.

(** Releases. *)
Definition drop_and_wake (p : file_lock -> bool) (ip : inode) : inode :=
  let changed := existsb p (i_flock ip) in
  let ip' := set_locks ip (drop_if p (i_flock ip)) in
  if changed then wake ip' else ip'.

Definition release_pid_on_inode (dead_pid : Z) (ip : inode) : inode :=
  drop_and_wake (fun fl => negb (is_ofd fl) && (owner_pid fl =? dead_pid)) ip.

(** [inode_for_each] visits every inode of the hash table. *)
Definition file_lock_release_pid (dead_pid : Z) (inodes : list inode) : list inode :=
  release_pid_on_inode dead_pid <$> inodes.

Definition file_lock_release_file (f : file) (ip : inode) : inode :=
  if negb (f_has_inode f) then ip
  else drop_and_wake (fun fl => bool_decide (owner_file fl = Some (f_id f)) && (is_ofd fl || is_bsd fl)) ip.

Definition file_lock_release_all (ip : inode) : inode := set_locks ip [].

(** ** What the lock list means *)

Inductive owner_t := OwnPid (pid : Z) | OwnFile (f : file_ptr).

#[export] Instance owner_eq_dec : EqDecision owner_t.
Proof. solve_decision. Defined.

#[export] Instance file_lock_eq_dec : EqDecision file_lock.
Proof. solve_decision. Defined.

Definition owner (fl : file_lock) : owner_t :=
  if is_ofd fl then OwnFile (owner_file fl) else OwnPid (owner_pid fl).

Definition requester_owner (pid : Z) (fowner : file_ptr) (iso : bool) : owner_t :=
  if iso then OwnFile fowner else OwnPid pid.

(** [o] holds a record lock of type [ty] on byte [x]. *)
Definition held (l : list file_lock) (o : owner_t) (ty x : Z) : Prop :=
  exists fl, fl ∈ l /\ is_bsd fl = false /\ owner fl = o /\ type fl = ty /\
             start fl <= x < end_ fl.

(** Two record locks that must not coexist. *)
Definition clash (a b : file_lock) : Prop :=
  is_bsd a = false /\ is_bsd b = false /\ owner a <> owner b /\
  ~ (type a = F_RDLCK /\ type b = F_RDLCK) /\
  start a < end_ b /\ start b < end_ a.

(** Two BSD locks that must not coexist. *)
Definition bsd_clash (a b : file_lock) : Prop :=
  is_bsd a = true /\ is_bsd b = true /\ owner_file a <> owner_file b /\
  ~ (type a = F_RDLCK /\ type b = F_RDLCK).

(** The exclusion the lock manager is for. *)
Definition exclusive (l : list file_lock) : Prop :=
  (forall a b, a ∈ l -> b ∈ l -> ~ clash a b) /\
  (forall a b, a ∈ l -> b ∈ l -> ~ bsd_clash a b).

(** [a] is [b] restricted to a sub-range. *)
Definition part_of (a b : file_lock) : Prop :=
  is_bsd a = is_bsd b /\ owner a = owner b /\ type a = type b /\
  (is_bsd b = true -> owner_file a = owner_file b) /\
  start b <= start a /\ end_ a <= end_ b.

Lemma part_of_refl a : part_of a a.
Proof. unfold part_of. naive_solver lia. Qed.

Lemma clash_parts a b a' b' : part_of a a' -> part_of b b' -> clash a b -> clash a' b'.
Proof.
  intros (Ab & Ao & At & _ & ? & ?) (Bb & Bo & Bt & _ & ? & ?) (? & ? & ? & ? & ? & ?).
  unfold clash. rewrite <- Ab, <- Bb, <- Ao, <- Bo, <- At, <- Bt.
  repeat split_and; done || lia.
Qed.

Lemma bsd_clash_parts a b a' b' :
  part_of a a' -> part_of b b' -> bsd_clash a b -> bsd_clash a' b'.
Proof.
  intros (Ab & Ao & At & Af & ? & ?) (Bb & Bo & Bt & Bf & ? & ?) (? & ? & ? & ?).
  unfold bsd_clash. rewrite <- Af, <- Bf, <- At, <- Bt, <- Ab, <- Bb by congruence.
  done.
Qed.

Lemma exclusive_parts l l' :
  exclusive l -> (forall a, a ∈ l' -> exists b, b ∈ l /\ part_of a b) -> exclusive l'.
Proof.
  intros [Hr Hb] Hp. split; intros a b Ha Hb' Hc;
    destruct (Hp a Ha) as (a' & Ha' & Ea), (Hp b Hb') as (b' & Hb'' & Eb).
  - eapply Hr; [exact Ha' | exact Hb'' | by eapply clash_parts].
  - eapply Hb; [exact Ha' | exact Hb'' | by eapply bsd_clash_parts].
Qed.

(** ** The walk of [locks_delete_range] *)
Section walk.
Context (pid : Z) (fowner : file_ptr) (iso : bool) (s e : Z).
Local Abbreviation skips := (delete_skips pid fowner iso s e).
Local Abbreviation piece := (FileLock pid fowner iso false).

(** The residuals of a removed lock. *)
Definition residuals (fl : file_lock) : list file_lock :=
  (if start fl <? s then [piece (type fl) (start fl) s] else []) ++
  (if e <? end_ fl then [piece (type fl) e (end_ fl)] else []).

(** What becomes of one lock. *)
Definition remains (fl : file_lock) : list file_lock :=
  if skips fl then [fl] else residuals fl.

Lemma residuals_skipped fl r : r ∈ residuals fl -> skips r = true.
Proof.
  unfold residuals, delete_skips. intros H. elem_inv;
    split_match_in H; elem_inv; cbn [start end_]; by rewrite Z.leb_refl, ?orb_true_r.
Qed.

Lemma length_residuals fl : (length (residuals fl) <= 2)%nat.
Proof. unfold residuals. repeat split_match; cbn; lia. Qed.

Lemma push_residual_spec (b : bool) l m ty s' e' :
  let r := if b then push_residual pid fowner iso l m ty s' e' else (l, m) in
  let full := if b then [piece ty s' e'] else [] in
  exists added, r.1 = l ++ added /\ added `sublist_of` full /\
    (no_oom m -> added = full /\ no_oom r.2).
Proof.
  intros r full. subst r full. destruct b.
  2:{ exists []. by rewrite app_nil_r. }
  unfold push_residual. pose proof (kmalloc_ok_no_oom m) as Hm.
  destruct (kmalloc_ok m) as [[] m'].
  - eexists. split; [reflexivity |]. split; [done |]. intros H. by apply Hm in H as [_ ?].
  - exists []. rewrite app_nil_r. split; [done |]. split; [apply sublist_nil_l |].
    intros H. by apply Hm in H as [? _].
Qed.

Lemma push_residuals_spec fl rest m :
  let r := push_residuals pid fowner iso s e fl rest m in
  exists added, r.1 = rest ++ added /\ added `sublist_of` residuals fl /\
    (no_oom m -> added = residuals fl /\ no_oom r.2).
Proof.
  intros r. subst r. unfold push_residuals, residuals.
  destruct (push_residual_spec (start fl <? s) rest m (type fl) (start fl) s)
    as (a1 & H1 & Hs1 & Hm1).
  destruct (if start fl <? s then _ else _) as [rest1 m1]. cbn in H1, Hm1. subst rest1.
  destruct (push_residual_spec (e <? end_ fl) (rest ++ a1) m1 (type fl) e (end_ fl))
    as (a2 & H2 & Hs2 & Hm2).
  exists (a1 ++ a2). rewrite H2, app_assoc. split; [done |]. split.
  - by apply sublist_app.
  - intros Hm. apply Hm1 in Hm as [-> Hm]. apply Hm2 in Hm as [-> Hm]. done.
Qed.

(** Fuel used by one lock of the list ahead. *)
Definition cost (fl : file_lock) : nat := if skips fl then 1 else 3.

Lemma residuals_all_skipped added fl :
  added `sublist_of` residuals fl -> Forall (fun r => skips r = true) added.
Proof.
  intros Hs. apply Forall_forall. intros r Hr.
  eapply residuals_skipped. by eapply elem_of_sublist.
Qed.

Lemma cost_residuals added fl :
  added `sublist_of` residuals fl -> (sum_list_with cost added <= 2)%nat.
Proof.
  intros Hs. pose proof (residuals_all_skipped _ _ Hs) as Hall.
  apply sublist_length in Hs. pose proof (length_residuals fl).
  assert (Hsum : sum_list_with cost added = length added).
  { clear Hs. induction Hall as [| r l Hr Hall IH]; cbn; [done |].
    unfold cost at 1. rewrite Hr, IH. lia. }
  lia.
Qed.

Lemma remains_skipped l : Forall (fun r => skips r = true) l -> l ≫= remains = l.
Proof.
  intros Hall. induction Hall as [| r l Hr Hall IH]; [done |].
  cbn. unfold remains at 1. rewrite Hr. cbn. by f_equal.
Qed.

(** The walk ends, and leaves (a sublist of) the pieces that remain; all of
    them when memory does not run out. *)
Lemma delete_walk_spec fuel visited todo m :
  (sum_list_with cost todo <= fuel)%nat ->
  exists l m', delete_walk pid fowner iso fuel s e visited todo m = Some (l, m') /\
    l ⊆+ visited ++ (todo ≫= remains) /\
    (no_oom m -> l ≡ₚ visited ++ (todo ≫= remains) /\ no_oom m').
Proof.
  revert visited todo m. induction fuel as [| fuel IH]; intros visited todo m Hf.
  { destruct todo as [| fl rest]; [| exfalso; cbn in Hf; unfold cost in Hf; split_match_in Hf; lia].
    exists visited, m. cbn. by rewrite app_nil_r. }
  destruct todo as [| fl rest]; [exists visited, m; cbn; by rewrite app_nil_r |].
  cbn [delete_walk]. cbn in Hf. unfold cost at 1 in Hf. cbn [mbind list_bind].
  unfold remains at 1 3. destruct (skips fl) eqn:Hs.
  { destruct (IH (visited ++ [fl]) rest m) as (l & m' & -> & Hsub & Hperm); [lia |].
    exists l, m'. rewrite <- app_assoc in *. done. }
  destruct (push_residuals_spec fl rest m) as (added & Hr & Hsub & Hm).
  pose proof (cost_residuals added fl Hsub) as Hc.
  destruct (push_residuals _ _ _ _ _ _ _ _) as [rest' m1]. cbn in Hr, Hm. subst rest'.
  pose proof (remains_skipped _ (residuals_all_skipped _ _ Hsub)) as Hadd.
  destruct rest as [| fl2 rest2].
  { exists (visited ++ added), m1. split; [done |]. cbn. rewrite app_nil_r. split.
    - apply submseteq_app; [done |]. by apply sublist_submseteq.
    - intros H. apply Hm in H as [-> H]. done. }
  destruct (IH visited ((fl2 :: rest2) ++ added) m1) as (l & m' & -> & Hl & Hperm).
  { rewrite sum_list_with_app. cbn in *. lia. }
  exists l, m'. split; [done |]. rewrite bind_app, Hadd in Hl, Hperm.
  assert (Hp : added ⊆+ residuals fl) by (by apply sublist_submseteq).
  split.
  - etrans; [exact Hl |]. apply submseteq_app; [done |].
    rewrite (Permutation_app_comm (residuals fl)). by apply submseteq_app.
  - intros H. apply Hm in H as [-> H]. apply Hperm in H as [-> H]. split; [| done].
    f_equiv. apply Permutation_app_comm.
Qed.
Lemma cost_le l : (sum_list_with cost l <= 3 * length l)%nat.
Proof. induction l as [| fl l IH]; cbn; [done |]. unfold cost at 1. split_match; lia. Qed.

Local Abbreviation deleted ip := (locks_delete_range pid fowner iso ip s e).

Lemma locks_delete_range_spec ip :
  size (deleted ip) = size ip /\ wq (deleted ip) = wq ip /\ wakes (deleted ip) = wakes ip /\
  i_flock (deleted ip) ⊆+ i_flock ip ≫= remains /\
  (no_oom (mem ip) ->
   i_flock (deleted ip) ≡ₚ i_flock ip ≫= remains /\ no_oom (mem (deleted ip))).
Proof.
  destruct (delete_walk_spec (3 * length (i_flock ip)) [] (i_flock ip) (mem ip) (cost_le _))
    as (l & m & Hw & Hsub & Hperm).
  unfold locks_delete_range. rewrite Hw. cbn. done.
Qed.

Local Abbreviation me := (requester_owner pid fowner iso).

Lemma same_owner_iff fl : same_owner pid fowner iso fl = true <-> owner fl = me.
Proof.
  unfold same_owner, owner, requester_owner.
  destruct (is_ofd fl), iso; cbn; [rewrite bool_decide_eq_true | | | rewrite Z.eqb_eq];
    naive_solver.
Qed.

Lemma owner_piece ty s' e' : owner (piece ty s' e') = me.
Proof. unfold owner, requester_owner. by destruct iso. Qed.

(** A lock is removed when it is a record lock of the requester that meets
    the range. *)
Lemma skips_false fl :
  skips fl = false <->
  is_bsd fl = false /\ owner fl = me /\ s < end_ fl /\ start fl < e.
Proof.
  unfold delete_skips. rewrite !orb_false_iff, negb_false_iff, same_owner_iff, !Z.leb_gt.
  naive_solver.
Qed.

Lemma remains_part fl r : r ∈ remains fl -> part_of r fl.
Proof.
  unfold remains. destruct (skips fl) eqn:Hs; intros H; elem_inv; [apply part_of_refl |].
  apply skips_false in Hs as (Hb & Ho & ? & ?).
  unfold residuals in H. elem_inv; split_match_in H; bool_to_prop; elem_inv;
    unfold part_of; rewrite owner_piece; cbn; repeat split_and; congruence || lia.
Qed.

(** Which bytes of a lock survive. *)
Lemma remains_covers fl x :
  is_bsd fl = false -> start fl <= x < end_ fl ->
  (exists r, r ∈ remains fl /\ start r <= x < end_ r) <-> ~ (owner fl = me /\ s <= x < e).
Proof.
  intros Hb Hx. unfold remains. destruct (skips fl) eqn:Hs.
  - split.
    + intros _ [Ho ?]. assert (Hf : skips fl = false) by (apply skips_false; lia || naive_solver lia).
      congruence.
    + intros _. exists fl. split; [by apply list_elem_of_singleton | done].
  - apply skips_false in Hs as (_ & Ho & ? & ?). unfold residuals. split.
    + intros (r & Hr & Hc) [_ ?]. elem_inv; split_match_in Hr; elem_inv; cbn in Hc; lia.
    + intros Hn. destruct (decide (x < s)).
      * exists (piece (type fl) (start fl) s). split; [| cbn; lia].
        apply elem_of_app. left. destruct (Z.ltb_spec (start fl) s); [| lia].
        by apply list_elem_of_singleton.
      * exists (piece (type fl) e (end_ fl)). assert (e <= x) by (apply Z.nlt_ge; naive_solver lia).
        split; [| cbn; lia].
        apply elem_of_app. right. destruct (Z.ltb_spec e (end_ fl)); [| lia].
        by apply list_elem_of_singleton.
Qed.

(** Deleting a range never gives anybody a lock, and never takes one from
    anybody but the requester. *)
Lemma deleted_part ip a :
  a ∈ i_flock (deleted ip) -> exists b, b ∈ i_flock ip /\ part_of a b.
Proof.
  intros Ha. destruct (locks_delete_range_spec ip) as (_ & _ & _ & Hsub & _).
  apply (elem_of_submseteq _ _ _ Ha) in Hsub. apply list_elem_of_bind in Hsub as (b & Hr & Hb).
  exists b. split; [done |]. by apply remains_part.
Qed.

Lemma held_deleted ip o ty x :
  no_oom (mem ip) ->
  held (i_flock (deleted ip)) o ty x <->
  held (i_flock ip) o ty x /\ ~ (o = me /\ s <= x < e).
Proof.
  intros Hm. destruct (locks_delete_range_spec ip) as (_ & _ & _ & _ & Hp).
  apply Hp in Hm as [Hp' _]. clear Hp. unfold held. setoid_rewrite Hp'. split.
  - intros (r & Hr & Hb & Ho & Ht & Hx).
    apply list_elem_of_bind in Hr as (fl & Hr & Hfl).
    pose proof (remains_part fl r Hr) as (Pb & Po & Pt & _ & ? & ?). split.
    + exists fl. repeat split_and; first [done | congruence | lia].
    + rewrite <- Ho, Po. apply (remains_covers fl x); [congruence | lia |]. by exists r.
  - intros [(fl & Hfl & Hb & Ho & Ht & Hx) Hn].
    rewrite <- Ho in Hn. apply (remains_covers fl x Hb Hx) in Hn as (r & Hr & Hc).
    pose proof (remains_part fl r Hr) as (Pb & Po & Pt & _ & ? & ?).
    exists r. split; [apply list_elem_of_bind; by exists fl |].
    repeat split_and; first [done | congruence | lia].
Qed.
End walk.

(** ** Conflicts *)

Lemma find_conflict_None pid fowner iso l ty s e :
  find_conflict pid fowner iso l ty s e = None <->
  forall fl, fl ∈ l -> is_bsd fl = false -> owner fl <> requester_owner pid fowner iso ->
    ~ (type fl = F_RDLCK /\ ty = F_RDLCK) -> start fl < e -> s < end_ fl -> False.
Proof.
  induction l as [| fl l IH]; cbn.
  { split; [| done]. intros _ fl H. elem_inv. }
  assert (Hskip : forall P : Prop, (P -> ~ (is_bsd fl = false /\
      owner fl <> requester_owner pid fowner iso /\
      ~ (type fl = F_RDLCK /\ ty = F_RDLCK) /\ start fl < e /\ s < end_ fl)) -> P ->
    find_conflict pid fowner iso l ty s e = None <->
    forall fl', fl' ∈ fl :: l -> is_bsd fl' = false ->
      owner fl' <> requester_owner pid fowner iso ->
      ~ (type fl' = F_RDLCK /\ ty = F_RDLCK) -> start fl' < e -> s < end_ fl' -> False).
  { intros P Hno HP. specialize (Hno HP). rewrite IH. split.
    - intros H fl' Hin. elem_inv; [| by apply H]. intros ?????. by apply Hno.
    - intros H fl' Hin. apply H. by constructor. }
  destruct (is_bsd fl) eqn:Hb; [apply (Hskip True); naive_solver |].
  destruct (same_owner pid fowner iso fl) eqn:Ho.
  { apply same_owner_iff in Ho. apply (Hskip True); naive_solver. }
  destruct ((type fl =? F_RDLCK) && (ty =? F_RDLCK)) eqn:Ht.
  { bool_to_prop. apply (Hskip True); naive_solver. }
  destruct ((start fl <? e) && (s <? end_ fl)) eqn:Hr.
  - split; [done |]. intros H. exfalso. bool_to_prop.
    apply (H fl); try done; [by constructor | | ].
    + intros He. apply same_owner_iff in He. congruence.
    + intros [Ha Hb']. rewrite Ha, Hb' in Ht. by destruct Ht.
  - apply (Hskip True); [| done]. intros _ (_ & _ & _ & ? & ?). bool_to_prop. lia.
Qed.

Lemma find_conflict_Some pid fowner iso l ty s e c :
  find_conflict pid fowner iso l ty s e = Some c ->
  c ∈ l /\ is_bsd c = false /\ owner c <> requester_owner pid fowner iso /\
  ~ (type c = F_RDLCK /\ ty = F_RDLCK) /\ start c < e /\ s < end_ c.
Proof.
  induction l as [| fl l IH]; cbn; [done |]. intros H.
  repeat split_match_in H; try (apply IH in H; destruct_and!; repeat split_and; [by right | done ..]).
  injection H as <-. bool_to_prop. repeat split_and; try done; [by left | |].
  - intros He. apply same_owner_iff in He. congruence.
  - intros [Ha Hb]. rewrite Ha, Hb in E1. by destruct E1.
Qed.

Lemma bsd_flock_conflict_None l f ty :
  bsd_flock_conflict l f ty = None <->
  forall fl, fl ∈ l -> is_bsd fl = true -> owner_file fl <> Some f ->
    type fl = F_RDLCK /\ ty = F_RDLCK.
Proof.
  induction l as [| fl l IH]; cbn.
  { split; [| done]. intros _ fl H. elem_inv. }
  destruct (is_bsd fl) eqn:Hb; cbn.
  2:{ rewrite IH. split; intros H fl' Hin; [| apply H; by right].
      elem_inv; [congruence | by apply H]. }
  case_bool_decide as Hf.
  { rewrite IH. split; intros H fl' Hin; [| apply H; by right].
    elem_inv; [congruence | by apply H]. }
  destruct ((type fl =? F_RDLCK) && (ty =? F_RDLCK)) eqn:Ht.
  - bool_to_prop. rewrite IH. split; intros H' fl' Hin; [| apply H'; by right].
    elem_inv; [done | by apply H'].
  - split; [done |]. intros H. exfalso. destruct (H fl) as [Ha Hc]; [by left | done .. |].
    rewrite Ha, Hc in Ht. done.
Qed.

(** ** Every step of the lock manager keeps the exclusion *)

Lemma exclusive_sub l l' : exclusive l -> (forall a, a ∈ l' -> a ∈ l) -> exclusive l'.
Proof.
  intros He Hs. eapply exclusive_parts; [exact He |].
  intros a Ha. exists a. split; [by apply Hs | apply part_of_refl].
Qed.

Lemma exclusive_snoc l n :
  exclusive l ->
  (forall a, a ∈ l -> ~ clash a n) -> (forall a, a ∈ l -> ~ clash n a) ->
  (forall a, a ∈ l -> ~ bsd_clash a n) -> (forall a, a ∈ l -> ~ bsd_clash n a) ->
  exclusive (l ++ [n]).
Proof.
  intros [Hr Hb] H1 H2 H3 H4. split; intros a b Ha Hb'; elem_inv; eauto;
    intros Hc; unfold clash, bsd_clash in Hc; naive_solver.
Qed.

Lemma clash_sym a b : clash a b -> clash b a.
Proof. unfold clash. naive_solver. Qed.

Lemma bsd_clash_sym a b : bsd_clash a b -> bsd_clash b a.
Proof. unfold bsd_clash. naive_solver. Qed.

Lemma wake_locks ip : i_flock (wake ip) = i_flock ip.
Proof. unfold wake. by destruct (wq ip). Qed.

Lemma exclusive_insert pid fowner iso ip ty s e :
  exclusive (i_flock ip) ->
  find_conflict pid fowner iso (i_flock ip) ty s e = None ->
  exclusive (i_flock (locks_insert pid fowner iso ip ty s e).1).
Proof.
  intros He Hc. unfold locks_insert.
  pose proof (deleted_part pid fowner iso s e ip) as Hpart.
  assert (He' : exclusive (i_flock (locks_delete_range pid fowner iso ip s e)))
    by (by eapply exclusive_parts).
  destruct (kmalloc_ok _) as [[] m]; cbn; [| done].
  set (n := FileLock pid fowner iso false ty s e).
  assert (Hn : forall a, a ∈ i_flock (locks_delete_range pid fowner iso ip s e) -> ~ clash a n).
  { intros a Ha (? & _ & Ho & Ht & ? & ?). subst n. rewrite owner_piece in Ho.
    destruct (Hpart a Ha) as (b & Hb & (Pb & Po & Pt & _ & ? & ?)). cbn in *.
    rewrite find_conflict_None in Hc.
    apply (Hc b Hb); [congruence | congruence | by rewrite <- Pt | lia | lia]. }
  apply exclusive_snoc; [done .. | | |].
  - intros a Ha Hcl. by apply (Hn a Ha), clash_sym.
  - intros a Ha (_ & ? & _). done.
  - intros a Ha (? & _ & _). done.
Qed.

Lemma exclusive_apply_iter pid fowner iso ip ty s e :
  exclusive (i_flock ip) -> exclusive (i_flock (apply_iter pid fowner iso ip ty s e).1).
Proof.
  intros He. unfold apply_iter. destruct (ty =? F_UNLCK).
  { cbn. rewrite wake_locks. eapply exclusive_parts; [exact He |]. apply deleted_part. }
  destruct (find_conflict _ _ _ _ _ _ _) eqn:Hc; [done |].
  pose proof (exclusive_insert pid fowner iso ip ty s e He Hc) as Hi.
  destruct (locks_insert _ _ _ _ _ _ _). cbn in *. by rewrite wake_locks.
Qed.

Lemma drop_if_sub p l a : a ∈ drop_if p l <-> a ∈ l /\ p a = false.
Proof.
  unfold drop_if. rewrite !list_elem_of_In, List.filter_In, negb_true_iff. done.
Qed.

Lemma exclusive_flock_iter pid f op ip :
  exclusive (i_flock ip) -> exclusive (i_flock (flock_iter pid f op ip).1).
Proof.
  intros He. assert (Hd : exclusive (bsd_flock_drop (i_flock ip) f)).
  { eapply exclusive_sub; [exact He |]. intros a Ha. by apply drop_if_sub in Ha as [? _]. }
  unfold flock_iter. destruct (op =? LOCK_UN); [cbn; by rewrite wake_locks |].
  destruct (flock_op_type op <? 0); [done |].
  destruct (bsd_flock_conflict _ _ _) eqn:Hc; [done |]. cbn.
  destruct (kmalloc_ok (mem ip)) as [[] m]; cbn; [| done].
  rewrite wake_locks. cbn.
  assert (Hn : forall a, a ∈ bsd_flock_drop (i_flock ip) f ->
    ~ bsd_clash a (FileLock pid (Some f) false true (flock_op_type op) 0 FLOCK_END_EOF)).
  { intros a Ha (Hb & _ & Ho & Ht). apply drop_if_sub in Ha as [Ha _].
    rewrite bsd_flock_conflict_None in Hc. by apply Ht, Hc. }
  apply exclusive_snoc; [done | | | done |].
  - intros a Ha (_ & ? & _). done.
  - intros a Ha (? & _ & _). done.
  - intros a Ha Hcl. by apply (Hn a Ha), bsd_clash_sym.
Qed.

Lemma drop_and_wake_locks p ip : i_flock (drop_and_wake p ip) = drop_if p (i_flock ip).
Proof. unfold drop_and_wake. destruct (existsb _ _); by rewrite ?wake_locks. Qed.

Lemma exclusive_drop_and_wake p ip :
  exclusive (i_flock ip) -> exclusive (i_flock (drop_and_wake p ip)).
Proof.
  intros He. rewrite drop_and_wake_locks. eapply exclusive_sub; [exact He |].
  intros a Ha. by apply drop_if_sub in Ha as [? _].
Qed.

(** ** The lock manager as a system of requests

    Every iteration of a (blocking or not) request runs atomically under
    [i_flock_lock]; a task that waits simply runs its iteration again.  The
    behaviour of any number of tasks is therefore a sequence of iterations,
    process exits and closes. *)

Inductive request :=
| ReqPosix (pid : Z) (f : file) (lk : flock)
| ReqOfd (pid : Z) (f : file) (lk : flock)
| ReqFlock (pid : Z) (f : Z) (op : Z)
| ReqExit (pid : Z)
| ReqClose (f : file)
| ReqEvict.

(** The result is the system call's; a conflict shows as [- EAGAIN]. *)
Definition finish (x : inode * option Z) : inode * Z :=
  (x.1, match x.2 with Some r => r | None => - EAGAIN end).

Definition exec (ip : inode) (r : request) : inode * Z :=
  match r with
  | ReqPosix pid f lk =>
      match resolve_range f ip lk with
      | inl err => (ip, err)
      | inr (s, e) => finish (apply_iter pid None false ip (l_type lk) s e)
      end
  | ReqOfd pid f lk =>
      match resolve_range f ip lk with
      | inl err => (ip, err)
      | inr (s, e) => finish (apply_iter pid (Some (f_id f)) true ip (l_type lk) s e)
      end
  | ReqFlock pid f op => finish (flock_iter pid f op ip)
  | ReqExit pid => (release_pid_on_inode pid ip, 0)
  | ReqClose f => (file_lock_release_file f ip, 0)
  | ReqEvict => (file_lock_release_all ip, 0)
  end.

Lemma exclusive_exec ip r : exclusive (i_flock ip) -> exclusive (i_flock (exec ip r).1).
Proof.
  intros He. destruct r as [pid f lk | pid f lk | pid f op | pid | f |]; cbn.
  - destruct (resolve_range f ip lk) as [| [s e]]; [done |]. by apply exclusive_apply_iter.
  - destruct (resolve_range f ip lk) as [| [s e]]; [done |]. by apply exclusive_apply_iter.
  - by apply exclusive_flock_iter.
  - by apply exclusive_drop_and_wake.
  - unfold file_lock_release_file. destruct (negb _); [done |]. by apply exclusive_drop_and_wake.
  - split; intros a b Ha; elem_inv.
Qed.

(** Every stored record lock is a read or a write lock. *)
Definition typed (l : list file_lock) : Prop :=
  forall fl, fl ∈ l -> type fl = F_RDLCK \/ type fl = F_WRLCK.

Lemma typed_parts l l' :
  typed l -> (forall a, a ∈ l' -> exists b, b ∈ l /\ part_of a b) -> typed l'.
Proof.
  intros Ht Hp a Ha. destruct (Hp a Ha) as (b & Hb & (_ & _ & -> & _)). by apply Ht.
Qed.

Lemma typed_sub l l' : typed l -> (forall a, a ∈ l' -> a ∈ l) -> typed l'.
Proof. intros Ht Hs a Ha. by apply Ht, Hs. Qed.

Lemma typed_apply_iter pid fowner iso ip ty s e :
  typed (i_flock ip) -> ty = F_RDLCK \/ ty = F_WRLCK \/ ty = F_UNLCK ->
  typed (i_flock (apply_iter pid fowner iso ip ty s e).1).
Proof.
  intros Ht Hty.
  assert (Hd : typed (i_flock (locks_delete_range pid fowner iso ip s e))).
  { eapply typed_parts; [exact Ht | apply deleted_part]. }
  unfold apply_iter. destruct (Z.eqb_spec ty F_UNLCK); [cbn; by rewrite wake_locks |].
  destruct (find_conflict _ _ _ _ _ _ _); [done |].
  unfold locks_insert. destruct (kmalloc_ok _) as [[] m]; cbn; rewrite wake_locks; [| done].
  intros fl Hfl. cbn in Hfl. elem_inv; [by apply Hd | cbn; tauto].
Qed.

Lemma resolve_range_type f ip lk s e :
  resolve_range f ip lk = inr (s, e) ->
  l_type lk = F_RDLCK \/ l_type lk = F_WRLCK \/ l_type lk = F_UNLCK.
Proof.
  unfold resolve_range. destruct (negb _) eqn:E; [done |]. intros _.
  apply negb_false_iff, orb_true_iff in E as [E | E]; [apply orb_true_iff in E as [E | E] |];
    bool_to_prop; tauto.
Qed.

Lemma typed_exec ip r : typed (i_flock ip) -> typed (i_flock (exec ip r).1).
Proof.
  intros Ht. assert (Hdrop : forall p, typed (i_flock (drop_and_wake p ip))).
  { intros p. rewrite drop_and_wake_locks. eapply typed_sub; [exact Ht |].
    intros a Ha. by apply drop_if_sub in Ha as [? _]. }
  destruct r as [pid f lk | pid f lk | pid f op | pid | f |]; cbn.
  1,2: destruct (resolve_range f ip lk) as [| [s e]] eqn:E; [done |];
       apply typed_apply_iter; [done | by eapply resolve_range_type].
  - assert (Hd : typed (bsd_flock_drop (i_flock ip) f)).
    { eapply typed_sub; [exact Ht |]. intros a Ha. by apply drop_if_sub in Ha as [? _]. }
    unfold flock_iter. destruct (op =? LOCK_UN); [cbn; by rewrite wake_locks |].
    destruct (flock_op_type op <? 0) eqn:Eo; [done |].
    destruct (bsd_flock_conflict _ _ _); [done |]. cbn.
    destruct (kmalloc_ok _) as [[] m]; cbn; rewrite ?wake_locks; [| done].
    intros fl Hfl. cbn in Hfl. elem_inv; [by apply Hd |]. cbn.
    unfold flock_op_type in *. repeat split_match; bool_to_prop; tauto || lia.
  - apply Hdrop.
  - unfold file_lock_release_file. destruct (negb _); [done | apply Hdrop].
  - intros fl Hfl. elem_inv.
Qed.

(** ** Blocking requests *)

Lemma inode_wq_get_no_oom ip :
  no_oom (mem ip) ->
  exists m, inode_wq_get ip = (Inode (i_flock ip) (size ip) true (wakes ip) m, true) /\ no_oom m.
Proof.
  intros Hm. unfold inode_wq_get. pose proof (kmalloc_ok_no_oom _ Hm) as [H1 H2].
  destruct (wq ip) eqn:E; [exists (mem ip); by destruct ip; cbn in *; subst |].
  destruct (kmalloc_ok (mem ip)) as [[] m]; [| done]. by exists m.
Qed.

Section loop.
Context (pid : Z) (fowner : file_ptr) (iso : bool) (ty s e : Z).
Hypothesis ty_lock : ty = F_RDLCK \/ ty = F_WRLCK.

Definition conflicting (l : list file_lock) : Prop :=
  find_conflict pid fowner iso l ty s e <> None.

(** A wake-up that leaves the task waiting. *)
Definition futile (w : wakeup) : Prop := w_signal w = false /\ conflicting (w_locks w).

Local Abbreviation loop := (lock_loop (fun ip => apply_iter pid fowner iso ip ty s e)).

Lemma ty_not_unlck : (ty =? F_UNLCK) = false.
Proof. apply Z.eqb_neq. unfold F_UNLCK, F_RDLCK, F_WRLCK in *. lia. Qed.

Lemma apply_iter_conflict ip :
  conflicting (i_flock ip) -> apply_iter pid fowner iso ip ty s e = (ip, None).
Proof.
  intros Hc. unfold apply_iter, conflicting in *. rewrite ty_not_unlck.
  by destruct (find_conflict _ _ _ _ _ _ _).
Qed.

(** The loop sleeps through every futile wake-up. *)
Lemma lock_loop_waits ip ws env :
  no_oom (mem ip) -> conflicting (i_flock ip) -> Forall futile ws ->
  exists ip', no_oom (mem ip') /\ wq ip' = true /\ conflicting (i_flock ip') /\
    loop true ip (ws ++ env) =
      match env with
      | [] => Asleep ip'
      | w :: env' =>
          let ip2 := set_locks ip' (w_locks w) in
          if w_signal w then Done (- ERESTART) ip2 else loop true ip2 env'
      end.
Proof.
  intros Hm Hc Hws. revert ip Hm Hc.
  induction Hws as [| w ws [Hs Hw] Hws IH]; intros ip Hm Hc;
    destruct (inode_wq_get_no_oom ip Hm) as (m & Hq & Hm').
  - exists (Inode (i_flock ip) (size ip) true (wakes ip) m). repeat split_and; try done.
    destruct env as [| w env]; cbn [app lock_loop]; rewrite apply_iter_conflict by done; cbn;
      by rewrite Hq.
  - destruct (IH (Inode (w_locks w) (size ip) true (wakes ip) m) Hm' Hw)
      as (ip' & ? & ? & ? & Heq).
    exists ip'. repeat split_and; try done.
    cbn [app lock_loop]. rewrite apply_iter_conflict by done. cbn. rewrite Hq. cbn. by rewrite Hs.
Qed.

(** A request without conflict takes the lock at once. *)
Lemma lock_loop_takes b ip env :
  no_oom (mem ip) -> find_conflict pid fowner iso (i_flock ip) ty s e = None ->
  exists ip', loop b ip env = Done 0 ip' /\
    forall o t x, held (i_flock ip') o t x <->
      (o = requester_owner pid fowner iso /\ t = ty /\ s <= x < e) \/
      (held (i_flock ip) o t x /\ ~ (o = requester_owner pid fowner iso /\ s <= x < e)).
Proof.
  intros Hm Hc. destruct (locks_delete_range_spec pid fowner iso s e ip) as (_ & _ & _ & _ & Hok).
  destruct (Hok Hm) as [_ Hm1]. apply kmalloc_ok_no_oom in Hm1 as [Hk Hm2].
  assert (Hl : exists ip', loop b ip env = Done 0 ip' /\
    i_flock ip' = i_flock (locks_delete_range pid fowner iso ip s e) ++
                  [FileLock pid fowner iso false ty s e]).
  { destruct env; cbn [lock_loop]; unfold apply_iter; rewrite ty_not_unlck, Hc; unfold locks_insert;
      destruct (kmalloc_ok _) as [[] m]; try done; (eexists; split; [done |]); by rewrite wake_locks. }
  destruct Hl as (ip' & -> & Hl). exists ip'. split; [done |]. intros o t x.
  rewrite <- held_deleted by done. rewrite Hl. unfold held. split.
  - intros (fl & Hfl & Hb & Ho & Ht & Hx). elem_inv; [right; by exists fl |].
    left. rewrite owner_piece. by cbn in *.
  - intros [(-> & -> & Hx) | (fl & Hfl & Hrest)].
    + eexists. split; [apply elem_of_app; right; by apply list_elem_of_singleton |].
      by rewrite owner_piece.
    + exists fl. split; [apply elem_of_app; by left | done].
Qed.
End loop.

(** ** Properties *)

(** C12.  Exclusion.  Whatever sequence of fcntl and flock requests, process
    exits and closes hits an inode, no byte is ever write-locked by one owner
    while another owner holds a record lock on it, and no description holds
    an exclusive flock while another holds any flock. *)
Theorem lock_exclusion (ip : inode) (reqs : list request) :
  i_flock ip = [] -> exclusive (i_flock (run exec ip reqs).1).
Proof.
  intros H0. apply (run_invariant exec (fun ip => exclusive (i_flock ip)) (fun _ => True)).
  - intros. by apply exclusive_exec.
  - rewrite H0. split; intros a b Ha; elem_inv.
  - by apply Forall_true.
Qed.

Definition ip0 : inode := Inode [] 100 true 0 [].
Definition demo_file (n : Z) : file := File n true 0.
Definition demo_reqs : list request :=
  [ReqPosix 1 (demo_file 10) (Flock F_WRLCK SEEK_SET 0 50 0);
   ReqOfd 2 (demo_file 11) (Flock F_RDLCK SEEK_SET 60 10 0);
   ReqPosix 1 (demo_file 10) (Flock F_UNLCK SEEK_SET 10 10 0);
   ReqFlock 3 12 LOCK_EX;
   ReqOfd 2 (demo_file 11) (Flock F_WRLCK SEEK_SET 12 5 0)].

Lemma lock_exclusion_witness :
  (run exec ip0 demo_reqs).2 = [0; 0; 0; 0; 0] /\ exclusive (i_flock (run exec ip0 demo_reqs).1).
Proof. split; [vm_compute; reflexivity | by apply (lock_exclusion ip0 demo_reqs)]. Defined.



(**  F_GETLK tells the truth about F_SETLK: on the same request it
    reports F_UNLCK exactly when F_SETLK takes the lock, and otherwise it
    reports a stored lock of another owner that overlaps the range and is not
    read-compatible, while F_SETLK fails with EAGAIN. *)
Theorem getlk_predicts_setlk (pid : Z) (f : file) (ip : inode) (lk : flock) (s e : Z) :
  no_oom (mem ip) -> typed (i_flock ip) -> f_has_inode f = true ->
  resolve_range f ip lk = inr (s, e) -> l_type lk <> F_UNLCK ->
  let got := do_fcntl_lock pid f F_GETLK lk ip [] in
  let set := (do_fcntl_lock pid f F_SETLK lk ip []).1 in
  got.1 = Done 0 ip /\
  (l_type got.2 = F_UNLCK -> exists ip', set = Done 0 ip') /\
  (l_type got.2 <> F_UNLCK ->
     set = Done (- EAGAIN) ip /\
     exists c, c ∈ i_flock ip /\ got.2 = report (Some c) lk /\ is_bsd c = false /\
       owner c <> OwnPid pid /\ ~ (type c = F_RDLCK /\ l_type lk = F_RDLCK) /\
       start c < e /\ s < end_ c).
Proof.
  intros Hm Ht Hf Hr Hu got set. subst got set. unfold do_fcntl_lock. rewrite Hf, Hr.
  change (F_GETLK =? F_GETLK) with true. change (F_SETLK =? F_GETLK) with false.
  change (F_SETLK =? F_SETLKW) with false. cbn [negb fst snd].
  pose proof (resolve_range_type _ _ _ _ _ Hr) as Hty.
  split; [done |].
  destruct (find_conflict pid None false (i_flock ip) (l_type lk) s e) as [c |] eqn:Hc;
    cbn [report l_type].
  - pose proof (find_conflict_Some _ _ _ _ _ _ _ _ Hc) as (Hin & Hrest). split.
    + intros Hcu. destruct (Ht c Hin) as [H | H]; rewrite Hcu in H; done.
    + intros _. split; [| by exists c].
      unfold apply_lock. cbn [lock_loop].
      rewrite apply_iter_conflict; [done | tauto |]. unfold conflicting. congruence.
  - split; [| done]. intros _. unfold apply_lock.
    destruct (lock_loop_takes pid None false (l_type lk) s e ltac:(tauto) false ip [] Hm Hc)
      as (ip' & -> & _). by exists ip'.
Qed.

Definition ip_locked : inode :=
  Inode [FileLock 2 (Some 11) true false F_WRLCK 60 70] 100 true 0 [].

Lemma getlk_predicts_setlk_witness :
  let lk := Flock F_RDLCK SEEK_SET 40 30 0 in
  let got := do_fcntl_lock 1 (demo_file 10) F_GETLK lk ip_locked [] in
  got.2 = Flock F_WRLCK SEEK_SET 60 10 2 /\ got.1 = Done 0 ip_locked /\
  (do_fcntl_lock 1 (demo_file 10) F_SETLK lk ip_locked []).1 = Done (- EAGAIN) ip_locked.
Proof.
  set (lk := Flock F_RDLCK SEEK_SET 40 30 0).
  pose proof (getlk_predicts_setlk 1 (demo_file 10) ip_locked lk 40 70 no_oom_nil) as H.
  cbn zeta in *. split; [by vm_compute |]. split; [by vm_compute |].
  apply H; [| by vm_compute ..].
  intros fl Hfl. unfold ip_locked in Hfl. cbn in Hfl. elem_inv. by right.
Defined.

(**  F_SETLKW blocks exactly as long as it must: it sleeps through every
    wake-up that still finds a conflict, takes the whole range at the first
    one that does not, and gives up with ERESTART only when a signal is
    pending. *)
Theorem setlkw_blocks_then_takes (pid : Z) (fowner : file_ptr) (iso : bool) (ip : inode)
  (ty s e : Z) (ws : list wakeup) (w : wakeup) (env : list wakeup) :
  no_oom (mem ip) -> ty = F_RDLCK \/ ty = F_WRLCK ->
  conflicting pid fowner iso ty s e (i_flock ip) ->
  Forall (futile pid fowner iso ty s e) ws ->
  (exists ip', apply_lock ip pid fowner iso ty s e true ws = Asleep ip') /\
  (w_signal w = true ->
   exists ip', apply_lock ip pid fowner iso ty s e true (ws ++ w :: env) = Done (- ERESTART) ip') /\
  (w_signal w = false -> find_conflict pid fowner iso (w_locks w) ty s e = None ->
   exists ip', apply_lock ip pid fowner iso ty s e true (ws ++ w :: env) = Done 0 ip' /\
     forall x, s <= x < e -> held (i_flock ip') (requester_owner pid fowner iso) ty x).
Proof.
  intros Hm Hty Hc Hws. unfold apply_lock.
  destruct (lock_loop_waits pid fowner iso ty s e Hty ip ws [] Hm Hc Hws) as (ip1 & _ & _ & _ & H1).
  rewrite app_nil_r in H1.
  destruct (lock_loop_waits pid fowner iso ty s e Hty ip ws (w :: env) Hm Hc Hws)
    as (ip2 & Hm2 & _ & _ & H2).
  split; [by exists ip1 |]. rewrite H2. cbn zeta. split; intros Hs; rewrite Hs; [by eexists |].
  intros Hn.
  destruct (lock_loop_takes pid fowner iso ty s e Hty true (set_locks ip2 (w_locks w)) env Hm2 Hn)
    as (ip' & -> & Hh).
  exists ip'. split; [done |]. intros x Hx. apply Hh. by left.
Qed.

Lemma setlkw_blocks_then_takes_witness :
  exists ip', apply_lock ip_locked 1 None false F_WRLCK 65 80 true
    [Wakeup (i_flock ip_locked) false; Wakeup [] false] = Done 0 ip' /\
    forall x, 65 <= x < 80 -> held (i_flock ip') (OwnPid 1) F_WRLCK x.
Proof.
  apply (setlkw_blocks_then_takes 1 None false ip_locked F_WRLCK 65 80
           [Wakeup (i_flock ip_locked) false] (Wakeup [] false) []);
    [apply no_oom_nil | by right | by vm_compute | | done | done].
  constructor; [by vm_compute | constructor].
Defined.

(**  No lost wake-up: with memory available, every request, exit or close
    that takes a lock away from the list wakes the inode's wait queue, so a
    blocked F_SETLKW or flock is re-evaluated. *)
Theorem release_wakes (ip : inode) (r : request) (fl : file_lock) :
  no_oom (mem ip) -> wq ip = true -> r <> ReqEvict ->
  fl ∈ i_flock ip -> ~ (fl ∈ i_flock (exec ip r).1) ->
  (wakes ip < wakes (exec ip r).1)%nat.
Proof.
  intros Hm Hq Hr Hin Hout.
  assert (Hw : forall ip', wq ip' = wq ip -> wakes ip' = wakes ip -> (wakes ip < wakes (wake ip'))%nat).
  { intros ip' H1 H2. unfold wake. rewrite H1, Hq. cbn. lia. }
  assert (Hap : forall pid fowner iso ty s e,
    ~ (fl ∈ i_flock (apply_iter pid fowner iso ip ty s e).1) ->
    (wakes ip < wakes (apply_iter pid fowner iso ip ty s e).1)%nat).
  { intros pid fowner iso ty s e. unfold apply_iter.
    destruct (locks_delete_range_spec pid fowner iso s e ip) as (_ & H1 & H2 & _).
    destruct (ty =? F_UNLCK); [intros _; by apply Hw |].
    destruct (find_conflict _ _ _ _ _ _ _); [intros; tauto |]. intros _.
    unfold locks_insert. destruct (kmalloc_ok _) as [[] m]; cbn; by apply Hw. }
  assert (Hdr : forall p, ~ (fl ∈ i_flock (drop_and_wake p ip)) ->
    (wakes ip < wakes (drop_and_wake p ip))%nat).
  { intros p Hn. rewrite drop_and_wake_locks, drop_if_sub in Hn. unfold drop_and_wake.
    destruct (existsb p (i_flock ip)) eqn:E; [by apply Hw |].
    exfalso. apply Hn. split; [done |]. destruct (p fl) eqn:Ep; [| done].
    apply list_elem_of_In in Hin. assert (existsb p (i_flock ip) = true); [| congruence].
    apply existsb_exists. by exists fl. }
  destruct r as [pid f lk | pid f lk | pid f op | pid | f |]; cbn in *; try done.
  1,2: destruct (resolve_range f ip lk) as [| [s e]]; [tauto | by apply Hap].
  - revert Hout. unfold flock_iter. destruct (op =? LOCK_UN); [intros _; by apply Hw |].
    destruct (flock_op_type op <? 0); [intros; tauto |].
    destruct (bsd_flock_conflict _ _ _); [intros; tauto |]. intros _. cbn.
    apply kmalloc_ok_no_oom in Hm as [Hk _].
    destruct (kmalloc_ok (mem ip)) as [[] m]; [by apply Hw | done].
  - by apply Hdr.
  - unfold file_lock_release_file in *. destruct (negb _); [tauto | by apply Hdr].
Qed.

Lemma release_wakes_witness :
  (wakes ip_locked < wakes (exec ip_locked (ReqClose (demo_file 11))).1)%nat.
Proof.
  apply (release_wakes ip_locked (ReqClose (demo_file 11)) (FileLock 2 (Some 11) true false F_WRLCK 60 70));
    [apply no_oom_nil | done | done | by constructor |].
  replace (i_flock _) with (@nil file_lock) by (by vm_compute). apply not_elem_of_nil.
Defined.

(**  A BSD lock belongs to the open file description, yet it does not
    survive the process that took it: [release_pid_on_inode] tests only
    [is_ofd], and a BSD entry has [is_ofd = false] and the locker's pid.  After
    a successful exclusive flock, the exit of the locking process leaves the
    description (still open in another process) without its lock. *)
Theorem flock_lost_on_exit (pid : Z) (f : file) (ip : inode) :
  f_has_inode f = true -> no_oom (mem ip) ->
  bsd_flock_conflict (i_flock ip) (f_id f) F_WRLCK = None ->
  exists ip', do_flock pid f (Z.lor LOCK_EX LOCK_NB) ip [] = Done 0 ip' /\
    FileLock pid (Some (f_id f)) false true F_WRLCK 0 FLOCK_END_EOF ∈ i_flock ip' /\
    forall fl, fl ∈ i_flock (release_pid_on_inode pid ip') ->
      ~ (is_bsd fl = true /\ owner_file fl = Some (f_id f)).
Proof.
  intros Hf Hm Hc. unfold do_flock. rewrite Hf. cbn [negb].
  change (Z.ldiff (Z.lor LOCK_EX LOCK_NB) LOCK_NB) with LOCK_EX.
  change (has_flag (Z.lor LOCK_EX LOCK_NB) LOCK_NB) with true.
  cbn [lock_loop]. unfold flock_iter.
  change (LOCK_EX =? LOCK_UN) with false. change (flock_op_type LOCK_EX) with F_WRLCK.
  change (F_WRLCK <? 0) with false. cbn iota zeta. rewrite Hc. cbn [mem set_locks].
  apply kmalloc_ok_no_oom in Hm as [Hk _]. destruct (kmalloc_ok (mem ip)) as [[] m]; [| done].
  eexists. split; [done |]. rewrite wake_locks. cbn. split; [apply elem_of_app; right; by left |].
  intros fl Hfl [Hb Ho]. unfold release_pid_on_inode in Hfl.
  rewrite drop_and_wake_locks, drop_if_sub, wake_locks in Hfl. cbn in Hfl.
  destruct Hfl as [Hfl Hn]. elem_inv.
  - apply drop_if_sub in Hfl as [_ Hd]. rewrite Hb, Ho in Hd. by case_bool_decide.
  - cbn in Hn. by rewrite Z.eqb_refl in Hn.
Qed.

Lemma flock_lost_on_exit_witness :
  exists ip', do_flock 7 (demo_file 12) (Z.lor LOCK_EX LOCK_NB) ip0 [] = Done 0 ip' /\
    FileLock 7 (Some 12) false true F_WRLCK 0 FLOCK_END_EOF ∈ i_flock ip' /\
    forall fl, fl ∈ i_flock (release_pid_on_inode 7 ip') ->
      ~ (is_bsd fl = true /\ owner_file fl = Some 12).
Proof. apply (flock_lost_on_exit 7 (demo_file 12) ip0); [done | apply no_oom_nil | done]. Defined.

(** A negative [l_len] is rejected when the range does not start at byte 0,
    but at byte 0 it is accepted as a lock that ends near the top of the
    64-bit range. *)
Lemma negative_len_accepted_at_zero :
  resolve_range (demo_file 1) ip0 (Flock F_WRLCK SEEK_SET 5 (-1) 0) = inl (- EINVAL) /\
  resolve_range (demo_file 1) ip0 (Flock F_WRLCK SEEK_SET 0 (-1) 0) = inr (0, FLOCK_END_EOF).
Proof. split; vm_compute; reflexivity. Qed.

(** When the allocation fails, an flock upgrade has already dropped the
    caller's old lock and returns without waking anybody. *)
Lemma flock_oom_drops_silently :
  let ip := Inode [FileLock 1 (Some 10) false true F_RDLCK 0 FLOCK_END_EOF] 0 true 0 [false] in
  do_flock 1 (demo_file 10) LOCK_EX ip [] = Done (- ENOMEM) (Inode [] 0 true 0 []).
Proof. vm_compute. reflexivity. Qed.
