(* ===== verification/Bfc.v ===== *)
(** * The physical page allocator (kernel/xcore/mem/alloc.c)

    The allocator keeps one descriptor per physical page in the array
    [bfc_frames] and threads a doubly linked list of free blocks through the
    descriptors of their first pages.  The model keeps this representation: a
    [struct page *] is an index into [frames] ([None] is NULL), and every
    access to the array can fault ([None] result) when it is out of bounds.

    - Module [Page] and the definitions below: the C functions.
    - [Blocks]: the abstract allocator, a list of disjoint free intervals.
    - [Rep]: the representation predicate (the linked list stands for the
      interval list) and the pointer reasoning.
    - [Refine]: every operation refines the abstract one.
    - [Init]: the free list built at boot. *)
From S2P Require Import Prelude.

Inductive page_status := PAGE_FREE | PAGE_USED | PAGE_SLAB | PAGE_RESERVED.

#[export] Instance page_status_eq_dec : EqDecision page_status.
Proof. solve_decision. Defined.

Definition ptr := option nat.

(** [struct page] with the [bfc] member of its union. *)
Record page := Page {
  status : page_status;
  p_refcount : Z;
  cont_page_num : nat;
  prev : ptr;
  next : ptr;
}.

Record bfc := Bfc {
  frames : list page;       (* bfc_frames[0 .. total_page_frames - 1] *)
  bfc_free_list : ptr;
  used_pages : Z;           (* kernel_mem_stats.used_pages, an int *)
}.

Definition set_status (s : page_status) (p : page) : page :=
  Page s (p_refcount p) (cont_page_num p) (prev p) (next p).
Definition set_refcount (n : Z) (p : page) : page :=
  Page (status p) n (cont_page_num p) (prev p) (next p).
Definition set_cont (n : nat) (p : page) : page :=
  Page (status p) (p_refcount p) n (prev p) (next p).
Definition set_prev (q : ptr) (p : page) : page :=
  Page (status p) (p_refcount p) (cont_page_num p) q (next p).
Definition set_next (q : ptr) (p : page) : page :=
  Page (status p) (p_refcount p) (cont_page_num p) (prev p) q.

(** [frames[i].field = v]; a fault outside the array. *)
Definition upd (i : nat) (f : page -> page) (st : bfc) : option bfc :=
  match frames st !! i with
  | Some p => Some (Bfc (<[i := f p]> (frames st)) (bfc_free_list st) (used_pages st))
  | None => None
  end.

Definition set_head (q : ptr) (st : bfc) : bfc := Bfc (frames st) q (used_pages st).

(** [if (prev == NULL) bfc_free_list = v; else prev->bfc.next = v;] *)
Definition set_link (pr : ptr) (v : ptr) (st : bfc) : option bfc :=
  match pr with
  | None => Some (set_head v st)
  | Some q => upd q (set_next v) st
  end.

(** [if (cur != NULL) cur->bfc.prev = v;] *)
Definition set_back (cur : ptr) (v : ptr) (st : bfc) : option bfc :=
  match cur with
  | None => Some st
  | Some c => upd c (set_prev v) st
  end.

Definition memstat_add (st : bfc) (n : Z) : bfc :=
  Bfc (frames st) (bfc_free_list st) (s32 (used_pages st + s32 n)).

(** [for (i = 0; i < n; i++) { cur[i].status = PAGE_USED; refcount_set(.., 1); }] *)
Fixpoint mark_used (n c : nat) (st : bfc) : option bfc :=
  match n with
  | O => Some st
  | S n' => st' ← upd c (fun p => set_refcount 1 (set_status PAGE_USED p)) st;
            mark_used n' (S c) st'
  end.

(** Take [n] pages from the front of the free block [c], whose predecessor in
    the list is [pr]: the body shared by the two allocation loops. *)
Definition take_block (c : nat) (pr : ptr) (n : nat) (st : bfc) : option (bfc * ptr) :=
  cur ← frames st !! c;
  if (cont_page_num cur =? n)%nat then
    st1 ← set_link pr (next cur) st;
    st2 ← set_back (next cur) pr st1;
    st3 ← mark_used n c st2;
    Some (memstat_add st3 (Z.of_nat n), Some c)
  else
    let remaining := (cont_page_num cur - n)%nat in
    st1 ← upd c (set_cont n) st;
    st2 ← mark_used n c st1;
    let nb := (c + n)%nat in
    st3 ← upd nb (fun p => Page PAGE_FREE (p_refcount p) remaining pr (next cur)) st2;
    st4 ← set_link pr (Some nb) st3;
    st5 ← set_back (next cur) (Some nb) st4;
    st6 ← upd c (fun p => set_next None (set_prev None p)) st5;
    Some (memstat_add st6 (Z.of_nat n), Some c).

(** The search loop; [fits] is the loop's condition on a block. *)
Fixpoint alloc_loop (fuel : nat) (fits : nat -> nat -> bool) (cur pr : ptr) (n : nat) (st : bfc)
  : option (bfc * ptr) :=
  match cur with
  | None => Some (st, None)
  | Some c =>
      match fuel with
      | O => None
      | S fuel' =>
          p ← frames st !! c;
          if fits c (cont_page_num p) then take_block c pr n st
          else alloc_loop fuel' fits (next p) (Some c) n st
      end
  end.

(** The list has at most one block per page, so one iteration per page and
    one for the end is enough fuel. *)
Definition loop_fuel (st : bfc) : nat := S (length (frames st)).

Definition bfc_alloc_page (n : nat) (st : bfc) : option (bfc * ptr) :=
  if (n =? 0)%nat then Some (st, None)
  else match bfc_free_list st with
       | None => Some (st, None)
       | Some c => alloc_loop (loop_fuel st) (fun _ num => n <=? num)%nat (Some c) None n st
       end.

(** Only blocks whose first [n] pages lie below 4 GiB. *)
Definition fits_low (n c num : nat) : bool :=
  (n <=? num)%nat && (u64 (u64 (Z.of_nat c * PAGE_SIZE) + u64 (Z.of_nat n * PAGE_SIZE)) <=? 2 ^ 32).

Definition bfc_alloc_page_low (n : nat) (st : bfc) : option (bfc * ptr) :=
  if (n =? 0)%nat then Some (st, None)
  else match bfc_free_list st with
       | None => Some (st, None)
       | Some c => alloc_loop (loop_fuel st) (fits_low n) (Some c) None n st
       end.

(** [while (cur != NULL && cur < page) { prev = cur; cur = cur->bfc.next; }] *)
Fixpoint free_loop (fuel : nat) (cur pr : ptr) (pg : nat) (st : bfc) : option (ptr * ptr) :=
  match cur with
  | None => Some (None, pr)
  | Some c =>
      if (c <? pg)%nat then
        match fuel with
        | O => None
        | S fuel' => p ← frames st !! c; free_loop fuel' (next p) (Some c) pg st
        end
      else Some (cur, pr)
  end.

(** [prev != NULL && prev + prev->bfc.cont_page_num == page] and the merge. *)
Definition merge_prev (pr cur : ptr) (pg : nat) (st : bfc) : option (bfc * nat) :=
  match pr with
  | None => Some (st, pg)
  | Some q =>
      qp ← frames st !! q;
      if (q + cont_page_num qp =? pg)%nat then
        pp ← frames st !! pg;
        st1 ← upd q (fun p => set_next cur (set_cont (cont_page_num qp + cont_page_num pp) p)) st;
        st2 ← set_back cur (Some q) st1;
        Some (st2, q)
      else Some (st, pg)
  end.

(** [cur != NULL && page + page->bfc.cont_page_num == cur] and the merge. *)
Definition merge_next (cur : ptr) (pg : nat) (st : bfc) : option bfc :=
  match cur with
  | None => Some st
  | Some c =>
      pp ← frames st !! pg;
      if (pg + cont_page_num pp =? c)%nat then
        cp ← frames st !! c;
        st1 ← upd pg (fun p => set_next (next cp) (set_cont (cont_page_num pp + cont_page_num cp) p)) st;
        set_back (next cp) (Some pg) st1
      else Some st
  end.

(** Insert the block whose head is [pg] in address order, then coalesce it
    with its neighbours; the new head of the block is returned. *)
Definition link_free (pg : nat) (st : bfc) : option (bfc * ptr) :=
  match bfc_free_list st with
  | None =>
      st1 ← upd pg (fun p => set_next None (set_prev None p)) st;
      Some (set_head (Some pg) st1, Some pg)
  | Some c =>
      '(cur, pr) ← free_loop (loop_fuel st) (Some c) None pg st;
      st1 ← upd pg (fun p => set_next cur (set_prev pr p)) st;
      st2 ← set_link pr (Some pg) st1;
      st3 ← set_back cur (Some pg) st2;
      '(st4, pg') ← merge_prev pr cur pg st3;
      st5 ← merge_next cur pg' st4;
      Some (st5, Some pg')
  end.

(** [ASSERT(page->status != PAGE_SLAB)] panics (a fault here). *)
Definition bfc_free_page (pg : ptr) (n : nat) (st : bfc) : option (bfc * ptr) :=
  match pg with
  | None => Some (st, None)
  | Some pg =>
      if (n =? 0)%nat then Some (st, None)
      else
        p0 ← frames st !! pg;
        if bool_decide (status p0 = PAGE_SLAB) then None
        else
          let st0 := Bfc (frames st) (bfc_free_list st)
                         (s32 (used_pages st - s32 (Z.of_nat n))) in
          st1 ← upd pg (fun p => set_cont n (set_status PAGE_FREE p)) st0;
          link_free pg st1
  end.

Fixpoint count_loop (fuel : nat) (cur : ptr) (total : nat) (st : bfc) : option nat :=
  match cur with
  | None => Some total
  | Some c =>
      match fuel with
      | O => None
      | S fuel' => p ← frames st !! c; count_loop fuel' (next p) (total + cont_page_num p) st
      end
  end.

Definition bfc_free_page_nums (st : bfc) : option nat :=
  count_loop (loop_fuel st) (bfc_free_list st) 0 st.

(** ** The abstract allocator: a list of free intervals *)
Module Blocks.

Definition block : Type := nat * nat.   (* first page, number of pages *)

(** Sorted, non-empty, and separated by at least one page that is not free:
    adjacent free blocks have been coalesced. *)
Fixpoint wf (lo : nat) (bl : list block) : Prop :=
  match bl with
  | [] => True
  | (s, l) :: r => (lo <= s)%nat /\ (0 < l)%nat /\ wf (S (s + l)) r
  end.

Definition inside (N : nat) (bl : list block) : Prop :=
  Forall (fun b => (b.1 + b.2 <= N)%nat) bl.

Definition covers (b : block) (i : nat) : Prop := (b.1 <= i < b.1 + b.2)%nat.
Definition cover (bl : list block) (i : nat) : Prop := Exists (fun b => covers b i) bl.

Definition disjoint_from (s n : nat) (bl : list block) : Prop :=
  forall i, (s <= i < s + n)%nat -> ~ cover bl i.

Fixpoint total (bl : list block) : nat :=
  match bl with [] => 0 | (_, l) :: r => l + total r end.

(** First fit: the first block that satisfies [fits] gives its first [n] pages. *)
Fixpoint take_first (fits : nat -> nat -> bool) (n : nat) (bl : list block)
  : option (nat * list block) :=
  match bl with
  | [] => None
  | (s, l) :: r =>
      if fits s l then
        Some (s, if (l =? n)%nat then r else (s + n, l - n)%nat :: r)
      else match take_first fits n r with
           | Some (s', r') => Some (s', (s, l) :: r')
           | None => None
           end
  end.

Definition join_next (s l : nat) (r : list block) : list block :=
  match r with
  | (s', l') :: r' => if (s + l =? s')%nat then (s, l + l')%nat :: r' else (s, l) :: r
  | [] => [(s, l)]
  end.

(** Insert in address order and coalesce with both neighbours. *)
Fixpoint give (s n : nat) (bl : list block) : list block :=
  match bl with
  | [] => [(s, n)]
  | (s', l') :: r =>
      if (s' <? s)%nat then
        if (s' + l' =? s)%nat then join_next s' (l' + n) r else (s', l') :: give s n r
      else join_next s n bl
  end.

Lemma wf_weaken lo lo' bl : (lo' <= lo)%nat -> wf lo bl -> wf lo' bl.
Proof. destruct bl as [| [s l] r]; cbn; [done | intros; naive_solver lia]. Qed.

Lemma cover_nil i : ~ cover [] i.
Proof. intros H. inversion H. Qed.

Lemma cover_cons s l r i : cover ((s, l) :: r) i <-> (s <= i < s + l)%nat \/ cover r i.
Proof. unfold cover. by rewrite Exists_cons. Qed.

Lemma cover_app b1 b2 i : cover (b1 ++ b2) i <-> cover b1 i \/ cover b2 i.
Proof. apply Exists_app. Qed.

Lemma wf_cover_ge lo bl i : wf lo bl -> cover bl i -> (lo <= i)%nat.
Proof.
  revert lo. induction bl as [| [s l] r IH]; intros lo Hwf.
  - by intros ?%cover_nil.
  - intros [? | Hc]%cover_cons; destruct Hwf as (? & ? & Hr); [lia |].
    specialize (IH _ Hr Hc). lia.
Qed.

Lemma inside_cover N bl i : inside N bl -> cover bl i -> (i < N)%nat.
Proof.
  intros Hin Hc. apply Exists_exists in Hc as ([s l] & Hel & Hi).
  unfold inside in Hin. rewrite Forall_forall in Hin. specialize (Hin _ Hel). unfold covers in Hi.
  cbn in *. lia.
Qed.

(** A well-formed list is determined by the set of pages it covers. *)
Lemma wf_cover_ext bl : forall lo bl', wf lo bl -> wf lo bl' ->
  (forall i, cover bl i <-> cover bl' i) -> bl = bl'.
Proof.
  induction bl as [| [s l] r IH]; intros lo bl' Hwf Hwf' Heq.
  - destruct bl' as [| [s' l'] r']; [done |].
    destruct Hwf' as (? & ? & _). exfalso.
    apply (cover_nil s'), Heq, cover_cons. left. lia.
  - destruct bl' as [| [s' l'] r'].
    { destruct Hwf as (? & ? & _). exfalso.
      apply (cover_nil s), Heq, cover_cons. left. lia. }
    destruct Hwf as (Hlo & Hl & Hr), Hwf' as (Hlo' & Hl' & Hr').
    assert (Hge : forall i, cover r i -> (S (s + l) <= i)%nat) by (intros i; by apply wf_cover_ge).
    assert (Hge' : forall i, cover r' i -> (S (s' + l') <= i)%nat) by (intros i; by apply wf_cover_ge).
    assert (Hs : s = s').
    { destruct (Heq s) as [H1 _], (Heq s') as [_ H2]. rewrite !cover_cons in H1, H2.
      destruct H1 as [H1 | H1%Hge']; [lia | |]; (destruct H2 as [H2 | H2%Hge]; [lia | |]); lia. }
    subst s'.
    assert (Hll : l = l').
    { destruct (Nat.lt_trichotomy l l') as [Hlt | [-> | Hlt]]; [| done |].
      - destruct (Heq (s + l)%nat) as [_ H]. rewrite !cover_cons in H.
        destruct H as [H | H%Hge]; lia.
      - destruct (Heq (s + l')%nat) as [H _]. rewrite !cover_cons in H.
        destruct H as [H | H%Hge']; lia. }
    subst l'. f_equal. apply (IH (S (s + l))); [done | done |]. intros i.
    specialize (Heq i). rewrite !cover_cons in Heq. split; intros Hc.
    + specialize (Hge _ Hc). destruct Heq as [[?|?] _]; [by right | lia | done].
    + specialize (Hge' _ Hc). destruct Heq as [_ [?|?]]; [by right | lia | done].
Qed.

Lemma take_first_spec fits n bl s bl' :
  (0 < n)%nat -> (forall s l, fits s l = true -> (n <= l)%nat) ->
  take_first fits n bl = Some (s, bl') -> forall lo, wf lo bl ->
  wf lo bl' /\ (lo <= s)%nat /\
  (forall i, cover bl i <-> (s <= i < s + n)%nat \/ cover bl' i) /\
  disjoint_from s n bl'.
Proof.
  intros Hn Hfits. revert bl'. induction bl as [| [a l] r IH]; intros bl' Ht lo Hwf; [done |].
  cbn in Ht. destruct Hwf as (Hlo & Hl & Hr).
  destruct (fits a l) eqn:Hf.
  - injection Ht as <- <-. specialize (Hfits _ _ Hf).
    assert (Hge : forall i, cover r i -> (S (a + l) <= i)%nat) by (intros i; by apply wf_cover_ge).
    destruct (Nat.eqb_spec l n) as [-> | Hne].
    + repeat split_and; [by eapply wf_weaken; [| exact Hr]; lia | lia | |].
      * intros i. by rewrite cover_cons.
      * intros i Hi Hc%Hge. lia.
    + repeat split_and; [| lia | |].
      * cbn. replace (a + n + (l - n))%nat with (a + l)%nat by lia. repeat split_and; [lia | lia | done].
      * intros i. rewrite !cover_cons. naive_solver lia.
      * intros i Hi. rewrite cover_cons. intros [? | Hc%Hge]; lia.
  - destruct (take_first fits n r) as [[s' r'] |] eqn:Htr; [| done].
    injection Ht as <- <-. destruct (IH _ eq_refl _ Hr) as (Hwf' & Hs & Hcov & Hdis).
    repeat split_and; [cbn; done | lia | |].
    + intros i. rewrite !cover_cons, Hcov. naive_solver.
    + intros i Hi. rewrite cover_cons. intros [? | Hc]; [lia | by eapply Hdis].
Qed.

Lemma take_first_inside fits n bl s bl' N :
  (forall s l, fits s l = true -> (n <= l)%nat) ->
  take_first fits n bl = Some (s, bl') -> inside N bl -> inside N bl' /\ (s + n <= N)%nat.
Proof.
  intros Hfits. revert bl'. induction bl as [| [a l] r IH]; intros bl' Ht; [done |]. cbn in Ht.
  intros [Ha Hr]%Forall_cons. cbn in Ha. destruct (fits a l) eqn:Hf.
  - injection Ht as <- <-. specialize (Hfits _ _ Hf).
    case_match; split; try lia; [done | apply Forall_cons; cbn; split; [lia | done]].
  - destruct (take_first fits n r) as [[s' r'] |]; [| done]. injection Ht as <- <-.
    destruct (IH _ eq_refl Hr). split; [by apply Forall_cons | done].
Qed.

Lemma take_first_total fits n bl s bl' :
  (forall s l, fits s l = true -> (n <= l)%nat) ->
  take_first fits n bl = Some (s, bl') -> total bl = (n + total bl')%nat.
Proof.
  intros Hfits. revert bl'. induction bl as [| [a l] r IH]; intros bl' Ht; [done |]. cbn in Ht.
  destruct (fits a l) eqn:Hf.
  - injection Ht as <- <-. specialize (Hfits _ _ Hf).
    destruct (Nat.eqb_spec l n); cbn; lia.
  - destruct (take_first fits n r) as [[s' r'] |]; [| done]. injection Ht as <- <-.
    cbn. rewrite (IH _ eq_refl). lia.
Qed.

Lemma take_first_fits fits n bl s bl' : take_first fits n bl = Some (s, bl') ->
  exists l, (s, l) ∈ bl /\ fits s l = true.
Proof.
  revert bl'. induction bl as [| [a l] r IH]; intros bl' Ht; [done |]. cbn in Ht.
  destruct (fits a l) eqn:Hf.
  - injection Ht as <- _. exists l. split; [by constructor | done].
  - destruct (take_first fits n r) as [[s' r'] |]; [| done]. injection Ht as <- _.
    destruct (IH _ eq_refl) as (l' & ? & ?). exists l'. split; [by constructor | done].
Qed.

(** First fit fails exactly when no block fits. *)
Lemma take_first_none fits n bl :
  take_first fits n bl = None <-> Forall (fun b => fits b.1 b.2 = false) bl.
Proof.
  induction bl as [| [a l] r IH]; [done |]. rewrite Forall_cons. cbn.
  destruct (fits a l); [naive_solver |].
  destruct (take_first fits n r) as [[??] |]; naive_solver.
Qed.

Lemma join_next_spec lo s l r : (lo <= s)%nat -> (0 < l)%nat -> wf (s + l) r ->
  wf lo (join_next s l r) /\
  (forall i, cover (join_next s l r) i <-> (s <= i < s + l)%nat \/ cover r i).
Proof.
  intros Hlo Hl Hr. destruct r as [| [s' l'] r']; cbn.
  - split; [lia |]. intros i. by rewrite cover_cons.
  - destruct Hr as (Hs' & Hl' & Hr'). destruct (Nat.eqb_spec (s + l) s') as [<- | Hne].
    + split.
      * cbn. rewrite Nat.add_assoc. repeat split_and; [lia | lia | done].
      * intros i. rewrite !cover_cons. naive_solver lia.
    + split; [cbn; repeat split_and; try lia; done |].
      intros i. by rewrite !cover_cons.
Qed.

Lemma join_next_total s l r : total (join_next s l r) = (l + total r)%nat.
Proof. destruct r as [| [s' l'] r']; cbn; [done |]. case_match; cbn; lia. Qed.

Lemma give_spec s n bl : (0 < n)%nat -> forall lo, (lo <= s)%nat -> wf lo bl -> disjoint_from s n bl ->
  wf lo (give s n bl) /\
  (forall i, cover (give s n bl) i <-> (s <= i < s + n)%nat \/ cover bl i).
Proof.
  intros Hn. induction bl as [| [a l] r IH]; intros lo Hlo Hwf Hdis.
  - cbn. split; [lia |]. intros i. by rewrite cover_cons.
  - destruct Hwf as (Ha & Hl & Hr). cbn [give].
    assert (Hsep : (a + l <= s \/ s + n <= a)%nat).
    { destruct (decide (s <= a)%nat).
      - right. destruct (decide (s + n <= a)%nat); [done |].
        destruct (Hdis a); [lia |]. apply cover_cons. lia.
      - left. destruct (decide (a + l <= s)%nat); [done |].
        destruct (Hdis s); [lia |]. apply cover_cons. lia. }
    assert (Hdr : disjoint_from s n r) by (intros i Hi Hc; apply (Hdis i Hi), cover_cons; by right).
    destruct (Nat.ltb_spec a s).
    + destruct (Nat.eqb_spec (a + l) s) as [<- | Hne].
      * assert (Hr' : wf (a + (l + n)) r).
        { destruct r as [| [s' l'] r']; [done |]. destruct Hr as (? & ? & ?).
          split; [| by split].
          destruct (decide (a + (l + n) <= s')%nat); [done |].
          destruct (Hdr s'); [lia |]. apply cover_cons. lia. }
        destruct (join_next_spec lo a (l + n) r ltac:(lia) ltac:(lia) Hr') as [? Hc].
        split; [done |]. intros i. rewrite Hc, cover_cons. naive_solver lia.
      * destruct (IH (S (a + l))) as [? Hc]; [lia | done | done |].
        split; [cbn; repeat split_and; done |].
        intros i. rewrite !cover_cons, Hc. naive_solver.
    + apply join_next_spec; [done | done |]. cbn. repeat split_and; [lia | done | done].
Qed.

Lemma give_total s n bl : total (give s n bl) = (n + total bl)%nat.
Proof.
  induction bl as [| [a l] r IH]; [done |]. cbn [give].
  repeat case_match; cbn [total]; rewrite ?join_next_total, ?IH; cbn; lia.
Qed.

Lemma give_inside N s n bl : (s + n <= N)%nat -> inside N bl -> inside N (give s n bl).
Proof.
  assert (Hj : forall s l r, (s + l <= N)%nat -> inside N r -> inside N (join_next s l r)).
  { clear. intros s l [| [s' l'] r] Hs Hr; cbn; [by repeat constructor |].
    destruct (Nat.eqb_spec (s + l) s') as [<- | _]; [| by apply Forall_cons].
    apply Forall_cons in Hr as [? Hr]. cbn in *. apply Forall_cons. cbn. split; [lia | done]. }
  intros Hs. induction bl as [| [a l] r IH]; intros Hin; [by repeat constructor |].
  assert (Hin' := Hin). apply Forall_cons in Hin as [Ha Hr]. cbn in Ha. cbn [give].
  destruct (a <? s)%nat; [| by apply Hj].
  destruct (Nat.eqb_spec (a + l) s) as [<- | ?]; [apply Hj; [lia | done] |].
  apply Forall_cons. split; [done | by apply IH].
Qed.

(** [give] undoes [take_first]. *)
Lemma give_take fits n bl s bl' :
  (0 < n)%nat -> (forall s l, fits s l = true -> (n <= l)%nat) ->
  take_first fits n bl = Some (s, bl') -> wf 0 bl -> give s n bl' = bl.
Proof.
  intros Hn Hfits Ht Hwf.
  destruct (take_first_spec _ _ _ _ _ Hn Hfits Ht _ Hwf) as (Hwf' & ? & Hcov & Hdis).
  destruct (give_spec s n bl' Hn 0%nat ltac:(lia) Hwf' Hdis) as [Hg Hc].
  apply (wf_cover_ext _ 0%nat); [done | done |]. intros i. by rewrite Hc, Hcov.
Qed.

(** At most one block per page. *)
Lemma wf_length N bl lo : wf lo bl -> inside N bl -> (length bl <= N)%nat.
Proof.
  intros Hwf Hin. enough (bl = [] \/ length bl + lo <= N)%nat as [-> | ?] by (cbn; lia).
  revert lo Hwf. induction Hin as [| [s l] r Hs Hin IH]; intros lo Hwf; [by left |].
  right. destruct Hwf as (? & ? & Hr). cbn in *.
  destruct (IH _ Hr) as [-> | ?]; cbn; lia.
Qed.

Lemma wf_elem lo bl s l : wf lo bl -> (s, l) ∈ bl -> (lo <= s)%nat /\ (0 < l)%nat.
Proof.
  revert lo. induction bl as [| [a k] r IH]; intros lo Hwf Hel; [by apply not_elem_of_nil in Hel |].
  destruct Hwf as (? & ? & Hr). apply elem_of_cons in Hel as [[= -> ->] | Hel]; [done |].
  destruct (IH _ Hr Hel). lia.
Qed.

Lemma wf_app lo b1 b2 : wf lo (b1 ++ b2) ->
  wf lo b1 /\ wf lo b2 /\ (forall b b', b ∈ b1 -> b' ∈ b2 -> (b.1 + b.2 < b'.1)%nat).
Proof.
  revert lo. induction b1 as [| [s l] r IH]; intros lo Hwf; cbn in *.
  - repeat split_and; [done | done |]. intros b b' Hb. by apply not_elem_of_nil in Hb.
  - destruct Hwf as (? & ? & Hr). destruct (IH _ Hr) as (H1 & H2 & H3).
    repeat split_and; [done | done | done | by eapply wf_weaken; [| exact H2]; lia |].
    intros b b' [-> | Hb]%elem_of_cons Hb'; [| by apply H3].
    destruct b' as [s' l']. destruct (wf_elem _ _ _ _ H2 Hb'). cbn. lia.
Qed.

Lemma elem_cover lo bl s l : wf lo bl -> (s, l) ∈ bl -> cover bl s.
Proof.
  intros Hwf Hel. destruct (wf_elem _ _ _ _ Hwf Hel). apply Exists_exists.
  exists (s, l). split; [done |]. unfold covers. cbn. lia.
Qed.

Lemma wf_NoDup lo bl : wf lo bl -> NoDup bl.*1.
Proof.
  revert lo. induction bl as [| [s l] r IH]; intros lo Hwf; cbn; [constructor |].
  destruct Hwf as (? & ? & Hr). constructor; [| by eapply IH].
  intros ([s' l'] & -> & Hel)%list_elem_of_fmap. destruct (wf_elem _ _ _ _ Hr Hel). cbn in *. lia.
Qed.

End Blocks.

(** ** The representation predicate *)
Module Rep.
Import Blocks.

(** The list segment from [cur] (reached from [pr]) to [cur'] (reached from
    [pr']) visits the heads of the blocks [bl] in order. *)
Fixpoint seg (fr : list page) (pr cur : ptr) (bl : list block) (pr' cur' : ptr) : Prop :=
  match bl with
  | [] => pr = pr' /\ cur = cur'
  | (s, l) :: r =>
      cur = Some s /\
      exists p, fr !! s = Some p /\ status p = PAGE_FREE /\ cont_page_num p = l /\
                prev p = pr /\ seg fr (Some s) (next p) r pr' cur'
  end.

Definition tail (fr : list page) (pr cur : ptr) (bl : list block) : Prop :=
  exists last, seg fr pr cur bl last None.

Definition dll (st : bfc) (bl : list block) : Prop :=
  tail (frames st) None (bfc_free_list st) bl.

Record rep (st : bfc) (bl : list block) : Prop := {
  rep_wf : wf 0 bl;
  rep_inside : inside (length (frames st)) bl;
  rep_dll : dll st bl;
}.

(** [st'] differs from [st] at most in the descriptors of pages in [X] (and in
    the list head). *)
Definition touched (X : nat -> Prop) (st st' : bfc) : Prop :=
  length (frames st') = length (frames st) /\ used_pages st' = used_pages st /\
  forall i, ~ X i -> frames st' !! i = frames st !! i.

Lemma touched_refl X st : touched X st st.
Proof. done. Qed.

Lemma touched_trans X Y st1 st2 st3 :
  touched X st1 st2 -> touched Y st2 st3 -> touched (fun i => X i \/ Y i) st1 st3.
Proof.
  intros (? & ? & H1) (? & ? & H2). split_and!; [congruence | congruence |].
  intros i Hi. rewrite H2, H1; naive_solver.
Qed.

Lemma touched_weaken (X Y : nat -> Prop) st st' :
  (forall i, X i -> Y i) -> touched X st st' -> touched Y st st'.
Proof. intros HXY (? & ? & H). split_and!; [done | done |]. intros i Hi. apply H. naive_solver. Qed.

Lemma upd_ok i f st p : frames st !! i = Some p ->
  exists st', upd i f st = Some st' /\ touched (eq i) st st' /\
    frames st' !! i = Some (f p) /\ bfc_free_list st' = bfc_free_list st.
Proof.
  intros Hp. unfold upd. rewrite Hp. eexists. split; [done |]. split.
  - split_and!; cbn; [by rewrite length_insert | done |].
    intros j Hj. by apply list_lookup_insert_ne.
  - cbn. split; [| done]. apply list_lookup_insert_eq. by eapply lookup_lt_Some.
Qed.

Lemma seg_app fr pr cur b1 b2 pr' cur' :
  seg fr pr cur (b1 ++ b2) pr' cur' <->
  exists pm cm, seg fr pr cur b1 pm cm /\ seg fr pm cm b2 pr' cur'.
Proof.
  revert pr cur. induction b1 as [| [s l] r IH]; intros pr cur; cbn.
  - naive_solver.
  - split.
    + intros (? & p & ? & ? & ? & ? & (pm & cm & ? & ?)%IH). naive_solver.
    + intros (pm & cm & (? & p & ? & ? & ? & ? & ?) & ?).
      split; [done |]. exists p. split_and!; try done. apply IH. eauto.
Qed.

Lemma tail_app fr pr cur b1 b2 :
  tail fr pr cur (b1 ++ b2) <-> exists pm cm, seg fr pr cur b1 pm cm /\ tail fr pm cm b2.
Proof.
  unfold tail. split.
  - intros (last & (pm & cm & ? & ?)%seg_app). eauto 6.
  - intros (pm & cm & ? & last & ?). exists last. apply seg_app. eauto.
Qed.

Lemma tail_cons fr pr cur s l r :
  tail fr pr cur ((s, l) :: r) <->
  cur = Some s /\ exists p, fr !! s = Some p /\ status p = PAGE_FREE /\ cont_page_num p = l /\
    prev p = pr /\ tail fr (Some s) (next p) r.
Proof. unfold tail. cbn. naive_solver. Qed.

Lemma seg_frame fr fr' pr cur bl pr' cur' :
  (forall s, s ∈ bl.*1 -> fr' !! s = fr !! s) -> seg fr pr cur bl pr' cur' -> seg fr' pr cur bl pr' cur'.
Proof.
  revert pr cur. induction bl as [| [s l] r IH]; intros pr cur Hfr; cbn; [done |].
  intros (? & p & Hp & ? & ? & ? & ?). split; [done |]. exists p.
  rewrite Hfr by (cbn; constructor). split_and!; try done.
  apply IH; [| done]. intros s' Hs'. apply Hfr. cbn. by constructor.
Qed.

Lemma seg_last fr pr cur b s l pm cm : seg fr pr cur (b ++ [(s, l)]) pm cm -> pm = Some s.
Proof. intros (? & ? & _ & Hs)%seg_app. cbn in Hs. naive_solver. Qed.

(** Frame rules at the level of states. *)
Lemma seg_touched X st st' pr cur bl pr' cur' :
  touched X st st' -> (forall s, s ∈ bl.*1 -> ~ X s) ->
  seg (frames st) pr cur bl pr' cur' -> seg (frames st') pr cur bl pr' cur'.
Proof. intros (_ & _ & H) HX. apply seg_frame. intros s Hs. by apply H, HX. Qed.

Lemma tail_touched X st st' pr cur bl :
  touched X st st' -> (forall s, s ∈ bl.*1 -> ~ X s) ->
  tail (frames st) pr cur bl -> tail (frames st') pr cur bl.
Proof. intros Ht HX (last & Hs). exists last. by eapply seg_touched. Qed.

Definition at_ptr (q : ptr) (i : nat) : Prop := q = Some i.

(** Redirecting the link that leaves a prefix of the list. *)
Lemma set_link_ok st b pm cm v :
  seg (frames st) None (bfc_free_list st) b pm cm -> NoDup b.*1 ->
  exists st', set_link pm v st = Some st' /\ touched (at_ptr pm) st st' /\
    seg (frames st') None (bfc_free_list st') b pm v.
Proof.
  intros Hseg Hnd. destruct b as [| [s l] b _] using rev_ind.
  - destruct Hseg as [<- _]. cbn. eexists. split_and!; done.
  - pose proof (seg_last _ _ _ _ _ _ _ _ Hseg) as ->.
    apply seg_app in Hseg as (pm & cm' & Hb & Hs). destruct Hs as (-> & p & Hp & ? & ? & ? & _ & _).
    cbn [set_link]. destruct (upd_ok s (set_next v) st p Hp) as (st' & Hst' & Ht & Hp' & Hhd).
    exists st'. split; [done |]. split; [by eapply touched_weaken; [| exact Ht]; intros i ->|].
    apply seg_app. exists pm, (Some s). split.
    + rewrite Hhd. eapply seg_touched; [exact Ht | | exact Hb].
      intros s' Hs' <-. rewrite fmap_app, NoDup_app in Hnd. destruct Hnd as (_ & Hnd & _).
      apply (Hnd _ Hs'). by constructor.
    + cbn. split; [done |]. exists (set_next v p). split_and!; done.
Qed.

(** Redirecting the back link of a suffix. *)
Lemma set_back_ok st pr cur b v :
  tail (frames st) pr cur b -> NoDup b.*1 ->
  exists st', set_back cur v st = Some st' /\ touched (at_ptr cur) st st' /\
    bfc_free_list st' = bfc_free_list st /\ tail (frames st') v cur b.
Proof.
  intros Ht Hnd. destruct b as [| [s l] b].
  - destruct Ht as (last & _ & ->). exists st. split_and!; try done. by exists v.
  - apply tail_cons in Ht as (-> & p & Hp & ? & ? & ? & Ht). cbn [set_back].
    destruct (upd_ok s (set_prev v) st p Hp) as (st' & -> & Htc & Hp' & Hhd).
    exists st'. split; [done |]. split; [by eapply touched_weaken; [| exact Htc]; intros i ->|].
    split; [done |]. apply tail_cons. split; [done |]. exists (set_prev v p).
    split_and!; try done. eapply tail_touched; [exact Htc | | exact Ht].
    intros s' Hs' <-. cbn in Hnd. apply NoDup_cons in Hnd. naive_solver.
Qed.

Lemma mark_used_ok n c st : (c + n <= length (frames st))%nat ->
  exists st', mark_used n c st = Some st' /\ bfc_free_list st' = bfc_free_list st /\
    touched (fun i => c <= i < c + n)%nat st st' /\
    (forall i p, (c <= i < c + n)%nat -> frames st !! i = Some p ->
       frames st' !! i = Some (set_refcount 1 (set_status PAGE_USED p))).
Proof.
  revert c st. induction n as [| n IH]; intros c st Hlen; cbn [mark_used].
  - exists st. split_and!; try done. intros. lia.
  - destruct (lookup_lt_is_Some_2 (frames st) c) as [p Hp]; [lia |].
    destruct (upd_ok c (fun p => set_refcount 1 (set_status PAGE_USED p)) st p Hp)
      as (st1 & -> & (Hl & Hu & Hf) & Hp1 & Hhd). cbn [mbind option_bind].
    destruct (IH (S c) st1) as (st' & -> & Hhd' & (Hl' & Hu' & Hf') & Hm); [rewrite Hl; lia |].
    exists st'. split; [done |]. split; [congruence |]. split.
    + split_and!; [congruence | congruence |]. intros i Hi. rewrite Hf', Hf; [done | lia | lia].
    + intros i q Hi Hq. destruct (decide (i = c)) as [-> | Hne].
      * rewrite Hf' by lia. rewrite Hp1. congruence.
      * apply Hm; [lia |]. rewrite Hf; [done | lia].
Qed.

End Rep.

(** ** The operations refine the abstract allocator *)
Module Refine.
Import Blocks Rep.

(** The pages handed out are marked used and exclusively referenced. *)
Definition granted (st : bfc) (s n : nat) : Prop :=
  forall i, (s <= i < s + n)%nat ->
    exists p, frames st !! i = Some p /\ status p = PAGE_USED /\ p_refcount p = 1.

Lemma granted_touched X st st' s n : touched X st st' ->
  (forall i, (s <= i < s + n)%nat -> ~ X i) -> granted st s n -> granted st' s n.
Proof. intros (_ & _ & Hf) HX Hg i Hi. rewrite Hf by auto. by apply Hg. Qed.

Lemma mark_used_granted st st' n c : (c + n <= length (frames st))%nat ->
  (forall i p, (c <= i < c + n)%nat -> frames st !! i = Some p ->
     frames st' !! i = Some (set_refcount 1 (set_status PAGE_USED p))) -> granted st' c n.
Proof.
  intros Hlen Hm i Hi. destruct (lookup_lt_is_Some_2 (frames st) i) as [p Hp]; [lia |].
  rewrite (Hm i p Hi Hp). eexists. done.
Qed.

Lemma seg_ptr_in fr cur b pm cm i : seg fr None cur b pm cm -> at_ptr pm i -> i ∈ b.*1.
Proof.
  destruct b as [| [s l] b _] using rev_ind; [by intros [<- _] | intros Hs Hi].
  pose proof (seg_last _ _ _ _ _ _ _ _ Hs) as ->. injection Hi as ->.
  rewrite fmap_app. apply elem_of_app. right. by constructor.
Qed.

Lemma tail_ptr_in fr pr cur b i : tail fr pr cur b -> at_ptr cur i -> i ∈ b.*1.
Proof.
  destruct b as [| [s l] b]; [by intros (? & _ & ->) |].
  intros (-> & _)%tail_cons [= ->]. by constructor.
Qed.

(** The blocks around the block [(s, l)]. *)
Record around (st : bfc) (b1 : list block) (s l : nat) (b2 : list block) : Prop := {
  ar_before : forall x, x ∈ b1.*1 -> (x < s)%nat;
  ar_after : forall x, x ∈ b2.*1 -> (s + l <= x)%nat;
  ar_nd1 : NoDup b1.*1;
  ar_nd2 : NoDup b2.*1;
  ar_len : (s + l <= length (frames st))%nat;
}.

Definition result_of_take (st st' : bfc) (n s : nat) (X : nat -> Prop) : Prop :=
  length (frames st') = length (frames st) /\
  used_pages st' = s32 (used_pages st + s32 (Z.of_nat n)) /\
  granted st' s n /\ forall i, ~ X i -> frames st' !! i = frames st !! i.

Lemma memstat_result st0 st n s X : touched X st0 st -> granted st s n ->
  result_of_take st0 (memstat_add st (Z.of_nat n)) n s X.
Proof. intros (? & Hu & ?) ?. split_and!; cbn; [done | by rewrite Hu | done | done]. Qed.

Section TakeBlock.
Context (st : bfc) (b1 b2 : list block) (pr : ptr) (s l n : nat).
Hypothesis Har : around st b1 s l b2.
Hypothesis Hb1 : seg (frames st) None (bfc_free_list st) b1 pr (Some s).
Hypothesis Hb2 : tail (frames st) pr (Some s) ((s, l) :: b2).
Hypothesis Hn : (0 < n <= l)%nat.

Lemma take_block_exact : l = n ->
  exists st', take_block s pr n st = Some (st', Some s) /\ dll st' (b1 ++ b2) /\
    result_of_take st st' n s (fun i => i ∈ b1.*1 \/ i ∈ b2.*1 \/ (s <= i < s + l)%nat).
Proof.
  intros ->. destruct Har as [Hbe Haf Hnd1 Hnd2 Hlen].
  apply tail_cons in Hb2 as (_ & p & Hp & Hst & Hc & Hpr & Ht).
  assert (Hpr_in : forall i, at_ptr pr i -> i ∈ b1.*1) by (intros i; by apply (seg_ptr_in _ _ _ _ _ i Hb1)).
  assert (Hnx_in : forall i, at_ptr (next p) i -> i ∈ b2.*1) by (intros i; by apply (tail_ptr_in _ _ _ _ i Ht)).
  unfold take_block. rewrite Hp. cbn [mbind option_bind]. rewrite Hc, Nat.eqb_refl.
  destruct (set_link_ok st b1 pr (Some s) (next p) Hb1 Hnd1) as (st1 & -> & T1 & S1).
  cbn [mbind option_bind].
  apply (tail_touched _ _ _ _ _ _ T1) in Ht;
    [| intros x Hx%Haf Hx'%Hpr_in%Hbe; lia].
  destruct (set_back_ok st1 _ _ b2 pr Ht Hnd2) as (st2 & -> & T2 & Hh2 & Ht2). cbn [mbind option_bind].
  apply (seg_touched _ _ _ _ _ _ _ _ T2) in S1; [| intros x Hx%Hbe Hx'%Hnx_in%Haf; lia].
  pose proof (touched_trans _ _ _ _ _ T1 T2) as T12.
  destruct (mark_used_ok n s st2) as (st3 & -> & Hh3 & T3 & Hm);
    [destruct T12 as [-> _]; lia |]. cbn [mbind option_bind].
  eexists. split; [done |]. split.
  - unfold dll. cbn. apply tail_app. exists pr, (next p). rewrite Hh3, Hh2. split.
    + apply (seg_touched _ _ _ _ _ _ _ _ T3); [intros x Hx%Hbe; lia | done].
    + apply (tail_touched _ _ _ _ _ _ T3); [intros x Hx%Haf; lia | done].
  - apply memstat_result.
    + eapply touched_weaken; [| exact (touched_trans _ _ _ _ _ T12 T3)]. naive_solver.
    + apply (mark_used_granted st2); [destruct T12 as [-> _]; lia | done].
Qed.

Lemma take_block_split : (n < l)%nat ->
  exists st', take_block s pr n st = Some (st', Some s) /\
    dll st' (b1 ++ (s + n, l - n)%nat :: b2) /\
    result_of_take st st' n s (fun i => i ∈ b1.*1 \/ i ∈ b2.*1 \/ (s <= i < s + l)%nat).
Proof.
  intros Hlt. destruct Har as [Hbe Haf Hnd1 Hnd2 Hlen].
  apply tail_cons in Hb2 as (_ & p & Hp & Hst & Hc & Hpr & Ht).
  assert (Hpr_in : forall i, at_ptr pr i -> i ∈ b1.*1) by (intros i; by apply (seg_ptr_in _ _ _ _ _ i Hb1)).
  assert (Hnx_in : forall i, at_ptr (next p) i -> i ∈ b2.*1) by (intros i; by apply (tail_ptr_in _ _ _ _ i Ht)).
  unfold take_block. rewrite Hp. cbn [mbind option_bind]. rewrite Hc.
  destruct (Nat.eqb_spec l n) as [-> | _]; [lia |].
  destruct (upd_ok s (set_cont n) st p Hp) as (st1 & -> & T1 & Hs1 & Hh1). cbn [mbind option_bind].
  destruct (mark_used_ok n s st1) as (st2 & -> & Hh2 & T2 & Hm);
    [destruct T1 as [-> _]; lia |]. cbn [mbind option_bind].
  pose proof (mark_used_granted st1 st2 n s ltac:(destruct T1 as [-> _]; lia) Hm) as G2.
  pose proof (touched_trans _ _ _ _ _ T1 T2) as T12.
  destruct (lookup_lt_is_Some_2 (frames st2) (s + n)) as [q Hq]; [destruct T12 as [-> _]; lia |].
  destruct (upd_ok (s + n) (fun p' => Page PAGE_FREE (p_refcount p') (l - n) pr (next p)) st2 q Hq)
    as (st3 & -> & T3 & Hs3 & Hh3). cbn [mbind option_bind].
  pose proof (touched_trans _ _ _ _ _ T12 T3) as T13.
  assert (S3 : seg (frames st3) None (bfc_free_list st3) b1 pr (Some s)).
  { rewrite Hh3, Hh2, Hh1. apply (seg_touched _ _ _ _ _ _ _ _ T13); [| done].
    intros x Hx%Hbe. lia. }
  destruct (set_link_ok st3 b1 pr _ (Some (s + n)%nat) S3 Hnd1) as (st4 & -> & T4 & S4).
  cbn [mbind option_bind].
  pose proof (touched_trans _ _ _ _ _ T13 T4) as T14.
  apply (tail_touched _ _ _ _ _ _ T14) in Ht;
    [| intros x Hx%Haf; intros [? | Hx'%Hpr_in%Hbe]; lia].
  destruct (set_back_ok st4 _ _ b2 (Some (s + n)%nat) Ht Hnd2) as (st5 & -> & T5 & Hh5 & Ht5).
  cbn [mbind option_bind].
  pose proof (touched_trans _ _ _ _ _ T14 T5) as T15.
  pose proof (touched_trans _ _ _ _ _ T4 T5) as T45.
  assert (Hnb : frames st5 !! (s + n)%nat = Some (Page PAGE_FREE (p_refcount q) (l - n) pr (next p))).
  { destruct T45 as (_ & _ & ->); [done |].
    intros [Hx%Hpr_in%Hbe | Hx%Hnx_in%Haf]; lia. }
  assert (G5 : granted st5 s n).
  { apply (granted_touched _ _ _ _ _ (touched_trans _ _ _ _ _ T3 T45)); [| done].
    intros i Hi [? | [Hx%Hpr_in%Hbe | Hx%Hnx_in%Haf]]; lia. }
  destruct (G5 s ltac:(lia)) as (c5 & Hc5 & Hc5s & Hc5r).
  destruct (upd_ok s (fun p' => set_next None (set_prev None p')) st5 c5 Hc5)
    as (st6 & -> & T6 & Hs6 & Hh6). cbn [mbind option_bind].
  eexists. split; [done |]. split.
  - unfold dll. cbn. apply tail_app. exists pr, (Some (s + n)%nat). rewrite Hh6, Hh5. split.
    + eapply seg_touched; [exact (touched_trans _ _ _ _ _ T5 T6) | | exact S4].
      intros x Hx%Hbe [Hx'%Hnx_in%Haf | ?]; lia.
    + apply tail_cons. split; [done |]. eexists (Page _ _ _ _ _). split_and!; cycle 4.
      * cbn. eapply tail_touched; [exact T6 | | exact Ht5]. intros x Hx%Haf. lia.
      * destruct T6 as (_ & _ & ->); [exact Hnb | lia].
      * done.
      * done.
      * done.
  - apply memstat_result.
    + eapply touched_weaken; [| exact (touched_trans _ _ _ _ _ T15 T6)]. cbn. naive_solver lia.
    + intros i Hi. destruct (decide (i = s)) as [-> | Hne].
      * rewrite Hs6. by eexists.
      * destruct T6 as (_ & _ & ->); [by apply G5 | done].
Qed.

End TakeBlock.

Lemma wf_around st b1 s l b2 : rep st (b1 ++ (s, l) :: b2) -> around st b1 s l b2.
Proof.
  intros [Hwf Hin _]. pose proof (wf_app _ _ _ Hwf) as (Hw1 & Hw2 & Hsep).
  pose proof Hw2 as (_ & Hl & Hw2').
  constructor.
  - intros x ([s' l'] & -> & Hel)%list_elem_of_fmap.
    specialize (Hsep _ (s, l) Hel ltac:(by constructor)). cbn in *. lia.
  - intros x ([s' l'] & -> & Hel)%list_elem_of_fmap. destruct (wf_elem _ _ _ _ Hw2' Hel). cbn. lia.
  - by eapply wf_NoDup.
  - by eapply wf_NoDup.
  - apply Forall_app in Hin as [_ Hin]. apply Forall_cons in Hin as [? _]. done.
Qed.

Lemma around_cover lo b1 s l b2 i : wf lo (b1 ++ (s, l) :: b2) ->
  i ∈ b1.*1 \/ i ∈ b2.*1 \/ (s <= i < s + l)%nat -> cover (b1 ++ (s, l) :: b2) i.
Proof.
  intros Hwf Hi. rewrite cover_app, cover_cons.
  destruct (wf_app _ _ _ Hwf) as (Hw1 & (_ & _ & Hw2) & _).
  destruct Hi as [([s' l'] & -> & Hel)%list_elem_of_fmap | [([s' l'] & -> & Hel)%list_elem_of_fmap | Hi]].
  - left. by eapply elem_cover.
  - right. right. by eapply elem_cover.
  - by right; left.
Qed.

Lemma result_of_take_weaken (X Y : nat -> Prop) st st' n s :
  (forall i, X i -> Y i) -> result_of_take st st' n s X -> result_of_take st st' n s Y.
Proof. intros HXY (? & ? & ? & H). split_and!; [done | done | done |]. intros i Hi. apply H. naive_solver. Qed.

(** What an allocation that refines first fit does. *)
Definition alloc_post (fits : nat -> nat -> bool) (n : nat) (st : bfc) (bl : list block)
    (r : option (bfc * ptr)) : Prop :=
  match take_first fits n bl with
  | None => r = Some (st, None)
  | Some (s, bl') =>
      exists st', r = Some (st', Some s) /\ rep st' bl' /\ result_of_take st st' n s (cover bl)
  end.

Section AllocLoop.
Context (fits : nat -> nat -> bool) (n : nat).
Hypothesis Hn : (0 < n)%nat.
Hypothesis Hfits : forall s l, fits s l = true -> (n <= l)%nat.

Lemma alloc_loop_ok st b2 : forall b1 pr cur fuel,
  rep st (b1 ++ b2) -> seg (frames st) None (bfc_free_list st) b1 pr cur ->
  tail (frames st) pr cur b2 -> (length b2 <= fuel)%nat ->
  match take_first fits n b2 with
  | None => alloc_loop fuel fits cur pr n st = Some (st, None)
  | Some (s, b2') =>
      exists st', alloc_loop fuel fits cur pr n st = Some (st', Some s) /\ dll st' (b1 ++ b2') /\
        result_of_take st st' n s (cover (b1 ++ b2))
  end.
Proof.
  induction b2 as [| [s l] b2 IH]; intros b1 pr cur fuel Hrep Hseg Htail Hfuel.
  - destruct Htail as (? & _ & ->). by destruct fuel.
  - pose proof (wf_around _ _ _ _ _ Hrep) as Har.
    pose proof (fun i => around_cover 0 b1 s l b2 i (rep_wf _ _ Hrep)) as Hcov.
    pose proof Htail as (-> & p & Hp & _ & Hc & _ & Ht)%tail_cons.
    destruct fuel as [| fuel]; [cbn in Hfuel; lia |].
    cbn [alloc_loop take_first]. rewrite Hp. cbn [mbind option_bind]. rewrite Hc.
    destruct (fits s l) eqn:Hf.
    + specialize (Hfits _ _ Hf). destruct (Nat.eqb_spec l n) as [Heq | Hne].
      * destruct (take_block_exact st b1 b2 pr s l n Har Hseg Htail ltac:(lia) Heq)
          as (st' & ? & ? & Hres). exists st'. split_and!; [done | done |].
        by eapply result_of_take_weaken; [| exact Hres].
      * destruct (take_block_split st b1 b2 pr s l n Har Hseg Htail ltac:(lia) ltac:(lia))
          as (st' & ? & ? & Hres). exists st'. split_and!; [done | done |].
        by eapply result_of_take_weaken; [| exact Hres].
    + assert (Hs1 : seg (frames st) None (bfc_free_list st) (b1 ++ [(s, l)]) (Some s) (next p)).
      { apply tail_cons in Htail as (_ & p' & Hp' & ? & ? & ? & _).
        assert (p' = p) as -> by congruence.
        apply seg_app. exists pr, (Some s). split; [done |]. cbn.
        split; [done |]. exists p. by split_and!. }
      specialize (IH (b1 ++ [(s, l)]) (Some s) (next p) fuel).
      rewrite <- !(app_assoc b1) in IH. cbn [app] in IH.
      specialize (IH Hrep Hs1 Ht ltac:(cbn in Hfuel; lia)).
      destruct (take_first fits n b2) as [[s' b2'] |]; [| done].
      rewrite <- (app_assoc b1) in IH. done.
Qed.

Lemma alloc_refines st bl : rep st bl ->
  alloc_post fits n st bl (alloc_loop (loop_fuel st) fits (bfc_free_list st) None n st).
Proof.
  intros Hrep. destruct Hrep as [Hwf Hin Hd] eqn:E. clear E.
  pose proof (alloc_loop_ok st bl [] None (bfc_free_list st) (loop_fuel st) Hrep) as H.
  specialize (H ltac:(done) Hd).
  specialize (H ltac:(unfold loop_fuel; pose proof (wf_length _ _ _ Hwf Hin); lia)).
  unfold alloc_post. destruct (take_first fits n bl) as [[s bl'] |] eqn:Ht; [| done].
  destruct H as (st' & ? & ? & Hres). exists st'. split_and!; [done | | done].
  pose proof Hres as (Hlen & _). constructor; [| | done].
  - by eapply take_first_spec.
  - rewrite Hlen. by eapply take_first_inside.
Qed.

End AllocLoop.

Lemma fits_any_le n (s l : nat) : (n <=? l)%nat = true -> (n <= l)%nat.
Proof. apply Nat.leb_le. Qed.

Lemma fits_low_le n s l : fits_low n s l = true -> (n <= l)%nat.
Proof. intros [? _]%andb_true_iff. by apply Nat.leb_le. Qed.

(** *** Freeing *)

Definition ptr_head (b : list block) : ptr := fst <$> head b.
Definition ptr_last (b : list block) : ptr := fst <$> last b.

Lemma seg_ptr_last fr cur b pm cm : seg fr None cur b pm cm -> pm = ptr_last b.
Proof.
  destruct b as [| [s l] b _] using rev_ind; [by intros [<- _] | intros Hs].
  unfold ptr_last. rewrite last_snoc. by eapply seg_last.
Qed.

Lemma tail_ptr_head fr pr cur b : tail fr pr cur b -> cur = ptr_head b.
Proof. destruct b as [| [s l] b]; [by intros (? & _ & ->) | by intros (-> & _)%tail_cons]. Qed.

Lemma seg_snoc fr cur0 b pr s p : seg fr None cur0 b pr (Some s) ->
  fr !! s = Some p -> status p = PAGE_FREE -> prev p = pr ->
  seg fr None cur0 (b ++ [(s, cont_page_num p)]) (Some s) (next p).
Proof. intros. apply seg_app. exists pr, (Some s). split; [done |]. cbn. split; [done |]. eauto 10. Qed.

Lemma free_loop_ok st pg b2 : forall b1 pr cur fuel,
  seg (frames st) None (bfc_free_list st) b1 pr cur -> tail (frames st) pr cur b2 ->
  (length b2 <= fuel)%nat -> Forall (fun b => b.1 < pg)%nat b1 ->
  exists c1 c2 pr' cur', b1 ++ b2 = c1 ++ c2 /\ free_loop fuel cur pr pg st = Some (cur', pr') /\
    seg (frames st) None (bfc_free_list st) c1 pr' cur' /\ tail (frames st) pr' cur' c2 /\
    Forall (fun b => b.1 < pg)%nat c1 /\ (forall b, head c2 = Some b -> pg <= b.1)%nat.
Proof.
  induction b2 as [| [s l] b2 IH]; intros b1 pr cur fuel Hseg Htail Hfuel Hlt.
  - exists b1, [], pr, None. pose proof Htail as (? & _ & ->).
    split_and!; [done | by destruct fuel | done | done | done | done].
  - pose proof Htail as (-> & p & Hp & ? & Hc & ? & Ht)%tail_cons.
    destruct fuel as [| fuel]; [cbn in Hfuel; lia |]. cbn [free_loop].
    destruct (Nat.ltb_spec s pg).
    + rewrite Hp. cbn [mbind option_bind].
      destruct (IH (b1 ++ [(s, l)]) (Some s) (next p) fuel) as (c1 & c2 & pr' & cur' & Heq & H').
      * subst l. by eapply seg_snoc.
      * done.
      * cbn in Hfuel. lia.
      * apply Forall_app. split; [done |]. by repeat constructor.
      * exists c1, c2, pr', cur'. rewrite <- app_assoc in Heq. done.
    + exists b1, ((s, l) :: b2), pr, (Some s). split_and!; try done. by intros b [= <-].
Qed.

(** Rewrite the node [s] between [b1] and [b2], and the back link of [b2]. *)
Lemma relink st b1 pr s p f pr0 b2 cur l :
  seg (frames st) None (bfc_free_list st) b1 pr (Some s) -> frames st !! s = Some p ->
  tail (frames st) pr0 cur b2 -> NoDup (b1 ++ (s, l) :: b2).*1 ->
  status (f p) = PAGE_FREE -> cont_page_num (f p) = l -> prev (f p) = pr -> next (f p) = cur ->
  exists st1 st2, upd s f st = Some st1 /\ set_back cur (Some s) st1 = Some st2 /\
    dll st2 (b1 ++ (s, l) :: b2) /\ touched (fun i => s = i \/ i ∈ b2.*1) st st2.
Proof.
  intros Hb1 Hp Hb2 Hnd Hs Hl Hpr Hnx.
  rewrite fmap_app, NoDup_app in Hnd. destruct Hnd as (_ & Hd & [Hs2 Hnd2]%NoDup_cons).
  assert (Hin : forall i, at_ptr cur i -> i ∈ b2.*1) by (intros i; by eapply tail_ptr_in).
  destruct (upd_ok s f st p Hp) as (st1 & Hst1 & T1 & Hs1 & Hh1).
  apply (tail_touched _ _ _ _ _ _ T1) in Hb2; [| by intros x Hx <-].
  destruct (set_back_ok st1 pr0 cur b2 (Some s) Hb2 Hnd2) as (st2 & Hst2 & T2 & Hh2 & Ht2).
  exists st1, st2. split_and!; [done | done | |].
  - apply tail_app. exists pr, (Some s). rewrite Hh2, Hh1. split.
    + eapply seg_touched; [exact (touched_trans _ _ _ _ _ T1 T2) | | exact Hb1].
      intros x Hx [<- | Hx'%Hin]; apply (Hd _ Hx); [by constructor | by constructor].
    + apply tail_cons. split; [done |]. exists (f p). rewrite Hnx. split_and!; try done.
      destruct T2 as (_ & _ & ->); [done |]. by intros ?%Hin.
  - eapply touched_weaken; [| exact (touched_trans _ _ _ _ _ T1 T2)]. naive_solver.
Qed.

Lemma merge_next_ok st b1 s n b2 : dll st (b1 ++ (s, n) :: b2) -> NoDup (b1 ++ (s, n) :: b2).*1 ->
  exists st', merge_next (ptr_head b2) s st = Some st' /\ dll st' (b1 ++ join_next s n b2) /\
    touched (fun i => s = i \/ i ∈ b2.*1) st st'.
Proof.
  intros Hd Hnd. destruct b2 as [| [c lc] b2].
  { exists st. split_and!; [done | done | apply touched_refl]. }
  cbn [ptr_head head fmap option_fmap option_map fst merge_next join_next].
  pose proof Hd as (pr & cs & Hb1 & Hb2)%tail_app.
  apply tail_cons in Hb2 as (-> & p & Hp & Hps & Hpn & Hpp & Hb2).
  apply tail_cons in Hb2 as (Hnx & cp & Hcp & _ & Hcn & _ & Hb2).
  rewrite Hp. cbn [mbind option_bind]. rewrite Hpn.
  destruct (Nat.eqb_spec (s + n) c) as [Heq | Hne].
  2:{ exists st. split_and!; [done | done | apply touched_refl]. }
  rewrite Hcp. cbn [mbind option_bind]. rewrite Hcn.
  assert (Hnd' : NoDup (b1 ++ (s, n + lc)%nat :: b2).*1).
  { rewrite fmap_app in *. cbn in *. rewrite NoDup_app, !NoDup_cons in *. set_solver. }
  destruct (relink st b1 pr s p (fun p' => set_next (next cp) (set_cont (n + lc) p')) (Some c) b2
              (next cp) (n + lc)) as (st1 & st2 & -> & Hst2 & Hd' & T); try done.
  cbn [mbind option_bind]. exists st2. split_and!; [done | done |].
  eapply touched_weaken; [| exact T]. intros i [? | ?]; [by left | right; cbn; by constructor].
Qed.

(** The block that ends just before [pg], if there is one, absorbs [pg]. *)
Definition absorb (b1 : list block) (pg n : nat) : list block * nat * nat :=
  match last b1 with
  | Some (q, lq) =>
      if (q + lq =? pg)%nat then (removelast b1, q, (lq + n)%nat) else (b1, pg, n)
  | None => (b1, pg, n)
  end.

Lemma absorb_head b1 pg n :
  ((absorb b1 pg n).1.2 <= pg)%nat /\
  ((absorb b1 pg n).1.2 = pg \/ (absorb b1 pg n).1.2 ∈ b1.*1).
Proof.
  unfold absorb. destruct (last b1) as [[q lq] |] eqn:Hl; [| by split; [| left]].
  destruct (Nat.eqb_spec (q + lq) pg); cbn; [| by split; [| left]].
  split; [lia | right]. apply list_elem_of_fmap. exists (q, lq). split; [done |].
  by apply last_Some_elem_of.
Qed.

Lemma merge_prev_ok st b1 s n b2 : dll st (b1 ++ (s, n) :: b2) -> NoDup (b1 ++ (s, n) :: b2).*1 ->
  let '(b1', s', n') := absorb b1 s n in
  exists st', merge_prev (ptr_last b1) (ptr_head b2) s st = Some (st', s') /\
    dll st' (b1' ++ (s', n') :: b2) /\ NoDup (b1' ++ (s', n') :: b2).*1 /\
    touched (fun i => i ∈ b1.*1 \/ i ∈ b2.*1) st st'.
Proof.
  intros Hd Hnd. unfold absorb, ptr_last. destruct b1 as [| [q lq] b0 _] using rev_ind.
  { exists st. split_and!; [done | done | done | apply touched_refl]. }
  rewrite last_snoc, removelast_last.
  cbn [fmap option_fmap option_map fst merge_prev].
  pose proof Hd as Hd'. rewrite <- app_assoc in Hd'. cbn [app] in Hd'.
  apply tail_app in Hd' as (pr & cs & Hb0 & Hb2).
  apply tail_cons in Hb2 as (-> & qp & Hqp & Hqs & Hqn & Hqpr & Hb2).
  apply tail_cons in Hb2 as (Hnx & p & Hp & Hps & Hpn & Hpp & Hb2).
  rewrite Hqp. cbn [mbind option_bind]. rewrite Hqn.
  destruct (Nat.eqb_spec (q + lq) s) as [Heq | Hne].
  2:{ exists st. split_and!; [done | done | done | apply touched_refl]. }
  rewrite Hp. cbn [mbind option_bind]. rewrite Hpn.
  assert (Hnd' : NoDup (b0 ++ (q, lq + n)%nat :: b2).*1).
  { rewrite <- app_assoc, fmap_app in *. cbn in *. rewrite NoDup_app, !NoDup_cons in *. set_solver. }
  rewrite <- (tail_ptr_head _ _ _ _ Hb2).
  destruct (relink st b0 pr q qp (fun p' => set_next (next p) (set_cont (lq + n) p')) (Some s) b2
              (next p) (lq + n)) as (st1 & st2 & -> & Hst2 & Hd' & T); try done.
  cbn [mbind option_bind]. rewrite Hst2. cbn [mbind option_bind].
  exists st2. split_and!; [done | done | done |].
  eapply touched_weaken; [| exact T]. intros i [<- | ?]; [left | by right].
  rewrite fmap_app. apply elem_of_app. right. by constructor.
Qed.

Lemma insert_ok st b1 b2 pr cur pg p :
  seg (frames st) None (bfc_free_list st) b1 pr cur -> tail (frames st) pr cur b2 ->
  frames st !! pg = Some p -> status p = PAGE_FREE ->
  NoDup (b1 ++ (pg, cont_page_num p) :: b2).*1 ->
  exists st2 st3 st4, upd pg (fun p => set_next cur (set_prev pr p)) st = Some st2 /\
    set_link pr (Some pg) st2 = Some st3 /\ set_back cur (Some pg) st3 = Some st4 /\
    dll st4 (b1 ++ (pg, cont_page_num p) :: b2) /\
    touched (fun i => pg = i \/ i ∈ b1.*1 \/ i ∈ b2.*1) st st4.
Proof.
  intros Hb1 Hb2 Hp Hs Hnd.
  rewrite fmap_app, NoDup_app in Hnd. destruct Hnd as (Hnd1 & Hd & [Hpg Hnd2]%NoDup_cons).
  assert (Hpr_in : forall i, at_ptr pr i -> i ∈ b1.*1) by (intros i; by eapply seg_ptr_in).
  assert (Hcur_in : forall i, at_ptr cur i -> i ∈ b2.*1) by (intros i; by eapply tail_ptr_in).
  assert (Hpg1 : pg ∉ b1.*1) by (intros Hx; apply (Hd _ Hx); by constructor).
  assert (H12 : forall x, x ∈ b1.*1 -> x ∉ b2.*1) by (intros x Hx Hx'; apply (Hd _ Hx); by constructor).
  destruct (upd_ok pg (fun p => set_next cur (set_prev pr p)) st p Hp) as (st2 & E2 & T2 & Hpg2 & Hh2).
  rewrite <- Hh2 in Hb1. apply (seg_touched _ _ _ _ _ _ _ _ T2) in Hb1; [| by intros x Hx <-].
  destruct (set_link_ok st2 b1 pr cur (Some pg) Hb1 Hnd1) as (st3 & E3 & T3 & S3).
  pose proof (touched_trans _ _ _ _ _ T2 T3) as T23.
  apply (tail_touched _ _ _ _ _ _ T23) in Hb2; [| intros x Hx [<- | Hx'%Hpr_in]; naive_solver].
  destruct (set_back_ok st3 pr cur b2 (Some pg) Hb2 Hnd2) as (st4 & E4 & T4 & Hh4 & Ht4).
  exists st2, st3, st4. split_and!; [done | done | done | |].
  - apply tail_app. exists pr, (Some pg). rewrite Hh4. split.
    + eapply seg_touched; [exact T4 | | exact S3]. intros x Hx Hx'%Hcur_in. naive_solver.
    + apply tail_cons. split; [done |]. eexists (set_next cur (set_prev pr p)).
      split_and!; try done.
      destruct (touched_trans _ _ _ _ _ T3 T4) as (_ & _ & ->); [done |].
      intros [?%Hpr_in | ?%Hcur_in]; done.
  - eapply touched_weaken; [| exact (touched_trans _ _ _ _ _ T23 T4)]. naive_solver.
Qed.

(** Where the interval insertion happens. *)
Lemma give_split lo b1 b2 s n : wf lo (b1 ++ b2) ->
  Forall (fun b => b.1 < s)%nat b1 -> (forall b, head b2 = Some b -> s <= b.1)%nat ->
  let '(b1', s', n') := absorb b1 s n in give s n (b1 ++ b2) = b1' ++ join_next s' n' b2.
Proof.
  intros Hwf Hlt Hge.
  assert (Hb2 : give s n b2 = join_next s n b2).
  { destruct b2 as [| [a l] r]; [done |]. cbn [give]. specialize (Hge _ eq_refl). cbn in Hge.
    destruct (Nat.ltb_spec a s); [lia | done]. }
  unfold absorb. destruct b1 as [| [q lq] b0 _] using rev_ind; [done |].
  rewrite last_snoc, removelast_last, <- app_assoc. rewrite <- app_assoc in Hwf. cbn [app] in *.
  apply Forall_app in Hlt as [Hlt0 Hq]. apply Forall_cons in Hq as [Hq _]. cbn in Hq.
  assert (Hmid : give s n ((q, lq) :: b2) =
    if (q + lq =? s)%nat then join_next q (lq + n) b2 else (q, lq) :: join_next s n b2).
  { cbn [give]. destruct (Nat.ltb_spec q s); [| lia]. by rewrite Hb2. }
  enough (Hb0 : give s n (b0 ++ (q, lq) :: b2) = b0 ++ give s n ((q, lq) :: b2)).
  { destruct (q + lq =? s)%nat; (etrans; [exact Hb0 | rewrite Hmid]); [done |].
    by rewrite <- app_assoc. }
  clear Hmid Hb2. revert lo Hwf. induction Hlt0 as [| [a l] r Ha Hr IH]; intros lo Hwf; [done |].
  destruct Hwf as (_ & _ & Hwf). rewrite <- !app_comm_cons. cbn [give]. cbn in Ha.
  destruct (Nat.ltb_spec a s); [| lia].
  destruct (wf_app _ _ _ Hwf) as (_ & (? & _) & _).
  destruct (Nat.eqb_spec (a + l) s); [lia |]. f_equal. exact (IH _ Hwf).
Qed.

Definition result_of_free (st st' : bfc) (pg n : nat) (bl : list block) : Prop :=
  length (frames st') = length (frames st) /\
  used_pages st' = s32 (used_pages st - s32 (Z.of_nat n)) /\
  forall i, ~ cover bl i -> pg <> i -> frames st' !! i = frames st !! i.

Lemma disjoint_heads lo bl pg n : wf lo bl -> (0 < n)%nat -> disjoint_from pg n bl -> pg ∉ bl.*1.
Proof.
  intros Hwf Hn Hdis ([s l] & -> & Hel)%list_elem_of_fmap.
  apply (Hdis s); [cbn; lia |]. by eapply elem_cover.
Qed.

Lemma heads_cover lo bl i : wf lo bl -> i ∈ bl.*1 -> cover bl i.
Proof. intros Hwf ([s l] & -> & Hel)%list_elem_of_fmap. by eapply elem_cover. Qed.

Lemma link_free_ok st bl pg p : wf 0 bl -> inside (length (frames st)) bl -> dll st bl ->
  pg ∉ bl.*1 -> frames st !! pg = Some p -> status p = PAGE_FREE ->
  exists st' r, link_free pg st = Some (st', Some r) /\
    dll st' (give pg (cont_page_num p) bl) /\ (r <= pg)%nat /\
    touched (fun i => pg = i \/ i ∈ bl.*1) st st'.
Proof.
  intros Hwf Hin Hd Hpg Hp Hs. unfold link_free.
  destruct (bfc_free_list st) as [c |] eqn:Hfl.
  2:{ destruct bl as [| [s l] bl];
        [| unfold dll in Hd; rewrite Hfl in Hd; by apply tail_cons in Hd as (? & _)].
      destruct (upd_ok pg (fun p => set_next None (set_prev None p)) st _ Hp)
        as (st2 & -> & T2 & Hpg2 & Hh2). cbn [mbind option_bind].
      exists (set_head (Some pg) st2), pg. split_and!; [done | | done |].
      - apply tail_cons. split; [done |]. exists (set_next None (set_prev None p)).
        split_and!; [exact Hpg2 | done | done | done |]. by exists (Some pg).
      - eapply touched_weaken; [| exact T2]. naive_solver. }
  destruct (free_loop_ok st pg bl [] None (bfc_free_list st) (loop_fuel st))
    as (c1 & c2 & pr & cur & Heq & Hloop & S1 & Tl1 & Hlt & Hge);
    [done | done | | done |].
  { unfold loop_fuel. pose proof (wf_length _ _ _ Hwf Hin). lia. }
  cbn [app] in Heq. subst bl. rewrite <- Hfl, Hloop. cbn [mbind option_bind].
  pose proof (wf_NoDup _ _ Hwf) as Hnd. rewrite fmap_app in Hnd, Hpg.
  assert (Hnd' : NoDup (c1 ++ (pg, cont_page_num p) :: c2).*1).
  { rewrite fmap_app. cbn. rewrite NoDup_app, NoDup_cons in *. set_solver. }
  destruct (insert_ok st c1 c2 pr cur pg _ S1 Tl1 Hp Hs Hnd')
    as (st2 & st3 & st4 & -> & Hst3 & Hst4 & Hd4 & T4).
  cbn [mbind option_bind]. rewrite Hst3. cbn [mbind option_bind]. rewrite Hst4.
  cbn [mbind option_bind].
  rewrite (seg_ptr_last _ _ _ _ _ S1), (tail_ptr_head _ _ _ _ Tl1).
  pose proof (merge_prev_ok st4 c1 pg _ c2 Hd4 Hnd') as Hmp.
  pose proof (give_split 0%nat c1 c2 pg (cont_page_num p) Hwf Hlt Hge) as Hgive.
  destruct (absorb_head c1 pg (cont_page_num p)) as [Hab Hab1].
  destruct (absorb c1 pg (cont_page_num p)) as [[b1' s'] n']. cbn in Hab, Hab1.
  destruct Hmp as (st5 & -> & Hd5 & Hnd5 & T5). cbn [mbind option_bind].
  destruct (merge_next_ok st5 b1' s' n' c2 Hd5 Hnd5) as (st6 & -> & Hd6 & T6).
  cbn [mbind option_bind]. exists st6, s'. split_and!; [done | by rewrite Hgive | done |].
  eapply touched_weaken;
    [| exact (touched_trans _ _ _ _ _ (touched_trans _ _ _ _ _ T4 T5) T6)].
  intros i. rewrite fmap_app, elem_of_app. naive_solver.
Qed.

Lemma free_ok st bl pg n p : rep st bl -> (0 < n)%nat -> (pg + n <= length (frames st))%nat ->
  disjoint_from pg n bl -> frames st !! pg = Some p -> status p <> PAGE_SLAB ->
  exists st' r, bfc_free_page (Some pg) n st = Some (st', Some r) /\
    rep st' (give pg n bl) /\ result_of_free st st' pg n bl /\ (r <= pg)%nat.
Proof.
  intros [Hwf Hin Hd] Hn Hlen Hdis Hp Hslab.
  pose proof (disjoint_heads _ _ _ _ Hwf Hn Hdis) as Hpg.
  unfold bfc_free_page. destruct (Nat.eqb_spec n 0) as [-> | _]; [lia |].
  rewrite Hp. cbn [mbind option_bind]. rewrite bool_decide_eq_false_2 by done.
  set (st0 := Bfc _ _ _).
  destruct (upd_ok pg (fun p => set_cont n (set_status PAGE_FREE p)) st0 p Hp)
    as (st1 & -> & T1 & Hpg1 & Hh1). cbn [mbind option_bind].
  assert (Hd1 : dll st1 bl).
  { unfold dll. rewrite Hh1. eapply tail_touched; [exact T1 | by intros x Hx <- | exact Hd]. }
  destruct (link_free_ok st1 bl pg _ Hwf ltac:(destruct T1 as [-> _]; done) Hd1 Hpg Hpg1 eq_refl)
    as (st' & r & -> & Hd' & Hr & T').
  destruct (touched_trans _ _ _ _ _ T1 T') as (Hlen' & Hu & Hf).
  exists st', r. split_and!; [done | | | done].
  - constructor; [by apply give_spec; [done | lia | done | done] | | done].
    rewrite Hlen'. by apply give_inside.
  - split_and!; [done | done |]. intros i Hi Hne. apply Hf.
    intros [? | [? | Hx]]; [done | done |]. by apply Hi, (heads_cover 0%nat).
Qed.

(** *** The properties of the operations *)

Lemma alloc_page_post st bl n : rep st bl -> (0 < n)%nat ->
  alloc_post (fun _ num => n <=? num)%nat n st bl (bfc_alloc_page n st).
Proof.
  intros Hrep Hn. pose proof (alloc_refines _ n Hn (fits_any_le n) st bl Hrep) as H.
  unfold bfc_alloc_page. destruct (Nat.eqb_spec n 0); [lia |].
  by destruct (bfc_free_list st).
Qed.

Lemma alloc_low_post st bl n : rep st bl -> (0 < n)%nat ->
  alloc_post (fits_low n) n st bl (bfc_alloc_page_low n st).
Proof.
  intros Hrep Hn. pose proof (alloc_refines _ n Hn (fits_low_le n) st bl Hrep) as H.
  unfold bfc_alloc_page_low. destruct (Nat.eqb_spec n 0); [lia |].
  by destruct (bfc_free_list st).
Qed.

Lemma count_loop_ok st bl : forall pr cur fuel tot, tail (frames st) pr cur bl -> (length bl <= fuel)%nat ->
  count_loop fuel cur tot st = Some (tot + total bl)%nat.
Proof.
  induction bl as [| [s l] bl IH]; intros pr cur fuel tot Ht Hf.
  - destruct Ht as (? & _ & ->). destruct fuel; cbn; f_equal; lia.
  - apply tail_cons in Ht as (-> & p & Hp & _ & Hc & _ & Ht).
    destruct fuel as [| fuel]; [cbn in Hf; lia |]. cbn [count_loop]. rewrite Hp.
    cbn [mbind option_bind]. rewrite (IH _ _ fuel _ Ht) by (cbn in Hf; lia). cbn. f_equal. lia.
Qed.

Lemma free_page_nums_total st bl : rep st bl -> bfc_free_page_nums st = Some (total bl).
Proof.
  intros [Hwf Hin Hd]. unfold bfc_free_page_nums.
  apply (count_loop_ok st bl None _ _ 0 Hd).
  unfold loop_fuel. pose proof (wf_length _ _ _ Hwf Hin). lia.
Qed.

(** *** Clients *)

Inductive request := RAlloc (n : nat) | RAllocLow (n : nat) | RFree (k : nat).

(** The blocks the clients hold. *)
Definition world : Type := bfc * list block.

Definition grant (n : nat) (owned : list block) (r : bfc * ptr) : world :=
  match r with
  | (st', Some s) => (st', (s, n) :: owned)
  | (st', None) => (st', owned)
  end.

(** [RFree k] returns the [k]-th block held; a client frees what it holds. *)
Definition exec (w : world) (r : request) : option world :=
  let '(st, owned) := w in
  match r with
  | RAlloc n => r ← bfc_alloc_page n st; Some (grant n owned r)
  | RAllocLow n => r ← bfc_alloc_page_low n st; Some (grant n owned r)
  | RFree k =>
      match owned !! k with
      | Some (s, n) => r ← bfc_free_page (Some s) n st; Some (r.1, delete k owned)
      | None => Some w
      end
  end.

Definition pages (owned : list block) : list nat := owned ≫= fun b => seq b.1 b.2.

Definition held_ok (st : bfc) (bl : list block) (i : nat) : Prop :=
  ~ cover bl i /\ exists p, frames st !! i = Some p /\ status p = PAGE_USED /\ p_refcount p = 1.

Definition inv (T : nat) (w : world) : Prop :=
  exists bl, rep w.1 bl /\ NoDup (pages w.2) /\ Forall (held_ok w.1 bl) (pages w.2) /\
    Forall (fun b => 0 < b.2)%nat w.2 /\ (total bl + length (pages w.2) = T)%nat.

Lemma pages_cons s n owned : pages ((s, n) :: owned) = seq s n ++ pages owned.
Proof. done. Qed.

Lemma inv_alloc T fits n st owned r : (0 < n)%nat ->
  (forall s l, fits s l = true -> (n <= l)%nat) -> inv T (st, owned) ->
  (forall bl, rep st bl -> alloc_post fits n st bl r) ->
  exists r', r = Some r' /\ inv T (grant n owned r').
Proof.
  intros Hn Hfits (bl & Hrep & Hnd & Hheld & Hpos & Htot) Hpost. cbn [fst snd] in *.
  specialize (Hpost bl Hrep). unfold alloc_post in Hpost.
  destruct (take_first fits n bl) as [[s bl'] |] eqn:Ht.
  2:{ eexists. split; [done |]. by exists bl. }
  destruct Hpost as (st' & -> & Hrep' & Hlen & Hu & Hg & Hsame).
  destruct (take_first_spec _ _ _ _ _ Hn Hfits Ht _ (rep_wf _ _ Hrep)) as (_ & _ & Hcov & Hdis).
  pose proof (take_first_total _ _ _ _ _ Hfits Ht) as Htt.
  eexists. split; [done |]. exists bl'. cbn [grant fst snd]. rewrite pages_cons.
  rewrite Forall_forall in Hheld.
  split_and!; [done | | | by apply Forall_cons | rewrite length_app, length_seq; lia].
  - apply NoDup_app. split_and!; [apply NoDup_seq | | done].
    intros i Hi%elem_of_seq Hi'. apply (Hheld _ Hi'), Hcov. left. lia.
  - apply Forall_app. rewrite !Forall_forall. split.
    + intros i Hi%elem_of_seq. split; [apply Hdis; lia | apply Hg; lia].
    + intros i Hi. destruct (Hheld _ Hi) as [Hnc Hp]. split.
      * intros Hc. apply Hnc, Hcov. by right.
      * by rewrite Hsame.
Qed.

Lemma inv_free T st owned k s n : inv T (st, owned) -> owned !! k = Some (s, n) ->
  exists r', bfc_free_page (Some s) n st = Some r' /\ inv T (r'.1, delete k owned).
Proof.
  intros (bl & Hrep & Hnd & Hheld & Hpos & Htot) Hk. cbn [fst snd] in *.
  pose proof (delete_Permutation _ _ _ Hk) as Hperm.
  assert (Hpp : pages owned ≡ₚ seq s n ++ pages (delete k owned)).
  { rewrite <- pages_cons. unfold pages. by rewrite <- Hperm. }
  rewrite Hpp in Hnd, Hheld. rewrite Hpp, length_app, length_seq in Htot. rewrite Hperm in Hpos.
  apply NoDup_app in Hnd as (_ & Hdisj & Hnd). apply Forall_app in Hheld as [Hs Hheld].
  apply Forall_cons in Hpos as [Hn Hpos]. cbn in Hn. rewrite Forall_forall in Hs, Hheld.
  assert (Hin : forall i, (s <= i < s + n)%nat -> held_ok st bl i)
    by (intros i Hi; apply Hs, elem_of_seq; lia).
  destruct (Hin s ltac:(lia)) as (_ & p & Hp & Hps & _).
  destruct (free_ok st bl s n p) as (st' & r & Heq & Hrep' & (Hlen & Hu & Hsame) & _); try done.
  - destruct (Hin (s + n - 1)%nat ltac:(lia)) as (_ & q & Hq & _).
    apply lookup_lt_Some in Hq. lia.
  - intros i Hi. by apply Hin.
  - by rewrite Hps.
  - eexists. split; [done |]. cbn [fst]. exists (give s n bl). cbn [fst snd]. split; [done |].
    split_and!; [done | | done | rewrite give_total; lia].
    destruct (give_spec s n bl Hn 0%nat ltac:(lia) (rep_wf _ _ Hrep)) as [_ Hcov].
    { intros i Hi. by apply Hin. }
    rewrite Forall_forall. intros i Hi. destruct (Hheld _ Hi) as [Hnc Hpi].
    assert (Hout : ~ (s <= i < s + n)%nat).
    { intros Hi'. apply (Hdisj i); [apply elem_of_seq; lia | done]. }
    split; [rewrite Hcov; naive_solver |]. rewrite Hsame; [done | done | lia].
Qed.

Lemma exec_safe T w r : inv T w -> exists w', exec w r = Some w' /\ inv T w'.
Proof.
  destruct w as [st owned]. intros Hinv. destruct r as [n | n | k]; cbn [exec].
  - destruct n as [| n]; [by exists (st, owned) |].
    destruct (inv_alloc T _ (S n) st owned (bfc_alloc_page (S n) st) ltac:(lia) (fits_any_le (S n)) Hinv)
      as (r' & -> & ?); [intros; apply alloc_page_post; [done | lia] |]. by eexists.
  - destruct n as [| n]; [by exists (st, owned) |].
    destruct (inv_alloc T _ (S n) st owned (bfc_alloc_page_low (S n) st) ltac:(lia) (fits_low_le (S n)) Hinv)
      as (r' & -> & ?); [intros; apply alloc_low_post; [done | lia] |]. by eexists.
  - destruct (owned !! k) as [[s n] |] eqn:Hk; [| by eexists].
    destruct (inv_free T st owned k s n Hinv Hk) as (r' & -> & ?). by eexists.
Qed.

End Refine.

(** ** Theorems *)
Import Blocks Rep Refine.

(** A heap of ten pages with the free blocks [1..3] and [6..7]. *)
Definition demo_free (n : nat) (pr nx : ptr) : page := Page PAGE_FREE 0 n pr nx.
Definition demo_used : page := Page PAGE_USED 1 1 None None.
Definition demo : bfc := Bfc
  [demo_used; demo_free 3 None (Some 6%nat); demo_used; demo_used; demo_used;
   demo_used; demo_free 2 (Some 1%nat) None; demo_used; demo_used; demo_used] (Some 1%nat) 5.

Lemma demo_rep : rep demo [(1, 3); (6, 2)]%nat.
Proof.
  constructor.
  - cbn. lia.
  - unfold inside. apply Forall_cons; split; [cbn; lia |]. apply Forall_cons; split; [cbn; lia | constructor].
  - apply tail_cons. split; [done |]. exists (demo_free 3 None (Some 6%nat)). split_and!; try done.
    apply tail_cons. split; [done |]. exists (demo_free 2 (Some 1%nat) None). split_and!; try done.
    by exists (Some 6%nat).
Qed.

(** C32.  [bfc_alloc_page] is first fit.  On a well-formed heap the call never
    faults; it returns NULL and changes nothing exactly when no free block
    has [n] pages, and otherwise returns the first page of the first block
    that does.  The heap it leaves is well formed and holds the same free
    blocks minus the [n] pages, which are all marked used with reference
    count one; the descriptor of every page that was not free is unchanged. *)
Theorem bfc_alloc_first_fit st bl n : rep st bl -> (0 < n)%nat ->
  match take_first (fun _ num => n <=? num)%nat n bl with
  | None => bfc_alloc_page n st = Some (st, None)
  | Some (s, bl') =>
      exists st', bfc_alloc_page n st = Some (st', Some s) /\ rep st' bl' /\ granted st' s n /\
        used_pages st' = s32 (used_pages st + s32 (Z.of_nat n)) /\
        (forall i, ~ cover bl i -> frames st' !! i = frames st !! i)
  end.
Proof.
  intros Hrep Hn. pose proof (alloc_page_post st bl n Hrep Hn) as H. unfold alloc_post in H.
  destruct (take_first _ n bl) as [[s bl'] |]; [| done].
  destruct H as (st' & -> & ? & ? & ? & ? & ?). by exists st'.
Qed.

Lemma bfc_alloc_first_fit_witness :
  exists st', bfc_alloc_page 2 demo = Some (st', Some 1%nat) /\ rep st' [(3, 1); (6, 2)]%nat /\
    granted st' 1 2.
Proof.
  destruct (bfc_alloc_first_fit demo [(1, 3); (6, 2)]%nat 2 demo_rep ltac:(lia))
    as (st' & ? & ? & ? & _). by exists st'.
Defined.

(**  [bfc_free_page] of a block that is not free never faults.  It puts
    the block back in address order and coalesces it with the free blocks on
    both sides, so the heap is again well formed with no two adjacent free
    blocks; pages outside the free blocks and the freed head keep their
    descriptors. *)
Theorem bfc_free_coalesces st bl pg n p : rep st bl -> (0 < n)%nat ->
  (pg + n <= length (frames st))%nat -> disjoint_from pg n bl ->
  frames st !! pg = Some p -> status p <> PAGE_SLAB ->
  exists st' r, bfc_free_page (Some pg) n st = Some (st', Some r) /\
    rep st' (give pg n bl) /\
    (forall i, cover (give pg n bl) i <-> (pg <= i < pg + n)%nat \/ cover bl i) /\
    used_pages st' = s32 (used_pages st - s32 (Z.of_nat n)) /\
    (forall i, ~ cover bl i -> pg <> i -> frames st' !! i = frames st !! i).
Proof.
  intros Hrep Hn Hlen Hdis Hp Hs.
  destruct (free_ok st bl pg n p Hrep Hn Hlen Hdis Hp Hs) as (st' & r & ? & ? & (? & ? & ?) & _).
  exists st', r. split_and!; try done.
  by apply (give_spec pg n bl Hn 0%nat); [lia | apply (rep_wf _ _ Hrep) |].
Qed.

Lemma bfc_free_coalesces_witness :
  exists st' r, bfc_free_page (Some 4%nat) 2 demo = Some (st', Some r) /\ rep st' [(1, 7)]%nat.
Proof.
  destruct (bfc_free_coalesces demo [(1, 3); (6, 2)]%nat 4 2 demo_used demo_rep)
    as (st' & r & ? & ? & _).
  - lia.
  - cbn. lia.
  - intros i Hi. rewrite !cover_cons. intros [? | [? | []%cover_nil]]; lia.
  - done.
  - done.
  - by exists st', r.
Defined.

(**  Freeing a block right after allocating it restores exactly the free
    list there was before: no fragment is left behind and nothing is lost. *)
Theorem bfc_alloc_free_roundtrip st bl n st1 s : rep st bl ->
  bfc_alloc_page n st = Some (st1, Some s) ->
  exists st2 r, bfc_free_page (Some s) n st1 = Some (st2, Some r) /\ rep st2 bl /\
    bfc_free_page_nums st2 = bfc_free_page_nums st.
Proof.
  intros Hrep Ha.
  assert (Hn : (0 < n)%nat) by (destruct n; [done | lia]).
  pose proof (alloc_page_post st bl n Hrep Hn) as H. unfold alloc_post in H.
  destruct (take_first _ n bl) as [[s' bl'] |] eqn:Ht; [| congruence].
  destruct H as (st' & Ha' & Hrep' & Hlen & _ & Hg & _).
  rewrite Ha in Ha'. injection Ha' as <- <-.
  pose proof (take_first_spec _ _ _ _ _ Hn (fits_any_le n) Ht 0%nat (rep_wf _ _ Hrep)) as (_ & _ & _ & Hdis).
  pose proof (take_first_inside _ _ _ _ _ _ (fits_any_le n) Ht (rep_inside _ _ Hrep)) as [_ Hin].
  destruct (Hg s ltac:(lia)) as (p & Hp & Hps & _).
  destruct (free_ok st1 bl' s n p Hrep' Hn ltac:(lia) Hdis Hp ltac:(by rewrite Hps))
    as (st2 & r & Hf & Hrep2 & _).
  rewrite (give_take _ _ _ _ _ Hn (fits_any_le n) Ht (rep_wf _ _ Hrep)) in Hrep2.
  exists st2, r. split_and!; [done | done |].
  by rewrite (free_page_nums_total _ _ Hrep2), (free_page_nums_total _ _ Hrep).
Qed.

Lemma bfc_alloc_free_roundtrip_witness :
  exists st1 s st2 r, bfc_alloc_page 2 demo = Some (st1, Some s) /\
    bfc_free_page (Some s) 2 st1 = Some (st2, Some r) /\ rep st2 [(1, 3); (6, 2)]%nat.
Proof.
  destruct (bfc_alloc_page 2 demo) as [[st1 [s |]] |] eqn:Ha; [| by vm_compute in Ha | by vm_compute in Ha].
  destruct (bfc_alloc_free_roundtrip demo _ 2 st1 s demo_rep Ha) as (st2 & r & ? & ? & _).
  by exists st1, s, st2, r.
Defined.

(** C14.  For every sequence of allocations (of both kinds) and frees of blocks
    that are held, in any order, no operation faults, no page is held twice
    or is at once held and free, every held page stays marked used with
    reference count one, and no page is ever lost: the pages held and the
    pages that [bfc_free_page_nums] reports add up to the initial number. *)
Theorem bfc_no_double_grant st bl reqs : rep st bl ->
  exists st' owned bl' k, run_opt exec (st, []) reqs = Some (st', owned) /\ rep st' bl' /\
    NoDup (pages owned) /\ Forall (held_ok st' bl') (pages owned) /\
    bfc_free_page_nums st' = Some k /\ (k + length (pages owned) = total bl)%nat.
Proof.
  intros Hrep.
  destruct (run_opt_safe exec (inv (total bl)) (fun w r => exec_safe (total bl) w r) reqs (st, []))
    as ([st' owned] & Hrun & bl' & Hrep' & Hnd & Hheld & _ & Htot).
  { exists bl. cbn. split_and!; [done | constructor | constructor | constructor | lia]. }
  exists st', owned, bl', (total bl'). split_and!; try done. by apply free_page_nums_total.
Qed.

Lemma bfc_no_double_grant_witness :
  exists st' owned, run_opt exec (demo, []) [RAlloc 2; RAllocLow 1; RAlloc 2; RFree 1; RAlloc 1]
    = Some (st', owned) /\ NoDup (pages owned).
Proof.
  destruct (bfc_no_double_grant demo _ [RAlloc 2; RAllocLow 1; RAlloc 2; RFree 1; RAlloc 1] demo_rep)
    as (st' & owned & _ & _ & Hrun & _ & Hnd & _). exact (ex_intro _ st' (ex_intro _ owned (conj Hrun Hnd))).
Defined.

(**  A block returned by [bfc_alloc_page_low] lies entirely below 4 GiB,
    and the call fails only when no free block of [n] pages starts low
    enough. *)
Theorem bfc_low_below_4g st bl n : rep st bl -> (0 < n)%nat ->
  Z.of_nat (length (frames st)) < 2 ^ 52 ->
  (exists st' s bl', bfc_alloc_page_low n st = Some (st', Some s) /\ rep st' bl' /\ granted st' s n /\
     (forall i, cover bl i <-> (s <= i < s + n)%nat \/ cover bl' i) /\
     (Z.of_nat s + Z.of_nat n) * PAGE_SIZE <= 2 ^ 32) \/
  (bfc_alloc_page_low n st = Some (st, None) /\
   forall s l, (s, l) ∈ bl -> (n <= l)%nat -> 2 ^ 32 < (Z.of_nat s + Z.of_nat n) * PAGE_SIZE).
Proof.
  intros Hrep Hn HN. pose proof (alloc_low_post st bl n Hrep Hn) as H. unfold alloc_post in H.
  assert (Hlow : forall s l, (s, l) ∈ bl -> (n <= l)%nat ->
    fits_low n s l = ((Z.of_nat s + Z.of_nat n) * PAGE_SIZE <=? 2 ^ 32)).
  { intros s l Hel Hle. pose proof (rep_inside _ _ Hrep) as Hin. unfold inside in Hin.
    rewrite Forall_forall in Hin. specialize (Hin _ Hel). cbn in Hin.
    unfold fits_low. rewrite (proj2 (Nat.leb_le _ _)) by done. unfold PAGE_SIZE.
    rewrite (u64_small (Z.of_nat s * 4096)), (u64_small (Z.of_nat n * 4096)), u64_small by lia.
    cbn [andb]. f_equal. lia. }
  destruct (take_first (fits_low n) n bl) as [[s bl'] |] eqn:Ht.
  - left. destruct H as (st' & ? & ? & _ & _ & ? & _).
    pose proof (take_first_spec _ _ _ _ _ Hn (fits_low_le n) Ht 0%nat (rep_wf _ _ Hrep)) as (_ & _ & Hcov & _).
    exists st', s, bl'. split_and!; try done.
    destruct (take_first_fits _ _ _ _ _ Ht) as (l & Hel & Hf). pose proof (fits_low_le _ _ _ Hf).
    rewrite (Hlow s l) in Hf by done. by apply Z.leb_le.
  - right. split; [done |]. intros s l Hel Hle. apply take_first_none in Ht.
    rewrite Forall_forall in Ht. specialize (Ht _ Hel). cbn [fst snd] in Ht.
    rewrite (Hlow s l) in Ht by done. by apply Z.leb_gt.
Qed.

Lemma bfc_low_below_4g_witness :
  exists st' s, bfc_alloc_page_low 3 demo = Some (st', Some s) /\
    (Z.of_nat s + 3) * PAGE_SIZE <= 2 ^ 32.
Proof.
  destruct (bfc_low_below_4g demo _ 3 demo_rep ltac:(lia) ltac:(cbn; lia))
    as [(st' & s & bl' & ? & _ & _ & _ & ?) | [Hnone _]]; [by exists st', s |].
  by vm_compute in Hnone.
Defined.
