(* ===== verification/BfcInit.v ===== *)
(** * Boot-time initialisation of the page allocator

    [init_mem] (kernel/xcore/mem/alloc.c) computes the number of page frames
    from the EFI memory map, marks every frame and threads the free list
    through the free ones; the bump allocator it uses for the frame array is
    in arch/x64/paging.c.  The theorems say which pages end up on the free
    list, and that the list satisfies the invariant of [Bfc.Rep]. *)
From S2P Require Import Prelude Bfc.
Import Bfc.Blocks Bfc.Rep.

(** [efi_memory_descriptor]; the fields the code does not read are left out. *)
Record efi_memory_descriptor := EfiDesc {
  efi_type : Z;
  physical_start : Z;
  number_of_pages : Z;
}.

Definition EfiConventionalMemory : Z := 7.
Definition AP_TRAMPOLINE_PHYS : Z := 0x8000.
Definition DIRECT_MAP_MAX_GB : Z := 64.
Definition sizeof_page : Z := 56.

(** The bump allocator's statics. *)
Record bump := Bump {
  bump_next_phys : Z;
  bump_disabled : bool;
  init_accounted_end : Z;
}.

Definition bump_init_phys (start : Z) (b : bump) : bump :=
  Bump (ALIGN_UP start PAGE_SIZE) (bump_disabled b) (init_accounted_end b).

(** The physical address of the block; [halt()] once disabled. *)
Definition bump_alloc (size : Z) (b : bump) : option (bump * Z) :=
  if bump_disabled b then None
  else Some (Bump (u64 (bump_next_phys b + ALIGN_UP size PAGE_SIZE)) (bump_disabled b)
                  (init_accounted_end b), bump_next_phys b).

Definition bump_set_accounted (e : Z) (b : bump) : bump :=
  Bump (bump_next_phys b) (bump_disabled b) e.

(** [for (j = 0; j < count && first + j < total; j++) frames[first + j] = ...] *)
Fixpoint mark_range (f : page -> page) (first count : nat) (fr : list page) : list page :=
  match count with
  | O => fr
  | S count' =>
      match fr !! first with
      | Some p => mark_range f (S first) count' (<[first := f p]> fr)
      | None => fr
      end
  end.

Definition reserve (p : page) : page := set_refcount 0 (set_status PAGE_RESERVED p).
Definition use (p : page) : page := set_refcount 1 (set_status PAGE_USED p).

(** Step 1: the end of conventional memory, capped at the direct map. *)
Definition max_phys (descs : list efi_memory_descriptor) : Z :=
  let m := foldl (fun m d =>
    if efi_type d =? EfiConventionalMemory then
      let e := u64 (physical_start d + u64 (number_of_pages d * 4096)) in
      if m <? e then e else m
    else m) 0 descs in
  if DIRECT_MAP_MAX_GB * 0x40000000 <? m then DIRECT_MAP_MAX_GB * 0x40000000 else m.

Definition desc_first (d : efi_memory_descriptor) : nat :=
  Z.to_nat (PHY_TO_PAGE (ALIGN_UP (physical_start d) PAGE_SIZE)).
Definition desc_pages (d : efi_memory_descriptor) : nat :=
  Z.to_nat (GET_PAGE_NUM (u64 (number_of_pages d * 4096))).

(** Step 5. *)
Definition mark_free (descs : list efi_memory_descriptor) (fr : list page) : list page :=
  foldl (fun fr d =>
    if efi_type d =? EfiConventionalMemory
    then mark_range (set_status PAGE_FREE) (desc_first d) (desc_pages d) fr
    else fr) fr descs.

(** Step 9: the state machine.  [b_link] is the variable [cur_page]: [None]
    for [&bfc_free_list], [Some k] for [&frames[k].bfc.next]. *)
Record builder := Builder {
  in_run : bool;
  b_prev : ptr;
  b_link : ptr;
  b_cont : nat;
}.

Definition deref (link : ptr) (st : bfc) : option ptr :=
  match link with
  | None => Some (bfc_free_list st)
  | Some k => p ← frames st !! k; Some (next p)
  end.

Definition build_step (i : nat) (b : builder) (st : bfc) : option (builder * bfc) :=
  p ← frames st !! i;
  let free := bool_decide (status p = PAGE_FREE) in
  if in_run b then
    if negb free then
      cur ← deref (b_link b) st;
      match cur with
      | None => None
      | Some c =>
          st1 ← upd c (set_cont (b_cont b)) st;
          Some (Builder false (b_prev b) (Some c) 0, st1)
      end
    else Some (Builder true (b_prev b) (b_link b) (S (b_cont b)), st)
  else
    if free then
      st1 ← set_link (b_link b) (Some i) st;
      st2 ← upd i (set_prev (b_prev b)) st1;
      Some (Builder true (Some i) (b_link b) 1, st2)
    else Some (b, st).

Fixpoint build_loop (count i : nat) (b : builder) (st : bfc) : option (builder * bfc) :=
  match count with
  | O => Some (b, st)
  | S count' => '(b', st') ← build_step i b st; build_loop count' (S i) b' st'
  end.

Definition build_free_list (st : bfc) : option bfc :=
  '(b, st1) ← build_loop (length (frames st)) 0 (Builder false None None 0) st;
  if in_run b then
    cur ← deref (b_link b) st1;
    match cur with
    | None => None
    | Some c => upd c (set_cont (b_cont b)) st1
    end
  else Some st1.

(** [intel_stolen_early_get()], and the boot parameters. *)
Record boot := Boot {
  descs : list efi_memory_descriptor;
  kernel_phys : Z;
  early_bump_end : Z;
  stolen_valid : bool;
  stolen_base : Z;
  stolen_size : Z;
}.

Definition total_page_frames (bi : boot) : nat := Z.to_nat (GET_PAGE_NUM (max_phys (descs bi))).

Definition blank : page := Page PAGE_RESERVED 0 1 None None.

(** Steps 4 to 8: the marking of the frames. *)
Definition mark_frames (bi : boot) (used_end : Z) : list page :=
  let fr := replicate (total_page_frames bi) blank in
  let fr := mark_free (descs bi) fr in
  let fr := mark_range reserve (Z.to_nat (PHY_TO_PAGE AP_TRAMPOLINE_PHYS)) 1 fr in
  let fr := if stolen_valid bi
            then mark_range reserve (Z.to_nat (PHY_TO_PAGE (stolen_base bi)))
                            (Z.to_nat (stolen_size bi / PAGE_SIZE)) fr
            else fr in
  let first := Z.to_nat (PHY_TO_PAGE (kernel_phys bi)) in
  let last := Z.to_nat (PHY_TO_PAGE (ALIGN_UP used_end PAGE_SIZE)) in
  mark_range use first (last - first) fr.

(** [bfc_free_list] is NULL before the call and [used_pages] is 0. *)
Definition init_mem (bi : boot) (b : bump) : option (bfc * bump) :=
  let b1 := bump_init_phys (early_bump_end bi) b in
  '(b2, frames_phys) ← bump_alloc (u64 (Z.of_nat (total_page_frames bi) * sizeof_page)) b1;
  let used_end := bump_next_phys b2 in
  let b3 := bump_set_accounted used_end b2 in
  st ← build_free_list (Bfc (mark_frames bi used_end) None 0);
  Some (st, b3).

Definition bump_disable (st : bfc) (b : bump) : bfc * bump :=
  let e := bump_next_phys b in
  let b' := Bump e true (init_accounted_end b) in
  if init_accounted_end b <? e then
    let first := Z.to_nat (PHY_TO_PAGE (ALIGN_UP (init_accounted_end b) PAGE_SIZE)) in
    let last := Z.to_nat (PHY_TO_PAGE (ALIGN_UP e PAGE_SIZE)) in
    (Bfc (mark_range use first (last - first) (frames st)) (bfc_free_list st) (used_pages st), b')
  else (st, b').

(** ** The marking loops *)

Lemma mark_range_length f a c fr : length (mark_range f a c fr) = length fr.
Proof.
  revert a fr. induction c as [| c IH]; intros a fr; cbn; [done |].
  destruct (fr !! a); [| done]. by rewrite IH, length_insert.
Qed.

Lemma mark_range_lookup f a c fr i :
  mark_range f a c fr !! i =
  if decide (a <= i < a + c)%nat then f <$> fr !! i else fr !! i.
Proof.
  revert a fr. induction c as [| c IH]; intros a fr; cbn.
  - destruct (decide _); [lia | done].
  - destruct (fr !! a) as [p |] eqn:Ha.
    + rewrite IH. destruct (decide (i = a)) as [-> | Hne].
      * rewrite list_lookup_insert_eq by (by eapply lookup_lt_Some).
        rewrite decide_False by lia. rewrite decide_True by lia. by rewrite Ha.
      * rewrite list_lookup_insert_ne by done.
        repeat destruct (decide _); try lia; done.
    + destruct (decide _); [| done]. apply lookup_ge_None in Ha.
      by rewrite (lookup_ge_None_2 fr i) by lia.
Qed.

Definition isfree (fr : list page) (i : nat) : Prop :=
  exists p, fr !! i = Some p /\ status p = PAGE_FREE.

Definition unlinked (fr : list page) : Prop := Forall (fun p => next p = None) fr.

Definition desc_covers (d : efi_memory_descriptor) (i : nat) : Prop :=
  efi_type d = EfiConventionalMemory /\ (desc_first d <= i < desc_first d + desc_pages d)%nat.

Lemma mark_range_unlinked f a c fr : (forall p, next (f p) = next p) -> unlinked fr ->
  unlinked (mark_range f a c fr).
Proof.
  unfold unlinked. rewrite !Forall_lookup. intros Hf Hu i p Hp.
  rewrite mark_range_lookup in Hp. destruct (decide _); [| by eapply Hu].
  destruct (fr !! i) as [q |] eqn:Hq; [| done]. injection Hp as <-. rewrite Hf. by eapply Hu.
Qed.

Lemma mark_range_free a c fr i :
  isfree (mark_range (set_status PAGE_FREE) a c fr) i <->
  isfree fr i \/ ((a <= i < a + c)%nat /\ (i < length fr)%nat).
Proof.
  unfold isfree. rewrite mark_range_lookup. destruct (decide _) as [Hi | Hi].
  - split.
    + intros (p & Hp & _). right. split; [done |]. apply (lookup_lt_is_Some fr).
      destruct (fr !! i); [by eexists | done].
    + intros _H. assert (Hl : (i < length fr)%nat).
      { destruct _H as [(p & Hp & _) | [_ ?]]; [by eapply lookup_lt_Some | done]. }
      apply lookup_lt_is_Some in Hl as [p ->]. by exists (set_status PAGE_FREE p).
  - naive_solver.
Qed.

Lemma mark_range_unfree f a c fr i : (forall p, status (f p) <> PAGE_FREE) ->
  isfree (mark_range f a c fr) i <-> isfree fr i /\ ~ (a <= i < a + c)%nat.
Proof.
  intros Hf. unfold isfree. rewrite mark_range_lookup. destruct (decide _) as [Hi | Hi].
  - split; [| naive_solver]. intros (p & Hp & Hs). destruct (fr !! i) as [q |]; [| done].
    injection Hp as <-. by apply Hf in Hs.
  - naive_solver.
Qed.

Lemma mark_free_ok ds fr : unlinked fr ->
  length (mark_free ds fr) = length fr /\ unlinked (mark_free ds fr) /\
  forall i, isfree (mark_free ds fr) i <->
    isfree fr i \/ (Exists (fun d => desc_covers d i) ds /\ (i < length fr)%nat).
Proof.
  revert fr. induction ds as [| d ds IH]; intros fr Hu.
  - split_and!; [done | done |]. intros i. cbn. rewrite Exists_nil. naive_solver.
  - unfold mark_free. cbn [foldl]. fold (mark_free ds).
    destruct (Z.eqb_spec (efi_type d) EfiConventionalMemory) as [Heq | Hne].
    + destruct (IH (mark_range (set_status PAGE_FREE) (desc_first d) (desc_pages d) fr))
        as (Hl & Hu' & Hf); [by apply mark_range_unlinked |].
      rewrite mark_range_length in Hl, Hf. split_and!; [done | done |].
      intros i. unfold mark_free in Hf. rewrite Hf, mark_range_free, Exists_cons.
      unfold desc_covers at 2. tauto.
    + destruct (IH fr Hu) as (Hl & Hu' & Hf). split_and!; [done | done |].
      intros i. unfold mark_free in Hf. rewrite Hf, Exists_cons. unfold desc_covers at 2. tauto.
Qed.

(** The pages that [init_mem] puts on the free list. *)
Definition usable (bi : boot) (used_end : Z) (i : nat) : Prop :=
  (i < total_page_frames bi)%nat /\
  Exists (fun d => desc_covers d i) (descs bi) /\
  i <> Z.to_nat (PHY_TO_PAGE AP_TRAMPOLINE_PHYS) /\
  ~ (stolen_valid bi = true /\
     (Z.to_nat (PHY_TO_PAGE (stolen_base bi)) <= i
      < Z.to_nat (PHY_TO_PAGE (stolen_base bi)) + Z.to_nat (stolen_size bi / PAGE_SIZE))%nat) /\
  ~ (Z.to_nat (PHY_TO_PAGE (kernel_phys bi)) <= i
     < Z.to_nat (PHY_TO_PAGE (ALIGN_UP used_end PAGE_SIZE)))%nat.

Lemma range_sub (a b i : nat) : (a <= i < a + (b - a))%nat <-> (a <= i < b)%nat.
Proof. lia. Qed.

Lemma range_one (a i : nat) : (a <= i < a + 1)%nat <-> i = a.
Proof. lia. Qed.

Lemma mark_frames_ok bi e :
  length (mark_frames bi e) = total_page_frames bi /\ unlinked (mark_frames bi e) /\
  forall i, isfree (mark_frames bi e) i <-> usable bi e i.
Proof.
  unfold mark_frames.
  assert (Hu : unlinked (replicate (total_page_frames bi) blank)) by (by apply Forall_replicate).
  destruct (mark_free_ok (descs bi) _ Hu) as (Hl & Hu1 & Hf).
  rewrite length_replicate in Hl, Hf.
  assert (H0 : forall i, ~ isfree (replicate (total_page_frames bi) blank) i).
  { intros i (p & [-> _]%lookup_replicate & ?). done. }
  set (fr1 := mark_free _ _) in *. unfold usable.
  destruct (stolen_valid bi); split_and!;
    rewrite ?mark_range_length; [done | by repeat apply mark_range_unlinked | |
                                 done | by repeat apply mark_range_unlinked |];
    intros i; rewrite !mark_range_unfree, Hf, range_sub, range_one by done;
    specialize (H0 i); intuition congruence.
Qed.

(** ** Building the free list *)

(** What building the list must not change: status and reference count. *)
Definition marks (st : bfc) : list (page_status * Z) :=
  (fun p => (status p, p_refcount p)) <$> frames st.

Lemma upd_marks i f st st' : (forall p, status (f p) = status p /\ p_refcount (f p) = p_refcount p) ->
  upd i f st = Some st' -> marks st' = marks st.
Proof.
  intros Hf. unfold upd. destruct (frames st !! i) as [p |] eqn:Hp; [| done].
  intros [= <-]. unfold marks. cbn. rewrite list_fmap_insert. destruct (Hf p) as [-> ->].
  apply list_insert_id. by rewrite list_lookup_fmap, Hp.
Qed.

Lemma set_link_marks q v st st' : set_link q v st = Some st' -> marks st' = marks st.
Proof. destruct q; cbn; [by apply upd_marks | by intros [= <-]]. Qed.

Lemma isfree_marks st i : isfree (frames st) i <-> fst <$> marks st !! i = Some PAGE_FREE.
Proof.
  unfold isfree, marks. rewrite list_lookup_fmap. destruct (frames st !! i) as [p |]; cbn.
  - split; [by intros (q & [= ->] & ->) | intros [= Hs]; by exists p].
  - split; [by intros (q & ? & _) | done].
Qed.

Lemma marks_isfree st st' i : marks st' = marks st -> isfree (frames st') i <-> isfree (frames st) i.
Proof. intros Hm. by rewrite !isfree_marks, Hm. Qed.

Lemma marks_length st st' : marks st' = marks st -> length (frames st') = length (frames st).
Proof. intros Hm%(f_equal length). unfold marks in Hm. by rewrite !length_fmap in Hm. Qed.

Lemma wf_snoc lo bl s l : wf lo bl -> (lo <= s)%nat -> (0 < l)%nat ->
  Forall (fun b => b.1 + b.2 < s)%nat bl -> wf lo (bl ++ [(s, l)]).
Proof.
  revert lo. induction bl as [| [a k] r IH]; intros lo Hwf Hlo Hl Hall; cbn in *; [done |].
  apply Forall_cons in Hall as [? Hall]. cbn in *. destruct Hwf as (? & ? & ?).
  split_and!; [done | done |]. apply IH; [done | lia | done | done].
Qed.

Lemma heads_below (i : nat) bl x : Forall (fun b => b.1 + b.2 < i)%nat bl -> x ∈ bl.*1 -> (x < i)%nat.
Proof.
  intros Hall ([s l] & -> & Hel)%list_elem_of_fmap. rewrite Forall_forall in Hall.
  specialize (Hall _ Hel). cbn in *. lia.
Qed.

(** The first [i] frames have been scanned; the blocks [bl] are complete. *)
Record scanned (st0 st : bfc) (i : nat) (bl : list block) (bound : nat) : Prop := {
  sc_marks : marks st = marks st0;
  sc_used : used_pages st = used_pages st0;
  sc_wf : wf 0 bl;
  sc_below : Forall (fun b => b.1 + b.2 < bound)%nat bl;
  sc_cover : forall j, cover bl j <-> (j < bound)%nat /\ isfree (frames st0) j;
  sc_rest : forall j p, (i <= j)%nat -> frames st !! j = Some p -> next p = None;
}.

Inductive progress (st0 st : bfc) (i : nat) : builder -> Prop :=
| outside_run bl pm :
    scanned st0 st i bl i ->
    seg (frames st) None (bfc_free_list st) bl pm None ->
    progress st0 st i (Builder false pm pm 0)
| inside_run bl s pm p :
    scanned st0 st i bl s -> (s < i)%nat ->
    seg (frames st) None (bfc_free_list st) bl pm (Some s) ->
    frames st !! s = Some p -> prev p = pm -> next p = None ->
    (forall j, (s <= j < i)%nat -> isfree (frames st0) j) ->
    progress st0 st i (Builder true (Some s) pm (i - s)).

Lemma scanned_skip st0 st i bl : scanned st0 st i bl i -> ~ isfree (frames st0) i ->
  scanned st0 st (S i) bl (S i).
Proof.
  intros [Hm Hu Hwf Hb Hc Hr] Hnf. constructor; [done | done | done | | |].
  - eapply Forall_impl; [exact Hb |]. cbn. lia.
  - intros j. rewrite Hc. split; [intros []; split; [lia | done] |].
    intros [Hj Hf]. split; [| done]. destruct (decide (j = i)) as [-> | ?]; [done | lia].
  - intros j p Hj. apply Hr. lia.
Qed.

Lemma scanned_touched st0 st st' X i i' bl b : scanned st0 st i bl b -> touched X st st' ->
  marks st' = marks st -> (forall j, X j -> (j < i')%nat) -> (i <= i')%nat -> scanned st0 st' i' bl b.
Proof.
  intros [Hm Hu Hwf Hb Hc Hr] (_ & Hu' & Hf) Hm' HX Hi.
  constructor; [congruence | congruence | done | done | done |].
  intros j p Hj Hp. rewrite Hf in Hp; [by eapply Hr; [| exact Hp]; lia |].
  intros Hx%HX. lia.
Qed.

(** The link that leaves a prefix of the list points at what follows it. *)
Lemma seg_deref st b pm cm : seg (frames st) None (bfc_free_list st) b pm cm -> deref pm st = Some cm.
Proof.
  destruct b as [| [s l] b _] using rev_ind; [by intros [<- <-] |].
  intros Hs. pose proof (seg_last _ _ _ _ _ _ _ _ Hs) as ->.
  apply seg_app in Hs as (? & ? & _ & -> & p & Hp & _ & _ & _ & _ & <-). cbn. by rewrite Hp.
Qed.

(** Closing a run. *)
Lemma close_run st0 st i bl s pm p : scanned st0 st i bl s -> (s < i <= length (frames st0))%nat ->
  seg (frames st) None (bfc_free_list st) bl pm (Some s) ->
  frames st !! s = Some p -> prev p = pm -> next p = None ->
  (forall j, (s <= j < i)%nat -> isfree (frames st0) j) ->
  exists st', upd s (set_cont (i - s)) st = Some st' /\ marks st' = marks st0 /\
    used_pages st' = used_pages st0 /\
    seg (frames st') None (bfc_free_list st') (bl ++ [(s, i - s)%nat]) (Some s) None /\
    wf 0 (bl ++ [(s, i - s)%nat]) /\
    (forall j, cover (bl ++ [(s, i - s)%nat]) j <-> (j < i)%nat /\ isfree (frames st0) j) /\
    (forall j q, (i <= j)%nat -> frames st' !! j = Some q -> next q = None).
Proof.
  intros [Hm Hu Hwf Hb Hc Hr] Hi Hseg Hp Hpr Hnx Hrun.
  destruct (upd_ok s (set_cont (i - s)) st p Hp) as (st' & Hst' & T & Hp' & Hh).
  exists st'. pose proof T as (_ & Hu' & Hf). split_and!; [done | | congruence | | | |].
  - rewrite <- Hm. by eapply upd_marks; [| exact Hst'].
  - apply seg_app. exists pm, (Some s). rewrite Hh. split.
    + eapply seg_touched; [exact T | | exact Hseg]. intros x Hx Hxs.
      apply (heads_below s) in Hx; [lia | done].
    + cbn. split; [done |]. exists (set_cont (i - s) p). split_and!; try done.
      cbn. assert (isfree (frames st) s) as (q & Hq & ?).
      { apply (marks_isfree st0); [done |]. apply Hrun. lia. }
      congruence.
  - apply wf_snoc; [done | lia | lia | done].
  - intros j. rewrite cover_app, Hc, cover_cons. split.
    + intros [[? ?] | [Hj | []%cover_nil]]; [split; [lia | done] |]. split; [lia |]. apply Hrun. lia.
    + intros [? ?]. destruct (decide (j < s)%nat); [by left | right; left; lia].
  - intros j q Hj Hq. rewrite Hf in Hq by lia. by eapply Hr.
Qed.

Lemma build_step_ok st0 st i b : (i < length (frames st0))%nat -> progress st0 st i b ->
  exists b' st', build_step i b st = Some (b', st') /\ progress st0 st' (S i) b'.
Proof.
  intros Hi Hprog. assert (Hm : marks st = marks st0) by (destruct Hprog as [?? []|???? []]; done).
  destruct (lookup_lt_is_Some_2 (frames st) i) as [p Hp]; [by rewrite (marks_length st0 st) |].
  assert (Hfree : isfree (frames st0) i <-> status p = PAGE_FREE).
  { rewrite <- (marks_isfree st0 st) by done. unfold isfree. rewrite Hp. naive_solver. }
  unfold build_step. rewrite Hp. cbn [mbind option_bind].
  destruct Hprog as [bl pm Hsc Hseg | bl s pm q Hsc Hs Hseg Hq Hqp Hqn Hrun]; cbn [in_run b_link b_prev b_cont].
  - destruct (bool_decide_reflect (status p = PAGE_FREE)) as [Hf | Hnf].
    2:{ do 2 eexists. split; [done |]. eapply outside_run; [| exact Hseg].
        apply scanned_skip; [done | tauto]. }
    assert (Hnd : NoDup bl.*1) by (eapply wf_NoDup, sc_wf; exact Hsc).
    destruct (set_link_ok st bl pm None (Some i) Hseg Hnd) as (st1 & E1 & T1 & S1).
    assert (Hpm : forall x, at_ptr pm x -> (x < i)%nat).
    { intros x Hx. eapply heads_below; [exact (sc_below _ _ _ _ _ Hsc) |]. by eapply Refine.seg_ptr_in. }
    assert (Hp1 : frames st1 !! i = Some p).
    { destruct T1 as (_ & _ & ->); [done |]. intros Hx%Hpm. lia. }
    destruct (upd_ok i (set_prev pm) st1 p Hp1) as (st2 & E2 & T2 & Hp2 & Hh2).
    rewrite E1. cbn [mbind option_bind]. rewrite E2. cbn [mbind option_bind].
    do 2 eexists. split; [done |].
    replace 1%nat with (S i - i)%nat by lia. eapply (inside_run _ _ _ bl i pm (set_prev pm p)).
    + eapply scanned_touched; [exact Hsc | exact (touched_trans _ _ _ _ _ T1 T2) | | | lia].
      * rewrite (upd_marks i (set_prev pm) _ _ ltac:(done) E2). by eapply set_link_marks.
      * intros j [Hx%Hpm | <-]; lia.
    + lia.
    + rewrite Hh2. eapply seg_touched; [exact T2 | | exact S1].
      intros x Hx <-. apply (heads_below i) in Hx; [lia | exact (sc_below _ _ _ _ _ Hsc)].
    + done.
    + done.
    + exact (sc_rest _ _ _ _ _ Hsc i p ltac:(lia) Hp).
    + intros j Hj. replace j with i by lia. tauto.
  - destruct (bool_decide_reflect (status p = PAGE_FREE)) as [Hf | Hnf]; cbn [negb].
    + do 2 eexists. split; [done |]. replace (S (i - s)) with (S i - s)%nat by lia.
      eapply (inside_run _ _ _ bl s pm q); try done.
      * eapply scanned_touched; [exact Hsc | apply (touched_refl (fun _ => False)) | done | done | lia].
      * lia.
      * intros j Hj. destruct (decide (j = i)) as [-> | ?]; [tauto | apply Hrun; lia].
    + rewrite (seg_deref _ _ _ _ Hseg). cbn [mbind option_bind].
      destruct (close_run st0 st i bl s pm q Hsc ltac:(lia) Hseg Hq Hqp Hqn Hrun)
        as (st' & -> & Hm' & Hu' & Hseg' & Hwf' & Hc' & Hr'). cbn [mbind option_bind].
      do 2 eexists. split; [done |]. eapply outside_run; [| exact Hseg'].
      constructor; [done | done | done | | | by intros j r Hj; apply Hr'; lia].
      * apply Forall_app. split; [| apply Forall_singleton; cbn; lia].
        eapply Forall_impl; [exact (sc_below _ _ _ _ _ Hsc) |]. cbn. lia.
      * intros j. rewrite Hc'. split; [intros []; split; [lia | done] |]. intros [Hj Hjf].
        split; [| done]. destruct (decide (j = i)) as [-> | ?]; [tauto | lia].
Qed.

Lemma build_loop_ok st0 count : forall i b st, (i + count = length (frames st0))%nat ->
  progress st0 st i b ->
  exists b' st', build_loop count i b st = Some (b', st') /\ progress st0 st' (i + count) b'.
Proof.
  induction count as [| count IH]; intros i b st Hlen Hp; cbn [build_loop].
  - do 2 eexists. split; [done |]. by rewrite Nat.add_0_r.
  - destruct (build_step_ok st0 st i b ltac:(lia) Hp) as (b' & st' & -> & Hp').
    cbn [mbind option_bind]. rewrite <- Nat.add_succ_comm. apply IH; [lia | done].
Qed.

Lemma build_free_list_ok st0 : unlinked (frames st0) -> bfc_free_list st0 = None ->
  exists st bl, build_free_list st0 = Some st /\ rep st bl /\ marks st = marks st0 /\
    used_pages st = used_pages st0 /\ forall i, cover bl i <-> isfree (frames st0) i.
Proof.
  intros Hu Hh. unfold build_free_list.
  destruct (build_loop_ok st0 (length (frames st0)) 0 (Builder false None None 0) st0 eq_refl)
    as (b & st & -> & Hp).
  { eapply (outside_run _ _ _ []); [| by rewrite Hh].
    constructor; [done | done | done | constructor | |].
    - intros j. split; [by intros ?%cover_nil | lia].
    - intros j p _ Hp. unfold unlinked in Hu. rewrite Forall_lookup in Hu. by eapply Hu. }
  cbn [mbind option_bind]. cbn [Nat.add] in Hp.
  assert (Hlt : forall i, isfree (frames st0) i -> (i < length (frames st0))%nat)
    by (intros i (p & Hp' & _); by eapply lookup_lt_Some).
  assert (Hin : forall st bl, marks st = marks st0 -> wf 0 bl ->
    (forall j, cover bl j -> (j < length (frames st0))%nat) -> inside (length (frames st)) bl).
  { intros st1 bl Hm Hwf Hc. rewrite (marks_length st0 st1 Hm). apply Forall_forall. intros [s l] Hel.
    destruct (wf_elem _ _ _ _ Hwf Hel). specialize (Hc (s + l - 1)%nat). cbn.
    enough (s + l - 1 < length (frames st0))%nat by lia. apply Hc, Exists_exists.
    exists (s, l). split; [done |]. unfold covers. cbn. lia. }
  destruct Hp as [bl pm Hsc Hseg | bl s pm q Hsc Hs Hseg Hq Hqp Hqn Hrun]; cbn [in_run b_link b_cont].
  - exists st, bl. destruct Hsc as [Hm Hus Hwf Hb Hc Hr]. split_and!; [done | | done | done |].
    + constructor; [done | apply Hin; [done | done | naive_solver] | by exists pm].
    + intros i. rewrite Hc. naive_solver.
  - rewrite (seg_deref _ _ _ _ Hseg). cbn [mbind option_bind].
    destruct (close_run st0 st _ bl s pm q Hsc ltac:(lia) Hseg Hq Hqp Hqn Hrun)
      as (st' & -> & Hm' & Hu' & Hseg' & Hwf' & Hc' & Hr').
    eexists st', _. split_and!; [done | | done | done |].
    + constructor; [done | apply Hin; [done | done | naive_solver] | by eexists].
    + intros i. rewrite Hc'. naive_solver.
Qed.

(** ** Theorems *)

(** A machine with 32 pages of conventional memory, the kernel image at
    0x10000 and page tables up to 0x14000. *)
Definition demo_boot : boot := Boot
  [EfiDesc 7 0 32; EfiDesc 11 0xFE000000 16] 0x10000 0x14000 true 0x1C000 0x2000.
Definition demo_bump : bump := Bump 0 false 0.

(**  [init_mem] never faults, and the free list it builds is well formed
    and holds exactly the conventional pages below the direct-map cap that
    are not the trampoline page, not in the stolen graphics memory and not
    between the start of the kernel image and the end of the boot-time
    allocations.  Every maximal run of such pages is one block. *)
Theorem init_mem_free_pages bi b : bump_disabled b = false ->
  exists st b' bl, init_mem bi b = Some (st, b') /\ rep st bl /\
    length (frames st) = total_page_frames bi /\
    forall i, cover bl i <-> usable bi (bump_next_phys b') i.
Proof.
  intros Hb. unfold init_mem, bump_alloc, bump_init_phys. cbn [bump_disabled]. rewrite Hb.
  cbn [mbind option_bind bump_next_phys bump_set_accounted].
  set (e := u64 _). destruct (mark_frames_ok bi e) as (Hl & Hu & Hf).
  destruct (build_free_list_ok (Bfc (mark_frames bi e) None 0) Hu eq_refl)
    as (st & bl & -> & Hrep & Hm & _ & Hc).
  cbn [mbind option_bind]. eexists st, _, bl. split_and!; [done | done | |].
  - by rewrite (marks_length _ _ Hm).
  - intros i. rewrite Hc. apply Hf.
Qed.

Lemma init_mem_free_pages_witness :
  exists st b', init_mem demo_boot demo_bump = Some (st, b') /\
    rep st [(0, 8); (9, 7); (21, 7); (30, 2)]%nat.
Proof.
  destruct (init_mem_free_pages demo_boot demo_bump eq_refl) as (st & b' & bl & Hi & Hrep & _).
  exists st, b'. split; [exact Hi |].
  replace [(0, 8); (9, 7); (21, 7); (30, 2)]%nat with bl; [exact Hrep |].
  destruct Hrep as [_ _ (last & Hseg)]. vm_compute in Hi. injection Hi as <- <-. revert Hseg.
  cbn -[seg]. clear.
  repeat (destruct bl as [| [? ?] bl]; cbn [seg];
    [try (intros [_ ?]; done); try done
    | intros ([= <-] & p & Hp & _ & Hc & _ & Hseg); cbn in Hp; injection Hp as <-;
      cbn in Hc, Hseg; subst; revert Hseg]).
Defined.

(**  A page taken from the bump allocator after [init_mem] is still on the
    free list after [bump_disable], which only changes the page's status: the
    next allocation that reaches its block returns the page again. *)
Theorem bump_page_reissued :
  exists st b b1 st1 b2 st2 phys,
    init_mem demo_boot demo_bump = Some (st, b) /\
    bump_alloc PAGE_SIZE b = Some (b1, phys) /\
    bump_disable st b1 = (st1, b2) /\
    status <$> frames st1 !! Z.to_nat (PHY_TO_PAGE phys) = Some PAGE_USED /\
    run_opt Refine.exec (st1, []) [Refine.RAlloc 8; Refine.RAlloc 7] = Some st2 /\
    exists st3, bfc_alloc_page 1 st2.1 = Some (st3, Some (Z.to_nat (PHY_TO_PAGE phys))).
Proof. do 7 eexists. split_and!; [by vm_compute ..|]. eexists. by vm_compute. Qed.
