(* ===== verification/Slab.v ===== *)
(** * The slab allocator (kernel/xcore/mem/slab.c, slab.h)

    Objects of nine size classes and of dedicated caches, carved out of pages
    of the page allocator; larger requests are blocks of pages.  The free
    objects of a page are linked through their own first eight bytes, so the
    model has the bytes of memory, and clients write anything they like into
    the objects they hold.

    A [struct page *] is an index into [bfc_frames] and the [slab] member of
    its union is [kh_slab]; a [kmem_cache *] is the class number for the nine
    caches of [kmalloc], the address of the control block for the others.
    [debug] says whether the kernel is built without NDEBUG, when objects are
    filled with 0xAA as they are handed out and taken back.  An operation holds
    the lock of its cache throughout and is one step. *)
From S2P Require Import Prelude Bfc.
Import Bfc.Blocks Bfc.Rep Bfc.Refine.

(** ** Data *)

Definition NUM_KMALLOC_CLASSES : Z := 9.
Definition class_sizes : list Z := [8; 16; 32; 64; 128; 256; 512; 1024; 2048].

Definition size_to_class (size : Z) : Z :=
  if size <=? 8 then 0
  else if size <=? 16 then 1
  else if size <=? 32 then 2
  else if size <=? 64 then 3
  else if size <=? 128 then 4
  else if size <=? 256 then 5
  else if size <=? 512 then 6
  else if size <=? 1024 then 7
  else 8.

Record kmem_cache := KmemCache {
  obj_size : Z;
  partial : ptr;
}.

(** [sizeof(kmem_cache)]. *)
Definition KMEM_CACHE_SIZE : Z := 32.

(** The [slab] member of [struct page]. *)
Record slab_page := SlabPage {
  sp_cache : Z;
  freelist : Z;
  inuse : Z;
  obj_count : Z;
  cpu_id : Z;
  partial_next : ptr;
  partial_prev : ptr;
}.

Definition set_links (n p : ptr) (d : slab_page) : slab_page :=
  SlabPage (sp_cache d) (freelist d) (inuse d) (obj_count d) (cpu_id d) n p.
Definition set_objs (fl n : Z) (d : slab_page) : slab_page :=
  SlabPage (sp_cache d) fl n (obj_count d) (cpu_id d) (partial_next d) (partial_prev d).
Definition set_cpu (cpu : Z) (d : slab_page) : slab_page :=
  SlabPage (sp_cache d) (freelist d) (inuse d) (obj_count d) cpu (partial_next d) (partial_prev d).

(** The allocator, the memory it manages (bytes by virtual address) and the
    counters of [kernel_mem_stats], which are of type [int]. *)
Record kheap := KHeap {
  kh_bfc : bfc;
  kh_slab : gmap nat slab_page;
  kh_mem : gmap Z Z;
  kh_caches : gmap Z kmem_cache;     (* kmalloc_caches and the dedicated ones *)
  kh_active : gmap (Z * Z) nat;      (* cpu_locals[cpu].active_slab[class] *)
  kmalloc_calls : Z;
  kfree_calls : Z;
  slab_used_bytes : Z;
}.

Definition with_bfc b s := KHeap b (kh_slab s) (kh_mem s) (kh_caches s) (kh_active s) (kmalloc_calls s) (kfree_calls s) (slab_used_bytes s).
Definition with_slab d s := KHeap (kh_bfc s) d (kh_mem s) (kh_caches s) (kh_active s) (kmalloc_calls s) (kfree_calls s) (slab_used_bytes s).
Definition with_mem m s := KHeap (kh_bfc s) (kh_slab s) m (kh_caches s) (kh_active s) (kmalloc_calls s) (kfree_calls s) (slab_used_bytes s).
Definition with_caches c s := KHeap (kh_bfc s) (kh_slab s) (kh_mem s) c (kh_active s) (kmalloc_calls s) (kfree_calls s) (slab_used_bytes s).
Definition with_active a s := KHeap (kh_bfc s) (kh_slab s) (kh_mem s) (kh_caches s) a (kmalloc_calls s) (kfree_calls s) (slab_used_bytes s).
Definition with_stats m f u s := KHeap (kh_bfc s) (kh_slab s) (kh_mem s) (kh_caches s) (kh_active s) m f u.

Definition hp (A : Type) : Type := prog kheap A.

(** [BUG_ON] or a failed [ASSERT]. *)
Definition bug {A} : hp A := fun _ => None.

Definition get_slab (i : nat) : hp slab_page := fun s => d ← kh_slab s !! i; Some (d, s).
Definition put_slab (i : nat) (d : slab_page) : hp () := fun s => Some ((), with_slab (<[i := d]> (kh_slab s)) s).
Definition get_cache (c : Z) : hp kmem_cache := fun s => k ← kh_caches s !! c; Some (k, s).
Definition put_cache (c : Z) (k : kmem_cache) : hp () := fun s => Some ((), with_caches (<[c := k]> (kh_caches s)) s).

(** [memstat_inc], [memstat_add] and [memstat_sub]. *)
Definition count_kmalloc : hp () := fun s =>
  Some ((), with_stats (s32 (kmalloc_calls s + 1)) (kfree_calls s) (slab_used_bytes s) s).
Definition count_kfree : hp () := fun s =>
  Some ((), with_stats (kmalloc_calls s) (s32 (kfree_calls s + 1)) (slab_used_bytes s) s).
Definition count_bytes (n : Z) : hp () := fun s =>
  Some ((), with_stats (kmalloc_calls s) (kfree_calls s) (s32 (slab_used_bytes s + n)) s).

(** ** Memory *)

(** boot/boot.h: start of the direct map. *)
Definition VMA_BASE : Z := 0xFFFFFF8000000000.

(** [phys_to_virt(page_to_phys(&bfc_frames[i]))] and [PHY_TO_PAGE(PHY_ADDR(a))]. *)
Definition page_addr (i : nat) : Z := VMA_BASE + Z.of_nat i * PAGE_SIZE.
Definition page_of (a : Z) : nat := Z.to_nat (PHY_TO_PAGE (u64 (a - VMA_BASE))).

(** Only the direct map of existing page frames can be accessed. *)
Definition mapped (s : kheap) (a n : Z) : bool :=
  (VMA_BASE <=? a) && (a + n <=? page_addr (length (frames (kh_bfc s)))).

Definition byte (m : gmap Z Z) (a : Z) : Z := default 0 (m !! a).

(** Eight bytes, the least significant first. *)
Fixpoint load_le (n : nat) (m : gmap Z Z) (a : Z) : Z :=
  match n with O => 0 | S n' => byte m a + 2 ^ 8 * load_le n' m (a + 1) end.
Fixpoint store_le (n : nat) (v : Z) (m : gmap Z Z) (a : Z) : gmap Z Z :=
  match n with O => m | S n' => store_le n' (Z.shiftr v 8) (<[a := u8 v]> m) (a + 1) end.

Definition load_ptr (a : Z) : hp Z := fun s => if mapped s a 8 then Some (load_le 8 (kh_mem s) a, s) else None.
Definition store_ptr (a v : Z) : hp () := fun s =>
  if mapped s a 8 then Some ((), with_mem (store_le 8 v (kh_mem s) a) s) else None.

(** [for (i = 0; i < n; i++) dst[i] = v] and [... dst[i] = src[i]]. *)
Fixpoint fill (n : nat) (v : Z) (m : gmap Z Z) (dst : Z) : gmap Z Z :=
  match n with O => m | S n' => fill n' v (<[dst := v]> m) (dst + 1) end.
Fixpoint copy (n : nat) (src : Z) (m : gmap Z Z) (dst : Z) : gmap Z Z :=
  match n with O => m | S n' => copy n' (src + 1) (<[dst := byte m src]> m) (dst + 1) end.

Definition memset (a v n : Z) : hp () := fun s =>
  if mapped s a n then Some ((), with_mem (fill (Z.to_nat n) v (kh_mem s) a) s) else None.
Definition memcpy (dst src n : Z) : hp () := fun s =>
  if mapped s dst n && mapped s src n then Some ((), with_mem (copy (Z.to_nat n) src (kh_mem s) dst) s) else None.

(** [bfc_alloc_page] and [bfc_free_page] on the page descriptors. *)
Definition alloc_pages (n : Z) : hp ptr := fun s =>
  r ← bfc_alloc_page (Z.to_nat n) (kh_bfc s); Some (r.2, with_bfc r.1 s).
Definition free_pages (i n : nat) : hp () := fun s =>
  r ← bfc_free_page (Some i) n (kh_bfc s); Some ((), with_bfc r.1 s).
Definition get_frame (i : nat) : hp page := fun s => p ← frames (kh_bfc s) !! i; Some (p, s).

(** ** Slab pages *)

(** Link the objects from [i] on into the list. *)
Fixpoint init_objs (n : nat) (base size i fl : Z) : hp Z :=
  match n with
  | O => mret fl
  | S n' =>
      let obj := base + i * size in
      _ ← store_ptr obj fl;
      init_objs n' base size (i + 1) obj
  end.

Definition s8 (x : Z) : Z := (x + 2 ^ 7) mod 2 ^ 8 - 2 ^ 7.

Definition slab_page_init (i : nat) (c cpu : Z) : hp () :=
  k ← get_cache c;
  _ ← (fun s => b ← upd i (set_status PAGE_SLAB) (kh_bfc s); Some ((), with_bfc b s));
  let n := PAGE_SIZE / obj_size k in
  _ ← put_slab i (SlabPage c 0 0 n (s8 cpu) None None);
  fl ← init_objs (Z.to_nat n) (page_addr i) (obj_size k) 0 0;
  d ← get_slab i;
  put_slab i (set_objs fl (inuse d) d).

(** ** The list of pages with free objects *)

Definition partial_add (c : Z) (i : nat) : hp () :=
  k ← get_cache c;
  d ← get_slab i;
  _ ← put_slab i (set_links (partial k) None d);
  _ ← (match partial k with
       | Some j => dj ← get_slab j; put_slab j (set_links (partial_next dj) (Some i) dj)
       | None => mret ()
       end);
  put_cache c (KmemCache (obj_size k) (Some i)).

Definition partial_remove (c : Z) (i : nat) : hp () :=
  d ← get_slab i;
  _ ← (match partial_prev d with
       | Some j => dj ← get_slab j; put_slab j (set_links (partial_next d) (partial_prev dj) dj)
       | None => k ← get_cache c; put_cache c (KmemCache (obj_size k) (partial_next d))
       end);
  d ← get_slab i;
  _ ← (match partial_next d with
       | Some j => dj ← get_slab j; put_slab j (set_links (partial_next dj) (partial_prev d) dj)
       | None => mret ()
       end);
  d ← get_slab i;
  put_slab i (set_links None None d).

(** [while (cache->partial)]: drop full pages from the list and take the first
    one that is not.  Every iteration but the last two cuts a link, and there
    are at most 2^27 pages in the direct map. *)
Definition take_partial_step (c : Z) (_ : ()) : hp (() + ptr) :=
  k ← get_cache c;
  match partial k with
  | None => mret (inr None)
  | Some i =>
      d ← get_slab i;
      _ ← partial_remove c i;
      mret (if freelist d =? 0 then inl () else inr (Some i))
  end.

Definition take_partial (c : Z) : hp ptr := ploop 28 (take_partial_step c) ().

(** ** Objects *)

Section build.
Context (debug : bool).

Definition SLAB_POISON_VALUE : Z := 0xAA.

(** [slab_poison_alloc] and [slab_poison_free]. *)
Definition slab_poison (obj size : Z) : hp () := if debug then memset obj SLAB_POISON_VALUE size else mret ().

(** The object at the head of the list of page [i] is taken; then, after the
    lock is released, filled and counted. *)
Definition take_obj (i : nat) (size : Z) : hp Z :=
  d ← get_slab i;
  let obj := freelist d in
  nxt ← load_ptr obj;
  _ ← put_slab i (set_objs nxt (u32 (inuse d + 1)) d);
  _ ← slab_poison obj size;
  _ ← count_bytes (s32 size);
  mret obj.

(** The list of the cache, then a new page. *)
Definition kmalloc_slow (cpu c : Z) (k : kmem_cache) : hp Z :=
  r ← take_partial c;
  match r with
  | Some i =>
      d ← get_slab i;
      _ ← put_slab i (set_cpu (s8 cpu) d);
      _ ← (fun s => Some ((), with_active (<[(cpu, c) := i]> (kh_active s)) s));
      take_obj i (obj_size k)
  | None =>
      r ← alloc_pages 1;
      match r with
      | None => mret 0
      | Some i =>
          _ ← slab_page_init i c cpu;
          _ ← (fun s => Some ((), with_active (<[(cpu, c) := i]> (kh_active s)) s));
          take_obj i (obj_size k)
      end
  end.

(** The path for sizes up to 2048. *)
Definition kmalloc_small (cpu c : Z) : hp Z :=
  k ← get_cache c;
  active ← (fun s => Some (kh_active s !! (cpu, c), s));
  match active with
  | Some i =>
      d ← get_slab i;
      if freelist d =? 0 then kmalloc_slow cpu c k else take_obj i (obj_size k)
  | None => kmalloc_slow cpu c k
  end.

(** [cpu] is the processor the caller runs on. *)
Definition kmalloc (cpu size : Z) : hp Z :=
  if size =? 0 then mret 0
  else
    _ ← count_kmalloc;
    if 2048 <? size then
      let npages := u64 (size + PAGE_SIZE - 1) / PAGE_SIZE in
      r ← alloc_pages npages;
      match r with
      | None => mret 0
      | Some i => _ ← count_bytes (s32 (npages * PAGE_SIZE)); mret (page_addr i)
      end
    else kmalloc_small cpu (size_to_class size).

(** Give the object back to page [i]. *)
Definition put_obj (c : Z) (i : nat) (size obj : Z) : hp () :=
  d ← get_slab i;
  _ ← store_ptr obj (freelist d);
  _ ← put_slab i (set_objs obj (u32 (inuse d - 1)) d);
  _ ← count_bytes (- s32 size);
  d ← get_slab i;
  if inuse d =? u32 (obj_count d - 1) then partial_add c i else mret ().

(** The two branches of the code, for objects of this and of another
    processor, are the same. *)
Definition kfree (a : Z) : hp () :=
  if a =? 0 then mret ()
  else
    _ ← count_kfree;
    let i := page_of a in
    p ← get_frame i;
    match status p with
    | PAGE_USED =>
        _ ← count_bytes (- s32 (Z.of_nat (cont_page_num p) * PAGE_SIZE));
        free_pages i (cont_page_num p)
    | PAGE_SLAB =>
        d ← get_slab i;
        k ← get_cache (sp_cache d);
        _ ← slab_poison a (obj_size k);
        put_obj (sp_cache d) i (obj_size k) a
    | _ => bug
    end.

Definition kcalloc (cpu n size : Z) : hp Z :=
  if negb (n =? 0) && negb (size =? 0) && (UINT64_MAX / size <? n) then mret 0
  else
    let total := u64 (n * size) in
    p ← kmalloc cpu total;
    _ ← (if p =? 0 then mret () else memset p 0 total);
    mret p.

Definition krealloc (cpu a new_size : Z) : hp Z :=
  if a =? 0 then kmalloc cpu new_size
  else if new_size =? 0 then _ ← kfree a; mret 0
  else
    let i := page_of a in
    p ← get_frame i;
    old_size ← (if bool_decide (status p = PAGE_SLAB)
                then d ← get_slab i; k ← get_cache (sp_cache d); mret (obj_size k)
                else mret (Z.of_nat (cont_page_num p) * PAGE_SIZE));
    new_ptr ← kmalloc cpu new_size;
    if new_ptr =? 0 then mret 0
    else
      _ ← memcpy new_ptr a (Z.min old_size new_size);
      _ ← kfree a;
      mret new_ptr.

(** ** Dedicated caches *)

Definition kmem_cache_create (cpu size : Z) : hp Z :=
  if (size =? 0) || (PAGE_SIZE / 2 <? size) then mret 0
  else
    cache ← kmalloc cpu KMEM_CACHE_SIZE;
    if cache =? 0 then mret 0
    else _ ← put_cache cache (KmemCache size None); mret cache.

(** The path without a page on the list: the new page is put there with one
    object in use. *)
Definition cache_grow (c size : Z) : hp Z :=
  r ← alloc_pages 1;
  match r with
  | None => mret 0
  | Some i =>
      _ ← slab_page_init i c (-1);
      d ← get_slab i;
      let obj := freelist d in
      nxt ← load_ptr obj;
      _ ← put_slab i (set_objs nxt (u32 (inuse d + 1)) d);
      _ ← partial_add c i;
      _ ← slab_poison obj size;
      _ ← count_bytes (s32 size);
      mret obj
  end.

Definition kmem_cache_alloc (c : Z) : hp Z :=
  k ← get_cache c;
  r ← take_partial c;
  match r with
  | Some i => take_obj i (obj_size k)
  | None => cache_grow c (obj_size k)
  end.

Definition kmem_cache_free (c obj : Z) : hp () :=
  if obj =? 0 then mret ()
  else
    _ ← count_kfree;
    let i := page_of obj in
    p ← get_frame i;
    if bool_decide (status p = PAGE_SLAB) then
      k ← get_cache c;
      _ ← slab_poison obj (obj_size k);
      put_obj c i (obj_size k) obj
    else bug.
End build.

(** ** Initialisation *)

Definition slab_init (b : bfc) (mem : gmap Z Z) : kheap :=
  KHeap (Bfc (frames b) (bfc_free_list b) 0) ∅ mem
    (list_to_map (zip (Z.of_nat <$> seq 0 9) ((fun n => KmemCache n None) <$> class_sizes))) ∅ 0 0 0.

(** ** Memory lemmas *)

Lemma byte_insert m a v x : byte (<[a := v]> m) x = if decide (x = a) then v else byte m x.
Proof.
  unfold byte. destruct (decide (x = a)) as [-> | Hne].
  - by rewrite lookup_insert_eq.
  - by rewrite lookup_insert_ne by done.
Qed.

Lemma store_le_other n : forall v m a x, x < a \/ a + Z.of_nat n <= x -> byte (store_le n v m a) x = byte m x.
Proof.
  induction n as [| n IH]; intros v m a x Hx; [done |]. cbn [store_le].
  rewrite IH by lia. rewrite byte_insert. by rewrite decide_False by lia.
Qed.

Lemma load_le_ext n : forall m m' a, (forall x, a <= x < a + Z.of_nat n -> byte m' x = byte m x) ->
  load_le n m' a = load_le n m a.
Proof.
  induction n as [| n IH]; intros m m' a Hx; [done |]. cbn [load_le].
  rewrite (Hx a) by lia. f_equal. f_equal. apply IH. intros x ?. apply Hx. lia.
Qed.

Lemma load_store_le n : forall v m a, 0 <= v < 2 ^ (8 * Z.of_nat n) -> load_le n (store_le n v m a) a = v.
Proof.
  induction n as [| n IH]; intros v m a Hv; [cbn in *; lia |].
  replace (8 * Z.of_nat (S n)) with (8 * Z.of_nat n + 8) in Hv by lia. rewrite Z.pow_add_r in Hv by lia.
  cbn [store_le load_le]. rewrite store_le_other by lia. rewrite byte_insert, decide_True by done.
  rewrite IH.
  - rewrite Z.shiftr_div_pow2 by lia. unfold u8. pose proof (Z.div_mod v (2 ^ 8)). lia.
  - rewrite Z.shiftr_div_pow2 by lia. split; [apply Z.div_pos; lia |]. apply Z.div_lt_upper_bound; lia.
Qed.

Lemma fill_spec n : forall v m a x, byte (fill n v m a) x = if decide (a <= x < a + Z.of_nat n) then v else byte m x.
Proof.
  induction n as [| n IH]; intros v m a x; cbn [fill]; [by rewrite decide_False by lia |].
  rewrite IH, byte_insert. repeat case_decide; (done || lia).
Qed.

Lemma copy_spec n : forall src m dst x, (src + Z.of_nat n <= dst \/ dst + Z.of_nat n <= src) ->
  byte (copy n src m dst) x =
  if decide (dst <= x < dst + Z.of_nat n) then byte m (src + (x - dst)) else byte m x.
Proof.
  induction n as [| n IH]; intros src m dst x Hd; cbn [copy]; [by rewrite decide_False by lia |].
  rewrite IH by lia. rewrite !byte_insert. repeat case_decide; try lia; f_equal; lia.
Qed.

(** The list of free objects of a page, linked through memory. *)
Fixpoint chain (m : gmap Z Z) (fl : Z) (F : list Z) : Prop :=
  match F with
  | [] => fl = 0
  | a :: F' => fl = a /\ 0 < a < 2 ^ 64 /\ chain m (load_le 8 m a) F'
  end.

Lemma chain_ext m m' F : forall fl, (forall a x, a ∈ F -> a <= x < a + 8 -> byte m' x = byte m x) ->
  chain m fl F -> chain m' fl F.
Proof.
  induction F as [| a F IH]; intros fl Hm; [done |]. intros (-> & Ha & Hc). split; [done |]. split; [done |].
  rewrite (load_le_ext 8 m m' a) by (intros x ?; apply (Hm a); [left | lia]).
  apply IH; [| done]. intros b x Hb. apply Hm. by right.
Qed.

Lemma chain_nil_iff m fl F : chain m fl F -> fl = 0 <-> F = [].
Proof. destruct F as [| a F]; [intros ->; done |]. intros (-> & ? & _). split; [lia | done]. Qed.

(** ** The objects of a page *)

Definition is_obj (i : nat) (sz a : Z) : Prop := exists k, 0 <= k < PAGE_SIZE / sz /\ a = page_addr i + k * sz.

Lemma obj_in_page i sz a : 0 < sz -> is_obj i sz a -> page_addr i <= a /\ a + sz <= page_addr i + PAGE_SIZE.
Proof.
  intros Hsz (k & Hk & ->). pose proof (Z.mul_div_le PAGE_SIZE sz Hsz). nia.
Qed.

Lemma obj_spaced i sz a b : 0 < sz -> is_obj i sz a -> is_obj i sz b -> a <> b -> a + sz <= b \/ b + sz <= a.
Proof.
  intros Hsz (k & Hk & ->) (j & Hj & ->) Hne.
  assert (k <> j) by congruence. destruct (decide (k < j)); [left | right]; nia.
Qed.

Lemma page_of_in i a : page_addr i <= a < page_addr i + PAGE_SIZE -> Z.of_nat i * PAGE_SIZE < 2 ^ 39 -> page_of a = i.
Proof.
  unfold page_of, page_addr, PHY_TO_PAGE, PAGE_SIZE, PAGE_SHIFT. intros Ha Hi.
  rewrite u64_small by lia. rewrite Z.shiftr_div_pow2 by lia. change (2 ^ 12) with 4096.
  assert ((a - VMA_BASE) / 4096 = Z.of_nat i) as ->; [| lia].
  symmetry. apply (Z.div_unique_pos _ _ _ (a - VMA_BASE - 4096 * Z.of_nat i)); lia.
Qed.

(** ** The invariant *)

(** What the caller holds: an object of a cache (which may be the control
    block of another cache), a block of pages from [kmalloc], or pages taken
    from the page allocator directly. *)
Inductive owner := Obj (c sz : Z) (control : bool) | Large (n : nat) | Raw (n : nat).

Definition extent (o : owner) : Z :=
  match o with Obj _ sz _ => sz | Large n => Z.of_nat n * PAGE_SIZE | Raw n => Z.of_nat n * PAGE_SIZE end.
Definition block_of (o : owner) : option nat :=
  match o with Obj _ _ _ => None | Large n => Some n | Raw n => Some n end.
(** What it counts for in [slab_used_bytes]. *)
Definition charge (o : owner) : Z :=
  match o with Obj _ sz _ => sz | Large n => Z.of_nat n * PAGE_SIZE | Raw _ => 0 end.
Definition charged (g : gmap Z owner) : Z := map_fold (fun _ o n => charge o + n) 0 g.

(** A slab page without its list links. *)
Record view := View { v_cache : Z; v_free : Z; v_inuse : Z; v_count : Z }.
Definition view_of (d : slab_page) : view := View (sp_cache d) (freelist d) (inuse d) (obj_count d).
Definition views (s : kheap) : gmap nat view := view_of <$> kh_slab s.
Definition sizes (s : kheap) : gmap Z Z := obj_size <$> kh_caches s.

(** The free objects [F] of page [i] are linked, and are those nobody holds. *)
Definition page_ok (b : bfc) (bl : list block) (m : gmap Z Z) (S : gmap Z Z) (g : gmap Z owner) (i : nat) (v : view) : Prop :=
  exists p sz F, frames b !! i = Some p /\ status p = PAGE_SLAB /\ ~ cover bl i /\
    S !! v_cache v = Some sz /\ v_count v = PAGE_SIZE / sz /\
    v_inuse v = v_count v - Z.of_nat (length F) /\ chain m (v_free v) F /\ NoDup F /\
    forall a, a ∈ F <-> is_obj i sz a /\ g !! a = None.

Definition block_ok (b : bfc) (bl : list block) (a : Z) (n : nat) : Prop :=
  exists i p, a = page_addr i /\ (0 < n)%nat /\ frames b !! i = Some p /\ cont_page_num p = n /\
    forall j, (i <= j < i + n)%nat -> ~ cover bl j /\ exists q, frames b !! j = Some q /\ status q = PAGE_USED.

Record core (bl : list block) (b : bfc) (V : gmap nat view) (m S : gmap Z Z) (u : Z) (g : gmap Z owner) : Prop := {
  c_rep : rep b bl;
  c_mapped : Z.of_nat (length (frames b)) * PAGE_SIZE <= 2 ^ 39;
  c_page : forall i v, V !! i = Some v -> page_ok b bl m S g i v;
  c_sizes : forall c sz, S !! c = Some sz -> 8 <= sz <= 2048;
  c_class : forall c, 0 <= c < NUM_KMALLOC_CLASSES -> S !! c = class_sizes !! Z.to_nat c;
  c_control : forall c sz, S !! c = Some sz -> 0 <= c < NUM_KMALLOC_CLASSES \/ exists sz', g !! c = Some (Obj 2 sz' true);
  c_obj : forall a c sz ctl, g !! a = Some (Obj c sz ctl) -> exists i v, V !! i = Some v /\ v_cache v = c /\ S !! c = Some sz /\ is_obj i sz a;
  c_block : forall a o n, g !! a = Some o -> block_of o = Some n -> block_ok b bl a n;
  c_blocks : forall a o n a' o' n', g !! a = Some o -> block_of o = Some n -> g !! a' = Some o' -> block_of o' = Some n' ->
    a <> a' -> a + Z.of_nat n * PAGE_SIZE <= a' \/ a' + Z.of_nat n' * PAGE_SIZE <= a;
  c_used : u = s32 (charged g);
}.

Definition heap_core (bl : list block) (s : kheap) : gmap Z owner -> Prop :=
  core bl (kh_bfc s) (views s) (kh_mem s) (sizes s) (slab_used_bytes s).

(** The list pointers and the active pages lead to pages of the right cache;
    nothing more is true of them. *)
Definition in_cache (s : kheap) (c : Z) (i : nat) : Prop := exists v, views s !! i = Some v /\ v_cache v = c.

Record links (s : kheap) : Prop := {
  l_partial : forall c k i, kh_caches s !! c = Some k -> partial k = Some i -> in_cache s c i;
  l_next : forall i d j, kh_slab s !! i = Some d -> partial_next d = Some j -> in_cache s (sp_cache d) j;
  l_prev : forall i d j, kh_slab s !! i = Some d -> partial_prev d = Some j -> in_cache s (sp_cache d) j;
  l_active : forall cpu c i, kh_active s !! (cpu, c) = Some i -> in_cache s c i;
}.

Definition heap_ok (s : kheap) (g : gmap Z owner) : Prop := links s /\ exists bl, heap_core bl s g.

Section separation.
Context {bl : list block} {b : bfc} {V : gmap nat view} {m S : gmap Z Z} {u : Z} {g : gmap Z owner}.
Hypothesis HC : core bl b V m S u g.

Lemma page_bound i v : V !! i = Some v -> Z.of_nat i * PAGE_SIZE < 2 ^ 39.
Proof using HC.
  intros Hv. destruct (c_page _ _ _ _ _ _ _ HC i v Hv) as (p & _ & _ & Hp & _).
  pose proof (lookup_lt_Some _ _ _ Hp). pose proof (c_mapped _ _ _ _ _ _ _ HC). unfold PAGE_SIZE in *. lia.
Qed.

Lemma page_size_ok i v sz : V !! i = Some v -> S !! v_cache v = Some sz -> 8 <= sz <= 2048.
Proof using HC. intros _. apply (c_sizes _ _ _ _ _ _ _ HC). Qed.

(** A block of pages has no slab page. *)
Lemma block_not_slab a o n i v : g !! a = Some o -> block_of o = Some n -> V !! i = Some v ->
  a + Z.of_nat n * PAGE_SIZE <= page_addr i \/ page_addr i + PAGE_SIZE <= a.
Proof using HC.
  intros Ha Hn Hv. destruct (c_block _ _ _ _ _ _ _ HC a o n Ha Hn) as (j & q & -> & Hpos & _ & _ & Hj).
  destruct (c_page _ _ _ _ _ _ _ HC i v Hv) as (p & _ & _ & Hp & Hst & _).
  destruct (decide (j <= i < j + n)%nat) as [Hin | Hout].
  - destruct (Hj i Hin) as (_ & q' & Hq & Hu). congruence.
  - unfold page_addr, PAGE_SIZE. lia.
Qed.

Lemma live_place a o : g !! a = Some o ->
  (exists i v sz, V !! i = Some v /\ S !! v_cache v = Some sz /\ is_obj i sz a /\ extent o = sz /\
     page_addr i <= a /\ a + sz <= page_addr i + PAGE_SIZE /\ 0 < sz) \/
  (exists n, block_of o = Some n /\ extent o = Z.of_nat n * PAGE_SIZE).
Proof using HC.
  intros Ha. destruct o as [c sz ctl | n | n]; [left | right; by exists n ..].
  destruct (c_obj _ _ _ _ _ _ _ HC a c sz ctl Ha) as (i & v & Hv & <- & Hs & Ho).
  pose proof (c_sizes _ _ _ _ _ _ _ HC _ _ Hs). pose proof (obj_in_page i sz a ltac:(lia) Ho).
  exists i, v, sz. split_and!; (done || lia).
Qed.

(** An object that is held does not meet an object on a list. *)
Lemma free_sep i v sz f a o : V !! i = Some v -> S !! v_cache v = Some sz -> is_obj i sz f -> g !! f = None ->
  g !! a = Some o -> a + extent o <= f \/ f + sz <= a.
Proof using HC.
  intros Hv Hs Hf Hfg Ha. pose proof (page_size_ok i v sz Hv Hs) as Hsz.
  destruct (obj_in_page i sz f ltac:(lia) Hf) as [Hf1 Hf2].
  destruct (live_place a o Ha) as [(j & w & sz' & Hw & Hs' & Ho & -> & Ha1 & Ha2 & _) | (n & Hn & ->)].
  - destruct (decide (j = i)) as [-> | Hne]; [| unfold page_addr, PAGE_SIZE in *; lia].
    assert (w = v) as -> by congruence. assert (sz' = sz) as -> by congruence.
    apply (obj_spaced i); [lia | done | done |]. congruence.
  - destruct (block_not_slab a o n i v Ha Hn Hv); lia.
Qed.

(** Two things that are held do not overlap. *)
Lemma live_sep a o a' o' : g !! a = Some o -> g !! a' = Some o' -> a <> a' ->
  a + extent o <= a' \/ a' + extent o' <= a.
Proof using HC.
  intros Ha Ha' Hne.
  destruct (live_place a o Ha) as [(i & v & sz & Hv & Hs & Ho & -> & Hi1 & Hi2 & Hp) | (n & Hn & ->)];
    destruct (live_place a' o' Ha') as [(j & w & sz' & Hw & Hs' & Ho' & -> & Hj1 & Hj2 & Hp') | (n' & Hn' & ->)].
  - destruct (decide (i = j)) as [<- | Hd]; [| unfold page_addr, PAGE_SIZE in *; lia].
    assert (w = v) as -> by congruence. assert (sz' = sz) as -> by congruence. by apply (obj_spaced i).
  - destruct (block_not_slab a' o' n' i v Ha' Hn' Hv); lia.
  - destruct (block_not_slab a o n j w Ha Hn Hw); lia.
  - by apply (c_blocks _ _ _ _ _ _ _ HC a o n a' o' n').
Qed.

(** The extent of what is held is mapped. *)
Lemma live_mapped a o : g !! a = Some o -> VMA_BASE <= a /\ a + extent o <= page_addr (length (frames b)) /\ 0 < extent o.
Proof using HC.
  intros Ha. destruct (live_place a o Ha) as [(i & v & sz & Hv & _ & _ & -> & H1 & H2 & H3) | (n & Hn & ->)].
  - destruct (c_page _ _ _ _ _ _ _ HC i v Hv) as (p & _ & _ & Hp & _). apply lookup_lt_Some in Hp.
    unfold page_addr, PAGE_SIZE in *. lia.
  - destruct (c_block _ _ _ _ _ _ _ HC a o n Ha Hn) as (i & p & -> & Hpos & _ & _ & Hj).
    destruct (Hj (i + n - 1)%nat) as (_ & q & Hq%lookup_lt_Some & _); [lia |].
    unfold page_addr, PAGE_SIZE. lia.
Qed.

(** Clients may write what they hold. *)
Lemma core_write a o m' : g !! a = Some o ->
  (forall x, x < a \/ a + extent o <= x -> byte m' x = byte m x) -> core bl b V m' S u g.
Proof using HC.
  intros Ha Hm. destruct HC as [H1 H2 H3 H4 H5 H6 H7 H8 H9 H10]. constructor; try done.
  intros i v Hv. destruct (H3 i v Hv) as (p & sz & F & ? & ? & ? & Hs & ? & ? & Hch & ? & HF).
  exists p, sz, F. split_and!; try done. apply (chain_ext m); [| done].
  intros f x [Hf Hfg]%HF Hx. apply Hm. pose proof (H4 _ _ Hs).
  destruct (free_sep i v sz f a o Hv Hs Hf Hfg Ha); lia.
Qed.
End separation.

(** ** Pages *)

Definition cont_of (b : bfc) (i : nat) : option nat := cont_page_num <$> frames b !! i.

Lemma upd_cont_of i f b b' : upd i f b = Some b' -> (forall p, cont_page_num (f p) = cont_page_num p) ->
  forall j, cont_of b' j = cont_of b j.
Proof.
  unfold upd. destruct (frames b !! i) as [p |] eqn:Hp; [| done]. intros [= <-] Hf j. unfold cont_of. cbn.
  destruct (decide (i = j)) as [<- | Hne].
  - rewrite list_lookup_insert_eq by (by eapply lookup_lt_Some). rewrite Hp. cbn. by rewrite Hf.
  - by rewrite list_lookup_insert_ne.
Qed.

Lemma upd_cont_of_ne i f b b' j : upd i f b = Some b' -> i <> j -> cont_of b' j = cont_of b j.
Proof.
  unfold upd. destruct (frames b !! i) as [p |] eqn:Hp; [| done]. intros [= <-] Hne. unfold cont_of. cbn.
  by rewrite list_lookup_insert_ne.
Qed.

Lemma set_link_cont_of pr v b b' j : set_link pr v b = Some b' -> cont_of b' j = cont_of b j.
Proof. destruct pr; cbn; [intros H; by apply (upd_cont_of _ _ _ _ H) | by intros [= <-]]. Qed.

Lemma set_back_cont_of cur v b b' j : set_back cur v b = Some b' -> cont_of b' j = cont_of b j.
Proof. destruct cur; cbn; [intros H; by apply (upd_cont_of _ _ _ _ H) | by intros [= <-]]. Qed.

Lemma mark_used_cont_of n : forall c b b' j, mark_used n c b = Some b' -> cont_of b' j = cont_of b j.
Proof.
  induction n as [| n IH]; intros c b b' j; cbn; [by intros [= <-] |].
  destruct (upd c _ b) as [b1 |] eqn:Hu; [| done]. cbn. intros H. rewrite (IH _ _ _ _ H).
  by apply (upd_cont_of _ _ _ _ Hu).
Qed.

Lemma take_block_cont c pr n b b' s : (0 < n)%nat -> take_block c pr n b = Some (b', Some s) ->
  s = c /\ cont_of b' s = Some n.
Proof.
  intros Hn. unfold take_block. destruct (frames b !! c) as [p |] eqn:Hp; [| done]. cbn [mbind option_bind].
  destruct (Nat.eqb_spec (cont_page_num p) n) as [Hc | _].
  - destruct (set_link _ _ b) as [b1 |] eqn:H1; [| done]. cbn [mbind option_bind].
    destruct (set_back _ _ b1) as [b2 |] eqn:H2; [| done]. cbn [mbind option_bind].
    destruct (mark_used _ _ b2) as [b3 |] eqn:H3; [| done]. cbn [mbind option_bind]. intros [= <- <-].
    split; [done |]. change (cont_of b3 c = Some n). rewrite (mark_used_cont_of _ _ _ _ _ H3), (set_back_cont_of _ _ _ _ _ H2).
    rewrite (set_link_cont_of _ _ _ _ _ H1). unfold cont_of. rewrite Hp. cbn. by rewrite Hc.
  - destruct (upd c (set_cont n) b) as [b1 |] eqn:H1; [| done]. cbn [mbind option_bind].
    destruct (mark_used _ _ b1) as [b2 |] eqn:H2; [| done]. cbn [mbind option_bind].
    destruct (upd _ _ b2) as [b3 |] eqn:H3; [| done]. cbn [mbind option_bind].
    destruct (set_link _ _ b3) as [b4 |] eqn:H4; [| done]. cbn [mbind option_bind].
    destruct (set_back _ _ b4) as [b5 |] eqn:H5; [| done]. cbn [mbind option_bind].
    destruct (upd _ _ b5) as [b6 |] eqn:H6; [| done]. cbn [mbind option_bind]. intros [= <- <-].
    split; [done |]. change (cont_of b6 c = Some n).
    rewrite (upd_cont_of _ _ _ _ H6) by done. rewrite (set_back_cont_of _ _ _ _ _ H5), (set_link_cont_of _ _ _ _ _ H4).
    rewrite (upd_cont_of_ne _ _ _ _ _ H3) by lia. rewrite (mark_used_cont_of _ _ _ _ _ H2).
    unfold upd in H1. rewrite Hp in H1. injection H1 as <-. unfold cont_of. cbn.
    by rewrite list_lookup_insert_eq by (by eapply lookup_lt_Some).
Qed.

Lemma alloc_loop_cont fits n fuel : (0 < n)%nat -> forall cur pr b b' s,
  alloc_loop fuel fits cur pr n b = Some (b', Some s) -> cont_of b' s = Some n.
Proof.
  intros Hn. induction fuel as [| fuel IH]; intros cur pr b b' s; destruct cur as [c |]; cbn; try done.
  destruct (frames b !! c) as [p |]; [| done]. cbn. destruct (fits c _); [| apply IH].
  intros H. by destruct (take_block_cont _ _ _ _ _ _ Hn H).
Qed.

(** What [bfc_alloc_page] does for this file. *)
Lemma alloc_pages_spec n b bl : rep b bl -> (0 < n)%nat ->
  exists b' r, bfc_alloc_page n b = Some (b', r) /\
    match r with
    | None => b' = b /\ forall s l, (s, l) ∈ bl -> (l < n)%nat
    | Some i => exists bl', rep b' bl' /\ length (frames b') = length (frames b) /\
        (forall j, cover bl j <-> (i <= j < i + n)%nat \/ cover bl' j) /\ disjoint_from i n bl' /\
        granted b' i n /\ cont_of b' i = Some n /\ (forall j, ~ cover bl j -> frames b' !! j = frames b !! j)
    end.
Proof.
  intros Hrep Hn. pose proof (alloc_page_post b bl n Hrep Hn) as H. unfold alloc_post in H.
  destruct (take_first _ n bl) as [[s bl'] |] eqn:Ht.
  - destruct H as (b' & Heq & Hrep' & Hlen & _ & Hg & Hsame).
    destruct (take_first_spec _ _ _ _ _ Hn (fits_any_le n) Ht 0%nat (rep_wf _ _ Hrep)) as (_ & _ & Hcov & Hdis).
    exists b', (Some s). split; [done |]. exists bl'. split_and!; try done.
    unfold bfc_alloc_page in Heq. destruct (n =? 0)%nat; [done |]. destruct (bfc_free_list b); [| done].
    by apply (alloc_loop_cont _ _ _ Hn _ _ _ _ _ Heq).
  - exists b, None. split; [done |]. split; [done |]. intros s l Hin.
    apply take_first_none in Ht. rewrite Forall_forall in Ht. specialize (Ht _ Hin). by apply Nat.leb_gt in Ht.
Qed.

(** ** What is held and what it counts for *)

Lemma s32_add x y : s32 (s32 x + s32 y) = s32 (x + y).
Proof.
  unfold s32. f_equal. replace ((x + 2 ^ 31) mod 2 ^ 32 - 2 ^ 31 + ((y + 2 ^ 31) mod 2 ^ 32 - 2 ^ 31) + 2 ^ 31)
    with ((x + 2 ^ 31) mod 2 ^ 32 + (y + 2 ^ 31) mod 2 ^ 32 - 2 ^ 31) by lia.
  rewrite Zminus_mod, <- Zplus_mod, <- Zminus_mod. f_equal. lia.
Qed.

Lemma s32_sub x y : s32 (s32 x + - s32 y) = s32 (x - y).
Proof.
  unfold s32. f_equal. replace ((x + 2 ^ 31) mod 2 ^ 32 - 2 ^ 31 + - ((y + 2 ^ 31) mod 2 ^ 32 - 2 ^ 31) + 2 ^ 31)
    with ((x + 2 ^ 31) mod 2 ^ 32 - (y + 2 ^ 31) mod 2 ^ 32 + 2 ^ 31) by lia.
  rewrite Zplus_mod, <- Zminus_mod, <- Zplus_mod. f_equal. lia.
Qed.

Lemma charged_insert g a o : g !! a = None -> charged (<[a := o]> g) = charge o + charged g.
Proof. intros Ha. unfold charged. rewrite map_fold_insert_L; [done | intros; lia | done]. Qed.

Lemma charged_delete g a o : g !! a = Some o -> charged (delete a g) = charged g - charge o.
Proof.
  intros Ha. rewrite <- (insert_delete_id g a o) at 2 by done. rewrite charged_insert by apply lookup_delete_eq. lia.
Qed.

Lemma obj_other_page i j sz sz' a : 0 < sz -> 0 < sz' -> is_obj i sz a -> is_obj j sz' a -> i = j.
Proof.
  intros Hs Hs' H1%obj_in_page H2%obj_in_page; [| done ..]. unfold page_addr, PAGE_SIZE in *. lia.
Qed.

(** All objects of a page, in the order of the list that [slab_page_init]
    builds. *)
Fixpoint all_objs (i : nat) (sz : Z) (n : nat) : list Z :=
  match n with O => [] | S n' => (page_addr i + Z.of_nat n' * sz) :: all_objs i sz n' end.

Lemma elem_of_all_objs i sz n a : a ∈ all_objs i sz n <-> exists k, 0 <= k < Z.of_nat n /\ a = page_addr i + k * sz.
Proof.
  induction n as [| n IH]; cbn [all_objs].
  - split; [by intros ?%not_elem_of_nil | intros (k & ? & _); lia].
  - rewrite elem_of_cons, IH. split.
    + intros [-> | (k & ? & ->)]; [exists (Z.of_nat n) | exists k]; (split; [lia | done]).
    + intros (k & Hk & ->). destruct (decide (k = Z.of_nat n)) as [-> | Hne]; [by left |].
      right. exists k. split; [lia | done].
Qed.

Lemma all_objs_is_obj i sz a : 0 < sz -> a ∈ all_objs i sz (Z.to_nat (PAGE_SIZE / sz)) <-> is_obj i sz a.
Proof.
  intros Hsz. rewrite elem_of_all_objs. pose proof (Z.div_pos PAGE_SIZE sz).
  unfold is_obj, PAGE_SIZE in *. rewrite Z2Nat.id by lia. done.
Qed.

Lemma length_all_objs i sz n : length (all_objs i sz n) = n.
Proof. induction n as [| n IH]; cbn; [done | by rewrite IH]. Qed.

Lemma NoDup_all_objs i sz n : 0 < sz -> NoDup (all_objs i sz n).
Proof.
  intros Hsz. induction n as [| n IH]; cbn [all_objs]; constructor; [| done].
  intros (k & Hk & He)%elem_of_all_objs. nia.
Qed.

(** No more objects than the page has room for. *)
Lemma objs_count i sz F : 0 < sz -> NoDup F -> (forall a, a ∈ F -> is_obj i sz a) ->
  Z.of_nat (length F) <= PAGE_SIZE / sz.
Proof.
  intros Hsz Hnd Hin. assert (Hs : F ⊆+ all_objs i sz (Z.to_nat (PAGE_SIZE / sz))).
  { apply NoDup_submseteq; [done |]. intros a Ha. by apply all_objs_is_obj, Hin. }
  apply submseteq_length in Hs. rewrite length_all_objs in Hs.
  pose proof (Z.div_pos PAGE_SIZE sz). unfold PAGE_SIZE in *. lia.
Qed.

Lemma page_count_bound sz : 8 <= sz -> 0 <= PAGE_SIZE / sz <= 512.
Proof.
  intros. unfold PAGE_SIZE. split; [apply Z.div_pos; lia |]. apply Z.div_le_upper_bound; lia.
Qed.

Section changes.
Context {bl : list block} {b : bfc} {V : gmap nat view} {m S : gmap Z Z} {u : Z} {g : gmap Z owner}.
Hypothesis HC : core bl b V m S u g.

Lemma live_page a o : g !! a = Some o -> exists j, page_addr j <= a < page_addr j + PAGE_SIZE /\ ~ cover bl j.
Proof using HC.
  intros Ha. destruct (live_place HC a o Ha) as [(i & v & sz & Hv & _ & _ & _ & H1 & H2 & H3) | (n & Hn & _)].
  - exists i. split; [lia |]. by destruct (c_page _ _ _ _ _ _ _ HC i v Hv) as (p & _ & _ & _ & _ & ? & _).
  - destruct (c_block _ _ _ _ _ _ _ HC a o n Ha Hn) as (i & p & -> & Hpos & _ & _ & Hj).
    exists i. split; [unfold PAGE_SIZE; lia |]. by destruct (Hj i) as [? _]; [lia |].
Qed.

(** A free object is taken. *)
Lemma core_take i v sz : V !! i = Some v -> S !! v_cache v = Some sz -> v_free v <> 0 ->
  is_obj i sz (v_free v) /\ g !! v_free v = None /\
  core bl b (<[i := View (v_cache v) (load_le 8 m (v_free v)) (u32 (v_inuse v + 1)) (v_count v)]> V) m S
    (s32 (u + s32 sz)) (<[v_free v := Obj (v_cache v) sz false]> g).
Proof using HC.
  intros Hv Hs Hne. pose proof (page_size_ok HC i v sz Hv Hs) as Hsz.
  destruct (c_page _ _ _ _ _ _ _ HC i v Hv) as (p & sz' & F & Hp & Hst & Hnc & Hs' & Hcnt & Hin & Hch & Hnd & HF).
  assert (sz' = sz) as -> by congruence. destruct F as [| f F]; [done |].
  destruct Hch as (Hf & Hfr & Hch). rewrite Hf in *. clear Hne. apply NoDup_cons in Hnd as [Hnf Hnd].
  destruct (proj1 (HF f) ltac:(left)) as [Hfo Hfg]. split; [done |]. split; [done |].
  destruct HC as [H1 H2 H3 H4 H5 H6 H7 H8 H9 H10]. constructor; try done.
  - intros j w. rewrite lookup_insert_Some. intros [[<- <-] | [Hij Hw]].
    + exists p, sz, F. cbn [v_cache v_count v_inuse v_free]. split_and!; try done.
      * cbn [length] in Hin. pose proof (page_count_bound sz ltac:(lia)).
        pose proof (objs_count i sz F ltac:(lia) Hnd) as Hlen. rewrite u32_small; [lia |].
        enough (Z.of_nat (length F) <= PAGE_SIZE / sz) by lia.
        apply Hlen. intros a Ha. by apply HF; right.
      * intros a. rewrite lookup_insert_None. split.
        -- intros Ha. destruct (proj1 (HF a) ltac:(by right)) as [Hao Hag]. split_and!; [done | done |]. by intros ->.
        -- intros (Hao & Hag & Hna). assert (a ∈ f :: F) as Hel by (by apply HF).
           apply elem_of_cons in Hel as [-> | ?]; done.
    + destruct (H3 j w Hw) as (q & sz' & F' & ? & ? & ? & Hs2 & ? & ? & ? & ? & HF').
      exists q, sz', F'. split_and!; try done. intros a. rewrite HF', lookup_insert_None. split; [| naive_solver].
      intros [Hao Hag]. split_and!; [done | done |]. intros <-.
      pose proof (H4 _ _ Hs2). by pose proof (obj_other_page i j sz sz' f ltac:(lia) ltac:(lia) Hfo Hao).
  - intros c sz' Hc. destruct (H6 c sz' Hc) as [? | (z & Hz)]; [by left | right]. exists z.
    rewrite lookup_insert_ne; [done |]. congruence.
  - intros a c sz' ctl. rewrite lookup_insert_Some. intros [[<- [= <- <- <-]] | [Hna Ha]].
    + eexists i, _. rewrite lookup_insert_eq. split_and!; done.
    + destruct (H7 a c sz' ctl Ha) as (j & w & Hw & Hwc & Hsc & Hob).
      destruct (decide (i = j)) as [<- | Hij].
      * assert (w = v) as -> by congruence. eexists i, _. rewrite lookup_insert_eq. split_and!; done.
      * exists j, w. rewrite lookup_insert_ne by done. split_and!; done.
  - intros a o n. rewrite lookup_insert_Some. intros [[_ <-] | [_ Ha]]; [done |]. by apply H8.
  - intros a o n a' o' n'. rewrite !lookup_insert_Some.
    intros [[_ <-] | [_ Ha]]; [done |]. intros Hn [[_ <-] | [_ Ha']]; [done |]. by apply (H9 a o n a' o' n').
  - rewrite charged_insert by done. cbn [charge]. rewrite H10, s32_add. f_equal. lia.
Qed.

(** An object is given back. *)
Lemma core_put i v sz a : V !! i = Some v -> g !! a = Some (Obj (v_cache v) sz false) -> is_obj i sz a ->
  core bl b (<[i := View (v_cache v) a (u32 (v_inuse v - 1)) (v_count v)]> V) (store_le 8 (v_free v) m a) S
    (s32 (u + - s32 sz)) (delete a g).
Proof using HC.
  intros Hv Ha Hao.
  destruct (c_page _ _ _ _ _ _ _ HC i v Hv) as (p & sz' & F & Hp & Hst & Hnc & Hs & Hcnt & Hin & Hch & Hnd & HF).
  destruct (c_obj _ _ _ _ _ _ _ HC _ _ _ _ Ha) as (_ & _ & _ & _ & Hs' & _).
  assert (sz' = sz) as -> by congruence. pose proof (page_size_ok HC i v sz Hv Hs) as Hsz.
  assert (HaF : a ∉ F) by (intros [_ ?]%HF; congruence).
  assert (Hm : forall x, x < a \/ a + 8 <= x -> byte (store_le 8 (v_free v) m a) x = byte m x)
    by (intros; by apply store_le_other).
  assert (Hkeep : forall j w szw Fw, V !! j = Some w -> S !! v_cache w = Some szw ->
    (forall f, f ∈ Fw <-> is_obj j szw f /\ g !! f = None) -> forall fl, chain m fl Fw -> chain (store_le 8 (v_free v) m a) fl Fw).
  { intros j w szw Fw Hw Hsw HFw fl. apply chain_ext. intros f x [Hf Hfg]%HFw Hx. apply Hm.
    pose proof (c_sizes _ _ _ _ _ _ _ HC _ _ Hsw).
    destruct (free_sep HC j w szw f a _ Hw Hsw Hf Hfg Ha); cbn [extent] in *; lia. }
  assert (Hfl : 0 <= v_free v < 2 ^ 64) by (destruct F; [cbn in Hch; lia | destruct Hch as (-> & ? & _); lia]).
  destruct (live_mapped HC a _ Ha) as (HaV & HaT & _). cbn [extent] in HaT.
  destruct HC as [H1 H2 H3 H4 H5 H6 H7 H8 H9 H10]. constructor; try done.
  - intros j w. rewrite lookup_insert_Some. intros [[<- <-] | [Hij Hw]].
    + exists p, sz, (a :: F). cbn [v_cache v_count v_inuse v_free]. split_and!; try done.
      * pose proof (page_count_bound sz ltac:(lia)). cbn [length].
        pose proof (objs_count i sz (a :: F) ltac:(lia)) as Hlen. cbn [length] in Hlen.
        rewrite u32_small; [lia |]. enough (Z.of_nat (1 + length F) <= PAGE_SIZE / sz) by lia.
        apply Hlen; [by constructor |]. intros f Hf%elem_of_cons. destruct Hf as [-> | Hf]; [done |]. by apply HF.
      * cbn [chain]. split; [done |]. split.
        -- unfold page_addr, VMA_BASE, PAGE_SIZE in *. lia.
        -- rewrite load_store_le by done. by apply (Hkeep i v sz F).
      * by constructor.
      * intros f. rewrite elem_of_cons, HF, lookup_delete_None. split.
        -- intros [-> | [? ?]]; [split; [done | by left] | split; [done | by right]].
        -- intros [Hfo [-> | Hfg]]; [by left | by right].
    + destruct (H3 j w Hw) as (q & szw & Fw & ? & ? & ? & Hsw & ? & ? & ? & ? & HFw).
      exists q, szw, Fw. split_and!; try done; [by apply (Hkeep j w szw) |].
      intros f. rewrite HFw, lookup_delete_None. split; [naive_solver |]. intros [Hfo [<- | Hfg]]; [| done].
      pose proof (H4 _ _ Hsw). by pose proof (obj_other_page i j sz szw a ltac:(lia) ltac:(lia) Hao Hfo).
  - intros c szc Hc. destruct (H6 c szc Hc) as [? | (z & Hz)]; [by left | right]. exists z.
    rewrite lookup_delete_ne; [done |]. congruence.
  - intros f c szc ctl. rewrite lookup_delete_Some. intros [Hna Hf].
    destruct (H7 f c szc ctl Hf) as (j & w & Hw & Hwc & Hsc & Hob).
    destruct (decide (i = j)) as [<- | Hij].
    + assert (w = v) as -> by congruence. eexists i, _. rewrite lookup_insert_eq. split_and!; done.
    + exists j, w. rewrite lookup_insert_ne by done. split_and!; done.
  - intros f o n. rewrite lookup_delete_Some. intros [_ Hf]. by apply H8.
  - intros f o n f' o' n'. rewrite !lookup_delete_Some. intros [_ Hf] Hn [_ Hf']. by apply (H9 f o n f' o' n').
  - rewrite (charged_delete _ _ _ Ha), H10, s32_sub. done.
Qed.

(** Pages move between the allocator and a client. *)
Lemma core_grant b' i n bl' : rep b' bl' -> (0 < n)%nat -> length (frames b') = length (frames b) ->
  (forall j, cover bl j <-> (i <= j < i + n)%nat \/ cover bl' j) -> disjoint_from i n bl' ->
  granted b' i n -> cont_of b' i = Some n -> (forall j, ~ cover bl j -> frames b' !! j = frames b !! j) ->
  g !! page_addr i = None /\ core bl' b' V m S u (<[page_addr i := Raw n]> g).
Proof using HC.
  intros Hrep Hn Hlen Hcov Hdis Hgr Hcont Hsame.
  assert (Hout : forall j, ~ cover bl j -> ~ cover bl' j /\ ~ (i <= j < i + n)%nat) by (intros j; rewrite Hcov; tauto).
  assert (Hfresh : g !! page_addr i = None).
  { apply eq_None_not_Some. intros [o Ho]. destruct (live_page _ _ Ho) as (j & Hj & Hnc).
    assert (j = i) as -> by (unfold page_addr, PAGE_SIZE in Hj; lia). apply Hnc, Hcov. left. lia. }
  split; [done |]. destruct HC as [H1 H2 H3 H4 H5 H6 H7 H8 H9 H10]. constructor; try done.
  - by rewrite Hlen.
  - intros j v Hv. destruct (H3 j v Hv) as (p & sz & F & Hp & Hst & Hnc & Hs & ? & ? & ? & ? & HF).
    exists p, sz, F. rewrite Hsame by done. split_and!; try done; [by apply Hout |].
    intros a. rewrite HF, lookup_insert_None. split; [| naive_solver]. intros [Hao Hag]. split_and!; [done | done |].
    intros <-. pose proof (H4 _ _ Hs). pose proof (obj_in_page j sz _ ltac:(lia) Hao).
    assert (j = i) as -> by (unfold page_addr, PAGE_SIZE in *; lia). apply (proj2 (Hout i Hnc)). lia.
  - intros c sz Hc. destruct (H6 c sz Hc) as [? | (z & Hz)]; [by left | right]. exists z.
    rewrite lookup_insert_ne; [done |]. congruence.
  - intros a c sz ctl. rewrite lookup_insert_Some. intros [[_ ?] | [_ Ha]]; [done |]. by apply (H7 a c sz ctl).
  - intros a o k. rewrite lookup_insert_Some. intros [[<- <-] | [_ Ha]] Hk.
    + injection Hk as <-. unfold cont_of in Hcont. apply fmap_Some in Hcont as (p & Hp & Hpc).
      exists i, p. split_and!; try done. intros j Hj. split; [by apply Hdis |].
      destruct (Hgr j Hj) as (q & Hq & Hu & _). by exists q.
    + destruct (H8 a o k Ha Hk) as (j & p & -> & Hpos & Hp & Hpc & Hj). exists j, p.
      split_and!; try done; [rewrite Hsame; [done | by apply Hj; lia] |].
      intros x Hx. destruct (Hj x Hx) as [Hnc ?]. rewrite Hsame by done. split; [by apply Hout | done].
  - assert (Hnew : forall a o k, g !! a = Some o -> block_of o = Some k ->
      page_addr i + Z.of_nat n * PAGE_SIZE <= a \/ a + Z.of_nat k * PAGE_SIZE <= page_addr i).
    { intros a o k Ha Hk. destruct (H8 a o k Ha Hk) as (j & p & -> & Hpos & _ & _ & Hj).
      destruct (decide (i + n <= j)%nat); [left; unfold page_addr, PAGE_SIZE; lia |].
      destruct (decide (j + k <= i)%nat); [right; unfold page_addr, PAGE_SIZE; lia |]. exfalso.
      destruct (Hj (Nat.max i j)) as [Hnc _]; [lia |]. apply (proj2 (Hout _ Hnc)). lia. }
    intros a o k a' o' k'. rewrite !lookup_insert_Some.
    intros [[<- <-] | [_ Ha]] Hk [[<- <-] | [_ Ha']] Hk' Hne; [done | | |].
    + injection Hk as <-. destruct (Hnew a' o' k' Ha' Hk'); lia.
    + injection Hk' as <-. destruct (Hnew a o k Ha Hk); lia.
    + by apply (H9 a o k a' o' k').
  - by rewrite charged_insert.
Qed.

Lemma core_release i n o u' : g !! page_addr i = Some o -> block_of o = Some n -> u' = s32 (charged (delete (page_addr i) g)) ->
  exists b' r, bfc_free_page (Some i) n b = Some (b', r) /\ core (give i n bl) b' V m S u' (delete (page_addr i) g).
Proof using HC.
  intros Ha Hn Hu. pose proof (c_block _ _ _ _ _ _ _ HC _ _ _ Ha Hn) as (i' & p & Hi & Hpos & Hp & Hpc & Hj).
  assert (i' = i) as -> by (unfold page_addr, PAGE_SIZE in Hi; lia).
  assert (Hdis : disjoint_from i n bl) by (intros j Hj'; by apply Hj).
  assert (Hlen : (i + n <= length (frames b))%nat).
  { destruct (Hj (i + n - 1)%nat) as (_ & q & Hq%lookup_lt_Some & _); lia. }
  assert (Hslab : status p <> PAGE_SLAB).
  { destruct (Hj i) as (_ & q & Hq & Hst); [lia |]. assert (q = p) as -> by congruence. by rewrite Hst. }
  destruct (free_ok b bl i n p (c_rep _ _ _ _ _ _ _ HC) Hpos Hlen Hdis Hp Hslab) as (b' & r & Heq & Hrep & (Hl & _ & Hsame) & _).
  exists b', (Some r). split; [done |].
  destruct (give_spec i n bl Hpos 0%nat ltac:(lia) (rep_wf _ _ (c_rep _ _ _ _ _ _ _ HC)) Hdis) as [_ Hcov].
  assert (Hother : forall a o' k, g !! a = Some o' -> block_of o' = Some k -> a <> page_addr i ->
    forall j, page_addr j = a -> forall x, (j <= x < j + k)%nat -> ~ (i <= x < i + n)%nat).
  { intros a o' k Ha' Hk Hne j <- x Hx Hx'.
    destruct (c_blocks _ _ _ _ _ _ _ HC _ _ _ _ _ _ Ha' Hk Ha Hn Hne); unfold page_addr, PAGE_SIZE in *; lia. }
  assert (Hslabs : forall j v, V !! j = Some v -> ~ (i <= j < i + n)%nat).
  { intros j v Hv Hx. destruct (block_not_slab HC _ _ _ j v Ha Hn Hv); unfold page_addr, PAGE_SIZE in *; lia. }
  destruct HC as [H1 H2 H3 H4 H5 H6 H7 H8 H9 H10]. constructor; try done.
  - by rewrite Hl.
  - intros j v Hv. pose proof (Hslabs j v Hv). destruct (H3 j v Hv) as (q & sz & F & Hq & Hst & Hnc & Hs & ? & ? & ? & ? & HF).
    exists q, sz, F. rewrite Hsame by (done || lia). split_and!; try done; [rewrite Hcov; tauto |].
    intros a. rewrite HF, lookup_delete_None. split; [naive_solver |]. intros [Hao [<- | ?]]; [| done].
    pose proof (H4 _ _ Hs). pose proof (obj_in_page j sz _ ltac:(lia) Hao).
    exfalso. unfold page_addr, PAGE_SIZE in *. lia.
  - intros c sz Hc. destruct (H6 c sz Hc) as [? | (z & Hz)]; [by left | right]. exists z.
    rewrite lookup_delete_ne; [done |]. intros <-. rewrite Hz in Ha. by injection Ha as <-.
  - intros a c sz ctl. rewrite lookup_delete_Some. intros [_ Ha']. by apply (H7 a c sz ctl).
  - intros a o' k. rewrite lookup_delete_Some. intros [Hne Ha'] Hk.
    destruct (H8 a o' k Ha' Hk) as (j & q & -> & Hk0 & Hq & Hqc & Hjk).
    pose proof (Hother _ _ _ Ha' Hk ltac:(done) j eq_refl) as Hd. exists j, q. split_and!; try done.
    + rewrite Hsame; [done | by apply Hjk; lia |]. intros ->. apply (Hd j); lia.
    + intros x Hx. destruct (Hjk x Hx) as [Hnc ?]. pose proof (Hd x Hx). split; [rewrite Hcov; tauto |].
      rewrite Hsame; [done | done | lia].
  - intros a o' k a' o'' k'. rewrite !lookup_delete_Some. intros [_ Ha1] Hk [_ Ha2]. by apply (H9 a o' k a' o'' k').
Qed.

(** A page becomes a slab page, all its objects free. *)
Lemma core_to_slab i c sz b' m' fl : g !! page_addr i = Some (Raw 1) -> S !! c = Some sz ->
  upd i (set_status PAGE_SLAB) b = Some b' ->
  (forall x, x < page_addr i \/ page_addr i + PAGE_SIZE <= x -> byte m' x = byte m x) ->
  chain m' fl (all_objs i sz (Z.to_nat (PAGE_SIZE / sz))) ->
  V !! i = None /\ core bl b' (<[i := View c fl 0 (PAGE_SIZE / sz)]> V) m' S u (delete (page_addr i) g).
Proof using HC.
  intros Ha Hs Hu Hm Hch. pose proof (c_block _ _ _ _ _ _ _ HC _ _ _ Ha eq_refl) as (i' & p & Hi & _ & Hp & _ & Hj).
  assert (i' = i) as -> by (unfold page_addr, PAGE_SIZE in Hi; lia).
  destruct (Hj i ltac:(lia)) as (Hnc & q & Hq & Hst). assert (q = p) as -> by congruence.
  assert (Hfresh : V !! i = None).
  { apply eq_None_not_Some. intros [v Hv]. destruct (c_page _ _ _ _ _ _ _ HC i v Hv) as (r & _ & _ & Hr & Hsl & _). congruence. }
  split; [done |]. pose proof (c_sizes _ _ _ _ _ _ _ HC _ _ Hs) as Hsz. pose proof (page_count_bound sz ltac:(lia)) as Hpc.
  destruct (upd_ok i (set_status PAGE_SLAB) b p Hp) as (b1 & Hu1 & Ht & Hb1 & Hh). rewrite Hu in Hu1. injection Hu1 as <-.
  assert (Hheads : forall s, s ∈ bl.*1 -> ~ i = s).
  { intros s Hin <-. apply (disjoint_heads 0 bl i 1 (rep_wf _ _ (c_rep _ _ _ _ _ _ _ HC)) ltac:(lia)); [| done].
    intros j Hj'. by replace j with i by lia. }
  assert (Hlive : forall a o, g !! a = Some o -> a <> page_addr i -> a + extent o <= page_addr i \/ page_addr i + PAGE_SIZE <= a).
  { intros a o Ha' Hne. destruct (live_sep HC _ _ _ _ Ha' Ha Hne); [by left | right]. cbn [extent] in *. lia. }
  destruct HC as [H1 H2 H3 H4 H5 H6 H7 H8 H9 H10]. pose proof Ht as (Hl & _ & Hsame). constructor; try done.
  - destruct H1 as [Hwf Hins Hd]. constructor; [done | by rewrite Hl |]. unfold dll in *. rewrite Hh.
    apply (tail_touched (eq i) b b'); [done | done | done].
  - by rewrite Hl.
  - intros j v. rewrite lookup_insert_Some. intros [[<- <-] | [Hij Hv]].
    + eexists _, sz, _. cbn [v_cache v_count v_inuse v_free]. split_and!; [done | done | done | done | done | | exact Hch | |].
      * rewrite length_all_objs. lia.
      * apply NoDup_all_objs. lia.
      * intros a. rewrite all_objs_is_obj by lia. split; [| naive_solver]. intros Hao. split; [done |].
        rewrite lookup_delete_None. destruct (g !! a) as [o |] eqn:Hag; [left | by right].
        destruct (decide (page_addr i = a)) as [-> | Hne]; [done |]. exfalso.
        pose proof (obj_in_page i sz a ltac:(lia) Hao).
        destruct (Hlive a o Hag ltac:(done)); [| lia].
        destruct o as [c' sz' ctl | n | n].
        -- destruct (H7 _ _ _ _ Hag) as (j & v & Hv & _ & Hs' & Ho'). pose proof (H4 _ _ Hs').
           by pose proof (obj_other_page i j sz sz' a ltac:(lia) ltac:(lia) Hao Ho') as <-; rewrite Hfresh in Hv.
        -- destruct (H8 _ _ _ Hag eq_refl) as (j & ? & -> & ? & _). unfold page_addr, PAGE_SIZE in *. cbn [extent] in *. lia.
        -- destruct (H8 _ _ _ Hag eq_refl) as (j & ? & -> & ? & _). unfold page_addr, PAGE_SIZE in *. cbn [extent] in *. lia.
    + destruct (H3 j v Hv) as (q & szv & F & ? & ? & ? & Hsv & ? & ? & Hc & ? & HF).
      exists q, szv, F. rewrite Hsame by done. split_and!; try done.
      * apply (chain_ext m); [| done]. intros f x [Hf Hfg]%HF Hx. apply Hm.
        pose proof (H4 _ _ Hsv). pose proof (obj_in_page j szv f ltac:(lia) Hf). unfold page_addr, PAGE_SIZE in *. lia.
      * intros a. rewrite HF, lookup_delete_None. split; [naive_solver |]. intros [Hao [<- | ?]]; [| done].
        pose proof (H4 _ _ Hsv). pose proof (obj_in_page j szv _ ltac:(lia) Hao).
        exfalso. unfold page_addr, PAGE_SIZE in *. lia.
  - intros c' szc Hc. destruct (H6 c' szc Hc) as [? | (z & Hz)]; [by left | right]. exists z.
    rewrite lookup_delete_ne; [done |]. congruence.
  - intros a c' szc ctl. rewrite lookup_delete_Some. intros [_ Ha'].
    destruct (H7 _ _ _ _ Ha') as (j & v & Hv & ? & ? & ?). exists j, v. rewrite lookup_insert_ne by congruence. done.
  - intros a o n. rewrite lookup_delete_Some. intros [Hne Ha'] Hn.
    destruct (H8 a o n Ha' Hn) as (j & q & -> & Hn0 & Hq' & Hqc & Hjn).
    assert (Hx : forall x, (j <= x < j + n)%nat -> i <> x).
    { intros x Hx <-. destruct (H9 _ _ _ _ _ _ Ha' Hn Ha eq_refl ltac:(done)); unfold page_addr, PAGE_SIZE in *; lia. }
    exists j, q. split_and!; try done; [rewrite Hsame; [done | apply Hx; lia] |].
    intros x Hxx. rewrite Hsame by (by apply Hx). by apply Hjn.
  - intros a o n a' o' n'. rewrite !lookup_delete_Some. intros [_ Ha1] Hn [_ Ha2]. by apply (H9 a o n a' o' n').
  - rewrite (charged_delete _ _ _ Ha), H10. cbn [charge]. f_equal. lia.
Qed.
End changes.

(** ** The list of pages with free objects *)

Definition relinked (s s' : kheap) : Prop :=
  kh_bfc s' = kh_bfc s /\ views s' = views s /\ kh_mem s' = kh_mem s /\ sizes s' = sizes s /\
  slab_used_bytes s' = slab_used_bytes s.

Lemma relinked_refl s : relinked s s.
Proof. done. Qed.

Lemma relinked_trans s1 s2 s3 : relinked s1 s2 -> relinked s2 s3 -> relinked s1 s3.
Proof. intros (? & ? & ? & ? & ?) (? & ? & ? & ? & ?). split_and!; congruence. Qed.

Lemma relinked_core bl s s' g : relinked s s' -> heap_core bl s g -> heap_core bl s' g.
Proof. unfold heap_core. by intros (-> & -> & -> & -> & ->). Qed.

Lemma relinked_in_cache s s' c i : relinked s s' -> in_cache s c i <-> in_cache s' c i.
Proof. unfold in_cache. by intros (_ & -> & _). Qed.

Lemma in_cache_slab s c i : in_cache s c i <-> exists d, kh_slab s !! i = Some d /\ sp_cache d = c.
Proof.
  unfold in_cache, views. split.
  - intros (v & Hv & Hc). rewrite lookup_fmap in Hv. apply fmap_Some in Hv as (d & Hd & ->). by exists d.
  - intros (d & Hd & Hc). exists (view_of d). by rewrite lookup_fmap, Hd.
Qed.

Lemma wp_get_slab i d s (Q : slab_page -> kheap -> Prop) : kh_slab s !! i = Some d -> Q d s -> wp (get_slab i) s Q.
Proof. intros Hd HQ. exists d, s. unfold get_slab. by rewrite Hd. Qed.

Lemma wp_get_cache c k s (Q : kmem_cache -> kheap -> Prop) : kh_caches s !! c = Some k -> Q k s -> wp (get_cache c) s Q.
Proof. intros Hk HQ. exists k, s. unfold get_cache. by rewrite Hk. Qed.

Lemma wp_step {A} (f : kheap -> A * kheap) s (Q : A -> kheap -> Prop) : Q (f s).1 (f s).2 -> wp (fun s => Some (f s)) s Q.
Proof. intros HQ. exists (f s).1, (f s).2. by destruct (f s). Qed.

(** Assigning links within a cache. *)
Lemma links_set_links i d n p s : kh_slab s !! i = Some d -> links s ->
  (forall j, n = Some j -> in_cache s (sp_cache d) j) -> (forall j, p = Some j -> in_cache s (sp_cache d) j) ->
  let s' := with_slab (<[i := set_links n p d]> (kh_slab s)) s in relinked s s' /\ links s'.
Proof.
  intros Hd [H1 H2 H3 H4] Hn Hp s'. assert (Hr : relinked s s').
  { split_and!; try done. unfold views. cbn. rewrite fmap_insert. apply insert_id. by rewrite lookup_fmap, Hd. }
  split; [done |]. assert (Hin := relinked_in_cache s s'). constructor; cbn.
  - intros c k j Hk Hj. apply Hin; [done |]. by apply (H1 c k).
  - intros x dx j. rewrite lookup_insert_Some. intros [[<- <-] | [_ Hx]] Hj; (apply Hin; [done |]); [by apply Hn | by apply (H2 x)].
  - intros x dx j. rewrite lookup_insert_Some. intros [[<- <-] | [_ Hx]] Hj; (apply Hin; [done |]); [by apply Hp | by apply (H3 x)].
  - intros cpu c j Hj. apply Hin; [done |]. by apply (H4 cpu).
Qed.

Lemma links_set_partial c k q s : kh_caches s !! c = Some k -> links s -> (forall j, q = Some j -> in_cache s c j) ->
  let s' := with_caches (<[c := KmemCache (obj_size k) q]> (kh_caches s)) s in relinked s s' /\ links s'.
Proof.
  intros Hk [H1 H2 H3 H4] Hq s'. assert (Hr : relinked s s').
  { split_and!; try done. unfold sizes. cbn. rewrite fmap_insert. apply insert_id. by rewrite lookup_fmap, Hk. }
  split; [done |]. assert (Hin := relinked_in_cache s s'). constructor; cbn.
  - intros x kx j. rewrite lookup_insert_Some. intros [[<- <-] | [_ Hx]] Hj; (apply Hin; [done |]); [by apply Hq | by apply (H1 x kx)].
  - intros x dx j Hx Hj. apply Hin; [done |]. by apply (H2 x).
  - intros x dx j Hx Hj. apply Hin; [done |]. by apply (H3 x).
  - intros cpu x j Hj. apply Hin; [done |]. by apply (H4 cpu).
Qed.

Lemma relinked_cache s s' c k : relinked s s' -> kh_caches s !! c = Some k ->
  exists k', kh_caches s' !! c = Some k' /\ obj_size k' = obj_size k.
Proof.
  intros (_ & _ & _ & Hs & _) Hk. assert (Hc : sizes s' !! c = Some (obj_size k)).
  { rewrite Hs. unfold sizes. by rewrite lookup_fmap, Hk. }
  unfold sizes in Hc. rewrite lookup_fmap in Hc. apply fmap_Some in Hc as (k' & ? & ?). by exists k'.
Qed.

(** [j->field = v] for a page [j] of the cache. *)
Lemma wp_set_link (j : nat) (f : slab_page -> ptr * ptr) c s (Q : () -> kheap -> Prop) : in_cache s c j -> links s ->
  (forall d, kh_slab s !! j = Some d -> sp_cache d = c ->
     (forall x, (f d).1 = Some x -> in_cache s c x) /\ (forall x, (f d).2 = Some x -> in_cache s c x) /\
     (let s' := with_slab (<[j := set_links (f d).1 (f d).2 d]> (kh_slab s)) s in relinked s s' -> links s' -> Q () s')) ->
  wp (d ← get_slab j; put_slab j (set_links (f d).1 (f d).2 d)) s Q.
Proof.
  intros (d & Hd & <-)%in_cache_slab Hl HQ. destruct (HQ d Hd eq_refl) as (H1 & H2 & H3).
  apply wp_bind. apply (wp_get_slab j d); [done |].
  destruct (links_set_links j d (f d).1 (f d).2 s Hd Hl H1 H2) as [Hr Hl']. eexists _, _. split; [done |]. by apply H3.
Qed.

Lemma wp_partial_add c k i s : links s -> kh_caches s !! c = Some k -> in_cache s c i ->
  wp (partial_add c i) s (fun _ s' => relinked s s' /\ links s').
Proof.
  intros Hl Hk Hi. unfold partial_add. apply wp_bind, (wp_get_cache c k); [done |].
  pose proof (proj1 (in_cache_slab _ _ _) Hi) as (d & Hd & Hdc).
  apply wp_bind, (wp_get_slab i d); [done |].
  destruct (links_set_links i d (partial k) None s Hd Hl) as [Hr1 Hl1];
    [intros j Hj; rewrite Hdc; by apply (l_partial s Hl c k) | done |].
  apply wp_bind. eexists _, _. split; [done |]. set (s1 := with_slab _ s) in *.
  assert (Hfin : forall s2, relinked s1 s2 -> links s2 -> kh_caches s2 = kh_caches s1 ->
    wp (put_cache c (KmemCache (obj_size k) (Some i))) s2 (fun _ s' => relinked s s' /\ links s')).
  { intros s2 Hr2 Hl2 Hc2. destruct (links_set_partial c k (Some i) s2) as [Hr3 Hl3]; [by rewrite Hc2 | done | |].
    - intros j [= <-]. by apply (relinked_in_cache s s2); [apply (relinked_trans s s1) |].
    - eexists _, _. split; [done |]. split; [| done]. eapply relinked_trans; [| done]. by eapply relinked_trans. }
  apply wp_bind. destruct (partial k) as [j |] eqn:Hj; [| apply wp_ret; by apply Hfin].
  apply (wp_set_link j (fun dj => (partial_next dj, Some i)) c); [| done |].
  - apply (relinked_in_cache s s1); [done |]. by apply (l_partial s Hl c k).
  - intros dj Hdj Hdjc. cbn [fst snd]. split_and!.
    + intros x Hx. rewrite <- Hdjc. by apply (l_next s1 Hl1 j dj).
    + intros x [= <-]. by apply (relinked_in_cache s s1).
    + intros Hr2 Hl2. by apply Hfin.
Qed.

(** Removing the head of the list, whatever the links look like: either the
    head was at the front and the list goes on with its successor, or its back
    pointer was wrong, and then it stays at the head as a list of its own. *)
Definition nexts (s : kheap) : gset nat := dom (filter (fun x : nat * slab_page => is_Some (partial_next x.2)) (kh_slab s)).

Lemma elem_of_nexts s i : i ∈ nexts s <-> exists d, kh_slab s !! i = Some d /\ is_Some (partial_next d).
Proof.
  unfold nexts. rewrite elem_of_dom. split.
  - intros [d [Hd Hn]%map_lookup_filter_Some]. by exists d.
  - intros (d & Hd & Hn). exists d. by apply map_lookup_filter_Some.
Qed.

Definition removed (c : Z) (i : nat) (d : slab_page) (s s' : kheap) : Prop :=
  exists k', kh_caches s' !! c = Some k' /\
  match partial_prev d with
  | None => partial k' = partial_next d /\ nexts s' = nexts s ∖ {[i]} /\
      forall j dj, partial_next d = Some j -> kh_slab s' !! j = Some dj -> partial_prev dj = None
  | Some _ => partial k' = Some i /\
      exists d', kh_slab s' !! i = Some d' /\ partial_prev d' = None /\ partial_next d' = None
  end.

(** The second half of [partial_remove]. *)
Lemma wp_unlink_tail c i d1 s1 : links s1 -> kh_slab s1 !! i = Some d1 -> sp_cache d1 = c ->
  wp (d ← get_slab i;
      _ ← (match partial_next d with
           | Some j => dj ← get_slab j; put_slab j (set_links (partial_next dj) (partial_prev d) dj)
           | None => mret ()
           end);
      d ← get_slab i;
      put_slab i (set_links None None d)) s1
    (fun _ s' => relinked s1 s' /\ links s' /\ kh_caches s' = kh_caches s1 /\ nexts s' = nexts s1 ∖ {[i]} /\
       (exists d', kh_slab s' !! i = Some d' /\ partial_prev d' = None /\ partial_next d' = None) /\
       (forall j dj, partial_next d1 = Some j -> kh_slab s' !! j = Some dj -> partial_prev d1 = None -> partial_prev dj = None)).
Proof.
  intros Hl1 Hd1 Hc. apply wp_bind, (wp_get_slab i d1); [done |].
  assert (Hfin : forall s2, relinked s1 s2 -> links s2 -> kh_caches s2 = kh_caches s1 -> nexts s2 = nexts s1 ->
    (forall j dj, partial_next d1 = Some j -> j <> i -> kh_slab s2 !! j = Some dj -> partial_prev d1 = None -> partial_prev dj = None) ->
    wp (d ← get_slab i; put_slab i (set_links None None d)) s2
      (fun _ s' => relinked s1 s' /\ links s' /\ kh_caches s' = kh_caches s1 /\ nexts s' = nexts s1 ∖ {[i]} /\
       (exists d', kh_slab s' !! i = Some d' /\ partial_prev d' = None /\ partial_next d' = None) /\
       (forall j dj, partial_next d1 = Some j -> kh_slab s' !! j = Some dj -> partial_prev d1 = None -> partial_prev dj = None))).
  { intros s2 Hr2 Hl2 Hc2 Hn2 Hj2. apply (wp_set_link i (fun _ => (None, None)) c); [| done |].
    - apply (relinked_in_cache s1 s2); [done |]. apply in_cache_slab. by exists d1.
    - intros d2 Hd2 Hdc2. cbn [fst snd]. split_and!; [done | done |]. intros Hr3 Hl3.
      split_and!; [by eapply relinked_trans | done | done | | |].
      + rewrite <- Hn2. apply set_eq. intros x. rewrite elem_of_difference, elem_of_singleton, !elem_of_nexts. cbn.
        destruct (decide (x = i)) as [-> | Hx].
        * rewrite lookup_insert_eq. split; [intros (? & [= <-] & [? ?]); done | tauto].
        * rewrite lookup_insert_ne by done. tauto.
      + eexists. cbn. rewrite lookup_insert_eq. split_and!; done.
      + intros j dj Hj. cbn. rewrite lookup_insert_Some. intros [[<- <-] | [Hne Hdj]] Hp; [done |]. by apply (Hj2 j dj). }
  apply wp_bind. destruct (partial_next d1) as [j |] eqn:Hj; [| apply wp_ret; by apply Hfin].
  apply (wp_set_link j (fun dj => (partial_next dj, partial_prev d1)) c); [rewrite <- Hc; by apply (l_next s1 Hl1 i d1) | done |].
  intros dj Hdj Hdjc. cbn [fst snd]. split_and!.
  - intros x Hx. rewrite <- Hdjc. by apply (l_next s1 Hl1 j dj).
  - intros x Hx. rewrite <- Hc. by apply (l_prev s1 Hl1 i d1).
  - intros Hr2 Hl2. apply Hfin; [done | done | done | |].
    + apply set_eq. intros x. rewrite !elem_of_nexts. cbn. destruct (decide (x = j)) as [-> | Hx].
      * rewrite lookup_insert_eq. split; [intros (? & [= <-] & ?); by exists dj |].
        intros (d' & Hd' & ?). assert (d' = dj) as -> by congruence. by eexists.
      * by rewrite lookup_insert_ne by done.
    + intros j' dj' [= <-] Hne. cbn. rewrite lookup_insert_eq. by intros [= <-].
Qed.

Lemma wp_partial_remove c k i d s : links s -> kh_caches s !! c = Some k -> partial k = Some i -> kh_slab s !! i = Some d ->
  wp (partial_remove c i) s (fun _ s' => relinked s s' /\ links s' /\ removed c i d s s').
Proof.
  intros Hl Hk Hi Hd. pose proof (l_partial s Hl c k i Hk Hi) as Hci. pose proof Hci as (d0 & Hd0 & Hdc)%in_cache_slab.
  assert (d0 = d) as -> by congruence.
  assert (Hnext : forall j, partial_next d = Some j -> in_cache s c j) by (intros j Hj; rewrite <- Hdc; by apply (l_next s Hl i d)).
  unfold partial_remove, removed. apply wp_bind, (wp_get_slab i d); [done |]. apply wp_bind.
  destruct (partial_prev d) as [p |] eqn:Hp.
  - apply (wp_set_link p (fun dj => (partial_next d, partial_prev dj)) c); [rewrite <- Hdc; by apply (l_prev s Hl i d) | done |].
    intros dp Hdp Hdpc. cbn [fst snd]. split_and!; [done | intros x Hx; rewrite <- Hdpc; by apply (l_prev s Hl p dp) |].
    intros Hr1 Hl1. set (s1 := with_slab _ s) in *.
    pose proof (proj1 (relinked_in_cache s s1 c i Hr1) Hci) as (d1 & Hd1 & Hdc1)%in_cache_slab.
    eapply wp_mono; [by apply (wp_unlink_tail c i d1) |]. intros [] s' (Hr & Hl' & Hc' & _ & (d' & Hd' & ? & ?) & _).
    split; [by eapply relinked_trans |]. split; [done |]. exists k. rewrite Hc'. split; [done |]. split; [done |]. by exists d'.
  - apply wp_bind, (wp_get_cache c k); [done |].
    destruct (links_set_partial c k (partial_next d) s Hk Hl Hnext) as [Hr1 Hl1].
    eexists _, _. split; [done |]. set (s1 := with_caches _ s) in *.
    eapply wp_mono; [by apply (wp_unlink_tail c i d) |]. intros [] s' (Hr & Hl' & Hc' & Hn & _ & Hj).
    split; [by eapply relinked_trans |]. split; [done |]. eexists. rewrite Hc'. cbn. rewrite lookup_insert_eq.
    split; [done |]. split; [done |]. split; [done |]. intros j dj Hnj Hdj. by apply (Hj j dj).
Qed.

Definition list_rank (c : Z) (s : kheap) : Z :=
  match k ← kh_caches s !! c; i ← partial k; kh_slab s !! i with
  | None => 0
  | Some d =>
      match partial_prev d, partial_next d with
      | Some _, _ => 2
      | None, None => 1
      | None, Some _ => 1 + Z.of_nat (size (nexts s))
      end
  end.

Lemma list_rank_nonneg c s : 0 <= list_rank c s.
Proof. unfold list_rank. repeat case_match; lia. Qed.

Lemma removed_rank c k i d s s' : kh_caches s !! c = Some k -> partial k = Some i -> kh_slab s !! i = Some d ->
  removed c i d s s' -> list_rank c s' < list_rank c s.
Proof.
  intros Hk Hi Hd (k' & Hk' & Hrem). unfold list_rank at 2. rewrite Hk. cbn. rewrite Hi. cbn. rewrite Hd.
  unfold list_rank. rewrite Hk'. cbn. destruct (partial_prev d) as [p |].
  - destruct Hrem as (-> & d' & Hd' & Hp & Hn). cbn. rewrite Hd', Hp, Hn. lia.
  - destruct Hrem as (-> & Hnx & Hj). destruct (partial_next d) as [j |] eqn:Hn; cbn; [| lia].
    assert (Hin : i ∈ nexts s) by (apply elem_of_nexts; exists d; by rewrite Hn).
    assert (Hsz : size (nexts s) = S (size (nexts s'))).
    { rewrite Hnx, size_difference by set_solver. rewrite size_singleton.
      assert (size (nexts s) <> 0)%nat by (intros ?%size_empty_inv; set_solver).
      lia. }
    destruct (kh_slab s' !! j) as [dj |] eqn:Hdj; [| lia]. rewrite (Hj j dj) by done.
    destruct (partial_next dj); lia.
Qed.

Lemma nexts_bound bl s g : heap_core bl s g -> Z.of_nat (size (nexts s)) <= 2 ^ 27.
Proof.
  intros HC. assert (Hsub : nexts s ⊆ set_seq 0 (length (frames (kh_bfc s)))).
  { intros i (d & Hd & _)%elem_of_nexts. apply elem_of_set_seq.
    destruct (c_page _ _ _ _ _ _ _ HC i (view_of d)) as (p & _ & _ & Hp%lookup_lt_Some & _); [| lia].
    unfold views. by rewrite lookup_fmap, Hd. }
  apply subseteq_size in Hsub. rewrite size_set_seq in Hsub.
  pose proof (c_mapped _ _ _ _ _ _ _ HC). unfold PAGE_SIZE in *. lia.
Qed.

(** The loop ends, with a page that has a free object or with an empty list. *)
Lemma wp_take_partial bl c k s g : heap_core bl s g -> links s -> kh_caches s !! c = Some k ->
  wp (take_partial c) s (fun r s' => relinked s s' /\ links s' /\
    match r with
    | Some i => exists v, views s' !! i = Some v /\ v_cache v = c /\ v_free v <> 0
    | None => exists k', kh_caches s' !! c = Some k' /\ partial k' = None
    end).
Proof.
  intros HC Hl Hk. unfold take_partial.
  apply (wp_ploop (fun n _ s' => relinked s s' /\ links s' /\ list_rank c s' <= n)) with (n := 1 + 2 ^ 27).
  2:{ split_and!; [apply relinked_refl | done |]. pose proof (nexts_bound bl s g HC).
      unfold list_rank. repeat case_match; lia. }
  2: done.
  intros n [] s1 (Hr1 & Hl1 & Hn). destruct (relinked_cache s s1 c k Hr1 Hk) as (k1 & Hk1 & _).
  unfold take_partial_step. apply wp_bind, (wp_get_cache c k1); [done |].
  destruct (partial k1) as [i |] eqn:Hi; [| apply wp_ret; split_and!; [done | done | by exists k1]].
  pose proof (l_partial s1 Hl1 c k1 i Hk1 Hi) as (d & Hd & Hdc)%in_cache_slab.
  apply wp_bind, (wp_get_slab i d); [done |]. apply wp_bind.
  eapply wp_mono; [by apply (wp_partial_remove c k1 i d) |]. intros [] s2 (Hr2 & Hl2 & Hrem).
  pose proof (relinked_trans _ _ _ Hr1 Hr2) as Hr. apply wp_ret. destruct (Z.eqb_spec (freelist d) 0) as [_ | Hf].
  - exists (list_rank c s2). pose proof (removed_rank _ _ _ _ _ _ Hk1 Hi Hd Hrem). pose proof (list_rank_nonneg c s2).
    split_and!; (done || lia).
  - split_and!; [done | done |]. exists (view_of d). destruct Hr2 as (_ & -> & _). unfold views.
    rewrite lookup_fmap, Hd. done.
Qed.

(** ** Objects *)

(** What is held keeps its contents. *)
Definition kept (g : gmap Z owner) (s s' : kheap) : Prop :=
  forall a o x, g !! a = Some o -> a <= x < a + extent o -> byte (kh_mem s') x = byte (kh_mem s) x.

Lemma contents_kept_trans g s1 s2 s3 : kept g s1 s2 -> kept g s2 s3 -> kept g s1 s3.
Proof. intros H1 H2 a o x Ha Hx. rewrite (H2 a o x Ha Hx). by apply (H1 a o x). Qed.

Lemma kept_mem g s s' : kh_mem s' = kh_mem s -> kept g s s'.
Proof. intros Hm a o x _ _. by rewrite Hm. Qed.

Lemma relinked_kept g s s' : relinked s s' -> kept g s s'.
Proof. intros (_ & _ & Hm & _). by apply kept_mem. Qed.

Lemma links_ext s s' : kh_slab s' = kh_slab s -> kh_caches s' = kh_caches s -> kh_active s' = kh_active s -> links s -> links s'.
Proof.
  intros Hs Hc Ha [H1 H2 H3 H4]. assert (Hin : forall c i, in_cache s' c i <-> in_cache s c i) by (intros; unfold in_cache, views; by rewrite Hs).
  constructor; rewrite ?Hs, ?Hc, ?Ha; intros; apply Hin; eauto.
Qed.

(** Changing what is not a link of a page. *)
Lemma links_set_page i d d' s : kh_slab s !! i = Some d -> sp_cache d' = sp_cache d ->
  partial_next d' = partial_next d -> partial_prev d' = partial_prev d -> links s ->
  links (with_slab (<[i := d']> (kh_slab s)) s).
Proof.
  intros Hd Hc Hn Hp [H1 H2 H3 H4]. set (s' := with_slab _ _).
  assert (Hin : forall c j, in_cache s c j -> in_cache s' c j).
  { intros c j (dj & Hdj & Hj)%in_cache_slab. apply in_cache_slab. cbn. destruct (decide (i = j)) as [<- | Hne].
    - exists d'. rewrite lookup_insert_eq. split; [done |]. congruence.
    - exists dj. by rewrite lookup_insert_ne. }
  constructor; cbn; [naive_solver | | | naive_solver].
  - intros x dx j. rewrite lookup_insert_Some. intros [[<- <-] | [_ Hx]] Hj; apply Hin; [| by apply (H2 x)].
    rewrite Hc. apply (H2 i d); congruence.
  - intros x dx j. rewrite lookup_insert_Some. intros [[<- <-] | [_ Hx]] Hj; apply Hin; [| by apply (H3 x)].
    rewrite Hc. apply (H3 i d); congruence.
Qed.

Lemma views_insert s i d : views (with_slab (<[i := d]> (kh_slab s)) s) = <[i := view_of d]> (views s).
Proof. unfold views. cbn. by rewrite fmap_insert. Qed.

Lemma views_Some s i v : views s !! i = Some v -> exists d, kh_slab s !! i = Some d /\ view_of d = v.
Proof. unfold views. rewrite lookup_fmap. intros (d & Hd & ->)%fmap_Some. by exists d. Qed.

Lemma sizes_Some s c sz : sizes s !! c = Some sz -> exists k, kh_caches s !! c = Some k /\ obj_size k = sz.
Proof. unfold sizes. rewrite lookup_fmap. intros (k & Hk & ->)%fmap_Some. by exists k. Qed.

Lemma mapped_true s a n : VMA_BASE <= a -> a + n <= page_addr (length (frames (kh_bfc s))) -> mapped s a n = true.
Proof. intros. unfold mapped. rewrite andb_true_iff, !Z.leb_le. done. Qed.

Section objects.
Context (debug : bool).

Lemma wp_poison a n s (Q : () -> kheap -> Prop) : mapped s a n = true -> 0 <= n ->
  (forall m', (forall x, x < a \/ a + n <= x -> byte m' x = byte (kh_mem s) x) -> Q () (with_mem m' s)) ->
  wp (slab_poison debug a n) s Q.
Proof.
  intros Hm Hn HQ. unfold slab_poison. destruct debug.
  - unfold memset. eexists _, _. rewrite Hm. split; [done |]. apply HQ. intros x Hx.
    rewrite fill_spec. by rewrite decide_False by lia.
  - apply wp_ret. replace s with (with_mem (kh_mem s) s) by by destruct s. by apply HQ.
Qed.

(** The outcome of an allocation of [sz] bytes from cache [c]. *)
Definition took (bl : list block) (c sz : Z) (g : gmap Z owner) (s : kheap) (r : Z) (s' : kheap) : Prop :=
  r <> 0 /\ g !! r = None /\ links s' /\ heap_core bl s' (<[r := Obj c sz false]> g) /\ kept g s s'.

Lemma wp_take_obj bl i v sz s g : heap_core bl s g -> links s -> views s !! i = Some v ->
  sizes s !! v_cache v = Some sz -> v_free v <> 0 ->
  wp (take_obj debug i sz) s (took bl (v_cache v) sz g s).
Proof.
  intros HC Hl Hv Hs Hf. destruct (core_take HC i v sz Hv Hs Hf) as (Ho & Hg & HC').
  pose proof (page_size_ok HC i v sz Hv Hs) as Hsz. destruct (obj_in_page i sz _ ltac:(lia) Ho) as [Ha1 Ha2].
  destruct (live_mapped HC' _ _ (lookup_insert_eq _ _ _)) as (Hm1 & Hm2 & _). cbn [extent] in Hm2.
  destruct (views_Some s i v Hv) as (d & Hd & <-). cbn [view_of v_cache v_free v_inuse v_count] in *.
  unfold take_obj. apply wp_bind, (wp_get_slab i d); [done |].
  apply wp_bind. eexists _, _. unfold load_ptr. rewrite mapped_true by lia. split; [done |].
  apply wp_bind. eexists _, _. split; [done |]. set (s1 := with_slab _ s).
  apply wp_bind. apply wp_poison; [by apply mapped_true | lia |]. intros m' Hm'.
  apply wp_bind. eexists _, _. split; [done |]. apply wp_ret. split_and!; [done | done | | |].
  - apply (links_ext s1); [done | done | done |]. by apply (links_set_page i d).
  - change (core bl (kh_bfc s) (views s1) m' (sizes s) (s32 (slab_used_bytes s + s32 sz)) (<[freelist d := Obj (sp_cache d) sz false]> g)).
    unfold s1. rewrite views_insert. apply (core_write HC' (freelist d) (Obj (sp_cache d) sz false)); [apply lookup_insert_eq | done].
  - intros a o x Ha Hx. cbn. apply Hm'. cbn in *.
    destruct (free_sep HC i _ sz _ a o Hv Hs Ho Hg Ha); lia.
Qed.

(** The list of objects of a fresh page. *)
Lemma wp_init_objs i sz n : forall j fl s, 8 <= sz -> (Z.of_nat j + Z.of_nat n) * sz <= PAGE_SIZE ->
  Z.of_nat i * PAGE_SIZE < 2 ^ 39 -> (i < length (frames (kh_bfc s)))%nat -> chain (kh_mem s) fl (all_objs i sz j) ->
  wp (init_objs n (page_addr i) sz (Z.of_nat j) fl) s (fun fl' s' => exists m', s' = with_mem m' s /\
    chain m' fl' (all_objs i sz (j + n)) /\ forall x, x < page_addr i \/ page_addr i + PAGE_SIZE <= x -> byte m' x = byte (kh_mem s) x).
Proof.
  induction n as [| n IH]; intros j fl s Hsz Hfit Hi Hlen Hch.
  - apply wp_ret. exists (kh_mem s). split; [by destruct s |]. by rewrite Nat.add_0_r.
  - cbn [init_objs]. set (obj := page_addr i + Z.of_nat j * sz). apply wp_bind.
    assert (Hobj : page_addr i <= obj /\ obj + sz <= page_addr i + PAGE_SIZE) by (unfold obj; nia).
    unfold store_ptr. eexists _, _. rewrite mapped_true by (unfold page_addr, PAGE_SIZE in *; lia). split; [done |].
    set (s1 := with_mem _ s). replace (Z.of_nat j + 1) with (Z.of_nat (S j)) by lia.
    eapply wp_mono; [apply (IH (S j) obj s1) |]; [done | lia | done | done | |].
    + cbn [all_objs chain]. split; [done |]. split; [unfold page_addr, VMA_BASE, PAGE_SIZE in *; lia |].
      assert (Hfl : 0 <= fl < 2 ^ 64) by (destruct (all_objs i sz j); [cbn in Hch; lia | destruct Hch as (-> & ? & _); lia]).
      cbn [kh_mem with_mem s1]. rewrite load_store_le by done.
      apply (chain_ext (kh_mem s)); [| done]. intros a x (k & Hk & ->)%elem_of_all_objs Hx.
      apply store_le_other. left. unfold obj. nia.
    + intros fl' s' (m' & -> & Hc' & Hm'). exists m'. split; [done |]. split; [by rewrite <- Nat.add_succ_comm |].
      intros x Hx. rewrite Hm' by done. apply store_le_other. lia.
Qed.

(** A page from the allocator becomes a slab page of cache [c]. *)
Lemma wp_slab_page_init bl i c k cpu s g : heap_core bl s g -> links s -> kh_caches s !! c = Some k ->
  g !! page_addr i = Some (Raw 1) ->
  wp (slab_page_init i c cpu) s (fun _ s' => links s' /\ heap_core bl s' (delete (page_addr i) g) /\
    kh_caches s' = kh_caches s /\ kept (delete (page_addr i) g) s s' /\ kh_slab s !! i = None /\
    exists fl, kh_slab s' = <[i := SlabPage c fl 0 (PAGE_SIZE / obj_size k) (s8 cpu) None None]> (kh_slab s) /\ fl <> 0).
Proof.
  intros HC Hl Hk Hg. assert (Hs : sizes s !! c = Some (obj_size k)) by (unfold sizes; by rewrite lookup_fmap, Hk).
  pose proof (c_sizes _ _ _ _ _ _ _ HC _ _ Hs) as Hsz. pose proof (page_count_bound (obj_size k) ltac:(lia)) as Hpc.
  pose proof (c_block _ _ _ _ _ _ _ HC _ _ _ Hg eq_refl) as (i' & p & Hi & _ & Hp & _).
  assert (i' = i) as -> by (unfold page_addr, PAGE_SIZE in Hi; lia). pose proof (lookup_lt_Some _ _ _ Hp) as Hlt.
  pose proof (c_mapped _ _ _ _ _ _ _ HC) as Hmap.
  destruct (upd_ok i (set_status PAGE_SLAB) (kh_bfc s) p Hp) as (b' & Hu & (Hlen & _) & _).
  unfold slab_page_init. apply wp_bind, (wp_get_cache c k); [done |].
  apply wp_bind. eexists _, _. rewrite Hu. split; [done |].
  apply wp_bind. eexists _, _. split; [done |]. apply wp_bind.
  set (n := PAGE_SIZE / obj_size k) in *. set (d0 := SlabPage c 0 0 n (s8 cpu) None None). set (s1 := with_slab _ _).
  assert (Hfit : n * obj_size k <= PAGE_SIZE) by (unfold n; rewrite Z.mul_comm; apply Z.mul_div_le; lia).
  eapply wp_mono; [apply (wp_init_objs i (obj_size k) (Z.to_nat n) 0 0 s1) |]; [lia | | | | done |].
  1: rewrite Z2Nat.id; lia.
  1: unfold PAGE_SIZE in *; lia.
  1: cbn; by rewrite Hlen.
  intros fl s' (m' & -> & Hch & Hm). rewrite Nat.add_0_l in Hch.
  destruct (core_to_slab HC i c (obj_size k) b' m' fl Hg Hs Hu) as [Hfresh HC']; [by intros; apply Hm | done |].
  apply wp_bind, (wp_get_slab i d0); [cbn; apply lookup_insert_eq |].
  eexists _, _. split; [done |]. set (s2 := with_slab _ _).
  assert (Hviews : views s2 = <[i := View c fl 0 n]> (views s)).
  { unfold views, s2. cbn. by rewrite insert_insert_eq, fmap_insert. }
  assert (Hin : forall x j, in_cache s x j -> in_cache s2 x j).
  { intros x j (v & Hv & Hx). exists v. rewrite Hviews, lookup_insert_ne by congruence. done. }
  split_and!; [| | done | | |].
  - destruct Hl as [L1 L2 L3 L4]. constructor; cbn; [naive_solver | | | naive_solver].
    + intros x dx j. rewrite insert_insert_eq, lookup_insert_Some. intros [[<- <-] | [_ Hx]] Hj; [done |]. by apply Hin, (L2 x).
    + intros x dx j. rewrite insert_insert_eq, lookup_insert_Some. intros [[<- <-] | [_ Hx]] Hj; [done |]. by apply Hin, (L3 x).
  - unfold heap_core. rewrite Hviews. exact HC'.
  - intros a o x [Hne Ha]%lookup_delete_Some Hx. cbn. apply Hm.
    destruct (live_sep HC a o (page_addr i) (Raw 1) Ha Hg ltac:(done)); cbn [extent] in *; lia.
  - unfold views in Hfresh. rewrite lookup_fmap in Hfresh. by apply fmap_None in Hfresh.
  - exists fl. split; [cbn; by rewrite insert_insert_eq |]. intros ->.
    apply chain_nil_iff in Hch. pose proof (proj1 Hch eq_refl) as Hnil.
    assert (1 <= n) by (apply Z.div_le_lower_bound; unfold PAGE_SIZE; lia).
    pose proof (length_all_objs i (obj_size k) (Z.to_nat n)) as Hl'. rewrite Hnil in Hl'. cbn in Hl'. lia.
Qed.

Lemma wp_get_pages bl n s g : heap_core bl s g -> links s -> 0 < n ->
  wp (alloc_pages n) s (fun r s' =>
    match r with
    | None => s' = s /\ forall x l, (x, l) ∈ bl -> Z.of_nat l < n
    | Some i => exists bl', g !! page_addr i = None /\ heap_core bl' s' (<[page_addr i := Raw (Z.to_nat n)]> g) /\ links s' /\
        kh_mem s' = kh_mem s /\ kh_caches s' = kh_caches s /\ sizes s' = sizes s /\ kh_slab s' = kh_slab s
    end).
Proof.
  intros HC Hl Hn. destruct (alloc_pages_spec (Z.to_nat n) (kh_bfc s) bl (c_rep _ _ _ _ _ _ _ HC) ltac:(lia)) as (b' & r & Heq & Hr).
  eexists _, _. unfold alloc_pages. rewrite Heq. split; [done |]. cbn [fst snd]. destruct r as [i |].
  - destruct Hr as (bl' & Hrep & Hlen & Hcov & Hdis & Hgr & Hcont & Hsame).
    destruct (core_grant HC b' i (Z.to_nat n) bl' Hrep ltac:(lia) Hlen Hcov Hdis Hgr Hcont Hsame) as [Hf HC'].
    exists bl'. split_and!; try done. by apply (links_ext s).
  - destruct Hr as [-> Hno]. split; [by destruct s |]. intros x l Hx%Hno. lia.
Qed.
End objects.

(** ** [kmalloc] and its relatives *)

Definition no_room (n : Z) (s : kheap) : Prop := exists bl, rep (kh_bfc s) bl /\ forall x l, (x, l) ∈ bl -> Z.of_nat l < n.

(** An allocation gives something nobody holds, or nothing when there are not
    [need] contiguous free pages; what is held keeps its contents. *)
Definition obtained (o : owner) (need : Z) (g : gmap Z owner) (s : kheap) (r : Z) (s' : kheap) : Prop :=
  kept g s s' /\
  ((r = 0 /\ heap_ok s' g /\ no_room need s') \/ (r <> 0 /\ g !! r = None /\ heap_ok s' (<[r := o]> g))).

Lemma took_obtained bl c sz n g s s1 r s' : took bl c sz g s1 r s' -> kept g s s1 -> obtained (Obj c sz false) n g s r s'.
Proof.
  intros (Hr & Hg & Hl & HC & Hk) Hk0. split; [by eapply contents_kept_trans |]. right. split_and!; [done | done |].
  split; [done |]. by exists bl.
Qed.

Lemma links_set_active cpu c i s : links s -> in_cache s c i -> links (with_active (<[(cpu, c) := i]> (kh_active s)) s).
Proof.
  intros [H1 H2 H3 H4] Hi. constructor; cbn; try done.
  intros cpu' c' j. rewrite lookup_insert_Some. intros [[[= <- <-] <-] | [_ Hj]]; [done |]. by apply (H4 cpu').
Qed.

Lemma heap_ok_stats s g m f : heap_ok s g -> heap_ok (with_stats m f (slab_used_bytes s) s) g.
Proof. intros [Hl HC]. split; [by apply (links_ext s) | done]. Qed.

(** Turning one kind of holding into another. *)
Lemma core_relabel bl b V m S u u' g a o o' n : core bl b V m S u g -> g !! a = Some o -> block_of o = Some n -> block_of o' = Some n ->
  u' = s32 (charged (<[a := o']> g)) -> core bl b V m S u' (<[a := o']> g).
Proof.
  intros [H1 H2 H3 H4 H5 H6 H7 H8 H9 H10] Ha Hn Hn' Hu.
  assert (Hback : forall x ox k, <[a := o']> g !! x = Some ox -> block_of ox = Some k -> exists oy, g !! x = Some oy /\ block_of oy = Some k).
  { intros x ox k. rewrite lookup_insert_Some. intros [[<- <-] | [_ Hx]] Hk; [| by exists ox]. exists o. split; [done | congruence]. }
  constructor; try done.
  - intros i v Hv. destruct (H3 i v Hv) as (p & sz & F & ? & ? & ? & ? & ? & ? & ? & ? & HF). exists p, sz, F. split_and!; try done.
    intros x. rewrite HF, lookup_insert_None. split; [| naive_solver]. intros [? Hx]. split_and!; congruence.
  - intros c sz Hc. destruct (H6 c sz Hc) as [? | (z & Hz)]; [by left | right]. exists z.
    rewrite lookup_insert_ne; [done |]. intros ->. rewrite Hz in Ha. by injection Ha as <-.
  - intros x c sz ctl. rewrite lookup_insert_Some. intros [[_ ->] | [_ Hx]]; [done |]. by apply (H7 x c sz ctl).
  - intros x ox k Hx Hk. destruct (Hback x ox k Hx Hk) as (oy & Hy & Hky). by apply (H8 x oy).
  - intros x ox k x' ox' k' Hx Hk Hx' Hk'. destruct (Hback x ox k Hx Hk) as (oy & Hy & Hky).
    destruct (Hback x' ox' k' Hx' Hk') as (oy' & Hy' & Hky'). by apply (H9 x oy k x' oy' k').
Qed.

Lemma core_new_cache bl b V m S u g a sz n : core bl b V m S u g -> g !! a = Some (Obj 2 sz false) -> 8 <= n <= 2048 ->
  core bl b V m (<[a := n]> S) u (<[a := Obj 2 sz true]> g).
Proof.
  intros HC Ha Hn. destruct (live_mapped HC a _ Ha) as (HaV & _).
  destruct HC as [H1 H2 H3 H4 H5 H6 H7 H8 H9 H10].
  assert (Hfresh : S !! a = None).
  { apply eq_None_not_Some. intros [sz' Hs]. destruct (H6 a sz' Hs) as [? | (z & Hz)]; [| congruence].
    unfold VMA_BASE, NUM_KMALLOC_CLASSES in *. lia. }
  assert (HS : forall c z, S !! c = Some z -> <[a := n]> S !! c = Some z) by (intros; by rewrite lookup_insert_ne by congruence).
  constructor; try done.
  - intros i v Hv. destruct (H3 i v Hv) as (p & z & F & ? & ? & ? & ? & ? & ? & ? & ? & HF). exists p, z, F.
    split_and!; try done; [by apply HS |].
    intros x. rewrite HF, lookup_insert_None. split; [| naive_solver]. intros [? Hx]. split_and!; congruence.
  - intros c z. rewrite lookup_insert_Some. intros [[_ <-] | [_ Hc]]; [lia | by apply (H4 c)].
  - intros c Hc. rewrite lookup_insert_ne; [by apply H5 |]. unfold VMA_BASE, NUM_KMALLOC_CLASSES in *. lia.
  - intros c z. rewrite lookup_insert_Some. intros [[<- _] | [Hne Hc]]; [right; exists sz; apply lookup_insert_eq |].
    destruct (H6 c z Hc) as [? | (y & Hy)]; [by left | right]. exists y. by rewrite lookup_insert_ne.
  - assert (Hobj : forall x c z ctl, g !! x = Some (Obj c z ctl) ->
      exists i v, V !! i = Some v /\ v_cache v = c /\ <[a := n]> S !! c = Some z /\ is_obj i z x).
    { intros x c z ctl Hx. destruct (H7 x c z ctl Hx) as (i & v & ? & ? & Hc & ?). exists i, v. split_and!; try done. by apply HS. }
    intros x c z ctl. rewrite lookup_insert_Some. intros [[<- [= <- <- <-]] | [_ Hx]]; [by apply (Hobj a 2 sz false) | by apply (Hobj x c z ctl)].
  - intros x o k. rewrite lookup_insert_Some. intros [[_ <-] | [_ Hx]]; [done |]. by apply H8.
  - intros x o k x' o' k'. rewrite !lookup_insert_Some. intros [[_ <-] | [_ Hx]]; [done |].
    intros Hk [[_ <-] | [_ Hx']]; [done |]. by apply (H9 x o k x' o' k').
  - rewrite <- (insert_delete_id g a _ Ha), insert_insert_eq, charged_insert by apply lookup_delete_eq.
    rewrite (charged_delete _ _ _ Ha), H10. f_equal. cbn [charge]. lia.
Qed.

Definition class_size (c : Z) : Z := default 0 (class_sizes !! Z.to_nat c).

Lemma size_to_class_ok size : 0 < size <= 2048 ->
  let c := size_to_class size in 0 <= c < NUM_KMALLOC_CLASSES /\ class_sizes !! Z.to_nat c = Some (class_size c) /\ size <= class_size c.
Proof.
  intros Hs. unfold size_to_class, NUM_KMALLOC_CLASSES.
  repeat match goal with |- context [size <=? ?x] => destruct (Z.leb_spec size x) end;
    (split; [lia |]; split; [reflexivity |]);
    match goal with |- _ <= class_size ?c => let v := eval vm_compute in (class_size c) in change (class_size c) with v; lia end.
Qed.

(** What [kmalloc(size)] hands out, and the pages it needs for it. *)
Definition pages_for (size : Z) : Z := (size + PAGE_SIZE - 1) / PAGE_SIZE.
Definition fresh_owner (size : Z) : owner :=
  if 2048 <? size then Large (Z.to_nat (pages_for size)) else Obj (size_to_class size) (class_size (size_to_class size)) false.
Definition pages_needed (size : Z) : Z := if 2048 <? size then pages_for size else 1.

Lemma fresh_owner_extent size : 0 < size -> size <= extent (fresh_owner size).
Proof.
  intros Hs. unfold fresh_owner. destruct (Z.ltb_spec 2048 size) as [Hl | Hl]; cbn [extent].
  - unfold pages_for, PAGE_SIZE. rewrite Z2Nat.id by (apply Z.div_pos; lia). Z.to_euclidean_division_equations. lia.
  - by apply size_to_class_ok.
Qed.

Section kmalloc.
Context (debug : bool).

(** A new page for cache [c]. *)
Lemma wp_new_page {A} bl c k cpu s g (f : nat -> hp A) (fail : hp A) (Q : A -> kheap -> Prop) :
  heap_core bl s g -> links s -> kh_caches s !! c = Some k ->
  (no_room 1 s -> wp fail s Q) ->
  (forall bl' i s' d, heap_core bl' s' g -> links s' -> kh_slab s !! i = None -> kh_slab s' = <[i := d]> (kh_slab s) ->
     d = SlabPage c (freelist d) 0 (PAGE_SIZE / obj_size k) (s8 cpu) None None -> freelist d <> 0 ->
     kh_caches s' = kh_caches s -> kept g s s' -> wp (f i) s' Q) ->
  wp (r ← alloc_pages 1; match r with None => fail | Some i => _ ← slab_page_init i c cpu; f i end) s Q.
Proof.
  intros HC Hl Hk Hfail Hf. apply wp_bind. eapply wp_mono; [by apply (wp_get_pages bl 1 s g) |].
  intros [i |] s1; [| intros [-> Hno]; apply Hfail; exists bl; split; [apply (c_rep _ _ _ _ _ _ _ HC) | done]].
  intros (bl' & Hg & HC1 & Hl1 & Hm1 & Hc1 & Hs1 & Hsl1). apply wp_bind.
  eapply wp_mono; [apply (wp_slab_page_init bl' i c k cpu s1 _ HC1 Hl1); [by rewrite Hc1 | apply lookup_insert_eq] |].
  rewrite delete_insert_id by done. rewrite Hsl1. intros [] s2 (Hl2 & HC2 & Hc2 & Hk2 & Hfr & fl & Hsl & Hfl).
  apply (Hf bl' i s2 (SlabPage c fl 0 (PAGE_SIZE / obj_size k) (s8 cpu) None None)); try done; [congruence |].
  eapply contents_kept_trans; [by apply kept_mem | done].
Qed.

Lemma wp_kmalloc_slow bl cpu c k s g : links s -> heap_core bl s g -> kh_caches s !! c = Some k ->
  wp (kmalloc_slow debug cpu c k) s (obtained (Obj c (obj_size k) false) 1 g s).
Proof.
  intros Hl HC Hk. unfold kmalloc_slow.
  apply wp_bind. eapply wp_mono; [by apply (wp_take_partial bl c k s g) |]. intros [i |] s1 (Hr1 & Hl1 & Hres).
  - destruct Hres as (v & Hv & <- & Hf). destruct (views_Some s1 i v Hv) as (d & Hd & <-).
    apply wp_bind, (wp_get_slab i d); [done |]. apply wp_bind. eexists _, _. split; [done |].
    apply wp_bind. eexists _, _. split; [done |]. set (s2 := with_slab _ s1).
    assert (Hr2 : relinked s1 s2).
    { split_and!; try done. unfold s2. rewrite views_insert. by apply insert_id. }
    pose proof (relinked_trans _ _ _ Hr1 Hr2) as Hr. set (s3 := with_active _ s2).
    eapply wp_mono; [apply (wp_take_obj debug bl i (view_of d) (obj_size k) s3 g) |].
    + by apply (relinked_core bl s).
    + apply links_set_active; [by apply (links_set_page i d) |]. apply (relinked_in_cache s1 s2); [done |]. by exists (view_of d).
    + destruct Hr2 as (_ & Hv2 & _). change (views s3) with (views s2). by rewrite Hv2.
    + destruct Hr as (_ & _ & _ & Hsz & _). change (sizes s3) with (sizes s2). rewrite Hsz.
      unfold sizes. by rewrite lookup_fmap, Hk.
    + done.
    + intros r s' Ht. apply (took_obtained _ _ _ _ _ _ _ _ _ Ht). by apply relinked_kept.
  - destruct (relinked_cache s s1 c k Hr1 Hk) as (k1 & Hk1 & Hk1s). rewrite <- Hk1s.
    apply (wp_new_page bl c k1 cpu s1 g); [by apply (relinked_core bl s) | done | done | |].
    + intros Hno. apply wp_ret. split; [by apply relinked_kept |]. left. split_and!; [done | | done].
      split; [done |]. exists bl. by apply (relinked_core bl s).
    + intros bl' i s2 d HC2 Hl2 _ Hsl Hd Hf Hc2 Hkept. apply wp_bind. eexists _, _. split; [done |].
      assert (Hv : views s2 !! i = Some (view_of d)) by (unfold views; by rewrite Hsl, lookup_fmap, lookup_insert_eq).
      assert (Hdc : sp_cache d = c) by (by rewrite Hd). rewrite <- Hdc in *.
      set (s3 := with_active _ s2). eapply wp_mono; [apply (wp_take_obj debug bl' i (view_of d) (obj_size k1) s3 g) |].
      * done.
      * apply links_set_active; [done |]. by exists (view_of d).
      * done.
      * change (sizes s3) with (sizes s2). cbn [view_of v_cache]. unfold sizes. by rewrite lookup_fmap, Hc2, Hk1.
      * done.
      * intros r s' Ht. apply (took_obtained _ _ _ _ _ _ _ _ _ Ht).
        eapply contents_kept_trans; [by apply relinked_kept | done].
Qed.

Lemma wp_kmalloc_small cpu c sz s g : heap_ok s g -> sizes s !! c = Some sz ->
  wp (kmalloc_small debug cpu c) s (obtained (Obj c sz false) 1 g s).
Proof.
  intros (Hl & bl & HC) Hs. destruct (sizes_Some s c sz Hs) as (k & Hk & <-).
  unfold kmalloc_small. apply wp_bind, (wp_get_cache c k); [done |].
  apply wp_bind. eexists _, _. split; [done |].
  destruct (kh_active s !! (cpu, c)) as [i |] eqn:Ha; [| by apply (wp_kmalloc_slow bl)].
  pose proof (l_active s Hl cpu c i Ha) as (v & Hv & Hvc). destruct (views_Some s i v Hv) as (d & Hd & <-).
  apply wp_bind, (wp_get_slab i d); [done |].
  destruct (Z.eqb_spec (freelist d) 0) as [_ | Hf]; [by apply (wp_kmalloc_slow bl) |].
  rewrite <- Hvc in *. eapply wp_mono; [by apply (wp_take_obj debug bl i (view_of d)) |].
  intros r s' Ht. by apply (took_obtained _ _ _ _ _ _ _ _ _ Ht), kept_mem.
Qed.

Lemma wp_slab_kmalloc cpu size s g : heap_ok s g -> 0 < size < 2 ^ 64 ->
  wp (kmalloc debug cpu size) s (obtained (fresh_owner size) (pages_needed size) g s).
Proof.
  intros Hok Hsize. unfold kmalloc. destruct (Z.eqb_spec size 0) as [-> | _]; [lia |].
  apply wp_bind. eexists _, _. split; [done |].
  pose proof (heap_ok_stats s g (s32 (kmalloc_calls s + 1)) (kfree_calls s) Hok) as Hok1. set (s1 := with_stats _ _ _ s) in *.
  unfold fresh_owner, pages_needed. destruct (Z.ltb_spec 2048 size) as [Hl | Hl].
  - destruct Hok1 as (Hl1 & bl & HC). pose proof (c_mapped _ _ _ _ _ _ _ HC) as Hmap.
    assert (Hpf : 0 < pages_for size) by (unfold pages_for, PAGE_SIZE; Z.to_euclidean_division_equations; lia).
    destruct (decide (size + PAGE_SIZE - 1 < 2 ^ 64)) as [Hov | Hov].
    + rewrite u64_small by (unfold PAGE_SIZE in *; lia). fold (pages_for size). apply wp_bind.
      eapply wp_mono; [by apply (wp_get_pages bl (pages_for size) s1 g) |]. intros [i |] s2.
      * intros (bl' & Hg & HC2 & Hl2 & Hm2 & _). apply wp_bind. eexists _, _. split; [done |]. apply wp_ret.
        split; [by apply kept_mem |]. right. split_and!; [unfold page_addr, VMA_BASE, PAGE_SIZE; lia | done |].
        split; [by apply (links_ext s2) |]. exists bl'. unfold heap_core. cbn.
        set (n := Z.to_nat (pages_for size)) in *.
        replace (<[page_addr i := Large n]> g) with (<[page_addr i := Large n]> (<[page_addr i := Raw n]> g)) by apply insert_insert_eq.
        eapply core_relabel; [exact HC2 | apply lookup_insert_eq | done | done |].
        rewrite insert_insert_eq, charged_insert by done. rewrite (c_used _ _ _ _ _ _ _ HC2), charged_insert by done.
        cbn [charge]. unfold n. rewrite Z2Nat.id by lia. rewrite s32_add. f_equal. lia.
      * intros [-> Hno]. apply wp_ret. split; [by apply kept_mem |]. left. split_and!; [done | by split; [| exists bl] |].
        exists bl. split; [apply (c_rep _ _ _ _ _ _ _ HC) | done].
    + replace (u64 (size + PAGE_SIZE - 1) / PAGE_SIZE) with 0.
      2:{ unfold u64, PAGE_SIZE in *. rewrite <- (Z.mod_unique _ _ 1 (size + 4096 - 1 - 2 ^ 64)) by lia. symmetry. apply Z.div_small. lia. }
      apply wp_bind. eexists _, _. split; [done |]. apply wp_ret. split; [by apply kept_mem |]. left. split_and!; [done | |].
      * split; [by apply (links_ext s1) |]. by exists bl.
      * exists bl. split; [apply (c_rep _ _ _ _ _ _ _ HC) |]. intros x l Hx.
        pose proof (rep_inside _ _ (c_rep _ _ _ _ _ _ _ HC)) as Hins. unfold inside in Hins. rewrite Forall_forall in Hins.
        specialize (Hins _ Hx). cbn [fst snd] in Hins. unfold pages_for, PAGE_SIZE in *. Z.to_euclidean_division_equations. lia.
  - destruct (size_to_class_ok size ltac:(lia)) as (Hc & Hcs & _). pose proof Hok1 as (_ & bl & HC).
    eapply wp_mono; [apply (wp_kmalloc_small cpu _ (class_size (size_to_class size)) s1 g Hok1) |].
    + by rewrite (c_class _ _ _ _ _ _ _ HC).
    + intros r s' Ho. exact Ho.
Qed.

(** Giving an object back. *)
Lemma wp_put_obj bl c i sz a s g : heap_core bl s g -> links s -> g !! a = Some (Obj c sz false) -> in_cache s c i -> is_obj i sz a ->
  wp (put_obj c i sz a) s (fun _ s' => links s' /\ heap_core bl s' (delete a g) /\
    forall x, x < a \/ a + 8 <= x -> byte (kh_mem s') x = byte (kh_mem s) x).
Proof.
  intros HC Hl Ha (v & Hv & <-) Hao. pose proof (core_put HC i v sz a Hv Ha Hao) as HC'.
  destruct (c_obj _ _ _ _ _ _ _ HC _ _ _ _ Ha) as (_ & _ & _ & _ & Hs & _). pose proof (c_sizes _ _ _ _ _ _ _ HC _ _ Hs) as Hsz.
  destruct (live_mapped HC a _ Ha) as (Hm1 & Hm2 & _). cbn [extent] in Hm2.
  destruct (sizes_Some s _ _ Hs) as (k & Hk & _). destruct (views_Some s i v Hv) as (d & Hd & <-).
  unfold put_obj. apply wp_bind, (wp_get_slab i d); [done |]. apply wp_bind.
  unfold store_ptr. eexists _, _. rewrite mapped_true by lia. split; [done |].
  apply wp_bind. eexists _, _. split; [done |]. apply wp_bind. eexists _, _. split; [done |].
  apply wp_bind. eapply wp_get_slab; [cbn; apply lookup_insert_eq |].
  set (s1 := with_stats _ _ _ _).
  assert (HC1 : heap_core bl s1 (delete a g)).
  { unfold heap_core, s1. cbn. unfold views. cbn. rewrite fmap_insert. exact HC'. }
  assert (Hl1 : links s1).
  { apply (links_ext (with_slab (<[i := set_objs a (u32 (inuse d - 1)) d]> (kh_slab s)) s)); [done ..|]. by apply (links_set_page i d). }
  assert (Hout : forall x, x < a \/ a + 8 <= x -> byte (kh_mem s1) x = byte (kh_mem s) x) by (intros x Hx; by apply store_le_other).
  destruct (_ =? _); [| by apply wp_ret].
  eapply wp_mono; [apply (wp_partial_add (sp_cache d) k i s1 Hl1 Hk) |].
  - apply in_cache_slab. eexists. cbn. rewrite lookup_insert_eq. done.
  - intros [] s2 (Hr & Hl2). split_and!; [done | by apply (relinked_core bl s1) |].
    destruct Hr as (_ & _ & -> & _). done.
Qed.

(** What can be passed to [kfree]: NULL, an object, or a large block. *)
Definition freeable (g : gmap Z owner) (a : Z) : Prop :=
  a = 0 \/ (exists c sz, g !! a = Some (Obj c sz false)) \/ exists n, g !! a = Some (Large n).

Lemma wp_count_kfree {A} (f : hp A) s g Q : heap_ok s g ->
  (forall s', heap_ok s' g -> kh_mem s' = kh_mem s -> kh_bfc s' = kh_bfc s -> kh_slab s' = kh_slab s -> kh_caches s' = kh_caches s -> wp f s' Q) ->
  wp (_ ← count_kfree; f) s Q.
Proof.
  intros Hok Hf. apply wp_bind. eexists _, _. split; [done |]. apply Hf; try done. by apply heap_ok_stats.
Qed.

(** The page of an object is found from its address. *)
Lemma obj_frame bl s g a c sz ctl : heap_core bl s g -> g !! a = Some (Obj c sz ctl) ->
  exists p d k, frames (kh_bfc s) !! page_of a = Some p /\ status p = PAGE_SLAB /\ kh_slab s !! page_of a = Some d /\ sp_cache d = c /\
    kh_caches s !! c = Some k /\ obj_size k = sz /\ is_obj (page_of a) sz a.
Proof.
  intros HC Ha. destruct (c_obj _ _ _ _ _ _ _ HC _ _ _ _ Ha) as (i & v & Hv & <- & Hs & Hao).
  pose proof (c_sizes _ _ _ _ _ _ _ HC _ _ Hs). pose proof (obj_in_page i sz a ltac:(lia) Hao).
  rewrite (page_of_in i a) by (lia || by apply (page_bound HC i v)).
  destruct (c_page _ _ _ _ _ _ _ HC i v Hv) as (p & _ & _ & Hp & Hst & _).
  destruct (views_Some s i v Hv) as (d & Hd & <-). destruct (sizes_Some s _ _ Hs) as (k & Hk & Hks).
  exists p, d, k. split_and!; done.
Qed.

Lemma wp_free_slab bl c sz a s g : heap_core bl s g -> links s -> g !! a = Some (Obj c sz false) ->
  wp (_ ← slab_poison debug a sz; put_obj c (page_of a) sz a) s
    (fun _ s' => heap_ok s' (delete a g) /\ kept (delete a g) s s').
Proof.
  intros HC Hl Ha. destruct (live_mapped HC a _ Ha) as (Hm1 & Hm2 & Hm3). cbn [extent] in *.
  destruct (obj_frame bl s g a c sz false HC Ha) as (p & d & k & _ & _ & Hd & Hdc & _ & _ & Hao).
  destruct (c_obj _ _ _ _ _ _ _ HC _ _ _ _ Ha) as (_ & _ & _ & _ & Hs & _). pose proof (c_sizes _ _ _ _ _ _ _ HC _ _ Hs) as Hsz.
  apply wp_bind. apply wp_poison; [by apply mapped_true | lia |]. intros m' Hm'. set (s1 := with_mem m' s).
  eapply wp_mono; [apply (wp_put_obj bl c (page_of a) sz a s1 g) |].
  - by apply (core_write HC a (Obj c sz false)).
  - by apply (links_ext s).
  - done.
  - apply in_cache_slab. by exists d.
  - done.
  - intros [] s2 (Hl2 & HC2 & Hm2'). split; [split; [done | by exists bl] |].
    intros x o y [Hne Hx]%lookup_delete_Some Hy. destruct (live_sep HC _ _ _ _ Hx Ha ltac:(done)); cbn [extent] in *.
    + rewrite Hm2' by lia. apply Hm'. lia.
    + rewrite Hm2' by lia. apply Hm'. lia.
Qed.

Lemma wp_slab_kfree a s g : heap_ok s g -> freeable g a ->
  wp (kfree debug a) s (fun _ s' => heap_ok s' (delete a g) /\ kept (delete a g) s s').
Proof.
  intros Hok Hfr. unfold kfree. destruct (Z.eqb_spec a 0) as [-> | Hne].
  { apply wp_ret. assert (Hz : g !! 0 = None).
    { destruct Hok as (_ & bl & HC). apply eq_None_not_Some. intros [o Ho]. destruct (live_mapped HC _ _ Ho). unfold VMA_BASE in *. lia. }
    rewrite delete_id by done. split; [done | by apply kept_mem]. }
  destruct Hfr as [? | Hfr]; [done |].
  apply (wp_count_kfree _ s g); [done |]. intros s1 (Hl1 & bl & HC1) Hm1 Hb1 Hs1 Hc1.
  destruct Hfr as [(c & sz & Ha) | (n & Ha)].
  - destruct (obj_frame bl s1 g a c sz false HC1 Ha) as (p & d & k & Hp & Hst & Hd & <- & Hk & <- & _).
    apply wp_bind. eexists _, _. unfold get_frame. rewrite Hp. split; [done |]. rewrite Hst.
    apply wp_bind, (wp_get_slab _ d); [done |]. apply wp_bind, (wp_get_cache _ k); [done |].
    eapply wp_mono; [by apply (wp_free_slab bl) |]. intros [] s2 [? Hk2]. split; [done |].
    eapply contents_kept_trans; [by apply kept_mem | done].
  - destruct (c_block _ _ _ _ _ _ _ HC1 _ _ _ Ha eq_refl) as (i & p & -> & Hn & Hp & Hpc & Hj).
    assert (Hi : page_of (page_addr i) = i).
    { apply page_of_in; [unfold PAGE_SIZE; lia |]. pose proof (lookup_lt_Some _ _ _ Hp).
      pose proof (c_mapped _ _ _ _ _ _ _ HC1). unfold PAGE_SIZE in *. lia. }
    rewrite Hi. apply wp_bind. eexists _, _. unfold get_frame. rewrite Hp. split; [done |].
    destruct (Hj i ltac:(lia)) as (_ & q & Hq & Hst). assert (q = p) as -> by congruence. rewrite Hst, Hpc.
    apply wp_bind. eexists _, _. split; [done |]. set (s2 := with_stats _ _ _ s1).
    destruct (core_release HC1 i n (Large n) (slab_used_bytes s2) Ha eq_refl) as (b' & r & Hf & HC2).
    { cbn. rewrite (charged_delete _ _ _ Ha), (c_used _ _ _ _ _ _ _ HC1), s32_sub. done. }
    eexists _, _. unfold free_pages. change (kh_bfc s2) with (kh_bfc s1). rewrite Hf. split; [done |].
    split; [split; [by apply (links_ext s1) | by eexists] | by apply kept_mem].
Qed.

Lemma heap_ok_write s g a o m' : heap_ok s g -> g !! a = Some o ->
  (forall x, x < a \/ a + extent o <= x -> byte m' x = byte (kh_mem s) x) -> heap_ok (with_mem m' s) g.
Proof. intros (Hl & bl & HC) Ha Hm. split; [by apply (links_ext s) |]. exists bl. by apply (core_write HC a o). Qed.

Lemma heap_ok_mapped s g a o n : heap_ok s g -> g !! a = Some o -> n <= extent o -> mapped s a n = true.
Proof.
  intros (_ & bl & HC) Ha Hn. destruct (live_mapped HC a o Ha) as (? & ? & _). apply mapped_true; [done |]. lia.
Qed.

Lemma heap_ok_nonzero s g a o : heap_ok s g -> g !! a = Some o -> a <> 0 /\ 0 < extent o.
Proof. intros (_ & bl & HC) Ha. destruct (live_mapped HC a o Ha) as (? & _ & ?). unfold VMA_BASE in *. lia. Qed.

Lemma wp_kcalloc cpu n size s g : heap_ok s g -> 0 <= n < 2 ^ 64 -> 0 <= size < 2 ^ 64 ->
  wp (kcalloc debug cpu n size) s (fun r s' =>
    (r = 0 /\ heap_ok s' g /\ kept g s s' /\ (n * size = 0 \/ 2 ^ 64 <= n * size \/ no_room (pages_needed (n * size)) s')) \/
    (r <> 0 /\ g !! r = None /\ heap_ok s' (<[r := fresh_owner (n * size)]> g) /\ kept g s s' /\ 0 < n * size /\
     forall x, r <= x < r + n * size -> byte (kh_mem s') x = 0)).
Proof.
  intros Hok Hn Hsize. unfold kcalloc.
  destruct (negb (n =? 0) && negb (size =? 0) && (UINT64_MAX / size <? n)) eqn:E.
  { bool_to_prop. apply wp_ret. left. split_and!; [done | done | by apply kept_mem |]. right. left.
    unfold UINT64_MAX in *. pose proof (Z.mul_succ_div_gt (2 ^ 64 - 1) size). nia. }
  assert (Hsmall : n * size < 2 ^ 64).
  { unfold UINT64_MAX in E. destruct (Z.eqb_spec n 0) as [-> | ?]; [lia |]. destruct (Z.eqb_spec size 0) as [-> | ?]; [lia |].
    cbn [negb andb] in E. apply Z.ltb_ge in E. pose proof (Z.mul_div_le (2 ^ 64 - 1) size). nia. }
  rewrite u64_small by nia. apply wp_bind. destruct (decide (n * size = 0)) as [-> | Hne].
  { apply wp_ret, wp_bind, wp_ret, wp_ret. left. split_and!; [done | done | by apply kept_mem | by left]. }
  eapply wp_mono; [apply (wp_slab_kmalloc cpu (n * size) s g Hok); nia |].
  intros r s1 [Hk1 [(-> & Hok1 & Hno) | (Hr & Hg & Hok1)]].
  { apply wp_bind, wp_ret, wp_ret. left. split_and!; [done | done | done | by right; right]. }
  pose proof (fresh_owner_extent (n * size) ltac:(nia)) as Hext.
  destruct (Z.eqb_spec r 0) as [? | _]; [done |]. apply wp_bind. eexists _, _. unfold memset.
  rewrite (heap_ok_mapped s1 _ r _ (n * size) Hok1 (lookup_insert_eq _ _ _) Hext). split; [done |]. apply wp_ret. right.
  assert (Hmem : forall x, byte (fill (Z.to_nat (n * size)) 0 (kh_mem s1) r) x = if decide (r <= x < r + n * size) then 0 else byte (kh_mem s1) x).
  { intros x. rewrite fill_spec, Z2Nat.id by nia. done. }
  split_and!; [done | done | | | nia |].
  - apply (heap_ok_write s1 _ r (fresh_owner (n * size))); [done | apply lookup_insert_eq |].
    intros x Hx. rewrite Hmem, decide_False; [done |]. lia.
  - intros a o x Ha Hx. cbn. rewrite Hmem, decide_False; [by apply (Hk1 a o) |].
    destruct Hok1 as (_ & bl & HC). destruct (live_sep HC a o r (fresh_owner (n * size))) as [? | ?]; try lia.
    + rewrite lookup_insert_ne; [done |]. congruence.
    + apply lookup_insert_eq.
    + congruence.
  - intros x Hx. cbn. rewrite Hmem, decide_True; done.
Qed.

(** The size [krealloc] finds for the old object. *)
Lemma old_size_ok {A} bl s g a o (f : Z -> hp A) Q : heap_core bl s g -> g !! a = Some o -> freeable g a ->
  wp (f (extent o)) s Q ->
  wp (p ← get_frame (page_of a);
      old_size ← (if bool_decide (status p = PAGE_SLAB)
                  then d ← get_slab (page_of a); k ← get_cache (sp_cache d); mret (obj_size k)
                  else mret (Z.of_nat (cont_page_num p) * PAGE_SIZE));
      f old_size) s Q.
Proof.
  intros HC Ha [-> | [(c & sz & Hc) | (n & Hn)]] Hf.
  - destruct (live_mapped HC _ _ Ha). unfold VMA_BASE in *. lia.
  - rewrite Ha in Hc. injection Hc as ->. destruct (obj_frame bl s g a c sz false HC Ha) as (p & d & k & Hp & Hst & Hd & <- & Hk & <- & _).
    apply wp_bind. eexists _, _. unfold get_frame. rewrite Hp. split; [done |]. rewrite bool_decide_eq_true_2 by done.
    apply wp_bind, wp_bind, (wp_get_slab _ d); [done |]. apply wp_bind, (wp_get_cache _ k); [done |]. by apply wp_ret.
  - rewrite Ha in Hn. injection Hn as ->. destruct (c_block _ _ _ _ _ _ _ HC _ _ _ Ha eq_refl) as (i & p & -> & Hn & Hp & Hpc & Hj).
    assert (Hi : page_of (page_addr i) = i).
    { apply page_of_in; [unfold PAGE_SIZE; lia |]. pose proof (lookup_lt_Some _ _ _ Hp).
      pose proof (c_mapped _ _ _ _ _ _ _ HC). unfold PAGE_SIZE in *. lia. }
    rewrite Hi. apply wp_bind. eexists _, _. unfold get_frame. rewrite Hp. split; [done |].
    destruct (Hj i ltac:(lia)) as (_ & q & Hq & Hst). assert (q = p) as -> by congruence.
    rewrite bool_decide_eq_false_2 by (by rewrite Hst). apply wp_bind, wp_ret. by rewrite Hpc.
Qed.

Lemma wp_krealloc cpu a o size s g : heap_ok s g -> g !! a = Some o -> freeable g a -> 0 < size < 2 ^ 64 ->
  wp (krealloc debug cpu a size) s (fun r s' =>
    (r = 0 /\ heap_ok s' g /\ kept g s s' /\ no_room (pages_needed size) s') \/
    (r <> 0 /\ g !! r = None /\ heap_ok s' (delete a (<[r := fresh_owner size]> g)) /\ kept (delete a g) s s' /\
     forall x, 0 <= x < Z.min (extent o) size -> byte (kh_mem s') (r + x) = byte (kh_mem s) (a + x))).
Proof.
  intros Hok Ha Hfr Hsize. destruct (heap_ok_nonzero s g a o Hok Ha) as [Hne Hpos].
  unfold krealloc. destruct (Z.eqb_spec a 0) as [? | _]; [done |]. destruct (Z.eqb_spec size 0) as [? | _]; [lia |].
  pose proof Hok as (Hl & bl & HC). apply (old_size_ok bl s g a o); [done | done | done |].
  apply wp_bind. eapply wp_mono; [apply (wp_slab_kmalloc cpu size s g Hok Hsize) |].
  intros r s1 [Hk1 [(-> & Hok1 & Hno) | (Hr & Hg & Hok1)]]; [apply wp_ret; left; by split_and! |].
  destruct (Z.eqb_spec r 0) as [? | _]; [done |]. pose proof (fresh_owner_extent size ltac:(lia)) as Hext.
  assert (Hne' : a <> r) by congruence. set (n := Z.min (extent o) size). set (g1 := <[r := fresh_owner size]> g) in *.
  assert (Ha1 : g1 !! a = Some o) by (unfold g1; by rewrite lookup_insert_ne).
  assert (Hr1 : g1 !! r = Some (fresh_owner size)) by apply lookup_insert_eq.
  assert (Hsep : a + extent o <= r \/ r + extent (fresh_owner size) <= a).
  { destruct Hok1 as (_ & bl1 & HC1). by apply (live_sep HC1). }
  assert (Hmem : forall x, byte (copy (Z.to_nat n) a (kh_mem s1) r) x = if decide (r <= x < r + n) then byte (kh_mem s1) (a + (x - r)) else byte (kh_mem s1) x).
  { intros x. rewrite copy_spec by lia. rewrite Z2Nat.id by lia. done. }
  apply wp_bind. eexists _, _. unfold memcpy.
  rewrite (heap_ok_mapped s1 g1 r _ n Hok1 Hr1), (heap_ok_mapped s1 g1 a _ n Hok1 Ha1) by lia. split; [done |]. set (s2 := with_mem _ s1).
  assert (Hok2 : heap_ok s2 g1).
  { apply (heap_ok_write s1 g1 r (fresh_owner size)); [done | done |]. intros x Hx. rewrite Hmem, decide_False; [done | lia]. }
  assert (Hfr2 : freeable g1 a).
  { destruct Hfr as [? | [(c & sz & Hc) | (k & Hk)]]; [by left | right; left; exists c, sz | right; right; exists k];
      unfold g1; by rewrite lookup_insert_ne. }
  apply wp_bind. eapply wp_mono; [apply (wp_slab_kfree a s2 g1 Hok2 Hfr2) |]. intros [] s3 [Hok3 Hk3]. apply wp_ret. right.
  split_and!; [done | done | done | |].
  - intros b ob x [Hnb Hb]%lookup_delete_Some Hx. assert (b <> r) by congruence.
    assert (Hb1 : g1 !! b = Some ob) by (unfold g1; by rewrite lookup_insert_ne).
    rewrite (Hk3 b ob x) by (done || by rewrite lookup_delete_ne). cbn. rewrite Hmem, decide_False; [by apply (Hk1 b ob) |].
    destruct Hok1 as (_ & bl1 & HC1). destruct (live_sep HC1 _ _ _ _ Hb1 Hr1); [done | lia | lia].
  - intros x Hx. fold n in Hx. rewrite (Hk3 r (fresh_owner size) (r + x)) by (lia || by rewrite lookup_delete_ne).
    cbn. rewrite Hmem, decide_True by lia. replace (a + (r + x - r)) with (a + x) by lia. apply (Hk1 a o); [done | lia].
Qed.

(** *** Dedicated caches *)

Definition control_block : owner := Obj 2 KMEM_CACHE_SIZE true.

Lemma wp_kmem_cache_create cpu size s g : heap_ok s g -> size = 0 \/ 8 <= size ->
  wp (kmem_cache_create debug cpu size) s (fun r s' => kept g s s' /\
    ((r = 0 /\ heap_ok s' g) \/
     (r <> 0 /\ g !! r = None /\ heap_ok s' (<[r := control_block]> g) /\ sizes s' !! r = Some size))).
Proof.
  intros Hok Hsize. unfold kmem_cache_create. destruct ((size =? 0) || (PAGE_SIZE / 2 <? size)) eqn:E.
  { apply wp_ret. split; [by apply kept_mem | by left]. }
  bool_to_prop. change (PAGE_SIZE / 2) with 2048 in *. apply wp_bind.
  eapply wp_mono; [apply (wp_slab_kmalloc cpu KMEM_CACHE_SIZE s g Hok); done |].
  intros r s1 [Hk1 [(-> & Hok1 & _) | (Hr & Hg & Hok1)]]; [apply wp_ret; split; [done | by left] |].
  destruct (Z.eqb_spec r 0) as [? | _]; [done |]. apply wp_bind. eexists _, _. split; [done |]. apply wp_ret.
  split; [done |]. right. destruct Hok1 as ([L1 L2 L3 L4] & bl & HC).
  pose proof (core_new_cache _ _ _ _ _ _ _ r KMEM_CACHE_SIZE size HC (lookup_insert_eq _ _ _) ltac:(lia)) as HC'.
  rewrite insert_insert_eq in HC'. split_and!; [done | done | |].
  - split.
    + constructor; cbn; try done. intros c k i. rewrite lookup_insert_Some. intros [[<- <-] | [_ Hc]] Hi; [done |]. by apply (L1 c k).
    + exists bl. unfold heap_core, sizes. cbn. rewrite fmap_insert. exact HC'.
  - unfold sizes. cbn. by rewrite lookup_fmap, lookup_insert_eq.
Qed.

Lemma wp_cache_grow bl c k s g : links s -> heap_core bl s g -> kh_caches s !! c = Some k ->
  wp (cache_grow debug c (obj_size k)) s (obtained (Obj c (obj_size k) false) 1 g s).
Proof.
  intros Hl HC Hk. unfold cache_grow. apply (wp_new_page bl c k (-1) s g); [done | done | done | |].
  { intros Hno. apply wp_ret. split; [by apply kept_mem |]. left. split_and!; [done | | done]. split; [done |]. by exists bl. }
  intros bl' i s2 d HC2 Hl2 _ Hsl Hd Hf Hc2 Hkept. assert (Hdc : sp_cache d = c) by (by rewrite Hd). rewrite <- Hdc in *.
  assert (Hv : views s2 !! i = Some (view_of d)) by (unfold views; by rewrite Hsl, lookup_fmap, lookup_insert_eq).
  assert (Hs2 : sizes s2 !! sp_cache d = Some (obj_size k)) by (unfold sizes; by rewrite lookup_fmap, Hc2, Hk).
  destruct (core_take HC2 i (view_of d) _ Hv Hs2 Hf) as (Ho & Hg & HC'). pose proof (page_size_ok HC2 i _ _ Hv Hs2) as Hsz.
  destruct (live_mapped HC' _ _ (lookup_insert_eq _ _ _)) as (Hm1 & Hm2 & _). cbn [extent view_of v_cache v_free v_inuse v_count] in *.
  assert (Hdi : kh_slab s2 !! i = Some d) by (by rewrite Hsl, lookup_insert_eq).
  apply wp_bind, (wp_get_slab i d); [done |]. apply wp_bind. eexists _, _. unfold load_ptr. rewrite mapped_true by lia. split; [done |].
  apply wp_bind. eexists _, _. split; [done |]. set (s3 := with_slab _ s2). apply wp_bind.
  assert (Hl3 : links s3) by (by apply (links_set_page i d)).
  eapply wp_mono; [apply (wp_partial_add (sp_cache d) k i s3 Hl3) |].
  - cbn. by rewrite Hc2.
  - apply in_cache_slab. eexists. cbn. rewrite lookup_insert_eq. done.
  - intros [] s4 (Hr4 & Hl4). destruct Hr4 as (Hb4 & Hv4 & Hmem4 & Hs4 & Hu4). apply wp_bind.
    apply wp_poison; [apply mapped_true; [done | by rewrite Hb4] | lia |]. intros m' Hm'.
    apply wp_bind. eexists _, _. split; [done |]. apply wp_ret. split.
    + eapply contents_kept_trans; [done |]. intros a o x Ha Hx. cbn. rewrite Hm'; [by rewrite Hmem4 |].
      destruct (free_sep HC2 i _ _ _ a o Hv Hs2 Ho Hg Ha); lia.
    + right. split_and!; [done | done |]. split; [by apply (links_ext s4) |]. exists bl'.
      change (core bl' (kh_bfc s4) (views s4) m' (sizes s4) (s32 (slab_used_bytes s4 + s32 (obj_size k))) (<[freelist d := Obj (sp_cache d) (obj_size k) false]> g)).
      rewrite Hb4, Hv4, Hs4, Hu4. unfold s3 at 2. rewrite views_insert.
      apply (core_write HC' (freelist d) (Obj (sp_cache d) (obj_size k) false)); [apply lookup_insert_eq |].
      intros x Hx. rewrite Hm' by done. by rewrite Hmem4.
Qed.

Lemma wp_kmem_cache_alloc c sz s g : heap_ok s g -> sizes s !! c = Some sz ->
  wp (kmem_cache_alloc debug c) s (obtained (Obj c sz false) 1 g s).
Proof.
  intros (Hl & bl & HC) Hs. destruct (sizes_Some s c sz Hs) as (k & Hk & <-).
  unfold kmem_cache_alloc. apply wp_bind, (wp_get_cache c k); [done |].
  apply wp_bind. eapply wp_mono; [by apply (wp_take_partial bl c k s g) |]. intros [i |] s1 (Hr1 & Hl1 & Hres).
  - destruct Hres as (v & Hv & <- & Hf). eapply wp_mono; [apply (wp_take_obj debug bl i v (obj_size k) s1 g) |].
    + by apply (relinked_core bl s).
    + done.
    + done.
    + by destruct Hr1 as (_ & _ & _ & -> & _).
    + done.
    + intros r s' Ht. apply (took_obtained _ _ _ _ _ _ _ _ _ Ht). by apply relinked_kept.
  - destruct (relinked_cache s s1 c k Hr1 Hk) as (k1 & Hk1 & Hk1s). rewrite <- Hk1s.
    eapply wp_mono; [apply (wp_cache_grow bl c k1 s1 g Hl1); [by apply (relinked_core bl s) | done] |].
    intros r s' [Hkept Hout]. split; [| done]. eapply contents_kept_trans; [by apply relinked_kept | done].
Qed.

Lemma wp_kmem_cache_free c a sz s g : heap_ok s g -> g !! a = Some (Obj c sz false) ->
  wp (kmem_cache_free debug c a) s (fun _ s' => heap_ok s' (delete a g) /\ kept (delete a g) s s').
Proof.
  intros Hok Ha. destruct (heap_ok_nonzero s g a _ Hok Ha) as [Hne _]. unfold kmem_cache_free.
  destruct (Z.eqb_spec a 0) as [? | _]; [done |]. apply (wp_count_kfree _ s g); [done |].
  intros s1 (Hl1 & bl & HC1) Hm1 _ _ _.
  destruct (obj_frame bl s1 g a c sz false HC1 Ha) as (p & d & k & Hp & Hst & Hd & <- & Hk & <- & _).
  apply wp_bind. eexists _, _. unfold get_frame. rewrite Hp. split; [done |]. rewrite bool_decide_eq_true_2 by done.
  apply wp_bind, (wp_get_cache _ k); [done |].
  eapply wp_mono; [by apply (wp_free_slab bl) |]. intros [] s2 [? Hk2]. split; [done |].
  eapply contents_kept_trans; [by apply kept_mem | done].
Qed.
End kmalloc.

(** ** Clients *)

Inductive op :=
  | OMalloc (cpu size : Z)
  | OFree (a : Z)
  | OCalloc (cpu n size : Z)
  | ORealloc (cpu a size : Z)
  | OCreate (cpu size : Z)
  | OCacheAlloc (c : Z)
  | OCacheFree (c a : Z)
  | OWrite (a off : Z) (l : list Z)     (* a client writes into what it holds *)
  | OPages (n : Z)                      (* other users of the page allocator *)
  | OPagesFree (a : Z) (n : nat).

Fixpoint write_bytes (l : list Z) (m : gmap Z Z) (a : Z) : gmap Z Z :=
  match l with [] => m | b :: l' => write_bytes l' (<[a := b]> m) (a + 1) end.

Lemma write_bytes_spec l : forall m a x, byte (write_bytes l m a) x =
  if decide (a <= x < a + Z.of_nat (length l)) then default 0 (l !! Z.to_nat (x - a)) else byte m x.
Proof.
  induction l as [| b l IH]; intros m a x; cbn [write_bytes length]; [by rewrite decide_False by lia |].
  rewrite IH, byte_insert. repeat case_decide; try lia; try done.
  - replace (Z.to_nat (x - a)) with (S (Z.to_nat (x - (a + 1)))) by lia. done.
  - subst x. by replace (Z.to_nat (a - a)) with 0%nat by lia.
Qed.

Section clients.
Context (debug : bool).

Definition exec (o : op) : hp Z :=
  match o with
  | OMalloc cpu size => kmalloc debug cpu size
  | OFree a => _ ← kfree debug a; mret 0
  | OCalloc cpu n size => kcalloc debug cpu n size
  | ORealloc cpu a size => krealloc debug cpu a size
  | OCreate cpu size => kmem_cache_create debug cpu size
  | OCacheAlloc c => kmem_cache_alloc debug c
  | OCacheFree c a => _ ← kmem_cache_free debug c a; mret 0
  | OWrite a off l => fun s => Some (0, with_mem (write_bytes l (kh_mem s) (a + off)) s)
  | OPages n => r ← alloc_pages n; mret (match r with Some i => page_addr i | None => 0 end)
  | OPagesFree a n => _ ← free_pages (page_of a) n; mret 0
  end.

(** What is handed out, and what is given back. *)
Definition granted_by (o : op) (s : kheap) : owner :=
  match o with
  | OMalloc _ size => fresh_owner size
  | OCalloc _ n size => fresh_owner (n * size)
  | ORealloc _ _ size => fresh_owner size
  | OCreate _ _ => control_block
  | OCacheAlloc c => Obj c (default 0 (sizes s !! c)) false
  | OPages n => Raw (Z.to_nat n)
  | _ => Raw 0
  end.

Definition returned_by (o : op) (r : Z) : option Z :=
  match o with
  | OFree a => Some a
  | ORealloc _ a size => if (size =? 0) || negb (r =? 0) then Some a else None
  | OCacheFree _ a => Some a
  | OPagesFree a _ => Some a
  | _ => None
  end.

Definition after (o : op) (s : kheap) (r : Z) (g : gmap Z owner) : gmap Z owner :=
  let g' := if r =? 0 then g else <[r := granted_by o s]> g in
  match returned_by o r with Some a => delete a g' | None => g' end.

(** What the callers must respect. *)
Definition allowed (o : op) (s : kheap) (g : gmap Z owner) : Prop :=
  match o with
  | OMalloc _ size => 0 <= size < 2 ^ 64
  | OFree a => freeable g a
  | OCalloc _ n size => 0 <= n < 2 ^ 64 /\ 0 <= size < 2 ^ 64
  | ORealloc _ a size => freeable g a /\ 0 <= size < 2 ^ 64
  | OCreate _ size => size = 0 \/ 8 <= size
  | OCacheAlloc c => is_Some (sizes s !! c)
  | OCacheFree c a => exists sz, g !! a = Some (Obj c sz false)
  | OWrite a off l => 0 <= off /\ exists o', g !! a = Some o' /\ o' <> control_block /\ off + Z.of_nat (length l) <= extent o'
  | OPages n => 0 < n
  | OPagesFree a n => g !! a = Some (Raw n)
  end.

(** What they get besides memory of their own. *)
Definition requested (o : op) : Z :=
  match o with OMalloc _ size => size | OCalloc _ n size => n * size | ORealloc _ _ size => size | _ => 0 end.

Definition contents_ok (o : op) (g : gmap Z owner) (s : kheap) (r : Z) (s' : kheap) : Prop :=
  match o with
  | OCalloc _ n size => r <> 0 -> forall x, r <= x < r + n * size -> byte (kh_mem s') x = 0
  | ORealloc _ a size => r <> 0 -> forall o' x, g !! a = Some o' -> 0 <= x < Z.min (extent o') size ->
      byte (kh_mem s') (r + x) = byte (kh_mem s) (a + x)
  | OWrite a off l => forall i b, l !! i = Some b -> byte (kh_mem s') (a + off + Z.of_nat i) = b
  | _ => True
  end.

(** The holdings that are not touched by the operation. *)
Definition untouched (o : op) (r : Z) (g : gmap Z owner) : gmap Z owner :=
  match o with
  | OWrite a _ _ => delete a g
  | _ => match returned_by o r with Some a => delete a g | None => g end
  end.

Definition good_step (o : op) (g : gmap Z owner) (s : kheap) (r : Z) (s' : kheap) : Prop :=
  heap_ok s' (after o s r g) /\ (r <> 0 -> g !! r = None /\ requested o <= extent (granted_by o s)) /\
  kept (untouched o r g) s s' /\ contents_ok o g s r s' /\
  (r = 0 -> 0 < requested o < 2 ^ 64 -> no_room (pages_needed (requested o)) s').

Lemma wp_malloc_step cpu size s g : heap_ok s g -> 0 <= size < 2 ^ 64 ->
  wp (kmalloc debug cpu size) s (fun r s' => good_step (OMalloc cpu size) g s r s').
Proof.
  intros Hok Hs. destruct (decide (size = 0)) as [-> | Hne].
  { apply wp_ret. split_and!; [done | done | by apply kept_mem | done | cbn [requested]; lia]. }
  eapply wp_mono; [apply (wp_slab_kmalloc debug cpu size s g Hok); lia |].
  pose proof (fresh_owner_extent size ltac:(lia)).
  intros r s' [Hk [(-> & Hok' & Hno) | (Hr & Hg & Hok')]]; unfold good_step, after; cbn [returned_by requested granted_by].
  - split_and!; done.
  - rewrite (proj2 (Z.eqb_neq r 0)) by done. split_and!; done.
Qed.

Lemma after_zero s g o : heap_ok s g -> returned_by o 0 = None -> after o s 0 g = g.
Proof. intros _ Hr. unfold after. by rewrite Hr. Qed.

Lemma delete_zero s g : heap_ok s g -> delete 0 g = g.
Proof.
  intros Hok. apply delete_id, eq_None_not_Some. intros [o Ho]. by destruct (heap_ok_nonzero s g 0 o Hok Ho).
Qed.

Lemma wp_free_step (m : hp ()) o a s g : returned_by o 0 = Some a -> requested o = 0 -> (forall s', contents_ok o g s 0 s') ->
  untouched o 0 g = delete a g ->
  wp m s (fun _ s' => heap_ok s' (delete a g) /\ kept (delete a g) s s') ->
  wp (_ ← m; mret 0) s (fun r s' => good_step o g s r s').
Proof.
  intros Hr Hq Hc Hu Hm. apply wp_bind. eapply wp_mono; [exact Hm |]. intros [] s' [Hok Hk]. apply wp_ret.
  unfold good_step, after. rewrite Hr, Hq, Hu. split_and!; (done || lia || apply Hc).
Qed.

Lemma wp_realloc_step cpu a size s g : heap_ok s g -> freeable g a -> 0 <= size < 2 ^ 64 ->
  wp (krealloc debug cpu a size) s (fun r s' => good_step (ORealloc cpu a size) g s r s').
Proof.
  intros Hok Hfr Hs. unfold good_step, after. cbn [returned_by requested granted_by contents_ok untouched].
  destruct (decide (a = 0)) as [-> | Hne].
  - unfold krealloc. rewrite Z.eqb_refl. eapply wp_mono; [by apply (wp_malloc_step cpu size s g) |].
    intros r s' (Hok' & Hr & Hk & _ & Hno). cbn [requested granted_by untouched] in *. unfold after in Hok'. cbn [returned_by granted_by] in *.
    pose proof (delete_zero _ _ Hok') as Hd. split_and!; try done.
    + by destruct ((size =? 0) || negb (r =? 0)); [rewrite Hd |].
    + by destruct ((size =? 0) || negb (r =? 0)); [rewrite (delete_zero s g Hok) |].
    + intros _ o' x Ho. by destruct (heap_ok_nonzero s g 0 o' Hok Ho).
  - destruct (decide (size = 0)) as [-> | Hsz].
    + unfold krealloc. rewrite (proj2 (Z.eqb_neq a 0)) by done. cbn [Z.eqb]. apply wp_bind.
      eapply wp_mono; [by apply (wp_slab_kfree debug a s g) |]. intros [] s' [Hok' Hk]. apply wp_ret. cbn [Z.eqb orb].
      split_and!; (done || lia).
    + assert (exists o, g !! a = Some o) as [o Ho] by (destruct Hfr as [? | [(c & sz & ?) | (n & ?)]]; [done | eauto | eauto]).
      eapply wp_mono; [apply (wp_krealloc debug cpu a o size s g Hok Ho Hfr); lia |].
      pose proof (fresh_owner_extent size ltac:(lia)). rewrite (proj2 (Z.eqb_neq size 0)) by done. cbn [orb].
      intros r s' [(-> & Hok' & Hk & Hno) | (Hr & Hg & Hok' & Hk & Hc)]; [split_and!; done |].
      rewrite (proj2 (Z.eqb_neq r 0)) by done. cbn [negb]. split_and!; try done.
      intros _ o' x Ho'. assert (o' = o) as -> by congruence. apply Hc.
Qed.

Lemma wp_write_step a off l s g : heap_ok s g -> allowed (OWrite a off l) s g ->
  wp (exec (OWrite a off l)) s (fun r s' => good_step (OWrite a off l) g s r s').
Proof.
  intros Hok (Hoff & o & Ho & _ & Hfit). eexists _, _. split; [done |].
  unfold good_step, after. cbn [returned_by requested untouched contents_ok]. split_and!; [| done | | | lia].
  - apply (heap_ok_write s g a o); [done | done |]. intros x Hx. rewrite write_bytes_spec, decide_False; [done | lia].
  - intros b ob x [Hne Hb]%lookup_delete_Some Hx. cbn. rewrite write_bytes_spec, decide_False; [done |].
    destruct Hok as (_ & bl & HC). destruct (live_sep HC _ _ _ _ Hb Ho ltac:(done)); lia.
  - intros i b Hb. cbn. apply lookup_lt_Some in Hb as Hlt. rewrite write_bytes_spec, decide_True by lia.
    replace (Z.to_nat (a + off + Z.of_nat i - (a + off))) with i by lia. by rewrite Hb.
Qed.

Lemma exec_ok o s g : heap_ok s g -> allowed o s g -> wp (exec o) s (fun r s' => good_step o g s r s').
Proof.
  intros Hok Hal. destruct o as [cpu size | a | cpu n size | cpu a size | cpu size | c | c a | a off l | n | a n]; cbn [exec allowed] in *.
  - by apply wp_malloc_step.
  - apply (wp_free_step _ _ a); try done. by apply wp_slab_kfree.
  - destruct Hal as [Hn Hs]. eapply wp_mono; [apply (wp_kcalloc debug cpu n size s g Hok Hn Hs) |].
    unfold good_step, after. cbn [returned_by requested granted_by contents_ok untouched].
    intros r s' [(-> & Hok' & Hk & Hno) | (Hr & Hg & Hok' & Hk & Hpos & Hz)].
    + split_and!; try done. intros _ ?. destruct Hno as [? | [? | ?]]; [lia | lia | done].
    + rewrite (proj2 (Z.eqb_neq r 0)) by done. split_and!; try done. intros _. split; [done |]. by apply fresh_owner_extent.
  - destruct Hal as [Hf Hs]. by apply wp_realloc_step.
  - eapply wp_mono; [by apply (wp_kmem_cache_create debug cpu size s g) |].
    unfold good_step, after. cbn [returned_by requested granted_by contents_ok untouched].
    intros r s' [Hk [(-> & Hok') | (Hr & Hg & Hok' & _)]]; [split_and!; (done || lia) |].
    rewrite (proj2 (Z.eqb_neq r 0)) by done. split_and!; done.
  - destruct Hal as [sz Hsz]. eapply wp_mono; [by apply (wp_kmem_cache_alloc debug c sz s g) |].
    unfold good_step, after. cbn [returned_by requested granted_by contents_ok untouched]. rewrite Hsz. change (default 0 (Some sz)) with sz.
    intros r s' [Hk [(-> & Hok' & _) | (Hr & Hg & Hok')]]; [split_and!; (done || lia) |].
    rewrite (proj2 (Z.eqb_neq r 0)) by done. split_and!; try done. intros _. split; [done |].
    destruct Hok' as (_ & bl & HC). destruct (live_mapped HC _ _ (lookup_insert_eq _ _ _)) as (_ & _ & ?). cbn [extent] in *. lia.
  - destruct Hal as [sz Ha]. apply (wp_free_step _ _ a); try done. by apply (wp_kmem_cache_free debug c a sz).
  - by apply wp_write_step.
  - destruct Hok as (Hl & bl & HC). apply wp_bind. eapply wp_mono; [by apply (wp_get_pages bl n s g) |].
    unfold good_step, after. intros [i |] s'.
    + intros (bl' & Hg & HC' & Hl' & Hm & _). apply wp_ret. cbn [returned_by requested granted_by contents_ok untouched].
      rewrite (proj2 (Z.eqb_neq (page_addr i) 0)) by (unfold page_addr, VMA_BASE, PAGE_SIZE; lia).
      split_and!; [by split; [| exists bl'] | | by apply kept_mem | done | lia].
      intros _. split; [done |]. cbn [extent]. unfold PAGE_SIZE. lia.
    + intros [-> _]. apply wp_ret. split_and!; [by split; [| exists bl] | done | by apply kept_mem | done | cbn; lia].
  - destruct Hok as (Hl & bl & HC). destruct (c_block _ _ _ _ _ _ _ HC _ _ _ Hal eq_refl) as (i & p & -> & Hn & Hp & Hpc & _).
    assert (Hi : page_of (page_addr i) = i).
    { apply page_of_in; [unfold PAGE_SIZE; lia |]. pose proof (lookup_lt_Some _ _ _ Hp).
      pose proof (c_mapped _ _ _ _ _ _ _ HC). unfold PAGE_SIZE in *. lia. }
    rewrite Hi. apply (wp_free_step _ _ (page_addr i)); try done.
    destruct (core_release HC i n (Raw n) (slab_used_bytes s) Hal eq_refl) as (b' & r & Hf & HC2).
    { rewrite (charged_delete _ _ _ Hal), (c_used _ _ _ _ _ _ _ HC). cbn [charge]. f_equal. lia. }
    eexists _, _. unfold free_pages. rewrite Hf. split; [done |].
    split; [split; [by apply (links_ext s) | by eexists] | by apply kept_mem].
Qed.
End clients.

(** ** The list loses pages

    [kmem_cache_alloc] takes a page off the list although it still has free
    objects, and a page only goes back when it was full.  So the second
    allocation from a page that is not full removes it for good. *)

Section leak.
Context (debug : bool).

(** Page [i] of cache [c] with [n] objects in use, the list of [c] being [q]. *)
Definition page_state (c : Z) (q : ptr) (i : nat) (n : Z) (s s' : kheap) : Prop :=
  exists k d, kh_caches s !! c = Some k /\ kh_caches s' = <[c := KmemCache (obj_size k) q]> (kh_caches s) /\
    kh_slab s !! i = None /\ kh_slab s' = <[i := d]> (kh_slab s) /\ inuse d = n /\ obj_count d = PAGE_SIZE / obj_size k /\
    partial_next d = None /\ partial_prev d = None.

Lemma grow_track bl c k s g : links s -> heap_core bl s g -> kh_caches s !! c = Some k -> partial k = None ->
  wp (cache_grow debug c (obj_size k)) s (fun r s' => r = 0 \/ page_state c (Some (page_of r)) (page_of r) 1 s s').
Proof.
  intros Hl HC Hk Hp. unfold cache_grow. apply (wp_new_page bl c k (-1) s g); [done | done | done | intros _; apply wp_ret; by left |].
  intros bl' i s2 d HC2 Hl2 Hnew Hsl Hd Hf Hc2 _. assert (Hdc : sp_cache d = c) by (by rewrite Hd).
  assert (Hv : views s2 !! i = Some (view_of d)) by (unfold views; by rewrite Hsl, lookup_fmap, lookup_insert_eq).
  assert (Hs2 : sizes s2 !! v_cache (view_of d) = Some (obj_size k)) by (unfold sizes; cbn [v_cache view_of]; by rewrite Hdc, lookup_fmap, Hc2, Hk).
  destruct (core_take HC2 i (view_of d) _ Hv Hs2 Hf) as (Ho & Hg & HC'). pose proof (page_size_ok HC2 i _ _ Hv Hs2) as Hsz.
  destruct (live_mapped HC' _ _ (lookup_insert_eq _ _ _)) as (Hm1 & Hm2 & _). cbn [extent view_of v_cache v_free v_inuse v_count] in *.
  pose proof (obj_in_page i (obj_size k) _ ltac:(lia) Ho) as Hin.
  assert (Hpg : page_of (freelist d) = i) by (apply page_of_in; [lia | by apply (page_bound HC2 i (view_of d))]).
  assert (Hdi : kh_slab s2 !! i = Some d) by (by rewrite Hsl, lookup_insert_eq).
  apply wp_bind, (wp_get_slab i d); [done |]. apply wp_bind. eexists _, _. unfold load_ptr. rewrite mapped_true by lia. split; [done |].
  apply wp_bind. eexists _, _. split; [done |]. apply wp_bind. unfold partial_add.
  apply wp_bind, (wp_get_cache c k); [cbn; by rewrite Hc2 |].
  apply wp_bind. eapply wp_get_slab; [cbn; apply lookup_insert_eq |]. apply wp_bind. eexists _, _. split; [done |].
  rewrite Hp. apply wp_bind, wp_ret. eexists _, _. split; [done |]. apply wp_bind.
  apply wp_poison; [by apply mapped_true | lia |]. intros m' _. apply wp_bind. eexists _, _. split; [done |].
  apply wp_ret. right. rewrite Hpg. eexists k, _. split; [done |]. cbn. rewrite Hc2, Hsl, !insert_insert_eq.
  split_and!; [done | done | reflexivity | | | done | done]; by rewrite Hd.
Qed.

(** Giving back the only object in use of a page that has room for more. *)
Lemma free_track c a q sz s0 s g : heap_ok s g -> g !! a = Some (Obj c sz false) -> page_state c q (page_of a) 1 s0 s ->
  (forall k, kh_caches s0 !! c = Some k -> obj_size k = sz) ->
  wp (kmem_cache_free debug c a) s (fun _ s' => page_state c q (page_of a) 0 s0 s' /\
    exists d, kh_slab s' !! page_of a = Some d /\ freelist d = a).
Proof.
  intros Hok Ha (k & d & Hk & Hc & Hnew & Hsl & Hin & Hcnt & Hn & Hp) Hksz. specialize (Hksz k Hk) as Hks.
  destruct (heap_ok_nonzero s g a _ Hok Ha) as [Hne _]. unfold kmem_cache_free.
  destruct (Z.eqb_spec a 0) as [? | _]; [done |]. apply (wp_count_kfree _ s g); [done |].
  intros s1 (Hl1 & bl & HC1) Hm1 Hb1 Hsl1 Hc1. destruct (live_mapped HC1 _ _ Ha) as (Hma & Hmb & _). cbn [extent] in Hmb.
  destruct (obj_frame bl s1 g a c sz false HC1 Ha) as (p & d1 & k1 & Hpf & Hst & _ & _ & Hk1 & Hks1 & _).
  destruct (c_obj _ _ _ _ _ _ _ HC1 _ _ _ _ Ha) as (_ & _ & _ & _ & Hs & _). pose proof (c_sizes _ _ _ _ _ _ _ HC1 _ _ Hs) as Hsz.
  assert (Hdi : kh_slab s1 !! page_of a = Some d) by (by rewrite Hsl1, Hsl, lookup_insert_eq).
  assert (H2 : 2 <= PAGE_SIZE / sz <= 512) by (split; [apply Z.div_le_lower_bound; unfold PAGE_SIZE; lia | apply page_count_bound; lia]).
  apply wp_bind. eexists _, _. unfold get_frame. rewrite Hpf. split; [done |]. rewrite bool_decide_eq_true_2 by done.
  apply wp_bind, (wp_get_cache _ k1); [done |]. rewrite Hks1. apply wp_bind.
  apply wp_poison; [by apply mapped_true | lia |]. intros m' _. unfold put_obj.
  apply wp_bind, (wp_get_slab _ d); [done |]. apply wp_bind. unfold store_ptr. eexists _, _. rewrite mapped_true by (cbn; lia). split; [done |].
  apply wp_bind. eexists _, _. split; [done |]. apply wp_bind. eexists _, _. split; [done |].
  apply wp_bind. eapply wp_get_slab; [cbn; apply lookup_insert_eq |]. cbn [set_objs inuse obj_count].
  rewrite Hin, Hcnt, Hks. rewrite !u32_small by lia. destruct (Z.eqb_spec (1 - 1) (PAGE_SIZE / sz - 1)) as [? | _]; [lia |].
  apply wp_ret. split.
  - eexists k, _. split; [done |]. cbn. rewrite Hc1, Hc, Hsl1, Hsl, insert_insert_eq. split_and!; [done | done | reflexivity | done | done | done | done].
  - eexists. cbn. rewrite lookup_insert_eq. done.
Qed.

(** An allocation from the only page on the list, all of whose objects are
    free: the page is off the list afterwards. *)
Lemma take_track bl c i d sz s0 s g : links s -> heap_core bl s g -> page_state c (Some i) i 0 s0 s ->
  kh_slab s !! i = Some d -> freelist d <> 0 -> sizes s !! c = Some sz ->
  wp (kmem_cache_alloc debug c) s (fun r s' => r = freelist d /\ page_state c None i 1 s0 s').
Proof.
  intros Hl HC (k & d0 & Hk & Hc & Hnew & Hsl & Hin & Hcnt & Hn & Hp) Hd Hf Hs.
  assert (d0 = d) as -> by (rewrite Hsl, lookup_insert_eq in Hd; congruence).
  set (k1 := KmemCache (obj_size k) (Some i)). assert (Hk1 : kh_caches s !! c = Some k1) by (by rewrite Hc, lookup_insert_eq).
  assert (Hdc : sp_cache d = c).
  { destruct (l_partial s Hl c k1 i Hk1 eq_refl) as (v & Hv & Hvc). unfold views in Hv. rewrite lookup_fmap, Hd in Hv.
    injection Hv as <-. done. }
  assert (Hs1 : obj_size k1 = sz) by (unfold sizes in Hs; rewrite lookup_fmap, Hk1 in Hs; by injection Hs).
  assert (Hv : views s !! i = Some (view_of d)) by (unfold views; by rewrite lookup_fmap, Hd).
  assert (Hs' : sizes s !! v_cache (view_of d) = Some sz) by (cbn [v_cache view_of]; by rewrite Hdc).
  destruct (core_take HC i (view_of d) sz Hv Hs' Hf) as (Ho & _ & HC'). pose proof (page_size_ok HC i _ sz Hv Hs') as Hsz.
  destruct (live_mapped HC' _ _ (lookup_insert_eq _ _ _)) as (Hm1 & Hm2 & _). cbn [extent view_of v_cache v_free v_inuse v_count] in *.
  unfold kmem_cache_alloc. apply wp_bind, (wp_get_cache c k1); [done |]. apply wp_bind.
  set (s1 := with_slab (<[i := set_links None None d]> (kh_slab s)) (with_caches (<[c := KmemCache (obj_size k) None]> (kh_caches s)) s)).
  apply (wp_val _ _ (Some i) s1).
  - unfold take_partial. apply ploop_return. unfold take_partial_step, mbind, prog_bind, get_cache. rewrite Hk1. cbn [k1 partial mbind option_bind].
    unfold get_slab at 1. rewrite Hd. cbn [mbind option_bind]. unfold partial_remove, mbind, prog_bind, get_slab, get_cache, put_slab, put_cache.
    rewrite Hd. cbn [mbind option_bind]. rewrite Hp, Hk1. cbn. rewrite Hd. cbn. rewrite Hn. cbn. rewrite Hd. cbn.
    rewrite (proj2 (Z.eqb_neq (freelist d) 0)) by done. done.
  - unfold take_obj. apply wp_bind. eapply wp_get_slab; [cbn; apply lookup_insert_eq |]. cbn [set_links freelist].
    apply wp_bind. eexists _, _. unfold load_ptr. rewrite mapped_true by (cbn; lia). split; [done |].
    apply wp_bind. eexists _, _. split; [done |]. apply wp_bind. rewrite Hs1. apply wp_poison; [by apply mapped_true | lia |]. intros m' _.
    apply wp_bind. eexists _, _. split; [done |]. apply wp_ret. split; [done |].
    eexists k, _. split; [done |]. cbn. rewrite Hc, Hsl, !insert_insert_eq. split_and!; [done | done | reflexivity | | done | done | done].
    cbn. by rewrite Hin.
Qed.

(** Allocate one object and give it back, [n] times; [false] when an
    allocation fails. *)
Fixpoint churn (c : Z) (n : nat) : hp bool :=
  match n with
  | O => mret true
  | S n' =>
      a ← kmem_cache_alloc debug c;
      if a =? 0 then mret false else _ ← kmem_cache_free debug c a; churn c n'
  end.

Definition list_empty (c : Z) (s : kheap) : Prop := exists k, kh_caches s !! c = Some k /\ partial k = None.

Lemma wp_alloc_empty c k s (Q : Z -> kheap -> Prop) : kh_caches s !! c = Some k -> partial k = None ->
  wp (cache_grow debug c (obj_size k)) s Q -> wp (kmem_cache_alloc debug c) s Q.
Proof.
  intros Hk Hp Hg. unfold kmem_cache_alloc. apply wp_bind, (wp_get_cache c k); [done |]. apply wp_bind.
  apply (wp_val _ _ None s); [| done]. unfold take_partial. apply ploop_return.
  unfold take_partial_step, mbind, prog_bind, get_cache. rewrite Hk. cbn. by rewrite Hp.
Qed.

Lemma page_state_size c q i n s s' : page_state c q i n s s' -> size (kh_slab s') = S (size (kh_slab s)).
Proof. intros (k & d & _ & _ & Hnew & -> & _). by apply map_size_insert_None. Qed.

(** Two rounds cost a page. *)
Lemma wp_churn_two c n s g Q : heap_ok s g -> list_empty c s ->
  (forall s', heap_ok s' g -> no_room 1 s' -> Q false s') ->
  (forall s', heap_ok s' g -> list_empty c s' -> size (kh_slab s') = S (size (kh_slab s)) -> wp (churn c n) s' Q) ->
  wp (churn c (S (S n))) s Q.
Proof.
  intros Hok (k & Hk & Hp) Hno Hgo. pose proof Hok as (Hl & bl & HC). cbn [churn]. apply wp_bind.
  apply (wp_alloc_empty c k); [done | done |].
  eapply wp_mono; [apply wp_both; [by apply (wp_cache_grow debug bl c k s g) | by apply (grow_track bl c k s g)] |].
  intros r s1 [[_ [(-> & Hok1 & Hnr) | (Hr & Hg & Hok1)]] Ht]; [apply wp_ret; by apply Hno |].
  destruct Ht as [? | Ht]; [done |]. rewrite (proj2 (Z.eqb_neq r 0)) by done.
  assert (Hr1 : <[r := Obj c (obj_size k) false]> g !! r = Some (Obj c (obj_size k) false)) by apply lookup_insert_eq.
  assert (Hksz : forall k', kh_caches s !! c = Some k' -> obj_size k' = obj_size k) by (intros; congruence).
  apply wp_bind. eapply wp_mono; [apply wp_both;
    [by apply (wp_kmem_cache_free debug c r (obj_size k) s1 _ Hok1 Hr1) | by apply (free_track c r _ (obj_size k) s s1 _ Hok1 Hr1 Ht)] |].
  rewrite delete_insert_id by done. intros [] s2 [[Hok2 _] [Ht2 (d & Hd & Hf)]]. apply wp_bind.
  pose proof Hok2 as (Hl2 & bl2 & HC2).
  assert (Hs2 : sizes s2 !! c = Some (obj_size k)).
  { destruct Ht2 as (k' & _ & Hk' & Hc' & _). rewrite <- (Hksz k' Hk'). unfold sizes. by rewrite Hc', lookup_fmap, lookup_insert_eq. }
  eapply wp_mono; [apply wp_both; [by apply (wp_kmem_cache_alloc debug c (obj_size k) s2 g) |
    apply (take_track bl2 c (page_of r) d (obj_size k) s s2 g); [done | done | done | done | by rewrite Hf | done]] |].
  rewrite Hf. intros r' s3 [[_ Hout] [-> Ht3]]. destruct Hout as [(? & _) | (_ & _ & Hok3)]; [done |].
  rewrite (proj2 (Z.eqb_neq r 0)) by done. apply wp_bind.
  eapply wp_mono; [apply wp_both;
    [by apply (wp_kmem_cache_free debug c r (obj_size k) s3 _ Hok3 Hr1) | by apply (free_track c r _ (obj_size k) s s3 _ Hok3 Hr1 Ht3)] |].
  rewrite delete_insert_id by done. intros [] s4 [[Hok4 _] [Ht4 _]]. apply Hgo; [done | | by apply page_state_size in Ht4].
  destruct Ht4 as (k' & _ & _ & Hc' & _). eexists. rewrite Hc', lookup_insert_eq. done.
Qed.

Lemma slab_pages_bound bl s g : heap_core bl s g -> Z.of_nat (size (kh_slab s)) <= 2 ^ 27.
Proof.
  intros HC. rewrite <- size_dom. assert (Hsub : dom (kh_slab s) ⊆ (set_seq 0 (length (frames (kh_bfc s))) : gset nat)).
  { intros i [d Hd]%elem_of_dom. apply elem_of_set_seq.
    destruct (c_page _ _ _ _ _ _ _ HC i (view_of d)) as (p & _ & _ & Hp%lookup_lt_Some & _); [| lia].
    unfold views. by rewrite lookup_fmap, Hd. }
  apply subseteq_size in Hsub. rewrite size_set_seq in Hsub. pose proof (c_mapped _ _ _ _ _ _ _ HC). unfold PAGE_SIZE in *. lia.
Qed.

Lemma churn_ends c (m : nat) : forall s g, heap_ok s g -> list_empty c s -> Z.of_nat m = 2 ^ 27 + 1 - Z.of_nat (size (kh_slab s)) ->
  wp (churn c (2 * m)) s (fun ok s' => ok = false /\ heap_ok s' g /\ no_room 1 s').
Proof.
  induction m as [| m IH]; intros s g Hok He Hm.
  - destruct Hok as (_ & bl & HC). pose proof (slab_pages_bound bl s g HC). lia.
  - replace (2 * S m)%nat with (S (S (2 * m))) by lia. apply (wp_churn_two c _ s g); [done | done | done |].
    intros s' Hok' He' Hsz. apply IH; [done | done | lia].
Qed.
End leak.

(** ** The properties *)

Section reachable.
Context (debug : bool).

(** The states that callers who keep to the rules can bring about. *)
Inductive hreach : kheap -> gmap Z owner -> Prop :=
  | hreach_init b bl mem : rep b bl -> Z.of_nat (length (frames b)) * PAGE_SIZE <= 2 ^ 39 -> hreach (slab_init b mem) ∅
  | hreach_step o s g r s' : hreach s g -> allowed o s g -> exec debug o s = Some (r, s') -> hreach s' (after o s r g).

Lemma heap_ok_init b bl mem : rep b bl -> Z.of_nat (length (frames b)) * PAGE_SIZE <= 2 ^ 39 -> heap_ok (slab_init b mem) ∅.
Proof.
  intros [Hwf Hin Hd] Hm. split.
  - constructor; cbn; try done. intros c k i Hk Hi. exfalso. repeat (rewrite lookup_insert_Some in Hk; destruct Hk as [[_ <-] | [_ Hk]]; [done |]). done.
  - exists bl. constructor; try done.
    + intros c sz Hs. unfold sizes in Hs. cbn in Hs. rewrite lookup_fmap in Hs. apply fmap_Some in Hs as (k & Hk & ->).
      repeat (rewrite lookup_insert_Some in Hk; destruct Hk as [[_ <-] | [_ Hk]]; [cbn; lia |]). done.
    + intros c Hc. unfold NUM_KMALLOC_CLASSES in Hc.
      assert (c = 0 \/ c = 1 \/ c = 2 \/ c = 3 \/ c = 4 \/ c = 5 \/ c = 6 \/ c = 7 \/ c = 8) as Hcs by lia.
      by repeat destruct Hcs as [-> | Hcs]; [.. | subst].
    + intros c sz Hs. left. unfold sizes in Hs. cbn in Hs. rewrite lookup_fmap in Hs. apply fmap_Some in Hs as (k & Hk & _).
      unfold NUM_KMALLOC_CLASSES. repeat (rewrite lookup_insert_Some in Hk; destruct Hk as [[<- _] | [_ Hk]]; [lia |]). done.
Qed.

Lemma hreach_ok s g : hreach s g -> heap_ok s g.
Proof.
  induction 1 as [b bl mem Hrep Hm | o s g r s' _ IH Hal He]; [by apply (heap_ok_init b bl) |].
  destruct (exec_ok debug o s g IH Hal) as (r' & s'' & He' & Hok & _). rewrite He in He'. by injection He' as <- <-.
Qed.

(** C13. [kmalloc] and its relatives never hand out memory twice.  Whatever
    sequence of allocations, reallocations, frees and cache operations of any
    size and on any processor the kernel performs, and whatever it writes into
    the memory it holds (the free lists are linked through the objects
    themselves): no operation faults or runs forever; everything held lies in
    the direct map and nothing held overlaps anything else held, be it objects,
    large blocks or pages; what is newly handed out was held by nobody and is
    as large as requested; contents held are unchanged, zeroed by [kcalloc]
    and carried over by [krealloc]; an allocation fails only when there are not
    enough contiguous free pages; and the count of bytes in use is exact. *)
Theorem kmalloc_safe s g : hreach s g ->
  (forall a o, g !! a = Some o -> VMA_BASE <= a /\ a + extent o <= page_addr (length (frames (kh_bfc s)))) /\
  (forall a o a' o', g !! a = Some o -> g !! a' = Some o' -> a <> a' -> a + extent o <= a' \/ a' + extent o' <= a) /\
  slab_used_bytes s = s32 (charged g) /\
  forall o, allowed o s g -> exists r s', exec debug o s = Some (r, s') /\ hreach s' (after o s r g) /\
    (r <> 0 -> g !! r = None /\ requested o <= extent (granted_by o s)) /\
    kept (untouched o r g) s s' /\ contents_ok o g s r s' /\
    (r = 0 -> 0 < requested o < 2 ^ 64 -> no_room (pages_needed (requested o)) s').
Proof.
  intros Hr. pose proof (hreach_ok s g Hr) as Hok. pose proof Hok as (_ & bl & HC). split_and!.
  - intros a o Ha. destruct (live_mapped HC a o Ha) as (? & ? & _). done.
  - intros a o a' o'. by apply (live_sep HC).
  - apply (c_used _ _ _ _ _ _ _ HC).
  - intros o Hal. destruct (exec_ok debug o s g Hok Hal) as (r & s' & He & _ & Hn & Hk & Hc & Hno).
    exists r, s'. split; [done |]. split; [by eapply hreach_step | done].
Qed.

(** Dedicated caches leak: from any state in which the list of a cache is
    empty, allocating a single object and giving it back, over and over,
    ends with the page allocator exhausted although nothing more is held than
    at the start.  [kmem_cache_alloc] takes the page off the list while it
    still has free objects, and [kmem_cache_free] only puts a page back that
    was full. *)
Theorem kmem_cache_exhausts c s g : hreach s g -> list_empty c s ->
  exists n s', churn debug c n s = Some (false, s') /\ heap_ok s' g /\ no_room 1 s'.
Proof.
  intros Hr He. pose proof (hreach_ok s g Hr) as Hok. pose proof Hok as (_ & bl & HC). pose proof (slab_pages_bound bl s g HC).
  set (m := Z.to_nat (2 ^ 27 + 1 - Z.of_nat (size (kh_slab s)))).
  destruct (churn_ends debug c m s g Hok He) as (ok & s' & Heq & -> & Hok' & Hno); [unfold m; lia |].
  by exists (2 * m)%nat, s'.
Qed.
End reachable.

(** ** Instances *)

Definition slab_pool : bfc := Bfc (Page PAGE_FREE 0 8 None None :: replicate 7 (Page PAGE_FREE 0 0 None None)) (Some 0%nat) 0.

Lemma slab_pool_rep : rep slab_pool [(0, 8)%nat].
Proof.
  constructor; [cbn; lia | repeat constructor; cbn; lia |]. exists (Some 0%nat). cbn. split; [done |].
  eexists. split; [done |]. done.
Qed.

Definition slab_demo : kheap := slab_init slab_pool ∅.

Lemma slab_demo_reach debug : hreach debug slab_demo ∅.
Proof. apply (hreach_init debug slab_pool [(0, 8)%nat]); [apply slab_pool_rep | vm_compute; discriminate]. Qed.

(** After [kmalloc(2000)]. *)
Definition slab_demo_one : Z * kheap := default (0, slab_demo) (exec false (OMalloc 0 2000) slab_demo).

Lemma slab_demo_one_eq : exec false (OMalloc 0 2000) slab_demo = Some (slab_demo_one.1, slab_demo_one.2).
Proof. vm_compute. reflexivity. Qed.

Lemma kmalloc_safe_witness :
  exists r s', exec false (ORealloc 0 slab_demo_one.1 3000) slab_demo_one.2 = Some (r, s') /\ r <> 0 /\
    forall x, 0 <= x < 2048 -> byte (kh_mem s') (r + x) = byte (kh_mem slab_demo_one.2) (slab_demo_one.1 + x).
Proof.
  pose proof (hreach_step false (OMalloc 0 2000) _ _ _ _ (slab_demo_reach false) ltac:(cbn; lia) slab_demo_one_eq) as Hr.
  destruct (kmalloc_safe false _ _ Hr) as (_ & _ & _ & Hstep).
  destruct (Hstep (ORealloc 0 slab_demo_one.1 3000)) as (r & s' & He & _ & _ & _ & Hc & _).
  { split; [| lia]. right. left. exists 8, 2048. vm_compute. reflexivity. }
  assert (Hr0 : r <> 0).
  { assert (Hv : fst <$> exec false (ORealloc 0 slab_demo_one.1 3000) slab_demo_one.2 = Some (page_addr 1)) by (vm_compute; reflexivity).
    rewrite He in Hv. injection Hv as ->. vm_compute. discriminate. }
  exists r, s'. split; [exact He |]. split; [exact Hr0 |]. intros x Hx.
  apply (Hc Hr0 (Obj 8 2048 false)); [vm_compute; reflexivity | cbn [extent]; lia].
Defined.

Lemma kmem_cache_exhausts_witness :
  list_empty 8 slab_demo /\ exists n s', churn false 8 n slab_demo = Some (false, s') /\ heap_ok s' ∅ /\ no_room 1 s'.
Proof.
  assert (He : list_empty 8 slab_demo) by (eexists; vm_compute; split; reflexivity).
  split; [exact He |]. exact (kmem_cache_exhausts false 8 slab_demo ∅ (slab_demo_reach false) He).
Defined.
