(* ===== verification/PageAlloc.v ===== *)
(** * What the page allocator promises to its clients

    The memory-management code above the allocator takes single pages, gives
    them back, and manipulates their reference counts ([refcount_t] in the
    page descriptor, kernel/xcore/atomic.h).  The class states the contract;
    the BFC allocator of [Bfc] is the instance. *)
From S2P Require Import Prelude Bfc.
Import Bfc.Blocks Bfc.Rep Bfc.Refine.

(** [pa_rep a F]: the state is well formed and [F] is the set of free pages.
    [pa_held a i]: page [i] is marked as in use.  [pa_ref a i]: its reference
    count.  [pa_total a]: the number of page frames. *)
Class PageAllocator (A : Type) := {
  pa_alloc : A -> option (A * option nat);
  pa_free : nat -> A -> option A;
  pa_free_block : nat -> nat -> A -> option A;
  pa_ref : A -> nat -> option Z;
  pa_set_ref : nat -> Z -> A -> option A;
  pa_total : A -> nat;
  pa_rep : A -> (nat -> Prop) -> Prop;
  pa_held : A -> nat -> Prop;

  pa_alloc_ok : forall a F, pa_rep a F ->
    exists a' r, pa_alloc a = Some (a', r) /\ pa_total a' = pa_total a /\
      match r with
      | None => a' = a /\ forall i, ~ F i
      | Some i =>
          F i /\ pa_rep a' (fun j => F j /\ j <> i) /\ pa_held a' i /\ pa_ref a' i = Some 1 /\
          (forall j, ~ F j -> pa_ref a' j = pa_ref a j) /\
          (forall j, ~ F j -> pa_held a j -> pa_held a' j)
      end;
  pa_free_ok : forall a F i, pa_rep a F -> ~ F i -> pa_held a i ->
    exists a', pa_free i a = Some a' /\ pa_total a' = pa_total a /\ pa_rep a' (fun j => F j \/ j = i) /\
      (forall j, ~ F j -> j <> i -> pa_ref a' j = pa_ref a j) /\
      (forall j, ~ F j -> j <> i -> pa_held a j -> pa_held a' j);
  pa_set_ref_ok : forall a F i n, pa_rep a F -> pa_held a i ->
    exists a', pa_set_ref i n a = Some a' /\ pa_total a' = pa_total a /\ pa_rep a' F /\ pa_ref a' i = Some n /\
      (forall j, j <> i -> pa_ref a' j = pa_ref a j) /\
      (forall j, pa_held a j -> pa_held a' j);
  pa_rep_ext : forall a F F', pa_rep a F -> (forall i, F i <-> F' i) -> pa_rep a F';
  pa_held_ref : forall a i, pa_held a i -> exists n, pa_ref a i = Some n;
  pa_held_lt : forall a i, pa_held a i -> (i < pa_total a)%nat;
  pa_free_lt : forall a F i, pa_rep a F -> F i -> (i < pa_total a)%nat;
}.

(** [refcount_inc]: [BUG_ON] when the count was not positive. *)
Definition refcount_inc `{PageAllocator A} (i : nat) (a : A) : option A :=
  n ← pa_ref a i;
  if s32 (n + 1) <=? 1 then None else pa_set_ref i (s32 (n + 1)) a.

(** [refcount_dec_and_test]: [BUG_ON] when the count goes below zero. *)
Definition refcount_dec_and_test `{PageAllocator A} (i : nat) (a : A) : option (A * bool) :=
  n ← pa_ref a i;
  if s32 (n - 1) <? 0 then None
  else a' ← pa_set_ref i (s32 (n - 1)) a; Some (a', s32 (n - 1) =? 0).

(** ** The BFC allocator is an instance *)

Definition bfc_ref (st : bfc) (i : nat) : option Z := p_refcount <$> frames st !! i.

Definition bfc_set_ref (i : nat) (n : Z) (st : bfc) : option bfc := upd i (set_refcount n) st.

(** [bfc_free_page(&bfc_frames[i], 1)] *)
Definition bfc_free1 (i : nat) (st : bfc) : option bfc :=
  r ← bfc_free_page (Some i) 1 st; Some r.1.

(** [bfc_free_page(&bfc_frames[i], n)] *)
Definition bfc_free_block (i n : nat) (st : bfc) : option bfc :=
  r ← bfc_free_page (Some i) n st; Some r.1.

Definition bfc_held (st : bfc) (i : nat) : Prop :=
  exists p, frames st !! i = Some p /\ status p = PAGE_USED.

Definition bfc_total (st : bfc) : nat := length (frames st).

Definition bfc_rep (st : bfc) (F : nat -> Prop) : Prop :=
  exists bl, rep st bl /\ forall i, F i <-> cover bl i.

Lemma bfc_alloc_contract st F : bfc_rep st F ->
  exists st' r, bfc_alloc_page 1 st = Some (st', r) /\ bfc_total st' = bfc_total st /\
    match r with
    | None => st' = st /\ forall i, ~ F i
    | Some i =>
        F i /\ bfc_rep st' (fun j => F j /\ j <> i) /\ bfc_held st' i /\ bfc_ref st' i = Some 1 /\
        (forall j, ~ F j -> bfc_ref st' j = bfc_ref st j) /\
        (forall j, ~ F j -> bfc_held st j -> bfc_held st' j)
    end.
Proof.
  intros (bl & Hrep & HF). pose proof (alloc_page_post st bl 1 Hrep ltac:(lia)) as H.
  unfold alloc_post in H. destruct (take_first _ 1 bl) as [[s bl'] |] eqn:Ht.
  - destruct H as (st' & -> & Hrep' & Hlen & _ & Hg & Hsame).
    destruct (take_first_spec _ _ _ _ _ Nat.lt_0_1 (fits_any_le 1) Ht 0%nat (rep_wf _ _ Hrep))
      as (_ & _ & Hcov & Hdis).
    destruct (Hg s ltac:(lia)) as (p & Hp & Hps & Hpr).
    exists st', (Some s). split; [done |]. split; [done |]. split_and!.
    + apply HF, Hcov. left. lia.
    + exists bl'. split; [done |]. intros i. rewrite HF, Hcov.
      assert (~ cover bl' s) by (apply Hdis; lia). split; [| intros Hc; split; [by right |]; congruence].
      intros [[? | ?] ?]; [lia | done].
    + by exists p.
    + unfold bfc_ref. by rewrite Hp, <- Hpr.
    + intros j Hj. unfold bfc_ref. rewrite Hsame; [done | by rewrite <- HF].
    + intros j Hj Hh. unfold bfc_held. rewrite Hsame; [done | by rewrite <- HF].
  - exists st, None. split_and!; [done | done | done |]. intros i Hi%HF.
    apply take_first_none in Ht. apply Exists_exists in Hi as ([s l] & Hel & Hc).
    rewrite Forall_forall in Ht. specialize (Ht _ Hel). cbn [fst snd] in Ht.
    apply Nat.leb_gt in Ht. unfold covers in Hc. cbn in Hc. lia.
Qed.

Lemma bfc_free_contract st F i : bfc_rep st F -> ~ F i -> bfc_held st i ->
  exists st', bfc_free1 i st = Some st' /\ bfc_total st' = bfc_total st /\ bfc_rep st' (fun j => F j \/ j = i) /\
    (forall j, ~ F j -> j <> i -> bfc_ref st' j = bfc_ref st j) /\
    (forall j, ~ F j -> j <> i -> bfc_held st j -> bfc_held st' j).
Proof.
  intros (bl & Hrep & HF) Hi (p & Hp & Hps).
  assert (Hd : disjoint_from i 1 bl).
  { intros j Hj Hc. replace j with i in Hc by lia. by apply Hi, HF. }
  pose proof (lookup_lt_Some _ _ _ Hp) as Hlt.
  destruct (free_ok st bl i 1 p Hrep ltac:(lia) ltac:(lia) Hd Hp ltac:(by rewrite Hps))
    as (st' & r & Heq & Hrep' & (Hlen & _ & Hsame) & _).
  exists st'. unfold bfc_free1. rewrite Heq. split; [done |]. split; [done |]. split_and!.
  - exists (give i 1 bl). split; [done |]. intros j.
    destruct (give_spec i 1 bl ltac:(lia) 0%nat ltac:(lia) (rep_wf _ _ Hrep) Hd) as [_ Hc].
    rewrite Hc, HF. split; [intros [? | ->]; [by right | left; lia] | intros [? | ?]; [right; lia | by left]].
  - intros j Hj Hne. unfold bfc_ref. rewrite Hsame; [done | by rewrite <- HF | done].
  - intros j Hj Hne. unfold bfc_held. rewrite Hsame; [done | by rewrite <- HF | done].
Qed.

(** Changing a reference count does not disturb the list. *)
Lemma seg_set_ref fr i n p pr cur bl pr' cur' : fr !! i = Some p ->
  seg fr pr cur bl pr' cur' -> seg (<[i := set_refcount n p]> fr) pr cur bl pr' cur'.
Proof.
  intros Hp. revert pr cur. induction bl as [| [s l] bl IH]; intros pr cur; cbn; [done |].
  intros (-> & q & Hq & ? & ? & ? & Hs). split; [done |].
  destruct (decide (i = s)) as [-> | Hne].
  - rewrite list_lookup_insert_eq by (by eapply lookup_lt_Some).
    exists (set_refcount n p). assert (q = p) as -> by congruence. split_and!; try done. by apply IH.
  - rewrite list_lookup_insert_ne by done. exists q. split_and!; try done. by apply IH.
Qed.

Lemma bfc_set_ref_contract st F i n : bfc_rep st F -> bfc_held st i ->
  exists st', bfc_set_ref i n st = Some st' /\ bfc_total st' = bfc_total st /\ bfc_rep st' F /\ bfc_ref st' i = Some n /\
    (forall j, j <> i -> bfc_ref st' j = bfc_ref st j) /\
    (forall j, bfc_held st j -> bfc_held st' j).
Proof.
  intros (bl & [Hwf Hin (last & Hs)] & HF) (p & Hp & Hps).
  unfold bfc_set_ref, upd. rewrite Hp. eexists. split; [done |].
  split; [unfold bfc_total; cbn; by rewrite length_insert |]. split_and!.
  - exists bl. split; [| done]. constructor; cbn; [done | by rewrite length_insert |].
    exists last. by apply seg_set_ref.
  - unfold bfc_ref. cbn. by rewrite list_lookup_insert_eq by (by eapply lookup_lt_Some).
  - intros j Hj. unfold bfc_ref. cbn. by rewrite list_lookup_insert_ne.
  - intros j (q & Hq & Hqs). unfold bfc_held. cbn. destruct (decide (i = j)) as [-> | Hne].
    + exists (set_refcount n p). rewrite list_lookup_insert_eq by (by eapply lookup_lt_Some). done.
    + exists q. by rewrite list_lookup_insert_ne.
Qed.

Lemma bfc_rep_ext st F F' : bfc_rep st F -> (forall i, F i <-> F' i) -> bfc_rep st F'.
Proof. intros (bl & Hrep & HF) Heq. exists bl. split; [done |]. intros i. by rewrite <- Heq. Qed.

Lemma bfc_held_ref st i : bfc_held st i -> exists n, bfc_ref st i = Some n.
Proof. intros (p & Hp & _). unfold bfc_ref. rewrite Hp. by eexists. Qed.

Lemma bfc_held_lt st i : bfc_held st i -> (i < bfc_total st)%nat.
Proof. intros (p & Hp & _). by eapply lookup_lt_Some. Qed.

Lemma bfc_free_lt st F i : bfc_rep st F -> F i -> (i < bfc_total st)%nat.
Proof. intros (bl & Hrep & HF) Hi%HF. eapply inside_cover; [apply (rep_inside _ _ Hrep) | done]. Qed.

#[export] Instance bfc_page_allocator : PageAllocator bfc := {|
  pa_alloc := bfc_alloc_page 1;
  pa_free := bfc_free1;
  pa_free_block := bfc_free_block;
  pa_ref := bfc_ref;
  pa_set_ref := bfc_set_ref;
  pa_total := bfc_total;
  pa_rep := bfc_rep;
  pa_held := bfc_held;
  pa_alloc_ok := bfc_alloc_contract;
  pa_free_ok := bfc_free_contract;
  pa_set_ref_ok := bfc_set_ref_contract;
  pa_rep_ext := bfc_rep_ext;
  pa_held_ref := bfc_held_ref;
  pa_held_lt := bfc_held_lt;
  pa_free_lt := bfc_free_lt;
|}.
