(* ===== verification/PageTable.v ===== *)
(** * User page tables (kernel/xcore/mem/user_mapping.c)

    Four-level x86-64 page tables kept in physical memory.  The model has the
    tables as the code has them: 512-entry pages addressed by frame number,
    walked and extended through the entries.  An address space is the frame
    number of its top-level table.

    - Definitions: the C functions, over any page allocator.
    - [Tree]: the tables reachable from a set of address spaces form a forest,
      and what writing an entry does to the walks.
    - [Ops]: each operation, seen as an update of the map from user pages to
      leaf entries. *)
From S2P Require Import Prelude Bfc PageAlloc.

#[local] Arguments replicate : simpl never.

(** ** Entries *)

Definition PTE_PRESENT : Z := 2 ^ 0.
Definition PTE_RW : Z := 2 ^ 1.
Definition PTE_USER : Z := 2 ^ 2.
Definition PTE_ACCESSED : Z := 2 ^ 5.
Definition PTE_DIRTY : Z := 2 ^ 6.
Definition PTE_PS : Z := 2 ^ 7.
Definition PTE_COW : Z := 2 ^ 9.
Definition PTE_PROTNONE : Z := 2 ^ 10.
Definition PTE_NX : Z := 2 ^ 63.
Definition PTE_PHYS_MASK : Z := 0x000FFFFFFFFFF000.

Definition pte_present (pte : Z) : bool := has_flag pte (Z.lor PTE_PRESENT PTE_PROTNONE).

(** [PHY_TO_PAGE(pte & PTE_PHYS_MASK)] and [page_to_phys]. *)
Definition pte_pfn (pte : Z) : nat := Z.to_nat (Z.shiftr (Z.land pte PTE_PHYS_MASK) PAGE_SHIFT).
Definition page_to_phys (i : nat) : Z := Z.of_nat i * PAGE_SIZE.

Definition pml4_idx (va : Z) : nat := Z.to_nat (Z.land (Z.shiftr va 39) 0x1FF).
Definition pdpt_idx (va : Z) : nat := Z.to_nat (Z.land (Z.shiftr va 30) 0x1FF).
Definition pd_idx (va : Z) : nat := Z.to_nat (Z.land (Z.shiftr va 21) 0x1FF).
Definition pt_idx (va : Z) : nat := Z.to_nat (Z.land (Z.shiftr va 12) 0x1FF).

(** ** The machine: the allocator and physical memory

    A page of physical memory is its 512 64-bit words. *)
Abbreviation memory := (gmap nat (list Z)).

Record machine (A : Type) := Machine { pool : A; ram : memory }.
Arguments Machine {A}.
Arguments pool {A}.
Arguments ram {A}.

Definition rd (m : memory) (t i : nat) : option Z := l ← m !! t; l !! i.

Definition wr (t i : nat) (v : Z) (m : memory) : option memory :=
  l ← m !! t;
  if (i <? length l)%nat then Some (<[t := <[i := v]> l]> m) else None.

(** The loops that clear a page. *)
Definition zero_page (p : nat) (m : memory) : option memory :=
  _ ← m !! p; Some (<[p := replicate 512 0]> m).

Section Operations.
Context `{PageAllocator A}.

(** [lookup_pte]: the address of the leaf entry if it is present. *)
Definition lookup_pte (m : memory) (root : nat) (va : Z) : option (option (nat * nat)) :=
  e4 ← rd m root (pml4_idx va);
  if negb (has_flag e4 PTE_PRESENT) then Some None else
  e3 ← rd m (pte_pfn e4) (pdpt_idx va);
  if negb (has_flag e3 PTE_PRESENT) then Some None else
  e2 ← rd m (pte_pfn e3) (pd_idx va);
  if negb (has_flag e2 PTE_PRESENT) then Some None else
  e1 ← rd m (pte_pfn e2) (pt_idx va);
  if negb (pte_present e1) then Some None else Some (Some (pte_pfn e2, pt_idx va)).

(** [walk_pte_slot]: the same without the test on the leaf. *)
Definition walk_pte_slot (m : memory) (root : nat) (va : Z) : option (option (nat * nat)) :=
  e4 ← rd m root (pml4_idx va);
  if negb (has_flag e4 PTE_PRESENT) then Some None else
  e3 ← rd m (pte_pfn e4) (pdpt_idx va);
  if negb (has_flag e3 PTE_PRESENT) then Some None else
  e2 ← rd m (pte_pfn e3) (pd_idx va);
  if negb (has_flag e2 PTE_PRESENT) then Some None else Some (Some (pte_pfn e2, pt_idx va)).

(** The body shared by [ensure_pd] and [ensure_pt_in_pd]: the table that entry
    [idx] of [t] points to, allocated and cleared if there is none; [None] in
    the result is the NULL of an allocation failure. *)
Definition ensure_entry (t idx : nat) (s : machine A) : option (machine A * option nat) :=
  e ← rd (ram s) t idx;
  if has_flag e 0x01 then Some (s, Some (pte_pfn e))
  else
    '(a, r) ← pa_alloc (pool s);
    match r with
    | None => Some (Machine a (ram s), None)
    | Some p =>
        m1 ← zero_page p (ram s);
        m2 ← wr t idx (Z.lor (page_to_phys p) (Z.lor PTE_PRESENT (Z.lor PTE_RW PTE_USER))) m1;
        Some (Machine a m2, Some p)
    end.

Definition ensure_pd (pml4 : nat) (va : Z) (s : machine A) : option (machine A * option nat) :=
  ensure_entry pml4 (pml4_idx va) s.

Definition ensure_pt_in_pd (t : nat) (va : Z) (level : Z) (s : machine A) : option (machine A * option nat) :=
  ensure_entry t (if level =? 2 then pdpt_idx va else pd_idx va) s.

(** The three calls that every mapping function starts with. *)
Definition ensure_pt (pml4 : nat) (va : Z) (s : machine A) : option (machine A * option nat) :=
  '(s1, pdpt) ← ensure_pd pml4 va s;
  match pdpt with
  | None => Some (s1, None)
  | Some pdpt =>
      '(s2, pd) ← ensure_pt_in_pd pdpt va 2 s1;
      match pd with
      | None => Some (s2, None)
      | Some pd => ensure_pt_in_pd pd va 1 s2
      end
  end.

Definition map_user_page_direct (pml4 : nat) (va phys flags : Z) (s : machine A)
  : option (machine A * bool) :=
  '(s1, pt) ← ensure_pt pml4 va s;
  match pt with
  | None => Some (s1, false)
  | Some pt =>
      e ← rd (ram s1) pt (pt_idx va);
      if pte_present e then Some (s1, false)
      else m ← wr pt (pt_idx va) (Z.lor phys flags) (ram s1); Some (Machine (pool s1) m, true)
  end.

(** One iteration of [map_user_pages]: [None] in the result is [return false],
    [Some n] the pages mapped. *)
Definition map_one (pml4 : nat) (va flags : Z) (s : machine A) : option (machine A * option Z) :=
  '(s1, pt) ← ensure_pt pml4 va s;
  match pt with
  | None => Some (s1, None)
  | Some pt =>
      e ← rd (ram s1) pt (pt_idx va);
      if pte_present e then Some (s1, Some 0)
      else
        '(a, r) ← pa_alloc (pool s1);
        match r with
        | None => Some (Machine a (ram s1), None)
        | Some p =>
            m1 ← zero_page p (ram s1);
            m2 ← wr pt (pt_idx va) (Z.lor (page_to_phys p) flags) m1;
            Some (Machine a m2, Some 1)
        end
  end.

Fixpoint map_loop (fuel : nat) (pml4 : nat) (va va_end flags mapped : Z) (s : machine A)
  : option (machine A * bool * Z) :=
  if va <? va_end then
    match fuel with
    | O => None
    | S fuel' =>
        '(s1, r) ← map_one pml4 va flags s;
        match r with
        | None => Some (s1, false, mapped)
        | Some n => map_loop fuel' pml4 (u64 (va + PAGE_SIZE)) va_end flags (mapped + n) s1
        end
    end
  else Some (s, true, mapped).

(** One iteration per page of the range. *)
Definition range_fuel (va va_end : Z) : nat := S (Z.to_nat ((va_end - va) / PAGE_SIZE)).

Definition map_user_pages (pml4 : nat) (va_start va_end flags : Z) (s : machine A)
  : option (machine A * bool * Z) :=
  let va := ALIGN_UP va_start PAGE_SIZE in
  map_loop (range_fuel va va_end) pml4 va va_end flags 0 s.

(** [refcount_dec_and_test] and [bfc_free_page]. *)
Definition put_page (p : nat) (a : A) : option A :=
  '(a1, zero) ← refcount_dec_and_test p a;
  if zero : bool then pa_free p a1 else Some a1.

(** One iteration of [unmap_user_pages]: [None] in the result is the return
    on an allocation failure. *)
Definition unmap_one (pml4 : nat) (va : Z) (s : machine A) : option (machine A * option Z) :=
  '(s1, pt) ← ensure_pt pml4 va s;
  match pt with
  | None => Some (s1, None)
  | Some pt =>
      e ← rd (ram s1) pt (pt_idx va);
      if pte_present e then
        a ← put_page (pte_pfn e) (pool s1);
        m ← wr pt (pt_idx va) 0 (ram s1);
        Some (Machine a m, Some 1)
      else Some (s1, Some 0)
  end.

Fixpoint unmap_loop (fuel : nat) (pml4 : nat) (va va_end count freed : Z) (s : machine A)
  : option (machine A) :=
  if (va <? va_end) && (freed <? count) then
    match fuel with
    | O => None
    | S fuel' =>
        '(s1, r) ← unmap_one pml4 va s;
        match r with
        | None => Some s1
        | Some n => unmap_loop fuel' pml4 (u64 (va + PAGE_SIZE)) va_end count (freed + n) s1
        end
    end
  else Some s.

Definition unmap_user_pages (pml4 : nat) (va_start va_end count : Z) (s : machine A) : option (machine A) :=
  let va := ALIGN_UP va_start PAGE_SIZE in
  unmap_loop (range_fuel va va_end) pml4 va va_end count 0 s.

Definition clear_user_pte (pml4 : nat) (va : Z) (s : machine A) : option (machine A) :=
  slot ← walk_pte_slot (ram s) pml4 va;
  match slot with
  | None => Some s
  | Some (pt, i) =>
      e ← rd (ram s) pt i;
      if pte_present e then m ← wr pt i 0 (ram s); Some (Machine (pool s) m) else Some s
  end.

Fixpoint move_prepare (n : nat) (pml4 : nat) (new_va : Z) (s : machine A) : option (machine A * bool) :=
  match n with
  | O => Some (s, true)
  | S n' =>
      '(s1, pt) ← ensure_pt pml4 new_va s;
      match pt with
      | None => Some (s1, false)
      | Some _ => move_prepare n' pml4 (u64 (new_va + PAGE_SIZE)) s1
      end
  end.

Definition move_one (pml4 : nat) (sva dva : Z) (m : memory) : option memory :=
  src ← walk_pte_slot m pml4 sva;
  match src with
  | None => Some m
  | Some (pt, i) =>
      e ← rd m pt i;
      if pte_present e then
        dst ← walk_pte_slot m pml4 dva;
        match dst with
        | None => None                       (* *dst = entry with dst NULL *)
        | Some (dpt, j) => m1 ← wr dpt j e m; wr pt i 0 m1
        end
      else Some m
  end.

Fixpoint move_loop (n : nat) (pml4 : nat) (old_va new_va : Z) (m : memory) : option memory :=
  match n with
  | O => Some m
  | S n' =>
      m1 ← move_one pml4 old_va new_va m;
      move_loop n' pml4 (u64 (old_va + PAGE_SIZE)) (u64 (new_va + PAGE_SIZE)) m1
  end.

Definition move_user_pages (pml4 : nat) (old_va new_va : Z) (npages : nat) (s : machine A)
  : option (machine A * bool) :=
  '(s1, ok) ← move_prepare npages pml4 new_va s;
  if ok : bool then m ← move_loop npages pml4 old_va new_va (ram s1); Some (Machine (pool s1) m, true)
  else Some (s1, false).

End Operations.

(** ** The forest of tables *)
Module Tree.

(** The table reached from [t] along a path of indices. *)
Fixpoint tbl (m : memory) (t : nat) (path : list nat) : option nat :=
  match path with
  | [] => Some t
  | i :: rest =>
      match rd m t i with
      | Some e => if has_flag e PTE_PRESENT then tbl m (pte_pfn e) rest else None
      | None => None
      end
  end.

(** The part of the top-level table below index 256 belongs to the user. *)
Definition upath (p : list nat) : Prop :=
  (length p <= 3)%nat /\ Forall (fun i => i < 512)%nat p /\ (forall i, head p = Some i -> i < 256)%nat.

Definition table_page (m : memory) (t : nat) : Prop := exists l, m !! t = Some l /\ length l = 512%nat.

Record forest (m : memory) (roots : list nat) : Prop := {
  fo_page : forall r p t, r ∈ roots -> upath p -> tbl m r p = Some t -> table_page m t;
  fo_inj : forall r p r' p' t, r ∈ roots -> r' ∈ roots -> upath p -> upath p' ->
    tbl m r p = Some t -> tbl m r' p' = Some t -> r = r' /\ p = p';
}.

(** The frames used as page tables. *)
Definition is_table (m : memory) (roots : list nat) (t : nat) : Prop :=
  exists r p, r ∈ roots /\ upath p /\ tbl m r p = Some t.

Lemma tbl_app m t p q : tbl m t (p ++ q) = t' ← tbl m t p; tbl m t' q.
Proof.
  revert t. induction p as [| i p IH]; intros t; cbn; [done |].
  destruct (rd m t i) as [e |]; [| done]. by destruct (has_flag e PTE_PRESENT).
Qed.

Lemma tbl_snoc m t p i t' : tbl m t (p ++ [i]) = Some t' <->
  exists t0 e, tbl m t p = Some t0 /\ rd m t0 i = Some e /\ has_flag e PTE_PRESENT = true /\ pte_pfn e = t'.
Proof.
  rewrite tbl_app. split.
  - destruct (tbl m t p) as [t0 |]; [| done]. cbn.
    destruct (rd m t0 i) as [e |] eqn:He; [| done].
    destruct (has_flag e PTE_PRESENT) eqn:Hf; [| done]. intros [= <-]. by exists t0, e.
  - intros (t0 & e & -> & He & Hf & <-). cbn. by rewrite He, Hf.
Qed.

Lemma upath_snoc p i : upath (p ++ [i]) -> upath p.
Proof.
  intros (Hl & Hall & Hh). rewrite length_app in Hl. cbn in Hl. apply Forall_app in Hall as [? _].
  split_and!; [lia | done |]. intros j Hj. apply Hh. by destruct p.
Qed.

Lemma upath_snoc_lt p i : upath (p ++ [i]) -> (i < 512)%nat.
Proof. intros (_ & Hall & _). apply Forall_app in Hall as [_ Hall]. by apply Forall_cons in Hall as [? _]. Qed.

Lemma rd_insert_ne m t t' l i : t <> t' -> rd (<[t := l]> m) t' i = rd m t' i.
Proof. intros. unfold rd. by rewrite lookup_insert_ne. Qed.

Lemma rd_insert_eq m t l i : rd (<[t := l]> m) t i = l !! i.
Proof. unfold rd. by rewrite lookup_insert_eq. Qed.

Section Walks.
Context (m : memory) (roots : list nat).
Hypothesis Hfo : forest m roots.

(** Writing outside the tables changes no walk. *)
Lemma tbl_nontable p0 l r p : ~ is_table m roots p0 -> r ∈ roots -> upath p ->
  tbl (<[p0 := l]> m) r p = tbl m r p.
Proof.
  intros Hn Hr. induction p as [| i p IH] using rev_ind; intros Hp; [done |].
  pose proof (upath_snoc _ _ Hp) as Hp'. rewrite !tbl_app, IH by done.
  destruct (tbl m r p) as [t |] eqn:Ht; [| done]. cbn. rewrite rd_insert_ne; [done |].
  intros ->. apply Hn. by exists r, p.
Qed.

(** Writing a leaf entry changes no walk. *)
Lemma tbl_leaf r0 p0 t l' r p : r0 ∈ roots -> upath p0 -> length p0 = 3%nat -> tbl m r0 p0 = Some t ->
  r ∈ roots -> upath p -> tbl (<[t := l']> m) r p = tbl m r p.
Proof.
  intros Hr0 Hp0 Hl0 Ht0 Hr. induction p as [| i p IH] using rev_ind; intros Hp; [done |].
  pose proof (upath_snoc _ _ Hp) as Hp'. rewrite !tbl_app, IH by done.
  destruct (tbl m r p) as [t' |] eqn:Ht; [| done]. cbn. rewrite rd_insert_ne; [done |].
  intros <-. destruct (fo_inj _ _ Hfo _ _ _ _ _ Hr0 Hr Hp0 Hp' Ht0 Ht) as [_ ->].
  destruct Hp as [Hlen _]. rewrite length_app in Hlen. cbn in Hlen. lia.
Qed.

(** Linking a fresh cleared table adds exactly one walk. *)
Lemma tbl_link r0 p0 t l i q e r p : r0 ∈ roots -> upath (p0 ++ [i]) ->
  tbl m r0 p0 = Some t -> m !! t = Some l -> length l = 512%nat ->
  (exists e0, l !! i = Some e0 /\ has_flag e0 PTE_PRESENT = false) ->
  ~ is_table m roots q -> has_flag e PTE_PRESENT = true -> pte_pfn e = q ->
  r ∈ roots -> upath p ->
  tbl (<[t := <[i := e]> l]> (<[q := replicate 512 0]> m)) r p =
  if bool_decide (r = r0 /\ p = p0 ++ [i]) then Some q else tbl m r p.
Proof.
  intros Hr0 Hpi Ht Hl Hlen Hnp Hq He Hpfn Hr. pose proof (upath_snoc _ _ Hpi) as Hp0.
  assert (Hi : (i < 512)%nat) by (by eapply upath_snoc_lt).
  assert (Hqt : q <> t) by (intros ->; apply Hq; by exists r0, p0).
  assert (Hnone : tbl m r0 (p0 ++ [i]) = None).
  { rewrite tbl_app, Ht. cbn. unfold rd. rewrite Hl. cbn.
    by destruct Hnp as (e0 & -> & ->). }
  induction p as [| j p IH] using rev_ind; intros Hp.
  { rewrite bool_decide_eq_false_2; [done |]. intros [_ Hx]. by destruct p0. }
  pose proof (upath_snoc _ _ Hp) as Hp'. rewrite !tbl_app, IH by done.
  destruct (bool_decide_reflect (r = r0 /\ p = p0 ++ [i])) as [[-> ->] | Hne].
  - rewrite Hnone. cbn. rewrite rd_insert_ne by done. rewrite rd_insert_eq.
    rewrite lookup_replicate_2 by (by eapply upath_snoc_lt). cbn.
    rewrite bool_decide_eq_false_2; [done |]. intros [_ Hx]. apply app_inj_2 in Hx as [Hx _]; [| done].
    apply (f_equal length) in Hx. rewrite length_app in Hx. cbn in Hx. lia.
  - destruct (tbl m r p) as [t' |] eqn:Ht'.
    2:{ cbn. rewrite bool_decide_eq_false_2; [done |]. intros [-> Hx].
        apply app_inj_2 in Hx as [-> _]; [| done]. congruence. }
    cbn. assert (Hq' : q <> t') by (intros ->; apply Hq; by exists r, p).
    destruct (decide (t = t')) as [<- | Htt].
    + destruct (fo_inj _ _ Hfo _ _ _ _ _ Hr0 Hr Hp0 Hp' Ht Ht') as [<- <-].
      rewrite rd_insert_eq. destruct (decide (i = j)) as [<- | Hij].
      * rewrite list_lookup_insert_eq by lia. rewrite He, Hpfn.
        by rewrite bool_decide_eq_true_2.
      * rewrite list_lookup_insert_ne by done.
        rewrite bool_decide_eq_false_2;
          [| intros [_ Hx]; apply app_inj_2 in Hx as [_ [= ->]]; done].
        unfold rd. by rewrite Hl.
    + rewrite !rd_insert_ne by done.
      rewrite bool_decide_eq_false_2; [done |]. intros [-> Hx].
      apply app_inj_2 in Hx as [-> _]; [| done]. congruence.
Qed.

End Walks.
End Tree.

(** ** Addresses and leaf entries *)
Module Leaf.
Import Tree.

Definition user_va (va : Z) : Prop := 0 <= va < 2 ^ 47.
Definition path (va : Z) : list nat := [pml4_idx va; pdpt_idx va; pd_idx va].

(** The leaf entry of a page of an address space; 0 where a table is missing. *)
Definition leaf (m : memory) (root : nat) (va : Z) : Z :=
  match tbl m root (path va) with
  | Some t => default 0 (rd m t (pt_idx va))
  | None => 0
  end.

Lemma idx_div va k : 0 <= k -> Z.of_nat (Z.to_nat (Z.land (Z.shiftr va k) 0x1FF)) = (va / 2 ^ k) mod 512.
Proof.
  intros Hk. change 0x1FF with (Z.ones 9). rewrite Z.land_ones, Z.shiftr_div_pow2 by lia.
  change (2 ^ 9) with 512. pose proof (Z.mod_pos_bound (va / 2 ^ k) 512 ltac:(lia)). lia.
Qed.

Lemma idx_lt va k : 0 <= k -> (Z.to_nat (Z.land (Z.shiftr va k) 0x1FF) < 512)%nat.
Proof.
  intros Hk. pose proof (idx_div va k Hk). pose proof (Z.mod_pos_bound (va / 2 ^ k) 512 ltac:(lia)). lia.
Qed.

Lemma pml4_user va : user_va va -> (pml4_idx va < 256)%nat.
Proof.
  intros Hu. unfold pml4_idx. pose proof (idx_div va 39 ltac:(lia)).
  assert (0 <= va / 2 ^ 39 < 256)
    by (split; [apply Z.div_pos; unfold user_va in *; lia | apply Z.div_lt_upper_bound; unfold user_va in *; lia]).
  rewrite Z.mod_small in H by lia. lia.
Qed.

Lemma path_upath va : user_va va -> upath (path va).
Proof.
  intros Hu. split_and!; [done | unfold path; do 3 (constructor; [by apply idx_lt |]); constructor |].
  intros i [= <-]. by apply pml4_user.
Qed.

Lemma pt_idx_lt va : (pt_idx va < 512)%nat.
Proof. by apply idx_lt. Qed.

(** The four indices determine the page number. *)
Lemma vpn_split va : user_va va ->
  va / PAGE_SIZE = ((Z.of_nat (pml4_idx va) * 512 + Z.of_nat (pdpt_idx va)) * 512
                    + Z.of_nat (pd_idx va)) * 512 + Z.of_nat (pt_idx va).
Proof.
  intros Hu. unfold pml4_idx, pdpt_idx, pd_idx, pt_idx. rewrite !idx_div by lia.
  assert (Hd : forall k, 0 <= k -> va / 2 ^ (k + 9) = (va / 2 ^ k) / 512).
  { intros k Hk. rewrite Z.pow_add_r by lia. rewrite Z.div_div by lia. done. }
  assert (H39 : (va / 2 ^ 39) mod 512 = va / 2 ^ 39).
  { apply Z.mod_small. unfold user_va in Hu. split; [apply Z.div_pos; lia | apply Z.div_lt_upper_bound; lia]. }
  assert (H1 : va / 2 ^ 39 = va / 2 ^ 30 / 512) by exact (Hd 30 ltac:(lia)).
  assert (H2 : va / 2 ^ 30 = va / 2 ^ 21 / 512) by exact (Hd 21 ltac:(lia)).
  assert (H3 : va / 2 ^ 21 = va / 2 ^ 12 / 512) by exact (Hd 12 ltac:(lia)).
  rewrite H39.
  change PAGE_SIZE with (2 ^ 12). rewrite H1, H2, H3.
  set (v := va / 2 ^ 12). pose proof (Z.div_mod v 512). pose proof (Z.div_mod (v / 512) 512).
  pose proof (Z.div_mod (v / 512 / 512) 512). lia.
Qed.

Definition same_page (va va' : Z) : Prop := va / PAGE_SIZE = va' / PAGE_SIZE.

#[export] Instance same_page_dec va va' : Decision (same_page va va') := decide (_ = _).

#[export] Instance same_page_equiv : Equivalence same_page.
Proof. split; unfold same_page; [done | by intros ?? -> | by intros ??? -> ->]. Qed.

Lemma same_page_idx va va' : user_va va -> user_va va' ->
  same_page va va' <-> path va = path va' /\ pt_idx va = pt_idx va'.
Proof.
  intros Hu Hu'. unfold same_page. rewrite (vpn_split va), (vpn_split va') by done.
  pose proof (idx_lt va 39 ltac:(lia)). pose proof (idx_lt va 30 ltac:(lia)).
  pose proof (idx_lt va 21 ltac:(lia)). pose proof (idx_lt va 12 ltac:(lia)).
  pose proof (idx_lt va' 39 ltac:(lia)). pose proof (idx_lt va' 30 ltac:(lia)).
  pose proof (idx_lt va' 21 ltac:(lia)). pose proof (idx_lt va' 12 ltac:(lia)).
  unfold path. fold (pml4_idx va) in *. split.
  - intros Heq. fold (pml4_idx va) (pdpt_idx va) (pd_idx va) (pt_idx va)
      (pml4_idx va') (pdpt_idx va') (pd_idx va') (pt_idx va') in *.
    assert (pml4_idx va = pml4_idx va') by lia. assert (pdpt_idx va = pdpt_idx va') by lia.
    assert (pd_idx va = pd_idx va') by lia. split; [congruence | lia].
  - intros [[= -> -> ->] ->]. done.
Qed.

(** The walks of the code are walks in the forest. *)
Lemma walk_tbl m root va roots : forest m roots -> root ∈ roots -> user_va va ->
  walk_pte_slot m root va =
  Some (match tbl m root (path va) with Some t => Some (t, pt_idx va) | None => None end).
Proof.
  intros Hfo Hr Hu. pose proof (path_upath va Hu) as Hp. unfold walk_pte_slot, path.
  assert (Hrd : forall p t i, upath (p ++ [i]) -> tbl m root p = Some t -> exists e, rd m t i = Some e).
  { intros p t i Hpi Ht. destruct (fo_page _ _ Hfo _ _ _ Hr (upath_snoc _ _ Hpi) Ht) as (l & Hl & Hlen).
    unfold rd. rewrite Hl. cbn. apply lookup_lt_is_Some_2. rewrite Hlen. by eapply upath_snoc_lt. }
  destruct (Hrd [] root (pml4_idx va)) as [e4 He4]; [| done |].
  { by apply (upath_snoc [pml4_idx va] (pdpt_idx va)), (upath_snoc [_; _] (pd_idx va)). }
  cbn [tbl]. rewrite He4. cbn [mbind option_bind].
  destruct (has_flag e4 PTE_PRESENT) eqn:Hf4; [| done]. cbn [negb].
  destruct (Hrd [pml4_idx va] (pte_pfn e4) (pdpt_idx va)) as [e3 He3].
  { by apply (upath_snoc [_; _] (pd_idx va)). }
  { cbn. by rewrite He4, Hf4. }
  rewrite He3. cbn [mbind option_bind].
  destruct (has_flag e3 PTE_PRESENT) eqn:Hf3; [| done]. cbn [negb].
  destruct (Hrd [pml4_idx va; pdpt_idx va] (pte_pfn e3) (pd_idx va)) as [e2 He2]; [done | |].
  { cbn. by rewrite He4, Hf4, He3, Hf3. }
  rewrite He2. cbn [mbind option_bind].
  by destruct (has_flag e2 PTE_PRESENT).
Qed.

Lemma leaf_rd m root va roots t : forest m roots -> root ∈ roots -> user_va va ->
  tbl m root (path va) = Some t -> rd m t (pt_idx va) = Some (leaf m root va).
Proof.
  intros Hfo Hr Hu Ht. unfold leaf. rewrite Ht.
  destruct (fo_page _ _ Hfo _ _ _ Hr (path_upath va Hu) Ht) as (l & Hl & Hlen).
  unfold rd. rewrite Hl. cbn. destruct (lookup_lt_is_Some_2 l (pt_idx va)) as [e He].
  { rewrite Hlen. apply pt_idx_lt. }
  by rewrite He.
Qed.

(** [lookup_pte] finds exactly the present leaf entries. *)
Lemma lookup_leaf m root va roots : forest m roots -> root ∈ roots -> user_va va ->
  lookup_pte m root va =
  Some (if pte_present (leaf m root va)
        then (fun t => (t, pt_idx va)) <$> tbl m root (path va) else None).
Proof.
  intros Hfo Hr Hu. pose proof (walk_tbl m root va roots Hfo Hr Hu) as Hw.
  assert (Hlw : lookup_pte m root va =
    slot ← walk_pte_slot m root va;
    match slot with
    | None => Some None
    | Some (t, i) => e ← rd m t i; if negb (pte_present e) then Some None else Some (Some (t, i))
    end).
  { unfold lookup_pte, walk_pte_slot.
    destruct (rd m root (pml4_idx va)) as [e4 |]; [| done]. cbn. destruct (has_flag e4 _); [| done]. cbn.
    destruct (rd m _ (pdpt_idx va)) as [e3 |]; [| done]. cbn. destruct (has_flag e3 _); [| done]. cbn.
    destruct (rd m _ (pd_idx va)) as [e2 |]; [| done]. cbn. by destruct (has_flag e2 _). }
  rewrite Hlw, Hw. cbn [mbind option_bind]. destruct (tbl m root (path va)) as [t |] eqn:Ht.
  - rewrite (leaf_rd m root va roots t) by done. cbn. by destruct (pte_present _).
  - unfold leaf. by rewrite Ht.
Qed.

Lemma wr_ok m t i v l : m !! t = Some l -> (i < length l)%nat -> wr t i v m = Some (<[t := <[i := v]> l]> m).
Proof. intros Hl Hi. unfold wr. rewrite Hl. cbn [mbind option_bind]. by rewrite (proj2 (Nat.ltb_lt _ _) Hi). Qed.

Lemma wr_dom m t i v m' j : wr t i v m = Some m' -> is_Some (m !! j) -> is_Some (m' !! j).
Proof.
  unfold wr. destruct (m !! t) as [l |]; [| done]. cbn [mbind option_bind].
  destruct (i <? length l)%nat; [| done]. intros [= <-].
  destruct (decide (t = j)) as [<- | ?]; [by rewrite lookup_insert_eq | by rewrite lookup_insert_ne].
Qed.

(** Writing a leaf entry. *)
Lemma set_leaf m roots root va t v : forest m roots -> root ∈ roots -> user_va va ->
  tbl m root (path va) = Some t ->
  exists m', wr t (pt_idx va) v m = Some m' /\ forest m' roots /\
    (forall r p, r ∈ roots -> upath p -> tbl m' r p = tbl m r p) /\
    leaf m' root va = v /\
    (forall r va', r ∈ roots -> user_va va' -> ~ (r = root /\ same_page va' va) ->
       leaf m' r va' = leaf m r va') /\
    (forall j, ~ is_table m roots j -> m' !! j = m !! j).
Proof.
  intros Hfo Hr Hu Ht. pose proof (path_upath va Hu) as Hp.
  destruct (fo_page _ _ Hfo _ _ _ Hr Hp Ht) as (l & Hl & Hlen).
  assert (Hi : (pt_idx va < length l)%nat) by (rewrite Hlen; apply pt_idx_lt).
  exists (<[t := <[pt_idx va := v]> l]> m). split; [by apply wr_ok |].
  assert (Htbl : forall r p, r ∈ roots -> upath p -> tbl (<[t := <[pt_idx va := v]> l]> m) r p = tbl m r p).
  { intros r p Hr' Hp'. by eapply tbl_leaf with (r0 := root) (p0 := path va). }
  split_and!.
  - constructor.
    + intros r p t' Hr' Hp' Ht'. rewrite Htbl in Ht' by done.
      destruct (fo_page _ _ Hfo _ _ _ Hr' Hp' Ht') as (l' & Hl' & Hlen').
      destruct (decide (t = t')) as [<- | Hne].
      * exists (<[pt_idx va := v]> l). rewrite lookup_insert_eq. by rewrite length_insert.
      * exists l'. by rewrite lookup_insert_ne.
    + intros r p r' p' t' Hr1 Hr2 Hp1 Hp2 H1 H2. rewrite Htbl in H1, H2 by done.
      by apply (fo_inj _ _ Hfo r p r' p' t').
  - done.
  - unfold leaf. rewrite Htbl, Ht by done. rewrite rd_insert_eq.
    by rewrite list_lookup_insert_eq.
  - intros r va' Hr' Hu' Hne. unfold leaf. pose proof (path_upath va' Hu') as Hp'.
    rewrite Htbl by done. destruct (tbl m r (path va')) as [t' |] eqn:Ht'; [| done].
    destruct (decide (t = t')) as [<- | Hne'].
    + destruct (fo_inj _ _ Hfo _ _ _ _ _ Hr Hr' Hp Hp' Ht Ht') as [<- Hpath].
      rewrite rd_insert_eq. unfold rd. rewrite Hl. cbn. rewrite list_lookup_insert_ne; [done |].
      intros Hpi. apply Hne. split; [done |]. by apply same_page_idx.
    + by rewrite rd_insert_ne.
  - intros j Hj. rewrite lookup_insert_ne; [done |]. intros <-. apply Hj. by exists root, (path va).
Qed.

End Leaf.

(** ** The operations on address spaces *)
Module Ops.
Import Tree Leaf.

Lemma pfn_of_page p flags : Z.of_nat p < 2 ^ 40 -> Z.land flags PTE_PHYS_MASK = 0 ->
  pte_pfn (Z.lor (page_to_phys p) flags) = p.
Proof.
  intros Hp Hf. unfold pte_pfn, page_to_phys. rewrite Z.land_lor_distr_l, Hf, Z.lor_0_r.
  change PTE_PHYS_MASK with (Z.shiftl (Z.ones 40) 12). change PAGE_SHIFT with 12.
  replace (Z.of_nat p * PAGE_SIZE) with (Z.shiftl (Z.of_nat p) 12)
    by (rewrite Z.shiftl_mul_pow2 by lia; done).
  rewrite <- Z.shiftl_land, Z.shiftr_shiftl_l, Z.sub_diag, Z.shiftl_0_r by lia.
  rewrite Z.land_ones, Z.mod_small by lia. lia.
Qed.

Definition table_flags : Z := Z.lor PTE_PRESENT (Z.lor PTE_RW PTE_USER).

Lemma table_entry_pfn p : Z.of_nat p < 2 ^ 40 -> pte_pfn (Z.lor (page_to_phys p) table_flags) = p.
Proof. intros. by apply pfn_of_page. Qed.

Lemma has_flag_lor_r x y f : has_flag y f = true -> has_flag (Z.lor x y) f = true.
Proof.
  unfold has_flag. rewrite !negb_true_iff, !Z.eqb_neq. intros Hy. rewrite Z.land_lor_distr_l.
  intros [_ ?]%Z.lor_eq_0_iff. done.
Qed.

Lemma table_entry_present x : has_flag (Z.lor x table_flags) PTE_PRESENT = true.
Proof. by apply has_flag_lor_r. Qed.

Section Ops.
Context `{PageAllocator A} (roots : list nat).

Record good (s : machine A) (F : nat -> Prop) : Prop := {
  g_pool : pa_rep (pool s) F;
  g_forest : forest (ram s) roots;
  g_table : forall t, is_table (ram s) roots t -> ~ F t /\ pa_held (pool s) t;
  g_ram : forall i, (i < pa_total (pool s))%nat -> is_Some (ram s !! i);
  g_total : Z.of_nat (pa_total (pool s)) <= 2 ^ 40;
}.

(** [s'] comes from [s] by taking free pages, some of them as new tables; the
    leaf entries become [L], and pages that were in use and are not tables
    keep their contents. *)
Record evolves (s : machine A) (F : nat -> Prop) (s' : machine A) (F' : nat -> Prop)
    (L : nat -> Z -> Z) : Prop := {
  ev_good : good s' F';
  ev_free : forall i, F' i -> F i;
  ev_leaf : forall r va, r ∈ roots -> user_va va -> leaf (ram s') r va = L r va;
  ev_ref : forall j, ~ F j -> pa_ref (pool s') j = pa_ref (pool s) j;
  ev_held : forall j, ~ F j -> pa_held (pool s) j -> pa_held (pool s') j;
  ev_ram : forall j, ~ F j -> ~ is_table (ram s) roots j -> ram s' !! j = ram s !! j;
  ev_tbl : forall r p t, r ∈ roots -> upath p -> tbl (ram s) r p = Some t -> tbl (ram s') r p = Some t;
  ev_new : forall t, is_table (ram s') roots t -> is_table (ram s) roots t \/ (F t /\ ~ F' t);
}.

Abbreviation leaves s := (leaf (ram s)).

Lemma evolves_refl s F : good s F -> evolves s F s F (leaves s).
Proof. intros. constructor; try done. naive_solver. Qed.

Lemma evolves_trans s F s1 F1 L1 s2 F2 L2 :
  evolves s F s1 F1 L1 -> evolves s1 F1 s2 F2 L2 -> evolves s F s2 F2 L2.
Proof.
  intros E1 E2. constructor.
  - apply E2.
  - intros i Hi. by apply E1, E2.
  - apply E2.
  - intros j Hj. rewrite (ev_ref _ _ _ _ _ E2), (ev_ref _ _ _ _ _ E1); [done | done |].
    intros Hx. by apply Hj, E1.
  - intros j Hj Hh. apply (ev_held _ _ _ _ _ E2); [intros Hx; by apply Hj, E1 |].
    by apply (ev_held _ _ _ _ _ E1).
  - intros j Hj Ht. rewrite (ev_ram _ _ _ _ _ E2), (ev_ram _ _ _ _ _ E1); [done | done | done | |].
    + intros Hx. by apply Hj, E1.
    + intros [? | [? _]]%(ev_new _ _ _ _ _ E1); done.
  - intros r p t Hr Hp Ht. apply (ev_tbl _ _ _ _ _ E2); [done | done |]. by apply (ev_tbl _ _ _ _ _ E1).
  - intros t [Ht | [Hf Hnf]]%(ev_new _ _ _ _ _ E2).
    + apply (ev_new _ _ _ _ _ E1) in Ht as [? | [? Hn]]; [by left | right].
      split; [done |]. intros Hx. by apply Hn, E2.
    + right. split; [by apply E1 | done].
Qed.

(** Changing the pointwise description of the leaves. *)
Lemma evolves_leaf s F s' F' L L' : evolves s F s' F' L ->
  (forall r va, r ∈ roots -> user_va va -> L r va = L' r va) -> evolves s F s' F' L'.
Proof. intros [] HL. constructor; try done. intros r va Hr Hu. rewrite <- HL by done. auto. Qed.

Lemma table_of s F r p t : good s F -> r ∈ roots -> upath p -> tbl (ram s) r p = Some t ->
  is_table (ram s) roots t.
Proof. intros. by exists r, p. Qed.

(** Linking a page [q] just taken from the allocator as the table that entry
    [i] of the table [t] points to. *)
Section Link.
Context (s : machine A) (F : nat -> Prop) (r : nat) (p : list nat) (i t : nat) (l : list Z) (e0 ev : Z)
  (a : A) (q : nat).
Hypothesis Hg : good s F.
Hypothesis Hr : r ∈ roots.
Hypothesis Hpi : upath (p ++ [i]).
Hypothesis Ht : tbl (ram s) r p = Some t.
Hypothesis Hl : ram s !! t = Some l.
Hypothesis Hlen : length l = 512%nat.
Hypothesis He0 : l !! i = Some e0.
Hypothesis Hnp : has_flag e0 PTE_PRESENT = false.
Hypothesis Hev : has_flag ev PTE_PRESENT = true.
Hypothesis Hpfn : pte_pfn ev = q.
Hypothesis HFq : F q.
Hypothesis Hrep : pa_rep a (fun j => F j /\ j <> q).
Hypothesis Hheld : pa_held a q.
Hypothesis Href : forall j, ~ F j -> pa_ref a j = pa_ref (pool s) j.
Hypothesis Hhk : forall j, ~ F j -> pa_held (pool s) j -> pa_held a j.
Hypothesis Htot : pa_total a = pa_total (pool s).

Definition linked : memory := <[t := <[i := ev]> l]> (<[q := replicate 512 0]> (ram s)).

Lemma link_fresh : ~ is_table (ram s) roots q.
Proof. intros Hx. by apply (g_table _ _ Hg) in Hx as [? _]. Qed.

Lemma link_ne : t <> q.
Proof.
  pose proof link_fresh as Hqn. intros Heq. apply Hqn. rewrite <- Heq. exists r, p.
  split_and!; [done | by eapply upath_snoc | done].
Qed.

Lemma link_tbl r' p' : r' ∈ roots -> upath p' ->
  tbl linked r' p' = if bool_decide (r' = r /\ p' = p ++ [i]) then Some q else tbl (ram s) r' p'.
Proof.
  intros Hr' Hp'. apply (tbl_link _ _ (g_forest _ _ Hg)); try done; [by exists e0 | apply link_fresh].
Qed.

Lemma link_page j l' : ram s !! j = Some l' -> j <> q -> exists l'', linked !! j = Some l'' /\ length l'' = length l'.
Proof.
  intros Hj Hjq. unfold linked. destruct (decide (t = j)) as [<- | Hne].
  - rewrite lookup_insert_eq. eexists. split; [done |]. rewrite length_insert. congruence.
  - rewrite !lookup_insert_ne by done. by exists l'.
Qed.

Lemma link_zero : linked !! q = Some (replicate 512 0).
Proof. unfold linked. rewrite lookup_insert_ne by apply link_ne. apply lookup_insert_eq. Qed.

Lemma link_forest : forest linked roots.
Proof.
  pose proof link_fresh as Hqn. constructor.
  - intros r' p' t' Hr' Hp' Ht'. rewrite link_tbl in Ht' by done. case_bool_decide.
    + injection Ht' as <-. exists (replicate 512 0). by rewrite link_zero, length_replicate.
    + destruct (fo_page _ _ (g_forest _ _ Hg) _ _ _ Hr' Hp' Ht') as (l' & Hl' & Hlen').
      destruct (link_page t' l' Hl') as (l'' & ? & ?); [| exists l''; split; [done | congruence]].
      intros Heq. apply Hqn. rewrite <- Heq. by exists r', p'.
  - intros r1 p1 r2 p2 t' Hr1 Hr2 Hp1 Hp2 H1 H2. rewrite link_tbl in H1, H2 by done.
    destruct (bool_decide_reflect (r1 = r /\ p1 = p ++ [i])) as [[-> ->] | _],
      (bool_decide_reflect (r2 = r /\ p2 = p ++ [i])) as [[-> ->] | _]; [done | | |].
    + destruct Hqn. exists r2, p2. by rewrite H2, <- H1.
    + destruct Hqn. exists r1, p1. by rewrite H1, <- H2.
    + by apply (fo_inj _ _ (g_forest _ _ Hg) r1 p1 r2 p2 t').
Qed.

Lemma link_is_table t' : is_table linked roots t' -> is_table (ram s) roots t' \/ t' = q.
Proof.
  intros (r' & p' & Hr' & Hp' & Ht'). rewrite link_tbl in Ht' by done.
  case_bool_decide; [right; congruence | left; by exists r', p'].
Qed.

Lemma link_none : tbl (ram s) r (p ++ [i]) = None.
Proof. rewrite tbl_app, Ht. cbn. unfold rd. rewrite Hl. cbn. by rewrite He0, Hnp. Qed.

Lemma link_good : good (Machine a linked) (fun j => F j /\ j <> q).
Proof.
  constructor; cbn [pool ram].
  - done.
  - apply link_forest.
  - intros t' [Ht' | ->]%link_is_table; [| naive_solver].
    destruct (g_table _ _ Hg _ Ht'). split; [naive_solver | auto].
  - intros j Hj. rewrite Htot in Hj. destruct (g_ram _ _ Hg _ Hj) as [l' Hl'].
    destruct (decide (j = q)) as [Hjq | Hjq]; [by rewrite Hjq, link_zero |].
    destruct (link_page j l' Hl' Hjq) as (l'' & -> & _). done.
  - rewrite Htot. apply (g_total _ _ Hg).
Qed.

Lemma link_leaf r' va : r' ∈ roots -> user_va va -> leaf linked r' va = leaves s r' va.
Proof.
  intros Hr' Hu. unfold leaf. pose proof (path_upath va Hu) as Hpv. rewrite link_tbl by done.
  case_bool_decide as Hc.
  - destruct Hc as [-> Hpa]. rewrite Hpa, link_none. unfold rd. rewrite link_zero. cbn.
    by rewrite lookup_replicate_2 by apply pt_idx_lt.
  - destruct (tbl (ram s) r' (path va)) as [t' |] eqn:Ht'; [| done]. unfold linked.
    assert (t <> t').
    { intros Heq. rewrite <- Heq in Ht'.
      destruct (fo_inj _ _ (g_forest _ _ Hg) _ _ _ _ _ Hr Hr' (upath_snoc _ _ Hpi) Hpv Ht Ht')
        as [_ Hpe]. rewrite Hpe in Hpi. destruct Hpi as [Hx _]. rewrite length_app in Hx. cbn in Hx. lia. }
    assert (q <> t') by (intros Heq; apply link_fresh; rewrite Heq; by exists r', (path va)).
    by rewrite !rd_insert_ne.
Qed.

Lemma link_table : evolves s F (Machine a linked) (fun j => F j /\ j <> q) (leaves s).
Proof.
  constructor; cbn [pool ram].
  - apply link_good.
  - naive_solver.
  - apply link_leaf.
  - done.
  - done.
  - intros j Hj Hjt. unfold linked. rewrite !lookup_insert_ne; [done | by intros -> |].
    intros <-. apply Hjt. exists r, p. split_and!; [done | by eapply upath_snoc | done].
  - intros r' p' t' Hr' Hp' Ht'. rewrite link_tbl by done. case_bool_decide as Hc; [| done].
    destruct Hc as [-> ->]. rewrite link_none in Ht'. done.
  - intros t' [? | ->]%link_is_table; [by left | right]. naive_solver.
Qed.

End Link.

(** Every page that left the free set became a table. *)
Definition only_tables (F : nat -> Prop) (s' : machine A) (F' : nat -> Prop) : Prop :=
  forall j, F j -> F' j \/ is_table (ram s') roots j.

Lemma only_tables_trans F s1 F1 s2 F2 L : only_tables F s1 F1 -> only_tables F1 s2 F2 ->
  evolves s1 F1 s2 F2 L -> only_tables F s2 F2.
Proof.
  intros H1 H2 E j [Hj | (r & p & Hr & Hp & Ht)]%H1; [by apply H2 | right].
  exists r, p. split_and!; [done | done |]. by apply (ev_tbl _ _ _ _ _ E).
Qed.

Lemma ensure_entry_ok s F r p i t : good s F -> r ∈ roots -> upath (p ++ [i]) ->
  tbl (ram s) r p = Some t ->
  exists s' res F', ensure_entry t i s = Some (s', res) /\ evolves s F s' F' (leaves s) /\
    only_tables F s' F' /\
    match res with
    | Some q => tbl (ram s') r (p ++ [i]) = Some q
    | None => forall j, ~ F' j
    end.
Proof.
  intros Hg Hr Hpi Ht. pose proof (upath_snoc _ _ Hpi) as Hp.
  destruct (fo_page _ _ (g_forest _ _ Hg) _ _ _ Hr Hp Ht) as (l & Hl & Hlen).
  destruct (lookup_lt_is_Some_2 l i) as [e0 He0]; [rewrite Hlen; by eapply upath_snoc_lt |].
  unfold ensure_entry. unfold rd. rewrite Hl. cbn [mbind option_bind]. rewrite He0.
  cbn [mbind option_bind]. change 0x01 with PTE_PRESENT.
  destruct (has_flag e0 PTE_PRESENT) eqn:Hf.
  { exists s, (Some (pte_pfn e0)), F. split_and!; [done | by apply evolves_refl | by left |].
    apply tbl_snoc. exists t, e0. split_and!; try done. unfold rd. by rewrite Hl. }
  destruct (pa_alloc_ok _ _ (g_pool _ _ Hg)) as (a & res & -> & Htot & Hres). cbn [mbind option_bind].
  destruct res as [q |].
  - destruct Hres as (HFq & Hrep & Hheld & _ & Href & Hhk).
    destruct (g_ram _ _ Hg q (pa_free_lt _ _ _ (g_pool _ _ Hg) HFq)) as [lq Hlq].
    assert (Hq40 : Z.of_nat q < 2 ^ 40).
    { pose proof (pa_free_lt _ _ _ (g_pool _ _ Hg) HFq). pose proof (g_total _ _ Hg). lia. }
    set (ev := Z.lor (page_to_phys q) table_flags).
    assert (Hev : has_flag ev PTE_PRESENT = true) by apply table_entry_present.
    assert (Hpfn : pte_pfn ev = q) by (by apply table_entry_pfn).
    pose proof (link_tbl s F r p i t l e0 ev q Hg Hr Hpi Ht Hl Hlen He0 Hf Hev Hpfn HFq r (p ++ [i]) Hr Hpi) as Hnew.
    rewrite bool_decide_eq_true_2 in Hnew by done.
    unfold zero_page. rewrite Hlq. cbn [mbind option_bind].
    rewrite (wr_ok _ t i _ l);
      [| rewrite lookup_insert_ne; [done | by apply not_eq_sym, (link_ne s F r p i t q)]
       | rewrite Hlen; by eapply upath_snoc_lt].
    do 3 eexists. split; [done |]. split; [| split; [| exact Hnew]].
    { by eapply (link_table s F r p i t l e0 ev a q). }
    intros j Hj. destruct (decide (j = q)) as [-> | ?]; [right; by exists r, (p ++ [i]) | by left].
  - destruct Hres as [-> Hnone]. exists (Machine (pool s) (ram s)), None, F.
    split_and!; [done | destruct s; by apply evolves_refl | by left | done].
Qed.

Lemma ensure_pt_ok s F r va : good s F -> r ∈ roots -> user_va va ->
  exists s' res F', ensure_pt r va s = Some (s', res) /\ evolves s F s' F' (leaves s) /\
    only_tables F s' F' /\
    match res with
    | Some t => tbl (ram s') r (path va) = Some t
    | None => forall j, ~ F' j
    end.
Proof.
  intros Hg Hr Hu. pose proof (path_upath va Hu) as Hp.
  pose proof (upath_snoc [pml4_idx va; pdpt_idx va] (pd_idx va) Hp) as Hp2.
  pose proof (upath_snoc [pml4_idx va] (pdpt_idx va) Hp2) as Hp1.
  unfold ensure_pt, ensure_pd, ensure_pt_in_pd.
  destruct (ensure_entry_ok s F r [] (pml4_idx va) r Hg Hr Hp1 eq_refl)
    as (s1 & res1 & F1 & -> & E1 & O1 & R1). cbn [mbind option_bind].
  destruct res1 as [pdpt |]; [| by exists s1, None, F1].
  destruct (ensure_entry_ok s1 F1 r [pml4_idx va] (pdpt_idx va) pdpt (ev_good _ _ _ _ _ E1) Hr Hp2 R1)
    as (s2 & res2 & F2 & Heq2 & E2 & O2 & R2).
  change (2 =? 2) with true. cbv iota. rewrite Heq2. cbn [mbind option_bind].
  pose proof (evolves_leaf _ _ _ _ _ (leaves s) E2 (fun r va => ev_leaf _ _ _ _ _ E1 r va)) as E2'.
  assert (E12 : evolves s F s2 F2 (leaves s)).
  { eapply evolves_trans; [exact E1 | exact E2']. }
  pose proof (only_tables_trans _ _ _ _ _ _ O1 O2 E2) as O12.
  destruct res2 as [pd |]; [| by exists s2, None, F2].
  destruct (ensure_entry_ok s2 F2 r [pml4_idx va; pdpt_idx va] (pd_idx va) pd (ev_good _ _ _ _ _ E2) Hr Hp R2)
    as (s3 & res3 & F3 & Heq3 & E3 & O3 & R3).
  change (1 =? 2) with false. cbv iota. rewrite Heq3.
  exists s3, res3, F3. split_and!; [done | | by eapply only_tables_trans | done].
  eapply evolves_trans; [exact E12 |].
  eapply evolves_leaf; [exact E3 |]. intros. by apply (ev_leaf _ _ _ _ _ E12).
Qed.

(** The leaf map with one page changed. *)
Definition upd_leaf (L : nat -> Z -> Z) (root : nat) (va v : Z) (r : nat) (va' : Z) : Z :=
  if bool_decide (r = root /\ same_page va' va) then v else L r va'.

Lemma upd_leaf_eq L root va v va' : same_page va' va -> upd_leaf L root va v root va' = v.
Proof. intros. unfold upd_leaf. by rewrite bool_decide_eq_true_2. Qed.

Lemma upd_leaf_ne L root va v r va' : ~ (r = root /\ same_page va' va) -> upd_leaf L root va v r va' = L r va'.
Proof. intros. unfold upd_leaf. by rewrite bool_decide_eq_false_2. Qed.

Lemma upd_leaf_ext (L L' : nat -> Z -> Z) root va v r va' : L r va' = L' r va' ->
  upd_leaf L root va v r va' = upd_leaf L' root va v r va'.
Proof. intros HL. unfold upd_leaf. by rewrite HL. Qed.

Lemma leaf_same_page m r va va' : user_va va -> user_va va' -> same_page va va' -> leaf m r va = leaf m r va'.
Proof. intros Hu Hu' [Hp Hi]%same_page_idx; [| done | done]. unfold leaf. by rewrite Hp, Hi. Qed.

(** Writing a leaf entry in a good state. *)
Lemma evolves_set_leaf s F r va t v : good s F -> r ∈ roots -> user_va va ->
  tbl (ram s) r (path va) = Some t ->
  exists m', wr t (pt_idx va) v (ram s) = Some m' /\
    evolves s F (Machine (pool s) m') F (upd_leaf (leaves s) r va v).
Proof.
  intros Hg Hr Hu Ht.
  destruct (set_leaf (ram s) roots r va t v (g_forest _ _ Hg) Hr Hu Ht)
    as (m' & Hwr & Hfo & Htbl & Hset & Hother & Hram).
  exists m'. split; [done |].
  assert (Hist : forall t', is_table m' roots t' <-> is_table (ram s) roots t').
  { intros t'. split; intros (r' & p' & Hr' & Hp' & Ht'); exists r', p'; split_and!; try done.
    - by rewrite Htbl in Ht'.
    - by rewrite Htbl. }
  constructor; cbn [pool ram]; try done.
  - constructor; cbn [pool ram].
    + apply (g_pool _ _ Hg).
    + done.
    + intros t' Ht'%Hist. by apply (g_table _ _ Hg).
    + intros j Hj. eapply wr_dom; [exact Hwr |]. by apply (g_ram _ _ Hg).
    + apply (g_total _ _ Hg).
  - intros r' va' Hr' Hu'. unfold upd_leaf. case_bool_decide as Hc.
    + destruct Hc as [-> Hs]. rewrite <- Hset. by apply leaf_same_page.
    + by apply Hother.
  - intros j _. by apply Hram.
  - intros r' p' t' Hr' Hp' Ht'. by rewrite Htbl.
  - intros t' Ht'%Hist. by left.
Qed.

(** *** Mapping *)

Lemma map_direct_ok s F r va phys flags : good s F -> r ∈ roots -> user_va va ->
  exists s' b F', map_user_page_direct r va phys flags s = Some (s', b) /\
    if b : bool
    then pte_present (leaves s r va) = false /\
         evolves s F s' F' (upd_leaf (leaves s) r va (Z.lor phys flags))
    else evolves s F s' F' (leaves s) /\ (pte_present (leaves s r va) = true \/ forall j, ~ F' j).
Proof.
  intros Hg Hr Hu. unfold map_user_page_direct.
  destruct (ensure_pt_ok s F r va Hg Hr Hu) as (s1 & res & F1 & -> & E1 & O1 & R1). cbn [mbind option_bind].
  destruct res as [t |]; [| exists s1, false, F1; naive_solver].
  pose proof (ev_good _ _ _ _ _ E1) as Hg1.
  rewrite (leaf_rd _ r va roots t (g_forest _ _ Hg1) Hr Hu R1). cbn [mbind option_bind].
  rewrite (ev_leaf _ _ _ _ _ E1 r va Hr Hu).
  destruct (pte_present (leaves s r va)) eqn:Hpr; [exists s1, false, F1; naive_solver |].
  destruct (evolves_set_leaf s1 F1 r va t (Z.lor phys flags) Hg1 Hr Hu R1) as (m' & -> & E2).
  cbn [mbind option_bind]. do 3 eexists. split; [done |]. split; [done |].
  eapply evolves_trans; [exact E1 |]. eapply evolves_leaf; [exact E2 |].
  intros r' va' Hr' Hu'. apply upd_leaf_ext. by apply E1.
Qed.

(** A page taken for data: it is in use with one reference, holds zeros, is
    not a table, and was free before. *)
Definition fresh_page (F : nat -> Prop) (s' : machine A) (q : nat) : Prop :=
  F q /\ pa_held (pool s') q /\ pa_ref (pool s') q = Some 1 /\
  ram s' !! q = Some (replicate 512 0) /\ ~ is_table (ram s') roots q.

Lemma is_table_nontable m q l : ~ is_table m roots q ->
  forall t, is_table (<[q := l]> m) roots t <-> is_table m roots t.
Proof.
  intros Hq t. split; intros (r & p & Hr & Hp & Ht); exists r, p; split_and!; try done.
  - by rewrite tbl_nontable with (roots := roots) in Ht.
  - by rewrite tbl_nontable with (roots := roots).
Qed.

(** Filling a page just taken from the allocator for data. *)
Lemma fill_data_page s F a q lq : good s F -> F q -> pa_rep a (fun j => F j /\ j <> q) ->
  pa_held a q -> pa_ref a q = Some 1 -> (forall j, ~ F j -> pa_ref a j = pa_ref (pool s) j) ->
  (forall j, ~ F j -> pa_held (pool s) j -> pa_held a j) -> pa_total a = pa_total (pool s) ->
  evolves s F (Machine a (<[q := lq]> (ram s))) (fun j => F j /\ j <> q) (leaves s) /\
  ~ is_table (<[q := lq]> (ram s)) roots q.
Proof.
  intros Hg HFq Hrep Hheld Href1 Href Hhk Htot.
  assert (Hqn : ~ is_table (ram s) roots q) by (intros Hx; by apply (g_table _ _ Hg) in Hx as [? _]).
  pose proof (is_table_nontable (ram s) q lq Hqn) as Hist.
  assert (Htbl : forall r p, r ∈ roots -> upath p ->
    tbl (<[q := lq]> (ram s)) r p = tbl (ram s) r p).
  { intros r p Hr Hp. by apply tbl_nontable with (roots := roots). }
  split; [| by rewrite Hist].
  constructor; cbn [pool ram].
  - constructor; cbn [pool ram].
    + done.
    + constructor.
      * intros r p t Hr Hp Ht. rewrite Htbl in Ht by done.
        destruct (fo_page _ _ (g_forest _ _ Hg) _ _ _ Hr Hp Ht) as (l & Hl & Hlen).
        exists l. rewrite lookup_insert_ne; [done |]. intros ->. apply Hqn. by exists r, p.
      * intros r1 p1 r2 p2 t Hr1 Hr2 Hp1 Hp2 H1 H2. rewrite Htbl in H1, H2 by done.
        by apply (fo_inj _ _ (g_forest _ _ Hg) r1 p1 r2 p2 t).
    + intros t Ht%Hist. destruct (g_table _ _ Hg _ Ht). split; [naive_solver | auto].
    + intros j Hj. rewrite Htot in Hj. destruct (decide (q = j)) as [<- | ?].
      * by rewrite lookup_insert_eq.
      * rewrite lookup_insert_ne by done. by apply (g_ram _ _ Hg).
    + rewrite Htot. apply (g_total _ _ Hg).
  - naive_solver.
  - intros r va Hr Hu. unfold leaf. rewrite Htbl by (try apply path_upath; done).
    destruct (tbl (ram s) r (path va)) as [t |] eqn:Ht; [| done]. rewrite rd_insert_ne; [done |].
    intros ->. apply Hqn. exists r, (path va). by split_and!; [| apply path_upath |].
  - done.
  - done.
  - intros j Hj _. rewrite lookup_insert_ne; [done | by intros ->].
  - intros r p t Hr Hp Ht. by rewrite Htbl.
  - intros t Ht%Hist. by left.
Qed.

(** Clearing such a page. *)
Lemma take_data_page s F a q : good s F -> F q -> pa_rep a (fun j => F j /\ j <> q) ->
  pa_held a q -> pa_ref a q = Some 1 -> (forall j, ~ F j -> pa_ref a j = pa_ref (pool s) j) ->
  (forall j, ~ F j -> pa_held (pool s) j -> pa_held a j) -> pa_total a = pa_total (pool s) ->
  exists m', zero_page q (ram s) = Some m' /\
    evolves s F (Machine a m') (fun j => F j /\ j <> q) (leaves s) /\ fresh_page F (Machine a m') q.
Proof.
  intros Hg HFq Hrep Hheld Href1 Href Hhk Htot.
  destruct (fill_data_page s F a q (replicate 512 0) Hg HFq Hrep Hheld Href1 Href Hhk Htot) as [E Hnt].
  destruct (g_ram _ _ Hg q (pa_free_lt _ _ _ (g_pool _ _ Hg) HFq)) as [lq Hlq].
  exists (<[q := replicate 512 0]> (ram s)). unfold zero_page. rewrite Hlq. split; [done |].
  split; [done |]. split_and!; cbn; [done | done | done | apply lookup_insert_eq | done].
Qed.

Lemma map_one_ok s F r va flags : good s F -> r ∈ roots -> user_va va ->
  exists s' res F', map_one r va flags s = Some (s', res) /\
    match res with
    | None => evolves s F s' F' (leaves s) /\ (forall j, ~ F' j)
    | Some n =>
        if pte_present (leaves s r va) then n = 0 /\ evolves s F s' F' (leaves s)
        else n = 1 /\ exists q, fresh_page F s' q /\ ~ F' q /\
          evolves s F s' F' (upd_leaf (leaves s) r va (Z.lor (page_to_phys q) flags))
    end.
Proof.
  intros Hg Hr Hu. unfold map_one.
  destruct (ensure_pt_ok s F r va Hg Hr Hu) as (s1 & res & F1 & -> & E1 & O1 & R1). cbn [mbind option_bind].
  destruct res as [t |]; [| by exists s1, None, F1].
  pose proof (ev_good _ _ _ _ _ E1) as Hg1.
  rewrite (leaf_rd _ r va roots t (g_forest _ _ Hg1) Hr Hu R1). cbn [mbind option_bind].
  rewrite (ev_leaf _ _ _ _ _ E1 r va Hr Hu).
  destruct (pte_present (leaves s r va)) eqn:Hpr; [by exists s1, (Some 0), F1 |].
  destruct (pa_alloc_ok _ _ (g_pool _ _ Hg1)) as (a & res & -> & Htot & Hres). cbn [mbind option_bind].
  destruct res as [q |].
  2:{ destruct Hres as [-> Hnone]. exists (Machine (pool s1) (ram s1)), None, F1. destruct s1. by split. }
  destruct Hres as (HFq & Hrep & Hheld & Href1 & Href & Hhk).
  destruct (take_data_page s1 F1 a q Hg1 HFq Hrep Hheld Href1 Href Hhk Htot) as (m1 & -> & E2 & Hfr).
  cbn [mbind option_bind].
  pose proof (ev_good _ _ _ _ _ E2) as Hg2.
  pose proof (ev_tbl _ _ _ _ _ E2 r (path va) t Hr (path_upath va Hu) R1) as R2.
  destruct (evolves_set_leaf _ _ r va t (Z.lor (page_to_phys q) flags) Hg2 Hr Hu R2) as (m2 & Hwr & E3).
  cbn [pool ram] in Hwr, E3. rewrite Hwr. cbn [mbind option_bind].
  exists (Machine a m2), (Some 1), (fun j => F1 j /\ j <> q). split; [done |]. split; [done |].
  assert (E12 : evolves s F (Machine a m1) (fun j => F1 j /\ j <> q) (leaves s)).
  { eapply evolves_trans; [exact E1 |]. eapply evolves_leaf; [exact E2 |].
    intros r' va' Hr' Hu'. by apply (ev_leaf _ _ _ _ _ E1). }
  exists q. split_and!.
  - destruct Hfr as (? & ? & ? & Hz & Hnt). split_and!; [by apply E1 | done | done | |].
    + rewrite (ev_ram _ _ _ _ _ E3 q); [done | naive_solver | done].
    + intros [Hx | [[_ Hx] _]]%(ev_new _ _ _ _ _ E3); [by apply Hnt | done].
  - by intros [_ ?].
  - eapply evolves_trans; [exact E12 |]. eapply evolves_leaf; [exact E3 |].
    intros r' va' Hr' Hu'. apply upd_leaf_ext. by apply E12.
Qed.

(** *** Mapping a range *)

Definition page_at (va : Z) (k : nat) : Z := va + Z.of_nat k * PAGE_SIZE.
Definition aligned (va : Z) : Prop := va mod PAGE_SIZE = 0.

Lemma page_at_same va j k : aligned va -> same_page (page_at va j) (page_at va k) <-> j = k.
Proof.
  unfold same_page, page_at, aligned, PAGE_SIZE. intros Ha.
  rewrite !Z.div_add by lia. split; [lia | by intros ->].
Qed.

Lemma page_at_0 va : page_at va 0 = va.
Proof. unfold page_at. lia. Qed.

Lemma page_at_S va k : page_at (va + PAGE_SIZE) k = page_at va (S k).
Proof. unfold page_at. lia. Qed.

Lemma aligned_next va : aligned va -> aligned (va + PAGE_SIZE).
Proof. unfold aligned, PAGE_SIZE. intros. rewrite <- Zplus_mod_idemp_l, H0. done. Qed.

(** The range of [n] pages at [va] is in user space. *)
Definition user_range (va : Z) (n : nat) : Prop := 0 <= va /\ va + Z.of_nat n * PAGE_SIZE <= 2 ^ 47.

Lemma user_range_page va n k : user_range va n -> (k < n)%nat -> user_va (page_at va k).
Proof. unfold user_range, user_va, page_at, PAGE_SIZE. lia. Qed.

Lemma user_range_next va n : user_range va (S n) -> user_range (va + PAGE_SIZE) n.
Proof. unfold user_range, PAGE_SIZE. lia. Qed.

Lemma user_range_u64 va n : user_range va (S n) -> u64 (va + PAGE_SIZE) = va + PAGE_SIZE.
Proof. unfold user_range, PAGE_SIZE. intros. apply u64_small. lia. Qed.

Lemma fresh_evolves F F1 s1 s2 F2 L q : fresh_page F s1 q -> ~ F1 q ->
  evolves s1 F1 s2 F2 L -> fresh_page F s2 q.
Proof.
  intros (? & ? & Href & Hz & Hnt) Hq E. split_and!.
  - done.
  - by apply (ev_held _ _ _ _ _ E).
  - by rewrite (ev_ref _ _ _ _ _ E).
  - by rewrite (ev_ram _ _ _ _ _ E).
  - intros [? | [? _]]%(ev_new _ _ _ _ _ E); done.
Qed.

Lemma fresh_weaken (F F1 : nat -> Prop) s q : (forall i, F1 i -> F i) -> fresh_page F1 s q -> fresh_page F s q.
Proof. intros HF (? & ?). split; [by apply HF | done]. Qed.

(** What mapping the [n] pages at [va] makes of the leaves. *)
Record mapped (s : machine A) (F : nat -> Prop) (s' : machine A) (F' : nat -> Prop)
    (r : nat) (va : Z) (n : nat) (flags : Z) (ok : bool) (L : nat -> Z -> Z) : Prop := {
  mp_ev : evolves s F s' F' L;
  mp_out : forall r' va', r' ∈ roots -> user_va va' ->
    (forall k, (k < n)%nat -> ~ (r' = r /\ same_page va' (page_at va k))) -> L r' va' = leaves s r' va';
  mp_old : forall k, (k < n)%nat -> pte_present (leaves s r (page_at va k)) = true ->
    L r (page_at va k) = leaves s r (page_at va k);
  mp_new : exists f : nat -> option nat,
    (forall k, (k < n)%nat -> pte_present (leaves s r (page_at va k)) = false ->
       match f k with
       | Some q => fresh_page F s' q /\ ~ F' q /\ L r (page_at va k) = Z.lor (page_to_phys q) flags
       | None => ok = false /\ L r (page_at va k) = leaves s r (page_at va k)
       end) /\
    (forall j k q, (j < n)%nat -> (k < n)%nat -> f j = Some q -> f k = Some q -> j = k);
  mp_oom : ok = false -> forall j, ~ F' j;
}.

(** The number of pages of the range with no present entry. *)
Fixpoint absent (L : nat -> Z -> Z) (r : nat) (va : Z) (n : nat) : Z :=
  match n with
  | O => 0
  | S n' => (if pte_present (L r va) then 0 else 1) + absent L r (va + PAGE_SIZE) n'
  end.

Lemma absent_ext L L' r va n : (forall k, (k < n)%nat -> L r (page_at va k) = L' r (page_at va k)) ->
  absent L r va n = absent L' r va n.
Proof.
  revert va. induction n as [| n IH]; intros va HL; cbn [absent]; [done |].
  rewrite <- (page_at_0 va) at 1 3. rewrite HL by lia. f_equal. apply IH.
  intros k Hk. rewrite page_at_S. apply HL. lia.
Qed.

Lemma mapped_fail s F s' F' r va n flags : evolves s F s' F' (leaves s) -> (forall j, ~ F' j) ->
  mapped s F s' F' r va n flags false (leaves s).
Proof.
  intros E Hoom. constructor; try done. exists (fun _ => None). split; [done | by intros].
Qed.

(** What mapping the page at [va] did. *)
Definition one_mapped (s : machine A) (F : nat -> Prop) (s1 : machine A) (F1 : nat -> Prop)
    (r : nat) (va flags : Z) : Prop :=
  if pte_present (leaves s r va) then evolves s F s1 F1 (leaves s)
  else exists q, fresh_page F s1 q /\ ~ F1 q /\
    evolves s F s1 F1 (upd_leaf (leaves s) r va (Z.lor (page_to_phys q) flags)).

Lemma one_mapped_ev s F s1 F1 r va flags : one_mapped s F s1 F1 r va flags ->
  evolves s F s1 F1 (leaves s1).
Proof.
  unfold one_mapped. intros Hone.
  destruct (pte_present (leaves s r va)); [| destruct Hone as (q & _ & _ & Hone)];
    (eapply evolves_leaf; [exact Hone |]); intros; symmetry; by apply Hone.
Qed.

Lemma one_mapped_other s F s1 F1 r va flags r' va' : one_mapped s F s1 F1 r va flags ->
  r' ∈ roots -> user_va va' -> ~ (r' = r /\ same_page va' va) -> leaves s1 r' va' = leaves s r' va'.
Proof.
  unfold one_mapped. intros Hone Hr' Hu' Hne.
  destruct (pte_present (leaves s r va)); [by apply Hone |]. destruct Hone as (q & _ & _ & Hone).
  rewrite (ev_leaf _ _ _ _ _ Hone) by done. by apply upd_leaf_ne.
Qed.

Lemma one_mapped_tail s F s1 F1 r va flags n k : one_mapped s F s1 F1 r va flags ->
  r ∈ roots -> aligned va -> user_range va (S n) -> (k < n)%nat ->
  leaves s1 r (page_at va (S k)) = leaves s r (page_at va (S k)).
Proof.
  intros Hone Hr Ha Hur Hk. eapply one_mapped_other; [done | done | |].
  - apply (user_range_page va (S n)); [done | lia].
  - intros [_ Hs]. rewrite <- (page_at_0 va) in Hs at 2. apply page_at_same in Hs; [lia | done].
Qed.

(** One page mapped, then the rest of the range. *)
Lemma mapped_cons s F s1 F1 s2 F2 r va n flags ok L :
  r ∈ roots -> aligned va -> user_range va (S n) -> one_mapped s F s1 F1 r va flags ->
  mapped s1 F1 s2 F2 r (va + PAGE_SIZE) n flags ok L ->
  mapped s F s2 F2 r va (S n) flags ok L.
Proof.
  intros Hr Ha Hur Hone [E2 Hout Hold Hnew Hoom].
  pose proof (user_range_page va (S n) 0 Hur ltac:(lia)) as Hu. rewrite page_at_0 in Hu.
  pose proof (one_mapped_ev _ _ _ _ _ _ _ Hone) as E1.
  pose proof (fun k => one_mapped_tail _ _ _ _ _ _ _ n k Hone Hr Ha Hur) as Htl.
  assert (Hva : L r va = leaves s1 r va).
  { apply Hout; [done | done |]. intros k Hk [_ Hs]. rewrite page_at_S in Hs.
    rewrite <- (page_at_0 va) in Hs at 1. apply page_at_same in Hs; [lia | done]. }
  destruct Hnew as (f & Hf & Hinj). constructor.
  - eapply (evolves_trans s F s1 F1); [exact E1 | exact E2].
  - intros r' va' Hr' Hu' Hk. rewrite Hout; [| done | done |].
    + eapply one_mapped_other; [done | done | done |]. specialize (Hk 0%nat ltac:(lia)).
      by rewrite page_at_0 in Hk.
    + intros k Hkn. rewrite page_at_S. apply Hk. lia.
  - intros [| k] Hk Hpr.
    + rewrite page_at_0 in *. rewrite Hva. unfold one_mapped in Hone. rewrite Hpr in Hone. by apply Hone.
    + rewrite <- page_at_S. rewrite Hold; [rewrite page_at_S; apply Htl; lia | lia |].
      rewrite page_at_S, Htl by lia. done.
  - assert (Hq0 : exists q0 : option nat, match q0 with
      | None => pte_present (leaves s r va) = true
      | Some q => fresh_page F s2 q /\ ~ F1 q /\ L r va = Z.lor (page_to_phys q) flags
      end).
    { unfold one_mapped in Hone. destruct (pte_present (leaves s r va)); [by exists None |].
      destruct Hone as (q & Hfr & Hq & Hone). exists (Some q). split_and!; [by eapply fresh_evolves | done |].
      rewrite Hva. rewrite (ev_leaf _ _ _ _ _ Hone) by done. by apply upd_leaf_eq. }
    destruct Hq0 as (q0 & Hq0).
    exists (fun k => match k with
                     | O => q0
                     | S k' => if pte_present (leaves s r (page_at va k)) then None else f k'
                     end).
    assert (Htail : forall k, (k < n)%nat -> pte_present (leaves s r (page_at va (S k))) = false ->
      match f k with
      | Some q => fresh_page F1 s2 q /\ ~ F2 q /\ L r (page_at va (S k)) = Z.lor (page_to_phys q) flags
      | None => ok = false /\ L r (page_at va (S k)) = leaves s r (page_at va (S k))
      end).
    { intros k Hk Hpr. specialize (Hf k Hk). rewrite page_at_S, Htl in Hf by done. by apply Hf. }
    split.
    + intros [| k] Hk Hpr.
      * rewrite page_at_0 in *. destruct q0 as [q |]; [| congruence].
        destruct Hq0 as (? & Hq & ?). split_and!; [done | | done]. intros Hx. by apply Hq, E2.
      * rewrite Hpr. specialize (Htail k ltac:(lia) Hpr). destruct (f k) as [q |]; [| done].
        destruct Htail as (? & ? & ?). split_and!; try done. by eapply fresh_weaken; [apply E1 |].
    + assert (HF1 : forall k q, (k < n)%nat ->
        (if pte_present (leaves s r (page_at va (S k))) then None else f k) = Some q -> F1 q).
      { intros k q Hk Hfk. specialize (Htail k Hk).
        destruct (pte_present (leaves s r (page_at va (S k)))); [done |].
        rewrite Hfk in Htail. by destruct (Htail eq_refl) as ((? & _) & _). }
      intros [| j] [| k] q Hj Hk; [done | | |].
      * intros -> Hx%HF1; [| lia]. by destruct Hq0 as (_ & ? & _).
      * intros Hx%HF1 ->; [| lia]. by destruct Hq0 as (_ & ? & _).
      * destruct (pte_present (leaves s r (page_at va (S j)))); [done |].
        destruct (pte_present (leaves s r (page_at va (S k)))); [done |].
        intros Hfj Hfk. f_equal. apply (Hinj j k q); [lia | lia | done | done].
  - done.
Qed.

Lemma map_loop_ok flags n : forall fuel s F r va va_end cnt, good s F -> r ∈ roots -> aligned va ->
  user_range va n -> va + Z.of_nat n * PAGE_SIZE - PAGE_SIZE < va_end <= va + Z.of_nat n * PAGE_SIZE ->
  (n <= fuel)%nat ->
  exists s' ok c F' L, map_loop fuel r va va_end flags cnt s = Some (s', ok, cnt + c) /\
    mapped s F s' F' r va n flags ok L /\ (ok = true -> c = absent (leaves s) r va n).
Proof.
  induction n as [| n IH]; intros fuel s F r va va_end cnt Hg Hr Ha Hur Hend Hfuel.
  - assert (Hge : va <? va_end = false) by (apply Z.ltb_ge; lia).
    exists s, true, 0, F, (leaves s). rewrite Z.add_0_r. split_and!.
    + by destruct fuel; cbn; rewrite Hge.
    + constructor; try done; [by apply evolves_refl |]. exists (fun _ => None). split; [lia | lia].
    + done.
  - assert (Hlt : va <? va_end = true) by (apply Z.ltb_lt; unfold PAGE_SIZE in *; lia).
    destruct fuel as [| fuel]; [lia |]. cbn [map_loop]. rewrite Hlt.
    pose proof (user_range_page va (S n) 0 Hur ltac:(lia)) as Hu. rewrite page_at_0 in Hu.
    destruct (map_one_ok s F r va flags Hg Hr Hu) as (s1 & res & F1 & -> & Hone). cbn [mbind option_bind].
    destruct res as [c1 |].
    2:{ destruct Hone as [E Hoom]. exists s1, false, 0, F1, (leaves s). rewrite Z.add_0_r.
        split_and!; [done | by apply mapped_fail | done]. }
    rewrite (user_range_u64 va n Hur).
    assert (Hom : one_mapped s F s1 F1 r va flags).
    { unfold one_mapped. destruct (pte_present (leaves s r va)); apply Hone. }
    assert (Hc1 : c1 = if pte_present (leaves s r va) then 0 else 1)
      by (destruct (pte_present (leaves s r va)); apply Hone).
    pose proof (ev_good _ _ _ _ _ (one_mapped_ev _ _ _ _ _ _ _ Hom)) as Hg1.
    destruct (IH fuel s1 F1 r (va + PAGE_SIZE) va_end (cnt + c1) Hg1 Hr (aligned_next va Ha)
                (user_range_next va n Hur) ltac:(lia) ltac:(lia))
      as (s2 & ok & c2 & F2 & L & -> & Hm & Hc).
    exists s2, ok, (c1 + c2), F2, L. rewrite Z.add_assoc. split_and!; [done | |].
    + by eapply mapped_cons.
    + intros Hok. cbn [absent]. rewrite (Hc Hok), Hc1. f_equal. apply absent_ext.
      intros k Hk. rewrite page_at_S. by eapply one_mapped_tail.
Qed.

Lemma align_up_page x : 0 <= x -> x + PAGE_SIZE <= 2 ^ 64 ->
  ALIGN_UP x PAGE_SIZE = (x + PAGE_SIZE - 1) / PAGE_SIZE * PAGE_SIZE.
Proof.
  intros Hx Hb. unfold ALIGN_UP. rewrite u64_small by (unfold PAGE_SIZE in *; lia).
  change (PAGE_SIZE - 1) with (Z.ones 12). rewrite <- Z.ldiff_land, Z.ldiff_ones_r by lia.
  rewrite Z.shiftr_div_pow2, Z.shiftl_mul_pow2 by lia. done.
Qed.

(** The number of pages that a loop from [va] to [va_end] visits. *)
Definition range_pages (va va_end : Z) : nat := Z.to_nat ((va_end - va + PAGE_SIZE - 1) / PAGE_SIZE).

Lemma range_pages_ok va va_end : va - PAGE_SIZE < va_end ->
  va + Z.of_nat (range_pages va va_end) * PAGE_SIZE - PAGE_SIZE < va_end
    <= va + Z.of_nat (range_pages va va_end) * PAGE_SIZE /\
  (range_pages va va_end <= range_fuel va va_end)%nat.
Proof.
  intros Hle. unfold range_pages, range_fuel, PAGE_SIZE in *.
  pose proof (Z.div_mod (va_end - va + 4096 - 1) 4096 ltac:(lia)).
  pose proof (Z.mod_pos_bound (va_end - va + 4096 - 1) 4096 ltac:(lia)).
  pose proof (Z.div_mod (va_end - va) 4096 ltac:(lia)).
  pose proof (Z.mod_pos_bound (va_end - va) 4096 ltac:(lia)).
  pose proof (Z.div_pos (va_end - va + 4096 - 1) 4096 ltac:(lia) ltac:(lia)). lia.
Qed.

Lemma align_up_range x va_end : 0 <= x <= va_end -> va_end <= 2 ^ 47 - PAGE_SIZE ->
  let va := ALIGN_UP x PAGE_SIZE in
  aligned va /\ va - PAGE_SIZE < va_end /\ user_range va (range_pages va va_end).
Proof.
  intros Hx Hend va.
  assert (Hva : va = (x + PAGE_SIZE - 1) / PAGE_SIZE * PAGE_SIZE)
    by (apply align_up_page; unfold PAGE_SIZE in *; lia).
  assert (Hb : x <= va < x + PAGE_SIZE).
  { rewrite Hva. unfold PAGE_SIZE. pose proof (Z.div_mod (x + 4096 - 1) 4096 ltac:(lia)).
    pose proof (Z.mod_pos_bound (x + 4096 - 1) 4096 ltac:(lia)). lia. }
  split_and!.
  - unfold aligned. rewrite Hva. apply Z.mod_mul. done.
  - lia.
  - pose proof (range_pages_ok va va_end ltac:(lia)). unfold user_range. unfold PAGE_SIZE in *. lia.
Qed.

(** *** Unmapping *)

Definition maps_to (e : Z) (f : nat) : bool := pte_present e && (pte_pfn e =? f)%nat.

(** The number of pages of the range that map frame [f]. *)
Fixpoint uses (L : nat -> Z -> Z) (r : nat) (va : Z) (n : nat) (f : nat) : Z :=
  match n with
  | O => 0
  | S n' => (if maps_to (L r va) f then 1 else 0) + uses L r (va + PAGE_SIZE) n' f
  end.

Lemma uses_nonneg L r va n f : 0 <= uses L r va n f.
Proof. revert va. induction n as [| n IH]; intros va; cbn; [lia |]. specialize (IH (va + PAGE_SIZE)). case_match; lia. Qed.

Lemma uses_mono L r va j n f : (j <= n)%nat -> uses L r va j f <= uses L r va n f.
Proof.
  revert va n. induction j as [| j IH]; intros va n Hj; [apply uses_nonneg |].
  destruct n as [| n]; [lia |]. cbn [uses]. specialize (IH (va + PAGE_SIZE) n ltac:(lia)). lia.
Qed.

Lemma uses_ext L L' r va n f : (forall k, (k < n)%nat -> L r (page_at va k) = L' r (page_at va k)) ->
  uses L r va n f = uses L' r va n f.
Proof.
  revert va. induction n as [| n IH]; intros va HL; cbn [uses]; [done |].
  rewrite <- (page_at_0 va) at 1 3. rewrite HL by lia. f_equal. apply IH.
  intros k Hk. rewrite page_at_S. apply HL. lia.
Qed.

(** [s'] comes from [s] by dropping [c j] references of each frame [j], and
    possibly taking free pages as tables; the leaves become [L]. *)
Record drops (s : machine A) (F : nat -> Prop) (s' : machine A) (F' : nat -> Prop)
    (L : nat -> Z -> Z) (c : nat -> Z) : Prop := {
  dr_good : good s' F';
  dr_leaf : forall r va, r ∈ roots -> user_va va -> leaves s' r va = L r va;
  dr_ref : forall j x, ~ F j -> pa_ref (pool s) j = Some x -> c j < x \/ c j = 0 ->
    ~ F' j /\ pa_ref (pool s') j = Some (x - c j) /\ (pa_held (pool s) j -> pa_held (pool s') j);
  dr_freed : forall j, ~ F j -> pa_ref (pool s) j = Some (c j) -> 0 < c j ->
    F' j \/ is_table (ram s') roots j;
  dr_free : forall j, F' j -> F j \/ (~ F j /\ pa_ref (pool s) j = Some (c j) /\ 0 < c j);
  dr_ram : forall j, ~ F j -> ~ is_table (ram s) roots j -> c j = 0 -> ram s' !! j = ram s !! j;
  dr_keep : forall j, F j \/ is_table (ram s) roots j -> F' j \/ is_table (ram s') roots j;
  dr_tbl : forall t, is_table (ram s) roots t -> is_table (ram s') roots t;
  dr_new : forall t, is_table (ram s') roots t ->
    is_table (ram s) roots t \/ F t \/ (pa_ref (pool s) t = Some (c t) /\ 0 < c t);
}.

Lemma evolves_drops s F s' F' L : evolves s F s' F' L -> only_tables F s' F' ->
  drops s F s' F' L (fun _ => 0).
Proof.
  intros E HO.
  assert (Ht : forall t, is_table (ram s) roots t -> is_table (ram s') roots t).
  { intros t (r & p & Hr & Hp & Ht). exists r, p. split_and!; [done | done |].
    by apply (ev_tbl _ _ _ _ _ E). }
  constructor.
  - apply E.
  - apply E.
  - intros j x Hj Hx _. split_and!.
    + intros Hx'. by apply Hj, E.
    + rewrite (ev_ref _ _ _ _ _ E) by done. rewrite Hx. f_equal. lia.
    + by apply (ev_held _ _ _ _ _ E).
  - lia.
  - intros j Hj. left. by apply E.
  - intros j Hj Hn _. by apply (ev_ram _ _ _ _ _ E).
  - intros j [Hj | Hj]; [by apply HO | right; by apply Ht].
  - done.
  - intros t [? | [? _]]%(ev_new _ _ _ _ _ E); auto.
Qed.

(** The frames that lose references are in use, and have enough of them. *)
Definition enough (s : machine A) (F : nat -> Prop) (c : nat -> Z) : Prop :=
  forall j, 0 < c j -> ~ F j /\ ~ is_table (ram s) roots j /\ pa_held (pool s) j /\
    exists x, pa_ref (pool s) j = Some x /\ c j <= x < 2 ^ 31.

Lemma drops_trans s F s1 F1 L1 c1 s2 F2 L2 c2 :
  (forall j, 0 <= c1 j) -> (forall j, 0 <= c2 j) -> enough s F (fun j => c1 j + c2 j) ->
  drops s F s1 F1 L1 c1 -> drops s1 F1 s2 F2 L2 c2 -> drops s F s2 F2 L2 (fun j => c1 j + c2 j).
Proof.
  intros P1 P2 Hen D1 D2.
  assert (Hfull : forall j, ~ F j -> pa_ref (pool s) j = Some (c1 j) -> 0 < c1 j -> c2 j = 0).
  { intros j Hj Hr Hc. destruct (Hen j) as (_ & _ & _ & x & Hx & Hle); [specialize (P2 j); lia |].
    assert (x = c1 j) by congruence. specialize (P2 j). lia. }
  assert (Hpart : forall j, 0 < c2 j -> exists x, ~ F j /\ ~ is_table (ram s) roots j /\
    pa_ref (pool s) j = Some x /\ c1 j + c2 j <= x /\ pa_ref (pool s1) j = Some (x - c1 j)).
  { intros j Hc. specialize (P1 j) as ?. destruct (Hen j) as (Hj & Hnt & _ & x & Hx & Hle); [lia |].
    exists x. split_and!; [done | done | done | lia |].
    by apply (dr_ref _ _ _ _ _ _ D1 j x Hj Hx ltac:(lia)). }
  constructor.
  - apply D2.
  - apply D2.
  - intros j x Hj Hx Hc. specialize (P1 j). specialize (P2 j).
    destruct (dr_ref _ _ _ _ _ _ D1 j x Hj Hx ltac:(lia)) as (Hj1 & Hx1 & Hh1).
    destruct (dr_ref _ _ _ _ _ _ D2 j _ Hj1 Hx1 ltac:(lia)) as (Hj2 & Hx2 & Hh2).
    split_and!; [done | rewrite Hx2; f_equal; lia | auto].
  - intros j Hj Hx Hc. specialize (P1 j) as ?. specialize (P2 j) as ?.
    destruct (decide (c2 j = 0)) as [Hz | Hz].
    + apply (dr_keep _ _ _ _ _ _ D2), (dr_freed _ _ _ _ _ _ D1); [done | | lia].
      rewrite Hx. f_equal. lia.
    + destruct (Hpart j ltac:(lia)) as (x & _ & Hnt & Hx' & Hle & Hx1).
      destruct (dr_ref _ _ _ _ _ _ D1 j x Hj Hx' ltac:(rewrite Hx in Hx'; injection Hx' as <-; lia))
        as (Hj1 & _ & _).
      apply (dr_freed _ _ _ _ _ _ D2); [done | | lia]. rewrite Hx1. f_equal.
      rewrite Hx in Hx'. injection Hx' as <-. lia.
  - intros j [Hj | (Hj1 & Hx1 & Hc)]%(dr_free _ _ _ _ _ _ D2).
    + apply (dr_free _ _ _ _ _ _ D1) in Hj as [? | (Hj & Hx & Hc)]; [by left | right].
      rewrite (Hfull j Hj Hx Hc), Z.add_0_r. done.
    + right. destruct (Hpart j Hc) as (x & ? & _ & Hx & Hle & Hx1'). specialize (P1 j).
      rewrite Hx1 in Hx1'. injection Hx1' as Heq. split_and!; [done | rewrite Hx; f_equal; lia | lia].
  - intros j Hj Hnt Hc. specialize (P1 j) as ?. specialize (P2 j) as ?.
    rewrite (dr_ram _ _ _ _ _ _ D2), (dr_ram _ _ _ _ _ _ D1); [done | done | done | lia | | | lia].
    + intros [? | (_ & _ & ?)]%(dr_free _ _ _ _ _ _ D1); [done | lia].
    + intros [? | [? | (_ & ?)]]%(dr_new _ _ _ _ _ _ D1); [done | done | lia].
  - intros j Hj. by apply (dr_keep _ _ _ _ _ _ D2), (dr_keep _ _ _ _ _ _ D1).
  - intros t Ht. by apply (dr_tbl _ _ _ _ _ _ D2), (dr_tbl _ _ _ _ _ _ D1).
  - intros t [Ht | [Ht | [Hx1 Hc]]]%(dr_new _ _ _ _ _ _ D2).
    + apply (dr_new _ _ _ _ _ _ D1) in Ht as [? | [? | [Hx Hc]]]; [by left | by right; left |].
      destruct (Hen t) as (Hj & _ & _ & _); [specialize (P2 t); lia |].
      right. right. rewrite (Hfull t Hj Hx Hc), Z.add_0_r. done.
    + apply (dr_free _ _ _ _ _ _ D1) in Ht as [? | (Hj & Hx & Hc)]; [by right; left |].
      right. right. rewrite (Hfull t Hj Hx Hc), Z.add_0_r. done.
    + right. right. destruct (Hpart t Hc) as (x & ? & _ & Hx & Hle & Hx1'). specialize (P1 t).
      rewrite Hx1 in Hx1'. injection Hx1' as Heq. split; [rewrite Hx; f_equal; lia | lia].
Qed.

Lemma put_page_ok a F p x : pa_rep a F -> ~ F p -> pa_held a p -> pa_ref a p = Some x -> 1 <= x < 2 ^ 31 ->
  exists a', put_page p a = Some a' /\ pa_total a' = pa_total a /\
    pa_rep a' (fun j => F j \/ (j = p /\ x = 1)) /\
    (1 < x -> pa_ref a' p = Some (x - 1) /\ pa_held a' p) /\
    (forall j, ~ F j -> j <> p -> pa_ref a' j = pa_ref a j /\ (pa_held a j -> pa_held a' j)).
Proof.
  intros Hrep Hp Hh Hx Hr. unfold put_page, refcount_dec_and_test. rewrite Hx. cbn [mbind option_bind].
  assert (Hs : s32 (x - 1) = x - 1) by (unfold s32; rewrite Z.mod_small; lia).
  rewrite Hs. replace (x - 1 <? 0) with false by (symmetry; apply Z.ltb_ge; lia).
  destruct (pa_set_ref_ok a F p (x - 1) Hrep Hh) as (a1 & -> & Ht1 & Hrep1 & Hx1 & Ho1 & Hh1).
  cbn [mbind option_bind]. destruct (Z.eqb_spec (x - 1) 0) as [He | He].
  - destruct (pa_free_ok a1 F p Hrep1 Hp (Hh1 _ Hh)) as (a2 & -> & Ht2 & Hrep2 & Ho2 & Hh2).
    exists a2. split_and!; [done | congruence | | lia |].
    + eapply pa_rep_ext; [exact Hrep2 |]. intros j. assert (x = 1) by lia. naive_solver.
    + intros j Hj Hne. split; [rewrite Ho2, Ho1; done | auto].
  - exists a1. split_and!; [done | done | | auto |].
    + eapply pa_rep_ext; [exact Hrep1 |]. intros j. assert (x <> 1) by lia. naive_solver.
    + intros j Hj Hne. split; [by rewrite Ho1 | auto].
Qed.

Lemma drops_ext s F s' F' L L' c c' : drops s F s' F' L c -> (forall j, c j = c' j) ->
  (forall r va, r ∈ roots -> user_va va -> L r va = L' r va) -> drops s F s' F' L' c'.
Proof.
  intros D Hc HL. constructor; [apply D | | | | | | apply D | apply D |].
  - intros r va Hr Hu. rewrite <- HL by done. by apply D.
  - intros j x. rewrite <- Hc. apply D.
  - intros j. rewrite <- Hc. apply D.
  - intros j. rewrite <- Hc. apply D.
  - intros j. rewrite <- Hc. apply D.
  - intros j. rewrite <- Hc. apply D.
Qed.

(** Dropping one reference of [f] and clearing the leaf entry of [va]. *)
Lemma release_leaf s F r va t f x : good s F -> r ∈ roots -> user_va va ->
  tbl (ram s) r (path va) = Some t -> ~ F f -> ~ is_table (ram s) roots f ->
  pa_held (pool s) f -> pa_ref (pool s) f = Some x -> 1 <= x < 2 ^ 31 ->
  exists a m' F', put_page f (pool s) = Some a /\ wr t (pt_idx va) 0 (ram s) = Some m' /\
    drops s F (Machine a m') F' (upd_leaf (leaves s) r va 0) (fun j => if (f =? j)%nat then 1 else 0).
Proof.
  intros Hg Hr Hu Ht Hf Hft Hfh Hx Hxr.
  destruct (put_page_ok (pool s) F f x (g_pool _ _ Hg) Hf Hfh Hx Hxr) as (a & Ha & Htot & Hrep & Hdec & Hoth).
  destruct (evolves_set_leaf s F r va t 0 Hg Hr Hu Ht) as (m' & Hm & E).
  exists a, m', (fun j => F j \/ (j = f /\ x = 1)). split_and!; [done | done |].
  pose proof (ev_good _ _ _ _ _ E) as Hg'. cbn [pool ram] in *.
  assert (Hist : forall t', is_table m' roots t' <-> is_table (ram s) roots t').
  { intros t'. split; [by intros [? | [? ?]]%(ev_new _ _ _ _ _ E) |].
    intros (r' & p' & Hr' & Hp' & Ht'). exists r', p'. split_and!; try done.
    by apply (ev_tbl _ _ _ _ _ E). }
  constructor; cbn [pool ram].
  - constructor; cbn [pool ram].
    + done.
    + apply (g_forest _ _ Hg').
    + intros t' Ht'%Hist. destruct (g_table _ _ Hg _ Ht') as [Hnf Hh].
      assert (t' <> f) by (by intros ->). split; [by intros [? | [? _]] |]. by apply Hoth.
    + intros j Hj. rewrite Htot in Hj. by apply (g_ram _ _ Hg').
    + rewrite Htot. apply (g_total _ _ Hg).
  - apply E.
  - intros j y Hj Hy Hc. destruct (Nat.eqb_spec f j) as [<- | Hne].
    + assert (y = x) as -> by congruence. destruct Hdec as [Hd Hhd]; [lia |].
      split_and!; [intros [? | [_ ?]]; [done | lia] | done | done].
    + destruct (Hoth j Hj) as [Hrj Hhj]; [congruence |].
      split_and!; [intros [? | [? _]]; congruence | rewrite Hrj, Hy; f_equal; lia | done].
  - intros j Hj Hy Hc. left. destruct (Nat.eqb_spec f j) as [<- | Hne]; [| lia].
    right. split; [done | congruence].
  - intros j [? | [-> ->]]; [by left | right]. rewrite Nat.eqb_refl. split_and!; [done | done | lia].
  - intros j Hj Hjt _. by apply (ev_ram _ _ _ _ _ E).
  - intros j [? | ?%Hist]; auto.
  - intros t' ?%Hist. done.
  - intros t' ?%Hist. by left.
Qed.

Definition cleared (e : Z) : Z := if pte_present e then 0 else e.

Definition one_use (L : nat -> Z -> Z) (r : nat) (va : Z) (f : nat) : Z :=
  if maps_to (L r va) f then 1 else 0.

Lemma unmap_one_ok s F r va : good s F -> r ∈ roots -> user_va va -> enough s F (one_use (leaves s) r va) ->
  exists s' res F', unmap_one r va s = Some (s', res) /\
    match res with
    | None => drops s F s' F' (leaves s) (fun _ => 0) /\ forall j, ~ F' j
    | Some n => 0 <= n <= 1 /\
        drops s F s' F' (upd_leaf (leaves s) r va (cleared (leaves s r va))) (one_use (leaves s) r va)
    end.
Proof.
  intros Hg Hr Hu Hen. unfold unmap_one.
  destruct (ensure_pt_ok s F r va Hg Hr Hu) as (s1 & res & F1 & -> & E1 & O1 & R1). cbn [mbind option_bind].
  pose proof (evolves_drops _ _ _ _ _ E1 O1) as D1.
  destruct res as [t |]; [| by exists s1, None, F1].
  pose proof (ev_good _ _ _ _ _ E1) as Hg1.
  rewrite (leaf_rd _ r va roots t (g_forest _ _ Hg1) Hr Hu R1). cbn [mbind option_bind].
  rewrite (ev_leaf _ _ _ _ _ E1 r va Hr Hu). unfold cleared, one_use, maps_to in *.
  set (e := leaves s r va) in *. destruct (pte_present e) eqn:Hpr.
  2:{ exists s1, (Some 0), F1. split; [done |]. split; [lia |].
      eapply drops_ext; [exact D1 | done |]. intros r' va' Hr' Hu'. unfold upd_leaf.
      case_bool_decide as Hc; [| done]. destruct Hc as [-> Hs]. by apply leaf_same_page. }
  destruct (Hen (pte_pfn e)) as (Hf & Hft & Hfh & x & Hx & Hxr); [cbn; rewrite Nat.eqb_refl; lia |].
  cbn in Hxr. rewrite Nat.eqb_refl in Hxr.
  destruct (release_leaf s1 F1 r va t (pte_pfn e) x Hg1 Hr Hu R1) as (a & m' & F2 & -> & Hm & D2).
  { intros Hx'. by apply Hf, E1. }
  { intros [? | [? _]]%(ev_new _ _ _ _ _ E1); done. }
  { by apply (ev_held _ _ _ _ _ E1). }
  { by rewrite (ev_ref _ _ _ _ _ E1). }
  { lia. }
  cbn [mbind option_bind]. rewrite Hm. cbn [mbind option_bind].
  exists (Machine a m'), (Some 1), F2. split; [done |]. split; [lia |].
  eapply drops_ext.
  - eapply (drops_trans _ _ _ _ _ (fun _ => 0) _ _ _ (fun j => if (pte_pfn e =? j)%nat then 1 else 0));
      [done | | exact Hen | exact D1 | exact D2].
    intros j. destruct (pte_pfn e =? j)%nat; lia.
  - done.
  - intros r' va' Hr' Hu'. apply upd_leaf_ext. by apply E1.
Qed.

Lemma enough_next s F s1 F1 L c1 c2 : (forall j, 0 <= c1 j) -> enough s F (fun j => c1 j + c2 j) ->
  drops s F s1 F1 L c1 -> enough s1 F1 c2.
Proof.
  intros P1 Hen D j Hc. specialize (P1 j) as ?.
  destruct (Hen j) as (Hj & Hnt & Hh & x & Hx & Hle); [lia |].
  destruct (dr_ref _ _ _ _ _ _ D j x Hj Hx ltac:(lia)) as (Hj1 & Hx1 & Hh1).
  split_and!; [done | | by apply Hh1 |].
  - intros [? | [? | [Hx' ?]]]%(dr_new _ _ _ _ _ _ D); [done | done |].
    rewrite Hx in Hx'. injection Hx' as ->. lia.
  - exists (x - c1 j). split; [done | lia].
Qed.

(** The first [j] pages at [va] are unmapped. *)
Definition unmapped_leaves (L : nat -> Z -> Z) (r : nat) (va : Z) (j : nat) (L' : nat -> Z -> Z) : Prop :=
  (forall k, (k < j)%nat -> L' r (page_at va k) = cleared (L r (page_at va k))) /\
  (forall r' va', r' ∈ roots -> user_va va' ->
     (forall k, (k < j)%nat -> ~ (r' = r /\ same_page va' (page_at va k))) -> L' r' va' = L r' va').

Lemma unmapped_cons L L1 L2 r va n j : r ∈ roots -> aligned va -> user_range va (S n) -> (j <= n)%nat ->
  (forall r' va', r' ∈ roots -> user_va va' -> L1 r' va' = upd_leaf L r va (cleared (L r va)) r' va') ->
  unmapped_leaves L1 r (va + PAGE_SIZE) j L2 -> unmapped_leaves L r va (S j) L2.
Proof.
  intros Hr Ha Hur Hj HL1 [Hin Hout].
  pose proof (user_range_page va (S n) 0 Hur ltac:(lia)) as Hu. rewrite page_at_0 in Hu. split.
  - intros [| k] Hk.
    + rewrite page_at_0. rewrite Hout, HL1; [by apply upd_leaf_eq | done | done | done | done |].
      intros k _ [_ Hs]. rewrite page_at_S in Hs. rewrite <- (page_at_0 va) in Hs at 1.
      apply page_at_same in Hs; [lia | done].
    + rewrite <- page_at_S. rewrite Hin by lia. f_equal. rewrite page_at_S, HL1.
      * apply upd_leaf_ne. intros [_ Hs]. rewrite <- (page_at_0 va) in Hs at 2.
        apply page_at_same in Hs; [lia | done].
      * done.
      * apply (user_range_page va (S n)); [done | lia].
  - intros r' va' Hr' Hu' Hk. rewrite Hout, HL1; [| done | done | done | done |].
    + apply upd_leaf_ne. specialize (Hk 0%nat ltac:(lia)). by rewrite page_at_0 in Hk.
    + intros k Hkj. rewrite page_at_S. apply Hk. lia.
Qed.

Lemma unmap_loop_ok count n : forall fuel s F r va va_end freed, good s F -> r ∈ roots -> aligned va ->
  user_range va n -> va + Z.of_nat n * PAGE_SIZE - PAGE_SIZE < va_end <= va + Z.of_nat n * PAGE_SIZE ->
  (n <= fuel)%nat -> freed + Z.of_nat n <= count -> enough s F (uses (leaves s) r va n) ->
  exists s' F' j L, unmap_loop fuel r va va_end count freed s = Some s' /\ (j <= n)%nat /\
    drops s F s' F' L (uses (leaves s) r va j) /\ unmapped_leaves (leaves s) r va j L /\
    ((j < n)%nat -> forall i, ~ F' i).
Proof.
  induction n as [| n IH]; intros fuel s F r va va_end freed Hg Hr Ha Hur Hend Hfuel Hcnt Hen.
  - assert (Hge : va <? va_end = false) by (apply Z.ltb_ge; lia).
    exists s, F, 0%nat, (leaves s). split_and!.
    + by destruct fuel; cbn [unmap_loop]; rewrite Hge.
    + lia.
    + apply evolves_drops; [by apply evolves_refl | by left].
    + split; [lia | done].
    + lia.
  - assert (Hlt : (va <? va_end) && (freed <? count) = true).
    { apply andb_true_iff. split; apply Z.ltb_lt; unfold PAGE_SIZE in *; lia. }
    destruct fuel as [| fuel]; [lia |]. cbn [unmap_loop]. rewrite Hlt.
    pose proof (user_range_page va (S n) 0 Hur ltac:(lia)) as Hu. rewrite page_at_0 in Hu.
    assert (Hp1 : forall j, 0 <= one_use (leaves s) r va j) by (intros j; unfold one_use; case_match; lia).
    assert (Hen1 : enough s F (one_use (leaves s) r va)).
    { intros j Hj. pose proof (uses_nonneg (leaves s) r (va + PAGE_SIZE) n j) as Hnn.
      destruct (Hen j) as (? & ? & ? & x & ? & Hle); cbn [uses] in *; fold (one_use (leaves s) r va j) in *; [lia |].
      split_and!; try done. exists x. split; [done | lia]. }
    destruct (unmap_one_ok s F r va Hg Hr Hu Hen1) as (s1 & res & F1 & -> & Hone). cbn [mbind option_bind].
    destruct res as [c |].
    2:{ destruct Hone as [D Hoom]. exists s1, F1, 0%nat, (leaves s). split_and!; [done | lia | done | | done].
        split; [lia | done]. }
    destruct Hone as [Hc D1]. rewrite (user_range_u64 va n Hur).
    pose proof (dr_leaf _ _ _ _ _ _ D1) as HL1.
    assert (Huses : forall k j, (k <= n)%nat ->
      uses (leaves s1) r (va + PAGE_SIZE) k j = uses (leaves s) r (va + PAGE_SIZE) k j).
    { intros k j Hk. apply uses_ext. intros i Hi. rewrite page_at_S, HL1;
        [| done | apply (user_range_page va (S n)); [done | lia]].
      apply upd_leaf_ne. intros [_ Hs]. rewrite <- (page_at_0 va) in Hs at 2.
      apply page_at_same in Hs; [lia | done]. }
    assert (Hen2 : enough s1 F1 (uses (leaves s1) r (va + PAGE_SIZE) n)).
    { eapply enough_next; [exact Hp1 | | exact D1]. intros j. rewrite Huses by lia. apply Hen. }
    destruct (IH fuel s1 F1 r (va + PAGE_SIZE) va_end (freed + c) (dr_good _ _ _ _ _ _ D1) Hr
                (aligned_next va Ha) (user_range_next va n Hur) ltac:(lia) ltac:(lia) ltac:(lia) Hen2)
      as (s2 & F2 & j & L & -> & Hj & D2 & HL2 & Hoom).
    exists s2, F2, (S j), L. split_and!; [done | lia | | by eapply unmapped_cons | intros; apply Hoom; lia].
    eapply (drops_ext _ _ _ _ L L (fun f => one_use (leaves s) r va f + uses (leaves s1) r (va + PAGE_SIZE) j f)).
    + eapply drops_trans; [done | intros; apply uses_nonneg | | exact D1 | exact D2].
      intros f Hf. pose proof (uses_nonneg (leaves s) r (va + PAGE_SIZE) n f).
      pose proof (uses_mono (leaves s) r (va + PAGE_SIZE) j n f Hj). rewrite Huses in * by lia.
      destruct (Hen f) as (? & ? & ? & x & ? & Hle); cbn [uses] in *; fold (one_use (leaves s) r va f) in *; [lia |].
      split_and!; try done. exists x. split; [done | lia].
    + intros f. cbn [uses]. fold (one_use (leaves s) r va f). by rewrite Huses.
    + done.
Qed.

(** *** Clearing and moving *)

Lemma clear_pte_ok s F r va : good s F -> r ∈ roots -> user_va va ->
  exists s', clear_user_pte r va s = Some s' /\
    evolves s F s' F (upd_leaf (leaves s) r va (cleared (leaves s r va))).
Proof.
  intros Hg Hr Hu. unfold clear_user_pte.
  rewrite (walk_tbl _ r va roots (g_forest _ _ Hg) Hr Hu). cbn [mbind option_bind].
  assert (Hid : forall v, v = leaves s r va -> forall r' va', r' ∈ roots -> user_va va' ->
    leaves s r' va' = upd_leaf (leaves s) r va v r' va').
  { intros v -> r' va' Hr' Hu'. unfold upd_leaf. case_bool_decide as Hc; [| done].
    destruct Hc as [-> ?]. by apply leaf_same_page. }
  destruct (tbl (ram s) r (path va)) as [t |] eqn:Ht.
  - rewrite (leaf_rd _ r va roots t (g_forest _ _ Hg) Hr Hu Ht). cbn [mbind option_bind].
    unfold cleared. destruct (pte_present (leaves s r va)) eqn:Hp.
    + destruct (evolves_set_leaf s F r va t 0 Hg Hr Hu Ht) as (m' & -> & E). by eexists.
    + exists s. split; [done |]. eapply evolves_leaf; [by apply evolves_refl |]. by apply Hid.
  - exists s. split; [done |]. eapply evolves_leaf; [by apply evolves_refl |]. apply Hid.
    unfold leaf. rewrite Ht. done.
Qed.

Lemma move_prepare_ok n : forall s F r va, good s F -> r ∈ roots -> user_range va n ->
  exists s' ok F', move_prepare n r va s = Some (s', ok) /\ evolves s F s' F' (leaves s) /\
    if ok : bool then forall k, (k < n)%nat -> is_Some (tbl (ram s') r (path (page_at va k)))
    else forall j, ~ F' j.
Proof.
  induction n as [| n IH]; intros s F r va Hg Hr Hur; cbn [move_prepare].
  - exists s, true, F. split_and!; [done | by apply evolves_refl | lia].
  - pose proof (user_range_page va (S n) 0 Hur ltac:(lia)) as Hu. rewrite page_at_0 in Hu.
    destruct (ensure_pt_ok s F r va Hg Hr Hu) as (s1 & res & F1 & -> & E1 & _ & R1). cbn [mbind option_bind].
    destruct res as [t |]; [| by exists s1, false, F1].
    rewrite (user_range_u64 va n Hur).
    destruct (IH s1 F1 r (va + PAGE_SIZE) (ev_good _ _ _ _ _ E1) Hr (user_range_next va n Hur))
      as (s2 & ok & F2 & -> & E2 & R2).
    exists s2, ok, F2. split_and!; [done | |].
    + eapply evolves_trans; [exact E1 |]. eapply evolves_leaf; [exact E2 |]. apply E1.
    + destruct ok; [| done]. intros [| k] Hk.
      * rewrite page_at_0. exists t. apply (ev_tbl _ _ _ _ _ E2); [done | by apply path_upath | done].
      * rewrite <- page_at_S. apply R2. lia.
Qed.

Definition moved_one (L : nat -> Z -> Z) (r : nat) (sva dva : Z) : nat -> Z -> Z :=
  if pte_present (L r sva) then upd_leaf (upd_leaf L r dva (L r sva)) r sva 0 else L.

Lemma move_one_ok s F r sva dva : good s F -> r ∈ roots -> user_va sva -> user_va dva ->
  is_Some (tbl (ram s) r (path dva)) ->
  exists m', move_one r sva dva (ram s) = Some m' /\
    evolves s F (Machine (pool s) m') F (moved_one (leaves s) r sva dva).
Proof.
  intros Hg Hr Hs Hd [td Htd]. unfold move_one, moved_one.
  rewrite (walk_tbl _ r sva roots (g_forest _ _ Hg) Hr Hs). cbn [mbind option_bind].
  destruct (tbl (ram s) r (path sva)) as [t |] eqn:Ht.
  2:{ exists (ram s). split; [done |]. unfold leaf at 1. rewrite Ht. destruct s. by apply evolves_refl. }
  rewrite (leaf_rd _ r sva roots t (g_forest _ _ Hg) Hr Hs Ht). cbn [mbind option_bind].
  destruct (pte_present (leaves s r sva)) eqn:Hp.
  2:{ exists (ram s). split; [done |]. destruct s. by apply evolves_refl. }
  rewrite (walk_tbl _ r dva roots (g_forest _ _ Hg) Hr Hd), Htd. cbn [mbind option_bind].
  destruct (evolves_set_leaf s F r dva td (leaves s r sva) Hg Hr Hd Htd) as (m1 & -> & E1).
  cbn [mbind option_bind].
  pose proof (ev_tbl _ _ _ _ _ E1 r (path sva) t Hr (path_upath sva Hs) Ht) as Ht1.
  destruct (evolves_set_leaf _ F r sva t 0 (ev_good _ _ _ _ _ E1) Hr Hs Ht1) as (m2 & Hm2 & E2).
  exists m2. split; [done |]. eapply evolves_trans; [exact E1 |]. eapply evolves_leaf; [exact E2 |].
  intros r' va' Hr' Hu'. apply upd_leaf_ext. by apply E1.
Qed.

(** What moving [n] pages makes of the leaves. *)
Definition moved (L : nat -> Z -> Z) (r : nat) (old new : Z) (n : nat) (L' : nat -> Z -> Z) : Prop :=
  (forall k, (k < n)%nat ->
     L' r (page_at old k) = cleared (L r (page_at old k)) /\
     L' r (page_at new k) =
       if pte_present (L r (page_at old k)) then L r (page_at old k) else L r (page_at new k)) /\
  (forall r' va', r' ∈ roots -> user_va va' ->
     (forall k, (k < n)%nat -> ~ (r' = r /\ (same_page va' (page_at old k) \/ same_page va' (page_at new k)))) ->
     L' r' va' = L r' va').

Definition disjoint_ranges (a b : Z) (n : nat) : Prop :=
  forall j k, (j < n)%nat -> (k < n)%nat -> ~ same_page (page_at a j) (page_at b k).

Lemma moved_ext L L1 L' r old new n : moved L1 r old new n L' ->
  user_range old n -> user_range new n -> r ∈ roots ->
  (forall r va, r ∈ roots -> user_va va -> L1 r va = L r va) -> moved L r old new n L'.
Proof.
  intros [Hin Hout] Ho Hn Hr HL. split.
  - intros k Hk. destruct (Hin k Hk) as [H1 H2]. rewrite H1, H2.
    rewrite !HL by (try done; by eapply user_range_page). done.
  - intros r' va' Hr' Hu' Hk. rewrite Hout, HL; done.
Qed.

Lemma moved_cons L L1 L2 r old new n : r ∈ roots -> aligned old -> aligned new ->
  user_range old (S n) -> user_range new (S n) -> disjoint_ranges old new (S n) ->
  (forall r' va', r' ∈ roots -> user_va va' -> L1 r' va' = moved_one L r old new r' va') ->
  moved L1 r (old + PAGE_SIZE) (new + PAGE_SIZE) n L2 -> moved L r old new (S n) L2.
Proof.
  intros Hr Ho Hn Huo Hun Hdis HL1 [Hin Hout].
  pose proof (user_range_page old (S n) 0 Huo ltac:(lia)) as Hvo. rewrite page_at_0 in Hvo.
  pose proof (user_range_page new (S n) 0 Hun ltac:(lia)) as Hvn. rewrite page_at_0 in Hvn.
  assert (Hneq : forall j, (j < n)%nat -> ~ same_page (page_at old (S j)) old /\ ~ same_page (page_at new (S j)) new).
  { intros j Hj. rewrite <- (page_at_0 old) at 2. rewrite <- (page_at_0 new) at 2.
    rewrite !page_at_same by done. lia. }
  assert (Hcross : forall j k, (j < S n)%nat -> (k < S n)%nat -> ~ same_page (page_at new j) (page_at old k)).
  { intros j k Hj Hk Hs. by apply (Hdis k j Hk Hj). }
  assert (Hkeep : forall va', user_va va' -> ~ same_page va' old -> ~ same_page va' new -> L1 r va' = L r va').
  { intros va' Hu' H1 H2. rewrite HL1 by done. unfold moved_one. case_match; [| done].
    rewrite !upd_leaf_ne by naive_solver. done. }
  split.
  - intros [| k] Hk.
    + rewrite !page_at_0. rewrite !Hout, !HL1; try done.
      * unfold moved_one, cleared. destruct (pte_present (L r old)); [| done].
        rewrite upd_leaf_eq by done. rewrite upd_leaf_ne; [by rewrite upd_leaf_eq |].
        intros [_ Hs]. apply (Hcross 0%nat 0%nat); [lia | lia |]. by rewrite !page_at_0.
      * intros k Hk' [_ [Hs | Hs]]; rewrite page_at_S in Hs.
        -- apply (Hcross 0%nat (S k)); [lia | lia |]. by rewrite page_at_0.
        -- apply (proj2 (Hneq k Hk')). by symmetry.
      * intros k Hk' [_ [Hs | Hs]]; rewrite page_at_S in Hs.
        -- apply (proj1 (Hneq k Hk')). by symmetry.
        -- apply (Hdis 0%nat (S k)); [lia | lia |]. by rewrite page_at_0.
    + rewrite <- !page_at_S. destruct (Hin k ltac:(lia)) as [H1 H2]. rewrite H1, H2, !page_at_S.
      rewrite !Hkeep; [done | | | | | |].
      * apply (user_range_page new (S n)); [done | lia].
      * rewrite <- (page_at_0 old). apply Hcross; lia.
      * apply Hneq. lia.
      * apply (user_range_page old (S n)); [done | lia].
      * apply Hneq. lia.
      * rewrite <- (page_at_0 new). apply Hdis; lia.
  - intros r' va' Hr' Hu' Hk. rewrite Hout; [| done | done |].
    + rewrite HL1 by done. unfold moved_one. case_match; [| done].
      specialize (Hk 0%nat ltac:(lia)). rewrite !page_at_0 in Hk.
      rewrite !upd_leaf_ne by naive_solver. done.
    + intros k Hk'. rewrite !page_at_S. apply Hk. lia.
Qed.

Lemma move_loop_ok n : forall s F r old new, good s F -> r ∈ roots -> aligned old -> aligned new ->
  user_range old n -> user_range new n -> disjoint_ranges old new n ->
  (forall k, (k < n)%nat -> is_Some (tbl (ram s) r (path (page_at new k)))) ->
  exists m' L, move_loop n r old new (ram s) = Some m' /\
    evolves s F (Machine (pool s) m') F L /\ moved (leaves s) r old new n L.
Proof.
  induction n as [| n IH]; intros s F r old new Hg Hr Ho Hn Huo Hun Hdis Htab; cbn [move_loop].
  - exists (ram s), (leaves s). split_and!; [done | destruct s; by apply evolves_refl |].
    split; [lia | done].
  - pose proof (user_range_page old (S n) 0 Huo ltac:(lia)) as Hvo. rewrite page_at_0 in Hvo.
    pose proof (user_range_page new (S n) 0 Hun ltac:(lia)) as Hvn. rewrite page_at_0 in Hvn.
    pose proof (Htab 0%nat ltac:(lia)) as Ht0. rewrite page_at_0 in Ht0.
    destruct (move_one_ok s F r old new Hg Hr Hvo Hvn Ht0) as (m1 & -> & E1). cbn [mbind option_bind].
    rewrite (user_range_u64 old n Huo), (user_range_u64 new n Hun).
    destruct (IH (Machine (pool s) m1) F r (old + PAGE_SIZE) (new + PAGE_SIZE)) as (m2 & L & Hm2 & E2 & HL).
    + apply E1.
    + done.
    + by apply aligned_next.
    + by apply aligned_next.
    + by apply user_range_next.
    + by apply user_range_next.
    + intros j k Hj Hk. rewrite !page_at_S. apply Hdis; lia.
    + intros k Hk. rewrite page_at_S. destruct (Htab (S k) ltac:(lia)) as [t Ht].
      exists t. apply (ev_tbl _ _ _ _ _ E1); [done | | done].
      apply path_upath, (user_range_page new (S n)); [done | lia].
    + exists m2, L. split_and!; [done | by eapply evolves_trans |].
      eapply (moved_cons _ (leaf m1)); [done .. | apply E1 | exact HL].
Qed.

End Ops.
End Ops.

(** ** Theorems *)
Import Tree Leaf Ops.

(** A machine with eight page frames; frame 0 is the empty top-level table of
    one address space and the others are free. *)
Definition demo_pool : bfc := Bfc
  (Page PAGE_USED 1 1 None None :: Page PAGE_FREE 0 7 None None :: replicate 6 (Page PAGE_FREE 0 1 None None))
  (Some 1%nat) 1.
Definition demo_ram : memory := list_to_map ((fun i => (i, replicate 512 0)) <$> seq 0 8).
Definition demo_machine : machine bfc := Machine demo_pool demo_ram.
Definition demo_free_set (i : nat) : Prop := (1 <= i < 8)%nat.

Lemma demo_ram_lookup i : (i < 8)%nat -> demo_ram !! i = Some (replicate 512 0).
Proof. intros Hi. do 8 (destruct i as [| i]; [by vm_compute |]). lia. Qed.

Lemma demo_tbl p t : upath p -> tbl demo_ram 0 p = Some t -> p = [] /\ t = 0%nat.
Proof.
  destruct p as [| i p]; [by intros _ [= <-] |]. intros (_ & Hi & _). apply Forall_cons in Hi as [Hi _].
  cbn. unfold rd. rewrite demo_ram_lookup by lia. cbn [mbind option_bind].
  by rewrite lookup_replicate_2.
Qed.

Lemma demo_good : good [0%nat] demo_machine demo_free_set.
Proof.
  assert (Hist : forall t, is_table demo_ram [0%nat] t -> t = 0%nat).
  { intros t (r & p & Hr & Hp & Ht). apply list_elem_of_singleton in Hr as ->.
    by apply demo_tbl in Ht as [_ ->]. }
  constructor; cbn [pool ram demo_machine].
  - exists [(1, 7)]%nat. split.
    + constructor; [cbn; lia | by apply Forall_singleton |].
      apply Bfc.Rep.tail_cons. split; [done |]. eexists. by split_and!; [.. | exists (Some 1%nat)].
    + intros i. unfold demo_free_set. rewrite Bfc.Blocks.cover_cons. split; [by left |].
      intros [? | []%Bfc.Blocks.cover_nil]. done.
  - constructor.
    + intros r p t Hr Hp Ht. apply list_elem_of_singleton in Hr as ->. apply demo_tbl in Ht as [-> ->]; [| done].
      exists (replicate 512 0). by rewrite demo_ram_lookup, length_replicate by lia.
    + intros r p r' p' t Hr Hr' Hp Hp' H1 H2.
      apply list_elem_of_singleton in Hr as ->. apply list_elem_of_singleton in Hr' as ->.
      apply demo_tbl in H1 as [-> _]; [| done]. by apply demo_tbl in H2 as [-> _].
  - intros t ->%Hist. split; [unfold demo_free_set; lia |]. eexists. by split.
  - intros i Hi. by rewrite demo_ram_lookup.
  - done.
Qed.

Lemma demo_leaf va : user_va va -> leaf demo_ram 0 va = 0.
Proof.
  intros Hu. unfold leaf. destruct (tbl demo_ram 0 (path va)) as [t |] eqn:Ht; [| done].
  by apply demo_tbl in Ht as [? _]; [| apply path_upath].
Qed.

Definition ANON_FLAGS : Z := Z.lor PTE_PRESENT (Z.lor PTE_RW PTE_USER).

Section Claims.
Context `{PageAllocator A} (roots : list nat) (s : machine A) (F : nat -> Prop) (r : nat).

(**  [map_user_page_direct] on a page of a user address space returns and
    changes at most that page's leaf entry.  It succeeds exactly by writing
    [phys | flags] into an entry that was not present; it fails when the entry
    is present or no page is left for a missing table, and then no leaf entry
    of any address space has changed.  Pages in use that are not page tables
    keep their contents and reference counts. *)
Theorem map_user_page_direct_correct va phys flags :
  good roots s F -> r ∈ roots -> user_va va ->
  exists s' b F', map_user_page_direct r va phys flags s = Some (s', b) /\
    if b : bool
    then pte_present (leaf (ram s) r va) = false /\
         evolves roots s F s' F' (upd_leaf (leaf (ram s)) r va (Z.lor phys flags))
    else evolves roots s F s' F' (leaf (ram s)) /\
         (pte_present (leaf (ram s) r va) = true \/ forall j, ~ F' j).
Proof. apply map_direct_ok. Qed.

(** C34.  [map_user_pages] terminates on every user range and gives each page of
    it that had no present entry its own zero-filled page, in use with one
    reference, distinct for distinct virtual pages; present entries and all
    other pages of all address spaces keep theirs.  [pages_mapped] is the
    number of entries written, and the call fails only when the allocator has
    no page left. *)
Theorem map_user_pages_correct va_start va_end flags :
  good roots s F -> r ∈ roots -> 0 <= va_start <= va_end -> va_end <= 2 ^ 47 - PAGE_SIZE ->
  let va := ALIGN_UP va_start PAGE_SIZE in
  exists s' ok c F' L, map_user_pages r va_start va_end flags s = Some (s', ok, c) /\
    mapped roots s F s' F' r va (range_pages va va_end) flags ok L /\
    (ok = true -> c = absent (leaf (ram s)) r va (range_pages va va_end)).
Proof.
  intros Hg Hr H0 Hend va. destruct (align_up_range va_start va_end H0 Hend) as (Ha & Hlt & Hur).
  destruct (range_pages_ok va va_end Hlt) as [Hn Hf].
  destruct (map_loop_ok roots flags (range_pages va va_end) (range_fuel va va_end) s F r va va_end 0
              Hg Hr Ha Hur Hn Hf) as (s' & ok & c & F' & L & Heq & Hm & Hc).
  by exists s', ok, c, F', L.
Qed.

(**  [unmap_user_pages] over a user range whose mapped frames are in use
    and have at least as many references as mappings in the range: it clears
    the leaf entries of the first [j] pages, drops exactly one reference per
    mapping it clears, and frees a frame exactly when its last reference goes
    (the page may then serve as a page table).  Nothing else is touched.  It
    stops before the end ([j < n]) only when the allocator has no page for a
    table that is missing on the way. *)
Theorem unmap_user_pages_correct va_start va_end count :
  good roots s F -> r ∈ roots -> 0 <= va_start <= va_end -> va_end <= 2 ^ 47 - PAGE_SIZE ->
  let va := ALIGN_UP va_start PAGE_SIZE in
  let n := range_pages va va_end in
  Z.of_nat n <= count -> enough roots s F (uses (leaf (ram s)) r va n) ->
  exists s' F' j L, unmap_user_pages r va_start va_end count s = Some s' /\ (j <= n)%nat /\
    drops roots s F s' F' L (uses (leaf (ram s)) r va j) /\
    unmapped_leaves roots (leaf (ram s)) r va j L /\
    ((j < n)%nat -> forall i, ~ F' i).
Proof.
  intros Hg Hr H0 Hend va n Hcnt Hen. destruct (align_up_range va_start va_end H0 Hend) as (Ha & Hlt & Hur).
  destruct (range_pages_ok va va_end Hlt) as [Hn Hf].
  by apply (unmap_loop_ok roots count n (range_fuel va va_end) s F r va va_end 0).
Qed.

(**  [move_user_pages] between disjoint page-aligned user ranges either
    fails for lack of a page for a table, leaving every leaf entry as it was,
    or moves every present entry, [PROT_NONE] entries included, to the
    corresponding page of the new range and clears the old one; other pages,
    all reference counts and all page contents are unchanged. *)
Theorem move_user_pages_correct old new n :
  good roots s F -> r ∈ roots -> aligned old -> aligned new ->
  user_range old n -> user_range new n -> disjoint_ranges old new n ->
  exists s' ok F' L, move_user_pages r old new n s = Some (s', ok) /\
    evolves roots s F s' F' L /\
    if ok : bool then moved roots (leaf (ram s)) r old new n L
    else L = leaf (ram s) /\ forall j, ~ F' j.
Proof.
  intros Hg Hr Ho Hn Huo Hun Hdis. unfold move_user_pages.
  destruct (move_prepare_ok roots n s F r new Hg Hr Hun) as (s1 & ok & F1 & -> & E1 & R1).
  cbn [mbind option_bind]. destruct ok.
  2:{ by exists s1, false, F1, (leaf (ram s)). }
  destruct (move_loop_ok roots n s1 F1 r old new (ev_good _ _ _ _ _ _ E1) Hr Ho Hn Huo Hun Hdis R1)
    as (m' & L & -> & E2 & HL). cbn [mbind option_bind].
  exists (Machine (pool s1) m'), true, F1, L. split_and!; [done | by eapply evolves_trans |].
  eapply moved_ext; [exact HL | exact Huo | exact Hun | exact Hr | apply E1].
Qed.

(**  [lookup_pte] returns the address of a page's leaf entry exactly when
    that entry is present (mapped or [PROT_NONE]), and NULL otherwise; the
    entry it points to is the one the hardware walk reads. *)
Theorem lookup_pte_correct va : good roots s F -> r ∈ roots -> user_va va ->
  exists res, lookup_pte (ram s) r va = Some res /\
    match res with
    | Some (t, i) => rd (ram s) t i = Some (leaf (ram s) r va) /\ pte_present (leaf (ram s) r va) = true
    | None => pte_present (leaf (ram s) r va) = false
    end.
Proof.
  intros Hg Hr Hu. rewrite (lookup_leaf _ r va roots (g_forest _ _ _ Hg) Hr Hu).
  eexists. split; [done |]. destruct (pte_present (leaf (ram s) r va)) eqn:Hp; [| done].
  destruct (tbl (ram s) r (path va)) as [t |] eqn:Ht; cbn.
  - split; [| done]. by apply (leaf_rd _ r va roots t (g_forest _ _ _ Hg)).
  - unfold leaf in Hp. by rewrite Ht in Hp.
Qed.

End Claims.

Definition demo_va : Z := 0x400000.

Lemma demo_root : (0 ∈ [0])%nat.
Proof. by apply list_elem_of_singleton. Qed.

Lemma demo_va_user : user_va demo_va.
Proof. unfold user_va, demo_va. lia. Qed.

(** The demo machine after one page has been mapped. *)
Lemma demo_mapped : exists s' F' q, good [0%nat] s' F' /\ fresh_page [0%nat] demo_free_set s' q /\ ~ F' q /\
  leaf (ram s') 0 demo_va = Z.lor (page_to_phys q) ANON_FLAGS.
Proof.
  destruct (map_one_ok [0%nat] demo_machine demo_free_set 0 demo_va ANON_FLAGS demo_good demo_root demo_va_user)
    as (s' & res & F' & Heq & Hres).
  assert (Hs : snd <$> map_one 0 demo_va ANON_FLAGS demo_machine = Some (Some 1)) by (by vm_compute).
  rewrite Heq in Hs. cbn in Hs. injection Hs as ->. cbn [ram demo_machine] in Hres.
  rewrite (demo_leaf demo_va demo_va_user) in Hres. change (pte_present 0) with false in Hres.
  destruct Hres as (_ & q & Hfr & Hq & E). exists s', F', q. split_and!; [apply E | done | done |].
  rewrite (ev_leaf _ _ _ _ _ _ E) by (apply demo_root || apply demo_va_user). by apply upd_leaf_eq.
Qed.

Lemma map_user_page_direct_correct_witness :
  exists s' F', map_user_page_direct 0 demo_va 0x5000 ANON_FLAGS demo_machine = Some (s', true) /\
    evolves [0%nat] demo_machine demo_free_set s' F'
      (upd_leaf (leaf demo_ram) 0 demo_va (Z.lor 0x5000 ANON_FLAGS)).
Proof.
  destruct (map_user_page_direct_correct [0%nat] demo_machine demo_free_set 0 demo_va 0x5000 ANON_FLAGS
              demo_good demo_root demo_va_user) as (s' & b & F' & Heq & Hb).
  assert (Hs : snd <$> map_user_page_direct 0 demo_va 0x5000 ANON_FLAGS demo_machine = Some true) by (by vm_compute).
  rewrite Heq in Hs. cbn in Hs. injection Hs as ->. destruct Hb as [_ E]. exists s', F'. split; [exact Heq | exact E].
Defined.

Lemma map_user_pages_correct_witness :
  exists s' F' L, map_user_pages 0 demo_va (demo_va + 0x3000) ANON_FLAGS demo_machine = Some (s', true, 3) /\
    mapped [0%nat] demo_machine demo_free_set s' F' 0 demo_va 3 ANON_FLAGS true L.
Proof.
  destruct (map_user_pages_correct [0%nat] demo_machine demo_free_set 0 demo_va (demo_va + 0x3000) ANON_FLAGS
              demo_good demo_root ltac:(unfold demo_va; lia) ltac:(unfold demo_va, PAGE_SIZE; lia))
    as (s' & ok & c & F' & L & Heq & Hm & Hc).
  assert (Hs : (fun x => (x.1.2, x.2)) <$> map_user_pages 0 demo_va (demo_va + 0x3000) ANON_FLAGS demo_machine
               = Some (true, 3)) by (by vm_compute).
  rewrite Heq in Hs. cbn in Hs. injection Hs as -> ->.
  change (ALIGN_UP demo_va PAGE_SIZE) with demo_va in Hm.
  change (range_pages demo_va (demo_va + 0x3000)) with 3%nat in Hm.
  exists s', F', L. split; [exact Heq | exact Hm].
Defined.

Lemma unmap_user_pages_correct_witness :
  exists s s' F' j L, unmap_user_pages 0 demo_va (demo_va + 0x1000) 1 s = Some s' /\ (j <= 1)%nat /\
    pte_present (leaf (ram s) 0 demo_va) = true /\
    unmapped_leaves [0%nat] (leaf (ram s)) 0 demo_va j L /\ good [0%nat] s' F'.
Proof.
  destruct demo_mapped as (s & F & q & Hg & (HFq & Hh & Href & _ & Hnt) & Hq & Hleaf).
  assert (Hpfn : pte_pfn (leaf (ram s) 0 demo_va) = q).
  { rewrite Hleaf. apply pfn_of_page; [unfold demo_free_set in HFq; lia | done]. }
  destruct (unmap_user_pages_correct [0%nat] s F 0 demo_va (demo_va + 0x1000) 1 Hg demo_root
              ltac:(unfold demo_va; lia) ltac:(unfold demo_va, PAGE_SIZE; lia) ltac:(by vm_compute))
    as (s' & F' & j & L & Heq & Hj & D & HL & _).
  - intros f Hf. change (ALIGN_UP demo_va PAGE_SIZE) with demo_va in Hf |- *.
    change (range_pages demo_va (demo_va + 0x1000)) with 1%nat in Hf |- *. cbn [uses] in Hf |- *.
    unfold maps_to in Hf |- *. destruct (pte_present (leaf (ram s) 0 demo_va)); [| cbn in Hf; lia].
    rewrite Hpfn in Hf |- *. cbn [andb] in Hf |- *.
    destruct (Nat.eqb_spec q f) as [Hqf | ?]; [| lia]. rewrite <- Hqf.
    split_and!; [done | done | done |]. exists 1. split; [done | lia].
  - exists s, s', F', j, L. split_and!; [exact Heq | exact Hj | | exact HL | apply D].
    rewrite Hleaf. apply has_flag_lor_r. done.
Defined.

Lemma move_user_pages_correct_witness :
  exists s' F' L, move_user_pages 0 demo_va 0x800000 2 demo_machine = Some (s', true) /\
    evolves [0%nat] demo_machine demo_free_set s' F' L /\
    moved [0%nat] (leaf demo_ram) 0 demo_va 0x800000 2 L.
Proof.
  destruct (move_user_pages_correct [0%nat] demo_machine demo_free_set 0 demo_va 0x800000 2 demo_good demo_root)
    as (s' & ok & F' & L & Heq & E & Hok).
  - done.
  - done.
  - unfold user_range, demo_va, PAGE_SIZE. lia.
  - unfold user_range, PAGE_SIZE. lia.
  - intros j k Hj Hk. unfold same_page, page_at, demo_va, PAGE_SIZE.
    rewrite !Z.div_add by lia. change (0x400000 / 4096) with 1024. change (0x800000 / 4096) with 2048. lia.
  - assert (Hs : snd <$> move_user_pages 0 demo_va 0x800000 2 demo_machine = Some true) by (by vm_compute).
    rewrite Heq in Hs. cbn in Hs. injection Hs as ->. exists s', F', L. split; [exact Heq |]. split; [exact E | exact Hok].
Defined.

Lemma lookup_pte_correct_witness : lookup_pte demo_ram 0 demo_va = Some None.
Proof.
  destruct (lookup_pte_correct [0%nat] demo_machine demo_free_set 0 demo_va demo_good demo_root demo_va_user)
    as (res & Heq & Hres).
  destruct res as [[t i] |]; [| exact Heq]. destruct Hres as [_ Hp].
  cbn [ram demo_machine] in Hp. by rewrite (demo_leaf demo_va demo_va_user) in Hp.
Defined.
