(* ===== verification/Mm.v ===== *)
(** * Address-space data (kernel/xcore/mm_types.h)

    The structures shared by the page-table and the mapping-list code:
    shared-memory objects, mapping regions and the flag bits kept in them. *)
From S2P Require Import Prelude.

Definition KMAP_PHYSICAL : Z := 0x80000000.
Definition KMAP_DMA_OWNED : Z := 0x40000000.
Definition KMAP_VMA_OWNER : Z := 0x20000000.
Definition KMAP_SHM_MAYWRITE : Z := 0x10000000.
Definition MAP_SHARED : Z := 0x01.
Definition MAP_FIXED : Z := 0x10.
Definition MAP_FIXED_NOREPLACE : Z := 0x100000.

(** The part of [struct shm] that the mapping code reads: a page list, or a
    contiguous physical range. *)
Record shm := Shm {
  shm_phys : Z;
  shm_npages : Z;
  page_list : option (list Z);
}.

(** [struct mmap_region].  Pointers to reference-counted objects are object
    numbers; [None] is NULL. *)
Record mmap_region := MmapRegion {
  vaddr : Z;
  size : Z;
  phys : Z;
  shm_obj : option nat;
  prot : Z;
  fd : Z;
  offset : Z;
  flags : Z;
  inode : option nat;
  shm_private_src : option nat;
  owner : option nat;
  ra_last_page : Z;
  ra_next_page : Z;
  ra_window_pages : Z;
  ra_sequential_faults : Z;
}.

Definition region_end (r : mmap_region) : Z := u64 (vaddr r + size r).
