(* ===== verification/Cow.v ===== *)
(** * Copy-on-write: fork and write faults

    - [copy_page_table] (kernel/xcore/mem/user_mapping.c): the page tables of
      a forked process, with the writable private pages of both processes
      write-protected and marked copy-on-write.
    - [resolve_cow_fault] and the write-fault part of the page fault handler
      (kernel/xcore/trap.c).

    The invariant [isolated] ties the page tables of all address spaces to
    the reference counts: the count of a private frame is the number of pages
    that map it, and a writable one is mapped once.  The theorems: fork keeps
    the invariant, whether it succeeds or runs out of memory, and a write
    fault keeps it and gives the faulting process its own copy of the page. *)
From S2P Require Import Prelude Bfc PageAlloc PageTable Mm.
Import PageTable.Tree PageTable.Leaf PageTable.Ops.

Section Fork.
Context `{PageAllocator A}.
Context (shms : nat -> option shm) (sig_trampoline_phys : Z) (regions : list mmap_region).

(** The loop over [s->page_list]. *)
Definition in_page_list (leaf_phys : Z) (l : list Z) : bool := existsb (fun p => leaf_phys =? p) l.

(** The test of one region, [None] when [shm_obj] dangles. *)
Definition region_shares (leaf_phys leaf_vaddr : Z) (mr : mmap_region) : option bool :=
  let owner := has_flag (flags mr) KMAP_VMA_OWNER && (vaddr mr <=? leaf_vaddr) && (leaf_vaddr <? region_end mr) in
  in_shm ← match shm_obj mr with
    | None => Some false
    | Some o =>
        s ← shms o;
        Some (match page_list s with
              | Some l => in_page_list leaf_phys l
              | None => negb (shm_phys s =? 0) && (0 <? shm_npages s) && (shm_phys s <=? leaf_phys) &&
                        (leaf_phys <? u64 (shm_phys s + u64 (shm_npages s * PAGE_SIZE)))
              end)
    end;
  let physical := negb (phys mr =? 0) && (phys mr <=? leaf_phys) && (leaf_phys <? u64 (phys mr + size mr)) in
  Some (owner || in_shm || physical).

(** [for (mr = mmap_regions; mr; mr = mr->next) ... if (is_shared) break;] *)
Fixpoint is_shared (leaf_phys leaf_vaddr : Z) (mrs : list mmap_region) : option bool :=
  match mrs with
  | [] => Some false
  | mr :: mrs' =>
      b ← region_shares leaf_phys leaf_vaddr mr;
      if b : bool then Some true else is_shared leaf_phys leaf_vaddr mrs'
  end.

Definition leaf_vaddr (i4 i3 i2 i1 : nat) : Z :=
  Z.lor (Z.shiftl (Z.of_nat i4) 39) (Z.lor (Z.shiftl (Z.of_nat i3) 30)
    (Z.lor (Z.shiftl (Z.of_nat i2) 21) (Z.shiftl (Z.of_nat i1) 12))).

(** The entry that both processes get for a writable private page. *)
Definition cow_pte (pte : Z) : Z :=
  Z.lor (Z.land pte PTE_PHYS_MASK)
    (Z.lor PTE_PRESENT (Z.lor PTE_USER (Z.lor PTE_COW (Z.lor (Z.land pte PTE_NX) (Z.land pte PTE_ACCESSED))))).

(** The body of the innermost loop; the result is an errno, 0 to go on. *)
Definition copy_leaf (src_pt dst_pt i4 i3 i2 i1 : nat) (s : machine A) : option (machine A * Z) :=
  pte ← rd (ram s) src_pt i1;
  if negb (pte_present pte) then Some (s, 0)
  else
    let leaf_phys := Z.land pte PTE_PHYS_MASK in
    if negb (sig_trampoline_phys =? 0) && (leaf_phys =? sig_trampoline_phys) then
      m ← wr dst_pt i1 pte (ram s); Some (Machine (pool s) m, 0)
    else
      sh ← is_shared leaf_phys (leaf_vaddr i4 i3 i2 i1) regions;
      if sh : bool then m ← wr dst_pt i1 pte (ram s); Some (Machine (pool s) m, 0)
      else if (pa_total (pool s) <=? pte_pfn pte)%nat then Some (s, - EFAULT)
      else
        a ← refcount_inc (pte_pfn pte) (pool s);
        if has_flag pte PTE_RW then
          m1 ← wr dst_pt i1 (cow_pte pte) (ram s);
          m2 ← wr src_pt i1 (cow_pte pte) m1;
          Some (Machine a m2, 0)
        else
          m1 ← wr dst_pt i1 pte (ram s);
          Some (Machine a m1, 0).

(** [for (i = first; i < first + n; i++)] with an early return. *)
Fixpoint for_loop (n i : nat) (f : nat -> machine A -> option (machine A * Z)) (s : machine A)
  : option (machine A * Z) :=
  match n with
  | O => Some (s, 0)
  | S n' => '(s', rc) ← f i s; if rc =? 0 then for_loop n' (S i) f s' else Some (s', rc)
  end.

(** The body of the three outer loops: skip an absent entry, share a huge
    page, or give the destination a cleared table and copy into it. *)
Definition copy_entry (huge : bool) (inner : nat -> nat -> nat -> machine A -> option (machine A * Z))
    (src dst i : nat) (s : machine A) : option (machine A * Z) :=
  e ← rd (ram s) src i;
  if negb (has_flag e PTE_PRESENT) then Some (s, 0)
  else if huge && has_flag e PTE_PS then m ← wr dst i e (ram s); Some (Machine (pool s) m, 0)
  else
    '(a, r) ← pa_alloc (pool s);
    match r with
    | None => Some (Machine a (ram s), - ENOMEM)
    | Some q =>
        m1 ← zero_page q (ram s);
        m2 ← wr dst i (Z.lor (page_to_phys q) (Z.land e 0xFFF)) m1;
        inner i (pte_pfn e) q (Machine a m2)
    end.

Definition copy_pt (i4 i3 i2 src_pt dst_pt : nat) : machine A -> option (machine A * Z) :=
  for_loop 512 0 (copy_leaf src_pt dst_pt i4 i3 i2).

Definition copy_pd (i4 i3 src_pd dst_pd : nat) : machine A -> option (machine A * Z) :=
  for_loop 512 0 (copy_entry true (copy_pt i4 i3) src_pd dst_pd).

Definition copy_pdpt (i4 src_pdpt dst_pdpt : nat) : machine A -> option (machine A * Z) :=
  for_loop 512 0 (copy_entry true (copy_pd i4) src_pdpt dst_pdpt).

Definition copy_page_table (src_pml4 dst_pml4 : nat) : machine A -> option (machine A * Z) :=
  for_loop 256 0 (copy_entry false copy_pdpt src_pml4 dst_pml4).

End Fork.

Section Fault.
Context `{PageAllocator A}.

(** [__memcpy(phys_to_virt(new), phys_to_virt(old), PAGE_SIZE)] *)
Definition copy_page (new old : nat) (m : memory) : option memory :=
  l ← m !! old; _ ← m !! new; Some (<[new := l]> m).

(** The new entry: writable, [PTE_NX] and [PTE_ACCESSED] kept. *)
Definition copy_pte (q : nat) (e : Z) : Z :=
  Z.lor (page_to_phys q) (Z.lor PTE_PRESENT (Z.lor PTE_RW (Z.lor PTE_USER
    (Z.lor (Z.land e PTE_NX) (Z.land e PTE_ACCESSED))))).

(** [resolve_cow_fault]; [false] when the task is sent SIGSEGV. *)
Definition resolve_cow_fault (pt i : nat) (s : machine A) : option (machine A * bool) :=
  pte ← rd (ram s) pt i;
  let old_page := pte_pfn pte in
  n ← pa_ref (pool s) old_page;
  if n =? 1 then
    m1 ← wr pt i (Z.lor (clear_flag pte PTE_COW) PTE_RW) (ram s);
    pte1 ← rd m1 pt i;
    m2 ← wr pt i (clear_flag pte1 PTE_DIRTY) m1;
    Some (Machine (pool s) m2, true)
  else
    '(a, r) ← pa_alloc (pool s);
    match r with
    | None => Some (Machine a (ram s), false)
    | Some new_page =>
        m1 ← copy_page new_page old_page (ram s);
        pte1 ← rd m1 pt i;
        m2 ← wr pt i (copy_pte new_page pte1) m1;
        '(a', _) ← refcount_dec_and_test old_page a;
        Some (Machine a' m2, true)
    end.

(** How a write fault on a present page ends: resolved, SIGSEGV, the leaf
    was writable already (a stale translation), or not a copy-on-write
    fault, to be handled further. *)
Inductive fault_result := Resolved | Segv | Stale | Unhandled.

(** The first part of the page fault handler, for a write to a present page. *)
Definition write_fault (cr3 : nat) (fault_addr : Z) (s : machine A) : option (machine A * fault_result) :=
  slot ← lookup_pte (ram s) cr3 fault_addr;
  match slot with
  | None => Some (s, Unhandled)
  | Some (pt, i) =>
      pte ← rd (ram s) pt i;
      if has_flag pte PTE_COW then
        '(s', ok) ← resolve_cow_fault pt i s;
        Some (s', if ok : bool then Resolved else Segv)
      else if has_flag pte PTE_RW then Some (s, Stale)
      else Some (s, Unhandled)
  end.

End Fault.

(** ** Preliminaries: entries above the leaves, and sequences of leaf writes *)

(** Entry [j] of the table at path [p]. *)
Definition upper (m : memory) (r : nat) (p : list nat) (j : nat) : option Z := t ← tbl m r p; rd m t j.

Lemma tbl_snoc_upper m r p j :
  tbl m r (p ++ [j]) = e ← upper m r p j; if has_flag e PTE_PRESENT then Some (pte_pfn e) else None.
Proof.
  rewrite tbl_app. unfold upper. destruct (tbl m r p) as [t |]; [| done]. cbn.
  by destruct (rd m t j) as [e |].
Qed.

Lemma tbl_upper m m' r p : (forall q j, upath (q ++ [j]) -> upper m' r q j = upper m r q j) ->
  upath p -> tbl m' r p = tbl m r p.
Proof.
  intros Hup. induction p as [| j p IH] using rev_ind; intros Hp; [done |].
  by rewrite !tbl_snoc_upper, Hup.
Qed.

(** [m'] comes from [m] by writing leaf entries; the leaves become [L]. *)
Record leaf_writes (roots : list nat) (m m' : memory) (L : nat -> Z -> Z) : Prop := {
  lw_forest : forest m' roots;
  lw_tbl : forall r p, r ∈ roots -> upath p -> tbl m' r p = tbl m r p;
  lw_upper : forall r p j, r ∈ roots -> upath (p ++ [j]) -> upper m' r p j = upper m r p j;
  lw_leaf : forall r va, r ∈ roots -> user_va va -> leaf m' r va = L r va;
  lw_ram : forall j, ~ is_table m roots j -> m' !! j = m !! j;
  lw_dom : forall j, is_Some (m !! j) -> is_Some (m' !! j);
}.

Lemma leaf_write_one m roots r va t v : forest m roots -> r ∈ roots -> user_va va ->
  tbl m r (path va) = Some t ->
  exists m', wr t (pt_idx va) v m = Some m' /\ leaf_writes roots m m' (upd_leaf (leaf m) r va v).
Proof.
  intros Hfo Hr Hu Ht.
  destruct (set_leaf m roots r va t v Hfo Hr Hu Ht) as (m' & Hwr & Hfo' & Htbl & Hset & Hoth & Hram).
  exists m'. split; [done |]. constructor; [done | done | | | done |].
  - intros r' p j Hr' Hp. unfold upper. rewrite Htbl by (try done; by eapply upath_snoc).
    destruct (tbl m r' p) as [t' |] eqn:Ht'; [| done]. cbn.
    assert (t <> t').
    { intros <-. destruct (fo_inj _ _ Hfo _ _ _ _ _ Hr Hr' (path_upath va Hu) (upath_snoc _ _ Hp) Ht Ht')
        as [_ <-]. destruct Hp as [Hlen _]. rewrite length_app in Hlen. cbn in Hlen. lia. }
    unfold wr in Hwr. destruct (m !! t) as [l |]; [| done]. cbn [mbind option_bind] in Hwr.
    destruct (pt_idx va <? length l)%nat; [| done]. injection Hwr as <-. by rewrite rd_insert_ne.
  - intros r' va' Hr' Hu'. unfold upd_leaf. case_bool_decide as Hc; [| by apply Hoth].
    destruct Hc as [-> ?]. rewrite <- Hset. by apply leaf_same_page.
  - intros j Hj. by eapply wr_dom.
Qed.

Lemma leaf_writes_refl roots m : forest m roots -> leaf_writes roots m m (leaf m).
Proof. by constructor. Qed.

Lemma leaf_writes_table roots m m' L : leaf_writes roots m m' L ->
  forall t, is_table m' roots t <-> is_table m roots t.
Proof.
  intros W t. split; intros (r & p & Hr & Hp & Ht); exists r, p; split_and!; try done.
  - by rewrite (lw_tbl _ _ _ _ W) in Ht.
  - by rewrite (lw_tbl _ _ _ _ W).
Qed.

Lemma leaf_writes_trans roots m m1 m2 L1 L2 : leaf_writes roots m m1 L1 -> leaf_writes roots m1 m2 L2 ->
  leaf_writes roots m m2 L2.
Proof.
  intros W1 W2. constructor; [apply W2 | | | apply W2 | |].
  - intros r p Hr Hp. by rewrite (lw_tbl _ _ _ _ W2), (lw_tbl _ _ _ _ W1).
  - intros r p j Hr Hp. by rewrite (lw_upper _ _ _ _ W2), (lw_upper _ _ _ _ W1).
  - intros j Hj. rewrite (lw_ram _ _ _ _ W2), (lw_ram _ _ _ _ W1); [done | done |].
    by rewrite (leaf_writes_table _ _ _ _ W1).
  - intros j Hj. by apply (lw_dom _ _ _ _ W2), (lw_dom _ _ _ _ W1).
Qed.

(** *** Page numbers and indices *)

Definition vpn (i4 i3 i2 i1 : nat) : Z :=
  ((Z.of_nat i4 * 512 + Z.of_nat i3) * 512 + Z.of_nat i2) * 512 + Z.of_nat i1.

Definition va_of (v : Z) : Z := v * PAGE_SIZE.
Definition user_vpn (v : Z) : Prop := 0 <= v < 2 ^ 35.

Lemma va_of_user v : user_vpn v -> user_va (va_of v).
Proof. unfold user_vpn, user_va, va_of, PAGE_SIZE. lia. Qed.

Lemma va_of_same v v' : same_page (va_of v) (va_of v') -> v = v'.
Proof. unfold same_page, va_of, PAGE_SIZE. rewrite !Z.div_mul by lia. done. Qed.

Lemma va_of_div va : user_va va -> user_vpn (va / PAGE_SIZE) /\ same_page va (va_of (va / PAGE_SIZE)).
Proof.
  intros Hu. unfold user_vpn, user_va, same_page, va_of, PAGE_SIZE in *. rewrite Z.div_mul by lia. split; [| done].
  split; [apply Z.div_pos; lia | apply Z.div_lt_upper_bound; lia].
Qed.

Lemma vpn_user i4 i3 i2 i1 : (i4 < 256)%nat -> (i3 < 512)%nat -> (i2 < 512)%nat -> (i1 < 512)%nat ->
  user_vpn (vpn i4 i3 i2 i1).
Proof. unfold user_vpn, vpn. lia. Qed.

Lemma vpn_idx i4 i3 i2 i1 : (i4 < 256)%nat -> (i3 < 512)%nat -> (i2 < 512)%nat -> (i1 < 512)%nat ->
  path (va_of (vpn i4 i3 i2 i1)) = [i4; i3; i2] /\ pt_idx (va_of (vpn i4 i3 i2 i1)) = i1.
Proof.
  intros H4 H3 H2 H1. pose proof (vpn_user i4 i3 i2 i1 H4 H3 H2 H1) as Hu.
  pose proof (vpn_split _ (va_of_user _ Hu)) as Hs. set (va := va_of (vpn i4 i3 i2 i1)) in *.
  replace (va / PAGE_SIZE) with (vpn i4 i3 i2 i1) in Hs
    by (unfold va, va_of, PAGE_SIZE; by rewrite Z.div_mul).
  pose proof (idx_lt va 30 ltac:(lia)) as B3. pose proof (idx_lt va 21 ltac:(lia)) as B2.
  pose proof (idx_lt va 12 ltac:(lia)) as B1. fold (pdpt_idx va) in B3. fold (pd_idx va) in B2. fold (pt_idx va) in B1.
  unfold vpn in Hs. assert (pml4_idx va = i4) by lia. assert (pdpt_idx va = i3) by lia.
  assert (pd_idx va = i2) by lia. assert (pt_idx va = i1) by lia. unfold path. split; congruence.
Qed.

Lemma leaf_vaddr_vpn i4 i3 i2 i1 : (i3 < 512)%nat -> (i2 < 512)%nat -> (i1 < 512)%nat ->
  leaf_vaddr i4 i3 i2 i1 = va_of (vpn i4 i3 i2 i1).
Proof.
  intros H3 H2 H1. unfold leaf_vaddr. rewrite Z.shiftl_mul_pow2 with (n := 12) by lia.
  rewrite (lor_disjoint (Z.of_nat i2) (Z.of_nat i1 * 2 ^ 12) 21) by lia.
  rewrite (lor_disjoint (Z.of_nat i3) _ 30) by lia. rewrite (lor_disjoint (Z.of_nat i4) _ 39) by lia.
  unfold va_of, vpn, PAGE_SIZE. lia.
Qed.

(** ** Fork *)

Section ForkProof.
Context `{PageAllocator A}.
Context (shms : nat -> option shm) (tramp : Z) (regions : list mmap_region).
Context (roots : list nat) (src dst : nat) (s0 : machine A) (F0 : nat -> Prop).

Abbreviation L0 := (leaf (ram s0)).

(** The regions' shared-memory objects exist. *)
Definition shms_ok : Prop := Forall (fun mr => forall o, shm_obj mr = Some o -> is_Some (shms o)) regions.

(** Does the page stay shared: trampoline, shared memory, device memory? *)
Definition shares (pte va : Z) : bool :=
  let ph := Z.land pte PTE_PHYS_MASK in
  (negb (tramp =? 0) && (ph =? tramp)) || default false (is_shared shms ph va regions).

Definition src_pte (v : Z) : Z := L0 src (va_of v).

Definition private (v : Z) : bool := pte_present (src_pte v) && negb (shares (src_pte v) (va_of v)).

(** What fork leaves in the two address spaces for page [v] of the parent. *)
Definition parent_pte (v : Z) : Z :=
  if private v && has_flag (src_pte v) PTE_RW then cow_pte (src_pte v) else src_pte v.
Definition child_pte (v : Z) : Z := if pte_present (src_pte v) then parent_pte v else 0.

(** How many of the pages [vs] map frame [f] privately. *)
Fixpoint copies (vs : list Z) (f : nat) : Z :=
  match vs with
  | [] => 0
  | v :: vs' => (if private v && (pte_pfn (src_pte v) =? f)%nat then 1 else 0) + copies vs' f
  end.

(** The pages [vs] of the parent have been copied. *)
Record copied (s : machine A) (F : nat -> Prop) (vs : list Z) : Prop := {
  cp_good : good roots s F;
  cp_free : forall j, F j -> F0 j;
  cp_src : forall v, user_vpn v -> leaf (ram s) src (va_of v) = if decide (v ∈ vs) then parent_pte v else src_pte v;
  cp_dst : forall v, user_vpn v -> leaf (ram s) dst (va_of v) = if decide (v ∈ vs) then child_pte v else 0;
  cp_oth : forall r va, r ∈ roots -> r <> src -> r <> dst -> user_va va -> leaf (ram s) r va = L0 r va;
  cp_ref : forall j x, ~ F0 j -> pa_ref (pool s0) j = Some x -> pa_ref (pool s) j = Some (x + copies vs j);
  cp_held : forall j, ~ F0 j -> pa_held (pool s0) j -> pa_held (pool s) j;
  cp_ram : forall j, ~ F0 j -> ~ is_table (ram s0) roots j -> ram s !! j = ram s0 !! j;
  cp_tab : forall t, is_table (ram s) roots t -> is_table (ram s0) roots t \/ F0 t;
  cp_upper : forall p j, upath (p ++ [j]) -> upper (ram s) src p j = upper (ram s0) src p j;
}.

(** Everything below page number [B] has been copied, and nothing else. *)
Definition reached (s : machine A) (B : Z) : Prop :=
  exists F vs, copied s F vs /\ NoDup vs /\
    (forall v, v ∈ vs <-> 0 <= v < Z.min B (2 ^ 35) /\ pte_present (src_pte v) = true).

(** The frames of private pages are in use and their counts cannot overflow. *)
Definition refs_ok : Prop := forall v, user_vpn v -> private v = true ->
  let f := pte_pfn (src_pte v) in
  ~ F0 f /\ ~ is_table (ram s0) roots f /\ pa_held (pool s0) f /\
  exists x, pa_ref (pool s0) f = Some x /\ 1 <= x /\
    (forall vs, NoDup vs -> Forall user_vpn vs -> x + copies vs f < 2 ^ 31).

(** No huge pages above the parent's leaves. *)
Definition no_huge : Prop := forall p j e, upath (p ++ [j]) -> upper (ram s0) src p j = Some e ->
  has_flag e PTE_PRESENT = true -> has_flag e PTE_PS = false.

Hypothesis Hshm : shms_ok.
Hypothesis Hsrc : src ∈ roots.
Hypothesis Hdst : dst ∈ roots.
Hypothesis Hne : src <> dst.
Hypothesis Hrefs : refs_ok.
Hypothesis Hhuge : no_huge.

Lemma is_shared_total ph va : exists b, is_shared shms ph va regions = Some b.
Proof.
  unfold shms_ok in Hshm. induction Hshm as [| mr mrs Hmr Hmrs IH]; cbn [is_shared]; [by eexists |].
  assert (Hr : exists b, region_shares shms ph va mr = Some b).
  { unfold region_shares. destruct (shm_obj mr) as [o |]; [| by eexists].
    destruct (Hmr o eq_refl) as [s ->]. by eexists. }
  destruct Hr as [[] ->]; cbn; [by eexists | by apply IH].
Qed.

Lemma shares_spec pte va : exists b, is_shared shms (Z.land pte PTE_PHYS_MASK) va regions = Some b /\
  shares pte va = (negb (tramp =? 0) && (Z.land pte PTE_PHYS_MASK =? tramp)) || b.
Proof.
  destruct (is_shared_total (Z.land pte PTE_PHYS_MASK) va) as [b Hb]. exists b. unfold shares. by rewrite Hb.
Qed.

Lemma decide_cons_ne (v v' : Z) vs (x y : Z) : v' <> v ->
  (if decide (v' ∈ v :: vs) then x else y) = if decide (v' ∈ vs) then x else y.
Proof.
  intros Hv. destruct (decide (v' ∈ vs)) as [Hin | Hin].
  - by rewrite decide_True by (by constructor).
  - rewrite decide_False; [done |]. by intros [? | ?]%elem_of_cons.
Qed.

(** Recording one more page: leaf writes in the two address spaces, and a
    reference for the frame if the page is private. *)
Lemma copied_add s F vs v a m' : copied s F vs -> v ∉ vs -> user_vpn v -> pte_present (src_pte v) = true ->
  pa_rep a F -> pa_total a = pa_total (pool s) ->
  (forall j x, ~ F j -> pa_ref (pool s) j = Some x ->
     pa_ref a j = Some (x + if private v && (pte_pfn (src_pte v) =? j)%nat then 1 else 0)) ->
  (forall j, ~ F j -> pa_held (pool s) j -> pa_held a j) ->
  leaf_writes roots (ram s) m'
    (upd_leaf (upd_leaf (leaf (ram s)) dst (va_of v) (child_pte v)) src (va_of v) (parent_pte v)) ->
  copied (Machine a m') F (v :: vs).
Proof.
  intros C Hv Hu Hpr Hrep Htot Href Hheld W. constructor; cbn [pool ram].
  - pose proof (cp_good _ _ _ C) as Hg. constructor; cbn [pool ram].
    + done.
    + apply W.
    + intros t Ht%(leaf_writes_table _ _ _ _ W). destruct (g_table _ _ _ Hg _ Ht). auto.
    + intros j Hj. apply (lw_dom _ _ _ _ W), (g_ram _ _ _ Hg). by rewrite <- Htot.
    + rewrite Htot. apply (g_total _ _ _ Hg).
  - apply C.
  - intros v' Hu'. rewrite (lw_leaf _ _ _ _ W) by (try done; by apply va_of_user).
    destruct (decide (v' = v)) as [-> | Hvv].
    + rewrite upd_leaf_eq by done. by rewrite decide_True by (by constructor).
    + rewrite upd_leaf_ne by (by intros [_ ?%va_of_same]). rewrite upd_leaf_ne by (by intros [? _]).
      rewrite (cp_src _ _ _ C) by done. by rewrite decide_cons_ne.
  - intros v' Hu'. rewrite (lw_leaf _ _ _ _ W) by (try done; by apply va_of_user).
    rewrite upd_leaf_ne by (by intros [? _]). destruct (decide (v' = v)) as [-> | Hvv].
    + rewrite upd_leaf_eq by done. by rewrite decide_True by (by constructor).
    + rewrite upd_leaf_ne by (by intros [_ ?%va_of_same]).
      rewrite (cp_dst _ _ _ C) by done. by rewrite decide_cons_ne.
  - intros r va Hr Hrs Hrd Hva. rewrite (lw_leaf _ _ _ _ W) by done.
    rewrite !upd_leaf_ne by (by intros [? _]). by apply (cp_oth _ _ _ C).
  - intros j x Hj Hx. rewrite (Href j (x + copies vs j)).
    + cbn [copies]. f_equal. lia.
    + intros Hj'. by apply Hj, (cp_free _ _ _ C).
    + by apply (cp_ref _ _ _ C).
  - intros j Hj Hh. apply Hheld; [intros Hj'; by apply Hj, (cp_free _ _ _ C) |]. by apply (cp_held _ _ _ C).
  - intros j Hj Hnt. rewrite (lw_ram _ _ _ _ W); [by apply (cp_ram _ _ _ C) |].
    intros [? | ?]%(cp_tab _ _ _ C); done.
  - intros t Ht%(leaf_writes_table _ _ _ _ W). by apply (cp_tab _ _ _ C).
  - intros p j Hp. rewrite (lw_upper _ _ _ _ W) by done. by apply (cp_upper _ _ _ C).
Qed.

Lemma leaf_writes_ext m m' L L' : leaf_writes roots m m' L ->
  (forall r va, r ∈ roots -> user_va va -> L r va = L' r va) -> leaf_writes roots m m' L'.
Proof. intros W HL. constructor; try apply W. intros r va Hr Hu. rewrite <- HL by done. by apply W. Qed.

(** Writing the child's entry and, if it changes, the parent's. *)
Lemma write_both m v dt st : forest m roots -> user_vpn v -> tbl m dst (path (va_of v)) = Some dt ->
  tbl m src (path (va_of v)) = Some st -> leaf m src (va_of v) = src_pte v ->
  (exists m1 m2, wr dt (pt_idx (va_of v)) (child_pte v) m = Some m1 /\
     wr st (pt_idx (va_of v)) (parent_pte v) m1 = Some m2 /\
     leaf_writes roots m m2
       (upd_leaf (upd_leaf (leaf m) dst (va_of v) (child_pte v)) src (va_of v) (parent_pte v))) /\
  (parent_pte v = src_pte v -> exists m1, wr dt (pt_idx (va_of v)) (child_pte v) m = Some m1 /\
     leaf_writes roots m m1
       (upd_leaf (upd_leaf (leaf m) dst (va_of v) (child_pte v)) src (va_of v) (parent_pte v))).
Proof.
  intros Hfo Hu Hdt Hst Hleaf. pose proof (va_of_user v Hu) as Hva.
  destruct (leaf_write_one m roots dst (va_of v) dt (child_pte v) Hfo Hdst Hva Hdt) as (m1 & Hm1 & W1).
  split.
  - pose proof (lw_tbl _ _ _ _ W1 src (path (va_of v)) Hsrc (path_upath _ Hva)) as Ht1. rewrite Hst in Ht1.
    destruct (leaf_write_one m1 roots src (va_of v) st (parent_pte v) (lw_forest _ _ _ _ W1) Hsrc Hva Ht1)
      as (m2 & Hm2 & W2).
    exists m1, m2. split_and!; [done | done |]. eapply leaf_writes_ext; [by eapply leaf_writes_trans |].
    intros r va Hr Hu'. apply upd_leaf_ext. by apply W1.
  - intros Hpar. exists m1. split; [done |]. eapply leaf_writes_ext; [exact W1 |].
    intros r va Hr Hu'. unfold upd_leaf at 2. case_bool_decide as Hc; [| done]. destruct Hc as [-> Hs].
    rewrite upd_leaf_ne by (by intros [? _]). rewrite Hpar, <- Hleaf. by apply leaf_same_page.
Qed.

(** One page: what [copy_leaf] needs and gives. *)
Definition tables_same (s s' : machine A) : Prop :=
  forall r p, r ∈ roots -> upath p -> tbl (ram s') r p = tbl (ram s) r p.

Lemma reached_skip s B : reached s B -> pte_present (src_pte B) = false -> reached s (B + 1).
Proof.
  intros (F & vs & C & Hnd & Hvs) Hnp. exists F, vs. split_and!; [done | done |].
  intros v. rewrite Hvs. split; [intros []; split; [lia | done] |]. intros [Hb Hp]. split; [| done].
  destruct (decide (v = B)) as [-> | ?]; [congruence | lia].
Qed.

Lemma reached_add s s' F vs B : copied s F vs -> NoDup vs -> user_vpn B ->
  (forall v, v ∈ vs <-> 0 <= v < Z.min B (2 ^ 35) /\ pte_present (src_pte v) = true) ->
  pte_present (src_pte B) = true -> copied s' F (B :: vs) -> reached s' (B + 1).
Proof.
  intros C Hnd HB Hvs Hpr C'. unfold user_vpn in HB. exists F, (B :: vs). split_and!; [done | |].
  - constructor; [| done]. rewrite Hvs. lia.
  - intros v. rewrite elem_of_cons, Hvs. split.
    + intros [-> | []]; [split; [lia | done] | split; [lia | done]].
    + intros [Hb Hp]. destruct (decide (v = B)); [by left | right]. split; [lia | done].
Qed.

Lemma copies_nonneg vs f : 0 <= copies vs f.
Proof. induction vs as [| v vs IH]; cbn; [lia |]. case_match; lia. Qed.

Lemma copy_leaf_ok s i4 i3 i2 i1 src_pt dst_pt : let v := vpn i4 i3 i2 i1 in
  reached s v -> (i4 < 256)%nat -> (i3 < 512)%nat -> (i2 < 512)%nat -> (i1 < 512)%nat ->
  tbl (ram s) src [i4; i3; i2] = Some src_pt -> tbl (ram s) dst [i4; i3; i2] = Some dst_pt ->
  exists s', copy_leaf shms tramp regions src_pt dst_pt i4 i3 i2 i1 s = Some (s', 0) /\
    reached s' (v + 1) /\ tables_same s s'.
Proof.
  intros v Hre H4 H3 H2 H1 Hst Hdt. pose proof (vpn_user i4 i3 i2 i1 H4 H3 H2 H1) as Hu. fold v in Hu.
  pose proof (va_of_user v Hu) as Hva. destruct (vpn_idx i4 i3 i2 i1 H4 H3 H2 H1) as [Hpath Hidx].
  fold v in Hpath, Hidx. rewrite <- Hpath in Hst, Hdt.
  pose proof Hre as (F & vs & C & Hnd & Hvs). pose proof (cp_good _ _ _ C) as Hg.
  assert (Hv : v ∉ vs) by (rewrite Hvs; lia).
  assert (Hleaf : leaf (ram s) src (va_of v) = src_pte v)
    by (rewrite (cp_src _ _ _ C) by done; by rewrite decide_False).
  assert (Hrd : rd (ram s) src_pt i1 = Some (src_pte v)).
  { rewrite <- Hidx, <- Hleaf. by apply (leaf_rd _ _ _ roots _ (g_forest _ _ _ Hg)). }
  unfold copy_leaf. rewrite Hrd. cbn [mbind option_bind].
  destruct (pte_present (src_pte v)) eqn:Hpr; cbn [negb].
  2:{ exists s. split_and!; [done | by apply reached_skip | done]. }
  destruct (write_both (ram s) v dst_pt src_pt (g_forest _ _ _ Hg) Hu Hdt Hst Hleaf)
    as [(m1 & m2 & Hm1 & Hm2 & W2) Hone].
  destruct (shares_spec (src_pte v) (va_of v)) as (b & Hb & Hsh).
  rewrite leaf_vaddr_vpn by done. fold v. rewrite Hidx in *.
  assert (Hchild : child_pte v = parent_pte v) by (unfold child_pte; by rewrite Hpr).
  assert (Hshare : shares (src_pte v) (va_of v) = true ->
    exists s', (m ← wr dst_pt i1 (src_pte v) (ram s); Some (Machine (pool s) m, 0)) = Some (s', 0) /\
      reached s' (v + 1) /\ tables_same s s').
  { intros Hs. assert (Hpriv : private v = false) by (unfold private; by rewrite Hs, andb_false_r).
    assert (Hpar : parent_pte v = src_pte v) by (unfold parent_pte; by rewrite Hpriv).
    destruct (Hone Hpar) as (m & Hm & W). rewrite Hchild, Hpar in Hm. rewrite Hm. cbn [mbind option_bind].
    exists (Machine (pool s) m). split_and!; [done | | by intros r p Hr Hp; apply (lw_tbl _ _ _ _ W)].
    eapply reached_add; [done | done | apply Hu | done | done |].
    apply (copied_add s F vs v (pool s) m); try done; [apply Hg |].
    intros j x _ Hx. rewrite Hpriv. cbn. rewrite Hx. f_equal. lia. }
  rewrite Hb. cbn [mbind option_bind].
  destruct (negb (tramp =? 0) && (Z.land (src_pte v) PTE_PHYS_MASK =? tramp)) eqn:Htr;
    [apply Hshare; by rewrite Hsh |].
  cbn [orb] in Hsh. destruct b; [by apply Hshare |].
  assert (Hpriv : private v = true) by (unfold private; by rewrite Hpr, Hsh).
  destruct (Hrefs v Hu Hpriv) as (HfF & Hft & Hfh & x & Hx & Hx1 & Hxb).
  set (f := pte_pfn (src_pte v)) in *.
  assert (HfF' : ~ F f) by (intros Hx'; by apply HfF, (cp_free _ _ _ C)).
  pose proof (cp_held _ _ _ C f HfF Hfh) as Hfh'.
  destruct (pa_total (pool s) <=? f)%nat eqn:Htot.
  { apply Nat.leb_le in Htot. pose proof (pa_held_lt _ _ Hfh'). lia. }
  assert (Hbound : x + copies vs f + 1 < 2 ^ 31).
  { assert (Hall : Forall user_vpn vs).
    { apply Forall_forall. intros v' [Hv' _]%Hvs. unfold user_vpn in *. lia. }
    specialize (Hxb (v :: vs) ltac:(by constructor) ltac:(by constructor)). cbn [copies] in Hxb.
    rewrite Hpriv in Hxb. fold f in Hxb. rewrite Nat.eqb_refl in Hxb. cbn in Hxb. lia. }
  pose proof (copies_nonneg vs f) as Hnn.
  unfold refcount_inc. rewrite (cp_ref _ _ _ C f x HfF Hx). cbn [mbind option_bind].
  assert (Hs32 : s32 (x + copies vs f + 1) = x + copies vs f + 1) by (unfold s32; rewrite Z.mod_small; lia).
  rewrite Hs32. replace (x + copies vs f + 1 <=? 1) with false by (symmetry; apply Z.leb_gt; lia).
  destruct (pa_set_ref_ok (pool s) F f (x + copies vs f + 1) (g_pool _ _ _ Hg) Hfh')
    as (a & -> & Htota & Hrepa & Hrefa & Hotha & Helda). cbn [mbind option_bind].
  assert (Hadd : forall m', leaf_writes roots (ram s) m'
      (upd_leaf (upd_leaf (leaf (ram s)) dst (va_of v) (child_pte v)) src (va_of v) (parent_pte v)) ->
    reached (Machine a m') (v + 1) /\ tables_same s (Machine a m')).
  { intros m' W. split; [| by intros r p Hr Hp; apply (lw_tbl _ _ _ _ W)]. eapply reached_add; [done | done | apply Hu | done | done |].
    apply (copied_add s F vs v a m'); try done; [| by intros; apply Helda].
    intros j y Hj Hy. rewrite Hpriv. fold f. destruct (Nat.eqb_spec f j) as [<- | Hfj]; cbn.
    - rewrite Hrefa. rewrite (cp_ref _ _ _ C f x HfF Hx) in Hy. injection Hy as <-. done.
    - rewrite Hotha by congruence. rewrite Hy. f_equal. lia. }
  destruct (has_flag (src_pte v) PTE_RW) eqn:Hrw.
  - assert (Hpar : parent_pte v = cow_pte (src_pte v)) by (unfold parent_pte; by rewrite Hpriv, Hrw).
    rewrite Hchild, Hpar in Hm1. rewrite Hpar in Hm2. rewrite Hm1. cbn [mbind option_bind].
    rewrite Hm2. cbn [mbind option_bind]. exists (Machine a m2). split; [done |]. by apply Hadd.
  - assert (Hpar : parent_pte v = src_pte v) by (unfold parent_pte; by rewrite Hrw, andb_false_r).
    destruct (Hone Hpar) as (m & Hm & W). rewrite Hchild, Hpar in Hm. rewrite Hm. cbn [mbind option_bind].
    exists (Machine a m). split; [done |]. by apply Hadd.
Qed.

Lemma reached_tbl s B p : reached s B -> upath p -> tbl (ram s) src p = tbl (ram s0) src p.
Proof. intros (F & vs & C & _) Hp. apply tbl_upper; [| done]. apply (cp_upper _ _ _ C). Qed.

Lemma reached_skip_range s B B' : reached s B -> B <= B' ->
  (forall v, B <= v < B' -> pte_present (src_pte v) = false) -> reached s B'.
Proof.
  intros (F & vs & C & Hnd & Hvs) HB Hnp. exists F, vs. split_and!; [done | done |].
  intros v. rewrite Hvs. split; [intros []; split; [lia | done] |]. intros [Hb Hp]. split; [| done].
  destruct (decide (v < B)); [lia |]. rewrite Hnp in Hp; [done | lia].
Qed.

(** The first page number below a path, and how many there are. *)
Definition lo (p : list nat) : Z :=
  match p with
  | [] => 0
  | [a] => vpn a 0 0 0
  | [a; b] => vpn a b 0 0
  | a :: b :: c :: _ => vpn a b c 0
  end.

Definition span (k : nat) : Z :=
  match k with O => 2 ^ 36 | 1%nat => 2 ^ 27 | 2%nat => 2 ^ 18 | _ => 2 ^ 9 end.

Lemma lo_snoc p i : (length p < 3)%nat -> lo (p ++ [i]) = lo p + Z.of_nat i * span (S (length p)).
Proof. destruct p as [| a [| b [| c p]]]; cbn [app lo length span]; unfold vpn; lia. Qed.

Lemma path_below p v : upath p -> p <> [] -> user_vpn v -> lo p <= v < lo p + span (length p) ->
  exists rest, path (va_of v) = p ++ rest.
Proof.
  intros (Hlen & Hlt & _) Hne' Hu Hv. pose proof (va_of_user v Hu) as Hva.
  pose proof (vpn_split _ Hva) as Hs. set (va := va_of v) in *.
  replace (va / PAGE_SIZE) with v in Hs by (unfold va, va_of, PAGE_SIZE; by rewrite Z.div_mul).
  pose proof (idx_lt va 30 ltac:(lia)) as B3. pose proof (idx_lt va 21 ltac:(lia)) as B2.
  pose proof (idx_lt va 12 ltac:(lia)) as B1. fold (pdpt_idx va) in B3. fold (pd_idx va) in B2. fold (pt_idx va) in B1.
  unfold path. destruct p as [| a [| b [| c [| d p]]]]; [done | | | | cbn in Hlen; lia];
    cbn [lo length span] in Hv; unfold vpn in Hv; rewrite !Forall_cons in Hlt.
  - exists [pdpt_idx va; pd_idx va]. cbn. repeat f_equal. lia.
  - exists [pd_idx va]. cbn. assert (pml4_idx va = a) by lia. repeat f_equal; lia.
  - exists []. cbn. assert (pml4_idx va = a) by lia. assert (pdpt_idx va = b) by lia. repeat f_equal; lia.
Qed.

Lemma below_user p v : upath p -> p <> [] -> lo p <= v < lo p + span (length p) -> user_vpn v.
Proof.
  intros (Hlen & Hlt & Hh) Hne' Hv. unfold user_vpn.
  destruct p as [| a [| b [| c [| d p]]]]; [done | | | | cbn in Hlen; lia];
    cbn [lo length span] in Hv; unfold vpn in Hv; rewrite !Forall_cons in Hlt; specialize (Hh a eq_refl); lia.
Qed.

Lemma absent_below p v : upath p -> p <> [] -> user_vpn v -> lo p <= v < lo p + span (length p) ->
  tbl (ram s0) src p = None -> src_pte v = 0.
Proof.
  intros Hp Hne' Hu Hv Hn. destruct (path_below p v Hp Hne' Hu Hv) as [rest Hpath].
  unfold src_pte, leaf. by rewrite Hpath, tbl_app, Hn.
Qed.

(** Giving the child a new table. *)
Lemma copied_link s F vs p i t l e0 ev a q : copied s F vs -> upath (p ++ [i]) ->
  tbl (ram s) dst p = Some t -> ram s !! t = Some l -> length l = 512%nat ->
  l !! i = Some e0 -> has_flag e0 PTE_PRESENT = false ->
  has_flag ev PTE_PRESENT = true -> pte_pfn ev = q ->
  F q -> pa_rep a (fun j => F j /\ j <> q) -> pa_held a q ->
  (forall j, ~ F j -> pa_ref a j = pa_ref (pool s) j) ->
  (forall j, ~ F j -> pa_held (pool s) j -> pa_held a j) -> pa_total a = pa_total (pool s) ->
  copied (Machine a (linked s i t l ev q)) (fun j => F j /\ j <> q) vs.
Proof.
  intros C Hpi Ht Hl Hlen He0 Hnp Hev Hpfn HFq Hrep Hheld Href Hhk Htot.
  pose proof (cp_good _ _ _ C) as Hg.
  pose proof (link_table roots s F dst p i t l e0 ev a q Hg Hdst Hpi Ht Hl Hlen He0 Hnp Hev Hpfn HFq
                Hrep Hheld Href Hhk Htot) as E.
  pose proof (link_fresh roots s F q Hg HFq) as Hqn.
  assert (HF : forall j, ~ F0 j -> ~ F j) by (intros j Hj Hj'; by apply Hj, (cp_free _ _ _ C)).
  constructor.
  - apply E.
  - intros j Hj. apply (cp_free _ _ _ C). by apply E.
  - intros v Hu. rewrite (ev_leaf _ _ _ _ _ _ E) by (try done; by apply va_of_user). by apply (cp_src _ _ _ C).
  - intros v Hu. rewrite (ev_leaf _ _ _ _ _ _ E) by (try done; by apply va_of_user). by apply (cp_dst _ _ _ C).
  - intros r va Hr Hrs Hrd Hu. rewrite (ev_leaf _ _ _ _ _ _ E) by done. by apply (cp_oth _ _ _ C).
  - intros j x Hj Hx. rewrite (ev_ref _ _ _ _ _ _ E) by auto. by apply (cp_ref _ _ _ C).
  - intros j Hj Hh. apply (ev_held _ _ _ _ _ _ E); [auto |]. by apply (cp_held _ _ _ C).
  - intros j Hj Hnt. rewrite (ev_ram _ _ _ _ _ _ E); [by apply (cp_ram _ _ _ C) | auto |].
    intros [? | ?]%(cp_tab _ _ _ C); done.
  - intros t' [Ht' | [Hf _]]%(ev_new _ _ _ _ _ _ E); [by apply (cp_tab _ _ _ C) | right].
    by apply (cp_free _ _ _ C).
  - intros p' j Hp'. rewrite <- (cp_upper _ _ _ C) by done. unfold upper. cbn [ram].
    pose proof (upath_snoc _ _ Hp') as Hp''.
    rewrite (link_tbl roots s F dst p i t l e0 ev q) by done.
    rewrite bool_decide_eq_false_2 by (by intros [? _]).
    destruct (tbl (ram s) src p') as [t' |] eqn:Ht'; [| done]. cbn. unfold linked.
    rewrite !rd_insert_ne; [done | |].
    + intros ->. apply Hqn. by exists src, p'.
    + intros <-. by destruct (fo_inj _ _ (g_forest _ _ _ Hg) _ _ _ _ _ Hdst Hsrc (upath_snoc _ _ Hpi) Hp'' Ht Ht').
Qed.

Definition below (p q : list nat) : Prop := exists j q', q = p ++ j :: q'.

Definition under (p : list nat) (i : nat) (q : list nat) : Prop := exists q', q = p ++ i :: q'.

Lemma under_below p i q : under p i q -> below p q.
Proof. intros (q' & ->). by exists i, q'. Qed.

Lemma below_under p i q : below (p ++ [i]) q -> under p i q.
Proof. intros (j & q' & ->). exists (j :: q'). by rewrite <- app_assoc. Qed.

Lemma under_snoc p i : under p i (p ++ [i]).
Proof. by exists []. Qed.

Lemma under_inj p i j q : under p i q -> under p j q -> i = j.
Proof. intros (q' & ->) (r & Hx%app_inv_head). by injection Hx. Qed.

(** Copying everything below a path. *)
Definition copies_below (p : list nat) (inner : nat -> nat -> machine A -> option (machine A * Z)) : Prop :=
  forall s st dt, reached s (lo p) -> tbl (ram s) src p = Some st -> tbl (ram s) dst p = Some dt ->
    (forall q, upath q -> below p q -> tbl (ram s) dst q = None) ->
    exists s' rc, inner st dt s = Some (s', rc) /\
      if rc =? 0
      then reached s' (lo p + span (length p)) /\
           (forall q, upath q -> ~ below p q -> tbl (ram s') dst q = tbl (ram s) dst q)
      else exists B, reached s' B.

Lemma for_loop_ok (I : nat -> machine A -> Prop) (E : machine A -> Prop) f n : forall i s,
  I i s -> (forall j s, (i <= j < i + n)%nat -> I j s ->
    exists s' rc, f j s = Some (s', rc) /\ if rc =? 0 then I (S j) s' else E s') ->
  exists s' rc, for_loop n i f s = Some (s', rc) /\ if rc =? 0 then I (i + n)%nat s' else E s'.
Proof.
  induction n as [| n IH]; intros i s Hi Hstep; cbn [for_loop].
  - exists s, 0. split; [done |]. by rewrite Nat.add_0_r.
  - destruct (Hstep i s ltac:(lia) Hi) as (s1 & rc & -> & H1). cbn [mbind option_bind].
    destruct (rc =? 0) eqn:Hrc; [| exists s1, rc; by rewrite Hrc].
    rewrite <- Nat.add_succ_comm. apply IH; [done |]. intros j s' Hj. apply Hstep. lia.
Qed.

Lemma copy_pt_ok i4 i3 i2 : upath [i4; i3; i2] ->
  copies_below [i4; i3; i2] (copy_pt shms tramp regions i4 i3 i2).
Proof.
  intros Hp s st dt Hre Hst Hdt _.
  assert (Hlt : (i4 < 256 /\ i3 < 512 /\ i2 < 512)%nat).
  { destruct Hp as (_ & Hall & Hh). rewrite !Forall_cons in Hall. specialize (Hh i4 eq_refl). naive_solver. }
  destruct Hlt as (H4 & H3 & H2).
  destruct (for_loop_ok (fun i s' => reached s' (vpn i4 i3 i2 i) /\ tables_same s s') (fun _ => False)
              (copy_leaf shms tramp regions st dt i4 i3 i2) 512 0 s) as (s' & rc & Heq & Hrc).
  - by split.
  - intros i s1 Hi [Hre1 Hts].
    destruct (copy_leaf_ok s1 i4 i3 i2 i st dt Hre1 H4 H3 H2 ltac:(lia)) as (s2 & -> & Hre2 & Hts2).
    + by rewrite Hts.
    + by rewrite Hts.
    + exists s2, 0. split; [done |]. cbn. split.
      * replace (vpn i4 i3 i2 (S i)) with (vpn i4 i3 i2 i + 1) by (unfold vpn; lia). done.
      * intros r p Hr Hp'. by rewrite Hts2, Hts.
  - exists s', rc. split; [done |]. destruct (rc =? 0); [| done]. destruct Hrc as [Hre' Hts]. split.
    + cbn [lo length span]. replace (vpn i4 i3 i2 0 + 2 ^ 9) with (vpn i4 i3 i2 (0 + 512)) by (unfold vpn; lia). done.
    + intros q Hq _. by apply Hts.
Qed.

Lemma child_entry q e : Z.of_nat q < 2 ^ 40 -> has_flag e PTE_PRESENT = true ->
  pte_pfn (Z.lor (page_to_phys q) (Z.land e 0xFFF)) = q /\
  has_flag (Z.lor (page_to_phys q) (Z.land e 0xFFF)) PTE_PRESENT = true.
Proof.
  intros Hq He. split.
  - apply pfn_of_page; [done |]. rewrite <- Z.land_assoc. change (Z.land 0xFFF PTE_PHYS_MASK) with 0. apply Z.land_0_r.
  - apply has_flag_lor_r. unfold has_flag in *. rewrite <- Z.land_assoc.
    by change (Z.land 0xFFF PTE_PRESENT) with PTE_PRESENT.
Qed.

(** One entry of an upper table. *)
Lemma copy_entry_ok huge inner p i s st dt : (length p < 3)%nat -> upath (p ++ [i]) ->
  copies_below (p ++ [i]) (inner i) ->
  reached s (lo (p ++ [i])) -> tbl (ram s) src p = Some st -> tbl (ram s) dst p = Some dt ->
  (forall q, upath q -> under p i q -> tbl (ram s) dst q = None) ->
  exists s' rc, copy_entry huge inner st dt i s = Some (s', rc) /\
    if rc =? 0
    then reached s' (lo (p ++ [i]) + span (S (length p))) /\
         (forall q, upath q -> ~ under p i q -> tbl (ram s') dst q = tbl (ram s) dst q)
    else exists B, reached s' B.
Proof.
  intros Hlen Hpi Hinner Hre Hst Hdt Hfresh. pose proof (upath_snoc _ _ Hpi) as Hp.
  assert (Hi : (i < 512)%nat) by (by eapply upath_snoc_lt).
  assert (Hlen' : length (p ++ [i]) = S (length p)) by (rewrite length_app; cbn; lia).
  pose proof Hre as (F & vs & C & Hnd & Hvs). pose proof (cp_good _ _ _ C) as Hg.
  assert (Hup : upper (ram s) src p i = rd (ram s) st i) by (unfold upper; by rewrite Hst).
  destruct (fo_page _ _ (g_forest _ _ _ Hg) _ _ _ Hsrc Hp Hst) as (ls & Hls & Hlls).
  destruct (lookup_lt_is_Some_2 ls i) as [e He]; [lia |].
  assert (Hrd : rd (ram s) st i = Some e) by (unfold rd; by rewrite Hls).
  unfold copy_entry. rewrite Hrd. cbn [mbind option_bind].
  rewrite Hrd, (cp_upper _ _ _ C) in Hup by done.
  destruct (has_flag e PTE_PRESENT) eqn:Hpr; cbn [negb].
  2:{ exists s, 0. split; [done |]. change (0 =? 0) with true. cbv iota. split; [| done].
      eapply reached_skip_range; [exact Hre | destruct (length p) as [| [| [|]]]; cbn [span]; lia |].
      intros v Hv. rewrite <- Hlen' in Hv. assert (Hpne : p ++ [i] <> []) by (by destruct p).
      rewrite (absent_below (p ++ [i]) v Hpi Hpne (below_user _ _ Hpi Hpne Hv) Hv); [done |].
      rewrite tbl_snoc_upper, Hup. cbn. by rewrite Hpr. }
  rewrite (Hhuge p i e Hpi Hup Hpr), andb_false_r.
  destruct (pa_alloc_ok _ _ (g_pool _ _ _ Hg)) as (a & res & -> & Htot & Hres). cbn [mbind option_bind].
  destruct res as [q |].
  2:{ destruct Hres as [-> _]. exists (Machine (pool s) (ram s)), (- ENOMEM). split; [done |]. cbn.
      exists (lo (p ++ [i])). by destruct s. }
  destruct Hres as (HFq & Hrep & Hheld & _ & Href & Hhk).
  destruct (g_ram _ _ _ Hg q (pa_free_lt _ _ _ (g_pool _ _ _ Hg) HFq)) as [lq Hlq].
  assert (Hq40 : Z.of_nat q < 2 ^ 40).
  { pose proof (pa_free_lt _ _ _ (g_pool _ _ _ Hg) HFq). pose proof (g_total _ _ _ Hg). lia. }
  destruct (child_entry q e Hq40 Hpr) as [Hpfn Hev]. set (ev := Z.lor (page_to_phys q) (Z.land e 0xFFF)) in *.
  destruct (fo_page _ _ (g_forest _ _ _ Hg) _ _ _ Hdst Hp Hdt) as (ld & Hld & Hlld).
  destruct (lookup_lt_is_Some_2 ld i) as [e0 He0]; [lia |].
  assert (Hnp : has_flag e0 PTE_PRESENT = false).
  { pose proof (Hfresh (p ++ [i]) Hpi (under_snoc p i)) as Hn. rewrite tbl_snoc_upper in Hn.
    unfold upper, rd in Hn. rewrite Hdt in Hn. cbn in Hn. rewrite Hld in Hn. cbn in Hn. rewrite He0 in Hn. cbn in Hn.
    by destruct (has_flag e0 PTE_PRESENT). }
  pose proof (link_ne roots s F dst p i dt q Hg Hdst Hpi Hdt HFq) as Hdq.
  unfold zero_page. rewrite Hlq. cbn [mbind option_bind].
  rewrite (wr_ok _ dt i _ ld) by (try lia; by rewrite lookup_insert_ne). cbn [mbind option_bind].
  pose proof (copied_link s F vs p i dt ld e0 ev a q C Hpi Hdt Hld Hlld He0 Hnp Hev Hpfn HFq Hrep Hheld Href Hhk Htot)
    as C1. fold (linked s i dt ld ev q).
  pose proof (link_tbl roots s F dst p i dt ld e0 ev q Hg Hdst Hpi Hdt Hld Hlld He0 Hnp Hev Hpfn HFq) as Htbl.
  assert (Hre1 : reached (Machine a (linked s i dt ld ev q)) (lo (p ++ [i]))) by (by do 2 eexists).
  destruct (Hinner (Machine a (linked s i dt ld ev q)) (pte_pfn e) q Hre1) as (s' & rc & -> & Hrc).
  - rewrite (reached_tbl _ _ _ Hre1 Hpi), tbl_snoc_upper, Hup. cbn. by rewrite Hpr.
  - cbn [ram]. rewrite Htbl by done. by rewrite bool_decide_eq_true_2.
  - intros q' Hq' Hb. cbn [ram]. rewrite Htbl by done. rewrite bool_decide_eq_false_2.
    + apply Hfresh; [done | by apply below_under].
    + intros [_ ->]. destruct Hb as (j & r & Hx%(f_equal length)).
      rewrite (length_app (p ++ [i])) in Hx. cbn [length] in Hx. lia.
  - exists s', rc. split; [done |]. destruct (rc =? 0); [| done]. destruct Hrc as [Hre' Hfr]. split.
    + by rewrite Hlen' in Hre'.
    + intros q' Hq' Hnb. rewrite Hfr; [| done | by intros ?%below_under]. cbn [ram]. rewrite Htbl by done.
      rewrite bool_decide_eq_false_2; [done |]. intros [_ ->]. apply Hnb, under_snoc.
Qed.

(** A whole table. *)
Lemma copy_level_ok huge inner p n : (length p < 3)%nat -> upath p ->
  (n = if (length p =? 0)%nat then 256 else 512)%nat ->
  (forall i, upath (p ++ [i]) -> copies_below (p ++ [i]) (inner i)) ->
  forall s st dt, reached s (lo p) -> tbl (ram s) src p = Some st -> tbl (ram s) dst p = Some dt ->
    (forall q, upath q -> below p q -> tbl (ram s) dst q = None) ->
    exists s' rc, for_loop n 0 (copy_entry huge inner st dt) s = Some (s', rc) /\
      if rc =? 0
      then reached s' (lo p + Z.of_nat n * span (S (length p))) /\
           (forall q, upath q -> ~ below p q -> tbl (ram s') dst q = tbl (ram s) dst q)
      else exists B, reached s' B.
Proof.
  intros Hlen Hp Hn Hinner s st dt Hre Hst Hdt Hfresh.
  assert (Hup : forall i, (i < n)%nat -> upath (p ++ [i])).
  { intros i Hi. destruct Hp as (Hl & Hall & Hh). split_and!.
    - rewrite length_app. cbn. lia.
    - apply Forall_app. split; [done |]. apply Forall_singleton. destruct p; cbn in Hn; lia.
    - intros j Hj. destruct p as [| a p]; cbn in *; [injection Hj as <-; lia | by apply Hh]. }
  destruct (for_loop_ok
    (fun i s' => reached s' (lo p + Z.of_nat i * span (S (length p))) /\
       (forall q, upath q -> ~ below p q -> tbl (ram s') dst q = tbl (ram s) dst q) /\
       (forall q j, upath q -> (i <= j)%nat -> under p j q -> tbl (ram s') dst q = None))
    (fun s' => exists B, reached s' B) (copy_entry huge inner st dt) n 0 s) as (s' & rc & Heq & Hrc).
  - split_and!.
    + by rewrite Z.mul_0_l, Z.add_0_r.
    + done.
    + intros q j Hq _ Hb. apply Hfresh; [done |]. by eapply under_below.
  - intros i s1 Hi (Hre1 & Hfr1 & Hno1). pose proof (Hup i ltac:(lia)) as Hpi.
    assert (Hnb : ~ below p p) by (intros (j & q & Hx%(f_equal length)); rewrite length_app in Hx; cbn in Hx; lia).
    destruct (copy_entry_ok huge inner p i s1 st dt Hlen Hpi (Hinner i Hpi)) as (s2 & rc & -> & Hrc).
    + by rewrite lo_snoc.
    + by rewrite (reached_tbl _ _ _ Hre1 Hp), <- (reached_tbl _ _ _ Hre Hp).
    + by rewrite Hfr1.
    + intros q Hq Hb. by eapply Hno1.
    + exists s2, rc. split; [done |]. destruct (rc =? 0); [| done]. destruct Hrc as [Hre2 Hfr2].
      rewrite lo_snoc in Hre2 by done. split_and!.
      * replace (lo p + Z.of_nat (S i) * span (S (length p)))
          with (lo p + Z.of_nat i * span (S (length p)) + span (S (length p))) by lia. done.
      * intros q Hq Hb. rewrite Hfr2; [by apply Hfr1 | done |]. by intros ?%under_below.
      * intros q j Hq Hj Hb. rewrite Hfr2; [eapply Hno1; [done | | done]; lia | done |].
        intros Hb'. pose proof (under_inj _ _ _ _ Hb Hb'). lia.
  - exists s', rc. split; [done |]. destruct (rc =? 0); [| done]. by destruct Hrc as (? & ? & _).
Qed.

(** The child's half of the user address space is empty. *)
Definition dst_empty : Prop := forall q, upath q -> q <> [] -> tbl (ram s0) dst q = None.

Lemma fork_ok : good roots s0 F0 -> dst_empty ->
  exists s' rc, copy_page_table shms tramp regions src dst s0 = Some (s', rc) /\
    if rc =? 0
    then exists F vs, copied s' F vs /\ NoDup vs /\
           (forall v, v ∈ vs <-> user_vpn v /\ pte_present (src_pte v) = true)
    else exists B, reached s' B.
Proof.
  intros Hg Hempty.
  assert (Hbelow : forall p q, upath q -> below p q -> tbl (ram s0) dst q = None).
  { intros p q Hq (j & r & ->). apply Hempty; [done | by destruct p]. }
  assert (Hre : reached s0 0).
  { exists F0, []. split_and!; [| constructor | intros v; rewrite elem_of_nil; lia].
    constructor; try done.
    - intros v Hu. pose proof (path_upath _ (va_of_user v Hu)). unfold leaf. by rewrite Hempty.
    - intros j x _ Hx. cbn. rewrite Hx. f_equal. lia.
    - by left. }
  assert (Hpd : forall i4 i3, upath [i4; i3] -> copies_below [i4; i3] (copy_pd shms tramp regions i4 i3)).
  { intros i4 i3 Hp s st dt H1 H2 H3 H4'. apply (copy_level_ok true _ [i4; i3] 512); try done; [cbn; lia |].
    intros i Hi. by apply copy_pt_ok. }
  assert (Hpdpt : forall i4, upath [i4] -> copies_below [i4] (copy_pdpt shms tramp regions i4)).
  { intros i4 Hp s st dt H1 H2 H3 H4'. apply (copy_level_ok true _ [i4] 512); try done; [cbn; lia |].
    intros i Hi. by apply Hpd. }
  assert (Hroot : upath []) by (split_and!; [cbn; lia | constructor | done]).
  destruct (copy_level_ok false (copy_pdpt shms tramp regions) [] 256 ltac:(cbn; lia) Hroot eq_refl
    Hpdpt s0 src dst Hre eq_refl eq_refl (Hbelow [])) as (s' & rc & Heq & Hrc).
  exists s', rc. split; [exact Heq |]. destruct (rc =? 0); [| done].
  destruct Hrc as [(F & vs & C & Hnd & Hvs) _]. by exists F, vs.
Qed.

End ForkProof.

(** *** Entries *)

Lemma cow_pte_phys e : Z.land (cow_pte e) PTE_PHYS_MASK = Z.land e PTE_PHYS_MASK.
Proof.
  unfold cow_pte. rewrite !Z.land_lor_distr_l, <- !Z.land_assoc.
  change (Z.land PTE_PHYS_MASK PTE_PHYS_MASK) with PTE_PHYS_MASK.
  change (Z.land PTE_PRESENT PTE_PHYS_MASK) with 0. change (Z.land PTE_USER PTE_PHYS_MASK) with 0.
  change (Z.land PTE_COW PTE_PHYS_MASK) with 0. change (Z.land PTE_NX PTE_PHYS_MASK) with 0.
  change (Z.land PTE_ACCESSED PTE_PHYS_MASK) with 0. by rewrite !Z.land_0_r, !Z.lor_0_r.
Qed.

Lemma cow_pte_pfn e : pte_pfn (cow_pte e) = pte_pfn e.
Proof. unfold pte_pfn. by rewrite cow_pte_phys. Qed.

Lemma cow_pte_present e : pte_present (cow_pte e) = true.
Proof.
  unfold pte_present, cow_pte. apply has_flag_lor_r. unfold has_flag. rewrite negb_true_iff, Z.eqb_neq.
  rewrite Z.land_lor_distr_l. intros [? _]%Z.lor_eq_0_iff. done.
Qed.

Lemma cow_pte_ro e : has_flag (cow_pte e) PTE_RW = false.
Proof.
  unfold has_flag, cow_pte. rewrite !Z.land_lor_distr_l, <- !Z.land_assoc.
  change (Z.land PTE_PHYS_MASK PTE_RW) with 0. change (Z.land PTE_PRESENT PTE_RW) with 0.
  change (Z.land PTE_USER PTE_RW) with 0. change (Z.land PTE_COW PTE_RW) with 0.
  change (Z.land PTE_NX PTE_RW) with 0. change (Z.land PTE_ACCESSED PTE_RW) with 0.
  by rewrite !Z.land_0_r.
Qed.

(** The entry of a page that has become the faulting process's own. *)
Definition owned_pte (e : Z) : Z := clear_flag (Z.lor (clear_flag e PTE_COW) PTE_RW) PTE_DIRTY.

Lemma owned_pte_land e M : Z.land (Z.lnot PTE_COW) M = M -> Z.land (Z.lnot PTE_DIRTY) M = M ->
  Z.land PTE_RW M = 0 -> Z.land (owned_pte e) M = Z.land e M.
Proof.
  intros H1 H2 H3. unfold owned_pte, clear_flag.
  rewrite !Z.ldiff_land, <- Z.land_assoc, H2, Z.land_lor_distr_l, H3, Z.lor_0_r, <- Z.land_assoc, H1. done.
Qed.

Lemma owned_pte_spec e : pte_pfn (owned_pte e) = pte_pfn e /\ pte_present (owned_pte e) = pte_present e /\
  has_flag (owned_pte e) PTE_RW = true /\ has_flag (owned_pte e) PTE_COW = false.
Proof.
  split_and!.
  - unfold pte_pfn. by rewrite owned_pte_land.
  - unfold pte_present, has_flag. by rewrite owned_pte_land.
  - unfold has_flag, owned_pte, clear_flag. rewrite Z.ldiff_land, <- Z.land_assoc.
    change (Z.land (Z.lnot PTE_DIRTY) PTE_RW) with PTE_RW. rewrite Z.land_lor_distr_l.
    apply negb_true_iff, Z.eqb_neq. by intros [_ ?]%Z.lor_eq_0_iff.
  - unfold has_flag, owned_pte, clear_flag. rewrite !Z.ldiff_land, <- Z.land_assoc.
    change (Z.land (Z.lnot PTE_DIRTY) PTE_COW) with PTE_COW.
    rewrite Z.land_lor_distr_l, <- Z.land_assoc. change (Z.land (Z.lnot PTE_COW) PTE_COW) with 0.
    by rewrite Z.land_0_r.
Qed.

Lemma land_flags a b M : Z.land b M = 0 -> Z.land (Z.land a b) M = 0.
Proof. intros Hb. by rewrite <- Z.land_assoc, Hb, Z.land_0_r. Qed.

Lemma copy_pte_spec q e : Z.of_nat q < 2 ^ 40 -> pte_pfn (copy_pte q e) = q /\ pte_present (copy_pte q e) = true /\
  has_flag (copy_pte q e) PTE_RW = true /\ has_flag (copy_pte q e) PTE_COW = false.
Proof.
  intros Hq. unfold copy_pte. split_and!.
  - apply pfn_of_page; [done |]. rewrite !Z.land_lor_distr_l, !land_flags by done. done.
  - apply has_flag_lor_r. unfold has_flag. rewrite negb_true_iff, Z.eqb_neq, Z.land_lor_distr_l.
    by intros [? _]%Z.lor_eq_0_iff.
  - apply has_flag_lor_r, has_flag_lor_r. unfold has_flag. rewrite negb_true_iff, Z.eqb_neq, Z.land_lor_distr_l.
    by intros [? _]%Z.lor_eq_0_iff.
  - unfold has_flag. rewrite !Z.land_lor_distr_l, !land_flags by done.
    rewrite negb_false_iff, Z.eqb_eq. change (Z.lor (Z.land (page_to_phys q) PTE_COW) 0 = 0).
    rewrite Z.lor_0_r. unfold page_to_phys.
    replace (Z.of_nat q * PAGE_SIZE) with (Z.shiftl (Z.of_nat q) 12) by (rewrite Z.shiftl_mul_pow2; [done | lia]).
    change (Z.land (Z.shiftl (Z.of_nat q) 12) (2 ^ 9) = 0).
    apply Z.bits_inj'. intros n Hn. rewrite Z.land_spec, Z.bits_0. destruct (decide (n = 9)) as [-> | ?].
    + by rewrite Z.shiftl_spec_low.
    + rewrite Z.pow2_bits_false by lia. apply andb_false_r.
Qed.

(** ** Isolation

    [ext f]: frame [f] is not a private page of any process (shared memory,
    device memory, the signal trampoline).  The invariant: every other frame
    that a process maps is in use and is not a page table, its reference
    count is the number of pages that map it, and it is mapped writable only
    if that number is one. *)

Section Isolation.
Context `{PageAllocator A}.
Context (roots : list nat) (ext : nat -> bool).

(** Page [x.2] of the address space [x.1] maps frame [f]. *)
Definition maps (m : memory) (f : nat) (x : nat * Z) : Prop :=
  x.1 ∈ roots /\ user_vpn x.2 /\ pte_present (leaf m x.1 (va_of x.2)) = true /\
  pte_pfn (leaf m x.1 (va_of x.2)) = f.

Definition mappers (m : memory) (f : nat) (ms : list (nat * Z)) : Prop :=
  NoDup ms /\ forall x, x ∈ ms <-> maps m f x.

Record isolated (s : machine A) (F : nat -> Prop) : Prop := {
  is_good : good roots s F;
  is_back : forall f x, maps (ram s) f x -> ext f = false ->
    ~ F f /\ ~ is_table (ram s) roots f /\ pa_held (pool s) f;
  is_count : forall f x, maps (ram s) f x -> ext f = false ->
    exists ms, mappers (ram s) f ms /\ pa_ref (pool s) f = Some (Z.of_nat (length ms)) /\ Z.of_nat (length ms) < 2 ^ 31;
  is_excl : forall f x, maps (ram s) f x -> ext f = false ->
    has_flag (leaf (ram s) x.1 (va_of x.2)) PTE_RW = true -> pa_ref (pool s) f = Some 1;
  is_ext : forall f, F f -> ext f = false;
}.

(** A frame counted once has one mapper. *)
Lemma count_one s F f x y : isolated s F -> ext f = false -> pa_ref (pool s) f = Some 1 ->
  maps (ram s) f x -> maps (ram s) f y -> x = y.
Proof.
  intros I He Hr Hx Hy. destruct (is_count _ _ I f x Hx He) as (ms & [_ Hms] & Hl & _).
  rewrite Hl in Hr. injection Hr as Hr. apply Hms in Hx, Hy.
  destruct ms as [| a [| b ms]]; cbn in Hr; [lia | | lia]. set_solver.
Qed.

(** No two processes (or pages) share a frame that one of them can write. *)
Lemma isolated_exclusive s F f x y : isolated s F -> ext f = false ->
  maps (ram s) f x -> has_flag (leaf (ram s) x.1 (va_of x.2)) PTE_RW = true ->
  maps (ram s) f y -> x = y.
Proof.
  intros I He Hx Hw Hy. apply (count_one s F f); try done. by apply (is_excl _ _ I f x).
Qed.

Section ForkIsolation.
Context (shms : nat -> option shm) (tramp : Z) (regions : list mmap_region).
Context (src dst : nat) (s : machine A) (F : nat -> Prop).
Hypothesis HI : isolated s F.
Hypothesis Hshm : shms_ok shms regions.
Hypothesis Hsrc : src ∈ roots.
Hypothesis Hdst : dst ∈ roots.
Hypothesis Hne : src <> dst.
Hypothesis Hempty : dst_empty dst s.
Hypothesis Hext : forall v, user_vpn v -> pte_present (src_pte src s v) = true ->
  shares shms tramp regions (src_pte src s v) (va_of v) = ext (pte_pfn (src_pte src s v)).

Abbreviation private' := (private shms tramp regions src s).
Abbreviation copies' := (copies shms tramp regions src s).

Lemma private_maps v f : user_vpn v -> private' v = true -> pte_pfn (src_pte src s v) = f ->
  maps (ram s) f (src, v) /\ ext f = false.
Proof.
  unfold private. intros Hu [Hp Hs]%andb_true_iff <-. rewrite Hext, negb_true_iff in Hs by done.
  split; [| done]. unfold maps. by split_and!.
Qed.

Lemma maps_private v f : maps (ram s) f (src, v) -> ext f = false ->
  private' v = true /\ pte_pfn (src_pte src s v) = f.
Proof.
  intros (_ & Hu & Hp & Hf) He. cbn in *. fold (src_pte src s v) in Hp, Hf. unfold private.
  rewrite Hp, Hext, Hf, He by done. done.
Qed.

Definition private_in (vs : list Z) (f : nat) : list Z :=
  filter (fun v => private' v = true /\ pte_pfn (src_pte src s v) = f) vs.

Lemma copies_filter vs f : copies' vs f = Z.of_nat (length (private_in vs f)).
Proof.
  unfold private_in. induction vs as [| v vs IH]; [done |]. cbn [copies]. rewrite filter_cons, IH.
  destruct (private' v) eqn:Hp; cbn [andb].
  - destruct (Nat.eqb_spec (pte_pfn (src_pte src s v)) f).
    + rewrite decide_True by done. cbn [length]. lia.
    + rewrite decide_False by tauto. lia.
  - rewrite decide_False by (intros [? _]; congruence). lia.
Qed.

Lemma copies_bound f ms vs : mappers (ram s) f ms -> NoDup vs -> Forall user_vpn vs ->
  copies' vs f <= Z.of_nat (length ms).
Proof.
  intros [Hnd Hms] Hvs Hall. rewrite copies_filter.
  assert (length (private_in vs f) <= length ms)%nat; [| lia].
  rewrite <- (length_fmap (pair src)). apply submseteq_length, NoDup_submseteq.
  - apply NoDup_fmap_2; [congruence | by apply NoDup_filter].
  - intros x (v' & -> & [[Hp' Hf'] Hin]%list_elem_of_filter)%list_elem_of_fmap. apply Hms.
    rewrite Forall_forall in Hall. by apply private_maps; [apply Hall | |].
Qed.

Hypothesis Hbig : forall f x, pa_ref (pool s) f = Some x -> x < 2 ^ 30.

Lemma fork_refs_ok : refs_ok shms tramp regions roots src s F.
Proof.
  intros v Hu Hp. cbn zeta. set (f := pte_pfn (src_pte src s v)).
  destruct (private_maps v f Hu Hp eq_refl) as [Hm He].
  destruct (is_back _ _ HI f _ Hm He) as (? & ? & ?).
  destruct (is_count _ _ HI f _ Hm He) as (ms & [Hnd Hms] & Hl & _). split_and!; [done | done | done |].
  exists (Z.of_nat (length ms)). split_and!; [done | |].
  - apply Hms in Hm. destruct ms; [by apply not_elem_of_nil in Hm | cbn; lia].
  - intros vs Hvs Hall. pose proof (Hbig _ _ Hl). pose proof (copies_bound f ms vs (conj Hnd Hms) Hvs Hall). lia.
Qed.

Lemma dst_maps_none f v : ~ maps (ram s) f (dst, v).
Proof.
  intros (_ & Hu & Hp & _). cbn in *. pose proof (path_upath _ (va_of_user v Hu)).
  unfold leaf in Hp. by rewrite Hempty in Hp.
Qed.

(** The state after some pages [vs] of the parent have been copied. *)
Context (s' : machine A) (F' : nat -> Prop) (vs : list Z).
Hypothesis Hcp : copied shms tramp regions roots src dst s F s' F' vs.
Hypothesis Hnd : NoDup vs.
Hypothesis Hvs : forall v, v ∈ vs -> user_vpn v /\ pte_present (src_pte src s v) = true.

Lemma parent_pte_same v : pte_present (src_pte src s v) = true ->
  pte_present (parent_pte shms tramp regions src s v) = true /\
  pte_pfn (parent_pte shms tramp regions src s v) = pte_pfn (src_pte src s v).
Proof.
  intros Hp. unfold parent_pte. case_match; [| done]. by rewrite cow_pte_present, cow_pte_pfn.
Qed.

Lemma parent_pte_ro v : private' v = true -> has_flag (parent_pte shms tramp regions src s v) PTE_RW = false.
Proof.
  intros Hp. unfold parent_pte. rewrite Hp. cbn [andb]. destruct (has_flag (src_pte _ _ _) PTE_RW) eqn:Hw; [apply cow_pte_ro | done].
Qed.

(** The mappings after the copy. *)
Lemma copied_maps f r v : maps (ram s') f (r, v) <->
  if decide (r = dst) then v ∈ vs /\ maps (ram s) f (src, v) else maps (ram s) f (r, v).
Proof.
  case_decide as Hr.
  - subst r. unfold maps. cbn [fst snd]. split.
    + intros (_ & Hu & Hp & Hf). rewrite (cp_dst _ _ _ _ _ _ _ _ _ _ _ Hcp v Hu) in Hp, Hf.
      case_decide as Hin; [| done]. destruct (Hvs v Hin) as [_ Hpr]. unfold child_pte in Hf. rewrite Hpr in Hf.
      destruct (parent_pte_same v Hpr) as [_ Hpf]. by split_and!; try done; rewrite <- Hf, Hpf.
    + intros (Hin & _ & Hu & Hp & Hf). rewrite (cp_dst _ _ _ _ _ _ _ _ _ _ _ Hcp v Hu), decide_True by done.
      fold (src_pte src s v) in Hp, Hf. destruct (parent_pte_same v Hp) as [? Hpf].
      unfold child_pte. rewrite Hp. by split_and!; try done; rewrite Hpf.
  - destruct (decide (r = src)) as [-> | Hr'].
    + unfold maps. cbn [fst snd]. split; intros (_ & Hu & Hp & Hf).
      * rewrite (cp_src _ _ _ _ _ _ _ _ _ _ _ Hcp v Hu) in Hp, Hf. fold (src_pte src s v).
        case_decide as Hin; [| done]. destruct (Hvs v Hin) as [_ Hpr].
        destruct (parent_pte_same v Hpr) as [_ Hpf]. by split_and!; try done; rewrite <- Hf, Hpf.
      * rewrite (cp_src _ _ _ _ _ _ _ _ _ _ _ Hcp v Hu). fold (src_pte src s v) in Hp, Hf.
        case_decide as Hin; [| done]. destruct (parent_pte_same v Hp) as [? Hpf].
        by split_and!; try done; rewrite Hpf.
    + unfold maps. cbn [fst snd].
      split; intros (? & Hu & Hp & Hf); pose proof (va_of_user v Hu);
        rewrite (cp_oth _ _ _ _ _ _ _ _ _ _ _ Hcp) in * by done; done.
Qed.

Lemma copied_isolated : isolated s' F'.
Proof.
  assert (Hold : forall f x, maps (ram s') f x -> exists y, maps (ram s) f y).
  { intros f [r v] Hm%copied_maps. case_decide; [destruct Hm as [_ Hm] |]; eauto. }
  constructor; [apply Hcp | | | |].
  4:{ intros f Hf. by apply (is_ext _ _ HI), (cp_free _ _ _ _ _ _ _ _ _ _ _ Hcp). }
  - intros f x (y & Hy)%Hold He. destruct (is_back _ _ HI f y Hy He) as (Hf & Ht & Hh). split_and!.
    + intros ?%(cp_free _ _ _ _ _ _ _ _ _ _ _ Hcp). done.
    + by intros [? | ?]%(cp_tab _ _ _ _ _ _ _ _ _ _ _ Hcp).
    + by apply (cp_held _ _ _ _ _ _ _ _ _ _ _ Hcp).
  - intros f x (y & Hy)%Hold He. destruct (is_back _ _ HI f y Hy He) as (Hf & _).
    destruct (is_count _ _ HI f y Hy He) as (ms & [Hms1 Hms2] & Hl & _).
    exists (ms ++ (pair dst <$> private_in vs f)). split; [split | split].
    + apply NoDup_app. split_and!; [done | | apply NoDup_fmap_2; [congruence | by apply NoDup_filter]].
      intros z Hz%Hms2 (v & -> & _)%list_elem_of_fmap. by apply dst_maps_none in Hz.
    + intros [r v]. rewrite elem_of_app, Hms2, copied_maps, list_elem_of_fmap.
      unfold private_in. setoid_rewrite list_elem_of_filter. case_decide as Hr.
      * subst r. split.
        -- intros [?%dst_maps_none | (v' & [= <-] & [[Hp Hpf] Hin])]; [done |].
           split; [done |]. by apply private_maps; [apply Hvs | |].
        -- intros [Hin Hm]. right. exists v. split; [done |]. split; [by apply maps_private | done].
      * split; [intros [? | (v' & [= ? ?] & _)]; done | by left].
    + rewrite (cp_ref _ _ _ _ _ _ _ _ _ _ _ Hcp f _ Hf Hl), copies_filter, length_app, length_fmap. f_equal. lia.
    + assert (Hall : Forall user_vpn vs) by (apply Forall_forall; intros v Hv; by apply Hvs).
      pose proof (copies_bound f ms vs (conj Hms1 Hms2) Hnd Hall) as Hb. rewrite copies_filter in Hb.
      pose proof (Hbig _ _ Hl). rewrite length_app, length_fmap. lia.
  - intros f [r v] Hm He Hw. cbn [fst snd] in Hw. pose proof Hm as (_ & Hu & _). cbn in Hu.
    apply copied_maps in Hm. case_decide as Hr.
    { destruct Hm as [Hin Hm]. subst r. rewrite (cp_dst _ _ _ _ _ _ _ _ _ _ _ Hcp v Hu), decide_True in Hw by done.
      unfold child_pte in Hw. rewrite (proj2 (Hvs v Hin)), parent_pte_ro in Hw; [done | by eapply maps_private]. }
    assert (has_flag (leaf (ram s) r (va_of v)) PTE_RW = true /\ ~ (r = src /\ v ∈ vs)) as [Hw' Hnin].
    { destruct (decide (r = src)) as [-> | ?].
      - rewrite (cp_src _ _ _ _ _ _ _ _ _ _ _ Hcp v Hu) in Hw. case_decide; [| tauto].
        rewrite parent_pte_ro in Hw; [done | by eapply maps_private].
      - split; [| by intros [? _]]. rewrite (cp_oth _ _ _ _ _ _ _ _ _ _ _ Hcp) in Hw; [done | apply Hm | done | done |].
        by apply va_of_user. }
    destruct (is_back _ _ HI f _ Hm He) as (Hf & _).
    rewrite (cp_ref _ _ _ _ _ _ _ _ _ _ _ Hcp f 1 Hf (is_excl _ _ HI f (r, v) Hm He Hw')).
    enough (private_in vs f = []) as Hnil by (by rewrite copies_filter, Hnil).
    destruct (private_in vs f) as [| v' l] eqn:Hl; [done | exfalso].
    assert (v' ∈ private_in vs f) as [[Hp Hpf] Hin]%list_elem_of_filter by (rewrite Hl; by left).
    destruct (private_maps v' f (proj1 (Hvs v' Hin)) Hp Hpf) as [Hm' _].
    apply Hnin. pose proof (isolated_exclusive s F f _ _ HI He Hm Hw' Hm') as Heq. by injection Heq as -> ->.
Qed.

End ForkIsolation.
(** *** Write faults *)

(** Entries change, but not what they map, and become writable only where
    the frame has one mapper. *)
Lemma isolated_evolves s F s' F' L : isolated s F -> evolves roots s F s' F' L ->
  (forall r v, r ∈ roots -> user_vpn v -> let e := leaf (ram s) r (va_of v) in let e' := L r (va_of v) in
    pte_present e' = pte_present e /\ (pte_present e = true -> pte_pfn e' = pte_pfn e) /\
    (has_flag e' PTE_RW = true -> has_flag e PTE_RW = true \/ pa_ref (pool s) (pte_pfn e) = Some 1)) ->
  isolated s' F'.
Proof.
  intros I E HL.
  assert (Hmaps : forall f x, maps (ram s') f x <-> maps (ram s) f x).
  { intros f [r v]. unfold maps. cbn [fst snd]. split; intros (Hr & Hu & Hp & Hf);
      pose proof (va_of_user v Hu) as Huv; destruct (HL r v Hr Hu) as (H1 & H2 & _).
    - rewrite (ev_leaf _ _ _ _ _ _ E) in Hp, Hf by done. rewrite H1 in Hp. by rewrite <- Hf, H2.
    - rewrite (ev_leaf _ _ _ _ _ _ E), H1, H2 by done. done. }
  constructor; [apply E | | | |].
  - intros f x Hm%Hmaps He. destruct (is_back _ _ I f x Hm He) as (Hf & Ht & Hh). split_and!.
    + intros ?%(ev_free _ _ _ _ _ _ E). done.
    + intros [? | [? _]]%(ev_new _ _ _ _ _ _ E); done.
    + by apply (ev_held _ _ _ _ _ _ E).
  - intros f x Hm%Hmaps He. destruct (is_back _ _ I f x Hm He) as (Hf & _).
    destruct (is_count _ _ I f x Hm He) as (ms & [Hnd Hms] & Hl & ?). exists ms. split; [split; [done |] | split; [| done]].
    + intros y. by rewrite Hms, Hmaps.
    + by rewrite (ev_ref _ _ _ _ _ _ E).
  - intros f [r v] Hm%Hmaps He Hw. destruct (is_back _ _ I f _ Hm He) as (Hf & _).
    rewrite (ev_ref _ _ _ _ _ _ E) by done. pose proof Hm as (Hr & Hu & Hp & Hpf). cbn [fst snd] in *.
    rewrite (ev_leaf _ _ _ _ _ _ E) in Hw by (try done; by apply va_of_user).
    destruct (HL r v Hr Hu) as (_ & _ & [H3 | H3]); [done | |].
    + by apply (is_excl _ _ I f (r, v)).
    + by rewrite <- Hpf.
  - intros f Hf. by apply (is_ext _ _ I), (ev_free _ _ _ _ _ _ E).
Qed.

(** One page is moved from the frame [f] it shares to a new frame [q]. *)
Record remapped (s : machine A) (F : nat -> Prop) (s' : machine A) (F' : nat -> Prop)
    (r : nat) (v : Z) (f q : nat) (e' : Z) : Prop := {
  rm_good : good roots s' F';
  rm_free : forall j, F' j -> F j;
  rm_new : F q /\ ~ F' q;
  rm_tab : forall t, is_table (ram s') roots t -> is_table (ram s) roots t;
  rm_leaf : forall r' va, r' ∈ roots -> user_va va -> leaf (ram s') r' va = upd_leaf (leaf (ram s)) r (va_of v) e' r' va;
  rm_old : forall x, pa_ref (pool s) f = Some x -> pa_ref (pool s') f = Some (x - 1);
  rm_page : pa_ref (pool s') q = Some 1 /\ pa_held (pool s') q;
  rm_ref : forall j, ~ F j -> j <> f -> pa_ref (pool s') j = pa_ref (pool s) j;
  rm_held : forall j, ~ F j -> pa_held (pool s) j -> pa_held (pool s') j;
  rm_ram : forall j, ~ F j -> ~ is_table (ram s) roots j -> ram s' !! j = ram s !! j;
  rm_copy : ram s' !! q = ram s !! f;
}.

Lemma remapped_maps s F s' F' r v f q e' : remapped s F s' F' r v f q e' -> r ∈ roots -> user_vpn v ->
  pte_present e' = true -> pte_pfn e' = q ->
  forall g y, maps (ram s') g y <-> if decide (y = (r, v)) then g = q else maps (ram s) g y.
Proof.
  intros R Hr Hu Hp Hq g [r' v']. unfold maps. cbn [fst snd]. case_decide as Heq.
  - injection Heq as -> ->. rewrite (rm_leaf _ _ _ _ _ _ _ _ _ R), upd_leaf_eq by (try done; by apply va_of_user).
    rewrite Hp, Hq. split; [by intros (_ & _ & _ & ->) | by intros ->].
  - assert (Hsame : r' ∈ roots -> user_vpn v' -> leaf (ram s') r' (va_of v') = leaf (ram s) r' (va_of v')).
    { intros Hr' Hu'. rewrite (rm_leaf _ _ _ _ _ _ _ _ _ R) by (try done; by apply va_of_user).
      apply upd_leaf_ne. intros [-> ?%va_of_same]. congruence. }
    split; intros (Hr' & Hu' & Hp' & Hf'); [rewrite Hsame in Hp', Hf' by done | rewrite Hsame by done]; done.
Qed.

Lemma isolated_remapped s F s' F' r v f q e' : isolated s F -> ext f = false -> maps (ram s) f (r, v) ->
  pa_ref (pool s) f <> Some 1 -> pte_present e' = true -> pte_pfn e' = q ->
  remapped s F s' F' r v f q e' -> isolated s' F'.
Proof.
  intros I He Hm Hx Hp Hq R. pose proof Hm as (Hr & Hu & _). cbn [fst snd] in Hr, Hu.
  pose proof (remapped_maps s F s' F' r v f q e' R Hr Hu Hp Hq) as Hmaps.
  destruct (rm_new _ _ _ _ _ _ _ _ _ R) as [HFq HFq']. destruct (rm_page _ _ _ _ _ _ _ _ _ R) as [Hq1 Hqh].
  pose proof (is_ext _ _ I q HFq) as Heq.
  assert (Hqm : forall y, ~ maps (ram s) q y) by (intros y Hy; by destruct (is_back _ _ I q y Hy Heq)).
  constructor; [apply R | | | |].
  - intros g y Hy%Hmaps Hg. case_decide as Hyrv.
    + subst g. split_and!; [done | | done]. intros Ht%(rm_tab _ _ _ _ _ _ _ _ _ R).
      by apply (g_table _ _ _ (is_good _ _ I)) in Ht as [? _].
    + destruct (is_back _ _ I g y Hy Hg) as (? & ? & ?). split_and!.
      * by intros ?%(rm_free _ _ _ _ _ _ _ _ _ R).
      * by intros ?%(rm_tab _ _ _ _ _ _ _ _ _ R).
      * by apply (rm_held _ _ _ _ _ _ _ _ _ R).
  - intros g y Hy%Hmaps Hg. case_decide as Hyrv.
    { subst g. exists [(r, v)]. split; [split; [apply NoDup_singleton |] | done].
      intros z. rewrite Hmaps, list_elem_of_singleton. case_decide; [done |]. split; [done | by intros ?%Hqm]. }
    destruct (is_back _ _ I g y Hy Hg) as (HFg & _).
    destruct (is_count _ _ I g y Hy Hg) as (ms & [Hnd Hms] & Hl & Hlt). destruct (decide (g = f)) as [-> | Hgf].
    + apply Hms in Hm as (ms' & Hperm)%elem_of_Permutation. rewrite Hperm in Hnd. apply NoDup_cons in Hnd as [Hn Hnd'].
      exists ms'. split; [split; [done |] | split; [| rewrite Hperm in Hlt; cbn in Hlt; lia]].
      * intros z. pose proof (Hms z) as Hz'. rewrite Hperm, elem_of_cons in Hz'. rewrite Hmaps.
        case_decide as Hz; [| tauto].
        subst z. split; [done |]. intros ->. by apply Hqm in Hy.
      * rewrite (rm_old _ _ _ _ _ _ _ _ _ R _ Hl), Hperm. cbn [length]. f_equal. lia.
    + exists ms. split; [split; [done |] | split; [| done]].
      * intros z. rewrite Hms, Hmaps. case_decide as Hz; [| done]. subst z. split.
        -- intros (_ & _ & _ & Hg1). destruct Hm as (_ & _ & _ & Hg2). congruence.
        -- intros ->. by apply Hqm in Hy.
      * by rewrite (rm_ref _ _ _ _ _ _ _ _ _ R).
  - intros g [r' v'] Hy Hg Hw. apply Hmaps in Hy. case_decide as Hyrv; [by subst g |].
    destruct (is_back _ _ I g _ Hy Hg) as (HFg & _). cbn [fst snd] in Hw. pose proof Hy as (Hr' & Hu' & _).
    cbn [fst snd] in Hr', Hu'.
    rewrite (rm_leaf _ _ _ _ _ _ _ _ _ R), upd_leaf_ne in Hw;
      [| intros [-> ?%va_of_same]; congruence | done | by apply va_of_user].
    pose proof (is_excl _ _ I g (r', v') Hy Hg Hw). rewrite (rm_ref _ _ _ _ _ _ _ _ _ R); [done | done |]. by intros ->.
  - intros g Hg. by apply (is_ext _ _ I), (rm_free _ _ _ _ _ _ _ _ _ R).
Qed.

(** What a resolved fault on page [v] of [r] leaves: an entry [e'] for a page
    of its own with the old contents, and nothing else changed. *)
Record resolved (s : machine A) (F : nat -> Prop) (s' : machine A) (r : nat) (v e' : Z) : Prop := {
  re_leaf : forall r' va, r' ∈ roots -> user_va va -> leaf (ram s') r' va = upd_leaf (leaf (ram s)) r (va_of v) e' r' va;
  re_entry : pte_present e' = true /\ has_flag e' PTE_RW = true /\ has_flag e' PTE_COW = false;
  re_page : ram s' !! pte_pfn e' = ram s !! pte_pfn (leaf (ram s) r (va_of v));
  re_own : forall y, maps (ram s') (pte_pfn e') y -> y = (r, v);
  re_ram : forall j, ~ F j -> ~ is_table (ram s) roots j -> ram s' !! j = ram s !! j;
}.

Section Resolve.
Context (s : machine A) (F : nat -> Prop) (r : nat) (v : Z) (t : nat).
Hypothesis HI : isolated s F.
Hypothesis Hr : r ∈ roots.
Hypothesis Hu : user_vpn v.
Abbreviation e := (leaf (ram s) r (va_of v)).
Abbreviation f := (pte_pfn (leaf (ram s) r (va_of v))).
Hypothesis Ht : tbl (ram s) r (path (va_of v)) = Some t.
Hypothesis Hp : pte_present e = true.
Hypothesis He : ext f = false.

Lemma resolve_maps : maps (ram s) f (r, v).
Proof. unfold maps. by split_and!. Qed.

(** The only owner gets write permission. *)
Lemma resolve_owner : pa_ref (pool s) f = Some 1 ->
  exists s', resolve_cow_fault t (pt_idx (va_of v)) s = Some (s', true) /\ isolated s' F /\
    resolved s F s' r v (owned_pte e).
Proof.
  intros Href. unfold resolve_cow_fault. pose proof (va_of_user v Hu) as Hua. pose proof (is_good _ _ HI) as Hg.
  rewrite (leaf_rd _ r (va_of v) roots t (g_forest _ _ _ Hg) Hr Hua Ht). cbn [mbind option_bind]. rewrite Href.
  cbn [mbind option_bind]. change (1 =? 1) with true. cbv iota.
  destruct (evolves_set_leaf roots s F r (va_of v) t (Z.lor (clear_flag e PTE_COW) PTE_RW) Hg Hr Hua Ht)
    as (m1 & -> & E1). cbn [mbind option_bind].
  pose proof (ev_good _ _ _ _ _ _ E1) as Hg1.
  pose proof (ev_tbl _ _ _ _ _ _ E1 r _ t Hr (path_upath _ Hua) Ht) as Ht1. cbn [ram] in Ht1.
  pose proof (leaf_rd _ r (va_of v) roots t (g_forest _ _ _ Hg1) Hr Hua Ht1) as Hrd. cbn [ram] in Hrd.
  pose proof (ev_leaf _ _ _ _ _ _ E1 r (va_of v) Hr Hua) as Hl1. cbn [ram] in Hl1.
  rewrite upd_leaf_eq in Hl1 by done. rewrite Hrd, Hl1. cbn [mbind option_bind]. fold (owned_pte e).
  destruct (evolves_set_leaf roots _ F r (va_of v) t (owned_pte e) Hg1 Hr Hua Ht1) as (m2 & Hw & E2).
  cbn [ram pool] in Hw, E2. rewrite Hw. cbn [mbind option_bind]. eexists. split; [done |].
  assert (E : evolves roots s F (Machine (pool s) m2) F (upd_leaf (leaf (ram s)) r (va_of v) (owned_pte e))).
  { eapply evolves_trans; [exact E1 |]. eapply evolves_leaf; [exact E2 |]. intros r' va Hr' Hva.
    pose proof (ev_leaf _ _ _ _ _ _ E1 r' va Hr' Hva) as Hl. cbn [ram] in Hl. unfold upd_leaf in *.
    by case_bool_decide. }
  destruct (owned_pte_spec e) as (Hpf & Hpr & Hrw & Hcow).
  assert (I' : isolated (Machine (pool s) m2) F).
  { eapply isolated_evolves; [exact HI | exact E |]. intros r' v' Hr' Hu'. cbn zeta. unfold upd_leaf.
    case_bool_decide as Hc; [| tauto]. destruct Hc as [-> ->%va_of_same]. split_and!; [done | done | by right]. }
  split; [done |]. constructor; [apply E | by rewrite Hpr | | | apply E].
  - rewrite Hpf. destruct (is_back _ _ HI f _ resolve_maps He) as (? & ? & _).
    by apply (ev_ram _ _ _ _ _ _ E).
  - rewrite Hpf. intros y Hy. apply (count_one _ _ f y (r, v) I' He); [| done |].
    + by rewrite (ev_ref _ _ _ _ _ _ E) by (by destruct (is_back _ _ HI f _ resolve_maps He)).
    + unfold maps. cbn [fst snd]. rewrite (ev_leaf _ _ _ _ _ _ E), upd_leaf_eq by done. by rewrite Hpf, Hpr.
Qed.

Lemma remapped_copy a q lf a' m2 e' n : F q -> ram s !! f = Some lf -> pa_ref a q = Some 1 ->
  pa_held a q -> (forall j, ~ F j -> pa_ref a j = pa_ref (pool s) j) ->
  (forall j, ~ F j -> pa_held (pool s) j -> pa_held a j) -> pa_total a' = pa_total a ->
  evolves roots s F (Machine a (<[q := lf]> (ram s))) (fun j => F j /\ j <> q) (leaf (ram s)) ->
  ~ is_table (<[q := lf]> (ram s)) roots q ->
  evolves roots (Machine a (<[q := lf]> (ram s))) (fun j => F j /\ j <> q) (Machine a m2) (fun j => F j /\ j <> q)
    (upd_leaf (leaf (<[q := lf]> (ram s))) r (va_of v) e') ->
  pa_ref (pool s) f = Some n -> pa_rep a' (fun j => F j /\ j <> q) -> pa_ref a' f = Some (n - 1) ->
  (forall j, j <> f -> pa_ref a' j = pa_ref a j) -> (forall j, pa_held a j -> pa_held a' j) ->
  remapped s F (Machine a' m2) (fun j => F j /\ j <> q) r v f q e'.
Proof.
  intros HFq Hlf Href1 Hheld Href Hhk Htot E1 Hntq E2 Hn Hrep Hf Ho Hh.
  pose proof (ev_good _ _ _ _ _ _ E2) as Hg2. cbn [ram pool] in *.
  destruct (is_back _ _ HI f _ resolve_maps He) as (HFf & _).
  assert (Hqf : q <> f) by (by intros ->).
  assert (Htab : forall j, is_table m2 roots j -> is_table (ram s) roots j).
  { intros j Hj. destruct (ev_new _ _ _ _ _ _ E2 j Hj) as [Hj1 | [? ?]]; [| done].
    destruct (ev_new _ _ _ _ _ _ E1 j Hj1) as [? | [? Hn1]]; [done |].
    destruct (decide (j = q)) as [-> | ?]; [done |]. exfalso. by apply Hn1. }
  constructor; cbn [ram pool].
  - constructor; cbn [ram pool]; [done | apply Hg2 | | |].
    + intros j Hj. destruct (g_table _ _ _ Hg2 j Hj). auto.
    + intros j Hj. apply (g_ram _ _ _ Hg2). cbn [pool]. by rewrite <- Htot.
    + rewrite Htot. apply (g_total _ _ _ Hg2).
  - by intros j [? _].
  - split; [done |]. by intros [_ ?].
  - done.
  - intros r' va Hr' Hva. rewrite (ev_leaf _ _ _ _ _ _ E2) by done. apply upd_leaf_ext.
    by apply (ev_leaf _ _ _ _ _ _ E1).
  - intros x Hx. congruence.
  - rewrite Ho by done. auto.
  - intros j Hj Hjf. by rewrite Ho, Href.
  - auto.
  - intros j Hj Hjt. rewrite (ev_ram _ _ _ _ _ _ E2); [by apply (ev_ram _ _ _ _ _ _ E1) | by intros [? _] |].
    intros [? | [? _]]%(ev_new _ _ _ _ _ _ E1); done.
  - rewrite (ev_ram _ _ _ _ _ _ E2); [cbn [ram]; by rewrite lookup_insert_eq | by intros [_ ?] | done].
Qed.

(** A shared page is copied, or the task is sent SIGSEGV when no page is free. *)
Lemma resolve_shared : pa_ref (pool s) f <> Some 1 ->
  exists s' ok, resolve_cow_fault t (pt_idx (va_of v)) s = Some (s', ok) /\
    if ok : bool then exists F' q, isolated s' F' /\ resolved s F s' r v (copy_pte q e) /\
      (forall x, pa_ref (pool s) f = Some x -> pa_ref (pool s') f = Some (x - 1))
    else s' = s /\ forall j, ~ F j.
Proof.
  intros Hx. pose proof (va_of_user v Hu) as Hua. pose proof (is_good _ _ HI) as Hg.
  destruct (is_back _ _ HI f _ resolve_maps He) as (HFf & Hnt & Hh).
  destruct (is_count _ _ HI f _ resolve_maps He) as (ms & [_ Hms] & Hl & Hlt).
  assert (Hge : 2 <= Z.of_nat (length ms)).
  { pose proof (proj2 (Hms (r, v)) resolve_maps). destruct ms as [| a [| b ms]]; cbn [length] in *; [| done | lia].
    by apply not_elem_of_nil in H0. }
  unfold resolve_cow_fault.
  rewrite (leaf_rd _ r (va_of v) roots t (g_forest _ _ _ Hg) Hr Hua Ht). cbn [mbind option_bind]. rewrite Hl.
  cbn [mbind option_bind]. rewrite (proj2 (Z.eqb_neq _ 1)) by lia.
  destruct (pa_alloc_ok _ _ (g_pool _ _ _ Hg)) as (a & res & -> & Htot & Hres). cbn [mbind option_bind].
  destruct res as [q |].
  2:{ destruct Hres as [-> Hnone]. exists (Machine (pool s) (ram s)), false. split; [done |]. by destruct s. }
  destruct Hres as (HFq & Hrep & Hheld & Href1 & Href & Hhk).
  destruct (g_ram _ _ _ Hg f (pa_held_lt _ _ Hh)) as [lf Hlf].
  destruct (g_ram _ _ _ Hg q (pa_free_lt _ _ _ (g_pool _ _ _ Hg) HFq)) as [lq Hlq].
  unfold copy_page. rewrite Hlf, Hlq. cbn [mbind option_bind].
  destruct (fill_data_page roots s F a q lf Hg HFq Hrep Hheld Href1 Href Hhk Htot) as [E1 Hntq].
  pose proof (ev_good _ _ _ _ _ _ E1) as Hg1.
  pose proof (ev_tbl _ _ _ _ _ _ E1 r _ t Hr (path_upath _ Hua) Ht) as Ht1.
  pose proof (leaf_rd _ r (va_of v) roots t (g_forest _ _ _ Hg1) Hr Hua Ht1) as Hrd.
  rewrite (ev_leaf _ _ _ _ _ _ E1 r (va_of v) Hr Hua) in Hrd. cbn [ram] in Hrd, Ht1. rewrite Hrd.
  cbn [mbind option_bind].
  destruct (evolves_set_leaf roots _ _ r (va_of v) t (copy_pte q e) Hg1 Hr Hua Ht1) as (m2 & Hw & E2).
  cbn [ram pool] in Hw, E2. rewrite Hw. cbn [mbind option_bind].
  unfold refcount_dec_and_test. rewrite (Href f HFf), Hl. cbn [mbind option_bind].
  assert (s32 (Z.of_nat (length ms) - 1) = Z.of_nat (length ms) - 1) as -> by (unfold s32; rewrite Z.mod_small; lia).
  rewrite (proj2 (Z.ltb_ge _ _)) by lia.
  destruct (pa_set_ref_ok a _ f (Z.of_nat (length ms) - 1) Hrep (Hhk f HFf Hh)) as (a' & -> & Ht' & Hrep' & Hf' & Ho' & Hh').
  cbn [mbind option_bind]. exists (Machine a' m2), true. split; [done |].
  exists (fun j => F j /\ j <> q), q.
  destruct (copy_pte_spec q e) as (Hpf & Hpr & Hrw & Hcow).
  { pose proof (g_total _ _ _ Hg). pose proof (pa_free_lt _ _ _ (g_pool _ _ _ Hg) HFq). lia. }
  pose proof (remapped_copy a q lf a' m2 (copy_pte q e) _ HFq Hlf Href1 Hheld Href Hhk Ht' E1 Hntq E2 Hl
    Hrep' Hf' Ho' Hh') as R.
  pose proof (isolated_remapped s F _ _ r v f q _ HI He resolve_maps Hx Hpr Hpf R) as I'. split; [done |].
  split; [| rewrite <- Hl; exact (rm_old _ _ _ _ _ _ _ _ _ R)].
  constructor; [exact (rm_leaf _ _ _ _ _ _ _ _ _ R) | done | | | exact (rm_ram _ _ _ _ _ _ _ _ _ R)].
  { rewrite Hpf. exact (rm_copy _ _ _ _ _ _ _ _ _ R). }
  intros y. rewrite Hpf, (remapped_maps _ _ _ _ _ _ _ _ _ R Hr Hu Hpr Hpf). case_decide; [done |]. intros Hy.
  by destruct (is_back _ _ HI q y Hy (is_ext _ _ HI q HFq)).
Qed.

End Resolve.

End Isolation.

(** *** New pages keep the isolation *)

Lemma isolated_fresh `{PageAllocator A} roots ext s F s' F' r v q e' : isolated roots ext s F ->
  r ∈ roots -> user_vpn v -> pte_present (leaf (ram s) r (va_of v)) = false ->
  pte_present e' = true -> pte_pfn e' = q -> fresh_page roots F s' q -> ~ F' q ->
  evolves roots s F s' F' (upd_leaf (leaf (ram s)) r (va_of v) e') -> isolated roots ext s' F'.
Proof.
  intros I Hr Hu Habs Hp Hq (HFq & Hh & Href & _ & Hnt) HFq' E. pose proof (va_of_user v Hu) as Hua.
  pose proof (is_ext _ _ _ _ I q HFq) as Heq.
  assert (Hqm : forall y, ~ maps roots (ram s) q y) by (intros y Hy; by destruct (is_back _ _ _ _ I q y Hy Heq)).
  assert (Hmaps : forall g y, maps roots (ram s') g y <-> (y = (r, v) /\ g = q) \/ maps roots (ram s) g y).
  { intros g [r' v']. unfold maps. cbn [fst snd]. destruct (decide ((r', v') = (r, v))) as [Hrv | Hrv].
    - injection Hrv as -> ->. rewrite (ev_leaf _ _ _ _ _ _ E), upd_leaf_eq, Hp, Hq, Habs by done. naive_solver.
    - assert (Hs : r' ∈ roots -> user_vpn v' -> leaf (ram s') r' (va_of v') = leaf (ram s) r' (va_of v')).
      { intros Hr' Hu'. rewrite (ev_leaf _ _ _ _ _ _ E) by (try done; by apply va_of_user).
        apply upd_leaf_ne. intros [-> ?%va_of_same]. congruence. }
      split.
      + intros (Hr' & Hu' & Hx). right. rewrite Hs in Hx by done. done.
      + intros [[? _] | (Hr' & Hu' & Hx)]; [done |]. rewrite Hs by done. done. }
  constructor; [apply E | | | |].
  - intros g y [[_ ->] | Hy]%Hmaps Hg; [done |]. destruct (is_back _ _ _ _ I g y Hy Hg) as (? & ? & ?). split_and!.
    + by intros ?%(ev_free _ _ _ _ _ _ E).
    + by intros [? | [? _]]%(ev_new _ _ _ _ _ _ E).
    + by apply (ev_held _ _ _ _ _ _ E).
  - intros g y Hy Hg. destruct (decide (g = q)) as [-> | Hgq].
    + exists [(r, v)]. split; [split; [apply NoDup_singleton |] | done]. intros z. rewrite Hmaps, list_elem_of_singleton.
      split; [by left | intros [[-> _] | ?%Hqm]; done].
    + apply Hmaps in Hy as [[_ ?] | Hy]; [done |]. destruct (is_back _ _ _ _ I g y Hy Hg) as (? & _).
      destruct (is_count _ _ _ _ I g y Hy Hg) as (ms & [Hnd Hms] & Hl & ?). exists ms. split; [split; [done |] | split; [| done]].
      * intros z. rewrite Hmaps, Hms. split; [by right | intros [[_ ?] | ?]; done].
      * by rewrite (ev_ref _ _ _ _ _ _ E).
  - intros g [r' v'] Hy Hg Hw. destruct (decide (g = q)) as [-> | Hgq]; [done |].
    apply Hmaps in Hy as [[_ ?] | Hy]; [done |]. destruct (is_back _ _ _ _ I g _ Hy Hg) as (? & _).
    rewrite (ev_ref _ _ _ _ _ _ E) by done. apply (is_excl _ _ _ _ I g (r', v') Hy Hg). cbn [fst snd] in *.
    rewrite (ev_leaf _ _ _ _ _ _ E), upd_leaf_ne in Hw; [done | | apply Hy | apply va_of_user, Hy].
    intros [-> ->%va_of_same]. destruct Hy as (_ & _ & Hy & _). cbn [fst snd] in Hy. congruence.
  - intros g Hg. by apply (is_ext _ _ _ _ I), (ev_free _ _ _ _ _ _ E).
Qed.

(** ** The theorems *)

Section Claims.
Context `{PageAllocator A}.
Context (roots : list nat) (ext : nat -> bool).

(** The fork, as a sequence of copied pages. *)
Lemma fork_copied shms tramp regions src dst s F :
  isolated roots ext s F -> shms_ok shms regions -> src ∈ roots -> dst ∈ roots -> src <> dst ->
  dst_empty dst s -> no_huge src s ->
  (forall v, user_vpn v -> pte_present (src_pte src s v) = true ->
    shares shms tramp regions (src_pte src s v) (va_of v) = ext (pte_pfn (src_pte src s v))) ->
  (forall f x, pa_ref (pool s) f = Some x -> x < 2 ^ 30) ->
  exists s' rc F' vs, copy_page_table shms tramp regions src dst s = Some (s', rc) /\
    isolated roots ext s' F' /\ copied shms tramp regions roots src dst s F s' F' vs /\
    (forall v, v ∈ vs -> pte_present (src_pte src s v) = true) /\
    (rc = 0 -> forall v, v ∈ vs <-> user_vpn v /\ pte_present (src_pte src s v) = true).
Proof.
  intros I Hshm Hsrc Hdst Hne Hempty Hhuge Hext Hbig.
  assert (Hrefs : refs_ok shms tramp regions roots src s F) by (eapply (fork_refs_ok roots ext); eassumption).
  destruct (fork_ok shms tramp regions roots src dst s F Hshm Hsrc Hdst Hne Hrefs Hhuge (is_good _ _ _ _ I) Hempty)
    as (s' & rc & Heq & Hrc).
  assert (exists F' vs, copied shms tramp regions roots src dst s F s' F' vs /\ NoDup vs /\
    (forall v, v ∈ vs -> user_vpn v /\ pte_present (src_pte src s v) = true) /\
    (rc = 0 -> forall v, v ∈ vs <-> user_vpn v /\ pte_present (src_pte src s v) = true)) as (F' & vs & C & Hnd & Hvs & Hall).
  { destruct (Z.eqb_spec rc 0).
    - destruct Hrc as (F' & vs & C & Hnd & Hvs). exists F', vs. split_and!; [done | done | by intros v ?%Hvs | done].
    - destruct Hrc as (B & F' & vs & C & Hnd & Hvs). exists F', vs. split_and!; [done | done | | done].
      intros v [Hv Hp]%Hvs. split; [unfold user_vpn; lia | done]. }
  assert (I' : isolated roots ext s' F') by (by apply (copied_isolated roots ext shms tramp regions src dst s F I Hsrc Hdst Hne Hempty Hext Hbig s' F' vs)).
  exists s', rc, F', vs. split_and!; [exact Heq | done | done | by intros v []%Hvs | done].
Qed.

(** C3. Fork keeps processes isolated.  From an isolated state and an empty
    child, [copy_page_table] returns, with success or an error, in an
    isolated state: for the frames that address spaces own ([ext] is false),
    reference counts are the numbers of mappings again, and no such frame that
    is writable in one address space is mapped anywhere else.  The frames of
    shared mappings and devices ([ext] is true) have another owner and stay
    writable on both sides.  No page changes contents.  On success every page of the child maps what
    the parent maps, with the writable private pages of both marked
    copy-on-write. *)
Theorem fork_isolates shms tramp regions src dst s F :
  isolated roots ext s F -> shms_ok shms regions -> src ∈ roots -> dst ∈ roots -> src <> dst ->
  dst_empty dst s -> no_huge src s ->
  (forall v, user_vpn v -> pte_present (src_pte src s v) = true ->
    shares shms tramp regions (src_pte src s v) (va_of v) = ext (pte_pfn (src_pte src s v))) ->
  (forall f x, pa_ref (pool s) f = Some x -> x < 2 ^ 30) ->
  exists s' rc, copy_page_table shms tramp regions src dst s = Some (s', rc) /\
    (exists F', isolated roots ext s' F') /\
    (forall f x y, ext f = false -> maps roots (ram s') f x -> maps roots (ram s') f y ->
      has_flag (leaf (ram s') x.1 (va_of x.2)) PTE_RW = true -> x = y) /\
    (forall j, ~ F j -> ~ is_table (ram s) roots j -> ram s' !! j = ram s !! j) /\
    (forall r va, r ∈ roots -> r <> src -> r <> dst -> user_va va -> leaf (ram s') r va = leaf (ram s) r va) /\
    (rc = 0 -> forall v, user_vpn v ->
      leaf (ram s') src (va_of v) = parent_pte shms tramp regions src s v /\
      leaf (ram s') dst (va_of v) = child_pte shms tramp regions src s v).
Proof.
  intros I Hshm Hsrc Hdst Hne Hempty Hhuge Hext Hbig.
  destruct (fork_copied shms tramp regions src dst s F I Hshm Hsrc Hdst Hne Hempty Hhuge Hext Hbig)
    as (s' & rc & F' & vs & Heq & I' & C & Hvs & Hall).
  exists s', rc. split_and!; [exact Heq | by exists F' | | apply C | apply C |].
  - intros f x y He Hx Hy Hw. by eapply (isolated_exclusive roots ext s' F').
  - intros Hrc0 v Hu. rewrite (cp_src _ _ _ _ _ _ _ _ _ _ _ C v Hu), (cp_dst _ _ _ _ _ _ _ _ _ _ _ C v Hu).
    destruct (pte_present (src_pte src s v)) eqn:Hp.
    + by rewrite !decide_True by (by apply Hall).
    + rewrite !decide_False by (intros ?%Hvs; congruence). unfold child_pte, parent_pte, private.
      by rewrite Hp.
Qed.

(** C29. A write fault on a copy-on-write page gives the faulting process its
    own page.  The fault is resolved, unless no page is free, when the task
    is sent SIGSEGV and nothing changes.  A resolved fault leaves an
    isolated state, the page is writable, holds the old contents and is
    mapped nowhere else; every other page table entry, and the contents of
    every page that was in use, are unchanged. *)
Theorem cow_fault_private s F r va : isolated roots ext s F -> r ∈ roots -> user_va va ->
  let e := leaf (ram s) r va in
  pte_present e = true -> has_flag e PTE_COW = true -> ext (pte_pfn e) = false ->
  exists s' res, write_fault r va s = Some (s', res) /\
    match res with
    | Resolved => exists F' e', isolated roots ext s' F' /\ resolved roots s F s' r (va / PAGE_SIZE) e'
    | Segv => s' = s /\ forall j, ~ F j
    | Stale | Unhandled => False
    end.
Proof.
  intros I Hr Hu e Hp Hc He. destruct (va_of_div va Hu) as [Hv Hsame].
  set (v := va / PAGE_SIZE) in *. pose proof (va_of_user v Hv) as Huv.
  assert (Hleaf : e = leaf (ram s) r (va_of v)) by (by apply leaf_same_page).
  destruct (proj1 (same_page_idx va (va_of v) Hu Huv) Hsame) as [Hpath Hidx].
  pose proof (g_forest _ _ _ (is_good _ _ _ _ I)) as Hfo.
  unfold write_fault. rewrite (lookup_leaf _ r va roots Hfo Hr Hu). fold e. rewrite Hp. cbn [mbind option_bind].
  destruct (tbl (ram s) r (path va)) as [t |] eqn:Ht; [| by unfold e, leaf in Hp; rewrite Ht in Hp].
  cbn [fmap option_fmap option_map]. rewrite (leaf_rd _ r va roots t Hfo Hr Hu Ht). fold e. cbn [mbind option_bind].
  rewrite Hc, Hidx. rewrite Hpath in Ht. rewrite Hleaf in Hp, He.
  destruct (decide (pa_ref (pool s) (pte_pfn (leaf (ram s) r (va_of v))) = Some 1)) as [H1 | H1].
  - destruct (resolve_owner roots ext s F r v t I Hr Hv Ht Hp He H1) as (s' & -> & I' & R). cbn.
    exists s', Resolved. split; [done |]. by do 2 eexists.
  - destruct (resolve_shared roots ext s F r v t I Hr Hv Ht Hp He H1) as (s' & ok & -> & Hok). cbn.
    destruct ok; [destruct Hok as (F' & q & I' & R & _) |].
    + exists s', Resolved. split; [done |]. by do 2 eexists.
    + by exists s', Segv.
Qed.

End Claims.

(** *** A concrete machine: two address spaces and fourteen free pages *)

Definition cow_pool : bfc := Bfc
  (replicate 2 (Page PAGE_USED 1 1 None None) ++ Page PAGE_FREE 0 14 None None ::
   replicate 13 (Page PAGE_FREE 0 1 None None)) (Some 2%nat) 1.
Definition cow_ram : memory := list_to_map ((fun i => (i, replicate 512 0)) <$> seq 0 16).
Definition cow_machine : machine bfc := Machine cow_pool cow_ram.
Definition cow_free (i : nat) : Prop := (2 <= i < 16)%nat.
Definition cow_roots : list nat := [0; 1]%nat.

Lemma cow_ram_lookup i : (i < 16)%nat -> cow_ram !! i = Some (replicate 512 0).
Proof. intros Hi. do 16 (destruct i as [| i]; [by vm_compute |]). lia. Qed.

(** A root page full of zeros maps nothing. *)
Lemma zero_root m r p t : m !! r = Some (replicate 512 0) -> upath p -> tbl m r p = Some t -> p = [] /\ t = r.
Proof.
  intros Hz. destruct p as [| i p]; [by intros _ [= <-] |]. intros (_ & Hi & _). apply Forall_cons in Hi as [Hi _].
  cbn. unfold rd. rewrite Hz. cbn [mbind option_bind]. by rewrite lookup_replicate_2.
Qed.

Lemma cow_root r : r ∈ cow_roots -> (r < 2)%nat.
Proof. unfold cow_roots. rewrite !elem_of_cons, elem_of_nil. lia. Qed.

Lemma cow_tbl r p t : r ∈ cow_roots -> upath p -> tbl cow_ram r p = Some t -> p = [] /\ t = r.
Proof. intros Hr%cow_root. apply zero_root, cow_ram_lookup. lia. Qed.

Lemma cow_good : good cow_roots cow_machine cow_free.
Proof.
  constructor; cbn [pool ram cow_machine].
  - exists [(2, 14)]%nat. split.
    + constructor; [cbn; lia | by apply Forall_singleton |].
      apply Bfc.Rep.tail_cons. split; [done |]. eexists. by split_and!; [.. | exists (Some 2%nat)].
    + intros i. unfold cow_free. rewrite Bfc.Blocks.cover_cons. split; [by left |].
      intros [? | []%Bfc.Blocks.cover_nil]. done.
  - constructor.
    + intros r p t Hr Hp Ht. apply cow_tbl in Ht as [-> ->]; [| done | done]. apply cow_root in Hr.
      exists (replicate 512 0). by rewrite cow_ram_lookup, length_replicate by lia.
    + intros r p r' p' t Hr Hr' Hp Hp' H1 H2.
      apply cow_tbl in H1 as [-> ->]; [| done | done]. by apply cow_tbl in H2 as [? ?].
  - intros t (r & p & Hr & Hp & Ht). apply cow_tbl in Ht as [-> ->]; [| done | done]. apply cow_root in Hr.
    split; [unfold cow_free; lia |]. destruct r as [| [| r]]; [eexists; by split | eexists; by split | lia].
  - intros i Hi. by rewrite cow_ram_lookup.
  - done.
Qed.

Definition no_ext (f : nat) : bool := false.

Lemma cow_isolated : isolated cow_roots no_ext cow_machine cow_free.
Proof.
  assert (Hno : forall f x, ~ maps cow_roots cow_ram f x).
  { intros f [r v] (Hr & Hu & Hp & _). cbn [fst snd] in Hr, Hu, Hp. pose proof (path_upath _ (va_of_user v Hu)) as Hup.
    unfold leaf in Hp. destruct (tbl cow_ram r (path (va_of v))) eqn:Ht; [| done].
    by apply cow_tbl in Ht as [? _]. }
  constructor; [apply cow_good | | | | done]; intros f x Hx; by apply Hno in Hx.
Qed.

(** One anonymous page mapped in the first address space. *)
Definition cow_one : machine bfc :=
  match map_one 0 demo_va ANON_FLAGS cow_machine with Some (s, _) => s | None => cow_machine end.

Lemma cow_one_isolated : exists F, isolated cow_roots no_ext cow_one F.
Proof.
  assert (Hr : (0 ∈ cow_roots)%nat) by (by left).
  destruct (map_one_ok cow_roots cow_machine cow_free 0 demo_va ANON_FLAGS cow_good Hr demo_va_user)
    as (s' & res & F' & Heq & Hres).
  assert (Hs : snd <$> map_one 0 demo_va ANON_FLAGS cow_machine = Some (Some 1)) by (by vm_compute).
  rewrite Heq in Hs. cbn in Hs. injection Hs as ->.
  change (pte_present (leaf (ram cow_machine) 0 demo_va)) with false in Hres. cbv iota in Hres.
  destruct Hres as (_ & q & Hfr & Hq & E). exists F'. unfold cow_one. rewrite Heq.
  cbv iota. change demo_va with (va_of 1024) in E.
  assert (Hu : user_vpn 1024) by (unfold user_vpn; lia).
  assert (Habs : pte_present (leaf (ram cow_machine) 0 (va_of 1024)) = false) by (vm_compute; reflexivity).
  assert (Hpr : pte_present (Z.lor (page_to_phys q) ANON_FLAGS) = true) by (by apply has_flag_lor_r).
  assert (Hpf : pte_pfn (Z.lor (page_to_phys q) ANON_FLAGS) = q).
  { apply pfn_of_page; [destruct Hfr as [HFq _]; unfold cow_free in HFq; lia | done]. }
  exact (isolated_fresh cow_roots no_ext cow_machine cow_free s' F' 0 1024 q _ cow_isolated Hr Hu Habs Hpr Hpf Hfr Hq E).
Qed.

(** Executable checks for the side conditions. *)
Lemma no_huge_check (s : machine bfc) r :
  forallb (fun x => forallb (fun e => negb (has_flag e PTE_PS)) (snd x)) (map_to_list (ram s)) = true -> no_huge r s.
Proof.
  intros Hall p j e _ Hup _. unfold upper, rd in Hup. destruct (tbl (ram s) r p) as [t |]; [| done].
  cbn in Hup. destruct (ram s !! t) as [l |] eqn:Hl; [| done]. cbn in Hup.
  rewrite forallb_forall in Hall. apply elem_of_map_to_list, list_elem_of_In, Hall in Hl. cbn in Hl.
  apply list_elem_of_lookup_2 in Hup. rewrite forallb_forall in Hl.
  apply negb_true_iff, Hl. by apply list_elem_of_In.
Qed.

Lemma zero_dst_empty (s : machine bfc) r : ram s !! r = Some (replicate 512 0) -> dst_empty r s.
Proof.
  intros Hz p Hp Hne. destruct (tbl (ram s) r p) eqn:Ht; [| done]. by apply zero_root in Ht as [? _].
Qed.

Lemma small_refs_check (a : bfc) b : forallb (fun p => p_refcount p <? b) (frames a) = true ->
  forall f x, pa_ref a f = Some x -> x < b.
Proof.
  intros Hall f x Hx. cbn in Hx. unfold bfc_ref in Hx. destruct (frames a !! f) as [p |] eqn:Hp; [| done].
  cbn in Hx. injection Hx as <-. rewrite forallb_forall in Hall.
  apply list_elem_of_lookup_2, list_elem_of_In in Hp. apply Hall in Hp. lia.
Qed.

Lemma no_regions_private pte va f : shares (fun _ => None) 0 [] pte va = no_ext f.
Proof. done. Qed.

Lemma fork_isolates_witness : exists s' F',
  copy_page_table (fun _ => None) 0 [] 0 1 cow_one = Some (s', 0) /\ isolated cow_roots no_ext s' F' /\
  leaf (ram s') 0 demo_va = leaf (ram s') 1 demo_va /\ has_flag (leaf (ram s') 0 demo_va) PTE_COW = true.
Proof.
  destruct cow_one_isolated as [F I].
  destruct (fork_isolates cow_roots no_ext (fun _ => None) 0 [] 0 1 cow_one F I) as (s' & rc & Heq & (F' & I') & _ & _ & _ & Hl).
  - constructor.
  - by left.
  - by right; left.
  - done.
  - apply zero_dst_empty. vm_compute; reflexivity.
  - apply no_huge_check. vm_compute; reflexivity.
  - intros v _ _. apply no_regions_private.
  - apply small_refs_check. vm_compute; reflexivity.
  - assert (Hs : snd <$> copy_page_table (fun _ => None) 0 [] 0 1 cow_one = Some 0) by (vm_compute; reflexivity).
    rewrite Heq in Hs. cbn in Hs. injection Hs as ->. exists s', F'. split; [exact Heq |]. split; [exact I' |].
    destruct (Hl eq_refl 1024) as [H0 H1]; [unfold user_vpn; lia |]. change (va_of 1024) with demo_va in H0, H1.
    rewrite H0, H1. split; vm_compute; reflexivity.
Defined.

(** The state after the fork: the page is shared. *)
Definition cow_forked : machine bfc :=
  match copy_page_table (fun _ => None) 0 [] 0 1 cow_one with Some (s, _) => s | None => cow_one end.

Lemma cow_forked_isolated : exists F, isolated cow_roots no_ext cow_forked F.
Proof.
  destruct cow_one_isolated as [F I].
  destruct (fork_copied cow_roots no_ext (fun _ => None) 0 [] 0 1 cow_one F I) as (s' & rc & F' & vs & Heq & I' & _).
  - constructor.
  - by left.
  - by right; left.
  - done.
  - apply zero_dst_empty. vm_compute; reflexivity.
  - apply no_huge_check. vm_compute; reflexivity.
  - intros v _ _. apply no_regions_private.
  - apply small_refs_check. vm_compute; reflexivity.
  - exists F'. unfold cow_forked. by rewrite Heq.
Qed.

Lemma cow_fault_private_witness : exists s' F' F e', write_fault 1 demo_va cow_forked = Some (s', Resolved) /\
  isolated cow_roots no_ext s' F' /\ resolved cow_roots cow_forked F s' 1 1024 e'.
Proof.
  destruct cow_forked_isolated as [F I].
  destruct (cow_fault_private cow_roots no_ext cow_forked F 1 demo_va I) as (s' & res & Heq & Hres).
  - by right; left.
  - exact demo_va_user.
  - vm_compute; reflexivity.
  - vm_compute; reflexivity.
  - done.
  - assert (Hs : snd <$> write_fault 1 demo_va cow_forked = Some Resolved) by (vm_compute; reflexivity).
    rewrite Heq in Hs. cbn in Hs. injection Hs as ->. destruct Hres as (F' & e' & I' & R).
    exists s', F', F, e'. split; [exact Heq |]. split; [exact I' | exact R].
Defined.
