(* ===== verification/Vma.v ===== *)
(** * Mapping lists (kernel/xcore/mem/vma.c)

    The list of mapped regions of an address space, sorted by address, and
    the operations on it that do not touch page tables: lookup, insertion,
    splitting, merging and the protection change of a range.

    A pointer to a region of the list is a [place], the list cut at that
    region; replacing the region by pieces is filling the hole.  The objects
    that regions refer to (shared memory, inodes, device owners) are numbers,
    and their reference counts are functions.  The counts are not wrapped:
    every counted reference is held by a descriptor in memory.

    The specification is pointwise.  [view l x] is what the list says about
    address [x]: protection, backing object and offset of the byte.  Splitting
    and merging must not change it at all, changing the protection of a range
    changes the protection of the addresses of the range and nothing else. *)
From S2P Require Import Prelude Mm.

Definition USER_VMA_UPPER_BOUND : Z := 0x800000000000.
Definition SIG_TRAMPOLINE_ADDR : Z := 0x50000000.

(** ** Reference counts *)

Definition counts := nat -> Z.

Definition add_count (c : counts) (o : nat) (d : Z) : counts := fun o' => if (o' =? o)%nat then c o + d else c o'.

(** The counts of shared-memory objects, of their writable shared mappings,
    of inodes and of device owners. *)
Record objs := Objs {
  s_count : counts;
  writable_shared_mappings : counts;
  i_count : counts;
  owner_count : counts;
}.

(** [refcount_inc] and [refcount_dec_and_test] on live objects; a count that
    is not positive is a [BUG_ON]. *)
Definition get_ref (c : counts) (o : nat) : option counts := if c o <=? 0 then None else Some (add_count c o 1).
Definition put_ref (c : counts) (o : nat) : option counts := if c o <=? 0 then None else Some (add_count c o (-1)).

Definition shm_get (o : option nat) (w : objs) : option objs :=
  match o with
  | None => Some w
  | Some o => c ← get_ref (s_count w) o; Some (Objs c (writable_shared_mappings w) (i_count w) (owner_count w))
  end.

Definition shm_put (o : option nat) (w : objs) : option objs :=
  match o with
  | None => Some w
  | Some o => c ← put_ref (s_count w) o; Some (Objs c (writable_shared_mappings w) (i_count w) (owner_count w))
  end.

Definition inode_get (o : option nat) (w : objs) : option objs :=
  match o with
  | None => Some w
  | Some o => c ← get_ref (i_count w) o; Some (Objs (s_count w) (writable_shared_mappings w) c (owner_count w))
  end.

Definition inode_put (o : option nat) (w : objs) : option objs :=
  match o with
  | None => Some w
  | Some o => c ← put_ref (i_count w) o; Some (Objs (s_count w) (writable_shared_mappings w) c (owner_count w))
  end.

(** [if (r->flags & KMAP_SHM_MAYWRITE) atomic_add(d, ...)]: a fault when
    there is no shared-memory object. *)
Definition maywrite (r : mmap_region) (d : Z) (w : objs) : option objs :=
  if has_flag (flags r) KMAP_SHM_MAYWRITE then
    o ← shm_obj r;
    Some (Objs (s_count w) (add_count (writable_shared_mappings w) o d) (i_count w) (owner_count w))
  else Some w.

(** [ops->get(owner)] and [ops->put(owner)]. *)
Definition owner_get (o : nat) (w : objs) : option objs :=
  c ← get_ref (owner_count w) o; Some (Objs (s_count w) (writable_shared_mappings w) (i_count w) c).
Definition owner_put (o : nat) (w : objs) : option objs :=
  c ← put_ref (owner_count w) o; Some (Objs (s_count w) (writable_shared_mappings w) (i_count w) c).

(** ** Regions *)

Definition overlaps_signal_trampoline (start len : Z) : bool :=
  if (len =? 0) || (UINT64_MAX - len <? start) then false
  else (start <? SIG_TRAMPOLINE_ADDR + PAGE_SIZE) && (SIG_TRAMPOLINE_ADDR <? start + len).

Definition vma_reset_readahead (r : mmap_region) : mmap_region :=
  MmapRegion (vaddr r) (size r) (phys r) (shm_obj r) (prot r) (fd r) (offset r) (flags r)
    (inode r) (shm_private_src r) (owner r) UINT64_MAX 0 0 0.

Definition set_prot (r : mmap_region) (p : Z) : mmap_region :=
  MmapRegion (vaddr r) (size r) (phys r) (shm_obj r) p (fd r) (offset r) (flags r)
    (inode r) (shm_private_src r) (owner r) (ra_last_page r) (ra_next_page r) (ra_window_pages r)
    (ra_sequential_faults r).

Definition set_size (r : mmap_region) (n : Z) : mmap_region :=
  MmapRegion (vaddr r) n (phys r) (shm_obj r) (prot r) (fd r) (offset r) (flags r)
    (inode r) (shm_private_src r) (owner r) (ra_last_page r) (ra_next_page r) (ra_window_pages r)
    (ra_sequential_faults r).

Definition set_owner (r : mmap_region) (o : option nat) (f : Z) : mmap_region :=
  MmapRegion (vaddr r) (size r) (phys r) (shm_obj r) (prot r) (fd r) (offset r) f
    (inode r) (shm_private_src r) o (ra_last_page r) (ra_next_page r) (ra_window_pages r)
    (ra_sequential_faults r).

(** The copy of [r] for the piece of [n] bytes that starts [delta] bytes in. *)
Definition piece (r : mmap_region) (delta n : Z) : mmap_region :=
  MmapRegion (u64 (vaddr r + delta)) n (if phys r =? 0 then 0 else u64 (phys r + delta)) (shm_obj r) (prot r) (fd r)
    (u64 (offset r + delta)) (flags r) (inode r) (shm_private_src r) (owner r) UINT64_MAX 0 0 0.

(** ** Owners *)

Definition vma_adopt_owner (r : mmap_region) (o : option nat) : mmap_region * Z :=
  match o with
  | None => (r, - EINVAL)
  | Some _ =>
      if has_flag (flags r) KMAP_VMA_OWNER then (r, - EINVAL)
      else (set_owner r o (set_flag (flags r) KMAP_VMA_OWNER), 0)
  end.

Definition vma_attach_owner (r : mmap_region) (o : option nat) (w : objs) : option (mmap_region * objs * Z) :=
  let '(r', rc) := vma_adopt_owner r o in
  if negb (rc =? 0) then Some (r', w, rc)
  else o' ← o; w' ← owner_get o' w; Some (r', w', 0).

Definition vma_owner_get (r : mmap_region) (w : objs) : option objs :=
  if has_flag (flags r) KMAP_VMA_OWNER then o ← owner r; owner_get o w else Some w.

Definition vma_owner_put (r : mmap_region) (w : objs) : option (mmap_region * objs) :=
  if has_flag (flags r) KMAP_VMA_OWNER then
    o ← owner r;
    w' ← owner_put o w;
    Some (set_owner r None (clear_flag (flags r) KMAP_VMA_OWNER), w')
  else Some (r, w).

(** The references that a new region descriptor takes, and those that a
    descriptor about to be freed releases. *)
Definition region_get (r : mmap_region) (w : objs) : option objs :=
  w1 ← shm_get (shm_obj r) w;
  w2 ← maywrite r 1 w1;
  w3 ← inode_get (inode r) w2;
  w4 ← shm_get (shm_private_src r) w3;
  vma_owner_get r w4.

Definition region_put (r : mmap_region) (w : objs) : option objs :=
  w1 ← maywrite r (-1) w;
  w2 ← shm_put (shm_obj r) w1;
  w3 ← inode_put (inode r) w2;
  w4 ← shm_put (shm_private_src r) w3;
  '(_, w5) ← vma_owner_put r w4;
  Some w5.

(** ** The list *)

(** A pointer to a region of the list. *)
Record place := Place { before : list mmap_region; here : mmap_region; after : list mmap_region }.
Definition fill (p : place) (rs : list mmap_region) : list mmap_region := before p ++ rs ++ after p.

Fixpoint vma_find_from (pre l : list mmap_region) (addr : Z) : option place :=
  match l with
  | [] => None
  | mr :: l' =>
      if addr <? vaddr mr then None
      else if addr <? region_end mr then Some (Place pre mr l')
      else vma_find_from (pre ++ [mr]) l' addr
  end.

Definition vma_find (l : list mmap_region) (addr : Z) : option place := vma_find_from [] l addr.

Fixpoint vma_insert_sorted (l : list mmap_region) (region : mmap_region) : list mmap_region * Z :=
  match l with
  | [] => ([region], 0)
  | mr :: l' =>
      if vaddr mr <? vaddr region then let '(l'', rc) := vma_insert_sorted l' region in (mr :: l'', rc)
      else if vaddr mr =? vaddr region then (mr :: l', - EEXIST)
      else (region :: mr :: l', 0)
  end.

Fixpoint overlaps_upto (l : list mmap_region) (start end_ : Z) : bool :=
  match l with
  | [] => false
  | mr :: l' =>
      if end_ <=? vaddr mr then false
      else if start <? region_end mr then true
      else overlaps_upto l' start end_
  end.

Definition vma_overlaps (l : list mmap_region) (start len : Z) : bool := overlaps_upto l start (u64 (start + len)).

Definition vma_overlaps_any (l : list mmap_region) (start len : Z) : bool :=
  if overlaps_signal_trampoline start len then true else vma_overlaps l start len.

(** *** Splitting *)

(** The pieces that replace the region, in order: the front, the middle
    piece asked for, and the tail. *)
Record pieces := Pieces { p_front : option mmap_region; p_mid : mmap_region; p_tail : option mmap_region }.

(** The end of [vma_split]: without a front piece the old descriptor is
    freed, otherwise it is shrunk to the front piece. *)
Definition split_install (r : mmap_region) (addr delta : Z) (mid : mmap_region) (tail : option mmap_region)
    (w : objs) (m : oracle) : option (objs * oracle * option pieces) :=
  if addr =? vaddr r then
    w' ← region_put r w;
    Some (w', m, Some (Pieces None mid tail))
  else Some (w, m, Some (Pieces (Some (vma_reset_readahead (set_size r delta))) mid tail)).

Definition vma_split (r : mmap_region) (addr n : Z) (w : objs) (m : oracle)
  : option (objs * oracle * option pieces) :=
  if (n =? 0) || (addr <? vaddr r) || (region_end r <? u64 (addr + n)) then Some (w, m, None)
  else
    let r_end := region_end r in
    let delta := u64 (addr - vaddr r) in
    let '(ok, m1) := kmalloc_ok m in
    if negb ok then Some (w, m1, None)
    else
      let mid := piece r delta n in
      w1 ← region_get mid w;
      if u64 (addr + n) <? r_end then
        let '(ok2, m2) := kmalloc_ok m1 in
        if negb ok2 then w2 ← region_put mid w1; Some (w2, m2, None)
        else
          let t_delta := u64 (u64 (addr + n) - vaddr r) in
          let tail := piece r t_delta (u64 (r_end - u64 (addr + n))) in
          w2 ← region_get tail w1;
          split_install r addr delta mid (Some tail) w2 m2
      else split_install r addr delta mid None w1 m1.

(** *** Merging *)

Definition anonymous (r : mmap_region) : bool :=
  (fd r =? -1) && negb (bool_decide (is_Some (shm_obj r))) && (phys r =? 0) &&
  negb (bool_decide (is_Some (inode r))) && negb (has_flag (flags r) KMAP_VMA_OWNER) &&
  negb (bool_decide (is_Some (shm_private_src r))).

Definition mergeable (a b : mmap_region) : bool :=
  (prot a =? prot b) && (flags a =? flags b) && (region_end a =? vaddr b).

(** The list after merging the region at [p] with its neighbours. *)
Definition vma_merge (p : place) : list mmap_region :=
  if negb (anonymous (here p)) then fill p [here p]
  else
    let '(r, rest) :=
      match after p with
      | n :: rest =>
          if anonymous n && mergeable (here p) n
          then (set_size (here p) (u64 (size (here p) + size n)), rest) else (here p, after p)
      | [] => (here p, [])
      end in
    match last (before p) with
    | Some q =>
        if anonymous q && mergeable q r
        then take (length (before p) - 1) (before p) ++ set_size q (u64 (size q + size r)) :: rest
        else before p ++ r :: rest
    | None => r :: rest
    end.

(** *** Changing the protection of a range *)

Definition opt_list {A} (o : option A) : list A := match o with Some x => [x] | None => [] end.

Fixpoint vma_protect_loop (l : list mmap_region) (addr end_ p : Z) (w : objs) (m : oracle)
  : option (list mmap_region * objs * oracle * Z) :=
  match l with
  | [] => Some ([], w, m, 0)
  | cur :: next =>
      if end_ <=? vaddr cur then Some (cur :: next, w, m, 0)
      else if region_end cur <=? addr then
        '(l', w', m', rc) ← vma_protect_loop next addr end_ p w m; Some (cur :: l', w', m', rc)
      else
        let split_out a n :=
          '(w1, m1, r) ← vma_split cur a n w m;
          match r with
          | None => Some (cur :: next, w1, m1, - ENOMEM)
          | Some ps =>
              '(l', w', m', rc) ← vma_protect_loop next addr end_ p w1 m1;
              Some ((opt_list (p_front ps) ++ set_prot (p_mid ps) p :: opt_list (p_tail ps)) ++ l', w', m', rc)
          end in
        if vaddr cur <? addr then
          split_out addr (if region_end cur <? end_ then u64 (region_end cur - addr) else u64 (end_ - addr))
        else if end_ <? region_end cur then split_out (vaddr cur) (u64 (end_ - vaddr cur))
        else '(l', w', m', rc) ← vma_protect_loop next addr end_ p w m; Some (set_prot cur p :: l', w', m', rc)
  end.

Definition vma_protect_range (l : list mmap_region) (addr len p : Z) (w : objs) (m : oracle)
  : option (list mmap_region * objs * oracle * Z) :=
  vma_protect_loop l addr (u64 (addr + len)) p w m.

#[local] Arguments Z.eqb : simpl never.
#[local] Arguments Z.leb : simpl never.
#[local] Arguments Z.ltb : simpl never.
#[local] Arguments u64 : simpl never.

(** ** Reference accounting *)

Definition hits (o : option nat) (o' : nat) : Z := if bool_decide (o = Some o') then 1 else 0.

(** The references that one region descriptor owns. *)
Definition s_refs (r : mmap_region) (o : nat) : Z := hits (shm_obj r) o + hits (shm_private_src r) o.
Definition w_refs (r : mmap_region) (o : nat) : Z :=
  if has_flag (flags r) KMAP_SHM_MAYWRITE then hits (shm_obj r) o else 0.
Definition i_refs (r : mmap_region) (o : nat) : Z := hits (inode r) o.
Definition o_refs (r : mmap_region) (o : nat) : Z :=
  if has_flag (flags r) KMAP_VMA_OWNER then hits (owner r) o else 0.

Fixpoint total (f : mmap_region -> nat -> Z) (l : list mmap_region) (o : nat) : Z :=
  match l with [] => 0 | r :: l' => f r o + total f l' o end.

(** The counts [w] are the references of the regions [l] and of [x], the
    holders outside the list. *)
Record balanced (w : objs) (l : list mmap_region) (x : objs) : Prop := {
  b_shm : forall o, s_count w o = s_count x o + total s_refs l o;
  b_wr : forall o, writable_shared_mappings w o = writable_shared_mappings x o + total w_refs l o;
  b_ino : forall o, i_count w o = i_count x o + total i_refs l o;
  b_own : forall o, owner_count w o = owner_count x o + total o_refs l o;
}.

(** Nobody outside holds a negative number of references. *)
Record outside_ok (x : objs) : Prop := {
  x_shm : forall o, 0 <= s_count x o;
  x_ino : forall o, 0 <= i_count x o;
  x_own : forall o, 0 <= owner_count x o;
}.

(** The flags that promise an object. *)
Definition has_objs (r : mmap_region) : Prop :=
  (has_flag (flags r) KMAP_SHM_MAYWRITE = true -> is_Some (shm_obj r)) /\
  (has_flag (flags r) KMAP_VMA_OWNER = true -> is_Some (owner r)).

Lemma hits_nonneg o o' : 0 <= hits o o'.
Proof. unfold hits. case_bool_decide; lia. Qed.

Lemma hits_eq o : hits (Some o) o = 1.
Proof. unfold hits. by rewrite bool_decide_true. Qed.

Lemma refs_nonneg r o : 0 <= s_refs r o /\ 0 <= i_refs r o /\ 0 <= o_refs r o.
Proof.
  unfold s_refs, i_refs, o_refs. pose proof (hits_nonneg (shm_obj r) o). pose proof (hits_nonneg (shm_private_src r) o).
  pose proof (hits_nonneg (inode r) o). pose proof (hits_nonneg (owner r) o). case_match; lia.
Qed.

Lemma total_nonneg (f : mmap_region -> nat -> Z) l o : (forall r, 0 <= f r o) -> 0 <= total f l o.
Proof. intros Hf. induction l as [| r l IH]; cbn; [lia |]. specialize (Hf r). lia. Qed.

Lemma total_app f l1 l2 o : total f (l1 ++ l2) o = total f l1 o + total f l2 o.
Proof. induction l1 as [| r l1 IH]; cbn; [done | lia]. Qed.

Lemma total_perm f l1 l2 o : l1 ≡ₚ l2 -> total f l1 o = total f l2 o.
Proof. induction 1; cbn; lia. Qed.

Lemma balanced_perm w l1 l2 x : l1 ≡ₚ l2 -> balanced w l1 x -> balanced w l2 x.
Proof. intros Hp [H1 H2 H3 H4]. constructor; intros o; by rewrite <- (total_perm _ l1 l2). Qed.

(** Regions that own the same references. *)
Definition same_refs (a b : mmap_region) : Prop :=
  shm_obj a = shm_obj b /\ shm_private_src a = shm_private_src b /\ inode a = inode b /\ owner a = owner b /\
  flags a = flags b.

Lemma balanced_swap w a b l x : same_refs a b -> balanced w (a :: l) x -> balanced w (b :: l) x.
Proof.
  intros (E1 & E2 & E3 & E4 & E5) [H1 H2 H3 H4].
  constructor; intros o; [rewrite H1 | rewrite H2 | rewrite H3 | rewrite H4]; cbn [total];
    unfold s_refs, w_refs, i_refs, o_refs; by rewrite ?E1, ?E2, ?E3, ?E4, ?E5.
Qed.

Lemma get_ref_ok c o : 0 < c o -> exists c', get_ref c o = Some c' /\ forall o', c' o' = c o' + hits (Some o) o'.
Proof.
  intros Hc. unfold get_ref. rewrite (proj2 (Z.leb_gt _ _) Hc). eexists. split; [done |]. intros o'.
  unfold add_count, hits. destruct (Nat.eqb_spec o' o) as [-> | ?]; case_bool_decide; simplify_eq; lia.
Qed.

Lemma put_ref_ok c o : 0 < c o -> exists c', put_ref c o = Some c' /\ forall o', c' o' = c o' - hits (Some o) o'.
Proof.
  intros Hc. unfold put_ref. rewrite (proj2 (Z.leb_gt _ _) Hc). eexists. split; [done |]. intros o'.
  unfold add_count, hits. destruct (Nat.eqb_spec o' o) as [-> | ?]; case_bool_decide; simplify_eq; lia.
Qed.

Lemma hits_none o : hits None o = 0.
Proof. done. Qed.

(** One step on one of the four counts; [sg] is 1 or -1. *)
Definition moved_by (w w' : objs) (ds dw di do_ : nat -> Z) : Prop :=
  (forall o, s_count w' o = s_count w o + ds o) /\
  (forall o, writable_shared_mappings w' o = writable_shared_mappings w o + dw o) /\
  (forall o, i_count w' o = i_count w o + di o) /\
  (forall o, owner_count w' o = owner_count w o + do_ o).

Definition nil_refs (o : nat) : Z := 0.

Lemma shm_get_ok o w : (forall p, o = Some p -> 0 < s_count w p) ->
  exists w', shm_get o w = Some w' /\ moved_by w w' (hits o) nil_refs nil_refs nil_refs.
Proof.
  intros Hc. destruct o as [p |]; cbn [shm_get].
  - destruct (get_ref_ok (s_count w) p (Hc p eq_refl)) as (c & -> & Hc'). cbn. eexists. split; [done |].
    unfold moved_by, nil_refs. cbn. split_and!; intros; [apply Hc' | lia ..].
  - exists w. split; [done |]. unfold moved_by, nil_refs. split_and!; intros; rewrite ?hits_none; lia.
Qed.

Lemma shm_put_ok o w : (forall p, o = Some p -> 0 < s_count w p) ->
  exists w', shm_put o w = Some w' /\ moved_by w w' (fun p => - hits o p) nil_refs nil_refs nil_refs.
Proof.
  intros Hc. destruct o as [p |]; cbn [shm_put].
  - destruct (put_ref_ok (s_count w) p (Hc p eq_refl)) as (c & -> & Hc'). cbn. eexists. split; [done |].
    unfold moved_by, nil_refs. cbn. split_and!; intros; [rewrite Hc'; lia | lia ..].
  - exists w. split; [done |]. unfold moved_by, nil_refs. split_and!; intros; rewrite ?hits_none; lia.
Qed.

Lemma inode_get_ok o w : (forall p, o = Some p -> 0 < i_count w p) ->
  exists w', inode_get o w = Some w' /\ moved_by w w' nil_refs nil_refs (hits o) nil_refs.
Proof.
  intros Hc. destruct o as [p |]; cbn [inode_get].
  - destruct (get_ref_ok (i_count w) p (Hc p eq_refl)) as (c & -> & Hc'). cbn. eexists. split; [done |].
    unfold moved_by, nil_refs. cbn. split_and!; intros; [lia | lia | apply Hc' | lia].
  - exists w. split; [done |]. unfold moved_by, nil_refs. split_and!; intros; rewrite ?hits_none; lia.
Qed.

Lemma inode_put_ok o w : (forall p, o = Some p -> 0 < i_count w p) ->
  exists w', inode_put o w = Some w' /\ moved_by w w' nil_refs nil_refs (fun p => - hits o p) nil_refs.
Proof.
  intros Hc. destruct o as [p |]; cbn [inode_put].
  - destruct (put_ref_ok (i_count w) p (Hc p eq_refl)) as (c & -> & Hc'). cbn. eexists. split; [done |].
    unfold moved_by, nil_refs. cbn. split_and!; intros; [lia | lia | rewrite Hc'; lia | lia].
  - exists w. split; [done |]. unfold moved_by, nil_refs. split_and!; intros; rewrite ?hits_none; lia.
Qed.

Lemma maywrite_ok r d w : (has_flag (flags r) KMAP_SHM_MAYWRITE = true -> is_Some (shm_obj r)) ->
  exists w', maywrite r d w = Some w' /\ moved_by w w' nil_refs (fun p => d * w_refs r p) nil_refs nil_refs.
Proof.
  intros Hs. unfold maywrite, w_refs. destruct (has_flag (flags r) KMAP_SHM_MAYWRITE).
  - destruct (Hs eq_refl) as [o Ho]. rewrite Ho. cbn. eexists. split; [done |].
    unfold moved_by, nil_refs, add_count. cbn. split_and!; intros; try lia.
    unfold hits. destruct (Nat.eqb_spec o0 o) as [-> | ?]; case_bool_decide; simplify_eq; lia.
  - exists w. split; [done |]. unfold moved_by, nil_refs. split_and!; intros; lia.
Qed.

Lemma vma_owner_get_ok r w : (has_flag (flags r) KMAP_VMA_OWNER = true -> exists o, owner r = Some o /\ 0 < owner_count w o) ->
  exists w', vma_owner_get r w = Some w' /\ moved_by w w' nil_refs nil_refs nil_refs (o_refs r).
Proof.
  intros Ho. unfold vma_owner_get, o_refs. destruct (has_flag (flags r) KMAP_VMA_OWNER).
  - destruct (Ho eq_refl) as (o & Hr & Hc). rewrite Hr. cbn. unfold owner_get.
    destruct (get_ref_ok (owner_count w) o Hc) as (c & -> & Hc'). cbn. eexists. split; [done |].
    unfold moved_by, nil_refs. cbn. split_and!; intros; [lia | lia | lia | apply Hc'].
  - exists w. split; [done |]. unfold moved_by, nil_refs. split_and!; intros; lia.
Qed.

Lemma vma_owner_put_ok r w : (has_flag (flags r) KMAP_VMA_OWNER = true -> exists o, owner r = Some o /\ 0 < owner_count w o) ->
  exists r' w', vma_owner_put r w = Some (r', w') /\ moved_by w w' nil_refs nil_refs nil_refs (fun p => - o_refs r p).
Proof.
  intros Ho. unfold vma_owner_put, o_refs. destruct (has_flag (flags r) KMAP_VMA_OWNER).
  - destruct (Ho eq_refl) as (o & Hr & Hc). rewrite Hr. cbn. unfold owner_put.
    destruct (put_ref_ok (owner_count w) o Hc) as (c & -> & Hc'). cbn. do 2 eexists. split; [done |].
    unfold moved_by, nil_refs. cbn. split_and!; intros; [lia | lia | lia | rewrite Hc'; lia].
  - exists r, w. split; [done |]. unfold moved_by, nil_refs. split_and!; intros; lia.
Qed.

(** The objects of [r] are referenced. *)
Record alive (r : mmap_region) (w : objs) : Prop := {
  a_shm : forall o, s_refs r o <= s_count w o;
  a_ino : forall o, i_refs r o <= i_count w o;
  a_own : forall o, o_refs r o <= owner_count w o;
}.

Lemma balanced_alive w l x r r' : outside_ok x -> balanced w l x -> r ∈ l -> same_refs r r' -> alive r' w.
Proof.
  intros [X1 X2 X3] [B1 B2 B3 B4] (l1 & l2 & ->)%list_elem_of_split (E1 & E2 & E3 & E4 & E5).
  assert (Hge : forall (f : mmap_region -> nat -> Z) o, (forall r, 0 <= f r o) -> f r o <= total f (l1 ++ r :: l2) o).
  { intros f o Hf. rewrite total_app. cbn [total]. pose proof (total_nonneg f l1 o Hf).
    pose proof (total_nonneg f l2 o Hf). lia. }
  constructor; intros o.
  - replace (s_refs r' o) with (s_refs r o) by (unfold s_refs; by rewrite E1, E2). rewrite B1.
    specialize (X1 o). pose proof (Hge s_refs o (fun r => proj1 (refs_nonneg r o))). lia.
  - replace (i_refs r' o) with (i_refs r o) by (unfold i_refs; by rewrite E3). rewrite B3.
    specialize (X2 o). pose proof (Hge i_refs o (fun r => proj1 (proj2 (refs_nonneg r o)))). lia.
  - replace (o_refs r' o) with (o_refs r o) by (unfold o_refs; by rewrite E4, E5). rewrite B4.
    specialize (X3 o). pose proof (Hge o_refs o (fun r => proj2 (proj2 (refs_nonneg r o)))). lia.
Qed.

Lemma region_get_ok w l x r : alive r w -> has_objs r -> balanced w l x ->
  exists w', region_get r w = Some w' /\ balanced w' (r :: l) x.
Proof.
  intros [A1 A2 A3] [Hw Ho] [B1 B2 B3 B4]. unfold region_get.
  destruct (shm_get_ok (shm_obj r) w) as (w1 & -> & S1 & W1 & I1 & O1).
  { intros p Hp. specialize (A1 p). unfold s_refs in A1. rewrite Hp, hits_eq in A1.
    pose proof (hits_nonneg (shm_private_src r) p). lia. }
  cbn [mbind option_bind]. destruct (maywrite_ok r 1 w1 Hw) as (w2 & -> & S2 & W2 & I2 & O2). cbn [mbind option_bind].
  destruct (inode_get_ok (inode r) w2) as (w3 & -> & S3 & W3 & I3 & O3).
  { intros p Hp. specialize (A2 p). unfold i_refs in A2. rewrite Hp, hits_eq in A2.
    rewrite I2, I1. unfold nil_refs. lia. }
  cbn [mbind option_bind]. destruct (shm_get_ok (shm_private_src r) w3) as (w4 & -> & S4 & W4 & I4 & O4).
  { intros p Hp. specialize (A1 p). unfold s_refs in A1. rewrite Hp, hits_eq in A1.
    pose proof (hits_nonneg (shm_obj r) p). rewrite S3, S2, S1. unfold nil_refs. lia. }
  cbn [mbind option_bind]. destruct (vma_owner_get_ok r w4) as (w5 & -> & S5 & W5 & I5 & O5).
  { intros Hf. destruct (Ho Hf) as [p Hp]. exists p. split; [done |]. specialize (A3 p). unfold o_refs in A3.
    rewrite Hf, Hp, hits_eq in A3. rewrite O4, O3, O2, O1. unfold nil_refs. lia. }
  exists w5. split; [done |]. unfold nil_refs in *.
  constructor; intros o; cbn [total]; [rewrite S5, S4, S3, S2, S1, B1 | rewrite W5, W4, W3, W2, W1, B2
    | rewrite I5, I4, I3, I2, I1, B3 | rewrite O5, O4, O3, O2, O1, B4]; unfold s_refs, i_refs; lia.
Qed.

Lemma region_put_ok w l x r : has_objs r -> outside_ok x -> balanced w (r :: l) x ->
  exists w', region_put r w = Some w' /\ balanced w' l x.
Proof.
  intros [Hw Ho] Hx B.
  assert (Hal : alive r w) by (by eapply balanced_alive; [exact Hx | exact B | left |]).
  destruct Hal as [A1 A2 A3], B as [B1 B2 B3 B4]. unfold region_put.
  destruct (maywrite_ok r (-1) w Hw) as (w1 & -> & S1 & W1 & I1 & O1). cbn [mbind option_bind].
  destruct (shm_put_ok (shm_obj r) w1) as (w2 & -> & S2 & W2 & I2 & O2).
  { intros p Hp. specialize (A1 p). unfold s_refs in A1. rewrite Hp, hits_eq in A1.
    pose proof (hits_nonneg (shm_private_src r) p). rewrite S1. unfold nil_refs. lia. }
  cbn [mbind option_bind]. destruct (inode_put_ok (inode r) w2) as (w3 & -> & S3 & W3 & I3 & O3).
  { intros p Hp. specialize (A2 p). unfold i_refs in A2. rewrite Hp, hits_eq in A2.
    rewrite I2, I1. unfold nil_refs. lia. }
  cbn [mbind option_bind]. destruct (shm_put_ok (shm_private_src r) w3) as (w4 & -> & S4 & W4 & I4 & O4).
  { intros p Hp. specialize (A1 p). unfold s_refs in A1. rewrite Hp, hits_eq in A1.
    rewrite S3, S2, S1. unfold nil_refs. lia. }
  cbn [mbind option_bind]. destruct (vma_owner_put_ok r w4) as (r' & w5 & -> & S5 & W5 & I5 & O5).
  { intros Hf. destruct (Ho Hf) as [p Hp]. exists p. split; [done |]. specialize (A3 p). unfold o_refs in A3.
    rewrite Hf, Hp, hits_eq in A3. rewrite O4, O3, O2, O1. unfold nil_refs. lia. }
  cbn [mbind option_bind]. exists w5. split; [done |]. unfold nil_refs in *.
  constructor; intros o;
    [specialize (B1 o); rewrite S5, S4, S3, S2, S1 | specialize (B2 o); rewrite W5, W4, W3, W2, W1
    | specialize (B3 o); rewrite I5, I4, I3, I2, I1 | specialize (B4 o); rewrite O5, O4, O3, O2, O1];
    cbn [total] in *; unfold s_refs, i_refs in *; lia.
Qed.

(** ** The list as a function of the address *)

(** What a region says about one of its addresses.  The offset of an
    anonymous mapping has no meaning. *)
Record attrs := Attrs {
  at_prot : Z;
  at_phys : Z;
  at_off : Z;
  at_flags : Z;
  at_fd : Z;
  at_shm : option nat;
  at_inode : option nat;
  at_private : option nat;
  at_owner : option nat;
}.

Definition attr_at (r : mmap_region) (x : Z) : attrs :=
  Attrs (prot r) (if phys r =? 0 then 0 else phys r + (x - vaddr r))
    (if anonymous r then 0 else u64 (offset r + (x - vaddr r)))
    (flags r) (fd r) (shm_obj r) (inode r) (shm_private_src r) (if anonymous r then None else owner r).

Definition with_prot (p : Z) (a : attrs) : attrs :=
  Attrs p (at_phys a) (at_off a) (at_flags a) (at_fd a) (at_shm a) (at_inode a) (at_private a) (at_owner a).

Definition covers (r : mmap_region) (x : Z) : bool := (vaddr r <=? x) && (x <? vaddr r + size r).

Fixpoint view (l : list mmap_region) (x : Z) : option attrs :=
  match l with
  | [] => None
  | r :: l' => if covers r x then Some (attr_at r x) else view l' x
  end.

Record region_ok (r : mmap_region) : Prop := {
  ro_start : 0 <= vaddr r;
  ro_size : 0 < size r;
  ro_end : vaddr r + size r <= USER_VMA_UPPER_BOUND;
  ro_phys : phys r = 0 \/ (0 < phys r /\ phys r + size r <= 2 ^ 64);
  ro_objs : has_objs r;
}.

(** Sorted by address, without overlaps. *)
Fixpoint wf_from (b : Z) (l : list mmap_region) : Prop :=
  match l with
  | [] => True
  | r :: l' => region_ok r /\ b <= vaddr r /\ wf_from (vaddr r + size r) l'
  end.
Definition wf (l : list mmap_region) : Prop := wf_from 0 l.

Lemma region_end_ok r : region_ok r -> region_end r = vaddr r + size r.
Proof. intros [H1 H2 H3 _ _]. unfold region_end, USER_VMA_UPPER_BOUND in *. apply u64_small. lia. Qed.

Lemma wf_from_weaken b b' l : b' <= b -> wf_from b l -> wf_from b' l.
Proof. destruct l as [| r l]; [done |]. cbn. intros Hb (? & ? & ?). split_and!; [done | lia | done]. Qed.

Lemma wf_from_app b l1 l2 : wf_from b (l1 ++ l2) <->
  wf_from b l1 /\ wf_from (default b ((fun r => vaddr r + size r) <$> last l1)) l2.
Proof.
  revert b. induction l1 as [| r l1 IH]; intros b; cbn [app]; [cbn; tauto |].
  cbn [wf_from]. rewrite IH. destruct l1 as [| r' l1]; [cbn; tauto |].
  replace (last (r :: r' :: l1)) with (last (r' :: l1)) by done.
  destruct (last (r' :: l1)) eqn:Hl; [cbn; tauto |]. by apply last_None in Hl.
Qed.

Lemma view_app l1 l2 x : view (l1 ++ l2) x = match view l1 x with Some a => Some a | None => view l2 x end.
Proof. induction l1 as [| r l1 IH]; cbn; [done |]. by destruct (covers r x). Qed.

Lemma view_below b l x : wf_from b l -> x < b -> view l x = None.
Proof.
  revert b. induction l as [| r l IH]; intros b; [done |]. cbn. intros (Hok & Hb & Hl) Hx.
  unfold covers. rewrite (proj2 (Z.leb_gt _ _)) by lia. cbn. destruct Hok. apply (IH _ Hl). lia.
Qed.

(** A piece of a region says the same about its addresses. *)
Lemma piece_spec r delta n : region_ok r -> 0 <= delta -> 0 < n -> delta + n <= size r ->
  region_ok (piece r delta n) /\ same_refs r (piece r delta n) /\
  vaddr (piece r delta n) = vaddr r + delta /\ size (piece r delta n) = n /\
  (forall x, covers (piece r delta n) x = true -> attr_at (piece r delta n) x = attr_at r x).
Proof.
  intros [H1 H2 H3 H4 H5] Hd Hn Hs. unfold USER_VMA_UPPER_BOUND in *.
  assert (Hv : u64 (vaddr r + delta) = vaddr r + delta) by (apply u64_small; lia).
  assert (Hph : phys r <> 0 -> u64 (phys r + delta) = phys r + delta).
  { intros ?. destruct H4 as [? | [? ?]]; [done |]. apply u64_small. lia. }
  assert (Han : anonymous (piece r delta n) = anonymous r).
  { unfold anonymous. cbn. destruct (Z.eqb_spec (phys r) 0) as [Hz | Hp]; [done |].
    rewrite Hph by done. by rewrite (proj2 (Z.eqb_neq (phys r + delta) 0)) by lia. }
  split_and!; try done.
  - constructor; cbn; rewrite ?Hv; [lia | lia | unfold USER_VMA_UPPER_BOUND; lia | | done].
    destruct (Z.eqb_spec (phys r) 0) as [Hz | Hp]; [by left | right]. rewrite Hph by done. lia.
  - intros x Hx. unfold attr_at. rewrite Han. cbn. rewrite Hv. f_equal.
    + destruct (Z.eqb_spec (phys r) 0) as [Hz | Hp]; [by rewrite ?Hz |].
      rewrite Hph by done. rewrite (proj2 (Z.eqb_neq (phys r + delta) 0)) by lia. lia.
    + case_match; [done |]. unfold u64. rewrite Zplus_mod_idemp_l. f_equal. lia.
Qed.

Lemma front_spec r n : region_ok r -> 0 < n <= size r -> let f := vma_reset_readahead (set_size r n) in
  region_ok f /\ same_refs r f /\ vaddr f = vaddr r /\ size f = n /\ forall x, attr_at f x = attr_at r x.
Proof.
  intros [H1 H2 H3 H4 H5] Hn. split_and!; try done. constructor; cbn; try done; try lia.
Qed.

(** ** Splitting *)

Definition piece_list (ps : pieces) : list mmap_region :=
  opt_list (p_front ps) ++ p_mid ps :: opt_list (p_tail ps).

(** [ps] splits [r] at [addr] and [addr + n]. *)
Record splits (r : mmap_region) (addr n : Z) (ps : pieces) : Prop := {
  sp_range : vaddr r <= addr /\ 0 < n /\ addr + n <= vaddr r + size r;
  sp_ok : Forall region_ok (piece_list ps);
  sp_refs : Forall (same_refs r) (piece_list ps);
  sp_mid : vaddr (p_mid ps) = addr /\ size (p_mid ps) = n /\
    forall x, covers (p_mid ps) x = true -> attr_at (p_mid ps) x = attr_at r x;
  sp_front : match p_front ps with
    | None => addr = vaddr r
    | Some f => vaddr f = vaddr r /\ size f = addr - vaddr r /\ forall x, covers f x = true -> attr_at f x = attr_at r x
    end;
  sp_tail : match p_tail ps with
    | None => addr + n = vaddr r + size r
    | Some t => vaddr t = addr + n /\ vaddr t + size t = vaddr r + size r /\
        forall x, covers t x = true -> attr_at t x = attr_at r x
    end;
}.

(** What follows the middle piece. *)
Definition tail_ok (r : mmap_region) (mid_end : Z) (tail : option mmap_region) : Prop :=
  match tail with
  | None => mid_end = vaddr r + size r
  | Some t => region_ok t /\ same_refs r t /\ vaddr t = mid_end /\ vaddr t + size t = vaddr r + size r /\
      forall y, covers t y = true -> attr_at t y = attr_at r y
  end.

(** The outcome of a split in a list where [r] is followed or preceded by
    [l]: the pieces, or out of memory and nothing changed. *)
Definition split_result (r : mmap_region) (addr n : Z) (l : list mmap_region) (x : objs) (m : oracle)
    (res : option (objs * oracle * option pieces)) : Prop :=
  exists w' m' ps, res = Some (w', m', ps) /\ (no_oom m -> no_oom m' /\ is_Some ps) /\
    match ps with
    | None => balanced w' (r :: l) x
    | Some ps => splits r addr n ps /\ balanced w' (piece_list ps ++ l) x
    end.

Lemma split_install_ok r addr n mid tail w m m0 l x : region_ok r -> outside_ok x ->
  vaddr r <= addr -> 0 < n -> addr + n <= vaddr r + size r ->
  region_ok mid -> same_refs r mid -> vaddr mid = addr -> size mid = n ->
  (forall y, covers mid y = true -> attr_at mid y = attr_at r y) ->
  tail_ok r (addr + n) tail -> (no_oom m0 -> no_oom m) -> balanced w (opt_list tail ++ mid :: r :: l) x ->
  split_result r addr n l x m0 (split_install r addr (addr - vaddr r) mid tail w m).
Proof.
  intros Hr Hx Ha Hn Hend Mok Mref Mva Msz Mat Ht Hm B. pose proof Hr as [H1 H2 H3 H4 H5].
  assert (Htail : Forall region_ok (opt_list tail) /\ Forall (same_refs r) (opt_list tail)).
  { destruct tail; cbn; [destruct Ht as (? & ? & _); by rewrite !Forall_singleton | by split; constructor]. }
  destruct Htail as [Tok Tref]. unfold split_install. destruct (Z.eqb_spec addr (vaddr r)) as [Heq | Hneq].
  - destruct (region_put_ok w (opt_list tail ++ mid :: l) x r H5 Hx) as (w3 & -> & B3).
    { eapply balanced_perm; [| exact B]. solve_Permutation. }
    cbn [mbind option_bind]. do 3 eexists. split_and!; [done | auto |]. split.
    + constructor; cbn [p_front p_mid p_tail piece_list opt_list app]; [done | by constructor | by constructor | done | done |].
      destruct tail; cbn in Ht; tauto.
    + eapply balanced_perm; [| exact B3]. unfold piece_list. cbn [p_front p_mid p_tail opt_list app]. solve_Permutation.
  - destruct (front_spec r (addr - vaddr r) Hr ltac:(lia)) as (Fok & Fref & Fva & Fsz & Fat).
    set (f := vma_reset_readahead (set_size r (addr - vaddr r))) in *.
    do 3 eexists. split_and!; [done | auto |]. split.
    + constructor; cbn [p_front p_mid p_tail piece_list opt_list app];
        [done | constructor; [done | by constructor] | constructor; [done | by constructor] | done | by split_and! |]. destruct tail; cbn in Ht; tauto.
    + apply (balanced_perm w (f :: opt_list tail ++ mid :: l)).
      * unfold piece_list. cbn [p_front p_mid p_tail opt_list app]. solve_Permutation.
      * apply (balanced_swap w r); [done |]. eapply balanced_perm; [| exact B]. solve_Permutation.
Qed.

Lemma vma_split_ok r addr n w m l x : region_ok r -> vaddr r <= addr -> 0 < n -> addr + n <= vaddr r + size r ->
  outside_ok x -> balanced w (r :: l) x -> split_result r addr n l x m (vma_split r addr n w m).
Proof.
  intros Hr Ha Hn Hend Hx B. pose proof Hr as [H1 H2 H3 H4 H5]. unfold USER_VMA_UPPER_BOUND in H3.
  unfold vma_split. rewrite (region_end_ok r Hr).
  rewrite (proj2 (Z.eqb_neq n 0)), (proj2 (Z.ltb_ge addr _)), (u64_small (addr + n)), (proj2 (Z.ltb_ge _ (addr + n))) by lia.
  cbn [orb]. rewrite (u64_small (addr - vaddr r)) by lia.
  destruct (kmalloc_ok m) as [ok m1] eqn:Hk.
  assert (Hno : no_oom m -> ok = true /\ no_oom m1) by (intros Hm; by pose proof (kmalloc_ok_no_oom m Hm) as Hm'; rewrite Hk in Hm').
  destruct ok; cbn [negb]; [| exists w, m1, None; split_and!; [done | intros []%Hno; done | done]].
  destruct (piece_spec r (addr - vaddr r) n Hr ltac:(lia) Hn ltac:(lia)) as (Mok & Mref & Mva & Msz & Mat).
  set (mid := piece r (addr - vaddr r) n) in *. replace (vaddr r + (addr - vaddr r)) with addr in Mva by lia.
  destruct (region_get_ok w (r :: l) x mid) as (w1 & -> & B1); [by eapply balanced_alive; [| | left |] | by apply Mok | done |].
  cbn [mbind option_bind].
  assert (Hdone : forall w2 m2 tail, (no_oom m -> no_oom m2) -> balanced w2 (opt_list tail ++ mid :: r :: l) x ->
    tail_ok r (addr + n) tail -> split_result r addr n l x m (split_install r addr (addr - vaddr r) mid tail w2 m2)).
  { intros w2 m2 tail Hm2 B2 Ht. by apply split_install_ok. }
  destruct (Z.ltb_spec (addr + n) (vaddr r + size r)) as [Hlt | Hge].
  2:{ apply Hdone; [by intros []%Hno | done | cbn; lia]. }
  destruct (kmalloc_ok m1) as [ok2 m2] eqn:Hk2.
  assert (Hno2 : no_oom m -> ok2 = true /\ no_oom m2).
  { intros [_ Hm]%Hno. by pose proof (kmalloc_ok_no_oom m1 Hm) as Hm'; rewrite Hk2 in Hm'. }
  destruct ok2; cbn [negb].
  - rewrite (u64_small (addr + n - vaddr r)), (u64_small (vaddr r + size r - (addr + n))) by lia.
    destruct (piece_spec r (addr + n - vaddr r) (vaddr r + size r - (addr + n)) Hr ltac:(lia) ltac:(lia) ltac:(lia))
      as (Tok & Tref & Tva & Tsz & Tat).
    set (t := piece r (addr + n - vaddr r) (vaddr r + size r - (addr + n))) in *.
    destruct (region_get_ok w1 (mid :: r :: l) x t) as (w2 & -> & B2);
      [by eapply balanced_alive; [| | right; left |] | by apply Tok | done |].
    cbn [mbind option_bind]. apply Hdone; [by intros []%Hno2 | done |]. split_and!; try done; lia.
  - unfold split_result. destruct (region_put_ok w1 (r :: l) x mid (ro_objs _ Mok) Hx B1) as (w2 & -> & B2). cbn [mbind option_bind].
    do 3 eexists. split_and!; [done | by intros []%Hno2 | done].
Qed.

Lemma covers_iff r x : covers r x = true <-> vaddr r <= x < vaddr r + size r.
Proof. unfold covers. rewrite andb_true_iff, Z.leb_le, Z.ltb_lt. done. Qed.

Lemma covers_false r x : covers r x = false <-> x < vaddr r \/ vaddr r + size r <= x.
Proof. rewrite <- not_true_iff_false, covers_iff. lia. Qed.

(** What the pieces before and after the middle say. *)
Lemma front_view r addr n ps x : splits r addr n ps ->
  view (opt_list (p_front ps)) x = if (vaddr r <=? x) && (x <? addr) then Some (attr_at r x) else None.
Proof.
  intros [(S1 & S2 & S3) _ _ _ Hf _]. destruct (p_front ps) as [f |]; cbn [opt_list view].
  - destruct Hf as (Hv & He & Hat).
    replace ((vaddr r <=? x) && (x <? addr)) with (covers f x) by (unfold covers; by rewrite Hv, He, Zplus_minus).
    destruct (covers f x) eqn:Hc; [by rewrite Hat | done].
  - destruct (Z.leb_spec (vaddr r) x), (Z.ltb_spec x addr); cbn; try done. lia.
Qed.

Lemma tail_view r addr n ps x : splits r addr n ps ->
  view (opt_list (p_tail ps)) x = if (addr + n <=? x) && (x <? vaddr r + size r) then Some (attr_at r x) else None.
Proof.
  intros [(S1 & S2 & S3) _ _ _ _ Ht]. destruct (p_tail ps) as [t |]; cbn [opt_list view].
  - destruct Ht as (Hv & He & Hat).
    replace ((addr + n <=? x) && (x <? vaddr r + size r)) with (covers t x) by (unfold covers; by rewrite He, Hv).
    destruct (covers t x) eqn:Hc; [by rewrite Hat | done].
  - destruct (Z.leb_spec (addr + n) x), (Z.ltb_spec x (vaddr r + size r)); cbn; try done. lia.
Qed.

(** The pieces, with the middle one replaced by a region on the same
    addresses, in front of the rest of the list. *)
Lemma splits_view r addr n ps mid' l x : splits r addr n ps -> vaddr mid' = addr -> size mid' = n ->
  view (opt_list (p_front ps) ++ mid' :: opt_list (p_tail ps) ++ l) x =
  if covers r x then Some (if covers mid' x then attr_at mid' x else attr_at r x) else view l x.
Proof.
  intros Hsp Hva Hsz. rewrite view_app. cbn [view]. rewrite view_app. pose proof (sp_range _ _ _ _ Hsp).
  rewrite (front_view r addr n), (tail_view r addr n) by done. unfold covers. rewrite Hva, Hsz.
  destruct (Z.leb_spec (vaddr r) x), (Z.ltb_spec x addr), (Z.leb_spec (addr + n) x), (Z.ltb_spec x (vaddr r + size r)),
    (Z.leb_spec addr x), (Z.ltb_spec x (addr + n)); cbn; try done; exfalso; lia.
Qed.

Lemma splits_wf r addr n ps mid' l b : splits r addr n ps -> region_ok mid' -> vaddr mid' = addr -> size mid' = n ->
  b <= vaddr r -> wf_from (vaddr r + size r) l ->
  wf_from b (opt_list (p_front ps) ++ mid' :: opt_list (p_tail ps) ++ l).
Proof.
  intros [Hrg Hok _ _ Hf Ht] Hm Hva Hsz Hb Hl. unfold piece_list in Hok. apply Forall_app in Hok as [Fok [_ Tok]%Forall_cons].
  assert (Htl : wf_from (addr + n) (opt_list (p_tail ps) ++ l)).
  { destruct (p_tail ps) as [t |]; cbn in *.
    - rewrite Forall_singleton in Tok. split; [exact Tok |]. split; [lia |]. by replace (vaddr t + size t) with (vaddr r + size r) by lia.
    - eapply wf_from_weaken; [| exact Hl]. lia. }
  destruct (p_front ps) as [f |]; cbn in *.
  - rewrite Forall_singleton in Fok. rewrite Hva, Hsz. split_and!; [done | lia | done | lia | done].
  - rewrite Hva, Hsz. split_and!; [done | lia | done].
Qed.

(** ** Changing the protection of a range *)

Lemma set_prot_spec r p : region_ok r -> region_ok (set_prot r p) /\ same_refs r (set_prot r p) /\
  forall x, attr_at (set_prot r p) x = with_prot p (attr_at r x).
Proof. intros [H1 H2 H3 H4 H5]. split_and!; done. Qed.

(** What the loop has done to the list [l]: the addresses from [addr] to
    [stop] have protection [p]; [stop] is the end of the range unless memory
    ran out. *)
Record protected (l : list mmap_region) (b addr end_ p : Z) (l' : list mmap_region) (rc : Z) : Prop := {
  pt_wf : wf_from b l';
  pt_rc : rc = 0 \/ rc = - ENOMEM;
  pt_view : exists stop, (rc = 0 -> stop = end_) /\ stop <= end_ /\ (stop = end_ \/ b <= stop) /\
    forall x, view l' x = if (addr <=? x) && (x <? stop) then with_prot p <$> view l x else view l x;
}.

(** One region is replaced by [front], [mid'] and [tail]. *)
Lemma protected_cons r next b addr end_ p rs l' rc :
  wf_from b (r :: next) -> (forall l'', wf_from (vaddr r + size r) l'' -> wf_from b (rs ++ l'')) ->
  (forall x l'', view (rs ++ l'') x =
    if covers r x then Some (if (addr <=? x) && (x <? end_) then with_prot p (attr_at r x) else attr_at r x)
    else view l'' x) ->
  protected next (vaddr r + size r) addr end_ p l' rc -> protected (r :: next) b addr end_ p (rs ++ l') rc.
Proof.
  intros (Hr & Hb & Hn) Hwf Hview [P1 P2 (stop & S1 & S2 & S3 & S4)]. constructor; [by apply Hwf | done |].
  exists stop. destruct Hr as [R1 R2 R3 _ _]. split_and!; [done | done | destruct S3; [by left | right; lia] |].
  intros x. rewrite Hview. cbn [view]. destruct (covers r x) eqn:Hc; [| apply S4].
  apply covers_iff in Hc. destruct (Z.leb_spec addr x); cbn [andb]; [| done].
  destruct (Z.ltb_spec x stop), (Z.ltb_spec x end_); cbn; try done; lia.
Qed.

Lemma protect_loop_ok addr end_ p x : outside_ok x -> 0 <= addr < end_ -> end_ <= USER_VMA_UPPER_BOUND ->
  forall l b w m pre, wf_from b l -> balanced w (l ++ pre) x ->
  exists l' w' m' rc, vma_protect_loop l addr end_ p w m = Some (l', w', m', rc) /\
    protected l b addr end_ p l' rc /\ balanced w' (l' ++ pre) x /\ (no_oom m -> rc = 0).
Proof.
  intros Hx Ha He l. induction l as [| cur next IH]; intros b w m pre Hwf B; cbn [vma_protect_loop].
  { do 4 eexists. split_and!; [done | | done | done]. constructor; [done | by left |].
    exists end_. split_and!; [done | lia | by left |]. intros y. cbn. by case_match. }
  pose proof Hwf as (Hr & Hb & Hn). pose proof Hr as [R1 R2 R3 R4 R5]. rewrite (region_end_ok cur Hr).
  destruct (Z.leb_spec end_ (vaddr cur)) as [Hpast | Hnpast].
  { do 4 eexists. split_and!; [done | | done | done]. constructor; [done | by left |].
    exists end_. split_and!; [done | lia | by left |]. intros y.
    destruct (Z.leb_spec addr y); cbn [andb]; [| done]. destruct (Z.ltb_spec y end_); [| done].
    rewrite (view_below (vaddr cur)); [done | | lia]. cbn. by split_and!; [| lia |]. }
  assert (Hstep : forall rs w1 m1, balanced w1 (next ++ rs ++ pre) x -> (no_oom m -> no_oom m1) ->
    (forall l'', wf_from (vaddr cur + size cur) l'' -> wf_from b (rs ++ l'')) ->
    (forall y l'', view (rs ++ l'') y =
      if covers cur y then Some (if (addr <=? y) && (y <? end_) then with_prot p (attr_at cur y) else attr_at cur y)
      else view l'' y) ->
    exists l' w' m' rc, ('(l', w', m', rc) ← vma_protect_loop next addr end_ p w1 m1; Some (rs ++ l', w', m', rc))
      = Some (l', w', m', rc) /\
      protected (cur :: next) b addr end_ p l' rc /\ balanced w' (l' ++ pre) x /\ (no_oom m -> rc = 0)).
  { intros rs w1 m1 B1 Hm1 Hrs Hvw. destruct (IH _ w1 m1 (rs ++ pre) Hn B1) as (l' & w' & m' & rc & -> & P & B' & Hrc).
    cbn [mbind option_bind]. do 4 eexists. split_and!; [done | by apply protected_cons | | auto].
    eapply balanced_perm; [| exact B']. solve_Permutation. }
  assert (Hsplit : forall a n, vaddr cur <= a -> 0 < n -> a + n <= vaddr cur + size cur -> addr <= a ->
    (forall y, covers cur y = true -> (a <= y < a + n <-> addr <= y < end_)) ->
    exists l' w' m' rc, ('(w1, m1, r) ← vma_split cur a n w m;
      match r with
      | None => Some (cur :: next, w1, m1, - ENOMEM)
      | Some ps =>
          '(l', w', m', rc) ← vma_protect_loop next addr end_ p w1 m1;
          Some ((opt_list (p_front ps) ++ set_prot (p_mid ps) p :: opt_list (p_tail ps)) ++ l', w', m', rc)
      end) = Some (l', w', m', rc) /\
      protected (cur :: next) b addr end_ p l' rc /\ balanced w' (l' ++ pre) x /\ (no_oom m -> rc = 0)).
  { intros a n Ha1 Hn1 Ha2 Ha3 Hin.
    destruct (vma_split_ok cur a n w m (next ++ pre) x Hr Ha1 Hn1 Ha2 Hx B) as (w1 & m1 & ps & -> & Hno & Hps).
    cbn [mbind option_bind]. destruct ps as [ps |].
    - destruct Hps as [Hsp B1]. pose proof (sp_mid _ _ _ _ Hsp) as (Mv & Ms & Mat).
      assert (Mok : region_ok (p_mid ps)).
      { pose proof (sp_ok _ _ _ _ Hsp) as Hok. unfold piece_list in Hok. by apply Forall_app in Hok as [_ [? _]%Forall_cons]. }
      destruct (set_prot_spec (p_mid ps) p Mok) as (Mok' & Mref & Mat').
      apply Hstep; [| by intros []%Hno | |].
      + apply (balanced_perm w1 (set_prot (p_mid ps) p :: opt_list (p_front ps) ++ opt_list (p_tail ps) ++ next ++ pre)).
        { solve_Permutation. }
        eapply balanced_swap; [exact Mref |]. eapply balanced_perm; [| exact B1]. unfold piece_list. solve_Permutation.
      + intros l'' Hl''. rewrite <- app_assoc. cbn [app]. by eapply splits_wf.
      + intros y l''. rewrite <- app_assoc. cbn [app]. rewrite (splits_view cur a n) by done.
        destruct (covers cur y) eqn:Hc; [| done]. specialize (Hin y Hc). f_equal.
        destruct (covers (set_prot (p_mid ps) p) y) eqn:Hm.
        * rewrite Mat'. change (covers (p_mid ps) y = true) in Hm. rewrite Mat by done.
          apply covers_iff in Hm. destruct (Z.leb_spec addr y), (Z.ltb_spec y end_); cbn; try done; lia.
        * apply covers_false in Hm. cbn in Hm.
          destruct (Z.leb_spec addr y), (Z.ltb_spec y end_); cbn; try done; lia.
    - do 4 eexists. split_and!; [done | | done | by intros [_ []]%Hno].
      constructor; [done | by right |]. exists (Z.max addr (vaddr cur)). split_and!; [done | lia | right; lia |].
      intros y. destruct (Z.leb_spec addr y); cbn [andb]; [| done].
      destruct (Z.ltb_spec y (Z.max addr (vaddr cur))); [| done].
      rewrite (view_below (vaddr cur)); [done | | lia]. cbn. by split_and!; [| lia |]. }
  destruct (Z.leb_spec (vaddr cur + size cur) addr) as [Hbefore | Hnb].
  { apply (Hstep [cur] w m); [eapply balanced_perm; [| exact B]; solve_Permutation | done | |].
    - intros l'' Hl''. by split_and!.
    - intros y l''. cbn. destruct (covers cur y) eqn:Hc; [| done]. apply covers_iff in Hc.
      by rewrite (proj2 (Z.leb_gt addr y)) by lia. }
  destruct (Z.ltb_spec (vaddr cur) addr) as [Hfr | Hnfr].
  { rewrite !u64_small by (unfold USER_VMA_UPPER_BOUND in *; lia).
    apply Hsplit; destruct (Z.ltb_spec (vaddr cur + size cur) end_); try lia; intros y Hy%covers_iff; lia. }
  destruct (Z.ltb_spec end_ (vaddr cur + size cur)) as [Htl | Hntl].
  { rewrite u64_small by (unfold USER_VMA_UPPER_BOUND in *; lia). apply Hsplit; try lia. intros y Hy%covers_iff. lia. }
  destruct (set_prot_spec cur p Hr) as (Cok & Cref & Cat). apply (Hstep [set_prot cur p] w m); [| done | |].
  - eapply (balanced_perm w (set_prot cur p :: next ++ pre)); [solve_Permutation |]. by eapply balanced_swap.
  - intros l'' Hl''. by split_and!.
  - intros y l''. cbn [view app]. change (covers (set_prot cur p) y) with (covers cur y).
    destruct (covers cur y) eqn:Hc; [| done]. apply covers_iff in Hc. rewrite Cat.
    by rewrite (proj2 (Z.leb_le addr y)), (proj2 (Z.ltb_lt y end_)) by lia.
Qed.

(** ** Lookup, insertion, merging *)

Lemma vma_find_from_ok b l pre addr : wf_from b l ->
  match vma_find_from pre l addr with
  | Some p => fill p [here p] = pre ++ l /\ here p ∈ l /\ covers (here p) addr = true
  | None => view l addr = None
  end.
Proof.
  revert b pre. induction l as [| r l IH]; intros b pre; [done |]. cbn [vma_find_from]. intros (Hr & Hb & Hl).
  rewrite (region_end_ok r Hr). destruct (Z.ltb_spec addr (vaddr r)) as [Hlt | Hge].
  { apply (view_below (vaddr r)); [| done]. cbn. by split_and!. }
  destruct (Z.ltb_spec addr (vaddr r + size r)) as [Hin | Hout].
  - split_and!; [done | by left | by apply covers_iff].
  - specialize (IH _ (pre ++ [r]) Hl). destruct (vma_find_from (pre ++ [r]) l addr) as [p |].
    + destruct IH as (Hf & Hin & Hc). split_and!; [by rewrite Hf, <- app_assoc | by right | done].
    + cbn. rewrite (proj2 (covers_false r addr)) by lia. done.
Qed.

Lemma view_covers b l r x : wf_from b l -> r ∈ l -> covers r x = true -> view l x = Some (attr_at r x).
Proof.
  revert b. induction l as [| r' l IH]; intros b; [by intros _ ?%elem_of_nil |].
  intros (Hr & Hb & Hl) [-> | Hin]%elem_of_cons Hc; cbn; [by rewrite Hc |].
  destruct (covers r' x) eqn:Hc'; [| by eapply IH]. apply covers_iff in Hc'.
  assert (Hv : view l x = None) by (apply (view_below _ _ _ Hl); lia). rewrite (IH _ Hl Hin Hc) in Hv. done.
Qed.

Lemma wf_region_elem b l r : wf_from b l -> r ∈ l -> region_ok r /\ b <= vaddr r.
Proof.
  revert b. induction l as [| r' l IH]; intros b; [by intros _ ?%elem_of_nil |].
  intros (Hr & Hb & Hl) [-> | Hin]%elem_of_cons; [done |]. destruct (IH _ Hl Hin) as [? ?]. split; [done |].
  destruct Hr. lia.
Qed.

Lemma overlaps_ok b l start end_ : wf_from b l ->
  overlaps_upto l start end_ = true <-> exists r, r ∈ l /\ vaddr r < end_ /\ start < vaddr r + size r.
Proof.
  revert b. induction l as [| r l IH]; intros b; [split; [done | intros (r & ?%elem_of_nil & _); done] |].
  intros (Hr & Hb & Hl). cbn [overlaps_upto]. rewrite (region_end_ok r Hr).
  destruct (Z.leb_spec end_ (vaddr r)) as [Hp | Hp].
  { split; [done |]. intros (r' & [-> | Hin]%elem_of_cons & H1 & _); [lia |].
    destruct (wf_region_elem _ _ _ Hl Hin). destruct Hr. lia. }
  destruct (Z.ltb_spec start (vaddr r + size r)) as [Hs | Hs].
  { split; [| done]. intros _. exists r. split_and!; [by left | lia | lia]. }
  rewrite (IH _ Hl). split.
  - intros (r' & Hin & ?). exists r'. split; [by right | done].
  - intros (r' & [-> | Hin]%elem_of_cons & ? & ?); [lia | by exists r'].
Qed.

Lemma vma_insert_ok b l r : wf_from b l -> region_ok r -> b <= vaddr r ->
  (forall r', r' ∈ l -> vaddr r' + size r' <= vaddr r \/ vaddr r + size r <= vaddr r') ->
  exists l', vma_insert_sorted l r = (l', 0) /\ wf_from b l' /\ l' ≡ₚ r :: l /\
    forall x, view l' x = if covers r x then Some (attr_at r x) else view l x.
Proof.
  revert b. induction l as [| a l IH]; intros b Hwf Hr Hb Hdis; cbn [vma_insert_sorted].
  { eexists. split_and!; [done | done | done |]. intros x. cbn. done. }
  destruct Hwf as (Ha & Hba & Hl). pose proof (Hdis a ltac:(by left)) as Hda. destruct Ha as [A1 A2 A3 A4 A5] eqn:E.
  pose proof (ro_size r Hr).
  destruct (Z.ltb_spec (vaddr a) (vaddr r)) as [Hlt | Hge].
  - destruct (IH (vaddr a + size a) Hl Hr ltac:(lia)) as (l' & -> & Hwf' & Hp & Hv).
    { intros r' Hr'. apply Hdis. by right. }
    eexists. split_and!; [done | done | rewrite Hp; solve_Permutation |]. intros x. cbn. rewrite Hv.
    destruct (covers a x) eqn:Hca, (covers r x) eqn:Hcr; try done. apply covers_iff in Hca, Hcr. lia.
  - rewrite (proj2 (Z.eqb_neq _ _)) by lia. eexists. split_and!; [done | | done | done].
    cbn. split_and!; [done | done | done | lia | done].
Qed.

(** Two adjacent anonymous regions as one. *)
Lemma merge_pair a c : region_ok a -> region_ok c -> anonymous a = true -> anonymous c = true ->
  mergeable a c = true -> let r := set_size a (u64 (size a + size c)) in
  region_ok r /\ vaddr r = vaddr a /\ vaddr r + size r = vaddr c + size c /\ anonymous r = true /\
  vaddr c = vaddr a + size a /\
  forall x, covers r x = covers a x || covers c x /\ (covers a x = true -> attr_at r x = attr_at a x) /\
    (covers c x = true -> attr_at r x = attr_at c x).
Proof.
  intros Ha Hc Han Hcn Hm. unfold mergeable in Hm. bool_to_prop. rewrite (region_end_ok a Ha) in *.
  pose proof Ha as [A1 A2 A3 A4 A5]. pose proof Hc as [C1 C2 C3 C4 C5]. unfold USER_VMA_UPPER_BOUND in *.
  assert (Hu : u64 (size a + size c) = size a + size c) by (apply u64_small; lia).
  assert (Hph : phys a = 0 /\ phys c = 0 /\ fd a = -1 /\ fd c = -1 /\ shm_obj a = None /\ shm_obj c = None /\
    inode a = None /\ inode c = None /\ shm_private_src a = None /\ shm_private_src c = None).
  { unfold anonymous in Han, Hcn. bool_to_prop. repeat match goal with
    | H : bool_decide (is_Some _) = false |- _ => apply bool_decide_eq_false, eq_None_not_Some in H end.
    split_and!; lia || done. }
  destruct Hph as (P1 & P2 & P3 & P4 & P5 & P6 & P7 & P8 & P9 & P10).
  cbn zeta. rewrite Hu. split_and!; cbn; try done; try lia.
  - constructor; cbn; [lia | lia | unfold USER_VMA_UPPER_BOUND; lia | by left | done].
  - intros x. split_and!.
    + apply eq_bool_prop_intro. rewrite orb_True, !Is_true_true, !covers_iff. cbn. lia.
    + done.
    + intros _. unfold attr_at. replace (anonymous (set_size a (size a + size c))) with (anonymous a) by done.
      rewrite Han, Hcn. cbn. rewrite P1, P2. f_equal; congruence.
Qed.

Lemma anonymous_refs r : anonymous r = true -> forall o,
  s_refs r o = 0 /\ i_refs r o = 0 /\ o_refs r o = 0 /\ (has_objs r -> w_refs r o = 0).
Proof.
  unfold anonymous. intros Ha o. bool_to_prop. repeat match goal with
    | H : bool_decide (is_Some _) = false |- _ => apply bool_decide_eq_false, eq_None_not_Some in H end.
  unfold s_refs, i_refs, o_refs, w_refs, has_objs.
  repeat match goal with H : _ = None |- _ => rewrite H end. rewrite !hits_none.
  split_and!; [done | done | |].
  - by match goal with H : has_flag _ KMAP_VMA_OWNER = false |- _ => rewrite H end.
  - intros _. by destruct (has_flag (flags r) KMAP_SHM_MAYWRITE).
Qed.

(** What the list says and the references are the same. *)
Definition same_list (l l' : list mmap_region) : Prop :=
  wf l' /\ (forall x, view l' x = view l x) /\ forall w x, balanced w l x -> balanced w l' x.

Lemma same_list_refl l : wf l -> same_list l l.
Proof. intros Hl. by split_and!. Qed.

Lemma same_list_trans l1 l2 l3 : same_list l1 l2 -> (wf l2 -> same_list l2 l3) -> same_list l1 l3.
Proof.
  intros (W1 & V1 & B1) H2. destruct (H2 W1) as (W2 & V2 & B2). split_and!; [done | |].
  - intros x. by rewrite V2.
  - intros w x Hb. by apply B2, B1.
Qed.

Lemma merge_two l1 a c l2 : wf (l1 ++ a :: c :: l2) -> anonymous a = true -> anonymous c = true ->
  mergeable a c = true -> same_list (l1 ++ a :: c :: l2) (l1 ++ set_size a (u64 (size a + size c)) :: l2).
Proof.
  unfold wf. intros Hwf Ha Hc Hm. apply wf_from_app in Hwf as [Hw1 (Oka & Hb & Okc & _ & Hw2)].
  destruct (merge_pair a c Oka Okc Ha Hc Hm) as (Rok & Rv & Re & Ran & Hac & Rat).
  set (r := set_size a (u64 (size a + size c))) in *. split_and!.
  - apply wf_from_app. split; [done |]. cbn [wf_from]. rewrite Rv, <- Rv, Re. split_and!; [done | by rewrite Rv | done].
  - intros x. rewrite !view_app. destruct (view l1 x); [done |]. cbn [view]. destruct (Rat x) as (-> & H1 & H2).
    destruct (covers a x) eqn:Hca; cbn; [by rewrite H1 |]. destruct (covers c x) eqn:Hcc; [by rewrite H2 | done].
  - intros w x [B1 B2 B3 B4].
    constructor; intros o;
      destruct (anonymous_refs a Ha o) as (? & ? & ? & ?), (anonymous_refs c Hc o) as (? & ? & ? & ?),
        (anonymous_refs r Ran o) as (? & ? & ? & ?);
      pose proof (ro_objs _ Oka); pose proof (ro_objs _ Okc); pose proof (ro_objs _ Rok);
      [specialize (B1 o) | specialize (B2 o) | specialize (B3 o) | specialize (B4 o)];
      rewrite total_app in *; cbn [total] in *; intuition lia.
Qed.

Lemma vma_merge_ok p : wf (fill p [here p]) -> same_list (fill p [here p]) (vma_merge p).
Proof.
  destruct p as [pre r post]. unfold fill, vma_merge. cbn [before here after app]. intros Hwf.
  destruct (anonymous r) eqn:Ha; cbn [negb]; [| by apply same_list_refl].
  set (fwd := match post with
    | n :: rest => if anonymous n && mergeable r n then (set_size r (u64 (size r + size n)), rest) else (r, post)
    | [] => (r, []) end).
  assert (Hfwd : same_list (pre ++ r :: post) (pre ++ fwd.1 :: fwd.2) /\ anonymous fwd.1 = true).
  { unfold fwd. destruct post as [| n rest]; [split; [by apply same_list_refl | done] |].
    destruct (anonymous n && mergeable r n) eqn:Hm; [| split; [by apply same_list_refl | done]].
    apply andb_true_iff in Hm as [Hn Hm]. split; [by apply merge_two | done]. }
  destruct fwd as [r1 rest]. cbn [fst snd] in Hfwd. destruct Hfwd as [Hsame Hr1].
  eapply same_list_trans; [exact Hsame |]. intros Hwf1. clear Hsame.
  destruct (last pre) as [q |] eqn:Hlast.
  - apply last_Some in Hlast as (pre' & ->). destruct (anonymous q && mergeable q r1) eqn:Hm; [| by apply same_list_refl].
    apply andb_true_iff in Hm as [Hq Hm]. rewrite length_app. cbn [length].
    replace (length pre' + 1 - 1)%nat with (length pre') by lia. rewrite take_app_length.
    rewrite <- app_assoc in Hwf1 |- *. cbn [app] in Hwf1 |- *. by apply merge_two.
  - apply last_None in Hlast as ->. by apply same_list_refl.
Qed.

(** ** The theorem *)

(** C30. [vma_protect_range] changes the protection of exactly the addresses
    of the range.  On a sorted list without overlaps and with exact reference
    counts it returns 0, or -ENOMEM when a descriptor cannot be allocated;
    the list stays sorted and the counts exact.  On success every mapped
    address of the range has the new protection and is otherwise backed by
    the same object at the same offset as before, and every other address is
    as it was.  On failure this holds for an initial part of the range. *)
Theorem vma_protect_range_correct l addr len p w m x : wf l -> outside_ok x -> balanced w l x ->
  0 <= addr -> 0 < len -> addr + len <= USER_VMA_UPPER_BOUND ->
  exists l' w' m' rc, vma_protect_range l addr len p w m = Some (l', w', m', rc) /\
    wf l' /\ balanced w' l' x /\ (rc = 0 \/ rc = - ENOMEM) /\ (no_oom m -> rc = 0) /\
    exists stop, stop <= addr + len /\ (rc = 0 -> stop = addr + len) /\
      forall y, view l' y = if (addr <=? y) && (y <? stop) then with_prot p <$> view l y else view l y.
Proof.
  intros Hwf Hx B Ha Hl He. unfold vma_protect_range.
  rewrite u64_small by (unfold USER_VMA_UPPER_BOUND in *; lia).
  destruct (protect_loop_ok addr (addr + len) p x Hx ltac:(lia) He l 0 w m [] Hwf ltac:(by rewrite app_nil_r))
    as (l' & w' & m' & rc & Heq & [P1 P2 (stop & S1 & S2 & _ & S4)] & B' & Hrc).
  rewrite app_nil_r in B'. exists l', w', m', rc. split_and!; [done | done | done | done | done |]. by exists stop.
Qed.

(** Two regions: a shared file mapping and an anonymous one. *)
Definition demo_file : mmap_region :=
  MmapRegion 0x400000 0x4000 0 None 3 5 0x2000 MAP_SHARED (Some 7%nat) None None UINT64_MAX 0 0 0.
Definition demo_anon : mmap_region :=
  MmapRegion 0x404000 0x3000 0 None 3 (-1) 0 2 None None None UINT64_MAX 0 0 0.
Definition demo_objs : objs := Objs (fun _ => 0) (fun _ => 0) (fun o => if (o =? 7)%nat then 2 else 0) (fun _ => 0).
Definition demo_outside : objs := Objs (fun _ => 0) (fun _ => 0) (fun o => if (o =? 7)%nat then 1 else 0) (fun _ => 0).

Lemma demo_wf : wf [demo_file; demo_anon].
Proof.
  assert (Hok : forall r, r = demo_file \/ r = demo_anon -> region_ok r).
  { intros r [-> | ->]; constructor; cbn; unfold USER_VMA_UPPER_BOUND; try lia; by split. }
  split; [apply Hok; by left |]. split; [done |]. split; [apply Hok; by right |]. by split.
Qed.

Lemma demo_outside_ok : outside_ok demo_outside.
Proof. constructor; intros o; cbn; try lia. case_match; lia. Qed.

Lemma demo_balanced : balanced demo_objs [demo_file; demo_anon] demo_outside.
Proof.
  constructor; intros o; cbn; unfold s_refs, w_refs, i_refs, o_refs, hits; cbn; try done.
  destruct (Nat.eqb_spec o 7) as [-> | Hne]; [done |]. rewrite bool_decide_false by congruence. done.
Qed.

Lemma vma_protect_range_correct_witness :
  exists l' w' m', vma_protect_range [demo_file; demo_anon] 0x401000 0x4000 1 demo_objs [] = Some (l', w', m', 0) /\
    length l' = 4%nat /\ balanced w' l' demo_outside /\ at_prot <$> view l' 0x403000 = Some 1.
Proof.
  destruct (vma_protect_range_correct [demo_file; demo_anon] 0x401000 0x4000 1 demo_objs [] demo_outside
    demo_wf demo_outside_ok demo_balanced ltac:(lia) ltac:(lia) ltac:(unfold USER_VMA_UPPER_BOUND; lia))
    as (l' & w' & m' & rc & Heq & Hwf & B & _ & Hno & stop & _ & Hstop & Hview).
  specialize (Hno no_oom_nil). rewrite Hno in Heq, Hstop. specialize (Hstop eq_refl).
  assert (Hlen : (fun r => length r.1.1.1) <$>
    vma_protect_range [demo_file; demo_anon] 0x401000 0x4000 1 demo_objs [] = Some 4%nat) by (vm_compute; reflexivity).
  rewrite Heq in Hlen. exists l', w', m'. split_and!; [exact Heq | by injection Hlen | exact B |].
  rewrite Hview, Hstop. vm_compute. reflexivity.
Defined.
