(* ===== verification/AddrSpace.v ===== *)
(** * Address spaces: placement, unmapping and protection

    The operations of kernel/xcore/mem/vma.c that combine the mapping list
    (Vma.v) with the page tables (PageTable.v), and the system calls
    [sys_munmap] and [sys_mprotect] (kernel/bsd/syscall.c) on top of them.

    The theorems: [vma_find_gap] finds a free range or proves that there is
    none; [vma_unmap_range] removes a range from the list and from the page
    tables, returns the references and keeps the address spaces isolated (the
    invariant of Cow.v), with the write-back of shared file mappings
    ([file_shared_mmap_writeback] of kernel/bsd/file_fault.c) as its hook; and [sys_mprotect] breaks that isolation on pages
    shared copy-on-write. *)
From S2P Require Import Prelude Bfc PageAlloc PageTable Mm Cow Vma.
Import PageTable.Tree PageTable.Leaf PageTable.Ops.

Definition PROT_READ : Z := 1.
Definition PROT_WRITE : Z := 2.
Definition PROT_EXEC : Z := 4.
Definition PROT_SEM : Z := 0x10.
Definition PROT_GROWSDOWN : Z := 0x01000000.

(** The part of [struct mm] that is used here. *)
Record mm := Mm { cr3 : nat; mmap_brk : Z; mmap_regions : list mmap_region }.

Definition with_regions (a : mm) (l : list mmap_region) : mm := Mm (cr3 a) (mmap_brk a) l.

(** *** Writing back the pages of a shared file mapping *)

(** The calls of the page cache that the write-back makes, as an interface:
    [page_cache_fill] gives the page of a file, or NULL; [pc_store] copies the
    first bytes of a frame into it and then calls [page_cache_mark_dirty],
    [page_cache_writeback], whose result it returns, and
    [page_cache_release].  [pc_isize] is the size of a file. *)
Record page_cache_ops (A : Type) := PageCacheOps {
  pc_page : Type;
  pc_isize : nat -> Z;
  pc_fill : nat -> Z -> machine A -> option (machine A * option pc_page);
  pc_store : pc_page -> Z -> Z -> machine A -> option (machine A * Z) }.
Arguments PageCacheOps {A}.
Arguments pc_page {A}.
Arguments pc_isize {A}.
Arguments pc_fill {A}.
Arguments pc_store {A}.

Section Writeback.
Context {A : Type} (pc : page_cache_ops A).

(** The error of the first page that fails. *)
Definition keep_error (first_error rc : Z) : Z := if first_error =? 0 then rc else first_error.

(** One page of the loop: the new state and the first error. *)
Definition writeback_page (root : nat) (ip : nat) (file_size pos va err : Z) (s : machine A) : option (machine A * Z) :=
  slot ← lookup_pte (ram s) root va;
  match slot with
  | None => Some (s, err)
  | Some (t, i) =>
      e ← rd (ram s) t i;
      if negb (has_flag e PTE_DIRTY) then Some (s, err)
      else
        '(s1, cp) ← pc_fill pc ip (pos / PAGE_SIZE) s;
        match cp with
        | None => Some (s1, keep_error err (- EIO))
        | Some cp =>
            let remaining := u64 (file_size - pos) in
            let bytes := if remaining <? PAGE_SIZE then remaining else PAGE_SIZE in
            e1 ← rd (ram s1) t i;
            '(s2, rc) ← pc_store pc cp (Z.land e1 PTE_PHYS_MASK) bytes s1;
            if negb (rc =? 0) then Some (s2, keep_error err rc)
            else
              e2 ← rd (ram s2) t i;
              m ← wr t i (clear_flag e2 PTE_DIRTY) (ram s2);
              Some (Machine (pool s2) m, err)
        end
  end.

Fixpoint writeback_from (fuel : nat) (root : nat) (mr : mmap_region) (ip : nat) (delta err : Z) (s : machine A)
  : option (machine A * Z) :=
  if delta <? size mr then
    match fuel with
    | O => None
    | S fuel' =>
        let pos := u64 (offset mr + delta) in
        if pc_isize pc ip <=? pos then Some (s, err)
        else
          '(s1, err1) ← writeback_page root ip (pc_isize pc ip) pos (u64 (vaddr mr + delta)) err s;
          writeback_from fuel' root mr ip (u64 (delta + PAGE_SIZE)) err1 s1
    end
  else Some (s, err).

Definition file_shared_mmap_writeback (root : nat) (mr : mmap_region) (s : machine A) : option (machine A * Z) :=
  match inode mr with
  | Some ip =>
      if has_flag (flags mr) MAP_SHARED
      then writeback_from (Z.to_nat (size mr / PAGE_SIZE)) root mr ip 0 0 s
      else Some (s, 0)
  | None => Some (s, 0)
  end.

(** The hook as [free_one_region] calls it, without the result. *)
Definition shared_mmap_hook (root : nat) (mr : mmap_region) (s : machine A) : option (machine A) :=
  fst <$> file_shared_mmap_writeback root mr s.
End Writeback.

Section Defs.
Context `{PageAllocator A}.

(** *** Placement *)

(** The loop of [first_mapped_page]; at most 2^48 iterations. *)
Definition first_mapped_step (m : memory) (root : nat) (end_ va : Z) : option (Z + Z) :=
  if va <? end_ then
    slot ← lookup_pte m root va;
    match slot with
    | Some _ => Some (inr va)
    | None => Some (inl (u64 (va + PAGE_SIZE)))
    end
  else Some (inr 0).

Definition first_mapped_page (a : mm) (m : memory) (start len : Z) : option Z :=
  if overlaps_signal_trampoline start len then Some SIG_TRAMPOLINE_ADDR
  else
    r ← loop2 (first_mapped_step m (cr3 a) (u64 (start + len))) 48 start;
    match r with inr v => Some v | inl _ => None end.

(** The scan over the regions: [Some c] when [cur] moves to [c]. *)
Fixpoint gap_conflict (l : list mmap_region) (cur len : Z) : option Z :=
  match l with
  | [] => None
  | mr :: l' =>
      if region_end mr <=? cur then gap_conflict l' cur len
      else if u64 (cur + len) <=? vaddr mr then None
      else Some (region_end mr)
  end.

Definition gap_step (a : mm) (m : memory) (len cur : Z) : option (Z + Z) :=
  if (USER_VMA_UPPER_BOUND <=? cur) || (USER_VMA_UPPER_BOUND - cur <? len) then Some (inr 0)
  else
    match gap_conflict (mmap_regions a) cur len with
    | Some c => Some (inl c)
    | None =>
        mapped ← first_mapped_page a m cur len;
        if mapped =? 0 then Some (inr cur) else Some (inl (u64 (mapped + PAGE_SIZE)))
    end.

(** [hint && len <= USER_VMA_UPPER_BOUND - hint && !vma_overlaps(...) &&
    !first_mapped_page(...)] *)
Definition hint_free (a : mm) (m : memory) (len hint : Z) : option bool :=
  if negb (hint =? 0) && (len <=? u64 (USER_VMA_UPPER_BOUND - hint)) &&
     negb (vma_overlaps (mmap_regions a) hint len)
  then p ← first_mapped_page a m hint len; Some (p =? 0)
  else Some false.

Definition vma_find_gap (a : mm) (m : memory) (len hint : Z) : option Z :=
  ok ← hint_free a m len hint;
  if ok : bool then Some hint
  else
    let cur := if hint <? mmap_brk a then mmap_brk a else hint in
    r ← loop2 (gap_step a m len) 48 cur;
    match r with inr v => Some v | inl _ => None end.

(** *** Unmapping *)

(** [vma_writeback_hook], set to [file_shared_mmap_writeback] when the file
    layer starts; [None] is NULL. *)
Context (hook : option (nat -> mmap_region -> machine A -> option (machine A))).

Definition external (r : mmap_region) : bool :=
  bool_decide (is_Some (shm_obj r)) || negb (phys r =? 0) || has_flag (flags r) KMAP_VMA_OWNER.

(** Dropping the view of one page that somebody else owns. *)
Definition clear_external (pml4 : nat) (va : Z) (s : machine A) : option (machine A) :=
  '(s1, pt) ← ensure_pt pml4 va s;
  match pt with
  | None => Some s1
  | Some pt => m ← wr pt (pt_idx va) 0 (ram s1); Some (Machine (pool s1) m)
  end.

(** [for (i = 0; i < n; i++) f(va + i * PAGE_SIZE)] *)
Fixpoint each_page (n : nat) (va : Z) (f : Z -> machine A -> option (machine A)) (s : machine A) : option (machine A) :=
  match n with
  | O => Some s
  | S n' => s1 ← f va s; each_page n' (u64 (va + PAGE_SIZE)) f s1
  end.

Definition region_pages (r : mmap_region) : nat := Z.to_nat (size r / PAGE_SIZE).

(** [free_one_region] on a region that the caller takes off the list. *)
Definition free_one_region (pml4 : nat) (r : mmap_region) (s : machine A) (w : objs)
  : option (machine A * objs) :=
  s1 ← match hook with Some h => h pml4 r s | None => Some s end;
  '(s2, w1) ←
    if external r then
      s2 ← each_page (region_pages r) (vaddr r) (clear_external pml4) s1;
      w1 ← maywrite r (-1) w;
      w2 ← shm_put (shm_obj r) w1;
      if has_flag (flags r) KMAP_DMA_OWNED then
        p ← pa_free_block (Z.to_nat (phys r / PAGE_SIZE)) (region_pages r) (pool s2);
        Some (Machine p (ram s2), w2)
      else Some (s2, w2)
    else
      s2 ← each_page (region_pages r) (vaddr r)
             (fun va => unmap_user_pages pml4 va (u64 (va + PAGE_SIZE)) 1) s1;
      Some (s2, w);
  w2 ← inode_put (inode r) w1;
  w3 ← shm_put (shm_private_src r) w2;
  '(_, w4) ← vma_owner_put r w3;
  Some (s2, w4).

Fixpoint vma_unmap_loop (l : list mmap_region) (pml4 : nat) (addr end_ : Z) (s : machine A) (w : objs) (m : oracle)
  : option (list mmap_region * machine A * objs * oracle * Z) :=
  match l with
  | [] => Some ([], s, w, m, 0)
  | cur :: next =>
      if end_ <=? vaddr cur then Some (cur :: next, s, w, m, 0)
      else if region_end cur <=? addr then
        '(l', s', w', m', rc) ← vma_unmap_loop next pml4 addr end_ s w m; Some ([cur] ++ l', s', w', m', rc)
      else
        let split_out a n :=
          '(w1, m1, r) ← vma_split cur a n w m;
          match r with
          | None => Some (cur :: next, s, w1, m1, - ENOMEM)
          | Some ps =>
              '(s2, w2) ← free_one_region pml4 (p_mid ps) s w1;
              '(l', s', w', m', rc) ← vma_unmap_loop next pml4 addr end_ s2 w2 m1;
              Some ((opt_list (p_front ps) ++ opt_list (p_tail ps)) ++ l', s', w', m', rc)
          end in
        if vaddr cur <? addr then
          split_out addr (if region_end cur <? end_ then u64 (region_end cur - addr) else u64 (end_ - addr))
        else if end_ <? region_end cur then split_out (vaddr cur) (u64 (end_ - vaddr cur))
        else
          '(s1, w1) ← free_one_region pml4 cur s w;
          '(l', s', w', m', rc) ← vma_unmap_loop next pml4 addr end_ s1 w1 m; Some ([] ++ l', s', w', m', rc)
  end.

Definition vma_unmap_range (a : mm) (pml4 : nat) (addr len : Z) (s : machine A) (w : objs) (m : oracle)
  : option (mm * machine A * objs * oracle * Z) :=
  '(l', s', w', m', rc) ← vma_unmap_loop (mmap_regions a) pml4 addr (u64 (addr + len)) s w m;
  Some (with_regions a l', s', w', m', rc).

(** The address as a non-negative number, or a negative errno. *)
Definition vma_pick_addr (a : mm) (pml4 : nat) (addr len fl hint : Z) (s : machine A) (w : objs) (m : oracle)
  : option (mm * machine A * objs * oracle * Z) :=
  if has_flag fl MAP_FIXED then
    if overlaps_signal_trampoline addr len then Some (a, s, w, m, - EINVAL)
    else
      '(a', s', w', m', rc) ← vma_unmap_range a pml4 addr len s w m;
      Some (a', s', w', m', if rc <? 0 then rc else s64 addr)
  else if has_flag fl MAP_FIXED_NOREPLACE then
    Some (a, s, w, m, if vma_overlaps_any (mmap_regions a) addr len then - EEXIST else s64 addr)
  else
    v ← vma_find_gap a (ram s) len hint;
    Some (a, s, w, m, if v =? 0 then - ENOMEM else s64 v).

(** *** System calls *)

Definition sys_munmap (addr size_ : Z) (a : mm) (s : machine A) (w : objs) (m : oracle)
  : option (mm * machine A * objs * oracle * Z) :=
  if size_ =? 0 then Some (a, s, w, m, - EINVAL)
  else if negb (Z.land addr (PAGE_SIZE - 1) =? 0) then Some (a, s, w, m, - EINVAL)
  else
    let sz := ALIGN_UP size_ PAGE_SIZE in
    if sz =? 0 then Some (a, s, w, m, - EINVAL)
    else
      '(a1, s1, w1, m1, r) ← vma_unmap_range a (cr3 a) addr sz s w m;
      if negb (r =? 0) then Some (a1, s1, w1, m1, r)
      else
        let prev := if negb (addr =? 0) then vma_find (mmap_regions a1) (addr - 1) else None in
        let l2 := match prev with Some p => vma_merge p | None => mmap_regions a1 end in
        let l3 := match vma_find l2 (u64 (addr + sz)) with Some p => vma_merge p | None => l2 end in
        Some (with_regions a1 l3, s1, w1, m1, r).

(** The new flags of the leaf entries. *)
Definition prot_flags (p : Z) : Z :=
  if p =? 0 then Z.lor PTE_USER (Z.lor PTE_PROTNONE PTE_NX)
  else
    Z.lor (Z.lor (Z.lor PTE_USER PTE_PRESENT) (if has_flag p PROT_WRITE then PTE_RW else 0))
      (if has_flag p PROT_EXEC then 0 else PTE_NX).

(** The loop over the pages; the result is an errno. *)
Fixpoint mprotect_ptes (n : nat) (va base : Z) (a : mm) (m : memory) : option (memory * Z) :=
  match n with
  | O => Some (m, 0)
  | S n' =>
      slot ← lookup_pte m (cr3 a) va;
      match slot with
      | None =>
          match vma_find (mmap_regions a) va with
          | None => Some (m, - ENOMEM)
          | Some _ => mprotect_ptes n' (u64 (va + PAGE_SIZE)) base a m
          end
      | Some (pt, i) =>
          e ← rd m pt i;
          if has_flag e PTE_PS then Some (m, - EINVAL)
          else
            m' ← wr pt i (Z.lor (Z.land e PTE_PHYS_MASK) base) m;
            mprotect_ptes n' (u64 (va + PAGE_SIZE)) base a m'
      end
  end.

Definition sys_mprotect (addr size_ prot_arg : Z) (a : mm) (s : machine A) (w : objs) (m : oracle)
  : option (mm * machine A * objs * oracle * Z) :=
  if size_ =? 0 then Some (a, s, w, m, 0)
  else if negb (Z.land addr (PAGE_SIZE - 1) =? 0) then Some (a, s, w, m, - EINVAL)
  else
    let prot_masked := clear_flag (u32 prot_arg) (Z.lor PROT_GROWSDOWN PROT_SEM) in
    if negb (clear_flag prot_masked (Z.lor PROT_READ (Z.lor PROT_WRITE PROT_EXEC)) =? 0)
    then Some (a, s, w, m, - EINVAL)
    else if USER_VMA_UPPER_BOUND <=? addr then Some (a, s, w, m, - EINVAL)
    else
      let sz := ALIGN_UP size_ PAGE_SIZE in
      if USER_VMA_UPPER_BOUND - addr <? sz then Some (a, s, w, m, - ENOMEM)
      else
        '(l', w', m', r) ← vma_protect_range (mmap_regions a) addr sz prot_masked w m;
        let a' := with_regions a l' in
        if r <? 0 then Some (a', s, w', m', r)
        else
          '(mem, rc) ← mprotect_ptes (Z.to_nat (sz / PAGE_SIZE)) addr (prot_flags prot_masked) a' (ram s);
          Some (a', Machine (pool s) mem, w', m', rc).

End Defs.

#[local] Arguments Z.eqb : simpl never.
#[local] Arguments Z.leb : simpl never.
#[local] Arguments Z.ltb : simpl never.
#[local] Arguments u64 : simpl never.

(** ** Placement *)

Section Placement.
Context `{PageAllocator A}.
Context (roots : list nat) (s : machine A) (F : nat -> Prop) (a : mm).
Hypothesis Hg : good roots s F.
Hypothesis Hroot : cr3 a ∈ roots.

Definition trampoline (x : Z) : Prop := SIG_TRAMPOLINE_ADDR <= x < SIG_TRAMPOLINE_ADDR + PAGE_SIZE.

(** Nothing is mapped or reserved at [x]. *)
Definition free_at (x : Z) : Prop :=
  view (mmap_regions a) x = None /\ pte_present (leaf (ram s) (cr3 a) x) = false /\ ~ trampoline x.

Definition free_range (v len : Z) : Prop := forall x, v <= x < v + len -> free_at x.

Lemma bound_user x : 0 <= x < USER_VMA_UPPER_BOUND -> user_va x.
Proof. unfold USER_VMA_UPPER_BOUND, user_va. lia. Qed.

Lemma tramp_overlap start len : 0 <= start -> 0 < len -> start + len <= USER_VMA_UPPER_BOUND ->
  overlaps_signal_trampoline start len = true <-> start < SIG_TRAMPOLINE_ADDR + PAGE_SIZE /\ SIG_TRAMPOLINE_ADDR < start + len.
Proof.
  unfold overlaps_signal_trampoline, USER_VMA_UPPER_BOUND, UINT64_MAX. intros H1 H2 H3.
  rewrite (proj2 (Z.eqb_neq len 0)), (proj2 (Z.ltb_ge _ start)) by lia. cbn [orb].
  by rewrite andb_true_iff, !Z.ltb_lt.
Qed.

Lemma aligned_page x v : aligned v -> v <= x < v + PAGE_SIZE -> same_page x v.
Proof.
  unfold aligned, same_page, PAGE_SIZE. intros Ha Hx. apply Z.div_exact in Ha; [| lia].
  symmetry. apply Z.div_unique with (r := x - v); lia.
Qed.

Lemma aligned_tramp : aligned SIG_TRAMPOLINE_ADDR.
Proof. done. Qed.

(** The first page of a range that is mapped, or 0. *)
Lemma first_mapped_ok start len : aligned start -> 0 < start -> 0 < len -> start + len <= USER_VMA_UPPER_BOUND ->
  exists v, first_mapped_page a (ram s) start len = Some v /\
    if v =? 0 then forall x, start <= x < start + len -> pte_present (leaf (ram s) (cr3 a) x) = false /\ ~ trampoline x
    else aligned v /\ start < v + PAGE_SIZE /\ v < start + len /\ 0 < v /\
         (v = SIG_TRAMPOLINE_ADDR \/ pte_present (leaf (ram s) (cr3 a) v) = true).
Proof.
  intros Ha Hs Hl Hb. unfold first_mapped_page. destruct (overlaps_signal_trampoline start len) eqn:Ht.
  { apply tramp_overlap in Ht; [| lia ..]. exists SIG_TRAMPOLINE_ADDR. split; [done |].
    change (SIG_TRAMPOLINE_ADDR =? 0) with false. cbv iota. split_and!; [apply aligned_tramp | lia | lia | done | by left]. }
  apply not_true_iff_false in Ht. rewrite tramp_overlap in Ht by lia.
  rewrite (u64_small (start + len)) by (unfold USER_VMA_UPPER_BOUND in *; lia).
  destruct (loop2_total (first_mapped_step (ram s) (cr3 a) (start + len))
    (fun va => start <= va /\ aligned va /\ va < start + len + PAGE_SIZE /\
       forall x, start <= x < Z.min va (start + len) -> pte_present (leaf (ram s) (cr3 a) x) = false)
    (fun va => start + len + PAGE_SIZE - va)
    (fun v => if v =? 0 then forall x, start <= x < start + len -> pte_present (leaf (ram s) (cr3 a) x) = false
       else aligned v /\ start <= v /\ v < start + len /\ pte_present (leaf (ram s) (cr3 a) v) = true))
    with (k := 48%nat) (s := start) as (v & -> & Hv).
  - intros va (H1 & H2 & H3 & H4). unfold first_mapped_step. destruct (Z.ltb_spec va (start + len)) as [Hlt | Hge].
    2:{ eexists. split; [done |]. cbn. intros x Hx. apply H4. lia. }
    assert (Hu : user_va va) by (apply bound_user; lia).
    rewrite (lookup_leaf _ _ va roots (g_forest _ _ _ Hg) Hroot Hu). cbn [mbind option_bind].
    destruct (pte_present (leaf (ram s) (cr3 a) va)) eqn:Hp.
    + destruct (tbl (ram s) (cr3 a) (path va)) eqn:Htb; [| unfold leaf in Hp; by rewrite Htb in Hp].
      cbn. eexists. split; [done |]. cbv beta iota. rewrite (proj2 (Z.eqb_neq va 0)) by lia. split_and!; [done | lia | lia | done].
    + eexists. split; [done |]. cbn.
      rewrite u64_small by (unfold USER_VMA_UPPER_BOUND, PAGE_SIZE in *; lia).
      assert (0 < PAGE_SIZE) by done. split_and!; [lia | by apply aligned_next | lia | | lia | lia].
      intros x Hx. destruct (decide (x < va)); [apply H4; lia |]. rewrite <- Hp. f_equal. apply leaf_same_page; [| done |].
      * apply bound_user. lia.
      * apply aligned_page; [done | lia].
  - split_and!; [lia | done | unfold PAGE_SIZE; lia | intros x Hx; lia].
  - change (2 ^ Z.of_nat 48) with (2 ^ 48). unfold USER_VMA_UPPER_BOUND, PAGE_SIZE in *. lia.
  - cbn. exists v. split; [done |]. destruct (v =? 0).
    + intros x Hx. split; [by apply Hv |]. unfold trampoline. lia.
    + destruct Hv as (? & ? & ? & ?). split_and!; [done | unfold PAGE_SIZE; lia | done | lia | by right].
Qed.
(** The scan over the regions. *)
Lemma gap_conflict_ok b l cur len : wf_from b l -> 0 <= cur -> 0 < len -> cur + len <= USER_VMA_UPPER_BOUND ->
  match gap_conflict l cur len with
  | Some c => exists r, r ∈ l /\ c = vaddr r + size r /\ cur < c /\ vaddr r < cur + len
  | None => forall x, cur <= x < cur + len -> view l x = None
  end.
Proof.
  revert b. induction l as [| r l IH]; intros b; [done |]. intros (Hr & Hbr & Hl) Hc Hlen Hb. cbn [gap_conflict].
  rewrite (region_end_ok r Hr), (u64_small (cur + len)) by (unfold USER_VMA_UPPER_BOUND in *; lia).
  destruct (Z.leb_spec (vaddr r + size r) cur) as [H1 | H1].
  - specialize (IH _ Hl Hc Hlen Hb). destruct (gap_conflict l cur len).
    + destruct IH as (r' & Hin & ?). exists r'. split; [by right | done].
    + intros x Hx. cbn. rewrite (proj2 (covers_false r x)) by lia. by apply IH.
  - destruct (Z.leb_spec (cur + len) (vaddr r)) as [H2 | H2].
    + intros x Hx. apply (view_below (vaddr r)); [| lia]. cbn. by split_and!.
    + exists r. split_and!; [by left | done | lia | lia].
Qed.

Hypothesis Hwf : wf (mmap_regions a).
Hypothesis Hal : Forall (fun r => aligned (vaddr r + size r)) (mmap_regions a).

Lemma region_occupied r x : r ∈ mmap_regions a -> vaddr r <= x < vaddr r + size r -> ~ free_at x.
Proof.
  intros Hr Hx (Hv & _). rewrite (view_covers 0 _ r) in Hv; [done | done | done | by apply covers_iff].
Qed.

Lemma page_occupied v x : aligned v -> 0 <= v -> v <= x < v + PAGE_SIZE -> x < USER_VMA_UPPER_BOUND ->
  v = SIG_TRAMPOLINE_ADDR \/ pte_present (leaf (ram s) (cr3 a) v) = true -> ~ free_at x.
Proof.
  intros Ha H0 Hx Hb Hv (_ & Hp & Ht). destruct Hv as [-> | Hv]; [by apply Ht |].
  rewrite (leaf_same_page _ _ x v) in Hp; [congruence | apply bound_user; lia | apply bound_user; lia |].
  by apply aligned_page.
Qed.

(** The search from [cur]: a free range, or 0 when there is none above. *)
Lemma gap_loop_ok cur len : aligned cur -> 0 < cur -> 0 < len ->
  exists v, loop2 (gap_step a (ram s) len) 48 cur = Some (inr v) /\
    if v =? 0 then forall c, cur <= c -> c + len <= USER_VMA_UPPER_BOUND -> ~ free_range c len
    else cur <= v /\ aligned v /\ v + len <= USER_VMA_UPPER_BOUND /\ free_range v len.
Proof.
  intros Ha Hc Hl.
  destruct (loop2_total (gap_step a (ram s) len)
    (fun c => cur <= c /\ aligned c /\ forall c', cur <= c' < c -> c' + len <= USER_VMA_UPPER_BOUND -> ~ free_range c' len)
    (fun c => Z.max 0 (USER_VMA_UPPER_BOUND + PAGE_SIZE - c))
    (fun v => if v =? 0 then forall c, cur <= c -> c + len <= USER_VMA_UPPER_BOUND -> ~ free_range c len
       else cur <= v /\ aligned v /\ v + len <= USER_VMA_UPPER_BOUND /\ free_range v len))
    with (k := 48%nat) (s := cur) as (v & Hv & Hq); [| | | by exists v].
  - intros c (H1 & H2 & H3). unfold gap_step.
    destruct ((USER_VMA_UPPER_BOUND <=? c) || (USER_VMA_UPPER_BOUND - c <? len)) eqn:Hend.
    { eexists. split; [done |]. cbn. intros c' Hc' Hb'. apply H3; [| done].
      apply orb_true_iff in Hend as [?%Z.leb_le | ?%Z.ltb_lt]; lia. }
    apply orb_false_iff in Hend as [?%Z.leb_gt ?%Z.ltb_ge].
    pose proof (gap_conflict_ok 0 (mmap_regions a) c len Hwf ltac:(lia) Hl ltac:(lia)) as Hcf.
    assert (0 < PAGE_SIZE) by done.
    destruct (gap_conflict (mmap_regions a) c len) as [c1 |].
    + destruct Hcf as (r & Hin & -> & Hgt & Hlt). eexists. split; [done |]. cbv beta iota.
      rewrite Forall_forall in Hal. destruct (wf_region_elem 0 _ r Hwf Hin) as [[R1 R2 R3 _ _] _].
      split_and!; [lia | by apply Hal | | lia | lia].
      intros c' Hc' Hb' Hfr. destruct (decide (c' < c)) as [? | ?]; [by apply (H3 c' ltac:(lia)) |].
      apply (region_occupied r (Z.max c' (vaddr r)) Hin ltac:(lia)). apply Hfr. lia.
    + destruct (first_mapped_ok c len H2 ltac:(lia) Hl ltac:(lia)) as (v & -> & Hv). cbn [mbind option_bind].
      destruct (Z.eqb_spec v 0) as [Hz | Hne].
      * eexists. split; [done |]. cbv beta iota. rewrite (proj2 (Z.eqb_neq c 0)) by lia. split_and!; [lia | done | lia |].
        intros x Hx. split; [by apply Hcf | by apply Hv].
      * destruct Hv as (V1 & V2 & V3 & V4 & V5). eexists. split; [done |]. cbv beta iota.
        rewrite u64_small by (unfold USER_VMA_UPPER_BOUND, PAGE_SIZE in *; lia).
        split_and!; [lia | by apply aligned_next | | lia | lia].
        intros c' Hc' Hb' Hfr. destruct (decide (c' < c)) as [? | ?]; [by apply (H3 c' ltac:(lia)) |].
        apply (page_occupied v (Z.max c' v) V1 ltac:(lia) ltac:(lia) ltac:(lia) V5). apply Hfr. lia.
  - split_and!; [lia | done | lia].
  - change (2 ^ Z.of_nat 48) with (2 ^ 48). unfold USER_VMA_UPPER_BOUND, PAGE_SIZE. lia.
Qed.

Lemma hint_free_ok len hint : aligned hint -> 0 <= hint <= USER_VMA_UPPER_BOUND -> 0 < len ->
  exists b, hint_free a (ram s) len hint = Some b /\
    (b = true -> hint <> 0 /\ hint + len <= USER_VMA_UPPER_BOUND /\ free_range hint len).
Proof.
  intros Ha Hh Hl. unfold hint_free. rewrite u64_small by (unfold USER_VMA_UPPER_BOUND in *; lia).
  destruct (negb (hint =? 0) && (len <=? USER_VMA_UPPER_BOUND - hint) && negb (vma_overlaps (mmap_regions a) hint len)) eqn:Hc;
    [| by exists false].
  bool_to_prop. destruct (first_mapped_ok hint len Ha ltac:(lia) Hl ltac:(lia)) as (v & -> & Hv). cbn [mbind option_bind].
  eexists. split; [done |]. destruct (Z.eqb_spec v 0) as [Hz | ?]; [| done]. intros _. split_and!; [lia | lia |].
  intros x Hx. destruct (Hv x Hx) as [Hp Ht]. split_and!; [| done | done].
  unfold vma_overlaps in *. rewrite u64_small in * by (unfold USER_VMA_UPPER_BOUND in *; lia).
  pose proof (vma_find_from_ok 0 (mmap_regions a) [] x Hwf) as Hf. destruct (vma_find_from [] (mmap_regions a) x) as [p |]; [| done].
  destruct Hf as (_ & Hin & Hcov%covers_iff). exfalso.
  assert (overlaps_upto (mmap_regions a) hint (hint + len) = true); [| congruence].
  apply (overlaps_ok 0); [done |]. exists (here p). split_and!; [done | lia | lia].
Qed.
End Placement.

(** ** Unmapping one page *)

Section UnmapPage.
Context `{PageAllocator A}.
Context (roots : list nat) (ext : nat -> bool).

Lemma ensure_pt_exists (s : machine A) r va t : tbl (ram s) r (path va) = Some t -> ensure_pt r va s = Some (s, Some t).
Proof.
  unfold ensure_pt, ensure_pd, ensure_pt_in_pd, ensure_entry, path.
  change (2 =? 2) with true. change (1 =? 2) with false. change 0x01 with PTE_PRESENT. cbn.
  destruct (rd (ram s) r (pml4_idx va)) as [e4 |]; [| done]. cbn. destruct (has_flag e4 PTE_PRESENT); [| done]. cbn.
  destruct (rd (ram s) _ (pdpt_idx va)) as [e3 |]; [| done]. cbn. destruct (has_flag e3 PTE_PRESENT); [| done]. cbn.
  destruct (rd (ram s) _ (pd_idx va)) as [e2 |]; [| done]. cbn. destruct (has_flag e2 PTE_PRESENT); [| done]. congruence.
Qed.

(** One private page less: the reference is dropped, the frame is freed with
    the last one. *)
Lemma isolated_drop s F s' F' r v : isolated roots ext s F -> r ∈ roots -> user_vpn v ->
  let e := leaf (ram s) r (va_of v) in
  (pte_present e = true -> ext (pte_pfn e) = false) ->
  drops roots s F s' F' (upd_leaf (leaf (ram s)) r (va_of v) (cleared e)) (one_use (leaf (ram s)) r (va_of v)) ->
  isolated roots ext s' F'.
Proof.
  intros I Hr Hu e He D. pose proof (va_of_user v Hu) as Hua.
  assert (Huse : forall f, one_use (leaf (ram s)) r (va_of v) f = 1 <-> maps roots (ram s) f (r, v)).
  { intros f. unfold one_use, maps_to, maps. fold e. cbn [fst snd]. fold e.
    destruct (pte_present e); cbn [andb]; [| naive_solver]. destruct (Nat.eqb_spec (pte_pfn e) f); naive_solver. }
  assert (H01 : forall f, one_use (leaf (ram s)) r (va_of v) f = 0 \/ one_use (leaf (ram s)) r (va_of v) f = 1)
    by (intros f; unfold one_use; case_match; auto).
  assert (Hmaps : forall f y, maps roots (ram s') f y <-> maps roots (ram s) f y /\ y <> (r, v)).
  { intros f [r' v']. unfold maps. cbn [fst snd]. destruct (decide ((r', v') = (r, v))) as [Heq | Hne].
    - injection Heq as -> ->. split; [| by intros [_ ?]]. intros (_ & _ & Hp & _).
      rewrite (dr_leaf _ _ _ _ _ _ _ D), upd_leaf_eq in Hp by done. unfold cleared in Hp.
      by destruct (pte_present e) eqn:Hpe; rewrite ?Hpe in Hp.
    - assert (Hs : r' ∈ roots -> user_vpn v' -> leaf (ram s') r' (va_of v') = leaf (ram s) r' (va_of v')).
      { intros Hr' Hu'. rewrite (dr_leaf _ _ _ _ _ _ _ D) by (try done; by apply va_of_user).
        apply upd_leaf_ne. intros [-> ?%va_of_same]. congruence. }
      split; [intros (Hr' & Hu' & Hx) | intros [(Hr' & Hu' & Hx) _]]; [rewrite Hs in Hx by done | rewrite Hs by done]; done. }
  (* the frames that keep a mapper *)
  assert (Hkeep : forall f y, maps roots (ram s') f y -> ext f = false ->
    exists x, pa_ref (pool s) f = Some x /\ (one_use (leaf (ram s)) r (va_of v) f < x \/ one_use (leaf (ram s)) r (va_of v) f = 0)).
  { intros f y [Hy Hne]%Hmaps Hf. destruct (is_count _ _ _ _ I f y Hy Hf) as (ms & [Hnd Hms] & Hl & _).
    eexists. split; [exact Hl |]. destruct (H01 f) as [-> | H1]; [by right | left]. rewrite H1.
    apply Huse in H1. apply Hms in H1, Hy. destruct ms as [| a [| b ms]]; cbn [length]; [by apply not_elem_of_nil in Hy | | lia].
    rewrite list_elem_of_singleton in H1, Hy. congruence. }
  constructor.
  - apply D.
  - intros f y Hy Hf. destruct (Hkeep f y Hy Hf) as (x & Hx & Hlt). apply Hmaps in Hy as [Hy Hne].
    destruct (is_back _ _ _ _ I f y Hy Hf) as (HF & Ht & Hh).
    destruct (dr_ref _ _ _ _ _ _ _ D f x HF Hx Hlt) as (HF' & _ & Hh'). split_and!; [done | | auto].
    intros [? | [? | [Hx' Hc]]]%(dr_new _ _ _ _ _ _ _ D); [done | done |]. rewrite Hx in Hx'. injection Hx' as ->. lia.
  - intros f y Hy Hf. destruct (Hkeep f y Hy Hf) as (x & Hx & Hlt). apply Hmaps in Hy as [Hy Hne].
    destruct (is_back _ _ _ _ I f y Hy Hf) as (HF & _ & _).
    destruct (dr_ref _ _ _ _ _ _ _ D f x HF Hx Hlt) as (_ & Hx' & _).
    destruct (is_count _ _ _ _ I f y Hy Hf) as (ms & [Hnd Hms] & Hl & Hlen). rewrite Hl in Hx. injection Hx as <-.
    destruct (H01 f) as [H0 | H1].
    + exists ms. split; [split; [done |] | split; [| done]].
      * intros z. rewrite Hmaps, Hms. split; [| by intros []]. intros Hz. split; [done |]. intros ->.
        apply Huse in Hz. lia.
      * rewrite Hx', H0. f_equal. lia.
    + pose proof H1 as Hrv. apply Huse, Hms, elem_of_Permutation in Hrv as (ms' & Hperm).
      rewrite Hperm in Hnd. apply NoDup_cons in Hnd as [Hn Hnd]. exists ms'. split; [split; [done |] | split; [| rewrite Hperm in Hlen; cbn in Hlen; lia]].
      * intros z. rewrite Hmaps. pose proof (Hms z) as Hz. rewrite Hperm, elem_of_cons in Hz. split; [| tauto].
        intros Hz'. split; [tauto |]. by intros ->.
      * rewrite Hx', H1, Hperm. cbn [length]. f_equal. lia.
  - intros f [r' v'] Hy Hf Hw. destruct (Hkeep f _ Hy Hf) as (x & Hx & Hlt). apply Hmaps in Hy as [Hy Hne].
    destruct (is_back _ _ _ _ I f _ Hy Hf) as (HF & _ & _).
    destruct (dr_ref _ _ _ _ _ _ _ D f x HF Hx Hlt) as (_ & Hx' & _). cbn [fst snd] in Hw.
    rewrite (dr_leaf _ _ _ _ _ _ _ D), upd_leaf_ne in Hw;
      [| intros [-> ?%va_of_same]; congruence | apply Hy | apply va_of_user, Hy].
    pose proof (is_excl _ _ _ _ I f (r', v') Hy Hf Hw) as H1. rewrite Hx in H1. injection H1 as ->.
    rewrite Hx'. destruct (H01 f) as [-> | H1]; [done |]. apply Huse in H1.
    destruct Hne. by apply (isolated_exclusive roots ext s F f).
  - intros f [HF | (HF & Hx & Hc)]%(dr_free _ _ _ _ _ _ _ D); [by apply (is_ext _ _ _ _ I) |].
    assert (Hm : maps roots (ram s) f (r, v)) by (apply Huse; destruct (H01 f); lia).
    destruct Hm as (_ & _ & Hp & <-). by apply He.
Qed.
(** One view of somebody else's page less. *)
Lemma isolated_clear s F s' F' r v e' : isolated roots ext s F -> r ∈ roots -> user_vpn v ->
  let e := leaf (ram s) r (va_of v) in
  (pte_present e = true -> ext (pte_pfn e) = true) -> pte_present e' = false ->
  evolves roots s F s' F' (upd_leaf (leaf (ram s)) r (va_of v) e') -> isolated roots ext s' F'.
Proof.
  intros I Hr Hu e He He' E. pose proof (va_of_user v Hu) as Hua.
  assert (Hleaf : forall r' v', r' ∈ roots -> user_vpn v' -> (r', v') <> (r, v) ->
    leaf (ram s') r' (va_of v') = leaf (ram s) r' (va_of v')).
  { intros r' v' Hr' Hu' Hne. rewrite (ev_leaf _ _ _ _ _ _ E) by (try done; by apply va_of_user).
    apply upd_leaf_ne. intros [-> ?%va_of_same]. congruence. }
  assert (Hmaps : forall f y, ext f = false -> maps roots (ram s') f y <-> maps roots (ram s) f y).
  { intros f [r' v'] Hf. unfold maps. cbn [fst snd]. destruct (decide ((r', v') = (r, v))) as [Heq | Hne].
    - injection Heq as -> ->. rewrite (ev_leaf _ _ _ _ _ _ E), upd_leaf_eq by done. rewrite He'. fold e.
      split; [by intros (_ & _ & ? & _) |]. intros (_ & _ & Hp & Hpf). specialize (He Hp). congruence.
    - split; intros (Hr' & Hu' & Hx); [rewrite Hleaf in Hx by done | rewrite Hleaf by done]; done. }
  constructor; [apply E | | | |].
  - intros f y Hy Hf. apply Hmaps in Hy; [| done]. destruct (is_back _ _ _ _ I f y Hy Hf) as (? & ? & ?). split_and!.
    + by intros ?%(ev_free _ _ _ _ _ _ E).
    + by intros [? | [? _]]%(ev_new _ _ _ _ _ _ E).
    + by apply (ev_held _ _ _ _ _ _ E).
  - intros f y Hy Hf. apply Hmaps in Hy; [| done]. destruct (is_back _ _ _ _ I f y Hy Hf) as (? & _).
    destruct (is_count _ _ _ _ I f y Hy Hf) as (ms & [Hnd Hms] & Hl & ?). exists ms. split; [split; [done |] | split; [| done]].
    + intros z. by rewrite Hmaps, Hms.
    + by rewrite (ev_ref _ _ _ _ _ _ E).
  - intros f [r' v'] Hy Hf Hw. pose proof Hy as (Hr' & Hu' & Hp' & _). cbn [fst snd] in Hr', Hu', Hp', Hw.
    apply Hmaps in Hy; [| done]. destruct (is_back _ _ _ _ I f _ Hy Hf) as (? & _).
    rewrite (ev_ref _ _ _ _ _ _ E) by done. apply (is_excl _ _ _ _ I f (r', v') Hy Hf). cbn [fst snd].
    rewrite <- Hleaf; [done | done | done |]. intros [= -> ->].
    rewrite (ev_leaf _ _ _ _ _ _ E), upd_leaf_eq in Hp' by done. congruence.
  - intros f Hf. by apply (is_ext _ _ _ _ I), (ev_free _ _ _ _ _ _ E).
Qed.

(** What taking one page out of an address space does. *)
Definition page_gone (s s' : machine A) (F' : nat -> Prop) (r : nat) (va : Z) : Prop :=
  isolated roots ext s' F' /\ exists e', pte_present e' = false /\
    forall r' va', r' ∈ roots -> user_va va' -> leaf (ram s') r' va' = upd_leaf (leaf (ram s)) r va e' r' va'.

Lemma va_of_aligned va : aligned va -> va = va_of (va / PAGE_SIZE).
Proof. unfold aligned, va_of, PAGE_SIZE. intros Ha. apply Z.div_exact in Ha; lia. Qed.

Lemma clear_external_ok s F r va : isolated roots ext s F -> r ∈ roots -> user_va va -> aligned va ->
  (pte_present (leaf (ram s) r va) = true -> ext (pte_pfn (leaf (ram s) r va)) = true) ->
  exists s' F', clear_external r va s = Some s' /\ page_gone s s' F' r va.
Proof.
  intros I Hr Hu Ha He. pose proof (is_good _ _ _ _ I) as Hg. destruct (va_of_div va Hu) as [Hv _].
  unfold clear_external. destruct (ensure_pt_ok roots s F r va Hg Hr Hu) as (s1 & res & F1 & Heq & E1 & _ & R1).
  rewrite Heq. cbn [mbind option_bind]. destruct res as [t |].
  - destruct (evolves_set_leaf roots s1 F1 r va t 0 (ev_good _ _ _ _ _ _ E1) Hr Hu R1) as (m & -> & E2). cbn.
    assert (E : evolves roots s F (Machine (pool s1) m) F1 (upd_leaf (leaf (ram s)) r va 0)).
    { eapply evolves_trans; [exact E1 |]. eapply evolves_leaf; [exact E2 |]. intros r' va' Hr' Hu'.
      apply upd_leaf_ext. by apply E1. }
    do 2 eexists. split; [done |]. split; [| exists 0; split; [done | apply E]].
    rewrite (va_of_aligned va Ha) in He, E. by eapply (isolated_clear s F _ F1 r (va / PAGE_SIZE) 0).
  - assert (Habs : pte_present (leaf (ram s) r va) = false).
    { destruct (tbl (ram s) r (path va)) as [t |] eqn:Ht; [| unfold leaf; by rewrite Ht].
      rewrite (ensure_pt_exists s r va t Ht) in Heq. done. }
    exists s1, F1. split; [done |].
    assert (E : evolves roots s F s1 F1 (upd_leaf (leaf (ram s)) r va (leaf (ram s) r va))).
    { eapply evolves_leaf; [exact E1 |]. intros r' va' Hr' Hu'. unfold upd_leaf. case_bool_decide as Hc; [| done].
      destruct Hc as [-> Hs]. by apply leaf_same_page. }
    split; [| exists (leaf (ram s) r va); split; [done | apply E]].
    rewrite (va_of_aligned va Ha) in He, E, Habs. by eapply (isolated_clear s F _ F1 r (va / PAGE_SIZE)).
Qed.

Lemma align_up_aligned va : aligned va -> 0 <= va < 2 ^ 47 -> ALIGN_UP va PAGE_SIZE = va.
Proof.
  intros Ha Hv. rewrite align_up_page by (unfold PAGE_SIZE; lia). unfold aligned, PAGE_SIZE in *.
  apply Z.div_exact in Ha; [| lia]. rewrite Ha at 1.
  replace (4096 * (va / 4096) + 4096 - 1) with (4095 + (va / 4096) * 4096) by lia.
  rewrite Z.div_add by lia. change (4095 / 4096) with 0. lia.
Qed.

Lemma aligned_end va : aligned va -> user_va va -> va + PAGE_SIZE <= 2 ^ 47.
Proof. unfold aligned, user_va, PAGE_SIZE. intros Ha Hu. apply Z.div_exact in Ha; lia. Qed.

(** The page-sized call of [unmap_user_pages] is one iteration. *)
Lemma unmap_page_eq (s : machine A) r va : aligned va -> user_va va ->
  unmap_user_pages r va (u64 (va + PAGE_SIZE)) 1 s = '(s1, _) ← unmap_one r va s; Some s1.
Proof.
  intros Ha Hu. pose proof (aligned_end va Ha Hu) as He. assert (0 < PAGE_SIZE) by done. unfold user_va in Hu.
  unfold unmap_user_pages. rewrite (align_up_aligned va Ha), u64_small by lia.
  unfold range_fuel. replace (va + PAGE_SIZE - va) with PAGE_SIZE by lia. rewrite Z.div_same by done.
  change (Z.to_nat 1) with 1%nat. cbn [unmap_loop]. rewrite (proj2 (Z.ltb_lt va _)) by lia.
  change (0 <? 1) with true. cbn [andb].
  destruct (unmap_one r va s) as [[s1 [n |]] |]; [| done | done]. cbn [mbind option_bind].
  rewrite u64_small, Z.ltb_irrefl by lia. done.
Qed.

Lemma unmap_page_ok s F r va : isolated roots ext s F -> r ∈ roots -> user_va va -> aligned va ->
  (pte_present (leaf (ram s) r va) = true -> ext (pte_pfn (leaf (ram s) r va)) = false) ->
  exists s' F', unmap_user_pages r va (u64 (va + PAGE_SIZE)) 1 s = Some s' /\ page_gone s s' F' r va.
Proof.
  intros I Hr Hu Ha He. pose proof (is_good _ _ _ _ I) as Hg. destruct (va_of_div va Hu) as [Hv _].
  rewrite (unmap_page_eq s r va Ha Hu).
  assert (Hen : enough roots s F (one_use (leaf (ram s)) r va)).
  { intros j Hj. unfold one_use, maps_to in Hj |- *. destruct (pte_present (leaf (ram s) r va)) eqn:Hp; cbn [andb] in *; [| lia].
    destruct (Nat.eqb_spec (pte_pfn (leaf (ram s) r va)) j) as [Hj' | ?]; [| lia].
    assert (Hm : maps roots (ram s) j (r, va / PAGE_SIZE)).
    { unfold maps. cbn [fst snd]. by rewrite <- (va_of_aligned va Ha). }
    rewrite Hj' in He. destruct (is_back _ _ _ _ I j _ Hm (He eq_refl)) as (? & ? & ?).
    destruct (is_count _ _ _ _ I j _ Hm (He eq_refl)) as (ms & [_ Hms] & Hl & Hb). split_and!; [done | done | done |].
    eexists. split; [exact Hl |]. apply Hms in Hm. destruct ms; [by apply not_elem_of_nil in Hm | cbn [length] in *; lia]. }
  destruct (unmap_one_ok roots s F r va Hg Hr Hu Hen) as (s' & res & F' & Heq & Hres). rewrite Heq. cbn [mbind option_bind].
  exists s', F'. split; [done |]. destruct res as [n |].
  - destruct Hres as [_ D]. split.
    + rewrite (va_of_aligned va Ha) in D, He. by eapply (isolated_drop s F s' F' r (va / PAGE_SIZE)).
    + exists (cleared (leaf (ram s) r va)). split; [| apply D]. unfold cleared.
      by destruct (pte_present (leaf (ram s) r va)) eqn:Hp.
  - assert (Habs : pte_present (leaf (ram s) r va) = false).
    { destruct (tbl (ram s) r (path va)) as [t |] eqn:Ht; [| unfold leaf; by rewrite Ht]. unfold unmap_one in Heq.
      rewrite (ensure_pt_exists s r va t Ht) in Heq. cbn [mbind option_bind] in Heq.
      rewrite (leaf_rd _ r va roots t (g_forest _ _ _ Hg) Hr Hu Ht) in Heq. cbn [mbind option_bind] in Heq.
      destruct (pte_present (leaf (ram s) r va)); [| done]. destruct (put_page _ _); [| done]. cbn in Heq.
      by destruct (wr _ _ _ _). }
    destruct Hres as [D _].
    assert (Hsame : forall r' va', r' ∈ roots -> user_va va' ->
      leaf (ram s') r' va' = upd_leaf (leaf (ram s)) r va (leaf (ram s) r va) r' va').
    { intros r' va' Hr' Hu'. rewrite (dr_leaf _ _ _ _ _ _ _ D) by done. unfold upd_leaf. case_bool_decide as Hc; [| done].
      destruct Hc as [-> Hs]. by apply leaf_same_page. }
    split; [| by exists (leaf (ram s) r va)].
    rewrite (va_of_aligned va Ha) in Habs, Hsame. eapply (isolated_drop s F s' F' r (va / PAGE_SIZE)); [done | done | done | |].
    + rewrite Habs. done.
    + eapply drops_ext; [exact D | |].
      * intros j. unfold one_use, maps_to. by rewrite Habs.
      * intros r' va' Hr' Hu'. rewrite <- (dr_leaf _ _ _ _ _ _ _ D), Hsame by done. unfold cleared. by rewrite Habs.
Qed.

(** The addresses from [lo] to [hi] of the address space [r] are unmapped and
    nothing else changes. *)
Definition range_gone (s s' : machine A) (F' : nat -> Prop) (r : nat) (lo hi : Z) : Prop :=
  isolated roots ext s' F' /\
  (forall x, user_va x -> lo <= x < hi -> pte_present (leaf (ram s') r x) = false) /\
  (forall r' x, r' ∈ roots -> user_va x -> ~ (r' = r /\ lo <= x < hi) -> leaf (ram s') r' x = leaf (ram s) r' x).

Lemma range_gone_refl s F r lo : isolated roots ext s F -> range_gone s s F r lo lo.
Proof. intros I. split_and!; [done | lia | done]. Qed.

(** What was absent stays absent, so gone ranges add up. *)
Lemma range_gone_trans s s1 F1 s2 F2 r lo mid hi : lo <= mid <= hi -> r ∈ roots ->
  range_gone s s1 F1 r lo mid -> range_gone s1 s2 F2 r mid hi -> range_gone s s2 F2 r lo hi.
Proof.
  intros Hm Hr (_ & G1 & O1) (I2 & G2 & O2). split_and!; [done | |].
  - intros x Hu Hx. destruct (decide (x < mid)); [rewrite O2 by (try done; lia); by apply G1; [| lia] | by apply G2; [| lia]].
  - intros r' x Hr' Hu Hx. rewrite O2, O1; [done | done | done | intros [? ?]; apply Hx; split; [done | lia] | done | done |].
    intros [? ?]; apply Hx; split; [done | lia].
Qed.

Lemma page_gone_range s s' F' r va : aligned va -> user_va va -> r ∈ roots ->
  page_gone s s' F' r va -> range_gone s s' F' r va (va + PAGE_SIZE).
Proof.
  intros Ha Hu Hr (I & e & He & Hl). split_and!; [done | |].
  - intros x Hux Hx. rewrite Hl, upd_leaf_eq by (try done; by apply aligned_page). done.
  - intros r' x Hr' Hux Hx. rewrite Hl by done. apply upd_leaf_ne. intros [-> Hs]. apply Hx. split; [done |].
    unfold same_page, aligned, PAGE_SIZE in *. apply Z.div_exact in Ha; [| lia]. pose proof (Z.mod_pos_bound x 4096 ltac:(lia)).
    pose proof (Z.div_mod x 4096 ltac:(lia)). lia.
Qed.

(** The entries of a range are private ([b = false]) or external. *)
Definition of_kind (m : memory) (r : nat) (lo hi : Z) (b : bool) : Prop :=
  forall x, user_va x -> lo <= x < hi -> pte_present (leaf m r x) = true -> ext (pte_pfn (leaf m r x)) = b.

Lemma each_page_ok r b (f : Z -> machine A -> option (machine A)) : r ∈ roots ->
  (forall s F va, isolated roots ext s F -> user_va va -> aligned va ->
     (pte_present (leaf (ram s) r va) = true -> ext (pte_pfn (leaf (ram s) r va)) = b) ->
     exists s' F', f va s = Some s' /\ page_gone s s' F' r va) ->
  forall n s F va, isolated roots ext s F -> aligned va -> 0 <= va -> va + Z.of_nat n * PAGE_SIZE <= 2 ^ 47 ->
    of_kind (ram s) r va (va + Z.of_nat n * PAGE_SIZE) b ->
    exists s' F', each_page n va f s = Some s' /\ range_gone s s' F' r va (va + Z.of_nat n * PAGE_SIZE).
Proof.
  intros Hr Hf. induction n as [| n IH]; intros s F va I Ha H0 He Hk; cbn [each_page].
  { exists s, F. split; [done |]. rewrite Z.add_0_r. by apply range_gone_refl. }
  assert (0 < PAGE_SIZE) by done. assert (Hu : user_va va) by (unfold user_va; lia).
  destruct (Hf s F va I Hu Ha) as (s1 & F1 & -> & G1); [apply Hk; [done | lia] |]. cbn [mbind option_bind].
  apply page_gone_range in G1; [| done | done | done]. rewrite u64_small by lia.
  destruct (IH s1 F1 (va + PAGE_SIZE)) as (s2 & F2 & -> & G2).
  - apply G1.
  - by apply aligned_next.
  - lia.
  - lia.
  - intros x Hux Hx. destruct G1 as (_ & _ & O1). rewrite O1 by (try done; lia). apply Hk; [done | lia].
  - exists s2, F2. split; [done |].
    replace (va + Z.of_nat (S n) * PAGE_SIZE) with (va + PAGE_SIZE + Z.of_nat n * PAGE_SIZE) by lia.
    eapply range_gone_trans; [| done | exact G1 | exact G2]. lia.
Qed.

End UnmapPage.

(** ** Unmapping regions *)

Definition page_aligned (mr : mmap_region) : Prop := aligned (vaddr mr) /\ aligned (vaddr mr + size mr).

(** An entry up to its dirty bit. *)
Lemma clear_dirty_same e e' : clear_flag e PTE_DIRTY = clear_flag e' PTE_DIRTY ->
  pte_present e = pte_present e' /\ pte_pfn e = pte_pfn e' /\ has_flag e PTE_RW = has_flag e' PTE_RW.
Proof.
  intros Hc.
  assert (Hl : forall M, Z.land (Z.lnot PTE_DIRTY) M = M -> Z.land e M = Z.land e' M).
  { intros M HM. rewrite <- HM. unfold clear_flag in Hc. rewrite !Z.ldiff_land in Hc.
    by rewrite !Z.land_assoc, Hc. }
  split_and!; [unfold pte_present, has_flag | unfold pte_pfn | unfold has_flag]; by rewrite Hl.
Qed.

Lemma clear_dirty_idem e : clear_flag (clear_flag e PTE_DIRTY) PTE_DIRTY = clear_flag e PTE_DIRTY.
Proof. unfold clear_flag. apply Z.bits_inj'. intros k Hk. rewrite !Z.ldiff_spec. by destruct (Z.testbit e k), (Z.testbit PTE_DIRTY k). Qed.

Section UnmapRange.
Context `{PageAllocator A}.
Context (roots : list nat) (ext : nat -> bool) (r : nat).
Context (hook : option (nat -> mmap_region -> machine A -> option (machine A))).
Hypothesis Hr : r ∈ roots.

(** What is relied on of the writeback hook: it returns, keeps the isolation,
    and changes at most the dirty bits of the pages of the region. *)
Definition hook_ok : Prop := forall h, hook = Some h -> forall mr s F, isolated roots ext s F -> region_ok mr -> page_aligned mr ->
  exists s' F', h r mr s = Some s' /\ isolated roots ext s' F' /\
    (forall r' x, r' ∈ roots -> user_va x -> ~ (r' = r /\ vaddr mr <= x < vaddr mr + size mr) ->
       leaf (ram s') r' x = leaf (ram s) r' x) /\
    (forall x, user_va x -> clear_flag (leaf (ram s') r x) PTE_DIRTY = clear_flag (leaf (ram s) r x) PTE_DIRTY).
Hypothesis Hhook : hook_ok.

Lemma region_pages_ok mr : region_ok mr -> page_aligned mr ->
  vaddr mr + Z.of_nat (region_pages mr) * PAGE_SIZE = vaddr mr + size mr.
Proof.
  intros [R1 R2 _ _ _] [A1 A2]. unfold region_pages, aligned, PAGE_SIZE in *.
  assert (Hm : size mr mod 4096 = 0).
  { replace (size mr) with (vaddr mr + size mr - vaddr mr) by lia. rewrite Zminus_mod, A1, A2. done. }
  apply Z.div_exact in Hm; [| lia]. rewrite Z2Nat.id by (apply Z.div_pos; lia). lia.
Qed.

Lemma free_one_region_ok mr l x s F w : isolated roots ext s F -> region_ok mr -> page_aligned mr ->
  of_kind ext (ram s) r (vaddr mr) (vaddr mr + size mr) (external mr) ->
  has_flag (flags mr) KMAP_DMA_OWNED = false -> outside_ok x -> balanced w (mr :: l) x ->
  exists s' w' F', free_one_region hook r mr s w = Some (s', w') /\ balanced w' l x /\
    range_gone roots ext s s' F' r (vaddr mr) (vaddr mr + size mr).
Proof.
  intros I Hmr Hal Hk Hdma Hx B. destruct (region_put_ok w l x mr (ro_objs _ Hmr) Hx B) as (w' & Hput & B').
  unfold free_one_region.
  assert (exists s1 F1, (match hook with Some h => h r mr s | None => Some s end) = Some s1 /\ isolated roots ext s1 F1 /\
    (forall r' y, r' ∈ roots -> user_va y -> ~ (r' = r /\ vaddr mr <= y < vaddr mr + size mr) ->
       leaf (ram s1) r' y = leaf (ram s) r' y) /\
    of_kind ext (ram s1) r (vaddr mr) (vaddr mr + size mr) (external mr)) as (s1 & F1 & -> & I1 & O1 & K1).
  { destruct hook as [h |] eqn:Hh; [| by exists s, F].
    destruct (Hhook h Hh mr s F I Hmr Hal) as (s1 & F1 & Heq & I1 & O1 & D1). exists s1, F1. split_and!; [done | done | done |].
    intros y Hu Hy. destruct (clear_dirty_same _ _ (D1 y Hu)) as (-> & -> & _). by apply Hk. }
  cbn [mbind option_bind].
  assert (Hrange : forall s2 F2, range_gone roots ext s1 s2 F2 r (vaddr mr) (vaddr mr + size mr) ->
    range_gone roots ext s s2 F2 r (vaddr mr) (vaddr mr + size mr)).
  { intros s2 F2 (I2 & G2 & O2). split_and!; [done | done |]. intros r' y Hr' Hu Hy. by rewrite O2, O1. }
  pose proof (region_pages_ok mr Hmr Hal) as Hpages. destruct Hmr as [R1 R2 R3 R4 [R5 R6]]. destruct Hal as [A1 _].
  assert (Hend : vaddr mr + Z.of_nat (region_pages mr) * PAGE_SIZE <= 2 ^ 47)
    by (rewrite Hpages; unfold USER_VMA_UPPER_BOUND in R3; lia).
  unfold region_put in Hput. destruct (external mr) eqn:Hext.
  - destruct (each_page_ok roots ext r true (clear_external r) Hr (fun s F va I Hu Ha => clear_external_ok roots ext s F r va I Hr Hu Ha)
      (region_pages mr) s1 F1 (vaddr mr) I1 A1 R1 Hend) as (s2 & F2 & -> & G2); [by rewrite Hpages |].
    rewrite Hpages in G2. cbn [mbind option_bind].
    destruct (maywrite mr (-1) w) as [w1 |]; [| done]. cbn [mbind option_bind] in Hput |- *.
    destruct (shm_put (shm_obj mr) w1) as [w2 |]; [| done]. cbn [mbind option_bind] in Hput |- *. rewrite Hdma.
    cbn [mbind option_bind].
    destruct (inode_put (inode mr) w2) as [w3 |]; [| done]. cbn [mbind option_bind] in Hput |- *.
    destruct (shm_put (shm_private_src mr) w3) as [w4 |]; [| done]. cbn [mbind option_bind] in Hput |- *.
    destruct (vma_owner_put mr w4) as [[? w5] |]; [| done]. injection Hput as ->. cbn.
    do 3 eexists. split_and!; [done | done | apply Hrange; exact G2].
  - destruct (each_page_ok roots ext r false (fun va => unmap_user_pages r va (u64 (va + PAGE_SIZE)) 1) Hr
      (fun s F va I Hu Ha => unmap_page_ok roots ext s F r va I Hr Hu Ha)
      (region_pages mr) s1 F1 (vaddr mr) I1 A1 R1 Hend) as (s2 & F2 & -> & G2); [by rewrite Hpages |].
    rewrite Hpages in G2. cbn [mbind option_bind].
    assert (shm_obj mr = None /\ has_flag (flags mr) KMAP_SHM_MAYWRITE = false) as [Hs Hmw].
    { unfold external in Hext. bool_to_prop. rewrite bool_decide_eq_false in *. rewrite <- eq_None_not_Some in *.
      split; [done |]. destruct (has_flag (flags mr) KMAP_SHM_MAYWRITE); [| done]. destruct (R5 eq_refl). congruence. }
    unfold maywrite in Hput. rewrite Hmw, Hs in Hput. cbn [mbind option_bind shm_put] in Hput.
    destruct (inode_put (inode mr) w) as [w3 |]; [| done]. cbn [mbind option_bind] in Hput |- *.
    destruct (shm_put (shm_private_src mr) w3) as [w4 |]; [| done]. cbn [mbind option_bind] in Hput |- *.
    destruct (vma_owner_put mr w4) as [[? w5] |]; [| done]. injection Hput as ->. cbn.
    do 3 eexists. split_and!; [done | done | apply Hrange; exact G2].
Qed.

(** Every present page of a region is of the kind the region says. *)
Definition kinds (m : memory) (l : list mmap_region) : Prop :=
  forall mr, mr ∈ l -> of_kind ext m r (vaddr mr) (vaddr mr + size mr) (external mr).

(** What the loop has done to the list [l]: the addresses of [l] from [addr]
    to [stop] are gone from the list and from the page tables; [stop] is the
    end of the range unless memory ran out. *)
Record unmapped (l : list mmap_region) (b addr end_ : Z) (s : machine A)
    (l' : list mmap_region) (s' : machine A) (rc : Z) : Prop := {
  um_wf : wf_from b l';
  um_rc : rc = 0 \/ rc = - ENOMEM;
  um_iso : exists F', isolated roots ext s' F';
  um_view : exists stop, (rc = 0 -> stop = end_) /\ stop <= end_ /\ (stop = end_ \/ b <= stop) /\
    (forall x, view l' x = if (addr <=? x) && (x <? stop) then None else view l x) /\
    (forall x, user_va x -> addr <= x < stop -> view l x <> None -> pte_present (leaf (ram s') r x) = false) /\
    (forall r' x, r' ∈ roots -> user_va x -> ~ (r' = r /\ addr <= x < stop /\ view l x <> None) ->
       leaf (ram s') r' x = leaf (ram s) r' x);
}.

(** The first region is replaced by [rs], its addresses from [lo] to [hi],
    those in the range, are freed, and the loop goes on with the rest. *)
Lemma unmapped_step cur next b addr end_ s s1 F1 rs l' s' rc lo hi :
  wf_from b (cur :: next) -> addr < end_ -> (forall l'', wf_from (vaddr cur + size cur) l'' -> wf_from b (rs ++ l'')) ->
  (forall x, lo <= x < hi <-> covers cur x = true /\ addr <= x < end_) ->
  (forall x l'', wf_from (vaddr cur + size cur) l'' -> view (rs ++ l'') x =
    if covers cur x then (if (lo <=? x) && (x <? hi) then None else Some (attr_at cur x)) else view l'' x) ->
  range_gone roots ext s s1 F1 r lo hi ->
  unmapped next (vaddr cur + size cur) addr end_ s1 l' s' rc ->
  unmapped (cur :: next) b addr end_ s (rs ++ l') s' rc.
Proof.
  intros (Hc & Hb & Hn) Hae Hwf Hlh Hview (_ & G & O) [U1 U2 U3 (stop & S1 & S2 & S3 & S4 & S5 & S6)].
  destruct Hc as [R1 R2 R3 _ _]. constructor; [by apply Hwf | done | done |].
  assert (Hcov : forall x, covers cur x = true -> addr <= x < end_ -> x < stop).
  { intros x Hx%covers_iff Hr'. destruct S3 as [-> | ?]; lia. }
  assert (Hnext : forall x, covers cur x = true -> view next x = None).
  { intros x Hx%covers_iff. apply (view_below _ _ _ Hn). lia. }
  exists stop. split_and!; [done | done | destruct S3; [by left | right; lia] | | |].
  - intros x. rewrite Hview by done. cbn [view]. destruct (covers cur x) eqn:Hcx; [| apply S4].
    specialize (Hlh x). rewrite Hcx in Hlh. specialize (Hcov x Hcx).
    destruct (Z.leb_spec lo x), (Z.ltb_spec x hi), (Z.leb_spec addr x), (Z.ltb_spec x stop); cbn; try done;
      exfalso; intuition lia.
  - intros x Hu Hx Hv. cbn [view] in Hv. destruct (covers cur x) eqn:Hcx; [| by apply S5].
    rewrite S6; [apply G; [done |]; apply Hlh; split; [done | lia] | done | done |].
    intros (_ & _ & Hv'). by rewrite Hnext in Hv'.
  - intros r' x Hr' Hu Hx. rewrite S6, O; [done | done | done | | done | done |].
    + intros [-> Hl]. apply Hlh in Hl as [Hcx Hl]. apply Hx. split_and!; [done | lia | by apply Hcov |].
      cbn [view]. by rewrite Hcx.
    + intros (-> & Hl & Hv). apply Hx. split_and!; [done | lia | lia |]. cbn [view]. by destruct (covers cur x).
Qed.

Lemma external_piece mr p : region_ok mr -> region_ok p -> same_refs mr p ->
  (forall x, covers p x = true -> attr_at p x = attr_at mr x) -> vaddr mr <= vaddr p -> external p = external mr.
Proof.
  intros [_ _ _ M4 _] [P1 P2 _ P4 _] (E1 & _ & _ & _ & E5) Hat Hle. unfold external. rewrite <- E1, <- E5. do 2 f_equal.
  assert (Hc : covers p (vaddr p) = true) by (apply covers_iff; lia). pose proof (f_equal at_phys (Hat _ Hc)) as Hp.
  unfold attr_at in Hp. cbn in Hp. f_equal.
  destruct (Z.eqb_spec (phys p) 0), (Z.eqb_spec (phys mr) 0); try done; exfalso; lia.
Qed.

(** The pieces around the freed middle. *)
Lemma rest_view mr a n ps l x : splits mr a n ps -> wf_from (vaddr mr + size mr) l ->
  view ((opt_list (p_front ps) ++ opt_list (p_tail ps)) ++ l) x =
  if covers mr x then (if (a <=? x) && (x <? a + n) then None else Some (attr_at mr x)) else view l x.
Proof.
  intros Hsp Hl. rewrite <- app_assoc, view_app, view_app. pose proof (sp_range _ _ _ _ Hsp).
  rewrite (front_view mr a n), (tail_view mr a n) by done.
  destruct (covers mr x) eqn:Hc; [apply covers_iff in Hc | apply covers_false in Hc];
    destruct (Z.leb_spec (vaddr mr) x), (Z.ltb_spec x a), (Z.leb_spec (a + n) x), (Z.ltb_spec x (vaddr mr + size mr)),
      (Z.leb_spec a x), (Z.ltb_spec x (a + n)); cbn; try done; try (exfalso; lia).
  apply (view_below _ _ _ Hl). lia.
Qed.

Lemma rest_wf mr a n ps l b : splits mr a n ps -> b <= vaddr mr -> wf_from (vaddr mr + size mr) l ->
  wf_from b ((opt_list (p_front ps) ++ opt_list (p_tail ps)) ++ l).
Proof.
  intros [(S1 & S2 & S3) Hok _ _ Hf Ht] Hb Hl. unfold piece_list in Hok. apply Forall_app in Hok as [Fok [_ Tok]%Forall_cons].
  assert (Htl : wf_from (a + n) (opt_list (p_tail ps) ++ l)).
  { destruct (p_tail ps) as [t |]; cbn in *.
    - rewrite Forall_singleton in Tok. split; [exact Tok |]. split; [lia |].
      by replace (vaddr t + size t) with (vaddr mr + size mr) by lia.
    - eapply wf_from_weaken; [| exact Hl]. lia. }
  rewrite <- app_assoc. destruct (p_front ps) as [f |]; cbn in *.
  - rewrite Forall_singleton in Fok. split_and!; [done | lia |]. eapply wf_from_weaken; [| exact Htl]. lia.
  - eapply wf_from_weaken; [| exact Htl]. lia.
Qed.

(** A list the loop can work on: aligned regions of known kinds, without
    DMA memory of their own. *)
Definition unmappable (m : memory) (l : list mmap_region) : Prop :=
  kinds m l /\ Forall page_aligned l /\ Forall (fun mr => has_flag (flags mr) KMAP_DMA_OWNED = false) l.

(** The kinds of the remaining regions survive the freeing of a region. *)
Lemma unmappable_next s s1 F1 cur next lo hi : wf_from (vaddr cur + size cur) next ->
  unmappable (ram s) (cur :: next) -> hi <= vaddr cur + size cur ->
  range_gone roots ext s s1 F1 r lo hi -> unmappable (ram s1) next.
Proof.
  intros Hn (K & A1 & D) Hhi (_ & _ & O). apply Forall_cons in A1 as [_ A1], D as [_ D]. split_and!; [| done | done].
  intros mr Hin x Hu Hx. destruct (wf_region_elem _ _ _ Hn Hin) as [_ Hlow]. rewrite O by (try done; intros [_ ?]; lia).
  by apply (K mr); [right | |].
Qed.

Section Loop.
Context (addr end_ : Z) (x : objs).
Hypothesis Hx : outside_ok x.
Hypothesis Ha : 0 <= addr < end_.
Hypothesis He : end_ < 2 ^ 64.
Hypothesis Haa : aligned addr.
Hypothesis Hea : aligned end_.

(** The loop on [next], after [cur] has been dealt with. *)
Definition loop_ok (next : list mmap_region) : Prop := forall b s F w m pre, wf_from b next ->
  isolated roots ext s F -> unmappable (ram s) next -> balanced w (next ++ pre) x ->
  exists l' s' w' m' rc, vma_unmap_loop hook next r addr end_ s w m = Some (l', s', w', m', rc) /\
    unmapped next b addr end_ s l' s' rc /\ balanced w' (l' ++ pre) x /\ (no_oom m -> rc = 0).

Lemma loop_step cur next b s s1 F1 w1 m m1 rs pre lo hi : loop_ok next -> wf_from b (cur :: next) ->
  unmappable (ram s) (cur :: next) -> hi <= vaddr cur + size cur ->
  balanced w1 (next ++ rs ++ pre) x -> (no_oom m -> no_oom m1) ->
  (forall l'', wf_from (vaddr cur + size cur) l'' -> wf_from b (rs ++ l'')) ->
  (forall y, lo <= y < hi <-> covers cur y = true /\ addr <= y < end_) ->
  (forall y l'', wf_from (vaddr cur + size cur) l'' -> view (rs ++ l'') y =
    if covers cur y then (if (lo <=? y) && (y <? hi) then None else Some (attr_at cur y)) else view l'' y) ->
  range_gone roots ext s s1 F1 r lo hi ->
  exists l' s' w' m' rc,
    ('(l', s', w', m', rc) ← vma_unmap_loop hook next r addr end_ s1 w1 m1; Some (rs ++ l', s', w', m', rc))
      = Some (l', s', w', m', rc) /\
    unmapped (cur :: next) b addr end_ s l' s' rc /\ balanced w' (l' ++ pre) x /\ (no_oom m -> rc = 0).
Proof.
  intros IH Hwf Hun Hhi B Hm Hrs Hlh Hvw G. pose proof Hwf as (_ & _ & Hn).
  destruct (IH _ s1 F1 w1 m1 (rs ++ pre) Hn (proj1 G) (unmappable_next _ _ _ _ _ _ _ Hn Hun Hhi G) B)
    as (l' & s' & w' & m' & rc & -> & U & B' & Hrc).
  cbn [mbind option_bind]. do 5 eexists. split_and!; [done | eapply unmapped_step; try done; lia | | auto].
  eapply balanced_perm; [| exact B']. solve_Permutation.
Qed.

(** Freeing the middle of [cur]. *)
Lemma loop_split cur next b s F w m pre a n : loop_ok next -> wf_from b (cur :: next) -> isolated roots ext s F ->
  unmappable (ram s) (cur :: next) -> balanced w ((cur :: next) ++ pre) x ->
  vaddr cur <= a -> 0 < n -> a + n <= vaddr cur + size cur -> aligned a -> aligned (a + n) -> addr <= a < end_ ->
  (forall y, a <= y < a + n <-> covers cur y = true /\ addr <= y < end_) -> a = addr \/ a = vaddr cur ->
  exists l' s' w' m' rc, ('(w1, m1, res) ← vma_split cur a n w m;
    match res with
    | None => Some (cur :: next, s, w1, m1, - ENOMEM)
    | Some ps =>
        '(s2, w2) ← free_one_region hook r (p_mid ps) s w1;
        '(l', s', w', m', rc) ← vma_unmap_loop hook next r addr end_ s2 w2 m1;
        Some ((opt_list (p_front ps) ++ opt_list (p_tail ps)) ++ l', s', w', m', rc)
    end) = Some (l', s', w', m', rc) /\
    unmapped (cur :: next) b addr end_ s l' s' rc /\ balanced w' (l' ++ pre) x /\ (no_oom m -> rc = 0).
Proof.
  intros IH Hwf I Hun B Ha1 Hn1 Ha2 Al1 Al2 Hae Hin Hwhich. pose proof Hwf as (Hr0 & Hb & Hn).
  destruct (vma_split_ok cur a n w m (next ++ pre) x Hr0 Ha1 Hn1 Ha2 Hx B) as (w1 & m1 & res & -> & Hno & Hps).
  cbn [mbind option_bind]. destruct res as [ps |].
  - destruct Hps as [Hsp B1]. pose proof (sp_mid _ _ _ _ Hsp) as (Mv & Ms & Mat).
    pose proof (sp_ok _ _ _ _ Hsp) as Hok. pose proof (sp_refs _ _ _ _ Hsp) as Hrefs. unfold piece_list in Hok, Hrefs.
    apply Forall_app in Hok as [_ [Mok _]%Forall_cons]. apply Forall_app in Hrefs as [_ [Mref _]%Forall_cons].
    destruct Hun as (K & A1 & D). pose proof D as [Dc _]%Forall_cons.
    destruct (free_one_region_ok (p_mid ps) (opt_list (p_front ps) ++ opt_list (p_tail ps) ++ next ++ pre) x s F w1)
      as (s2 & w2 & F2 & -> & B2 & G2); [done | done | | | | done | |].
    + unfold page_aligned. by rewrite Mv, Ms.
    + rewrite (external_piece cur) by (done || lia). rewrite Mv, Ms. intros y Hu Hy.
      apply (K cur); [by left | done | lia].
    + destruct Mref as (_ & _ & _ & _ & <-). done.
    + eapply balanced_perm; [| exact B1]. unfold piece_list. solve_Permutation.
    + cbn [mbind option_bind]. rewrite Mv, Ms in G2.
      eapply (loop_step cur next b s s2 F2 w2 m m1 _ pre a (a + n)); [done | done | done | done | | by intros []%Hno | | done | | done].
      * eapply balanced_perm; [| exact B2]. solve_Permutation.
      * intros l'' Hl''. by eapply rest_wf.
      * intros y l'' Hl''. by eapply rest_view.
  - do 5 eexists. split_and!; [done | | done | by intros [_ []]%Hno].
    constructor; [done | by right | by exists F |].
    exists (Z.max addr (vaddr cur)). split_and!; [done | lia | right; lia | | | done].
    + intros y. destruct (Z.leb_spec addr y); cbn [andb]; [| done]. destruct (Z.ltb_spec y (Z.max addr (vaddr cur))); [| done].
      apply (view_below (vaddr cur)); [| lia]. cbn. by split_and!; [| lia |].
    + intros y _ Hy Hv. destruct Hv. apply (view_below (vaddr cur)); [| lia]. cbn. by split_and!; [| lia |].
Qed.

Lemma vma_unmap_loop_ok l : loop_ok l.
Proof.
  induction l as [| cur next IH]; intros b s F w m pre Hwf I Hun B; cbn [vma_unmap_loop].
  { do 5 eexists. split_and!; [done | | done | done]. constructor; [done | by left | by exists F |].
    exists end_. split_and!; [done | lia | by left | intros y; by case_match | done | done]. }
  pose proof Hwf as (Hr0 & Hb & Hn). pose proof Hr0 as [R1 R2 R3 R4 R5]. rewrite (region_end_ok cur Hr0).
  pose proof Hun as (K & A1 & D). apply Forall_cons in A1 as [[Ac1 Ac2] _]. apply Forall_cons in D as [Dc _].
  destruct (Z.leb_spec end_ (vaddr cur)) as [Hpast | Hnpast].
  { assert (Hnone : forall y, y < end_ -> view (cur :: next) y = None).
    { intros y Hy. apply (view_below (vaddr cur)); [| lia]. cbn. by split_and!; [| lia |]. }
    do 5 eexists. split_and!; [done | | done | done]. constructor; [done | by left | by exists F |].
    exists end_. split_and!; [done | lia | by left | | | done].
    - intros y. destruct (Z.leb_spec addr y); cbn [andb]; [| done]. destruct (Z.ltb_spec y end_); [| done]. by apply Hnone.
    - intros y _ Hy Hv. destruct Hv. apply Hnone. lia. }
  destruct (Z.leb_spec (vaddr cur + size cur) addr) as [Hbefore | Hnb].
  { eapply (loop_step cur next b s s F w m m [cur] pre (vaddr cur) (vaddr cur)); try done; [lia | | | | by apply range_gone_refl].
    - eapply balanced_perm; [| exact B]. solve_Permutation.
    - intros y. rewrite covers_iff. lia.
    - intros y l'' _. cbn. destruct (covers cur y); [| done].
      destruct (Z.leb_spec (vaddr cur) y), (Z.ltb_spec y (vaddr cur)); cbn; try done; lia. }
  destruct (Z.ltb_spec (vaddr cur) addr) as [Hfr | Hnfr].
  { rewrite !u64_small by (unfold USER_VMA_UPPER_BOUND in *; lia).
    destruct (Z.ltb_spec (vaddr cur + size cur) end_); eapply loop_split; try done; try lia;
      try (intros y; rewrite covers_iff; lia); try (by left).
    - by rewrite Zplus_minus.
    - by rewrite Zplus_minus. }
  destruct (Z.ltb_spec end_ (vaddr cur + size cur)) as [Htl | Hntl].
  { rewrite u64_small by (unfold USER_VMA_UPPER_BOUND in *; lia). eapply loop_split; try done; try lia;
      try (intros y; rewrite covers_iff; lia); try (by right). by rewrite Zplus_minus. }
  destruct (free_one_region_ok cur (next ++ pre) x s F w) as (s1 & w1 & F1 & -> & B1 & G1); try done.
  { apply K. by left. }
  cbn [mbind option_bind]. eapply (loop_step cur next b s s1 F1 w1 m m [] pre (vaddr cur) (vaddr cur + size cur)); try done.
  - intros l'' Hl''. eapply wf_from_weaken; [| exact Hl'']. lia.
  - intros y. rewrite covers_iff. lia.
  - intros y l'' Hl''. cbn [app]. change ((vaddr cur <=? y) && (y <? vaddr cur + size cur)) with (covers cur y).
    destruct (covers cur y) eqn:Hc; [| done]. apply covers_iff in Hc. apply (view_below _ _ _ Hl''). lia.
Qed.
End Loop.

End UnmapRange.

(** ** The write-back of shared file mappings *)

Section SharedWriteback.
Context `{PageAllocator A}.
Context (roots : list nat) (ext : nat -> bool) (pc : page_cache_ops A).

(** The user half of the page tables is the same. *)
Definition keeps_entries (s s' : machine A) : Prop := forall r x, r ∈ roots -> user_va x ->
  tbl (ram s') r (path x) = tbl (ram s) r (path x) /\ leaf (ram s') r x = leaf (ram s) r x.

(** What is relied on of the page cache: its calls return, keep the isolation
    of the address spaces and do not write page tables. *)
Definition pc_ok : Prop := forall s F ip idx, isolated roots ext s F ->
  exists s1 F1 cp, pc_fill pc ip idx s = Some (s1, cp) /\ isolated roots ext s1 F1 /\ keeps_entries s s1 /\
    forall c phys n, cp = Some c -> exists s2 F2 rc, pc_store pc c phys n s1 = Some (s2, rc) /\
      isolated roots ext s2 F2 /\ keeps_entries s1 s2.

(** At most the dirty bits of a range change. *)
Definition cleaned (r : nat) (lo hi : Z) (s s' : machine A) : Prop :=
  (forall r' x, r' ∈ roots -> user_va x -> ~ (r' = r /\ lo <= x < hi) -> leaf (ram s') r' x = leaf (ram s) r' x) /\
  (forall x, user_va x -> clear_flag (leaf (ram s') r x) PTE_DIRTY = clear_flag (leaf (ram s) r x) PTE_DIRTY).

Lemma keeps_cleaned r lo hi s s' : r ∈ roots -> keeps_entries s s' -> cleaned r lo hi s s'.
Proof. intros Hr K. split; [intros r' x Hr' Hu _; by apply K | intros x Hu; f_equal; by apply K]. Qed.

Lemma cleaned_trans r lo hi lo' hi' s s1 s2 : lo' <= lo -> hi <= hi' -> cleaned r lo hi s s1 -> cleaned r lo' hi' s1 s2 -> cleaned r lo' hi' s s2.
Proof.
  intros Hlo Hhi [O1 D1] [O2 D2]. split; [| intros x Hu; by rewrite D2, D1].
  intros r' x Hr' Hu Hx. rewrite O2 by done. apply O1; [done | done |]. intros [? ?]. apply Hx. split; [done | lia].
Qed.

(** A new dirty bit in one entry. *)
Lemma dirty_entry s F r va t e : isolated roots ext s F -> r ∈ roots -> user_va va -> aligned va -> tbl (ram s) r (path va) = Some t ->
  clear_flag e PTE_DIRTY = clear_flag (leaf (ram s) r va) PTE_DIRTY ->
  exists m, wr t (pt_idx va) e (ram s) = Some m /\
    isolated roots ext (Machine (pool s) m) F /\ cleaned r va (va + PAGE_SIZE) s (Machine (pool s) m).
Proof.
  intros I Hr Hu Ha Ht He.
  destruct (evolves_set_leaf roots s F r va t e (is_good _ _ _ _ I) Hr Hu Ht) as (m & Hwr & E).
  exists m. split; [done |].
  assert (HL : forall r' x, r' ∈ roots -> user_va x ->
    clear_flag (upd_leaf (leaf (ram s)) r va e r' x) PTE_DIRTY = clear_flag (leaf (ram s) r' x) PTE_DIRTY).
  { intros r' x Hr' Hx. unfold upd_leaf. case_bool_decide as Hc; [| done]. destruct Hc as [-> Hs].
    by rewrite He, (leaf_same_page (ram s) r x va). }
  split; [| split].
  - eapply isolated_evolves; [exact I | exact E |]. intros r' v Hr' Hv. cbv zeta.
    destruct (clear_dirty_same _ _ (HL r' (va_of v) Hr' (va_of_user v Hv))) as (-> & -> & ->). split_and!; [done | done | by left].
  - intros r' x Hr' Hx Hne. rewrite (ev_leaf _ _ _ _ _ _ E) by done. apply upd_leaf_ne. intros [-> Hs]. apply Hne. split; [done |].
    unfold same_page, aligned, PAGE_SIZE in *. apply Z.div_exact in Ha; [| lia]. Z.to_euclidean_division_equations. lia.
  - intros x Hx. rewrite (ev_leaf _ _ _ _ _ _ E) by done. by apply HL.
Qed.

Hypothesis Hpc : pc_ok.

Lemma writeback_page_ok r ip fsz pos va err s F : isolated roots ext s F -> r ∈ roots -> user_va va -> aligned va ->
  exists s' F' err', writeback_page pc r ip fsz pos va err s = Some (s', err') /\ isolated roots ext s' F' /\
    cleaned r va (va + PAGE_SIZE) s s'.
Proof.
  intros I Hr Hu Ha. pose proof (g_forest _ _ _ (is_good _ _ _ _ I)) as Hfo. unfold writeback_page.
  rewrite (lookup_leaf _ r va roots Hfo Hr Hu). cbn [mbind option_bind].
  assert (Hsame : forall s', keeps_entries s s' -> cleaned r va (va + PAGE_SIZE) s s') by (intros; by apply keeps_cleaned).
  destruct (pte_present (leaf (ram s) r va)); [| exists s, F, err; split_and!; [done | done | by apply Hsame]].
  destruct (tbl (ram s) r (path va)) as [t |] eqn:Ht; [| exists s, F, err; split_and!; [done | done | by apply Hsame]]. cbn [fmap option_fmap option_map].
  rewrite (leaf_rd _ r va roots t Hfo Hr Hu Ht). cbn [mbind option_bind].
  destruct (has_flag (leaf (ram s) r va) PTE_DIRTY); cbn [negb]; [| exists s, F, err; split_and!; [done | done | by apply Hsame]].
  destruct (Hpc s F ip (pos / PAGE_SIZE) I) as (s1 & F1 & cp & -> & I1 & K1 & Hst). cbn [mbind option_bind].
  destruct cp as [cp |]; [| eexists _, F1, _; split_and!; [done | done | by apply Hsame]].
  assert (Ht1 : tbl (ram s1) r (path va) = Some t) by (rewrite (proj1 (K1 r va Hr Hu)); done).
  rewrite (leaf_rd _ r va roots t (g_forest _ _ _ (is_good _ _ _ _ I1)) Hr Hu Ht1). cbn [mbind option_bind].
  match goal with |- context [pc_store pc cp ?ph ?n s1] => destruct (Hst cp ph n eq_refl) as (s2 & F2 & rc & -> & I2 & K2) end.
  assert (K : keeps_entries s s2). { intros r' x Hr' Hx. destruct (K1 r' x Hr' Hx), (K2 r' x Hr' Hx). split; congruence. }
  cbn [mbind option_bind]. destruct (Z.eqb_spec rc 0); cbn [negb]; [| eexists _, F2, _; split_and!; [done | done | by apply Hsame]].
  assert (Ht2 : tbl (ram s2) r (path va) = Some t) by (rewrite (proj1 (K r va Hr Hu)); done).
  rewrite (leaf_rd _ r va roots t (g_forest _ _ _ (is_good _ _ _ _ I2)) Hr Hu Ht2). cbn [mbind option_bind].
  destruct (dirty_entry s2 F2 r va t _ I2 Hr Hu Ha Ht2 (clear_dirty_idem _)) as (m & -> & I3 & C3). cbn [mbind option_bind].
  eexists _, F2, _. split_and!; [done | done |]. eapply cleaned_trans; [| | by apply Hsame | exact C3]; lia.
Qed.

Lemma writeback_from_ok r ip mr fuel : region_ok mr -> page_aligned mr -> r ∈ roots -> forall delta err s F, isolated roots ext s F ->
  0 <= delta -> aligned (vaddr mr + delta) -> size mr <= delta + Z.of_nat fuel * PAGE_SIZE ->
  exists s' F' err', writeback_from pc fuel r mr ip delta err s = Some (s', err') /\ isolated roots ext s' F' /\
    cleaned r (vaddr mr) (vaddr mr + size mr) s s'.
Proof.
  intros Hmr Hal Hr. pose proof Hmr as [R1 R2 R3 _ _]. induction fuel as [| fuel IH]; intros delta err s F I H0 Ha Hf; cbn [writeback_from].
  { destruct (Z.ltb_spec delta (size mr)); [lia |]. exists s, F, err. split_and!; [done | done | by apply keeps_cleaned]. }
  destruct (Z.ltb_spec delta (size mr)) as [Hlt | ?]; [| exists s, F, err; split_and!; [done | done | by apply keeps_cleaned]].
  case_match; [exists s, F, err; split_and!; [done | done | by apply keeps_cleaned] |].
  assert (0 < PAGE_SIZE) by done.
  assert (Hend : vaddr mr + delta + PAGE_SIZE <= vaddr mr + size mr).
  { destruct Hal as [_ A2]. unfold aligned, PAGE_SIZE in *. Z.to_euclidean_division_equations. lia. }
  rewrite !(u64_small (vaddr mr + delta)), !(u64_small (delta + PAGE_SIZE)) by (unfold USER_VMA_UPPER_BOUND in *; lia).
  destruct (writeback_page_ok r ip (pc_isize pc ip) (u64 (offset mr + delta)) (vaddr mr + delta) err s F I Hr) as (s1 & F1 & err1 & -> & I1 & C1);
    [unfold user_va, USER_VMA_UPPER_BOUND in *; lia | done |].
  cbn [mbind option_bind]. destruct (IH (delta + PAGE_SIZE) err1 s1 F1 I1) as (s2 & F2 & err2 & He & I2 & C2);
    [lia | rewrite Z.add_assoc; by apply aligned_next | lia |].
  exists s2, F2, err2. split_and!; [done | done |]. eapply cleaned_trans; [| | exact C1 | exact C2]; lia.
Qed.

(** The hook that the file layer installs is one that unmapping can rely on. *)
Lemma shared_mmap_hook_ok r : r ∈ roots -> hook_ok roots ext r (Some (shared_mmap_hook pc)).
Proof.
  intros Hr h [= <-] mr s F I Hmr Hal. unfold shared_mmap_hook, file_shared_mmap_writeback.
  assert (Hid : exists s' F', fst <$> Some (s, 0) = Some s' /\ isolated roots ext s' F' /\ cleaned r (vaddr mr) (vaddr mr + size mr) s s')
    by (exists s, F; split_and!; [done | done | by apply keeps_cleaned]).
  destruct (inode mr) as [ip |]; [| exact Hid]. destruct (has_flag (flags mr) MAP_SHARED); [| exact Hid].
  destruct (writeback_from_ok r ip mr (Z.to_nat (size mr / PAGE_SIZE)) Hmr Hal Hr 0 0 s F I) as (s' & F' & err & -> & I' & C).
  - lia.
  - rewrite Z.add_0_r. apply Hal.
  - pose proof (region_pages_ok mr Hmr Hal) as Hp. unfold region_pages in Hp. lia.
  - by exists s', F'.
Qed.
End SharedWriteback.

(** ** The theorems *)

Section Claims.
Context `{PageAllocator A}.
Context (roots : list nat) (ext : nat -> bool).

(** C31. [vma_find_gap] finds a free range if there is one, for a page-aligned
    hint that is not above the user limit, which the callers do not check.
    The search returns; a result other than 0 is a range of the wanted length below the
    user limit in which no address is in a region of the list, mapped by a
    page table entry, or in the page of the signal trampoline.  With result 0
    there is no such range at or above the place where the search starts. *)
Theorem vma_find_gap_correct (s : machine A) F a len hint : good roots s F -> cr3 a ∈ roots ->
  wf (mmap_regions a) -> Forall (fun r => aligned (vaddr r + size r)) (mmap_regions a) ->
  aligned (mmap_brk a) -> aligned hint -> 0 < mmap_brk a -> 0 <= hint <= USER_VMA_UPPER_BOUND -> 0 < len ->
  exists v, vma_find_gap a (ram s) len hint = Some v /\
    if v =? 0
    then forall c, Z.max hint (mmap_brk a) <= c -> c + len <= USER_VMA_UPPER_BOUND -> ~ free_range s a c len
    else v + len <= USER_VMA_UPPER_BOUND /\ free_range s a v len.
Proof.
  intros Hg Hroot Hwf Hal Hab Hah Hb Hh Hl. unfold vma_find_gap.
  destruct (hint_free_ok roots s F a Hg Hroot Hwf len hint Hah Hh Hl) as (ok & -> & Hok). cbn [mbind option_bind].
  destruct ok.
  { destruct (Hok eq_refl) as (Hn & ? & ?). exists hint. split; [done |]. by rewrite (proj2 (Z.eqb_neq _ _) Hn). }
  assert (Hcur : (if hint <? mmap_brk a then mmap_brk a else hint) = Z.max hint (mmap_brk a))
    by (destruct (Z.ltb_spec hint (mmap_brk a)); lia).
  rewrite Hcur.
  destruct (gap_loop_ok roots s F a Hg Hroot Hwf Hal (Z.max hint (mmap_brk a)) len) as (v & -> & Hv);
    [by destruct (Z.max_dec hint (mmap_brk a)) as [-> | ->] | lia | done |].
  cbn. exists v. split; [done |]. destruct (v =? 0); [done |]. tauto.
Qed.

(** C22. [munmap] removes a range of an address space and nothing else.  Bad
    arguments are refused with -EINVAL and change nothing.  Otherwise, for a
    range that does not wrap around and a list of page-aligned regions without
    DMA memory of their own, the call returns 0, or -ENOMEM when a descriptor
    cannot be allocated, in a state where the list is sorted, the reference
    counts are exact and the address spaces are isolated.  On success no
    address of the range is in the list, the pages that regions had there are
    unmapped, and all other pages, of this and of other address spaces, are as
    they were; so are pages of the range that are in no region, as those of
    the program image.  The pages of shared file mappings are written back
    first, by [file_shared_mmap_writeback]; of the page cache, which that
    calls, [pc_ok] is assumed. *)
Theorem sys_munmap_correct pc a addr len (s : machine A) F w m x :
  cr3 a ∈ roots -> pc_ok roots ext pc -> isolated roots ext s F -> wf (mmap_regions a) ->
  unmappable ext (cr3 a) (ram s) (mmap_regions a) -> outside_ok x -> balanced w (mmap_regions a) x ->
  0 <= addr < 2 ^ 64 -> 0 <= len < 2 ^ 64 ->
  let sz := ALIGN_UP len PAGE_SIZE in let hook := Some (shared_mmap_hook pc) in
  if (len =? 0) || negb (Z.land addr (PAGE_SIZE - 1) =? 0) || (sz =? 0)
  then sys_munmap hook addr len a s w m = Some (a, s, w, m, - EINVAL)
  else addr + sz < 2 ^ 64 ->
    exists a' s' w' m' rc F', sys_munmap hook addr len a s w m = Some (a', s', w', m', rc) /\
      wf (mmap_regions a') /\ balanced w' (mmap_regions a') x /\ isolated roots ext s' F' /\
      (rc = 0 \/ rc = - ENOMEM) /\ (no_oom m -> rc = 0) /\
      (rc = 0 ->
        (forall y, view (mmap_regions a') y = if (addr <=? y) && (y <? addr + sz) then None else view (mmap_regions a) y) /\
        (forall y, user_va y -> addr <= y < addr + sz -> view (mmap_regions a) y <> None ->
           pte_present (leaf (ram s') (cr3 a) y) = false) /\
        (forall r y, r ∈ roots -> user_va y -> ~ (r = cr3 a /\ addr <= y < addr + sz /\ view (mmap_regions a) y <> None) ->
           leaf (ram s') r y = leaf (ram s) r y)).
Proof.
  intros Hr Hpc I Hwf Hun Hx B Hab Hlb sz hook. unfold sys_munmap. fold sz.
  pose proof (shared_mmap_hook_ok roots ext pc Hpc (cr3 a) Hr) as Hhook. fold hook in Hhook.
  destruct (Z.eqb_spec len 0); [done |]. destruct (Z.eqb_spec (Z.land addr (PAGE_SIZE - 1)) 0) as [Hland | ?]; [| done].
  destruct (Z.eqb_spec sz 0) as [? | Hsz]; [done |]. cbn [negb orb]. intros He.
  assert (Haddr : aligned addr).
  { unfold aligned. change (PAGE_SIZE - 1) with (Z.ones 12) in Hland. by rewrite Z.land_ones in Hland. }
  assert (Hszal : aligned sz).
  { unfold sz, ALIGN_UP, aligned. change (PAGE_SIZE - 1) with (Z.ones 12). rewrite <- Z.ldiff_land, Z.ldiff_ones_r by lia.
    rewrite Z.shiftl_mul_pow2 by lia. apply Z_mod_mult. }
  assert (Hszp : 0 <= sz) by (unfold sz, ALIGN_UP; apply Z.land_nonneg; left; apply u64_range).
  unfold vma_unmap_range. rewrite u64_small by (unfold USER_VMA_UPPER_BOUND in *; lia).
  destruct (vma_unmap_loop_ok roots ext (cr3 a) hook Hr Hhook addr (addr + sz) x Hx ltac:(lia) He Haddr
    ltac:(unfold aligned in *; rewrite Zplus_mod, Haddr, Hszal; done) (mmap_regions a) 0 s F w m [] Hwf I Hun
    ltac:(by rewrite app_nil_r)) as (l' & s' & w' & m' & rc & -> & [U1 U2 (F' & U3) (stop & S1 & S2 & _ & S4 & S5 & S6)] & B' & Hno).
  rewrite app_nil_r in B'. cbn [mbind option_bind with_regions mmap_regions].
  destruct (Z.eqb_spec rc 0) as [-> | Hrc]; cbn [negb].
  - rewrite (S1 eq_refl) in S4, S5, S6.
    assert (Hmerge : forall l0 q, wf l0 -> same_list l' l0 ->
      same_list l' (match vma_find l0 q with Some p => vma_merge p | None => l0 end)).
    { intros l0 q Hw0 Hs. pose proof (vma_find_from_ok 0 l0 [] q Hw0) as Hf. unfold vma_find.
      destruct (vma_find_from [] l0 q) as [p |]; [| done]. destruct Hf as (Hfill & _). cbn [app] in Hfill.
      eapply same_list_trans; [exact Hs |]. intros _. rewrite <- Hfill. apply vma_merge_ok. by rewrite Hfill. }
    set (prev := if negb (addr =? 0) then vma_find l' (addr - 1) else None).
    assert (H2 : same_list l' (match prev with Some p => vma_merge p | None => l' end)).
    { unfold prev. destruct (negb (addr =? 0)); [| by apply same_list_refl]. apply Hmerge; [done | by apply same_list_refl]. }
    destruct (Hmerge _ (addr + sz) (proj1 H2) H2) as (W3 & V3 & B3).
    exists (with_regions a (match vma_find (match prev with Some p => vma_merge p | None => l' end) (addr + sz) with
      | Some p => vma_merge p | None => match prev with Some p => vma_merge p | None => l' end end)), s', w', m', 0, F'.
    split_and!; [done | done | by apply B3 | done | by left | done |].
    intros _. split_and!; [| done | done]. intros y. cbn [mmap_regions with_regions]. by rewrite V3.
  - exists (with_regions a l'), s', w', m', rc, F'. split_and!; try done.
Qed.
End Claims.

(** *** The concrete machine of Cow.v: one anonymous page at [demo_va] *)

Definition page_region : mmap_region :=
  MmapRegion demo_va PAGE_SIZE 0 None 3 (-1) 0 2 None None None UINT64_MAX 0 0 0.
Definition page_mm (root : nat) : mm := Mm root 0x800000 [page_region].
Definition no_objs : objs := Objs (fun _ => 0) (fun _ => 0) (fun _ => 0) (fun _ => 0).

Lemma page_mm_wf root : wf (mmap_regions (page_mm root)).
Proof.
  split; [| by split]. constructor; cbn; unfold demo_va, PAGE_SIZE, USER_VMA_UPPER_BOUND; try lia; by split.
Qed.

Lemma no_objs_ok : outside_ok no_objs.
Proof. by constructor. Qed.

Lemma vma_find_gap_correct_witness : exists v, vma_find_gap (page_mm 0) (ram cow_one) 0x2000 demo_va = Some v /\
  v = 0x800000 /\ free_range cow_one (page_mm 0) v 0x2000.
Proof.
  destruct cow_one_isolated as [F I].
  destruct (vma_find_gap_correct cow_roots cow_one F (page_mm 0) 0x2000 demo_va (is_good _ _ _ _ I)
    ltac:(by left) (page_mm_wf 0) ltac:(by apply Forall_singleton) eq_refl eq_refl ltac:(done)
    ltac:(unfold demo_va, USER_VMA_UPPER_BOUND; lia) ltac:(lia)) as (v & Heq & Hv).
  assert (Hc : vma_find_gap (page_mm 0) (ram cow_one) 0x2000 demo_va = Some 0x800000) by (vm_compute; reflexivity).
  rewrite Heq in Hc. injection Hc as ->. exists 0x800000. split; [exact Heq |]. split; [reflexivity | exact (proj2 Hv)].
Defined.

(** The same page as a shared mapping of a file, with the dirty bit that a
    store sets; the page cache of the example takes every page. *)
Definition file_region : mmap_region :=
  MmapRegion demo_va PAGE_SIZE 0 None 3 (-1) 0 MAP_SHARED (Some 0%nat) None None UINT64_MAX 0 0 0.
Definition file_mm (root : nat) : mm := Mm root 0x800000 [file_region].
Definition file_objs : objs := Objs (fun _ => 0) (fun _ => 0) (fun o => if (o =? 0)%nat then 1 else 0) (fun _ => 0).
Definition demo_pc : page_cache_ops bfc :=
  PageCacheOps unit (fun _ => PAGE_SIZE) (fun _ _ s => Some (s, Some tt)) (fun _ _ _ s => Some (s, 0)).
Definition demo_slot : nat * nat := default (0, 0)%nat (default None (lookup_pte (ram cow_one) 0 demo_va)).
Definition file_dirty : machine bfc :=
  Machine (pool cow_one) (default (ram cow_one)
    (wr demo_slot.1 demo_slot.2 (Z.lor (leaf (ram cow_one) 0 demo_va) PTE_DIRTY) (ram cow_one))).

Lemma demo_pc_ok : pc_ok cow_roots no_ext demo_pc.
Proof. intros s F ip idx I. eexists s, F, _. split_and!; [done | done | done |]. intros c phys n _. by exists s, F, 0. Qed.

Lemma file_dirty_isolated : exists F, isolated cow_roots no_ext file_dirty F.
Proof.
  destruct cow_one_isolated as [F I]. exists F.
  destruct (dirty_entry cow_roots no_ext cow_one F 0 demo_va demo_slot.1 (Z.lor (leaf (ram cow_one) 0 demo_va) PTE_DIRTY) I
    ltac:(by left) demo_va_user eq_refl ltac:(vm_compute; reflexivity) ltac:(vm_compute; reflexivity)) as (m & Hw & I' & _).
  unfold file_dirty. change (demo_slot.2) with (pt_idx demo_va). rewrite Hw. exact I'.
Qed.

Lemma sys_munmap_correct_witness : exists a' s' w' m' F',
  sys_munmap (Some (shared_mmap_hook demo_pc)) demo_va 1 (file_mm 0) file_dirty file_objs [] = Some (a', s', w', m', 0) /\
  isolated cow_roots no_ext s' F' /\ has_flag (leaf (ram file_dirty) 0 demo_va) PTE_DIRTY = true /\
  pte_present (leaf (ram s') 0 demo_va) = false.
Proof.
  destruct file_dirty_isolated as [F I].
  destruct (sys_munmap_correct cow_roots no_ext demo_pc (file_mm 0) demo_va 1 file_dirty F file_objs [] no_objs
    ltac:(by left) demo_pc_ok I) as (a' & s' & w' & m' & rc & F' & Heq & _ & _ & I' & _ & Hno & Hok).
  - split; [| by split]. constructor; cbn; unfold demo_va, PAGE_SIZE, USER_VMA_UPPER_BOUND; try lia; by split.
  - split; [| split; constructor; [by split | constructor | done | constructor]].
    intros mr Hin x _ _ _. apply list_elem_of_singleton in Hin as ->. reflexivity.
  - exact no_objs_ok.
  - constructor; intros o; [done | done | | done]. cbn. unfold i_refs. cbn. by destruct o.
  - unfold demo_va. lia.
  - lia.
  - vm_compute. reflexivity.
  - specialize (Hno no_oom_nil). rewrite Hno in Heq, Hok. destruct (Hok eq_refl) as (_ & Hgone & _).
    exists a', s', w', m', F'. split; [exact Heq |]. split; [exact I' |]. split; [vm_compute; reflexivity |].
    apply Hgone; [exact demo_va_user | split; vm_compute; congruence | vm_compute; discriminate].
Defined.

(** [mprotect] breaks the isolation that fork establishes.  After a fork
    the page at [demo_va] is shared copy-on-write and the state is isolated.
    When the child calls [mprotect] on the page with PROT_READ|PROT_WRITE, the
    call succeeds and makes the child's entry writable without a copy: both
    processes still map the same frame, so the child's stores appear in the
    parent's memory. *)
Theorem mprotect_breaks_cow : exists f a' s' w' m',
  (exists F, isolated cow_roots no_ext cow_forked F) /\
  sys_mprotect demo_va PAGE_SIZE (Z.lor PROT_READ PROT_WRITE) (page_mm 1) cow_forked no_objs [] = Some (a', s', w', m', 0) /\
  maps cow_roots (ram s') f (0%nat, 1024) /\ maps cow_roots (ram s') f (1%nat, 1024) /\
  has_flag (leaf (ram s') 1 (va_of 1024)) PTE_RW = true /\
  (forall ext F', ext f = false -> ~ isolated cow_roots ext s' F').
Proof.
  assert (Hc : match sys_mprotect demo_va PAGE_SIZE (Z.lor PROT_READ PROT_WRITE) (page_mm 1) cow_forked no_objs [] with
    | Some (_, s', _, _, rc) => (rc =? 0) && pte_present (leaf (ram s') 1 (va_of 1024)) &&
        has_flag (leaf (ram s') 1 (va_of 1024)) PTE_RW && pte_present (leaf (ram s') 0 (va_of 1024)) &&
        (pte_pfn (leaf (ram s') 1 (va_of 1024)) =? pte_pfn (leaf (ram s') 0 (va_of 1024)))%nat
    | None => false
    end = true) by (vm_compute; reflexivity).
  destruct (sys_mprotect demo_va PAGE_SIZE _ (page_mm 1) cow_forked no_objs []) as [[[[[a' s'] w'] m'] rc] |] eqn:Heq;
    [| discriminate].
  apply andb_true_iff in Hc as [Hc Hf]. apply andb_true_iff in Hc as [Hc Hp0]. apply andb_true_iff in Hc as [Hc Hw].
  apply andb_true_iff in Hc as [Hrc Hp1]. apply Nat.eqb_eq in Hf. apply Z.eqb_eq in Hrc as ->.
  set (f := pte_pfn (leaf (ram s') 0 (va_of 1024))) in *.
  assert (Hu : user_vpn 1024) by (unfold user_vpn; lia).
  assert (M0 : maps cow_roots (ram s') f (0%nat, 1024)) by (split; [by left | split; [exact Hu | split; [exact Hp0 | reflexivity]]]).
  assert (M1 : maps cow_roots (ram s') f (1%nat, 1024)) by (split; [right; by left | split; [exact Hu | split; [exact Hp1 | exact Hf]]]).
  exists f, a', s', w', m'. split; [exact cow_forked_isolated |]. split; [reflexivity |]. split; [exact M0 |].
  split; [exact M1 |]. split; [exact Hw |]. intros ext F' He I.
  pose proof (isolated_exclusive cow_roots ext s' F' f _ _ I He M1 Hw M0) as Heq'. discriminate.
Qed.
