(* ===== verification/Rbtree.v ===== *)
(** * Red-black trees (kernel/xcore/rbtree.c, kernel/xcore/rbtree.h)

    The intrusive red-black tree of the epoll interest set and the inotify
    index.  Nodes live in one memory, linked by child pointers and by a parent
    word whose low bit is the colour, exactly as in the C structure; every
    function is translated pointer write by pointer write.  The proofs relate
    the memory to an inductive tree under a zipper of parent frames. *)
From S2P Require Import Prelude.
From Stdlib Require Import Sorting.Sorted.

(** ** Memory *)

Record rb_node := RbNode {
  rb_parent_color : Z;
  rb_right : Z;
  rb_left : Z;
}.

(** The nodes by address, and the [rb_node] field of the [rb_root]. *)
Record rb_tree := RbTree {
  mem : gmap Z rb_node;
  rb_root : Z;
}.

Definition RB_RED : Z := 0.
Definition RB_BLACK : Z := 1.

Definition load (a : Z) : prog rb_tree rb_node :=
  fun s => n ← mem s !! a; Some (n, s).

Definition store (a : Z) (n : rb_node) : prog rb_tree () :=
  fun s => _ ← mem s !! a; Some ((), RbTree (<[a := n]> (mem s)) (rb_root s)).

Definition get_root : prog rb_tree Z := fun s => Some (rb_root s, s).
Definition set_root (p : Z) : prog rb_tree () := fun s => Some ((), RbTree (mem s) p).

(** The macros on a node. *)
Definition rb_color (n : rb_node) : Z := Z.land (rb_parent_color n) 1.
Definition rb_is_red (n : rb_node) : bool := rb_color n =? 0.
Definition rb_is_black (n : rb_node) : bool := negb (rb_color n =? 0).
Definition rb_parent (n : rb_node) : Z := clear_flag (rb_parent_color n) 1.

Definition set_pc (n : rb_node) (v : Z) : rb_node := RbNode v (rb_right n) (rb_left n).
Definition with_left (n : rb_node) (p : Z) : rb_node := RbNode (rb_parent_color n) (rb_right n) p.
Definition with_right (n : rb_node) (p : Z) : rb_node := RbNode (rb_parent_color n) p (rb_left n).

Definition rb_set_red (a : Z) : prog rb_tree () :=
  n ← load a; store a (set_pc n (clear_flag (rb_parent_color n) 1)).
Definition rb_set_black (a : Z) : prog rb_tree () :=
  n ← load a; store a (set_pc n (set_flag (rb_parent_color n) 1)).
Definition rb_set_parent (a p : Z) : prog rb_tree () :=
  n ← load a; store a (set_pc n (Z.lor (Z.land (rb_parent_color n) 1) p)).
Definition rb_set_color (a c : Z) : prog rb_tree () :=
  n ← load a; store a (set_pc n (Z.lor (clear_flag (rb_parent_color n) 1) c)).
Definition set_left (a p : Z) : prog rb_tree () := n ← load a; store a (with_left n p).
Definition set_right (a p : Z) : prog rb_tree () := n ← load a; store a (with_right n p).

(** [!p || rb_is_black(p)] and [p && rb_is_red(p)]. *)
Definition null_or_black (p : Z) : prog rb_tree bool :=
  if p =? 0 then mret true else n ← load p; mret (rb_is_black n).
Definition nonnull_red (p : Z) : prog rb_tree bool :=
  if p =? 0 then mret false else n ← load p; mret (rb_is_red n).
Definition when (b : bool) (m : prog rb_tree ()) : prog rb_tree () := if b then m else mret ().

(** Loops follow one path of the tree; a path has fewer nodes than there are
    addresses. *)
Definition RB_STEPS : nat := 66.

(** ** Rotations *)

Definition rb_rotate_left (node : Z) : prog rb_tree () :=
  nd ← load node;
  let right := rb_right nd in
  rt ← load right;
  _ ← set_right node (rb_left rt);
  _ ← when (negb (rb_left rt =? 0)) (rb_set_parent (rb_left rt) node);
  nd ← load node;
  _ ← rb_set_parent right (rb_parent nd);
  _ ← (if rb_parent nd =? 0 then set_root right
       else
         pn ← load (rb_parent nd);
         if rb_left pn =? node then set_left (rb_parent nd) right
         else set_right (rb_parent nd) right);
  _ ← set_left right node;
  rb_set_parent node right.

Definition rb_rotate_right (node : Z) : prog rb_tree () :=
  nd ← load node;
  let left := rb_left nd in
  lt ← load left;
  _ ← set_left node (rb_right lt);
  _ ← when (negb (rb_right lt =? 0)) (rb_set_parent (rb_right lt) node);
  nd ← load node;
  _ ← rb_set_parent left (rb_parent nd);
  _ ← (if rb_parent nd =? 0 then set_root left
       else
         pn ← load (rb_parent nd);
         if rb_right pn =? node then set_right (rb_parent nd) left
         else set_left (rb_parent nd) left);
  _ ← set_right left node;
  rb_set_parent node left.

(** ** Insertion *)

(** One iteration of the loop of [rb_insert_fixup], with the node it goes on
    with; [inr] when the loop condition fails. *)
Definition rb_insert_fixup_step (node : Z) : prog rb_tree (Z + ()) :=
  nd ← load node;
  red ← nonnull_red (rb_parent nd);
  if negb red then mret (inr ()) else
  let parent := rb_parent nd in
  pn ← load parent;
  let gparent := rb_parent pn in
  gn ← load gparent;
  if rb_left gn =? parent then
    let uncle := rb_right gn in
    ured ← nonnull_red uncle;
    if (ured : bool) then
      _ ← rb_set_black uncle;
      _ ← rb_set_black parent;
      _ ← rb_set_red gparent;
      mret (inl gparent)
    else
      pn ← load parent;
      '(node, parent) ← (if rb_right pn =? node then
          _ ← rb_rotate_left parent;
          nd ← load parent;
          mret (parent, rb_parent nd)
        else mret (node, parent));
      _ ← rb_set_black parent;
      _ ← rb_set_red gparent;
      _ ← rb_rotate_right gparent;
      mret (inl node)
  else
    let uncle := rb_left gn in
    ured ← nonnull_red uncle;
    if (ured : bool) then
      _ ← rb_set_black uncle;
      _ ← rb_set_black parent;
      _ ← rb_set_red gparent;
      mret (inl gparent)
    else
      pn ← load parent;
      '(node, parent) ← (if rb_left pn =? node then
          _ ← rb_rotate_right parent;
          nd ← load parent;
          mret (parent, rb_parent nd)
        else mret (node, parent));
      _ ← rb_set_black parent;
      _ ← rb_set_red gparent;
      _ ← rb_rotate_left gparent;
      mret (inl node).

Definition rb_insert_fixup (node : Z) : prog rb_tree () :=
  _ ← ploop RB_STEPS rb_insert_fixup_step node;
  r ← get_root;
  rb_set_black r.

(** The pointer [link] of [rb_insert]: the root field or a child field. *)
Inductive link := LinkRoot | LinkLeft (a : Z) | LinkRight (a : Z).

Definition read_link (l : link) : prog rb_tree Z :=
  match l with
  | LinkRoot => get_root
  | LinkLeft a => n ← load a; mret (rb_left n)
  | LinkRight a => n ← load a; mret (rb_right n)
  end.

Definition write_link (l : link) (p : Z) : prog rb_tree () :=
  match l with
  | LinkRoot => set_root p
  | LinkLeft a => set_left a p
  | LinkRight a => set_right a p
  end.

Definition rb_descend (node : Z) (cmp : Z -> Z -> Z) : prog rb_tree (link * Z) :=
  ploop RB_STEPS (fun '(l, parent) =>
    p ← read_link l;
    if p =? 0 then mret (inr (l, parent))
    else if cmp node p <? 0 then mret (inl (LinkLeft p, p))
    else mret (inl (LinkRight p, p))) (LinkRoot, 0).

Definition rb_insert (node : Z) (cmp : Z -> Z -> Z) : prog rb_tree () :=
  '(l, parent) ← rb_descend node cmp;
  _ ← rb_set_parent node parent;
  _ ← set_right node 0;
  _ ← set_left node 0;
  _ ← rb_set_red node;
  _ ← write_link l node;
  rb_insert_fixup node.

(** ** Lookup *)

Definition rb_search_loop (steps : nat) (key : Z) (cmp : Z -> Z -> Z) (n : Z) : prog rb_tree Z :=
  ploop steps (fun n =>
    if n =? 0 then mret (inr 0) else
    let c := cmp key n in
    nd ← load n;
    if c <? 0 then mret (inl (rb_left nd))
    else if 0 <? c then mret (inl (rb_right nd))
    else mret (inr n)) n.

Definition rb_search (key : Z) (cmp : Z -> Z -> Z) : prog rb_tree Z :=
  r ← get_root;
  rb_search_loop RB_STEPS key cmp r.

(** [while (n->rb_left) n = n->rb_left]. *)
Definition leftmost (n : Z) : prog rb_tree Z :=
  ploop RB_STEPS (fun n =>
    nd ← load n;
    if rb_left nd =? 0 then mret (inr n) else mret (inl (rb_left nd))) n.

Definition rb_first : prog rb_tree Z :=
  n ← get_root;
  if n =? 0 then mret 0 else leftmost n.

(** ** Removal *)

(** The loop body of [rb_erase_fixup] on [node] and [parent]; [inr node] when
    the loop ends, by its condition or by [break]. *)
Definition rb_erase_fixup_left (parent : Z) : prog rb_tree (Z * Z + Z) :=
  pn ← load parent;
  let sibling := rb_right pn in
  sred ← nonnull_red sibling;
  sibling ← (if (sred : bool) then
      _ ← rb_set_black sibling;
      _ ← rb_set_red parent;
      _ ← rb_rotate_left parent;
      pn ← load parent;
      mret (rb_right pn)
    else mret sibling);
  lb ← (if sibling =? 0 then mret true else sn ← load sibling; null_or_black (rb_left sn));
  rb ← (if sibling =? 0 then mret true else sn ← load sibling; null_or_black (rb_right sn));
  if (lb && rb)%bool then
    _ ← when (negb (sibling =? 0)) (rb_set_red sibling);
    pn ← load parent;
    mret (inl (parent, rb_parent pn))
  else
    sibling ← (if rb then
        sn ← load sibling;
        _ ← rb_set_black (rb_left sn);
        _ ← rb_set_red sibling;
        _ ← rb_rotate_right sibling;
        pn ← load parent;
        mret (rb_right pn)
      else mret sibling);
    pn ← load parent;
    _ ← rb_set_color sibling (rb_color pn);
    _ ← rb_set_black parent;
    sn ← load sibling;
    _ ← when (negb (rb_right sn =? 0)) (rb_set_black (rb_right sn));
    _ ← rb_rotate_left parent;
    r ← get_root;
    mret (inr r).

Definition rb_erase_fixup_right (parent : Z) : prog rb_tree (Z * Z + Z) :=
  pn ← load parent;
  let sibling := rb_left pn in
  sred ← nonnull_red sibling;
  sibling ← (if (sred : bool) then
      _ ← rb_set_black sibling;
      _ ← rb_set_red parent;
      _ ← rb_rotate_right parent;
      pn ← load parent;
      mret (rb_left pn)
    else mret sibling);
  rb ← (if sibling =? 0 then mret true else sn ← load sibling; null_or_black (rb_right sn));
  lb ← (if sibling =? 0 then mret true else sn ← load sibling; null_or_black (rb_left sn));
  if (rb && lb)%bool then
    _ ← when (negb (sibling =? 0)) (rb_set_red sibling);
    pn ← load parent;
    mret (inl (parent, rb_parent pn))
  else
    sibling ← (if lb then
        sn ← load sibling;
        _ ← rb_set_black (rb_right sn);
        _ ← rb_set_red sibling;
        _ ← rb_rotate_left sibling;
        pn ← load parent;
        mret (rb_left pn)
      else mret sibling);
    pn ← load parent;
    _ ← rb_set_color sibling (rb_color pn);
    _ ← rb_set_black parent;
    sn ← load sibling;
    _ ← when (negb (rb_left sn =? 0)) (rb_set_black (rb_left sn));
    _ ← rb_rotate_right parent;
    r ← get_root;
    mret (inr r).

Definition rb_erase_fixup_step (np : Z * Z) : prog rb_tree (Z * Z + Z) :=
  let '(node, parent) := np in
  black ← null_or_black node;
  r ← get_root;
  if (black && negb (node =? r))%bool then
    if parent =? 0 then mret (inl (node, parent)) else
    pn ← load parent;
    if rb_left pn =? node then rb_erase_fixup_left parent
    else rb_erase_fixup_right parent
  else mret (inr node).

Definition rb_erase_fixup (node parent : Z) : prog rb_tree () :=
  node ← ploop RB_STEPS rb_erase_fixup_step (node, parent);
  when (negb (node =? 0)) (rb_set_black node).

(** [if (!parent) root->rb_node = new; else if (parent->rb_left == old) ...]. *)
Definition replace_child (parent old new : Z) : prog rb_tree () :=
  if parent =? 0 then set_root new
  else
    pn ← load parent;
    if rb_left pn =? old then set_left parent new
    else set_right parent new.

(** The two-child branch of [rb_erase]: the in-order successor takes the place
    of [node].  The result is [child], [parent] and [color]. *)
Definition rb_erase_two (node : Z) (nd : rb_node) : prog rb_tree (Z * Z * Z) :=
  successor ← leftmost (rb_right nd);
  sn ← load successor;
  let color := rb_color sn in
  let child := rb_right sn in
  let successor_parent := rb_parent sn in
  parent ← (if successor_parent =? node then
      _ ← when (negb (child =? 0)) (rb_set_parent child successor);
      mret successor
    else
      _ ← set_left successor_parent child;
      _ ← when (negb (child =? 0)) (rb_set_parent child successor_parent);
      nd ← load node;
      _ ← set_right successor (rb_right nd);
      sn ← load successor;
      _ ← rb_set_parent (rb_right sn) successor;
      mret successor_parent);
  nd ← load node;
  let node_parent := rb_parent nd in
  _ ← replace_child node_parent node successor;
  nd ← load node;
  sn ← load successor;
  _ ← store successor (set_pc sn (rb_parent_color nd));
  nd ← load node;
  _ ← set_left successor (rb_left nd);
  sn ← load successor;
  _ ← rb_set_parent (rb_left sn) successor;
  mret (child, parent, color).

Definition rb_erase (node : Z) : prog rb_tree () :=
  nd ← load node;
  '(child, parent, color) ←
    (if rb_left nd =? 0 then
       let child := rb_right nd in
       let parent := rb_parent nd in
       let color := rb_color nd in
       _ ← when (negb (child =? 0)) (rb_set_parent child parent);
       _ ← replace_child parent node child;
       mret (child, parent, color)
     else if rb_right nd =? 0 then
       let child := rb_left nd in
       let parent := rb_parent nd in
       let color := rb_color nd in
       _ ← rb_set_parent child parent;
       _ ← replace_child parent node child;
       mret (child, parent, color)
     else rb_erase_two node nd);
  when (color =? RB_BLACK) (rb_erase_fixup child parent).

Definition rb_replace (old new : Z) : prog rb_tree () :=
  od ← load old;
  _ ← replace_child (rb_parent od) old new;
  od ← load old;
  _ ← set_left new (rb_left od);
  od ← load old;
  _ ← set_right new (rb_right od);
  od ← load old;
  nw ← load new;
  store new (set_pc nw (rb_parent_color od)).

(** ** Trees *)

Inductive color := Red | Black.

Inductive tree := E | N (c : color) (l : tree) (a : Z) (r : tree).

Inductive side := L | R.

#[export] Instance side_eq_dec : EqDecision side.
Proof. solve_decision. Defined.

(** A parent frame: the focus is the child on side [d] of node [a], whose
    other child is [s]. *)
Inductive frame := Fr (d : side) (c : color) (a : Z) (s : tree).

#[export] Instance color_eq_dec : EqDecision color.
Proof. solve_decision. Defined.
#[export] Instance tree_eq_dec : EqDecision tree.
Proof. solve_decision. Defined.
#[export] Instance frame_eq_dec : EqDecision frame.
Proof. solve_decision. Defined.

Definition mk (d : side) (c : color) (t : tree) (a : Z) (s : tree) : tree :=
  match d with L => N c t a s | R => N c s a t end.

Fixpoint plug (t : tree) (k : list frame) : tree :=
  match k with
  | [] => t
  | Fr d c a s :: k' => plug (mk d c t a s) k'
  end.

Definition ptr (t : tree) : Z := match t with E => 0 | N _ _ a _ => a end.

Definition top (k : list frame) : Z := match k with [] => 0 | Fr _ _ a _ :: _ => a end.

Fixpoint inorder (t : tree) : list Z :=
  match t with E => [] | N _ l a r => inorder l ++ a :: inorder r end.

Definition bit (c : color) : Z := match c with Red => RB_RED | Black => RB_BLACK end.

Definition pack (parent : Z) (c : color) : Z := parent + bit c.

(** The nodes a tree occupies under parent [p], each with its contents. *)
Fixpoint nodes (p : Z) (t : tree) : list (Z * rb_node) :=
  match t with
  | E => []
  | N c l a r => (a, RbNode (pack p c) (ptr r) (ptr l)) :: nodes a l ++ nodes a r
  end.

(** Nodes are at least 2-aligned, so that the colour bit is free. *)
Definition node_addr (a : Z) : Prop := 0 < a < 2 ^ 64 /\ Z.Even a.

(** The memory holds the tree [t]. *)
Record holds_tree (s : rb_tree) (t : tree) : Prop := {
  ht_root : rb_root s = ptr t;
  ht_nodup : NoDup (inorder t);
  ht_addr : Forall node_addr (inorder t);
  ht_mem : forall a n, (a, n) ∈ nodes 0 t -> mem s !! a = Some n;
}.

(** Red-black trees of a root colour and a black height. *)
Inductive rbt : color -> nat -> tree -> Prop :=
| rbt_E : rbt Black 0 E
| rbt_R n l a r : rbt Black n l -> rbt Black n r -> rbt Red n (N Red l a r)
| rbt_B n cl cr l a r : rbt cl n l -> rbt cr n r -> rbt Black (S n) (N Black l a r).

(** ** Ownership of nodes

    [At s r ls]: the root field is [r] and the memory holds the cells [ls], all
    distinct; outside the addresses [own] the memory is [m0]. *)

Section Cells.
Context (own : Z -> Prop) (m0 : gmap Z rb_node).

Record At (s : rb_tree) (r : Z) (ls : list (Z * rb_node)) : Prop := {
  at_root : rb_root s = r;
  at_nodup : NoDup ls.*1;
  at_addr : Forall node_addr ls.*1;
  at_own : Forall own ls.*1;
  at_mem : forall a n, (a, n) ∈ ls -> mem s !! a = Some n;
  at_frame : forall a, ~ own a -> mem s !! a = m0 !! a;
}.

#[global] Instance At_perm s r : Proper ((≡ₚ) ==> iff) (At s r).
Proof.
  assert (Hone : forall ls ls', ls ≡ₚ ls' -> At s r ls -> At s r ls').
  { intros ls ls' Hp [? ? ? ? Hm ?]. constructor; [done | by rewrite <- Hp .. | | done].
    intros a n Hin. apply Hm. by rewrite Hp. }
  intros ls ls' Hp. split; by apply Hone.
Qed.

Lemma At_sub s r ls ls' : At s r (ls ++ ls') -> At s r ls'.
Proof.
  intros [? Hnd Ha Ho Hm ?]. rewrite fmap_app in *.
  apply Forall_app in Ha as [_ Ha], Ho as [_ Ho]. apply NoDup_app in Hnd as (_ & _ & Hnd).
  constructor; [done .. | | done]. intros a n Hin. apply Hm. apply elem_of_app. by right.
Qed.

Lemma At_addr s r a n ls : At s r ls -> (a, n) ∈ ls -> node_addr a.
Proof.
  intros H Hin. pose proof (at_addr _ _ _ H) as Ha. rewrite Forall_forall in Ha. apply Ha.
  apply list_elem_of_fmap. by exists (a, n).
Qed.

Lemma wp_load s r ls a n (Q : rb_node -> rb_tree -> Prop) :
  At s r ls -> (a, n) ∈ ls -> Q n s -> wp (load a) s Q.
Proof.
  intros H Hin HQ. exists n, s. split; [| done]. unfold load. by rewrite (at_mem _ _ _ H a n Hin).
Qed.

Lemma wp_load1 s r a n ls (Q : rb_node -> rb_tree -> Prop) :
  At s r ((a, n) :: ls) -> Q n s -> wp (load a) s Q.
Proof. intros H HQ. eapply wp_load; [exact H | by left | done]. Qed.

Lemma wp_store s r a n n' ls (Q : () -> rb_tree -> Prop) :
  At s r ((a, n) :: ls) -> (forall s', At s' r ((a, n') :: ls) -> Q () s') -> wp (store a n') s Q.
Proof.
  intros H HQ. pose proof (at_mem _ _ _ H a n ltac:(by left)) as Ha.
  eexists (), _. split; [unfold store; by rewrite Ha |]. apply HQ.
  destruct H as [? Hnd ? Ho Hm Hf]. constructor; [done .. | |]; cbn.
  - intros b n1 Hin. apply elem_of_cons in Hin as [[= -> ->] | Hin]; [by rewrite lookup_insert_eq |].
    rewrite lookup_insert_ne; [apply Hm; by right |]. intros ->.
    cbn in Hnd. apply NoDup_cons in Hnd as [Hni _]. apply Hni. apply list_elem_of_fmap. by exists (b, n1).
  - intros b Hb. rewrite lookup_insert_ne; [by apply Hf |]. intros ->. inversion Ho. done.
Qed.

(** A read-modify-write of one cell. *)
Lemma wp_upd s r a n ls (g : rb_node -> rb_node) (Q : () -> rb_tree -> Prop) :
  At s r ((a, n) :: ls) ->
  (forall s', At s' r ((a, g n) :: ls) -> Q () s') ->
  wp (n ← load a; store a (g n)) s Q.
Proof. intros H HQ. apply wp_bind. eapply wp_load1; [exact H |]. by eapply wp_store. Qed.

Lemma wp_set_root s r p ls (Q : () -> rb_tree -> Prop) :
  At s r ls -> (forall s', At s' p ls -> Q () s') -> wp (set_root p) s Q.
Proof. intros [] HQ. eexists (), _. split; [done |]. apply HQ. by constructor. Qed.

Lemma wp_get_root s r ls (Q : Z -> rb_tree -> Prop) :
  At s r ls -> Q r s -> wp get_root s Q.
Proof. intros [<-] HQ. eexists _, s. by split. Qed.
(** Reorder the owned cells. *)
Lemma At_reorder s r ls ls' : At s r ls -> ls ≡ₚ ls' -> At s r ls'.
Proof. intros H Hp. by rewrite <- Hp. Qed.

End Cells.

(** ** The parent word *)

Lemma pack_low p c : Z.Even p -> Z.land (pack p c) 1 = bit c.
Proof.
  intros [q ->]. change 1 with (Z.ones 1). rewrite Z.land_ones by done. unfold pack.
  rewrite Z.add_comm, Z.mul_comm, Z.mod_add by done. by destruct c.
Qed.

Lemma pack_high p c : Z.Even p -> clear_flag (pack p c) 1 = p.
Proof.
  intros [q ->]. unfold clear_flag. change 1 with (Z.ones 1). rewrite Z.ldiff_ones_r by done.
  rewrite Z.shiftl_mul_pow2, Z.shiftr_div_pow2 by done. unfold pack. change (2 ^ 1) with 2.
  replace (2 * q + bit c) with (bit c + q * 2) by lia. rewrite Z.div_add by done.
  destruct c; cbn [bit]; [change (RB_RED / 2) with 0 | change (RB_BLACK / 2) with 0]; lia.
Qed.

Lemma or_bit p c : Z.Even p -> Z.lor p (bit c) = pack p c.
Proof.
  intros [q ->]. unfold pack. rewrite Z.add_nocarry_lxor, Z.lxor_lor; [done | ..];
    destruct c; cbn [bit]; unfold RB_RED, RB_BLACK; rewrite ?Z.land_0_r; try done;
    change 1 with (Z.ones 1); rewrite Z.land_ones by done;
    change (2 ^ 1) with 2; by rewrite Z.mul_comm, Z.mod_mul.
Qed.

Lemma pack_set_black p c : Z.Even p -> set_flag (pack p c) 1 = pack p Black.
Proof.
  intros H. unfold set_flag. rewrite <- (or_bit p c H), <- Z.lor_assoc.
  rewrite <- (or_bit p Black H). f_equal. by destruct c.
Qed.

Create HintDb evens.
Create Rewrite HintDb cells.

(** ** Left and right at once

    The code spells out both mirror images; the proofs treat them together
    through operations indexed by a side. *)

Definition opp (d : side) : side := match d with L => R | R => L end.
Definition kid (d : side) (n : rb_node) : Z := match d with L => rb_left n | R => rb_right n end.
Definition set_kid (d : side) : Z -> Z -> prog rb_tree () :=
  match d with L => set_left | R => set_right end.
Definition with_kid (d : side) : rb_node -> Z -> rb_node :=
  match d with L => with_left | R => with_right end.

(** The node with parent [p], colour [c], child [x] on side [d], [y] opposite. *)
Definition cell (d : side) (p : Z) (c : color) (x y : Z) : rb_node :=
  match d with L => RbNode (pack p c) y x | R => RbNode (pack p c) x y end.

Definition relink (d : side) (parent old new : Z) : prog rb_tree () :=
  if parent =? 0 then set_root new
  else
    pn ← load parent;
    if kid d pn =? old then set_kid d parent new else set_kid (opp d) parent new.

Definition rotate (d : side) (node : Z) : prog rb_tree () :=
  nd ← load node;
  let up := kid (opp d) nd in
  ut ← load up;
  _ ← set_kid (opp d) node (kid d ut);
  _ ← when (negb (kid d ut =? 0)) (rb_set_parent (kid d ut) node);
  nd ← load node;
  _ ← rb_set_parent up (rb_parent nd);
  _ ← relink d (rb_parent nd) node up;
  _ ← set_kid d up node;
  rb_set_parent node up.

Lemma rotate_left_eq : rb_rotate_left = rotate L.
Proof. reflexivity. Qed.

Lemma rotate_right_eq : rb_rotate_right = rotate R.
Proof. reflexivity. Qed.

Section Sides.
Implicit Types (d : side) (c : color).

Lemma opp_opp d : opp (opp d) = d.
Proof. by destruct d. Qed.

Lemma cell_opp d p c x y : cell (opp d) p c y x = cell d p c x y.
Proof. by destruct d. Qed.

Lemma kid_cell d p c x y : kid d (cell d p c x y) = x.
Proof. by destruct d. Qed.

Lemma kid_opp_cell d p c x y : kid (opp d) (cell d p c x y) = y.
Proof. by destruct d. Qed.

Lemma with_kid_cell d p c x y z : with_kid d (cell d p c x y) z = cell d p c z y.
Proof. by destruct d. Qed.

Lemma with_kid_opp_cell d p c x y z : with_kid (opp d) (cell d p c x y) z = cell d p c x z.
Proof. by destruct d. Qed.

Lemma parent_cell d p c x y : Z.Even p -> rb_parent (cell d p c x y) = p.
Proof. intros. destruct d; by apply pack_high. Qed.

Lemma color_cell d p c x y : Z.Even p -> rb_color (cell d p c x y) = bit c.
Proof. intros. destruct d; by apply pack_low. Qed.

Lemma set_pc_cell d p c x y q c' : set_pc (cell d p c x y) (pack q c') = cell d q c' x y.
Proof. by destruct d. Qed.

Lemma pc_cell d p c x y : rb_parent_color (cell d p c x y) = pack p c.
Proof. by destruct d. Qed.

Lemma ptr_mk d c t a s : ptr (mk d c t a s) = a.
Proof. by destruct d. Qed.

Lemma nodes_mk p d c t a s :
  nodes p (mk d c t a s) ≡ₚ (a, cell d p c (ptr t) (ptr s)) :: nodes a t ++ nodes a s.
Proof. destruct d; [done |]. cbn. by rewrite (Permutation_app_comm (nodes a s)). Qed.

Lemma inorder_mk d c t a s :
  inorder (mk d c t a s) = match d with L => inorder t ++ a :: inorder s | R => inorder s ++ a :: inorder t end.
Proof. by destruct d. Qed.

Lemma mk_opp d c t a s : mk (opp d) c s a t = mk d c t a s.
Proof. by destruct d. Qed.

Lemma tree_cases d t : t = E \/ exists c x a y, t = mk d c x a y.
Proof. destruct t as [| c l a r]; [by left | right]. destruct d; [by exists c, l, a, r | by exists c, r, a, l]. Qed.
End Sides.

#[export] Hint Rewrite cell_opp kid_cell kid_opp_cell with_kid_cell with_kid_opp_cell set_pc_cell
  pc_cell ptr_mk opp_opp : cells.
#[export] Hint Rewrite parent_cell color_cell pack_low pack_high pack_set_black or_bit
  using (by auto with evens) : cells.

(** ** The zipper in memory *)

(** The frames above a focus whose root is at [p]. *)
Fixpoint cnodes (p : Z) (k : list frame) : list (Z * rb_node) :=
  match k with
  | [] => []
  | Fr d c a s :: k' => (a, cell d (top k') c p (ptr s)) :: nodes a s ++ cnodes a k'
  end.

Fixpoint rootp (p : Z) (k : list frame) : Z :=
  match k with [] => p | Fr _ _ a _ :: k' => rootp a k' end.

Lemma ptr_plug t k : ptr (plug t k) = rootp (ptr t) k.
Proof.
  revert t. induction k as [| [d c a s] k IH]; intros t; [done |]. cbn. by rewrite IH, ptr_mk.
Qed.

Lemma nodes_plug t k : nodes 0 (plug t k) ≡ₚ nodes (top k) t ++ cnodes (ptr t) k.
Proof.
  revert t. induction k as [| [d c a s] k IH]; intros t; cbn; [by rewrite app_nil_r |].
  rewrite IH, nodes_mk, ptr_mk. solve_Permutation.
Qed.

Lemma nodes_fst p t : (nodes p t).*1 ≡ₚ inorder t.
Proof.
  revert p. induction t as [| c l IHl a r IHr]; intros p; [done |]. cbn.
  rewrite fmap_app, IHl, IHr. solve_Permutation.
Qed.

(** Bringing a cell, or the cells of a subtree, to the front. *)
Section Pick.
Context {A : Type}.
Implicit Types (x y : A) (l k : list A).

Lemma pick_skip x y l k : l ≡ₚ x :: k -> y :: l ≡ₚ x :: y :: k.
Proof. intros ->. apply perm_swap. Qed.

Lemma pick_app_l x l1 l2 k : l1 ≡ₚ x :: k -> l1 ++ l2 ≡ₚ x :: k ++ l2.
Proof. by intros ->. Qed.

Lemma pick_app_r x l1 l2 k : l2 ≡ₚ x :: k -> l1 ++ l2 ≡ₚ x :: l1 ++ k.
Proof. intros ->. by rewrite Permutation_middle. Qed.

Lemma pick_end l : l ≡ₚ l ++ [].
Proof. by rewrite app_nil_r. Qed.

Lemma pick_skip' ls y l k : l ≡ₚ ls ++ k -> y :: l ≡ₚ ls ++ y :: k.
Proof. intros ->. apply Permutation_middle. Qed.

Lemma pick_app_l' ls l1 l2 k : l1 ≡ₚ ls ++ k -> l1 ++ l2 ≡ₚ ls ++ k ++ l2.
Proof. intros ->. by rewrite app_assoc. Qed.

Lemma pick_app_r' ls l1 l2 k : l2 ≡ₚ ls ++ k -> l1 ++ l2 ≡ₚ ls ++ l1 ++ k.
Proof. intros ->. solve_Permutation. Qed.
End Pick.

(** [own H] solves [At s r ((a, _) :: ?K)] or [At s r (ls ++ ?K)] from a
    hypothesis [H] that owns these cells in some order. *)
Ltac pick_cell :=
  first
    [ apply Permutation_refl
    | eapply pick_skip; pick_cell
    | eapply pick_app_l; pick_cell
    | eapply pick_app_r; pick_cell ].
Ltac pick_list :=
  first
    [ apply Permutation_refl
    | apply pick_end
    | eapply pick_skip'; pick_list
    | eapply pick_app_l'; pick_list
    | eapply pick_app_r'; pick_list ].
Ltac own_all H := eapply At_reorder; [exact H |]; solve_Permutation.
Ltac own H :=
  eapply At_reorder; [exact H |];
  lazymatch goal with
  | |- _ ≡ₚ _ :: _ => pick_cell
  | |- _ ≡ₚ _ ++ _ => rewrite <- ?app_assoc; pick_list
  end.

Section Moves.
Context (own : Z -> Prop) (m0 : gmap Z rb_node).
Abbreviation At := (At own m0).
Implicit Types (d : side) (c : color) (t : tree) (k : list frame).

Lemma wp_cell s r a n n' K (g : rb_node -> rb_node) (Q : () -> rb_tree -> Prop) :
  At s r ((a, n) :: K) -> g n = n' -> (forall s', At s' r ((a, n') :: K) -> Q () s') ->
  wp (n ← load a; store a (g n)) s Q.
Proof. intros H <- HQ. by eapply wp_upd. Qed.

Lemma wp_set_kid d s r a n p K (Q : () -> rb_tree -> Prop) :
  At s r ((a, n) :: K) -> (forall s', At s' r ((a, with_kid d n p) :: K) -> Q () s') ->
  wp (set_kid d a p) s Q.
Proof. intros H HQ. destruct d; (eapply wp_cell; [exact H | reflexivity | exact HQ]). Qed.

Lemma wp_set_parent s r a d p c x y q K (Q : () -> rb_tree -> Prop) :
  At s r ((a, cell d p c x y) :: K) -> Z.Even p -> Z.Even q ->
  (forall s', At s' r ((a, cell d q c x y) :: K) -> Q () s') -> wp (rb_set_parent a q) s Q.
Proof.
  intros H Hp Hq HQ. eapply wp_cell; [exact H | | exact HQ].
  by rewrite pc_cell, pack_low, Z.lor_comm, or_bit, set_pc_cell.
Qed.

Lemma wp_set_black s r a d p c x y K (Q : () -> rb_tree -> Prop) :
  At s r ((a, cell d p c x y) :: K) -> Z.Even p ->
  (forall s', At s' r ((a, cell d p Black x y) :: K) -> Q () s') -> wp (rb_set_black a) s Q.
Proof.
  intros H Hp HQ. eapply wp_cell; [exact H | | exact HQ]. by rewrite pc_cell, pack_set_black, set_pc_cell.
Qed.

Lemma wp_set_red s r a d p c x y K (Q : () -> rb_tree -> Prop) :
  At s r ((a, cell d p c x y) :: K) -> Z.Even p ->
  (forall s', At s' r ((a, cell d p Red x y) :: K) -> Q () s') -> wp (rb_set_red a) s Q.
Proof.
  intros H Hp HQ. eapply wp_cell; [exact H | | exact HQ]. rewrite pc_cell, pack_high by done.
  rewrite <- (set_pc_cell d p c x y p Red). unfold pack. cbn. by rewrite Z.add_0_r.
Qed.

Lemma wp_set_color s r a d p c x y c' K (Q : () -> rb_tree -> Prop) :
  At s r ((a, cell d p c x y) :: K) -> Z.Even p ->
  (forall s', At s' r ((a, cell d p c' x y) :: K) -> Q () s') -> wp (rb_set_color a (bit c')) s Q.
Proof.
  intros H Hp HQ. eapply wp_cell; [exact H | | exact HQ].
  by rewrite pc_cell, pack_high, or_bit, set_pc_cell.
Qed.

(** Pointers that the cells mention are even. *)
Lemma At_even s r a n K : At s r ((a, n) :: K) -> Z.Even a.
Proof. intros H. by apply (At_addr _ _ _ _ _ n _ H); left. Qed.

Lemma At_nonnull s r a n K : At s r ((a, n) :: K) -> (a =? 0) = false.
Proof. intros H. destruct (At_addr _ _ _ _ _ n _ H ltac:(by left)). apply Z.eqb_neq. lia. Qed.

Lemma even_0 : Z.Even 0.
Proof. by exists 0. Qed.

Lemma even_top s r p k K : At s r (cnodes p k ++ K) -> Z.Even (top k).
Proof. destruct k as [| [d c a u] k]; intros H; [apply even_0 | exact (At_even _ _ _ _ _ H)]. Qed.

(** Give the parent [q] to the root of a subtree that may be empty. *)
Lemma wp_adopt s r p q t K (Q : () -> rb_tree -> Prop) :
  At s r (nodes p t ++ K) -> Z.Even p -> Z.Even q ->
  (forall s', At s' r (nodes q t ++ K) -> Q () s') ->
  wp (when (negb (ptr t =? 0)) (rb_set_parent (ptr t) q)) s Q.
Proof.
  intros H Hp Hq HQ. destruct t as [| c l a u]; cbn in *.
  - apply wp_ret. by apply HQ.
  - rewrite (At_nonnull _ _ _ _ _ H). by eapply (wp_set_parent _ _ _ L).
Qed.

(** Make the parent of [p] point to [q] instead. *)
Lemma wp_relink d s p q k K (Q : () -> rb_tree -> Prop) :
  At s (rootp p k) (cnodes p k ++ K) -> p ∈ K.*1 ->
  (forall s', At s' (rootp q k) (cnodes q k ++ K) -> Q () s') ->
  wp (relink d (top k) p q) s Q.
Proof.
  intros H Hin HQ. destruct k as [| [d' c a u] k]; cbn in *; [by eapply wp_set_root |].
  unfold relink. rewrite (At_nonnull _ _ _ _ _ H). apply wp_bind.
  eapply wp_load; [exact H | by left |].
  assert (Hne : ptr u <> p).
  { pose proof (at_nodup _ _ _ _ _ H) as Hnd. pose proof (at_addr _ _ _ _ _ H) as Ha.
    cbn in Hnd, Ha. rewrite !fmap_app in *. apply NoDup_cons in Hnd as [_ Hnd].
    destruct u as [| c' l b v]; cbn in *.
    - intros <-. rewrite Forall_cons, !Forall_app, !Forall_forall in Ha.
      destruct Ha as (_ & _ & Ha). destruct (Ha 0 Hin). lia.
    - intros ->. apply NoDup_cons in Hnd as [Hni _]. apply Hni. rewrite !elem_of_app. auto. }
  destruct (decide (d = d')) as [<- | Hd].
  - rewrite kid_cell, Z.eqb_refl. eapply wp_set_kid; [exact H |]. intros s'. rewrite with_kid_cell. apply HQ.
  - assert (d = opp d') as -> by (by destruct d, d'). rewrite kid_opp_cell.
    rewrite (proj2 (Z.eqb_neq _ _) Hne), opp_opp. eapply wp_set_kid; [exact H |].
    intros s'. rewrite with_kid_cell. apply HQ.
Qed.

Definition Tree (s : rb_tree) (t : tree) : Prop := At s (ptr t) (nodes 0 t).

Lemma Tree_zip s t k :
  Tree s (plug t k) <-> At s (rootp (ptr t) k) (nodes (top k) t ++ cnodes (ptr t) k).
Proof. unfold Tree. by rewrite nodes_plug, ptr_plug. Qed.

Lemma Tree_focus s d c x a y k :
  Tree s (plug (mk d c x a y) k) <->
  At s (rootp a k) ((a, cell d (top k) c (ptr x) (ptr y)) :: nodes a x ++ nodes a y ++ cnodes a k).
Proof. rewrite Tree_zip, nodes_mk, ptr_mk. cbn. by rewrite <- app_assoc. Qed.

(** The two cells a rotation at [a] works on. *)
Lemma Tree_rot s d c c' x a y b z k :
  Tree s (plug (mk d c x a (mk d c' y b z)) k) ->
  At s (rootp a k) ((a, cell d (top k) c (ptr x) b) :: (b, cell d a c' (ptr y) (ptr z)) ::
    nodes b y ++ nodes a x ++ nodes b z ++ cnodes a k).
Proof.
  rewrite Tree_focus, nodes_mk, ptr_mk. intros H. eapply At_reorder; [exact H |]. solve_Permutation.
Qed.

Lemma wp_rotate d s c c' x a y b z k (Q : () -> rb_tree -> Prop) :
  Tree s (plug (mk d c x a (mk d c' y b z)) k) ->
  (forall s', Tree s' (plug (mk d c' (mk d c x a y) b z) k) -> Q () s') ->
  wp (rotate d a) s Q.
Proof.
  intros H HQ. apply Tree_rot in H.
  assert (Hk : Z.Even (top k)) by (eapply (even_top _ _ a); own H).
  assert (Ha : Z.Even a) by (eapply At_even; own H).
  assert (Hb : Z.Even b) by (eapply (At_even _ _ b); own H).
  unfold rotate. apply wp_bind. eapply wp_load; [exact H | by left |]. rewrite kid_opp_cell.
  apply wp_bind. eapply wp_load; [exact H | by right; left |]. rewrite kid_cell.
  apply wp_bind. eapply wp_set_kid; [exact H |]. clear s H. intros s H. rewrite with_kid_opp_cell in H.
  apply wp_bind. eapply (wp_adopt _ _ b a y); [own H | done | done |]. clear s H. intros s H.
  set (ca := (a, cell d (top k) c (ptr x) (ptr y))) in *.
  apply wp_bind. eapply (wp_load _ _ _ _ _ a); [exact H | rewrite elem_of_app; by right; left |].
  rewrite parent_cell by done.
  apply wp_bind. eapply wp_set_parent; [own H | done | done |]. clear s H. intros s H.
  apply wp_bind. eapply (wp_relink d _ a b k); [own H | |]; [| clear s H; intros s H].
  { cbn. rewrite fmap_app. cbn. set_solver. }
  apply wp_bind. eapply (wp_set_kid d _ _ b); [own H |]. clear s H. intros s H. rewrite with_kid_cell in H.
  eapply (wp_set_parent _ _ a); [own H | done | done |]. clear s H. intros s H.
  apply HQ. apply Tree_focus. rewrite nodes_mk, ptr_mk. eapply At_reorder; [exact H |]. solve_Permutation.
Qed.
End Moves.

(** ** Red-black invariants under the zipper *)

(** [rctx pc n k]: the frames [k] form a red-black tree around a hole of black
    height [n] below a parent of colour [pc]. *)
Inductive rctx : color -> nat -> list frame -> Prop :=
| rctx_nil n : rctx Black n []
| rctx_B n cs pc d a s k : rbt cs n s -> rctx pc (S n) k -> rctx Black n (Fr d Black a s :: k)
| rctx_R n d a s k : rbt Black n s -> rctx Black n k -> k <> [] -> rctx Red n (Fr d Red a s :: k).

(** A tree of root colour [c] may stand below a parent of colour [pc]. *)
Definition fits (c pc : color) (k : list frame) : Prop := c = Red -> pc = Black /\ k <> [].

Definition is_red (t : tree) : bool := match t with N Red _ _ _ => true | _ => false end.

Definition blacken (t : tree) : tree := match t with E => E | N _ l a r => N Black l a r end.

Lemma rbt_mk_red d n x a y : rbt Red n (mk d Red x a y) <-> rbt Black n x /\ rbt Black n y.
Proof.
  split.
  - intros H. destruct d; inversion H; by subst.
  - intros [? ?]. destruct d; by constructor.
Qed.

Lemma rbt_mk_black d n cx cy x a y :
  rbt cx n x -> rbt cy n y -> rbt Black (S n) (mk d Black x a y).
Proof. intros. destruct d; by econstructor. Qed.

Lemma rbt_mk_inv d c n c' x a y : rbt c n (mk d c' x a y) ->
  c' = c /\ match c with
            | Red => rbt Black n x /\ rbt Black n y
            | Black => exists m cx cy, n = S m /\ rbt cx m x /\ rbt cy m y
            end.
Proof.
  intros H. destruct d; inversion H; subst; (split; [done |]); try done; by eexists _, _, _.
Qed.

Lemma rbt_color c n t : rbt c n t -> is_red t = match c with Red => true | Black => false end.
Proof. by destruct 1. Qed.

Lemma rbt_nonempty c n t : rbt c (S n) t -> exists l a r, t = N c l a r.
Proof. inversion 1; by eexists _, _, _. Qed.

Lemma blacken_rbt c n t : rbt c n t -> exists n', rbt Black n' (blacken t).
Proof. destruct 1; eexists; econstructor; eauto. Qed.

Lemma blacken_black n t : rbt Black n t -> blacken t = t.
Proof. by inversion 1. Qed.

Lemma plug_rbt c pc n t k :
  rbt c n t -> rctx pc n k -> fits c pc k -> exists n', rbt Black n' (plug t k).
Proof.
  intros Ht Hk. revert c t Ht. induction Hk as [n | n cs pc d a s k Hs Hk IH | n d a s k Hs Hk IH Hne];
    intros c t Ht Hf; cbn.
  - destruct c; [by destruct (Hf eq_refl) | by exists n].
  - apply (IH Black); [by eapply rbt_mk_black | done].
  - destruct c; [by destruct (Hf eq_refl) |]. apply (IH Red); [by apply rbt_mk_red | done].
Qed.

Lemma unplug_rbt n t k : rbt Black n (plug t k) ->
  exists c pc m, rbt c m t /\ rctx pc m k /\ fits c pc k.
Proof.
  revert t. induction k as [| [d cf a s] k IH]; intros t; cbn.
  - intros H. exists Black, Black, n. split_and!; [done | constructor | done].
  - intros H. destruct (IH _ H) as (c & pc & m & Hm & Hk & Hf). apply rbt_mk_inv in Hm as [-> Hm].
    destruct c.
    + destruct Hm as [Ht Hs]. destruct (Hf eq_refl) as [-> Hne].
      exists Black, Red, m. split_and!; [done | by constructor | done].
    + destruct Hm as (m' & cx & cy & -> & Ht & Hs).
      exists cx, Black, m'. split_and!; [done | by econstructor | done].
Qed.

Lemma plug_nonempty t k : t <> E -> plug t k <> E.
Proof.
  revert t. induction k as [| [d c a s] k IH]; intros t H; [done |]. apply IH. by destruct d.
Qed.

Lemma length_plug t k : (length k + length (inorder t) <= length (inorder (plug t k)))%nat.
Proof.
  revert t. induction k as [| [d c a s] k IH]; intros t; [done |]. specialize (IH (mk d c t a s)).
  destruct d; cbn in *; rewrite length_app in IH; cbn in IH; lia.
Qed.

Lemma inorder_plug t t' k : inorder t = inorder t' -> inorder (plug t k) = inorder (plug t' k).
Proof.
  revert t t'. induction k as [| [d c a s] k IH]; intros t t' H; [done |]. cbn. apply IH.
  rewrite !inorder_mk. by rewrite H.
Qed.

Ltac inorder_eq := cbn; repeat (rewrite <- app_assoc; cbn).

Lemma inorder_rotate d c c' x a y b z c1 c2 :
  inorder (mk d c x a (mk d c' y b z)) = inorder (mk d c1 (mk d c2 x a y) b z).
Proof. destruct d; by inorder_eq. Qed.

Lemma inorder_blacken t : inorder (blacken t) = inorder t.
Proof. by destruct t. Qed.

Section Painting.
Context (own : Z -> Prop) (m0 : gmap Z rb_node).
Abbreviation Tree := (Tree own m0).

Lemma top_even s t k : Tree s (plug t k) -> Z.Even (top k).
Proof.
  intros H. apply Tree_zip in H. eapply (even_top _ _ s _ (ptr t) k). own H.
Qed.

Lemma wp_tload s d c x a y k (Q : rb_node -> rb_tree -> Prop) :
  Tree s (plug (mk d c x a y) k) -> Q (cell d (top k) c (ptr x) (ptr y)) s -> wp (load a) s Q.
Proof. intros H HQ. apply Tree_focus in H. eapply wp_load; [exact H | by left | done]. Qed.

Lemma wp_paint_black s d c x a y k (Q : () -> rb_tree -> Prop) :
  Tree s (plug (mk d c x a y) k) ->
  (forall s', Tree s' (plug (mk d Black x a y) k) -> Q () s') -> wp (rb_set_black a) s Q.
Proof.
  intros H HQ. pose proof (top_even _ _ _ H). apply Tree_focus in H.
  eapply wp_set_black; [exact H | done |]. intros s' H'. by apply HQ, Tree_focus.
Qed.

Lemma wp_paint_red s d c x a y k (Q : () -> rb_tree -> Prop) :
  Tree s (plug (mk d c x a y) k) ->
  (forall s', Tree s' (plug (mk d Red x a y) k) -> Q () s') -> wp (rb_set_red a) s Q.
Proof.
  intros H HQ. pose proof (top_even _ _ _ H). apply Tree_focus in H.
  eapply wp_set_red; [exact H | done |]. intros s' H'. by apply HQ, Tree_focus.
Qed.

Lemma wp_paint s d c c' x a y k (Q : () -> rb_tree -> Prop) :
  Tree s (plug (mk d c x a y) k) ->
  (forall s', Tree s' (plug (mk d c' x a y) k) -> Q () s') -> wp (rb_set_color a (bit c')) s Q.
Proof.
  intros H HQ. pose proof (top_even _ _ _ H). apply Tree_focus in H.
  eapply wp_set_color; [exact H | done |]. intros s' H'. by apply HQ, Tree_focus.
Qed.

Lemma ptr_nonnull s d c x a y k : Tree s (plug (mk d c x a y) k) -> (a =? 0) = false.
Proof. intros H. apply Tree_focus in H. by eapply At_nonnull. Qed.

Lemma sibling_ne s c l a r d c' p u k :
  Tree s (plug (N c l a r) (Fr d c' p u :: k)) -> ptr u <> a.
Proof.
  intros H. cbn in H. apply Tree_focus in H. cbn in H.
  pose proof (at_nodup _ _ _ _ _ H) as Hnd. pose proof (at_addr _ _ _ _ _ H) as Ha.
  destruct u as [| cu ul b ur]; cbn in *; rewrite !fmap_app in *; cbn in *.
  - inversion_clear Ha as [| ? ? _ Ha']. inversion_clear Ha' as [| ? ? [? _] _]. lia.
  - intros <-. apply NoDup_cons in Hnd as [_ Hnd]. apply NoDup_cons in Hnd as [Hni _]. set_solver.
Qed.

Lemma wp_nonnull_red s t k (Q : bool -> rb_tree -> Prop) :
  Tree s (plug t k) -> Q (is_red t) s -> wp (nonnull_red (ptr t)) s Q.
Proof.
  intros H HQ. unfold nonnull_red. destruct t as [| c l a r]; [by apply wp_ret |].
  change (N c l a r) with (mk L c l a r) in *. rewrite ptr_mk, (ptr_nonnull _ _ _ _ _ _ _ H).
  apply wp_bind. eapply wp_tload; [exact H |]. apply wp_ret. unfold rb_is_red.
  rewrite color_cell by (by eapply top_even). by destruct c.
Qed.

Lemma wp_null_or_black s t k (Q : bool -> rb_tree -> Prop) :
  Tree s (plug t k) -> Q (negb (is_red t)) s -> wp (null_or_black (ptr t)) s Q.
Proof.
  intros H HQ. unfold null_or_black. destruct t as [| c l a r]; [by apply wp_ret |].
  change (N c l a r) with (mk L c l a r) in *. rewrite ptr_mk, (ptr_nonnull _ _ _ _ _ _ _ H).
  apply wp_bind. eapply wp_tload; [exact H |]. apply wp_ret. unfold rb_is_black.
  rewrite color_cell by (by eapply top_even). by destruct c.
Qed.
End Painting.

(** ** Repairing an insertion *)

Definition ins_branch (d : side) (node parent gparent uncle : Z) : prog rb_tree (Z + ()) :=
  ured ← nonnull_red uncle;
  if (ured : bool) then
    _ ← rb_set_black uncle;
    _ ← rb_set_black parent;
    _ ← rb_set_red gparent;
    mret (inl gparent)
  else
    pn ← load parent;
    '(node, parent) ← (if kid (opp d) pn =? node then
        _ ← rotate d parent;
        nd ← load parent;
        mret (parent, rb_parent nd)
      else mret (node, parent));
    _ ← rb_set_black parent;
    _ ← rb_set_red gparent;
    _ ← rotate (opp d) gparent;
    mret (inl node).

Lemma insert_step_eq node :
  rb_insert_fixup_step node =
  (nd ← load node;
   red ← nonnull_red (rb_parent nd);
   if negb red then mret (inr ()) else
   pn ← load (rb_parent nd);
   gn ← load (rb_parent pn);
   if rb_left gn =? rb_parent nd then ins_branch L node (rb_parent nd) (rb_parent pn) (rb_right gn)
   else ins_branch R node (rb_parent nd) (rb_parent pn) (rb_left gn)).
Proof. reflexivity. Qed.

Section Insertion.
Context (own : Z -> Prop) (m0 : gmap Z rb_node) (ord : list Z).
Abbreviation Tree := (Tree own m0).

(** A red focus [node] in an otherwise red-black tree whose in-order sequence
    is [ord]; the rank is the depth. *)
Definition inserting (rank : Z) (node : Z) (s : rb_tree) : Prop :=
  exists l r k n pc, Tree s (plug (N Red l node r) k) /\ rank = Z.of_nat (length k) /\
    rbt Black n l /\ rbt Black n r /\ rctx pc n k /\
    inorder (plug (N Red l node r) k) = ord.

Definition inserted (s : rb_tree) : Prop :=
  exists t n, Tree s t /\ t <> E /\ rbt Black n (blacken t) /\ inorder t = ord.

(** Recolouring moves the violation to the grandparent. *)
Lemma ins_recolor d d1 s n pc l node r p x g u k rank :
  Tree s (plug (N Red l node r) (Fr d1 Red p x :: Fr d Black g u :: k)) ->
  rbt Black n l -> rbt Black n r -> rbt Black n x -> rbt Red n u -> rctx pc (S n) k ->
  inorder (plug (N Red l node r) (Fr d1 Red p x :: Fr d Black g u :: k)) = ord ->
  rank = Z.of_nat (length k) + 2 ->
  wp (ins_branch d node p g (ptr u)) s (fun res s' =>
    match res with inl x' => exists rank', inserting rank' x' s' /\ 0 <= rank' < rank | inr _ => False end).
Proof.
  intros H Hl Hr Hx Hu Hk Hord Hrank. unfold ins_branch. apply wp_bind.
  eapply (wp_nonnull_red own m0 s u (Fr (opp d) Black g _ :: k)); [cbn; rewrite mk_opp; exact H |].
  rewrite (rbt_color _ _ _ Hu).
  inversion Hu as [| n' ul ua ur Hul Hur |]; subst. cbn [ptr].
  apply wp_bind.
  eapply (wp_paint_black own m0 s L Red ul ua ur (Fr (opp d) Black g _ :: k));
    [cbn; rewrite mk_opp; exact H |].
  clear s H. intros s H. cbn in H. rewrite mk_opp in H.
  apply wp_bind.
  eapply (wp_paint_black own m0 s d1 Red _ p x (Fr d Black g _ :: k)); [exact H |].
  clear s H. intros s H.
  apply wp_bind. eapply (wp_paint_red own m0 s d Black _ g _ k); [exact H |].
  clear s H. intros s H.
  apply wp_ret. exists (Z.of_nat (length k)). split; [| lia].
  set (t1 := mk d1 Black (N Red l node r) p x) in *.
  assert (Ht1 : rbt Black (S n) t1) by (eapply rbt_mk_black; [by constructor | done]).
  assert (Hu1 : rbt Black (S n) (N Black ul ua ur)) by (by econstructor).
  destruct d.
  - exists t1, (N Black ul ua ur), k, (S n), pc. split_and!; [done .. |]. rewrite <- Hord.
    cbn. apply inorder_plug. cbn. unfold t1. by destruct d1.
  - exists (N Black ul ua ur), t1, k, (S n), pc. split_and!; [done .. |]. rewrite <- Hord.
    cbn. apply inorder_plug. cbn. unfold t1. by destruct d1.
Qed.

(** The last rotation, with the red child [node] on the outer side. *)
Lemma ins_outer d s n pc l node r a y g u k rank :
  Tree s (plug (mk d Red (N Red l node r) a y) (Fr d Black g u :: k)) ->
  rbt Black n l -> rbt Black n r -> rbt Black n y -> rbt Black n u -> rctx pc (S n) k ->
  inorder (plug (mk d Red (N Red l node r) a y) (Fr d Black g u :: k)) = ord ->
  rank = Z.of_nat (length k) + 2 ->
  wp (_ ← rb_set_black a; _ ← rb_set_red g; _ ← rotate (opp d) g; mret (inl node : Z + ())) s (fun res s' =>
    match res with inl x' => exists rank', inserting rank' x' s' /\ 0 <= rank' < rank | inr _ => False : Prop end).
Proof.
  intros H Hl Hr Hy Hu Hk Hord Hrank.
  apply wp_bind. eapply (wp_paint_black own m0 s d Red _ a y (Fr d Black g u :: k)); [exact H |].
  clear s H. intros s H.
  apply wp_bind. eapply (wp_paint_red own m0 s d Black _ g u k); [exact H |]. clear s H. intros s H.
  apply wp_bind.
  eapply (wp_rotate own m0 (opp d) s Red Black u g y a (N Red l node r) k); [by rewrite !mk_opp |].
  clear s H. intros s H. rewrite mk_opp in H.
  apply wp_ret. exists (Z.of_nat (length k) + 1). split; [| lia].
  exists l, r, (Fr d Black a (mk (opp d) Red u g y) :: k), n, Black.
  split_and!; [exact H | cbn; lia | done | done | |].
  - econstructor; [by apply rbt_mk_red | done].
  - rewrite <- Hord. cbn. apply inorder_plug. rewrite mk_opp. destruct d; by inorder_eq.
Qed.

Lemma ins_rotate d d1 s n pc l node r p x g u k rank :
  Tree s (plug (N Red l node r) (Fr d1 Red p x :: Fr d Black g u :: k)) ->
  rbt Black n l -> rbt Black n r -> rbt Black n x -> rbt Black n u -> rctx pc (S n) k ->
  inorder (plug (N Red l node r) (Fr d1 Red p x :: Fr d Black g u :: k)) = ord ->
  rank = Z.of_nat (length k) + 2 ->
  wp (ins_branch d node p g (ptr u)) s (fun res s' =>
    match res with inl x' => exists rank', inserting rank' x' s' /\ 0 <= rank' < rank | inr _ => False end).
Proof.
  intros H Hl Hr Hx Hu Hk Hord Hrank. unfold ins_branch. apply wp_bind.
  eapply (wp_nonnull_red own m0 s u (Fr (opp d) Black g _ :: k)); [cbn; rewrite mk_opp; exact H |].
  rewrite (rbt_color _ _ _ Hu).
  apply wp_bind. eapply (wp_tload own m0 s d1 Red _ p x (Fr d Black g u :: k)); [exact H |]. cbn [ptr].
  destruct (decide (d1 = d)) as [-> | Hd].
  - rewrite kid_opp_cell.
    rewrite (proj2 (Z.eqb_neq _ _) (sibling_ne own m0 _ _ _ _ _ d Red p x (Fr d Black g u :: k) H)).
    by eapply ins_outer.
  - assert (d1 = opp d) as -> by (by destruct d, d1). rewrite cell_opp, kid_opp_cell, Z.eqb_refl.
    cbn [plug] in H. rewrite mk_opp in H. apply wp_bind, wp_bind.
    destruct (tree_cases d (N Red l node r)) as [? | (c' & y & b & z & Heq)]; [done |].
    assert (c' = Red /\ b = node /\ rbt Black n y /\ rbt Black n z) as (-> & -> & Hy & Hz).
    { destruct d; injection Heq; intros; by subst. }
    rewrite Heq in *.
    eapply (wp_rotate own m0 d s Red Red x p y node z (Fr d Black g u :: k)); [exact H |].
    clear s H. intros s H.
    apply wp_bind. eapply (wp_tload own m0 s d Red x p y (Fr d Red node z :: Fr d Black g u :: k)); [exact H |].
    rewrite parent_cell by (by eapply (top_even own m0 s (mk d Red x p y))).
    apply wp_ret. cbn [top].
    assert (exists l' r', mk d Red x p y = N Red l' p r' /\ rbt Black n l' /\ rbt Black n r')
      as (l' & r' & Heq' & Hl' & Hr') by (destruct d; by eexists _, _).
    rewrite Heq' in H. eapply ins_outer; [exact H | done .. | | done].
    rewrite <- Hord. cbn. apply inorder_plug. rewrite <- Heq'. destruct d; by inorder_eq.
Qed.

(** The loop condition fails: the tree is red-black up to the root's colour. *)
Lemma ins_done s n pc l node r k :
  Tree s (plug (N Red l node r) k) -> rbt Black n l -> rbt Black n r -> rctx pc n k -> pc = Black ->
  inorder (plug (N Red l node r) k) = ord -> inserted s.
Proof.
  intros H Hl Hr Hk -> Hord. destruct (decide (k = [])) as [-> | Hne].
  - exists (N Red l node r), (S n). split_and!; [done | done | by econstructor | done].
  - destruct (plug_rbt Red Black n (N Red l node r) k) as [n' Hn]; [by constructor | done | done |].
    exists (plug (N Red l node r) k), n'. split_and!; [done | by apply plug_nonempty | | done].
    by rewrite (blacken_black _ _ Hn).
Qed.

Lemma insert_step_ok rank node s : inserting rank node s ->
  wp (rb_insert_fixup_step node) s (fun res s' =>
    match res with
    | inl x' => exists rank', inserting rank' x' s' /\ 0 <= rank' < rank
    | inr _ => inserted s'
    end).
Proof.
  intros (l & r & k & n & pc & H & Hrank & Hl & Hr & Hk & Hord). rewrite insert_step_eq.
  apply wp_bind. eapply (wp_tload own m0 s L Red l node r k); [exact H |].
  pose proof (top_even own m0 _ _ _ H) as Hev. rewrite parent_cell by done.
  inversion Hk as [n0 | n0 cs pc' d a x k' Hx Hk' | n0 d1 p x k' Hx Hk' Hne]; subst.
  - cbn [top]. apply wp_bind, wp_ret, wp_ret. by eapply (ins_done s n Black l node r []).
  - cbn [top]. apply wp_bind.
    rewrite <- (ptr_mk d Black (N Red l node r) a x) at 1.
    eapply (wp_nonnull_red own m0 s _ k'); [exact H |].
    replace (is_red _) with false by (by destruct d). apply wp_ret.
    by eapply (ins_done s n Black l node r).
  - cbn [top]. apply wp_bind.
    rewrite <- (ptr_mk d1 Red (N Red l node r) p x) at 1.
    eapply (wp_nonnull_red own m0 s _ k'); [exact H |].
    replace (is_red _) with true by (by destruct d1).
    inversion Hk' as [| n0 cs pc' d g u k'' Hu Hk'' |]; subst; [done |]. cbn [negb].
    apply wp_bind. eapply (wp_tload own m0 s d1 Red _ p x (Fr d Black g u :: k'')); [exact H |].
    rewrite parent_cell by (exact (top_even own m0 s (mk d1 Red (N Red l node r) p x) (Fr d Black g u :: k'') H)). cbn [top].
    apply wp_bind. eapply (wp_tload own m0 s d Black _ g u k''); [exact H |]. rewrite ptr_mk.
    assert (Hbr : wp (ins_branch d node p g (ptr u)) s (fun res s' =>
      match res with
      | inl x' => exists rank', inserting rank' x' s' /\ 0 <= rank' < Z.of_nat (length (Fr d1 Red p x :: Fr d Black g u :: k''))
      | inr _ => inserted s' end)).
    { destruct cs.
      - eapply wp_mono; [by eapply ins_recolor with (rank := Z.of_nat (length k'') + 2) |].
        intros [x' | ?] s'; [| done]. intros (rk & ? & ?). exists rk. split; [done | cbn; lia].
      - eapply wp_mono; [by eapply ins_rotate with (rank := Z.of_nat (length k'') + 2) |].
        intros [x' | ?] s'; [| done]. intros (rk & ? & ?). exists rk. split; [done | cbn; lia]. }
    destruct d; cbn.
    + by rewrite Z.eqb_refl.
    + assert (Hne' : ptr u <> p).
      { destruct d1; cbn in H; by apply (sibling_ne own m0 s _ _ _ _ R Black g u k'') in H. }
      by rewrite (proj2 (Z.eqb_neq _ _) Hne').
Qed.

Lemma insert_fixup_ok rank node s (Q : () -> rb_tree -> Prop) :
  inserting rank node s -> rank < 2 ^ Z.of_nat RB_STEPS ->
  (forall s' t n, Tree s' t -> rbt Black n t -> inorder t = ord -> Q () s') ->
  wp (rb_insert_fixup node) s Q.
Proof.
  intros HI Hrank HQ. unfold rb_insert_fixup. apply wp_bind.
  eapply wp_mono; [eapply (wp_ploop inserting _ (fun _ s => inserted s)); [exact insert_step_ok | exact HI | exact Hrank] |].
  clear s HI. intros [] s (t & n & H & Hne & Hn & Hord). apply wp_bind.
  eapply wp_get_root; [exact H |]. destruct t as [| c l a r]; [done |]. cbn [ptr].
  eapply (wp_paint_black own m0 s L c l a r []); [exact H |]. clear s H. intros s H.
  by eapply (HQ s (N Black l a r)).
Qed.
End Insertion.

(** ** Ordered insertion *)

(** What the callers' comparison functions provide: a total preorder. *)
Record cmp_ok (cmp : Z -> Z -> Z) : Prop := {
  cmp_sym : forall a b, cmp a b < 0 <-> 0 < cmp b a;
  cmp_trans : forall a b c, cmp a b <= 0 -> cmp b c <= 0 -> cmp a c <= 0;
}.

Definition sorted (cmp : Z -> Z -> Z) (l : list Z) : Prop := StronglySorted (fun a b => cmp a b <= 0) l.

(** The reference: insert into a sorted list, after the elements that compare
    equal. *)
Fixpoint insert_sorted (cmp : Z -> Z -> Z) (x : Z) (l : list Z) : list Z :=
  match l with
  | [] => [x]
  | y :: l' => if cmp x y <? 0 then x :: l else y :: insert_sorted cmp x l'
  end.

(** The elements in order before and after the focus. *)
Fixpoint bef (k : list frame) : list Z :=
  match k with
  | [] => []
  | Fr L _ _ _ :: k' => bef k'
  | Fr R _ a s :: k' => bef k' ++ inorder s ++ [a]
  end.

Fixpoint aft (k : list frame) : list Z :=
  match k with
  | [] => []
  | Fr L _ a s :: k' => a :: inorder s ++ aft k'
  | Fr R _ _ _ :: k' => aft k'
  end.

Lemma inorder_split t k : inorder (plug t k) = bef k ++ inorder t ++ aft k.
Proof.
  revert t. induction k as [| [d c a s] k IH]; intros t; cbn; [by rewrite app_nil_r |].
  rewrite IH. destruct d; by inorder_eq.
Qed.

Section Order.
Context (cmp : Z -> Z -> Z) (Hcmp : cmp_ok cmp).

Lemma cmp_lt_le x p e : cmp x p < 0 -> cmp p e <= 0 -> cmp x e < 0.
Proof.
  intros Hx He. destruct (Z.ltb_spec (cmp x e) 0) as [| Hge]; [done |].
  assert (cmp e x <= 0) by (destruct (Z.ltb_spec 0 (cmp e x)) as [Hc |]; [| done];
    apply (cmp_sym _ Hcmp) in Hc; lia).
  assert (cmp p x <= 0) by (by eapply (cmp_trans _ Hcmp)).
  apply (cmp_sym _ Hcmp) in Hx. lia.
Qed.

Lemma cmp_ge_le x p e : 0 <= cmp x p -> cmp e p <= 0 -> 0 <= cmp x e.
Proof.
  intros Hx He. destruct (Z.ltb_spec (cmp x e) 0) as [Hlt |]; [| done].
  pose proof (cmp_lt_le _ _ _ Hlt He). lia.
Qed.

Lemma sorted_app l1 l2 : sorted cmp (l1 ++ l2) <->
  sorted cmp l1 /\ sorted cmp l2 /\ Forall (fun a => Forall (fun b => cmp a b <= 0) l2) l1.
Proof.
  unfold sorted. induction l1 as [| a l1 IH]; cbn.
  - split; [intros H; split_and!; [constructor | done | constructor] | by intros (_ & ? & _)].
  - split.
    + intros H. inversion_clear H as [| ? ? Hs Hf]. apply IH in Hs as (? & ? & ?).
      apply Forall_app in Hf as [? ?]. split_and!; [by constructor | done | by constructor].
    + intros (H1 & H2 & H3). inversion_clear H1 as [| ? ? Hs Hf]. inversion_clear H3 as [| ? ? Hx Hxs].
      constructor; [by apply IH | by apply Forall_app].
Qed.

Lemma sorted_focus c l a r k : sorted cmp (inorder (plug (N c l a r) k)) ->
  Forall (fun e => cmp e a <= 0) (inorder l) /\ Forall (fun e => cmp a e <= 0) (inorder r).
Proof.
  rewrite inorder_split. intros (_ & (Hs & _ & _)%sorted_app & _)%sorted_app. cbn in Hs.
  apply sorted_app in Hs as (_ & Hr & Hl). split; [| by inversion Hr].
  eapply Forall_impl; [exact Hl |]. intros e He. by inversion He.
Qed.

Lemma insert_sorted_split x l1 l2 :
  Forall (fun y => 0 <= cmp x y) l1 -> Forall (fun y => cmp x y < 0) l2 ->
  insert_sorted cmp x (l1 ++ l2) = l1 ++ x :: l2.
Proof.
  intros H1 H2. induction H1 as [| y l1 Hy H1 IH]; cbn.
  - destruct H2 as [| y l2 Hy H2]; [done |]. cbn. by rewrite (proj2 (Z.ltb_lt _ _) Hy).
  - rewrite (proj2 (Z.ltb_ge _ _) Hy). by rewrite IH.
Qed.

Lemma sorted_insert x l1 l2 :
  sorted cmp (l1 ++ l2) -> Forall (fun y => 0 <= cmp x y) l1 -> Forall (fun y => cmp x y < 0) l2 ->
  sorted cmp (l1 ++ x :: l2).
Proof.
  intros (Hs1 & Hs2 & H12)%sorted_app H1 H2. apply sorted_app. split_and!.
  - done.
  - constructor; [done |]. eapply Forall_impl; [exact H2 |]. cbn. lia.
  - rewrite Forall_forall in *. intros y Hy. constructor; [| by apply H12].
    specialize (H1 y Hy). destruct (Z.ltb_spec 0 (cmp y x)) as [Hc |]; [| done].
    apply (cmp_sym _ Hcmp) in Hc. lia.
Qed.
End Order.

Lemma addr_bound l : NoDup l -> Forall node_addr l -> Z.of_nat (length l) < 2 ^ 64.
Proof.
  intros Hnd Ha. assert (Hsub : l ⊆+ seqZ 1 (2 ^ 64 - 1)).
  { apply NoDup_submseteq; [done |]. intros a Hin. rewrite Forall_forall in Ha.
    destruct (Ha a Hin). apply elem_of_seqZ. lia. }
  apply submseteq_length in Hsub. rewrite length_seqZ in Hsub. lia.
Qed.

(** The link the descent has reached: the child field the focus hangs on. *)
Definition link_of (k : list frame) : link :=
  match k with
  | [] => LinkRoot
  | Fr L _ a _ :: _ => LinkLeft a
  | Fr R _ a _ :: _ => LinkRight a
  end.

Section Descent.
Context (own : Z -> Prop) (m0 : gmap Z rb_node).
Context (cmp : Z -> Z -> Z) (Hcmp : cmp_ok cmp).
Abbreviation Tree := (Tree own m0).
Abbreviation At := (At own m0).

Lemma tree_length s t : Tree s t -> Z.of_nat (length (inorder t)) < 2 ^ 64.
Proof. intros H. apply addr_bound; rewrite <- (nodes_fst 0); [by destruct H | by destruct H]. Qed.

Lemma wp_read_link s t k (Q : Z -> rb_tree -> Prop) :
  Tree s (plug t k) -> Q (ptr t) s -> wp (read_link (link_of k)) s Q.
Proof.
  intros H HQ. destruct k as [| [d c a u] k]; [by eapply wp_get_root |].
  destruct d; cbn; apply wp_bind; (eapply wp_tload; [exact H |]); by apply wp_ret.
Qed.

Lemma wp_write_link s p q k K (Q : () -> rb_tree -> Prop) :
  At s (rootp p k) (cnodes p k ++ K) ->
  (forall s', At s' (rootp q k) (cnodes q k ++ K) -> Q () s') -> wp (write_link (link_of k) q) s Q.
Proof.
  intros H HQ. destruct k as [| [d c a u] k]; cbn in *; [by eapply wp_set_root |].
  replace (write_link _ q) with (set_kid d a q) by (by destruct d).
  eapply wp_set_kid; [exact H |]. intros s' H'. rewrite with_kid_cell in H'. by apply HQ.
Qed.

(** Where the new element [x] belongs relative to the frames passed. *)
Definition passed (x : Z) (k : list frame) : Prop :=
  Forall (fun y => 0 <= cmp x y) (bef k) /\ Forall (fun y => cmp x y < 0) (aft k).

Lemma passed_left x k t c l a r :
  sorted cmp (inorder (plug t k)) -> t = N c l a r -> passed x k -> cmp x a < 0 ->
  passed x (Fr L c a r :: k).
Proof.
  intros Hs -> [Hb Ha] Hlt. split; [done |]. cbn. constructor; [done |]. apply Forall_app. split; [| done].
  destruct (sorted_focus _ _ _ _ _ _ Hs) as [_ Hf]. eapply Forall_impl; [exact Hf |]. intros e He.
  by eapply cmp_lt_le.
Qed.

Lemma passed_right x k t c l a r :
  sorted cmp (inorder (plug t k)) -> t = N c l a r -> passed x k -> 0 <= cmp x a ->
  passed x (Fr R c a l :: k).
Proof.
  intros Hs -> [Hb Ha] Hge. split; [| done]. cbn. apply Forall_app. split; [done |].
  apply Forall_app. split; [| by constructor].
  destruct (sorted_focus _ _ _ _ _ _ Hs) as [Hf _]. eapply Forall_impl; [exact Hf |]. intros e He. by eapply cmp_ge_le.
Qed.

Lemma descend_ok s t0 node (Q : link * Z -> rb_tree -> Prop) :
  Tree s t0 -> sorted cmp (inorder t0) ->
  (forall k, t0 = plug E k -> passed node k -> Q (link_of k, top k) s) ->
  wp (rb_descend node cmp) s Q.
Proof.
  intros H Hs HQ. unfold rb_descend.
  eapply (wp_ploop (fun rank lp s' => s' = s /\ exists t k, t0 = plug t k /\ lp = (link_of k, top k) /\
    passed node k /\ rank = Z.of_nat (length (inorder t))));
    [| split; [done |]; exists t0, []; split_and!; [done | done | by split; constructor | reflexivity] |].
  2:{ pose proof (tree_length _ _ H). unfold RB_STEPS. lia. }
  intros rank [l p] s' (-> & t & k & Ht & [= -> ->] & Hp & ->). rewrite Ht in H, Hs.
  apply wp_bind. eapply wp_read_link; [exact H |].
  destruct t as [| c tl a tr]; [apply wp_ret, HQ; done |]. cbn [ptr].
  rewrite (ptr_nonnull own m0 s L c tl a tr k H). destruct (Z.ltb_spec (cmp node a) 0).
  - apply wp_ret. exists (Z.of_nat (length (inorder tl))). split; [| cbn; rewrite length_app; cbn; lia].
    split; [done |]. exists tl, (Fr L c a tr :: k). split_and!; [done | done | by eapply passed_left | done].
  - apply wp_ret. exists (Z.of_nat (length (inorder tr))). split; [| cbn; rewrite length_app; cbn; lia].
    split; [done |]. exists tr, (Fr R c a tl :: k). split_and!; [done | done | by eapply passed_right | done].
Qed.

(** A fresh cell given a parent and painted red. *)
Lemma red_parent v p : Z.Even p -> clear_flag (Z.lor (Z.land v 1) p) 1 = pack p Red.
Proof.
  intros Hp. assert (exists c, Z.land v 1 = bit c) as [c ->].
  { change 1 with (Z.ones 1). rewrite Z.land_ones by done. pose proof (Z.mod_pos_bound v (2 ^ 1) eq_refl).
    change (2 ^ 1) with 2 in *. assert (v mod 2 = 0 \/ v mod 2 = 1) as [-> | ->] by lia; [by exists Red | by exists Black]. }
  rewrite Z.lor_comm, or_bit, pack_high by done. unfold pack, bit, RB_RED. lia.
Qed.

Lemma rb_insert_ok s t0 node n0 b (Q : () -> rb_tree -> Prop) :
  At s (ptr t0) ((node, n0) :: nodes 0 t0) -> rbt Black b t0 -> sorted cmp (inorder t0) ->
  (forall s' t n, Tree s' t -> rbt Black n t -> inorder t = insert_sorted cmp node (inorder t0) ->
     sorted cmp (inorder t) -> Q () s') ->
  wp (rb_insert node cmp) s Q.
Proof.
  intros H Hb Hs HQ. unfold rb_insert. apply wp_bind.
  assert (Ht : Tree s t0) by (by apply (At_sub _ _ _ _ [(node, n0)])).
  eapply descend_ok; [exact Ht | done |]. intros k -> Hp. cbn [fst snd].
  rewrite ptr_plug, nodes_plug in H. cbn [nodes ptr app] in H.
  assert (Hev : Z.Even (top k)) by (eapply (even_top _ _ _ _ 0); own H).
  apply wp_bind. eapply wp_cell; [exact H | reflexivity |]. clear s H Ht. intros s H.
  apply wp_bind. eapply (wp_set_kid own m0 R); [exact H |]. clear s H. intros s H.
  apply wp_bind. eapply (wp_set_kid own m0 L); [exact H |]. clear s H. intros s H.
  apply wp_bind. eapply wp_cell; [exact H | reflexivity |]. clear s H. intros s H. cbn in H.
  unfold set_pc in H. cbn in H. rewrite red_parent in H by done.
  apply wp_bind. eapply (wp_write_link s 0 node k); [own H |]. clear s H. intros s H.
  assert (Ht : Tree s (plug (N Red E node E) k)).
  { apply Tree_zip. cbn. eapply At_reorder; [exact H |]. solve_Permutation. }
  destruct (unplug_rbt _ _ _ Hb) as (c & pc & m & Hm & Hk & Hf). inversion Hm; subst.
  assert (Hord : inorder (plug (N Red E node E) k) = insert_sorted cmp node (inorder (plug E k))).
  { rewrite !inorder_split. cbn. symmetry. by apply insert_sorted_split; apply Hp. }
  eapply (insert_fixup_ok own m0 _ (Z.of_nat (length k)));
    [exists E, E, k, 0%nat, pc; split_and!; [done | done | constructor | constructor | done | exact Hord] | |].
  - pose proof (tree_length _ _ Ht). pose proof (length_plug (N Red E node E) k). unfold RB_STEPS. lia.
  - intros s' t n Ht' Hn Hin. eapply HQ; [done | done | done |]. rewrite Hin.
    rewrite inorder_split in Hs |- *. cbn [inorder app] in *. destruct Hp.
    rewrite insert_sorted_split by done. by apply sorted_insert.
Qed.
End Descent.

(** ** Repairing a removal *)

Definition era_far (d : side) (parent sibling : Z) : prog rb_tree (Z * Z + Z) :=
  pn ← load parent;
  _ ← rb_set_color sibling (rb_color pn);
  _ ← rb_set_black parent;
  sn ← load sibling;
  _ ← when (negb (kid (opp d) sn =? 0)) (rb_set_black (kid (opp d) sn));
  _ ← rotate d parent;
  r ← get_root;
  mret (inr r).

Definition era_black (d : side) (parent sibling : Z) : prog rb_tree (Z * Z + Z) :=
  near ← (if sibling =? 0 then mret true else sn ← load sibling; null_or_black (kid d sn));
  far ← (if sibling =? 0 then mret true else sn ← load sibling; null_or_black (kid (opp d) sn));
  if (near && far)%bool then
    _ ← when (negb (sibling =? 0)) (rb_set_red sibling);
    pn ← load parent;
    mret (inl (parent, rb_parent pn))
  else
    sibling ← (if far then
        sn ← load sibling;
        _ ← rb_set_black (kid d sn);
        _ ← rb_set_red sibling;
        _ ← rotate (opp d) sibling;
        pn ← load parent;
        mret (kid (opp d) pn)
      else mret sibling);
    era_far d parent sibling.

Definition era_branch (d : side) (parent : Z) : prog rb_tree (Z * Z + Z) :=
  pn ← load parent;
  let sibling := kid (opp d) pn in
  sred ← nonnull_red sibling;
  sibling ← (if (sred : bool) then
      _ ← rb_set_black sibling;
      _ ← rb_set_red parent;
      _ ← rotate d parent;
      pn ← load parent;
      mret (kid (opp d) pn)
    else mret sibling);
  era_black d parent sibling.

Lemma erase_left_eq : rb_erase_fixup_left = era_branch L.
Proof. reflexivity. Qed.

Lemma erase_right_eq : rb_erase_fixup_right = era_branch R.
Proof. reflexivity. Qed.

Section Removal.
Context (own : Z -> Prop) (m0 : gmap Z rb_node) (ord : list Z).
Abbreviation Tree := (Tree own m0).

(** [t] stands where a subtree of black height [S n] is expected: one short,
    or with a red root that only has to be painted black. *)
Definition short (n : nat) (t : tree) : Prop :=
  if is_red t then rbt Black (S n) (blacken t) else rbt Black n t.

Definition erasing (rank : Z) (np : Z * Z) (s : rb_tree) : Prop :=
  exists t k n pc, Tree s (plug t k) /\ np = (ptr t, top k) /\ short n t /\ rctx pc (S n) k /\
    inorder (plug t k) = ord /\ rank = 2 * Z.of_nat (length k) + (if is_red t then 0 else 1).

Definition erased (node : Z) (s : rb_tree) : Prop :=
  exists t k n, Tree s (plug t k) /\ node = ptr t /\ rbt Black n (plug (blacken t) k) /\
    inorder (plug t k) = ord.

(** The sibling's far child is red: one rotation ends the repair. *)
Lemma era_far_ok d s n cx cp t p x b y k :
  Tree s (plug t (Fr d cp p (mk d Black x b y) :: k)) ->
  rbt Black n t -> rbt cx n x -> rbt Red n y ->
  rctx cp (S n) (Fr d cp p (mk d Black x b y) :: k) ->
  inorder (plug t (Fr d cp p (mk d Black x b y) :: k)) = ord ->
  wp (era_far d p b) s (fun res s' => match res with inl _ => False | inr x' => erased x' s' end).
Proof.
  intros H Ht Hx Hy Hk Hord. unfold era_far. pose proof (top_even own m0 _ _ _ H) as Hp.
  cbn [plug] in H. pose proof (top_even own m0 _ _ _ H) as Hke.
  apply wp_bind. eapply wp_tload; [exact H |]. rewrite color_cell by done.
  apply wp_bind. eapply (wp_paint own m0 s d Black cp x b y (Fr (opp d) cp p t :: k)); [cbn; by rewrite mk_opp |].
  clear s H. intros s H. cbn in H. rewrite mk_opp in H.
  apply wp_bind. eapply wp_paint_black; [exact H |]. clear s H. intros s H.
  apply wp_bind. eapply (wp_tload own m0 s d cp x b y (Fr (opp d) Black p t :: k)); [cbn; by rewrite mk_opp |].
  rewrite kid_opp_cell. inversion Hy as [| n0 yl ya yr Hyl Hyr |]; subst. cbn [ptr].
  assert (Hy' : Tree s (plug (N Red yl ya yr) (Fr (opp d) cp b x :: Fr (opp d) Black p t :: k)))
    by (cbn; by rewrite !mk_opp).
  rewrite (ptr_nonnull own m0 s L _ _ _ _ _ Hy'). cbn [negb when].
  apply wp_bind. eapply (wp_paint_black own m0 s L); [exact Hy' |]. clear s H Hy'. intros s H.
  cbn in H. rewrite !mk_opp in H.
  apply wp_bind. eapply wp_rotate; [exact H |]. clear s H. intros s H.
  apply wp_bind. eapply wp_get_root; [exact H |]. apply wp_ret.
  exists (plug (mk d cp (mk d Black t p x) b (N Black yl ya yr)) k), [].
  assert (exists n', rbt Black n' (plug (mk d cp (mk d Black t p x) b (N Black yl ya yr)) k)) as [n' Hn'].
  { assert (Hyb : rbt Black (S n) (N Black yl ya yr)) by (by econstructor).
    assert (Htp : rbt Black (S n) (mk d Black t p x)) by (by eapply rbt_mk_black).
    inversion Hk; subst.
    - eapply (plug_rbt Black); [by eapply rbt_mk_black | done | done].
    - eapply (plug_rbt Red); [by apply rbt_mk_red | done | done]. }
  exists n'. split_and!; [done | done | |].
  - cbn. by rewrite (blacken_black _ _ Hn').
  - rewrite <- Hord. cbn. apply inorder_plug. destruct d; by inorder_eq.
Qed.

Definition era_post (bound : Z) (res : Z * Z + Z) (s : rb_tree) : Prop :=
  match res with
  | inl np => exists rank, erasing rank np s /\ 0 <= rank <= bound
  | inr node => erased node s
  end.

(** A black sibling with two black children is painted red. *)
Lemma era_both_black d s n cp t p x b y k :
  Tree s (plug t (Fr d cp p (mk d Red x b y) :: k)) ->
  rbt Black n t -> rbt Black n x -> rbt Black n y ->
  rctx cp (S n) (Fr d cp p (mk d Black x b y) :: k) ->
  inorder (plug t (Fr d cp p (mk d Black x b y) :: k)) = ord ->
  era_post (2 * Z.of_nat (length k) + match cp with Red => 0 | Black => 1 end) (inl (p, top k)) s.
Proof.
  intros H Ht Hx Hy Hk Hord. eexists. split; [| split; [| reflexivity]].
  - set (t' := mk d cp t p (mk d Red x b y)).
    assert (Hb : rbt Black (S n) (mk d Black t p (mk d Red x b y))).
    { eapply rbt_mk_black; [exact Ht |]. by apply rbt_mk_red. }
    assert (Hord' : inorder (plug t' k) = ord).
    { rewrite <- Hord. cbn. apply inorder_plug. unfold t'. destruct d; by inorder_eq. }
    inversion Hk; subst.
    + exists t', k, (S n), pc. split_and!; [exact H | by unfold t'; rewrite ptr_mk | | done | done |].
      * unfold short, t'. destruct d; exact Hb.
      * by destruct d.
    + exists t', k, n, Black. split_and!; [exact H | by unfold t'; rewrite ptr_mk | | done | done |].
      * unfold short, t'. destruct d; exact Hb.
      * by destruct d.
  - destruct cp; lia.
Qed.

Lemma era_black_ok d s n t cp p sib k :
  Tree s (plug t (Fr d cp p sib :: k)) -> rbt Black n t -> rbt Black (S n) sib ->
  rctx cp (S n) (Fr d cp p sib :: k) ->
  inorder (plug t (Fr d cp p sib :: k)) = ord ->
  wp (era_black d p (ptr sib)) s
    (era_post (2 * Z.of_nat (length k) + match cp with Red => 0 | Black => 1 end)).
Proof.
  intros H Ht Hsib Hk Hord.
  destruct (tree_cases d sib) as [-> | (cb & x & b & y & ->)]; [inversion Hsib |].
  apply rbt_mk_inv in Hsib as (-> & n' & cx & cy & [= <-] & Hx & Hy).
  assert (Hs : Tree s (plug (mk d Black x b y) (Fr (opp d) cp p t :: k))) by (cbn; by rewrite mk_opp).
  rewrite ptr_mk. unfold era_black. rewrite (ptr_nonnull own m0 s _ _ _ _ _ _ Hs).
  apply wp_bind, wp_bind. eapply wp_tload; [exact Hs |]. rewrite kid_cell.
  eapply (wp_null_or_black own m0 s x (Fr d Black b y :: Fr (opp d) cp p t :: k)); [exact Hs |]. rewrite (rbt_color _ _ _ Hx).
  apply wp_bind, wp_bind. eapply wp_tload; [exact Hs |]. rewrite kid_opp_cell.
  eapply (wp_null_or_black own m0 s y (Fr (opp d) Black b x :: Fr (opp d) cp p t :: k)); [cbn; rewrite !mk_opp; exact H |].
  rewrite (rbt_color _ _ _ Hy).
  destruct cy; [| destruct cx].
  - (* far child red *)
    rewrite andb_false_r. apply wp_bind, wp_ret. eapply wp_mono; [by eapply era_far_ok |].
    intros [? | ?] s'; [done |]. done.
  - (* near child red: rotate it into place *)
    cbn [negb andb]. destruct (tree_cases d x) as [-> | (ce & x1 & e & x2 & ->)]; [inversion Hx |].
    apply rbt_mk_inv in Hx as (-> & Hx1 & Hx2).
    apply wp_bind, wp_bind. eapply wp_tload; [exact Hs |]. rewrite kid_cell, ptr_mk.
    apply wp_bind.
    eapply (wp_paint_black own m0 s d Red x1 e x2 (Fr d Black b y :: Fr (opp d) cp p t :: k)); [exact Hs |].
    clear s H Hs. intros s Hs.
    apply wp_bind.
    eapply (wp_paint_red own m0 s d Black _ b y (Fr (opp d) cp p t :: k)); [exact Hs |]. clear s Hs. intros s Hs.
    apply wp_bind.
    eapply (wp_rotate own m0 (opp d) s Red Black y b x2 e x1 (Fr (opp d) cp p t :: k)); [rewrite !mk_opp; exact Hs |].
    clear s Hs. intros s Hs. rewrite !mk_opp in Hs. cbn in Hs. rewrite mk_opp in Hs.
    apply wp_bind. eapply wp_tload; [exact Hs |]. rewrite kid_opp_cell, ptr_mk. apply wp_ret.
    set (sib' := mk d Black x1 e (mk d Red x2 b y)) in *.
    eapply wp_mono; [eapply (era_far_ok d s n Black cp t p x1 e (mk d Red x2 b y) k); [exact Hs | done | done | by apply rbt_mk_red | |] |].
    + inversion Hk; subst; [econstructor | constructor]; try done;
        (eapply rbt_mk_black; [exact Hx1 | by apply rbt_mk_red]).
    + rewrite <- Hord. cbn. apply inorder_plug. destruct d; by inorder_eq.
    + by intros [? | ?] s'.
  - (* both black *)
    cbn [negb andb]. cbn [when].
    apply wp_bind. eapply (wp_paint_red own m0 s d); [exact Hs |]. clear s H Hs. intros s Hs.
    cbn in Hs. rewrite mk_opp in Hs. pose proof (top_even own m0 _ _ _ Hs).
    apply wp_bind. eapply wp_tload; [exact Hs |]. rewrite parent_cell by done. apply wp_ret.
    by eapply era_both_black.
Qed.

Lemma era_branch_ok d s n t cp p sib cs k :
  Tree s (plug t (Fr d cp p sib :: k)) -> rbt Black n t -> rbt cs (S n) sib ->
  rctx cp (S n) (Fr d cp p sib :: k) ->
  inorder (plug t (Fr d cp p sib :: k)) = ord ->
  wp (era_branch d p) s (era_post (2 * Z.of_nat (length k) + 2)).
Proof.
  intros H Ht Hsib Hk Hord. unfold era_branch.
  apply wp_bind. eapply (wp_tload own m0 s d cp t p sib k); [exact H |]. rewrite kid_opp_cell.
  apply wp_bind. eapply (wp_nonnull_red own m0 s sib (Fr (opp d) cp p t :: k)); [cbn; by rewrite mk_opp |].
  rewrite (rbt_color _ _ _ Hsib). destruct cs.
  - destruct (tree_cases d sib) as [-> | (cb & x & b & y & ->)]; [inversion Hsib |].
    apply rbt_mk_inv in Hsib as (-> & Hx & Hy). rewrite ptr_mk.
    inversion Hk as [| n0 cs pc d0 a0 s0 k0 Hcs Hk' | n0 d0 a0 s0 k0 Hbad]; subst;
      [| apply rbt_mk_inv in Hbad as [? _]; done].
    apply wp_bind, wp_bind.
    eapply (wp_paint_black own m0 s d Red x b y (Fr (opp d) Black p t :: k)); [cbn; by rewrite mk_opp |].
    clear s H. intros s H. cbn in H. rewrite mk_opp in H.
    apply wp_bind. eapply wp_paint_red; [exact H |]. clear s H. intros s H.
    apply wp_bind. eapply wp_rotate; [exact H |]. clear s H. intros s H.
    apply wp_bind. eapply (wp_tload own m0 s d Red t p x (Fr d Black b y :: k)); [exact H |].
    rewrite kid_opp_cell. apply wp_ret.
    eapply wp_mono; [eapply (era_black_ok d s n t Red p x (Fr d Black b y :: k)); [exact H | done | done | |] |].
    + constructor; [done | by econstructor | done].
    + rewrite <- Hord. cbn. apply inorder_plug. destruct d; by inorder_eq.
    + intros [np | nd] s'; [| done]. intros (rank & ? & ?). exists rank. split; [done |]. cbn in *. lia.
  - apply wp_bind, wp_ret. eapply wp_mono; [by eapply era_black_ok |].
    intros [np | nd] s'; [| done]. intros (rank & ? & ?). exists rank. split; [done |]. destruct cp; lia.
Qed.

Lemma rootp_in p k : k <> [] -> rootp p k ∈ (cnodes p k).*1.
Proof.
  revert p. induction k as [| [d c a u] k IH]; intros p Hne; [done |]. cbn.
  rewrite fmap_app, elem_of_cons, elem_of_app. destruct (decide (k = [])) as [-> | Hk]; [by left |].
  right. right. by apply IH.
Qed.

Lemma focus_not_root s t k : Tree s (plug t k) -> k <> [] -> (ptr t =? rb_root s) = false.
Proof.
  intros H Hne. apply Tree_zip in H. rewrite (at_root _ _ _ _ _ H). apply Z.eqb_neq.
  pose proof (rootp_in (ptr t) k Hne) as Hin.
  pose proof (at_nodup _ _ _ _ _ H) as Hnd. pose proof (at_addr _ _ _ _ _ H) as Ha.
  rewrite fmap_app in Hnd, Ha. apply Forall_app in Ha as [_ Ha]. rewrite Forall_forall in Ha.
  destruct (Ha _ Hin) as [? _]. apply NoDup_app in Hnd as (_ & Hnd & _).
  destruct t as [| c l a r]; cbn in *; [lia |]. intros He. apply (Hnd a); [by left |]. by rewrite <- He in Hin.
Qed.

Lemma erase_step_ok rank np s : erasing rank np s ->
  wp (rb_erase_fixup_step np) s (fun res s' =>
    match res with
    | inl np' => exists rank', erasing rank' np' s' /\ 0 <= rank' < rank
    | inr node => erased node s'
    end).
Proof.
  intros (t & k & n & pc & H & -> & Hsh & Hk & Hord & ->). unfold rb_erase_fixup_step, short in *.
  apply wp_bind. eapply wp_null_or_black; [exact H |].
  apply wp_bind. eapply wp_get_root; [exact H |]. rewrite <- (at_root _ _ _ _ _ H).
  destruct (is_red t) eqn:Hred.
  - apply wp_ret. destruct (plug_rbt _ _ _ _ _ Hsh Hk) as [n' Hn']; [done |]. by exists t, k, n'.
  - cbn [negb andb]. destruct k as [| [d cp p sib] k].
    + rewrite (at_root _ _ _ _ _ H). cbn. rewrite Z.eqb_refl. apply wp_ret. exists t, [], n.
      split_and!; [done | done | | done]. cbn. by rewrite (blacken_black _ _ Hsh).
    + rewrite (focus_not_root _ _ _ H) by done. cbn [negb top].
      cbn [plug] in H. rewrite (ptr_nonnull own m0 s _ _ _ _ _ _ H).
      apply wp_bind. eapply wp_tload; [exact H |].
      assert (Hbr : wp (era_branch d p) s (era_post (2 * Z.of_nat (length k) + 2))).
      { inversion Hk; subst; by eapply era_branch_ok. }
      assert (Hgo : wp (era_branch d p) s (fun res s' =>
        match res with
        | inl np' => exists rank', erasing rank' np' s' /\
            0 <= rank' < 2 * Z.of_nat (length (Fr d cp p sib :: k)) + 1
        | inr node => erased node s'
        end)).
      { eapply wp_mono; [exact Hbr |]. intros [np | nd] s'; [| done]. intros (rank & ? & ?).
        exists rank. split; [done |]. cbn. lia. }
      destruct d; cbn [cell rb_left].
      * rewrite Z.eqb_refl. by rewrite erase_left_eq.
      * assert (Hne : ptr sib <> ptr t).
        { assert (exists cs, rbt cs (S n) sib) as [cs Hs] by (inversion Hk; subst; by eexists).
          destruct (rbt_nonempty _ _ _ Hs) as (sl & b & sr & ->). cbn.
          intros He. symmetry in He. revert He. by apply (sibling_ne own m0 s cs sl b sr L cp p t k). }
        rewrite (proj2 (Z.eqb_neq _ _) Hne). by rewrite erase_right_eq.
Qed.

Lemma erase_fixup_ok rank node parent s (Q : () -> rb_tree -> Prop) :
  erasing rank (node, parent) s -> rank < 2 ^ Z.of_nat RB_STEPS ->
  (forall s' t n, Tree s' t -> rbt Black n t -> inorder t = ord -> Q () s') ->
  wp (rb_erase_fixup node parent) s Q.
Proof.
  intros HI Hrank HQ. unfold rb_erase_fixup. apply wp_bind.
  eapply wp_mono; [eapply (wp_ploop erasing _ erased); [exact erase_step_ok | exact HI | exact Hrank] |].
  clear s HI. intros nd s (t & k & n & H & -> & Hn & Hord).
  destruct t as [| c l a r].
  - apply wp_ret. by eapply HQ.
  - cbn [ptr]. rewrite (ptr_nonnull own m0 s L _ _ _ _ _ H). cbn [negb when].
    eapply (wp_paint_black own m0 s L); [exact H |]. clear s H. intros s H.
    eapply HQ; [exact H | exact Hn |]. rewrite <- Hord. by apply inorder_plug.
Qed.
End Removal.

(** ** Unlinking a node *)

Definition topq (k : list frame) (q : Z) : Z := match k with [] => q | Fr _ _ a _ :: _ => a end.

Fixpoint seg (p : Z) (k : list frame) (q : Z) : list (Z * rb_node) :=
  match k with
  | [] => []
  | Fr d c a s :: k' => (a, cell d (topq k' q) c p (ptr s)) :: nodes a s ++ seg a k' q
  end.

Lemma nodes_plug_at q t k : nodes q (plug t k) ≡ₚ nodes (topq k q) t ++ seg (ptr t) k q.
Proof.
  revert t. induction k as [| [d c a s] k IH]; intros t; cbn; [by rewrite app_nil_r |].
  rewrite IH, nodes_mk, ptr_mk. solve_Permutation.
Qed.

Lemma plug_app t k1 k2 : plug t (k1 ++ k2) = plug (plug t k1) k2.
Proof. revert t. induction k1 as [| [d c a s] k1 IH]; intros t; [done |]. cbn. apply IH. Qed.

Lemma rctx_rename pc n k1 d c a b u k :
  rctx pc n (k1 ++ Fr d c a u :: k) -> rctx pc n (k1 ++ Fr d c b u :: k).
Proof.
  revert pc n. induction k1 as [| f k1 IH]; intros pc n H; cbn in *.
  - inversion H; subst; by econstructor.
  - inversion H as [| ? ? ? ? ? ? ? Hs Hk | ? ? ? ? ? Hs Hk Hne]; subst.
    + econstructor; [done | by apply IH].
    + constructor; [done | by apply IH | by destruct k1].
Qed.

Section Unlinking.
Context (own : Z -> Prop) (m0 : gmap Z rb_node).
Abbreviation Tree := (Tree own m0).
Abbreviation At := (At own m0).

Lemma leftmost_ok s c l a r k (Q : Z -> rb_tree -> Prop) :
  Tree s (plug (N c l a r) k) ->
  (forall cs b x k1, N c l a r = plug (N cs E b x) k1 -> bef k1 = [] -> Forall (fun f => match f with Fr d _ _ _ => d = L end) k1 -> Q b s) ->
  wp (leftmost a) s Q.
Proof.
  intros H HQ. unfold leftmost.
  eapply (wp_ploop (fun rank p s' => s' = s /\ exists c' l' r' k1, N c l a r = plug (N c' l' p r') k1 /\
    bef k1 = [] /\ Forall (fun f => match f with Fr d _ _ _ => d = L end) k1 /\
    rank = Z.of_nat (length (inorder l'))));
    [| split; [done |]; exists c, l, r, []; split_and!; [done | done | constructor | reflexivity] |].
  - intros rank p s' (-> & c' & l' & r' & k1 & Heq & Hb & Hf & ->). apply wp_bind.
    assert (Hp : Tree s (plug (N c' l' p r') (k1 ++ k))) by (rewrite plug_app, <- Heq; exact H).
    eapply (wp_tload own m0 s L); [exact Hp |]. cbn [cell rb_left].
    destruct l' as [| cl ll b lr]; cbn [ptr].
    + apply wp_ret. by eapply HQ.
    + rewrite (ptr_nonnull own m0 s L cl ll b lr (Fr L c' p r' :: k1 ++ k) Hp). apply wp_ret.
      exists (Z.of_nat (length (inorder ll))). split; [| cbn; rewrite length_app; cbn; lia].
      split; [done |]. exists cl, ll, lr, (Fr L c' p r' :: k1).
      split_and!; [exact Heq | done | by constructor | done].
  - pose proof (tree_length own m0 _ _ H) as Hlen. pose proof (length_plug (N c l a r) k) as Hpl.
    cbn in Hpl. rewrite length_app in Hpl. unfold RB_STEPS. lia.
Qed.

(** What is left after the unlinking: a hole's occupant [t], the frames above
    it, and the colour [c] of the node that left this place. *)
Definition unlinked (ord : list Z) (res : Z * Z * Z) (s : rb_tree) : Prop :=
  exists t k c pc m, Tree s (plug t k) /\ res = (ptr t, top k, bit c) /\ rctx pc m k /\
    inorder (plug t k) = ord /\
    match c with Red => rbt Black m t | Black => exists m' c', m = S m' /\ rbt c' m' t end.

(** A node with at most one child gives its place to it. *)
Lemma unlink_spliced d s t k pc m c b :
  Tree s (plug t k) -> rbt c m (mk d c E b t) -> rctx pc m k ->
  unlinked (inorder (plug t k)) (ptr t, top k, bit c) s.
Proof.
  intros H Hm Hk. exists t, k, c, pc, m. split_and!; [done .. |].
  apply rbt_mk_inv in Hm as [_ Hm]. destruct c; [by destruct Hm |].
  destruct Hm as (m' & cx & cy & -> & _ & ?). by exists m', cy.
Qed.

Lemma splice_ok {X} s a n t k (res : X) (Q : X -> rb_tree -> Prop) :
  At s (rootp a k) ((a, n) :: nodes a t ++ cnodes a k) ->
  (forall s', Tree s' (plug t k) -> Q res s') ->
  wp (_ ← when (negb (ptr t =? 0)) (rb_set_parent (ptr t) (top k));
      _ ← replace_child (top k) a (ptr t);
      mret res) s Q.
Proof.
  intros H HQ. assert (Hk : Z.Even (top k)) by (eapply (even_top _ _ _ _ a); own H).
  assert (Ha : Z.Even a) by (eapply At_even; own H).
  apply wp_bind. eapply (wp_adopt own m0 s _ a); [own H | done | done |]. clear s H. intros s H.
  apply wp_bind. eapply (wp_relink own m0 L s a (ptr t) k); [own H | |].
  - cbn. rewrite ?fmap_app. cbn. set_solver.
  - clear s H. intros s H. apply wp_ret, HQ, Tree_zip. apply (At_sub _ _ _ _ [(a, n)]). own_all H.
Qed.

(** The successor [b] leaves the right subtree, of which [plug x k1] remains
    and becomes its right child. *)
Lemma detach_ok s r a ca b cs x k1 K (Q : Z -> rb_tree -> Prop) :
  At s r ((a, ca) :: (b, cell L (topq k1 a) cs 0 (ptr x)) :: nodes b x ++ seg b k1 a ++ K) ->
  Forall (fun f => match f with Fr d _ _ _ => d = L end) k1 ->
  rb_right ca = rootp b k1 ->
  (forall s' q, Z.Even q ->
     At s' r ((a, ca) :: (b, cell L q cs 0 (ptr (plug x k1))) :: nodes b (plug x k1) ++ K) ->
     Q (topq k1 b) s') ->
  wp (if topq k1 a =? a then
        _ ← when (negb (ptr x =? 0)) (rb_set_parent (ptr x) b);
        mret b
      else
        _ ← set_left (topq k1 a) (ptr x);
        _ ← when (negb (ptr x =? 0)) (rb_set_parent (ptr x) (topq k1 a));
        nd ← load a;
        _ ← set_right b (rb_right nd);
        sn ← load b;
        _ ← rb_set_parent (rb_right sn) b;
        mret (topq k1 a)) s Q.
Proof.
  intros H Hf Hr HQ. assert (Ha : Z.Even a) by (eapply At_even; own H).
  assert (Hb : Z.Even b) by (eapply (At_even _ _ _ _ b); own H).
  destruct k1 as [| [d c1 a1 s1] k1]; cbn [topq seg plug rootp] in *.
  - rewrite Z.eqb_refl. apply wp_bind. eapply (wp_adopt own m0 s _ b b); [own H | done | done |].
    clear s H. intros s H. apply wp_ret. eapply HQ; [exact Ha |]. own_all H.
  - apply Forall_cons in Hf as [Hd Hf']. cbn in Hd. subst d.
    assert (Hne : a1 <> a).
    { pose proof (at_nodup _ _ _ _ _ H) as Hnd. cbn in Hnd. rewrite !fmap_app in Hnd. cbn in Hnd.
      apply NoDup_cons in Hnd as [Hni _]. set_solver. }
    rewrite (proj2 (Z.eqb_neq _ _) Hne).
    assert (Ha1 : Z.Even a1) by (eapply (At_even _ _ _ _ a1); own H).
    apply wp_bind. eapply (wp_set_kid own m0 L _ _ a1); [own H |]. clear s H. intros s H.
    rewrite with_kid_cell in H.
    apply wp_bind. eapply (wp_adopt own m0 s _ b a1); [own H | done | done |]. clear s H. intros s H.
    apply wp_bind. eapply (wp_load1 own m0 s _ a); [own H |]. rewrite Hr.
    assert (Hp : rootp a1 k1 = ptr (plug (N c1 x a1 s1) k1)) by (by rewrite ptr_plug).
    apply wp_bind. eapply (wp_set_kid own m0 R _ _ b); [own H |]. clear s H. intros s H.
    cbn [with_kid with_right cell rb_parent_color rb_left] in H.
    apply wp_bind. eapply (wp_load1 own m0 s _ b); [own H |]. cbn [rb_right].
    rewrite Hp in *.
    assert (Ht : At s r (nodes a (plug (N c1 x a1 s1) k1) ++ (a, ca) ::
        (b, cell L a1 cs 0 (ptr (plug (N c1 x a1 s1) k1))) :: K)).
    { rewrite nodes_plug_at. cbn [nodes ptr]. own_all H. }
    apply wp_bind. destruct (plug (N c1 x a1 s1) k1) as [| c2 l2 a2 r2] eqn:Hpl.
    { by destruct (plug_nonempty (N c1 x a1 s1) k1). }
    cbn [nodes ptr] in *. eapply (wp_set_parent own m0 s _ a2 L); [own Ht | done | done |].
    clear s H Ht. intros s H. apply wp_ret. eapply (HQ s a1); [done |]. cbn [mk]. rewrite Hpl. own_all H.
Qed.

(** The successor takes over the removed node's parent, colour and left child. *)
Lemma attach_ok {X} s a b c cs q l r' w k (res : X) (Q : X -> rb_tree -> Prop) :
  At s (rootp a k) ((a, cell L (top k) c (ptr l) w) :: (b, cell L q cs 0 (ptr r')) ::
    nodes b r' ++ nodes a l ++ cnodes a k) ->
  l <> E -> (forall s', Tree s' (plug (N c l b r') k) -> Q res s') ->
  wp (nd ← load a;
      _ ← replace_child (rb_parent nd) a b;
      nd ← load a;
      sn ← load b;
      _ ← store b (set_pc sn (rb_parent_color nd));
      nd ← load a;
      _ ← set_left b (rb_left nd);
      sn ← load b;
      _ ← rb_set_parent (rb_left sn) b;
      mret res) s Q.
Proof.
  intros H Hl HQ. assert (Hk : Z.Even (top k)) by (eapply (even_top _ _ _ _ a); own H).
  assert (Ha : Z.Even a) by (eapply At_even; own H).
  assert (Hb : Z.Even b) by (eapply (At_even _ _ _ _ b); own H).
  apply wp_bind. eapply (wp_load1 own m0 s _ a); [own H |]. rewrite parent_cell by done.
  apply wp_bind. eapply (wp_relink own m0 L s a b k); [own H | cbn; set_solver |]. clear s H. intros s H.
  apply wp_bind. eapply (wp_load1 own m0 s _ a); [own H |]. rewrite pc_cell.
  apply wp_bind. eapply (wp_load1 own m0 s _ b); [own H |]. rewrite set_pc_cell.
  apply wp_bind. eapply (wp_store own m0 s _ b); [own H |]. clear s H. intros s H.
  apply wp_bind. eapply (wp_load1 own m0 s _ a); [own H |]. cbn [cell rb_left].
  apply wp_bind. eapply (wp_set_kid own m0 L _ _ b); [own H |]. clear s H. intros s H.
  rewrite with_kid_cell in H.
  apply wp_bind. eapply (wp_load1 own m0 s _ b); [own H |]. cbn [cell rb_left].
  destruct l as [| cl ll al lr]; [done |]. cbn [ptr] in *. cbn [nodes] in H.
  apply wp_bind. eapply (wp_set_parent own m0 s _ al L); [own H | done | done |]. clear s H. intros s H.
  apply wp_ret, HQ. change (N c (N cl ll al lr) b r') with (mk L c (N cl ll al lr) b r'). apply Tree_focus.
  apply (At_sub _ _ _ _ [(a, cell L (top k) c al w)]). cbn [nodes ptr]. own_all H.
Qed.

Lemma erase_two_ok s c l a r k n (Q : Z * Z * Z -> rb_tree -> Prop) :
  Tree s (plug (N c l a r) k) -> rbt Black n (plug (N c l a r) k) -> l <> E -> r <> E ->
  (forall res s', unlinked (bef k ++ inorder l ++ inorder r ++ aft k) res s' -> Q res s') ->
  wp (rb_erase_two a (cell L (top k) c (ptr l) (ptr r))) s Q.
Proof.
  intros H Hn Hl Hr HQ. unfold rb_erase_two. cbn [cell rb_right].
  destruct r as [| cr rl ar rr]; [done |]. cbn [ptr].
  apply wp_bind. eapply (leftmost_ok s cr rl ar rr (Fr R c a l :: k)); [exact H |].
  intros cs b x k1 Heq Hbef Hf.
  assert (Hp : ar = rootp b k1) by (apply (f_equal ptr) in Heq; by rewrite ptr_plug in Heq).
  rewrite Heq in *.
  assert (Ht : Tree s (plug (N cs E b x) (k1 ++ Fr R c a l :: k))) by (by rewrite plug_app).
  pose proof (top_even own m0 _ _ _ Ht) as Hev.
  apply wp_bind. eapply (wp_tload own m0 s L); [exact Ht |].
  rewrite color_cell, parent_cell by done. cbn [cell rb_right ptr].
  assert (Htop : forall y, top (k1 ++ Fr R c y l :: k) = topq k1 y) by (by destruct k1 as [| []]).
  rewrite !Htop.
  apply wp_bind. change (N c l a (plug (N cs E b x) k1)) with (mk L c l a (plug (N cs E b x) k1)) in H.
  apply Tree_focus in H. rewrite nodes_plug_at, ptr_plug in H. cbn [nodes ptr] in H.
  eapply (detach_ok s (rootp a k) a (cell L (top k) c (ptr l) (rootp b k1)) b cs x k1
    (nodes a l ++ cnodes a k)); [own_all H | done | done |].
  clear s H Ht. intros s q Hq H.
  eapply (attach_ok s a b c cs q l (plug x k1) (rootp b k1) k (ptr x, topq k1 b, bit cs)); [own_all H | done |].
  clear s H. intros s H. apply HQ.
  assert (Hpl : plug (N c l b (plug x k1)) k = plug x (k1 ++ Fr R c b l :: k)) by (by rewrite plug_app).
  assert (Hb : rbt Black n (plug (mk L cs E b x) (k1 ++ Fr R c a l :: k))) by (by rewrite plug_app).
  apply unplug_rbt in Hb as (c' & pc & m & Hm & Hk & _). pose proof Hm as [<- _]%rbt_mk_inv.
  rewrite <- (Htop b). rewrite Hpl in H.
  assert (Hord : bef k ++ inorder l ++ inorder (plug (N cs E b x) k1) ++ aft k =
                 inorder (plug x (k1 ++ Fr R c b l :: k))).
  { rewrite <- Hpl, !inorder_split. cbn [inorder]. rewrite !inorder_split, Hbef. by inorder_eq. }
  rewrite Hord. eapply unlink_spliced; [exact H | exact Hm | by eapply rctx_rename].
Qed.

Lemma ptr_tree s t k : Tree s (plug t k) -> t <> E -> (ptr t =? 0) = false.
Proof. intros H Hne. destruct t as [| c l a r]; [done |]. by apply (ptr_nonnull own m0 s L c l a r k). Qed.

Lemma unlink_fixup ord child parent color s (Q : () -> rb_tree -> Prop) :
  unlinked ord (child, parent, color) s ->
  (forall s' t n, Tree s' t -> rbt Black n t -> inorder t = ord -> Q () s') ->
  wp (when (color =? RB_BLACK) (rb_erase_fixup child parent)) s Q.
Proof.
  intros (t & k & c & pc & m & H & [= -> -> ->] & Hk & Hord & Hc) HQ. destruct c; cbn.
  - destruct (plug_rbt _ _ _ _ _ Hc Hk) as [n Hn]; [done |]. apply wp_ret. by eapply HQ.
  - destruct Hc as (m' & c' & -> & Ht). eapply (erase_fixup_ok own m0 ord); [| | exact HQ].
    + exists t, k, m', pc. split_and!; [done | done | | done | done | reflexivity].
      unfold short. rewrite (rbt_color _ _ _ Ht). destruct c'; [| done]. inversion_clear Ht. by econstructor.
    + pose proof (tree_length own m0 _ _ H). pose proof (length_plug t k). unfold RB_STEPS.
      destruct (is_red t); lia.
Qed.

Lemma erase_ok s c l a r k n (Q : () -> rb_tree -> Prop) :
  Tree s (plug (N c l a r) k) -> rbt Black n (plug (N c l a r) k) ->
  (forall s' t n', Tree s' t -> rbt Black n' t -> inorder t = bef k ++ inorder l ++ inorder r ++ aft k -> Q () s') ->
  wp (rb_erase a) s Q.
Proof.
  intros H Hn HQ. unfold rb_erase. apply wp_bind. eapply (wp_tload own m0 s L); [exact H |].
  pose proof (top_even own m0 _ _ _ H) as Hev. rewrite parent_cell, color_cell by done.
  cbn [cell rb_left rb_right].
  apply wp_bind. eapply (wp_mono _ _ (unlinked (bef k ++ inorder l ++ inorder r ++ aft k)));
    [| intros [[child parent] co] s' Hu; by eapply unlink_fixup].
  pose proof (unplug_rbt _ _ _ Hn) as (c' & pc & m & Hm & Hk & _).
  pose proof (rbt_mk_inv L _ _ _ _ _ _ Hm) as [-> _].
  destruct (decide (l = E)) as [-> | Hl]; [| destruct (decide (r = E)) as [-> | Hr]].
  - cbn [ptr]. rewrite Z.eqb_refl.
    apply (Tree_focus own m0 s L) in H. cbn [nodes app] in H.
    eapply splice_ok; [exact H |]. intros s' H'. cbn [inorder app]. rewrite <- inorder_split.
    by eapply (unlink_spliced L).
  - destruct l as [| cl ll la lr]; [done |]. cbn [ptr].
    pose proof (ptr_nonnull own m0 s L cl ll la lr (Fr L c' a E :: k) H) as Hn0. rewrite Hn0, Z.eqb_refl.
    apply (Tree_focus own m0 s L) in H. cbn [nodes app] in H.
    pose proof (splice_ok s a _ (N cl ll la lr) k (la, top k, bit c') (unlinked
      (bef k ++ inorder (N cl ll la lr) ++ aft k)) H) as Hsp. cbn [ptr] in Hsp. rewrite Hn0 in Hsp.
    apply Hsp. intros s' H'. rewrite <- inorder_split.
    eapply (unlink_spliced R s' (N cl ll la lr)); [exact H' | exact Hm | exact Hk].
  - rewrite (ptr_tree s l (Fr L c' a r :: k) H Hl), (ptr_tree s r (Fr R c' a l :: k) H Hr).
    by eapply erase_two_ok.
Qed.
End Unlinking.

(** ** Height *)

Fixpoint height (t : tree) : Z :=
  match t with E => 0 | N _ l _ r => 1 + Z.max (height l) (height r) end.

Lemma height_nonneg t : 0 <= height t.
Proof. induction t; cbn; lia. Qed.

Lemma rbt_height c n t : rbt c n t -> height t <= 2 * Z.of_nat n + match c with Red => 1 | Black => 0 end.
Proof.
  induction 1 as [| n l a r Hl IHl Hr IHr | n cl cr l a r Hl IHl Hr IHr]; cbn [height]; [lia | lia |].
  destruct cl, cr; lia.
Qed.

Lemma rbt_size c n t : rbt c n t -> 2 ^ Z.of_nat n <= Z.of_nat (length (inorder t)) + 1.
Proof.
  induction 1 as [| n l a r Hl IHl Hr IHr | n cl cr l a r Hl IHl Hr IHr]; cbn [inorder];
    rewrite ?length_app; cbn [length]; [done | lia |].
  replace (Z.of_nat (S n)) with (Z.of_nat n + 1) by lia. rewrite Z.pow_add_r by lia. lia.
Qed.

Lemma height_log n t : rbt Black n t -> height t <= 2 * Z.log2 (Z.of_nat (length (inorder t)) + 1).
Proof.
  intros H. apply rbt_height in H as Hh. apply rbt_size in H.
  apply Z.log2_le_mono in H. rewrite Z.log2_pow2 in H by lia. lia.
Qed.

(** ** Well-formed trees *)

(** The memory holds the red-black tree [t], ordered by [cmp]. *)
Definition rb_wf (cmp : Z -> Z -> Z) (s : rb_tree) (t : tree) : Prop :=
  holds_tree s t /\ (exists n, rbt Black n t) /\ sorted cmp (inorder t).

(** The memory is the same outside the addresses [l]. *)
Definition same_outside (l : list Z) (s s' : rb_tree) : Prop :=
  forall a, a ∉ l -> mem s' !! a = mem s !! a.

Lemma Tree_holds own m0 s t : Tree own m0 s t -> holds_tree s t.
Proof.
  intros [? Hnd Ha ? Hm ?]. constructor; [done | by rewrite <- (nodes_fst 0) | by rewrite <- (nodes_fst 0) | done].
Qed.

Lemma holds_Tree s t : holds_tree s t -> Tree (fun a => a ∈ inorder t) (mem s) s t.
Proof.
  intros [? Hnd Ha Hm]. constructor; [done | by rewrite nodes_fst | by rewrite nodes_fst | | done | done].
  rewrite nodes_fst. by apply Forall_forall.
Qed.

Lemma holds_At s t node n0 : holds_tree s t -> node ∉ inorder t -> node_addr node -> mem s !! node = Some n0 ->
  At (fun a => a ∈ node :: inorder t) (mem s) s (ptr t) ((node, n0) :: nodes 0 t).
Proof.
  intros [? Hnd Ha Hm] Hni Hna Hn. constructor; cbn.
  - done.
  - constructor; [by rewrite nodes_fst | by rewrite nodes_fst].
  - constructor; [done | by rewrite nodes_fst].
  - constructor; [by left |]. rewrite nodes_fst. apply Forall_forall. intros. by right.
  - intros a n Hin. apply elem_of_cons in Hin as [[= -> ->] | Hin]; [done | by apply Hm].
  - done.
Qed.

Lemma Tree_same l m0 s s' t : Tree (fun a => a ∈ l) m0 s' t -> m0 = mem s -> same_outside l s s'.
Proof. intros H -> a Ha. by apply (at_frame _ _ _ _ _ H). Qed.

(** Every element is the root of a subtree. *)
Lemma find_focus t a : a ∈ inorder t -> exists c l r k, t = plug (N c l a r) k.
Proof.
  assert (Hgen : forall k, a ∈ inorder t -> exists c l r k', plug t k = plug (N c l a r) k').
  { induction t as [| c l IHl b r IHr]; intros k Hin; cbn in Hin; [set_solver |].
    apply elem_of_app in Hin as [Hin | Hin]; [by apply (IHl (Fr L c b r :: k)) |].
    apply elem_of_cons in Hin as [-> | Hin]; [by exists c, l, r, k | by apply (IHr (Fr R c b l :: k))]. }
  apply (Hgen []).
Qed.

Lemma nodup_split {A} (x : A) l1 l2 l1' l2' :
  NoDup (l1 ++ x :: l2) -> l1 ++ x :: l2 = l1' ++ x :: l2' -> l1 = l1' /\ l2 = l2'.
Proof.
  revert l1'. induction l1 as [| y l1 IH]; intros [| z l1'] Hnd Heq; cbn in *.
  - by injection Heq.
  - injection Heq as <- ->. apply NoDup_cons in Hnd as [Hni _]. set_solver.
  - injection Heq as -> <-. apply NoDup_cons in Hnd as [Hni _]. set_solver.
  - injection Heq as <- Heq. apply NoDup_cons in Hnd as [_ Hnd]. destruct (IH _ Hnd Heq). by subst.
Qed.

(** C26. [rb_insert] on a well-formed tree never faults and always returns; the
    result is again a red-black tree with correct parent pointers, ordered by
    the comparison, whose in-order sequence is the old one with the node put
    after the elements that do not compare greater; no other memory changes. *)
Theorem rb_insert_correct cmp s t node :
  cmp_ok cmp -> rb_wf cmp s t -> node_addr node -> node ∉ inorder t -> is_Some (mem s !! node) ->
  exists s' t', rb_insert node cmp s = Some ((), s') /\ rb_wf cmp s' t' /\
    inorder t' = insert_sorted cmp node (inorder t) /\ same_outside (node :: inorder t) s s'.
Proof.
  intros Hcmp (Ht & [n Hn] & Hs) Ha Hni [n0 Hn0].
  pose proof (holds_At s t node n0 Ht Hni Ha Hn0) as H.
  edestruct (rb_insert_ok _ _ cmp Hcmp s t node n0 n (fun _ s' => exists t', rb_wf cmp s' t' /\
    inorder t' = insert_sorted cmp node (inorder t) /\ same_outside (node :: inorder t) s s') H Hn Hs)
    as ([] & s' & Hrun & t' & ?).
  - intros s' t' n' Ht' Hn' Hin Hs'. exists t'. split_and!; [| done | by eapply Tree_same].
    split_and!; [by eapply Tree_holds | by exists n' | done].
  - by exists s', t'.
Qed.

(** C9. [rb_erase] of a node of a well-formed tree never faults and always
    returns; the result is again an ordered red-black tree with correct parent
    pointers, whose in-order sequence is the old one without the node; memory
    outside the tree does not change. *)
Theorem rb_erase_correct cmp s t node l1 l2 :
  rb_wf cmp s t -> inorder t = l1 ++ node :: l2 ->
  exists s' t', rb_erase node s = Some ((), s') /\ rb_wf cmp s' t' /\
    inorder t' = l1 ++ l2 /\ same_outside (inorder t) s s'.
Proof.
  intros (Ht & [n Hn] & Hs) Heq. pose proof (holds_Tree _ _ Ht) as H.
  destruct (find_focus t node) as (c & l & r & k & Hpl); [rewrite Heq; set_solver |].
  assert (l1 = bef k ++ inorder l /\ l2 = inorder r ++ aft k) as [Hl1 Hl2].
  { apply (nodup_split node); [rewrite <- Heq; by destruct Ht |]. rewrite <- Heq, Hpl, inorder_split. by inorder_eq. }
  assert (Hord : bef k ++ inorder l ++ inorder r ++ aft k = l1 ++ l2) by (subst l1 l2; by inorder_eq).
  assert (Hs' : sorted cmp (l1 ++ l2)).
  { rewrite Heq in Hs. apply sorted_app in Hs as (? & Hs2 & Hf). inversion_clear Hs2. apply sorted_app.
    split_and!; [done | done |]. eapply Forall_impl; [exact Hf |]. intros e He. by inversion He. }
  rewrite Hpl in H, Hn.
  edestruct (erase_ok _ _ s c l node r k n (fun _ s' => exists t', rb_wf cmp s' t' /\
    inorder t' = l1 ++ l2 /\ same_outside (inorder t) s s') H Hn) as ([] & s' & Hrun & t' & ?).
  - intros s' t' n' Ht' Hn' Hin. rewrite Hord in Hin. exists t'. split_and!; [| done | rewrite Hpl; by eapply Tree_same].
    split_and!; [by eapply Tree_holds | by exists n' | by rewrite Hin].
  - by exists s', t'.
Qed.

Section Searching.
Context (cmp : Z -> Z -> Z) (Hcmp : cmp_ok cmp) (key : Z).

(** The elements passed on the way down do not match the key. *)
Definition excluded (k : list frame) : Prop :=
  Forall (fun y => 0 < cmp key y) (bef k) /\ Forall (fun y => cmp key y < 0) (aft k).

Lemma excluded_left k c l a r :
  sorted cmp (inorder (plug (N c l a r) k)) -> excluded k -> cmp key a < 0 -> excluded (Fr L c a r :: k).
Proof.
  intros Hs [Hb Ha] Hlt. split; [done |]. cbn. constructor; [done |]. apply Forall_app. split; [| done].
  destruct (sorted_focus _ _ _ _ _ _ Hs) as [_ Hf]. eapply Forall_impl; [exact Hf |]. intros e He.
  by eapply (cmp_lt_le cmp Hcmp).
Qed.

Lemma excluded_right k c l a r :
  sorted cmp (inorder (plug (N c l a r) k)) -> excluded k -> 0 < cmp key a -> excluded (Fr R c a l :: k).
Proof.
  intros Hs [Hb Ha] Hgt. split; [| done]. cbn. apply Forall_app. split; [done |].
  apply Forall_app. split; [| by constructor].
  destruct (sorted_focus _ _ _ _ _ _ Hs) as [Hf _]. eapply Forall_impl; [exact Hf |]. intros e He. cbn in *.
  destruct (Z.ltb_spec 0 (cmp key e)); [done |]. exfalso.
  pose proof (cmp_trans cmp Hcmp key e a). lia.
Qed.

Definition found (t : tree) (r : Z) : Prop :=
  (r <> 0 -> r ∈ inorder t /\ cmp key r = 0) /\ (r = 0 -> Forall (fun e => cmp key e <> 0) (inorder t)).

Lemma search_ok own m0 s t0 steps :
  Tree own m0 s t0 -> sorted cmp (inorder t0) -> height t0 < 2 ^ Z.of_nat steps ->
  wp (rb_search_loop steps key cmp (ptr t0)) s (fun r s' => s' = s /\ found t0 r).
Proof.
  intros H Hs Hh. unfold rb_search_loop.
  eapply (wp_ploop (fun rank p s' => s' = s /\ exists t k, t0 = plug t k /\ p = ptr t /\ excluded k /\
    rank = height t)); [| split; [done |]; exists t0, []; split_and!; [done | done | by split; constructor | reflexivity] | done].
  intros rank p s' (-> & t & k & -> & -> & Hk & ->).
  destruct t as [| c l a r]; cbn [ptr].
  - apply wp_ret. split; [done |]. split; [done |]. intros _. rewrite inorder_split. destruct Hk as [Hb Ha].
    apply Forall_app. split; [eapply Forall_impl; [exact Hb |] | eapply Forall_impl; [exact Ha |]]; cbn; lia.
  - pose proof (ptr_nonnull own m0 s L c l a r k H) as Hnz. rewrite Hnz. pose proof (height_nonneg l).
    pose proof (height_nonneg r).
    apply wp_bind. eapply (wp_tload own m0 s L); [exact H |]. cbn [cell rb_left rb_right].
    destruct (Z.ltb_spec (cmp key a) 0) as [Hlt | Hge]; [| destruct (Z.ltb_spec 0 (cmp key a)) as [Hgt | Hle]]; apply wp_ret.
    + exists (height l). split; [| cbn; lia]. split; [done |]. exists l, (Fr L c a r :: k).
      split_and!; [done | done | by eapply excluded_left | done].
    + exists (height r). split; [| cbn; lia]. split; [done |]. exists r, (Fr R c a l :: k).
      split_and!; [done | done | by eapply excluded_right | done].
    + split; [done |]. split; [| apply Z.eqb_neq in Hnz; intros ->; done]. intros _. split; [| lia].
      rewrite inorder_split. cbn. set_solver.
Qed.
End Searching.

(** [rb_search] on a well-formed tree returns an element that compares
    equal to the key when there is one and NULL otherwise, without changing
    anything, and visits at most [2 * log2 (n + 1)] of the [n] nodes: a loop
    allowed that many iterations already gives the result. *)
Theorem rb_search_correct cmp s t key :
  cmp_ok cmp -> rb_wf cmp s t ->
  exists r, rb_search key cmp s = Some (r, s) /\
    (r <> 0 -> r ∈ inorder t /\ cmp key r = 0) /\
    (r = 0 -> Forall (fun e => cmp key e <> 0) (inorder t)) /\
    forall steps, 2 * Z.log2 (Z.of_nat (length (inorder t)) + 1) < 2 ^ Z.of_nat steps ->
      exists r', rb_search_loop steps key cmp (rb_root s) s = Some (r', s) /\
        (r' = 0 <-> r = 0).
Proof.
  intros Hcmp (Ht & [n Hn] & Hs). pose proof (holds_Tree _ _ Ht) as H.
  pose proof (height_log _ _ Hn) as Hlog. pose proof (tree_length _ _ _ _ H) as Hlen.
  assert (Hb : height t < 2 ^ Z.of_nat RB_STEPS).
  { eapply Z.le_lt_trans; [exact Hlog |].
    assert (Z.log2 (Z.of_nat (length (inorder t)) + 1) <= 64) by (change 64 with (Z.log2 (2 ^ 64)); apply Z.log2_le_mono; lia).
    unfold RB_STEPS. lia. }
  destruct (search_ok cmp Hcmp key _ _ s t _ H Hs Hb) as (r & s' & Hrun & -> & Hf1 & Hf2).
  exists r. split_and!; [| done | done |].
  - unfold rb_search, mbind, prog_bind, get_root. by rewrite (ht_root _ _ Ht).
  - intros steps Hst. rewrite (ht_root _ _ Ht).
    destruct (search_ok cmp Hcmp key _ _ s t steps H Hs) as (r' & s'' & Hrun' & -> & Hg1 & Hg2); [lia |].
    exists r'. split; [done |]. split; intros Hz.
    + destruct (Z.eq_dec r 0) as [| Hr]; [done |]. destruct (Hf1 Hr) as [Hin He].
      specialize (Hg2 Hz). rewrite Forall_forall in Hg2. by destruct (Hg2 r Hin).
    + destruct (Z.eq_dec r' 0) as [| Hr]; [done |]. destruct (Hg1 Hr) as [Hin He].
      specialize (Hf2 Hz). rewrite Forall_forall in Hf2. by destruct (Hf2 r' Hin).
Qed.

(** ** Concrete trees *)

(** Comparison by address, as [ep_cmp] and [inotify_index_cmp] compare the
    pointers they index. *)
Definition addr_cmp (a b : Z) : Z := if a <? b then -1 else if b <? a then 1 else 0.

Lemma addr_cmp_ok : cmp_ok addr_cmp.
Proof.
  unfold addr_cmp. split; intros.
  - destruct (Z.ltb_spec a b), (Z.ltb_spec b a); lia.
  - destruct (Z.ltb_spec a b), (Z.ltb_spec b a), (Z.ltb_spec b c), (Z.ltb_spec c b),
      (Z.ltb_spec a c), (Z.ltb_spec c a); lia.
Qed.

Definition raw_node : rb_node := RbNode 0 0 0.

(** Nodes 16, 32, .., 96, of which the first five are linked. *)
Definition demo_empty : rb_tree :=
  RbTree (list_to_map ((fun a => (a, raw_node)) <$> [16; 32; 48; 64; 80; 96])) 0.

Definition demo_tree : tree :=
  N Black (N Black E 16 E) 32 (N Black (N Red E 48 E) 64 (N Red E 80 E)).

Definition demo_build : option (() * rb_tree) :=
  (_ ← rb_insert 16 addr_cmp; _ ← rb_insert 32 addr_cmp; _ ← rb_insert 48 addr_cmp;
   _ ← rb_insert 64 addr_cmp; rb_insert 80 addr_cmp) demo_empty.

Definition demo_state : rb_tree := match demo_build with Some (_, s) => s | None => demo_empty end.

Lemma rb_demo_wf : rb_wf addr_cmp demo_state demo_tree.
Proof.
  split_and!.
  - constructor.
    + vm_compute. reflexivity.
    + apply (bool_decide_unpack _). vm_compute. exact I.
    + rewrite Forall_forall. intros a Hin. cbn in Hin. elem_inv; (split; [lia | by apply Z.even_spec]).
    + intros a n Hin. cbn in Hin. elem_inv; injection Hin as -> ->; vm_compute; reflexivity.
  - exists 2%nat. repeat econstructor.
  - repeat constructor; vm_compute; discriminate.
Qed.

Lemma rb_insert_correct_witness : exists s' t', rb_insert 96 addr_cmp demo_state = Some ((), s') /\
  rb_wf addr_cmp s' t' /\ inorder t' = [16; 32; 48; 64; 80; 96].
Proof.
  destruct (rb_insert_correct addr_cmp demo_state demo_tree 96) as (s' & t' & H1 & H2 & H3 & _).
  - exact addr_cmp_ok.
  - exact rb_demo_wf.
  - split; [lia | by apply Z.even_spec].
  - apply (bool_decide_unpack _). vm_compute. exact I.
  - vm_compute. by eexists.
  - exists s', t'. split; [exact H1 |]. split; [exact H2 |]. rewrite H3. vm_compute. reflexivity.
Defined.

Lemma rb_erase_correct_witness : exists s' t', rb_erase 32 demo_state = Some ((), s') /\
  rb_wf addr_cmp s' t' /\ inorder t' = [16; 48; 64; 80].
Proof.
  destruct (rb_erase_correct addr_cmp demo_state demo_tree 32 [16] [48; 64; 80]) as (s' & t' & H1 & H2 & H3 & _).
  - exact rb_demo_wf.
  - vm_compute. reflexivity.
  - exists s', t'. split; [exact H1 |]. split; [exact H2 | exact H3].
Defined.

Lemma rb_search_correct_witness : exists r, rb_search 48 addr_cmp demo_state = Some (r, demo_state) /\
  (r <> 0 -> r ∈ inorder demo_tree /\ addr_cmp 48 r = 0).
Proof.
  destruct (rb_search_correct addr_cmp demo_state demo_tree 48 addr_cmp_ok rb_demo_wf) as (r & H1 & H2 & _).
  exists r. split; [exact H1 | exact H2].
Defined.

(** The parent a node's word names. *)
Definition parent_of (s : rb_tree) (a : Z) : option Z := rb_parent <$> mem s !! a.

(** [rb_replace] of a node with children leaves the children's parent
    words at the replaced node: the result is not a tree any more. *)
Theorem rb_replace_stale_parent :
  exists s', rb_replace 64 96 demo_state = Some ((), s') /\
    parent_of s' 48 = Some 64 /\ parent_of s' 80 = Some 64 /\ forall t, ~ holds_tree s' t.
Proof.
  destruct (rb_replace 64 96 demo_state) as [[[] s'] |] eqn:Hrun; [| vm_compute in Hrun; discriminate].
  exists s'. split; [done |].
  assert (H32 : rb_root s' = 32) by (vm_compute in Hrun; injection Hrun as <-; reflexivity).
  assert (Hr : rb_right <$> mem s' !! 32 = Some 96) by (vm_compute in Hrun; injection Hrun as <-; vm_compute; reflexivity).
  assert (Hl : rb_left <$> mem s' !! 96 = Some 48) by (vm_compute in Hrun; injection Hrun as <-; vm_compute; reflexivity).
  assert (Hp : parent_of s' 48 = Some 64) by (vm_compute in Hrun; injection Hrun as <-; vm_compute; reflexivity).
  assert (Hq : parent_of s' 80 = Some 64) by (vm_compute in Hrun; injection Hrun as <-; vm_compute; reflexivity).
  split; [exact Hp |]. split; [exact Hq |]. clear Hrun Hq. intros t [Hroot _ Haddr Hm]. rewrite H32 in Hroot.
  destruct t as [| c l a r]; cbn in Hroot; [done | subst a].
  rewrite (Hm 32 _ ltac:(by left)) in Hr. cbn in Hr. injection Hr as Hr.
  destruct r as [| c1 l1 a1 r1]; cbn in Hr; [done | subst a1].
  assert (Hm96 : forall a n, (a, n) ∈ nodes 32 (N c1 l1 96 r1) -> mem s' !! a = Some n).
  { intros a n Hin. apply Hm. cbn [nodes]. right. apply elem_of_app. by right. }
  rewrite (Hm96 96 _ ltac:(by left)) in Hl. cbn in Hl. injection Hl as Hl.
  destruct l1 as [| c2 l2 a2 r2]; cbn in Hl; [done | subst a2].
  unfold parent_of in Hp. rewrite (Hm96 48 (RbNode (pack 96 c2) (ptr r2) (ptr l2))) in Hp.
  - cbn in Hp. injection Hp as Hp. unfold rb_parent in Hp. cbn [rb_parent_color] in Hp.
    rewrite pack_high in Hp; [done | by apply Z.even_spec].
  - cbn. right. by left.
Qed.
