(* ===== verification/Vring.v ===== *)
(** * Split virtqueues (kernel/driver/virtio_ring.c)

    The descriptor table, the free list threaded through [next_free], the
    avail ring the driver fills and the used ring the device fills.  The
    device is an adversary: between two driver operations it may write
    anything into the memory it shares with the driver. *)
From S2P Require Import Prelude Bfc.

Definition VRING_MAX_SIZE : Z := 1024.
Definition VRING_DESC_F_NEXT : Z := 1.
Definition VRING_DESC_F_WRITE : Z := 2.
Definition VRING_DESC_F_INDIRECT : Z := 4.
Definition VRING_DESC_FREE : Z := 0.
Definition VRING_DESC_BUILDING : Z := 1.
Definition VRING_DESC_AVAILABLE : Z := 2.
Definition VRING_END : Z := 65535.  (* 0xFFFF, the end of the free list *)

Record vring_desc := VringDesc { d_addr : Z; d_len : Z; d_flags : Z; d_next : Z }.

(** [struct virtqueue].  The three rings are given by the page they start at
    and by their contents; an array that is a NULL pointer is []. *)
Record virtqueue := Virtqueue {
  vq_index : Z;
  vq_size : Z;
  notify_off : Z;
  desc_at : Bfc.ptr;
  avail_at : Bfc.ptr;
  used_at : Bfc.ptr;
  desc : list vring_desc;
  avail_ring : list Z;
  avail_hdr_idx : Z;           (* avail->idx *)
  used_ring : list (Z * Z);    (* id, len *)
  used_hdr_idx : Z;            (* used->idx, written by the device *)
  free_head : Z;
  free_cnt : Z;
  next_free : list Z;
  desc_state : list Z;
  desc_pages : Z;
  avail_pages : Z;
  used_pages : Z;
  avail_idx : Z;
  used_idx : Z;
  ctx : list Z;
  broken : bool;
}.

(** [__memset(vq, 0, sizeof( *vq))] *)
Definition vq_zero : virtqueue :=
  Virtqueue 0 0 0 None None None [] [] 0 [] 0 0 0 [] [] 0 0 0 0 0 [] false.

(** Field assignments. *)
Definition set_desc (v : list vring_desc) (q : virtqueue) : virtqueue :=
  Virtqueue (vq_index q) (vq_size q) (notify_off q) (desc_at q) (avail_at q) (used_at q) v
    (avail_ring q) (avail_hdr_idx q) (used_ring q) (used_hdr_idx q) (free_head q) (free_cnt q)
    (next_free q) (desc_state q) (desc_pages q) (avail_pages q) (used_pages q)
    (avail_idx q) (used_idx q) (ctx q) (broken q).
Definition set_free (h c : Z) (nf : list Z) (q : virtqueue) : virtqueue :=
  Virtqueue (vq_index q) (vq_size q) (notify_off q) (desc_at q) (avail_at q) (used_at q) (desc q)
    (avail_ring q) (avail_hdr_idx q) (used_ring q) (used_hdr_idx q) h c
    nf (desc_state q) (desc_pages q) (avail_pages q) (used_pages q)
    (avail_idx q) (used_idx q) (ctx q) (broken q).
Definition set_state (v : list Z) (q : virtqueue) : virtqueue :=
  Virtqueue (vq_index q) (vq_size q) (notify_off q) (desc_at q) (avail_at q) (used_at q) (desc q)
    (avail_ring q) (avail_hdr_idx q) (used_ring q) (used_hdr_idx q) (free_head q) (free_cnt q)
    (next_free q) v (desc_pages q) (avail_pages q) (used_pages q)
    (avail_idx q) (used_idx q) (ctx q) (broken q).
Definition set_ctx (v : list Z) (q : virtqueue) : virtqueue :=
  Virtqueue (vq_index q) (vq_size q) (notify_off q) (desc_at q) (avail_at q) (used_at q) (desc q)
    (avail_ring q) (avail_hdr_idx q) (used_ring q) (used_hdr_idx q) (free_head q) (free_cnt q)
    (next_free q) (desc_state q) (desc_pages q) (avail_pages q) (used_pages q)
    (avail_idx q) (used_idx q) v (broken q).
Definition set_avail (r : list Z) (i : Z) (q : virtqueue) : virtqueue :=
  Virtqueue (vq_index q) (vq_size q) (notify_off q) (desc_at q) (avail_at q) (used_at q) (desc q)
    r (avail_hdr_idx q) (used_ring q) (used_hdr_idx q) (free_head q) (free_cnt q)
    (next_free q) (desc_state q) (desc_pages q) (avail_pages q) (used_pages q)
    i (used_idx q) (ctx q) (broken q).
Definition set_avail_hdr (i : Z) (q : virtqueue) : virtqueue :=
  Virtqueue (vq_index q) (vq_size q) (notify_off q) (desc_at q) (avail_at q) (used_at q) (desc q)
    (avail_ring q) i (used_ring q) (used_hdr_idx q) (free_head q) (free_cnt q)
    (next_free q) (desc_state q) (desc_pages q) (avail_pages q) (used_pages q)
    (avail_idx q) (used_idx q) (ctx q) (broken q).
Definition set_used_idx (i : Z) (q : virtqueue) : virtqueue :=
  Virtqueue (vq_index q) (vq_size q) (notify_off q) (desc_at q) (avail_at q) (used_at q) (desc q)
    (avail_ring q) (avail_hdr_idx q) (used_ring q) (used_hdr_idx q) (free_head q) (free_cnt q)
    (next_free q) (desc_state q) (desc_pages q) (avail_pages q) (used_pages q)
    (avail_idx q) i (ctx q) (broken q).
Definition set_broken (q : virtqueue) : virtqueue :=
  Virtqueue (vq_index q) (vq_size q) (notify_off q) (desc_at q) (avail_at q) (used_at q) (desc q)
    (avail_ring q) (avail_hdr_idx q) (used_ring q) (used_hdr_idx q) (free_head q) (free_cnt q)
    (next_free q) (desc_state q) (desc_pages q) (avail_pages q) (used_pages q)
    (avail_idx q) (used_idx q) (ctx q) true.

(** ** Creation and destruction *)

Definition SIZE_MAX : Z := UINT64_MAX.
Definition UINT16_MAX : Z := 65535.

(** The sizes of the ring structures and elements in bytes. *)
Definition SIZEOF_DESC : Z := 16.
Definition SIZEOF_AVAIL : Z := 4.
Definition SIZEOF_USED : Z := 4.
Definition SIZEOF_USED_ELEM : Z := 8.

Definition checked_ring_size (size elem base : Z) : option (Z * Z) :=
  if (size =? 0) || (VRING_MAX_SIZE <? size) || negb (Z.land size (size - 1) =? 0)
     || ((SIZE_MAX - base) / size <? elem) then None
  else
    let bytes := u64 (base + size * elem) in
    if SIZE_MAX - 4095 <? bytes then None
    else
      let page_count := Z.shiftr (u64 (bytes + 4095)) 12 in
      if (page_count =? 0) || (UINT16_MAX <? page_count) then None
      else Some (bytes, u16 page_count).

(** The memory a virtqueue takes: pages from the page allocator and objects
    from [kmalloc], of which [live] are allocated; [oom] decides the next
    calls. *)
Record heap := Heap { hp_pages : bfc; live : Z; oom : oracle }.

Definition kmalloc_arr (n : nat) : prog heap bool := fun h =>
  let '(ok, o) := kmalloc_ok (oom h) in
  Some (ok, Heap (hp_pages h) (if ok then live h + 1 else live h) o).

Definition kfree_arr {A} (l : list A) : prog heap () := fun h =>
  match l with [] => Some ((), h) | _ => Some ((), Heap (hp_pages h) (live h - 1) (oom h)) end.

Definition bfc_alloc_page_data (n : Z) : prog heap Bfc.ptr := fun h =>
  r ← bfc_alloc_page (Z.to_nat n) (hp_pages h);
  Some (r.2, Heap r.1 (live h) (oom h)).

Definition bfc_free_page_data (data : Bfc.ptr) (n : Z) : prog heap () := fun h =>
  match data with
  | None => Some ((), h)
  | Some _ => r ← bfc_free_page data (Z.to_nat n) (hp_pages h); Some ((), Heap r.1 (live h) (oom h))
  end.

Definition vring_destroy (q : virtqueue) : prog heap virtqueue :=
  _ ← bfc_free_page_data (desc_at q) (desc_pages q);
  _ ← bfc_free_page_data (avail_at q) (avail_pages q);
  _ ← bfc_free_page_data (used_at q) (used_pages q);
  _ ← kfree_arr (next_free q);
  _ ← kfree_arr (ctx q);
  _ ← kfree_arr (desc_state q);
  mret vq_zero.

(** [next_free[i] = i + 1], the last one the end marker. *)
Definition free_chain (size : nat) : list Z :=
  (Z.of_nat <$> seq 1 (size - 1)) ++ [VRING_END].

Definition vring_create (index size notify : Z) : prog heap (Z * virtqueue) :=
  match checked_ring_size size SIZEOF_DESC 0 with
  | None => mret (- EINVAL, vq_zero)
  | Some (_, dp) =>
  match checked_ring_size size 2 SIZEOF_AVAIL with
  | None =>
      mret (- EINVAL, Virtqueue 0 0 0 None None None [] [] 0 [] 0 0 0 [] [] dp 0 0 0 0 [] false)
  | Some (_, ap) =>
  match checked_ring_size size SIZEOF_USED_ELEM SIZEOF_USED with
  | None =>
      mret (- EINVAL, Virtqueue 0 0 0 None None None [] [] 0 [] 0 0 0 [] [] dp ap 0 0 0 [] false)
  | Some (_, up) =>
  let n := Z.to_nat size in
  d ← bfc_alloc_page_data dp;
  a ← bfc_alloc_page_data ap;
  u ← bfc_alloc_page_data up;
  nf ← kmalloc_arr n;
  cx ← kmalloc_arr n;
  st ← kmalloc_arr n;
  let arr (ok : bool) (l : list Z) := if ok then l else [] in
  let q := Virtqueue index size notify d a u
    (replicate n (VringDesc 0 0 0 0)) (replicate n 0) 0 (replicate n (0, 0)) 0
    0 size (arr nf (free_chain n)) (arr st (replicate n VRING_DESC_FREE)) dp ap up 0 0
    (arr cx (replicate n 0)) false in
  if bool_decide (d = None) || bool_decide (a = None) || bool_decide (u = None)
     || negb nf || negb cx || negb st
  then q' ← vring_destroy q; mret (- ENOMEM, q')
  else mret (0, q)
  end end end.

(** The addresses given to the device. *)
Definition ring_phys (p : Bfc.ptr) : Z :=
  match p with Some i => Z.of_nat i * PAGE_SIZE | None => 0 end.

(** ** Descriptors *)

Definition vring_alloc_desc : prog virtqueue Z := fun q =>
  if (vq_size q =? 0) || (free_cnt q =? 0) || (vq_size q <=? free_head q) then Some (-1, q)
  else
    let idx := free_head q in
    st ← arr_get (desc_state q) idx;
    if negb (st =? VRING_DESC_FREE) then Some (-1, set_broken q)
    else
      h ← arr_get (next_free q) idx;
      ds ← arr_set (desc q) idx (VringDesc 0 0 0 0);
      ss ← arr_set (desc_state q) idx VRING_DESC_BUILDING;
      Some (idx, set_state ss (set_desc ds (set_free h (u16 (free_cnt q - 1)) (next_free q) q))).

Definition vring_free_desc (idx : Z) : prog virtqueue Z := fun q =>
  if (idx <? 0) || (vq_size q <=? idx) then Some (- EINVAL, set_broken q)
  else
    st ← arr_get (desc_state q) idx;
    if (st =? VRING_DESC_FREE) || (vq_size q <=? free_cnt q) then Some (- EINVAL, set_broken q)
    else
      ss ← arr_set (desc_state q) idx VRING_DESC_FREE;
      cs ← arr_set (ctx q) idx 0;
      nf ← arr_set (next_free q) idx (free_head q);
      Some (0, set_ctx cs (set_state ss (set_free (u16 idx) (u16 (free_cnt q + 1)) nf q))).

(** [while (allocated_count) vring_free_desc(vq, allocated[--allocated_count])],
    the latest one first. *)
Fixpoint free_descs (allocated : list Z) : prog virtqueue () :=
  match allocated with
  | [] => mret ()
  | i :: rest => _ ← vring_free_desc i; free_descs rest
  end.

Definition fill_desc (idx a l f : Z) : prog virtqueue () := fun q =>
  d ← arr_get (desc q) idx;
  ds ← arr_set (desc q) idx (VringDesc a l f (d_next d));
  Some ((), set_desc ds q).

(** The first loop of [vring_add_buf], with [n] iterations left; [None] when a
    descriptor could not be taken and the others were given back. *)
Fixpoint take_descs (n : nat) (i count : Z) (addrs lens flags : list Z) (allocated : list Z)
    : prog virtqueue (option (list Z)) :=
  match n with
  | O => mret (Some allocated)
  | S n' =>
      idx ← vring_alloc_desc;
      if idx <? 0 then _ ← free_descs (rev allocated); mret None
      else
        a ← (fun q => x ← arr_get addrs i; Some (x, q));
        l ← (fun q => x ← arr_get lens i; Some (x, q));
        f ← (fun q => x ← arr_get flags i; Some (x, q));
        let f := Z.land f (Z.lor VRING_DESC_F_WRITE VRING_DESC_F_INDIRECT) in
        _ ← fill_desc idx a l (if i + 1 <? count then Z.lor f VRING_DESC_F_NEXT else f);
        take_descs n' (i + 1) count addrs lens flags (allocated ++ [u16 idx])
  end.

Definition set_next (idx nx : Z) : prog virtqueue () := fun q =>
  d ← arr_get (desc q) idx;
  ds ← arr_set (desc q) idx (VringDesc (d_addr d) (d_len d) (d_flags d) nx);
  Some ((), set_desc ds q).

Definition set_available (idx : Z) : prog virtqueue () := fun q =>
  ss ← arr_set (desc_state q) idx VRING_DESC_AVAILABLE; Some ((), set_state ss q).

(** The second loop: chain the descriptors and hand them to the device. *)
Fixpoint link_descs (allocated : list Z) : prog virtqueue () :=
  match allocated with
  | [] => mret ()
  | idx :: rest =>
      _ ← (match rest with nx :: _ => set_next idx nx | [] => mret () end);
      _ ← set_available idx;
      link_descs rest
  end.

(** Publish [head] with its context in the avail ring. *)
Definition publish (head c : Z) : prog virtqueue Z := fun q =>
  cs ← arr_set (ctx q) head c;
  r ← arr_set (avail_ring q) (avail_idx q mod vq_size q) head;
  Some (head, set_avail r (u16 (avail_idx q + 1)) (set_ctx cs q)).

Definition vring_add_buf (addrs lens flags : list Z) (count c : Z) : prog virtqueue Z := fun q =>
  if (count <=? 0) || (vq_size q <? count) || (free_cnt q <? count) || broken q then Some (-1, q)
  else
    (res ← take_descs (Z.to_nat count) 0 count addrs lens flags [];
     match res with
     | None => mret (-1)
     | Some allocated =>
         _ ← link_descs allocated;
         head ← (fun q => x ← arr_get allocated 0; Some (x, q));
         publish head c
     end) q.

Definition vring_kick : prog virtqueue () := fun q => Some ((), set_avail_hdr (avail_idx q) q).

(** ** Completions *)

Definition vring_has_used : prog virtqueue bool := fun q =>
  if broken q then Some (false, q)
  else if vq_size q <? u16 (used_hdr_idx q - used_idx q) then Some (false, set_broken q)
  else Some (negb (used_hdr_idx q =? used_idx q), q).

(** The walk over one chain, at most [fuel] descriptors: [inl true] when it
    ended, [inl false] when it left the table or ran too long, [inr] an error
    return. *)
Fixpoint walk_chain (fuel : nat) (cur : Z) : prog virtqueue (bool + Z) := fun q =>
  match fuel with
  | O => Some (inl false, q)
  | S fuel' =>
      if (cur <? 0) || (vq_size q <=? cur) then Some (inl false, q)
      else
        st ← arr_get (desc_state q) cur;
        if negb (st =? VRING_DESC_AVAILABLE) then Some (inr (- EPROTO), set_broken q)
        else
          d ← arr_get (desc q) cur;
          if has_flag (d_flags d) VRING_DESC_F_NEXT && ((d_next d <? 0) || (vq_size q <=? d_next d))
          then Some (inr (- EPROTO), set_broken q)
          else
            (rc ← vring_free_desc cur;
             if negb (rc =? 0) then mret (inr (- EPROTO))
             else if negb (has_flag (d_flags d) VRING_DESC_F_NEXT) then mret (inl true)
             else walk_chain fuel' (d_next d)) q
  end.

Section Poll.
(** The driver's callback: it runs on the queue and on the driver's own state,
    and may post new buffers. *)
Context {A : Type} (callback : option (Z -> Z -> prog (virtqueue * A) ())).

Definition on_queue {X} (m : prog virtqueue X) : prog (virtqueue * A) X := fun w =>
  match m w.1 with Some (x, q) => Some (x, (q, w.2)) | None => None end.

(** One element of the used ring: [inl tt] to go on, [inr] an error return. *)
Definition poll_one : prog (virtqueue * A) (() + Z) :=
  e ← on_queue (fun q => x ← arr_get (used_ring q) (used_idx q mod vq_size q); Some (x, q));
  let '(desc_id, len) := e in
  q ← on_queue (fun q => Some (q, q));
  if vq_size q <=? desc_id then on_queue (fun q => Some (inr (- EPROTO), set_broken q)) else
  st ← on_queue (fun q => x ← arr_get (desc_state q) desc_id; Some (x, q));
  if negb (st =? VRING_DESC_AVAILABLE) then on_queue (fun q => Some (inr (- EPROTO), set_broken q)) else
  c ← on_queue (fun q => x ← arr_get (ctx q) desc_id; Some (x, q));
  r ← on_queue (walk_chain (Z.to_nat (vq_size q)) (s32 desc_id));
  match r with
  | inr rc => mret (inr rc)
  | inl false => on_queue (fun q => Some (inr (- EPROTO), set_broken q))
  | inl true =>
      _ ← (match callback with Some f => f c len | None => mret () end);
      on_queue (fun q => Some (inl (), set_used_idx (u16 (used_idx q + 1)) q))
  end.

Fixpoint poll_loop (pending : nat) (completions budget : Z) : prog (virtqueue * A) Z :=
  match pending with
  | O => mret completions
  | S p =>
      if budget <=? completions then mret completions
      else
        r ← poll_one;
        match r with
        | inr rc => mret rc
        | inl _ => poll_loop p (completions + 1) budget
        end
  end.

Definition vring_poll_used_budget (budget : Z) : prog (virtqueue * A) Z := fun w =>
  let q := w.1 in
  if broken q || (budget =? 0) then Some (0, w)
  else
    let pending := u16 (used_hdr_idx q - used_idx q) in
    if vq_size q <? pending then Some (- EPROTO, (set_broken q, w.2))
    else poll_loop (Z.to_nat pending) 0 budget w.

Definition vring_poll_used : prog (virtqueue * A) Z := fun w =>
  vring_poll_used_budget (vq_size w.1) w.
End Poll.

(** ** The free list *)

(** [chain nf h fl]: following [nf] from [h] visits [fl] and stops. *)
Fixpoint chain (nf : list Z) (h : Z) (fl : list Z) : Prop :=
  match fl with
  | [] => h = VRING_END
  | i :: fl' => h = i /\ exists n, arr_get nf i = Some n /\ chain nf n fl'
  end.

(** The free descriptors are exactly the list [fl], in this order. *)
Record vq_inv (fl : list Z) (q : virtqueue) : Prop := {
  vi_size : 0 < vq_size q <= VRING_MAX_SIZE;
  vi_desc : Z.of_nat (length (desc q)) = vq_size q;
  vi_avail : Z.of_nat (length (avail_ring q)) = vq_size q;
  vi_used : Z.of_nat (length (used_ring q)) = vq_size q;
  vi_next : Z.of_nat (length (next_free q)) = vq_size q;
  vi_states : Z.of_nat (length (desc_state q)) = vq_size q;
  vi_ctx : Z.of_nat (length (ctx q)) = vq_size q;
  vi_chain : chain (next_free q) (free_head q) fl;
  vi_nodup : NoDup fl;
  vi_range : Forall (fun i => 0 <= i < vq_size q) fl;
  vi_free : forall i, 0 <= i < vq_size q -> (arr_get (desc_state q) i = Some VRING_DESC_FREE <-> i ∈ fl);
  vi_cnt : free_cnt q = Z.of_nat (length fl);
  vi_uidx : 0 <= used_idx q < 2 ^ 16;
}.

Lemma chain_head nf h fl : chain nf h fl -> h = match fl with [] => VRING_END | i :: _ => i end.
Proof. by destruct fl as [| i fl]; [| intros [-> _]]. Qed.

Lemma chain_insert nf h fl i v : i ∉ fl -> 0 <= i -> chain nf h fl -> chain (<[Z.to_nat i := v]> nf) h fl.
Proof.
  revert h. induction fl as [| j fl IH]; intros h Hi H0; [done |]. cbn.
  intros (-> & n & Hn & Hc). apply not_elem_of_cons in Hi as [Hij Hi]. split; [done |].
  exists n. split; [by rewrite arr_get_insert_ne |]. by apply IH.
Qed.

(** A table of [n] entries has at most [n] distinct indices. *)
Lemma range_length l n i : NoDup l -> Forall (fun j => 0 <= j < n) l -> 0 <= i < n -> i ∉ l ->
  Z.of_nat (length l) < n.
Proof.
  intros Hnd Hr Hi Hni. assert (Hsub : i :: l ⊆+ seqZ 0 n).
  { apply NoDup_submseteq; [by constructor |]. intros j Hj. apply elem_of_seqZ.
    apply elem_of_cons in Hj as [-> | Hj]; [lia |]. rewrite Forall_forall in Hr. specialize (Hr j Hj). lia. }
  apply submseteq_length in Hsub. rewrite length_seqZ in Hsub. cbn in Hsub. lia.
Qed.

(** What [q'] has in common with [q] when only the descriptors [l] and the
    free list were touched. *)
Record upto (l : list Z) (q q' : virtqueue) : Prop := {
  up_index : vq_index q' = vq_index q;
  up_size : vq_size q' = vq_size q;
  up_avail : avail_ring q' = avail_ring q;
  up_avail_hdr : avail_hdr_idx q' = avail_hdr_idx q;
  up_avail_idx : avail_idx q' = avail_idx q;
  up_used : used_ring q' = used_ring q;
  up_used_hdr : used_hdr_idx q' = used_hdr_idx q;
  up_used_idx : used_idx q' = used_idx q;
  up_broken : broken q' = broken q;
  up_desc : forall i, i ∉ l -> arr_get (desc q') i = arr_get (desc q) i;
  up_state : forall i, i ∉ l -> arr_get (desc_state q') i = arr_get (desc_state q) i;
  up_ctx : forall i, i ∉ l -> arr_get (ctx q') i = arr_get (ctx q) i;
}.

Lemma upto_refl l q : upto l q q.
Proof. by constructor. Qed.

Lemma upto_trans l1 l2 q q1 q2 : upto l1 q q1 -> upto l2 q1 q2 -> upto (l1 ++ l2) q q2.
Proof.
  intros H1 H2.
  constructor; try (destruct H1, H2; congruence); intros i [Hi1 Hi2]%not_elem_of_app.
  - by rewrite (up_desc _ _ _ H2), (up_desc _ _ _ H1).
  - by rewrite (up_state _ _ _ H2), (up_state _ _ _ H1).
  - by rewrite (up_ctx _ _ _ H2), (up_ctx _ _ _ H1).
Qed.

Lemma upto_weaken l l' q q' : upto l q q' -> l ⊆ l' -> upto l' q q'.
Proof. intros H Hs. destruct H. constructor; try done; intros i Hi; eauto. Qed.

(** ** One descriptor *)

Definition blank : vring_desc := VringDesc 0 0 0 0.

Lemma alloc_desc_ok i fl q : vq_inv (i :: fl) q ->
  exists q', vring_alloc_desc q = Some (i, q') /\ vq_inv fl q' /\ upto [i] q q' /\
    arr_get (desc q') i = Some blank /\ arr_get (desc_state q') i = Some VRING_DESC_BUILDING /\ ctx q' = ctx q.
Proof.
  intros H. pose proof H as [Hs Hd Ha Hu Hn Hst Hc Hch Hnd Hr Hf Hcnt Hui].
  apply Forall_cons in Hr as [Hi Hr]. apply NoDup_cons in Hnd as [Hni Hnd].
  destruct Hch as (Hh & n & Hget & Hch). pose proof (range_length _ _ _ Hnd Hr Hi Hni) as Hlen.
  assert (Hfree : arr_get (desc_state q) i = Some VRING_DESC_FREE) by (apply Hf; [done | by left]).
  unfold vring_alloc_desc. rewrite Hh, Hcnt. cbn [length].
  rewrite (proj2 (Z.eqb_neq (vq_size q) 0)), (proj2 (Z.eqb_neq _ 0)), (proj2 (Z.leb_gt _ i)) by lia. cbn [orb].
  rewrite Hfree. cbn [mbind option_bind]. rewrite Hget. cbn [mbind option_bind negb Z.eqb].
  rewrite !arr_set_Some by lia. cbn [mbind option_bind].
  eexists. split; [done |]. unfold VRING_MAX_SIZE in *. split; [| split].
  - constructor; cbn; rewrite ?length_insert; try done.
    + intros j Hj. destruct (decide (i = j)) as [<- | Hne].
      * rewrite arr_get_insert_eq by lia. split; [by intros [=] | done].
      * rewrite arr_get_insert_ne by lia. rewrite Hf by done. rewrite elem_of_cons. naive_solver.
    + rewrite u16_small; lia.
  - constructor; cbn; try done; intros j Hj; rewrite arr_get_insert_ne by (lia || set_solver); done.
  - cbn. rewrite !arr_get_insert_eq by lia. done.
Qed.

Lemma free_desc_ok i fl q : vq_inv fl q -> 0 <= i < vq_size q -> i ∉ fl ->
  exists q', vring_free_desc i q = Some (0, q') /\ vq_inv (i :: fl) q' /\ upto [i] q q' /\ desc q' = desc q.
Proof.
  intros H Hi Hni. pose proof H as [Hs Hd Ha Hu Hn Hst Hc Hch Hnd Hr Hf Hcnt Hui].
  destruct (arr_get_Some (desc_state q) i ltac:(lia)) as [st Hget].
  assert (Hnf : st <> VRING_DESC_FREE) by (intros ->; by apply Hni, Hf).
  pose proof (range_length _ _ _ Hnd Hr Hi Hni) as Hlen.
  unfold vring_free_desc. rewrite (proj2 (Z.ltb_ge i 0)), (proj2 (Z.leb_gt _ i)) by lia. cbn [orb].
  rewrite Hget. cbn [mbind option_bind]. rewrite (proj2 (Z.eqb_neq _ _) Hnf), Hcnt, (proj2 (Z.leb_gt _ _)) by lia.
  cbn [orb]. rewrite !arr_set_Some by lia. cbn [mbind option_bind].
  eexists. split; [done |]. unfold VRING_MAX_SIZE in *. split; [| split; [| done]].
  - constructor; cbn; rewrite ?length_insert; try done.
    + rewrite u16_small by lia. split; [done |]. exists (free_head q).
      rewrite arr_get_insert_eq by lia. split; [done |]. apply chain_insert; [done | lia | done].
    + by constructor.
    + by constructor.
    + intros j Hj. rewrite elem_of_cons. destruct (decide (i = j)) as [<- | Hne].
      * rewrite arr_get_insert_eq by lia. naive_solver.
      * rewrite arr_get_insert_ne by lia. rewrite Hf by done. naive_solver.
    + rewrite u16_small; lia.
  - constructor; cbn; try done; intros j Hj; rewrite arr_get_insert_ne by (lia || set_solver); done.
Qed.

(** ** Chains of buffers *)

Definition buf : Type := Z * Z * Z.   (* address, length, flags *)
Definition b_addr (b : buf) : Z := b.1.1.
Definition b_len (b : buf) : Z := b.1.2.
Definition b_flags (b : buf) : Z := b.2.

(** The flags word the device sees. *)
Definition wire_flags (f : Z) (more : bool) : Z :=
  let f := Z.land f (Z.lor VRING_DESC_F_WRITE VRING_DESC_F_INDIRECT) in
  if more then Z.lor f VRING_DESC_F_NEXT else f.

Definition more {A} (l : list A) : bool := match l with [] => false | _ => true end.
Definition first (l : list Z) : Z := match l with [] => 0 | i :: _ => i end.

(** The descriptors [l] describe the buffers [bs] and have the state [st];
    [linked] when their [next] fields chain them. *)
Fixpoint described (linked : bool) (st : Z) (q : virtqueue) (bs : list buf) (l : list Z) : Prop :=
  match bs, l with
  | [], [] => True
  | b :: bs', i :: l' =>
      arr_get (desc q) i =
        Some (VringDesc (b_addr b) (b_len b) (wire_flags (b_flags b) (more bs')) (if linked then first l' else 0)) /\
      arr_get (desc_state q) i = Some st /\ described linked st q bs' l'
  | _, _ => False
  end.

(** The device owns the chain [l] of buffers [bs]. *)
Definition posted : virtqueue -> list buf -> list Z -> Prop := described true VRING_DESC_AVAILABLE.

Lemma described_length lk st q bs l : described lk st q bs l -> length bs = length l.
Proof.
  revert l. induction bs as [| b bs IH]; intros [| i l] H; cbn in *; try done. f_equal. apply IH, H.
Qed.

Lemma described_upto lk st q q' bs l l' : described lk st q bs l -> upto l' q q' ->
  (forall i, i ∈ l -> i ∉ l') -> described lk st q' bs l.
Proof.
  revert l. induction bs as [| b bs IH]; intros [| i l] H Hu Hd; cbn in *; try done.
  destruct H as (H1 & H2 & H3). assert (i ∉ l') by (apply Hd; by left).
  rewrite (up_desc _ _ _ Hu), (up_state _ _ _ Hu) by done. split_and!; [done | done |].
  apply IH; [done | done |]. intros j Hj. apply Hd. by right.
Qed.

Lemma described_same lk st q q' bs l : described lk st q bs l -> desc q' = desc q ->
  desc_state q' = desc_state q -> described lk st q' bs l.
Proof.
  intros H Hd Hs. revert l H. induction bs as [| b bs IH]; intros [| i l] H; cbn in *; try done.
  rewrite Hd, Hs. destruct H as (? & ? & ?). auto.
Qed.

Lemma get_map {B} (f : buf -> B) (bs : list buf) i b : bs !! i = Some b ->
  arr_get (f <$> bs) (Z.of_nat i) = Some (f b).
Proof.
  intros H. unfold arr_get. rewrite (proj2 (Z.ltb_ge _ 0)) by lia. rewrite Nat2Z.id, list_lookup_fmap.
  by rewrite H.
Qed.

Lemma fill_desc_ok fl q idx a l f d : vq_inv fl q -> arr_get (desc q) idx = Some d ->
  exists q', fill_desc idx a l f q = Some ((), q') /\ vq_inv fl q' /\ upto [idx] q q' /\
    arr_get (desc q') idx = Some (VringDesc a l f (d_next d)) /\ desc_state q' = desc_state q /\ ctx q' = ctx q.
Proof.
  intros H Hd. pose proof (arr_get_bound _ _ _ Hd) as Hi. unfold fill_desc. rewrite Hd. cbn [mbind option_bind].
  rewrite arr_set_Some by lia. cbn [mbind option_bind]. eexists. split; [done |].
  split; [| split]; [| | cbn; rewrite arr_get_insert_eq by lia; done].
  - destruct H. constructor; cbn; rewrite ?length_insert; done.
  - constructor; cbn; try done. intros j Hj. rewrite arr_get_insert_ne by (lia || set_solver). done.
Qed.

Section Posting.
Context (bs : list buf).
Abbreviation addrs := (b_addr <$> bs).
Abbreviation lens := (b_len <$> bs).
Abbreviation bflags := (b_flags <$> bs).

Lemma take_descs_ok (l : list Z) : forall i fl q allocated, vq_inv (l ++ fl) q ->
  (i + length l = length bs)%nat ->
  exists q', take_descs (length l) (Z.of_nat i) (Z.of_nat (length bs)) addrs lens bflags allocated q =
      Some (Some (allocated ++ l), q') /\
    vq_inv fl q' /\ upto l q q' /\ described false VRING_DESC_BUILDING q' (drop i bs) l /\ ctx q' = ctx q.
Proof.
  induction l as [| idx l IH]; intros i fl q allocated H Hlen; cbn [length app] in *.
  - exists q. cbn. rewrite app_nil_r. split_and!; [done | done | apply upto_refl | | done].
    rewrite drop_ge by lia. done.
  - assert (Hidx : 0 <= idx < vq_size q) by (pose proof (vi_range _ _ H) as Hr; by inversion Hr).
    assert (Hni : idx ∉ l ++ fl) by (pose proof (vi_nodup _ _ H) as Hn; by inversion Hn).
    pose proof (vi_size _ _ H) as Hsz. unfold VRING_MAX_SIZE in Hsz.
    destruct (alloc_desc_ok _ _ _ H) as (q1 & Hal & H1 & Hu1 & Hd1 & Hs1 & Hc1).
    destruct (lookup_lt_is_Some_2 bs i ltac:(lia)) as [b Hb].
    cbn [take_descs]. unfold mbind, prog_bind. rewrite Hal.
    rewrite (proj2 (Z.ltb_ge idx 0)) by lia.
    rewrite !(get_map _ _ _ _ Hb). cbn [option_bind mbind].
    destruct (fill_desc_ok _ q1 idx (b_addr b) (b_len b)
      (wire_flags (b_flags b) (Z.of_nat i + 1 <? Z.of_nat (length bs))) blank H1 Hd1)
      as (q2 & Hfi & H2 & Hu2 & Hd2 & Hs2 & Hc2).
    unfold wire_flags in Hfi. rewrite Hfi.
    replace (Z.of_nat i + 1) with (Z.of_nat (S i)) by lia. rewrite u16_small by lia.
    destruct (IH (S i) fl q2 (allocated ++ [idx]) H2 ltac:(lia)) as (q3 & Hrun & H3 & Hu3 & Hd3 & Hc3).
    exists q3. rewrite Hrun. rewrite <- app_assoc. split_and!; [done | done | | | congruence].
    + eapply upto_weaken; [by eapply upto_trans; [eapply upto_trans |] |]. set_solver.
    + rewrite (drop_S _ _ _ Hb). cbn [described].
      assert (idx ∉ l) by set_solver. rewrite (up_desc _ _ _ Hu3), (up_state _ _ _ Hu3) by done.
      rewrite Hd2, Hs2, Hs1. split_and!; [| done | done]. do 2 f_equal.
      cbn. f_equal. pose proof (length_drop bs (S i)).
      destruct (drop (S i) bs) as [| b' bs'] eqn:Hdr; cbn [length more] in *;
        destruct (Z.ltb_spec (Z.of_nat i + 1) (Z.of_nat (length bs))); try done; lia.
Qed.
End Posting.

Lemma set_next_ok fl q idx nx d : vq_inv fl q -> arr_get (desc q) idx = Some d ->
  exists q', set_next idx nx q = Some ((), q') /\ vq_inv fl q' /\ upto [idx] q q' /\
    arr_get (desc q') idx = Some (VringDesc (d_addr d) (d_len d) (d_flags d) nx) /\
    desc_state q' = desc_state q /\ ctx q' = ctx q.
Proof.
  intros H Hd. pose proof (arr_get_bound _ _ _ Hd) as Hi. unfold set_next. rewrite Hd. cbn [mbind option_bind].
  rewrite arr_set_Some by lia. cbn [mbind option_bind]. eexists. split; [done |].
  split; [| split]; [| | cbn; rewrite arr_get_insert_eq by lia; done].
  - destruct H. constructor; cbn; rewrite ?length_insert; done.
  - constructor; cbn; try done. intros j Hj. rewrite arr_get_insert_ne by (lia || set_solver). done.
Qed.

Lemma set_available_ok fl q idx : vq_inv fl q -> 0 <= idx < vq_size q -> idx ∉ fl ->
  exists q', set_available idx q = Some ((), q') /\ vq_inv fl q' /\ upto [idx] q q' /\
    desc q' = desc q /\ arr_get (desc_state q') idx = Some VRING_DESC_AVAILABLE /\ ctx q' = ctx q.
Proof.
  intros H Hi Hni. pose proof (vi_states _ _ H) as Hl. unfold set_available. rewrite arr_set_Some by lia.
  cbn [mbind option_bind]. eexists. split; [done |].
  split; [| split]; [| | cbn; rewrite arr_get_insert_eq by lia; done].
  - destruct H as [? ? ? ? ? ? ? ? ? ? Hf ? ?]. constructor; cbn; rewrite ?length_insert; try done.
    intros j Hj. destruct (decide (idx = j)) as [<- | Hne].
    + rewrite arr_get_insert_eq by lia. split; [by intros [=] | done].
    + rewrite arr_get_insert_ne by lia. by apply Hf.
  - constructor; cbn; try done. intros j Hj. rewrite arr_get_insert_ne by (lia || set_solver). done.
Qed.

Lemma link_descs_ok fl l : forall bs q, vq_inv fl q -> described false VRING_DESC_BUILDING q bs l ->
  NoDup l -> (forall i, i ∈ l -> i ∉ fl) ->
  exists q', link_descs l q = Some ((), q') /\ vq_inv fl q' /\ upto l q q' /\ posted q' bs l /\ ctx q' = ctx q.
Proof.
  induction l as [| idx l IH]; intros bs q H Hd Hnd Hdis.
  - destruct bs; [| done]. exists q. split_and!; [done | done | apply upto_refl | done | done].
  - destruct bs as [| b bs]; [done |]. destruct Hd as (Hd & Hs & Hrest).
    apply NoDup_cons in Hnd as [Hni Hnd]. pose proof (arr_get_bound _ _ _ Hd) as Hi. rewrite (vi_desc _ _ H) in Hi.
    assert (Hnx : exists q1, (match l with nx :: _ => set_next idx nx | [] => mret () end) q = Some ((), q1) /\
      vq_inv fl q1 /\ upto [idx] q q1 /\ desc_state q1 = desc_state q /\ ctx q1 = ctx q /\
      arr_get (desc q1) idx =
        Some (VringDesc (b_addr b) (b_len b) (wire_flags (b_flags b) (more bs)) (first l))).
    { destruct l as [| nx l'].
      - exists q. split_and!; [done | done | apply upto_refl | done | done | done].
      - destruct (set_next_ok fl q idx nx _ H Hd) as (q1 & ? & ? & ? & ? & ? & ?). exists q1. done. }
    destruct Hnx as (q1 & Hrun1 & H1 & Hu1 & Hst1 & Hc1 & Hd1).
    destruct (set_available_ok fl q1 idx H1) as (q2 & Hrun2 & H2 & Hu2 & Hd2 & Hs2 & Hc2);
      [by rewrite (up_size _ _ _ Hu1) | apply Hdis; by left |].
    pose proof (upto_trans _ _ _ _ _ Hu1 Hu2) as Hu12.
    destruct (IH bs q2 H2) as (q3 & Hrun3 & H3 & Hu3 & Hp3 & Hc3).
    { eapply described_upto; [exact Hrest | exact Hu12 |]. set_solver. }
    { done. }
    { intros i Hin. apply Hdis. by right. }
    exists q3. cbn [link_descs]. unfold mbind at 1, prog_bind at 1. rewrite Hrun1.
    unfold mbind at 1, prog_bind at 1. rewrite Hrun2, Hrun3.
    split_and!; [done | done | | | congruence].
    + eapply upto_weaken; [by eapply upto_trans |]. set_solver.
    + cbn. rewrite (up_desc _ _ _ Hu3), (up_state _ _ _ Hu3), Hd2 by done. done.
Qed.

(** What the device and the driver see of a new request. *)
Record added (bs : list buf) (c : Z) (l fl : list Z) (q q' : virtqueue) : Prop := {
  ad_inv : vq_inv fl q';
  ad_posted : posted q' bs l;
  ad_ctx : arr_get (ctx q') (first l) = Some c;
  ad_ring : arr_get (avail_ring q') (avail_idx q mod vq_size q) = Some (first l);
  ad_ring_other : forall i, i <> avail_idx q mod vq_size q -> arr_get (avail_ring q') i = arr_get (avail_ring q) i;
  ad_idx : avail_idx q' = u16 (avail_idx q + 1);
  ad_hdr : avail_hdr_idx q' = avail_hdr_idx q;
  ad_used : used_ring q' = used_ring q /\ used_hdr_idx q' = used_hdr_idx q /\ used_idx q' = used_idx q;
  ad_broken : broken q' = broken q;
  ad_size : vq_size q' = vq_size q;
  ad_desc : forall i, i ∉ l -> arr_get (desc q') i = arr_get (desc q) i;
  ad_state : forall i, i ∉ l -> arr_get (desc_state q') i = arr_get (desc_state q) i;
  ad_ctx_other : forall i, i ∉ l -> arr_get (ctx q') i = arr_get (ctx q) i;
}.

Lemma add_buf_ok bs c q fl l : vq_inv (l ++ fl) q -> length l = length bs -> bs <> [] -> broken q = false ->
  exists q', vring_add_buf (b_addr <$> bs) (b_len <$> bs) (b_flags <$> bs) (Z.of_nat (length bs)) c q =
    Some (first l, q') /\ added bs c l fl q q'.
Proof.
  intros H Hlen Hne Hb. pose proof (vi_size _ _ H) as Hsz. pose proof (vi_cnt _ _ H) as Hcnt.
  pose proof (vi_nodup _ _ H) as Hnd. apply NoDup_app in Hnd as (Hndl & Hdis & _).
  assert (Hpos : (0 < length bs)%nat) by (destruct bs; [done | cbn; lia]).
  assert (Hfit : Z.of_nat (length l) <= vq_size q).
  { pose proof (vi_range _ _ H) as Hr. apply Forall_app in Hr as [Hr _].
    assert (Hsub : l ⊆+ seqZ 0 (vq_size q)).
    { apply NoDup_submseteq; [done |]. intros j Hj. apply elem_of_seqZ. rewrite Forall_forall in Hr.
      specialize (Hr j Hj). lia. }
    apply submseteq_length in Hsub. rewrite length_seqZ in Hsub. lia. }
  unfold vring_add_buf. rewrite Hcnt, Hb, length_app.
  rewrite (proj2 (Z.leb_gt _ 0)), !(proj2 (Z.ltb_ge _ _)) by lia. cbn [orb].
  destruct (take_descs_ok bs l 0 fl q [] H ltac:(lia)) as (q1 & Hrun1 & H1 & Hu1 & Hd1 & Hc1).
  rewrite Hlen in Hrun1. change (Z.of_nat 0) with 0 in Hrun1. cbn [app] in Hrun1. rewrite drop_0 in Hd1.
  rewrite Nat2Z.id. unfold mbind at 1, prog_bind at 1. rewrite Hrun1.
  destruct (link_descs_ok fl l bs q1 H1 Hd1 Hndl) as (q2 & Hrun2 & H2 & Hu2 & Hp2 & Hc2); [done |].
  unfold mbind at 1, prog_bind at 1. rewrite Hrun2. unfold mbind at 1, prog_bind at 1.
  destruct l as [| head l]; [destruct bs; done |].
  change (arr_get (head :: l) 0) with (Some head). cbn [mbind option_bind first].
  pose proof (upto_trans _ _ _ _ _ Hu1 Hu2) as Hu.
  assert (Hhead : 0 <= head < vq_size q2).
  { pose proof (vi_range _ _ H) as Hr. rewrite (up_size _ _ _ Hu). by inversion Hr. }
  pose proof (vi_size _ _ H2). pose proof (Z.mod_pos_bound (avail_idx q2) (vq_size q2) ltac:(lia)).
  unfold publish. rewrite (arr_set_Some (ctx q2)) by (rewrite (vi_ctx _ _ H2); lia). cbn [mbind option_bind].
  rewrite (arr_set_Some (avail_ring q2)) by (rewrite (vi_avail _ _ H2); lia). cbn [mbind option_bind].
  eexists. split; [done |]. pose proof (vi_avail _ _ H2). pose proof (vi_ctx _ _ H2).
  assert (Hout : forall i, i ∉ head :: l -> i ∉ (head :: l) ++ head :: l) by set_solver.
  destruct Hu as [U1 U2 U3 U4 U5 U6 U7 U8 U9 U10 U11 U12].
  rewrite U2, U5 in *. constructor; cbn.
  - destruct H2. constructor; cbn; rewrite ?length_insert; done.
  - by eapply described_same.
  - by rewrite arr_get_insert_eq by lia.
  - by rewrite arr_get_insert_eq by lia.
  - intros i Hi. rewrite arr_get_insert_ne by lia. by rewrite U3.
  - done.
  - done.
  - done.
  - done.
  - done.
  - intros i Hi. auto.
  - intros i Hi. auto.
  - intros i Hi. rewrite arr_get_insert_ne by (lia || set_solver). auto.
Qed.

Lemma wp_get {X} (l : virtqueue -> list X) (i : virtqueue -> Z) q x (Q : X -> virtqueue -> Prop) :
  arr_get (l q) (i q) = Some x -> Q x q ->
  wp (fun q => x ← arr_get (l q) (i q); Some (x, q)) q Q.
Proof. intros H HQ. exists x, q. by rewrite H. Qed.

Lemma wp_on_queue {A X} (m : prog virtqueue X) q (a : A) (Q : X -> virtqueue * A -> Prop) :
  wp m q (fun x q' => Q x (q', a)) -> wp (on_queue m) (q, a) Q.
Proof. intros (x & q' & H & HQ). exists x, (q', a). split; [| done]. unfold on_queue. cbn. by rewrite H. Qed.

(** ** A hostile device *)

(** The words of the used ring are unsigned. *)
Definition ids_ok (us : list (Z * Z)) : Prop := Forall (fun e => 0 <= e.1 < 2 ^ 32) us.

Definition vq_safe (q : virtqueue) : Prop := (exists fl, vq_inv fl q) /\ ids_ok (used_ring q).

Lemma set_broken_inv fl q : vq_inv fl q -> vq_inv fl (set_broken q).
Proof. by intros []; constructor. Qed.

Lemma safe_broken q : vq_safe q -> vq_safe (set_broken q).
Proof. intros [[fl H] Hi]. split; [exists fl; by apply set_broken_inv | done]. Qed.

(** A descriptor that is not on the free list. *)
Lemma not_free fl q i st : vq_inv fl q -> arr_get (desc_state q) i = Some st -> st <> VRING_DESC_FREE ->
  0 <= i < vq_size q /\ i ∉ fl.
Proof.
  intros H Hg Hne. pose proof (arr_get_bound _ _ _ Hg) as Hi. rewrite (vi_states _ _ H) in Hi.
  split; [done |]. intros Hin. apply (vi_free _ _ H i Hi) in Hin. congruence.
Qed.

Lemma walk_chain_safe fuel : forall cur q, vq_safe q ->
  exists r q', walk_chain fuel cur q = Some (r, q') /\ vq_safe q'.
Proof.
  induction fuel as [| fuel IH]; intros cur q Hq; cbn [walk_chain]; [by eexists _, q |].
  destruct (Z.ltb_spec cur 0); [by eexists _, q |]. destruct (Z.leb_spec (vq_size q) cur); [by eexists _, q |].
  cbn [orb]. pose proof Hq as [[fl Hfl] Hids].
  destruct (arr_get_Some (desc_state q) cur) as [st Hst]; [rewrite (vi_states _ _ Hfl); lia |].
  rewrite Hst. cbn [mbind option_bind].
  destruct (Z.eqb_spec st VRING_DESC_AVAILABLE) as [-> | Hne]; cbn [negb].
  2:{ eexists _, _. split; [done | by apply safe_broken]. }
  destruct (arr_get_Some (desc q) cur) as [d Hd]; [rewrite (vi_desc _ _ Hfl); lia |].
  rewrite Hd. cbn [mbind option_bind].
  destruct (has_flag (d_flags d) VRING_DESC_F_NEXT && _)%bool.
  { eexists _, _. split; [done | by apply safe_broken]. }
  destruct (not_free _ _ _ _ Hfl Hst) as [Hi Hni]; [done |].
  destruct (free_desc_ok cur fl q Hfl Hi Hni) as (q1 & Hrun & H1 & Hu1 & _).
  unfold mbind, prog_bind. rewrite Hrun. cbn [Z.eqb negb].
  assert (Hq1 : vq_safe q1) by (split; [by eexists | by rewrite (up_used _ _ _ Hu1)]).
  destruct (has_flag (d_flags d) VRING_DESC_F_NEXT); cbn [negb]; [by apply IH | by eexists _, q1].
Qed.

Section Hostile.
Context {A : Type} (callback : option (Z -> Z -> prog (virtqueue * A) ())).

(** What the queue needs of the driver's callback: it leaves a queue it finds
    in order in order, whatever it posts. *)
Definition callback_safe : Prop :=
  match callback with
  | None => True
  | Some f => forall c len q x, vq_safe q ->
      exists q' x', f c len (q, x) = Some ((), (q', x')) /\ vq_safe q'
  end.

Context (Hcb : callback_safe).

Lemma poll_one_safe q (x : A) : vq_safe q -> wp (poll_one callback) (q, x) (fun _ w => vq_safe w.1).
Proof.
  intros Hq. pose proof Hq as [[fl Hfl] Hids]. pose proof (vi_size _ _ Hfl) as Hsz.
  destruct (arr_get_Some (used_ring q) (used_idx q mod vq_size q)) as [[id len] He].
  { rewrite (vi_used _ _ Hfl). apply Z.mod_pos_bound. lia. }
  assert (Hid : 0 <= id < 2 ^ 32).
  { unfold arr_get in He. destruct (_ <? 0); [done |]. apply list_elem_of_lookup_2 in He.
    unfold ids_ok in Hids. rewrite Forall_forall in Hids. by apply (Hids _ He). }
  apply wp_bind, wp_on_queue. eapply wp_get; [exact He |]. cbn beta iota.
  apply wp_bind, wp_on_queue. apply wp_ret. cbn [fst snd].
  destruct (Z.leb_spec (vq_size q) id); [apply wp_on_queue, wp_ret; by apply safe_broken |].
  destruct (arr_get_Some (desc_state q) id) as [st Hst]; [rewrite (vi_states _ _ Hfl); lia |].
  apply wp_bind, wp_on_queue. eapply wp_get; [exact Hst |]. cbn [fst snd].
  destruct (Z.eqb_spec st VRING_DESC_AVAILABLE) as [-> | Hne]; cbn [negb].
  2:{ apply wp_on_queue, wp_ret. by apply safe_broken. }
  destruct (arr_get_Some (ctx q) id) as [c Hc]; [rewrite (vi_ctx _ _ Hfl); lia |].
  apply wp_bind, wp_on_queue. eapply wp_get; [exact Hc |]. cbn [fst snd].
  apply wp_bind, wp_on_queue.
  destruct (walk_chain_safe (Z.to_nat (vq_size q)) (s32 id) q Hq) as (r & q1 & Hw & Hq1).
  exists r, q1. split; [exact Hw |]. cbn [fst snd]. destruct r as [[|] | rc].
  - apply wp_bind. eapply (wp_mono _ _ (fun _ w => vq_safe w.1)).
    + unfold callback_safe in Hcb. destruct callback as [f |]; [| by apply wp_ret].
      destruct (Hcb c len q1 x Hq1) as (q2 & x2 & Hf & Hq2). by exists (), (q2, x2).
    + intros _ [q2 x2] [[fl2 H2] Hi2]. apply wp_on_queue, wp_ret. split; [| done].
      exists fl2. destruct H2. constructor; try done. apply u16_range.
  - apply wp_on_queue, wp_ret. by apply safe_broken.
  - by apply wp_ret.
Qed.

Lemma poll_loop_safe n : forall completions budget w, vq_safe w.1 ->
  wp (poll_loop callback n completions budget) w (fun _ w' => vq_safe w'.1).
Proof.
  induction n as [| n IH]; intros completions budget [q x] Hq; cbn [poll_loop]; [by apply wp_ret |].
  destruct (budget <=? completions); [by apply wp_ret |].
  apply wp_bind. eapply wp_mono; [by apply poll_one_safe |].
  intros [[] | rc] w' Hw'; [by apply IH | by apply wp_ret].
Qed.

Lemma poll_budget_safe budget q (x : A) : vq_safe q ->
  wp (vring_poll_used_budget callback budget) (q, x) (fun _ w => vq_safe w.1).
Proof.
  intros Hq. unfold wp, vring_poll_used_budget. cbn [fst snd].
  destruct (broken q || (budget =? 0))%bool; [by eexists _, (q, x) |].
  destruct (vq_size q <? _); [eexists _, _; split; [done | by apply safe_broken] |].
  by apply poll_loop_safe.
Qed.

Definition add_bufs (bs : list buf) (c : Z) : prog virtqueue Z :=
  vring_add_buf (b_addr <$> bs) (b_len <$> bs) (b_flags <$> bs) (Z.of_nat (length bs)) c.

(** The operations of the driver, and a device that writes what it likes into
    the descriptor table, the used ring and its index. *)
Inductive vop :=
| VAdd (bs : list buf) (c : Z)
| VKick
| VHasUsed
| VPoll (budget : Z)
| VDevice (ds : list vring_desc) (us : list (Z * Z)) (idx : Z).

Definition device_write (ds : list vring_desc) (us : list (Z * Z)) (idx : Z) (q : virtqueue) : virtqueue :=
  if bool_decide (length ds = length (desc q)) && bool_decide (length us = length (used_ring q)) then
    Virtqueue (vq_index q) (vq_size q) (notify_off q) (desc_at q) (avail_at q) (used_at q) ds
      (avail_ring q) (avail_hdr_idx q) us idx (free_head q) (free_cnt q)
      (next_free q) (desc_state q) (desc_pages q) (avail_pages q) (used_pages q)
      (avail_idx q) (used_idx q) (ctx q) (broken q)
  else q.

Definition vexec (w : virtqueue * A) (o : vop) : option (virtqueue * A) :=
  match o with
  | VAdd bs c => r ← on_queue (add_bufs bs c) w; Some r.2
  | VKick => r ← on_queue vring_kick w; Some r.2
  | VHasUsed => r ← on_queue vring_has_used w; Some r.2
  | VPoll budget => r ← vring_poll_used_budget callback budget w; Some r.2
  | VDevice ds us idx => Some (device_write ds us idx w.1, w.2)
  end.

(** The device writes 32-bit words. *)
Definition vop_ok (o : vop) : Prop := match o with VDevice _ us _ => ids_ok us | _ => True end.
End Hostile.

Lemma add_bufs_fails bs c q fl : vq_inv fl q ->
  (bs = [] \/ (length fl < length bs)%nat \/ broken q = true) -> add_bufs bs c q = Some (-1, q).
Proof.
  intros H Hc. unfold add_bufs, vring_add_buf. rewrite (vi_cnt _ _ H).
  destruct (Z.leb_spec (Z.of_nat (length bs)) 0); [done |]. cbn [orb].
  destruct (vq_size q <? _); [done |]. cbn [orb].
  destruct (Z.ltb_spec (Z.of_nat (length fl)) (Z.of_nat (length bs))); [done |]. cbn [orb].
  destruct Hc as [-> | [? | ->]]; [cbn in *; lia | lia | done].
Qed.

Lemma add_bufs_takes bs c q fl : vq_inv fl q -> bs <> [] -> (length bs <= length fl)%nat -> broken q = false ->
  exists q', add_bufs bs c q = Some (first (take (length bs) fl), q') /\
    added bs c (take (length bs) fl) (drop (length bs) fl) q q'.
Proof.
  intros H Hne Hlen Hb. apply add_buf_ok; [by rewrite take_drop | rewrite length_take; lia | done | done].
Qed.

Lemma add_bufs_safe bs c q : vq_safe q -> exists r q', add_bufs bs c q = Some (r, q') /\ vq_safe q'.
Proof.
  intros Hq. pose proof Hq as [[fl H] Hids].
  destruct (decide (bs = [] \/ (length fl < length bs)%nat \/ broken q = true)) as [Hc | Hc].
  - rewrite (add_bufs_fails _ _ _ _ H Hc). by eexists _, q.
  - destruct (add_bufs_takes bs c q fl H) as (q' & -> & Had); [naive_solver | destruct (decide (length fl < length bs)%nat); [naive_solver | lia] | destruct (broken q); naive_solver |].
    eexists _, q'. split; [done |]. split; [eexists; apply Had |].
    destruct (ad_used _ _ _ _ _ _ Had) as (-> & _). done.
Qed.

Lemma vexec_safe {A} callback (w : virtqueue * A) o : callback_safe callback -> vq_safe w.1 -> vop_ok o ->
  exists w', vexec callback w o = Some w' /\ vq_safe w'.1.
Proof.
  intros Hcb Hq Ho. destruct w as [q x]. cbn [fst] in *. destruct o as [bs c | | | budget | ds us idx]; cbn [vexec].
  - destruct (add_bufs_safe bs c q Hq) as (r & q' & Hrun & Hq'). unfold on_queue. cbn [fst snd]. rewrite Hrun.
    by eexists.
  - eexists. split; [done |]. destruct Hq as [[fl H] Hi]. split; [| done]. exists fl. by destruct H; constructor.
  - unfold on_queue, vring_has_used. cbn [fst snd]. destruct (broken q); [by eexists |].
    destruct (_ <? _); [| by eexists]. eexists. split; [done |]. by apply safe_broken.
  - destruct (poll_budget_safe callback Hcb budget q x Hq) as (r & w' & -> & Hq'). by eexists.
  - eexists. split; [done |]. cbn. unfold device_write.
    destruct (bool_decide_reflect (length ds = length (desc q))) as [Hd |]; [| done].
    destruct (bool_decide_reflect (length us = length (used_ring q))) as [Hu |]; [| done]. cbn.
    destruct Hq as [[fl H] Hi]. split; [| done]. exists fl. destruct H. constructor; cbn; try done; lia.
Qed.

(** ** An honest device *)

Lemma wire_more f m : has_flag (wire_flags f m) VRING_DESC_F_NEXT = m.
Proof.
  unfold has_flag, wire_flags. destruct m.
  - rewrite Z.land_lor_distr_l, <- Z.land_assoc. change (Z.land (Z.lor _ _) VRING_DESC_F_NEXT) with 0.
    by rewrite Z.land_0_r.
  - rewrite <- Z.land_assoc. change (Z.land (Z.lor _ _) VRING_DESC_F_NEXT) with 0. by rewrite Z.land_0_r.
Qed.

Lemma posted_range fl q bs l : vq_inv fl q -> posted q bs l ->
  Forall (fun i => 0 <= i < vq_size q /\ i ∉ fl) l.
Proof.
  intros Hq. revert l. induction bs as [| b bs IH]; intros [| i l] H; cbn in H; try done.
  destruct H as (_ & Hs & Hr). constructor; [by eapply not_free | by apply IH].
Qed.

(** The walk frees exactly the chain. *)
Lemma walk_posted l : forall fuel bs fl q, vq_inv fl q -> posted q bs l -> NoDup l -> l <> [] ->
  (length l <= fuel)%nat ->
  exists q', walk_chain fuel (first l) q = Some (inl true, q') /\ vq_inv (rev l ++ fl) q' /\ upto l q q' /\ desc q' = desc q.
Proof.
  induction l as [| i l IH]; intros fuel bs fl q H Hp Hnd Hne Hfuel; [done |].
  destruct fuel as [| fuel]; [cbn in Hfuel; lia |]. cbn [first walk_chain].
  pose proof (posted_range _ _ _ _ H Hp) as Hr. apply Forall_cons in Hr as [[Hi Hni] Hr].
  destruct bs as [| b bs]; [done |]. destruct Hp as (Hd & Hs & Hp).
  apply NoDup_cons in Hnd as [Hnil Hnd].
  rewrite (proj2 (Z.ltb_ge i 0)), (proj2 (Z.leb_gt _ i)) by lia. cbn [orb].
  rewrite Hs. cbn [mbind option_bind]. rewrite Z.eqb_refl. cbn [negb]. rewrite Hd. cbn [mbind option_bind].
  cbn [d_flags d_next]. rewrite wire_more.
  destruct (free_desc_ok i fl q H Hi Hni) as (q1 & Hrun & H1 & Hu1 & Hd1).
  destruct l as [| j l].
  - destruct bs; [| done]. cbn [more andb negb]. unfold mbind, prog_bind. rewrite Hrun. cbn [Z.eqb negb].
    exists q1. split_and!; [done | done | done | done].
  - destruct bs as [| b' bs]; [done |]. cbn [more first andb negb].
    apply Forall_cons in Hr as Hr'. destruct Hr' as [[Hj _] _].
    rewrite (proj2 (Z.ltb_ge j 0)), (proj2 (Z.leb_gt _ j)) by lia. cbn [orb].
    unfold mbind, prog_bind. rewrite Hrun. cbn [Z.eqb negb].
    destruct (IH fuel (b' :: bs) (i :: fl) q1 H1) as (q2 & Hrun2 & H2 & Hu2 & Hd2);
      [| done | done | cbn in *; lia |].
    { eapply described_upto; [exact Hp | exact Hu1 |]. set_solver. }
    exists q2. cbn [first] in Hrun2. rewrite Hrun2. split_and!; [done | | | congruence].
    + cbn [rev] in *. by rewrite <- !app_assoc in *.
    + eapply upto_weaken; [by eapply upto_trans |]. set_solver.
Qed.

(** A callback that works on the driver's own state only. *)
Definition own_callback {A} (g : Z -> Z -> A -> A) : option (Z -> Z -> prog (virtqueue * A) ()) :=
  Some (fun c len w => Some ((), (w.1, g c len w.2))).

(** A request: its buffers, descriptors and context, and the length the device
    reports. *)
Record request := Request { rq_bufs : list buf; rq_descs : list Z; rq_ctx : Z; rq_len : Z }.

Definition outstanding (q : virtqueue) (r : request) : Prop :=
  rq_descs r <> [] /\ posted q (rq_bufs r) (rq_descs r) /\ arr_get (ctx q) (first (rq_descs r)) = Some (rq_ctx r).

(** The used ring announces the requests [rs], in this order. *)
Fixpoint announced (q : virtqueue) (i : Z) (rs : list request) : Prop :=
  match rs with
  | [] => True
  | r :: rs' => arr_get (used_ring q) (i mod vq_size q) = Some (first (rq_descs r), rq_len r) /\
      announced q (u16 (i + 1)) rs'
  end.

Definition all_descs (rs : list request) : list Z := rs ≫= rq_descs.

Lemma outstanding_upto q q' l r : outstanding q r -> upto l q q' -> (forall i, i ∈ rq_descs r -> i ∉ l) ->
  outstanding q' r.
Proof.
  intros (Hne & Hp & Hc) Hu Hd. split_and!; [done | by eapply described_upto |].
  rewrite (up_ctx _ _ _ Hu); [done |]. apply Hd. destruct (rq_descs r); [done | by left].
Qed.

Lemma announced_same q q' i rs : used_ring q' = used_ring q -> vq_size q' = vq_size q ->
  announced q i rs -> announced q' i rs.
Proof.
  intros Hu Hs. revert i. induction rs as [| r rs IH]; intros i; [done |]. cbn. rewrite Hu, Hs.
  intros [? ?]. auto.
Qed.

Section Honest.
Context {A : Type} (g : Z -> Z -> A -> A).

Lemma poll_one_honest fl q (x : A) r : vq_inv fl q -> outstanding q r -> NoDup (rq_descs r) ->
  arr_get (used_ring q) (used_idx q mod vq_size q) = Some (first (rq_descs r), rq_len r) ->
  wp (poll_one (own_callback g)) (q, x) (fun res w => res = inl () /\ w.2 = g (rq_ctx r) (rq_len r) x /\
    exists q1, upto (rq_descs r) q q1 /\ desc q1 = desc q /\ w.1 = set_used_idx (u16 (used_idx q + 1)) q1 /\
      vq_inv (rev (rq_descs r) ++ fl) w.1).
Proof.
  intros H (Hne & Hp & Hc) Hnd He. pose proof (posted_range _ _ _ _ H Hp) as Hr.
  pose proof (vi_size _ _ H) as Hsz. unfold VRING_MAX_SIZE in Hsz.
  assert (Hlen : (length (rq_descs r) <= Z.to_nat (vq_size q))%nat).
  { assert (Hsub : rq_descs r ⊆+ seqZ 0 (vq_size q)).
    { apply NoDup_submseteq; [done |]. intros j Hj. apply elem_of_seqZ. rewrite Forall_forall in Hr.
      destruct (Hr j Hj) as [? _]. lia. }
    apply submseteq_length in Hsub. rewrite length_seqZ in Hsub. lia. }
  destruct (walk_posted _ (Z.to_nat (vq_size q)) _ fl q H Hp Hnd Hne Hlen) as (q1 & Hw & H1 & Hu1 & Hd1).
  destruct (rq_descs r) as [| i l] eqn:Hrd; [done |]. cbn [first] in *.
  destruct (rq_bufs r) as [| b bs]; [done |]. destruct Hp as (_ & Hs & _).
  apply Forall_cons in Hr as [[Hi Hni] _].
  apply wp_bind, wp_on_queue. eapply wp_get; [exact He |]. cbn beta iota.
  apply wp_bind, wp_on_queue. apply wp_ret. rewrite (proj2 (Z.leb_gt _ i)) by lia.
  apply wp_bind, wp_on_queue. eapply wp_get; [exact Hs |]. rewrite Z.eqb_refl. cbn [negb].
  apply wp_bind, wp_on_queue. eapply wp_get; [exact Hc |].
  apply wp_bind, wp_on_queue. rewrite s32_small by lia. exists (inl true), q1. split; [exact Hw |].
  apply wp_bind. exists (), (q1, g (rq_ctx r) (rq_len r) x). split; [done |].
  apply wp_on_queue. eexists _, _. split; [done |]. cbn. split_and!; [done | done |].
  exists q1. rewrite (up_used_idx _ _ _ Hu1). split_and!; [done | done | done |].
  destruct H1. constructor; try done. apply u16_range.
Qed.

(** The context and length each completion reports. *)
Definition reported (rs : list request) (x : A) : A :=
  foldl (fun x r => g (rq_ctx r) (rq_len r) x) x rs.

Lemma poll_loop_honest rs : forall fl q (x : A) completions budget, vq_inv fl q ->
  Forall (outstanding q) rs -> NoDup (all_descs rs) -> announced q (used_idx q) rs ->
  completions + Z.of_nat (length rs) <= budget ->
  wp (poll_loop (own_callback g) (length rs) completions budget) (q, x) (fun res w =>
    res = completions + Z.of_nat (length rs) /\ w.2 = reported rs x /\
    exists fl', vq_inv (fl' ++ fl) w.1 /\ fl' ≡ₚ all_descs rs /\
      used_idx w.1 = u16 (used_idx q + Z.of_nat (length rs)) /\ broken w.1 = broken q /\
      (forall i, i ∉ all_descs rs -> arr_get (desc_state w.1) i = arr_get (desc_state q) i)).
Proof.
  induction rs as [| r rs IH]; intros fl q x completions budget H Ho Hnd Ha Hb; cbn [length poll_loop].
  - apply wp_ret. split_and!; [cbn; lia | done |]. exists []. split_and!; [done | done | | done | done].
    cbn. rewrite Z.add_0_r. symmetry. apply u16_small, (vi_uidx _ _ H).
  - rewrite (proj2 (Z.leb_gt _ _)) by (cbn in Hb; lia).
    apply Forall_cons in Ho as [Hor Ho]. cbn [all_descs] in Hnd.
    change (all_descs (r :: rs)) with (rq_descs r ++ all_descs rs) in *.
    apply NoDup_app in Hnd as (Hndr & Hdis & Hnd). destruct Ha as [Har Ha].
    apply wp_bind. eapply wp_mono; [by apply (poll_one_honest fl q x r) |].
    intros res [q' x'] (-> & Hx & q1 & Hu1 & _ & Hq' & H'). cbn [fst snd] in *.
    eapply wp_mono; [apply (IH _ q' x' (completions + 1) budget H') |].
    + rewrite Forall_forall in *. intros r' Hr'. rewrite Hq'.
      assert (Ho1 : outstanding q1 r').
      { eapply outstanding_upto; [by apply Ho | exact Hu1 |]. intros i Hi Hi'. apply (Hdis i Hi').
        apply list_elem_of_bind. by exists r'. }
      destruct Ho1 as (? & ? & ?). split_and!; [done | by eapply described_same | done].
    + done.
    + rewrite Hq'. cbn [used_idx set_used_idx]. eapply announced_same; [| | exact Ha]; cbn.
      * apply (up_used _ _ _ Hu1).
      * apply (up_size _ _ _ Hu1).
    + cbn in Hb. lia.
    + intros res [q2 x2] (-> & Hx2 & fl' & H2 & Hperm & Hui & Hb2 & Hst). cbn [fst snd] in *.
      split_and!; [lia | subst; done |]. exists (fl' ++ rev (rq_descs r)). split_and!.
      * by rewrite <- app_assoc.
      * rewrite Hperm, <- (Permutation_rev (rq_descs r)). apply Permutation_app_comm.
      * rewrite Hui, Hq'. cbn [used_idx set_used_idx]. unfold u16. rewrite Zplus_mod_idemp_l. f_equal. lia.
      * rewrite Hb2, Hq'. cbn. apply (up_broken _ _ _ Hu1).
      * intros i Hi. apply not_elem_of_app in Hi as [Hi1 Hi2]. rewrite Hst, Hq' by done. cbn.
        by apply (up_state _ _ _ Hu1).
Qed.
End Honest.

(** Disjoint non-empty chains are no more than the descriptors. *)
Lemma outstanding_bound fl q rs : vq_inv fl q -> Forall (outstanding q) rs -> NoDup (all_descs rs) ->
  Z.of_nat (length rs) <= vq_size q.
Proof.
  intros H Ho Hnd. pose proof (vi_size _ _ H).
  assert (Hle : (length rs <= length (all_descs rs))%nat).
  { clear Hnd. unfold all_descs. induction Ho as [| r rs (Hne & _) _ IH]; [done |]. cbn. rewrite length_app.
    destruct (rq_descs r); [done | cbn; lia]. }
  assert (Hsub : all_descs rs ⊆+ seqZ 0 (vq_size q)).
  { apply NoDup_submseteq; [done |]. intros j (r & Hj & Hr)%list_elem_of_bind. apply elem_of_seqZ.
    rewrite Forall_forall in Ho. destruct (Ho r Hr) as (_ & Hp & _).
    pose proof (posted_range _ _ _ _ H Hp) as Hrange. rewrite Forall_forall in Hrange.
    destruct (Hrange j Hj). lia. }
  apply submseteq_length in Hsub. rewrite length_seqZ in Hsub. lia.
Qed.

(** ** Memory of a queue *)

Section Memory.
Import Bfc.Blocks Bfc.Rep Bfc.Refine.

Definition block_of (p : Bfc.ptr) (n : Z) : list (nat * nat) :=
  match p with Some s => [(s, Z.to_nat n)] | None => [] end.

Lemma inv_perm T st o o' : o ≡ₚ o' -> inv T (st, o) -> inv T (st, o').
Proof.
  intros Hp (bl & Hrep & Hnd & Hh & Hpos & Ht). exists bl. cbn [fst snd] in *. unfold Refine.pages in *.
  split_and!; [done | by rewrite <- Hp | by rewrite <- Hp | by rewrite <- Hp | by rewrite <- Hp].
Qed.

Lemma wp_alloc_pages T h owned n (Q : Bfc.ptr -> heap -> Prop) :
  inv T (hp_pages h, owned) -> 0 < n ->
  (forall p st, inv T (st, block_of p n ++ owned) -> Q p (Heap st (live h) (oom h))) ->
  wp (bfc_alloc_page_data n) h Q.
Proof.
  intros Hinv Hn HQ. unfold wp, bfc_alloc_page_data.
  destruct (inv_alloc T _ (Z.to_nat n) (hp_pages h) owned (bfc_alloc_page (Z.to_nat n) (hp_pages h))
    ltac:(lia) (fits_any_le _) Hinv) as (r' & -> & Hr); [intros; apply alloc_page_post; [done | lia] |].
  cbn [mbind option_bind]. eexists _, _. split; [done |]. apply HQ. destruct r' as [st [s |]]; done.
Qed.

Lemma wp_free_pages T h p n owned owned' (Q : () -> heap -> Prop) :
  inv T (hp_pages h, owned) -> owned ≡ₚ block_of p n ++ owned' ->
  (forall st, inv T (st, owned') -> Q () (Heap st (live h) (oom h))) ->
  wp (bfc_free_page_data p n) h Q.
Proof.
  intros Hinv Hp HQ. unfold wp, bfc_free_page_data. destruct p as [s |]; cbn [block_of app] in Hp.
  - assert (Hin : (s, Z.to_nat n) ∈ owned) by (rewrite Hp; by left).
    apply list_elem_of_lookup_1 in Hin as [k Hk].
    destruct (inv_free T (hp_pages h) owned k s (Z.to_nat n) Hinv Hk) as (r' & -> & Hr).
    cbn [mbind option_bind]. eexists _, _. split; [done |]. apply HQ.
    eapply inv_perm; [| exact Hr]. apply delete_Permutation in Hk.
    apply (Permutation_cons_inv (a := (s, Z.to_nat n))). by rewrite <- Hk, <- Hp.
  - eexists _, _. split; [done |]. destruct h as [st l o]. apply HQ. by eapply inv_perm.
Qed.

Lemma wp_kfree {A} (l : list A) h (Q : () -> heap -> Prop) :
  Q () (Heap (hp_pages h) (live h - match l with [] => 0 | _ => 1 end) (oom h)) -> wp (kfree_arr l) h Q.
Proof.
  intros HQ. unfold wp, kfree_arr. destruct l.
  - eexists _, _. split; [done |]. rewrite Z.sub_0_r in HQ. by destruct h.
  - by eexists _, _.
Qed.

Definition arr_live {A} (l : list A) : Z := match l with [] => 0 | _ => 1 end.

Lemma wp_destroy T h q owned owned' (Q : virtqueue -> heap -> Prop) :
  inv T (hp_pages h, owned) ->
  owned ≡ₚ block_of (desc_at q) (desc_pages q) ++ block_of (avail_at q) (avail_pages q) ++
    block_of (used_at q) (used_pages q) ++ owned' ->
  (forall st, inv T (st, owned') ->
     Q vq_zero (Heap st (live h - arr_live (next_free q) - arr_live (ctx q) - arr_live (desc_state q)) (oom h))) ->
  wp (vring_destroy q) h Q.
Proof.
  intros Hinv Hp HQ. unfold vring_destroy.
  apply wp_bind. eapply (wp_free_pages T); [exact Hinv | exact Hp |]. clear Hinv. intros st1 H1.
  apply wp_bind. eapply (wp_free_pages T); [exact H1 | reflexivity |]. clear H1. intros st2 H2.
  apply wp_bind. eapply (wp_free_pages T); [exact H2 | reflexivity |]. clear H2. intros st3 H3.
  apply wp_bind, wp_kfree, wp_bind, wp_kfree, wp_bind, wp_kfree. apply wp_ret. by apply HQ.
Qed.

Lemma wp_kmalloc n h (Q : bool -> heap -> Prop) :
  (forall ok o, Q ok (Heap (hp_pages h) (live h + if ok then 1 else 0) o)) -> wp (kmalloc_arr n) h Q.
Proof.
  intros HQ. unfold wp, kmalloc_arr. destruct (kmalloc_ok (oom h)) as [ok o]. eexists _, _. split; [done |].
  specialize (HQ ok o). destruct ok; [done |]. by rewrite Z.add_0_r in HQ.
Qed.
End Memory.

(** ** Ring sizes *)

(** The pages cover the ring and nothing wrapped. *)
Lemma ring_size_fits size elem base bytes pg : 0 <= size -> 0 <= elem <= 16 -> 0 <= base <= 16 ->
  checked_ring_size size elem base = Some (bytes, pg) ->
  0 < size <= VRING_MAX_SIZE /\ bytes = base + size * elem /\ 0 < pg < 2 ^ 16 /\
  (pg - 1) * PAGE_SIZE < bytes <= pg * PAGE_SIZE.
Proof.
  intros Hs He Hb. unfold checked_ring_size, VRING_MAX_SIZE, SIZE_MAX, UINT64_MAX, UINT16_MAX, PAGE_SIZE.
  destruct (Z.eqb_spec size 0); [done |]. destruct (Z.ltb_spec 1024 size); [done |]. cbn [orb].
  destruct (negb _); [done |]. cbn [orb]. destruct (_ <? elem); [done |].
  assert (0 <= size * elem <= 1024 * 16) by nia.
  rewrite !u64_small by lia. destruct (_ <? base + _); [done |].
  rewrite Z.shiftr_div_pow2 by done. change (2 ^ 12) with 4096.
  pose proof (Z.div_mod (base + size * elem + 4095) 4096 ltac:(lia)) as Hdm.
  pose proof (Z.mod_pos_bound (base + size * elem + 4095) 4096 ltac:(lia)) as Hmb.
  set (p := (base + size * elem + 4095) / 4096) in *.
  destruct (Z.eqb_spec p 0); [done |]. destruct (Z.ltb_spec 65535 p); [done |]. cbn [orb].
  rewrite u16_small by lia. intros [= <- <-]. lia.
Qed.

Definition bad_size (size : Z) : bool :=
  (size =? 0) || (VRING_MAX_SIZE <? size) || negb (Z.land size (size - 1) =? 0).

Lemma ring_size_bad size elem base : bad_size size = true -> checked_ring_size size elem base = None.
Proof. intros H. unfold checked_ring_size. unfold bad_size in H. by rewrite H. Qed.

Lemma ring_size_good size elem base : 0 <= size -> 1 <= elem <= 16 -> 0 <= base <= 16 -> bad_size size = false ->
  exists bytes pg, checked_ring_size size elem base = Some (bytes, pg).
Proof.
  intros Hs He Hb Hgood. unfold checked_ring_size. fold (bad_size size). rewrite Hgood. cbn [orb].
  unfold bad_size, VRING_MAX_SIZE in Hgood. bool_to_prop.
  assert (1 <= size * elem <= 1024 * 16) by nia. unfold SIZE_MAX, UINT64_MAX, UINT16_MAX.
  destruct (Z.ltb_spec ((2 ^ 64 - 1 - base) / size) elem) as [Hlt |].
  { assert (16 <= (2 ^ 64 - 1 - base) / size) by (apply Z.div_le_lower_bound; nia). lia. }
  rewrite !u64_small by lia. rewrite (proj2 (Z.ltb_ge _ _)) by lia.
  rewrite Z.shiftr_div_pow2 by done. change (2 ^ 12) with 4096.
  assert (1 <= (base + size * elem + 4095) / 4096) by (apply Z.div_le_lower_bound; lia).
  assert ((base + size * elem + 4095) / 4096 <= 8) by (apply Z.lt_succ_r, Z.div_lt_upper_bound; lia).
  rewrite (proj2 (Z.eqb_neq _ 0)), (proj2 (Z.ltb_ge 65535 _)) by lia. by eexists _, _.
Qed.

Lemma arr_get_replicate {A} n (x : A) i : 0 <= i < Z.of_nat n -> arr_get (replicate n x) i = Some x.
Proof.
  intros. unfold arr_get. rewrite (proj2 (Z.ltb_ge i 0)) by lia. apply lookup_replicate_2. lia.
Qed.

Lemma length_free_chain n : (0 < n)%nat -> length (free_chain n) = n.
Proof. intros. unfold free_chain. rewrite length_app, length_fmap, length_seq. cbn. lia. Qed.

Lemma free_chain_get n i : 0 <= i < Z.of_nat n ->
  arr_get (free_chain n) i = Some (if i + 1 =? Z.of_nat n then VRING_END else i + 1).
Proof.
  intros Hi. unfold arr_get, free_chain. rewrite (proj2 (Z.ltb_ge i 0)) by lia.
  destruct (Z.eqb_spec (i + 1) (Z.of_nat n)) as [He | Hne].
  - rewrite lookup_app_r by (rewrite length_fmap, length_seq; lia).
    rewrite length_fmap, length_seq. by replace (Z.to_nat i - (n - 1))%nat with 0%nat by lia.
  - rewrite lookup_app_l by (rewrite length_fmap, length_seq; lia).
    rewrite list_lookup_fmap, lookup_seq_lt by lia. cbn. f_equal. lia.
Qed.

Lemma free_chain_ok n k : (k < n)%nat ->
  chain (free_chain n) (Z.of_nat (n - 1 - k)) (seqZ (Z.of_nat (n - 1 - k)) (Z.of_nat k + 1)).
Proof.
  induction k as [| k IH]; intros Hk.
  - cbn [Z.of_nat]. rewrite Z.add_0_l. rewrite seqZ_cons by lia. cbn. split; [done |].
    exists VRING_END. rewrite free_chain_get by lia. rewrite (proj2 (Z.eqb_eq _ _)) by lia.
    split; [done |]. by rewrite seqZ_nil by lia.
  - rewrite seqZ_cons by lia. cbn [chain]. split; [done |].
    exists (Z.of_nat (n - 1 - k)). rewrite free_chain_get by lia. rewrite (proj2 (Z.eqb_neq _ _)) by lia.
    split; [f_equal; lia |]. specialize (IH ltac:(lia)).
    replace (Z.succ (Z.of_nat (n - 1 - S k))) with (Z.of_nat (n - 1 - k)) by lia.
    by replace (Z.pred (Z.of_nat (S k) + 1)) with (Z.of_nat k + 1) by lia.
Qed.

Lemma created_inv q : 0 < vq_size q <= VRING_MAX_SIZE ->
  desc q = replicate (Z.to_nat (vq_size q)) blank -> avail_ring q = replicate (Z.to_nat (vq_size q)) 0 ->
  used_ring q = replicate (Z.to_nat (vq_size q)) (0, 0) -> next_free q = free_chain (Z.to_nat (vq_size q)) ->
  desc_state q = replicate (Z.to_nat (vq_size q)) VRING_DESC_FREE -> ctx q = replicate (Z.to_nat (vq_size q)) 0 ->
  free_head q = 0 -> free_cnt q = vq_size q -> used_idx q = 0 -> vq_inv (seqZ 0 (vq_size q)) q.
Proof.
  intros Hs Hd Ha Hu Hn Hst Hc Hh Hcnt Hui. constructor;
    rewrite ?Hd, ?Ha, ?Hu, ?Hn, ?Hst, ?Hc, ?Hh, ?Hcnt, ?Hui, ?length_replicate, ?length_seqZ, ?length_free_chain;
    try lia.
  - pose proof (free_chain_ok (Z.to_nat (vq_size q)) (Z.to_nat (vq_size q) - 1) ltac:(lia)) as H.
    replace (Z.to_nat (vq_size q) - 1 - (Z.to_nat (vq_size q) - 1))%nat with 0%nat in H by lia.
    by replace (Z.of_nat (Z.to_nat (vq_size q) - 1) + 1) with (vq_size q) in H by lia.
  - apply NoDup_seqZ.
  - apply Forall_seqZ. lia.
  - intros i Hi. rewrite arr_get_replicate by lia. rewrite elem_of_seqZ. split; [lia | done].
Qed.

(** A queue [q] created from the memory [h], and its destruction. *)
Record created (T : nat) (h : heap) (owned : list (nat * nat)) (size rc : Z) (q : virtqueue) (h' : heap) : Prop := {
  cr_rc : rc = 0;
  cr_size : vq_size q = size;
  cr_inv : vq_inv (seqZ 0 size) q;
  cr_live : live h' = live h + 3;
  cr_desc : size * SIZEOF_DESC <= desc_pages q * PAGE_SIZE;
  cr_avail : SIZEOF_AVAIL + size * 2 <= avail_pages q * PAGE_SIZE;
  cr_used : SIZEOF_USED + size * SIZEOF_USED_ELEM <= used_pages q * PAGE_SIZE;
  cr_some : desc_at q <> None /\ avail_at q <> None /\ used_at q <> None;
  cr_blocks : Bfc.Refine.inv T (hp_pages h', block_of (used_at q) (used_pages q) ++
    block_of (avail_at q) (avail_pages q) ++ block_of (desc_at q) (desc_pages q) ++ owned);
  cr_destroy : exists h'', vring_destroy q h' = Some (vq_zero, h'') /\ live h'' = live h /\
    Bfc.Refine.inv T (hp_pages h'', owned);
}.

(** [vring_create] rejects sizes that are not a power of two up to 1024,
    and otherwise either gives back every page and object it took and returns
    -ENOMEM, or returns a queue whose rings lie in blocks of their own that are
    large enough, with all descriptors free; [vring_destroy] then returns
    exactly these blocks and objects. *)
Theorem vring_create_correct T h owned index size notify :
  Bfc.Refine.inv T (hp_pages h, owned) -> 0 <= size < 2 ^ 16 ->
  exists rc q h', vring_create index size notify h = Some ((rc, q), h') /\
    ((rc = - EINVAL /\ h' = h /\ (size = 0 \/ VRING_MAX_SIZE < size \/ Z.land size (size - 1) <> 0)) \/
     (rc = - ENOMEM /\ q = vq_zero /\ live h' = live h /\ Bfc.Refine.inv T (hp_pages h', owned)) \/
     created T h owned size rc q h').
Proof.
  intros Hinv Hsz. destruct (bad_size size) eqn:Hbad.
  { exists (- EINVAL), vq_zero, h. unfold vring_create. rewrite ring_size_bad by done. split; [done |]. left.
    split_and!; [done | done |]. apply orb_true_iff in Hbad as [[Hbad | Hbad]%orb_true_iff | Hbad]; bool_to_prop; auto. }
  destruct (ring_size_good size SIZEOF_DESC 0) as (db & dp & Hd); [lia | done | done | done |].
  destruct (ring_size_good size 2 SIZEOF_AVAIL) as (ab & ap & Ha); [lia | done | done | done |].
  destruct (ring_size_good size SIZEOF_USED_ELEM SIZEOF_USED) as (ub & up & Hu); [lia | done | done | done |].
  apply ring_size_fits in Hd as Fd; [| lia | done | done]. apply ring_size_fits in Ha as Fa; [| lia | done | done].
  apply ring_size_fits in Hu as Fu; [| lia | done | done].
  assert (Hlive1 : forall b : bool, arr_live (if b then free_chain (Z.to_nat size) else []) = if b then 1 else 0).
  { intros []; [| done]. pose proof (length_free_chain (Z.to_nat size) ltac:(lia)).
    destruct (free_chain _); [cbn in *; lia | done]. }
  assert (Hlive2 : forall (b : bool) (x : Z), arr_live (if b then replicate (Z.to_nat size) x else []) = if b then 1 else 0).
  { intros [] x; [| done]. destruct (Z.to_nat size) eqn:Hn; [lia | done]. }
  assert (Hwp : wp (vring_create index size notify) h (fun rq h' =>
     (rq.1 = - ENOMEM /\ rq.2 = vq_zero /\ live h' = live h /\ Bfc.Refine.inv T (hp_pages h', owned)) \/
     (created T h owned size rq.1 rq.2 h'))).
  { unfold vring_create. rewrite Hd, Ha, Hu.
    apply wp_bind. eapply (wp_alloc_pages T); [exact Hinv | lia |]. intros d st1 H1.
    apply wp_bind. eapply (wp_alloc_pages T); [exact H1 | lia |]. intros a st2 H2.
    apply wp_bind. eapply (wp_alloc_pages T); [exact H2 | lia |]. intros u st3 H3. cbn [live hp_pages oom].
    apply wp_bind, wp_kmalloc. intros k1 o1. apply wp_bind, wp_kmalloc. intros k2 o2.
    apply wp_bind, wp_kmalloc. intros k3 o3. cbn [live hp_pages].
    set (q := Virtqueue _ _ _ _ _ _ _ _ _ _ _ _ _ _ _ _ _ _ _ _ _ _).
    assert (Hown : block_of u up ++ block_of a ap ++ block_of d dp ++ owned ≡ₚ
      block_of (desc_at q) (desc_pages q) ++ block_of (avail_at q) (avail_pages q) ++
      block_of (used_at q) (used_pages q) ++ owned) by (unfold q; cbn [desc_at desc_pages avail_at avail_pages used_at used_pages]; solve_Permutation).
    set (fail := (bool_decide (d = None) || _ || _ || _ || _ || _)%bool). destruct fail eqn:Hfail.
    - apply wp_bind. eapply (wp_destroy T); [exact H3 | exact Hown |]. intros st Hst. apply wp_ret.
      left. split_and!; [done | done | | done]. cbn [live hp_pages].
      unfold q. cbn [next_free ctx desc_state]. rewrite Hlive1, !Hlive2. lia.
    - unfold fail in Hfail. bool_to_prop.
      repeat match goal with Hx : bool_decide _ = false |- _ => apply bool_decide_eq_false in Hx end.
      subst k1 k2 k3. apply wp_ret. right. constructor; cbn [fst snd live hp_pages]; try done;
        [| lia | change (desc_pages q) with dp; lia | change (avail_pages q) with ap; lia | change (used_pages q) with up; lia |].
      + apply (created_inv q); [exact (proj1 Fd) | done ..].
      + destruct (wp_destroy T (Heap st3 (live h + 1 + 1 + 1) o3) q _ owned (fun q' h'' => q' = vq_zero /\
          live h'' = live h /\ Bfc.Refine.inv T (hp_pages h'', owned)) H3) as (q' & h'' & Hrun & -> & ? & ?).
        * exact Hown.
        * intros st Hst. split_and!; [done | | done]. cbn [live].
          unfold q. cbn [next_free ctx desc_state]. rewrite (Hlive1 true), !(Hlive2 true). lia.
        * by exists h''. }
  destruct Hwp as ([rc q] & h' & Hrun & Hpost). exists rc, q, h'. split; [done |]. by right.
Qed.

(** C18. Whatever the device writes into the descriptor table, the used ring and
    its index between the driver's operations, and whatever a well-behaved
    callback posts, no driver operation accesses memory out of bounds or runs
    forever, and the free list stays duplicate-free and lists exactly the free
    descriptors, [free_cnt] of them. *)
Theorem vring_survives_device {A} (callback : option (Z -> Z -> prog (virtqueue * A) ())) w ops :
  callback_safe callback -> vq_safe w.1 -> Forall vop_ok ops ->
  exists w', run_opt (vexec callback) w ops = Some w' /\ vq_safe w'.1.
Proof.
  intros Hcb Hq Hops. apply (run_opt_ok (vexec callback) (fun w => vq_safe w.1) vop_ok); [| done | done].
  intros. by apply vexec_safe.
Qed.

(** [vring_add_buf] refuses an empty request, one with more buffers than
    free descriptors and a broken queue, changing nothing; otherwise it takes
    the first descriptors of the free list, links them in order to describe
    exactly the buffers, records the context at the head, puts the head in the
    next slot of the avail ring and leaves everything else alone. *)
Theorem vring_add_buf_correct q fl bs c : vq_inv fl q ->
  if decide (bs = [] \/ (length fl < length bs)%nat \/ broken q = true)
  then add_bufs bs c q = Some (-1, q)
  else exists q', add_bufs bs c q = Some (first (take (length bs) fl), q') /\
    added bs c (take (length bs) fl) (drop (length bs) fl) q q'.
Proof.
  intros H. destruct (decide _) as [Hc | Hc]; [by eapply add_bufs_fails |].
  apply add_bufs_takes; [done | naive_solver | | destruct (broken q); naive_solver].
  destruct (decide (length fl < length bs)%nat); [naive_solver | lia].
Qed.

(** When the device announces outstanding requests with disjoint chains in
    the used ring, [vring_poll_used] completes each exactly once, in the order
    of the ring: the callback gets each request's context and reported length,
    the chains are returned to the free list and all other descriptors keep
    their state. *)
Theorem vring_poll_completes {A} (g : Z -> Z -> A -> A) q x fl rs :
  vq_inv fl q -> broken q = false -> Forall (outstanding q) rs -> NoDup (all_descs rs) ->
  announced q (used_idx q) rs -> used_hdr_idx q = u16 (used_idx q + Z.of_nat (length rs)) ->
  exists q' fl', vring_poll_used (own_callback g) (q, x) = Some (Z.of_nat (length rs), (q', reported g rs x)) /\
    vq_inv (fl' ++ fl) q' /\ fl' ≡ₚ all_descs rs /\ used_idx q' = used_hdr_idx q /\ broken q' = false /\
    (forall i, i ∉ all_descs rs -> arr_get (desc_state q') i = arr_get (desc_state q) i).
Proof.
  intros H Hb Ho Hnd Ha Hidx. pose proof (vi_size _ _ H) as Hsz. pose proof (vi_uidx _ _ H) as Hui.
  assert (Hlen : Z.of_nat (length rs) <= vq_size q) by (by eapply outstanding_bound).
  unfold VRING_MAX_SIZE in Hsz.
  destruct (poll_loop_honest g rs fl q x 0 (vq_size q) H Ho Hnd Ha ltac:(lia))
    as (res & [q' x'] & Hrun & -> & Hx & fl' & H' & Hp & Hu & Hb' & Hst). cbn [fst snd] in *.
  exists q', fl'. split; [| split_and!; [done | done | congruence | congruence | done]].
  unfold vring_poll_used, vring_poll_used_budget. cbn [fst]. rewrite Hb, (proj2 (Z.eqb_neq _ 0)) by lia. cbn [orb].
  assert (Hpend : u16 (used_hdr_idx q - used_idx q) = Z.of_nat (length rs)).
  { rewrite Hidx. unfold u16. rewrite Zminus_mod_idemp_l. rewrite Z.mod_small; lia. }
  rewrite Hpend, (proj2 (Z.ltb_ge _ _)), Nat2Z.id by lia. by rewrite Hrun, <- Hx.
Qed.

(** ** Concrete queues *)

(** A queue of four descriptors. *)
Definition demo_q : virtqueue :=
  Virtqueue 0 4 0 (Some 1%nat) (Some 2%nat) (Some 3%nat) (replicate 4 blank) (replicate 4 0) 0
    (replicate 4 (0, 0)) 0 0 4 (free_chain 4) (replicate 4 VRING_DESC_FREE) 1 1 1 0 0 (replicate 4 0) false.

Lemma demo_inv : vq_inv (seqZ 0 4) demo_q.
Proof. by apply (created_inv demo_q). Qed.

Lemma demo_safe : vq_safe demo_q.
Proof. split; [eexists; exact demo_inv |]. by repeat constructor. Qed.

(** A callback that posts the buffer again, as the network driver's receive
    callback does. *)
Definition repost {A} : option (Z -> Z -> prog (virtqueue * A) ()) :=
  Some (fun c len => _ ← on_queue (add_bufs [(c, len, VRING_DESC_F_WRITE)] c); mret ()).

Lemma repost_safe {A} : callback_safe (A := A) repost.
Proof.
  intros c len q x Hq. destruct (add_bufs_safe [(c, len, VRING_DESC_F_WRITE)] c q Hq) as (r & q' & Hrun & Hq').
  exists q', x. split; [| done]. unfold mbind, prog_bind, on_queue. cbn [fst snd]. by rewrite Hrun.
Qed.

(** Two requests, a device that reports a descriptor twice and one that never
    existed, and polls in between. *)
Definition demo_ops : list vop :=
  [VAdd [(4096, 16, 0); (8192, 32, 2)] 7; VAdd [(12288, 64, 2)] 8; VKick;
   VDevice (replicate 4 (VringDesc 0 0 1 3)) [(2, 64); (2, 64); (99, 0); (0, 0)] 3; VPoll 4; VHasUsed].

Lemma vring_survives_device_witness :
  exists w', run_opt (vexec (A := ()) repost) (demo_q, ()) demo_ops = Some w' /\ vq_safe w'.1.
Proof.
  apply vring_survives_device.
  - exact repost_safe.
  - exact demo_safe.
  - by repeat constructor.
Defined.

Definition demo_bufs : list buf := [(4096, 16, 0); (8192, 32, 2)].

Lemma vring_add_buf_correct_witness :
  exists q', add_bufs demo_bufs 7 demo_q = Some (0, q') /\ added demo_bufs 7 [0; 1] [2; 3] demo_q q'.
Proof. exact (vring_add_buf_correct demo_q [0; 1; 2; 3] demo_bufs 7 demo_inv). Defined.

(** The queue with one request, completed by the device. *)
Definition demo_done : virtqueue :=
  match add_bufs demo_bufs 7 demo_q with
  | Some (_, q) => device_write (desc q) [(0, 48); (0, 0); (0, 0); (0, 0)] 1 q
  | None => demo_q
  end.

Definition demo_request : request := Request demo_bufs [0; 1] 7 48.

Lemma demo_done_inv : vq_inv [2; 3] demo_done.
Proof.
  destruct (add_bufs_takes demo_bufs 7 demo_q [0; 1; 2; 3] demo_inv) as (q' & Hrun & Had); [done | cbn; lia | done |].
  pose proof (ad_inv _ _ _ _ _ _ Had) as H. cbn in H. unfold demo_done. rewrite Hrun. unfold device_write.
  rewrite bool_decide_eq_true_2, bool_decide_eq_true_2; [| | done].
  - destruct H. constructor; try done. cbn. by rewrite (ad_size _ _ _ _ _ _ Had).
  - destruct (ad_used _ _ _ _ _ _ Had) as (-> & _). done.
Qed.

Lemma vring_poll_completes_witness :
  exists q' fl', vring_poll_used (own_callback (fun c len log => log ++ [(c, len)])) (demo_done, []) =
    Some (1, (q', [(7, 48)])) /\ vq_inv (fl' ++ [2; 3]) q' /\ fl' ≡ₚ [0; 1].
Proof.
  destruct (vring_poll_completes (fun c len log => log ++ [(c, len)]) demo_done [] [2; 3] [demo_request])
    as (q' & fl' & Hrun & Hinv & Hp & _).
  - exact demo_done_inv.
  - vm_compute. reflexivity.
  - constructor; [| constructor]. split_and!; [done | | vm_compute; reflexivity].
    vm_compute. repeat split.
  - apply (bool_decide_unpack _). vm_compute. exact I.
  - split; [vm_compute; reflexivity | exact I].
  - vm_compute. reflexivity.
  - exists q', fl'. split; [exact Hrun |]. split; [exact Hinv | exact Hp].
Defined.

Lemma demo_heap_inv : Bfc.Refine.inv 5 (demo, []).
Proof. exists [(1, 3); (6, 2)]%nat. split_and!; [exact demo_rep | constructor .. | done]. Qed.

Lemma vring_create_correct_witness :
  exists rc q h', vring_create 0 4 0 (Heap demo 0 []) = Some ((rc, q), h') /\ rc = 0 /\ vq_inv (seqZ 0 4) q.
Proof.
  destruct (vring_create_correct 5 (Heap demo 0 []) [] 0 4 0 demo_heap_inv) as (rc & q & h' & Hrun & Hpost).
  - lia.
  - exists rc, q, h'. split; [exact Hrun |].
    assert (Hrc : match vring_create 0 4 0 (Heap demo 0 []) with Some ((r, _), _) => r | None => 1 end = 0)
      by (vm_compute; reflexivity).
    rewrite Hrun in Hrc. destruct Hpost as [(Hr & _) | [(Hr & _) | Hc]].
    + rewrite Hr in Hrc. discriminate Hrc.
    + rewrite Hr in Hrc. discriminate Hrc.
    + split; [exact Hrc | exact (cr_inv _ _ _ _ _ _ _ Hc)].
Defined.
