(* ===== verification/Sched.v ===== *)
(** * The scheduler (kernel/xcore/sched.c, sched.h; timer delivery of trap.c)

    The task table, the per-CPU run queues and timer queues, and the
    operations on them at the granularity of their critical sections: every
    definition below is what one CPU does while it holds a scheduler lock (or
    with interrupts off), so an interleaving of CPUs is a sequence of them.

    The links [run_node] and [wait_node] of a task are membership in the
    list of a CPU: a node is linked when some queue contains the task.  An
    [ASSERT] that fails, a NULL or an out-of-range index is a fault.

    Left out: kernel stack canaries, FPU and TSS switching, the RCU nesting
    assertion, tracing and wake-up statistics, the log. *)
From S2P Require Import Prelude.
From Stdlib Require Import Sorting.Sorted.

Inductive proc_state := UNUSED | READY | RUNNING | BLOCKED | ZOMBIE | REAPING | STOPPED.

Inductive wait_event_t :=
  | WAIT_NONE | WAIT_RECV | WAIT_REQ_REPLY | WAIT_CHILD | WAIT_MSG_REPLY | WAIT_POLL
  | WAIT_FUTEX | WAIT_VFORK | WAIT_PAUSE | WAIT_SLEEP | WAIT_BLOCK_IO | WAIT_MUTEX
  | WAIT_COMPLETION | WAIT_KTHREAD.

#[export] Instance proc_state_eq_dec : EqDecision proc_state.
Proof. solve_decision. Defined.
#[export] Instance wait_event_eq_dec : EqDecision wait_event_t.
Proof. solve_decision. Defined.

Definition MAX_PROC : Z := 1024.
Definition AFFINITY_THRESHOLD : Z := 1.
Definition RECHECK_THRESHOLD : Z := 2.

(** The scheduling fields of [struct xtask].  A task is named by its slot in
    [tasks]; [pid] is the field, which is reset to -1 when it is reaped. *)
Record xtask := Xtask {
  pid : Z;
  state : proc_state;
  wait_event : wait_event_t;
  wait_timed_out : bool;
  wait_deadline : Z;
  assigned_cpu : Z;
  need_resched : bool;
  exit_done : bool;
  cpu_time_ns : Z;
  last_sched : Z;
}.

(** The scheduling fields of [struct cpu_local].  [wakeup_list] is the list
    on the stack of a timer handler that runs on this CPU.  [switching] is the
    argument [next] of a [switch_to] under way: the CPU has released its lock
    but has not yet published [next] as [cur_proc]. *)
Record cpu_local := CpuLocal {
  run_queue : list Z;
  run_count : Z;
  timer_queue : list Z;
  wakeup_list : list Z;
  cur_proc : Z;
  idle_proc : Z;
  pending_dead : option Z;
  switching : option Z;
}.

Record sched := Sched {
  tasks : gmap Z xtask;
  cpu_locals : gmap Z cpu_local;
  ncpu : Z;
  next_pid : Z;
}.

(** ** Field assignments *)

Definition set_sstate v k := Xtask (pid k) v (wait_event k) (wait_timed_out k) (wait_deadline k)
  (assigned_cpu k) (need_resched k) (exit_done k) (cpu_time_ns k) (last_sched k).
Definition set_wait e o k := Xtask (pid k) (state k) e o (wait_deadline k)
  (assigned_cpu k) (need_resched k) (exit_done k) (cpu_time_ns k) (last_sched k).
Definition set_deadline v k := Xtask (pid k) (state k) (wait_event k) (wait_timed_out k) v
  (assigned_cpu k) (need_resched k) (exit_done k) (cpu_time_ns k) (last_sched k).
Definition set_assigned v k := Xtask (pid k) (state k) (wait_event k) (wait_timed_out k)
  (wait_deadline k) v (need_resched k) (exit_done k) (cpu_time_ns k) (last_sched k).
Definition set_resched v k := Xtask (pid k) (state k) (wait_event k) (wait_timed_out k)
  (wait_deadline k) (assigned_cpu k) v (exit_done k) (cpu_time_ns k) (last_sched k).
Definition set_exit_done v k := Xtask (pid k) (state k) (wait_event k) (wait_timed_out k)
  (wait_deadline k) (assigned_cpu k) (need_resched k) v (cpu_time_ns k) (last_sched k).
Definition set_times c l k := Xtask (pid k) (state k) (wait_event k) (wait_timed_out k)
  (wait_deadline k) (assigned_cpu k) (need_resched k) (exit_done k) c l.
Definition set_pid v k := Xtask v (state k) (wait_event k) (wait_timed_out k) (wait_deadline k)
  (assigned_cpu k) (need_resched k) (exit_done k) (cpu_time_ns k) (last_sched k).

Definition set_rq q n cl := CpuLocal q n (timer_queue cl) (wakeup_list cl) (cur_proc cl)
  (idle_proc cl) (pending_dead cl) (switching cl).
Definition set_tq q cl := CpuLocal (run_queue cl) (run_count cl) q (wakeup_list cl) (cur_proc cl)
  (idle_proc cl) (pending_dead cl) (switching cl).
Definition set_wl q cl := CpuLocal (run_queue cl) (run_count cl) (timer_queue cl) q (cur_proc cl)
  (idle_proc cl) (pending_dead cl) (switching cl).
Definition set_cur t cl := CpuLocal (run_queue cl) (run_count cl) (timer_queue cl)
  (wakeup_list cl) t (idle_proc cl) (pending_dead cl) (switching cl).
Definition set_dead d cl := CpuLocal (run_queue cl) (run_count cl) (timer_queue cl)
  (wakeup_list cl) (cur_proc cl) (idle_proc cl) d (switching cl).
Definition set_switching d cl := CpuLocal (run_queue cl) (run_count cl) (timer_queue cl)
  (wakeup_list cl) (cur_proc cl) (idle_proc cl) (pending_dead cl) d.

Definition set_tasks T s := Sched T (cpu_locals s) (ncpu s) (next_pid s).
Definition set_cpus C s := Sched (tasks s) C (ncpu s) (next_pid s).
Definition set_next_pid n s := Sched (tasks s) (cpu_locals s) (ncpu s) n.

(** ** Memory accesses *)

Definition sp (A : Type) : Type := prog sched A.

Definition fault {A} : sp A := fun _ => None.
Definition assert_that (b : bool) : sp () := if b then mret () else fault.

Definition get_task (t : Z) : sp xtask := fun s => k ← tasks s !! t; Some (k, s).
Definition upd_task (t : Z) (f : xtask -> xtask) : sp () := fun s =>
  k ← tasks s !! t; Some ((), set_tasks (<[t := f k]> (tasks s)) s).
Definition get_cpu (c : Z) : sp cpu_local := fun s => cl ← cpu_locals s !! c; Some (cl, s).
Definition upd_cpu (c : Z) (f : cpu_local -> cpu_local) : sp () := fun s =>
  cl ← cpu_locals s !! c; Some ((), set_cpus (<[c := f cl]> (cpu_locals s)) s).

(** [!list_empty(&t->run_node)] and [!list_empty(&t->wait_node)] *)
Definition run_linked (t : Z) (s : sched) : bool :=
  existsb (fun cl => bool_decide (t ∈ run_queue cl.2)) (map_to_list (cpu_locals s)).
Definition wait_linked (t : Z) (s : sched) : bool :=
  existsb (fun cl => bool_decide (t ∈ timer_queue cl.2 ++ wakeup_list cl.2))
    (map_to_list (cpu_locals s)).

(** [list_remove] of a node takes it out of the list it is on. *)
Definition without (t : Z) (l : list Z) : list Z := filter (fun x => x <> t) l.
Definition unlink_run (t : Z) : sp () := fun s =>
  Some ((), set_cpus ((fun cl => set_rq (without t (run_queue cl)) (run_count cl) cl) <$> cpu_locals s) s).
Definition unlink_wait (t : Z) : sp () := fun s =>
  Some ((), set_cpus ((fun cl => set_wl (without t (wakeup_list cl))
                        (set_tq (without t (timer_queue cl)) cl)) <$> cpu_locals s) s).
Definition reads {A} (f : sched -> A) : sp A := fun s => Some (f s, s).

(** ** Run queues (sched.h) *)

Definition run_queue_push (cpu t : Z) : sp () :=
  linked ← reads (run_linked t);
  _ ← assert_that (negb linked);
  upd_cpu cpu (fun cl => set_rq (run_queue cl ++ [t]) (run_count cl + 1) cl).

Definition run_queue_pop (t : Z) : sp () :=
  linked ← reads (run_linked t);
  _ ← assert_that linked;
  _ ← unlink_run t;
  k ← get_task t;
  upd_cpu (assigned_cpu k) (fun cl => set_rq (run_queue cl) (run_count cl - 1) cl).

(** ** Timer queues *)

(** The sorted insertion walks past the deadlines that are not later. *)
Fixpoint insert_deadline (T : gmap Z xtask) (t d : Z) (q : list Z) : option (list Z) :=
  match q with
  | [] => Some [t]
  | p :: q' =>
      k ← T !! p;
      if d <? wait_deadline k then Some (t :: p :: q') else q'' ← insert_deadline T t d q'; Some (p :: q'')
  end.

Definition sched_timer_queue_insert (cpu t : Z) : sp () := fun s =>
  cl ← cpu_locals s !! cpu;
  k ← tasks s !! t;
  q ← insert_deadline (tasks s) t (wait_deadline k) (timer_queue cl);
  Some ((), set_cpus (<[cpu := set_tq q cl]> (cpu_locals s)) s).

Definition timer_queue_wait_push (cpu t : Z) : sp () :=
  linked ← reads (wait_linked t);
  _ ← assert_that (negb linked);
  sched_timer_queue_insert cpu t.

Definition timer_queue_wait_pop (t : Z) : sp () :=
  linked ← reads (wait_linked t);
  _ ← assert_that linked;
  unlink_wait t.

Definition sched_timer_queue_remove (t : Z) : sp () := timer_queue_wait_pop t.

Definition sched_timer_queue_cancel (t : Z) : sp () :=
  k ← get_task t;
  if wait_deadline k =? 0 then mret ()
  else _ ← sched_timer_queue_remove t; upd_task t (set_deadline 0).

(** [replied] is the flag the responder publishes under the same lock. *)
Definition sched_arm_timed_wait (t : Z) (event : wait_event_t) (deadline_ns : Z) (replied : bool)
    : sp bool :=
  k ← get_task t;
  if replied then _ ← upd_task t (set_deadline 0); mret false
  else
    _ ← upd_task t (set_deadline deadline_ns);
    _ ← upd_task t (set_sstate BLOCKED);
    _ ← upd_task t (fun k => set_wait event (wait_timed_out k) k);
    _ ← timer_queue_wait_push (assigned_cpu k) t;
    mret true.

(** ** Waking *)

Definition wake_from_wait (p : Z) : sp () :=
  _ ← sched_timer_queue_cancel p;
  _ ← upd_task p (set_sstate READY);
  _ ← upd_task p (set_wait WAIT_NONE false);
  k ← get_task p;
  let cpu := assigned_cpu k in
  linked ← reads (run_linked p);
  _ ← (if (linked : bool) then mret () else run_queue_push cpu p);
  cl ← get_cpu cpu;
  let curr := cur_proc cl in
  if curr =? p then mret () else upd_task curr (set_resched true).

Definition sched_cancel_spurious_wake (t : Z) : sp () :=
  linked ← reads (run_linked t);
  _ ← (if (linked : bool) then run_queue_pop t else mret ());
  _ ← upd_task t (set_sstate RUNNING);
  upd_task t (set_wait WAIT_NONE false).

(** The waking functions read [assigned_cpu] of the task, take the lock of that
    CPU and then do what follows: the CPU locked is the [cpu] of the action. *)
Definition wake_with_event (t : Z) (expected_event : wait_event_t) : sp () :=
  k ← get_task t;
  if bool_decide (state k = BLOCKED) && bool_decide (wait_event k = expected_event)
  then wake_from_wait t else mret ().

Definition wake_wq_target (t : Z) : sp () :=
  k ← get_task t;
  if bool_decide (state k = BLOCKED) then wake_from_wait t else mret ().

Definition wake_process_any (t : Z) : sp () :=
  k ← get_task t;
  if bool_decide (state k = BLOCKED) then wake_from_wait t else mret ().

(** The per-thread step of [sys_exit_group] (syscall.c).  Here and in job
    control, [cpu] is [assigned_cpu] of the task as read before the lock of that
    CPU is taken. *)
Definition exit_group_wake (cpu t : Z) : sp () :=
  k ← get_task t;
  if bool_decide (state k = BLOCKED) then
    _ ← sched_timer_queue_cancel t;
    _ ← upd_task t (set_sstate READY);
    _ ← upd_task t (set_wait WAIT_NONE false);
    run_queue_push cpu t
  else mret ().

(** ** Job control (signal.c) *)

(** [do_stop] up to its call of [schedule]. *)
Definition do_stop (t : Z) : sp () :=
  _ ← sched_timer_queue_cancel t;
  _ ← upd_task t (set_sstate STOPPED);
  upd_task t (fun k => set_wait WAIT_NONE (wait_timed_out k) k).

(** What is done under the lock to resume a task, without looking at its state
    again. *)
Definition resume_stopped (cpu t : Z) : sp () :=
  _ ← upd_task t (set_sstate READY);
  _ ← upd_task t (fun k => set_wait WAIT_NONE (wait_timed_out k) k);
  linked ← reads (run_linked t);
  if (linked : bool) then mret () else run_queue_push cpu t.

(** [seen] is the state of the task as read before the lock is taken. *)
Definition do_cont (seen : proc_state) (cpu t : Z) : sp () :=
  if negb (bool_decide (seen = STOPPED)) then mret () else resume_stopped cpu t.

Definition SIGKILL : Z := 9.
Definition SIGCONT : Z := 18.

(** [seen] is what [wake_stopped] itself reads, [seen'] what [do_cont] does. *)
Definition wake_stopped (seen seen' : proc_state) (cpu t sig : Z) : sp () :=
  if negb (bool_decide (seen = STOPPED)) then mret ()
  else if sig =? SIGCONT then do_cont seen' cpu t
  else if sig =? SIGKILL then resume_stopped cpu t
  else mret ().

(** The per-thread step of [alarm_set_deadline] (signal.c): a blocked thread
    of the process borrows the process alarm. *)
Definition alarm_borrow (cpu t new_deadline : Z) : sp () :=
  k ← get_task t;
  if bool_decide (state k = BLOCKED) && (wait_deadline k =? 0) then
    _ ← upd_task t (set_deadline new_deadline);
    sched_timer_queue_insert cpu t
  else mret ().

(** ** Blocking

    What a waiting loop does before it re-checks its condition and calls
    [schedule] (eventfd_do_read and the like). *)
Definition prepare_to_wait (t : Z) (event : wait_event_t) : sp () :=
  _ ← upd_task t (set_sstate BLOCKED);
  upd_task t (set_wait event false).

(** ** Context switches (sched.c) *)

Definition is_dead (k : xtask) : bool :=
  bool_decide (state k = ZOMBIE) || bool_decide (state k = REAPING).

(** [cpu_time_ns += sched_clock() - last_sched], where [now] is the clock. *)
Definition account (now : Z) (k : xtask) : xtask :=
  if last_sched k =? 0 then k
  else set_times (u64 (cpu_time_ns k + u64 (now - last_sched k))) (last_sched k) k.

(** Publish that this CPU has left the stack of the task it last switched
    away from dead. *)
Definition finalize_dead (c : Z) : sp () :=
  cl ← get_cpu c;
  match pending_dead cl with
  | Some d => _ ← upd_cpu c (set_dead None); upd_task d (set_exit_done true)
  | None => mret ()
  end.

Definition record_dead (c prev : Z) : sp () :=
  cl ← get_cpu c;
  _ ← assert_that (bool_decide (pending_dead cl = None));
  upd_cpu c (set_dead (Some prev)).

(** [schedule] with an empty run queue: a task that cannot go on gives way to
    the idle task, any other continues.  [now] and [now'] are the values of two
    clock readings. *)
Definition schedule_empty (c prev idle now now' : Z) : sp () :=
  cl ← get_cpu c;
  pk ← get_task prev;
  _ ← assert_that (run_count cl =? 0);
  if negb (prev =? idle) &&
     (bool_decide (state pk = BLOCKED) || bool_decide (state pk = STOPPED) || is_dead pk) then
    _ ← upd_task prev (account now);
    _ ← (if is_dead pk then record_dead c prev else mret ());
    upd_cpu c (set_switching (Some idle))
  else if negb (prev =? idle) && negb (last_sched pk =? 0) then
    upd_task prev (fun k => set_times (cpu_time_ns (account now k)) now' k)
  else mret ().

(** [schedule] once [next] is dequeued and [prev] is back in the queue. *)
Definition schedule_commit (c prev idle next now' : Z) : sp () :=
  _ ← upd_task next (set_sstate RUNNING);
  _ ← upd_task next (fun k => set_times (cpu_time_ns k) now' k);
  cl ← get_cpu c;
  _ ← assert_that (run_count cl =? Z.of_nat (length (run_queue cl)));
  pk ← get_task prev;
  _ ← (if negb (prev =? idle) && is_dead pk then record_dead c prev else mret ());
  upd_cpu c (set_switching (Some next)).

(** [schedule] with [next] at the head of the run queue. *)
Definition schedule_next (c prev idle next now now' : Z) : sp () :=
  _ ← run_queue_pop next;
  _ ← (if negb (prev =? idle) then upd_task prev (account now) else mret ());
  pk ← get_task prev;
  _ ← (if negb (prev =? idle) && bool_decide (state pk = RUNNING)
       then _ ← upd_task prev (set_sstate READY); run_queue_push c prev
       else mret ());
  schedule_commit c prev idle next now'.

(** [schedule] up to its call of [switch_to]. *)
Definition schedule (c now now' : Z) : sp () :=
  cl ← get_cpu c;
  let idle := idle_proc cl in
  let prev := cur_proc cl in
  _ ← finalize_dead c;
  _ ← upd_task prev (set_resched false);
  cl ← get_cpu c;
  match run_queue cl with
  | [] => schedule_empty c prev idle now now'
  | next :: _ => schedule_next c prev idle next now now'
  end.

(** [switch_to] (trapentry.S) publishes the new current task. *)
Definition switch_to (c : Z) : sp () :=
  cl ← get_cpu c;
  match switching cl with
  | Some next => upd_cpu c (fun cl => set_cur next (set_switching None cl))
  | None => fault
  end.

(** ** Load balancing *)

Fixpoint pick_min (n : nat) (i best min : Z) : sp (Z * Z) :=
  match n with
  | O => mret (best, min)
  | S n' =>
      cl ← get_cpu i;
      if run_count cl <? min then pick_min n' (i + 1) i (run_count cl)
      else pick_min n' (i + 1) best min
  end.

Definition sched_pick_cpu_pref (pref_cpu : Z) : sp Z :=
  n ← reads ncpu;
  cl ← get_cpu 0;
  bm ← pick_min (Z.to_nat (n - 1)) 1 0 (run_count cl);
  if (0 <=? pref_cpu) && (pref_cpu <? n) then
    pc ← get_cpu pref_cpu;
    mret (if run_count pc - bm.2 <=? AFFINITY_THRESHOLD then pref_cpu else bm.1)
  else mret bm.1.

Definition sched_pick_cpu : sp Z := sched_pick_cpu_pref (-1).

Fixpoint pick_victim (n : nat) (v my_cpu best max : Z) : sp (Z * Z) :=
  match n with
  | O => mret (best, max)
  | S n' =>
      if v =? my_cpu then pick_victim n' (v + 1) my_cpu best max
      else
        cl ← get_cpu v;
        if max <? run_count cl then pick_victim n' (v + 1) my_cpu v (run_count cl)
        else pick_victim n' (v + 1) my_cpu best max
  end.

(** The last task of the queue that is not [victim_current]. *)
Fixpoint steal_tail (rev_queue : list Z) (victim_current : Z) : option Z :=
  match rev_queue with
  | [] => None
  | t :: q => if t =? victim_current then steal_tail q victim_current else Some t
  end.

(** [trylock] is the result of [spin_trylock_irqsave] on the victim's lock. *)
Definition sched_try_steal_task (my_cpu : Z) (trylock : bool) : sp () :=
  n ← reads ncpu;
  vm ← pick_victim (Z.to_nat n) 0 my_cpu (-1) 0;
  let '(v, max_run) := vm in
  if max_run <=? 1 then mret ()
  else if negb trylock then mret ()
  else
    cl ← get_cpu v;
    match run_queue cl with
    | [] => mret ()
    | _ =>
        _ ← assert_that (0 <? run_count cl);
        match steal_tail (reverse (run_queue cl)) (cur_proc cl) with
        | None => mret ()
        | Some t =>
            k ← get_task t;
            _ ← assert_that (bool_decide (state k = READY));
            _ ← assert_that (assigned_cpu k =? v);
            _ ← run_queue_pop t;
            _ ← upd_task t (set_assigned my_cpu);
            run_queue_push my_cpu t
        end
    end.

(** ** Timer interrupts (trap.c) *)

(** The expiry loop of [timer_handler] under the CPU's lock; [q] is the timer
    queue the loop pops from.  The alarm hook it calls only sets signal bits. *)
Fixpoint timer_expire_loop (q : list Z) (c now : Z) : sp () :=
  match q with
  | [] => mret ()
  | p :: q' =>
      k ← get_task p;
      if now <? wait_deadline k then mret ()
      else
        _ ← timer_queue_wait_pop p;
        _ ← (if bool_decide (state k = BLOCKED) then
               _ ← upd_task p (set_sstate READY);
               _ ← upd_task p (set_wait WAIT_NONE true);
               _ ← upd_task p (set_deadline 0);
               upd_cpu c (fun cl => set_wl (wakeup_list cl ++ [p]) cl)
             else mret ());
        timer_expire_loop q' c now
  end.

Definition timer_expire (c now : Z) : sp () :=
  cl ← get_cpu c;
  timer_expire_loop (timer_queue cl) c now.

(** One iteration of the delivery loop, under the lock of the task's CPU. *)
Definition timer_deliver (c : Z) : sp () :=
  cl ← get_cpu c;
  match wakeup_list cl with
  | [] => fault
  | p :: _ => _ ← unlink_wait p; k ← get_task p; run_queue_push (assigned_cpu k) p
  end.

(** ** Task slots *)

Definition xtask_defaults : xtask := Xtask (-1) UNUSED WAIT_NONE false 0 (-1) false false 0 0.

(** [alloc] is the result of [kmem_cache_alloc]. *)
Definition fresh_slot (i : Z) (alloc : bool) : sp (option Z) := fun s =>
  if alloc then
    Some (Some i, set_next_pid ((i + 1) mod MAX_PROC) (set_tasks (<[i := xtask_defaults]> (tasks s)) s))
  else Some (None, s).

Fixpoint xtask_scan (n : nat) (k : Z) (alloc : bool) : sp (option Z) :=
  match n with
  | O => mret None
  | S n' =>
      np ← reads next_pid;
      let i := (np + k) mod MAX_PROC in
      old ← reads (fun s => tasks s !! i);
      match old with
      | None => fresh_slot i alloc
      | Some old =>
          if bool_decide (state old = REAPING) && exit_done old then
            _ ← (fun s => Some ((), set_tasks (delete i (tasks s)) s)) : sp ();
            fresh_slot i alloc
          else xtask_scan n' (k + 1) alloc
      end
  end.

Definition xtask_alloc (alloc : bool) : sp (option Z) := xtask_scan (Z.to_nat MAX_PROC) 0 alloc.

(** The scheduling part of [sched_create_idle_process] and of the bring-up of
    a CPU (smp.c): the CPU starts on its idle task. *)
Definition sched_create_idle_process (cpu : Z) (alloc stack : bool) : sp (option Z) :=
  a ← xtask_alloc alloc;
  match a with
  | None => mret None
  | Some i =>
      if negb stack then mret None
      else
        _ ← upd_task i (set_pid i);
        _ ← upd_task i (set_sstate RUNNING);
        _ ← upd_task i (set_assigned cpu);
        mret (Some i)
  end.

Definition smp_init_cpu (c idle : Z) : sp () := fun s =>
  Some ((), Sched (tasks s) (<[c := CpuLocal [] 0 [] [] idle idle None None]> (cpu_locals s))
              (c + 1) (next_pid s)).

Definition cpu_up : sp () :=
  c ← reads ncpu;
  a ← sched_create_idle_process c true true;
  match a with
  | None => fault
  | Some i => smp_init_cpu c i
  end.

(** The scheduling part of [kthread_create_common] (kthread.c). *)
Definition kthread_create (alloc stack : bool) : sp (option Z) :=
  a ← xtask_alloc alloc;
  match a with
  | None => mret None
  | Some t =>
      if negb stack then
        _ ← upd_task t (set_pid t);
        _ ← upd_task t (set_sstate REAPING);
        _ ← upd_task t (set_exit_done true);
        mret None
      else
        cpu ← sched_pick_cpu;
        _ ← upd_task t (set_assigned cpu);
        _ ← upd_task t (set_pid t);
        _ ← upd_task t (set_sstate READY);
        _ ← run_queue_push cpu t;
        mret (Some t)
  end.

(** [sys_clone] (proc.c): placing and enqueueing the child [t] of the task
    that runs on [c]. *)
Definition clone_enqueue (c t : Z) (vfork thread : bool) : sp () :=
  pc ← get_cpu c;
  let parent := cur_proc pc in
  par ← get_task parent;
  cpu ← (if vfork then mret (assigned_cpu par)
         else if thread then sched_pick_cpu_pref (assigned_cpu par) else sched_pick_cpu);
  _ ← upd_task t (set_assigned cpu);
  _ ← upd_task t (set_pid t);
  _ ← upd_task t (set_sstate READY);
  cl ← get_cpu cpu;
  cpu ← (if negb vfork && (RECHECK_THRESHOLD <? run_count cl) then
           new_cpu ← (if thread then sched_pick_cpu_pref (assigned_cpu par) else sched_pick_cpu);
           if new_cpu =? cpu then mret cpu
           else _ ← upd_task t (set_assigned new_cpu); mret new_cpu
         else mret cpu);
  _ ← (if vfork then
         _ ← upd_task parent (set_sstate BLOCKED);
         upd_task parent (fun k => set_wait WAIT_VFORK (wait_timed_out k) k)
       else mret ());
  run_queue_push cpu t.

(** [do_exit] makes the current task a zombie (syscall.c). *)
Definition exit_zombie (t : Z) : sp () := upd_task t (set_sstate ZOMBIE).

(** The scheduling part of [sched_task_reap]. *)
Definition sched_task_reap (t : Z) : sp () :=
  k ← get_task t;
  _ ← assert_that (is_dead k);
  linked ← reads (run_linked t);
  _ ← assert_that (negb linked);
  linked ← reads (wait_linked t);
  _ ← assert_that (negb linked);
  _ ← upd_task t (set_pid (-1));
  _ ← upd_task t (set_sstate REAPING);
  _ ← upd_task t (set_wait WAIT_NONE false);
  _ ← upd_task t (set_deadline 0);
  _ ← upd_task t (set_times 0 0);
  upd_task t (set_resched false).

(** ** The scheduler invariant

    It only speaks of the part of a task that decides where it may be: its
    state, its deadline, its CPU and whether its exit has been published. *)

Record core := Core { c_state : proc_state; c_deadline : Z; c_cpu : Z; c_done : bool }.

Definition core_of (k : xtask) : core :=
  Core (state k) (wait_deadline k) (assigned_cpu k) (exit_done k).

Definition deadline_of (G : gmap Z core) (t : Z) : Z := from_option c_deadline 0 (G !! t).

Definition dead (k : core) : Prop := c_state k = ZOMBIE \/ c_state k = REAPING.

(** What must hold of a task of this CPU: a READY task is queued, a RUNNING
    one is on the CPU, an armed deadline is in the timer queue. *)
Record task_ok (t : Z) (k : core) (cl : cpu_local) : Prop := {
  tk_used : c_state k <> UNUSED;
  tk_ready : c_state k = READY -> t ∈ run_queue cl ++ wakeup_list cl;
  tk_running : c_state k = RUNNING ->
    cur_proc cl = t \/ switching cl = Some t \/ idle_proc cl = t;
  tk_armed : c_deadline k <> 0 -> c_state k = BLOCKED /\ t ∈ timer_queue cl;
  tk_done : c_done k = true -> dead k;
}.

(** What must hold of CPU [c]. *)
Record local (c : Z) (cl : cpu_local) (G : gmap Z core) : Prop := {
  lc_count : run_count cl = Z.of_nat (length (run_queue cl));
  lc_nodup : NoDup (run_queue cl ++ wakeup_list cl);
  lc_tnodup : NoDup (timer_queue cl);
  lc_sorted : StronglySorted Z.le (deadline_of G <$> timer_queue cl);
  lc_queued : forall t, t ∈ run_queue cl ++ wakeup_list cl ->
    exists k, G !! t = Some k /\ c_cpu k = c /\ c_state k = READY;
  lc_timed : forall t, t ∈ timer_queue cl ->
    exists k, G !! t = Some k /\ c_cpu k = c /\ c_deadline k <> 0;
  lc_cur : exists k, G !! cur_proc cl = Some k /\ c_cpu k = c /\ c_done k = false;
  lc_next : forall t, switching cl = Some t ->
    exists k, G !! t = Some k /\ c_cpu k = c /\ c_state k = RUNNING /\ c_done k = false;
  lc_idle : G !! idle_proc cl = Some (Core RUNNING 0 c false);
  lc_left : forall t k, switching cl = Some t -> G !! cur_proc cl = Some k -> c_state k = RUNNING ->
    cur_proc cl = idle_proc cl \/ cur_proc cl = t;
  lc_dead : forall t, pending_dead cl = Some t ->
    (exists k, G !! t = Some k /\ c_cpu k = c /\ dead k /\ c_done k = false) /\
    (cur_proc cl = t -> switching cl <> None);
  lc_tasks : forall t k, G !! t = Some k -> c_cpu k = c -> task_ok t k cl;
}.

(** A task that has no CPU is a slot just allocated or given up. *)
Definition off_cpu (k : core) : Prop :=
  c_deadline k = 0 /\ ((c_state k = UNUSED /\ c_cpu k = -1 /\ c_done k = false) \/ c_state k = REAPING).

Record Inv (G : gmap Z core) (C : gmap Z cpu_local) (n : Z) : Prop := {
  inv_ncpu : 0 <= n;
  inv_cpus : forall c, is_Some (C !! c) <-> 0 <= c < n;
  inv_local : forall c cl, C !! c = Some cl -> local c cl G;
  inv_off : forall t k, G !! t = Some k -> C !! c_cpu k = None -> off_cpu k;
}.

Definition cores (s : sched) : gmap Z core := core_of <$> tasks s.
Definition sinv (s : sched) : Prop := Inv (cores s) (cpu_locals s) (ncpu s).

(** *** Frame rules *)

Definition same_on (c : Z) (G G' : gmap Z core) : Prop :=
  forall t k, c_cpu k = c -> G !! t = Some k <-> G' !! t = Some k.

Lemma local_frame c cl G G' : same_on c G G' -> local c cl G -> local c cl G'.
Proof.
  intros Hs [? ? ? Hsrt Hq Ht Hc Hn Hi Hlf Hd Hk].
  assert (Hf : forall t k, c_cpu k = c -> G !! t = Some k -> G' !! t = Some k) by (intros; by apply Hs).
  split; try done; auto.
  - replace (deadline_of G' <$> timer_queue cl) with (deadline_of G <$> timer_queue cl); [done |].
    apply list_fmap_ext. intros i t Hi'%list_elem_of_lookup_2. destruct (Ht t Hi') as (k & HG & Hck & _).
    unfold deadline_of. by rewrite HG, (Hf t k Hck HG).
  - intros t H1. destruct (Hq t H1) as (k & ? & ? & ?). eauto.
  - intros t H1. destruct (Ht t H1) as (k & ? & ? & ?). eauto.
  - destruct Hc as (k & ? & ? & ?). eauto.
  - intros t H1. destruct (Hn t H1) as (k & ? & ? & ? & ?). eauto 6.
  - intros t k' Hsw Hk' Hr. destruct Hc as (k & HG & Hck & _).
    rewrite (Hf _ _ Hck HG) in Hk'. simplify_eq. eauto.
  - intros t H1. destruct (Hd t H1) as ((k & ? & ? & ? & ?) & ?). split; eauto 6.
  - intros t k HG Hck. apply Hk; [by apply Hs | done].
Qed.

(** Changing CPU [c] and tasks of CPU [c] only. *)
Lemma Inv_update G G' C n c cl cl' :
  Inv G C n -> C !! c = Some cl ->
  (forall c' cl0, c' <> c -> C !! c' = Some cl0 -> same_on c' G G') ->
  (forall t k, G' !! t = Some k -> C !! c_cpu k = None -> off_cpu k) ->
  local c cl' G' -> Inv G' (<[c := cl']> C) n.
Proof.
  intros [Hn Hdom Hl _] Hc Hs Ho Hc'. split.
  - done.
  - intros c'. rewrite <- Hdom. destruct (decide (c' = c)) as [-> |].
    + rewrite lookup_insert_eq, Hc. split; by eexists.
    + by rewrite lookup_insert_ne.
  - intros c0 cl0. destruct (decide (c0 = c)) as [-> |].
    + rewrite lookup_insert_eq. by intros [= <-].
    + rewrite lookup_insert_ne by done. intros Hc0. apply (local_frame _ _ G); [by eapply Hs | auto].
  - intros t k HG Hnone. apply (Ho t); [done |]. destruct (decide (c_cpu k = c)) as [Hk | Hk].
    + by rewrite Hk, lookup_insert_eq in Hnone.
    + by rewrite lookup_insert_ne in Hnone by done.
Qed.

Lemma same_on_insert c G t k' :
  (forall k, G !! t = Some k -> c_cpu k <> c) -> c_cpu k' <> c -> same_on c G (<[t := k']> G).
Proof.
  intros Hk Hk' t0 k0 Hk0. destruct (decide (t0 = t)) as [-> |].
  - rewrite lookup_insert_eq. split; [intros H; by destruct (Hk _ H) | by intros [= ->]].
  - by rewrite lookup_insert_ne.
Qed.

(** One task of CPU [c] changes, and possibly the CPU with it. *)
Lemma Inv_update1 G C n c cl cl' t k k' :
  Inv G C n -> C !! c = Some cl -> G !! t = Some k -> c_cpu k = c -> c_cpu k' = c ->
  local c cl' (<[t := k']> G) -> Inv (<[t := k']> G) (<[c := cl']> C) n.
Proof.
  intros HI Hc HG Hk Hk' Hl. eapply Inv_update; try done.
  - intros c' cl0 Hne _. apply same_on_insert; [| by rewrite Hk']. intros ? ?. simplify_eq. auto.
  - intros t0 k0. destruct (decide (t0 = t)) as [-> |].
    + rewrite lookup_insert_eq. intros [= <-]. by rewrite Hk', Hc.
    + rewrite lookup_insert_ne by done. apply (inv_off _ _ _ HI).
Qed.

Lemma Inv_local G C n c cl cl' : Inv G C n -> C !! c = Some cl -> local c cl' G -> Inv G (<[c := cl']> C) n.
Proof. intros HI ? ?. eapply Inv_update; try done. apply (inv_off _ _ _ HI). Qed.

(** *** What each transition does to the invariant of its CPU *)

(** Case analysis on the task an update is about. *)
Ltac at_task t0 t := destruct (decide (t0 = t)) as [-> |];
  [rewrite ?lookup_insert_eq | rewrite ?lookup_insert_ne by done].

Ltac at_field f t := let Heq := fresh "Heq" in destruct (decide (f = t)) as [Heq |];
  [rewrite Heq in *; rewrite ?lookup_insert_eq | rewrite ?lookup_insert_ne by done].

Lemma deadline_of_insert_ne G t k t0 : t0 <> t -> deadline_of (<[t := k]> G) t0 = deadline_of G t0.
Proof. intros. unfold deadline_of. by rewrite lookup_insert_ne. Qed.

Lemma deadlines_insert G t k (q : list Z) : t ∉ q -> deadline_of (<[t := k]> G) <$> q = deadline_of G <$> q.
Proof.
  intros Hq. apply list_fmap_ext. intros i x Hx%list_elem_of_lookup_2.
  apply deadline_of_insert_ne. by intros ->.
Qed.

Lemma deadlines_same G t k k' (q : list Z) : G !! t = Some k -> c_deadline k' = c_deadline k ->
  deadline_of (<[t := k']> G) <$> q = deadline_of G <$> q.
Proof.
  intros HG Hd. apply list_fmap_ext. intros i x _. unfold deadline_of.
  at_task x t; [by rewrite HG |]. done.
Qed.

Lemma elem_of_without t x l : x ∈ without t l <-> x ∈ l /\ x <> t.
Proof. unfold without. rewrite list_elem_of_filter. tauto. Qed.

Lemma without_id t l : t ∉ l -> without t l = l.
Proof.
  unfold without. induction l as [| x l IH]; [done |]. intros [? ?]%not_elem_of_cons.
  rewrite filter_cons, decide_True by congruence. by rewrite IH.
Qed.

Lemma without_app t l l' : without t (l ++ l') = without t l ++ without t l'.
Proof. apply filter_app. Qed.

Lemma without_cons t l : t ∉ l -> without t (t :: l) = l.
Proof. intros. unfold without. rewrite filter_cons, decide_False by (intros Hn; by apply Hn). by apply without_id. Qed.

Lemma without_Permutation t l : NoDup l -> t ∈ l -> l ≡ₚ t :: without t l.
Proof.
  intros Hn (l1 & l2 & ->)%list_elem_of_split. apply NoDup_app in Hn as (? & Hd & Hn).
  apply NoDup_cons in Hn as [? ?]. rewrite without_app, without_cons, without_id; [| | done].
  - by rewrite Permutation_middle.
  - intros ?. by apply (Hd t); [| left].
Qed.

Lemma sorted_without (f : Z -> Z) t (q : list Z) :
  StronglySorted Z.le (f <$> q) -> StronglySorted Z.le (f <$> without t q).
Proof.
  unfold without. induction q as [| x q IH]; [done |]. rewrite fmap_cons. inversion 1; subst.
  rewrite filter_cons. case_decide; [| auto]. rewrite fmap_cons. constructor; [auto |].
  match goal with H : Forall _ _ |- _ => rewrite Forall_fmap, Forall_forall in H; rename H into Hq end.
  apply Forall_fmap, Forall_forall. intros y [_ Hy]%list_elem_of_filter. auto.
Qed.

Section local_rules.
Context {c : Z} {cl : cpu_local} {G : gmap Z core} (HL : local c cl G).

Lemma queued_state t k : t ∈ run_queue cl ++ wakeup_list cl -> G !! t = Some k ->
  c_cpu k = c /\ c_state k = READY /\ c_deadline k = 0 /\ c_done k = false.
Proof.
  intros Hq HG. destruct (lc_queued _ _ _ HL t Hq) as (k' & HG' & Hc & Hst). simplify_eq.
  destruct (lc_tasks _ _ _ HL t k HG eq_refl) as [_ _ _ Ha Hd]. split_and!; [done | done | |].
  - destruct (decide (c_deadline k = 0)) as [| Hne]; [done |]. destruct (Ha Hne). congruence.
  - destruct (c_done k); [| done]. destruct Hd as [? | ?]; congruence.
Qed.

Lemma not_queued t k : G !! t = Some k -> c_state k <> READY -> t ∉ run_queue cl ++ wakeup_list cl.
Proof. intros HG Hst Hq. by destruct (queued_state t k Hq HG) as (_ & ? & _). Qed.

Lemma not_timed t k : G !! t = Some k -> c_deadline k = 0 -> t ∉ timer_queue cl.
Proof. intros HG Hd Hq. destruct (lc_timed _ _ _ HL t Hq) as (? & ? & _ & ?). by simplify_eq. Qed.

Lemma armed_blocked t k : G !! t = Some k -> c_cpu k = c -> c_state k <> BLOCKED -> c_deadline k = 0.
Proof.
  intros HG Hc Hst. destruct (decide (c_deadline k = 0)) as [| Hne]; [done |].
  by destruct (tk_armed _ _ _ (lc_tasks _ _ _ HL t k HG Hc) Hne).
Qed.

Lemma not_next t k : G !! t = Some k -> c_state k <> RUNNING -> switching cl <> Some t.
Proof. intros HG Hst Hq. destruct (lc_next _ _ _ HL t Hq) as (? & ? & _ & ? & _). congruence. Qed.

Lemma not_idle t k : G !! t = Some k -> c_state k <> RUNNING -> idle_proc cl <> t.
Proof. intros HG Hst <-. rewrite (lc_idle _ _ _ HL) in HG. by simplify_eq. Qed.

Lemma not_pending t k : G !! t = Some k -> ~ dead k -> pending_dead cl <> Some t.
Proof. intros HG Hst Hq. destruct (lc_dead _ _ _ HL t Hq) as ((? & ? & _ & ? & _) & _). by simplify_eq. Qed.

Lemma live_not_done t k : G !! t = Some k -> c_cpu k = c -> ~ dead k -> c_done k = false.
Proof.
  intros HG Hc Hst. destruct (c_done k) eqn:Hd; [| done].
  destruct Hst. by apply (lc_tasks _ _ _ HL t k HG Hc).
Qed.

(** A task becomes READY and is queued. *)
Lemma local_ready t rq wl n :
  rq ++ wl ≡ₚ t :: run_queue cl ++ wakeup_list cl -> n = Z.of_nat (length rq) ->
  t ∉ run_queue cl ++ wakeup_list cl -> t ∉ timer_queue cl -> pending_dead cl <> Some t ->
  switching cl <> Some t -> idle_proc cl <> t ->
  local c (set_wl wl (set_rq rq n cl)) (<[t := Core READY 0 c false]> G).
Proof using HL.
  intros Hp -> Hq Ht Hpd Hsw Hidle. destruct HL as [Hcnt Hnd Htnd Hs Hqd Htm Hcur Hnx Hid Hlf Hdd Htk].
  split; cbn; try done.
  - rewrite Hp. by constructor.
  - by rewrite deadlines_insert.
  - intros t0. rewrite Hp, elem_of_cons. intros Ht0. at_task t0 t; [by eexists |].
    destruct Ht0 as [| Ht0]; [done | auto].
  - intros t0 Ht0. at_task t0 t; [done | auto].
  - at_field (cur_proc cl) t; [by eexists | done].
  - intros t0 Ht0. at_task t0 t; [done | auto].
  - by rewrite lookup_insert_ne.
  - intros t0 k Ht0. at_field (cur_proc cl) t; [| eauto]. intros. by simplify_eq.
  - intros t0 Ht0. at_task t0 t; [done | auto].
  - intros t0 k. at_task t0 t.
    + intros [= <-] _. split; cbn; try done. intros _. rewrite Hp. left.
    + intros HG Hc. destruct (Htk t0 k HG Hc) as [? Hr ? ? ?]. split; cbn; try done.
      intros Hst. rewrite Hp. right. auto.
Qed.

Lemma local_enqueue t k :
  G !! t = Some k -> c_state k <> READY -> c_state k <> RUNNING -> ~ dead k -> c_deadline k = 0 ->
  local c (set_rq (run_queue cl ++ [t]) (run_count cl + 1) cl) (<[t := Core READY 0 c false]> G).
Proof using HL.
  intros HG Hr Hrun Hd Hdl. apply (local_ready t (run_queue cl ++ [t]) (wakeup_list cl) (run_count cl + 1)).
  - rewrite <- app_assoc. symmetry. apply Permutation_middle.
  - pose proof (lc_count _ _ _ HL). rewrite length_app. change (length [t]) with 1%nat. lia.
  - by apply (not_queued t k HG).
  - by apply (not_timed t k HG).
  - by apply (not_pending t k HG).
  - by apply (not_next t k HG).
  - by apply (not_idle t k HG).
Qed.

(** A task changes its state without moving. *)
Lemma local_restate t k k' :
  G !! t = Some k -> c_cpu k = c -> c_cpu k' = c -> c_deadline k' = c_deadline k -> c_done k' = c_done k ->
  c_state k <> READY -> c_state k' <> READY -> c_state k' <> RUNNING -> c_state k' <> UNUSED ->
  idle_proc cl <> t -> switching cl <> Some t ->
  (c_deadline k <> 0 -> c_state k' = BLOCKED) -> (dead k -> dead k') ->
  local c cl (<[t := k']> G).
Proof using HL.
  intros HG Hk Hk' Hdl Hdn Hr Hr' Hrun Hun Hidle Hsw Hb Hdead.
  pose proof (not_queued t k HG Hr) as Hnq.
  pose proof (lc_tasks _ _ _ HL t k HG Hk) as Hok.
  destruct HL as [Hcnt Hnd Htnd Hs Hqd Htm Hcur Hnx Hid Hlf Hdd Htk]. split; try done.
  - by rewrite (deadlines_same _ _ k).
  - intros t0 Ht0. at_task t0 t; [done | auto].
  - intros t0 Ht0. destruct (Htm t0 Ht0) as (k0 & ? & ? & ?). at_task t0 t; [| eauto].
    simplify_eq. eexists. split_and!; [done | congruence..].
  - destruct Hcur as (k0 & HG0 & ? & ?). at_field (cur_proc cl) t; [| eauto].
    simplify_eq. eexists. split_and!; [done | congruence..].
  - intros t0 Ht0. at_task t0 t; [done | auto].
  - by rewrite lookup_insert_ne.
  - intros t0 k0 Ht0. at_field (cur_proc cl) t; [| eauto]. intros. by simplify_eq.
  - intros t0 Ht0. destruct (Hdd t0 Ht0) as ((k0 & ? & ? & ? & ?) & ?). split; [| done].
    at_task t0 t; [| eauto 6]. simplify_eq. eexists. split_and!; [done | congruence | auto | congruence].
  - intros t0 k0. at_task t0 t; [| auto]. intros [= <-] _. destruct Hok. split; try done.
    + rewrite Hdl. intros Hne. split; [auto |]. by apply tk_armed0.
    + rewrite Hdn. auto.
Qed.

(** A queued task moves from the timer handler's list to the run queue. *)
Lemma local_deliver t wl :
  wakeup_list cl = t :: wl ->
  local c (set_rq (run_queue cl ++ [t]) (run_count cl + 1) (set_wl wl cl)) G.
Proof using HL.
  intros Hw. destruct HL as [Hcnt Hnd Htnd Hs Hqd Htm Hcur Hnx Hid Hlf Hdd Htk].
  assert (Hp : (run_queue cl ++ [t]) ++ wl = run_queue cl ++ wakeup_list cl)
    by (by rewrite Hw, <- app_assoc).
  split; cbn; rewrite ?Hp; try done.
  - rewrite length_app. cbn. lia.
  - intros t0 k HG Hc. destruct (Htk t0 k HG Hc). split; cbn; rewrite ?Hp; auto.
Qed.

(** The deadline of a blocked task is disarmed. *)
Lemma local_disarm t d dn :
  G !! t = Some (Core BLOCKED d c dn) ->
  local c (set_tq (without t (timer_queue cl)) cl) (<[t := Core BLOCKED 0 c dn]> G).
Proof using HL.
  intros HG. pose proof (not_queued t _ HG ltac:(done)) as Hnq.
  pose proof (not_next t _ HG ltac:(done)) as Hsw. pose proof (not_idle t _ HG ltac:(done)) as Hni.
  assert (Hnd' : pending_dead cl <> Some t) by (apply (not_pending t _ HG); intros []; done).
  pose proof (lc_tasks _ _ _ HL t _ HG eq_refl) as Hok.
  destruct HL as [Hcnt Hnd Htnd Hs Hqd Htm Hcur Hnx Hid Hlf Hdd Htk]. split; cbn; try done.
  - by apply NoDup_filter.
  - rewrite deadlines_insert; [by apply sorted_without |]. rewrite elem_of_without. tauto.
  - intros t0 Ht0. at_task t0 t; [done | auto].
  - intros t0 [Ht0 ?]%elem_of_without. at_task t0 t; [done | auto].
  - destruct Hcur as (k0 & HG0 & ? & ?). at_field (cur_proc cl) t; [| eauto].
    rewrite HG in HG0. injection HG0 as <-. by eexists.
  - intros t0 Ht0. at_task t0 t; [done | auto].
  - by rewrite lookup_insert_ne.
  - intros t0 k0 Ht0. at_field (cur_proc cl) t; [| eauto]. intros. by simplify_eq.
  - intros t0 Ht0. at_task t0 t; [done | auto].
  - intros t0 k0. at_task t0 t.
    + intros [= <-] _. destruct Hok as [_ _ _ _ Hd]. split; cbn in *; try done.
    + intros HG0 Hc0. destruct (Htk t0 k0 HG0 Hc0) as [? ? ? Ha ?]. split; cbn; try done.
      intros Hd. destruct (Ha Hd). split; [done |]. by apply elem_of_without.
Qed.

(** The deadline of a blocked task is armed. *)
Lemma local_arm t d dn q :
  G !! t = Some (Core BLOCKED 0 c dn) -> d <> 0 -> q ≡ₚ t :: timer_queue cl ->
  StronglySorted Z.le (deadline_of (<[t := Core BLOCKED d c dn]> G) <$> q) ->
  local c (set_tq q cl) (<[t := Core BLOCKED d c dn]> G).
Proof using HL.
  intros HG Hd0 Hp Hq. pose proof (not_queued t _ HG ltac:(done)) as Hnq.
  pose proof (not_next t _ HG ltac:(done)) as Hsw. pose proof (not_idle t _ HG ltac:(done)) as Hni.
  pose proof (not_timed t _ HG eq_refl) as Hnt.
  assert (Hnd' : pending_dead cl <> Some t) by (apply (not_pending t _ HG); intros []; done).
  pose proof (lc_tasks _ _ _ HL t _ HG eq_refl) as Hok.
  destruct HL as [Hcnt Hnd Htnd Hs Hqd Htm Hcur Hnx Hid Hlf Hdd Htk]. split; cbn; try done.
  - rewrite Hp. by constructor.
  - intros t0 Ht0. at_task t0 t; [done | auto].
  - intros t0. rewrite Hp, elem_of_cons. intros Ht0. at_task t0 t; [by eexists |].
    destruct Ht0 as [| Ht0]; [done | auto].
  - destruct Hcur as (k0 & HG0 & ? & ?). at_field (cur_proc cl) t; [| eauto].
    rewrite HG in HG0. injection HG0 as <-. by eexists.
  - intros t0 Ht0. at_task t0 t; [done | auto].
  - by rewrite lookup_insert_ne.
  - intros t0 k0 Ht0. at_field (cur_proc cl) t; [| eauto]. intros. by simplify_eq.
  - intros t0 Ht0. at_task t0 t; [done | auto].
  - intros t0 k0. at_task t0 t.
    + intros [= <-] _. destruct Hok as [_ _ _ _ Hd]. split; cbn in *; try done.
      intros _. split; [done |]. rewrite Hp. left.
    + intros HG0 Hc0. destruct (Htk t0 k0 HG0 Hc0) as [? ? ? Ha ?]. split; cbn; try done.
      intros Hd. destruct (Ha Hd). split; [done |]. rewrite Hp. by right.
Qed.

(** The timer queue in another order of the same deadlines. *)
Lemma local_timers q :
  q ≡ₚ timer_queue cl -> StronglySorted Z.le (deadline_of G <$> q) -> local c (set_tq q cl) G.
Proof using HL.
  intros Hp Hq. destruct HL as [Hcnt Hnd Htnd Hs Hqd Htm Hcur Hnx Hid Hlf Hdd Htk]. split; cbn; try done.
  - by rewrite Hp.
  - intros t0. rewrite Hp. auto.
  - intros t0 k0 HG0 Hc0. destruct (Htk t0 k0 HG0 Hc0) as [? ? ? Ha ?]. split; cbn; try done.
    by rewrite Hp.
Qed.

(** The current task takes back a wake-up that has queued it, and runs on. *)
Lemma local_cancel t k :
  G !! t = Some k -> c_cpu k = c -> ~ dead k -> c_deadline k = 0 -> cur_proc cl = t ->
  idle_proc cl <> t -> switching cl = None -> wakeup_list cl = [] ->
  local c (set_rq (without t (run_queue cl)) (Z.of_nat (length (without t (run_queue cl)))) cl)
    (<[t := Core RUNNING 0 c false]> G).
Proof using HL.
  intros HG Hk Hnd' Hdl Hct Hni Hsw Hwl. pose proof (not_timed t k HG Hdl) as Hnt.
  pose proof (not_pending t k HG Hnd') as Hnp.
  destruct HL as [Hcnt Hnd Htnd Hs Hqd Htm Hcur Hnx Hid Hlf Hdd Htk]. rewrite Hwl, app_nil_r in *.
  split; cbn; rewrite ?Hwl, ?app_nil_r; try done.
  - by apply NoDup_filter.
  - by rewrite deadlines_insert.
  - intros t0 [Ht0 ?]%elem_of_without. at_task t0 t; [done |]. by apply Hqd.
  - intros t0 Ht0. at_task t0 t; [done | auto].
  - rewrite Hct, lookup_insert_eq. by eexists.
  - intros t0. by rewrite Hsw.
  - by rewrite lookup_insert_ne.
  - intros t0 k0. by rewrite Hsw.
  - intros t0 Ht0. at_task t0 t; [done | auto].
  - intros t0 k0. at_task t0 t.
    + intros [= <-] _. split; cbn; try done. auto.
    + intros HG0 Hc0. destruct (Htk t0 k0 HG0 Hc0) as [? Hr ? ? ?]. rewrite Hwl, app_nil_r in Hr.
      split; cbn; rewrite ?Hwl, ?app_nil_r; try done. intros ?. apply elem_of_without. auto.
Qed.

(** [schedule] takes the head of the run queue. *)
Lemma local_dispatch next q :
  run_queue cl = next :: q -> wakeup_list cl = [] -> switching cl = None ->
  (forall k, G !! cur_proc cl = Some k -> c_state k = RUNNING -> cur_proc cl = idle_proc cl) ->
  local c (set_switching (Some next) (set_rq q (run_count cl - 1) cl))
    (<[next := Core RUNNING 0 c false]> G).
Proof using HL.
  intros Hrq Hwl Hsw Hcr. assert (Hq : next ∈ run_queue cl ++ wakeup_list cl) by (rewrite Hrq; left).
  destruct (lc_queued _ _ _ HL next Hq) as (k & HG & _).
  destruct (queued_state next k Hq HG) as (Hk & Hst & Hdl & Hdn).
  pose proof (not_timed next k HG Hdl) as Hnt. pose proof (not_idle next k HG ltac:(by rewrite Hst)) as Hni.
  assert (Hnp : pending_dead cl <> Some next)
    by (apply (not_pending next k HG); intros [? | ?]; congruence).
  destruct HL as [Hcnt Hnd Htnd Hs Hqd Htm Hcur Hnx Hid Hlf Hdd Htk].
  rewrite Hwl, Hrq, app_nil_r in *. apply NoDup_cons in Hnd as [Hnin Hnd].
  split; cbn; rewrite ?Hwl, ?app_nil_r; try done.
  - cbn in Hcnt. lia.
  - by rewrite deadlines_insert.
  - intros t0 Ht0. at_task t0 next; [done |]. apply Hqd. by right.
  - intros t0 Ht0. at_task t0 next; [done | auto].
  - at_field (cur_proc cl) next; [by eexists | done].
  - intros t0 [= <-]. rewrite lookup_insert_eq. by eexists.
  - by rewrite lookup_insert_ne.
  - intros t0 k0 [= <-]. at_field (cur_proc cl) next; [auto |]. intros ? ?. left. eauto.
  - intros t0 Ht0. at_task t0 next; [done |]. split; [by apply Hdd | done].
  - intros t0 k0. at_task t0 next.
    + intros [= <-] _. split; cbn; try done. auto.
    + intros HG0 Hc0. destruct (Htk t0 k0 HG0 Hc0) as [? Hr Hrun ? ?].
      rewrite Hwl, Hrq, app_nil_r in Hr. split; cbn; rewrite ?Hwl, ?app_nil_r; try done.
      * intros Hr0. apply Hr in Hr0 as [|]%elem_of_cons; done.
      * intros Hr0. destruct (Hrun Hr0) as [| [|]]; auto. congruence.
Qed.

(** [schedule] falls back to the idle task. *)
Lemma local_go_idle :
  switching cl = None ->
  (forall k, G !! cur_proc cl = Some k -> c_state k <> RUNNING) ->
  local c (set_switching (Some (idle_proc cl)) cl) G.
Proof using HL.
  intros Hsw Hcr. destruct HL as [Hcnt Hnd Htnd Hs Hqd Htm Hcur Hnx Hid Hlf Hdd Htk]. split; cbn; try done.
  - intros t0 [= <-]. eexists. split; [exact Hid | done].
  - intros t0 k0 _ ? ?. by destruct (Hcr k0).
  - intros t0 Ht0. destruct (Hdd t0 Ht0). done.
  - intros t0 k0 HG0 Hc0. destruct (Htk t0 k0 HG0 Hc0) as [? Hr Hrun ? ?]. split; cbn; try done.
    intros Hr0. destruct (Hrun Hr0) as [| [|]]; auto. congruence.
Qed.

(** The CPU records the dead task it is leaving. *)
Lemma local_record k :
  G !! cur_proc cl = Some k -> dead k -> switching cl <> None ->
  local c (set_dead (Some (cur_proc cl)) cl) G.
Proof using HL.
  intros HG Hk Hsw. destruct HL as [Hcnt Hnd Htnd Hs Hqd Htm Hcur Hnx Hid Hlf Hdd Htk].
  split; cbn; try done.
  - intros t0 [= <-]. split; [| done]. destruct Hcur as (k0 & ? & ? & ?). simplify_eq. eauto.
  - intros t0 k0 HG0 Hc0. by destruct (Htk t0 k0 HG0 Hc0).
Qed.

(** [switch_to] publishes the next task. *)
Lemma local_switch next :
  switching cl = Some next -> local c (set_cur next (set_switching None cl)) G.
Proof using HL.
  intros Hsw. destruct HL as [Hcnt Hnd Htnd Hs Hqd Htm Hcur Hnx Hid Hlf Hdd Htk].
  destruct (Hnx next Hsw) as (kn & HGn & Hkn & Hst & Hdn). split; cbn; try done.
  - eauto.
  - intros t0 Ht0. destruct (Hdd t0 Ht0) as ((k0 & HG0 & ? & Hd0 & ?) & _). split; [eauto 6 |].
    intros ->. simplify_eq. by destruct Hd0; congruence.
  - intros t0 k0 HG0 Hc0. destruct (Htk t0 k0 HG0 Hc0) as [? Hr Hrun ? ?]. split; cbn; try done.
    intros Hr0. destruct (Hrun Hr0) as [Hc | [|]]; [| left; congruence | auto].
    rewrite Hc in Hlf. destruct (Hlf next k0 Hsw HG0 Hr0); [auto | left; done].
Qed.

(** The next [schedule] publishes that the dead task has been left. *)
Lemma local_finalize t k :
  pending_dead cl = Some t -> switching cl = None -> G !! t = Some k ->
  local c (set_dead None cl) (<[t := Core (c_state k) (c_deadline k) c true]> G).
Proof using HL.
  intros Hp Hsw HG. destruct (lc_dead _ _ _ HL t Hp) as ((k0 & HG0 & Hk & Hd & Hdn) & Hcn).
  rewrite HG in HG0. injection HG0 as <-.
  assert (Hnc : cur_proc cl <> t) by (intros ?; by apply Hcn).
  assert (Hnr : c_state k <> READY /\ c_state k <> RUNNING) by (destruct Hd; split; congruence).
  pose proof (not_queued t k HG (proj1 Hnr)) as Hnq. pose proof (not_idle t k HG (proj2 Hnr)) as Hni.
  pose proof (lc_tasks _ _ _ HL t k HG Hk) as Hok.
  destruct HL as [Hcnt Hnd Htnd Hs Hqd Htm Hcur Hnx Hid Hlf Hdd Htk]. split; cbn; try done.
  - by rewrite (deadlines_same _ _ k).
  - intros t0 Ht0. at_task t0 t; [done | auto].
  - intros t0 Ht0. destruct (Htm t0 Ht0) as (k1 & ? & ? & ?). at_task t0 t; [| eauto].
    simplify_eq. by eexists.
  - by rewrite lookup_insert_ne.
  - intros t0. by rewrite Hsw.
  - by rewrite lookup_insert_ne.
  - intros t0 k1. by rewrite Hsw.
  - intros t0 k1. at_task t0 t.
    + intros [= <-] _. destruct Hok. split; cbn; try done.
    + intros HG1 Hc1. by destruct (Htk t0 k1 HG1 Hc1).
Qed.

(** A queued task that is not running leaves for another CPU. *)
Lemma local_leave t k' :
  t ∈ run_queue cl -> cur_proc cl <> t -> c_cpu k' <> c ->
  local c (set_rq (without t (run_queue cl)) (run_count cl - 1) cl) (<[t := k']> G).
Proof using HL.
  intros Hq Hnc Hk'. assert (Hq' : t ∈ run_queue cl ++ wakeup_list cl) by (apply elem_of_app; auto).
  destruct (lc_queued _ _ _ HL t Hq') as (k & HG & _).
  destruct (queued_state t k Hq' HG) as (Hk & Hst & Hdl & Hdn).
  pose proof (not_timed t k HG Hdl) as Hnt. pose proof (not_idle t k HG ltac:(by rewrite Hst)) as Hni.
  pose proof (not_next t k HG ltac:(by rewrite Hst)) as Hsw.
  assert (Hnp : pending_dead cl <> Some t) by (apply (not_pending t k HG); intros [? | ?]; congruence).
  destruct HL as [Hcnt Hnd Htnd Hs Hqd Htm Hcur Hnx Hid Hlf Hdd Htk].
  pose proof (proj1 (proj1 (NoDup_app _ _) Hnd)) as Hnd1.
  pose proof (without_Permutation t _ Hnd1 Hq) as Hp.
  assert (Hnw : without t (run_queue cl) ++ wakeup_list cl = without t (run_queue cl ++ wakeup_list cl)).
  { rewrite without_app. f_equal. symmetry. apply without_id.
    apply NoDup_app in Hnd as (_ & Hd & _). auto. }
  split; cbn; rewrite ?Hnw; try done.
  - apply Permutation_length in Hp. cbn in Hp. lia.
  - by apply NoDup_filter.
  - by rewrite deadlines_insert.
  - intros t0 [Ht0 ?]%elem_of_without. at_task t0 t; [done | auto].
  - intros t0 Ht0. at_task t0 t; [done | auto].
  - by rewrite lookup_insert_ne.
  - intros t0 Ht0. at_task t0 t; [done | auto].
  - by rewrite lookup_insert_ne.
  - rewrite lookup_insert_ne by done. done.
  - intros t0 Ht0. at_task t0 t; [done | auto].
  - intros t0 k0. at_task t0 t; [by intros [= <-] |]. intros HG0 Hc0.
    destruct (Htk t0 k0 HG0 Hc0) as [? Hr ? ? ?]. split; cbn; rewrite ?Hnw; try done.
    intros ?. apply elem_of_without. auto.
Qed.

End local_rules.

(** *** Rules for the primitives, over the part of the state the invariant sees *)

Definition at_ (G : gmap Z core) (C : gmap Z cpu_local) (n : Z) (s : sched) : Prop :=
  cores s = G /\ cpu_locals s = C /\ ncpu s = n.

Lemma at_sinv G C n s : at_ G C n s -> Inv G C n -> sinv s.
Proof. by intros (<- & <- & <-). Qed.

(** No CPU but [c] has [t] in a list. *)
Definition away (t c : Z) (C : gmap Z cpu_local) : Prop :=
  forall c' cl, c' <> c -> C !! c' = Some cl ->
    ~ t ∈ run_queue cl /\ ~ t ∈ wakeup_list cl /\ ~ t ∈ timer_queue cl.

Lemma away_insert t c C cl : away t c C -> away t c (<[c := cl]> C).
Proof. intros H c' cl' Hne. rewrite lookup_insert_ne by done. by apply H. Qed.

Lemma Inv_away G C n t k : Inv G C n -> G !! t = Some k -> away t (c_cpu k) C.
Proof.
  intros HI HG c cl Hne Hc. pose proof (inv_local _ _ _ HI c cl Hc) as HL.
  assert (Hq : t ∉ run_queue cl ++ wakeup_list cl).
  { intros Hq. by destruct (queued_state HL t k Hq HG) as (<- & _). }
  rewrite elem_of_app in Hq. split_and!; [tauto | tauto |].
  intros Ht. destruct (lc_timed _ _ _ HL t Ht) as (k' & ? & <- & _). by simplify_eq.
Qed.

Lemma set_rq_id cl : set_rq (run_queue cl) (run_count cl) cl = cl.
Proof. by destruct cl. Qed.

Lemma set_wl_id cl : set_wl (wakeup_list cl) cl = cl.
Proof. by destruct cl. Qed.

Lemma set_tq_id cl : set_tq (timer_queue cl) cl = cl.
Proof. by destruct cl. Qed.

(** Unlinking a node everywhere is unlinking it where it is. *)
Lemma unlink_local (f : cpu_local -> cpu_local) (C : gmap Z cpu_local) c cl :
  C !! c = Some cl -> (forall c' cl', c' <> c -> C !! c' = Some cl' -> f cl' = cl') ->
  f <$> C = <[c := f cl]> C.
Proof.
  intros Hc Hf. apply map_eq. intros c'. rewrite lookup_fmap. at_task c' c; [by rewrite Hc |].
  destruct (C !! c') eqn:Hc'; cbn; [| done]. f_equal. eauto.
Qed.

Lemma linked_spec (f : cpu_local -> list Z) t (C : gmap Z cpu_local) :
  existsb (fun cl => bool_decide (t ∈ f cl.2)) (map_to_list C) = true <->
  exists c cl, C !! c = Some cl /\ t ∈ f cl.
Proof.
  rewrite existsb_exists. setoid_rewrite bool_decide_eq_true. split.
  - intros ([c cl] & Hin & Ht). exists c, cl. split; [| done]. by apply elem_of_map_to_list, list_elem_of_In.
  - intros (c & cl & Hc & Ht). exists (c, cl). split; [| done]. by apply list_elem_of_In, elem_of_map_to_list.
Qed.

Lemma linked_at (f : cpu_local -> list Z) t c cl (C : gmap Z cpu_local) :
  C !! c = Some cl -> (forall c' cl', c' <> c -> C !! c' = Some cl' -> t ∉ f cl') ->
  existsb (fun cl => bool_decide (t ∈ f cl.2)) (map_to_list C) = bool_decide (t ∈ f cl).
Proof.
  intros Hc Hf. apply eq_true_iff_eq. rewrite linked_spec, bool_decide_eq_true. split; [| eauto].
  intros (c' & cl' & Hc' & Ht). destruct (decide (c' = c)) as [-> | Hne]; [by simplify_eq |].
  by destruct (Hf c' cl' Hne Hc').
Qed.

Lemma not_linked t s :
  (forall c cl, cpu_locals s !! c = Some cl ->
     ~ t ∈ run_queue cl /\ ~ t ∈ wakeup_list cl /\ ~ t ∈ timer_queue cl) ->
  run_linked t s = false /\ wait_linked t s = false.
Proof.
  intros H. split; apply not_true_is_false.
  - intros (c & cl & Hc & Ht)%(linked_spec run_queue). by destruct (H c cl Hc).
  - intros (c & cl & Hc & Ht)%(linked_spec (fun cl => timer_queue cl ++ wakeup_list cl)).
    destruct (H c cl Hc). apply elem_of_app in Ht. tauto.
Qed.

Section rules.
Context {G : gmap Z core} {C : gmap Z cpu_local} {n : Z} {s : sched} (Hat : at_ G C n s).

Lemma wp_get_task t k (Q : xtask -> sched -> Prop) :
  G !! t = Some k -> (forall x, core_of x = k -> Q x s) -> wp (get_task t) s Q.
Proof using Hat.
  destruct Hat as (<- & _). unfold cores. intros (x & Hxk & Hx)%lookup_fmap_Some HQ.
  exists x, s. unfold get_task. rewrite Hx. split; [done | by apply HQ].
Qed.

Lemma wp_upd_task t f k k' (Q : () -> sched -> Prop) :
  G !! t = Some k -> (forall x, core_of x = k -> core_of (f x) = k') ->
  (forall s', at_ (<[t := k']> G) C n s' -> Q () s') -> wp (upd_task t f) s Q.
Proof using Hat.
  destruct Hat as (<- & HC & Hn). unfold cores. intros (x & Hxk & Hx)%lookup_fmap_Some Hf HQ.
  unfold upd_task, wp. rewrite Hx. do 2 eexists. split; [done |]. apply HQ. split_and!; try done.
  unfold cores. cbn. rewrite fmap_insert. by rewrite (Hf x Hxk).
Qed.

(** Assignments to other fields. *)
Lemma wp_upd_aux t f (Q : () -> sched -> Prop) :
  is_Some (G !! t) -> (forall x, core_of (f x) = core_of x) ->
  (forall s', at_ G C n s' -> Q () s') -> wp (upd_task t f) s Q.
Proof using Hat.
  intros [k Hk] Hf HQ. apply (wp_upd_task t f k k); [done | |].
  - intros x <-. apply Hf.
  - by rewrite insert_id.
Qed.

Lemma wp_get_cpu c cl (Q : cpu_local -> sched -> Prop) : C !! c = Some cl -> Q cl s -> wp (get_cpu c) s Q.
Proof using Hat.
  destruct Hat as (_ & <- & _). intros Hc HQ. exists cl, s. unfold get_cpu. by rewrite Hc.
Qed.

Lemma wp_upd_cpu c f cl (Q : () -> sched -> Prop) :
  C !! c = Some cl -> (forall s', at_ G (<[c := f cl]> C) n s' -> Q () s') -> wp (upd_cpu c f) s Q.
Proof using Hat.
  destruct Hat as (HG & <- & Hn). intros Hc HQ. unfold upd_cpu, wp. rewrite Hc.
  do 2 eexists. split; [done |]. by apply HQ.
Qed.

Lemma wp_reads {A} (f : sched -> A) (Q : A -> sched -> Prop) : Q (f s) s -> wp (reads f) s Q.
Proof. intros. by exists (f s), s. Qed.

Lemma wp_assert (b : bool) (Q : () -> sched -> Prop) : b = true -> Q () s -> wp (assert_that b) s Q.
Proof. intros -> ?. by apply wp_ret. Qed.

Lemma run_linked_at t c cl : C !! c = Some cl -> away t c C ->
  run_linked t s = bool_decide (t ∈ run_queue cl).
Proof using Hat.
  destruct Hat as (_ & <- & _). intros Hc Ha. apply (linked_at run_queue t c); [done |].
  intros c' cl' Hne Hc'. by destruct (Ha c' cl' Hne Hc').
Qed.

Lemma wait_linked_at t c cl : C !! c = Some cl -> away t c C ->
  wait_linked t s = bool_decide (t ∈ timer_queue cl ++ wakeup_list cl).
Proof using Hat.
  destruct Hat as (_ & <- & _). intros Hc Ha. apply (linked_at (fun cl => timer_queue cl ++ wakeup_list cl) t c); [done |].
  intros c' cl' Hne Hc'. rewrite elem_of_app. destruct (Ha c' cl' Hne Hc'). tauto.
Qed.
End rules.

(** Execute the next statement with the given rule; the rest of the program
    is the next goal.  The fact about the previous state is dropped. *)
Ltac seq := lazymatch goal with |- wp (_ ≫= _) _ _ => apply wp_bind | _ => idtac end.
Ltac next_state H := let s := fresh "s" in let H' := fresh in intros s H'; clear H; rename H' into H.
Ltac field_eq := by intros [] [=]; cbn in *; subst.

Section queue_rules.
Context {G : gmap Z core} {C : gmap Z cpu_local} {n : Z} {s : sched} (Hat : at_ G C n s).

Lemma wp_push t c cl (Q : () -> sched -> Prop) :
  C !! c = Some cl -> t ∉ run_queue cl -> away t c C ->
  (forall s', at_ G (<[c := set_rq (run_queue cl ++ [t]) (run_count cl + 1) cl]> C) n s' -> Q () s') ->
  wp (run_queue_push c t) s Q.
Proof using Hat.
  intros Hc Hq Ha HQ. unfold run_queue_push. seq. apply wp_reads.
  rewrite (run_linked_at Hat t c cl Hc Ha), bool_decide_false by done.
  seq. apply wp_assert; [done |]. by apply (wp_upd_cpu Hat _ _ cl).
Qed.

Lemma wp_pop t k cl (Q : () -> sched -> Prop) :
  G !! t = Some k -> C !! c_cpu k = Some cl -> t ∈ run_queue cl -> away t (c_cpu k) C ->
  (forall s', at_ G (<[c_cpu k := set_rq (without t (run_queue cl)) (run_count cl - 1) cl]> C) n s' -> Q () s') ->
  wp (run_queue_pop t) s Q.
Proof using Hat.
  intros HG Hc Hq Ha HQ. unfold run_queue_pop. seq. apply wp_reads.
  rewrite (run_linked_at Hat t _ cl Hc Ha), bool_decide_true by done.
  seq. apply wp_assert; [done |]. seq.
  set (f cl := set_rq (without t (run_queue cl)) (run_count cl) cl).
  assert (Hat' : at_ G (<[c_cpu k := f cl]> C) n (set_cpus (f <$> cpu_locals s) s)).
  { destruct Hat as (HG0 & HC0 & ?). split_and!; [done | | done]. cbn. rewrite HC0.
    apply unlink_local; [done |]. intros c' cl' Hne Hc'. unfold f.
    rewrite without_id by (by destruct (Ha c' cl' Hne Hc')). apply set_rq_id. }
  exists (), (set_cpus (f <$> cpu_locals s) s). split; [done |].
  seq. apply (wp_get_task Hat' t k); [done |]. intros x Hx.
  assert (Hxc : assigned_cpu x = c_cpu k) by (by rewrite <- Hx). rewrite Hxc.
  apply (wp_upd_cpu Hat' _ _ (f cl)); [apply lookup_insert_eq |]. intros s' Hs'.
  apply HQ. by rewrite insert_insert_eq in Hs'.
Qed.

Lemma wp_wait_pop t c cl (Q : () -> sched -> Prop) :
  C !! c = Some cl -> t ∈ timer_queue cl -> t ∉ wakeup_list cl -> away t c C ->
  (forall s', at_ G (<[c := set_tq (without t (timer_queue cl)) cl]> C) n s' -> Q () s') ->
  wp (timer_queue_wait_pop t) s Q.
Proof using Hat.
  intros Hc Hq Hw Ha HQ. unfold timer_queue_wait_pop. seq. apply wp_reads.
  rewrite (wait_linked_at Hat t c cl Hc Ha), bool_decide_true by (apply elem_of_app; auto).
  seq. apply wp_assert; [done |].
  exists (). eexists. split; [done |]. apply HQ. destruct Hat as (HG0 & HC0 & ?).
  split_and!; [done | | done]. cbn. rewrite HC0.
  erewrite unlink_local; [| exact Hc |].
  - by rewrite (without_id t (wakeup_list cl)).
  - intros c' cl' Hne Hc'. destruct (Ha c' cl' Hne Hc') as (_ & ? & ?).
    rewrite !without_id by done. by rewrite set_tq_id, set_wl_id.
Qed.

Lemma wp_timer_cancel t k cl (Q : () -> sched -> Prop) :
  G !! t = Some k -> C !! c_cpu k = Some cl -> local (c_cpu k) cl G -> away t (c_cpu k) C ->
  (forall s', at_ (<[t := Core (c_state k) 0 (c_cpu k) (c_done k)]> G)
     (<[c_cpu k := set_tq (without t (timer_queue cl)) cl]> C) n s' -> Q () s') ->
  wp (sched_timer_queue_cancel t) s Q.
Proof using Hat.
  intros HG Hc HL Ha HQ. unfold sched_timer_queue_cancel. seq. apply (wp_get_task Hat t k); [done |].
  intros x Hx. assert (Hd : wait_deadline x = c_deadline k) by (by rewrite <- Hx). rewrite Hd.
  destruct (Z.eqb_spec (c_deadline k) 0) as [Hz | Hnz].
  - apply wp_ret, HQ. rewrite without_id, set_tq_id by (by apply (not_timed HL t k)).
    rewrite (insert_id C) by done. rewrite <- Hz, (insert_id G); [done |]. by destruct k.
  - destruct (tk_armed _ _ _ (lc_tasks _ _ _ HL t k HG eq_refl) Hnz) as [Hb Ht].
    pose proof (not_queued HL t k HG ltac:(by rewrite Hb)) as Hnq. rewrite elem_of_app in Hnq.
    seq. unfold sched_timer_queue_remove. apply (wp_wait_pop t (c_cpu k) cl); [done | done | tauto | done |].
    intros s' Hs'. apply (wp_upd_task Hs' t _ k (Core (c_state k) 0 (c_cpu k) (c_done k))); [done | | done].
    by intros x' <-.
Qed.
End queue_rules.

Lemma Inv_placed G C n t k : Inv G C n -> G !! t = Some k ->
  c_state k <> UNUSED -> c_state k <> REAPING ->
  exists cl, C !! c_cpu k = Some cl /\ local (c_cpu k) cl G /\ away t (c_cpu k) C.
Proof.
  intros HI HG Hu Hr. destruct (C !! c_cpu k) as [cl |] eqn:Hc.
  - exists cl. split_and!; [done | by apply (inv_local _ _ _ HI) | by apply (Inv_away G C n)].
  - destruct (inv_off _ _ _ HI t k HG Hc) as [_ [[? _] | ?]]; congruence.
Qed.

(** *** Waking *)

(** The CPU record after a blocked task of it has been woken. *)
Definition woken (t : Z) (cl : cpu_local) : cpu_local :=
  set_rq (run_queue cl ++ [t]) (run_count cl + 1) (set_tq (without t (timer_queue cl)) cl).

Lemma Inv_woken G C n t k cl : Inv G C n -> G !! t = Some k -> c_state k = BLOCKED ->
  C !! c_cpu k = Some cl ->
  Inv (<[t := Core READY 0 (c_cpu k) false]> G) (<[c_cpu k := woken t cl]> C) n.
Proof.
  intros HI HG Hst Hc. pose proof (inv_local _ _ _ HI _ _ Hc) as HL.
  assert (Hnd : ~ dead k) by (intros [|]; congruence).
  pose proof (live_not_done HL t k HG eq_refl Hnd) as Hdn.
  assert (HG' : G !! t = Some (Core BLOCKED (c_deadline k) (c_cpu k) false))
    by (rewrite HG; destruct k; cbn in *; by subst).
  eapply Inv_update1; try done.
  pose proof (local_disarm HL t _ _ HG') as HL1.
  rewrite <- (insert_insert_eq G t _ (Core BLOCKED 0 (c_cpu k) false)).
  eapply (local_enqueue HL1); [apply lookup_insert_eq | done | done | by intros [|] | done].
Qed.

Lemma wp_wake G C n s t k cl (Q : () -> sched -> Prop) :
  at_ G C n s -> Inv G C n -> G !! t = Some k -> c_state k = BLOCKED -> C !! c_cpu k = Some cl ->
  (forall s', at_ (<[t := Core READY 0 (c_cpu k) false]> G) (<[c_cpu k := woken t cl]> C) n s' -> Q () s') ->
  wp (wake_from_wait t) s Q.
Proof.
  intros Hat HI HG Hst Hc HQ. pose proof (inv_local _ _ _ HI _ _ Hc) as HL.
  pose proof (Inv_away _ _ _ t k HI HG) as Ha.
  pose proof (live_not_done HL t k HG eq_refl ltac:(intros [|]; congruence)) as Hdn.
  pose proof (not_queued HL t k HG ltac:(by rewrite Hst)) as Hnq. rewrite elem_of_app in Hnq.
  unfold wake_from_wait. seq. apply (wp_timer_cancel Hat t k cl); try done. next_state Hat.
  rewrite Hdn in Hat. seq.
  eapply (wp_upd_task Hat t _ _ (Core READY 0 (c_cpu k) false)); [apply lookup_insert_eq | by intros [] [=]; subst |].
  next_state Hat. rewrite insert_insert_eq in Hat.
  seq. apply (wp_upd_aux Hat); [rewrite lookup_insert_eq; by eexists | done |]. next_state Hat.
  seq. eapply (wp_get_task Hat); [apply lookup_insert_eq |]. intros x Hx.
  assert (Hxc : assigned_cpu x = c_cpu k) by (by destruct x; injection Hx).
  assert (Hc' : forall cl', <[c_cpu k := cl']> C !! c_cpu k = Some cl') by (intros; apply lookup_insert_eq).
  rewrite Hxc. seq. apply wp_reads. rewrite (run_linked_at Hat t _ _ (Hc' _)) by (by apply away_insert).
  rewrite bool_decide_false by (cbn; tauto).
  seq. apply (wp_push Hat t _ _ _ (Hc' _)); [cbn; tauto | by apply away_insert |]. next_state Hat.
  rewrite insert_insert_eq in Hat. seq. apply (wp_get_cpu Hat _ _ _ (Hc' _)). cbn.
  destruct (lc_cur _ _ _ HL) as (kc & HGc & _).
  case_match; [by apply wp_ret, HQ |]. apply (wp_upd_aux Hat); [| done | done].
  rewrite lookup_insert_ne by lia. by eexists.
Qed.

(** *** Interleavings

    The actions of the system: one critical section of one CPU each.  What the
    code reads before it takes the lock is an argument of the action: the CPU
    of a task ([cpu], whose lock is then taken) and whether it is stopped. *)
Inductive action :=
  | ACpuUp
  | AAlloc (alloc : bool)
  | AKthread (alloc stack : bool)
  | AClone (c t : Z) (vfork thread : bool)
  | APrepare (c : Z) (event : wait_event_t)
  | AArm (c : Z) (event : wait_event_t) (deadline : Z) (replied : bool)
  | ADisarm (c : Z)
  | ACancel (c : Z)
  | AWakeEvent (cpu t : Z) (event : wait_event_t)
  | AWakeWq (cpu t : Z)
  | AWakeAny (cpu t : Z)
  | AExitGroup (cpu t : Z)
  | AStop (c : Z)
  | AWakeStopped (seen seen' : proc_state) (cpu t sig : Z)
  | ABorrow (cpu t deadline : Z)
  | ASchedule (c now now' : Z)
  | ASwitch (c : Z)
  | ASteal (c : Z) (trylock : bool)
  | AExpire (c now : Z)
  | ADeliver (c : Z)
  | AExit (c : Z)
  | AReap (t : Z).

Definition ignore {A} (m : sp A) : sp () := _ ← m; mret ().

(** What the task current on [c] does. *)
Definition by_current (c : Z) (f : Z -> sp ()) : sp () := cl ← get_cpu c; f (cur_proc cl).

Definition exec (a : action) : sp () :=
  match a with
  | ACpuUp => cpu_up
  | AAlloc alloc => ignore (xtask_alloc alloc)
  | AKthread alloc stack => ignore (kthread_create alloc stack)
  | AClone c t vfork thread => clone_enqueue c t vfork thread
  | APrepare c event => by_current c (fun t => prepare_to_wait t event)
  | AArm c event d replied => by_current c (fun t => ignore (sched_arm_timed_wait t event d replied))
  | ADisarm c => by_current c sched_timer_queue_cancel
  | ACancel c => by_current c sched_cancel_spurious_wake
  | AWakeEvent _ t event => wake_with_event t event
  | AWakeWq _ t => wake_wq_target t
  | AWakeAny _ t => wake_process_any t
  | AExitGroup cpu t => exit_group_wake cpu t
  | AStop c => by_current c do_stop
  | AWakeStopped seen seen' cpu t sig => wake_stopped seen seen' cpu t sig
  | ABorrow cpu t d => alarm_borrow cpu t d
  | ASchedule c now now' => schedule c now now'
  | ASwitch c => switch_to c
  | ASteal c trylock => sched_try_steal_task c trylock
  | AExpire c now => timer_expire c now
  | ADeliver c => timer_deliver c
  | AExit c => by_current c exit_zombie
  | AReap t => sched_task_reap t
  end.

(** The CPU is neither in the timer handler nor between two stacks. *)
Definition quiet (cl : cpu_local) : Prop := wakeup_list cl = [] /\ switching cl = None.

(** A task other than idle runs on [c] in a state satisfying [P]. *)
Definition runs (c : Z) (P : xtask -> Prop) (s : sched) : Prop :=
  exists cl k, cpu_locals s !! c = Some cl /\ quiet cl /\ cur_proc cl <> idle_proc cl /\
    tasks s !! cur_proc cl = Some k /\ P k.

Definition exists_task (t : Z) (s : sched) : Prop := is_Some (tasks s !! t).

Definition cpu_quiet (c : Z) (s : sched) : Prop := exists cl, cpu_locals s !! c = Some cl /\ quiet cl.

(** A slot [xtask_alloc] may hand out. *)
Definition reusable (s : sched) (i : Z) : Prop :=
  0 <= i < MAX_PROC /\
  match tasks s !! i with None => True | Some k => state k = REAPING /\ exit_done k = true end.

(** When the kernel takes an action.  The conditions are those of the calling
    code: what runs in a task's own context needs the task to be running, a
    task is reaped after it is dead. *)
Definition allowed (a : action) (s : sched) : Prop :=
  match a with
  | ACpuUp => exists i, reusable s i
  | AAlloc _ => True
  | AKthread _ _ => 0 < ncpu s
  | AClone c t _ _ => runs c (fun k => state k = RUNNING) s /\
      exists k, tasks s !! t = Some k /\ state k = UNUSED
  | APrepare c _ => runs c (fun k => state k = RUNNING) s
  | AArm c _ d _ => runs c (fun k => state k = RUNNING) s /\ d <> 0
  | ADisarm c => runs c (fun _ => True) s
  | ACancel c => runs c (fun k => state k <> ZOMBIE /\ state k <> REAPING) s
  | AWakeEvent _ t _ | AWakeWq _ t | AWakeAny _ t | AExitGroup _ t | AWakeStopped _ _ _ t _ => exists_task t s
  | AStop c => runs c (fun k => state k = RUNNING) s
  | ABorrow _ t d => d <> 0 /\ exists_task t s
  | ASchedule c _ _ => cpu_quiet c s
  | ASwitch c => exists cl, cpu_locals s !! c = Some cl /\ switching cl <> None
  | ASteal c _ => cpu_quiet c s
  | AExpire c _ => cpu_quiet c s
  | ADeliver c => exists cl, cpu_locals s !! c = Some cl /\ wakeup_list cl <> []
  | AExit c => runs c (fun k => state k = RUNNING) s
  | AReap t => exists k, tasks s !! t = Some k /\ is_dead k = true
  end.

(** What holds of the task [t], if there is one. *)
Definition of_task (t : Z) (P : xtask -> Prop) (s : sched) : Prop := forall k, tasks s !! t = Some k -> P k.

(** The races that the code leaves open are not taken: what was read before
    the lock is still so once it is held, and a task that gives up a wait has
    not been lent the alarm of its process since it was marked as blocked. *)
Definition unraced (a : action) (s : sched) : Prop :=
  match a with
  | AWakeEvent cpu t _ | AWakeWq cpu t | AWakeAny cpu t | AExitGroup cpu t | ABorrow cpu t _ =>
      of_task t (fun k => assigned_cpu k = cpu) s
  | AWakeStopped seen seen' cpu t _ => of_task t (fun k => assigned_cpu k = cpu /\ state k = seen /\ state k = seen') s
  | ACancel c => runs c (fun k => wait_deadline k = 0) s
  | _ => True
  end.

(** Before the first CPU is brought up. *)
Definition sched_init : sched := Sched ∅ ∅ 0 0.

Inductive reachable : sched -> Prop :=
  | reach_init : reachable sched_init
  | reach_step s a s' : reachable s -> allowed a s -> unraced a s -> exec a s = Some ((), s') -> reachable s'.

(** *** Every action preserves the invariant and none faults *)

Lemma at_self s : at_ (cores s) (cpu_locals s) (ncpu s) s.
Proof. done. Qed.

Lemma cores_lookup s t k : tasks s !! t = Some k -> cores s !! t = Some (core_of k).
Proof. intros H. unfold cores. by rewrite lookup_fmap, H. Qed.

Lemma cores_lookup_inv s t k : cores s !! t = Some k -> exists x, tasks s !! t = Some x /\ core_of x = k.
Proof. intros (x & ? & ?)%lookup_fmap_Some. eauto. Qed.

(** A blocked task may be woken, any other is left alone. *)
Lemma wake_if_ok s t (b : xtask -> bool) :
  sinv s -> exists_task t s ->
  wp (k ← get_task t; if bool_decide (state k = BLOCKED) && b k then wake_from_wait t else mret ()) s
    (fun _ s' => sinv s').
Proof.
  intros HI [k Hk]. apply cores_lookup in Hk as HG. seq. apply (wp_get_task (at_self s) t (core_of k)); [done |].
  intros x Hx. case_bool_decide as Hst; [| by apply wp_ret]. destruct (b x); [| by apply wp_ret]. cbn.
  assert (Hsk : state k = BLOCKED) by (injection Hx as <-; done).
  destruct (Inv_placed _ _ _ t _ HI HG) as (cl & Hc & _); [cbn; congruence.. |].
  apply (wp_wake _ _ _ _ t _ cl _ (at_self s) HI HG Hsk Hc).
  intros s' Hs'. eapply at_sinv; [exact Hs' |]. by apply (Inv_woken _ _ _ _ (core_of k)).
Qed.

Lemma wake_blocked_ok s t :
  sinv s -> exists_task t s ->
  wp (k ← get_task t; if bool_decide (state k = BLOCKED) then wake_from_wait t else mret ()) s
    (fun _ s' => sinv s').
Proof.
  intros HI Ht. destruct (wake_if_ok s t (fun _ => true) HI Ht) as (r & s' & He & Hs').
  exists r, s'. split; [| done]. rewrite <- He. unfold mbind, prog_bind. case_match; [| done].
  case_match. by rewrite andb_true_r.
Qed.

Lemma exit_group_ok s cpu t : sinv s -> exists_task t s -> of_task t (fun k => assigned_cpu k = cpu) s ->
  wp (exit_group_wake cpu t) s (fun _ s' => sinv s').
Proof.
  intros HI [k Hk] Hcpu%(fun H => H k Hk). apply cores_lookup in Hk as HG. unfold exit_group_wake.
  seq. apply (wp_get_task (at_self s) t (core_of k)); [done |].
  intros x Hx. case_bool_decide as Hst; [| by apply wp_ret].
  assert (Hsk : c_state (core_of k) = BLOCKED) by (by rewrite <- Hx).
  change (assigned_cpu k) with (c_cpu (core_of k)) in Hcpu. subst cpu.
  destruct (Inv_placed _ _ _ t _ HI HG) as (cl & Hc & HL & Ha); [congruence.. |].
  pose proof (live_not_done HL t _ HG eq_refl ltac:(intros [|]; congruence)) as Hdn.
  pose proof (not_queued HL t _ HG ltac:(by rewrite Hsk)) as Hnq. rewrite elem_of_app in Hnq.
  seq. apply (wp_timer_cancel (at_self s) t (core_of k) cl); try done. intros s1 Hat. rewrite Hdn in Hat.
  seq. eapply (wp_upd_task Hat t _ _ (Core READY 0 (c_cpu (core_of k)) false)); [apply lookup_insert_eq | by intros [] [=]; subst |].
  next_state Hat. rewrite insert_insert_eq in Hat.
  seq. apply (wp_upd_aux Hat); [rewrite lookup_insert_eq; by eexists | done |]. next_state Hat.
  eapply (wp_push Hat t); [apply lookup_insert_eq | cbn; tauto | by apply away_insert |]. next_state Hat.
  rewrite insert_insert_eq in Hat. eapply at_sinv; [exact Hat |].
  by apply (Inv_woken _ _ _ _ (core_of k) cl).
Qed.

(** Facts about the task that runs on a CPU. *)
Lemma runs_facts s c P : sinv s -> runs c P s ->
  exists cl k, cpu_locals s !! c = Some cl /\ quiet cl /\ idle_proc cl <> cur_proc cl /\
    cores s !! cur_proc cl = Some (core_of k) /\ tasks s !! cur_proc cl = Some k /\ P k /\
    assigned_cpu k = c /\ local c cl (cores s) /\ away (cur_proc cl) c (cpu_locals s).
Proof.
  intros HI (cl & k & Hc & Hq & Hi & Hk & HP). exists cl, k.
  pose proof (inv_local _ _ _ HI c cl Hc) as HL. apply cores_lookup in Hk as HG.
  destruct (lc_cur _ _ _ HL) as (k' & HG' & Hck & _). rewrite HG in HG'. injection HG' as <-. cbn in Hck.
  split_and!; try done. rewrite <- Hck. by apply (Inv_away _ _ _ _ (core_of k) HI).
Qed.

Lemma runs_running s c : sinv s -> runs c (fun k => state k = RUNNING) s ->
  exists cl, cpu_locals s !! c = Some cl /\ quiet cl /\ idle_proc cl <> cur_proc cl /\
    cores s !! cur_proc cl = Some (Core RUNNING 0 c false) /\
    local c cl (cores s) /\ away (cur_proc cl) c (cpu_locals s).
Proof.
  intros HI Hr. destruct (runs_facts s c _ HI Hr) as (cl & k & Hc & Hq & Hi & HG & _ & Hst & Hck & HL & Ha).
  exists cl. split_and!; try done. rewrite HG. unfold core_of. rewrite Hst, Hck.
  assert (Hdl : wait_deadline k = 0) by (apply (armed_blocked HL _ _ HG Hck); cbn; by rewrite Hst).
  assert (Hdn : exit_done k = false).
  { apply (live_not_done HL _ _ HG Hck). intros [|]; cbn in *; congruence. }
  by rewrite Hdl, Hdn.
Qed.

Lemma restate_current s c st cl : sinv s -> cpu_locals s !! c = Some cl -> quiet cl ->
  idle_proc cl <> cur_proc cl -> cores s !! cur_proc cl = Some (Core RUNNING 0 c false) ->
  st <> READY -> st <> RUNNING -> st <> UNUSED ->
  Inv (<[cur_proc cl := Core st 0 c false]> (cores s)) (cpu_locals s) (ncpu s).
Proof.
  intros HI Hc [_ Hsw] Hi HG Hr1 Hr2 Hr3. pose proof (inv_local _ _ _ HI c cl Hc) as HL.
  rewrite <- (insert_id (cpu_locals s) c cl) by done.
  eapply Inv_update1; try done. eapply (local_restate HL); try done; cbn; try congruence.
  intros [|]; cbn in *; congruence.
Qed.

Ltac core_eq := intros [] [=]; unfold core_of; cbn in *; congruence.

Lemma insert_deadline_ok T t q :
  (forall p, p ∈ t :: q -> is_Some (T !! p)) ->
  StronglySorted Z.le (deadline_of (core_of <$> T) <$> q) ->
  exists q', insert_deadline T t (deadline_of (core_of <$> T) t) q = Some q' /\ q' ≡ₚ t :: q /\
    StronglySorted Z.le (deadline_of (core_of <$> T) <$> q').
Proof.
  set (f := deadline_of (core_of <$> T)). intros HT Hs.
  induction q as [| p q IH]; [exists [t]; split_and!; [done.. | repeat constructor] |].
  cbn [insert_deadline]. destruct (HT p) as [k Hk]; [right; left |]. rewrite Hk. cbn.
  assert (Hfp : wait_deadline k = f p) by (unfold f, deadline_of; by rewrite lookup_fmap, Hk). rewrite Hfp.
  destruct (Z.ltb_spec (f t) (f p)) as [Hlt | Hge].
  - exists (t :: p :: q). split_and!; [done.. |]. rewrite fmap_cons. constructor; [done |].
    rewrite fmap_cons in *. inversion Hs as [| ? ? ? Hall]; subst. constructor; [lia |].
    eapply Forall_impl; [exact Hall |]. cbn. lia.
  - rewrite fmap_cons in Hs. inversion Hs as [| ? ? Hs' Hall]; subst.
    destruct IH as (q' & -> & Hp & Hsq).
    + intros x [-> | ?]%elem_of_cons; apply HT; [left |]. right. by right.
    + done.
    + cbn. exists (p :: q'). split_and!; [done | by rewrite Hp, Permutation_swap |].
      rewrite fmap_cons. constructor; [done |]. rewrite Forall_fmap in *. rewrite Hp. by constructor.
Qed.

Lemma wp_timer_insert G C n s t c cl k (Q : () -> sched -> Prop) :
  at_ G C n s -> G !! t = Some k -> C !! c = Some cl ->
  (forall p, p ∈ timer_queue cl -> is_Some (G !! p)) ->
  StronglySorted Z.le (deadline_of G <$> timer_queue cl) ->
  (forall q s', q ≡ₚ t :: timer_queue cl -> StronglySorted Z.le (deadline_of G <$> q) ->
     at_ G (<[c := set_tq q cl]> C) n s' -> Q () s') ->
  wp (sched_timer_queue_insert c t) s Q.
Proof.
  intros (<- & <- & Hn) Hk Hc Hp Hs HQ. apply cores_lookup_inv in Hk as (x & Hx & _).
  destruct (insert_deadline_ok (tasks s) t (timer_queue cl)) as (q & Hq & Hqp & Hqs); [| done |].
  { intros p [-> | Hin]%elem_of_cons; [by eexists |]. destruct (Hp p Hin) as [kp Hkp].
    apply cores_lookup_inv in Hkp as (? & ? & _). by eexists. }
  unfold sched_timer_queue_insert, wp. rewrite Hc, Hx. cbn -[insert_deadline].
  assert (Hd : deadline_of (cores s) t = wait_deadline x)
    by (unfold deadline_of; by rewrite (cores_lookup _ _ _ Hx)).
  fold (cores s) in Hq. rewrite Hd in Hq. rewrite Hq. cbn. do 2 eexists. split; [done |].
  by apply (HQ q).
Qed.

(** Arming the timer of a blocked task that has none. *)
Lemma arm_ok G C n s t c cl d dn (Q : () -> sched -> Prop) :
  Inv G C n -> G !! t = Some (Core BLOCKED 0 c dn) -> C !! c = Some cl -> d <> 0 ->
  at_ (<[t := Core BLOCKED d c dn]> G) C n s ->
  (forall s', sinv s' -> cores s' = <[t := Core BLOCKED d c dn]> G -> Q () s') ->
  wp (sched_timer_queue_insert c t) s Q.
Proof.
  intros HI HG Hc Hd Hat HQ. pose proof (inv_local _ _ _ HI c cl Hc) as HL.
  pose proof (not_timed HL t _ HG eq_refl) as Hnt.
  apply (wp_timer_insert _ _ _ s t c cl (Core BLOCKED d c dn) Q Hat); [apply lookup_insert_eq | done | | |].
  - intros p Hp. destruct (lc_timed _ _ _ HL p Hp) as (k & ? & _). at_task p t; by eexists.
  - rewrite deadlines_insert by done. apply (lc_sorted _ _ _ HL).
  - intros q s' Hp Hs Hat'. apply HQ; [| by destruct Hat']. eapply at_sinv; [exact Hat' |].
    eapply Inv_update1; try done. by apply (local_arm HL).
Qed.

Lemma wp_wait_push t c cl G C n s (Q : () -> sched -> Prop) :
  at_ G C n s -> C !! c = Some cl -> t ∉ timer_queue cl -> t ∉ wakeup_list cl -> away t c C ->
  wp (sched_timer_queue_insert c t) s Q -> wp (timer_queue_wait_push c t) s Q.
Proof.
  intros Hat Hc Hq Hw Ha HQ. unfold timer_queue_wait_push. seq. apply wp_reads.
  rewrite (wait_linked_at Hat t c cl Hc Ha), bool_decide_false by (rewrite elem_of_app; tauto).
  seq. by apply wp_assert.
Qed.

Lemma prepare_ok s c event : sinv s -> runs c (fun k => state k = RUNNING) s ->
  wp (by_current c (fun t => prepare_to_wait t event)) s (fun _ s' => sinv s').
Proof.
  intros HI Hr. destruct (runs_running s c HI Hr) as (cl & Hc & Hq & Hi & HG & HL & Ha).
  unfold by_current. seq. apply (wp_get_cpu (at_self s) c cl); [done |].
  unfold prepare_to_wait. seq.
  eapply (wp_upd_task (at_self s) _ _ _ (Core BLOCKED 0 c false)); [done | core_eq |].
  intros s1 Hat. apply (wp_upd_aux Hat); [rewrite lookup_insert_eq; by eexists | done |]. next_state Hat.
  eapply at_sinv; [exact Hat |]. by apply restate_current.
Qed.

Lemma exit_ok s c : sinv s -> runs c (fun k => state k = RUNNING) s ->
  wp (by_current c exit_zombie) s (fun _ s' => sinv s').
Proof.
  intros HI Hr. destruct (runs_running s c HI Hr) as (cl & Hc & Hq & Hi & HG & HL & Ha).
  unfold by_current. seq. apply (wp_get_cpu (at_self s) c cl); [done |].
  eapply (wp_upd_task (at_self s) _ _ _ (Core ZOMBIE 0 c false)); [done | core_eq |].
  intros s1 Hat. eapply at_sinv; [exact Hat |]. by apply restate_current.
Qed.

Lemma arm_wait_ok s c event d replied : sinv s -> runs c (fun k => state k = RUNNING) s -> d <> 0 ->
  wp (by_current c (fun t => ignore (sched_arm_timed_wait t event d replied))) s (fun _ s' => sinv s').
Proof.
  intros HI Hr Hd. destruct (runs_running s c HI Hr) as (cl & Hc & Hq & Hi & HG & HL & Ha).
  unfold by_current. seq. apply (wp_get_cpu (at_self s) c cl); [done |]. set (t := cur_proc cl) in *.
  unfold ignore. seq. unfold sched_arm_timed_wait. seq.
  apply (wp_get_task (at_self s) t _ _ HG). intros x Hx.
  assert (Hxc : assigned_cpu x = c) by (by injection Hx). rewrite Hxc. destruct replied.
  - seq. eapply (wp_upd_task (at_self s) t _ _ (Core RUNNING 0 c false)); [done | core_eq |].
    intros s1 Hat. do 2 apply wp_ret. rewrite insert_id in Hat by done. by eapply at_sinv.
  - seq. eapply (wp_upd_task (at_self s) t _ _ (Core RUNNING d c false)); [done | core_eq |]. intros s1 Hat.
    seq. eapply (wp_upd_task Hat t _ _ (Core BLOCKED d c false)); [apply lookup_insert_eq | core_eq |].
    next_state Hat. rewrite insert_insert_eq in Hat.
    seq. apply (wp_upd_aux Hat); [rewrite lookup_insert_eq; by eexists | done |]. next_state Hat.
    pose proof (restate_current s c BLOCKED cl HI Hc Hq Hi HG ltac:(done) ltac:(done) ltac:(done)) as HI1.
    pose proof (not_queued HL t _ HG ltac:(done)) as Hnq. rewrite elem_of_app in Hnq.
    seq. apply (wp_wait_push t c cl _ _ _ _ _ Hat Hc); [by apply (not_timed HL t _ HG) | tauto | done |].
    eapply (arm_ok _ _ _ _ t c cl d false _ HI1); [apply lookup_insert_eq | done | done | | ].
    + by rewrite insert_insert_eq.
    + intros s' Hs' _. by do 2 apply wp_ret.
Qed.

Lemma borrow_ok s cpu t d : sinv s -> d <> 0 -> exists_task t s -> of_task t (fun k => assigned_cpu k = cpu) s ->
  wp (alarm_borrow cpu t d) s (fun _ s' => sinv s').
Proof.
  intros HI Hd [k Hk] Hcpu%(fun H => H k Hk). apply cores_lookup in Hk as HG. unfold alarm_borrow.
  seq. apply (wp_get_task (at_self s) t (core_of k)); [done |]. intros x Hx.
  case_bool_decide as Hst; [| by apply wp_ret]. destruct (Z.eqb_spec (wait_deadline x) 0) as [Hz |]; [| by apply wp_ret].
  cbn. assert (HG' : cores s !! t = Some (Core BLOCKED 0 (assigned_cpu x) (exit_done x)))
    by (rewrite HG, <- Hx; unfold core_of; by rewrite Hst, Hz).
  assert (cpu = assigned_cpu x) as -> by (injection Hx; congruence).
  destruct (Inv_placed _ _ _ t _ HI HG') as (cl & Hc & _); [done.. |]. cbn in Hc.
  seq. eapply (wp_upd_task (at_self s) t _ _ (Core BLOCKED d (assigned_cpu x) (exit_done x)));
    [exact HG' | core_eq |]. intros s1 Hat.
  by eapply (arm_ok _ _ _ _ t _ cl d _ _ HI HG').
Qed.

Lemma disarm_ok s c : sinv s -> runs c (fun _ => True) s ->
  wp (by_current c sched_timer_queue_cancel) s (fun _ s' => sinv s').
Proof.
  intros HI Hr. destruct (runs_facts s c _ HI Hr) as (cl & k & Hc & Hq & Hi & HG & _ & _ & Hck & HL & Ha).
  unfold by_current. seq. apply (wp_get_cpu (at_self s) c cl); [done |]. subst c.
  apply (wp_timer_cancel (at_self s) _ (core_of k) cl); try done. intros s' Hat.
  eapply at_sinv; [exact Hat |]. cbn in *. destruct (decide (wait_deadline k = 0)) as [Hz | Hnz].
  - rewrite without_id, set_tq_id by (by apply (not_timed HL _ _ HG)). rewrite <- Hz.
    rewrite (insert_id (cpu_locals s)) by done. by rewrite insert_id.
  - destruct (tk_armed _ _ _ (lc_tasks _ _ _ HL _ _ HG eq_refl) Hnz) as [Hb _]. cbn in Hb.
    eapply Inv_update1; try done. rewrite Hb. eapply (local_disarm HL).
    rewrite HG. unfold core_of. by rewrite Hb.
Qed.

Lemma stop_ok s c : sinv s -> runs c (fun k => state k = RUNNING) s ->
  wp (by_current c do_stop) s (fun _ s' => sinv s').
Proof.
  intros HI Hr. destruct (runs_running s c HI Hr) as (cl & Hc & Hq & Hi & HG & HL & Ha).
  unfold by_current. seq. apply (wp_get_cpu (at_self s) c cl); [done |]. set (t := cur_proc cl) in *.
  unfold do_stop. seq. apply (wp_timer_cancel (at_self s) t _ cl _ HG Hc HL Ha). intros s1 Hat. cbn in Hat.
  rewrite without_id, set_tq_id, !insert_id in Hat by (done || by apply (not_timed HL t _ HG)).
  seq. eapply (wp_upd_task Hat t _ _ (Core STOPPED 0 c false)); [done | core_eq |]. next_state Hat.
  apply (wp_upd_aux Hat); [rewrite lookup_insert_eq; by eexists | done |]. next_state Hat.
  eapply at_sinv; [exact Hat |]. by apply restate_current.
Qed.

Lemma resume_ok s t k : sinv s -> tasks s !! t = Some k -> state k = STOPPED ->
  wp (resume_stopped (assigned_cpu k) t) s (fun _ s' => sinv s').
Proof.
  intros HI Hk Hst. apply cores_lookup in Hk as HG.
  destruct (Inv_placed _ _ _ t _ HI HG) as (cl & Hc & HL & Ha); [cbn; congruence.. |]. cbn in Hc, HL, Ha.
  assert (Hdl : wait_deadline k = 0) by (apply (armed_blocked HL _ _ HG eq_refl); cbn; by rewrite Hst).
  assert (Hnd : ~ dead (core_of k)) by (intros [|]; cbn in *; congruence).
  pose proof (live_not_done HL _ _ HG eq_refl Hnd) as Hdn. cbn in Hdn.
  assert (HG' : cores s !! t = Some (Core STOPPED 0 (assigned_cpu k) false))
    by (rewrite HG; unfold core_of; by rewrite Hst, Hdl, Hdn).
  pose proof (not_queued HL t _ HG' ltac:(done)) as Hnq.
  unfold resume_stopped. seq. eapply (wp_upd_task (at_self s) t _ _ (Core READY 0 (assigned_cpu k) false)); [done | core_eq |].
  intros s1 Hat. seq. apply (wp_upd_aux Hat); [rewrite lookup_insert_eq; by eexists | done |]. next_state Hat.
  seq. apply wp_reads. assert (Hnr : t ∉ run_queue cl) by (intros ?; apply Hnq, elem_of_app; auto).
  rewrite (run_linked_at Hat t _ cl Hc Ha), bool_decide_false by done.
  apply (wp_push Hat t _ cl _ Hc Hnr Ha). next_state Hat. eapply at_sinv; [exact Hat |].
  eapply Inv_update1; try done. by apply (local_enqueue HL t _ HG'); [..| intros [|] |].
Qed.

Lemma wake_stopped_ok s seen seen' cpu t sig : sinv s -> exists_task t s ->
  of_task t (fun k => assigned_cpu k = cpu /\ state k = seen /\ state k = seen') s ->
  wp (wake_stopped seen seen' cpu t sig) s (fun _ s' => sinv s').
Proof.
  intros HI [k Hk] (Hcpu & Hs & Hs')%(fun H => H k Hk). subst cpu seen seen'.
  unfold wake_stopped, do_cont. case_bool_decide as Hst; cbn; [| by apply wp_ret].
  case_match; [| case_match; [| by apply wp_ret]]; by apply resume_ok.
Qed.

Lemma cancel_ok s c :
  sinv s -> runs c (fun k => state k <> ZOMBIE /\ state k <> REAPING) s -> runs c (fun k => wait_deadline k = 0) s ->
  wp (by_current c sched_cancel_spurious_wake) s (fun _ s' => sinv s').
Proof.
  intros HI Hr (cl0 & k0 & Hc0 & _ & _ & Hk0 & Hdl0). destruct (runs_facts s c _ HI Hr) as
    (cl & k & Hc & [Hwl Hsw] & Hi & HG & Hk & (Hz & Hrp) & Hck & HL & Ha).
  assert (Hdl : wait_deadline k = 0) by congruence.
  unfold by_current. seq. apply (wp_get_cpu (at_self s) c cl); [done |]. set (t := cur_proc cl) in *.
  assert (Hnd : ~ dead (core_of k)) by (intros [|]; cbn in *; congruence).
  pose proof (live_not_done HL t _ HG Hck Hnd) as Hdn.
  set (cl' := set_rq (without t (run_queue cl)) (Z.of_nat (length (without t (run_queue cl)))) cl).
  assert (Hfin : forall s1, at_ (cores s) (<[c := cl']> (cpu_locals s)) (ncpu s) s1 ->
    wp (_ ← upd_task t (set_sstate RUNNING); upd_task t (set_wait WAIT_NONE false)) s1 (fun _ s' => sinv s')).
  { intros s1 Hat. seq. eapply (wp_upd_task Hat t _ _ (Core RUNNING 0 c false)); [done | |].
    - cbn in Hdn. core_eq.
    - next_state Hat. apply (wp_upd_aux Hat); [rewrite lookup_insert_eq; by eexists | done |]. next_state Hat.
      eapply at_sinv; [exact Hat |]. eapply Inv_update1; try done.
      by apply (local_cancel HL t (core_of k)). }
  unfold sched_cancel_spurious_wake. seq. apply wp_reads. rewrite (run_linked_at (at_self s) t c cl Hc Ha).
  seq. case_bool_decide as Hq.
  - apply (wp_pop (at_self s) t (core_of k) cl); cbn; rewrite ?Hck; try done. intros s1 Hat. apply Hfin.
    replace cl' with (set_rq (without t (run_queue cl)) (run_count cl - 1) cl); [done |]. unfold cl'.
    f_equal. pose proof (lc_nodup _ _ _ HL) as Hn. rewrite Hwl, app_nil_r in Hn.
    pose proof (Permutation_length (without_Permutation t _ Hn Hq)) as Hlen. cbn in Hlen.
    rewrite (lc_count _ _ _ HL). lia.
  - apply wp_ret, Hfin. unfold cl'. rewrite without_id, <- (lc_count _ _ _ HL), set_rq_id by done.
    by rewrite insert_id.
Qed.

Lemma switch_ok s c : sinv s -> (exists cl, cpu_locals s !! c = Some cl /\ switching cl <> None) ->
  wp (switch_to c) s (fun _ s' => sinv s').
Proof.
  intros HI (cl & Hc & Hsw). pose proof (inv_local _ _ _ HI c cl Hc) as HL.
  unfold switch_to. seq. apply (wp_get_cpu (at_self s) c cl); [done |].
  destruct (switching cl) as [next |] eqn:Hn; [| done].
  apply (wp_upd_cpu (at_self s) c _ cl); [done |]. intros s' Hat. eapply at_sinv; [exact Hat |].
  eapply Inv_local; [exact HI | done |]. by apply (local_switch HL).
Qed.

Lemma deliver_ok s c : sinv s -> (exists cl, cpu_locals s !! c = Some cl /\ wakeup_list cl <> []) ->
  wp (timer_deliver c) s (fun _ s' => sinv s').
Proof.
  intros HI (cl & Hc & Hw). pose proof (inv_local _ _ _ HI c cl Hc) as HL.
  unfold timer_deliver. seq. apply (wp_get_cpu (at_self s) c cl); [done |].
  destruct (wakeup_list cl) as [| p wl] eqn:Hwl; [done |].
  assert (Hq : p ∈ run_queue cl ++ wakeup_list cl) by (apply elem_of_app; right; rewrite Hwl; left).
  destruct (lc_queued _ _ _ HL p Hq) as (k & HG & Hck & Hst).
  destruct (queued_state HL p k Hq HG) as (_ & _ & Hdl & _).
  pose proof (not_timed HL p k HG Hdl) as Hnt. pose proof (Inv_away _ _ _ p k HI HG) as Ha. rewrite Hck in Ha.
  pose proof (lc_nodup _ _ _ HL) as Hnd. rewrite Hwl in Hnd. apply NoDup_app in Hnd as (_ & Hd & Hnd).
  apply NoDup_cons in Hnd as [Hnw _].
  assert (Hnr : p ∉ run_queue cl) by (intros H; apply (Hd p H); left).
  set (f cl := set_wl (without p (wakeup_list cl)) (set_tq (without p (timer_queue cl)) cl)).
  assert (Hat : at_ (cores s) (<[c := set_wl wl cl]> (cpu_locals s)) (ncpu s)
                  (set_cpus (f <$> cpu_locals s) s)).
  { split_and!; [done | | done]. cbn. rewrite (unlink_local f _ c cl Hc).
    - unfold f. rewrite Hwl, without_cons, without_id, set_tq_id by done. done.
    - intros c' cl' Hne Hc'. destruct (Ha c' cl' Hne Hc') as (_ & ? & ?). unfold f.
      rewrite !without_id by done. by rewrite set_tq_id, set_wl_id. }
  seq. exists (), (set_cpus (f <$> cpu_locals s) s). split; [done |].
  seq. apply (wp_get_task Hat p k); [done |]. intros x Hx.
  assert (Hxc : assigned_cpu x = c) by (by rewrite <- Hck, <- Hx). rewrite Hxc.
  eapply (wp_push Hat p c); [apply lookup_insert_eq | done | by apply away_insert |].
  intros s' Hs'. rewrite insert_insert_eq in Hs'. eapply at_sinv; [exact Hs' |].
  eapply Inv_local; [exact HI | done |]. by apply (local_deliver HL).
Qed.

Lemma Inv_reaped G C n t st c dn : Inv G C n -> G !! t = Some (Core st 0 c dn) ->
  st = ZOMBIE \/ st = REAPING -> Inv (<[t := Core REAPING 0 c dn]> G) C n.
Proof.
  intros HI HG Hst. destruct (C !! c) as [cl |] eqn:Hc.
  - rewrite <- (insert_id C c cl) by done. pose proof (inv_local _ _ _ HI _ cl Hc) as HL.
    eapply Inv_update1; try done. eapply (local_restate HL); try done; cbn.
    + destruct Hst; congruence.
    + apply (not_idle HL t _ HG). cbn. destruct Hst; congruence.
    + apply (not_next HL t _ HG). cbn. destruct Hst; congruence.
    + intros _. by right.
  - destruct HI as [Hn Hd Hl Ho]. split; try done.
    + intros c' cl' Hc'. apply (local_frame _ _ G); [| auto].
      apply same_on_insert; [| cbn; congruence]. intros ? ?. simplify_eq. cbn. congruence.
    + intros t0 k0. at_task t0 t; [| eauto]. intros [= <-] _. split; [done | by right].
Qed.

Lemma reap_ok s t : sinv s -> (exists k, tasks s !! t = Some k /\ is_dead k = true) ->
  wp (sched_task_reap t) s (fun _ s' => sinv s').
Proof.
  intros HI (k & Hk & Hd). apply cores_lookup in Hk as HG.
  assert (Hdead : state k = ZOMBIE \/ state k = REAPING).
  { unfold is_dead in Hd. by rewrite orb_true_iff, !bool_decide_eq_true in Hd. }
  assert (Hnl : wait_deadline k = 0 /\ run_linked t s = false /\ wait_linked t s = false).
  { destruct (cpu_locals s !! assigned_cpu k) as [cl |] eqn:Hc.
    - pose proof (inv_local _ _ _ HI _ cl Hc) as HL. pose proof (Inv_away _ _ _ t _ HI HG) as Ha. cbn in Ha.
      assert (Hdl : wait_deadline k = 0)
        by (apply (armed_blocked HL _ _ HG eq_refl); cbn; destruct Hdead; congruence).
      pose proof (not_queued HL t _ HG) as Hq. cbn in Hq. rewrite elem_of_app in Hq.
      pose proof (not_timed HL t _ HG Hdl) as Ht.
      rewrite (run_linked_at (at_self s) t _ cl Hc Ha), (wait_linked_at (at_self s) t _ cl Hc Ha).
      assert (state k <> READY) by (destruct Hdead; congruence).
      rewrite !bool_decide_false; rewrite ?elem_of_app; tauto.
    - destruct (inv_off _ _ _ HI t _ HG Hc) as [Hdl _]. split; [done |].
      assert (Hna : forall c' cl', cpu_locals s !! c' = Some cl' ->
        ~ t ∈ run_queue cl' /\ ~ t ∈ wakeup_list cl' /\ ~ t ∈ timer_queue cl').
      { intros c' cl' Hc'. apply (Inv_away _ _ _ t _ HI HG c'); [| done]. cbn. intros ->. congruence. }
      by apply not_linked. }
  destruct Hnl as (Hdl & Hrl & Hwl).
  unfold sched_task_reap. seq. exists k, s. split; [unfold get_task; by rewrite Hk |].
  seq. apply wp_assert; [done |]. seq. apply wp_reads. rewrite Hrl. seq. apply wp_assert; [done |].
  seq. apply wp_reads. rewrite Hwl. seq. apply wp_assert; [done |].
  seq. apply (wp_upd_aux (at_self s)); [by eexists | done |]. intros s1 Hat.
  seq. eapply (wp_upd_task Hat t _ _ (Core REAPING 0 (assigned_cpu k) (exit_done k))); [done | core_eq |].
  next_state Hat. assert (Hlk : is_Some ((<[t := Core REAPING 0 (assigned_cpu k) (exit_done k)]> (cores s)) !! t))
    by (rewrite lookup_insert_eq; by eexists).
  seq. apply (wp_upd_aux Hat); [done.. |]. next_state Hat.
  seq. eapply (wp_upd_task Hat t _ _ (Core REAPING 0 (assigned_cpu k) (exit_done k)));
    [apply lookup_insert_eq | core_eq |]. next_state Hat. rewrite insert_insert_eq in Hat.
  seq. apply (wp_upd_aux Hat); [done.. |]. next_state Hat.
  apply (wp_upd_aux Hat); [done.. |]. next_state Hat. eapply at_sinv; [exact Hat |].
  apply (Inv_reaped _ _ _ t (state k)); [done | | done]. rewrite HG. unfold core_of. by rewrite Hdl.
Qed.

(** A blocked task whose deadline has passed goes to the handler's list. *)
Lemma Inv_expired G C n t k c cl q : Inv G C n -> C !! c = Some cl -> timer_queue cl = t :: q ->
  G !! t = Some k ->
  c_cpu k = c /\ c_state k = BLOCKED /\ c_done k = false /\ t ∉ wakeup_list cl /\ t ∉ q /\
  Inv (<[t := Core READY 0 c false]> G) (<[c := set_wl (wakeup_list cl ++ [t]) (set_tq q cl)]> C) n.
Proof.
  intros HI Hc Htq HG. pose proof (inv_local _ _ _ HI c cl Hc) as HL.
  destruct (lc_timed _ _ _ HL t) as (k' & HG' & Hck & Hdl); [rewrite Htq; left |]. simplify_eq.
  destruct (tk_armed _ _ _ (lc_tasks _ _ _ HL t k HG eq_refl) Hdl) as [Hst _].
  pose proof (live_not_done HL t k HG eq_refl ltac:(intros [|]; congruence)) as Hdn.
  pose proof (not_queued HL t k HG ltac:(by rewrite Hst)) as Hnq.
  pose proof (lc_tnodup _ _ _ HL) as Hnd. rewrite Htq in Hnd. apply NoDup_cons in Hnd as [Hnin _].
  split_and!; try done; [intros ?; apply Hnq, elem_of_app; auto |].
  assert (HG1 : G !! t = Some (Core BLOCKED (c_deadline k) (c_cpu k) false))
    by (rewrite HG; destruct k; cbn in *; congruence).
  pose proof (local_disarm HL t _ _ HG1) as HL1. rewrite Htq, without_cons in HL1 by done.
  rewrite <- (insert_insert_eq G t _ (Core BLOCKED 0 (c_cpu k) false)).
  eapply Inv_update; [exact HI | done | | |].
  - intros c' cl' Hne _. rewrite insert_insert_eq. apply same_on_insert; [| cbn; congruence].
    intros ? ?. simplify_eq. auto.
  - intros t0 k0. rewrite insert_insert_eq. at_task t0 t; [| apply (inv_off _ _ _ HI)].
    intros [= <-]. cbn. by rewrite Hc.
  - apply (local_ready HL1 t (run_queue cl) (wakeup_list cl ++ [t]) (run_count cl)); cbn; try done.
    + rewrite app_assoc, Permutation_app_comm. done.
    + apply (lc_count _ _ _ HL).
    + apply (not_pending HL t k HG). intros [|]; congruence.
    + apply (not_next HL t k HG). congruence.
    + apply (not_idle HL t k HG). congruence.
Qed.

Lemma expire_loop_ok q c now : forall s cl,
  sinv s -> cpu_locals s !! c = Some cl -> timer_queue cl = q ->
  wp (timer_expire_loop q c now) s (fun _ s' => sinv s').
Proof.
  induction q as [| p q IH]; intros s cl HI Hc Htq; [by apply wp_ret |]. cbn [timer_expire_loop].
  pose proof (inv_local _ _ _ HI c cl Hc) as HL.
  destruct (lc_timed _ _ _ HL p) as (k & HG & _); [rewrite Htq; left |].
  destruct (Inv_expired _ _ _ p k c cl q HI Hc Htq HG) as (Hck & Hst & Hdn & Hnw & Hnq & HI').
  seq. apply (wp_get_task (at_self s) p k); [done |]. intros x Hx.
  case_match; [by apply wp_ret |].
  pose proof (Inv_away _ _ _ p k HI HG) as Ha. rewrite Hck in Ha.
  seq. apply (wp_wait_pop (at_self s) p c cl); [done | rewrite Htq; left | done | done |].
  intros s1 Hat. rewrite Htq, without_cons in Hat by done.
  seq. rewrite bool_decide_true by (by rewrite <- Hst, <- Hx).
  assert (HGk : cores s !! p = Some (Core BLOCKED (c_deadline k) c false))
    by (rewrite HG; destruct k; cbn in *; congruence).
  seq. eapply (wp_upd_task Hat p _ _ (Core READY (c_deadline k) c false)); [exact HGk | core_eq |].
  next_state Hat. seq. apply (wp_upd_aux Hat); [rewrite lookup_insert_eq; by eexists | done |]. next_state Hat.
  seq. eapply (wp_upd_task Hat p _ _ (Core READY 0 c false)); [apply lookup_insert_eq | core_eq |].
  next_state Hat. rewrite insert_insert_eq in Hat.
  eapply (wp_upd_cpu Hat c); [apply lookup_insert_eq |]. next_state Hat. rewrite insert_insert_eq in Hat.
  pose proof (at_sinv _ _ _ _ Hat HI') as HI1. destruct Hat as (_ & HC & _).
  eapply (IH _ _ HI1); [by rewrite HC, lookup_insert_eq | done].
Qed.

Lemma expire_ok s c now : sinv s -> cpu_quiet c s -> wp (timer_expire c now) s (fun _ s' => sinv s').
Proof.
  intros HI (cl & Hc & _). unfold timer_expire. seq. apply (wp_get_cpu (at_self s) c cl); [done |].
  by apply (expire_loop_ok _ _ _ s cl).
Qed.

(** *** Context switches *)

Lemma finalize_ok G C n s c cl (Q : () -> sched -> Prop) :
  at_ G C n s -> Inv G C n -> C !! c = Some cl -> quiet cl ->
  (forall G' s', Inv G' (<[c := set_dead None cl]> C) n -> (forall t, c_state <$> G' !! t = c_state <$> G !! t) ->
     at_ G' (<[c := set_dead None cl]> C) n s' -> Q () s') ->
  wp (finalize_dead c) s Q.
Proof.
  intros Hat HI Hc [_ Hsw] HQ. pose proof (inv_local _ _ _ HI c cl Hc) as HL.
  unfold finalize_dead. seq. apply (wp_get_cpu Hat c cl); [done |].
  destruct (pending_dead cl) as [d |] eqn:Hpd.
  - destruct (lc_dead _ _ _ HL d Hpd) as ((k & HG & Hck & _) & _).
    seq. apply (wp_upd_cpu Hat c _ cl); [done |]. next_state Hat.
    eapply (wp_upd_task Hat d _ k (Core (c_state k) (c_deadline k) c true)); [done | |].
    + intros x <-. by cbn in Hck; subst c.
    + intros s' Hat'. eapply HQ; [| | exact Hat'].
      * eapply Inv_update1; try done. by apply (local_finalize HL d k).
      * intros t. at_task t d; [by rewrite HG | done].
  - apply wp_ret. assert (Heq : set_dead None cl = cl) by (unfold set_dead; rewrite <- Hpd; by destruct cl).
    rewrite Heq, insert_id in HQ by done. by eapply HQ.
Qed.

Lemma core_account now x : core_of (account now x) = core_of x.
Proof. unfold account. by case_match. Qed.

(** The CPU record while it switches from [cur_proc] to [next]. *)
Definition leaving (dead : bool) (next : Z) (cl : cpu_local) : cpu_local :=
  set_switching (Some next) (if dead then set_dead (Some (cur_proc cl)) cl else cl).

Lemma local_leaving c cl G next k (d : bool) :
  G !! cur_proc cl = Some k -> (d = true -> dead k) ->
  local c (set_switching (Some next) cl) G -> local c (leaving d next cl) G.
Proof.
  intros HG Hd HL. destruct d; [| done]. unfold leaving.
  by apply (local_record HL k HG (Hd eq_refl)).
Qed.

Lemma wp_record G C n s c cl (b : bool) (Q : () -> sched -> Prop) :
  at_ G C n s -> C !! c = Some cl -> pending_dead cl = None ->
  (forall s', at_ G (<[c := if b then set_dead (Some (cur_proc cl)) cl else cl]> C) n s' -> Q () s') ->
  wp (if b then record_dead c (cur_proc cl) else mret ()) s Q.
Proof.
  intros Hat Hc Hp HQ. destruct b.
  - unfold record_dead. seq. apply (wp_get_cpu Hat c cl); [done |].
    seq. apply wp_assert; [by rewrite Hp |]. by apply (wp_upd_cpu Hat c _ cl).
  - apply wp_ret, HQ. by rewrite insert_id.
Qed.

Lemma schedule_empty_ok G C n s c cl now now' :
  at_ G C n s -> Inv G C n -> C !! c = Some cl -> quiet cl -> pending_dead cl = None ->
  run_queue cl = [] ->
  wp (schedule_empty c (cur_proc cl) (idle_proc cl) now now') s (fun _ s' => sinv s').
Proof.
  intros Hat HI Hc [Hwl Hsw] Hpd Hrq. pose proof (inv_local _ _ _ HI c cl Hc) as HL.
  destruct (lc_cur _ _ _ HL) as (k & HG & Hck & Hdn).
  unfold schedule_empty. seq. apply (wp_get_cpu Hat c cl); [done |].
  seq. apply (wp_get_task Hat _ k); [done |]. intros x Hx.
  seq. apply wp_assert; [by rewrite (lc_count _ _ _ HL), Hrq |].
  case_match eqn:Hb.
  - apply andb_true_iff in Hb as [_ Hb].
    assert (Hst : c_state k <> RUNNING).
    { rewrite <- Hx. cbn. unfold is_dead in Hb. intros Hr. rewrite Hr in Hb. by vm_compute in Hb. }
    seq. apply (wp_upd_aux Hat); [by eexists | apply core_account |]. next_state Hat.
    seq. apply (wp_record _ _ _ _ c cl _ _ Hat Hc Hpd). next_state Hat.
    eapply (wp_upd_cpu Hat c); [apply lookup_insert_eq |]. next_state Hat. rewrite insert_insert_eq in Hat.
    eapply at_sinv; [exact Hat |]. eapply Inv_local; [exact HI | done |].
    apply (local_leaving c cl G (idle_proc cl) k); [done | |].
    + rewrite <- Hx. unfold is_dead, dead. by rewrite orb_true_iff, !bool_decide_eq_true.
    + apply (local_go_idle HL Hsw). intros k' ?. by simplify_eq.
  - case_match; [| apply wp_ret; by eapply at_sinv].
    apply (wp_upd_aux Hat); [by eexists | done |]. next_state Hat. by eapply at_sinv.
Qed.

Lemma schedule_commit_ok G C n s c cl idle next now' :
  at_ G C n s -> C !! c = Some cl -> G !! next = Some (Core READY 0 c false) -> is_Some (G !! cur_proc cl) ->
  pending_dead cl = None -> run_count cl = Z.of_nat (length (run_queue cl)) ->
  (forall cl', local c (set_switching (Some next) cl) (<[next := Core RUNNING 0 c false]> G) ->
    local c cl' (<[next := Core RUNNING 0 c false]> G) ->
    Inv (<[next := Core RUNNING 0 c false]> G) (<[c := cl']> C) n) ->
  local c (set_switching (Some next) cl) (<[next := Core RUNNING 0 c false]> G) ->
  wp (schedule_commit c (cur_proc cl) idle next now') s
    (fun _ s' => sinv s' /\ exists d, cpu_locals s' !! c = Some (leaving d next cl)).
Proof.
  intros Hat Hc HGn [kp HGp] Hpd Hcnt HI HL. unfold schedule_commit.
  seq. eapply (wp_upd_task Hat next _ _ (Core RUNNING 0 c false)); [done | core_eq |]. next_state Hat.
  seq. apply (wp_upd_aux Hat); [rewrite lookup_insert_eq; by eexists | done |]. next_state Hat.
  seq. apply (wp_get_cpu Hat c cl); [done |]. seq. apply wp_assert; [by apply Z.eqb_eq |].
  assert (exists k, <[next := Core RUNNING 0 c false]> G !! cur_proc cl = Some k) as [k HGk]
    by (at_field (cur_proc cl) next; by eexists).
  seq. apply (wp_get_task Hat _ k); [done |]. intros x Hx.
  seq. apply (wp_record _ _ _ _ c cl _ _ Hat Hc Hpd). next_state Hat.
  eapply (wp_upd_cpu Hat c); [apply lookup_insert_eq |]. next_state Hat. rewrite insert_insert_eq in Hat.
  split; [| eexists; destruct Hat as (_ & -> & _); apply lookup_insert_eq].
  eapply at_sinv; [exact Hat |]. apply HI; [done |].
  apply (local_leaving c cl _ next k); [done | | done].
  rewrite <- Hx. unfold is_dead, dead. rewrite andb_true_iff, orb_true_iff, !bool_decide_eq_true. tauto.
Qed.

Lemma local_requeue c cl G t : local c cl G -> G !! t = Some (Core RUNNING 0 c false) ->
  switching cl = None -> pending_dead cl = None -> idle_proc cl <> t ->
  local c (set_rq (run_queue cl ++ [t]) (run_count cl + 1) cl) (<[t := Core READY 0 c false]> G).
Proof.
  intros HL HG Hsw Hpd Hi. apply (local_ready HL t (run_queue cl ++ [t]) (wakeup_list cl) (run_count cl + 1)).
  - rewrite <- app_assoc. symmetry. apply Permutation_middle.
  - pose proof (lc_count _ _ _ HL). rewrite length_app. change (length [t]) with 1%nat. lia.
  - by apply (not_queued HL t _ HG).
  - by apply (not_timed HL t _ HG).
  - by rewrite Hpd.
  - by rewrite Hsw.
  - done.
Qed.

(** The current task is put back at the end of the queue if it can go on. *)
Definition requeued (cl : cpu_local) (k : core) : list Z :=
  if negb (cur_proc cl =? idle_proc cl) && bool_decide (c_state k = RUNNING) then [cur_proc cl] else [].

(** The CPU [c] is about to switch to [next] with [q] left to run. *)
Definition handed_over (c next : Z) (q : list Z) (cl : cpu_local) (s : sched) : Prop :=
  exists cl', cpu_locals s !! c = Some cl' /\ switching cl' = Some next /\ run_queue cl' = q /\
    wakeup_list cl' = wakeup_list cl /\ cur_proc cl' = cur_proc cl /\ idle_proc cl' = idle_proc cl.

Lemma leaving_handed_over c next q cl cl1 d s :
  cpu_locals s !! c = Some (leaving d next cl1) -> run_queue cl1 = q -> wakeup_list cl1 = wakeup_list cl ->
  cur_proc cl1 = cur_proc cl -> idle_proc cl1 = idle_proc cl -> handed_over c next q cl s.
Proof. intros Hc ? ? ? ?. exists (leaving d next cl1). by destruct d. Qed.

Lemma schedule_next_ok G C n s c cl k next q now now' :
  at_ G C n s -> Inv G C n -> C !! c = Some cl -> quiet cl -> pending_dead cl = None ->
  run_queue cl = next :: q -> G !! cur_proc cl = Some k ->
  wp (schedule_next c (cur_proc cl) (idle_proc cl) next now now') s
    (fun _ s' => sinv s' /\ handed_over c next (q ++ requeued cl k) cl s').
Proof.
  intros Hat HI Hc [Hwl Hsw] Hpd Hrq HGp. pose proof (inv_local _ _ _ HI c cl Hc) as HL.
  assert (Hq : next ∈ run_queue cl ++ wakeup_list cl) by (rewrite Hrq; left).
  destruct (lc_queued _ _ _ HL next Hq) as ([st d c' dn] & HGn & _).
  destruct (queued_state HL next _ Hq HGn) as (Hcn & Hst & Hdl & Hdn). cbn in *. subst.
  pose proof (lc_nodup _ _ _ HL) as Hnd. rewrite Hwl, Hrq, app_nil_r in Hnd. apply NoDup_cons in Hnd as [Hnin _].
  assert (Hck : c_cpu k = c) by (destruct (lc_cur _ _ _ HL) as (? & ? & ? & _); congruence).
  unfold requeued. set (prev := cur_proc cl) in *.
  pose proof (lc_count _ _ _ HL) as Hcnt. rewrite Hrq in Hcnt. cbn in Hcnt.
  unfold schedule_next. seq. eapply (wp_pop Hat next); [done | done | rewrite Hrq; left | by apply (Inv_away G C n) |].
  next_state Hat. cbn in Hat. rewrite Hrq, without_cons in Hat by done.
  set (cl1 := set_rq q (run_count cl - 1) cl) in *.
  assert (Hc1 : <[c := cl1]> C !! c = Some cl1) by apply lookup_insert_eq.
  seq. assert (Hacc : forall Q : () -> sched -> Prop, (forall s', at_ G (<[c := cl1]> C) n s' -> Q () s') ->
    wp (if negb (prev =? idle_proc cl) then upd_task prev (account now) else mret ()) s0 Q).
  { intros Q HQ. case_match; [| by apply wp_ret, HQ]. apply (wp_upd_aux Hat); [by eexists | apply core_account | done]. }
  apply Hacc. next_state Hat. clear Hacc. seq. apply (wp_get_task Hat prev k); [done |]. intros x Hx.
  assert (Hxs : state x = c_state k) by (by rewrite <- Hx). rewrite Hxs. seq.
  case_match eqn:Hb.
  - apply andb_true_iff in Hb as [Hi%negb_true_iff%Z.eqb_neq Hr%bool_decide_eq_true].
    pose proof (armed_blocked HL prev k HGp Hck ltac:(congruence)) as Hdl.
    pose proof (live_not_done HL prev k HGp Hck ltac:(intros [|]; congruence)) as Hdn.
    assert (HGp' : G !! prev = Some (Core RUNNING 0 c false)) by (rewrite HGp; destruct k; cbn in *; congruence).
    pose proof (not_queued HL prev _ HGp' ltac:(done)) as Hnq. rewrite Hrq, elem_of_app, elem_of_cons in Hnq.
    assert (Ha : away prev c C) by (rewrite <- Hck; by apply (Inv_away G C n)).
    assert (Hne : next <> prev) by (intros ->; congruence).
    seq. eapply (wp_upd_task Hat prev _ _ (Core READY 0 c false)); [exact HGp' | core_eq |]. next_state Hat.
    eapply (wp_push Hat prev c cl1); [done | cbn; tauto | by apply away_insert |]. next_state Hat.
    rewrite insert_insert_eq in Hat. cbn in Hat.
    pose proof (local_requeue c cl G prev HL HGp' Hsw Hpd ltac:(done)) as HL1.
    eapply wp_mono; [apply (schedule_commit_ok _ _ _ _ c (set_rq (q ++ [prev]) (run_count cl - 1 + 1) cl1)
      (idle_proc cl) next now' Hat); cbn | cbn; intros _ s' [? [d Hd]]; split; [done |];
      by eapply leaving_handed_over].
    + apply lookup_insert_eq.
    + by rewrite lookup_insert_ne.
    + rewrite lookup_insert_eq. by eexists.
    + done.
    + rewrite length_app. cbn. lia.
    + intros cl' _ Hl'. rewrite insert_insert_eq. eapply Inv_update; [exact HI | done | | | done].
      * intros c'' cl0 Hne' _. intros t0 k0 Hk0. at_task t0 next; [split; intros; simplify_eq; cbn in *; congruence |].
        at_task t0 prev; [split; intros; simplify_eq; cbn in *; congruence |]. done.
      * intros t0 k0. at_task t0 next; [intros [= <-]; cbn; by rewrite Hc |].
        at_task t0 prev; [intros [= <-]; cbn; by rewrite Hc |]. apply (inv_off _ _ _ HI).
    + replace (run_count cl - 1 + 1) with (run_count cl + 1 - 1) by lia.
      eapply (local_dispatch HL1 next (q ++ [prev])); cbn; try done; [by rewrite Hrq |].
      fold prev. rewrite lookup_insert_eq. by intros k' [= <-].
  - apply wp_ret. eapply wp_mono; [eapply (schedule_commit_ok _ _ _ _ c cl1 (idle_proc cl) next now' Hat); try done
      | cbn; intros _ s' [? [d Hd]]; split; [done |]; rewrite app_nil_r; by eapply leaving_handed_over].
    + cbn. lia.
    + intros cl' _ Hl'. rewrite insert_insert_eq. eapply Inv_update1; try done.
    + apply (local_dispatch HL next q); try done. fold prev. intros k' ? Hr. simplify_eq.
      apply andb_false_iff in Hb as [Hi%negb_false_iff%Z.eqb_eq | Hb%bool_decide_eq_false]; done.
Qed.

Lemma schedule_spec s c cl k now now' :
  sinv s -> cpu_locals s !! c = Some cl -> quiet cl -> tasks s !! cur_proc cl = Some k ->
  wp (schedule c now now') s (fun _ s' => sinv s' /\
    forall next q, run_queue cl = next :: q -> handed_over c next (q ++ requeued cl (core_of k)) cl s').
Proof.
  intros HI Hc Hq Hk. unfold schedule. seq. apply (wp_get_cpu (at_self s) c cl); [done |].
  seq. apply (finalize_ok _ _ _ _ c cl _ (at_self s) HI Hc Hq). intros G s1 HI1 Hst Hat.
  pose proof (inv_local _ _ _ HI1 c _ (lookup_insert_eq _ _ _)) as HL.
  destruct (lc_cur _ _ _ HL) as (k1 & HG & _). cbn in HG.
  specialize (Hst (cur_proc cl)). rewrite HG, (cores_lookup _ _ _ Hk) in Hst. injection Hst as Hst.
  seq. apply (wp_upd_aux Hat); [by eexists | done |]. next_state Hat.
  seq. eapply (wp_get_cpu Hat c); [apply lookup_insert_eq |]. cbn.
  destruct (run_queue cl) as [| next q] eqn:Hrq.
  - eapply wp_mono; [eapply (schedule_empty_ok _ _ _ _ c (set_dead None cl) now now' Hat HI1); try done;
      apply lookup_insert_eq | done].
  - eapply wp_mono; [eapply (schedule_next_ok _ _ _ _ c (set_dead None cl) k1 next q now now' Hat HI1); try done;
      apply lookup_insert_eq |]. cbn. intros _ s' [? Hh]. split; [done |]. intros ? ? [= <- <-].
    unfold requeued in *. cbn in *. by rewrite Hst in Hh.
Qed.

Lemma schedule_ok s c now now' : sinv s -> cpu_quiet c s -> wp (schedule c now now') s (fun _ s' => sinv s').
Proof.
  intros HI (cl & Hc & Hq). pose proof (inv_local _ _ _ HI c cl Hc) as HL.
  destruct (lc_cur _ _ _ HL) as (k & (x & Hx & _)%cores_lookup_inv & _).
  eapply wp_mono; [by apply (schedule_spec s c cl x) | by intros ? ? [? _]].
Qed.

(** *** Load balancing *)

Lemma pick_victim_ok s my k : sinv s -> forall v best max,
  0 <= v -> v + Z.of_nat k <= ncpu s ->
  0 <= max -> (0 < max -> best <> my /\ exists cl, cpu_locals s !! best = Some cl) ->
  wp (pick_victim k v my best max) s (fun r s' => s' = s /\
    (0 < r.2 -> r.1 <> my /\ exists cl, cpu_locals s !! r.1 = Some cl)).
Proof.
  intros HI. induction k as [| k IH]; intros v best max Hv Hk Hm HP; [by apply wp_ret |].
  cbn [pick_victim]. destruct (Z.eqb_spec v my) as [-> | Hne]; [apply IH; lia || done |].
  destruct (proj2 (inv_cpus _ _ _ HI v)) as [cl Hc]; [lia |].
  seq. apply (wp_get_cpu (at_self s) v cl); [done |].
  destruct (Z.ltb_spec max (run_count cl)); apply IH; try lia; eauto.
Qed.

Lemma steal_tail_spec q cur t : steal_tail q cur = Some t -> t ∈ q /\ t <> cur.
Proof.
  induction q as [| x q IH]; [done |]. cbn. destruct (Z.eqb_spec x cur).
  - intros [? ?]%IH. split; [by right | done].
  - intros [= ->]. split; [left | done].
Qed.

Lemma Inv_stolen G C n v my clv clm t k :
  Inv G C n -> C !! v = Some clv -> C !! my = Some clm -> v <> my ->
  G !! t = Some k -> t ∈ run_queue clv -> cur_proc clv <> t ->
  Inv (<[t := Core READY 0 my false]> G)
    (<[my := set_rq (run_queue clm ++ [t]) (run_count clm + 1) clm]>
      (<[v := set_rq (without t (run_queue clv)) (run_count clv - 1) clv]> C)) n.
Proof.
  intros HI Hv Hm Hne HG Hq Hcur.
  pose proof (inv_local _ _ _ HI v clv Hv) as HLv. pose proof (inv_local _ _ _ HI my clm Hm) as HLm.
  assert (Hq' : t ∈ run_queue clv ++ wakeup_list clv) by (apply elem_of_app; auto).
  destruct (queued_state HLv t k Hq' HG) as (Hck & Hst & Hdl & Hdn).
  destruct (Inv_away _ _ _ t k HI HG my clm) as (Hm1 & Hm2 & Hm3); [congruence | done |].
  assert (Hnd : ~ dead k) by (intros [|]; congruence).
  pose proof HI as [Hn Hdom Hl Ho]. split.
  - done.
  - intros c. rewrite <- Hdom. at_task c my; [rewrite Hm; split; by eexists |].
    at_task c v; [rewrite Hv; split; by eexists | done].
  - intros c cl. at_task c my.
    + intros [= <-]. apply (local_ready HLm t (run_queue clm ++ [t]) (wakeup_list clm) (run_count clm + 1)); try done.
      * rewrite <- app_assoc. symmetry. apply Permutation_middle.
      * pose proof (lc_count _ _ _ HLm). rewrite length_app. change (length [t]) with 1%nat. lia.
      * rewrite elem_of_app. tauto.
      * by apply (not_pending HLm t k HG).
      * apply (not_next HLm t k HG). congruence.
      * apply (not_idle HLm t k HG). congruence.
    + at_task c v.
      * intros [= <-]. by apply (local_leave HLv).
      * intros Hc. apply (local_frame _ _ G); [| auto].
        apply same_on_insert; [| cbn; congruence]. intros ? ?. simplify_eq. auto.
  - intros t0 k0. at_task t0 t.
    + intros [= <-]. cbn. by rewrite lookup_insert_eq.
    + intros HG0 Hnone. apply (Ho t0 k0 HG0). destruct (decide (c_cpu k0 = my)) as [Heq | ?].
      * by rewrite Heq, lookup_insert_eq in Hnone.
      * rewrite lookup_insert_ne in Hnone by done. destruct (decide (c_cpu k0 = v)) as [Heq | ?].
        -- by rewrite Heq, lookup_insert_eq in Hnone.
        -- by rewrite lookup_insert_ne in Hnone by done.
Qed.

Lemma steal_ok s my trylock : sinv s -> cpu_quiet my s ->
  wp (sched_try_steal_task my trylock) s (fun _ s' => sinv s').
Proof.
  intros HI (clm & Hm & _). unfold sched_try_steal_task. seq. apply wp_reads. seq.
  pose proof (inv_ncpu _ _ _ HI) as Hn.
  eapply wp_mono; [apply (pick_victim_ok s my (Z.to_nat (ncpu s)) HI); lia |].
  intros [v max] s' [-> Hv]. cbn in Hv. destruct (Z.leb_spec max 1); [by apply wp_ret |].
  destruct trylock; cbn; [| by apply wp_ret]. destruct Hv as (Hne & clv & Hc); [lia |].
  pose proof (inv_local _ _ _ HI v clv Hc) as HL.
  seq. apply (wp_get_cpu (at_self s) v clv); [done |].
  destruct (run_queue clv) as [| t0 q0] eqn:Hrq; [by apply wp_ret |]. rewrite <- Hrq.
  seq. apply wp_assert; [rewrite (lc_count _ _ _ HL), Hrq; done |].
  destruct (steal_tail _ _) as [t |] eqn:Ht; [| by apply wp_ret].
  apply steal_tail_spec in Ht as [Ht Hcur]. rewrite elem_of_reverse in Ht.
  assert (Hq : t ∈ run_queue clv ++ wakeup_list clv) by (apply elem_of_app; auto).
  destruct (lc_queued _ _ _ HL t Hq) as (k & HG & _).
  destruct (queued_state HL t k Hq HG) as (Hck & Hst & Hdl & Hdn).
  pose proof (Inv_away _ _ _ t k HI HG) as Ha. rewrite Hck in Ha.
  seq. apply (wp_get_task (at_self s) t k); [done |]. intros x Hx.
  seq. apply wp_assert; [apply bool_decide_eq_true; by rewrite <- Hst, <- Hx |].
  seq. apply wp_assert; [apply Z.eqb_eq; by rewrite <- Hck, <- Hx |].
  seq. apply (wp_pop (at_self s) t k clv); rewrite ?Hck; try done. intros s1 Hat.
  assert (HG' : cores s !! t = Some (Core READY 0 v false)) by (rewrite HG; destruct k; cbn in *; congruence).
  seq. eapply (wp_upd_task Hat t _ _ (Core READY 0 my false)); [exact HG' | core_eq |]. next_state Hat.
  destruct (Ha my clm) as (? & ? & ?); [congruence | done |].
  eapply (wp_push Hat t my clm); [by rewrite lookup_insert_ne | done | |].
  - intros c cl Hcm. at_task c v; [| intros; by apply (Ha c)]. intros [= <-]. cbn.
    rewrite elem_of_without. pose proof (lc_nodup _ _ _ HL) as Hnd.
    apply NoDup_app in Hnd as (_ & Hnd & _). split_and!; [tauto | auto | by apply (not_timed HL t k)].
  - next_state Hat. eapply at_sinv; [exact Hat |]. by apply (Inv_stolen _ _ _ v my clv clm t k).
Qed.

(** *** Task slots *)

(** The state after slot [i] has been handed out, or only vacated. *)
Definition slot_taken (i : Z) (alloc : bool) (s : sched) : sched :=
  if alloc then set_next_pid ((i + 1) mod MAX_PROC) (set_tasks (<[i := xtask_defaults]> (tasks s)) s)
  else set_tasks (delete i (tasks s)) s.

Definition slot_at (s : sched) (j : Z) : Z := (next_pid s + j) mod MAX_PROC.

Lemma slot_at_range s j : 0 <= slot_at s j < MAX_PROC.
Proof. by apply Z.mod_pos_bound. Qed.

(** The scan stops at the first slot that may be handed out. *)
Lemma xtask_scan_ok alloc m : forall k s,
  wp (xtask_scan m k alloc) s (fun r s' =>
    (exists j, k <= j < k + Z.of_nat m /\ reusable s (slot_at s j) /\
      (forall j', k <= j' < j -> ~ reusable s (slot_at s j')) /\
      r = (if alloc then Some (slot_at s j) else None) /\ s' = slot_taken (slot_at s j) alloc s) \/
    ((forall j, k <= j < k + Z.of_nat m -> ~ reusable s (slot_at s j)) /\ r = None /\ s' = s)).
Proof.
  induction m as [| m IH]; intros k s; [apply wp_ret; right; split_and!; [lia | done..] |].
  cbn [xtask_scan]. seq. apply wp_reads. seq. apply wp_reads. fold (slot_at s k). set (i := slot_at s k).
  pose proof (slot_at_range s k) as Hi. fold i in Hi.
  assert (Hfound : forall r s', reusable s i -> r = (if alloc then Some i else None) -> s' = slot_taken i alloc s ->
    (exists j, k <= j < k + Z.of_nat (S m) /\ reusable s (slot_at s j) /\
      (forall j', k <= j' < j -> ~ reusable s (slot_at s j')) /\
      r = (if alloc then Some (slot_at s j) else None) /\ s' = slot_taken (slot_at s j) alloc s)).
  { intros r s' Hr -> ->. exists k. split_and!; [lia.. | done | lia | done | done]. }
  destruct (tasks s !! i) as [old |] eqn:Hold.
  - destruct (bool_decide (state old = REAPING) && exit_done old) eqn:Hb.
    + apply andb_true_iff in Hb as [Hst%bool_decide_eq_true Hd].
      assert (Hr : reusable s i) by (split; [done |]; by rewrite Hold).
      seq. exists (), (set_tasks (delete i (tasks s)) s). split; [done |]. unfold fresh_slot.
      destruct alloc; do 2 eexists; (split; [done |]); left; apply Hfound; try done.
      unfold slot_taken. cbn. by rewrite insert_delete_eq.
    + eapply wp_mono; [apply IH |]. cbn. intros r s'.
      assert (Hnr : ~ reusable s i).
      { intros [_ Hr]. rewrite Hold in Hr. destruct Hr as [Hr1 Hr2].
        by rewrite bool_decide_true, Hr2 in Hb. }
      intros [(j & Hj & Hr & Hmin & -> & ->) | (Hnone & -> & ->)].
      * left. exists j. split_and!; try done; [lia.. |]. intros j' Hj'.
        destruct (decide (j' = k)) as [-> |]; [done | apply Hmin; lia].
      * right. split_and!; try done. intros j Hj. destruct (decide (j = k)) as [-> |]; [done | apply Hnone; lia].
  - assert (Hr : reusable s i) by (split; [done |]; by rewrite Hold).
    unfold fresh_slot. destruct alloc; do 2 eexists; (split; [done |]); left; apply Hfound; try done.
    unfold slot_taken. rewrite delete_id by done. by destruct s.
Qed.

Lemma slot_at_surj s i : 0 <= i < MAX_PROC -> exists j, 0 <= j < MAX_PROC /\ slot_at s j = i.
Proof.
  intros Hi. exists ((i - next_pid s) mod MAX_PROC). split; [by apply Z.mod_pos_bound |].
  unfold slot_at. rewrite Z.add_mod_idemp_r by done. replace (next_pid s + (i - next_pid s)) with i by lia.
  by apply Z.mod_small.
Qed.

(** A slot no CPU refers to can be dropped. *)
Lemma local_forget c cl G t k : local c cl G -> G !! t = Some k -> c_state k = REAPING -> c_done k = true ->
  local c cl (delete t G).
Proof.
  intros HL HG Hst Hdn. pose proof (not_queued HL t k HG ltac:(congruence)) as Hnq.
  pose proof (not_next HL t k HG ltac:(congruence)) as Hsw. pose proof (not_idle HL t k HG ltac:(congruence)) as Hni.
  destruct HL as [Hcnt Hnd Htnd Hs Hqd Htm Hcur Hnx Hid Hlf Hdd Htk].
  assert (Hnt : t ∉ timer_queue cl).
  { intros Ht. destruct (Htm t Ht) as (k' & ? & Hck & Hdl). simplify_eq.
    destruct (tk_armed _ _ _ (Htk t k HG eq_refl) Hdl). congruence. }
  assert (Hnc : t <> cur_proc cl) by (intros ->; destruct Hcur as (? & ? & _ & ?); congruence).
  assert (Hnp : pending_dead cl <> Some t).
  { intros Hp. destruct (Hdd t Hp) as ((? & ? & _ & _ & ?) & _). congruence. }
  assert (Hlk : forall t0, t0 <> t -> delete t G !! t0 = G !! t0) by (intros; by rewrite lookup_delete_ne).
  split; try done.
  - replace (deadline_of (delete t G) <$> timer_queue cl) with (deadline_of G <$> timer_queue cl); [done |].
    apply list_fmap_ext. intros i x Hx%list_elem_of_lookup_2. unfold deadline_of. rewrite Hlk; [done |]. by intros ->.
  - intros t0 Ht0. rewrite Hlk; [auto |]. by intros ->.
  - intros t0 Ht0. rewrite Hlk; [auto |]. by intros ->.
  - by rewrite Hlk.
  - intros t0 Ht0. rewrite Hlk; [auto |]. by intros ->.
  - by rewrite Hlk.
  - intros t0 k0. rewrite Hlk by done. apply Hlf.
  - intros t0 Ht0. rewrite Hlk; [auto |]. by intros ->.
  - intros t0 k0 [_ HG0]%lookup_delete_Some. auto.
Qed.

Lemma Inv_forget G C n t k : Inv G C n -> G !! t = Some k -> c_state k = REAPING -> c_done k = true ->
  Inv (delete t G) C n.
Proof.
  intros [Hn Hd Hl Ho] HG Hst Hdn. split; try done.
  - intros c cl Hc. by apply (local_forget c cl G t k); [apply Hl |..].
  - intros t0 k0 [_ HG0]%lookup_delete_Some. eauto.
Qed.

Lemma Inv_fresh G C n t : Inv G C n -> G !! t = None -> Inv (<[t := core_of xtask_defaults]> G) C n.
Proof.
  intros [Hn Hd Hl Ho] HG. assert (Hm : C !! (-1) = None).
  { destruct (C !! (-1)) eqn:Hc; [| done]. destruct (proj1 (Hd (-1))); [by eexists | lia]. }
  split; try done.
  - intros c cl Hc. apply (local_frame c cl G); [| auto]. apply same_on_insert; [congruence | cbn; congruence].
  - intros t0 k0. at_task t0 t; [| eauto]. intros [= <-] _. split; [done | by left].
Qed.

Lemma Inv_vacated s i : sinv s -> reusable s i -> Inv (delete i (cores s)) (cpu_locals s) (ncpu s).
Proof.
  intros HI [_ Hr]. destruct (tasks s !! i) as [k |] eqn:Hk.
  - apply (Inv_forget _ _ _ i (core_of k)); [done | by apply cores_lookup | apply Hr..].
  - unfold cores. rewrite delete_id; [done |]. by rewrite lookup_fmap, Hk.
Qed.

Lemma Inv_slot_taken s i alloc : sinv s -> reusable s i -> sinv (slot_taken i alloc s).
Proof.
  intros HI Hr. pose proof (Inv_vacated s i HI Hr) as HI'.
  unfold sinv, slot_taken, cores in *. destruct alloc; cbn.
  - rewrite fmap_insert, <- insert_delete_eq. apply Inv_fresh; [done | apply lookup_delete_eq].
  - by rewrite fmap_delete.
Qed.

Lemma xtask_alloc_ok s alloc : sinv s ->
  wp (xtask_alloc alloc) s (fun r s' => sinv s' /\
    forall i, r = Some i -> alloc = true /\ reusable s i /\ s' = slot_taken i true s).
Proof.
  intros HI. eapply wp_mono; [apply xtask_scan_ok |]. cbn.
  intros r s' [(j & _ & Hr & _ & -> & ->) | (_ & -> & ->)]; [| done].
  split; [by apply Inv_slot_taken |]. by destruct alloc; [intros i [= <-] |].
Qed.

(** *** Creating tasks *)

(** [b] is a CPU of minimal load [m] among [0, i). *)
Definition least_loaded (s : sched) (i b m : Z) : Prop :=
  0 <= b < i /\ (exists cl, cpu_locals s !! b = Some cl /\ run_count cl = m) /\
  (forall j cl, 0 <= j < i -> cpu_locals s !! j = Some cl -> m <= run_count cl).

Definition cpus_ok (s : sched) : Prop := forall c, is_Some (cpu_locals s !! c) <-> 0 <= c < ncpu s.

Lemma sinv_cpus s : sinv s -> cpus_ok s.
Proof. intros HI c. apply (inv_cpus _ _ _ HI). Qed.

Lemma pick_min_ok s k : cpus_ok s -> forall i b m,
  i + Z.of_nat k = ncpu s -> least_loaded s i b m ->
  wp (pick_min k i b m) s (fun r s' => s' = s /\ least_loaded s (ncpu s) r.1 r.2).
Proof.
  intros HI. induction k as [| k IH]; intros i b m Hi Hb.
  { apply wp_ret. by replace (ncpu s) with i by lia. }
  destruct Hb as (Hb & (clb & Hcb & Hm) & Hmin). cbn [pick_min].
  destruct (proj2 (HI i)) as [cl Hc]; [lia |].
  seq. apply (wp_get_cpu (at_self s) i cl); [done |].
  destruct (Z.ltb_spec (run_count cl) m); apply IH; try lia; split_and!; try lia; eauto;
    intros j cl' Hj Hcj; (destruct (decide (j = i)) as [-> |]; [simplify_eq; lia |]);
    specialize (Hmin j cl' ltac:(lia) Hcj); lia.
Qed.

Lemma sched_pick_ok s pref : cpus_ok s -> 0 < ncpu s ->
  wp (sched_pick_cpu_pref pref) s (fun r s' => s' = s /\ exists b m,
    least_loaded s (ncpu s) b m /\
    r = match cpu_locals s !! pref with
        | Some cl => if run_count cl <=? m + AFFINITY_THRESHOLD then pref else b
        | None => b
        end).
Proof.
  intros HI Hn. unfold sched_pick_cpu_pref. seq. apply wp_reads.
  destruct (proj2 (HI 0)) as [cl Hc]; [lia |].
  seq. apply (wp_get_cpu (at_self s) 0 cl); [done |].
  seq. eapply wp_mono; [apply (pick_min_ok s (Z.to_nat (ncpu s - 1)) HI 1 0 (run_count cl)); [lia |] |].
  { split_and!; [lia.. | eauto |]. intros j cl' Hj ?. replace j with 0 in * by lia. simplify_eq. lia. }
  intros [b m] s' [-> Hb]. cbn in *. destruct ((0 <=? pref) && (pref <? ncpu s)) eqn:Hp.
  - apply andb_true_iff in Hp as [?%Z.leb_le ?%Z.ltb_lt].
    destruct (proj2 (HI pref)) as [clp Hcp]; [lia |].
    seq. apply (wp_get_cpu (at_self s) pref clp); [done |]. apply wp_ret. split; [done |]. exists b, m.
    rewrite Hcp. split; [done |]. destruct (Z.leb_spec (run_count clp - m) AFFINITY_THRESHOLD);
      destruct (Z.leb_spec (run_count clp) (m + AFFINITY_THRESHOLD)); (done || lia).
  - apply wp_ret. split; [done |]. exists b, m. split; [done |].
    destruct (cpu_locals s !! pref) as [clp |] eqn:Hcp; [| done].
    destruct (proj1 (HI pref)) as [? ?]; [by eexists |].
    apply andb_false_iff in Hp as [?%Z.leb_gt | ?%Z.ltb_ge]; lia.
Qed.

Lemma sched_pick_valid s pref : cpus_ok s -> 0 < ncpu s ->
  wp (sched_pick_cpu_pref pref) s (fun c s' => s' = s /\ is_Some (cpu_locals s !! c)).
Proof.
  intros HI Hn. eapply wp_mono; [by apply sched_pick_ok |]. cbn.
  intros r s' (-> & b & m & (_ & (clb & Hb & _) & _) & ->). split; [done |].
  destruct (cpu_locals s !! pref) eqn:Hp; [| by eexists]. case_match; [rewrite Hp |]; by eexists.
Qed.

(** A slot that is not in use is nowhere. *)
Lemma Inv_unused G C n t k : Inv G C n -> G !! t = Some k -> c_state k = UNUSED ->
  C !! c_cpu k = None /\ k = core_of xtask_defaults /\
  (forall c cl, C !! c = Some cl -> ~ t ∈ run_queue cl /\ ~ t ∈ wakeup_list cl /\ ~ t ∈ timer_queue cl).
Proof.
  intros HI HG Hst. assert (Hc : C !! c_cpu k = None).
  { destruct (C !! c_cpu k) as [cl |] eqn:Hc; [| done]. pose proof (inv_local _ _ _ HI _ _ Hc) as HL.
    by destruct (tk_used _ _ _ (lc_tasks _ _ _ HL t k HG eq_refl)). }
  split_and!; [done | |].
  - destruct (inv_off _ _ _ HI t k HG Hc) as (Hd & [(? & ? & ?) | ?]); [| congruence].
    destruct k; cbn in *. by subst.
  - intros c cl Hc'. apply (Inv_away _ _ _ t k HI HG c cl); [| done]. intros ->. congruence.
Qed.

(** A new task starts on CPU [c]. *)
Lemma Inv_start G C n t k c cl : Inv G C n -> G !! t = Some k -> c_state k = UNUSED -> C !! c = Some cl ->
  Inv (<[t := Core READY 0 c false]> G) (<[c := set_rq (run_queue cl ++ [t]) (run_count cl + 1) cl]> C) n.
Proof.
  intros HI HG Hst Hc. destruct (Inv_unused _ _ _ t k HI HG Hst) as (Hn & -> & _).
  pose proof (inv_local _ _ _ HI c cl Hc) as HL. eapply Inv_update; [exact HI | done | | |].
  - intros c' cl' Hne Hc'. apply same_on_insert; [| cbn; congruence]. intros k' ?. simplify_eq. congruence.
  - intros t0 k0. at_task t0 t; [intros [= <-]; cbn; by rewrite Hc | apply (inv_off _ _ _ HI)].
  - by apply (local_enqueue HL t _ HG); [.. | intros [|] |].
Qed.

Lemma Inv_offcpu G C n t k k' : Inv G C n -> G !! t = Some k -> C !! c_cpu k = None ->
  c_cpu k' = c_cpu k -> off_cpu k' -> Inv (<[t := k']> G) C n.
Proof.
  intros [Hn Hd Hl Ho] HG Hc Hk Hoff. split; try done.
  - intros c cl Hc'. apply (local_frame c cl G); [| auto]. apply same_on_insert; [| congruence].
    intros k0 ?. simplify_eq. congruence.
  - intros t0 k0. at_task t0 t; [by intros [= <-] | eauto].
Qed.

Lemma start_ok G C n s t k c cl (Q : () -> sched -> Prop) :
  Inv G C n -> G !! t = Some k -> c_state k = UNUSED -> C !! c = Some cl ->
  at_ (<[t := Core READY 0 c false]> G) C n s -> (forall s', sinv s' -> Q () s') ->
  wp (run_queue_push c t) s Q.
Proof.
  intros HI HG Hst Hc Hat HQ. destruct (Inv_unused _ _ _ t k HI HG Hst) as (_ & _ & Hnq).
  apply (wp_push Hat t c cl); [done | by apply (Hnq c cl) | intros c' cl' _; apply Hnq |].
  intros s' Hat'. apply HQ. eapply at_sinv; [exact Hat' |]. by apply (Inv_start _ _ _ t k).
Qed.

Lemma kthread_ok s alloc stack : sinv s -> 0 < ncpu s ->
  wp (ignore (kthread_create alloc stack)) s (fun _ s' => sinv s').
Proof.
  intros HI Hn. unfold ignore, kthread_create. seq. seq.
  eapply wp_mono; [by apply xtask_alloc_ok |]. cbn. intros [t |] s1 (HI1 & Hr); [| by do 2 apply wp_ret].
  destruct (Hr t eq_refl) as (_ & _ & Hs1). clear Hr.
  assert (HG : cores s1 !! t = Some (Core UNUSED 0 (-1) false))
    by (rewrite Hs1; unfold cores; cbn; by rewrite fmap_insert, lookup_insert_eq).
  assert (Hn1 : ncpu s1 = ncpu s) by (by rewrite Hs1). clear Hs1.
  destruct (Inv_unused _ _ _ t _ HI1 HG eq_refl) as (Hoff & _).
  destruct stack; cbn.
  - seq. eapply wp_mono; [by apply (sched_pick_valid s1 (-1)); [apply sinv_cpus | rewrite Hn1] |]. cbn.
    intros c s' (-> & cl & Hc).
    seq. eapply (wp_upd_task (at_self s1) t _ _ (Core UNUSED 0 c false)); [done | core_eq |]. intros s2 Hat.
    seq. apply (wp_upd_aux Hat); [rewrite lookup_insert_eq; by eexists | done |]. next_state Hat.
    seq. eapply (wp_upd_task Hat t _ _ (Core READY 0 c false)); [apply lookup_insert_eq | core_eq |].
    next_state Hat. rewrite insert_insert_eq in Hat.
    seq. apply (start_ok _ _ _ _ t _ c cl _ HI1 HG eq_refl Hc Hat). intros. by do 2 apply wp_ret.
  - seq. apply (wp_upd_aux (at_self s1)); [by eexists | done |]. intros s2 Hat.
    seq. eapply (wp_upd_task Hat t _ _ (Core REAPING 0 (-1) false)); [done | core_eq |]. next_state Hat.
    seq. eapply (wp_upd_task Hat t _ _ (Core REAPING 0 (-1) true)); [apply lookup_insert_eq | core_eq |].
    next_state Hat. rewrite insert_insert_eq in Hat. do 2 apply wp_ret. eapply at_sinv; [exact Hat |].
    eapply Inv_offcpu; try done. split; [done | by right].
Qed.

Lemma pick_either s (thread : bool) pref : cpus_ok s -> 0 < ncpu s ->
  wp (if thread then sched_pick_cpu_pref pref else sched_pick_cpu) s
    (fun c s' => s' = s /\ is_Some (cpu_locals s !! c)).
Proof. intros. destruct thread; by apply sched_pick_valid. Qed.

Lemma clone_ok s c t vfork thread : sinv s -> runs c (fun k => state k = RUNNING) s ->
  (exists k, tasks s !! t = Some k /\ state k = UNUSED) ->
  wp (clone_enqueue c t vfork thread) s (fun _ s' => sinv s').
Proof.
  intros HI Hr (kt & Hkt & Hst). destruct (runs_running s c HI Hr) as (cl & Hc & Hq & Hi & HG & HL & Ha).
  apply cores_lookup in Hkt as HGt. destruct (Inv_unused _ _ _ t _ HI HGt Hst) as (Hoff & Heq & _).
  rewrite Heq in HGt. change (core_of xtask_defaults) with (Core UNUSED 0 (-1) false) in HGt.
  assert (Hn : 0 < ncpu s) by (destruct (proj1 (inv_cpus _ _ _ HI c)); [by eexists | lia]).
  set (parent := cur_proc cl) in *. assert (Htp : t <> parent) by (intros ->; congruence).
  unfold clone_enqueue. seq. apply (wp_get_cpu (at_self s) c cl); [done |].
  seq. apply (wp_get_task (at_self s) _ _ _ HG). intros x Hx.
  assert (Hxc : assigned_cpu x = c) by (by injection Hx). rewrite Hxc.
  (* placing the child *)
  seq. eapply (wp_mono _ _ (fun cpu s' => s' = s /\ is_Some (cpu_locals s !! cpu) /\ (vfork = true -> cpu = c))).
  { destruct vfork; [apply wp_ret; split_and!; [done | by eexists | done] |].
    eapply wp_mono; [by apply pick_either; [apply sinv_cpus |] |]. by cbn; intros ? ? [-> ?]. }
  cbn. intros cpu s' (-> & [clc Hcpu] & Hvc).
  seq. eapply (wp_upd_task (at_self s) t _ _ (Core UNUSED 0 cpu false)); [done | core_eq |]. intros s1 Hat.
  seq. apply (wp_upd_aux Hat); [rewrite lookup_insert_eq; by eexists | done |]. clear s1 Hat. intros s1 Hat.
  seq. eapply (wp_upd_task Hat t _ _ (Core READY 0 cpu false)); [apply lookup_insert_eq | core_eq |].
  clear s1 Hat. intros s3 Hat. rewrite insert_insert_eq in Hat.
  seq. apply (wp_get_cpu Hat cpu clc); [done |].
  (* the second look at the load *)
  seq. eapply (wp_mono _ _ (fun cpu' s' => is_Some (cpu_locals s !! cpu') /\ (vfork = true -> cpu' = c) /\
    at_ (<[t := Core READY 0 cpu' false]> (cores s)) (cpu_locals s) (ncpu s) s')).
  { case_match eqn:Hb; [| apply wp_ret; by split; [eexists |]].
    apply andb_true_iff in Hb as [->%negb_true_iff _].
    seq. eapply (wp_mono _ _ (fun cpu' s' => s' = s3 /\ is_Some (cpu_locals s !! cpu'))).
    { destruct Hat as (_ & HC & Hn'). rewrite <- HC. apply pick_either; [| by rewrite Hn'].
      intros c'. rewrite HC, Hn'. by apply sinv_cpus. }
    cbn. intros cpu' s' (-> & Hc').
    case_match eqn:Hcc; [apply Z.eqb_eq in Hcc as ->; apply wp_ret; by split |].
    seq. eapply (wp_upd_task Hat t _ _ (Core READY 0 cpu' false)); [apply lookup_insert_eq | core_eq |].
    intros s4 Hat4. rewrite insert_insert_eq in Hat4. by apply wp_ret. }
  cbn. clear Hat Hvc. intros cpu' s' ([cl' Hc'] & Hvc & Hat). seq. destruct vfork.
  - assert (cpu' = c) as -> by auto. rewrite Hc in Hc'. injection Hc' as <-.
    pose proof (restate_current s c BLOCKED cl HI Hc Hq Hi HG ltac:(done) ltac:(done) ltac:(done)) as HI1.
    seq. eapply (wp_upd_task Hat parent _ _ (Core BLOCKED 0 c false)); [by rewrite lookup_insert_ne | core_eq |].
    next_state Hat. apply (wp_upd_aux Hat); [rewrite lookup_insert_eq; by eexists | done |]. next_state Hat.
    rewrite insert_insert_ne in Hat by done.
    by apply (start_ok _ _ _ _ t (Core UNUSED 0 (-1) false) c cl _ HI1); [rewrite lookup_insert_ne |..].
  - apply wp_ret. by apply (start_ok _ _ _ _ t _ cpu' cl' _ HI HGt eq_refl Hc' Hat).
Qed.

(** A CPU comes up on its idle task. *)
Lemma Inv_cpu_up G C n i : Inv G C n -> G !! i = Some (Core UNUSED 0 (-1) false) ->
  Inv (<[i := Core RUNNING 0 n false]> G) (<[n := CpuLocal [] 0 [] [] i i None None]> C) (n + 1).
Proof.
  intros HI HG. pose proof HI as [Hn Hd Hl Ho].
  assert (Hnone : C !! n = None).
  { destruct (C !! n) eqn:Hc; [| done]. destruct (proj1 (Hd n)); [by eexists | lia]. }
  assert (Hused : forall t k, G !! t = Some k -> c_cpu k = n -> off_cpu k).
  { intros t k Ht Hk. apply (Ho t k Ht). by rewrite Hk. }
  split.
  - lia.
  - intros c. at_task c n; [split; [lia | by eexists] |]. rewrite Hd. lia.
  - intros c cl. at_task c n.
    + intros [= <-]. split; cbn; try done.
      * constructor.
      * constructor.
      * constructor.
      * intros t []%elem_of_nil.
      * intros t []%elem_of_nil.
      * rewrite lookup_insert_eq. by eexists.
      * apply lookup_insert_eq.
      * intros t k. at_task t i; [intros [= <-] _; split; cbn; auto; done |].
        intros Ht Hk. destruct (Hused t k Ht Hk) as (Hdl & [(_ & ? & _) | Hst]); [lia |].
        split; try congruence. intros _. by right.
    + intros Hc. apply (local_frame c cl G); [| auto]. apply same_on_insert; [| cbn; congruence].
      intros k ?. simplify_eq. cbn. intros <-. destruct (proj1 (Hd (-1))); [by eexists | lia].
  - intros t k. at_task t i; [intros [= <-]; cbn; by rewrite lookup_insert_eq |].
    intros Ht Hk. apply (Ho t k Ht). destruct (decide (c_cpu k = n)) as [-> |]; [done |].
    by rewrite lookup_insert_ne in Hk.
Qed.

Lemma cpu_up_ok s : sinv s -> (exists i, reusable s i) -> wp cpu_up s (fun _ s' => sinv s').
Proof.
  intros HI (i0 & Hr0). pose proof (inv_ncpu _ _ _ HI) as Hn.
  unfold cpu_up. seq. apply wp_reads. unfold sched_create_idle_process. seq. seq.
  eapply wp_mono; [apply xtask_scan_ok |]. cbn. intros r s1 [(j & _ & Hr & _ & -> & Hs1) | (Hnone & _ & _)].
  2: { destruct (slot_at_surj s i0) as (j & Hj & Hji); [apply Hr0 |]. destruct (Hnone j); [| by rewrite Hji].
       change (Z.of_nat (Z.to_nat MAX_PROC)) with MAX_PROC. lia. }
  set (i := slot_at s j) in *. set (c := ncpu s).
  assert (HI1 : sinv s1) by (rewrite Hs1; exact (Inv_slot_taken s i true HI Hr)).
  assert (Hn1 : ncpu s1 = c) by (by rewrite Hs1).
  assert (HG : cores s1 !! i = Some (Core UNUSED 0 (-1) false))
    by (rewrite Hs1; unfold cores; cbn; by rewrite fmap_insert, lookup_insert_eq).
  seq. apply (wp_upd_aux (at_self s1)); [by eexists | done |]. intros s2 Hat.
  seq. eapply (wp_upd_task Hat i _ _ (Core RUNNING 0 (-1) false)); [done | core_eq |]. next_state Hat.
  seq. eapply (wp_upd_task Hat i _ _ (Core RUNNING 0 c false)); [apply lookup_insert_eq | core_eq |].
  clear Hat. intros s3 Hat. rewrite insert_insert_eq in Hat. apply wp_ret.
  unfold smp_init_cpu. do 2 eexists. split; [done |].
  destruct Hat as (HGs & HCs & Hns). unfold sinv, cores. cbn. fold (cores s3). rewrite HGs, HCs.
  fold c. rewrite <- Hn1. by apply Inv_cpu_up.
Qed.

(** ** What the invariant gives *)

Lemma action_ok s a : sinv s -> allowed a s -> unraced a s -> wp (exec a) s (fun _ s' => sinv s').
Proof.
  intros HI Ha Hu. destruct a; cbn in Ha, Hu |- *.
  - by apply cpu_up_ok.
  - unfold ignore. seq. eapply wp_mono; [by apply xtask_alloc_ok |]. cbn. intros r s' [? _]. by apply wp_ret.
  - by apply kthread_ok.
  - destruct Ha. by apply clone_ok.
  - by apply prepare_ok.
  - destruct Ha. by apply arm_wait_ok.
  - by apply disarm_ok.
  - by apply cancel_ok.
  - by apply (wake_if_ok s t (fun k => bool_decide (wait_event k = event))).
  - by apply wake_blocked_ok.
  - by apply wake_blocked_ok.
  - by apply exit_group_ok.
  - by apply stop_ok.
  - by apply wake_stopped_ok.
  - destruct Ha. by apply borrow_ok.
  - by apply schedule_ok.
  - by apply switch_ok.
  - by apply steal_ok.
  - by apply expire_ok.
  - by apply deliver_ok.
  - by apply exit_ok.
  - by apply reap_ok.
Qed.

Lemma sinv_init : sinv sched_init.
Proof.
  split; cbn; try done.
  intros c. rewrite lookup_empty. split; [by intros [? ?] | lia].
Qed.

Lemma reachable_sinv s : reachable s -> sinv s.
Proof.
  induction 1 as [| s a s' _ IH Ha Hu He]; [apply sinv_init |].
  destruct (action_ok s a IH Ha Hu) as ([] & s'' & He' & HI). rewrite He in He'. by injection He' as <-.
Qed.

#[export] Hint Resolve reachable_sinv reach_init : sched.

(** No CPU refers to a slot that may be handed out. *)
Lemma reusable_unreferenced s i c cl : sinv s -> reusable s i -> cpu_locals s !! c = Some cl ->
  cur_proc cl <> i /\ switching cl <> Some i /\ pending_dead cl <> Some i /\ idle_proc cl <> i /\
  ~ i ∈ run_queue cl ++ wakeup_list cl /\ ~ i ∈ timer_queue cl.
Proof.
  intros HI Hr Hc. pose proof (inv_local _ _ _ (Inv_vacated s i HI Hr) c cl Hc) as HL.
  destruct HL as [_ _ _ _ Hq Ht (kc & Hcur & _) Hn Hid _ Hd _].
  assert (Hdel : forall k, delete i (cores s) !! i = Some k -> False) by (intros k; by rewrite lookup_delete_eq).
  split_and!.
  - intros Heq. rewrite Heq in Hcur. eauto.
  - intros Heq. destruct (Hn i Heq) as (? & ? & _). eauto.
  - intros Heq. destruct (Hd i Heq) as ((? & ? & _) & _). eauto.
  - intros Heq. rewrite Heq in Hid. eauto.
  - intros Hin. destruct (Hq i Hin) as (? & ? & _). eauto.
  - intros Hin. destruct (Ht i Hin) as (? & ? & _). eauto.
Qed.

(** ** Properties *)

(** C4. Whatever CPUs come up, tasks start, block, wake, time out, stop, are
    stolen, exit and are reaped, in any interleaving of their critical
    sections that takes none of the three races [unraced] names (the CPU or the
    stopped state of a task changes between its reading and the taking of the
    lock; a task that gives up a wait has been lent an alarm): no assertion of the scheduler fails and no index is out of
    range; no two CPUs have the same current task; a READY task is linked on
    exactly one list of exactly one CPU, its own, once, so it is neither lost
    nor run twice; the run counts are the lengths of the queues, which hold
    READY tasks only; and an armed deadline belongs to a blocked task in the
    timer queue of its CPU, which is sorted. *)
Theorem sched_safe s : reachable s ->
  (forall a, allowed a s -> unraced a s -> exists s', exec a s = Some ((), s') /\ reachable s') /\
  (forall c c' cl cl', cpu_locals s !! c = Some cl -> cpu_locals s !! c' = Some cl' ->
     cur_proc cl = cur_proc cl' -> c = c') /\
  (forall t k, tasks s !! t = Some k -> state k = READY ->
     exists cl, cpu_locals s !! assigned_cpu k = Some cl /\
       t ∈ run_queue cl ++ wakeup_list cl /\ NoDup (run_queue cl ++ wakeup_list cl) /\
       forall c' cl', c' <> assigned_cpu k -> cpu_locals s !! c' = Some cl' ->
         ~ t ∈ run_queue cl' ++ wakeup_list cl') /\
  (forall c cl, cpu_locals s !! c = Some cl ->
     run_count cl = Z.of_nat (length (run_queue cl)) /\
     (forall t, t ∈ run_queue cl -> exists k, tasks s !! t = Some k /\ assigned_cpu k = c /\ state k = READY) /\
     StronglySorted Z.le (deadline_of (cores s) <$> timer_queue cl)) /\
  (forall t k, tasks s !! t = Some k -> wait_deadline k <> 0 ->
     state k = BLOCKED /\ exists cl, cpu_locals s !! assigned_cpu k = Some cl /\ t ∈ timer_queue cl).
Proof.
  intros Hs. pose proof (reachable_sinv s Hs) as HI. split_and!.
  - intros a Ha Hu. destruct (action_ok s a HI Ha Hu) as ([] & s' & He & _). exists s'. split; [done |].
    by apply (reach_step s a).
  - intros c c' cl cl' Hc Hc' Heq.
    destruct (lc_cur _ _ _ (inv_local _ _ _ HI c cl Hc)) as (k & HG & <- & _).
    destruct (lc_cur _ _ _ (inv_local _ _ _ HI c' cl' Hc')) as (k' & HG' & <- & _). congruence.
  - intros t k Hk Hst. apply cores_lookup in Hk as HG.
    destruct (Inv_placed _ _ _ t _ HI HG) as (cl & Hc & HL & Ha); [cbn; congruence.. |].
    exists cl. split_and!; [done | by apply (lc_tasks _ _ _ HL t _ HG) | apply (lc_nodup _ _ _ HL) |].
    intros c' cl' Hne Hc'. destruct (Ha c' cl' Hne Hc') as (? & ? & _). rewrite elem_of_app. tauto.
  - intros c cl Hc. pose proof (inv_local _ _ _ HI c cl Hc) as HL.
    split_and!; [apply (lc_count _ _ _ HL) | | apply (lc_sorted _ _ _ HL)].
    intros t Ht. destruct (lc_queued _ _ _ HL t) as (k & (x & Hx & <-)%cores_lookup_inv & Hk); [apply elem_of_app; auto |].
    by exists x.
  - intros t k Hk Hd. apply cores_lookup in Hk as HG. destruct (cpu_locals s !! assigned_cpu k) as [cl |] eqn:Hc.
    + pose proof (inv_local _ _ _ HI _ cl Hc) as HL.
      destruct (tk_armed _ _ _ (lc_tasks _ _ _ HL t _ HG eq_refl) Hd). eauto.
    + by destruct (inv_off _ _ _ HI t _ HG Hc).
Qed.

(** C37. The race of [alarm] with a wait that is given up: whenever a running
    task that has marked itself as blocked has been lent the alarm of its
    process, [sched_cancel_spurious_wake] leaves it running with its entry in
    the timer queue, and every timed wait that it then starts fails the
    single-tenancy assertion of [timer_queue_wait_push]. *)
Theorem alarm_race_panics s c : reachable s -> runs c (fun k => state k = BLOCKED /\ wait_deadline k <> 0) s ->
  exists s', exec (ACancel c) s = Some ((), s') /\ runs c (fun k => state k = RUNNING) s' /\
    forall event d, exec (AArm c event d false) s' = None.
Proof.
  intros HI%reachable_sinv Hr.
  destruct (runs_facts s c _ HI Hr) as (cl & k & Hc & Hqt & Hi & HG & Hk & (Hst & Hd) & Hck & HL & Ha). subst c.
  set (t := cur_proc cl) in *. pose proof (not_queued HL t _ HG ltac:(cbn; by rewrite Hst)) as Hnq.
  assert (Hnr : run_linked t s = false).
  { rewrite (run_linked_at (at_self s) t _ cl Hc Ha). apply bool_decide_false. intros ?. apply Hnq, elem_of_app. auto. }
  set (k' := set_wait WAIT_NONE false (set_sstate RUNNING k)). exists (set_tasks (<[t := k']> (tasks s)) s).
  split; [| split].
  - cbn. unfold by_current, sched_cancel_spurious_wake, mbind, prog_bind, get_cpu, reads, upd_task. rewrite Hc. cbn. fold t. rewrite Hnr.
    cbn. rewrite Hk. cbn. rewrite lookup_insert_eq. cbn. by rewrite insert_insert_eq.
  - exists cl, k'. split_and!; [exact Hc | done | by intros E; apply Hi; rewrite <- E | apply lookup_insert_eq | done].
  - intros event d. destruct (tk_armed _ _ _ (lc_tasks _ _ _ HL t _ HG eq_refl) Hd) as [_ Htq].
    assert (Hlk : forall T, wait_linked t (set_tasks T s) = true).
    { intros T. unfold wait_linked. apply existsb_exists. exists (assigned_cpu k, cl). split; [| by apply bool_decide_true, elem_of_app; left].
      apply list_elem_of_In, elem_of_map_to_list. exact Hc. }
    cbn. unfold by_current, sched_arm_timed_wait, timer_queue_wait_push, ignore, mbind, prog_bind, get_cpu, get_task, upd_task, reads.
    cbn. rewrite Hc. cbn. fold t. repeat (rewrite lookup_insert_eq; cbn). unfold set_tasks. cbn.
    match goal with |- context [wait_linked t ?x] => change (wait_linked t x) with (wait_linked t (set_tasks (tasks x) s)) end.
    by rewrite Hlk.
Qed.

(** The race of two resumptions: [do_cont] and [wake_stopped] do not look
    at the state again once they hold the lock, so a SIGCONT or SIGKILL that
    saw the task stopped, and takes the lock when another one has resumed the
    task and it runs, queues the running task and marks it as ready. *)
Theorem stale_resume_queues_running s c cl k sig : reachable s -> cpu_locals s !! c = Some cl ->
  tasks s !! cur_proc cl = Some k -> state k = RUNNING -> sig ∈ [SIGCONT; SIGKILL] ->
  exists s' cl', exec (AWakeStopped STOPPED STOPPED c (cur_proc cl) sig) s = Some ((), s') /\
    cpu_locals s' !! c = Some cl' /\ cur_proc cl' = cur_proc cl /\ cur_proc cl ∈ run_queue cl' /\
    exists k', tasks s' !! cur_proc cl = Some k' /\ state k' = READY.
Proof.
  intros HI%reachable_sinv Hc Hk Hst Hsig. apply cores_lookup in Hk as HG. set (t := cur_proc cl) in *.
  pose proof (inv_local _ _ _ HI c cl Hc) as HL. destruct (lc_cur _ _ _ HL) as (kc & HGc & Hcc & _). fold t in HGc.
  assert (c = assigned_cpu k) as -> by (rewrite HG in HGc; injection HGc as <-; done).
  destruct (Inv_placed _ _ _ t _ HI HG) as (cl2 & Hc2 & _ & Ha); [cbn; congruence .. |]. cbn in Hc2, Ha. simplify_eq.
  pose proof (not_queued HL t _ HG ltac:(cbn; by rewrite Hst)) as Hnq.
  assert (Hnr : forall T, run_linked t (set_tasks T s) = false).
  { intros T. change (run_linked t (set_tasks T s)) with (run_linked t s). rewrite (run_linked_at (at_self s) t _ cl Hc Ha).
    apply bool_decide_false. intros ?. apply Hnq, elem_of_app. auto. }
  assert (He : exec (AWakeStopped STOPPED STOPPED (assigned_cpu k) t sig) s = resume_stopped (assigned_cpu k) t s).
  { apply elem_of_cons in Hsig as [-> | ->%list_elem_of_singleton]; done. }
  rewrite He. set (k' := set_wait WAIT_NONE (wait_timed_out k) (set_sstate READY k)).
  set (cl' := set_rq (run_queue cl ++ [t]) (run_count cl + 1) cl).
  exists (set_cpus (<[assigned_cpu k := cl']> (cpu_locals s)) (set_tasks (<[t := k']> (tasks s)) s)), cl'.
  split; [| split_and!; [apply lookup_insert_eq | done | apply elem_of_app; right; by apply list_elem_of_singleton |]].
  - unfold resume_stopped, run_queue_push, mbind, prog_bind, upd_task, upd_cpu, reads. rewrite Hk. cbn. rewrite lookup_insert_eq. cbn.
    rewrite insert_insert_eq. change (set_tasks ?T (set_tasks _ s)) with (set_tasks T s). rewrite Hnr. cbn. rewrite Hnr. cbn. by rewrite Hc.
  - exists k'. split; [apply lookup_insert_eq | done].
Qed.

(** [xtask_alloc] finds a slot whenever one of the 1024 is free or holds a
    task whose exit is complete, and the slot it hands out is not referred to
    by any CPU: the old task is not current, is not being switched to or away
    from, and is on no queue, so its kernel stack can be freed. *)
Theorem xtask_alloc_safe s : reachable s ->
  exists r s', xtask_alloc true s = Some (r, s') /\
    ((exists i, reusable s i) -> r <> None) /\
    (forall i, r = Some i ->
       tasks s' = <[i := xtask_defaults]> (tasks s) /\
       forall c cl, cpu_locals s !! c = Some cl ->
         cur_proc cl <> i /\ switching cl <> Some i /\ pending_dead cl <> Some i /\ idle_proc cl <> i /\
         ~ i ∈ run_queue cl ++ wakeup_list cl /\ ~ i ∈ timer_queue cl).
Proof.
  intros HI%reachable_sinv.
  destruct (xtask_scan_ok true (Z.to_nat MAX_PROC) 0 s) as (r & s' & He & Hcase).
  exists r, s'. split; [done |]. change (Z.of_nat (Z.to_nat MAX_PROC)) with MAX_PROC in Hcase. split.
  - intros (i & Hi). destruct Hcase as [(j & _ & _ & _ & -> & _) | (Hnone & _ & _)]; [done |].
    destruct (slot_at_surj s i) as (j & Hj & Hji); [apply Hi |]. destruct (Hnone j); [lia | by rewrite Hji].
  - intros i ->. destruct Hcase as [(j & _ & Hr & _ & [= ->] & ->) | (_ & [=] & _)]. split; [done |].
    intros c cl Hc. by apply (reusable_unreferenced s _ c).
Qed.

(** [n] calls of [schedule] on [c], each followed by its [switch_to]; [clock]
    gives the readings of the clock. *)
Fixpoint rounds (n : nat) (c : Z) (clock : nat -> Z) : sp () :=
  match n with
  | O => mret ()
  | S n' =>
      _ ← schedule c (clock 0%nat) (clock 1%nat);
      _ ← switch_to c;
      rounds n' c (fun i => clock (2 + i)%nat)
  end.

(** One round with a queue that is not empty. *)
Lemma round_spec s c cl k next q now now' :
  sinv s -> cpu_locals s !! c = Some cl -> quiet cl -> tasks s !! cur_proc cl = Some k ->
  run_queue cl = next :: q ->
  wp (_ ← schedule c now now'; switch_to c) s (fun _ s' => sinv s' /\ exists cl',
    cpu_locals s' !! c = Some cl' /\ quiet cl' /\ cur_proc cl' = next /\
    run_queue cl' = q ++ requeued cl (core_of k)).
Proof.
  intros HI Hc Hq Hk Hrq. seq. eapply wp_mono; [by apply (schedule_spec s c cl k) |]. cbn.
  intros _ s1 (HI1 & Hh). destruct (Hh next q Hrq) as (cl1 & Hc1 & Hsw & Hrq1 & Hwl & _).
  destruct (switch_ok s1 c HI1) as ([] & s2 & He & HI2); [exists cl1; split; [done | congruence] |].
  exists (), s2. split; [done |]. split; [done |].
  unfold switch_to, mbind, prog_bind, get_cpu in He. rewrite Hc1 in He. cbn in He. rewrite Hsw in He.
  unfold upd_cpu in He. rewrite Hc1 in He. cbn in He. injection He as <-. cbn. eexists.
  split; [apply lookup_insert_eq |]. cbn. split_and!; [| done..]. split; cbn; [| done].
  destruct Hq. congruence.
Qed.

Lemma rounds_ok n : forall s c cl clock t,
  sinv s -> cpu_locals s !! c = Some cl -> quiet cl -> run_queue cl !! n = Some t ->
  wp (rounds (S n) c clock) s (fun _ s' => exists cl', cpu_locals s' !! c = Some cl' /\ cur_proc cl' = t).
Proof.
  induction n as [| n IH]; intros s c cl clock t HI Hc Hq Ht;
    pose proof (inv_local _ _ _ HI c cl Hc) as HL;
    destruct (lc_cur _ _ _ HL) as (k & (x & Hx & _)%cores_lookup_inv & _);
    destruct (run_queue cl) as [| next q] eqn:Hrq; try done;
    pose proof (round_spec s c cl x next q (clock 0%nat) (clock 1%nat) HI Hc Hq Hx Hrq) as Hr;
    destruct Hr as ([] & s1 & He & HI1 & cl1 & Hc1 & Hq1 & Hcur & Hrq1).
  - cbn in Ht. simplify_eq. cbn [rounds]. exists (), s1. split; [| eauto].
    unfold mbind, prog_bind in *. by repeat (case_match; simplify_eq).
  - destruct (IH s1 c cl1 (fun i => clock (2 + i)%nat) t HI1 Hc1 Hq1) as ([] & s2 & He2 & HQ).
    { rewrite Hrq1. cbn in Ht. by apply lookup_app_l_Some. }
    exists (), s2. split; [| done]. cbn [rounds] in *. unfold mbind, prog_bind in *.
    destruct (schedule c (clock 0%nat) (clock 1%nat) s) as [[[] s3] |]; [| done]. by rewrite He.
Qed.

(** Round robin: with the task [t] at position [n] of the run queue of a
    CPU, [n + 1] rescheduling rounds of that CPU make [t] its current task,
    whatever the states of the tasks it is queued with and whatever the clock
    says. *)
Theorem round_robin s c cl n clock t : reachable s ->
  cpu_locals s !! c = Some cl -> quiet cl -> run_queue cl !! n = Some t ->
  exists s' cl', rounds (S n) c clock s = Some ((), s') /\ cpu_locals s' !! c = Some cl' /\ cur_proc cl' = t.
Proof.
  intros HI%reachable_sinv Hc Hq Ht.
  destruct (rounds_ok n s c cl clock t HI Hc Hq Ht) as ([] & s' & He & cl' & Hc' & Hcur). eauto.
Qed.

(** ** A concrete system *)

(** A trace of actions and the state it leads to. *)
Fixpoint trace (acts : list action) (s : sched) : option sched :=
  match acts with
  | [] => Some s
  | a :: acts' => r ← exec a s; trace acts' r.2
  end.

Fixpoint legal (acts : list action) (s : sched) : Prop :=
  match acts with
  | [] => True
  | a :: acts' => (allowed a s /\ unraced a s) /\ match exec a s with Some r => legal acts' r.2 | None => False end
  end.

Lemma trace_reachable acts : forall s, reachable s -> legal acts s ->
  exists s', trace acts s = Some s' /\ reachable s'.
Proof.
  induction acts as [| a acts IH]; intros s Hs Hl; [by exists s |].
  destruct Hl as [[Ha Hu] Hl]. cbn. destruct (exec a s) as [[[] s1] |] eqn:He; [| done]. cbn.
  apply IH; [by apply (reach_step s a) | done].
Qed.

(** Two CPUs; three kernel threads start, the first one on CPU 0. *)
Definition demo_boot : list action := [ACpuUp; ACpuUp; AKthread true true; AKthread true true; AKthread true true].

Ltac legal_step tac :=
  split; [split; [tac | first [exact I | vm_compute; by intros ? [= <-]]] |];
  lazymatch goal with |- match ?e with _ => _ end =>
    let r := eval vm_compute in e in change e with r; cbn beta iota end;
  cbn [legal snd].

Lemma demo_boot_legal : legal demo_boot sched_init.
Proof.
  unfold demo_boot. cbn [legal].
  legal_step ltac:(exists 0; split; [done | vm_compute; exact I]).
  legal_step ltac:(exists 5; split; [done | vm_compute; exact I]).
  do 3 legal_step ltac:(vm_compute; reflexivity).
  exact I.
Qed.

Definition demo_state : sched := Eval vm_compute in default sched_init (trace demo_boot sched_init).

Lemma demo_reachable : reachable demo_state.
Proof.
  destruct (trace_reachable demo_boot sched_init reach_init demo_boot_legal) as (s & Ht & Hs).
  replace demo_state with s; [done |].
  assert (Hd : trace demo_boot sched_init = Some demo_state) by (vm_compute; reflexivity). congruence.
Qed.

Lemma sched_safe_witness :
  reachable demo_state /\ exists s', exec (ASchedule 0 1 2) demo_state = Some ((), s') /\ reachable s'.
Proof.
  split; [exact demo_reachable |]. destruct (sched_safe demo_state demo_reachable) as (H & _).
  apply H; [| exact I]. eexists. split; [vm_compute; reflexivity | by split].
Defined.

Lemma xtask_alloc_safe_witness :
  reachable demo_state /\ exists r s', xtask_alloc true demo_state = Some (r, s') /\ r <> None.
Proof.
  split; [exact demo_reachable |].
  destruct (xtask_alloc_safe demo_state demo_reachable) as (r & s' & He & Hr & _).
  exists r, s'. split; [exact He |]. apply Hr. exists 7. split; [done | vm_compute; exact I].
Defined.

Lemma round_robin_witness :
  exists s' cl', rounds 2 0 (fun i => Z.of_nat i) demo_state = Some ((), s') /\
    cpu_locals s' !! 0 = Some cl' /\ cur_proc cl' = 4.
Proof.
  eapply (round_robin demo_state 0 _ 1); [exact demo_reachable | vm_compute; reflexivity | by split | reflexivity].
Defined.

(** The first thread runs on CPU 0 and is about to wait; another thread of its
    process sets an alarm. *)
Definition demo_alarm : list action :=
  [ASchedule 0 1 2; ASwitch 0; APrepare 0 WAIT_POLL; ABorrow 0 2 100].

Lemma demo_alarm_legal : legal demo_alarm demo_state.
Proof.
  unfold demo_alarm. cbn [legal].
  legal_step ltac:(eexists; split; [vm_compute; reflexivity | by split]).
  legal_step ltac:(eexists; split; [vm_compute; reflexivity | done]).
  legal_step ltac:(do 2 eexists; split_and!; [vm_compute; reflexivity | by split | done | vm_compute; reflexivity | done]).
  legal_step ltac:(split; [done | eexists; vm_compute; reflexivity]).
  exact I.
Qed.

Definition demo_armed : sched := Eval vm_compute in default sched_init (trace demo_alarm demo_state).
Definition demo_stale : sched := Eval vm_compute in default sched_init (trace [ACancel 0] demo_armed).

Lemma demo_armed_reachable : reachable demo_armed.
Proof.
  destruct (trace_reachable demo_alarm demo_state demo_reachable demo_alarm_legal) as (s & Ht & Hs).
  replace demo_armed with s; [done |].
  assert (Hd : trace demo_alarm demo_state = Some demo_armed) by (vm_compute; reflexivity). congruence.
Qed.

Lemma alarm_race_panics_witness : exists s', exec (ACancel 0) demo_armed = Some ((), s') /\
  exec (AArm 0 WAIT_SLEEP 200 false) s' = None.
Proof.
  destruct (alarm_race_panics demo_armed 0 demo_armed_reachable) as (s' & He & _ & Hp).
  - do 2 eexists. split_and!; [vm_compute; reflexivity | by split | done | vm_compute; reflexivity | done | done].
  - exists s'. split; [exact He | apply Hp].
Defined.

Definition demo_run : list action := [ASchedule 0 1 2; ASwitch 0].
Definition demo_run_state : sched := Eval vm_compute in default sched_init (trace demo_run demo_state).

Lemma demo_run_reachable : reachable demo_run_state.
Proof.
  assert (Hl : legal demo_run demo_state).
  { unfold demo_run. cbn [legal]. legal_step ltac:(eexists; split; [vm_compute; reflexivity | by split]).
    legal_step ltac:(eexists; split; [vm_compute; reflexivity | done]). exact I. }
  destruct (trace_reachable demo_run demo_state demo_reachable Hl) as (s & Ht & Hs).
  replace demo_run_state with s; [done |].
  assert (Hd : trace demo_run demo_state = Some demo_run_state) by (vm_compute; reflexivity). congruence.
Qed.

Lemma stale_resume_queues_running_witness : exists s' cl, exec (AWakeStopped STOPPED STOPPED 0 2 SIGCONT) demo_run_state = Some ((), s') /\
  cpu_locals s' !! 0 = Some cl /\ cur_proc cl = 2 /\ 2 ∈ run_queue cl.
Proof.
  destruct (stale_resume_queues_running demo_run_state 0 _ _ SIGCONT demo_run_reachable ltac:(vm_compute; reflexivity)
    ltac:(vm_compute; reflexivity)) as (s' & cl' & He & Hc & Hcur & Hq & _); [reflexivity | left; reflexivity |].
  exists s', cl'. split; [exact He |]. split; [exact Hc |]. split; [exact Hcur | exact Hq].
Defined.
