(* ===== verification/Sync.v ===== *)
(** * Wait queues, mutexes and completions
      (kernel/xcore/wait_queue.c, mutex.c, completion.c)

    A wait queue is the list of its nodes; [__wake_up] calls the callbacks of
    all nodes that are not exclusive and of the first exclusive one.  Mutexes
    and completions are state machines whose steps are the critical sections
    of the code, run by any number of threads in any order, over a scheduler
    of which they only use the interface [Blocker]; the scheduler of [Sched]
    implements it. *)
From S2P Require Import Prelude Sched.

(** ** Wait queues *)

(** [wait_queue_t]: the node, its callback, the callback's data, and whether
    it is exclusive. *)
Record wait_queue_t (F : Type) := WaitNode { node : Z; func : option F; data : Z; exclusive : bool }.
Arguments WaitNode {F}.
Arguments node {F}.
Arguments func {F}.
Arguments data {F}.
Arguments exclusive {F}.

Module WaitQueue.
Section wait_queue.
Context {F St : Type} (call : F -> Z -> Z -> prog St ()).

Definition init_wait_queue_head : list (wait_queue_t F) := [].

Definition add_wait_queue (wq : list (wait_queue_t F)) (wait : wait_queue_t F) : list (wait_queue_t F) := wq ++ [wait].

(** [list_remove] of the node; removing a node that is not linked changes
    nothing. *)
Definition remove_wait_queue (wq : list (wait_queue_t F)) (n : Z) : list (wait_queue_t F) :=
  filter (fun w => node w <> n) wq.

Definition invoke (w : wait_queue_t F) (flags : Z) : prog St () :=
  match func w with Some f => call f (data w) flags | None => mret () end.

Fixpoint wake_up_loop (it : list (wait_queue_t F)) (woken_exclusive : bool) (flags : Z) : prog St () :=
  match it with
  | [] => mret ()
  | w :: next =>
      if exclusive w then
        if woken_exclusive then wake_up_loop next woken_exclusive flags
        else _ ← invoke w flags; wake_up_loop next true flags
      else _ ← invoke w flags; wake_up_loop next woken_exclusive flags
  end.

Definition __wake_up (wq : list (wait_queue_t F)) (flags : Z) : prog St () := wake_up_loop wq false flags.

(** The nodes a wake-up reaches: every node that is not exclusive, and the
    first exclusive one. *)
Fixpoint reached (wq : list (wait_queue_t F)) : list (wait_queue_t F) :=
  match wq with
  | [] => []
  | w :: wq' =>
      if exclusive w then w :: filter (fun w => exclusive w = false) wq' else w :: reached wq'
  end.

Fixpoint invoke_all (l : list (wait_queue_t F)) (flags : Z) : prog St () :=
  match l with
  | [] => mret ()
  | w :: l' => _ ← invoke w flags; invoke_all l' flags
  end.

Lemma wake_up_loop_true wq flags s :
  wake_up_loop wq true flags s = invoke_all (filter (fun w => exclusive w = false) wq) flags s.
Proof.
  revert s. induction wq as [| w wq IH]; intros s; [done |]. cbn [wake_up_loop]. rewrite filter_cons.
  destruct (exclusive w) eqn:He; [rewrite decide_False by done; apply IH |].
  rewrite decide_True by done. cbn [invoke_all]. unfold mbind, prog_bind.
  destruct (invoke w flags s) as [[[] s'] |]; [apply IH | done].
Qed.

(** The loop runs the callbacks of exactly the nodes reached, in queue order. *)
Lemma wake_up_reached wq flags s : __wake_up wq flags s = invoke_all (reached wq) flags s.
Proof.
  unfold __wake_up. revert s. induction wq as [| w wq IH]; intros s; [done |].
  cbn [wake_up_loop reached]. destruct (exclusive w); cbn [invoke_all]; unfold mbind, prog_bind;
    destruct (invoke w flags s) as [[[] s'] |]; first [done | apply wake_up_loop_true | apply IH].
Qed.

(** Rule: an invariant kept by the callbacks, and what each callback achieves
    and the later ones keep. *)
Lemma wp_invoke_all (I : St -> Prop) (P : wait_queue_t F -> St -> Prop) flags l :
  (forall w s, w ∈ l -> I s -> wp (invoke w flags) s (fun _ s' => I s' /\ P w s' /\
     forall w', w' ∈ l -> P w' s -> P w' s')) ->
  forall s, I s -> wp (invoke_all l flags) s (fun _ s' => I s' /\ (forall w, w ∈ l -> P w s') /\
     forall w', w' ∈ l -> P w' s -> P w' s').
Proof.
  assert (Hgen : forall l', (forall w, w ∈ l' -> w ∈ l) ->
    (forall w s, w ∈ l -> I s -> wp (invoke w flags) s (fun _ s' => I s' /\ P w s' /\
     forall w', w' ∈ l -> P w' s -> P w' s')) ->
    forall s, I s -> wp (invoke_all l' flags) s (fun _ s' => I s' /\ (forall w, w ∈ l' -> P w s') /\
     forall w', w' ∈ l -> P w' s -> P w' s')).
  { induction l' as [| w l' IH]; intros Hsub Hstep s HI; cbn [invoke_all].
    - apply wp_ret. split_and!; [done | by intros w Hw%elem_of_nil | done].
    - apply wp_bind. eapply wp_mono; [apply Hstep; [apply Hsub; left | done] |]. cbn.
      intros _ s1 (HI1 & Hw & Hk). eapply wp_mono; [apply IH; [intros; apply Hsub; by right | done | done] |].
      cbn. intros _ s2 (HI2 & Hl' & Hk2). split_and!; [done | | auto].
      intros w' [-> |]%elem_of_cons; [| auto]. apply Hk2; [apply Hsub; left | done]. }
  intros. by apply Hgen.
Qed.
End wait_queue.
End WaitQueue.

(** ** The scheduler as its clients see it *)

Class Blocker (St : Type) := {
  bl_ok : St -> Prop;                 (* the scheduler's invariant *)
  bl_known : Z -> St -> Prop;         (* the task exists *)
  bl_running : Z -> St -> Prop;       (* the task is executing *)
  bl_blocked : Z -> St -> Prop;
  bl_wake : Z -> prog St ();
  bl_block : Z -> wait_event_t -> prog St ();
  bl_block_until : Z -> wait_event_t -> Z -> prog St ();
}.

(** From [s] to [s'] no task is forgotten and only tasks in [P] get blocked. *)
Definition bl_step {St} `{Blocker St} (P : Z -> Prop) (s s' : St) : Prop :=
  bl_ok s' /\ (forall t, bl_known t s -> bl_known t s') /\
  (forall t, bl_blocked t s' -> bl_blocked t s \/ P t).

Class BlockerLaws (St : Type) `{Blocker St} := {
  running_known t s : bl_running t s -> bl_known t s;
  running_not_blocked t s : bl_running t s -> ~ bl_blocked t s;
  wake_law t s : bl_ok s -> bl_known t s ->
    wp (bl_wake t) s (fun _ s' => bl_step (fun _ => False) s s' /\ ~ bl_blocked t s');
  block_law t event s : bl_ok s -> bl_running t s ->
    wp (bl_block t event) s (fun _ s' => bl_step (fun t' => t' = t) s s' /\ bl_blocked t s');
  block_until_law t event deadline s : bl_ok s -> bl_running t s ->
    wp (bl_block_until t event deadline) s
      (fun _ s' => bl_step (fun t' => t' = t) s s' /\ bl_blocked t s');
}.

(** [mutex_lock] marks its caller blocked (mutex.c). *)
Definition mutex_block (t : Z) (event : wait_event_t) : sp () :=
  _ ← upd_task t (set_sstate BLOCKED);
  upd_task t (fun k => set_wait event (wait_timed_out k) k).

(** [wait_for_completion_timeout] does, with a deadline if it is not 0
    (completion.c). *)
Definition completion_block (t : Z) (event : wait_event_t) (deadline : Z) : sp () :=
  k ← get_task t;
  _ ← upd_task t (set_sstate BLOCKED);
  _ ← upd_task t (set_wait event false);
  if deadline =? 0 then mret ()
  else
    _ ← upd_task t (set_deadline deadline);
    timer_queue_wait_push (assigned_cpu k) t.

Definition task_blocked (t : Z) (s : sched) : Prop := exists k, tasks s !! t = Some k /\ state k = BLOCKED.

Definition task_running (t : Z) (s : sched) : Prop :=
  exists c, runs c (fun k => state k = RUNNING) s /\
    exists cl, cpu_locals s !! c = Some cl /\ cur_proc cl = t.

#[export] Instance sched_blocker : Blocker sched := {
  bl_ok := sinv;
  bl_known := exists_task;
  bl_running := task_running;
  bl_blocked := task_blocked;
  bl_wake := wake_wq_target;
  bl_block := mutex_block;
  bl_block_until := completion_block;
}.

Lemma task_blocked_cores t s :
  task_blocked t s <-> exists k, cores s !! t = Some k /\ c_state k = BLOCKED.
Proof.
  split.
  - intros (k & Hk & Hst). exists (core_of k). split; [by apply cores_lookup | done].
  - intros (k & (x & Hx & <-)%cores_lookup_inv & Hst). by exists x.
Qed.

Lemma exists_task_cores t s : exists_task t s <-> is_Some (cores s !! t).
Proof.
  unfold exists_task, cores. rewrite lookup_fmap. by rewrite fmap_is_Some.
Qed.

(** One task of the table changes. *)
Lemma bl_step_insert (P : Z -> Prop) s s' t k :
  sinv s' -> is_Some (cores s !! t) -> cores s' = <[t := k]> (cores s) ->
  (c_state k = BLOCKED -> P t) -> bl_step P s s'.
Proof.
  intros HI Ht Hc HP. split_and!; [done | |].
  - intros t0. cbn. rewrite !exists_task_cores, Hc. at_task t0 t; [by eexists | done].
  - intros t0. cbn. rewrite !task_blocked_cores, Hc. intros (k0 & Hk0 & Hst).
    destruct (decide (t0 = t)) as [-> | Hne].
    + rewrite lookup_insert_eq in Hk0. simplify_eq. auto.
    + rewrite lookup_insert_ne in Hk0 by done. eauto.
Qed.

Lemma sched_running t s : sinv s -> task_running t s ->
  exists c cl, cpu_locals s !! c = Some cl /\ quiet cl /\ cur_proc cl = t /\ idle_proc cl <> t /\
    cores s !! t = Some (Core RUNNING 0 c false) /\ local c cl (cores s) /\ away t c (cpu_locals s).
Proof.
  intros HI (c & Hr & cl & Hc & <-). exists c, cl.
  destruct (runs_running s c HI Hr) as (cl' & Hc' & Hq & Hi & HG & HL & Ha). simplify_eq. done.
Qed.

Lemma sched_wake_law t s : sinv s -> exists_task t s ->
  wp (wake_wq_target t) s (fun _ s' => bl_step (fun _ => False) s s' /\ ~ task_blocked t s').
Proof.
  intros HI [k Hk]. apply cores_lookup in Hk as HG. unfold wake_wq_target.
  seq. apply (wp_get_task (at_self s) t (core_of k)); [done |]. intros x Hx.
  assert (Hst : state x = state k) by (by injection Hx). rewrite Hst. case_bool_decide as Hb.
  - destruct (Inv_placed _ _ _ t _ HI HG) as (cl & Hc & _); [cbn; congruence.. |].
    apply (wp_wake _ _ _ _ t _ cl _ (at_self s) HI HG Hb Hc). intros s' Hat.
    pose proof (at_sinv _ _ _ _ Hat (Inv_woken _ _ _ t (core_of k) cl HI HG Hb Hc)) as HI'.
    destruct Hat as (Hcs & _). split.
    + eapply (bl_step_insert _ s s' t); [exact HI' | by eexists | exact Hcs | done].
    + rewrite task_blocked_cores, Hcs, lookup_insert_eq. intros (? & ? & ?). by simplify_eq.
  - apply wp_ret. split; [by split_and!; auto |]. intros (k' & ? & ?). congruence.
Qed.

(** The current task has marked itself blocked. *)
Lemma mark_blocked G C n s t c cl : at_ G C n s -> Inv G C n -> C !! c = Some cl -> quiet cl ->
  cur_proc cl = t -> idle_proc cl <> t -> G !! t = Some (Core RUNNING 0 c false) ->
  Inv (<[t := Core BLOCKED 0 c false]> G) C n.
Proof.
  intros Hat HI Hc Hq <- Hi HG. destruct Hat as (<- & <- & <-). by apply (restate_current s c BLOCKED cl).
Qed.

Lemma sched_block_law t event s : sinv s -> task_running t s ->
  wp (mutex_block t event) s (fun _ s' => bl_step (fun t' => t' = t) s s' /\ task_blocked t s').
Proof.
  intros HI Hr. destruct (sched_running t s HI Hr) as (c & cl & Hc & Hq & Ht & Hi & HG & HL & Ha).
  pose proof (mark_blocked _ _ _ s t c cl (at_self s) HI Hc Hq Ht Hi HG) as HI1.
  unfold mutex_block. seq.
  eapply (wp_upd_task (at_self s) t _ _ (Core BLOCKED 0 c false)); [done | core_eq |]. intros s1 Hat.
  apply (wp_upd_aux Hat); [rewrite lookup_insert_eq; by eexists | done |]. next_state Hat.
  pose proof (at_sinv _ _ _ _ Hat HI1) as HI'. destruct Hat as (Hcs & _). split.
  - eapply (bl_step_insert _ s _ t); [exact HI' | by eexists | exact Hcs | done].
  - rewrite task_blocked_cores, Hcs, lookup_insert_eq. by eexists.
Qed.

Lemma sched_block_until_law t event d s : sinv s -> task_running t s ->
  wp (completion_block t event d) s (fun _ s' => bl_step (fun t' => t' = t) s s' /\ task_blocked t s').
Proof.
  intros HI Hr. destruct (sched_running t s HI Hr) as (c & cl & Hc & Hq & Ht & Hi & HG & HL & Ha).
  pose proof (mark_blocked _ _ _ s t c cl (at_self s) HI Hc Hq Ht Hi HG) as HI1.
  assert (Hfin : forall s', sinv s' -> cores s' = <[t := Core BLOCKED d c false]> (cores s) ->
    bl_step (fun t' => t' = t) s s' /\ task_blocked t s').
  { intros s' HI' Hcs. split; [eapply (bl_step_insert _ s _ t); [exact HI' | by eexists | exact Hcs | done] |].
    rewrite task_blocked_cores, Hcs, lookup_insert_eq. by eexists. }
  unfold completion_block. seq. apply (wp_get_task (at_self s) t _ _ HG). intros x Hx.
  assert (Hxc : assigned_cpu x = c) by (by injection Hx). rewrite Hxc.
  seq. eapply (wp_upd_task (at_self s) t _ _ (Core BLOCKED 0 c false)); [done | core_eq |]. intros s1 Hat.
  seq. apply (wp_upd_aux Hat); [rewrite lookup_insert_eq; by eexists | done |]. next_state Hat.
  destruct (Z.eqb_spec d 0) as [-> | Hd].
  - apply wp_ret, Hfin; [by eapply at_sinv | by destruct Hat].
  - seq. eapply (wp_upd_task Hat t _ _ (Core BLOCKED d c false)); [apply lookup_insert_eq | core_eq |].
    next_state Hat. rewrite insert_insert_eq in Hat.
    pose proof (not_queued HL t _ HG ltac:(done)) as Hnq. rewrite elem_of_app in Hnq.
    apply (wp_wait_push t c cl _ _ _ _ _ Hat Hc); [by apply (not_timed HL t _ HG) | tauto | done |].
    eapply (arm_ok _ _ _ _ t c cl d false _ HI1); [apply lookup_insert_eq | done | done | | ].
    + by rewrite insert_insert_eq.
    + intros s' HI' Hcs. apply Hfin; [done |]. by rewrite insert_insert_eq in Hcs.
Qed.

#[export] Instance sched_blocker_laws : BlockerLaws sched.
Proof.
  split.
  - intros t s (c & (cl & k & Hc & _ & _ & Hk & _) & cl' & Hc' & <-). simplify_eq. by eexists.
  - intros t s (c & (cl & k & Hc & _ & _ & Hk & Hst) & cl' & Hc' & <-) (k' & Hk' & Hb). simplify_eq. congruence.
  - exact sched_wake_law.
  - exact sched_block_law.
  - exact sched_block_until_law.
Qed.

(** ** Mutexes *)

Module Mutex.
Section mutex.
Context {St : Type} `{BL : Blocker St} {Laws : BlockerLaws St}.

(** The only callback of a mutex queue is [mutex_wake]; [guard] is the
    granularity of the steps below. *)
Record mutex := Mutex { locked : bool; waiters : list (wait_queue_t ()) }.

Definition mutex_wake (_ : ()) (data flags : Z) : prog St () := bl_wake data.

Definition mutex_init : mutex := Mutex false WaitQueue.init_wait_queue_head.

(** [mutex_lock] of task [t] up to the loop: the node is on the stack of [t]. *)
Definition lock_enter (t : Z) (m : mutex) : mutex :=
  Mutex (locked m) (WaitQueue.add_wait_queue (waiters m) (WaitNode t (Some ()) t true)).

(** One iteration up to [schedule]; the result says whether the lock is
    taken. *)
Definition lock_try (t : Z) : prog (mutex * St) bool := fun ms =>
  let (m, s) := ms in
  if negb (locked m) then Some (true, (Mutex true (waiters m), s))
  else r ← bl_block t WAIT_MUTEX s; Some (false, (m, r.2)).

Definition lock_leave (t : Z) (m : mutex) : mutex :=
  Mutex (locked m) (WaitQueue.remove_wait_queue (waiters m) t).

(** [mutex_unlock]: its critical section, then the wake-up. *)
Definition unlock_clear (m : mutex) : mutex := Mutex false (waiters m).

Definition unlock_wake : prog (mutex * St) () := fun ms =>
  let (m, s) := ms in
  r ← WaitQueue.__wake_up mutex_wake (waiters m) 0 s; Some ((), (m, r.2)).

(** Where a thread is: outside, at the top of the loop, in [schedule] after
    it has marked itself blocked, past the guard with the lock, in its
    critical section, between the two halves of [mutex_unlock]. *)
Inductive place := Out | Trying | Waiting | Acquired | Holding | Unlocking.

#[global] Instance place_eq_dec : EqDecision place.
Proof. solve_decision. Defined.

Record system := System { mtx : mutex; sys : St; at_place : gmap Z place }.

Definition where_is (y : system) (t : Z) : place := default Out (at_place y !! t).
Definition move (t : Z) (p : place) (y : system) : gmap Z place := <[t := p]> (at_place y).

(** A thread inside [mutex_lock]. *)
Definition locking (p : place) : bool :=
  match p with Trying | Waiting | Acquired => true | _ => false end.

Inductive step : system -> system -> Prop :=
  | s_enter y t :
      where_is y t = Out -> bl_running t (sys y) ->
      step y (System (lock_enter t (mtx y)) (sys y) (move t Trying y))
  | s_try y t b m s :
      where_is y t = Trying -> bl_running t (sys y) -> lock_try t (mtx y, sys y) = Some (b, (m, s)) ->
      step y (System m s (move t (if b then Acquired else Waiting) y))
  | s_resume y t :
      where_is y t = Waiting -> bl_running t (sys y) ->
      step y (System (mtx y) (sys y) (move t Trying y))
  | s_leave y t :
      where_is y t = Acquired ->
      step y (System (lock_leave t (mtx y)) (sys y) (move t Holding y))
  | s_clear y t :
      where_is y t = Holding ->
      step y (System (unlock_clear (mtx y)) (sys y) (move t Unlocking y))
  | s_wake y t m s :
      where_is y t = Unlocking -> unlock_wake (mtx y, sys y) = Some ((), (m, s)) ->
      step y (System m s (move t Out y))
  | s_sched y s :
      (* the rest of the kernel: a thread inside [mutex_lock] is not blocked by others *)
      bl_step (fun t => locking (where_is y t) = false) (sys y) s ->
      step y (System (mtx y) s (at_place y)).

Inductive reachable : system -> Prop :=
  | r_init s : bl_ok s -> reachable (System mutex_init s ∅)
  | r_step y y' : reachable y -> step y y' -> reachable y'.

Definition mnode (t : Z) : wait_queue_t () := WaitNode t (Some ()) t true.

Definition owns (p : place) : bool := match p with Acquired | Holding => true | _ => false end.

Record minv (y : system) (ids : list Z) : Prop := {
  mi_ok : bl_ok (sys y);
  mi_queue : waiters (mtx y) = mnode <$> ids;
  mi_nodup : NoDup ids;
  mi_ids : forall t, t ∈ ids <-> locking (where_is y t) = true;
  mi_known : forall t, t ∈ ids -> bl_known t (sys y);
  mi_locked : locked (mtx y) = true <-> exists t, owns (where_is y t) = true;
  mi_owner : forall t t', owns (where_is y t) = true -> owns (where_is y t') = true -> t = t';
  mi_live : forall t, where_is y t = Trying \/ where_is y t = Acquired -> ~ bl_blocked t (sys y);
  mi_woken : locked (mtx y) = false -> (forall t, where_is y t <> Unlocking) ->
    forall t rest, ids = t :: rest -> ~ bl_blocked t (sys y);
}.

Lemma where_move m s t p y t' :
  where_is (System m s (move t p y)) t' = if decide (t' = t) then p else where_is y t'.
Proof.
  unfold where_is, move. cbn. case_decide as Ht; [subst; by rewrite lookup_insert_eq |].
  by rewrite lookup_insert_ne.
Qed.

Lemma remove_ids t ids : WaitQueue.remove_wait_queue (mnode <$> ids) t = mnode <$> filter (fun x => x <> t) ids.
Proof.
  unfold WaitQueue.remove_wait_queue. induction ids as [| x ids IH]; [done |].
  rewrite fmap_cons, !filter_cons. cbn [mnode node]. case_decide; [by rewrite fmap_cons, <- IH | done].
Qed.

Lemma reached_ids t ids : WaitQueue.reached (mnode <$> (t :: ids)) = [mnode t].
Proof.
  cbn. f_equal. induction ids as [| x ids IH]; [done |].
  rewrite fmap_cons, filter_cons, decide_False by done. exact IH.
Qed.

(** A wake-up of the queue wakes the thread at its head. *)
Lemma wake_head s ids : bl_ok s -> (forall t, t ∈ ids -> bl_known t s) ->
  wp (WaitQueue.__wake_up mutex_wake (mnode <$> ids) 0) s (fun _ s' => bl_step (fun _ => False) s s' /\
    forall t rest, ids = t :: rest -> ~ bl_blocked t s').
Proof using Laws.
  intros Hok Hk. unfold wp. setoid_rewrite WaitQueue.wake_up_reached. destruct ids as [| t ids].
  - exists (), s. split; [done |]. split; [| done]. split_and!; auto.
  - rewrite reached_ids. change (wp (WaitQueue.invoke_all mutex_wake [mnode t] 0) s (fun _ s' =>
      bl_step (fun _ => False) s s' /\ forall t' rest, t :: ids = t' :: rest -> ~ bl_blocked t' s')).
    cbn [WaitQueue.invoke_all]. apply wp_bind. eapply wp_mono; [apply wake_law; [done | apply Hk; left] |].
    cbn. intros _ s' [? ?]. apply wp_ret. split; [done |]. by intros ? ? [= <- _].
Qed.

Ltac places := repeat setoid_rewrite where_move.

Lemma minv_enter y ids t : minv y ids -> where_is y t = Out -> bl_running t (sys y) ->
  minv (System (lock_enter t (mtx y)) (sys y) (move t Trying y)) (ids ++ [t]).
Proof using Laws.
  intros [Hok Hq Hnd Hid Hkn Hl Ho Hlv Hw] Ht Hr.
  assert (Hni : t ∉ ids) by (rewrite Hid, Ht; done). split; cbn; places; try done.
  - unfold WaitQueue.add_wait_queue. by rewrite Hq, fmap_app.
  - apply NoDup_app. split_and!; [done | | apply NoDup_singleton].
    intros x Hx ->%list_elem_of_singleton. done.
  - intros x. rewrite elem_of_app, list_elem_of_singleton, Hid. case_decide as Hx; [by split; auto |]. tauto.
  - intros x. rewrite elem_of_app, list_elem_of_singleton. intros [| ->]; [auto | by apply running_known].
  - rewrite Hl. split; intros [x Hx]; exists x; case_decide; subst; try done. by rewrite Ht in Hx.
  - intros x x'. repeat case_decide; subst; try done. auto.
  - intros x. case_decide; subst; [intros _; by apply running_not_blocked | auto].
  - intros Hlk Hnu x rest Hx. destruct ids as [| x0 ids]; cbn in Hx; simplify_eq.
    + by apply running_not_blocked.
    + eapply Hw; [done | | done]. intros x' Hx'. specialize (Hnu x'). case_decide; congruence.
Qed.

Lemma minv_try y ids t : minv y ids -> where_is y t = Trying -> bl_running t (sys y) ->
  exists b m s, lock_try t (mtx y, sys y) = Some (b, (m, s)) /\
    minv (System m s (move t (if b then Acquired else Waiting) y)) ids.
Proof using Laws.
  intros [Hok Hq Hnd Hid Hkn Hl Ho Hlv Hw] Ht Hr. unfold lock_try.
  assert (Hti : t ∈ ids) by (by rewrite Hid, Ht).
  destruct (locked (mtx y)) eqn:Hlk; cbn.
  - destruct (block_law t WAIT_MUTEX (sys y) Hok Hr) as ([] & s' & -> & (Hok' & Hkn' & Hbl) & Hb). cbn.
    exists false, (mtx y), s'. split; [done |]. split; cbn; places; try done.
    + intros x. rewrite Hid. case_decide; subst; [by rewrite Ht | done].
    + auto.
    + rewrite Hlk, Hl. split; intros [x Hx]; exists x; case_decide; subst; try done; by rewrite Ht in Hx.
    + intros x x'. repeat case_decide; subst; try done. auto.
    + intros x. case_decide; [by intros [|] |]. intros Hx Hbx. destruct (Hbl x Hbx) as [| ->]; [| done].
      by apply (Hlv x).
    + rewrite Hlk. done.
  - exists true, (Mutex true (waiters (mtx y))), (sys y). split; [done |].
    assert (Hno : forall x, owns (where_is y x) = true -> False) by (intros x Hx; by discriminate (proj2 Hl (ex_intro _ x Hx))).
    split; cbn; places; try done.
    + intros x. rewrite Hid. case_decide; subst; [by rewrite Ht | done].
    + split; [| done]. intros _. exists t. by rewrite decide_True.
    + intros x x'. repeat case_decide; subst; try done; intros; exfalso; eauto.
    + intros x. case_decide; subst; [intros _; by apply Hlv; left | auto].
Qed.

Lemma minv_resume y ids t : minv y ids -> where_is y t = Waiting -> bl_running t (sys y) ->
  minv (System (mtx y) (sys y) (move t Trying y)) ids.
Proof using Laws.
  intros [Hok Hq Hnd Hid Hkn Hl Ho Hlv Hw] Ht Hr. split; cbn; places; try done.
  - intros x. rewrite Hid. case_decide; subst; [by rewrite Ht | done].
  - rewrite Hl. split; intros [x Hx]; exists x; case_decide; subst; try done; by rewrite Ht in Hx.
  - intros x x'. repeat case_decide; subst; try done. auto.
  - intros x. case_decide; subst; [intros _; by apply running_not_blocked | auto].
  - intros Hlk Hnu. apply Hw; [done |]. intros x Hx. specialize (Hnu x). case_decide; congruence.
Qed.

Lemma minv_leave y ids t : minv y ids -> where_is y t = Acquired ->
  minv (System (lock_leave t (mtx y)) (sys y) (move t Holding y)) (filter (fun x => x <> t) ids).
Proof.
  intros [Hok Hq Hnd Hid Hkn Hl Ho Hlv Hw] Ht.
  assert (Hlk : locked (mtx y) = true) by (apply Hl; exists t; by rewrite Ht).
  split; cbn; places; try done.
  - rewrite Hq. apply remove_ids.
  - by apply NoDup_filter.
  - intros x. rewrite list_elem_of_filter, Hid. case_decide; subst; [split; [by intros [] | done] | tauto].
  - intros x [_ Hx]%list_elem_of_filter. auto.
  - rewrite Hlk. split; [| done]. intros _. exists t. by rewrite decide_True.
  - intros x x'. repeat case_decide; subst; try done; intros.
    + symmetry. apply Ho; [done | by rewrite Ht].
    + apply Ho; [done | by rewrite Ht].
    + auto.
  - intros x. case_decide; [by intros [|] | auto].
  - by rewrite Hlk.
Qed.

Lemma minv_clear y ids t : minv y ids -> where_is y t = Holding ->
  minv (System (unlock_clear (mtx y)) (sys y) (move t Unlocking y)) ids.
Proof.
  intros [Hok Hq Hnd Hid Hkn Hl Ho Hlv Hw] Ht.
  assert (Hno : forall x, x <> t -> owns (where_is y x) = true -> False)
    by (intros x Hne Hx; apply Hne, Ho; [done | by rewrite Ht]).
  split; cbn; places; try done.
  - intros x. rewrite Hid. case_decide; subst; [by rewrite Ht | done].
  - split; [done |]. intros [x Hx]. case_decide; [done | by destruct (Hno x)].
  - intros x x'. repeat case_decide; subst; try done. auto.
  - intros x. case_decide; [by intros [|] | auto].
  - intros _ Hnu. specialize (Hnu t). by rewrite decide_True in Hnu.
Qed.

Lemma minv_wake y ids t : minv y ids -> where_is y t = Unlocking ->
  exists m s, unlock_wake (mtx y, sys y) = Some ((), (m, s)) /\ minv (System m s (move t Out y)) ids.
Proof using Laws.
  intros [Hok Hq Hnd Hid Hkn Hl Ho Hlv Hw] Ht. unfold unlock_wake. rewrite Hq.
  destruct (wake_head (sys y) ids Hok Hkn) as ([] & s' & -> & (Hok' & Hkn' & Hbl) & Hhd). cbn.
  exists (mtx y), s'. split; [done |]. split; cbn; places; try done.
  - intros x. rewrite Hid. case_decide; subst; [by rewrite Ht | done].
  - auto.
  - rewrite Hl. split; intros [x Hx]; exists x; case_decide; subst; try done; by rewrite Ht in Hx.
  - intros x x'. repeat case_decide; subst; try done. auto.
  - intros x. case_decide; [by intros [|] |]. intros Hx Hb. destruct (Hbl x Hb) as [Hb' | []]. by apply (Hlv x).
Qed.

Lemma minv_sched y ids s : minv y ids ->
  bl_step (fun t => locking (where_is y t) = false) (sys y) s -> minv (System (mtx y) s (at_place y)) ids.
Proof.
  intros [Hok Hq Hnd Hid Hkn Hl Ho Hlv Hw] (Hok' & Hkn' & Hbl). split; try done; cbn.
  - auto.
  - intros t Ht Hb. destruct (Hbl t Hb) as [Hb' | Hnl]; [by apply (Hlv t) |].
    change (where_is (System (mtx y) s (at_place y)) t) with (where_is y t) in Ht.
    by destruct Ht as [Ht | Ht]; rewrite Ht in Hnl.
  - intros Hlk Hnu t rest -> Hb. destruct (Hbl t Hb) as [Hb' | Hnl]; [by apply (Hw Hlk Hnu t rest) |].
    assert (Hin : t ∈ t :: rest) by left. apply Hid in Hin. congruence.
Qed.

Lemma reachable_minv y : reachable y -> exists ids, minv y ids.
Proof using Laws.
  induction 1 as [s Hok | y y' _ [ids IH] Hs].
  - exists []. split; cbn; try done.
    + constructor.
    + intros t. split; [by intros []%elem_of_nil | done].
    + intros t []%elem_of_nil.
    + split; [done |]. by intros [t Ht].
    + intros t. unfold where_is. cbn. by intros [|].
  - destruct Hs as [y t Ht Hr | y t b m s Ht Hr Hx | y t Ht Hr | y t Ht | y t Ht | y t m s Ht Hx | y s Hs].
    + exists (ids ++ [t]). by apply minv_enter.
    + destruct (minv_try y ids t IH Ht Hr) as (b' & m' & s' & Hx' & Hi). rewrite Hx in Hx'.
      injection Hx' as -> -> ->. by exists ids.
    + exists ids. by apply minv_resume.
    + exists (filter (fun x => x <> t) ids). by apply minv_leave.
    + exists ids. by apply minv_clear.
    + destruct (minv_wake y ids t IH Ht) as (m' & s' & Hx' & Hi). rewrite Hx in Hx'.
      injection Hx' as -> ->. by exists ids.
    + exists ids. by apply minv_sched.
Qed.

(** C11. Any number of threads lock and unlock a mutex, over any scheduler that
    keeps the interface, interleaved with anything else the kernel does.  At
    most one thread is between taking the lock and giving it back, and the
    lock word says whether there is one.  No wake-up is lost: when the lock is
    free and no unlocker still has to wake the queue, the thread at the head
    of the queue is not blocked, so it will find the lock free.  And no step
    of the code faults. *)
Theorem mutex_correct y : reachable y ->
  (forall t t', owns (where_is y t) = true -> owns (where_is y t') = true -> t = t') /\
  (locked (mtx y) = true <-> exists t, owns (where_is y t) = true) /\
  (locked (mtx y) = false -> (forall t, where_is y t <> Unlocking) ->
     forall w rest, waiters (mtx y) = w :: rest -> ~ bl_blocked (data w) (sys y)) /\
  (forall t, where_is y t = Trying -> bl_running t (sys y) -> exists r, lock_try t (mtx y, sys y) = Some r) /\
  (forall t, where_is y t = Unlocking -> exists r, unlock_wake (mtx y, sys y) = Some r).
Proof using Laws.
  intros [ids Hi]%reachable_minv. split_and!.
  - apply (mi_owner _ _ Hi).
  - apply (mi_locked _ _ Hi).
  - intros Hl Hnu w rest Hq. rewrite (mi_queue _ _ Hi) in Hq. destruct ids as [| t ids']; [done |].
    injection Hq as <- _. by apply (mi_woken _ _ Hi Hl Hnu t ids').
  - intros t Ht Hr. destruct (minv_try y ids t Hi Ht Hr) as (? & ? & ? & ? & _). eauto.
  - intros t Ht. destruct (minv_wake y ids t Hi Ht) as (? & ? & ? & _). eauto.
Qed.
End mutex.
End Mutex.

(** ** Completions *)

Module Completion.
Section completion.
Context {St : Type} `{BL : Blocker St} {Laws : BlockerLaws St}.

Record completion := Completion { done_cnt : Z; waiters : list (wait_queue_t ()) }.

Definition completion_wake (_ : ()) (data flags : Z) : prog St () := bl_wake data.

Definition init_completion : completion := Completion 0 WaitQueue.init_wait_queue_head.

Definition reinit_completion (c : completion) : completion := Completion 0 (waiters c).

(** The critical section of [completion_publish]; the wake-up follows. *)
Definition completion_publish (all : bool) (c : completion) : completion :=
  Completion (if all then UINT32_MAX else if done_cnt c =? UINT32_MAX then done_cnt c else u32 (done_cnt c + 1))
    (waiters c).

Definition publish_wake : prog (completion * St) () := fun cs =>
  let (c, s) := cs in
  r ← WaitQueue.__wake_up completion_wake (waiters c) 0 s; Some ((), (c, r.2)).

(** [wait_for_completion_timeout]: the node is on the stack of [t]. *)
Definition wait_enter (t : Z) (c : completion) : completion :=
  Completion (done_cnt c) (WaitQueue.add_wait_queue (waiters c) (WaitNode t (Some ()) t false)).

Definition completion_deadline (now timeout_ns : Z) : Z :=
  if timeout_ns =? UINT64_MAX then 0
  else if UINT64_MAX - now <? timeout_ns then UINT64_MAX else now + timeout_ns.

(** One iteration up to [schedule]: the result to break with, if any.  [sig]
    is [signal_pending(current_task)], [now] the clock. *)
Definition wait_iter (t deadline : Z) (sig : bool) (now : Z) : prog (completion * St) (option Z) := fun cs =>
  let (c, s) := cs in
  if negb (done_cnt c =? 0) then
    Some (Some 0, (Completion (if done_cnt c =? UINT32_MAX then done_cnt c else u32 (done_cnt c - 1)) (waiters c), s))
  else if sig then Some (Some (- EINTR), (c, s))
  else if negb (deadline =? 0) && (deadline <=? now) then Some (Some (- ETIMEDOUT), (c, s))
  else r ← bl_block_until t WAIT_COMPLETION deadline s; Some (None, (c, r.2)).

Definition wait_leave (t : Z) (c : completion) : completion :=
  Completion (done_cnt c) (WaitQueue.remove_wait_queue (waiters c) t).

(** Where a waiting thread is: outside, at the top of the loop with its
    deadline, in [schedule], past the loop with its result. *)
Inductive place := Out | Trying (deadline : Z) | Waiting (deadline : Z) | Leaving (result : Z).

(** [pubs] publishers are between the counter and the wake-up.  [posts] and
    [gets] count the calls of [complete] and the waits that returned 0, [all]
    says whether [complete_all] was called: they observe the run. *)
Record system := System {
  cmp : completion; sys : St; at_place : gmap Z place; pubs : nat;
  posts : Z; gets : Z; all : bool;
}.

Definition where_is (y : system) (t : Z) : place := default Out (at_place y !! t).
Definition move (t : Z) (p : place) (y : system) : gmap Z place := <[t := p]> (at_place y).

Definition waiting (p : place) : bool := match p with Out => false | _ => true end.

Inductive step : system -> system -> Prop :=
  | s_enter y t now timeout :
      where_is y t = Out -> bl_running t (sys y) ->
      step y (System (wait_enter t (cmp y)) (sys y) (move t (Trying (completion_deadline now timeout)) y)
                (pubs y) (posts y) (gets y) (all y))
  | s_iter y t deadline sig now r c s :
      where_is y t = Trying deadline -> bl_running t (sys y) ->
      wait_iter t deadline sig now (cmp y, sys y) = Some (r, (c, s)) ->
      step y (System c s (move t (match r with Some v => Leaving v | None => Waiting deadline end) y)
                (pubs y) (posts y) (gets y + if bool_decide (r = Some 0) then 1 else 0) (all y))
  | s_resume y t deadline :
      where_is y t = Waiting deadline -> bl_running t (sys y) ->
      step y (System (cmp y) (sys y) (move t (Trying deadline) y) (pubs y) (posts y) (gets y) (all y))
  | s_leave y t result :
      where_is y t = Leaving result ->
      step y (System (wait_leave t (cmp y)) (sys y) (move t Out y) (pubs y) (posts y) (gets y) (all y))
  | s_publish y b :
      step y (System (completion_publish b (cmp y)) (sys y) (at_place y) (S (pubs y))
                (posts y + if b then 0 else 1) (gets y) (all y || b))
  | s_wake y n c s :
      pubs y = S n -> publish_wake (cmp y, sys y) = Some ((), (c, s)) ->
      step y (System c s (at_place y) n (posts y) (gets y) (all y))
  | s_reinit y :
      step y (System (reinit_completion (cmp y)) (sys y) (at_place y) (pubs y) (posts y) (gets y) (all y))
  | s_sched y s :
      bl_step (fun t => waiting (where_is y t) = false) (sys y) s ->
      step y (System (cmp y) s (at_place y) (pubs y) (posts y) (gets y) (all y)).

Inductive reachable : system -> Prop :=
  | r_init s : bl_ok s -> reachable (System init_completion s ∅ 0 0 0 false)
  | r_step y y' : reachable y -> step y y' -> reachable y'.

Definition cnode (t : Z) : wait_queue_t () := WaitNode t (Some ()) t false.

Record cinv (y : system) (ids : list Z) : Prop := {
  ci_ok : bl_ok (sys y);
  ci_queue : waiters (cmp y) = cnode <$> ids;
  ci_ids : forall t, t ∈ ids <-> waiting (where_is y t) = true;
  ci_known : forall t, t ∈ ids -> bl_known t (sys y);
  ci_range : 0 <= done_cnt (cmp y) <= UINT32_MAX;
  ci_credit : all y = false -> posts y < UINT32_MAX -> 0 <= gets y /\ done_cnt (cmp y) + gets y <= posts y;
  ci_woken : done_cnt (cmp y) <> 0 -> pubs y = 0%nat -> forall t, t ∈ ids -> ~ bl_blocked t (sys y);
  ci_awake : forall t, (match where_is y t with Trying _ | Leaving _ => True | _ => False end) ->
    ~ bl_blocked t (sys y);
}.

Lemma cwhere_move c s n a b d t p y t' :
  where_is (System c s (move t p y) n a b d) t' = if decide (t' = t) then p else where_is y t'.
Proof.
  unfold where_is, move. cbn. case_decide as Ht; [subst; by rewrite lookup_insert_eq |].
  by rewrite lookup_insert_ne.
Qed.

Lemma cremove_ids t ids : WaitQueue.remove_wait_queue (cnode <$> ids) t = cnode <$> filter (fun x => x <> t) ids.
Proof.
  unfold WaitQueue.remove_wait_queue. induction ids as [| x ids IH]; [done |].
  rewrite fmap_cons, !filter_cons. cbn [cnode node]. case_decide; [by rewrite fmap_cons, <- IH | done].
Qed.

Lemma reached_all ids : WaitQueue.reached (cnode <$> ids) = cnode <$> ids.
Proof. induction ids as [| x ids IH]; [done |]. cbn. by rewrite IH. Qed.

(** A wake-up of the queue wakes every waiter. *)
Lemma wake_everyone s ids : bl_ok s -> (forall t, t ∈ ids -> bl_known t s) ->
  wp (WaitQueue.__wake_up completion_wake (cnode <$> ids) 0) s (fun _ s' => bl_step (fun _ => False) s s' /\
    forall t, t ∈ ids -> ~ bl_blocked t s').
Proof using Laws.
  intros Hok Hk.
  assert (Hall : wp (WaitQueue.invoke_all completion_wake (cnode <$> ids) 0) s (fun _ s' =>
    bl_step (fun _ => False) s s' /\ (forall w, w ∈ cnode <$> ids -> ~ bl_blocked (data w) s') /\
    forall w, w ∈ cnode <$> ids -> ~ bl_blocked (data w) s -> ~ bl_blocked (data w) s')).
  { apply (WaitQueue.wp_invoke_all completion_wake (fun s' => bl_step (fun _ => False) s s')
      (fun w s' => ~ bl_blocked (data w) s')); [| by split_and!; auto].
    intros w s1 (t & -> & Ht)%list_elem_of_fmap (Hok1 & Hk1 & Hb1).
    eapply wp_mono; [apply wake_law; [done | by apply Hk1, Hk] |]. cbn.
    intros _ s2 [(Hok2 & Hk2 & Hb2) Hnb]. split_and!; [split_and!; auto | done |].
    - intros x Hx. destruct (Hb2 x Hx) as [Hx1 | []]. auto.
    - intros w' _ Hw' Hb. destruct (Hb2 _ Hb) as [| []]. done. }
  destruct Hall as ([] & s' & He & Hst & Hw & _). exists (), s'.
  rewrite WaitQueue.wake_up_reached, reached_all. split; [done |]. split; [done |].
  intros t Ht. apply (Hw (cnode t)), list_elem_of_fmap. by exists t.
Qed.

Ltac cplaces := repeat setoid_rewrite cwhere_move.

Lemma cinv_enter y ids t d : cinv y ids -> where_is y t = Out -> bl_running t (sys y) ->
  cinv (System (wait_enter t (cmp y)) (sys y) (move t (Trying d) y) (pubs y) (posts y) (gets y) (all y))
    (ids ++ [t]).
Proof using Laws.
  intros [Hok Hq Hid Hkn Hrg Hcr Hw Ha] Ht Hr. split; cbn; cplaces; try done.
  - unfold WaitQueue.add_wait_queue. by rewrite Hq, fmap_app.
  - intros x. rewrite elem_of_app, list_elem_of_singleton, Hid. case_decide; [by split; auto |]. tauto.
  - intros x. rewrite elem_of_app, list_elem_of_singleton. intros [| ->]; [auto | by apply running_known].
  - intros Hd Hp x. rewrite elem_of_app, list_elem_of_singleton.
    intros [| ->]; [auto | by apply running_not_blocked].
  - intros x. case_decide; subst; [intros _; by apply running_not_blocked | apply Ha].
Qed.

Lemma cinv_iter y ids t d sig now : cinv y ids -> where_is y t = Trying d -> bl_running t (sys y) ->
  exists r c s, wait_iter t d sig now (cmp y, sys y) = Some (r, (c, s)) /\
    cinv (System c s (move t (match r with Some v => Leaving v | None => Waiting d end) y)
            (pubs y) (posts y) (gets y + if bool_decide (r = Some 0) then 1 else 0) (all y)) ids.
Proof using Laws.
  intros [Hok Hq Hid Hkn Hrg Hcr Hw Ha] Ht Hr. unfold wait_iter.
  assert (Hids : forall p x, waiting p = true -> x ∈ ids <-> waiting (if decide (x = t) then p else where_is y x) = true).
  { intros p x Hp. rewrite Hid. case_decide; subst; [by rewrite Ht, Hp | done]. }
  assert (Hbr : forall v c, waiters c = waiters (cmp y) -> 0 <= done_cnt c <= UINT32_MAX ->
    (done_cnt c <> 0 -> done_cnt (cmp y) <> 0) ->
    (all y = false -> posts y < UINT32_MAX -> 0 <= gets y + (if bool_decide (Some v = Some 0) then 1 else 0) /\
       done_cnt c + (gets y + (if bool_decide (Some v = Some 0) then 1 else 0)) <= posts y) ->
    cinv (System c (sys y) (move t (Leaving v) y) (pubs y) (posts y)
      (gets y + if bool_decide (Some v = Some 0) then 1 else 0) (all y)) ids).
  { intros v c Hwq Hc Hnz Hcr'. split; cbn; cplaces; try done.
    - by rewrite Hwq.
    - intros x. by apply Hids.
    - intros ? ?. auto.
    - intros x. destruct (decide (x = t)) as [-> |]; [intros _; apply Ha; by rewrite Ht | apply Ha]. }
  unfold UINT32_MAX in *. destruct (Z.eqb_spec (done_cnt (cmp y)) 0) as [Hz | Hnz]; cbn.
  - destruct sig; [do 3 eexists; split; [done |]; apply Hbr; [done.. | cbn; by rewrite Z.add_0_r] |].
    case_match; [do 3 eexists; split; [done |]; apply Hbr; [done.. | cbn; by rewrite Z.add_0_r] |].
    destruct (block_until_law t WAIT_COMPLETION d (sys y) Hok Hr) as ([] & s' & -> & (Hok' & Hkn' & Hbl) & Hb).
    cbn. do 3 eexists. split; [done |]. split; cbn; cplaces; rewrite ?Z.add_0_r; try done.
    + intros x. by apply Hids.
    + auto.
    + intros x. case_decide; [done |]. intros Hx Hbx. destruct (Hbl x Hbx) as [| ->]; [| done].
      by apply (Ha x).
  - do 3 eexists. split; [done |]. apply Hbr; cbn; try done.
    + destruct (Z.eqb_spec (done_cnt (cmp y)) (2 ^ 32 - 1)); [lia |]. rewrite u32_small; lia.
    + intros Hall Hp. destruct (Hcr Hall Hp). rewrite bool_decide_true by done.
      destruct (Z.eqb_spec (done_cnt (cmp y)) (2 ^ 32 - 1)); [lia |]. rewrite u32_small; lia.
Qed.

Lemma cinv_resume y ids t d : cinv y ids -> where_is y t = Waiting d -> bl_running t (sys y) ->
  cinv (System (cmp y) (sys y) (move t (Trying d) y) (pubs y) (posts y) (gets y) (all y)) ids.
Proof using Laws.
  intros [Hok Hq Hid Hkn Hrg Hcr Hw Ha] Ht Hr. split; cbn; cplaces; try done.
  - intros x. rewrite Hid. destruct (decide (x = t)) as [-> |]; [by rewrite Ht | done].
  - intros x. destruct (decide (x = t)) as [-> |]; [intros _; by apply running_not_blocked | apply Ha].
Qed.

Lemma cinv_leave y ids t r : cinv y ids -> where_is y t = Leaving r ->
  cinv (System (wait_leave t (cmp y)) (sys y) (move t Out y) (pubs y) (posts y) (gets y) (all y))
    (filter (fun x => x <> t) ids).
Proof.
  intros [Hok Hq Hid Hkn Hrg Hcr Hw Ha] Ht. split; cbn; cplaces; try done.
  - rewrite Hq. apply cremove_ids.
  - intros x. rewrite list_elem_of_filter, Hid. case_decide; subst; [split; [by intros [] | done] | tauto].
  - intros x [_ Hx]%list_elem_of_filter. auto.
  - intros Hd Hp x [_ Hx]%list_elem_of_filter. auto.
  - intros x. case_decide; [done | apply Ha].
Qed.

Lemma cinv_publish y ids b : cinv y ids ->
  cinv (System (completion_publish b (cmp y)) (sys y) (at_place y) (S (pubs y)) (posts y + if b then 0 else 1)
          (gets y) (all y || b)) ids.
Proof.
  intros [Hok Hq Hid Hkn Hrg Hcr Hw Ha]. unfold UINT32_MAX in *. split; try done; cbn; unfold UINT32_MAX.
  - destruct b; [lia |]. destruct (Z.eqb_spec (done_cnt (cmp y)) (2 ^ 32 - 1)); [lia |]. rewrite u32_small; lia.
  - intros [Hall ->]%orb_false_iff Hp. destruct (Hcr Hall); [lia |].
    destruct (Z.eqb_spec (done_cnt (cmp y)) (2 ^ 32 - 1)); [lia |]. rewrite u32_small; lia.
Qed.

Lemma cinv_wake y ids n : cinv y ids -> pubs y = S n ->
  exists c s, publish_wake (cmp y, sys y) = Some ((), (c, s)) /\
    cinv (System c s (at_place y) n (posts y) (gets y) (all y)) ids.
Proof using Laws.
  intros [Hok Hq Hid Hkn Hrg Hcr Hw Ha] Hp. unfold publish_wake. rewrite Hq.
  destruct (wake_everyone (sys y) ids Hok Hkn) as ([] & s' & -> & (Hok' & Hkn' & Hbl) & Hnb). cbn.
  exists (cmp y), s'. split; [done |]. split; cbn; try done.
  - auto.
  - intros t Ht Hb. destruct (Hbl t Hb) as [Hb' | []]. by apply (Ha t).
Qed.

Lemma cinv_sched y ids s : cinv y ids ->
  bl_step (fun t => waiting (where_is y t) = false) (sys y) s ->
  cinv (System (cmp y) s (at_place y) (pubs y) (posts y) (gets y) (all y)) ids.
Proof.
  intros [Hok Hq Hid Hkn Hrg Hcr Hw Ha] (Hok' & Hkn' & Hbl). split; cbn; try done.
  - auto.
  - intros Hd Hp t Ht Hb. destruct (Hbl t Hb) as [Hb' | Hn]; [by apply (Hw Hd Hp t) |].
    apply Hid in Ht. congruence.
  - intros t Ht Hb. change (where_is (System (cmp y) s (at_place y) (pubs y) (posts y) (gets y) (all y)) t)
      with (where_is y t) in Ht. destruct (Hbl t Hb) as [Hb' | Hn]; [by apply (Ha t) |].
    by destruct (where_is y t).
Qed.

Lemma reachable_cinv y : reachable y -> exists ids, cinv y ids.
Proof using Laws.
  induction 1 as [s Hok | y y' _ [ids IH] Hs].
  - exists []. split; cbn; try done.
    + intros t. split; [by intros []%elem_of_nil | done].
    + intros t []%elem_of_nil.
  - destruct Hs as [y t now timeout Ht Hr | y t d sig now r c s Ht Hr Hx | y t d Ht Hr | y t r Ht | y b |
      y n c s Hn Hx | y | y s Hs].
    + exists (ids ++ [t]). by apply cinv_enter.
    + destruct (cinv_iter y ids t d sig now IH Ht Hr) as (r' & c' & s' & Hx' & Hi). rewrite Hx in Hx'.
      injection Hx' as -> -> ->. by exists ids.
    + exists ids. by apply cinv_resume.
    + exists (filter (fun x => x <> t) ids). by apply (cinv_leave y ids t r).
    + exists ids. by apply cinv_publish.
    + destruct (cinv_wake y ids n IH Hn) as (c' & s' & Hx' & Hi). rewrite Hx in Hx'.
      injection Hx' as -> ->. by exists ids.
    + exists ids. destruct IH as [Hok Hq Hid Hkn Hrg Hcr Hw Ha]. split; cbn; try done.
      intros Hall Hp. destruct (Hcr Hall Hp). lia.
    + exists ids. by apply cinv_sched.
Qed.

(** C35. Any number of threads wait for a completion, with and without
    timeouts, while others complete it one at a time, complete it for all or
    re-initialise it.  The counter stays in the range of its type: it
    saturates and never wraps.  No wake-up is lost: once the counter is not
    zero and every publisher has done its wake-up, no waiter is blocked.
    Unless [complete_all] is used or 2^32 - 1 completions have been posted, no
    more waits succeed than completions were posted.  And no step faults. *)
Theorem completion_correct y : reachable y ->
  0 <= done_cnt (cmp y) <= UINT32_MAX /\
  (done_cnt (cmp y) <> 0 -> pubs y = 0%nat ->
     forall w, w ∈ waiters (cmp y) -> ~ bl_blocked (data w) (sys y)) /\
  (all y = false -> posts y < UINT32_MAX -> gets y + done_cnt (cmp y) <= posts y) /\
  (forall t d sig now, where_is y t = Trying d -> bl_running t (sys y) ->
     exists r, wait_iter t d sig now (cmp y, sys y) = Some r) /\
  (forall n, pubs y = S n -> exists r, publish_wake (cmp y, sys y) = Some r).
Proof using Laws.
  intros [ids Hi]%reachable_cinv. split; [apply (ci_range _ _ Hi) |]. split_and!.
  - intros Hd Hp w. rewrite (ci_queue _ _ Hi). intros (t & -> & Ht)%list_elem_of_fmap.
    by apply (ci_woken _ _ Hi Hd Hp).
  - intros Hall Hp. destruct (ci_credit _ _ Hi Hall Hp). lia.
  - intros t d sig now Ht Hr. destruct (cinv_iter y ids t d sig now Hi Ht Hr) as (? & ? & ? & ? & _). eauto.
  - intros n Hn. destruct (cinv_wake y ids n Hi Hn) as (? & ? & ? & _). eauto.
Qed.
End completion.
End Completion.

(** ** A concrete system: thread 2 of [demo_state] on CPU 0 *)

Definition demo_dispatch : list action := [ASchedule 0 1 2; ASwitch 0].
Definition demo_running : sched := Eval vm_compute in default sched_init (trace demo_dispatch demo_state).

Lemma demo_running_ok : sinv demo_running.
Proof.
  assert (Hl : legal demo_dispatch demo_state).
  { unfold demo_dispatch. cbn [legal].
    legal_step ltac:(eexists; split; [vm_compute; reflexivity | by split]).
    legal_step ltac:(eexists; split; [vm_compute; reflexivity | done]).
    exact I. }
  destruct (trace_reachable demo_dispatch demo_state demo_reachable Hl) as (s & Ht & Hs%reachable_sinv).
  replace demo_running with s; [done |].
  assert (Hd : trace demo_dispatch demo_state = Some demo_running) by (vm_compute; reflexivity). congruence.
Qed.

Lemma demo_task_running : task_running 2 demo_running.
Proof.
  exists 0. split.
  - do 2 eexists. split_and!; [vm_compute; reflexivity | by split | done | vm_compute; reflexivity | done].
  - eexists. split; [vm_compute; reflexivity | done].
Qed.

(** Thread 2 takes the mutex. *)
Definition demo_mutex : Mutex.system :=
  Mutex.System (Mutex.Mutex true [Mutex.mnode 2]) demo_running {[ 2 := Mutex.Acquired ]}.

Lemma demo_mutex_reachable : Mutex.reachable demo_mutex.
Proof.
  set (y0 := Mutex.System Mutex.mutex_init demo_running ∅).
  set (y1 := Mutex.System (Mutex.lock_enter 2 Mutex.mutex_init) demo_running (Mutex.move 2 Mutex.Trying y0)).
  assert (H1 : Mutex.reachable y1).
  { apply (Mutex.r_step y0); [apply Mutex.r_init, demo_running_ok |].
    by apply (Mutex.s_enter y0 2 eq_refl), demo_task_running. }
  apply (Mutex.r_step y1); [exact H1 |].
  exact (Mutex.s_try y1 2 true _ _ eq_refl demo_task_running eq_refl).
Qed.

Lemma mutex_correct_witness :
  Mutex.reachable demo_mutex /\ Mutex.where_is demo_mutex 2 = Mutex.Acquired /\
  Mutex.locked (Mutex.mtx demo_mutex) = true.
Proof.
  split; [exact demo_mutex_reachable |]. split; [reflexivity |].
  destruct (Mutex.mutex_correct demo_mutex demo_mutex_reachable) as (_ & Hl & _).
  apply Hl. exists 2. reflexivity.
Defined.

(** Thread 2 waits for a completion that is then completed and woken. *)
Definition demo_blocked : sched :=
  Eval vm_compute in match completion_block 2 WAIT_COMPLETION 0 demo_running with Some r => r.2 | None => sched_init end.
Definition demo_woken : sched :=
  Eval vm_compute in match wake_wq_target 2 demo_blocked with Some r => r.2 | None => sched_init end.

Definition demo_completion : Completion.system :=
  Completion.System (Completion.Completion 1 [Completion.cnode 2]) demo_woken
    {[ 2 := Completion.Waiting 0 ]} 0 1 0 false.

Lemma demo_completion_reachable : Completion.reachable demo_completion.
Proof.
  set (c0 := Completion.Completion 0 [Completion.cnode 2]).
  set (c1 := Completion.Completion 1 [Completion.cnode 2]).
  set (y0 := Completion.System Completion.init_completion demo_running ∅ 0 0 0 false).
  set (y1 := Completion.System c0 demo_running {[ 2 := Completion.Trying 0 ]} 0 0 0 false).
  set (y2 := Completion.System c0 demo_blocked {[ 2 := Completion.Waiting 0 ]} 0 0 0 false).
  set (y3 := Completion.System c1 demo_blocked {[ 2 := Completion.Waiting 0 ]} 1 1 0 false).
  apply (Completion.r_step y3); [apply (Completion.r_step y2); [apply (Completion.r_step y1);
    [apply (Completion.r_step y0); [apply Completion.r_init, demo_running_ok |] |] |] |].
  - exact (Completion.s_enter y0 2 5 UINT64_MAX eq_refl demo_task_running).
  - exact (Completion.s_iter y1 2 0 false 6 None c0 demo_blocked eq_refl demo_task_running
      ltac:(vm_compute; reflexivity)).
  - exact (Completion.s_publish y2 false).
  - apply (Completion.s_wake y3 0 c1 demo_woken eq_refl). vm_compute. reflexivity.
Qed.

Lemma completion_correct_witness :
  Completion.reachable demo_completion /\ ~ task_blocked 2 demo_woken.
Proof.
  split; [exact demo_completion_reachable |].
  destruct (Completion.completion_correct demo_completion demo_completion_reachable) as (_ & Hw & _).
  apply (Hw ltac:(discriminate) eq_refl (Completion.cnode 2)). left.
Defined.
