(* ===== verification/Futex.v ===== *)
(** * Futexes (kernel/bsd/futex.c)

    The hash table of waiters and the operations WAIT, WAKE and REQUEUE over
    the scheduler of [Sched].  A bucket is the list of the waiting tasks, in
    the order they were queued; [futex_uaddr] is the address a task waits on,
    0 when it is not queued.  The contents of user memory are an argument: the
    32-bit value [copy_from_user] gets from an address, or its failure. *)
From S2P Require Import Prelude Sched Sync.
From Stdlib Require Import Sorting.Sorted.

Definition FUTEX_HASH_SIZE : Z := 64.
Definition FUTEX_WAKE_BATCH : Z := 32.

(** [get_futex_key] and [futex_hash]: the bucket of an address in the address
    space with page table [cr3]. *)
Definition futex_hash (cr3 page_off : Z) : Z :=
  Z.land (Z.shiftr (Z.lxor cr3 page_off) 3) (FUTEX_HASH_SIZE - 1).
Definition bucket_of (cr3 uaddr : Z) : Z := futex_hash cr3 (Z.shiftr uaddr PAGE_SHIFT).

Record futex := Futex { table : list (list Z); faddr : gmap Z Z }.

Definition futex_uaddr (f : futex) (p : Z) : Z := default 0 (faddr f !! p).

Definition futex_init : futex := Futex (replicate (Z.to_nat FUTEX_HASH_SIZE) []) ∅.

Definition fsys : Type := futex * sched.

Definition on_sched {A} (m : sp A) : prog fsys A := fun y => r ← m y.2; Some (r.1, (y.1, r.2)).

Definition get_bucket (h : Z) : prog fsys (list Z) := fun y => q ← arr_get (table y.1) h; Some (q, y).
Definition set_bucket (h : Z) (q : list Z) : prog fsys () := fun y =>
  T ← arr_set (table y.1) h q; Some ((), (Futex T (faddr y.1), y.2)).
Definition set_uaddr (p a : Z) : prog fsys () := fun y =>
  Some ((), (Futex (table y.1) (<[p := a]> (faddr y.1)), y.2)).
Definition get_uaddr (p : Z) : prog fsys Z := fun y => Some (futex_uaddr y.1 p, y).

(** [list_remove(&p->futex_node)] takes [p] off the bucket it is on. *)
Definition unlink (p : Z) : prog fsys () := fun y =>
  Some ((), (Futex (without p <$> table y.1) (faddr y.1), y.2)).

(** ** FUTEX_WAKE *)

(** The walk over a bucket under its lock: the tasks taken, at most [batch],
    and what is left of the list. *)
Fixpoint wake_walk (f : futex) (uaddr batch : Z) (q : list Z) : list Z * list Z :=
  match q with
  | [] => ([], [])
  | p :: q' =>
      if batch <=? 0 then ([], p :: q')
      else if futex_uaddr f p =? uaddr then
        let (taken, rest) := wake_walk f uaddr (batch - 1) q' in (p :: taken, rest)
      else let (taken, rest) := wake_walk f uaddr batch q' in (taken, p :: rest)
  end.

Fixpoint clear_uaddrs (l : list Z) : prog fsys () :=
  match l with
  | [] => mret ()
  | p :: l' => _ ← set_uaddr p 0; clear_uaddrs l'
  end.

Definition wake_collect (h uaddr batch : Z) : prog fsys (list Z) :=
  q ← get_bucket h;
  f ← (fun y : fsys => Some (y.1, y));
  let (taken, rest) := wake_walk f uaddr batch q in
  _ ← set_bucket h rest;
  _ ← clear_uaddrs taken;
  mret taken.

(** The wake-ups, after the bucket lock is released. *)
Fixpoint wake_all (l : list Z) : sp () :=
  match l with
  | [] => mret ()
  | p :: l' => _ ← wake_with_event p WAIT_FUTEX; wake_all l'
  end.

Definition futex_wake_step (h uaddr val total : Z) : prog fsys (Z + Z) :=
  if negb (total <? val) then mret (inr total)
  else
    let batch := Z.min (val - total) FUTEX_WAKE_BATCH in
    taken ← wake_collect h uaddr batch;
    _ ← on_sched (wake_all taken);
    let nwake := Z.of_nat (length taken) in
    mret (if nwake <? batch then inr (total + nwake) else inl (total + nwake)).

(** [val] is the third argument of the call, cast to [int]. *)
Definition futex_wake (cr3 uaddr val : Z) : prog fsys Z :=
  ploop 31 (futex_wake_step (bucket_of cr3 uaddr) uaddr (s32 val)) 0.

(** ** FUTEX_REQUEUE *)

(** One step of the walk: [todo] is the rest of the list, [kept] what has been
    passed over. *)
Record walk := Walk { kept : list Z; todo : list Z; woken : Z; requeued : Z; to_wake : list Z }.

Section requeue.
Context (h1 h2 uaddr1 uaddr2 nr_wake nr_requeue : Z).

Definition requeue_walk_step (batch_wake : Z) (w : walk) : prog fsys (walk + walk) :=
  match todo w with
  | [] => mret (inr w)
  | p :: next =>
      if (nr_wake <=? woken w) && (nr_requeue <=? requeued w) then mret (inr w)
      else
        a ← get_uaddr p;
        if negb (a =? uaddr1) then
          mret (inl (Walk (kept w ++ [p]) next (woken w) (requeued w) (to_wake w)))
        else if (woken w <? nr_wake) && (Z.of_nat (length (to_wake w)) <? batch_wake) then
          _ ← set_uaddr p 0;
          mret (inl (Walk (kept w) next (woken w + 1) (requeued w) (to_wake w ++ [p])))
        else if requeued w <? nr_requeue then
          _ ← set_uaddr p uaddr2;
          if h1 =? h2 then
            (* the next node was read before the move: at the end of the list
               the walk is over *)
            mret (inl (if bool_decide (next = [])
                       then Walk (kept w ++ [p]) [] (woken w) (requeued w + 1) (to_wake w)
                       else Walk (kept w) (next ++ [p]) (woken w) (requeued w + 1) (to_wake w)))
          else
            q2 ← get_bucket h2;
            _ ← set_bucket h2 (q2 ++ [p]);
            mret (inl (Walk (kept w) next (woken w) (requeued w + 1) (to_wake w)))
        else mret (inl (Walk (kept w ++ [p]) next (woken w) (requeued w) (to_wake w)))
  end.

(** The part of an iteration under the bucket locks. *)
Definition requeue_collect (c : Z * Z) (batch_wake : Z) : prog fsys walk :=
  q ← get_bucket h1;
  w ← ploop 34 (requeue_walk_step batch_wake) (Walk [] q c.1 c.2 []);
  _ ← set_bucket h1 (kept w ++ todo w);
  mret w.

(** One iteration of the outer loop, from the counts [woken] and [requeued]. *)
Definition requeue_step (c : Z * Z) : prog fsys (Z * Z + Z * Z) :=
  if negb ((c.1 <? nr_wake) || (c.2 <? nr_requeue)) then mret (inr c)
  else
    let batch_wake := Z.min (nr_wake - c.1) FUTEX_WAKE_BATCH in
    w ← requeue_collect c batch_wake;
    _ ← on_sched (wake_all (to_wake w));
    let nwake := Z.of_nat (length (to_wake w)) in
    let c' := (woken w, requeued w) in
    mret (if (nwake <? batch_wake) && negb ((requeued w <? nr_requeue) && (0 <? requeued w))
             && ((requeued w =? 0) || (nr_requeue <=? requeued w)) then inr c'
          else if (nwake =? 0) && (requeued w =? 0) then inr c'
          else inl c').
End requeue.

(** [k] bounds the number of iterations of the outer loop by [2^k]; [cmp] is
    the value of FUTEX_CMP_REQUEUE, 0 for FUTEX_REQUEUE. *)
Definition futex_requeue (k : nat) (mem : Z -> option Z) (cr3 uaddr1 uaddr2 nr_wake nr_requeue cmp : Z)
    : prog fsys Z :=
  let go :=
    c ← ploop k (requeue_step (bucket_of cr3 uaddr1) (bucket_of cr3 uaddr2) uaddr1 uaddr2
                  nr_wake nr_requeue) (0, 0);
    mret (c.1 + c.2) in
  if cmp =? 0 then go
  else match mem uaddr1 with
  | None => mret (- EFAULT)
  | Some v => if negb (v =? u32 cmp) then mret (- EAGAIN) else go
  end.

(** ** FUTEX_WAIT *)

(** The timeout argument: absent, unreadable, or a [struct timespec]. *)
Inductive timeout_arg := NoTimeout | BadPointer | Timespec (tv_sec tv_nsec : Z).

Definition timespec_ns (tv_sec tv_nsec : Z) : Z :=
  if (UINT64_MAX - tv_nsec) / 1000000000 <? tv_sec then UINT64_MAX
  else u64 (u64 (tv_sec * 1000000000) + tv_nsec).

Definition add_timeout (now timeout_ns : Z) : Z :=
  if UINT64_MAX - now <? timeout_ns then UINT64_MAX else now + timeout_ns.

(** Arming the wait under the scheduler lock; the result says whether the
    caller goes to sleep.  [sig] is the answer of the signal hook. *)
Definition futex_arm (t : Z) (timeout_ns : option Z) (sig : bool) (now : Z) : sp bool :=
  k ← get_task t;
  let cpu := assigned_cpu k in
  _ ← upd_task t (fun k => set_wait (wait_event k) false k);
  _ ← (match timeout_ns with
       | Some ns =>
           _ ← upd_task t (set_deadline (add_timeout now ns));
           sched_timer_queue_insert cpu t
       | None => mret ()
       end);
  _ ← upd_task t (fun k => set_wait WAIT_FUTEX (wait_timed_out k) k);
  _ ← upd_task t (set_sstate BLOCKED);
  if sig then
    _ ← upd_task t (set_sstate RUNNING);
    _ ← upd_task t (fun k => set_wait WAIT_NONE (wait_timed_out k) k);
    _ ← (match timeout_ns with Some _ => sched_timer_queue_cancel t | None => mret () end);
    mret false
  else mret true.

(** The waiter takes itself off the table if it is still on it. *)
Definition futex_unqueue (t : Z) : prog fsys () :=
  a ← get_uaddr t;
  if a =? 0 then mret () else _ ← unlink t; set_uaddr t 0.

(** From the lock of the bucket to the call of [schedule]: the value to return
    at once, or None when the caller sleeps. *)
Definition futex_wait_begin (mem : Z -> option Z) (cr3 t uaddr val : Z) (timeout : timeout_arg)
    (sig : bool) (now : Z) : prog fsys (option Z) :=
  let h := bucket_of cr3 uaddr in
  match mem uaddr with
  | None => mret (Some (- EFAULT))
  | Some cur_val =>
      if negb (cur_val =? val) then mret (Some (- EAGAIN))
      else
        _ ← set_uaddr t uaddr;
        q ← get_bucket h;
        _ ← set_bucket h (q ++ [t]);
        let arm (ns : option Z) : prog fsys (option Z) :=
          asleep ← on_sched (futex_arm t ns sig now);
          if (asleep : bool) then mret None
          else
            _ ← futex_unqueue t;
            mret (Some (match ns with Some _ => - EINTR | None => - ERESTART end)) in
        match timeout with
        | NoTimeout => arm None
        | BadPointer => _ ← unlink t; _ ← set_uaddr t 0; mret (Some (- EFAULT))
        | Timespec sec nsec =>
            if (sec <? 0) || (nsec <? 0) || (1000000000 <=? nsec) then
              _ ← unlink t; _ ← set_uaddr t 0; mret (Some (- EINVAL))
            else arm (Some (timespec_ns sec nsec))
        end
  end.

(** After [schedule]: the return value and the clean-up, which is done under
    the lock of the bucket that WAIT was called for. *)
Definition futex_wait_end (t : Z) (has_timeout sig : bool) : prog fsys Z :=
  k ← on_sched (get_task t);
  _ ← futex_unqueue t;
  mret (if sig then (if has_timeout then - EINTR else - ERESTART)
        else if wait_timed_out k then - ETIMEDOUT else 0).

(** ** The system call *)

Definition FUTEX_WAIT : Z := 0.
Definition FUTEX_WAKE : Z := 1.
Definition FUTEX_REQUEUE : Z := 3.
Definition FUTEX_CMP_REQUEUE : Z := 4.

(** [sys_futex] up to its return or to the call of [schedule] in WAIT: the
    value returned, or None when the caller [t] sleeps.  [timeout] is what
    [arg4] points to. *)
Definition sys_futex (k : nat) (mem : Z -> option Z) (cr3 t : Z) (timeout : timeout_arg) (sig : bool) (now : Z)
    (uaddr op arg3 arg4 arg5 arg6 : Z) : prog fsys (option Z) :=
  let real_op := Z.land op 0x7f in
  if (real_op =? FUTEX_REQUEUE) || (real_op =? FUTEX_CMP_REQUEUE) then
    let cmpval := if real_op =? FUTEX_CMP_REQUEUE then u64 arg5 else 0 in
    let uaddr2 := if real_op =? FUTEX_REQUEUE then u64 arg5 else u64 arg6 in
    r ← futex_requeue k mem cr3 uaddr uaddr2 (s32 arg3) (s32 arg4) cmpval; mret (Some r)
  else if negb (real_op =? FUTEX_WAIT) && negb (real_op =? FUTEX_WAKE) then mret (Some (- ENOSYS))
  else if real_op =? FUTEX_WAKE then r ← futex_wake cr3 uaddr arg3; mret (Some r)
  else futex_wait_begin mem cr3 t uaddr (u32 arg3) timeout sig now.

(** ** What WAKE does *)

(** The waiters on [uaddr] in a bucket, and a list without some tasks. *)
Definition matching (f : futex) (uaddr : Z) (q : list Z) : list Z :=
  filter (fun p => futex_uaddr f p = uaddr) q.
Definition leaving_out (l q : list Z) : list Z := filter (fun p => ~ p ∈ l) q.

Lemma leaving_out_nil q : leaving_out [] q = q.
Proof.
  unfold leaving_out. induction q as [| p q IH]; [done |].
  rewrite filter_cons, decide_True, IH; [done |]. apply not_elem_of_nil.
Qed.

Lemma leaving_out_fresh p l q : p ∉ q -> leaving_out (p :: l) q = leaving_out l q.
Proof.
  intros Hp. unfold leaving_out. apply filter_ext_in. intros x Hx.
  rewrite elem_of_cons. split; [tauto |]. intros ? [-> |]; done.
Qed.

Lemma leaving_out_take n (l : list Z) : NoDup l -> leaving_out (take n l) l = drop n l.
Proof.
  revert n. induction l as [| x l IH]; intros n Hl; [by destruct n |].
  apply NoDup_cons in Hl as [Hx Hl]. destruct n as [| n]; [apply leaving_out_nil |].
  cbn [take drop]. unfold leaving_out. rewrite filter_cons, decide_False by (intros Hn; apply Hn; left).
  change (leaving_out (x :: take n l) l = drop n l). rewrite leaving_out_fresh by done. by apply IH.
Qed.

Lemma leaving_out_app l l' q : leaving_out l' (leaving_out l q) = leaving_out (l ++ l') q.
Proof.
  unfold leaving_out. rewrite list_filter_filter. apply list_filter_iff. intros x. rewrite elem_of_app. tauto.
Qed.

Lemma wake_walk_spec f uaddr q : forall batch, NoDup q -> 0 <= batch ->
  wake_walk f uaddr batch q =
    (take (Z.to_nat batch) (matching f uaddr q), leaving_out (take (Z.to_nat batch) (matching f uaddr q)) q).
Proof.
  induction q as [| p q IH]; intros batch Hnd Hb0; [cbn; by rewrite take_nil |].
  apply NoDup_cons in Hnd as [Hp Hnd]. cbn [wake_walk]. destruct (Z.leb_spec batch 0) as [Hb | Hb].
  { replace (Z.to_nat batch) with 0%nat by lia. cbn [take]. by rewrite leaving_out_nil. }
  assert (Hnm : forall n, ~ p ∈ take n (matching f uaddr q)).
  { intros n Hin%elem_of_take. destruct Hin as (i & Hi & _). apply list_elem_of_lookup_2 in Hi.
    by apply list_elem_of_filter in Hi as [_ ?]. }
  unfold matching. rewrite filter_cons. fold (matching f uaddr q).
  destruct (Z.eqb_spec (futex_uaddr f p) uaddr) as [He | He].
  - rewrite decide_True, IH by (done || lia). replace (Z.to_nat batch) with (S (Z.to_nat (batch - 1))) by lia.
    cbn [take]. f_equal. unfold leaving_out at 2. rewrite filter_cons, decide_False by (intros Hn; apply Hn; left).
    fold (leaving_out (p :: take (Z.to_nat (batch - 1)) (matching f uaddr q)) q). by rewrite leaving_out_fresh.
  - rewrite decide_False, IH by (done || lia). f_equal. unfold leaving_out at 2.
    by rewrite filter_cons, decide_True.
Qed.

(** What a task waits for.  Most operations leave that of the other tasks
    alone: [keeps P m] says that [m] changes it only for tasks in [P]. *)
Definition sleep_of (t : Z) (s : sched) : option (proc_state * wait_event_t) :=
  (fun k => (state k, wait_event k)) <$> tasks s !! t.

Definition futex_asleep (t : Z) (s : sched) : Prop := sleep_of t s = Some (BLOCKED, WAIT_FUTEX).

Definition keeps {A} (P : Z -> Prop) (m : sp A) : Prop :=
  forall s a s', m s = Some (a, s') -> forall x, ~ P x -> sleep_of x s' = sleep_of x s.

Create HintDb keeps.

Lemma keeps_bind {A B} P (m : sp A) (g : A -> sp B) :
  keeps P m -> (forall a, keeps P (g a)) -> keeps P (m ≫= g).
Proof.
  intros Hm Hg s b s'. unfold mbind, prog_bind. destruct (m s) as [[a s1] |] eqn:He; [| done].
  intros Hb x Hx. by rewrite (Hg a s1 b s' Hb x Hx), (Hm s a s1 He x Hx).
Qed.

Lemma keeps_ret {A} P (a : A) : keeps P (mret a).
Proof. by intros s b s' [= -> ->]. Qed.

Lemma keeps_get_task P t : keeps P (get_task t).
Proof. intros s k s'. unfold get_task. destruct (tasks s !! t); [by intros [= -> ->] | done]. Qed.

Lemma keeps_get_cpu P c : keeps P (get_cpu c).
Proof. intros s k s'. unfold get_cpu. destruct (cpu_locals s !! c); [by intros [= -> ->] | done]. Qed.

Lemma keeps_reads {A} P (g : sched -> A) : keeps P (reads g).
Proof. by intros s a s' [= <- ->]. Qed.

Lemma keeps_assert P b : keeps P (assert_that b).
Proof. intros s a s'. destruct b; [by intros [= _ <-] | done]. Qed.

(** An assignment to the task [t], or to another field. *)
Lemma keeps_upd_task (P : Z -> Prop) t g : P t -> keeps P (upd_task t g).
Proof.
  intros HP s a s'. unfold upd_task. destruct (tasks s !! t) as [k |]; [| done].
  intros [= _ <-] x Hx. unfold sleep_of. cbn. rewrite lookup_insert_ne; [done |]. by intros ->.
Qed.

Lemma keeps_upd_aux P t g :
  (forall k, state (g k) = state k /\ wait_event (g k) = wait_event k) -> keeps P (upd_task t g).
Proof.
  intros Hg s a s'. unfold upd_task. destruct (tasks s !! t) as [k |] eqn:Hk; [| done].
  intros [= _ <-] x _. unfold sleep_of. cbn. destruct (decide (x = t)) as [-> |].
  - rewrite lookup_insert_eq, Hk. cbn. by destruct (Hg k) as [-> ->].
  - by rewrite lookup_insert_ne.
Qed.

Lemma keeps_upd_cpu P c g : keeps P (upd_cpu c g).
Proof. intros s a s'. unfold upd_cpu. destruct (cpu_locals s !! c); [by intros [= _ <-] | done]. Qed.

Lemma keeps_unlink_wait P t : keeps P (unlink_wait t).
Proof. by intros s a s' [= _ <-]. Qed.

Lemma keeps_timer_insert P c t : keeps P (sched_timer_queue_insert c t).
Proof.
  intros s a s'. unfold sched_timer_queue_insert.
  destruct (cpu_locals s !! c); [cbn | done]. destruct (tasks s !! t); [cbn -[insert_deadline] | done].
  destruct (insert_deadline _ _ _ _); [by intros [= _ <-] | done].
Qed.

#[export] Hint Resolve keeps_ret keeps_get_task keeps_get_cpu keeps_reads keeps_assert keeps_upd_cpu
  keeps_unlink_wait keeps_timer_insert : keeps.
#[export] Hint Extern 1 (keeps _ (upd_task _ _)) =>
  first [apply keeps_upd_aux; done | apply keeps_upd_task; tauto] : keeps.

Ltac keeps := repeat (first [apply keeps_bind; [| intros ?] | case_match | solve [eauto with keeps]]).

Lemma keeps_cancel P t : keeps P (sched_timer_queue_cancel t).
Proof. unfold sched_timer_queue_cancel, sched_timer_queue_remove, timer_queue_wait_pop. keeps. Qed.
#[export] Hint Resolve keeps_cancel : keeps.

Lemma keeps_wake t event : keeps (fun x => x = t) (wake_with_event t event).
Proof. unfold wake_with_event, wake_from_wait, run_queue_push. keeps. Qed.

(** A futex wake-up concerns one task, which does not sleep on a futex any
    more. *)
Lemma wake_event_law t s : sinv s -> exists_task t s ->
  wp (wake_with_event t WAIT_FUTEX) s (fun _ s' => bl_step (fun _ => False) s s' /\ ~ futex_asleep t s').
Proof.
  intros HI [k Hk]. apply cores_lookup in Hk as HG. unfold wake_with_event.
  seq. exists k, s. split; [unfold get_task; by rewrite Hk |].
  assert (Hs : sleep_of t s = Some (state k, wait_event k)) by (unfold sleep_of; by rewrite Hk).
  destruct (bool_decide (state k = BLOCKED)) eqn:Hb; cbn [andb].
  2: { apply wp_ret. split; [by split_and!; auto |]. unfold futex_asleep. rewrite Hs. intros [= He _].
       by rewrite bool_decide_true in Hb. }
  apply bool_decide_eq_true in Hb. case_bool_decide as He.
  - destruct (Inv_placed _ _ _ t _ HI HG) as (cl & Hc & _); [cbn; congruence.. |].
    apply (wp_wake _ _ _ _ t _ cl _ (at_self s) HI HG Hb Hc). intros s' Hat.
    pose proof (at_sinv _ _ _ _ Hat (Inv_woken _ _ _ t (core_of k) cl HI HG Hb Hc)) as HI'.
    destruct Hat as (Hcs & _). split.
    + eapply (bl_step_insert _ s s' t); [exact HI' | by eexists | exact Hcs | done].
    + unfold futex_asleep, sleep_of. intros (k' & Hk'%cores_lookup & [= Hst _])%fmap_Some_1.
      rewrite Hcs, lookup_insert_eq in Hk'. injection Hk' as Hk1 _ _ _. congruence.
  - apply wp_ret. split; [by split_and!; auto |]. unfold futex_asleep. rewrite Hs. congruence.
Qed.

Lemma wake_all_ok l : forall s, sinv s -> (forall p, p ∈ l -> exists_task p s) ->
  exists s', wake_all l s = Some ((), s') /\ bl_step (fun _ => False) s s' /\
    (forall x, x ∈ l -> ~ futex_asleep x s') /\ (forall x, x ∉ l -> sleep_of x s' = sleep_of x s).
Proof.
  induction l as [| p l IH]; intros s HI Hl.
  - exists s. split_and!; [done | by split_and!; auto | by intros x ?%elem_of_nil | done].
  - destruct (wake_event_law p s HI) as ([] & s1 & He & (HI1 & Hk1 & Hb1) & Hp); [apply Hl; left |].
    destruct (IH s1 HI1) as (s2 & He2 & (HI2 & Hk2 & Hb2) & Hin & Hout).
    { intros x Hx. apply Hk1, Hl. by right. }
    pose proof (keeps_wake _ _ _ _ _ He) as Hkp.
    exists s2. cbn [wake_all]. unfold mbind, prog_bind. rewrite He. split_and!; [done | split_and!; auto | |].
    + intros t Ht. destruct (Hb2 t Ht) as [Ht1 | []]. auto.
    + intros x Hx. destruct (decide (x ∈ l)) as [Hxl | Hxl]; [auto |]. unfold futex_asleep.
      rewrite Hout by done. apply elem_of_cons in Hx as [-> | Hx]; done.
    + intros x [Hxp Hx]%not_elem_of_cons. rewrite Hout, Hkp; done.
Qed.

Lemma wake_all_app l l' s s' : wake_all l s = Some ((), s') -> wake_all (l ++ l') s = wake_all l' s'.
Proof.
  revert s. induction l as [| p l IH]; intros s; [by intros [= ->] |]. cbn [wake_all app].
  unfold mbind, prog_bind. destruct (wake_with_event p WAIT_FUTEX s) as [[[] s1] |]; [apply IH | done].
Qed.

(** The tasks of a list all get the address [a]. *)
Definition moved_to (a : Z) (l : list Z) (A : gmap Z Z) : gmap Z Z := foldl (fun A p => <[p := a]> A) A l.

Lemma moved_to_lookup a l : forall A p, moved_to a l A !! p = if decide (p ∈ l) then Some a else A !! p.
Proof.
  induction l as [| x l IH]; intros A p; [by rewrite decide_False by apply not_elem_of_nil |]. cbn.
  change (moved_to a l (<[x := a]> A) !! p = if decide (p ∈ x :: l) then Some a else A !! p). rewrite IH.
  destruct (decide (p ∈ l)) as [Hl | Hl]; [by rewrite decide_True by (by right) |].
  destruct (decide (p = x)) as [-> | Hne].
  - by rewrite lookup_insert_eq, decide_True by left.
  - rewrite lookup_insert_ne by done. by rewrite decide_False by (by rewrite elem_of_cons; intros [|]).
Qed.

Lemma moved_to_uaddr T a l A p :
  futex_uaddr (Futex T (moved_to a l A)) p = if decide (p ∈ l) then a else futex_uaddr (Futex T A) p.
Proof. unfold futex_uaddr. cbn. rewrite moved_to_lookup. by case_decide. Qed.

Lemma clear_uaddrs_eq l : forall y, clear_uaddrs l y = Some ((), (Futex (table y.1) (moved_to 0 l (faddr y.1)), y.2)).
Proof.
  induction l as [| p l IH]; intros y; [by destruct y as [[] ?] |]. cbn [clear_uaddrs].
  unfold mbind, prog_bind. cbn. by rewrite IH.
Qed.

Section wake.
Context (f : futex) (h uaddr : Z) (q : list Z) (s : sched).
Hypothesis Hh : 0 <= h < Z.of_nat (length (table f)).
Hypothesis Hq : arr_get (table f) h = Some q.
Hypothesis Hnd : NoDup q.

(** The table after the first [n] waiters on [uaddr] have been taken. *)
Definition taken_upto (n : nat) : futex :=
  let sel := take n (matching f uaddr q) in
  Futex (<[Z.to_nat h := leaving_out sel q]> (table f)) (moved_to 0 sel (faddr f)).

Lemma matching_rest n :
  matching (taken_upto n) uaddr (leaving_out (take n (matching f uaddr q)) q) = drop n (matching f uaddr q).
Proof.
  assert (Hm : NoDup (matching f uaddr q)) by (by apply NoDup_filter).
  rewrite <- (leaving_out_take n (matching f uaddr q) Hm). unfold matching at 1.
  rewrite (filter_ext_in _ (fun p => futex_uaddr f p = uaddr)).
  - unfold leaving_out, matching. rewrite !list_filter_filter. apply list_filter_iff. tauto.
  - intros p [Hp _]%list_elem_of_filter. unfold taken_upto. by rewrite moved_to_uaddr, decide_False.
Qed.

Lemma table_taken n :
  table (taken_upto n) = <[Z.to_nat h := leaving_out (take n (matching f uaddr q)) q]> (table f).
Proof. done. Qed.

Lemma wake_collect_eq n b sd : 0 <= b ->
  wake_collect h uaddr b (taken_upto n, sd) =
    Some (take (Z.to_nat b) (drop n (matching f uaddr q)), (taken_upto (n + Z.to_nat b), sd)).
Proof.
  intros Hb. unfold wake_collect, get_bucket, mbind, prog_bind. cbn [fst].
  rewrite table_taken, arr_get_insert_eq by done. cbn [mbind option_bind].
  assert (Hnd' : NoDup (leaving_out (take n (matching f uaddr q)) q)) by (by apply NoDup_filter).
  rewrite wake_walk_spec by done. cbn [fst]. rewrite matching_rest, leaving_out_app, take_take_drop.
  unfold set_bucket. cbn [fst]. rewrite table_taken, arr_set_Some by (by rewrite length_insert). cbn [mbind option_bind fst snd].
  rewrite clear_uaddrs_eq. cbn [fst snd table faddr]. unfold mret, prog_ret. do 4 f_equal.
  - unfold taken_upto. cbn. f_equal; [apply list_insert_insert_eq |].
    unfold moved_to. by rewrite <- foldl_app, take_take_drop.
Qed.

Lemma taken_upto_0 : taken_upto 0 = f.
Proof.
  unfold taken_upto. cbn [take]. rewrite leaving_out_nil. cbn.
  rewrite list_insert_id; [by destruct f | by apply arr_get_lookup].
Qed.

(** The loop has taken the first [n] waiters and woken them. *)
Lemma futex_wake_loop val : 0 <= val < 2 ^ 31 -> sinv s -> (forall p, p ∈ q -> exists_task p s) ->
  let sel := take (Z.to_nat val) (matching f uaddr q) in
  wp (ploop 31 (futex_wake_step h uaddr val) 0) (f, s) (fun r y' => r = Z.of_nat (length sel) /\
    y'.1 = taken_upto (Z.to_nat val) /\ wake_all sel s = Some ((), y'.2)).
Proof.
  intros Hval HI Hk sel. set (M := matching f uaddr q) in *.
  assert (HM : forall l, (exists n m, l = take n (drop m M)) -> forall p, p ∈ l -> p ∈ q).
  { intros l (n & m & ->) p (i & Hi & _)%elem_of_take. rewrite lookup_drop in Hi.
    apply list_elem_of_lookup_2 in Hi. by apply list_elem_of_filter in Hi as [_ ?]. }
  apply (wp_ploop (fun rank total y => exists n sd, total = Z.of_nat n /\ (n <= length M)%nat /\
    rank = val - total /\ 0 <= rank /\ y = (taken_upto n, sd) /\ wake_all (take n M) s = Some ((), sd) /\
    bl_step (fun _ => False) s sd) _ _ 31 val).
  2: { exists 0%nat, s. rewrite taken_upto_0. split_and!; try done; [lia.. |]. by split_and!; auto. }
  2: lia.
  clear HI. intros rank total y (n & sd & -> & Hn & -> & Hr & -> & Hwa & (HI & Hkn & Hbl)).
  unfold futex_wake_step. destruct (Z.ltb_spec (Z.of_nat n) val) as [Hlt | Hge]; cbn [negb].
  - set (b := Z.min (val - Z.of_nat n) FUTEX_WAKE_BATCH).
    assert (Hb : 0 < b <= val - Z.of_nat n) by (unfold b, FUTEX_WAKE_BATCH; lia).
    seq. eapply wp_val; [apply wake_collect_eq; lia |]. fold M. set (tk := take (Z.to_nat b) (drop n M)).
    destruct (wake_all_ok tk sd HI) as (sd' & Hwk & (HI' & Hkn' & Hbl') & _).
    { intros p Hp. apply Hkn, Hk, (HM tk); [by exists (Z.to_nat b), n | done]. }
    seq. eapply wp_val; [unfold on_sched; cbn [snd]; by rewrite Hwk |]. cbn [fst snd]. apply wp_ret.
    assert (Htk : take (n + Z.to_nat b) M = take n M ++ tk) by (symmetry; apply take_take_drop).
    assert (Hwa' : wake_all (take (n + Z.to_nat b) M) s = Some ((), sd'))
      by (by rewrite Htk, (wake_all_app _ _ _ _ Hwa)).
    assert (Hlen : length tk = Nat.min (Z.to_nat b) (length M - n)) by (unfold tk; by rewrite length_take, length_drop).
    destruct (Z.ltb_spec (Z.of_nat (length tk)) b) as [Hs | Hf].
    + assert (Hall : take (n + Z.to_nat b) M = M) by (apply take_ge; lia).
      assert (Hsel : sel = M) by (apply take_ge; lia). rewrite Hsel. split_and!.
      * lia.
      * cbn [fst]. unfold taken_upto. fold M. fold sel. by rewrite Hall, Hsel.
      * cbn. by rewrite <- Hall.
    + exists (val - (Z.of_nat n + Z.of_nat (length tk))). split; [| lia].
      exists (n + Z.to_nat b)%nat, sd'. split_and!; try done; try lia.
      split_and!; [done | auto |]. intros t Ht. destruct (Hbl' t Ht) as [? | []]. auto.
  - apply wp_ret. assert (Hv : Z.to_nat val = n) by lia. unfold sel. rewrite Hv, length_take.
    split_and!; [lia | done | done].
Qed.
End wake.

Lemma futex_wake_spec f s cr3 uaddr val q :
  arr_get (table f) (bucket_of cr3 uaddr) = Some q ->
  NoDup q -> sinv s -> (forall p, p ∈ q -> exists_task p s) ->
  let sel := take (Z.to_nat (s32 val)) (matching f uaddr q) in
  exists s', futex_wake cr3 uaddr val (f, s) = Some (Z.of_nat (length sel), (
      Futex (<[Z.to_nat (bucket_of cr3 uaddr) := leaving_out sel q]> (table f)) (moved_to 0 sel (faddr f)), s')) /\
    wake_all sel s = Some ((), s') /\ sinv s' /\
    (forall p, p ∈ sel -> ~ futex_asleep p s') /\ (forall p, p ∉ sel -> sleep_of p s' = sleep_of p s).
Proof.
  intros Hq Hnd HI Hk sel. pose proof (arr_get_bound _ _ _ Hq) as Hh.
  assert (Hs32 : s32 val < 2 ^ 31) by (unfold s32; pose proof (Z.mod_pos_bound (val + 2 ^ 31) (2 ^ 32)); lia).
  assert (Hgo : exists s', futex_wake cr3 uaddr val (f, s) = Some (Z.of_nat (length sel),
    (taken_upto f (bucket_of cr3 uaddr) uaddr q (Z.to_nat (s32 val)), s')) /\ wake_all sel s = Some ((), s')).
  { destruct (decide (0 <= s32 val)) as [Hp | Hneg].
    - destruct (futex_wake_loop f (bucket_of cr3 uaddr) uaddr q s Hh Hq Hnd (s32 val)) as
        (r & [f' s'] & He & -> & Hf & Hw); [lia | done | done |]. cbn in Hf, Hw. subst f'. eauto.
    - unfold sel. replace (Z.to_nat (s32 val)) with 0%nat by lia. exists s.
      rewrite taken_upto_0 by done. split; [| done]. apply ploop_return.
      unfold futex_wake_step. by rewrite (proj2 (Z.ltb_ge 0 (s32 val))) by lia. }
  destruct Hgo as (s' & He & Hw). exists s'. split; [done |]. split; [done |].
  destruct (wake_all_ok sel s HI) as (s'' & Hw' & (HI' & _) & Hin & Hout).
  { intros p (i & Hi & _)%elem_of_take. apply list_elem_of_lookup_2, list_elem_of_filter in Hi as [_ ?]. auto. }
  rewrite Hw in Hw'. by injection Hw' as <-.
Qed.

(** C25. FUTEX_WAKE wakes the first [val] tasks waiting on the address, in the
    order they were queued, or all of them if there are fewer; it takes
    exactly them off the bucket and returns their number.  The batches of 32,
    between which the bucket is unlocked, have the effect of one pass.  All of
    this on a table of tasks that exist and a scheduler in a consistent state;
    the loop terminates, the scheduler stays consistent, the tasks woken sleep
    on a futex no more and no other task is affected. *)
Theorem futex_wake_correct f s cr3 uaddr val q :
  arr_get (table f) (bucket_of cr3 uaddr) = Some q ->
  NoDup q -> sinv s -> (forall p, p ∈ q -> exists_task p s) ->
  let sel := take (Z.to_nat (s32 val)) (matching f uaddr q) in
  exists s', futex_wake cr3 uaddr val (f, s) = Some (Z.of_nat (length sel), (
      Futex (<[Z.to_nat (bucket_of cr3 uaddr) := leaving_out sel q]> (table f)) (moved_to 0 sel (faddr f)), s')) /\
    wake_all sel s = Some ((), s') /\ sinv s' /\
    (forall p, p ∈ sel -> ~ futex_asleep p s') /\ (forall p, p ∉ sel -> sleep_of p s' = sleep_of p s).
Proof. apply futex_wake_spec. Qed.

(** ** Buckets *)

Lemma bucket_of_mod cr3 u : bucket_of cr3 u = Z.shiftr (Z.lxor cr3 (Z.shiftr u PAGE_SHIFT)) 3 mod FUTEX_HASH_SIZE.
Proof. unfold bucket_of, futex_hash. change (FUTEX_HASH_SIZE - 1) with (Z.ones 6). by rewrite Z.land_ones. Qed.

Lemma bucket_of_range cr3 u : 0 <= bucket_of cr3 u < FUTEX_HASH_SIZE.
Proof. rewrite bucket_of_mod. by apply Z.mod_pos_bound. Qed.

(** The page table of an address space is page-aligned, so the six bits the
    hash takes from it are all zero. *)
Lemma bucket_of_aligned cr3 u : cr3 mod 2 ^ PAGE_SHIFT = 0 -> bucket_of cr3 u = bucket_of 0 u.
Proof.
  intros Ha. unfold bucket_of, futex_hash. rewrite Z.lxor_0_l. change (FUTEX_HASH_SIZE - 1) with (Z.ones 6).
  apply Z.bits_inj'. intros i Hi. rewrite !Z.land_spec. destruct (Z.ltb_spec i 6) as [Hlt | Hge].
  - rewrite !Z.shiftr_spec, Z.lxor_spec by lia.
    rewrite (Z.div_mod cr3 (2 ^ PAGE_SHIFT)) by done. rewrite Ha, Z.add_0_r, Z.mul_comm.
    by rewrite Z.mul_pow2_bits_low, xorb_false_l, Z.shiftr_spec by (unfold PAGE_SHIFT; lia).
  - by rewrite Z.ones_spec_high, !andb_false_r by lia.
Qed.

(** The key of a futex is documented as the pair of address space and page,
    but a WAKE behaves the same in all address spaces: it takes waiters of any
    process that waits at the same virtual address. *)
Theorem futex_wake_any_process cr3 cr3' uaddr val y :
  cr3 mod 2 ^ PAGE_SHIFT = 0 -> cr3' mod 2 ^ PAGE_SHIFT = 0 ->
  futex_wake cr3 uaddr val y = futex_wake cr3' uaddr val y.
Proof. intros H H'. unfold futex_wake. by rewrite (bucket_of_aligned cr3), (bucket_of_aligned cr3'). Qed.

(** ** What REQUEUE does *)

Lemma matching_insert f T p a uaddr q : p ∉ q -> matching (Futex T (<[p := a]> (faddr f))) uaddr q = matching f uaddr q.
Proof.
  intros Hp. apply filter_ext_in. intros x Hx. unfold futex_uaddr. cbn. rewrite lookup_insert_ne; [done |].
  by intros ->.
Qed.

Lemma matching_cons f uaddr p q :
  matching f uaddr (p :: q) = if decide (futex_uaddr f p = uaddr) then p :: matching f uaddr q else matching f uaddr q.
Proof. unfold matching at 1. by rewrite filter_cons. Qed.

Lemma leaving_out_cons_in p l q : p ∉ q -> leaving_out (p :: l) (p :: q) = leaving_out l q.
Proof.
  intros Hp. unfold leaving_out. rewrite filter_cons, decide_False by (intros Hn; apply Hn; left).
  by apply (leaving_out_fresh p l q).
Qed.

Lemma leaving_out_cons_ne p l q : p ∉ l -> leaving_out l (p :: q) = p :: leaving_out l q.
Proof. intros Hp. unfold leaving_out. by rewrite filter_cons, decide_True. Qed.

Lemma take_matching_notin f uaddr n p q : p ∉ q -> p ∉ take n (matching f uaddr q).
Proof.
  intros Hp (i & Hi & _)%elem_of_take. apply Hp. apply list_elem_of_lookup_2 in Hi.
  by apply list_elem_of_filter in Hi as [_ ?].
Qed.

(** The walk of a REQUEUE that wakes no one moves the first [nr_requeue]
    waiters to the end of the other bucket, or of the same bucket. *)
Section requeue_walk.
Context (h1 h2 uaddr1 uaddr2 nr : Z).
Hypothesis Hu : uaddr1 <> uaddr2.

Definition to_move (f : futex) (r : Z) (q : list Z) : list Z := take (Z.to_nat (nr - r)) (matching f uaddr1 q).

Lemma to_move_end f r q : nr <= r -> to_move f r q = [].
Proof. intros Hr. unfold to_move. by replace (Z.to_nat (nr - r)) with 0%nat by lia. Qed.

Lemma to_move_nil f r : to_move f r [] = [].
Proof. apply take_nil. Qed.

Lemma to_move_skip f r p q : futex_uaddr f p <> uaddr1 -> to_move f r (p :: q) = to_move f r q.
Proof. intros Hp. unfold to_move. by rewrite matching_cons, decide_False. Qed.

Lemma to_move_take f T r p q : r < nr -> futex_uaddr f p = uaddr1 -> p ∉ q ->
  to_move f r (p :: q) = p :: to_move (Futex T (<[p := uaddr2]> (faddr f))) (r + 1) q.
Proof.
  intros Hr Hp Hpq. unfold to_move. rewrite matching_cons, decide_True, matching_insert by done.
  by replace (Z.to_nat (nr - r)) with (S (Z.to_nat (nr - (r + 1)))) by lia.
Qed.

(** The waiters not yet visited are [T], those moved to the end [m]. *)
Definition same_inv (f0 : futex) (sd : sched) (L : list Z) (R : Z) (A : gmap Z Z) (rank : Z) (w : walk) (y : fsys) : Prop :=
  exists T m, y.2 = sd /\ table y.1 = table f0 /\ todo w = T ++ m /\ woken w = 0 /\ to_wake w = [] /\
    NoDup T /\ (forall p, p ∈ m -> futex_uaddr y.1 p <> uaddr1 /\ p ∉ T) /\
    let sel := to_move y.1 (requeued w) T in
    L = kept w ++ leaving_out sel T ++ m ++ sel /\ R = requeued w + Z.of_nat (length sel) /\
    A = moved_to uaddr2 sel (faddr y.1) /\ rank = 2 * Z.of_nat (length T) + Z.of_nat (length m).

Definition far_inv (f0 : futex) (sd : sched) (q2 L L2 : list Z) (R : Z) (A : gmap Z Z) (rank : Z) (w : walk) (y : fsys) : Prop :=
  exists m, y.2 = sd /\ table y.1 = <[Z.to_nat h2 := q2 ++ m]> (table f0) /\ woken w = 0 /\ to_wake w = [] /\
    NoDup (todo w) /\
    let sel := to_move y.1 (requeued w) (todo w) in
    L = kept w ++ leaving_out sel (todo w) /\ L2 = q2 ++ m ++ sel /\ R = requeued w + Z.of_nat (length sel) /\
    A = moved_to uaddr2 sel (faddr y.1) /\ rank = Z.of_nat (length (todo w)).

Lemma same_step f0 sd L R A bw w y rank : h1 = h2 -> 0 <= nr -> same_inv f0 sd L R A rank w y ->
  wp (requeue_walk_step h1 h2 uaddr1 uaddr2 0 nr bw w) y (fun r y' =>
    match r with
    | inl w' => exists rank', same_inv f0 sd L R A rank' w' y' /\ 0 <= rank' < rank
    | inr w' => kept w' ++ todo w' = L /\ woken w' = 0 /\ requeued w' = R /\ to_wake w' = [] /\
        y' = (Futex (table f0) A, sd)
    end).
Proof.
  intros Hh Hnr. destruct w as [K td wk r tw], y as [[TB fa] s]. intros (T & m & H). cbn in H.
  destruct H as (-> & -> & -> & -> & -> & Hnd & Hm & HL & HR & HA & Hrank). unfold requeue_walk_step. cbn [todo].
  assert (Hstop : nr <= r \/ T ++ m = [] -> K ++ T ++ m = L /\ r = R /\ (Futex (table f0) fa, sd) = (Futex (table f0) A, sd)).
  { intros Hs. assert (Hsel : to_move (Futex (table f0) fa) r T = []).
    { destruct Hs as [Hs | [-> ->]%app_nil]; [by apply to_move_end | apply to_move_nil]. }
    rewrite Hsel in HL, HR, HA. rewrite leaving_out_nil, app_nil_r in HL. cbn in HR, HA.
    rewrite HL, HA, HR. split_and!; [done | lia | done]. }
  destruct (T ++ m) as [| p next] eqn:Htd; [apply wp_ret; cbn; by split_and!; try apply Hstop; auto |].
  cbn [woken requeued]. rewrite Z.leb_refl, Z.ltb_irrefl. cbn [andb].
  destruct (Z.leb_spec nr r) as [Hge | Hlt]; [apply wp_ret; cbn; rewrite <- Htd in *; by split_and!; try apply Hstop; auto |].
  seq. eapply wp_val; [done |]. cbn [fst].
  destruct T as [| p0 T]; cbn in Htd.
  - subst m. destruct (Hm p) as [Hp _]; [left |]. rewrite (proj2 (Z.eqb_neq _ _) Hp). cbn [negb]. apply wp_ret.
    exists (rank - 1). rewrite to_move_nil in HL, HR, HA. cbn in HL, HR, HA, Hrank. split; [| lia].
    exists [], next. cbn. rewrite to_move_nil. split_and!; try done; [| | lia].
    + intros x Hx. apply Hm. by right.
    + by rewrite HL, <- !app_assoc.
  - injection Htd as -> <-. apply NoDup_cons in Hnd as [HpT Hnd].
    destruct (Z.eqb_spec (futex_uaddr (Futex (table f0) fa) p) uaddr1) as [He | He]; cbn [negb].
    + rewrite (proj2 (Z.ltb_lt _ _) Hlt). seq. eapply wp_val; [done |]. cbn [fst snd table faddr].
      rewrite (proj2 (Z.eqb_eq _ _) Hh). apply wp_ret.
      rewrite (to_move_take _ (table f0)) in HL, HR, HA by done. cbn [faddr] in HL, HR, HA.
      rewrite leaving_out_cons_in in HL by done. cbn [length] in *.
      assert (Hpm : p ∉ m) by (intros Hx; destruct (Hm p Hx) as [_ Hn]; apply Hn; left).
      case_bool_decide as Hend.
      * apply app_nil in Hend as [-> ->]. exists 0. split; [| cbn in *; lia]. exists [], [].
        rewrite to_move_nil in HL, HR, HA. cbn in *. rewrite to_move_nil.
        split_and!; try done; cbn; [by intros x ?%elem_of_nil | | lia].
        by rewrite HL, app_nil_r.
      * exists (rank - 1). split; [| lia]. exists T, (m ++ [p]). cbn [todo woken to_wake requeued kept fst snd faddr].
        split_and!; try done; [by rewrite app_assoc | | | lia | rewrite length_app; cbn; lia].
        -- intros x [Hx | ->%list_elem_of_singleton]%elem_of_app.
           ++ destruct (Hm x Hx) as [H1 H2]. unfold futex_uaddr in *. cbn in *.
              rewrite lookup_insert_ne by (by intros ->). split; [done |]. intros ?. apply H2. by right.
           ++ unfold futex_uaddr. cbn. rewrite lookup_insert_eq. by split.
        -- by rewrite HL, <- !app_assoc.
    + apply wp_ret. exists (rank - 2). cbn [length] in *. split; [| lia]. exists T, m.
      rewrite to_move_skip in HL, HR, HA by done. cbn [todo woken to_wake requeued kept fst snd faddr].
      split_and!; try done; [| | lia].
      * intros x Hx. destruct (Hm x Hx) as [? Hn]. split; [done |]. intros ?. apply Hn. by right.
      * rewrite leaving_out_cons_ne in HL by (by apply take_matching_notin). by rewrite HL, <- !app_assoc.
Qed.

Lemma far_step f0 sd q2 L L2 R A bw w y rank :
  h1 <> h2 -> 0 <= h2 < Z.of_nat (length (table f0)) -> 0 <= nr -> far_inv f0 sd q2 L L2 R A rank w y ->
  wp (requeue_walk_step h1 h2 uaddr1 uaddr2 0 nr bw w) y (fun r y' =>
    match r with
    | inl w' => exists rank', far_inv f0 sd q2 L L2 R A rank' w' y' /\ 0 <= rank' < rank
    | inr w' => kept w' ++ todo w' = L /\ woken w' = 0 /\ requeued w' = R /\ to_wake w' = [] /\
        y' = (Futex (<[Z.to_nat h2 := L2]> (table f0)) A, sd)
    end).
Proof.
  intros Hh Hh2 Hnr. destruct w as [K td wk r tw], y as [[TB fa] s]. intros (m & H). cbn -[leaving_out] in H.
  destruct H as (-> & -> & -> & -> & Hnd & HL & HL2 & HR & HA & Hrank). unfold requeue_walk_step. cbn [todo].
  set (f := Futex _ fa) in *.
  assert (Hstop : nr <= r \/ td = [] -> K ++ td = L /\ r = R /\ (f, sd) = (Futex (<[Z.to_nat h2 := L2]> (table f0)) A, sd)).
  { intros Hs. assert (Hsel : to_move f r td = []).
    { destruct Hs as [Hs | ->]; [by apply to_move_end | apply to_move_nil]. }
    rewrite Hsel in HL, HL2, HR, HA. rewrite leaving_out_nil in HL. rewrite app_nil_r in HL2. cbn in HR, HA.
    rewrite HL, HL2, HA, HR. split_and!; [done | lia | done]. }
  destruct td as [| p next] eqn:Htd; [apply wp_ret; cbn; by split_and!; try apply Hstop; auto |].
  cbn [woken requeued]. rewrite Z.leb_refl, Z.ltb_irrefl. cbn [andb].
  destruct (Z.leb_spec nr r) as [Hge | Hlt]; [apply wp_ret; cbn; by split_and!; try apply Hstop; auto |].
  seq. eapply wp_val; [done |]. cbn [fst]. apply NoDup_cons in Hnd as [HpT Hnd]. cbn [length] in Hrank.
  destruct (Z.eqb_spec (futex_uaddr f p) uaddr1) as [He | He]; cbn [negb].
  - rewrite (proj2 (Z.ltb_lt _ _) Hlt). seq. eapply wp_val; [done |]. cbn [fst snd table faddr f].
    rewrite (proj2 (Z.eqb_neq _ _) Hh). seq. eapply wp_val.
    { unfold get_bucket. cbn [fst table]. by rewrite arr_get_insert_eq. }
    seq. eapply wp_val.
    { unfold set_bucket. cbn [fst table]. by rewrite arr_set_Some by (by rewrite length_insert). }
    apply wp_ret. cbn [fst snd faddr]. rewrite list_insert_insert_eq.
    rewrite (to_move_take _ (<[Z.to_nat h2 := (q2 ++ m) ++ [p]]> (table f0))) in HL, HL2, HR, HA by done.
    cbn [faddr f] in HL, HL2, HR, HA. rewrite leaving_out_cons_in in HL by done. cbn [length] in *.
    exists (rank - 1). split; [| lia]. exists (m ++ [p]). cbn [todo woken to_wake requeued kept fst snd faddr table].
    rewrite (app_assoc q2). split_and!; try done; [| lia..]. by rewrite HL2, <- !app_assoc.
  - apply wp_ret. exists (rank - 1). split; [| lia]. exists m.
    rewrite to_move_skip in HL, HL2, HR, HA by done. cbn [todo woken to_wake requeued kept fst snd faddr table].
    split_and!; try done; [| lia].
    rewrite leaving_out_cons_ne in HL by (by apply take_matching_notin). by rewrite HL, <- !app_assoc.
Qed.

(** The table after the waiters [sel] of the bucket [q1] have been moved. *)
Definition requeued_to (f : futex) (sel q1 : list Z) : futex :=
  Futex (alter (fun q => q ++ sel) (Z.to_nat h2) (<[Z.to_nat h1 := leaving_out sel q1]> (table f)))
    (moved_to uaddr2 sel (faddr f)).

Lemma requeue_collect_eq f sd q1 r bw :
  0 <= h2 < Z.of_nat (length (table f)) -> arr_get (table f) h1 = Some q1 -> NoDup q1 ->
  Z.of_nat (length q1) <= MAX_PROC -> 0 <= nr ->
  let sel := to_move f r q1 in
  exists w, requeue_collect h1 h2 uaddr1 uaddr2 0 nr (0, r) bw (f, sd) = Some (w, (requeued_to f sel q1, sd)) /\
    woken w = 0 /\ requeued w = r + Z.of_nat (length sel) /\ to_wake w = [].
Proof.
  intros Hh2 Hq Hnd Hlen Hnr sel. pose proof (arr_get_bound _ _ _ Hq) as Hh1.
  assert (Hwalk : exists w T, ploop 34 (requeue_walk_step h1 h2 uaddr1 uaddr2 0 nr bw) (Walk [] q1 0 r []) (f, sd) =
      Some (w, (Futex T (moved_to uaddr2 sel (faddr f)), sd)) /\
      length T = length (table f) /\
      <[Z.to_nat h1 := kept w ++ todo w]> T = table (requeued_to f sel q1) /\
      woken w = 0 /\ requeued w = r + Z.of_nat (length sel) /\ to_wake w = []).
  { destruct (decide (h1 = h2)) as [He | Hne].
    - destruct (wp_ploop (same_inv f sd (leaving_out sel q1 ++ sel) (r + Z.of_nat (length sel))
        (moved_to uaddr2 sel (faddr f))) _ _ 34 (2 * Z.of_nat (length q1)) (Walk [] q1 0 r []) (f, sd)
        (fun rank w y H => same_step f sd _ _ _ bw w y rank He Hnr H)) as (w & y & Hw & HL & H1 & H2 & H3 & ->).
      + exists q1, []. cbn. rewrite app_nil_r. split_and!; try done; [| lia]. by intros x ?%elem_of_nil.
      + unfold MAX_PROC in Hlen. lia.
      + exists w, (table f). split_and!; try done. rewrite HL. cbn. rewrite <- He.
        apply list_eq. intros i. destruct (decide (i = Z.to_nat h1)) as [-> |].
        * by rewrite list_lookup_alter_eq, !list_lookup_insert_eq by lia.
        * by rewrite list_lookup_alter_ne, !list_lookup_insert_ne by done.
    - assert (exists q2, table f !! Z.to_nat h2 = Some q2) as [q2 Hq2] by (apply lookup_lt_is_Some_2; lia).
      destruct (wp_ploop (far_inv f sd q2 (leaving_out sel q1) (q2 ++ sel) (r + Z.of_nat (length sel))
        (moved_to uaddr2 sel (faddr f))) _ _ 34 (Z.of_nat (length q1)) (Walk [] q1 0 r []) (f, sd)
        (fun rank w y H => far_step f sd q2 _ _ _ _ bw w y rank Hne Hh2 Hnr H)) as (w & y & Hw & HL & H1 & H2 & H3 & ->).
      + exists []. cbn. rewrite app_nil_r, list_insert_id by done. by split_and!.
      + unfold MAX_PROC in Hlen. lia.
      + exists w, (<[Z.to_nat h2 := q2 ++ sel]> (table f)). split_and!; try done; [by rewrite length_insert |].
        rewrite HL. cbn. apply list_eq. intros i.
        destruct (decide (i = Z.to_nat h2)) as [-> | Hi2].
        * rewrite list_lookup_insert_ne, list_lookup_insert_eq by lia.
          rewrite list_lookup_alter_eq, list_lookup_insert_ne by lia. by rewrite Hq2.
        * rewrite list_lookup_alter_ne by done. destruct (decide (i = Z.to_nat h1)) as [-> |].
          -- by rewrite !list_lookup_insert_eq by (rewrite ?length_insert; lia).
          -- by rewrite !list_lookup_insert_ne by done. }
  destruct Hwalk as (w & T & Hw & HT & Htab & H1 & H2 & H3). exists w.
  unfold requeue_collect, get_bucket, mbind, prog_bind. cbn [fst snd]. rewrite Hq. cbn [mbind option_bind].
  rewrite Hw. unfold set_bucket. cbn [fst snd table faddr]. rewrite arr_set_Some by lia.
  cbn [mbind option_bind]. rewrite Htab. done.
Qed.

Lemma requeued_to_nil f q1 : table f !! Z.to_nat h1 = Some q1 -> requeued_to f [] q1 = f.
Proof.
  intros Hq. unfold requeued_to. rewrite leaving_out_nil, list_insert_id by done. destruct f as [T A]. cbn. f_equal.
  apply list_eq. intros i. rewrite list_lookup_alter. destruct (decide (Z.to_nat h2 = i)) as [<- |]; [| done].
  destruct (T !! Z.to_nat h2); [cbn; by rewrite app_nil_r | done].
Qed.

(** One iteration of a REQUEUE that wakes no one. *)
Lemma requeue_step_eq f sd q1 r :
  0 <= h2 < Z.of_nat (length (table f)) -> arr_get (table f) h1 = Some q1 -> NoDup q1 ->
  Z.of_nat (length q1) <= MAX_PROC -> 0 <= r < nr ->
  let sel := to_move f r q1 in let r' := r + Z.of_nat (length sel) in
  requeue_step h1 h2 uaddr1 uaddr2 0 nr (0, r) (f, sd) =
    Some (if r' =? 0 then inr (0, r') else inl (0, r'), (requeued_to f sel q1, sd)).
Proof.
  intros Hh2 Hq Hnd Hlen Hr sel r'. unfold requeue_step. cbn [fst snd].
  rewrite Z.ltb_irrefl, (proj2 (Z.ltb_lt _ _)) by lia. cbn [orb negb].
  destruct (requeue_collect_eq f sd q1 r (Z.min (0 - 0) FUTEX_WAKE_BATCH)) as (w & Hw & Hwk & Hrq & Htw); try done; [lia |].
  unfold mbind, prog_bind. rewrite Hw, Htw, Hwk, Hrq. done.
Qed.

Lemma to_move_in f r q p : p ∈ to_move f r q -> futex_uaddr f p = uaddr1 /\ p ∈ q.
Proof. intros (i & Hi & _)%elem_of_take. apply list_elem_of_lookup_2 in Hi. by apply list_elem_of_filter in Hi. Qed.

Lemma to_move_perm f r q : NoDup q -> leaving_out (to_move f r q) q ++ to_move f r q ≡ₚ q.
Proof.
  intros Hnd. apply NoDup_Permutation.
  - apply NoDup_app. split_and!; [by apply NoDup_filter | | ].
    + by intros x [? _]%list_elem_of_filter.
    + apply (sublist_NoDup _ (matching f uaddr1 q)); [by apply NoDup_filter | apply sublist_take].
  - done.
  - intros x. rewrite elem_of_app. unfold leaving_out. rewrite list_elem_of_filter. split.
    + by intros [[_ ?] | [_ ?]%to_move_in].
    + intros Hx. destruct (decide (x ∈ to_move f r q)); auto.
Qed.

(** The bucket the waiters come from, after the move. *)
Lemma requeued_bucket f sel q1 : 0 <= h1 < Z.of_nat (length (table f)) -> 0 <= h2 ->
  arr_get (table (requeued_to f sel q1)) h1 = Some (leaving_out sel q1 ++ if decide (h1 = h2) then sel else []).
Proof.
  intros Hh1 Hh2. unfold arr_get. rewrite (proj2 (Z.ltb_ge _ _)) by lia. cbn. case_decide as He.
  - rewrite <- He. by rewrite list_lookup_alter_eq, list_lookup_insert_eq by lia.
  - rewrite list_lookup_alter_ne, list_lookup_insert_eq by lia. by rewrite app_nil_r.
Qed.

(** Nothing is left to move when fewer waiters than asked for were there. *)
Lemma requeued_all f q1 r : Z.of_nat (length (to_move f 0 q1)) < nr ->
  let f' := requeued_to f (to_move f 0 q1) q1 in
  to_move f' r (leaving_out (to_move f 0 q1) q1 ++ if decide (h1 = h2) then to_move f 0 q1 else []) = [].
Proof.
  intros Hlt f'. assert (Hall : to_move f 0 q1 = matching f uaddr1 q1).
  { unfold to_move in *. rewrite length_take in Hlt. apply take_ge. lia. }
  destruct (to_move f' r _) as [| x l] eqn:Hl; [done |]. assert (Hx : x ∈ x :: l) by left.
  rewrite <- Hl in Hx. apply to_move_in in Hx as [Hx Hin].
  unfold f', requeued_to in Hx. rewrite moved_to_uaddr in Hx.
  destruct (decide (x ∈ to_move f 0 q1)) as [Hs | Hs]; [by destruct Hu |].
  exfalso. apply elem_of_app in Hin as [[_ Hin]%list_elem_of_filter | Hin].
  - apply Hs. rewrite Hall. by apply list_elem_of_filter.
  - case_decide; [done |]. by apply elem_of_nil in Hin.
Qed.
End requeue_walk.

Section requeue_call.
Context (f : futex) (s : sched) (mem : Z -> option Z) (cr3 uaddr1 uaddr2 nr : Z) (q1 : list Z).
Hypothesis Hsize : length (table f) = Z.to_nat FUTEX_HASH_SIZE.
Hypothesis Hq : arr_get (table f) (bucket_of cr3 uaddr1) = Some q1.
Hypothesis Hnd : NoDup q1.
Hypothesis Hlen : Z.of_nat (length q1) <= MAX_PROC.
Hypothesis Hu : uaddr1 <> uaddr2.
Hypothesis Hnr : 0 < nr.

Definition the_step : Z * Z -> prog fsys (Z * Z + Z * Z) :=
  requeue_step (bucket_of cr3 uaddr1) (bucket_of cr3 uaddr2) uaddr1 uaddr2 0 nr.
Definition after_move : futex -> list Z -> list Z -> futex :=
  requeued_to (bucket_of cr3 uaddr1) (bucket_of cr3 uaddr2) uaddr2.

Lemma bucket2_range : 0 <= bucket_of cr3 uaddr2 < Z.of_nat (length (table f)).
Proof. rewrite Hsize. pose proof (bucket_of_range cr3 uaddr2). lia. Qed.

Lemma to_move_start : to_move uaddr1 nr f 0 q1 = take (Z.to_nat nr) (matching f uaddr1 q1).
Proof. unfold to_move. by rewrite Z.sub_0_r. Qed.

Lemma requeue_first sel : sel = take (Z.to_nat nr) (matching f uaddr1 q1) ->
  let n := Z.of_nat (length sel) in
  the_step (0, 0) (f, s) =
    Some (if n =? 0 then inr (0, n) else inl (0, n), (after_move f sel q1, s)).
Proof.
  intros ->. unfold the_step, after_move. rewrite requeue_step_eq with (q1 := q1); [| done | apply bucket2_range | done | done | done | lia].
  by rewrite to_move_start.
Qed.

(** FUTEX_REQUEUE without wake-ups, as musl's condition variables use it,
    moves the first [nr_requeue] waiters from one address to the other: they
    keep their order, go to the end of the bucket of the second address, and
    sleep on.  When no one waits, nothing changes.  The call returns the
    number of waiters moved. *)
Theorem futex_requeue_moves k :
  let sel := take (Z.to_nat nr) (matching f uaddr1 q1) in
  (sel = [] \/ Z.of_nat (length sel) = nr) ->
  futex_requeue (S k) mem cr3 uaddr1 uaddr2 0 nr 0 (f, s) =
    Some (Z.of_nat (length sel), (after_move f sel q1, s)).
Proof.
  intros sel Hsel. unfold futex_requeue. cbn [Z.eqb]. fold the_step. unfold mbind, prog_bind.
  destruct (wp_ploop (S := fsys) (fun rank c y => (rank = 1 /\ c = (0, 0) /\ y = (f, s)) \/
      (rank = 0 /\ c = (0, nr) /\ Z.of_nat (length sel) = nr /\ y = (after_move f sel q1, s)))
    the_step
    (fun c y => c = (0, Z.of_nat (length sel)) /\ y = (after_move f sel q1, s)) (S k) 1 (0, 0) (f, s))
    as (c & y & -> & -> & ->); [| by left | | done].
  - intros rank c y [(-> & -> & ->) | (-> & -> & Hn & ->)].
    + eapply wp_val; [by apply (requeue_first sel) |]. destruct (Z.eqb_spec (Z.of_nat (length sel)) 0) as [Hz | Hz]; [done |].
      exists 0. split; [| lia]. right. destruct Hsel as [Hs | Hs]; [by rewrite Hs in Hz | by rewrite Hs].
    + apply (wp_val _ _ (inr (0, nr)) (after_move f sel q1, s)); [| by rewrite Hn]. unfold the_step, requeue_step. cbn [fst snd]. by rewrite !Z.ltb_irrefl.
  - replace (Z.of_nat (S k)) with (Z.of_nat k + 1) by lia. rewrite Z.pow_add_r by lia.
    pose proof (Z.pow_pos_nonneg 2 (Z.of_nat k)). lia.
Qed.

(** Once all waiters have moved, an iteration changes nothing. *)
Lemma requeue_again sel : sel = take (Z.to_nat nr) (matching f uaddr1 q1) ->
  let n := Z.of_nat (length sel) in 0 < n < nr ->
  the_step (0, n) (after_move f sel q1, s) = Some (inl (0, n), (after_move f sel q1, s)).
Proof.
  intros Hsel n Hn. pose proof (arr_get_bound _ _ _ Hq) as Hh1. pose proof bucket2_range as Hh2.
  rewrite <- to_move_start in Hsel. pose proof (to_move_perm uaddr1 nr f 0 q1 Hnd) as Hp.
  unfold the_step, after_move. set (h1 := bucket_of cr3 uaddr1) in *. set (h2 := bucket_of cr3 uaddr2) in *.
  pose proof (requeued_bucket h1 h2 uaddr2 f sel q1 Hh1 ltac:(lia)) as Hb.
  pose proof (requeued_all h1 h2 uaddr1 uaddr2 nr Hu f q1 n) as Hno. cbv zeta in Hno.
  rewrite <- Hsel in Hp, Hno. set (f' := requeued_to h1 h2 uaddr2 f sel q1) in *.
  set (q1' := leaving_out sel q1 ++ if decide (h1 = h2) then sel else []) in *.
  assert (Hs : sublist q1' (leaving_out sel q1 ++ sel)).
  { unfold q1'. apply sublist_app; [done |]. case_decide; [done | apply sublist_nil_l]. }
  rewrite (requeue_step_eq h1 h2 uaddr1 uaddr2 nr Hu f' s q1' n); [| | done | | | lia].
  - rewrite Hno, requeued_to_nil by (lia || by apply arr_get_lookup). cbn [length]. rewrite Z.add_0_r.
    by rewrite (proj2 (Z.eqb_neq _ _)) by lia.
  - cbn. by rewrite length_alter, length_insert.
  - eapply sublist_NoDup; [| exact Hs]. by rewrite Hp.
  - apply sublist_length in Hs. apply Permutation_length in Hp. lia.
Qed.

(** C40. A FUTEX_REQUEUE without wake-ups ([nr_wake] is 0, as in musl's
    condition variables) to another address, or a FUTEX_CMP_REQUEUE whose
    comparison value is 0, that finds some waiters but fewer than [nr_requeue]
    never returns: the first iteration moves them, and every following one
    leaves everything as it is and asks for another. *)
Theorem futex_requeue_diverges :
  let sel := take (Z.to_nat nr) (matching f uaddr1 q1) in
  let n := Z.of_nat (length sel) in
  0 < n < nr ->
  (exists f', the_step (0, 0) (f, s) = Some (inl (0, n), (f', s)) /\
     the_step (0, n) (f', s) = Some (inl (0, n), (f', s))) /\
  forall k, futex_requeue k mem cr3 uaddr1 uaddr2 0 nr 0 (f, s) = None.
Proof.
  intros sel n Hn.
  assert (H1 : the_step (0, 0) (f, s) = Some (inl (0, n), (after_move f sel q1, s))).
  { rewrite (requeue_first sel) by done. fold n. by rewrite (proj2 (Z.eqb_neq _ _)) by lia. }
  pose proof (requeue_again sel eq_refl Hn) as H2. fold n in H2.
  split; [eauto |]. intros k. unfold futex_requeue. cbn [Z.eqb]. fold the_step. unfold mbind, prog_bind.
  rewrite (ploop_forever (S := fsys)
    (fun c y => (c = (0, 0) /\ y = (f, s)) \/ (c = (0, n) /\ y = (after_move f sel q1, s)))); [done | | by left].
  intros c y [[-> ->] | [-> ->]]; eauto 8.
Qed.
End requeue_call.

(** ** Going to sleep *)

Lemma wp_keeps {A} P (m : sp A) s Q : keeps P m -> wp m s Q ->
  wp m s (fun a s' => Q a s' /\ forall x, ~ P x -> sleep_of x s' = sleep_of x s).
Proof. intros Hk (a & s' & He & HQ). exists a, s'. split_and!; [done | done | by apply (Hk s a)]. Qed.

Lemma wp_fall_asleep {A} G C n s t k (g : sp A) Q : at_ G C n s -> G !! t = Some k ->
  (forall s', at_ (<[t := Core BLOCKED (c_deadline k) (c_cpu k) (c_done k)]> G) C n s' -> futex_asleep t s' -> wp g s' Q) ->
  wp (_ ← upd_task t (fun k => set_wait WAIT_FUTEX (wait_timed_out k) k); _ ← upd_task t (set_sstate BLOCKED); g) s Q.
Proof.
  intros (<- & <- & <-) (x & Hx & <-)%cores_lookup_inv HQ.
  seq. eapply wp_val; [unfold upd_task; by rewrite Hx |].
  seq. eapply wp_val; [unfold upd_task; cbn; by rewrite lookup_insert_eq |]. apply HQ.
  - split_and!; [| done..]. unfold cores. cbn. by rewrite !fmap_insert, insert_insert_eq.
  - unfold futex_asleep, sleep_of. cbn. by rewrite lookup_insert_eq.
Qed.

Lemma add_timeout_pos now ns : 0 < now <= UINT64_MAX -> 0 <= ns -> 0 < add_timeout now ns.
Proof. intros Hn Hs. unfold add_timeout, UINT64_MAX in *. destruct (Z.ltb_spec (2 ^ 64 - 1 - now) ns); lia. Qed.

Lemma keeps_arm t ns sig now : keeps (fun x => x = t) (futex_arm t ns sig now).
Proof. unfold futex_arm. keeps. Qed.

(** The effect of [futex_arm] on the tasks, with or without a timeout. *)
Definition armed (t : Z) (sig : bool) (s : sched) (b : bool) (s' : sched) : Prop :=
  b = negb sig /\ sinv s' /\ (exists k, cores s' = <[t := k]> (cores s)) /\
  (if sig then sleep_of t s' = Some (RUNNING, WAIT_NONE) else futex_asleep t s').

Section arm.
Context (s : sched) (t c : Z) (cl : cpu_local).
Hypothesis HI : sinv s.
Hypothesis Hc : cpu_locals s !! c = Some cl.
Hypothesis Hq : quiet cl.
Hypothesis Ht : cur_proc cl = t.
Hypothesis Hi : idle_proc cl <> t.
Hypothesis HG : cores s !! t = Some (Core RUNNING 0 c false).
Hypothesis HL : local c cl (cores s).
Hypothesis Ha : away t c (cpu_locals s).

(** The wait is given up: the task runs on and waits for nothing. *)
Lemma wp_give_up {A} G C n s1 d dn (g : sp A) Q : at_ G C n s1 -> G !! t = Some (Core BLOCKED d c dn) ->
  (forall s', at_ (<[t := Core RUNNING d c dn]> G) C n s' -> sleep_of t s' = Some (RUNNING, WAIT_NONE) -> wp g s' Q) ->
  wp (_ ← upd_task t (set_sstate RUNNING); _ ← upd_task t (fun k => set_wait WAIT_NONE (wait_timed_out k) k); g) s1 Q.
Proof.
  intros (<- & <- & <-) (x & Hx & Hcx)%cores_lookup_inv HQ.
  seq. eapply wp_val; [unfold upd_task; by rewrite Hx |].
  seq. eapply wp_val; [unfold upd_task; cbn; by rewrite lookup_insert_eq |]. apply HQ.
  - split_and!; [| done..]. unfold cores. cbn. rewrite !fmap_insert, insert_insert_eq. f_equal.
    injection Hcx as H1 H2 H3 H4. unfold core_of. cbn. congruence.
  - unfold sleep_of. cbn. by rewrite lookup_insert_eq.
Qed.

Lemma arm_untimed sig now : wp (futex_arm t None sig now) s (armed t sig s).
Proof.
  pose proof (mark_blocked _ _ _ s t c cl (at_self s) HI Hc Hq Ht Hi HG) as HI1.
  unfold futex_arm. seq. apply (wp_get_task (at_self s) t _ _ HG). intros x Hx.
  seq. apply (wp_upd_aux (at_self s)); [by eexists | done |]. intros s1 Hat. seq. apply wp_ret.
  apply (wp_fall_asleep _ _ _ s1 t _ _ _ Hat HG). cbn. clear s1 Hat. intros s1 Hat Hsl. destruct sig.
  - eapply (wp_give_up _ _ _ s1); [exact Hat | apply lookup_insert_eq |]. next_state Hat. intros Hsl'.
    rewrite insert_insert_eq, insert_id in Hat by done. seq. apply wp_ret. apply wp_ret.
    split_and!; [done | by eapply at_sinv | | done]. exists (Core RUNNING 0 c false). rewrite insert_id by done. by destruct Hat.
  - apply wp_ret. split_and!; [done | by eapply at_sinv | | done]. eexists. by destruct Hat.
Qed.

(** The timer queue once the deadline is gone again. *)
Lemma timers_back d q : q ≡ₚ t :: timer_queue cl ->
  StronglySorted Z.le (deadline_of (<[t := Core RUNNING d c false]> (cores s)) <$> q) ->
  local c (set_tq (without t q) cl) (cores s).
Proof.
  intros Hp Hs. pose proof (not_timed HL t _ HG eq_refl) as Hnt. apply (local_timers HL).
  - unfold without. rewrite Hp. change (without t (t :: timer_queue cl) ≡ₚ timer_queue cl). by rewrite without_cons.
  - rewrite <- (deadlines_insert _ t (Core RUNNING d c false)); [by apply sorted_without |].
    rewrite elem_of_without. tauto.
Qed.

Lemma cancel_back d q s1 : d <> 0 -> q ≡ₚ t :: timer_queue cl ->
  at_ (<[t := Core RUNNING d c false]> (cores s)) (<[c := set_tq q cl]> (cpu_locals s)) (ncpu s) s1 ->
  wp (sched_timer_queue_cancel t) s1
    (fun _ => at_ (cores s) (<[c := set_tq (without t q) cl]> (cpu_locals s)) (ncpu s)).
Proof.
  intros Hd Hp Hat. unfold sched_timer_queue_cancel. seq.
  eapply (wp_get_task Hat t); [apply lookup_insert_eq |]. intros y Hy.
  assert (Hyd : wait_deadline y = d) by (by injection Hy). rewrite Hyd, (proj2 (Z.eqb_neq _ _)) by done.
  pose proof (not_queued HL t _ HG ltac:(done)) as Hnq. rewrite elem_of_app in Hnq. seq.
  eapply (wp_wait_pop Hat t c); [apply lookup_insert_eq | cbn; rewrite Hp; left | cbn; tauto | by apply away_insert |].
  next_state Hat. eapply (wp_upd_task Hat t _ _ (Core RUNNING 0 c false)); [apply lookup_insert_eq | core_eq |].
  next_state Hat. rewrite !insert_insert_eq, (insert_id (cores s)) in Hat by done. exact Hat.
Qed.

Lemma arm_timed ns sig now : 0 < now <= UINT64_MAX -> 0 <= ns -> wp (futex_arm t (Some ns) sig now) s (armed t sig s).
Proof.
  intros Hnow Hns. pose proof (add_timeout_pos now ns Hnow Hns) as Hd. set (d := add_timeout now ns) in *.
  pose proof (mark_blocked _ _ _ s t c cl (at_self s) HI Hc Hq Ht Hi HG) as HI1.
  pose proof (not_timed HL t _ HG eq_refl) as Hnt.
  pose proof (not_queued HL t _ HG ltac:(done)) as Hnq. rewrite elem_of_app in Hnq.
  unfold futex_arm. seq. apply (wp_get_task (at_self s) t _ _ HG). intros x Hx.
  assert (Hxc : assigned_cpu x = c) by (by injection Hx). rewrite Hxc.
  seq. apply (wp_upd_aux (at_self s)); [by eexists | done |]. intros s1 Hat. seq. fold d.
  seq. eapply (wp_upd_task Hat t _ _ (Core RUNNING d c false)); [done | core_eq |]. next_state Hat.
  eapply (wp_timer_insert _ _ _ _ t c cl _ _ Hat); [apply lookup_insert_eq | done | | |].
  { intros p Hp. destruct (lc_timed _ _ _ HL p Hp) as (k & ? & _). at_task p t; by eexists. }
  { rewrite deadlines_insert by done. apply (lc_sorted _ _ _ HL). }
  intros q s2 Hp Hs Hat'. clear Hat.
  eapply (wp_fall_asleep _ _ _ s2 t _ _ _ Hat'); [apply lookup_insert_eq |]. cbn. clear s2 Hat'.
  rewrite insert_insert_eq. intros s2 Hat Hsl. destruct sig.
  - eapply (wp_give_up _ _ _ s2); [exact Hat | apply lookup_insert_eq |]. next_state Hat. intros Hsl'.
    rewrite insert_insert_eq in Hat. seq.
    eapply wp_mono; [apply (wp_keeps (fun _ => False)); [apply keeps_cancel | apply (cancel_back d q); [lia | done | done]] |].
    cbn. intros [] s4 [Hat3 Hk3]. apply wp_ret. split_and!; [done | | | rewrite Hk3; [done | by intros []]].
    + eapply at_sinv; [exact Hat3 |]. eapply Inv_local; [done | done | by apply (timers_back d)].
    + exists (Core RUNNING 0 c false). rewrite insert_id by done. by destruct Hat3.
  - apply wp_ret. split_and!; [done | | eexists; by destruct Hat | done]. eapply at_sinv; [exact Hat |].
    rewrite <- (insert_insert_eq (cores s) t _ (Core BLOCKED 0 c false)). pose proof (inv_local _ _ _ HI1 c cl Hc) as HL1.
    eapply Inv_update1; [exact HI1 | done | apply lookup_insert_eq | done | done |].
    apply (local_arm HL1); [apply lookup_insert_eq | lia | done |].
    rewrite insert_insert_eq. rewrite <- (insert_insert_eq (cores s) t _ (Core RUNNING d c false)).
    by rewrite (deadlines_same _ t (Core RUNNING d c false)) by (done || apply lookup_insert_eq).
Qed.
End arm.

Definition timeout_ok (ns : option Z) : Prop := match ns with Some n => 0 <= n | None => True end.

(** What the rest of the development needs to know about arming. *)
Lemma futex_arm_ok t ns sig now s : sinv s -> task_running t s -> timeout_ok ns -> 0 < now <= UINT64_MAX ->
  wp (futex_arm t ns sig now) s (fun b s' => b = negb sig /\ sinv s' /\
    (forall x, exists_task x s -> exists_task x s') /\
    (if sig then ~ futex_asleep t s' else futex_asleep t s') /\
    (forall x, x <> t -> sleep_of x s' = sleep_of x s)).
Proof.
  intros HI Hr Hns Hnow. destruct (sched_running t s HI Hr) as (c & cl & Hc & Hq & Ht & Hi & HG & HL & Ha).
  assert (Harm : wp (futex_arm t ns sig now) s (armed t sig s)).
  { destruct ns as [n |]; [by eapply arm_timed | by eapply arm_untimed]. }
  eapply wp_mono; [apply (wp_keeps _ _ _ _ (keeps_arm t ns sig now) Harm) |]. cbn.
  intros b s' [(-> & HI' & (k & Hcs) & Hs) Hk]. split_and!; try done.
  - intros x. rewrite !exists_task_cores, Hcs. intros Hx. at_task x t; [by eexists | done].
  - destruct sig; [| done]. unfold futex_asleep. by rewrite Hs.
Qed.

(** ** Sleeping tasks can be found

    The operations as they interleave: each is what one task does under the
    bucket locks; the wake-ups follow later, one by one.  [inflight] holds the
    tasks taken off the table whose wake-up is still to come.  [h] of a return
    is the bucket of the address the wait was called with, whose lock it
    takes; [cpu] of a delivery is the CPU of the task as read before the lock of
    that CPU is taken. *)

Definition fstate : Type := fsys * list Z.

Inductive fop :=
  | OWait (mem : Z -> option Z) (cr3 t uaddr val : Z) (timeout : timeout_arg) (sig : bool) (now : Z)
  | OReturn (h t : Z) (has_timeout sig : bool)
  | OTake (cr3 uaddr batch : Z)
  | OMove (cr3 uaddr1 uaddr2 nr_wake nr_requeue : Z) (counts : Z * Z)
  | ODeliver (cpu : Z) (i : nat)
  | OOther (s' : sched).

Definition fexec (o : fop) (x : fstate) : option fstate :=
  match o with
  | OWait mem cr3 t uaddr val timeout sig now =>
      r ← futex_wait_begin mem cr3 t uaddr val timeout sig now x.1; Some (r.2, x.2)
  | OReturn _ t has_timeout sig => r ← futex_wait_end t has_timeout sig x.1; Some (r.2, x.2)
  | OTake cr3 uaddr batch => r ← wake_collect (bucket_of cr3 uaddr) uaddr batch x.1; Some (r.2, x.2 ++ r.1)
  | OMove cr3 uaddr1 uaddr2 nr_wake nr_requeue c =>
      r ← requeue_collect (bucket_of cr3 uaddr1) (bucket_of cr3 uaddr2) uaddr1 uaddr2 nr_wake nr_requeue c
            (Z.min (nr_wake - c.1) FUTEX_WAKE_BATCH) x.1;
      Some (r.2, x.2 ++ to_wake r.1)
  | ODeliver _ i =>
      p ← x.2 !! i; r ← on_sched (wake_with_event p WAIT_FUTEX) x.1; Some (r.2, delete i x.2)
  | OOther s' => Some (x.1.1, s', x.2)
  end.

Definition page_aligned (cr3 : Z) : Prop := cr3 mod 2 ^ PAGE_SHIFT = 0.

(** The caller of WAIT runs and is not queued; nothing is mapped at address 0,
    so no wait there gets as far as the queue; the clock has started.  Other code of the kernel may wake tasks and block
    them, but not on a futex. *)
Definition fallowed (o : fop) (x : fstate) : Prop :=
  let f := x.1.1 in let s := x.1.2 in
  match o with
  | OWait _ cr3 t uaddr _ _ _ now => page_aligned cr3 /\ task_running t s /\ 0 <= t < MAX_PROC /\
      futex_uaddr f t = 0 /\ uaddr <> 0 /\ 0 < now <= UINT64_MAX
  | OReturn _ t _ _ => task_running t s
  | OTake cr3 _ batch => page_aligned cr3 /\ 0 <= batch
  | OMove cr3 _ _ _ nr_requeue c => page_aligned cr3 /\ nr_requeue < 2 ^ 31 /\ 0 <= c.2
  | ODeliver _ i => (i < length x.2)%nat
  | OOther s' => sinv s' /\ (forall t, exists_task t s -> exists_task t s') /\
      (forall t, futex_asleep t s' -> futex_asleep t s)
  end.

(** The cases that the code does not handle do not occur: a waiter that returns
    without having been woken is not on another bucket than the one whose lock
    it takes, no waiter is moved to address 0, and the CPU of a task does not
    change between its reading and the taking of its lock. *)
Definition fproper (o : fop) (x : fstate) : Prop :=
  match o with
  | OReturn h t _ _ => futex_uaddr x.1.1 t <> 0 -> bucket_of 0 (futex_uaddr x.1.1 t) = h
  | OMove _ _ uaddr2 _ _ _ => uaddr2 <> 0
  | ODeliver cpu i => forall p, x.2 !! i = Some p -> of_task p (fun k => assigned_cpu k = cpu) x.1.2
  | _ => True
  end.

Inductive freach : fstate -> Prop :=
  | freach_init s : sinv s -> (forall t, ~ futex_asleep t s) -> freach (futex_init, s, [])
  | freach_step o x x' : freach x -> fallowed o x -> fproper o x -> fexec o x = Some x' -> freach x'.

(** A task is on the table exactly if it has an address, and then in the
    bucket of that address; a task that sleeps is on the table or its wake-up
    is on its way. *)
Record finv (f : futex) (s : sched) (inflight : list Z) : Prop := {
  fi_sched : sinv s;
  fi_size : length (table f) = Z.to_nat FUTEX_HASH_SIZE;
  fi_nodup : forall h q, table f !! h = Some q -> NoDup q;
  fi_mem : forall h q p, table f !! h = Some q ->
    p ∈ q <-> futex_uaddr f p <> 0 /\ Z.of_nat h = bucket_of 0 (futex_uaddr f p);
  fi_task : forall p, futex_uaddr f p <> 0 -> 0 <= p < MAX_PROC /\ exists_task p s;
  fi_flight : forall p, p ∈ inflight -> exists_task p s;
  fi_asleep : forall t, futex_asleep t s -> futex_uaddr f t <> 0 \/ t ∈ inflight;
}.

Lemma finv_init s : sinv s -> (forall t, ~ futex_asleep t s) -> finv futex_init s [].
Proof.
  intros HI Hno. split; try done.
  - intros h q [-> _]%lookup_replicate. constructor.
  - intros h q p [-> _]%lookup_replicate. split; [by intros ?%elem_of_nil | by intros [? _]].
  - by intros p ?%elem_of_nil.
  - by intros t ?%Hno.
Qed.

(** One task gets another address, and its place in the table with it. *)
Lemma finv_move f s fl p a T fl' : finv f s fl -> length T = length (table f) ->
  (forall h q, T !! h = Some q -> NoDup q /\ (p ∈ q <-> a <> 0 /\ Z.of_nat h = bucket_of 0 a) /\
     exists q0, table f !! h = Some q0 /\ forall x, x <> p -> x ∈ q <-> x ∈ q0) ->
  (a <> 0 -> 0 <= p < MAX_PROC /\ exists_task p s) ->
  (forall x, x ∈ fl -> x ∈ fl') -> (forall x, x ∈ fl' -> exists_task x s) ->
  (futex_asleep p s -> a <> 0 \/ p ∈ fl') ->
  finv (Futex T (<[p := a]> (faddr f))) s fl'.
Proof.
  intros [HI Hsz Hnd Hmem Htk Hfl Has] Hlen HT Ha Hsub Hfl' Hsl.
  assert (Hu : forall x, futex_uaddr (Futex T (<[p := a]> (faddr f))) x = if decide (x = p) then a else futex_uaddr f x).
  { intros x. unfold futex_uaddr. cbn. case_decide as Hx; [subst; by rewrite lookup_insert_eq |].
    by rewrite lookup_insert_ne. }
  split; cbn [table]; try done.
  - congruence.
  - intros h q Hq. by destruct (HT h q Hq).
  - intros h q x Hq. rewrite Hu. destruct (HT h q Hq) as (_ & Hp & q0 & Hq0 & Hx).
    case_decide as Hxp; [by subst |]. rewrite Hx by done. by apply Hmem.
  - intros x. rewrite Hu. case_decide; [subst; auto | auto].
  - intros t Ht. rewrite Hu. case_decide; [subst; auto |]. destruct (Has t Ht); auto.
Qed.

(** The scheduler moves on, or a task on the table goes to sleep. *)
Lemma finv_sched f s fl s' fl' : finv f s fl -> sinv s' -> (forall t, exists_task t s -> exists_task t s') ->
  (forall t, t ∈ fl' -> t ∈ fl) ->
  (forall t, futex_asleep t s' -> futex_uaddr f t <> 0 \/ (futex_asleep t s /\ (t ∈ fl -> t ∈ fl'))) ->
  finv f s' fl'.
Proof.
  intros [_ Hsz Hnd Hmem Htk Hfl Has] HI' Hex Hsub Hsl. split; try done.
  - intros p Hp. destruct (Htk p Hp). auto.
  - auto.
  - intros t Ht. destruct (Hsl t Ht) as [| [Ht1 Hf]]; [auto |]. destruct (Has t Ht1); auto.
Qed.

(** A task is taken off the table. *)
Lemma finv_unlink f s fl t : finv f s fl -> ~ futex_asleep t s ->
  finv (Futex (without t <$> table f) (<[t := 0]> (faddr f))) s fl.
Proof.
  intros HI Ht. apply (finv_move f s fl t 0); [done | by rewrite length_fmap | | done | done | apply HI | done].
  intros h q (q0 & -> & Hq0)%list_lookup_fmap_Some_1. split_and!.
  - apply NoDup_filter. by apply (fi_nodup _ _ _ HI h).
  - rewrite elem_of_without. split; [by intros [_ ?] | by intros [? _]].
  - exists q0. split; [done |]. intros x Hx. rewrite elem_of_without. tauto.
Qed.

Lemma futex_unqueue_ok f s fl t : finv f s fl -> ~ futex_asleep t s ->
  wp (futex_unqueue t) (f, s) (fun _ y => y.2 = s /\ finv y.1 s fl).
Proof.
  intros HI Ht. unfold futex_unqueue. seq. eapply wp_val; [done |]. cbn [fst].
  destruct (futex_uaddr f t =? 0); [by apply wp_ret |].
  seq. eapply wp_val; [done |]. eapply wp_val; [done |]. cbn. split; [done | by apply finv_unlink].
Qed.

(** A task not on the table joins the bucket of an address. *)
Lemma finv_join f s fl t uaddr q : finv f s fl -> exists_task t s -> 0 <= t < MAX_PROC ->
  futex_uaddr f t = 0 -> uaddr <> 0 -> table f !! Z.to_nat (bucket_of 0 uaddr) = Some q ->
  finv (Futex (<[Z.to_nat (bucket_of 0 uaddr) := q ++ [t]]> (table f)) (<[t := uaddr]> (faddr f))) s fl.
Proof.
  intros HI Hex Hr Hn Hu Hq. pose proof (bucket_of_range 0 uaddr) as Hb.
  apply (finv_move f s fl t uaddr); [done | by rewrite length_insert | | done | done | apply HI | by left].
  assert (Hnin : forall h q0, table f !! h = Some q0 -> t ∉ q0).
  { intros h q0 Hq0. rewrite (fi_mem _ _ _ HI h q0) by done. by intros [? _]. }
  intros h q'. destruct (decide (h = Z.to_nat (bucket_of 0 uaddr))) as [-> | Hne].
  - rewrite list_lookup_insert_eq by (apply lookup_lt_Some in Hq; lia). intros [= <-]. split_and!.
    + apply NoDup_app. split_and!; [by apply (fi_nodup _ _ _ HI _ _ Hq) | | by apply NoDup_singleton].
      intros x Hx ->%list_elem_of_singleton. by apply (Hnin _ _ Hq).
    + rewrite elem_of_app, list_elem_of_singleton. split; [| by right]. intros _. split; [done | lia].
    + exists q. split; [done |]. intros x Hx. rewrite elem_of_app, list_elem_of_singleton. tauto.
  - rewrite list_lookup_insert_ne by done. intros Hq'. split_and!.
    + by apply (fi_nodup _ _ _ HI h).
    + split; [by intros ?%(Hnin h) | intros [_ ?]; lia].
    + by exists q'.
Qed.

(** What WAIT returns before it sleeps; None when it sleeps. *)
Definition wait_result (mem : Z -> option Z) (uaddr val : Z) (timeout : timeout_arg) (sig : bool) : option Z :=
  match mem uaddr with
  | None => Some (- EFAULT)
  | Some v =>
      if negb (v =? val) then Some (- EAGAIN)
      else match timeout with
      | NoTimeout => if sig then Some (- ERESTART) else None
      | BadPointer => Some (- EFAULT)
      | Timespec sec nsec =>
          if (sec <? 0) || (nsec <? 0) || (1000000000 <=? nsec) then Some (- EINVAL)
          else if sig then Some (- EINTR) else None
      end
  end.

Lemma timespec_ns_nonneg sec nsec : 0 <= timespec_ns sec nsec.
Proof.
  unfold timespec_ns, UINT64_MAX. case_match; [done |]. unfold u64. apply Z.mod_pos_bound. lia.
Qed.

Lemma task_running_awake t s : sinv s -> task_running t s -> ~ futex_asleep t s /\ exists_task t s.
Proof.
  intros HI Hr. destruct (sched_running t s HI Hr) as (c & cl & _ & _ & _ & _ & HG & _).
  split; [| rewrite exists_task_cores; by eexists]. unfold futex_asleep, sleep_of.
  intros (k & Hk%cores_lookup & [= Hst _])%fmap_Some_1. rewrite HG in Hk. injection Hk as ? _ _. congruence.
Qed.

(** Joining a bucket and leaving it again. *)
Lemma unlink_join (T : list (list Z)) h q t : T !! h = Some q -> (forall h q, T !! h = Some q -> t ∉ q) ->
  without t <$> <[h := q ++ [t]]> T = T.
Proof.
  intros Hq Hn. apply list_eq. intros i. rewrite list_lookup_fmap. destruct (decide (i = h)) as [-> | Hne].
  - rewrite list_lookup_insert_eq by (by apply lookup_lt_Some in Hq). rewrite Hq. cbn.
    rewrite without_app, without_cons, app_nil_r by apply not_elem_of_nil. by rewrite without_id by (by apply (Hn h)).
  - rewrite list_lookup_insert_ne by done. destruct (T !! i) as [q' |] eqn:Hi; [| done]. cbn.
    by rewrite without_id by (by apply (Hn i)).
Qed.

Section wait.
Context (f : futex) (s : sched) (fl : list Z) (mem : Z -> option Z) (cr3 t uaddr val : Z) (timeout : timeout_arg)
  (sig : bool) (now : Z).
Hypothesis HI : finv f s fl.
Hypothesis Hok : fallowed (OWait mem cr3 t uaddr val timeout sig now) (f, s, fl).

(** After the call the table has the caller at the end of the bucket if it
    sleeps, and is what it was if it does not. *)
Definition wait_post (r : option Z) (y : fsys) : Prop :=
  finv y.1 y.2 fl /\ (forall x, x <> t -> sleep_of x y.2 = sleep_of x s /\ futex_uaddr y.1 x = futex_uaddr f x) /\
  match r with
  | None => futex_asleep t y.2 /\ futex_uaddr y.1 t = uaddr /\
      exists q, table f !! Z.to_nat (bucket_of cr3 uaddr) = Some q /\
        table y.1 = <[Z.to_nat (bucket_of cr3 uaddr) := q ++ [t]]> (table f)
  | Some _ => ~ futex_asleep t y.2 /\ futex_uaddr y.1 t = 0 /\ table y.1 = table f
  end.

Definition joined (q : list Z) : futex :=
  Futex (<[Z.to_nat (bucket_of cr3 uaddr) := q ++ [t]]> (table f)) (<[t := uaddr]> (faddr f)).

Lemma joined_uaddr q x : futex_uaddr (joined q) x = if decide (x = t) then uaddr else futex_uaddr f x.
Proof.
  unfold futex_uaddr. cbn. case_decide; [subst; by rewrite lookup_insert_eq | by rewrite lookup_insert_ne].
Qed.

Lemma joined_ok q : table f !! Z.to_nat (bucket_of cr3 uaddr) = Some q -> finv (joined q) s fl.
Proof.
  pose proof Hok as (Hal & Hrun & Hr & Hn & Hu & _). unfold joined. rewrite (bucket_of_aligned cr3) by done.
  apply finv_join; try done. by apply (task_running_awake t s (fi_sched _ _ _ HI)).
Qed.

(** The caller leaves the bucket again, awake. *)
Lemma wait_undone q s' e : table f !! Z.to_nat (bucket_of cr3 uaddr) = Some q -> finv (joined q) s' fl ->
  ~ futex_asleep t s' -> (forall x, x <> t -> sleep_of x s' = sleep_of x s) ->
  wait_post (Some e) (Futex (without t <$> table (joined q)) (<[t := 0]> (faddr (joined q))), s').
Proof.
  pose proof Hok as (_ & _ & _ & Hn & _ & _). cbn in Hn. intros Hq HI1 Hsl Hk. split_and!; cbn [fst snd].
  - by apply finv_unlink.
  - intros x Hx. split; [auto |]. unfold futex_uaddr. cbn. by rewrite !lookup_insert_ne.
  - done.
  - unfold futex_uaddr. cbn. by rewrite lookup_insert_eq.
  - cbn. apply unlink_join; [done |]. intros h q0 Hq0. rewrite (fi_mem _ _ _ HI h q0) by done. by intros [? _].
Qed.

Lemma wait_arm q ns : table f !! Z.to_nat (bucket_of cr3 uaddr) = Some q -> timeout_ok ns ->
  wp (asleep ← on_sched (futex_arm t ns sig now);
      if (asleep : bool) then mret None
      else _ ← futex_unqueue t; mret (Some (match ns with Some _ => - EINTR | None => - ERESTART end))) (joined q, s)
    (fun r y => r = (if sig then Some (match ns with Some _ => - EINTR | None => - ERESTART end) else None) /\ wait_post r y).
Proof.
  pose proof Hok as (_ & Hrun & _ & _ & Hu & Hnow). cbn in Hrun. intros Hq Hns. pose proof (joined_ok q Hq) as HI1.
  destruct (futex_arm_ok t ns sig now s (fi_sched _ _ _ HI) Hrun Hns Hnow) as (b & s' & He & -> & HI' & Hex & Hsl & Hk).
  assert (HI2 : finv (joined q) s' fl).
  { apply (finv_sched _ _ _ _ _ HI1); try done. intros x Hx. rewrite joined_uaddr. case_decide as Hxt; [by left |].
    right. split; [| done]. unfold futex_asleep in *. by rewrite <- Hk. }
  pose proof (fun e H => wait_undone q s' e Hq HI2 H Hk) as Hleave.
  seq. eapply wp_val; [unfold on_sched; cbn [snd]; by rewrite He |]. cbn [fst snd]. destruct sig; cbn [negb].
  - unfold futex_unqueue. seq. seq. eapply wp_val; [done |]. cbn [fst]. rewrite joined_uaddr, decide_True by done.
    rewrite (proj2 (Z.eqb_neq _ _) Hu). seq. eapply wp_val; [done |]. eapply wp_val; [done |]. apply wp_ret.
    split; [done | by apply Hleave].
  - apply wp_ret. split; [done |]. split_and!; cbn [fst snd]; [done | | done | by rewrite joined_uaddr, decide_True | by exists q].
    intros x Hx. rewrite joined_uaddr, decide_False by done. auto.
Qed.

Lemma futex_wait_begin_ok :
  wp (futex_wait_begin mem cr3 t uaddr val timeout sig now) (f, s)
    (fun r y => r = wait_result mem uaddr val timeout sig /\ wait_post r y).
Proof.
  pose proof Hok as (Hal & Hrun & Hr & Hn & Hu & Hnow). cbn in Hrun, Hn.
  destruct (task_running_awake t s (fi_sched _ _ _ HI) Hrun) as [Hsl Hex].
  unfold futex_wait_begin, wait_result. destruct (mem uaddr) as [v |]; [| apply wp_ret; by split_and!].
  destruct (v =? val); cbn [negb]; [| apply wp_ret; by split_and!].
  pose proof (bucket_of_range cr3 uaddr) as Hb. pose proof (fi_size _ _ _ HI) as Hsz.
  destruct (arr_get_Some (table f) (bucket_of cr3 uaddr)) as [q Hq]; [lia |].
  pose proof (arr_get_lookup _ _ _ Hq) as Hq'. seq. eapply wp_val; [done |].
  seq. eapply wp_val; [unfold get_bucket; cbn [fst table]; by rewrite Hq |].
  seq. eapply wp_val; [unfold set_bucket; cbn [fst table]; by rewrite arr_set_Some by lia |]. cbn [fst snd faddr].
  fold (joined q). pose proof (fun ns => wait_arm q ns Hq') as Harm.
  pose proof (fun e => wait_undone q s e Hq' (joined_ok q Hq') Hsl ltac:(done)) as Hleave.
  destruct timeout as [| | sec nsec].
  - by apply Harm.
  - seq. eapply wp_val; [done |]. seq. eapply wp_val; [done |]. apply wp_ret. split; [done | apply Hleave].
  - destruct ((sec <? 0) || (nsec <? 0) || (1000000000 <=? nsec)).
    + seq. eapply wp_val; [done |]. seq. eapply wp_val; [done |]. apply wp_ret. split; [done | apply Hleave].
    + apply (Harm (Some (timespec_ns sec nsec))), timespec_ns_nonneg.
Qed.
End wait.

(** ** The other operations keep the invariant *)

(** A batch of waiters is taken off a bucket, to be woken. *)
Lemma finv_take f s fl h q sel : finv f s fl -> table f !! h = Some q -> (forall x, x ∈ sel -> x ∈ q) ->
  finv (Futex (<[h := leaving_out sel q]> (table f)) (moved_to 0 sel (faddr f))) s (fl ++ sel).
Proof.
  intros [HI Hsz Hnd Hmem Htk Hfl Has] Hq Hsel.
  assert (Hu : forall T x, futex_uaddr (Futex T (moved_to 0 sel (faddr f))) x = if decide (x ∈ sel) then 0 else futex_uaddr f x)
    by (intros; by rewrite moved_to_uaddr).
  split; cbn [table]; try done.
  - by rewrite length_insert.
  - intros h' q' Hq'. apply list_lookup_insert_Some in Hq' as [(<- & <- & _) | [_ Hq']]; [| eauto].
    apply NoDup_filter. eauto.
  - intros h' q' x Hq'. rewrite Hu. apply list_lookup_insert_Some in Hq' as [(<- & <- & _) | [Hne Hq']].
    + unfold leaving_out. rewrite list_elem_of_filter, (Hmem h q x Hq). case_decide; naive_solver.
    + rewrite (Hmem h' q' x Hq'). case_decide as Hx; [| done].
      apply Hsel, (Hmem h q x Hq) in Hx as [? ?]. split; [intros [? ?]; lia | by intros [? _]].
  - intros x. rewrite Hu. case_decide; [done | auto].
  - intros x [? | Hx]%elem_of_app; [auto |]. apply Htk. by apply Hsel, (Hmem h q) in Hx as [? _].
  - intros t Ht. rewrite Hu, elem_of_app. case_decide; [auto |]. destruct (Has t Ht); auto.
Qed.

(** One waiter leaves its bucket. *)
Lemma finv_drop f s fl h l1 p l2 : finv f s fl -> table f !! h = Some (l1 ++ p :: l2) ->
  finv (Futex (<[h := l1 ++ l2]> (table f)) (<[p := 0]> (faddr f))) s (fl ++ [p]).
Proof.
  intros HI Hq. pose proof (fi_nodup _ _ _ HI _ _ Hq) as Hnd.
  assert (Hp : p ∉ l1 ++ l2 /\ NoDup (l1 ++ l2)).
  { rewrite <- Permutation_middle in Hnd. by apply NoDup_cons in Hnd. }
  assert (Hl : leaving_out [p] (l1 ++ p :: l2) = l1 ++ l2).
  { unfold leaving_out. rewrite filter_app, filter_cons, decide_False by (intros Hn; apply Hn; left).
    rewrite <- filter_app. change (leaving_out [p] (l1 ++ l2) = l1 ++ l2).
    by rewrite leaving_out_fresh, leaving_out_nil by apply Hp. }
  rewrite <- Hl. change (<[p := 0]> (faddr f)) with (moved_to 0 [p] (faddr f)).
  apply finv_take; [done | done |]. intros x ->%list_elem_of_singleton. apply elem_of_app. right. left.
Qed.

(** One waiter moves to the end of the bucket of another address. *)
Lemma finv_requeue f s fl h l1 p l2 uaddr q2 : finv f s fl -> table f !! h = Some (l1 ++ p :: l2) -> uaddr <> 0 ->
  <[h := l1 ++ l2]> (table f) !! Z.to_nat (bucket_of 0 uaddr) = Some q2 ->
  finv (Futex (<[Z.to_nat (bucket_of 0 uaddr) := q2 ++ [p]]> (<[h := l1 ++ l2]> (table f)))
         (<[p := uaddr]> (faddr f))) s fl.
Proof.
  intros HI Hq Hu Hq2. pose proof (finv_drop f s fl h l1 p l2 HI Hq) as HI1.
  destruct (proj1 (fi_mem _ _ _ HI h _ p Hq)) as [Hp _]; [apply elem_of_app; right; left |].
  destruct (fi_task _ _ _ HI p Hp) as [Hr Hex].
  pose proof (finv_join _ _ _ p uaddr q2 HI1 Hex Hr) as HI2. cbn [table faddr] in HI2.
  rewrite insert_insert_eq in HI2. specialize (HI2 ltac:(unfold futex_uaddr; cbn; by rewrite lookup_insert_eq) Hu Hq2).
  apply (finv_sched _ _ _ _ _ HI2); [apply HI | done | intros; apply elem_of_app; by left |].
  intros t Ht. destruct (decide (t = p)) as [-> | Hne].
  - left. unfold futex_uaddr. cbn. by rewrite lookup_insert_eq.
  - right. split; [done |]. by intros [? | ?%list_elem_of_singleton]%elem_of_app.
Qed.

Lemma NoDup_length_le (l : list Z) n : 0 <= n -> NoDup l -> (forall x, x ∈ l -> 0 <= x < n) -> Z.of_nat (length l) <= n.
Proof.
  intros Hn Hnd Hl. assert (Hsub : l ⊆+ seqZ 0 n).
  { apply NoDup_submseteq; [done |]. intros x Hx. apply elem_of_seqZ. specialize (Hl x Hx). lia. }
  apply submseteq_length in Hsub. rewrite length_seqZ in Hsub. lia.
Qed.

Lemma finv_length f s fl h q : finv f s fl -> table f !! h = Some q -> Z.of_nat (length q) <= MAX_PROC.
Proof.
  intros HI Hq. apply NoDup_length_le; [done | by apply (fi_nodup _ _ _ HI h) |].
  intros x Hx. apply (fi_task _ _ _ HI). by apply (fi_mem _ _ _ HI h q x Hq).
Qed.

Section move.
Context (s : sched) (fl : list Z) (uaddr1 uaddr2 nr_wake nr_requeue bw h1 h2 : Z).
Hypothesis Hh1 : h1 = bucket_of 0 uaddr1.
Hypothesis Hh2 : h2 = bucket_of 0 uaddr2.
Hypothesis Hu2 : uaddr2 <> 0.
Hypothesis Hnr : nr_requeue < 2 ^ 31.

(** During the walk the first bucket is what has been passed over and what is
    still to come. *)
Definition mid_walk (w : walk) (f : futex) : futex :=
  Futex (<[Z.to_nat h1 := kept w ++ todo w]> (table f)) (faddr f).

Definition move_inv (rank : Z) (w : walk) (y : fsys) : Prop :=
  y.2 = s /\ finv (mid_walk w y.1) s (fl ++ to_wake w) /\ 0 <= requeued w /\
  rank = Z.of_nat (length (todo w)) + 2 * Z.max 0 (nr_requeue - requeued w).

Lemma move_pass f K p next wk r tw :
  mid_walk (Walk (K ++ [p]) next wk r tw) f = mid_walk (Walk K (p :: next) wk r tw) f.
Proof. unfold mid_walk. cbn. by rewrite <- app_assoc. Qed.

(** A waiter moves to the end of the second bucket. *)
Lemma move_far f K p next wk r tw q2 : h1 <> h2 -> arr_get (table f) h2 = Some q2 ->
  finv (mid_walk (Walk K (p :: next) wk r tw) f) s (fl ++ tw) ->
  finv (mid_walk (Walk K next wk (r + 1) tw)
    (Futex (<[Z.to_nat h2 := q2 ++ [p]]> (table f)) (<[p := uaddr2]> (faddr f)))) s (fl ++ tw).
Proof.
  intros Hne Hq2%arr_get_lookup HI. pose proof (bucket_of_range 0 uaddr1). pose proof (bucket_of_range 0 uaddr2).
  pose proof (fi_size _ _ _ HI) as Hsz. cbn in Hsz. rewrite length_insert in Hsz.
  pose proof (finv_requeue _ s _ (Z.to_nat h1) K p next uaddr2 q2 HI) as HI'. cbn in HI'. rewrite <- Hh2 in HI'.
  rewrite list_insert_insert_eq, list_lookup_insert_eq, list_lookup_insert_ne in HI' by lia.
  unfold mid_walk. cbn. rewrite list_insert_insert_ne by lia. by apply HI'.
Qed.

Lemma move_near f K p next wk r tw T : h1 = h2 ->
  finv (mid_walk (Walk K (p :: next) wk r tw) f) s (fl ++ tw) ->
  T = <[Z.to_nat h1 := (K ++ next) ++ [p]]> (table f) ->
  finv (Futex T (<[p := uaddr2]> (faddr f))) s (fl ++ tw).
Proof.
  intros He HI ->. pose proof (bucket_of_range 0 uaddr1). pose proof (bucket_of_range 0 uaddr2).
  pose proof (fi_size _ _ _ HI) as Hsz. cbn in Hsz. rewrite length_insert in Hsz.
  pose proof (finv_requeue _ s _ (Z.to_nat h1) K p next uaddr2 (K ++ next) HI) as HI'. cbn in HI'.
  rewrite <- Hh2, <- He in HI'. rewrite !list_insert_insert_eq, !list_lookup_insert_eq in HI' by lia.
  by apply HI'.
Qed.

Lemma move_wake f K p next wk r tw :
  finv (mid_walk (Walk K (p :: next) wk r tw) f) s (fl ++ tw) ->
  finv (mid_walk (Walk K next (wk + 1) r (tw ++ [p])) (Futex (table f) (<[p := 0]> (faddr f)))) s (fl ++ tw ++ [p]).
Proof.
  intros HI. pose proof (bucket_of_range 0 uaddr1). pose proof (fi_size _ _ _ HI) as Hsz. cbn in Hsz.
  rewrite length_insert in Hsz. pose proof (finv_drop _ s _ (Z.to_nat h1) K p next HI) as HI'. cbn in HI'.
  rewrite list_insert_insert_eq, list_lookup_insert_eq, <- app_assoc in HI' by lia. by apply HI'.
Qed.

Lemma move_step w y rank : move_inv rank w y ->
  wp (requeue_walk_step h1 h2 uaddr1 uaddr2 nr_wake nr_requeue bw w) y (fun r y' =>
    match r with
    | inl w' => exists rank', move_inv rank' w' y' /\ 0 <= rank' < rank
    | inr w' => y'.2 = s /\ finv (mid_walk w' y'.1) s (fl ++ to_wake w')
    end).
Proof.
  destruct w as [K td wk r tw], y as [f s0]. intros (Hs & HI & Hr & Hrank). cbn in Hs, Hr, Hrank. subst s0.
  cbn [fst to_wake] in HI. unfold requeue_walk_step. cbn [todo]. destruct td as [| p next]; [by apply wp_ret |].
  cbn [woken requeued to_wake kept]. destruct ((nr_wake <=? wk) && (nr_requeue <=? r)); [by apply wp_ret |].
  assert (Hpass : exists rank', move_inv rank' (Walk (K ++ [p]) next wk r tw) (f, s) /\ 0 <= rank' < rank).
  { exists (rank - 1). cbn [length] in Hrank. split; [| lia]. split_and!; [done | | done | cbn; lia].
    cbn [fst to_wake]. by rewrite move_pass. }
  seq. eapply wp_val; [done |]. cbn [fst]. destruct (futex_uaddr f p =? uaddr1); cbn [negb]; [| by apply wp_ret].
  destruct ((wk <? nr_wake) && (Z.of_nat (length tw) <? bw)).
  { seq. eapply wp_val; [done |]. apply wp_ret. exists (rank - 1). cbn [length] in Hrank. split; [| lia].
    split_and!; [done | | done | cbn; lia]. cbn [fst to_wake]. by apply move_wake. }
  destruct (Z.ltb_spec r nr_requeue) as [Hlt | Hge]; [| by apply wp_ret].
  seq. eapply wp_val; [done |]. cbn [fst snd]. destruct (Z.eqb_spec h1 h2) as [He | Hne].
  - apply wp_ret. cbn [length] in Hrank. case_bool_decide as Hnx.
    + subst next. exists (rank - 3). split; [| cbn in *; lia]. split_and!; [done | | cbn; lia | cbn in *; lia].
      eapply move_near; [done | done |]. cbn. by rewrite !app_nil_r.
    + exists (rank - 2). split; [| lia]. split_and!; [done | | cbn; lia | cbn; rewrite length_app; cbn; lia].
      eapply move_near; [done | done |]. cbn. by rewrite <- app_assoc.
  - pose proof (bucket_of_range 0 uaddr2) as Hb. pose proof (fi_size _ _ _ HI) as Hsz. cbn in Hsz. rewrite length_insert in Hsz.
    destruct (arr_get_Some (table f) h2) as [q2 Hq2]; [lia |].
    seq. eapply wp_val; [unfold get_bucket; cbn [fst table]; by rewrite Hq2 |].
    seq. eapply wp_val; [unfold set_bucket; cbn [fst table]; by rewrite arr_set_Some by lia |].
    apply wp_ret. exists (rank - 3). cbn [length] in Hrank. split; [| lia].
    split_and!; [done | | cbn; lia | cbn; lia]. cbn [fst to_wake faddr]. by apply (move_far _ _ _ _ wk r).
Qed.

Lemma requeue_collect_ok f c : finv f s fl -> 0 <= c.2 ->
  wp (requeue_collect h1 h2 uaddr1 uaddr2 nr_wake nr_requeue c bw) (f, s)
    (fun w y => y.2 = s /\ finv y.1 s (fl ++ to_wake w)).
Proof.
  intros HI Hc. pose proof (bucket_of_range 0 uaddr1) as Hb. pose proof (fi_size _ _ _ HI) as Hsz.
  destruct (arr_get_Some (table f) h1) as [q Hq]; [lia |]. pose proof (arr_get_lookup _ _ _ Hq) as Hq'.
  pose proof (finv_length f s fl _ _ HI Hq') as Hlen. unfold MAX_PROC in Hlen.
  unfold requeue_collect. seq. eapply wp_val; [unfold get_bucket; cbn [fst]; by rewrite Hq |].
  seq. eapply wp_mono; [eapply (wp_ploop move_inv _ _ 34); [exact (fun r w y => move_step w y r) | |] |].
  - split_and!; [done | | done | done]. unfold mid_walk. cbn. rewrite list_insert_id by done.
    rewrite app_nil_r. by destruct f.
  - cbn. lia.
  - cbn. intros w y [Hs HIw]. pose proof (fi_size _ _ _ HIw) as Hsz'. cbn in Hsz'. rewrite length_insert in Hsz'.
    seq. eapply wp_val; [unfold set_bucket; by rewrite arr_set_Some by lia |]. apply wp_ret. done.
Qed.
End move.

Lemma wake_collect_ok f s fl cr3 uaddr batch : finv f s fl -> page_aligned cr3 -> 0 <= batch ->
  wp (wake_collect (bucket_of cr3 uaddr) uaddr batch) (f, s) (fun taken y => y.2 = s /\ finv y.1 s (fl ++ taken)).
Proof.
  intros HI Ha Hb. pose proof (bucket_of_range cr3 uaddr) as Hr. pose proof (fi_size _ _ _ HI) as Hsz.
  destruct (arr_get_Some (table f) (bucket_of cr3 uaddr)) as [q Hq]; [lia |].
  pose proof (arr_get_lookup _ _ _ Hq) as Hq'. pose proof (fi_nodup _ _ _ HI _ _ Hq') as Hnd.
  pose proof (wake_collect_eq f (bucket_of cr3 uaddr) uaddr q ltac:(lia) Hnd 0 batch s Hb) as He.
  rewrite taken_upto_0 in He by (done || lia). eapply wp_val; [exact He |]. split; [done |]. cbn [fst].
  apply (finv_take _ _ _ _ q); [done | done |].
  intros x (i & Hi & _)%elem_of_take. by apply list_elem_of_lookup_2, list_elem_of_filter in Hi as [_ ?].
Qed.

Lemma inflight_ok f s fl i p : finv f s fl -> fl !! i = Some p ->
  wp (wake_with_event p WAIT_FUTEX) s (fun _ s' => finv f s' (delete i fl)).
Proof.
  intros HI Hi. pose proof (list_elem_of_lookup_2 _ _ _ Hi) as Hp.
  destruct (wake_event_law p s (fi_sched _ _ _ HI) (fi_flight _ _ _ HI p Hp)) as ([] & s' & He & (HI' & Hex & _) & Hpa).
  pose proof (keeps_wake _ _ _ _ _ He) as Hk. exists (), s'. split; [done |].
  pose proof (delete_Permutation _ _ _ Hi) as Hd. apply (finv_sched _ _ _ _ _ HI); [done | done | |].
  - intros t Ht. rewrite Hd. by right.
  - intros t Ht. right. assert (Hne : t <> p) by (by intros ->). split; [unfold futex_asleep in *; by rewrite <- Hk |].
    intros Hin. rewrite Hd in Hin. by apply elem_of_cons in Hin as [? | ?].
Qed.

(** Every operation that is allowed succeeds and keeps the invariant. *)
Lemma fexec_ok o f s fl : finv f s fl -> fallowed o (f, s, fl) -> fproper o (f, s, fl) ->
  exists f' s' fl', fexec o (f, s, fl) = Some (f', s', fl') /\ finv f' s' fl'.
Proof.
  intros HI Ha Hpr. destruct o as [mem cr3 t uaddr val timeout sig now | h t ht sig | cr3 uaddr batch |
    cr3 u1 u2 nw nr c | cpu i | s1]; cbn [fexec fst snd].
  - destruct (futex_wait_begin_ok f s fl mem cr3 t uaddr val timeout sig now HI Ha) as (r & [f' s'] & -> & _ & HI' & _).
    by exists f', s', fl.
  - destruct (task_running_awake t s (fi_sched _ _ _ HI) Ha) as [Haw [k Hk]].
    destruct (futex_unqueue_ok f s fl t HI Haw) as ([] & [f' s'] & He & Hs & HI'). cbn in Hs, HI'. subst s'.
    exists f', s, fl. split; [| done]. unfold futex_wait_end, mbind, prog_bind, on_sched, get_task. cbn [snd].
    rewrite Hk. cbn [mbind option_bind fst snd]. by rewrite He.
  - destruct Ha as [Hal Hb]. destruct (wake_collect_ok f s fl cr3 uaddr batch HI Hal Hb) as (l & [f' s'] & -> & Hs & HI').
    cbn in Hs, HI'. subst s'. by exists f', s, (fl ++ l).
  - destruct Ha as (Hal & Hn & Hc). cbn in Hpr.
    destruct (requeue_collect_ok s fl u1 u2 nw nr (Z.min (nw - c.1) FUTEX_WAKE_BATCH) (bucket_of cr3 u1) (bucket_of cr3 u2)
      (bucket_of_aligned _ _ Hal) (bucket_of_aligned _ _ Hal) Hpr Hn f c HI Hc) as (w & [f' s'] & -> & Hs & HI').
    cbn in Hs, HI'. subst s'. by exists f', s, (fl ++ to_wake w).
  - cbn in Ha. apply lookup_lt_is_Some_2 in Ha as [p Hp]. rewrite Hp. cbn [mbind option_bind].
    destruct (inflight_ok f s fl i p HI Hp) as ([] & s' & He & HI'). unfold on_sched. cbn [snd]. rewrite He. cbn.
    by exists f, s', (delete i fl).
  - destruct Ha as (HI' & Hex & Hsl). exists f, s1, fl. split; [done |].
    apply (finv_sched _ _ _ _ _ HI); try done. intros t Ht. right. auto.
Qed.

Lemma freach_inv x : freach x -> finv x.1.1 x.1.2 x.2.
Proof.
  induction 1 as [s HI Hno | o [[f s] fl] x' _ IH Ha Hp He]; [by apply finv_init |].
  destruct (fexec_ok o f s fl IH Ha Hp) as (f' & s' & fl' & He' & HI'). pose proof (eq_trans (eq_sym He) He') as Hx.
  by injection Hx as ->.
Qed.

(** C7. No wake-up is lost: in every state that the critical sections of
    waits, wakes, requeues and returns can reach in any interleaving, leaving
    out the cases that [fproper] names (a waiter moved to address 0; a waiter
    that leaves the queue by itself after it has been moved to another bucket,
    whose lock it does not take; a waiter that changes its CPU while the waker
    takes the lock of that CPU), a task that sleeps on a futex is
    already being woken, or a WAKE on the address it waits on finds it; if
    the count allows for all waiters, the WAKE returns and the task no longer
    sleeps.  Every critical section succeeds in all these states; the loop of
    REQUEUE around its critical sections need not end. *)
Theorem futex_no_lost_wakeup f s fl : freach (f, s, fl) ->
  (forall o, fallowed o (f, s, fl) -> fproper o (f, s, fl) -> exists x, fexec o (f, s, fl) = Some x /\ freach x) /\
  (forall t cr3 val, futex_asleep t s -> t ∉ fl -> page_aligned cr3 -> MAX_PROC <= s32 val ->
     exists n f' s', futex_wake cr3 (futex_uaddr f t) val (f, s) = Some (n, (f', s')) /\
       1 <= n /\ ~ futex_asleep t s' /\ futex_uaddr f' t = 0).
Proof.
  intros Hr. pose proof (freach_inv _ Hr) as HI. cbn in HI. split.
  - intros o Ha Hp. destruct (fexec_ok o f s fl HI Ha Hp) as (f' & s' & fl' & He & _). exists (f', s', fl').
    split; [done | by eapply freach_step].
  - intros t cr3 val Ht Hfl Hal Hval. destruct (fi_asleep _ _ _ HI t Ht) as [Hu |]; [| done].
    set (u := futex_uaddr f t) in *. pose proof (bucket_of_range cr3 u) as Hb. pose proof (fi_size _ _ _ HI) as Hsz.
    destruct (arr_get_Some (table f) (bucket_of cr3 u)) as [q Hq]; [lia |].
    pose proof (arr_get_lookup _ _ _ Hq) as Hq'. pose proof (fi_nodup _ _ _ HI _ _ Hq') as Hnd.
    destruct (futex_wake_spec f s cr3 u val q Hq Hnd (fi_sched _ _ _ HI)) as (s' & He & _ & _ & Hin & _).
    { intros p Hp. apply (fi_task _ _ _ HI). by apply (fi_mem _ _ _ HI _ _ p Hq'). }
    assert (Htq : t ∈ matching f u q).
    { apply list_elem_of_filter. split; [done |]. apply (fi_mem _ _ _ HI _ _ t Hq'). fold u.
      split; [done |]. rewrite (bucket_of_aligned cr3) in * by done. lia. }
    assert (Hall : take (Z.to_nat (s32 val)) (matching f u q) = matching f u q).
    { apply take_ge. pose proof (finv_length f s fl _ _ HI Hq'). unfold matching.
      pose proof (length_filter (fun p => futex_uaddr f p = u) q). lia. }
    rewrite Hall in *. do 3 eexists. split; [exact He |]. split_and!.
    + destruct (matching f u q); [by apply elem_of_nil in Htq |]. cbn. lia.
    + by apply Hin.
    + by rewrite moved_to_uaddr, decide_True.
Qed.

(** C24. FUTEX_WAIT sleeps exactly when the word has the expected value, the
    timeout is readable and valid and no signal is pending; the caller is then
    at the end of the bucket of its address.  In all other cases it returns
    the error of the first check that fails, and the table and the other tasks
    are as they were. *)
Theorem futex_wait_correct f s fl mem cr3 t uaddr val timeout sig now :
  freach (f, s, fl) -> fallowed (OWait mem cr3 t uaddr val timeout sig now) (f, s, fl) ->
  exists f' s', futex_wait_begin mem cr3 t uaddr val timeout sig now (f, s) =
      Some (wait_result mem uaddr val timeout sig, (f', s')) /\
    wait_post f s fl cr3 t uaddr (wait_result mem uaddr val timeout sig) (f', s').
Proof.
  intros Hr%freach_inv Ha.
  destruct (futex_wait_begin_ok f s fl mem cr3 t uaddr val timeout sig now Hr Ha) as (r & [f' s'] & He & -> & Hp). eauto.
Qed.

(** ** A concrete system: thread 2 waits on the futex at [0x401000] *)

Definition demo_mem (a : Z) : option Z := if a =? 0x401000 then Some 7 else None.
Definition demo_uaddr : Z := 0x401000.
Definition demo_cr3 : Z := 0x5000.

Definition demo_op : fop := OWait demo_mem demo_cr3 2 demo_uaddr 7 (Timespec 1 0) false 1000.

Definition demo_asleep : futex * sched :=
  Eval vm_compute in match fexec demo_op (futex_init, demo_running, []) with Some x => x.1 | None => (futex_init, sched_init) end.

Lemma demo_futex_init : freach (futex_init, demo_running, []).
Proof.
  apply freach_init; [exact demo_running_ok |]. intros t.
  assert (Hm : map_Forall (fun _ k => wait_event k <> WAIT_FUTEX) (tasks demo_running)).
  { apply (bool_decide_eq_true_1 (map_Forall _ _)). vm_compute. reflexivity. }
  unfold futex_asleep, sleep_of. intros (k & Hk & [= _ He])%fmap_Some_1. by apply (Hm t k Hk).
Qed.

Lemma demo_op_allowed : fallowed demo_op (futex_init, demo_running, []).
Proof. split_and!; [reflexivity | exact demo_task_running | done | done | reflexivity | done | lia | done]. Qed.

Lemma demo_futex_asleep : freach (demo_asleep.1, demo_asleep.2, []).
Proof.
  apply (freach_step demo_op (futex_init, demo_running, [])); [exact demo_futex_init | exact demo_op_allowed | exact I |].
  vm_compute. reflexivity.
Qed.

Lemma demo_bucket : arr_get (table demo_asleep.1) (bucket_of demo_cr3 demo_uaddr) = Some [2].
Proof. vm_compute. reflexivity. Qed.

Lemma futex_wake_correct_witness :
  exists s', futex_wake demo_cr3 demo_uaddr 1 demo_asleep =
    Some (1, (Futex (<[Z.to_nat (bucket_of demo_cr3 demo_uaddr) := []]> (table demo_asleep.1)) (<[2 := 0]> (faddr demo_asleep.1)), s')) /\
    ~ futex_asleep 2 s'.
Proof.
  destruct (futex_wake_correct demo_asleep.1 demo_asleep.2 demo_cr3 demo_uaddr 1 [2] demo_bucket) as (s' & He & _ & _ & Hin & _).
  - apply NoDup_singleton.
  - exact (fi_sched _ _ _ (freach_inv _ demo_futex_asleep)).
  - intros p ->%list_elem_of_singleton. eexists. vm_compute. reflexivity.
  - exists s'. split; [exact He |]. apply Hin. vm_compute. left.
Defined.

Lemma futex_wake_any_process_witness :
  futex_wake 0x5000 demo_uaddr 1 demo_asleep = futex_wake 0x9000 demo_uaddr 1 demo_asleep.
Proof. apply (futex_wake_any_process 0x5000 0x9000 demo_uaddr 1 demo_asleep); reflexivity. Defined.

Lemma futex_requeue_moves_witness :
  futex_requeue 1 demo_mem demo_cr3 demo_uaddr 0x402000 0 1 0 (demo_asleep.1, demo_asleep.2) =
    Some (1, (after_move demo_cr3 demo_uaddr 0x402000 demo_asleep.1 [2] [2], demo_asleep.2)).
Proof.
  apply (futex_requeue_moves demo_asleep.1 demo_asleep.2 demo_mem demo_cr3 demo_uaddr 0x402000 1 [2]).
  - reflexivity.
  - exact demo_bucket.
  - apply NoDup_singleton.
  - vm_compute. discriminate.
  - discriminate.
  - reflexivity.
  - right. vm_compute. reflexivity.
Defined.

Lemma futex_requeue_diverges_witness :
  futex_requeue 20 demo_mem demo_cr3 demo_uaddr 0x402000 0 2 0 (demo_asleep.1, demo_asleep.2) = None.
Proof.
  apply (futex_requeue_diverges demo_asleep.1 demo_asleep.2 demo_mem demo_cr3 demo_uaddr 0x402000 2 [2]).
  - reflexivity.
  - exact demo_bucket.
  - apply NoDup_singleton.
  - vm_compute. discriminate.
  - discriminate.
  - reflexivity.
  - vm_compute. split; reflexivity.
Defined.

Lemma futex_no_lost_wakeup_witness :
  futex_asleep 2 demo_asleep.2 /\
  exists n f' s', futex_wake demo_cr3 (futex_uaddr demo_asleep.1 2) 5000 (demo_asleep.1, demo_asleep.2) = Some (n, (f', s')) /\
    1 <= n /\ ~ futex_asleep 2 s' /\ futex_uaddr f' 2 = 0.
Proof.
  assert (H2 : futex_asleep 2 demo_asleep.2) by (vm_compute; reflexivity). split; [exact H2 |].
  destruct (futex_no_lost_wakeup demo_asleep.1 demo_asleep.2 [] demo_futex_asleep) as [_ Hw].
  apply Hw; [exact H2 | apply not_elem_of_nil | reflexivity | vm_compute; discriminate].
Defined.

Lemma futex_wait_correct_witness :
  exists f' s', futex_wait_begin demo_mem demo_cr3 2 demo_uaddr 7 (Timespec 1 0) false 1000 (futex_init, demo_running) =
    Some (None, (f', s')) /\ futex_asleep 2 s' /\ futex_uaddr f' 2 = demo_uaddr.
Proof.
  destruct (futex_wait_correct futex_init demo_running [] demo_mem demo_cr3 2 demo_uaddr 7 (Timespec 1 0) false 1000
    demo_futex_init demo_op_allowed) as (f' & s' & He & _ & _ & Hs & Hu & _).
  exists f', s'. split; [exact He |]. split; [exact Hs | exact Hu].
Defined.
