(* ===== verification/Block.v ===== *)
(** * Block devices and partitions (kernel/driver/blk_dev.c)

    The range checks, the splitting of a transfer into commands, the
    translation of partition sectors and the scan of the partition table.
    What the disk controller does with a command is an argument: [faults] is
    what happens to the next commands, [None] for one that completes and
    [Some n] for one that fails after [n] sectors; when the list is used up
    all commands complete. *)
From S2P Require Import Prelude.

Definition BLOCK_MAX_PARTITIONS : nat := 4.

Record block_partition := BlockPartition {
  start_sector : Z;
  sector_count : Z;
  mbr_type : Z;
  part_index : Z;
}.

Record block_device := BlockDevice {
  sectors : Z;
  logical_sector_size : Z;
  max_sectors_per_io : Z;
  partitions : list (option block_partition);
  partition_count : Z;
  partitions_scanned : bool;
  partition_scan_result : Z;
  media : gmap Z (list Z);
  faults : list (option nat);
}.

Definition set_media m d := BlockDevice (sectors d) (logical_sector_size d) (max_sectors_per_io d) (partitions d)
  (partition_count d) (partitions_scanned d) (partition_scan_result d) m (faults d).
Definition set_faults fs d := BlockDevice (sectors d) (logical_sector_size d) (max_sectors_per_io d) (partitions d)
  (partition_count d) (partitions_scanned d) (partition_scan_result d) (media d) fs.
Definition set_scan ps n rc d := BlockDevice (sectors d) (logical_sector_size d) (max_sectors_per_io d) ps
  n true rc (media d) (faults d).

(** A sector never written reads as zeros. *)
Definition get_sector (d : block_device) (i : Z) : list Z :=
  default (replicate (Z.to_nat (logical_sector_size d)) 0) (media d !! i).

Fixpoint read_range (d : block_device) (i : Z) (n : nat) : list (list Z) :=
  match n with
  | O => []
  | S n' => get_sector d i :: read_range d (i + 1) n'
  end.

Fixpoint put_sectors (m : gmap Z (list Z)) (i : Z) (l : list (list Z)) : gmap Z (list Z) :=
  match l with
  | [] => m
  | x :: l' => put_sectors (<[i := x]> m) (i + 1) l'
  end.

(** ** Commands *)

Definition ahci_range_bad (sec count : Z) : bool := (UINT32_MAX <? sec) || (UINT32_MAX - sec <? count - 1).

Definition ahci_block_read (sec count : Z) : prog block_device (Z + list (list Z)) := fun d =>
  if ahci_range_bad sec count then Some (inl (- EINVAL), d)
  else match faults d with
  | Some _ :: fs => Some (inl (- EIO), set_faults fs d)
  | _ => Some (inr (read_range d sec (Z.to_nat count)), set_faults (tail (faults d)) d)
  end.

Definition ahci_block_write (sec : Z) (data : list (list Z)) : prog block_device Z := fun d =>
  if ahci_range_bad sec (Z.of_nat (length data)) then Some (- EINVAL, d)
  else match faults d with
  | Some n :: fs => Some (- EIO, set_faults fs (set_media (put_sectors (media d) sec (take n data)) d))
  | _ => Some (0, set_faults (tail (faults d)) (set_media (put_sectors (media d) sec data) d))
  end.

(** ** Transfers *)

Definition is_power_of_two (value : Z) : bool := negb (value =? 0) && (Z.land value (u32 (value - 1)) =? 0).

Definition block_validate_range (d : block_device) (sec count : Z) : Z :=
  if (count =? 0) || (sectors d =? 0) || negb (is_power_of_two (logical_sector_size d)) || (max_sectors_per_io d =? 0)
  then - EINVAL
  else if (sectors d <=? sec) || (sectors d - sec <? count) then - EINVAL
  else 0.

Definition io_chunk (d : block_device) (remaining : Z) : Z :=
  if max_sectors_per_io d <? remaining then max_sectors_per_io d else remaining.

Definition block_read (sec count : Z) : prog block_device (Z + list (list Z)) := fun d =>
  let rc := block_validate_range d sec count in
  if negb (rc =? 0) then Some (inl rc, d)
  else ploop 32 (fun '(sec, remaining, acc) =>
    if remaining =? 0 then mret (inr (inr acc))
    else
      d ← (fun d => Some (d, d));
      let chunk := io_chunk d remaining in
      r ← ahci_block_read sec chunk;
      mret (match r with
            | inl rc => inr (inl rc)
            | inr l => inl (sec + chunk, remaining - chunk, acc ++ l)
            end)) (sec, count, []) d.

Definition block_write (sec : Z) (data : list (list Z)) : prog block_device Z := fun d =>
  let count := Z.of_nat (length data) in
  let rc := block_validate_range d sec count in
  if negb (rc =? 0) then Some (rc, d)
  else ploop 32 (fun '(sec, remaining, cursor) =>
    if remaining =? 0 then mret (inr 0)
    else
      d ← (fun d => Some (d, d));
      let chunk := io_chunk d remaining in
      rc ← ahci_block_write sec (take (Z.to_nat chunk) cursor);
      mret (if negb (rc =? 0) then inr rc
            else inl (sec + chunk, remaining - chunk, drop (Z.to_nat chunk) cursor))) (sec, count, data) d.

(** ** Partitions *)

Definition partition_translate (part : block_partition) (sec count : Z) : Z + Z :=
  if (count =? 0) || (sector_count part <=? sec) || (sector_count part - sec <? count) then inl (- EINVAL)
  else if UINT64_MAX - sec <? start_sector part then inl (- EINVAL)
  else inr (start_sector part + sec).

Definition partition_read (part : block_partition) (sec count : Z) : prog block_device (Z + list (list Z)) :=
  match partition_translate part sec count with
  | inl rc => mret (inl rc)
  | inr absolute => block_read absolute count
  end.

Definition partition_write (part : block_partition) (sec : Z) (data : list (list Z)) : prog block_device Z :=
  match partition_translate part sec (Z.of_nat (length data)) with
  | inl rc => mret rc
  | inr absolute => block_write absolute data
  end.

Definition byte_at (s : list Z) (i : Z) : Z := default 0 (s !! Z.to_nat i).
Definition get_le32 (s : list Z) (i : Z) : Z :=
  le32 (byte_at s i) (byte_at s (i + 1)) (byte_at s (i + 2)) (byte_at s (i + 3)).

Definition unsupported_partition_type (type : Z) : bool :=
  (type =? 0x05) || (type =? 0x0f) || (type =? 0x85) || (type =? 0xee).

Definition overlaps_parsed (start fin : Z) (o : option block_partition) : bool :=
  match o with
  | None => false
  | Some q => (start <? start_sector q + sector_count q) && (start_sector q <? fin)
  end.

(** One entry of the table: an error, nothing, or a partition. *)
Definition parse_entry (d : block_device) (s : list Z) (parsed : list (option block_partition)) (i : Z)
    : Z + option block_partition :=
  let entry := 0x1be + i * 16 in
  let type := byte_at s (entry + 4) in
  let start := get_le32 s (entry + 8) in
  let count := get_le32 s (entry + 12) in
  if (type =? 0) && (start =? 0) && (count =? 0) then inr None
  else if (type =? 0) || (start =? 0) || (count =? 0) || unsupported_partition_type type
          || (sectors d <=? start) || (sectors d - start <? count) then inl (- EINVAL)
  else if existsb (overlaps_parsed start (start + count)) parsed then inl (- EINVAL)
  else inr (Some (BlockPartition start count type (i + 1))).

(** The entries [i], [i + 1], ... with those before them already parsed. *)
Fixpoint parse_entries (d : block_device) (s : list Z) (n : nat) (i : Z) (parsed : list (option block_partition))
    : Z + list (option block_partition) :=
  match n with
  | O => inr parsed
  | S n' =>
      match parse_entry d s parsed i with
      | inl rc => inl rc
      | inr o => parse_entries d s n' (i + 1) (parsed ++ [o])
      end
  end.

Definition scan_result (rc : Z) : prog block_device Z := fun d =>
  Some (rc, set_scan (partitions d) (partition_count d) rc d).

Definition block_scan_mbr : prog block_device Z := fun d =>
  if partitions_scanned d then Some (partition_scan_result d, d)
  else if (logical_sector_size d <? 512) || (4096 <? logical_sector_size d) then scan_result (- EINVAL) d
  else (r ← block_read 0 1;
    match r with
    | inl rc => scan_result rc
    | inr l =>
        let s := concat l in
        if negb (byte_at s 510 =? 0x55) || negb (byte_at s 511 =? 0xaa) then scan_result (- EINVAL)
        else match parse_entries d s BLOCK_MAX_PARTITIONS 0 [] with
        | inl rc => scan_result rc
        | inr parsed =>
            let found := Z.of_nat (length (filter is_Some parsed)) in
            if found =? 0 then scan_result (- EINVAL)
            else fun d' => Some (0, set_scan parsed found 0 d')
        end
    end) d.

Definition block_partition_get (d : block_device) (index : Z) : option block_partition :=
  if (index <? 1) || (Z.of_nat BLOCK_MAX_PARTITIONS <? index) then None
  else mjoin (partitions d !! Z.to_nat (index - 1)).

(** ** Ranges of sectors *)

Lemma length_read_range d n : forall i, length (read_range d i n) = n.
Proof. induction n as [| n IH]; intros i; cbn; [done | by rewrite IH]. Qed.

Lemma read_range_app d n m : forall i, read_range d i (n + m) = read_range d i n ++ read_range d (i + Z.of_nat n) m.
Proof.
  induction n as [| n IH]; intros i; cbn [read_range Nat.add app]; [by rewrite Z.add_0_r |].
  rewrite IH. do 2 f_equal. f_equal. lia.
Qed.

Lemma read_range_lookup d n : forall i k, (k < n)%nat -> read_range d i n !! k = Some (get_sector d (i + Z.of_nat k)).
Proof.
  induction n as [| n IH]; intros i k Hk; [lia |]. destruct k as [| k]; cbn; [by rewrite Z.add_0_r |].
  rewrite IH by lia. do 2 f_equal. lia.
Qed.

Lemma put_sectors_lookup l : forall m i k,
  put_sectors m i l !! k = if decide (i <= k < i + Z.of_nat (length l)) then l !! Z.to_nat (k - i) else m !! k.
Proof.
  induction l as [| x l IH]; intros m i k; cbn [put_sectors length]; [rewrite decide_False by lia; done |].
  rewrite IH. destruct (decide (k = i)) as [-> | Hne].
  - rewrite decide_False, lookup_insert_eq, decide_True by lia. by rewrite Z.sub_diag.
  - rewrite lookup_insert_ne by done. case_decide; [rewrite decide_True by lia | by rewrite decide_False by lia].
    replace (Z.to_nat (k - i)) with (S (Z.to_nat (k - (i + 1)))) by lia. done.
Qed.

Lemma put_sectors_app l l' : forall m i,
  put_sectors m i (l ++ l') = put_sectors (put_sectors m i l) (i + Z.of_nat (length l)) l'.
Proof.
  induction l as [| x l IH]; intros m i; cbn [put_sectors length app]; [by rewrite Z.add_0_r |].
  rewrite IH. f_equal. lia.
Qed.

Lemma get_sector_put d fs m i l k : m = put_sectors (media d) i l ->
  get_sector (set_faults fs (set_media m d)) k =
    if decide (i <= k < i + Z.of_nat (length l)) then default [] (l !! Z.to_nat (k - i)) else get_sector d k.
Proof.
  intros ->. unfold get_sector. cbn [set_faults set_media media logical_sector_size]. rewrite put_sectors_lookup. case_decide as Hk; [| done].
  destruct (lookup_lt_is_Some_2 l (Z.to_nat (k - i))) as [x Hx]; [lia |].
  rewrite Hx. done.
Qed.

Lemma read_range_faults d fs n : forall i, read_range (set_faults fs d) i n = read_range d i n.
Proof. induction n as [| n IH]; intros i; cbn; [done |]. by rewrite IH. Qed.

(** ** Transfers *)

(** The commands of the controller reach every sector of the range. *)
Definition range_ok (d : block_device) (sec count : Z) : Prop :=
  block_validate_range d sec count = 0 /\ 0 <= sec /\ is_u32 count /\ sec + count <= 2 ^ 32 /\ 0 <= max_sectors_per_io d.

Lemma range_ok_pos d sec count : range_ok d sec count -> 0 < count /\ 0 < max_sectors_per_io d.
Proof.
  intros (Hv & ? & Hu & ? & ?). unfold is_u32 in Hu. unfold block_validate_range in Hv.
  destruct (Z.eqb_spec count 0); [done |]. destruct (Z.eqb_spec (max_sectors_per_io d) 0); [| lia].
  rewrite !orb_true_r in Hv. done.
Qed.

Lemma ahci_range_good sec count : 0 <= sec -> 0 < count -> sec + count <= 2 ^ 32 -> ahci_range_bad sec count = false.
Proof.
  intros. unfold ahci_range_bad, UINT32_MAX. apply orb_false_iff. split; apply Z.ltb_ge; lia.
Qed.

Lemma io_chunk_bound d n : 0 < max_sectors_per_io d -> 0 < n -> 0 < io_chunk d n <= n.
Proof. intros. unfold io_chunk. destruct (Z.ltb_spec (max_sectors_per_io d) n); lia. Qed.

(** A read returns the contents of the range or an error; it fails only when
    the controller does. *)
Lemma block_read_spec d sec count : range_ok d sec count ->
  wp (block_read sec count) d (fun r d' => (exists fs, d' = set_faults fs d /\ (faults d = [] -> fs = [])) /\
    match r with
    | inl rc => rc <> 0 /\ faults d <> []
    | inr l => l = read_range d sec (Z.to_nat count)
    end).
Proof.
  intros Hok. pose proof (range_ok_pos _ _ _ Hok) as [Hc Hm]. destruct Hok as (Hv & Hs & [_ Hu] & Hr & _).
  unfold block_read, wp. rewrite Hv. cbn [Z.eqb negb].
  apply (wp_ploop (fun rank '(s0, rem, acc) d0 => rank = rem /\ (exists fs, d0 = set_faults fs d /\ (faults d = [] -> fs = [])) /\
    0 <= rem <= count /\ s0 = sec + (count - rem) /\ acc = read_range d sec (Z.to_nat (count - rem))) _ _ 32 count).
  - intros rank [[s0 rem] acc] d0 (-> & (fs & -> & Hfs) & Hrem & -> & ->).
    destruct (Z.eqb_spec rem 0) as [-> | Hne].
    + apply wp_ret. rewrite Z.sub_0_r. split; [by exists fs | done].
    + apply wp_bind. eapply wp_val; [done |].
      change (io_chunk (set_faults fs d) rem) with (io_chunk d rem).
      pose proof (io_chunk_bound d rem Hm ltac:(lia)) as Hch. set (chunk := io_chunk d rem) in *.
      apply wp_bind. unfold ahci_block_read at 1, wp. rewrite ahci_range_good by lia. cbn [faults set_faults].
      assert (Hgo : exists rank', (rank' = rem - chunk /\ (exists fs', set_faults (tail fs) d = set_faults fs' d /\ (faults d = [] -> fs' = [])) /\
          0 <= rem - chunk <= count /\ sec + (count - rem) + chunk = sec + (count - (rem - chunk)) /\
          read_range d sec (Z.to_nat (count - rem)) ++ read_range (set_faults fs d) (sec + (count - rem)) (Z.to_nat chunk) =
            read_range d sec (Z.to_nat (count - (rem - chunk)))) /\ 0 <= rank' < rem).
      { exists (rem - chunk). split; [| lia]. split_and!; [done | | lia | lia | lia |].
        - exists (tail fs). split; [done |]. intros Hf. by rewrite (Hfs Hf).
        - rewrite read_range_faults. replace (Z.to_nat (count - (rem - chunk))) with (Z.to_nat (count - rem) + Z.to_nat chunk)%nat by lia.
          rewrite read_range_app. do 2 f_equal. lia. }
      destruct fs as [| [n |] fs]; do 2 eexists; (split; [reflexivity |]); [apply wp_ret; exact Hgo | | apply wp_ret; exact Hgo].
      apply wp_ret. split; [| split; [done |]].
      * exists fs. split; [done |]. intros Hf. by rewrite Hf in Hfs; specialize (Hfs eq_refl).
      * intros Hf. specialize (Hfs Hf). done.
  - split_and!; try lia; [| by rewrite Z.sub_diag]. exists (faults d). split; [by destruct d | done].
  - lia.
Qed.

(** A write stores a prefix of the data, all of it if it returns 0, and fails
    only when the controller does. *)
Definition wrote (d : block_device) (sec : Z) (data : list (list Z)) (rc : Z) (d' : block_device) : Prop :=
  exists fs n, d' = set_faults fs (set_media (put_sectors (media d) sec (take n data)) d) /\
    (n <= length data)%nat /\ (rc = 0 -> n = length data) /\ (faults d = [] -> rc = 0 /\ fs = []).

Lemma write_chunk d sec data done chunk : (done + chunk <= length data)%nat ->
  forall n, put_sectors (put_sectors (media d) sec (take done data)) (sec + Z.of_nat done) (take n (take chunk (drop done data))) =
    put_sectors (media d) sec (take (done + Nat.min n chunk) data).
Proof.
  intros Hlen n. rewrite take_take. rewrite <- take_take_drop, put_sectors_app. f_equal.
  rewrite length_take. lia.
Qed.

(** The transfer has come to the sector [s0] and has [rem] to go. *)
Definition write_inv (d : block_device) (sec : Z) (data : list (list Z)) (rank : Z)
    (x : Z * Z * list (list Z)) (d0 : block_device) : Prop :=
  let '(s0, rem, cur) := x in
  let dn := Z.to_nat (Z.of_nat (length data) - rem) in
  rank = rem /\ 0 <= rem <= Z.of_nat (length data) /\ s0 = sec + Z.of_nat dn /\ cur = drop dn data /\
  exists fs, d0 = set_faults fs (set_media (put_sectors (media d) sec (take dn data)) d) /\ (faults d = [] -> fs = []).

Lemma write_inv_next d sec data rem chunk fs fs' :
  let dn := Z.to_nat (Z.of_nat (length data) - rem) in let ch := Z.to_nat chunk in
  0 <= rem <= Z.of_nat (length data) -> 0 < chunk <= rem -> (faults d = [] -> fs' = []) ->
  write_inv d sec data (rem - chunk) (sec + Z.of_nat dn + chunk, rem - chunk, drop ch (drop dn data))
    (set_faults fs' (set_media (put_sectors (put_sectors (media d) sec (take dn data)) (sec + Z.of_nat dn) (take ch (drop dn data)))
       (set_faults fs (set_media (put_sectors (media d) sec (take dn data)) d)))).
Proof.
  intros dn ch Hrem Hch Hfs. unfold write_inv.
  replace (Z.to_nat (Z.of_nat (length data) - (rem - chunk))) with (dn + ch)%nat by (unfold dn, ch; lia).
  split_and!; [done | lia | lia | unfold ch; lia | apply drop_drop |].
  exists fs'. split; [| done]. pose proof (write_chunk d sec data dn ch ltac:(unfold dn, ch; lia) ch) as Hput.
  rewrite take_take, !Nat.min_id in Hput. by rewrite Hput.
Qed.

Lemma block_write_spec d sec data : range_ok d sec (Z.of_nat (length data)) ->
  wp (block_write sec data) d (wrote d sec data).
Proof.
  intros Hok. pose proof (range_ok_pos _ _ _ Hok) as [Hc Hm]. destruct Hok as (Hv & Hs & [_ Hu] & Hr & _).
  unfold block_write, wp. rewrite Hv. cbn [Z.eqb negb].
  apply (wp_ploop (write_inv d sec data) _ _ 32 (Z.of_nat (length data))).
  - intros rank [[s0 rem] cur] d0 (-> & Hrem & -> & -> & fs & -> & Hfs).
    destruct (Z.eqb_spec rem 0) as [-> | Hne].
    + apply wp_ret. rewrite Z.sub_0_r, Nat2Z.id. exists fs, (length data). split_and!; auto.
    + apply wp_bind. eapply wp_val; [done |]. change (io_chunk (set_faults _ _) rem) with (io_chunk d rem).
      pose proof (io_chunk_bound d rem Hm ltac:(lia)) as Hch. set (chunk := io_chunk d rem) in *.
      pose proof (fun fs' => write_inv_next d sec data rem chunk fs fs' Hrem Hch) as Hgo. cbv zeta in Hgo.
      set (dn := Z.to_nat (Z.of_nat (length data) - rem)) in *. set (ch := Z.to_nat chunk) in *.
      assert (Hlen : (dn + ch <= length data)%nat) by (unfold dn, ch; lia).
      assert (Hl : length (take ch (drop dn data)) = ch) by (rewrite length_take, length_drop; lia).
      apply wp_bind. unfold ahci_block_write at 1, wp. rewrite ahci_range_good by (rewrite ?Hl; unfold ch, dn; lia).
      cbn [faults set_faults set_media media].
      destruct fs as [| [n |] fs]; do 2 eexists; (split; [reflexivity |]); cbn [Z.eqb negb]; apply wp_ret.
      * exists (rem - chunk). split; [by apply (Hgo []) | lia].
      * cbn. exists fs, (dn + Nat.min n ch)%nat. rewrite write_chunk by done. split_and!; [done | lia | done |].
        intros Hf. specialize (Hfs Hf). done.
      * exists (rem - chunk). split; [apply (Hgo fs); intros Hf; by specialize (Hfs Hf) | lia].
  - unfold write_inv. rewrite Z.sub_diag. split_and!; try done; [lia.. |]. exists (faults d). split; [by destruct d | done].
  - lia.
Qed.

(** ** Partitions *)

Definition device_ok (d : block_device) : Prop :=
  is_power_of_two (logical_sector_size d) = true /\ 0 < max_sectors_per_io d /\ 0 < sectors d <= 2 ^ 32.

Definition part_in (d : block_device) (p : block_partition) : Prop :=
  0 <= start_sector p /\ 0 <= sector_count p /\ start_sector p + sector_count p <= sectors d.

Lemma validate_ok d sec count : device_ok d -> 0 <= sec -> 0 < count -> sec + count <= sectors d ->
  block_validate_range d sec count = 0.
Proof.
  intros (Hp & Hm & Hs) H0 Hc Hr. unfold block_validate_range. rewrite Hp.
  rewrite !(proj2 (Z.eqb_neq _ _)) by lia. cbn [orb negb].
  rewrite (proj2 (Z.leb_gt _ _)), (proj2 (Z.ltb_ge _ _)) by lia. done.
Qed.

(** In range, a partition access is an access of the device; out of range it
    is refused. *)
Lemma partition_translate_spec d p sec count : device_ok d -> part_in d p -> 0 <= sec -> is_u32 count ->
  if decide (0 < count /\ sec + count <= sector_count p)
  then partition_translate p sec count = inr (start_sector p + sec) /\ range_ok d (start_sector p + sec) count
  else partition_translate p sec count = inl (- EINVAL).
Proof.
  intros Hd (Hs & Hc & Hr) Hsec [Hn Hu]. pose proof Hd as (_ & Hm & Hsz).
  unfold partition_translate. case_decide as Hin.
  - rewrite (proj2 (Z.eqb_neq _ _)), (proj2 (Z.leb_gt _ _)), (proj2 (Z.ltb_ge _ _)) by lia. cbn [orb].
    rewrite (proj2 (Z.ltb_ge _ _)) by (unfold UINT64_MAX; lia). split; [done |].
    split_and!; [apply validate_ok; try done; lia | lia | done | lia..].
  - destruct (Z.eqb_spec count 0); [done |]. destruct (Z.leb_spec (sector_count p) sec); [done |].
    by rewrite (proj2 (Z.ltb_lt _ _)) by lia.
Qed.

Lemma partition_read_spec d p sec count : device_ok d -> part_in d p -> 0 <= sec ->
  is_u32 count -> 0 < count -> sec + count <= sector_count p ->
  wp (partition_read p sec count) d (fun r d' => (exists fs, d' = set_faults fs d /\ (faults d = [] -> fs = [])) /\
    match r with
    | inl rc => rc <> 0 /\ faults d <> []
    | inr l => l = read_range d (start_sector p + sec) (Z.to_nat count)
    end).
Proof.
  intros Hd Hp Hs Hu Hc Hr. pose proof (partition_translate_spec d p sec count Hd Hp Hs Hu) as Ht.
  rewrite decide_True in Ht by done. destruct Ht as [Ht Hok]. unfold partition_read. rewrite Ht.
  by apply block_read_spec.
Qed.

Lemma partition_write_spec d p sec data : device_ok d -> part_in d p -> 0 <= sec -> is_u32 (Z.of_nat (length data)) ->
  wp (partition_write p sec data) d (fun rc d' =>
    if decide (0 < Z.of_nat (length data) /\ sec + Z.of_nat (length data) <= sector_count p)
    then wrote d (start_sector p + sec) data rc d' else rc = - EINVAL /\ d' = d).
Proof.
  intros Hd Hp Hs Hu. pose proof (partition_translate_spec d p sec _ Hd Hp Hs Hu) as Ht. unfold partition_write.
  case_decide as Hin.
  - destruct Ht as [-> Hok]. by apply block_write_spec.
  - rewrite Ht. by apply wp_ret.
Qed.

(** The sectors a write may change. *)
Lemma wrote_outside d sec data rc d' k : wrote d sec data rc d' -> ~ sec <= k < sec + Z.of_nat (length data) ->
  get_sector d' k = get_sector d k.
Proof.
  intros (fs & n & -> & Hn & _) Hk. rewrite (get_sector_put _ _ _ sec (take n data)) by done.
  rewrite decide_False; [done |]. rewrite length_take. lia.
Qed.

Lemma wrote_inside d sec data d' k : wrote d sec data 0 d' -> (k < length data)%nat ->
  data !! k = Some (get_sector d' (sec + Z.of_nat k)).
Proof.
  intros (fs & n & -> & Hn & Hall & _) Hk. rewrite (get_sector_put _ _ _ sec (take n data)) by done.
  rewrite Hall, take_ge by done. rewrite decide_True by lia. replace (Z.to_nat (sec + Z.of_nat k - sec)) with k by lia.
  by destruct (lookup_lt_is_Some_2 data k Hk) as [x ->].
Qed.

Lemma wrote_device d sec data rc d' : wrote d sec data rc d' -> device_ok d -> device_ok d'.
Proof. by intros (fs & n & -> & _). Qed.

Lemma wrote_part_in d sec data rc d' p : wrote d sec data rc d' -> part_in d p -> part_in d' p.
Proof. by intros (fs & n & -> & _). Qed.

(** ** The partition table *)

Definition disjoint_parts (p q : block_partition) : Prop :=
  start_sector p + sector_count p <= start_sector q \/ start_sector q + sector_count q <= start_sector p.

Definition parts_ok (d : block_device) (ps : list (option block_partition)) : Prop :=
  (forall i p, ps !! i = Some (Some p) -> part_in d p /\ 0 < start_sector p) /\
  (forall i j p q, i <> j -> ps !! i = Some (Some p) -> ps !! j = Some (Some q) -> disjoint_parts p q).

Lemma get_le32_nonneg s i : Forall is_byte s -> 0 <= get_le32 s i.
Proof.
  intros Hs. assert (Hb : forall j, is_byte (byte_at s j)).
  { intros j. unfold byte_at. destruct (s !! Z.to_nat j) eqn:Hj; [| done]. by apply (Forall_lookup_1 _ _ _ _ Hs Hj). }
  apply le32_range; apply Hb.
Qed.

Lemma parse_entry_ok d s parsed i o : Forall is_byte s -> parts_ok d parsed ->
  parse_entry d s parsed i = inr o -> parts_ok d (parsed ++ [o]).
Proof.
  intros Hs [Hin Hdj]. unfold parse_entry. set (start := get_le32 s (0x1be + i * 16 + 8)).
  set (count := get_le32 s (0x1be + i * 16 + 12)).
  pose proof (get_le32_nonneg s (0x1be + i * 16 + 8) Hs) as Hst. pose proof (get_le32_nonneg s (0x1be + i * 16 + 12) Hs) as Hct.
  fold start in Hst. fold count in Hct.
  assert (Hnew : forall o, (forall p, o = Some p -> part_in d p /\ 0 < start_sector p /\
    forall j q, parsed !! j = Some (Some q) -> disjoint_parts p q) -> parts_ok d (parsed ++ [o])).
  { intros o' Ho. split.
    - intros j p. rewrite lookup_snoc_Some. intros [[_ ?] | [_ ->]]; [eauto |]. destruct (Ho p eq_refl) as (? & ? & _). done.
    - intros j k p q Hne. rewrite !lookup_snoc_Some. intros [[_ Hj] | [-> ->]] [[_ Hk] | [-> Hq]]; [eauto | | | done].
      + destruct (Ho q Hq) as (_ & _ & Hd). destruct (Hd j p Hj); [by right | by left].
      + destruct (Ho p eq_refl) as (_ & _ & Hd). eauto. }
  destruct ((byte_at s _ =? 0) && (start =? 0) && (count =? 0)); [intros [= <-]; by apply Hnew |].
  destruct (Z.eqb_spec start 0); [by rewrite orb_true_r |]. destruct (Z.eqb_spec count 0); [by rewrite orb_true_r |].
  destruct (Z.leb_spec (sectors d) start); [by rewrite !orb_true_r |].
  destruct (Z.ltb_spec (sectors d - start) count); [by rewrite !orb_true_r |].
  case_match; [done |]. destruct (existsb _ parsed) eqn:Hex; [done |]. intros [= <-]. apply Hnew. intros p [= <-].
  split_and!; cbn; [split_and!; cbn; lia | lia |]. intros j q Hj.
  unfold disjoint_parts. cbn. apply not_true_iff_false in Hex.
  destruct (decide (start + count <= start_sector q)); [by left |]. right.
  destruct (decide (start_sector q + sector_count q <= start)); [done |]. exfalso. apply Hex, existsb_exists.
  exists (Some q). split; [apply list_elem_of_In; by eapply list_elem_of_lookup_2 |].
  cbn. apply andb_true_iff. split; apply Z.ltb_lt; lia.
Qed.

Lemma parse_entries_ok d s n : Forall is_byte s -> forall i parsed ps, parts_ok d parsed ->
  parse_entries d s n i parsed = inr ps -> parts_ok d ps.
Proof.
  intros Hs. induction n as [| n IH]; intros i parsed ps Hp; cbn [parse_entries]; [by intros [= <-] |].
  destruct (parse_entry d s parsed i) as [rc | o] eqn:Ho; [done |]. apply IH. by eapply parse_entry_ok.
Qed.

Lemma parse_entries_err d s n rc : forall i parsed, parse_entries d s n i parsed = inl rc -> rc <> 0.
Proof.
  induction n as [| n IH]; intros i parsed; cbn [parse_entries]; [done |]. unfold parse_entry.
  repeat case_match; simplify_eq; eauto; by intros [= <-].
Qed.

Definition bytes_ok (d : block_device) : Prop := forall k, Forall is_byte (get_sector d k).

(** What a scan leaves behind: only the result and the table change, and a
    table that is accepted has partitions inside the device that do not
    overlap. *)
Lemma block_scan_spec d : device_ok d -> bytes_ok d -> partitions_scanned d = false ->
  wp block_scan_mbr d (fun rc d' => partitions_scanned d' = true /\ partition_scan_result d' = rc /\
    device_ok d' /\ media d' = media d /\ (if decide (rc = 0) then parts_ok d' (partitions d') else partitions d' = partitions d)).
Proof.
  intros Hd Hb Hs. unfold block_scan_mbr, wp. rewrite Hs.
  assert (Herr : forall rc d0, rc <> 0 -> (exists fs, d0 = set_faults fs d) -> wp (scan_result rc) d0 (fun rc d' =>
    partitions_scanned d' = true /\ partition_scan_result d' = rc /\ device_ok d' /\ media d' = media d /\
    (if decide (rc = 0) then parts_ok d' (partitions d') else partitions d' = partitions d))).
  { intros rc d0 Hrc [fs ->]. eapply wp_val; [done |]. by rewrite decide_False. }
  destruct ((logical_sector_size d <? 512) || (4096 <? logical_sector_size d)).
  { apply Herr; [done |]. exists (faults d). by destruct d. }
  apply wp_bind. pose proof Hd as (Hp & Hm & Hsz).
  assert (Hok : range_ok d 0 1) by (split; [apply validate_ok; [done | lia..] | unfold is_u32; lia]).
  eapply wp_mono; [by apply block_read_spec |]. cbv beta. intros r d0 [(fs & -> & _) Hr]. destruct r as [rc | l].
  { apply Herr; [by destruct Hr | by exists fs]. }
  assert (Hbl : Forall is_byte (concat l)) by (subst l; cbn; apply Forall_app; split; [apply Hb | constructor]).
  case_match; [apply Herr; [done | by exists fs] |].
  destruct (parse_entries d (concat l) BLOCK_MAX_PARTITIONS 0 []) as [rc | ps] eqn:He.
  { apply Herr; [by eapply parse_entries_err | by exists fs]. }
  case_match; [apply Herr; [done | by exists fs] |]. eapply wp_val; [done |]. rewrite decide_True by done.
  split_and!; try done. apply (parse_entries_ok d _ _ Hbl) in He; [done |].
  split; [by intros i p | by intros i j p q].
Qed.

(** C17. The partitions of a disk are isolated: once the partition table has
    been accepted, a write through one partition, of any data at any sector
    and whatever the controller does with the commands, changes no sector
    outside the range of that partition; in particular it changes neither the
    partition table nor the sectors of another partition, which are outside
    that range. *)
Theorem partition_isolated d d1 i p sec data :
  device_ok d -> bytes_ok d -> partitions_scanned d = false -> block_scan_mbr d = Some (0, d1) ->
  partitions d1 !! i = Some (Some p) -> 0 <= sec -> is_u32 (Z.of_nat (length data)) ->
  exists rc d2, partition_write p sec data d1 = Some (rc, d2) /\
    (forall k, k < start_sector p \/ start_sector p + sector_count p <= k -> get_sector d2 k = get_sector d1 k) /\
    get_sector d2 0 = get_sector d1 0 /\
    (forall j q k, i <> j -> partitions d1 !! j = Some (Some q) -> start_sector q <= k < start_sector q + sector_count q ->
       get_sector d2 k = get_sector d1 k).
Proof.
  intros Hd Hb Hs He Hp Hsec Hu.
  destruct (block_scan_spec d Hd Hb Hs) as (rc & d1' & He' & _ & _ & Hd1 & _ & Hps). rewrite He in He'.
  injection He' as <- <-. rewrite decide_True in Hps by done. destruct Hps as [Hin Hdj].
  destruct (Hin i p Hp) as [Hpi Hp0].
  destruct (partition_write_spec d1 p sec data Hd1 Hpi Hsec Hu) as (rc & d2 & Hw & Hpost).
  assert (Hout : forall k, k < start_sector p \/ start_sector p + sector_count p <= k -> get_sector d2 k = get_sector d1 k).
  { intros k Hk. case_decide as Hc; [| by destruct Hpost as [_ ->]]. apply (wrote_outside _ _ _ _ _ k Hpost). lia. }
  exists rc, d2. split; [done |]. split; [done |]. split; [apply Hout; lia |]. intros j q k Hij Hq Hk. apply Hout.
  pose proof (Hdj i j p q Hij Hp Hq) as Hd'. destruct Hd'; lia.
Qed.

(** What is written through a partition is read back, however the transfer
    is split into commands: on a device that does not fail, a write in range
    returns 0, and a read of the same sectors returns the data. *)
Theorem partition_roundtrip d p sec data : device_ok d -> part_in d p -> faults d = [] ->
  0 <= sec -> is_u32 (Z.of_nat (length data)) -> data <> [] -> sec + Z.of_nat (length data) <= sector_count p ->
  exists d', partition_write p sec data d = Some (0, d') /\
    partition_read p sec (Z.of_nat (length data)) d' = Some (inr data, d').
Proof.
  intros Hd Hp Hf Hs Hu Hne Hr. assert (Hpos : 0 < Z.of_nat (length data)) by (destruct data; [done | cbn; lia]).
  destruct (partition_write_spec d p sec data Hd Hp Hs Hu) as (rc & d' & He & Hw).
  rewrite decide_True in Hw by done. assert (rc = 0 /\ faults d' = []) as [-> Hf'].
  { destruct Hw as (fs & n & -> & _ & _ & Hok). by destruct (Hok Hf) as [-> ->]. }
  exists d'. split; [done |].
  destruct (partition_read_spec d' p sec (Z.of_nat (length data))) as (r & d'' & He' & (fs & -> & Hfs) & Hrd);
    [by eapply wrote_device | by eapply wrote_part_in | done.. |].
  rewrite He'. rewrite (Hfs Hf'). destruct r as [rc | l]; [by destruct Hrd |]. subst l.
  replace (set_faults [] d') with d' by (rewrite <- Hf'; by destruct d'). do 3 f_equal.
  rewrite Nat2Z.id. apply list_eq_same_length with (n := length data); [done | by rewrite length_read_range |].
  intros k x y Hk Hx Hy. rewrite read_range_lookup in Hx by done.
  rewrite (wrote_inside _ _ _ _ k Hw Hk) in Hy. congruence.
Qed.

(** ** A concrete disk with two partitions *)

Definition demo_mbr : list Z :=
  replicate 0x1be 0 ++ [0; 0; 0; 0; 0x0c; 0; 0; 0; 8; 0; 0; 0; 24; 0; 0; 0] ++
  [0; 0; 0; 0; 0x83; 0; 0; 0; 32; 0; 0; 0; 16; 0; 0; 0] ++ replicate 32 0 ++ [0x55; 0xaa].

Definition demo_disk : block_device :=
  BlockDevice 64 512 3 (replicate BLOCK_MAX_PARTITIONS None) 0 false 0 {[ 0 := demo_mbr ]} [].

Definition demo_scanned : block_device :=
  Eval vm_compute in match block_scan_mbr demo_disk with Some r => r.2 | None => demo_disk end.
Definition demo_part : block_partition := BlockPartition 8 24 0x0c 1.

Lemma demo_disk_ok : device_ok demo_disk.
Proof. split_and!; [reflexivity | reflexivity | reflexivity | vm_compute; discriminate]. Qed.

Lemma demo_disk_bytes : bytes_ok demo_disk.
Proof.
  intros k. unfold get_sector. cbn [media demo_disk]. destruct (decide (k = 0)) as [-> | Hne].
  - rewrite lookup_singleton_eq. apply (bool_decide_eq_true_1 (Forall is_byte demo_mbr)). vm_compute. reflexivity.
  - rewrite lookup_singleton_ne by done. by apply Forall_replicate.
Qed.

Lemma partition_isolated_witness :
  exists rc d2, partition_write demo_part 2 [replicate 512 7; replicate 512 8] demo_scanned = Some (rc, d2) /\
    get_sector d2 33 = get_sector demo_scanned 33 /\ get_sector d2 60 = get_sector demo_scanned 60.
Proof.
  destruct (partition_isolated demo_disk demo_scanned 0 demo_part 2
    [replicate 512 7; replicate 512 8] demo_disk_ok demo_disk_bytes) as (rc & d2 & He & Hk & _ & Hq); try reflexivity.
  - discriminate.
  - done.
  - exists rc, d2. split; [exact He |]. split; [| apply Hk; right; vm_compute; discriminate].
    apply (Hq 1%nat (BlockPartition 32 16 0x83 2)); [discriminate | reflexivity |]. vm_compute. done.
Defined.

Lemma partition_roundtrip_witness :
  exists d', partition_write demo_part 2 (replicate 8 (replicate 512 7)) demo_disk = Some (0, d') /\
    partition_read demo_part 2 8 d' = Some (inr (replicate 8 (replicate 512 7)), d').
Proof.
  apply (partition_roundtrip demo_disk demo_part 2 (replicate 8 (replicate 512 7)) demo_disk_ok); try done.
Defined.
