(* ===== verification/Fat.v ===== *)
(** * FAT32: the file allocation table (kernel/bsd/fat32.c)

    Mounting, the cache of FAT sectors, the reading and writing of entries and
    the FSInfo summary.  The volume is a partition of [Block]; the geometry,
    which mounting fixes, is the argument [g].  The functions hold [fat_lock]
    in the code and are modelled as sequential programs; the critical sections
    of the sector cache, which is filled without that lock, are definitions of
    their own. *)
From S2P Require Import Prelude Block.

Definition FAT_CACHE_PAGES : Z := 8192.
Definition AHCI_MAX_SECTORS : Z := 128.
Definition FAT_CACHE_READAHEAD_SECTORS : Z := AHCI_MAX_SECTORS.
Definition NO_SECTOR : Z := 0xFFFFFFFF.
Definition ENTRY_MASK : Z := 0x0FFFFFFF.
Definition EOC : Z := 0x0FFFFFF8.
Definition EOC_MARK : Z := 0x0FFFFFFF.
Definition ENOSPC : Z := 28.
Definition EOVERFLOW : Z := 75.

Definition FAT32_FSINFO_LEAD_SIG : Z := 0x41615252.
Definition FAT32_FSINFO_STRUCT_SIG : Z := 0x61417272.
Definition FAT32_FSINFO_TRAIL_SIG : Z := 0xAA550000.

(** What mounting reads from the boot sector. *)
Record geometry := Geometry {
  part : block_partition;
  fat_start_lba : Z;
  data_start_lba : Z;
  root_cluster : Z;
  sectors_per_cluster : Z;
  spf32 : Z;
  total_data_clusters : Z;
  fsinfo_sector : Z;
  fsinfo_backup_sector : Z;
}.

Definition bytes_per_cluster (g : geometry) : Z := u32 (sectors_per_cluster g * 512).

(** An entry of [fat_cache] with its sector of [fat_cache_data]. *)
Record fat_cache_entry := FatCacheEntry { c_lba : Z; c_generation : Z; c_filling : bool; c_data : list Z }.

Definition empty_slot : fat_cache_entry := FatCacheEntry NO_SECTOR 0 false (replicate 512 0).

Record volume := Volume {
  dev : block_device;
  fat_cache : gmap Z fat_cache_entry;
  next_free_hint : Z;
  fsinfo_free_clusters : Z;
  fsinfo_valid : bool;
  fsinfo_dirty : bool;
}.

Definition set_dev d v := Volume d (fat_cache v) (next_free_hint v) (fsinfo_free_clusters v) (fsinfo_valid v) (fsinfo_dirty v).
Definition set_cache c v := Volume (dev v) c (next_free_hint v) (fsinfo_free_clusters v) (fsinfo_valid v) (fsinfo_dirty v).
Definition set_hint h v := Volume (dev v) (fat_cache v) h (fsinfo_free_clusters v) (fsinfo_valid v) (fsinfo_dirty v).
Definition set_free n v := Volume (dev v) (fat_cache v) (next_free_hint v) n (fsinfo_valid v) (fsinfo_dirty v).
Definition set_valid b v := Volume (dev v) (fat_cache v) (next_free_hint v) (fsinfo_free_clusters v) b (fsinfo_dirty v).
Definition set_dirty b v := Volume (dev v) (fat_cache v) (next_free_hint v) (fsinfo_free_clusters v) (fsinfo_valid v) b.

Definition vp (A : Type) : Type := prog volume A.

Definition on_dev {A} (m : prog block_device A) : vp A := fun v => r ← m (dev v); Some (r.1, set_dev r.2 v).
Definition asks {A} (f : volume -> A) : vp A := fun v => Some (f v, v).
Definition upd (f : volume -> volume) : vp () := fun v => Some ((), f v).

(** [for (i = 0; i < n; i++) body] for a 32-bit [n]. *)
Definition pfor {S} (n : Z) (body : Z -> prog S ()) : prog S () :=
  ploop 32 (fun i => if i <? n then _ ← body i; mret (inl (i + 1)) else mret (inr ())) 0.

(** ** Words in a sector *)

Definition fat32_load_u32 (s : list Z) (off : Z) : Z := get_le32 s off.
Definition fat32_store_u32 (s : list Z) (off value : Z) : list Z := splice (Z.to_nat off) (le32_bytes value) s.

(** [fat32_store_entry]: the upper four bits of an entry are kept. *)
Definition fat32_store_entry (s : list Z) (off value : Z) : list Z :=
  let old := fat32_load_u32 s off in
  fat32_store_u32 s off (Z.lor (Z.land old 0xF0000000) (Z.land value ENTRY_MASK)).

Section fat.
Context (g : geometry).

Definition read_sectors (lba n : Z) : vp (Z + list (list Z)) := on_dev (partition_read (part g) lba n).
Definition write_sectors (lba : Z) (data : list (list Z)) : vp Z := on_dev (partition_write (part g) lba data).

(** ** FSInfo *)

Definition fat32_fsinfo_signatures_valid (s : list Z) : bool :=
  (fat32_load_u32 s 0 =? FAT32_FSINFO_LEAD_SIG) && (fat32_load_u32 s 484 =? FAT32_FSINFO_STRUCT_SIG)
  && (fat32_load_u32 s 508 =? FAT32_FSINFO_TRAIL_SIG).

Definition fat32_account_fat_transition (old_value new_value : Z) (v : volume) : volume :=
  if negb (fsinfo_valid v) || (fsinfo_free_clusters v =? UINT32_MAX) then v
  else
    let was_free := Z.land old_value ENTRY_MASK =? 0 in
    let is_free := Z.land new_value ENTRY_MASK =? 0 in
    if Bool.eqb was_free is_free then v
    else
      let v1 :=
        if is_free then
          if fsinfo_free_clusters v <? total_data_clusters g then set_free (fsinfo_free_clusters v + 1) v else v
        else if 0 <? fsinfo_free_clusters v then set_free (fsinfo_free_clusters v - 1) v
        else v in
      set_dirty true v1.

Definition fat32_sync_fsinfo_locked : vp Z :=
  v ← asks id;
  if negb (fsinfo_valid v) || negb (fsinfo_dirty v) then mret 0
  else
    r ← read_sectors (fsinfo_sector g) 1;
    match r with
    | inl _ => mret (- EIO)
    | inr l =>
        let s := concat l in
        if negb (fat32_fsinfo_signatures_valid s) then _ ← upd (set_valid false); mret (- EIO)
        else
          let s1 := fat32_store_u32 s 488 (fsinfo_free_clusters v) in
          let s2 := fat32_store_u32 s1 492 (next_free_hint v) in
          rc ← write_sectors (fsinfo_sector g) [s2];
          if negb (rc =? 0) then mret (- EIO)
          else
            rc2 ← (if fsinfo_backup_sector g =? UINT32_MAX then mret 0
                   else write_sectors (fsinfo_backup_sector g) [s2]);
            if negb (rc2 =? 0) then mret (- EIO)
            else _ ← upd (set_dirty false); mret 0
    end.

(** ** The cache of FAT sectors *)

Definition fat_cache_slot (sector_lba : Z) : Z := Z.land (u32 (sector_lba - fat_start_lba g)) (FAT_CACHE_PAGES - 1).

Definition get_slot (i : Z) : vp fat_cache_entry := fun v =>
  if (0 <=? i) && (i <? FAT_CACHE_PAGES) then Some (default empty_slot (fat_cache v !! i), v) else None.
Definition put_slot (i : Z) (e : fat_cache_entry) : vp () := fun v =>
  if (0 <=? i) && (i <? FAT_CACHE_PAGES) then Some ((), set_cache (<[i := e]> (fat_cache v)) v) else None.

(** The group of sectors a miss reads: its first sector relative to the FAT
    and its length. *)
Definition group_relative (sector_lba : Z) : Z :=
  Z.land (u32 (sector_lba - fat_start_lba g)) (u32 (Z.lnot (FAT_CACHE_READAHEAD_SECTORS - 1))).
Definition group_count (sector_lba : Z) : Z :=
  let rel := group_relative sector_lba in
  if spf32 g <? u32 (rel + FAT_CACHE_READAHEAD_SECTORS) then u32 (spf32 g - rel) else FAT_CACHE_READAHEAD_SECTORS.
Definition group_slot (sector_lba : Z) : Z := Z.land (group_relative sector_lba) (FAT_CACHE_PAGES - 1).
Definition group_lba (sector_lba : Z) : Z := u32 (fat_start_lba g + group_relative sector_lba).

(** The critical sections of [fat_cache_read]: the test for a hit, the
    reservation of the group, the transfer into the data array and the
    publication. *)
Definition cache_hit (sector_lba : Z) : vp bool :=
  e ← get_slot (fat_cache_slot sector_lba);
  mret (negb (c_filling e) && (c_lba e =? sector_lba)).

Fixpoint reserve_slots (slot lba : Z) (n : nat) : vp (list Z) :=
  match n with
  | O => mret []
  | S n' =>
      e ← get_slot slot;
      let gen := u32 (c_generation e + 1) in
      _ ← put_slot slot (FatCacheEntry lba gen true (c_data e));
      rest ← reserve_slots (slot + 1) (u32 (lba + 1)) n';
      mret (gen :: rest)
  end.

Fixpoint fill_data (slot : Z) (data : list (list Z)) : vp () :=
  match data with
  | [] => mret ()
  | s :: data' =>
      e ← get_slot slot;
      _ ← put_slot slot (FatCacheEntry (c_lba e) (c_generation e) (c_filling e) s);
      fill_data (slot + 1) data'
  end.

Fixpoint publish_slots (ok : bool) (slot : Z) (gens : list Z) : vp () :=
  match gens with
  | [] => mret ()
  | gen :: gens' =>
      e ← get_slot slot;
      let lba := if negb (c_generation e =? gen) || negb ok then NO_SECTOR else c_lba e in
      _ ← put_slot slot (FatCacheEntry lba (c_generation e) false (c_data e));
      publish_slots ok (slot + 1) gens'
  end.

Definition fat_cache_read (sector_lba : Z) : vp Z :=
  let slot := fat_cache_slot sector_lba in
  hit ← cache_hit sector_lba;
  if (hit : bool) then mret slot
  else
    let gs := group_slot sector_lba in
    let n := group_count sector_lba in
    gens ← reserve_slots gs (group_lba sector_lba) (Z.to_nat n);
    r ← read_sectors (group_lba sector_lba) n;
    match r with
    | inl _ => _ ← publish_slots false gs gens; mret (-1)
    | inr data => _ ← fill_data gs data; _ ← publish_slots true gs gens; mret slot
    end.

Definition fat_cache_invalidate_sector (sector_lba : Z) : vp () :=
  let slot := fat_cache_slot sector_lba in
  e ← get_slot slot;
  if c_lba e =? sector_lba
  then put_slot slot (FatCacheEntry NO_SECTOR (u32 (c_generation e + 1)) (c_filling e) (c_data e))
  else mret ().

(** ** Entries *)

Definition entry_sector (cluster : Z) : Z := u32 (fat_start_lba g + u32 (cluster * 4) / 512).
Definition entry_offset (cluster : Z) : Z := u32 (cluster * 4) mod 512.

(** The slot may be evicted between the lookup and the copy; the loop retries
    then.  [k] bounds the number of rounds by [2^k]. *)
Definition read_entry_round (cluster : Z) : vp (() + Z) :=
  let fat_sector := entry_sector cluster in
  slot ← fat_cache_read fat_sector;
  if slot <? 0 then mret (inr EOC_MARK)
  else
    e ← get_slot slot;
    mret (if negb (c_filling e) && (c_lba e =? fat_sector)
          then inr (Z.land (fat32_load_u32 (c_data e) (entry_offset cluster)) ENTRY_MASK)
          else inl ()).

Definition fat32_read_entry (cluster : Z) : vp Z := ploop 3 (fun _ => read_entry_round cluster) ().

Definition fat32_write_fat_entry (cluster value : Z) : vp Z :=
  let fat_sector := entry_sector cluster in
  let off := entry_offset cluster in
  r ← read_sectors fat_sector 1;
  match r with
  | inl _ => mret (- EIO)
  | inr l =>
      let s := concat l in
      let old := fat32_load_u32 s off in
      let nv := Z.lor (Z.land old 0xF0000000) (Z.land value ENTRY_MASK) in
      let s' := fat32_store_u32 s off nv in
      rc ← write_sectors fat_sector [s'];
      if negb (rc =? 0) then mret (- EIO)
      else
        _ ← upd (fat32_account_fat_transition old nv);
        rc2 ← write_sectors (u32 (fat_sector + spf32 g)) [s'];
        if negb (rc2 =? 0) then mret (- EIO)
        else
          _ ← fat_cache_invalidate_sector fat_sector;
          _ ← fat_cache_invalidate_sector (u32 (fat_sector + spf32 g));
          mret 0
  end.
End fat.

(** ** Mounting *)

Definition load_u16 (s : list Z) (off : Z) : Z := Z.lor (byte_at s off) (Z.shiftl (byte_at s (off + 1)) 8).

Definition bpb_bad (bps spc spf root : Z) : bool :=
  negb (bps =? 512) || (spc =? 0) || negb (Z.land spc (u32 (spc - 1)) =? 0) || (128 <? spc) || (spf =? 0) || (root <? 2).

(** The FSInfo summary: the free count, whether it is valid, the hint and the
    backup sector. *)
Definition mount_fsinfo (s : list Z) (total reserved bpb_fsinfo backup_boot : Z) : Z * bool * Z * Z :=
  let free_clusters := fat32_load_u32 s 488 in
  let next := fat32_load_u32 s 492 in
  let ok := (free_clusters =? UINT32_MAX) || (free_clusters <=? total) in
  let hint := if (2 <=? next) && (next <? u32 (total + 2)) then next else 2 in
  let backup :=
    if negb (backup_boot =? 0) && negb (backup_boot =? 0xFFFF) && (backup_boot + bpb_fsinfo <? reserved)
       && negb (backup_boot + bpb_fsinfo =? bpb_fsinfo)
    then backup_boot + bpb_fsinfo else UINT32_MAX in
  (if ok then free_clusters else UINT32_MAX, ok, hint, backup).

Definition mount_geometry (p : block_partition) (bpb : list Z) (backup : Z) : geometry :=
  let spc := byte_at bpb 13 in
  let reserved := load_u16 bpb 14 in
  let spf := fat32_load_u32 bpb 36 in
  let data_start := u32 (reserved + spf * 2) in
  let total := if 0 <? sector_count p then u32 (sector_count p - data_start) / spc else 0 in
  Geometry p reserved data_start (fat32_load_u32 bpb 44) spc spf total (load_u16 bpb 48) backup.

(** The summary the FSInfo sector holds, when there is a valid one. *)
Definition read_fsinfo (p : block_partition) (bpb : list Z) (total : Z) (d : block_device)
    : option (Z * bool * Z * Z * block_device) :=
  let reserved := load_u16 bpb 14 in
  let bpb_fsinfo := load_u16 bpb 48 in
  if negb (bpb_fsinfo =? 0) && negb (bpb_fsinfo =? 0xFFFF) && (bpb_fsinfo <? reserved) then
    r ← partition_read p bpb_fsinfo 1 d;
    match r with
    | (inr l, d') =>
        if fat32_fsinfo_signatures_valid (concat l)
        then Some (mount_fsinfo (concat l) total reserved bpb_fsinfo (load_u16 bpb 50), d')
        else Some ((UINT32_MAX, false, 2, UINT32_MAX), d')
    | (inl _, d') => Some ((UINT32_MAX, false, 2, UINT32_MAX), d')
    end
  else Some ((UINT32_MAX, false, 2, UINT32_MAX), d).

(** The beginning of the FAT is read into the cache. *)
Definition prewarm (g : geometry) : vp () :=
  let prewarm_sectors := if spf32 g <? FAT_CACHE_PAGES then spf32 g else FAT_CACHE_PAGES in
  pfor prewarm_sectors (fun i => _ ← fat_cache_read g (u32 (fat_start_lba g + i)); mret ()).

Definition fat32_init (p : block_partition) (d : block_device) : option ((Z + geometry * volume) * block_device) :=
  if negb (mbr_type p =? 0x0b) && negb (mbr_type p =? 0x0c) then Some (inl (- EINVAL), d)
  else if UINT32_MAX <? sector_count p then Some (inl (- EOVERFLOW), d)
  else
    r ← partition_read p 0 1 d;
    match r with
    | (inl _, d1) => Some (inl (- EIO), d1)
    | (inr l, d1) =>
        let bpb := concat l in
        if bpb_bad (load_u16 bpb 11) (byte_at bpb 13) (fat32_load_u32 bpb 36) (fat32_load_u32 bpb 44)
        then Some (inl (- EINVAL), d1)
        else
          x ← read_fsinfo p bpb (total_data_clusters (mount_geometry p bpb UINT32_MAX)) d1;
          let '(free, valid, hint, backup, d3) := x in
          let g := mount_geometry p bpb backup in
          w ← prewarm g (Volume d3 ∅ hint free valid false);
          Some (inr (g, w.2), dev w.2)
    end.

(** ** Bytes and words *)

Lemma lookup_splice {A} (l d : list A) off i : (off + length d <= length l)%nat ->
  splice off d l !! i = if decide (off <= i < off + length d)%nat then d !! (i - off)%nat else l !! i.
Proof.
  intros Hl. unfold splice. case_decide as Hi.
  - rewrite lookup_app_r by (rewrite length_take; lia). rewrite length_take, Nat.min_l by lia.
    by rewrite lookup_app_l by lia.
  - destruct (decide (i < off)%nat).
    + rewrite lookup_app_l by (rewrite length_take; lia). by rewrite lookup_take_lt by lia.
    + rewrite lookup_app_r by (rewrite length_take; lia). rewrite length_take, Nat.min_l by lia.
      rewrite lookup_app_r by lia. rewrite lookup_drop. f_equal. lia.
Qed.

Definition sector_ok (s : list Z) : Prop := length s = 512%nat /\ Forall is_byte s.

Lemma le32_bytes_ok v : Forall is_byte (le32_bytes v).
Proof. repeat constructor; apply Z.mod_pos_bound; lia. Qed.

Lemma store_u32_ok s off v : sector_ok s -> 0 <= off <= 508 -> sector_ok (fat32_store_u32 s off v).
Proof.
  intros [Hl Hb] Ho. unfold fat32_store_u32. split.
  - rewrite length_splice; [done | cbn; lia].
  - unfold splice. rewrite !Forall_app. split_and!; [by apply Forall_take | apply le32_bytes_ok | by apply Forall_drop].
Qed.

Lemma load_u32_range s off : sector_ok s -> is_u32 (fat32_load_u32 s off).
Proof.
  intros [_ Hs]. assert (Hb : forall j, is_byte (byte_at s j)).
  { intros j. unfold byte_at. destruct (s !! Z.to_nat j) eqn:Hj; [| done]. by apply (Forall_lookup_1 _ _ _ _ Hs Hj). }
  apply le32_range; apply Hb.
Qed.

Lemma byte_at_store s off v i : sector_ok s -> 0 <= off <= 508 -> 0 <= i ->
  byte_at (fat32_store_u32 s off v) i =
    if decide (off <= i < off + 4) then default 0 (le32_bytes v !! Z.to_nat (i - off)) else byte_at s i.
Proof.
  intros [Hl _] Ho Hi. unfold byte_at, fat32_store_u32. rewrite lookup_splice by (cbn; lia). cbn [length le32_bytes].
  case_decide; [rewrite decide_True by lia | by rewrite decide_False by lia].
  do 2 f_equal. lia.
Qed.

Lemma load_store_eq s off v : sector_ok s -> 0 <= off <= 508 -> is_u32 v ->
  fat32_load_u32 (fat32_store_u32 s off v) off = v.
Proof.
  intros Hs Ho Hv. unfold fat32_load_u32, get_le32. rewrite !byte_at_store by (done || lia).
  rewrite !decide_True by lia. replace (off - off) with 0 by lia. replace (off + 1 - off) with 1 by lia.
  replace (off + 2 - off) with 2 by lia. replace (off + 3 - off) with 3 by lia. by apply le32_roundtrip.
Qed.

Lemma load_store_ne s off off' v : sector_ok s -> 0 <= off <= 508 -> 0 <= off' -> off' + 4 <= off \/ off + 4 <= off' ->
  fat32_load_u32 (fat32_store_u32 s off v) off' = fat32_load_u32 s off'.
Proof.
  intros Hs Ho Ho' Hd. unfold fat32_load_u32, get_le32. rewrite !byte_at_store by (done || lia).
  by rewrite !decide_False by lia.
Qed.

(** The part of a word that is the entry, and the part that is kept. *)
Lemma entry_bits old value : is_u32 old ->
  let nv := Z.lor (Z.land old 0xF0000000) (Z.land value ENTRY_MASK) in
  is_u32 nv /\ Z.land nv ENTRY_MASK = Z.land value ENTRY_MASK.
Proof.
  intros Ho nv. unfold nv, ENTRY_MASK. split.
  - change 0x0FFFFFFF with (Z.ones 28). rewrite Z.land_ones by lia. 
    assert (Hh : Z.land old 0xF0000000 = Z.shiftl (old / 2 ^ 28) 28).
    { change 0xF0000000 with (Z.shiftl (Z.ones 4) 28). apply Z.bits_inj'. intros i Hi. rewrite Z.land_spec.
      destruct (decide (i < 28)); [by rewrite !Z.shiftl_spec_low, andb_false_r by lia |].
      rewrite !Z.shiftl_spec by lia. rewrite <- Z.shiftr_div_pow2, Z.shiftr_spec by lia.
      replace (i - 28 + 28) with i by lia. destruct (decide (i < 32)).
      - by rewrite Z.ones_spec_low, andb_true_r by lia.
      - rewrite Z.ones_spec_high, andb_false_r by lia. symmetry. unfold is_u32 in Ho.
        destruct (decide (old = 0)) as [-> |]; [apply Z.bits_0 |]. apply Z.bits_above_log2; [lia |].
        assert (Z.log2 old < 32) by (apply Z.log2_lt_pow2; lia). lia. }
    rewrite Hh, lor_disjoint by (try apply Z.mod_pos_bound; lia). unfold is_u32 in *.
    pose proof (Z.mod_pos_bound value (2 ^ 28)). assert (0 <= old / 2 ^ 28 < 16).
    { split; [apply Z.div_pos; lia | apply Z.div_lt_upper_bound; lia]. } lia.
  - rewrite Z.land_lor_distr_l, <- !Z.land_assoc. change (Z.land 0xF0000000 0x0FFFFFFF) with 0.
    rewrite Z.land_0_r, Z.lor_0_l. by rewrite Z.land_diag.
Qed.

(** ** Volumes *)

(** A geometry that fits its partition, as formatting a volume produces it. *)
Record geom_ok (g : geometry) : Prop := {
  go_fat : 0 < fat_start_lba g;
  go_spf : 0 < spf32 g;
  go_data : data_start_lba g = fat_start_lba g + 2 * spf32 g;
  go_spc : 0 < sectors_per_cluster g <= AHCI_MAX_SECTORS;
  go_total : 0 < total_data_clusters g;
  go_entries : total_data_clusters g + 2 <= spf32 g * 128;
  go_spf_max : spf32 g * 128 <= 2 ^ 32;
  go_mask : total_data_clusters g + 2 <= EOC;
  go_part : data_start_lba g + total_data_clusters g * sectors_per_cluster g <= sector_count (part g);
  go_sectors : sector_count (part g) < 2 ^ 32;
  go_start : 0 <= start_sector (part g);
}.

Section volume.
Context (g : geometry).
Hypothesis Hg : geom_ok g.

(** A sector of the partition, and an entry of the first FAT. *)
Definition psec (v : volume) (k : Z) : list Z := get_sector (dev v) (start_sector (part g) + k).
Definition entry (v : volume) (c : Z) : Z :=
  Z.land (fat32_load_u32 (psec v (fat_start_lba g + c / 128)) (c mod 128 * 4)) ENTRY_MASK.

(** A disk that works. *)
Record dok (v : volume) : Prop := {
  do_dev : device_ok (dev v);
  do_part : part_in (dev v) (part g);
  do_faults : faults (dev v) = [];
  do_sectors : forall k, sector_ok (get_sector (dev v) k);
}.

(** *** Transfers *)

Lemma read_sectors_eq v lba n : dok v -> 0 <= lba -> is_u32 n -> 0 < n -> lba + n <= sector_count (part g) ->
  read_sectors g lba n v = Some (inr (read_range (dev v) (start_sector (part g) + lba) (Z.to_nat n)), v).
Proof.
  intros Hv Hl Hu Hn Hr. pose proof (do_faults v Hv) as Hf.
  destruct (partition_read_spec (dev v) (part g) lba n (do_dev v Hv) (do_part v Hv) Hl Hu Hn Hr)
    as (r & d' & He & (fs & -> & Hfs) & Hrd).
  unfold read_sectors, on_dev. rewrite He. cbn. rewrite (Hfs Hf). destruct r as [rc | l]; [by destruct Hrd |].
  rewrite Hrd. do 2 f_equal. destruct v as [d ? ? ? ? ?]; unfold set_dev; cbn in *. f_equal. destruct d; cbn in *. by rewrite <- Hf.
Qed.

Lemma read_sector_eq v lba : dok v -> 0 <= lba < sector_count (part g) ->
  read_sectors g lba 1 v = Some (inr [psec v lba], v).
Proof. intros Hv Hl. rewrite read_sectors_eq by (try done; unfold is_u32; lia). done. Qed.

Definition put_at (lba : Z) (data : list (list Z)) (v : volume) : volume :=
  set_dev (set_media (put_sectors (media (dev v)) (start_sector (part g) + lba) data) (dev v)) v.

Lemma write_sectors_eq v lba data : dok v -> 0 <= lba -> is_u32 (Z.of_nat (length data)) -> data <> [] ->
  lba + Z.of_nat (length data) <= sector_count (part g) ->
  write_sectors g lba data v = Some (0, put_at lba data v).
Proof.
  intros Hv Hl Hu Hne Hr. pose proof (do_faults v Hv) as Hf.
  assert (0 < Z.of_nat (length data)) by (destruct data; [done | cbn; lia]).
  destruct (partition_write_spec (dev v) (part g) lba data (do_dev v Hv) (do_part v Hv) Hl Hu) as (rc & d' & He & Hw).
  rewrite decide_True in Hw by done. destruct Hw as (fs & n & -> & _ & Hall & Hok). destruct (Hok Hf) as [-> ->].
  unfold write_sectors, on_dev. rewrite He. cbn. rewrite Hall, take_ge by done. do 2 f_equal.
  unfold put_at. f_equal. unfold set_faults, set_media. cbn. by rewrite Hf.
Qed.

Lemma psec_put_at lba data v k :
  psec (put_at lba data v) k =
    if decide (lba <= k < lba + Z.of_nat (length data)) then default [] (data !! Z.to_nat (k - lba)) else psec v k.
Proof.
  unfold psec, put_at. cbn [dev set_dev].
  replace (set_media _ (dev v)) with (set_faults (faults (dev v)) (set_media (put_sectors (media (dev v)) (start_sector (part g) + lba) data) (dev v)))
    by (by destruct (dev v)).
  rewrite (get_sector_put _ _ _ (start_sector (part g) + lba) data) by done.
  case_decide; [rewrite decide_True by lia | by rewrite decide_False by lia]. do 2 f_equal. lia.
Qed.

(** Writing well-formed sectors keeps the disk in order. *)
Lemma put_at_dok lba data v : dok v -> Forall sector_ok data -> dok (put_at lba data v).
Proof.
  intros Hv Hd. split; [apply Hv | apply Hv | apply Hv |]. intros k.
  replace k with (start_sector (part g) + (k - start_sector (part g))) by lia.
  fold (psec (put_at lba data v) (k - start_sector (part g))). rewrite psec_put_at. case_decide as Hk; [| apply Hv].
  destruct (lookup_lt_is_Some_2 data (Z.to_nat (k - start_sector (part g) - lba))) as [x Hx]; [lia |].
  rewrite Hx. cbn. by apply (Forall_lookup_1 _ _ _ _ Hd Hx).
Qed.

(** *** The cache *)

Definition slot_at (v : volume) (i : Z) : fat_cache_entry := default empty_slot (fat_cache v !! i).

(** A slot that is not in use, or holds the sector of the FAT that belongs
    there, as it is on the disk. *)
Definition slot_ok (v : volume) (i : Z) (e : fat_cache_entry) : Prop :=
  c_filling e = false /\
  (c_lba e = NO_SECTOR \/
   exists r, 0 <= r < spf32 g /\ c_lba e = fat_start_lba g + r /\ i = r mod 8192 /\ c_data e = psec v (c_lba e)).

Definition cache_ok (v : volume) : Prop := forall i, slot_ok v i (slot_at v i).

(** [v'] is [v] with another cache, whose slots [E] gives. *)
Definition recached (E : Z -> fat_cache_entry) (v v' : volume) : Prop :=
  v' = set_cache (fat_cache v') v /\ forall i, slot_at v' i = E i.

Lemma wp_get_slot v i Q : 0 <= i < FAT_CACHE_PAGES -> Q (slot_at v i) v -> wp (get_slot i) v Q.
Proof.
  intros Hi HQ. unfold get_slot, wp. replace ((0 <=? i) && (i <? FAT_CACHE_PAGES)) with true by lia.
  by eexists _, _.
Qed.

Lemma wp_put_slot v i e Q : 0 <= i < FAT_CACHE_PAGES ->
  (forall v', recached (fun j => if decide (j = i) then e else slot_at v j) v v' -> Q () v') ->
  wp (put_slot i e) v Q.
Proof.
  intros Hi HQ. unfold put_slot, wp. replace ((0 <=? i) && (i <? FAT_CACHE_PAGES)) with true by lia.
  eexists _, _. split; [done |]. apply HQ. split; [done |]. intros j. unfold slot_at. cbn. case_decide; subst.
  - by rewrite lookup_insert_eq.
  - by rewrite lookup_insert_ne by done.
Qed.

Lemma recached_trans E E' v v1 v2 : recached E v v1 -> recached E' v1 v2 -> recached E' v v2.
Proof. intros [-> _] [-> H2]. by split. Qed.

Lemma recached_ext E E' v v' : recached E v v' -> (forall i, E i = E' i) -> recached E' v v'.
Proof. intros [-> H] HE. split; [done |]. intros i. by rewrite H. Qed.

(** A group of slots and the [k]-th of them. *)
Definition in_group (slot : Z) (n : nat) (i : Z) : Prop := slot <= i < slot + Z.of_nat n.
#[local] Instance in_group_dec slot n i : Decision (in_group slot n i).
Proof. unfold in_group. apply _. Defined.
#[local] Typeclasses Opaque in_group.

Definition next_gen (v : volume) (i : Z) : Z := u32 (c_generation (slot_at v i) + 1).

Lemma gens_at v slot n i : slot <= i < slot + n -> map (next_gen v) (seqZ slot n) !!! Z.to_nat (i - slot) = next_gen v i.
Proof.
  intros Hi. apply list_lookup_total_correct. change (map (next_gen v)) with (fmap (M := list) (next_gen v)).
  rewrite list_lookup_fmap, lookup_seqZ_lt by lia. cbn. do 2 f_equal. lia.
Qed.

Lemma wp_reserve_slots n : forall slot lba v, 0 <= slot -> slot + Z.of_nat n <= FAT_CACHE_PAGES ->
  0 <= lba -> lba + Z.of_nat n < 2 ^ 32 ->
  wp (reserve_slots slot lba n) v (fun gens v' =>
    gens = map (next_gen v) (seqZ slot (Z.of_nat n)) /\
    recached (fun i => if decide (in_group slot n i)
                       then FatCacheEntry (lba + (i - slot)) (next_gen v i) true (c_data (slot_at v i))
                       else slot_at v i) v v').
Proof.
  induction n as [| n IH]; intros slot lba v Hs Hn Hl Hr.
  - apply wp_ret. split; [done |]. split; [by destruct v |]. intros i. by rewrite decide_False by (unfold in_group; lia).
  - cbn [reserve_slots]. apply wp_bind, wp_get_slot; [lia |]. apply wp_bind, wp_put_slot; [lia |]. intros v1 R1.
    rewrite (u32_small (lba + 1)) by lia. apply wp_bind. eapply wp_mono; [apply IH; lia |].
    intros gens v2 [-> R2]. apply wp_ret. pose proof (proj2 R1) as S1. split.
    + rewrite (seqZ_cons slot) by lia. cbn. f_equal. replace (Z.succ slot) with (slot + 1) by lia.
      replace (Z.pred (Z.of_nat (S n))) with (Z.of_nat n) by lia. apply map_ext_in. intros i Hi.
      apply list_elem_of_In, elem_of_seqZ in Hi. unfold next_gen. by rewrite S1, decide_False by lia.
    + eapply recached_trans; [exact R1 |]. eapply recached_ext; [exact R2 |]. intros i. cbn. unfold in_group, next_gen.
      rewrite !S1. destruct (decide (i = slot)) as [-> |].
      * rewrite decide_False, decide_True by lia. f_equal; lia.
      * repeat case_decide; try lia; [f_equal; lia | done].
Qed.

Lemma wp_fill_data data : forall slot v, 0 <= slot -> slot + Z.of_nat (length data) <= FAT_CACHE_PAGES ->
  wp (fill_data slot data) v (fun _ v' =>
    recached (fun i => let e := slot_at v i in if decide (in_group slot (length data) i)
                       then FatCacheEntry (c_lba e) (c_generation e) (c_filling e) (default [] (data !! Z.to_nat (i - slot)))
                       else e) v v').
Proof.
  induction data as [| s data IH]; intros slot v Hs Hn; cbn [length] in *.
  - apply wp_ret. split; [by destruct v |]. intros i. by rewrite decide_False by (unfold in_group; lia).
  - cbn [fill_data]. apply wp_bind, wp_get_slot; [lia |]. apply wp_bind, wp_put_slot; [lia |]. intros v1 R1.
    eapply wp_mono; [apply IH; lia |]. intros [] v2 R2. pose proof (proj2 R1) as S1.
    eapply recached_trans; [exact R1 |]. eapply recached_ext; [exact R2 |]. intros i. cbn. unfold in_group.
    rewrite !S1. destruct (decide (i = slot)) as [-> |].
    + rewrite decide_False, decide_True by lia. by replace (slot - slot) with 0 by lia.
    + repeat case_decide; try lia; [| done]. f_equal. 
      replace (Z.to_nat (i - slot)) with (S (Z.to_nat (i - (slot + 1)))) by lia. done.
Qed.

Definition published (ok : bool) (gen : Z) (e : fat_cache_entry) : fat_cache_entry :=
  FatCacheEntry (if negb (c_generation e =? gen) || negb ok then NO_SECTOR else c_lba e) (c_generation e) false (c_data e).

Lemma wp_publish_slots ok gens : forall slot v, 0 <= slot -> slot + Z.of_nat (length gens) <= FAT_CACHE_PAGES ->
  wp (publish_slots ok slot gens) v (fun _ v' =>
    recached (fun i => let e := slot_at v i in if decide (in_group slot (length gens) i)
                       then published ok (gens !!! Z.to_nat (i - slot)) e else e) v v').
Proof.
  induction gens as [| gen gens IH]; intros slot v Hs Hn; cbn [length publish_slots] in *.
  - apply wp_ret. split; [by destruct v |]. intros i. by rewrite decide_False by (unfold in_group; lia).
  - apply wp_bind, wp_get_slot; [lia |]. apply wp_bind, wp_put_slot; [lia |]. intros v1 R1. pose proof (proj2 R1) as S1.
    eapply wp_mono; [apply (IH (slot + 1)); lia |].
    intros [] v2 R2. eapply recached_trans; [exact R1 |]. eapply recached_ext; [exact R2 |]. intros i. cbn.
    unfold in_group. rewrite !S1. destruct (decide (i = slot)) as [-> |].
    + rewrite decide_False, decide_True by lia. by replace (slot - slot) with 0 by lia.
    + repeat case_decide; try lia; [| done].
      by replace (Z.to_nat (i - slot)) with (S (Z.to_nat (i - (slot + 1)))) by lia.
Qed.

(** *** Positions in the FAT *)

Lemma land_low x k : 0 <= k -> Z.land x (2 ^ k - 1) = x mod 2 ^ k.
Proof. intros Hk. replace (2 ^ k - 1) with (Z.ones k) by (rewrite Z.ones_equiv; lia). by apply Z.land_ones. Qed.

(** The sector of the FAT at position [r]: its slot and its group. *)
Section position.
Context (r : Z) (Hr : 0 <= r < spf32 g).

Lemma position_u32 : 0 <= fat_start_lba g + r < 2 ^ 32 /\ r < 2 ^ 31 /\ spf32 g < 2 ^ 31.
Proof using Hg Hr. pose proof Hg as []. lia. Qed.

Lemma fat_cache_slot_eq : fat_cache_slot g (fat_start_lba g + r) = r mod 8192.
Proof using Hg Hr.
  destruct position_u32 as (? & ? & ?). unfold fat_cache_slot. rewrite u32_small by lia.
  replace (fat_start_lba g + r - fat_start_lba g) with r by lia. apply (land_low r 13). lia.
Qed.

Lemma group_relative_eq : group_relative g (fat_start_lba g + r) = 128 * (r / 128).
Proof using Hg Hr.
  destruct position_u32 as (? & ? & ?). unfold group_relative. rewrite (u32_small (_ - _)) by lia.
  replace (fat_start_lba g + r - fat_start_lba g) with r by lia.
  change (u32 (Z.lnot (FAT_CACHE_READAHEAD_SECTORS - 1))) with (Z.shiftl (Z.ones 25) 7).
  replace (128 * (r / 128)) with (Z.shiftl (r / 2 ^ 7) 7) by (rewrite Z.shiftl_mul_pow2 by lia; change (2 ^ 7) with 128; lia).
  apply Z.bits_inj'. intros i Hi. rewrite Z.land_spec.
  destruct (decide (i < 7)); [by rewrite !Z.shiftl_spec_low, andb_false_r by lia |].
  rewrite !Z.shiftl_spec by lia. rewrite <- Z.shiftr_div_pow2, Z.shiftr_spec by lia.
  replace (i - 7 + 7) with i by lia. destruct (decide (i < 32)).
  - by rewrite Z.ones_spec_low, andb_true_r by lia.
  - rewrite Z.ones_spec_high, andb_false_r by lia. symmetry.
    destruct (decide (r = 0)) as [-> |]; [apply Z.bits_0 |]. apply Z.bits_above_log2; [lia |].
    assert (Z.log2 r < 32) by (apply Z.log2_lt_pow2; lia). lia.
Qed.

Lemma group_eq : let rel := 128 * (r / 128) in let n := group_count g (fat_start_lba g + r) in
  group_lba g (fat_start_lba g + r) = fat_start_lba g + rel /\ group_slot g (fat_start_lba g + r) = rel mod 8192 /\
  0 <= rel /\ 0 < n <= 128 /\ rel <= r < rel + n /\ rel + n <= spf32 g /\ rel mod 8192 + n <= FAT_CACHE_PAGES /\
  r mod 8192 = rel mod 8192 + (r - rel).
Proof using Hg Hr.
  destruct position_u32 as (? & ? & ?). pose proof (go_fat g Hg). intros rel n. unfold group_lba, group_slot. subst n. unfold group_count.
  rewrite group_relative_eq. fold rel.
  assert (Hrel : 0 <= rel <= r /\ r < rel + 128) by (subst rel; Z.to_euclidean_division_equations; lia).
  assert (rel mod 8192 <= 8064 /\ r mod 8192 = rel mod 8192 + (r - rel)) by (subst rel; Z.to_euclidean_division_equations; lia).
  clearbody rel.
  unfold FAT_CACHE_READAHEAD_SECTORS, AHCI_MAX_SECTORS, FAT_CACHE_PAGES in *.
  rewrite (u32_small (rel + 128)), (u32_small (fat_start_lba g + rel)), (u32_small (spf32 g - rel)) by lia.
  change (8192 - 1) with (2 ^ 13 - 1). rewrite land_low by lia. change (2 ^ 13) with 8192.
  split_and!; try lia; case_match; bool_to_prop; lia.
Qed.
End position.

(** [v'] is [v] but for a cache that agrees with the disk as well. *)
Definition same (v v' : volume) : Prop := v' = set_cache (fat_cache v') v /\ cache_ok v'.

Lemma same_refl v : cache_ok v -> same v v.
Proof. intros Hc. split; [by destruct v | done]. Qed.

Lemma same_trans v v1 v2 : same v v1 -> same v1 v2 -> same v v2.
Proof. intros [E _] [-> C]. split; [by rewrite E | done]. Qed.

Lemma psec_recached E v v' k : recached E v v' -> psec v' k = psec v k.
Proof. by intros [-> _]. Qed.

Lemma recached_dok E v v' : recached E v v' -> dok v -> dok v'.
Proof. intros [-> _] []. by split. Qed.

Lemma wp_fat_cache_read v r : dok v -> cache_ok v -> 0 <= r < spf32 g ->
  wp (fat_cache_read g (fat_start_lba g + r)) v (fun slot v' =>
    slot = r mod 8192 /\ same v v' /\ c_lba (slot_at v' slot) = fat_start_lba g + r).
Proof using Hg.
  intros Hv Hc Hr. destruct (group_eq r Hr) as (El & Es & Hrel & Hn & Hin & Hspf & Hslot & Emod).
  set (rel := 128 * (r / 128)) in *. clearbody rel.
  assert (Hs : 0 <= r mod 8192 < 8192) by (apply Z.mod_pos_bound; lia).
  assert (Hgs : 0 <= rel mod 8192) by (apply Z.mod_pos_bound; lia).
  unfold fat_cache_read, cache_hit. rewrite fat_cache_slot_eq, El, Es by done. remember (rel mod 8192) as gs eqn:Egs in *.
  set (n := group_count g (fat_start_lba g + r)) in *. clearbody n.
  apply wp_bind, wp_bind, wp_get_slot; [done |]. apply wp_ret. case_match eqn:Hhit.
  { bool_to_prop. apply wp_ret. split_and!; [done | by apply same_refl | done]. }
  assert (fat_start_lba g + rel + n < 2 ^ 32 /\ fat_start_lba g + rel + n <= sector_count (part g)) by (pose proof Hg as []; lia).
  pose proof (go_fat g Hg). apply wp_bind. eapply wp_mono; [apply wp_reserve_slots; lia |]. rewrite Z2Nat.id by lia. intros gens v1 [-> R1].
  pose proof (recached_dok _ _ _ R1 Hv) as Hv1. apply wp_bind. 
  eapply wp_val; [apply (read_sectors_eq v1); unfold is_u32; (done || lia) |]. cbn [sum_rect].
  apply wp_bind. eapply wp_mono; [apply wp_fill_data; rewrite ?length_read_range; lia |]. intros [] v2 R2.
  rewrite length_read_range in R2. pose proof (proj2 R1) as S1. pose proof (proj2 R2) as S2. apply wp_bind.
  eapply wp_mono; [apply wp_publish_slots; rewrite ?length_map, ?length_seqZ; lia |]. rewrite length_map, length_seqZ.
  intros [] v3 R3. apply wp_ret.
  assert (R : recached (fun i => if decide (in_group gs (Z.to_nat n) i)
      then FatCacheEntry (fat_start_lba g + rel + (i - gs)) (next_gen v i) false (psec v (fat_start_lba g + rel + (i - gs)))
      else slot_at v i) v v3).
  { eapply recached_trans, recached_trans; [done | done |]. eapply recached_ext; [exact R3 |]. intros i. cbn. rewrite S2. cbn.
    rewrite S1. cbn. case_decide as Hi; [| done]. unfold published, in_group in *. cbn.
    rewrite gens_at, Z.eqb_refl by lia. cbn. f_equal.
    rewrite read_range_lookup by lia. cbn. unfold psec. rewrite (proj1 R1). cbn. f_equal. lia. }
  pose proof (proj2 R) as S. split_and!; [done | | rewrite S, decide_True by (unfold in_group; lia); cbn; lia].
  split; [apply R |]. intros i. rewrite S. unfold slot_ok. rewrite (psec_recached _ _ _ _ R).
  case_decide as Hi; [| apply Hc]. split; [done |]. right. exists (rel + (i - gs)). unfold in_group, FAT_CACHE_PAGES in *. cbn.
  split_and!; [lia | lia | lia | subst gs; Z.to_euclidean_division_equations; lia | done].
Qed.

Lemma wp_invalidate v r : 0 <= r < 2 * spf32 g -> 
  wp (fat_cache_invalidate_sector g (fat_start_lba g + r)) v (fun _ v' =>
    recached (fun i => let e := slot_at v i in
                if decide (i = r mod 8192 /\ c_lba e = fat_start_lba g + r)
                then FatCacheEntry NO_SECTOR (u32 (c_generation e + 1)) (c_filling e) (c_data e) else e) v v').
Proof using Hg.
  intros Hr. assert (Hs : 0 <= r mod 8192 < 8192) by (apply Z.mod_pos_bound; lia).
  assert (Es : fat_cache_slot g (fat_start_lba g + r) = r mod 8192).
  { unfold fat_cache_slot. pose proof Hg as []. rewrite u32_small by lia.
    replace (fat_start_lba g + r - fat_start_lba g) with r by lia. by apply (land_low r 13). }
  unfold fat_cache_invalidate_sector. rewrite Es. apply wp_bind, wp_get_slot; [done |]. case_match eqn:Hl; bool_to_prop.
  - apply wp_put_slot; [done |]. intros v' R. eapply recached_ext; [exact R |]. intros i. cbn.
    destruct (decide (i = r mod 8192)) as [-> |]; [by rewrite decide_True by done | by rewrite decide_False by naive_solver].
  - apply wp_ret. split; [by destruct v |]. intros i. cbn. rewrite decide_False; [done |]. by intros [-> ?].
Qed.

(** *** Writing a sector of the FAT *)

Definition summary (v : volume) : Z * Z * bool * bool :=
  (next_free_hint v, fsinfo_free_clusters v, fsinfo_valid v, fsinfo_dirty v).

(** A change of the summary that depends on the summary only. *)
Definition quiet (F : volume -> volume) : Prop :=
  forall d v, F (set_dev d v) = set_dev d (F v) /\ dev (F v) = dev v /\ fat_cache (F v) = fat_cache v.

Lemma quiet_account old nv : quiet (fat32_account_fat_transition g old nv).
Proof. intros d v. unfold fat32_account_fat_transition. destruct v; cbn. by repeat case_match. Qed.

(** Sector [r] of both copies of the FAT is now [s]. *)
Record written (r : Z) (s : list Z) (F : volume -> volume) (v v' : volume) : Prop := {
  wr_dok : dok v';
  wr_cache : cache_ok v';
  wr_psec : forall k, psec v' k =
    if decide (k = fat_start_lba g + r \/ k = fat_start_lba g + spf32 g + r) then s else psec v k;
  wr_summary : summary v' = summary (F v);
}.

Lemma wp_write_both {A} v r s F (E1 E2 K : vp A) Q :
  dok v -> cache_ok v -> sector_ok s -> 0 <= r < spf32 g -> quiet F ->
  (forall v', written r s F v v' -> wp K v' Q) ->
  wp (rc ← write_sectors g (fat_start_lba g + r) [s];
      if negb (rc =? 0) then E1
      else
        _ ← upd F;
        rc2 ← write_sectors g (u32 (fat_start_lba g + r + spf32 g)) [s];
        if negb (rc2 =? 0) then E2
        else
          _ ← fat_cache_invalidate_sector g (fat_start_lba g + r);
          _ ← fat_cache_invalidate_sector g (u32 (fat_start_lba g + r + spf32 g));
          K) v Q.
Proof using Hg.
  intros Hv Hc Hs Hr HF HK. pose proof Hg as [].
  assert (Hl : 0 <= fat_start_lba g + r /\ fat_start_lba g + r + spf32 g + 1 <= sector_count (part g)) by lia.
  rewrite (u32_small (fat_start_lba g + r + spf32 g)) by lia.
  assert (Hs1 : Forall sector_ok [s]) by by constructor.
  apply wp_bind. eapply wp_val; [apply write_sectors_eq; cbn; unfold is_u32; (done || lia) |]. cbn [Z.eqb negb].
  apply wp_bind. eapply wp_val; [done |]. set (v1 := put_at (fat_start_lba g + r) [s] v).
  pose proof (put_at_dok (fat_start_lba g + r) [s] v Hv Hs1) as Hv1. fold v1 in Hv1.
  destruct (HF (dev v1) v) as (HF1 & HF2 & HF3). destruct (HF (dev v1) v1) as (_ & HF4 & _).
  assert (Hv2 : dok (F v1)) by (destruct Hv1; split; by rewrite ?HF4).
  apply wp_bind. eapply wp_val; [apply write_sectors_eq; cbn; unfold is_u32; (done || lia) |]. cbn [Z.eqb negb].
  set (v3 := put_at (fat_start_lba g + r + spf32 g) [s] (F v1)).
  pose proof (put_at_dok (fat_start_lba g + r + spf32 g) [s] (F v1) Hv2 Hs1) as Hv3. fold v3 in Hv3.
  assert (P3 : forall k, psec v3 k = if decide (k = fat_start_lba g + r \/ k = fat_start_lba g + spf32 g + r) then s else psec v k).
  { intros k. unfold v3. rewrite psec_put_at. unfold psec at 1. rewrite HF4. fold (psec v1 k). unfold v1. rewrite psec_put_at. cbn [length].
    repeat case_decide; try lia; try done.
    - by replace (k - (fat_start_lba g + r + spf32 g)) with 0 by lia.
    - by replace (k - (fat_start_lba g + r)) with 0 by lia. }
  assert (C3 : forall i, slot_at v3 i = slot_at v i).
  { intros i. unfold slot_at, v3. cbn. destruct (HF (dev v1) v1) as (_ & _ & ->). done. }
  assert (S3 : summary v3 = summary (F v)) by (unfold v3, v1, summary; cbn; unfold put_at; by rewrite (proj1 (HF _ v))).
  apply wp_bind. eapply wp_mono; [apply (wp_invalidate v3); lia |]. intros [] v4 R4.
  apply wp_bind. replace (fat_start_lba g + r + spf32 g) with (fat_start_lba g + (r + spf32 g)) by lia.
  eapply wp_mono; [apply (wp_invalidate v4); lia |]. intros [] v5 R5. apply HK.
  pose proof (proj2 R4) as S4. pose proof (proj2 R5) as S5. pose proof (recached_trans _ _ _ _ _ R4 R5) as R.
  split; [by apply (recached_dok _ _ _ R) | | intros k; by rewrite (psec_recached _ _ _ _ R) | by rewrite (proj1 R)].
  intros i. rewrite S5. cbn. unfold slot_ok. rewrite (psec_recached _ _ _ _ R), S4. cbn. rewrite C3.
  destruct (Hc i) as [Hf Hd]. destruct (decide (i = r mod 8192 ∧ c_lba (slot_at v i) = fat_start_lba g + r)) as [? | Hn].
  { cbn. case_decide; cbn; auto. }
  case_decide; [cbn; auto |]. split; [done |]. destruct Hd as [Hd | (r' & Hr' & El & Ei & Ed)]; [by left |]. right.
  exists r'. split_and!; [lia.. | done | done |]. rewrite Ed, P3. rewrite decide_False; [done |]. intros [E | E]; [| lia].
  apply Hn. assert (r' = r) by lia. by subst r'.
Qed.

(** *** The FAT as a function *)

Definition fupd (f : Z -> Z) (c x : Z) : Z -> Z := fun c' => if decide (c' = c) then x else f c'.

Lemma fupd_eq f c x : fupd f c x c = x.
Proof. unfold fupd. by rewrite decide_True. Qed.
Lemma fupd_ne f c x c' : c' <> c -> fupd f c x c' = f c'.
Proof. intros. unfold fupd. by rewrite decide_False. Qed.

Definition limit : Z := total_data_clusters g + 2.
Definition is_cluster (c : Z) : Prop := 2 <= c < limit.

Definition free_list (f : Z -> Z) : list Z := filter (fun c => f c = 0) (seqZ 2 (total_data_clusters g)).
Definition nfree (f : Z -> Z) : Z := Z.of_nat (length (free_list f)).

Lemma nfree_bound f : 0 <= nfree f <= total_data_clusters g.
Proof using Hg.
  unfold nfree, free_list. pose proof (length_filter (fun c => f c = 0) (seqZ 2 (total_data_clusters g))).
  rewrite length_seqZ in *. pose proof Hg as []. lia.
Qed.

Lemma nfree_ext f f' : (forall c, is_cluster c -> (f c = 0 <-> f' c = 0)) -> nfree f = nfree f'.
Proof.
  intros H. unfold nfree, free_list. do 2 f_equal. apply filter_ext_in. intros c Hc. apply elem_of_seqZ in Hc.
  apply H. unfold is_cluster, limit. lia.
Qed.

Lemma nfree_upd f c x : is_cluster c ->
  nfree (fupd f c x) + (if decide (f c = 0) then 1 else 0) = nfree f + (if decide (x = 0) then 1 else 0).
Proof.
  intros Hc. unfold is_cluster, limit in Hc. unfold nfree, free_list.
  replace (total_data_clusters g) with ((c - 2) + (1 + (total_data_clusters g - (c - 2) - 1))) by lia.
  rewrite !seqZ_app by lia. replace (2 + (c - 2)) with c by lia. change (seqZ c 1) with [c].
  rewrite !filter_app, !length_app.
  rewrite (filter_ext_in (fun c' => fupd f c x c' = 0) (fun c' => f c' = 0) (seqZ 2 (c - 2)))
    by (intros c' Hc'%elem_of_seqZ; rewrite fupd_ne by lia; done).
  rewrite (filter_ext_in (fun c' => fupd f c x c' = 0) (fun c' => f c' = 0) (seqZ (c + 1) _))
    by (intros c' Hc'%elem_of_seqZ; rewrite fupd_ne by lia; done).
  rewrite !filter_cons, !filter_nil, fupd_eq. repeat case_decide; cbn; lia.
Qed.

(** The summary agrees with the FAT. *)
Definition sum_ok (f : Z -> Z) (v : volume) : Prop :=
  2 <= next_free_hint v < limit /\
  (fsinfo_valid v = true -> fsinfo_free_clusters v = UINT32_MAX \/ fsinfo_free_clusters v = nfree f).

Lemma account_ok f c v old nv : sum_ok f v -> is_cluster c -> f c = Z.land old ENTRY_MASK ->
  sum_ok (fupd f c (Z.land nv ENTRY_MASK)) (fat32_account_fat_transition g old nv v) /\
  next_free_hint (fat32_account_fat_transition g old nv v) = next_free_hint v /\
  fsinfo_valid (fat32_account_fat_transition g old nv v) = fsinfo_valid v.
Proof using Hg.
  intros [Hh Hf] Hc Ho. pose proof (nfree_upd f c (Z.land nv ENTRY_MASK) Hc) as Hn. rewrite Ho in Hn.
  pose proof (nfree_bound f). pose proof (nfree_bound (fupd f c (Z.land nv ENTRY_MASK))). pose proof (go_mask g Hg).
  unfold EOC, sum_ok, fat32_account_fat_transition in *.
  destruct (fsinfo_valid v) eqn:Hva; cbn [negb orb]; [| by rewrite Hva].
  specialize (Hf eq_refl). destruct (Z.eqb_spec (fsinfo_free_clusters v) UINT32_MAX) as [E |]; [rewrite E, Hva; auto |].
  destruct Hf as [? | Hf]; [done |].
  destruct (Z.eqb_spec (Z.land old ENTRY_MASK) 0), (Z.eqb_spec (Z.land nv ENTRY_MASK) 0); cbn [Bool.eqb];
    repeat case_decide; try done; repeat case_match; bool_to_prop; cbn; (split; [split; [done |] | done]);
    intros _; right; lia.
Qed.

(** *** The state of a volume *)

Definition sec_entry (s : list Z) (i : Z) : Z := Z.land (fat32_load_u32 s (i * 4)) ENTRY_MASK.

(** [f] is the FAT, in both copies, and [D] the sectors outside it. *)
Record st (f : Z -> Z) (D : Z -> list Z) (v : volume) : Prop := {
  st_dok : dok v;
  st_cache : cache_ok v;
  st_mirror : forall k, 0 <= k < spf32 g -> psec v (fat_start_lba g + spf32 g + k) = psec v (fat_start_lba g + k);
  st_fat : forall c, 0 <= c < limit -> f c = entry v c;
  st_data : forall k, k < fat_start_lba g \/ data_start_lba g <= k -> psec v k = D k;
  st_sum : sum_ok f v;
}.

Lemma st_same f D v v' : st f D v -> same v v' -> st f D v'.
Proof.
  intros [[] ? ? ? ? ?] [E C]. rewrite E. rewrite E in C. split; try done.
Qed.

Lemma st_written f D v v' r s F f' : st f D v -> 0 <= r < spf32 g -> written r s F v v' ->
  (forall c, 0 <= c < limit -> f' c = if decide (c / 128 = r) then sec_entry s (c mod 128) else f c) ->
  sum_ok f' (F v) -> st f' D v'.
Proof using Hg.
  intros [Hv Hc Hm Hf Hd Hs] Hr [Wd Wc Wp Ws] Hf' Hs'. pose proof Hg as []. split; [done | done | | | |].
  - intros k Hk. rewrite !Wp. destruct (decide (k = r)) as [-> |]; [by rewrite !decide_True by lia | rewrite !decide_False by lia; auto].
  - intros c Hc'. unfold entry. rewrite Wp, (Hf' c Hc').
    destruct (decide (c / 128 = r)) as [-> |]; [by rewrite decide_True by auto |].
    rewrite decide_False; [by apply Hf |]. unfold limit in *. Z.to_euclidean_division_equations. lia.
  - intros k Hk. rewrite Wp, decide_False by lia. auto.
  - unfold sum_ok, summary in *. by injection Ws as -> -> -> _.
Qed.

Lemma limit_bound : 2 < limit /\ limit <= spf32 g * 128 /\ limit <= EOC.
Proof using Hg. pose proof Hg as []. unfold limit. lia. Qed.

Lemma entry_position c : 0 <= c < limit ->
  entry_sector g c = fat_start_lba g + c / 128 /\ entry_offset c = c mod 128 * 4 /\
  0 <= c / 128 < spf32 g /\ 0 <= c mod 128 < 128.
Proof using Hg.
  intros Hc. destruct limit_bound as (? & ? & ?). unfold EOC, entry_sector, entry_offset in *. rewrite (u32_small (c * 4)) by lia.
  pose proof Hg as []. assert (0 <= c / 128 < spf32 g) by (Z.to_euclidean_division_equations; lia).
  replace (c * 4 / 512) with (c / 128) by (Z.to_euclidean_division_equations; lia).
  rewrite u32_small by lia. split_and!; try done; Z.to_euclidean_division_equations; lia.
Qed.

Lemma st_range f D v c : st f D v -> 0 <= c < limit -> 0 <= f c <= ENTRY_MASK.
Proof.
  intros Hs Hc. rewrite (st_fat f D v Hs c Hc). unfold entry, ENTRY_MASK. change 0x0FFFFFFF with (Z.ones 28).
  rewrite Z.land_ones by lia. pose proof (Z.mod_pos_bound (fat32_load_u32 (psec v (fat_start_lba g + c / 128)) (c mod 128 * 4)) (2 ^ 28)).
  change (Z.ones 28) with (2 ^ 28 - 1). lia.
Qed.

Lemma wp_read_entry f D v c : st f D v -> 0 <= c < limit ->
  wp (fat32_read_entry g c) v (fun e v' => e = f c /\ same v v').
Proof using Hg.
  intros Hs Hc. destruct (entry_position c Hc) as (Es & Eo & Hr & Ho). pose proof (st_fat f D v Hs c Hc) as Hf.
  assert (Hb : wp (read_entry_round g c) v (fun x v' => x = inr (f c) /\ same v v')).
  { unfold read_entry_round. rewrite Es, Eo. apply wp_bind.
    eapply wp_mono; [apply wp_fat_cache_read; [apply Hs | apply Hs | done] |]. intros slot v' (-> & Hsame & Hl).
    assert (0 <= (c / 128) mod 8192 < 8192) by (apply Z.mod_pos_bound; lia).
    replace ((c / 128) mod 8192 <? 0) with false by lia. apply wp_bind, wp_get_slot; [done |]. apply wp_ret.
    destruct (proj2 Hsame ((c / 128) mod 8192)) as [-> Hd]. rewrite Hl, Z.eqb_refl. cbn [negb andb]. split; [| done].
    destruct Hd as [E | (r' & ? & ? & _ & ->)]; [rewrite Hl in E; unfold NO_SECTOR in E; pose proof Hg as []; lia |].
    rewrite Hl. rewrite Hf. unfold entry, psec. by rewrite (proj1 Hsame). }
  destruct Hb as (x & v' & E & -> & Hsame). unfold fat32_read_entry. eexists _, _. split; [by apply ploop_return |]. done.
Qed.

Lemma st_put_data f D v lba data D' : st f D v ->
  lba + Z.of_nat (length data) <= fat_start_lba g \/ data_start_lba g <= lba -> Forall sector_ok data ->
  (forall k, D' k = if decide (lba <= k < lba + Z.of_nat (length data)) then default [] (data !! Z.to_nat (k - lba)) else D k) ->
  st f D' (put_at lba data v).
Proof using Hg.
  intros [Hv Hc Hm Hf Hd [Hh Hn]] Hl Hok HD. pose proof Hg as [].
  assert (Hp : forall k, fat_start_lba g <= k < data_start_lba g -> psec (put_at lba data v) k = psec v k).
  { intros k Hk. rewrite psec_put_at. by rewrite decide_False by lia. }
  split; [by apply put_at_dok | | | | | done].
  - intros i. destruct (Hc i) as [H1 H2]. split; [done |]. destruct H2 as [H2 | (r & Hr & El & Ei & Ed)]; [by left |].
    right. exists r. split_and!; [lia.. | done | done |]. change (slot_at (put_at lba data v) i) with (slot_at v i).
    rewrite Ed. symmetry. apply Hp. lia.
  - intros k Hk. rewrite !Hp by lia. auto.
  - intros c Hc'. rewrite (Hf c Hc'). unfold entry. destruct (entry_position c Hc') as (_ & _ & ? & _). by rewrite Hp by lia.
  - intros k Hk. rewrite psec_put_at, HD. case_decide; [done | auto].
Qed.

Lemma sec_entry_store s i val j : sector_ok s -> 0 <= i < 128 -> 0 <= j < 128 ->
  sector_ok (fat32_store_entry s (i * 4) val) /\
  sec_entry (fat32_store_entry s (i * 4) val) j = if decide (j = i) then Z.land val ENTRY_MASK else sec_entry s j.
Proof.
  intros Hs Hi Hj. unfold fat32_store_entry, sec_entry. split; [apply store_u32_ok; [done | lia] |].
  destruct (entry_bits (fat32_load_u32 s (i * 4)) val (load_u32_range s (i * 4) Hs)) as [Hu He]. case_decide as E.
  - subst j. rewrite load_store_eq by (done || lia). done.
  - by rewrite load_store_ne by (done || lia).
Qed.

Lemma wp_write_fat_entry f D v c val : st f D v -> is_cluster c ->
  wp (fat32_write_fat_entry g c val) v (fun rc v' =>
    rc = 0 /\ st (fupd f c (Z.land val ENTRY_MASK)) D v' /\ next_free_hint v' = next_free_hint v).
Proof using Hg.
  intros Hs Hc. assert (Hc' : 0 <= c < limit) by (unfold is_cluster in Hc; lia).
  destruct (entry_position c Hc') as (Es & Eo & Hr & Ho). pose proof (st_dok f D v Hs) as Hv. pose proof Hg as [].
  unfold fat32_write_fat_entry. rewrite Es, Eo. apply wp_bind. eapply wp_val; [apply read_sector_eq; [done | lia] |].
  cbn [concat]. rewrite app_nil_r. set (s := psec v (fat_start_lba g + c / 128)).
  assert (Hso : sector_ok s) by apply Hv. fold (fat32_store_entry s (c mod 128 * 4) val).
  pose proof (entry_bits (fat32_load_u32 s (c mod 128 * 4)) val (load_u32_range s _ Hso)) as [_ Hnv].
  apply wp_write_both; [done | apply Hs | by apply (sec_entry_store s (c mod 128) val 0) | done | apply quiet_account |].
  intros v' Hw. apply wp_ret. split; [done |].
  destruct (account_ok f c v (fat32_load_u32 s (c mod 128 * 4))
              (Z.lor (Z.land (fat32_load_u32 s (c mod 128 * 4)) 0xF0000000) (Z.land val ENTRY_MASK))) as (Hs1 & Hh & _);
    [apply Hs | done | by apply Hs |]. rewrite Hnv in Hs1. split.
  - eapply st_written; [done | done | done | | done]. intros c' Hlim.
    rewrite (proj2 (sec_entry_store s (c mod 128) val (c' mod 128) Hso Ho (Z.mod_pos_bound c' 128 ltac:(lia)))).
    unfold fupd. destruct (decide (c' = c)) as [-> |]; [by rewrite !decide_True |].
    case_decide as Ed; [| done]. rewrite decide_False by (Z.to_euclidean_division_equations; lia).
    rewrite (st_fat f D v Hs c' Hlim). unfold entry. by rewrite Ed.
  - pose proof (wr_summary _ _ _ _ _ Hw) as Ws. unfold summary in Ws. injection Ws as -> _ _ _. done.
Qed.

(** *** FSInfo and mounting *)

Lemma st_summary f D v h n b d : st f D v -> 2 <= h < limit -> (b = true -> n = UINT32_MAX \/ n = nfree f) ->
  st f D (Volume (dev v) (fat_cache v) h n b d).
Proof. intros [[] ? ? ? ? [? ?]] Hh Hn. by split. Qed.

Lemma st_data_ext f D D' v : st f D v -> (forall k, D k = D' k) -> st f D' v.
Proof. intros [? ? ? ? Hd ?] He. split; try done. intros k Hk. rewrite <- He. by apply Hd. Qed.

(** A sector of the reserved area is rewritten. *)
Lemma wp_write_reserved f D v k s : st f D v -> 0 <= k < fat_start_lba g -> sector_ok s ->
  wp (write_sectors g k [s]) v (fun rc v' => rc = 0 /\ st f (fun j => if decide (j = k) then s else D j) v' /\ summary v' = summary v).
Proof using Hg.
  intros Hs Hk Hok. pose proof Hg as []. eapply wp_val; [apply write_sectors_eq; [apply Hs | lia | cbn; unfold is_u32; lia | done | cbn; lia] |].
  split; [done |]. split; [| done]. apply (st_put_data f D); [done | left; cbn; lia | by constructor |]. intros j. cbn [length].
  destruct (decide (j = k)) as [-> |]; [rewrite decide_True by lia; by replace (k - k) with 0 by lia | by rewrite decide_False by lia].
Qed.

(** The boot sector says [g], with an FSInfo sector and perhaps its backup
    in the reserved area. *)
Record boots (s : list Z) : Prop := {
  bo_type : mbr_type (part g) = 0x0b \/ mbr_type (part g) = 0x0c;
  bo_good : bpb_bad (load_u16 s 11) (byte_at s 13) (fat32_load_u32 s 36) (fat32_load_u32 s 44) = false;
  bo_geometry : mount_geometry (part g) s (fsinfo_backup_sector g) = g;
  bo_fsinfo : 0 < fsinfo_sector g < fat_start_lba g /\ fsinfo_sector g <> 0xFFFF;
  bo_backup : (mount_fsinfo s 0 (fat_start_lba g) (fsinfo_sector g) (load_u16 s 50)).2 = fsinfo_backup_sector g;
  bo_backup_range : fsinfo_backup_sector g = UINT32_MAX \/ 0 < fsinfo_backup_sector g < fat_start_lba g;
}.

(** The summary as it is stored. *)
Definition fsinfo_sector_of (s : list Z) (free hint : Z) : list Z := fat32_store_u32 (fat32_store_u32 s 488 free) 492 hint.

Lemma fsinfo_sector_of_ok s free hint : sector_ok s -> is_u32 free -> is_u32 hint ->
  sector_ok (fsinfo_sector_of s free hint) /\ fat32_load_u32 (fsinfo_sector_of s free hint) 488 = free /\
  fat32_load_u32 (fsinfo_sector_of s free hint) 492 = hint /\
  fat32_fsinfo_signatures_valid (fsinfo_sector_of s free hint) = fat32_fsinfo_signatures_valid s.
Proof.
  intros Hs Hf Hh. unfold fsinfo_sector_of. assert (Hs1 : sector_ok (fat32_store_u32 s 488 free)) by (apply store_u32_ok; [done | lia]).
  split_and!.
  - apply store_u32_ok; [done | lia].
  - rewrite load_store_ne by (done || lia). apply load_store_eq; [done | lia | done].
  - apply load_store_eq; [done | lia | done].
  - unfold fat32_fsinfo_signatures_valid. by rewrite !load_store_ne by (done || lia).
Qed.

Lemma sum_ok_u32 f v : sum_ok f v -> fsinfo_valid v = true -> is_u32 (fsinfo_free_clusters v) /\ is_u32 (next_free_hint v) /\
  ((fsinfo_free_clusters v =? UINT32_MAX) || (fsinfo_free_clusters v <=? total_data_clusters g)) = true.
Proof using Hg.
  intros [Hh Hf] Hv. specialize (Hf Hv). pose proof (nfree_bound f). destruct limit_bound as (_ & _ & ?). pose proof (go_mask g Hg).
  unfold is_u32, EOC, UINT32_MAX in *. split_and!; lia.
Qed.

Lemma wp_sync_fsinfo f D v : st f D v -> boots (D 0) -> fsinfo_valid v = true -> fsinfo_dirty v = true ->
  fat32_fsinfo_signatures_valid (D (fsinfo_sector g)) = true ->
  let s := fsinfo_sector_of (D (fsinfo_sector g)) (fsinfo_free_clusters v) (next_free_hint v) in
  wp (fat32_sync_fsinfo_locked g) v (fun rc v' => rc = 0 /\ fsinfo_dirty v' = false /\
    fsinfo_free_clusters v' = fsinfo_free_clusters v /\ next_free_hint v' = next_free_hint v /\ fsinfo_valid v' = true /\
    st f (fun k => if decide (k = fsinfo_sector g \/ k = fsinfo_backup_sector g /\ k <> UINT32_MAX) then s else D k) v').
Proof using Hg.
  intros Hs Hb Hv Hd Hsig s. pose proof Hb as [_ _ _ [Hfs _] _ Hbk]. pose proof Hg as []. destruct (sum_ok_u32 f v (st_sum _ _ _ Hs) Hv) as (Hu1 & Hu2 & _).
  assert (Hok : sector_ok (D (fsinfo_sector g))) by (rewrite <- (st_data _ _ _ Hs) by lia; apply Hs).
  destruct (fsinfo_sector_of_ok _ _ _ Hok Hu1 Hu2) as (Hsok & _). fold s in Hsok.
  unfold fat32_sync_fsinfo_locked. apply wp_bind. eapply wp_val; [done |]. cbn [id]. rewrite Hv, Hd. cbn [negb orb].
  apply wp_bind. eapply wp_val; [apply read_sector_eq; [apply Hs | lia] |]. cbn [concat]. rewrite app_nil_r, (st_data _ _ _ Hs) by lia.
  rewrite Hsig. cbn [negb]. fold (fsinfo_sector_of (D (fsinfo_sector g)) (fsinfo_free_clusters v) (next_free_hint v)). fold s.
  apply wp_bind. eapply wp_mono; [apply (wp_write_reserved f D); [done | lia | done] |]. intros rc v1 (-> & Hs1 & Su1). cbn [Z.eqb negb].
  apply wp_bind. apply wp_mono with (P := fun rc v2 => rc = 0 /\ summary v2 = summary v /\
    st f (fun k => if decide (k = fsinfo_sector g \/ k = fsinfo_backup_sector g /\ k <> UINT32_MAX) then s else D k) v2).
  - destruct (Z.eqb_spec (fsinfo_backup_sector g) UINT32_MAX) as [E |].
    + apply wp_ret. split_and!; [done | done |]. eapply st_data_ext; [exact Hs1 |]. intros k. cbn.
      repeat case_decide; try done; unfold UINT32_MAX in *; lia.
    + eapply wp_mono; [apply (wp_write_reserved f _ v1 (fsinfo_backup_sector g) s Hs1); [lia | done] |].
      intros rc v2 (-> & Hs2 & Su2). split_and!; [done | congruence |]. eapply st_data_ext; [exact Hs2 |]. intros k. cbn.
      repeat case_decide; try done; lia.
  - intros rc v2 (-> & Su2 & Hs2). cbn [Z.eqb negb]. apply wp_bind. eapply wp_val; [done |]. apply wp_ret.
    unfold summary in Su2. injection Su2 as E1 E2 E3 E4. split_and!; [done | done | done | done | by cbn; rewrite E3 |].
    apply (st_summary _ _ v2); [done | rewrite E1; apply Hs | rewrite E2, E3; apply Hs].
Qed.

Lemma partition_read_eq v lba : dok v -> 0 <= lba < sector_count (part g) ->
  partition_read (part g) lba 1 (dev v) = Some (inr [psec v lba], dev v).
Proof.
  intros Hv Hl. pose proof (read_sector_eq v lba Hv Hl) as E. unfold read_sectors, on_dev in E.
  destruct (partition_read (part g) lba 1 (dev v)) as [[r d] |]; [| done]. cbn in E. injection E as -> E.
  apply (f_equal dev) in E. by cbn in E; subst d.
Qed.

Lemma wp_prewarm f D v : st f D v -> wp (prewarm g) v (fun _ v' => same v v').
Proof using Hg.
  intros Hs. pose proof Hg as []. unfold prewarm. set (n := if _ <? _ then _ else _).
  assert (Hn : 0 <= n <= spf32 g) by (subst n; unfold FAT_CACHE_PAGES; case_match; bool_to_prop; lia). clearbody n.
  apply (wp_ploop (fun r i v' => same v v' /\ 0 <= i /\ r = n + 1 - i /\ 0 < r)) with (n := n + 1).
  - intros r i v1 (Hsm & Hi & -> & Hr). destruct (Z.ltb_spec i n) as [Hlt |]; [| by apply wp_ret].
    pose proof (st_same f D v v1 Hs Hsm) as Hs1. apply wp_bind, wp_bind. rewrite u32_small by lia.
    eapply wp_mono; [apply (wp_fat_cache_read v1 i); [apply Hs1 | apply Hs1 | lia] |]. intros slot v2 (_ & H2 & _).
    apply wp_ret, wp_ret. exists (n - i). split; [| lia]. split_and!; [by eapply same_trans | lia | lia | lia].
  - split_and!; [apply same_refl, Hs | lia | lia | lia].
  - change (2 ^ Z.of_nat 32) with (2 ^ 32). lia.
Qed.

(** What mounting reads from a volume whose FSInfo sector holds its summary. *)
Lemma mount_fsinfo_eq D h n : boots (D 0) -> fat32_load_u32 (D (fsinfo_sector g)) 488 = n -> fat32_load_u32 (D (fsinfo_sector g)) 492 = h ->
  2 <= h < limit -> ((n =? UINT32_MAX) || (n <=? total_data_clusters g)) = true ->
  mount_fsinfo (D (fsinfo_sector g)) (total_data_clusters g) (fat_start_lba g) (fsinfo_sector g) (load_u16 (D 0) 50) =
    (n, true, h, fsinfo_backup_sector g).
Proof using Hg.
  intros [_ _ _ _ Hbk _] Hfree Hhint Hh Hok. destruct limit_bound as (_ & _ & Hlim). rewrite <- Hbk. unfold mount_fsinfo. cbn [snd].
  rewrite Hfree, Hhint, Hok. unfold limit, EOC in *. rewrite (u32_small (total_data_clusters g + 2)) by lia.
  by replace ((2 <=? h) && (h <? total_data_clusters g + 2)) with true by lia.
Qed.

Lemma boots_fields s : boots s ->
  load_u16 s 14 = fat_start_lba g /\ load_u16 s 48 = fsinfo_sector g /\
  total_data_clusters (mount_geometry (part g) s UINT32_MAX) = total_data_clusters g.
Proof.
  intros [_ _ Hgeo _ _ _]. split; [exact (f_equal fat_start_lba Hgeo) |]. split; [exact (f_equal fsinfo_sector Hgeo) |].
  exact (f_equal total_data_clusters Hgeo).
Qed.

Lemma read_fsinfo_eq f D v : st f D v -> boots (D 0) -> fsinfo_valid v = true ->
  fat32_fsinfo_signatures_valid (D (fsinfo_sector g)) = true ->
  fat32_load_u32 (D (fsinfo_sector g)) 488 = fsinfo_free_clusters v -> fat32_load_u32 (D (fsinfo_sector g)) 492 = next_free_hint v ->
  read_fsinfo (part g) (D 0) (total_data_clusters g) (dev v) =
    Some (fsinfo_free_clusters v, true, next_free_hint v, fsinfo_backup_sector g, dev v).
Proof using Hg.
  intros Hs Hb Hv Hsig Hfree Hhint. pose proof Hb as [_ _ _ [Hfs Hffff] _ _]. destruct (boots_fields _ Hb) as (Hres & Hfi & _).
  destruct (sum_ok_u32 f v (st_sum _ _ _ Hs) Hv) as (_ & _ & Hok). pose proof (st_sum _ _ _ Hs) as [Hh _]. pose proof Hg as [].
  unfold read_fsinfo. rewrite Hres, Hfi.
  replace (negb (fsinfo_sector g =? 0) && negb (fsinfo_sector g =? 65535) && (fsinfo_sector g <? fat_start_lba g)) with true by lia.
  rewrite (partition_read_eq v (fsinfo_sector g)) by (apply Hs || lia). cbn [mbind option_bind concat].
  rewrite app_nil_r, (st_data _ _ _ Hs) by lia. rewrite Hsig.
  by rewrite (mount_fsinfo_eq D (next_free_hint v) (fsinfo_free_clusters v)).
Qed.

Lemma bind_Some_eq {A B} (x : A) (h : A -> option B) : Some x ≫= h = h x.
Proof. done. Qed.

Lemma mount_ok f D v : st f D v -> boots (D 0) -> fsinfo_valid v = true ->
  fat32_fsinfo_signatures_valid (D (fsinfo_sector g)) = true ->
  fat32_load_u32 (D (fsinfo_sector g)) 488 = fsinfo_free_clusters v -> fat32_load_u32 (D (fsinfo_sector g)) 492 = next_free_hint v ->
  exists v', fat32_init (part g) (dev v) = Some (inr (g, v'), dev v') /\ st f D v' /\
    next_free_hint v' = next_free_hint v /\ fsinfo_free_clusters v' = fsinfo_free_clusters v /\ fsinfo_valid v' = true.
Proof using Hg.
  intros Hs Hb Hv Hsig Hfree Hhint. set (v0 := Volume (dev v) ∅ (next_free_hint v) (fsinfo_free_clusters v) true false).
  assert (Hs0 : st f D v0).
  { destruct Hs as [[] ? ? ? ? [? Hn]]. split; try done; [| split; [done |]; intros _; by apply Hn].
    intros i. unfold slot_at. cbn. rewrite lookup_empty. split; [done | by left]. }
  destruct (wp_prewarm f D v0 Hs0) as ([] & v1 & E1 & Hsm). pose proof Hb as [Ht Hgood Hgeo _ _ _]. destruct (boots_fields _ Hb) as (_ & _ & Htot).
  exists v1. split; [| split; [by eapply st_same | by rewrite (proj1 Hsm)]]. pose proof Hg as []. unfold fat32_init.
  replace (negb (mbr_type (part g) =? 11) && negb (mbr_type (part g) =? 12)) with false by lia.
  replace (UINT32_MAX <? sector_count (part g)) with false by (unfold UINT32_MAX; lia).
  rewrite (partition_read_eq v 0) by (apply Hs || lia). cbn [mbind option_bind concat]. rewrite app_nil_r, (st_data _ _ _ Hs) by lia.
  rewrite Hgood, Htot, (read_fsinfo_eq f D v) by done. rewrite bind_Some_eq. cbv beta iota. rewrite Hgeo. fold v0. by rewrite E1.
Qed.
End volume.

(** ** Theorems *)

(** C36. The summary survives a remount: syncing a volume whose summary has
    changed writes it to the FSInfo sector and its backup, keeping the
    signatures and every other sector, and mounting the partition again gives
    the same geometry, the same free count and search hint, the same FAT, and
    a cache that agrees with the disk. *)
Theorem sync_mount_roundtrip g f D v : geom_ok g -> st g f D v -> boots g (D 0) ->
  fsinfo_valid v = true -> fsinfo_dirty v = true -> fat32_fsinfo_signatures_valid (D (fsinfo_sector g)) = true ->
  exists v1 v2 D', fat32_sync_fsinfo_locked g v = Some (0, v1) /\ fsinfo_dirty v1 = false /\
    fat32_init (part g) (dev v1) = Some (inr (g, v2), dev v2) /\ st g f D' v2 /\
    next_free_hint v2 = next_free_hint v /\ fsinfo_free_clusters v2 = fsinfo_free_clusters v /\ fsinfo_valid v2 = true /\
    forall k, k <> fsinfo_sector g -> k <> fsinfo_backup_sector g -> D' k = D k.
Proof.
  intros Hg Hs Hb Hv Hd Hsig. destruct (wp_sync_fsinfo g Hg f D v Hs Hb Hv Hd Hsig) as (rc & v1 & E & -> & Hd1 & Ef & Eh & Hv1 & Hs1).
  destruct (sum_ok_u32 g Hg f v (st_sum _ _ _ _ Hs) Hv) as (Hu1 & Hu2 & _). pose proof Hb as [_ _ _ [Hfs _] _ Hbk].
  assert (Hok : sector_ok (D (fsinfo_sector g))) by (rewrite <- (st_data _ _ _ _ Hs) by lia; apply Hs).
  destruct (fsinfo_sector_of_ok _ _ _ Hok Hu1 Hu2) as (_ & L1 & L2 & L3).
  set (s := fsinfo_sector_of (D (fsinfo_sector g)) (fsinfo_free_clusters v) (next_free_hint v)) in *.
  set (D' := fun k => if decide (k = fsinfo_sector g \/ k = fsinfo_backup_sector g /\ k <> UINT32_MAX) then s else D k) in *.
  assert (E0 : D' 0 = D 0) by (unfold D'; rewrite decide_False; [done | unfold UINT32_MAX in *; lia]).
  assert (E1 : D' (fsinfo_sector g) = s) by (unfold D'; rewrite decide_True; [done | by left]).
  destruct (mount_ok g Hg f D' v1 Hs1) as (v2 & Ei & Hs2 & H1 & H2 & H3); [by rewrite E0 | done | by rewrite E1, L3 | by rewrite E1, Ef | by rewrite E1, Eh |].
  exists v1, v2, D'. split_and!; [done | done | done | done | congruence | congruence | done |].
  intros k Hk1 Hk2. unfold D'. by rewrite decide_False by tauto.
Qed.

(** ** A small volume

    A boot sector and an FSInfo sector, one sector per FAT and eight clusters
    of one sector: the root directory in cluster 2, a file in 3 and 4, a cycle
    of 5 and 6, and 7 to 9 free.  The summary in memory is newer than that on
    the disk. *)
Definition demo_geometry : geometry := Geometry (BlockPartition 8 12 0x0c 1) 2 4 2 1 1 8 1 UINT32_MAX.
Definition demo_boot : list Z := Eval vm_compute in
  fat32_store_u32 (fat32_store_u32 (fat32_store_u32 (fat32_store_u32 (replicate 512 0) 12 0x20102) 36 1) 44 2) 48 1.
Definition demo_fsinfo : list Z := Eval vm_compute in
  fat32_store_u32 (fat32_store_u32 (fat32_store_u32 (replicate 512 0) 0 FAT32_FSINFO_LEAD_SIG) 484 FAT32_FSINFO_STRUCT_SIG)
    508 FAT32_FSINFO_TRAIL_SIG.
Definition demo_fat : list Z := Eval vm_compute in
  concat (map le32_bytes [0x0FFFFFF8; EOC_MARK; EOC_MARK; 4; EOC_MARK; 6; 5]) ++ replicate 484 0.
Definition demo_volume : volume :=
  Volume (BlockDevice 64 512 128 [] 0 true 0
            (<[8 := demo_boot]> (<[9 := demo_fsinfo]> (<[10 := demo_fat]> (<[11 := demo_fat]> ∅)))) []) ∅ 2 3 true true.

Lemma demo_geom_ok : geom_ok demo_geometry.
Proof. split; vm_compute; first [done | split; done]. Qed.

Lemma demo_sectors_ok s : s ∈ [demo_boot; demo_fsinfo; demo_fat] -> sector_ok s.
Proof.
  assert (H : Forall (fun s => length s = 512%nat /\ Forall is_byte s) [demo_boot; demo_fsinfo; demo_fat]).
  { apply (bool_decide_eq_true_1 _). vm_compute. reflexivity. }
  rewrite Forall_forall in H. apply H.
Qed.

Lemma demo_st : st demo_geometry (entry demo_geometry demo_volume) (psec demo_geometry demo_volume) demo_volume.
Proof.
  split; [| | | done | done |].
  - split; [by vm_compute | by vm_compute | done |]. intros k. unfold get_sector. cbn [media dev demo_volume].
    destruct (decide (k = 8)) as [-> |]; [apply demo_sectors_ok; set_solver |]. rewrite lookup_insert_ne by done.
    destruct (decide (k = 9)) as [-> |]; [apply demo_sectors_ok; set_solver |]. rewrite lookup_insert_ne by done.
    destruct (decide (k = 10)) as [-> |]; [apply demo_sectors_ok; set_solver |]. rewrite lookup_insert_ne by done.
    destruct (decide (k = 11)) as [-> |]; [apply demo_sectors_ok; set_solver |]. rewrite lookup_insert_ne by done.
    split; [vm_compute; reflexivity | by apply Forall_replicate].
  - intros i. unfold slot_at. cbn [fat_cache demo_volume]. rewrite lookup_empty. split; [done | by left].
  - intros k Hk. cbn in Hk. replace k with 0 by lia. done.
  - split; [by vm_compute |]. intros _. right. vm_compute. reflexivity.
Qed.

Lemma demo_boots : boots demo_geometry (psec demo_geometry demo_volume 0).
Proof.
  split; [right; reflexivity | vm_compute; reflexivity | vm_compute; reflexivity | split; [split |]; vm_compute; congruence
    | vm_compute; reflexivity | left; reflexivity].
Qed.

Lemma sync_mount_roundtrip_witness :
  exists v1 v2, fat32_sync_fsinfo_locked demo_geometry demo_volume = Some (0, v1) /\
    fat32_init (part demo_geometry) (dev v1) = Some (inr (demo_geometry, v2), dev v2) /\ fsinfo_free_clusters v2 = 3.
Proof.
  destruct (sync_mount_roundtrip demo_geometry _ _ demo_volume demo_geom_ok demo_st demo_boots) as (v1 & v2 & D' & E1 & _ & E2 & _ & _ & E3 & _);
    [reflexivity | reflexivity | vm_compute; reflexivity |].
  exists v1, v2. split; [exact E1 |]. split; [exact E2 | exact E3].
Defined.
