(* ===== verification/FatCache.v ===== *)
(** * FAT32: the sector cache under concurrency (kernel/bsd/fat32.c)

    Look-ups fill the cache without holding [fat_lock], so a fill can overlap
    with a writer of the FAT.  The critical sections of [fat_cache_read] (under
    [fat_cache_lock]; one filler at a time under [fat_cache_fill_lock]), the
    transfer of the sectors, and the steps of the writer (one at a time under
    [fat_lock]) interleave here in any order. *)
From stdpp Require Import relations gmap.
From S2P Require Import Prelude Block Fat.

(** A fill in progress: its first slot and sector, the generations it
    recorded and the number of sectors that have arrived. *)
Record filling := Filling { f_slot : Z; f_lba : Z; f_gens : list Z; f_done : nat }.

(** The writer holds the position of the FAT sector it has written and not
    yet invalidated.  [failed] remembers the sectors whose last writer returned
    with an error after it had started to write, so without invalidating
    them. *)
Record cstate := CState { vol : volume; filler : option filling; writer : option Z; failed : gset Z }.

#[local] Existing Instance in_group_dec.

Section concurrent.
Context (g : geometry).

(** A fill reserves its slots, receives the sectors one by one and publishes
    the slots, all or none.  A writer ([fat32_write_fat_entry]) writes a sector
    of the first FAT, and the same sector of the second, which is outside the
    cached range; then it either invalidates the slot or, when one of the two
    writes fails, returns an error without doing so. *)
Inductive cstep : cstate -> cstate -> Prop :=
| C_reserve v w B r gens v' :
    0 <= r < spf32 g ->
    cache_hit g (fat_start_lba g + r) v = Some (false, v) ->
    reserve_slots (group_slot g (fat_start_lba g + r)) (group_lba g (fat_start_lba g + r))
      (Z.to_nat (group_count g (fat_start_lba g + r))) v = Some (gens, v') ->
    cstep (CState v None w B)
      (CState v' (Some (Filling (group_slot g (fat_start_lba g + r)) (group_lba g (fat_start_lba g + r)) gens 0)) w B)
| C_fetch v w B slot lba gens n v' :
    (n < length gens)%nat ->
    fill_data (slot + Z.of_nat n) [psec g v (lba + Z.of_nat n)] v = Some ((), v') ->
    cstep (CState v (Some (Filling slot lba gens n)) w B) (CState v' (Some (Filling slot lba gens (S n))) w B)
| C_publish v w B slot lba gens n ok v' :
    (ok = true -> n = length gens) ->
    publish_slots ok slot gens v = Some ((), v') ->
    cstep (CState v (Some (Filling slot lba gens n)) w B) (CState v' None w B)
| C_write v fl B r s :
    0 <= r < spf32 g ->
    cstep (CState v fl None B) (CState (put_at g (fat_start_lba g + r) [s] v) fl (Some r) B)
| C_write_elsewhere v fl w B lba data :
    lba + Z.of_nat (length data) <= fat_start_lba g \/ fat_start_lba g + spf32 g <= lba ->
    cstep (CState v fl w B) (CState (put_at g lba data v) fl w B)
| C_fail v fl B r :
    cstep (CState v fl (Some r) B) (CState v fl None ({[r]} ∪ B))
| C_invalidate v fl B r v' v'' :
    fat_cache_invalidate_sector g (fat_start_lba g + r) v = Some ((), v') ->
    fat_cache_invalidate_sector g (u32 (fat_start_lba g + r + spf32 g)) v' = Some ((), v'') ->
    cstep (CState v fl (Some r) B) (CState v'' fl None (B ∖ {[r]})).

(** The sectors that are on the disk but not yet invalidated. *)
Definition pending (x : cstate) : gset Z := option_to_set (writer x) ∪ failed x.

(** A slot holds sector [r] of the FAT, up to date unless the sector is one of
    [P]. *)
Definition holds (v : volume) (P : gset Z) (i : Z) (e : fat_cache_entry) (r : Z) : Prop :=
  0 <= r < spf32 g /\ c_lba e = fat_start_lba g + r /\ i = r mod 8192 /\
  (c_data e = psec g v (fat_start_lba g + r) \/ r ∈ P).

Definition in_fill (fl : option filling) (i : Z) : option (filling * nat) :=
  match fl with
  | Some F => if decide (in_group (f_slot F) (length (f_gens F)) i) then Some (F, Z.to_nat (i - f_slot F)) else None
  | None => None
  end.

(** A slot outside the fill in progress is empty or up to date; one of the
    fill is as reserved, or was invalidated and its generation has moved on. *)
Definition slot_inv (v : volume) (fl : option filling) (w : gset Z) (i : Z) (e : fat_cache_entry) : Prop :=
  match in_fill fl i with
  | None => c_filling e = false /\ (c_lba e = NO_SECTOR \/ exists r, holds v w i e r)
  | Some (F, k) =>
      c_filling e = true /\
      ((c_lba e = NO_SECTOR /\ c_generation e <> f_gens F !!! k) \/
      (c_generation e = f_gens F !!! k /\
       exists r, 0 <= r < spf32 g /\ c_lba e = fat_start_lba g + r /\ f_lba F + Z.of_nat k = fat_start_lba g + r /\
         i = r mod 8192 /\ ((k < f_done F)%nat -> holds v w i e r)))
  end.

Definition fill_ok (fl : option filling) : Prop :=
  match fl with
  | Some F => 0 <= f_slot F /\ f_slot F + Z.of_nat (length (f_gens F)) <= FAT_CACHE_PAGES /\ (f_done F <= length (f_gens F))%nat
  | None => True
  end.

(** The invariant, with the set of sectors that are not yet invalidated. *)
Definition pinv (v : volume) (fl : option filling) (P : gset Z) : Prop :=
  fill_ok fl /\ forall i, slot_inv v fl P i (slot_at v i).

Definition cinv (x : cstate) : Prop :=
  pinv (vol x) (filler x) (pending x) /\ forall r, writer x = Some r -> 0 <= r < spf32 g.

Context (Hg : geom_ok g).

Lemma wp_run {A} (m : vp A) v a v' Q : wp m v Q -> m v = Some (a, v') -> Q a v'.
Proof. intros (a' & v1 & E & HQ) E'. congruence. Qed.

(** The invariant depends on the disk only through the sectors of the FAT. *)
Lemma slot_inv_mono v v' fl w w' i e :
  (forall r, holds v w i e r -> holds v' w' i e r) -> slot_inv v fl w i e -> slot_inv v' fl w' i e.
Proof.
  intros Hh. unfold slot_inv. destruct (in_fill fl i) as [[F k] |].
  - intros [Hfl [? | (Hgen & r & ? & ? & ? & ? & Hd)]]; (split; [done |]); [by left |]. right. split; [done |]. exists r. split_and!; try done || lia. auto.
  - intros [? [? | [r Hr]]]; (split; [done |]); [by left | right]. exists r. auto.
Qed.

Lemma coherent_reserve v w r gens v' : pinv v None w -> 0 <= r < spf32 g ->
  reserve_slots (group_slot g (fat_start_lba g + r)) (group_lba g (fat_start_lba g + r))
    (Z.to_nat (group_count g (fat_start_lba g + r))) v = Some (gens, v') ->
  pinv v' (Some (Filling (group_slot g (fat_start_lba g + r)) (group_lba g (fat_start_lba g + r)) gens 0)) w.
Proof using Hg.
  intros [_ HI] Hr E. destruct (group_eq g Hg r Hr) as (El & Es & Hrel & Hn & Hin & Hspf & Hslot & Emod).
  rewrite El, Es in *. set (rel := 128 * (r / 128)) in *. set (n := group_count g (fat_start_lba g + r)) in *. clearbody rel n.
  assert (Hgs : 0 <= rel mod 8192) by (apply Z.mod_pos_bound; lia). pose proof Hg as [].
  pose proof (wp_run _ _ _ _ _ (wp_reserve_slots (Z.to_nat n) (rel mod 8192) (fat_start_lba g + rel) v Hgs ltac:(lia) ltac:(lia) ltac:(lia)) E) as [-> R].
  rewrite Z2Nat.id in * by lia. pose proof (proj2 R) as S.
  split; [cbn; rewrite length_map, length_seqZ; split_and!; lia |]. intros i. rewrite S. unfold slot_inv. cbn [in_fill].
  cbn [f_slot f_gens f_lba f_done]. rewrite length_map, length_seqZ. case_decide as Hi.
  - split; [done |]. right. cbn. unfold in_group in Hi. rewrite gens_at by lia. split; [done |].
    exists (rel + (i - rel mod 8192)). unfold FAT_CACHE_PAGES in *.
    split_and!; try lia. Z.to_euclidean_division_equations; lia.
  - destruct (HI i) as [Hf Hd]. split; [done |]. destruct Hd as [Hd | [r' Hd]]; [by left | right]. exists r'.
    unfold holds in *. by rewrite (psec_recached g _ _ _ _ R).
Qed.

Lemma coherent_fetch v w slot lba gens n v' : pinv v (Some (Filling slot lba gens n)) w -> (n < length gens)%nat ->
  fill_data (slot + Z.of_nat n) [psec g v (lba + Z.of_nat n)] v = Some ((), v') ->
  pinv v' (Some (Filling slot lba gens (S n))) w.
Proof.
  intros [(H0 & H1 & H2) HI] Hn E. cbn [f_slot f_gens f_lba f_done] in *.
  pose proof (wp_run _ _ _ _ _ (wp_fill_data [psec g v (lba + Z.of_nat n)] (slot + Z.of_nat n) v ltac:(lia) ltac:(cbn; lia)) E) as R. cbv beta in R.
  pose proof (proj2 R) as S. split; [cbn; lia |]. intros i. specialize (HI i). rewrite S. cbv zeta.
  unfold slot_inv in *. cbn [in_fill f_slot f_gens f_lba f_done] in *. case_decide as Hi.
  - set (k := Z.to_nat (i - slot)) in *. unfold in_group in *. cbn [length] in *. case_decide as Hk.
    + assert (k = n) as -> by lia. destruct HI as [Hfl [HI | (Hgen & r & Hr & Hl & Hlb & Hi8 & _)]]; (split; [done |]); [by left |]. right.
      cbn. split; [done |]. exists r. split_and!; try done || lia. intros _. unfold holds. cbn. split_and!; try done || lia. left.
      replace (i - (slot + Z.of_nat n)) with 0 by lia. cbn. rewrite (psec_recached g _ _ _ _ R). cbn in Hlb. by rewrite Hlb.
    + destruct HI as [Hfl [HI | (Hgen & r & Hr & Hl & Hlb & Hi8 & Hd)]]; (split; [done |]); [by left |]. right.
      split; [done |]. exists r. split_and!; try done || lia. intros Hkn. unfold holds. rewrite (psec_recached g _ _ _ _ R). apply Hd. cbn in Hkn |- *. lia.
  - unfold in_group in *. cbn [length] in *. rewrite decide_False by lia. destruct HI as [Hf Hd]. split; [done |].
    destruct Hd as [Hd | [r Hd]]; [by left | right]. exists r. unfold holds in *. by rewrite (psec_recached g _ _ _ _ R).
Qed.

Lemma coherent_publish v w slot lba gens n ok v' : pinv v (Some (Filling slot lba gens n)) w -> (ok = true -> n = length gens) ->
  publish_slots ok slot gens v = Some ((), v') -> pinv v' None w.
Proof.
  intros [(H0 & H1 & H2) HI] Hok E. cbn [f_slot f_gens f_lba f_done] in *.
  pose proof (wp_run _ _ _ _ _ (wp_publish_slots ok gens slot v ltac:(lia) ltac:(lia)) E) as R. cbv beta in R.
  pose proof (proj2 R) as S. split; [done |]. intros i. specialize (HI i). rewrite S. cbv zeta.
  unfold slot_inv in *. cbn [in_fill f_slot f_gens f_lba f_done] in *. case_decide as Hi.
  - set (k := Z.to_nat (i - slot)) in *. unfold in_group in *. unfold published. cbn. split; [done |].
    destruct HI as [_ [[Hno Hgen] | (Hgen & r & Hr & Hl & Hlb & Hi8 & Hd)]].
    + left. cbn in Hgen. by replace (c_generation (slot_at v i) =? gens !!! k) with false by lia.
    + rewrite Hgen, Z.eqb_refl. cbn. destruct ok; [| by left]. right. exists r. cbn. specialize (Hok eq_refl).
      unfold holds. cbn. rewrite (psec_recached g _ _ _ _ R). apply Hd. cbn. lia.
  - destruct HI as [Hf Hd]. split; [done |]. destruct Hd as [Hd | [r Hd]]; [by left | right]. exists r.
    unfold holds in *. by rewrite (psec_recached g _ _ _ _ R).
Qed.

(** A write to the disk: the slots of the sector are those of the writer. *)
Lemma coherent_write v fl P r s : pinv v fl P -> pinv (put_at g (fat_start_lba g + r) [s] v) fl ({[r]} ∪ P).
Proof.
  intros [HF HI]. split; [done |]. intros i. specialize (HI i).
  change (slot_at (put_at g (fat_start_lba g + r) [s] v) i) with (slot_at v i).
  eapply slot_inv_mono; [| exact HI]. intros r' (Hr & Hl & Hi & Hd). unfold holds. split_and!; [lia.. | done | done |].
  destruct (decide (r' = r)) as [-> |]; [right; set_solver |]. destruct Hd as [Hd | ?]; [left | right; set_solver].
  rewrite psec_put_at. cbn [length]. by rewrite decide_False by lia.
Qed.

Lemma coherent_elsewhere v fl P lba data : lba + Z.of_nat (length data) <= fat_start_lba g \/ fat_start_lba g + spf32 g <= lba ->
  pinv v fl P -> pinv (put_at g lba data v) fl P.
Proof.
  intros Hout [HF HI]. split; [done |]. intros i. specialize (HI i).
  change (slot_at (put_at g lba data v) i) with (slot_at v i).
  eapply slot_inv_mono; [| exact HI]. intros r' (Hr & Hl & Hi & Hd). unfold holds. split_and!; [lia.. | done | done |].
  rewrite psec_put_at. by rewrite decide_False by lia.
Qed.

Lemma coherent_invalidate v fl P r v' v'' : 0 <= r < spf32 g -> pinv v fl P ->
  fat_cache_invalidate_sector g (fat_start_lba g + r) v = Some ((), v') ->
  fat_cache_invalidate_sector g (u32 (fat_start_lba g + r + spf32 g)) v' = Some ((), v'') -> pinv v'' fl (P ∖ {[r]}).
Proof using Hg.
  intros Hr [HF HI] E1 E2. pose proof Hg as []. rewrite u32_small in E2 by lia.
  replace (fat_start_lba g + r + spf32 g) with (fat_start_lba g + (r + spf32 g)) in E2 by lia.
  pose proof (wp_run _ _ _ _ _ (wp_invalidate g Hg v r ltac:(lia)) E1) as R1.
  pose proof (wp_run _ _ _ _ _ (wp_invalidate g Hg v' (r + spf32 g) ltac:(lia)) E2) as R2.
  pose proof (proj2 R1) as S1. pose proof (proj2 R2) as S2. pose proof (recached_trans _ _ _ _ _ R1 R2) as R.
  assert (E : forall e, c_lba e = NO_SECTOR \/ (exists r', 0 <= r' < spf32 g /\ c_lba e = fat_start_lba g + r') ->
      c_lba e <> fat_start_lba g + (r + spf32 g)) by (unfold NO_SECTOR; intros e [? | (r' & ? & ?)]; lia).
  split; [done |]. intros i. specialize (HI i). rewrite S2, S1. cbv zeta. clear R1 R2 S1 S2.
  set (e := slot_at v i) in *. clearbody e. destruct (decide (i = r mod 8192 /\ c_lba e = fat_start_lba g + r)) as [[Hi Hl] | Hne].
  - rewrite decide_False by (intros [_ ?]; revert H; apply E; by left). unfold slot_inv in *. destruct (in_fill fl i) as [[F k] |].
    + destruct HI as [Hfl HI]. split; [done |]. left. split; [done |]. destruct HI as [[Hno _] | [Hgen _]]; [unfold NO_SECTOR in Hno; lia |]. cbn. rewrite <- Hgen.
      unfold u32. intros Heq. Z.to_euclidean_division_equations. lia.
    + split; [apply HI | by left].
  - assert (Hh : forall r', holds v P i e r' -> holds v'' (P ∖ {[r]}) i e r').
    { intros r' (Hr' & Hl & Hi & Hd). unfold holds. rewrite (psec_recached g _ _ _ _ R). split_and!; [lia.. | done | done |].
      destruct Hd as [? | Hd]; [by left | right]. apply elem_of_difference. split; [done |].
      intros ->%elem_of_singleton. by destruct Hne. }
    rewrite decide_False; [by apply (slot_inv_mono v) with (w := P) |]. intros [_ ?]. revert H. apply E.
    unfold slot_inv in HI. destruct (in_fill fl i) as [[F k] |].
    + destruct HI as [_ [[? _] | (_ & r' & ? & ? & _)]]; eauto.
    + destruct HI as [_ [? | (r' & ? & ? & _)]]; eauto.
Qed.

Lemma option_to_set_None (B : gset Z) : option_to_set None ∪ B = B.
Proof. cbn. apply (left_id_L ∅ (∪)). Qed.

Lemma coherent_step x y : cinv x -> cstep x y -> cinv y.
Proof using Hg.
  intros [HI Hw] Hs. destruct Hs as [v w B r gens v' Hr _ He | v w B slot lba gens n v' Hn He | v w B slot lba gens n ok v' Hok He |
    v fl B r s Hr | v fl w B lba data Ho | v fl B r | v fl B r v' v'' E1 E2]; unfold cinv, pending in *; cbn [vol filler writer failed] in *.
  - split; [by eapply coherent_reserve | done].
  - split; [by eapply coherent_fetch | done].
  - split; [by eapply coherent_publish | done].
  - split; [| by intros ? [= <-]]. rewrite option_to_set_None in HI. by apply coherent_write.
  - split; [by apply coherent_elsewhere | done].
  - split; [| done]. by rewrite option_to_set_None.
  - split; [| done]. rewrite option_to_set_None. pose proof (coherent_invalidate v fl _ r v' v'' (Hw r eq_refl) HI E1 E2) as HI'.
    replace (B ∖ {[r]}) with ((option_to_set (Some r) ∪ B) ∖ {[r]}); [done |]. cbn. set_solver.
Qed.

Lemma cache_ok_cinv v : cache_ok g v -> cinv (CState v None None ∅).
Proof.
  intros Hc. split; [| done]. split; [done |]. intros i. destruct (Hc i) as [Hf Hd]. split; [done |]. cbn [vol].
  destruct Hd as [? | (r & Hr & El & Ei & Ed)]; [by left | right]. exists r. split_and!; [lia.. | done | done |]. left. by rewrite Ed, El.
Qed.
End concurrent.

(** C8. However fills of the cache interleave with writes to the FAT, a slot
    that is published for a sector of the FAT holds what is on the disk there,
    unless a writer is between its write of that very sector and the
    invalidation that follows, or the last writer of the sector failed and
    returned without invalidating it; a fill that overlapped a write is not
    published, since its generation no longer matches. *)
Theorem fat_cache_coherent g v0 v fl w B r : geom_ok g -> cache_ok g v0 ->
  rtc (cstep g) (CState v0 None None ∅) (CState v fl w B) -> 0 <= r < spf32 g ->
  let e := slot_at v (r mod 8192) in
  c_filling e = false -> c_lba e = fat_start_lba g + r -> w <> Some r -> r ∉ B -> c_data e = psec g v (fat_start_lba g + r).
Proof.
  intros Hg Hc Hrun Hr e Hnf Hl Hw HB.
  assert (HI : cinv g (CState v fl w B)).
  { eapply (rtc_ind_r (cinv g) _ (cache_ok_cinv g v0 Hc)); [| exact Hrun]. intros x y _ Hs HI. by apply (coherent_step g Hg x y). }
  pose proof (proj2 (proj1 HI) (r mod 8192)) as Hs. unfold slot_inv in Hs. cbn [vol filler writer] in Hs. fold e in Hs.
  destruct (in_fill fl (r mod 8192)) as [[F k] |]; [destruct Hs; congruence |].
  destruct Hs as [_ [Hno | (r' & Hr' & El & _ & Hd)]].
  - pose proof Hg as []. rewrite Hl in Hno. unfold NO_SECTOR in Hno. lia.
  - assert (r' = r) as -> by lia. destruct Hd as [Hd | Hd]; [done |]. unfold pending in Hd. cbn in Hd.
    apply elem_of_union in Hd as [Hd%elem_of_option_to_set | ?]; done.
Qed.

(** A fill that a write overtakes: sector 0 of the FAT arrives, is rewritten
    and invalidated, and the fill is published without it.  The next fill
    publishes the new sector. *)
Definition after {A} (o : option (A * volume)) : volume := match o with Some (_, v) => v | None => demo_volume end.
Definition race1 : volume := Eval vm_compute in after (reserve_slots 0 2 1 demo_volume).
Definition race2 : volume := Eval vm_compute in after (fill_data 0 [demo_fat] race1).
Definition race3 : volume := Eval vm_compute in put_at demo_geometry 2 [replicate 512 1] race2.
Definition race4 : volume := Eval vm_compute in after (fat_cache_invalidate_sector demo_geometry 2 race3).
Definition race5 : volume := Eval vm_compute in after (publish_slots true 0 [1] race4).
Definition race6 : volume := Eval vm_compute in after (reserve_slots 0 2 1 race5).
Definition race7 : volume := Eval vm_compute in after (fill_data 0 [replicate 512 1] race6).
Definition race8 : volume := Eval vm_compute in after (publish_slots true 0 [3] race7).

Lemma demo_race : rtc (cstep demo_geometry) (CState demo_volume None None ∅) (CState race8 None None (∅ ∖ {[0]})).
Proof.
  eapply rtc_l; [apply (C_reserve _ _ _ _ 0 [1] race1); [done | by vm_compute..] |].
  eapply rtc_l; [apply (C_fetch _ _ _ _ _ _ _ _ race2); [cbn; lia | by vm_compute] |].
  eapply rtc_l; [apply (C_write _ _ _ _ 0 (replicate 512 1)); done |].
  replace (put_at demo_geometry (fat_start_lba demo_geometry + 0) [replicate 512 1] race2) with race3 by (by vm_compute).
  eapply rtc_l; [apply (C_invalidate _ _ _ _ _ race4 race4); by vm_compute |].
  eapply rtc_l; [apply (C_publish _ _ _ _ _ _ _ _ true race5); [done | by vm_compute] |].
  eapply rtc_l; [apply (C_reserve _ _ _ _ 0 [3] race6); [done | by vm_compute..] |].
  eapply rtc_l; [apply (C_fetch _ _ _ _ _ _ _ _ race7); [cbn; lia | by vm_compute] |].
  eapply rtc_l; [apply (C_publish _ _ _ _ _ _ _ _ true race8); [done | by vm_compute] |]. apply rtc_refl.
Qed.

Lemma fat_cache_coherent_witness :
  c_data (slot_at race8 (0 mod 8192)) = psec demo_geometry race8 (2 + 0) /\ psec demo_geometry race8 2 = replicate 512 1.
Proof.
  split; [| vm_compute; reflexivity].
  apply (fat_cache_coherent demo_geometry demo_volume race8 None None (∅ ∖ {[0]}) 0 demo_geom_ok (st_cache _ _ _ _ demo_st) demo_race);
    [done | by vm_compute | by vm_compute | done | set_solver].
Defined.

(** An error on the second copy of the FAT leaves the cache stale: the
    first copy has been written, [fat32_write_fat_entry] returns EIO without
    invalidating the sector, and reading the entry still gives the old
    value. *)
Theorem fat2_error_stale :
  exists v v1 v2, cache_ok demo_geometry v /\
    fat32_write_fat_entry demo_geometry 3 EOC_MARK v = Some (- EIO, v1) /\
    entry demo_geometry v 3 = 4 /\ entry demo_geometry v1 3 = EOC_MARK /\
    fat32_read_entry demo_geometry 3 v1 = Some (4, v2).
Proof.
  destruct (wp_read_entry demo_geometry demo_geom_ok _ _ demo_volume 3 demo_st) as (e & v & E & _ & Hsm); [by vm_compute |].
  set (w := after (fat32_read_entry demo_geometry 3 demo_volume)).
  assert (Hw : w = v) by (unfold w; rewrite E; done).
  exists (set_dev (set_faults [None; None; Some 0%nat] (dev w)) w). eexists _, _.
  split; [rewrite Hw; apply Hsm |]. split; [vm_compute; reflexivity |]. split; [by vm_compute |]. split; by vm_compute.
Qed.
