(* ===== verification/FatChain.v ===== *)
(** * FAT32: cluster chains (kernel/bsd/fat32.c)

    The walk along a chain, the allocation of runs and of detached chains, the
    validation of a chain before it is freed and its freeing.  The programs are
    those of [Fat]; the theorems are about the FAT as a function from clusters
    to entries. *)
From S2P Require Import Prelude Block Fat.

Section chain_programs.
Context (g : geometry).

(** ** Walks along a chain *)

Definition is_data_cluster (c : Z) : bool := (2 <=? c) && (c <? EOC).

(** [fat32_walk_chain]; the limit [max_walk] of the code is above
    [page_index] and never met. *)
Fixpoint walk_steps (i : nat) (c : Z) : vp Z :=
  match i with
  | O => mret c
  | S i' =>
      if negb (is_data_cluster c) then mret c
      else
        next ← fat32_read_entry g c;
        if EOC <=? next then mret next else walk_steps i' next
  end.

Definition fat32_walk_chain (start_cluster page_index : Z) : vp Z := walk_steps (Z.to_nat page_index) start_cluster.

(** ** Allocation *)

(** The free clusters from position [i] of a sector on, up to [wanted], that
    a run takes. *)
Definition entry_free (s : list Z) (i : Z) : bool := Z.land (fat32_load_u32 s (i * 4)) ENTRY_MASK =? 0.

Fixpoint run_length (s : list Z) (c i wanted : Z) (run : Z) (n : nat) : Z :=
  match n with
  | O => run
  | S n' =>
      if (run <? wanted) && (i + run <? 128) && (u32 (c + run) <? u32 (total_data_clusters g + 2)) && entry_free s (i + run)
      then run_length s c i wanted (run + 1) n' else run
  end.

Fixpoint store_run (s : list Z) (c i j : Z) (n : nat) : list Z :=
  match n with
  | O => s
  | S n' => store_run (fat32_store_entry s ((i + j) * 4) (if (n' =? 0)%nat then EOC_MARK else c + j + 1)) c i (j + 1) n'
  end.

(** The first free cluster of a sector: its position. *)
Fixpoint find_free (s : list Z) (abs_sector i : Z) (n : nat) : option Z :=
  match n with
  | O => None
  | S n' =>
      let c := u32 (abs_sector * 128 + i) in
      if (c <? 2) || (u32 (total_data_clusters g + 2) <=? c) then find_free s abs_sector (i + 1) n'
      else if entry_free s i then Some i else find_free s abs_sector (i + 1) n'
  end.

Fixpoint account_run (n : nat) (v : volume) : volume :=
  match n with
  | O => v
  | S n' => account_run n' (fat32_account_fat_transition g 0 EOC_MARK v)
  end.

(** The first and the last cluster of the run and its length, or an error. *)
Definition take_run (s : list Z) (abs_sector i wanted : Z) : vp (Z + Z * Z * Z) :=
  let c := u32 (abs_sector * 128 + i) in
  let run := run_length s c i wanted 1 (Z.to_nat (Z.min wanted 128)) in
  let s' := store_run s c i 0 (Z.to_nat run) in
  let lba := u32 (fat_start_lba g + abs_sector) in
  rc ← write_sectors g lba [s'];
  if negb (rc =? 0) then mret (inl (- EIO))
  else
    _ ← upd (account_run (Z.to_nat run));
    rc2 ← write_sectors g (u32 (lba + spf32 g)) [s'];
    if negb (rc2 =? 0) then mret (inl (- EIO))
    else
      _ ← fat_cache_invalidate_sector g lba;
      _ ← fat_cache_invalidate_sector g (u32 (lba + spf32 g));
      let hint := u32 (c + run) in
      _ ← upd (set_hint (if u32 (total_data_clusters g + 2) <=? hint then 2 else hint));
      _ ← upd (fun v => set_dirty (fsinfo_valid v) v);
      mret (inr (c, c + run - 1, run)).

Definition allocate_round (wanted hint : Z) (sec : Z) : vp (Z + (Z + Z * Z * Z)) :=
  if negb (sec <? spf32 g) then mret (inr (inl (- ENOSPC)))
  else
    let abs_sector := u32 (hint / 128 + sec) mod spf32 g in
    r ← read_sectors g (u32 (fat_start_lba g + abs_sector)) 1;
    match r with
    | inl _ => mret (inl (sec + 1))
    | inr l =>
        match find_free (concat l) abs_sector 0 128 with
        | None => mret (inl (sec + 1))
        | Some i => x ← take_run (concat l) abs_sector i wanted; mret (inr x)
        end
    end.

Definition fat32_allocate_run (wanted : Z) : vp (Z + Z * Z * Z) :=
  if wanted =? 0 then mret (inl (- EINVAL))
  else hint ← asks next_free_hint; ploop 32 (allocate_round wanted hint) 0.

Definition fat32_allocate_cluster : vp Z :=
  r ← fat32_allocate_run 1;
  mret (match r with inl _ => 0 | inr (first, _, _) => first end).

(** ** Validation and freeing of a chain *)

(** The next cluster and whether the end is reached; None for an invalid
    chain. *)
Definition fat32_chain_step (cluster cluster_limit : Z) : vp (option (Z * bool)) :=
  if EOC <=? cluster then mret (Some (cluster, true))
  else if (cluster <? 2) || (cluster_limit <=? cluster) then mret None
  else
    next ← fat32_read_entry g cluster;
    let at_end := EOC <=? next in
    mret (if negb at_end && ((next <? 2) || (cluster_limit <=? next)) then None else Some (next, at_end)).

(** The pair of walkers after one step, or the verdict. *)
Definition acyclic_step (cluster_limit slow fast : Z) : vp (Z * Z + bool) :=
  r1 ← fat32_chain_step slow cluster_limit;
  match r1 with
  | None => mret (inr false)
  | Some (_, true) => mret (inr true)
  | Some (slow', false) =>
      r2 ← fat32_chain_step fast cluster_limit;
      match r2 with
      | None => mret (inr false)
      | Some (_, true) => mret (inr true)
      | Some (fast', false) =>
          r3 ← fat32_chain_step fast' cluster_limit;
          match r3 with
          | None => mret (inr false)
          | Some (_, true) => mret (inr true)
          | Some (fast'', false) => mret (if slow' =? fast'' then inr false else inl (slow', fast''))
          end
      end
  end.

Fixpoint acyclic_steps (cluster_limit : Z) (max_steps : nat) (slow fast : Z) : vp bool :=
  match max_steps with
  | O => mret false
  | S n =>
      r ← acyclic_step cluster_limit slow fast;
      match r with
      | inr b => mret b
      | inl (slow', fast') => acyclic_steps cluster_limit n slow' fast'
      end
  end.

Definition fat32_chain_is_acyclic (start_cluster cluster_limit : Z) : vp bool :=
  acyclic_steps cluster_limit (Z.to_nat (cluster_limit - 2)) start_cluster start_cluster.

Definition fat_entry_limit : Z := spf32 g * 128.
Definition cluster_limit : Z :=
  let l := if total_data_clusters g =? 0 then fat_entry_limit else total_data_clusters g + 2 in
  if fat_entry_limit <? l then fat_entry_limit else l.

Fixpoint free_steps (remaining : nat) (c : Z) : vp () :=
  match remaining with
  | O => mret ()
  | S n =>
      if negb (is_data_cluster c) then mret ()
      else
        next ← fat32_read_entry g c;
        rc ← fat32_write_fat_entry g c 0;
        if negb (rc =? 0) then mret ()
        else
          _ ← upd (fun v => if c <? next_free_hint v then set_dirty (fsinfo_valid v) (set_hint c v) else v);
          if EOC <=? next then mret () else free_steps n next
  end.

Definition fat32_free_chain (start_cluster : Z) : vp () :=
  if negb (is_data_cluster start_cluster) then mret ()
  else if cluster_limit <=? 2 then mret ()
  else
    ok ← fat32_chain_is_acyclic start_cluster cluster_limit;
    if (ok : bool) then free_steps (Z.to_nat (cluster_limit - 2)) start_cluster else mret ().

Definition fat32_link_cluster (tail_cluster new_cluster : Z) : vp Z := fat32_write_fat_entry g tail_cluster new_cluster.

Definition cluster_lba (c : Z) : Z := u32 (data_start_lba g + u32 (c - 2) * sectors_per_cluster g).

(** The first and the last cluster of a chain of [count] zeroed clusters. *)
Definition detached_round (max_clusters : Z) (x : Z * Z * Z) : vp (Z * Z * Z + (Z + Z * Z)) :=
  let '(count, start, tail) := x in
  if count =? 0 then mret (inr (inr (start, tail)))
  else
    let wanted := if count <? max_clusters then count else max_clusters in
    r ← fat32_allocate_run wanted;
    match r with
    | inl rc =>
        _ ← (if start =? 0 then mret () else fat32_free_chain start);
        mret (inr (inl rc))
    | inr (run_start, run_tail, got) =>
        rc ← write_sectors g (cluster_lba run_start)
               (replicate (Z.to_nat (got * sectors_per_cluster g)) (replicate 512 0));
        if negb (rc =? 0) then
          _ ← fat32_free_chain run_start;
          _ ← (if start =? 0 then mret () else fat32_free_chain start);
          mret (inr (inl rc))
        else if start =? 0 then mret (inl (count - got, run_start, run_tail))
        else
          rc2 ← fat32_link_cluster tail run_start;
          if negb (rc2 =? 0) then
            _ ← fat32_free_chain run_start;
            _ ← fat32_free_chain start;
            mret (inr (inl (- EIO)))
          else mret (inl (count - got, start, run_tail))
    end.

Definition fat32_allocate_detached (count : Z) : vp (Z + Z * Z) :=
  let max_clusters := AHCI_MAX_SECTORS / sectors_per_cluster g in
  if max_clusters =? 0 then mret (inl (- EIO))
  else ploop 32 (detached_round max_clusters) (count, 0, 0).
End chain_programs.

(** ** Chains *)

(** [linked f l]: the clusters of [l] are clusters of the volume, each entry
    is the next cluster and the last one an end mark. *)
Section linked.
Context (g : geometry).

Fixpoint linked (f : Z -> Z) (l : list Z) : Prop :=
  match l with
  | [] => False
  | c :: l' => is_cluster g c /\ match l' with [] => EOC <= f c | c' :: _ => f c = c' /\ linked f l' end
  end.

Definition has_chain (f : Z -> Z) (c : Z) : Prop := exists l, linked f (c :: l).

Context (f : Z -> Z).
Hypothesis Hlim : limit g <= EOC.

Lemma linked_cons c c' l : is_cluster g c -> f c = c' -> linked f (c' :: l) -> linked f (c :: c' :: l).
Proof. intros H1 H2 H3. by split. Qed.

Lemma linked_cluster l c : linked f l -> c ∈ l -> is_cluster g c.
Proof.
  induction l as [| x l IH]; [done |]. intros [Hx Hl] [-> | Hc]%elem_of_cons; [done |]. destruct l; [by apply elem_of_nil in Hc |].
  apply IH; [apply Hl | done].
Qed.

Lemma linked_tail c l : linked f (c :: l) -> l <> [] -> linked f l.
Proof. intros [_ Hl] Hn. destruct l; [done |]. apply Hl. Qed.

Lemma linked_det l : forall c l', linked f (c :: l) -> linked f (c :: l') -> l = l'.
Proof using Hlim.
  induction l as [| x l IH]; intros c [| x' l'] H H'; [done | | |]; cbn [linked] in H, H'.
  - destruct H as [_ He], H' as (_ & E & Hx & _). unfold is_cluster in Hx. lia.
  - destruct H' as [_ He], H as (_ & E & Hx & _). unfold is_cluster in Hx. lia.
  - destruct H as (_ & <- & Hl), H' as (_ & <- & Hl'). f_equal. by eapply IH.
Qed.

Lemma linked_app l1 : forall c l2, linked f (l1 ++ c :: l2) -> linked f (c :: l2).
Proof.
  induction l1 as [| x l1 IH]; intros c l2 H; [done |]. apply (IH c l2). apply (linked_tail x); [done |]. by destruct l1.
Qed.

Lemma linked_NoDup l : linked f l -> NoDup l.
Proof using Hlim.
  induction l as [| c l IH]; intros H; [constructor |]. constructor.
  - intros (l1 & l2 & ->)%list_elem_of_split. pose proof (linked_app (c :: l1) c l2 H) as H'.
    pose proof (linked_det _ _ _ H H') as E. apply (f_equal length) in E. rewrite length_app in E. cbn in E. lia.
  - destruct l; [constructor |]. apply IH, (linked_tail c); done.
Qed.

Lemma linked_length l : linked f l -> Z.of_nat (length l) <= limit g - 2.
Proof using Hlim.
  intros H. assert (Hs : l ⊆ seqZ 2 (limit g - 2)).
  { intros c Hc. apply elem_of_seqZ. pose proof (linked_cluster _ _ H Hc). unfold is_cluster in *. lia. }
  pose proof (submseteq_length _ _ (NoDup_submseteq _ _ (linked_NoDup _ H) Hs)) as Hn.
  rewrite length_seqZ in Hn. destruct l as [| c l]; [done |].
  pose proof (linked_cluster _ c H ltac:(by left)). unfold is_cluster in *. lia.
Qed.

(** The entry of the [k]-th cluster. *)
Lemma linked_next l k c : linked f l -> l !! k = Some c ->
  is_cluster g c /\ (if decide (S k < length l)%nat then l !! S k = Some (f c) else EOC <= f c).
Proof.
  revert k. induction l as [| x l IH]; intros k H Hk; [done |]. destruct k as [| k].
  - injection Hk as <-. destruct H as [Hx H]. split; [done |]. destruct l as [| y l]; cbn; [done |].
    by rewrite decide_True, (proj1 H) by lia.
  - assert (Hl : linked f l) by (apply (linked_tail x); [done | by destruct l]).
    destruct (IH k Hl Hk) as [Hc He]. split; [done |]. cbn [length]. repeat case_decide; try lia; done.
Qed.

Lemma linked_ext f' l : linked f l -> (forall c, c ∈ l -> f' c = f c) -> linked f' l.
Proof.
  induction l as [| c l IH]; [done |]. intros [Hc H] He. split; [done |]. rewrite (He c) by by left.
  destruct l as [| x l]; [done |]. split; [apply H |]. apply IH; [apply H |]. intros. apply He. by right.
Qed.
End linked.

Lemma foldl_min_le l : forall h x, (x = h \/ x ∈ l) -> foldl Z.min h l <= x.
Proof.
  induction l as [| y l IH]; intros h x; cbn [foldl]; [by intros [-> | ?%elem_of_nil] |].
  rewrite elem_of_cons. intros [-> | [-> | Hx]]; [| | by apply IH; right].
  - transitivity (h `min` y); [apply IH; by left | lia].
  - transitivity (h `min` y); [apply IH; by left | lia].
Qed.

Section chains.
Context (g : geometry).
Hypothesis Hg : geom_ok g.

Lemma quiet_account_run n : quiet (account_run g n).
Proof.
  induction n as [| n IH]; intros d v; [done |]. cbn. destruct (quiet_account g 0 EOC_MARK d v) as (E & E1 & E2).
  destruct (IH d (fat32_account_fat_transition g 0 EOC_MARK v)) as (H & H1 & H2). rewrite E. by rewrite H, H1, H2.
Qed.



Lemma cluster_limit_eq : cluster_limit g = limit g.
Proof using Hg.
  destruct (limit_bound g Hg) as (? & ? & ?). pose proof Hg as []. unfold cluster_limit, fat_entry_limit, limit in *.
  replace (total_data_clusters g =? 0) with false by lia. case_match; bool_to_prop; lia.
Qed.

Section volume_state.
Context (f : Z -> Z) (D : Z -> list Z).

(** ** Validation *)

Definition pure_step (c : Z) : option (Z * bool) :=
  if EOC <=? c then Some (c, true)
  else if (c <? 2) || (limit g <=? c) then None
  else if EOC <=? f c then Some (f c, true)
  else if (f c <? 2) || (limit g <=? f c) then None else Some (f c, false).

Lemma wp_chain_step v c : st g f D v ->
  wp (fat32_chain_step g c (limit g)) v (fun r v' => r = pure_step c /\ same g v v').
Proof using Hg.
  intros Hs. unfold fat32_chain_step, pure_step. pose proof (same_refl g v (st_cache _ _ _ _ Hs)).
  destruct (EOC <=? c) eqn:He; [by apply wp_ret |]. destruct ((c <? 2) || (limit g <=? c)) eqn:Hc; [by apply wp_ret |].
  bool_to_prop. apply wp_bind. eapply wp_mono; [apply (wp_read_entry g Hg f D); [done | lia] |]. intros e v' [-> Hsame].
  apply wp_ret. split; [| done]. by destruct (EOC <=? f c), ((f c <? 2) || (limit g <=? f c)).
Qed.

(** The walk of the two pointers, on the function [f]. *)
Definition floyd_step (slow fast : Z) : Z * Z + bool :=
  match pure_step slow with
  | None => inr false
  | Some (_, true) => inr true
  | Some (slow', false) =>
      match pure_step fast with
      | None => inr false
      | Some (_, true) => inr true
      | Some (fast', false) =>
          match pure_step fast' with
          | None => inr false
          | Some (_, true) => inr true
          | Some (fast'', false) => if slow' =? fast'' then inr false else inl (slow', fast'')
          end
      end
  end.

Fixpoint floyd (n : nat) (slow fast : Z) : bool :=
  match n with
  | O => false
  | S n' => match floyd_step slow fast with inr b => b | inl (slow', fast') => floyd n' slow' fast' end
  end.

Lemma wp_acyclic_step v slow fast : st g f D v ->
  wp (acyclic_step g (limit g) slow fast) v (fun r v' => r = floyd_step slow fast /\ same g v v').
Proof using Hg.
  intros Hs. unfold acyclic_step, floyd_step. apply wp_bind. eapply wp_mono; [by apply wp_chain_step |].
  intros ? v1 [-> H1]. pose proof (st_same g _ _ _ _ Hs H1) as Hs1. destruct (pure_step slow) as [[slow' []] |]; [by apply wp_ret | | by apply wp_ret].
  apply wp_bind. eapply wp_mono; [by apply wp_chain_step |]. intros ? v2 [-> H2].
  pose proof (st_same g _ _ _ _ Hs1 H2) as Hs2. pose proof (same_trans g _ _ _ H1 H2) as H02.
  destruct (pure_step fast) as [[fast' []] |]; [by apply wp_ret | | by apply wp_ret].
  apply wp_bind. eapply wp_mono; [by apply wp_chain_step |]. intros ? v3 [-> H3].
  pose proof (same_trans g _ _ _ H02 H3) as H03. destruct (pure_step fast') as [[fast'' []] |]; by apply wp_ret.
Qed.

Lemma wp_acyclic_steps n : forall v slow fast, st g f D v ->
  wp (acyclic_steps g (limit g) n slow fast) v (fun b v' => b = floyd n slow fast /\ same g v v').
Proof using Hg.
  induction n as [| n IH]; intros v slow fast Hs; cbn [acyclic_steps floyd].
  { apply wp_ret. split; [done |]. apply same_refl, Hs. }
  apply wp_bind. eapply wp_mono; [by apply wp_acyclic_step |]. intros ? v1 [-> H1].
  destruct (floyd_step slow fast) as [[slow' fast'] | b]; [| by apply wp_ret].
  eapply wp_mono; [apply IH, (st_same g _ _ _ _ Hs H1) |]. intros b v2 [-> H2]. split; [done | by eapply same_trans].
Qed.

Lemma pure_step_some c next b : c < EOC -> pure_step c = Some (next, b) ->
  is_cluster g c /\ next = f c /\ if b then EOC <= f c else is_cluster g (f c).
Proof.
  intros Hc. unfold pure_step, is_cluster. replace (EOC <=? c) with false by lia.
  repeat case_match; intros; simplify_eq; bool_to_prop; lia.
Qed.

(** The verdict is right when it is positive... *)
Lemma floyd_sound start n : forall slow fast, is_cluster g slow \/ slow = start -> is_cluster g fast \/ fast = start -> start < EOC ->
  (has_chain g f slow -> has_chain g f start) -> (has_chain g f fast -> has_chain g f start) ->
  floyd n slow fast = true -> has_chain g f start.
Proof using Hg.
  destruct (limit_bound g Hg) as (_ & _ & Hlim).
  assert (Hin : forall c, start < EOC -> is_cluster g c \/ c = start -> c < EOC) by (unfold is_cluster; lia).
  assert (Hend : forall c next, c < EOC -> pure_step c = Some (next, true) -> has_chain g f c).
  { intros c next Hc (H1 & _ & H2)%pure_step_some; [| done]. exists []. by split. }
  assert (Hmid : forall c next, c < EOC -> pure_step c = Some (next, false) -> is_cluster g next /\ (has_chain g f next -> has_chain g f c)).
  { intros c next Hc (H1 & -> & H2)%pure_step_some; [| done]. split; [done |]. intros [l Hl]. exists (f c :: l). by apply linked_cons. }
  induction n as [| n IH]; intros slow fast Hs Hf Hst Ks Kf H; [done |]. cbn [floyd] in H. unfold floyd_step in H.
  destruct (pure_step slow) as [[slow' []] |] eqn:E1; [exact (Ks (Hend _ _ (Hin _ Hst Hs) E1)) | | done].
  destruct (pure_step fast) as [[fast' []] |] eqn:E2; [exact (Kf (Hend _ _ (Hin _ Hst Hf) E2)) | | done].
  destruct (Hmid _ _ (Hin _ Hst Hs) E1) as [Hs' K1]. destruct (Hmid _ _ (Hin _ Hst Hf) E2) as [Hf' K2].
  destruct (pure_step fast') as [[fast'' []] |] eqn:E3; [exact (Kf (K2 (Hend _ _ (Hin _ Hst (or_introl Hf')) E3))) | | done].
  destruct (Hmid _ _ (Hin _ Hst (or_introl Hf')) E3) as [Hf'' K3].
  destruct (slow' =? fast''); [done |]. eapply IH; [| | done | | | done]; auto.
Qed.

(** ... and positive when there is a chain: the pointers cannot meet on it
    and the slow one comes to its end in time. *)
Lemma pure_step_chain l k c : linked g f l -> l !! k = Some c ->
  if decide (S k < length l)%nat then exists c', l !! S k = Some c' /\ pure_step c = Some (c', false) 
  else exists c', pure_step c = Some (c', true).
Proof using Hg.
  destruct (limit_bound g Hg) as (_ & _ & Hlim). intros Hl Hk. destruct (linked_next g f l k c Hl Hk) as [Hc He].
  unfold pure_step, is_cluster in *. replace (EOC <=? c) with false by lia. replace ((c <? 2) || (limit g <=? c)) with false by lia.
  case_decide.
  - exists (f c). split; [done |]. assert (Hc' : is_cluster g (f c)) by (eapply linked_cluster; [done |]; by eapply list_elem_of_lookup_2).
    unfold is_cluster in Hc'. replace (EOC <=? f c) with false by lia. by replace ((f c <? 2) || (limit g <=? f c)) with false by lia.
  - replace (EOC <=? f c) with true by lia. by eexists.
Qed.

Lemma floyd_complete l n : forall k slow fast, linked g f l -> l !! k = Some slow -> l !! (2 * k)%nat = Some fast ->
  (length l <= n + k)%nat -> floyd n slow fast = true.
Proof using Hg.
  destruct (limit_bound g Hg) as (_ & _ & Hlim).
  induction n as [| n IH]; intros k slow fast Hl Hs Hf Hn; [apply lookup_lt_Some in Hs; lia |].
  cbn [floyd]. unfold floyd_step. pose proof (pure_step_chain l k slow Hl Hs) as P1. case_decide; [| by destruct P1 as (? & ->)].
  destruct P1 as (slow' & Hs' & ->). pose proof (pure_step_chain l (2 * k) fast Hl Hf) as P2. case_decide; [| by destruct P2 as (? & ->)].
  destruct P2 as (fast' & Hf' & ->). pose proof (pure_step_chain l (S (2 * k)) fast' Hl Hf') as P3. case_decide; [| by destruct P3 as (? & ->)].
  destruct P3 as (fast'' & Hf'' & ->). destruct (Z.eqb_spec slow' fast'') as [-> |].
  - pose proof (NoDup_lookup _ _ _ _ (linked_NoDup g f Hlim l Hl) Hs' Hf''). lia.
  - eapply (IH (S k)); [done | done | | lia]. by replace (2 * S k)%nat with (S (S (2 * k))) by lia.
Qed.

Lemma floyd_spec start : start < EOC -> floyd (Z.to_nat (limit g - 2)) start start = true <-> has_chain g f start.
Proof using Hg.
  intros Hst. destruct (limit_bound g Hg) as (_ & _ & Hlim). split.
  - apply floyd_sound; auto.
  - intros [l Hl]. apply (floyd_complete (start :: l) _ 0); [done | done | done |].
    pose proof (linked_length g f Hlim _ Hl). lia.
Qed.

Lemma wp_chain_is_acyclic v start : st g f D v -> start < EOC ->
  wp (fat32_chain_is_acyclic g start (limit g)) v (fun b v' => same g v v' /\ (b = true <-> has_chain g f start)).
Proof using Hg.
  intros Hs Hst. eapply wp_mono; [by apply wp_acyclic_steps |]. intros b v' [-> H]. split; [done |]. by apply floyd_spec.
Qed.
End volume_state.

(** ** Freeing *)

Lemma st_ext f f' D v : (forall c, 0 <= c < limit g -> f c = f' c) -> st g f D v -> st g f' D v.
Proof.
  intros He [? ? ? Hf ? [? Hn]]. split; [done | done | done | | done |].
  - intros c Hc. rewrite <- He by done. auto.
  - split; [done |]. rewrite <- (nfree_ext g f f'); [done |]. intros c Hc. unfold is_cluster in Hc. by rewrite He by lia.
Qed.

Definition free_all (f : Z -> Z) (l : list Z) : Z -> Z := fun c => if decide (c ∈ l) then 0 else f c.

Lemma st_hint f D v c : st g f D v -> is_cluster g c ->
  st g f D (if c <? next_free_hint v then set_dirty (fsinfo_valid v) (set_hint c v) else v).
Proof.
  intros Hs Hc. case_match; [| done]. destruct Hs as [[] ? ? ? ? [? ?]]. split; try done.
Qed.

Lemma wp_free_steps D n : forall f v c l, st g f D v -> linked g f (c :: l) -> (length (c :: l) <= n)%nat ->
  wp (free_steps g n c) v (fun _ v' =>
    st g (free_all f (c :: l)) D v' /\ next_free_hint v' = foldl Z.min (next_free_hint v) (c :: l)).
Proof using Hg.
  destruct (limit_bound g Hg) as (_ & _ & Hlim).
  induction n as [| n IH]; intros f v c l Hs Hl Hn; [cbn in Hn; lia |]. cbn [free_steps].
  assert (Hc : is_cluster g c) by apply Hl. pose proof Hc as Hc'. unfold is_cluster in Hc'.
  replace (is_data_cluster c) with true by (unfold is_data_cluster; lia). cbn [negb].
  apply wp_bind. eapply wp_mono; [apply (wp_read_entry g Hg f D); [done | lia] |]. intros e v1 [-> H1].
  pose proof (st_same g _ _ _ _ Hs H1) as Hs1. apply wp_bind.
  eapply wp_mono; [by apply (wp_write_fat_entry g Hg f D v1 c 0) |]. intros rc v2 (-> & Hs2 & Hh). cbn [Z.eqb negb].
  change (Z.land 0 ENTRY_MASK) with 0 in Hs2. apply wp_bind. eapply wp_val; [done |].
  pose proof (st_hint _ _ _ _ Hs2 Hc) as Hs3. 
  set (v3 := if c <? next_free_hint v2 then set_dirty (fsinfo_valid v2) (set_hint c v2) else v2) in *.
  assert (Hh3 : next_free_hint v3 = next_free_hint v `min` c).
  { subst v3. rewrite (proj1 H1) in Hh. cbn in Hh. case_match; bool_to_prop; cbn; lia. }
  clearbody v3. destruct l as [| x l].
  - replace (EOC <=? f c) with true by (symmetry; apply Z.leb_le, (proj2 Hl)). apply wp_ret.
    split; [| cbn; lia]. eapply st_ext; [| exact Hs3]. intros y Hy. unfold fupd, free_all. 
    destruct (decide (y = c)) as [-> |]; [by rewrite decide_True by by left |]. rewrite decide_False; [done |].
    by intros [-> | ?%elem_of_nil]%elem_of_cons.
  - pose proof (linked_NoDup g f Hlim _ Hl) as [Hnc _]%NoDup_cons. destruct Hl as (_ & -> & Hl). pose proof (linked_cluster g f _ x Hl ltac:(by left)) as Hx. unfold is_cluster in Hx.
    replace (EOC <=? x) with false by lia.
    eapply wp_mono; [apply (IH (fupd f c 0) v3 x l Hs3) |].
    + apply (linked_ext g f); [done |]. intros y Hy. apply fupd_ne. by intros ->.
    + cbn in *; lia.
    + intros [] v4 [Hs4 Hh4]. split; [| rewrite Hh4, Hh3; done]. eapply st_ext; [| exact Hs4]. intros y Hy.
      unfold free_all, fupd. destruct (decide (y ∈ x :: l)) as [H' |].
      { by rewrite decide_True by by right. }
      destruct (decide (y = c)) as [-> |]; [by rewrite decide_True by by left |]. rewrite decide_False; [done |].
      by intros [? | ?]%elem_of_cons.
Qed.

Lemma is_data_cluster_true c : is_cluster g c -> is_data_cluster c = true.
Proof using Hg. destruct (limit_bound g Hg) as (_ & _ & Hlim). unfold is_cluster, is_data_cluster. lia. Qed.

Lemma wp_free_chain f D v c l : st g f D v -> linked g f (c :: l) ->
  wp (fat32_free_chain g c) v (fun _ v' =>
    st g (free_all f (c :: l)) D v' /\ next_free_hint v' = foldl Z.min (next_free_hint v) (c :: l)).
Proof using Hg.
  intros Hs Hl. destruct (limit_bound g Hg) as (? & _ & Hlim). assert (Hc : is_cluster g c) by apply Hl.
  unfold fat32_free_chain. rewrite (is_data_cluster_true c Hc), cluster_limit_eq by done. cbn [negb].
  replace (limit g <=? 2) with false by lia. apply wp_bind.
  eapply wp_mono; [apply (wp_chain_is_acyclic f D); [done | unfold is_cluster in Hc; lia] |]. intros b v1 [H1 Hb].
  rewrite (proj2 Hb) by by exists l. eapply wp_mono; [apply (wp_free_steps D) with (l := l); [by eapply st_same | done |] |].
  - pose proof (linked_length g f Hlim _ Hl). lia.
  - intros [] v2 [Hs2 Hh]. split; [done |]. by rewrite Hh, (proj1 H1).
Qed.

Lemma wp_free_chain_bad f D v c : st g f D v -> ~ has_chain g f c -> wp (fat32_free_chain g c) v (fun _ v' => same g v v').
Proof using Hg.
  intros Hs Hn. destruct (limit_bound g Hg) as (? & _ & Hlim). pose proof (same_refl g v (st_cache _ _ _ _ Hs)).
  unfold fat32_free_chain. destruct (is_data_cluster c) eqn:Hc; [| by apply wp_ret]. cbn [negb]. rewrite cluster_limit_eq by done.
  replace (limit g <=? 2) with false by lia. unfold is_data_cluster in Hc. bool_to_prop. apply wp_bind.
  eapply wp_mono; [by apply (wp_chain_is_acyclic f D) |]. intros b v1 [Hsm Hb].
  destruct b; [by destruct Hn; apply Hb | by apply wp_ret].
Qed.

(** ** Allocation of a run *)

(** The FAT with a chain of the [n] consecutive clusters from [c]. *)
Definition run_fat (f : Z -> Z) (c n : Z) : Z -> Z := fun x =>
  if decide (c <= x < c + n) then (if decide (x = c + n - 1) then EOC_MARK else x + 1) else f x.

Section sector_run.
Context (s : list Z) (abs : Z).
Hypothesis Hs : sector_ok s.
Hypothesis Habs : 0 <= abs < spf32 g.

Lemma abs_u32 i : 0 <= i < 128 -> u32 (abs * 128 + i) = abs * 128 + i.
Proof using Hg Habs. intros. pose proof Hg as []. apply u32_small. lia. Qed.

Lemma limit_u32 : u32 (total_data_clusters g + 2) = limit g.
Proof using Hg. destruct (limit_bound g Hg) as (? & ? & ?). unfold limit, EOC in *. apply u32_small. lia. Qed.

Lemma find_free_spec n : forall i, i + Z.of_nat n = 128 -> 0 <= i ->
  match find_free g s abs i n with
  | Some j => i <= j < 128 /\ is_cluster g (abs * 128 + j) /\ sec_entry s j = 0
  | None => forall j, i <= j < 128 -> is_cluster g (abs * 128 + j) -> sec_entry s j <> 0
  end.
Proof using Hg Habs.
  induction n as [| n IH]; intros i Hi H0; cbn [find_free]; [intros; lia |]. rewrite abs_u32, limit_u32 by lia.
  specialize (IH (i + 1) ltac:(lia) ltac:(lia)). unfold is_cluster in *. destruct (_ || _) eqn:Hb; bool_to_prop.
  - destruct (find_free g s abs (i + 1) n); [split_and!; lia || apply IH |]. intros j Hj Hc. destruct (decide (j = i)); [lia |]. apply IH; lia.
  - unfold entry_free. fold (sec_entry s i). destruct (Z.eqb_spec (sec_entry s i) 0); [split_and!; (done || lia) |].
    destruct (find_free g s abs (i + 1) n); [split_and!; lia || apply IH |]. intros j Hj Hc.
    destruct (decide (j = i)) as [-> |]; [done |]. apply IH; lia.
Qed.

(** The run: clusters of the volume, free, within the sector. *)
Definition free_run (i n : Z) : Prop :=
  i + n <= 128 /\ forall j, 0 <= j < n -> is_cluster g (abs * 128 + i + j) /\ sec_entry s (i + j) = 0.

Lemma run_length_spec i wanted n : forall run, 0 <= i -> 0 < run <= wanted -> free_run i run ->
  let m := run_length g s (abs * 128 + i) i wanted run n in run <= m <= wanted /\ free_run i m.
Proof using Hg Habs.
  induction n as [| n IH]; intros run Hi Hr Hf; cbn [run_length]; [split; [lia | done] |].
  assert (Hrun : abs * 128 + i + run <= spf32 g * 128) by (destruct Hf; lia).
  destruct (_ && _) eqn:Hb; [| split; [lia | done]]. bool_to_prop. unfold entry_free in *. fold (sec_entry s (i + run)) in *.
  bool_to_prop. rewrite limit_u32 in *. pose proof (go_spf_max g Hg).
  assert (Hu : u32 (abs * 128 + i + run) = abs * 128 + i + run) by (apply u32_small; destruct Hf; lia).
  rewrite Hu in *. destruct (IH (run + 1)) as [Hm1 Hm2]; [lia | lia | | split; [lia | done]].
  destruct Hf as [Hf1 Hf2]. split; [lia |]. intros j Hj. destruct (decide (j = run)) as [-> |]; [| apply Hf2; lia].
  split; [| done]. destruct (Hf2 0 ltac:(lia)) as [Hc _]. unfold is_cluster in *. lia.
Qed.
End sector_run.

Lemma land_entry x : 0 <= x <= ENTRY_MASK -> Z.land x ENTRY_MASK = x.
Proof. intros Hx. unfold ENTRY_MASK in *. change 0x0FFFFFFF with (Z.ones 28). rewrite Z.land_ones by lia. apply Z.mod_small. lia. Qed.

Lemma store_run_spec c i n : forall s j, sector_ok s -> 0 <= i -> 0 <= j -> i + j + Z.of_nat n <= 128 ->
  0 <= c -> c + j + Z.of_nat n <= EOC ->
  sector_ok (store_run s c i j n) /\
  forall x, 0 <= x < 128 -> sec_entry (store_run s c i j n) x =
    if decide (i + j <= x < i + j + Z.of_nat n)
    then (if decide (x = i + j + Z.of_nat n - 1) then EOC_MARK else c + (x - i) + 1) else sec_entry s x.
Proof.
  induction n as [| n IH]; intros s j Hs Hi Hj Hn Hc Hm; cbn [store_run].
  { split; [done |]. intros x Hx. by rewrite decide_False by lia. }
  set (val := if (n =? 0)%nat then EOC_MARK else c + j + 1).
  assert (Hv : Z.land val ENTRY_MASK = val).
  { apply land_entry. unfold val, EOC, EOC_MARK, ENTRY_MASK in *. case_match; lia. }
  destruct (IH (fat32_store_entry s ((i + j) * 4) val) (j + 1)) as [H1 H2];
    [by apply (sec_entry_store s (i + j) val 0); [| lia..] | lia.. |].
  split; [done |]. intros x Hx. rewrite H2 by done.
  destruct (sec_entry_store s (i + j) val x) as [_ ->]; [done | lia | lia |]. rewrite Hv. unfold val.
  destruct (Nat.eqb_spec n 0); repeat case_decide; try lia; done.
Qed.

Lemma account_run_ok c n : forall f v, sum_ok g f v -> 0 <= n ->
  (forall j, 0 <= j < n -> is_cluster g (c + j) /\ f (c + j) = 0) ->
  sum_ok g (run_fat f c n) (account_run g (Z.to_nat n) v) /\
  fsinfo_valid (account_run g (Z.to_nat n) v) = fsinfo_valid v.
Proof using Hg.
  intros f v Hs Hn. revert f v Hs. revert n Hn. apply (natlike_ind (fun n => forall f v, sum_ok g f v ->
    (forall j, 0 <= j < n -> is_cluster g (c + j) /\ f (c + j) = 0) ->
    sum_ok g (run_fat f c n) (account_run g (Z.to_nat n) v) /\ fsinfo_valid (account_run g (Z.to_nat n) v) = fsinfo_valid v)).
  - intros f v Hs _. split; [| done]. destruct Hs as [? Hs]. split; [done |]. rewrite (nfree_ext g (run_fat f c 0) f); [done |].
    intros x _. unfold run_fat. by rewrite decide_False by lia.
  - intros n Hn IH f v Hs Hf. rewrite Z2Nat.inj_succ by done. cbn [account_run].
    destruct (Hf n) as [Hc H0]; [lia |]. 
    destruct (account_ok g Hg f (c + n) v 0 EOC_MARK Hs Hc H0) as (Hs' & _ & Hv).
    destruct (IH _ _ Hs') as [IH1 IH2].
    { intros j Hj. split; [apply Hf; lia |]. rewrite fupd_ne by lia. apply Hf. lia. }
    split; [| by rewrite IH2, Hv]. destruct IH1 as [? IH1]. split; [done |].
    rewrite (nfree_ext g _ (run_fat (fupd f (c + n) (Z.land EOC_MARK ENTRY_MASK)) c n)); [done |].
    intros x Hx. unfold run_fat, fupd, is_cluster in *. change (Z.land EOC_MARK ENTRY_MASK) with 0x0FFFFFFF.
    unfold EOC_MARK. repeat case_decide; lia.
Qed.

Definition all_free (f : Z -> Z) (c n : Z) : Prop := forall j, 0 <= j < n -> is_cluster g (c + j) /\ f (c + j) = 0.

(** The outcome of [fat32_allocate_run]. *)
Definition got_run (f : Z -> Z) (D : Z -> list Z) (wanted : Z) (v : volume) (x : Z + Z * Z * Z) (v' : volume) : Prop :=
  match x with
  | inl rc => rc = - ENOSPC /\ v' = v /\ forall c, is_cluster g c -> f c <> 0
  | inr (c, last, n) => 0 < n <= wanted /\ last = c + n - 1 /\ all_free f c n /\ st g (run_fat f c n) D v'
  end.

Lemma st_finish f D v h : st g f D v -> 2 <= h < limit g -> st g f D (set_dirty (fsinfo_valid v) (set_hint h v)).
Proof. intros [[] ? ? ? ? [? ?]] Hh. split; try done. Qed.

Lemma wp_take_run f D v wanted abs i : st g f D v -> 0 <= abs < spf32 g -> 0 <= i < 128 -> 0 < wanted ->
  is_cluster g (abs * 128 + i) -> sec_entry (psec g v (fat_start_lba g + abs)) i = 0 ->
  wp (take_run g (psec g v (fat_start_lba g + abs)) abs i wanted) v (got_run f D wanted v).
Proof using Hg.
  intros Hs Ha Hi Hw Hc Hfree. set (s := psec g v (fat_start_lba g + abs)) in *.
  assert (Hso : sector_ok s) by apply (st_dok _ _ _ _ Hs). pose proof Hg as Hg'. destruct Hg'.
  destruct (limit_bound g Hg) as (Hl1 & Hl2 & Hl3). unfold take_run. rewrite (abs_u32 abs Ha i Hi), (u32_small (fat_start_lba g + abs)) by lia.
  destruct (run_length_spec s abs Ha i wanted (Z.to_nat (wanted `min` 128)) 1) as [Hm [Hm128 Hrun]]; [lia | lia | |].
  { split; [lia |]. intros j Hj. replace j with 0 by lia. by replace (abs * 128 + i + 0) with (abs * 128 + i) by lia; replace (i + 0) with i by lia. }
  set (m := run_length g s (abs * 128 + i) i wanted 1 (Z.to_nat (wanted `min` 128))) in *. clearbody m.
  set (c := abs * 128 + i) in *. assert (Ec : c = abs * 128 + i) by done. clearbody c. destruct (Hrun (m - 1) ltac:(lia)) as [Hlast _]. unfold is_cluster in Hlast.
  destruct (store_run_spec c i (Z.to_nat m) s 0) as [Hok Hse]; [done | lia.. |]. rewrite Z2Nat.id in Hse by lia.
  assert (Hf : all_free f c m).
  { intros j Hj. destruct (Hrun j Hj) as [Hcj He]. split; [done |]. unfold is_cluster in Hcj. rewrite (st_fat _ _ _ _ Hs (c + j)) by lia. unfold entry.
    replace ((c + j) / 128) with abs by (subst c; Z.to_euclidean_division_equations; lia).
    replace ((c + j) mod 128) with (i + j) by (subst c; Z.to_euclidean_division_equations; lia). exact He. }
  apply (wp_write_both g Hg); [apply Hs | apply Hs | done | done | apply quiet_account_run |].
  intros v' Hwr. destruct (account_run_ok c m f v (st_sum _ _ _ _ Hs) ltac:(lia) Hf) as [Hsum _].
  assert (Hst : st g (run_fat f c m) D v').
  { eapply st_written; [done | done | exact Ha | exact Hwr | | done]. intros x Hx. unfold run_fat. case_decide as Hin.
    - rewrite (decide_True (P := x / 128 = abs)) by (subst c; Z.to_euclidean_division_equations; lia).
      rewrite Hse by (apply Z.mod_pos_bound; lia). assert (x mod 128 = x - abs * 128) by (subst c; Z.to_euclidean_division_equations; lia).
      repeat case_decide; lia || done.
    - case_decide as Hx128; [| done]. rewrite Hse by (apply Z.mod_pos_bound; lia).
      assert (x mod 128 = x - abs * 128) by (Z.to_euclidean_division_equations; lia). rewrite decide_False by lia.
      rewrite (st_fat _ _ _ _ Hs x Hx). unfold entry, sec_entry. by rewrite Hx128. }
  rewrite limit_u32, (u32_small (c + m)) by (done || unfold EOC in *; lia).
  apply wp_bind. eapply wp_val; [done |]. apply wp_bind. eapply wp_val; [done |]. apply wp_ret. cbn.
  split_and!; [lia | lia | done | done |]. apply (st_finish _ _ v' _ Hst). case_match; bool_to_prop; lia.
Qed.

Lemma wp_allocate_run f D v wanted : st g f D v -> 0 < wanted -> wp (fat32_allocate_run g wanted) v (got_run f D wanted v).
Proof using Hg.
  intros Hs Hw. pose proof Hg as Hg'. destruct Hg'. destruct (limit_bound g Hg) as (Hl1 & Hl2 & Hl3). unfold EOC in Hl3.
  pose proof (st_sum _ _ _ _ Hs) as [Hh _]. unfold fat32_allocate_run. replace (wanted =? 0) with false by lia.
  apply wp_bind. eapply wp_val; [done |]. set (h := next_free_hint v / 128).
  assert (Hhb : 0 <= h < spf32 g) by (subst h; Z.to_euclidean_division_equations; lia).
  apply (wp_ploop (fun n sec v' => v' = v /\ 0 <= sec <= spf32 g /\ n = spf32 g - sec /\
      forall k c, 0 <= k < sec -> is_cluster g c -> c / 128 = (h + k) mod spf32 g -> f c <> 0)) with (n := spf32 g);
    [| split_and!; [done | lia | lia | lia | intros; lia] | change (2 ^ Z.of_nat 32) with (2 ^ 32); lia].
  intros n sec v' (-> & Hsec & -> & Hno). unfold allocate_round. fold h. destruct (Z.ltb_spec sec (spf32 g)); cbn [negb]; last first.
  { apply wp_ret. split_and!; [done | done |]. intros c Hc.
    assert (Hcs : 0 <= c / 128 < spf32 g) by (unfold is_cluster in Hc; Z.to_euclidean_division_equations; lia).
    apply (Hno ((c / 128 - h) mod spf32 g)); [pose proof (Z.mod_pos_bound (c / 128 - h) (spf32 g)); lia | done |].
    by rewrite ring_offset_to. }
  rewrite (u32_small (h + sec)) by lia. set (abs := (h + sec) mod spf32 g).
  assert (Ha : 0 <= abs < spf32 g) by (apply Z.mod_pos_bound; lia). rewrite (u32_small (fat_start_lba g + abs)) by lia.
  apply wp_bind. eapply wp_val; [apply read_sector_eq; [apply Hs | lia] |]. cbn [concat]. rewrite app_nil_r.
  set (s := psec g v (fat_start_lba g + abs)). pose proof (find_free_spec s abs Ha 128 0 eq_refl ltac:(lia)) as Hff.
  destruct (find_free g s abs 0 128) as [i |].
  - destruct Hff as (Hi & Hc & He). apply wp_bind. eapply wp_mono; [by apply (wp_take_run f D) |]. intros x v' Hx. by apply wp_ret.
  - apply wp_ret. eexists. split; [| shelve]. split_and!; [done | lia | lia | reflexivity |]. intros k c Hk Hc Hck.
    destruct (decide (k = sec)) as [-> |]; [| apply (Hno k); (done || lia)]. fold abs in Hck.
    rewrite (st_fat _ _ _ _ Hs c) by (unfold is_cluster in Hc; lia). unfold entry. rewrite Hck. fold s. fold (sec_entry s (c mod 128)).
    apply Hff; [apply Z.mod_pos_bound; lia |]. by replace (abs * 128 + c mod 128) with c by (Z.to_euclidean_division_equations; lia).
    Unshelve. lia.
Qed.

(** ** Detached chains *)

(** The cluster a sector of the data area belongs to. *)
Definition sector_cluster (k : Z) : Z := (k - data_start_lba g) / sectors_per_cluster g + 2.
Definition in_clusters (l : list Z) (k : Z) : Prop := data_start_lba g <= k /\ sector_cluster k ∈ l.
#[local] Instance in_clusters_dec l k : Decision (in_clusters l k).
Proof. unfold in_clusters. apply _. Defined.

Definition zero_sector : list Z := replicate 512 0.
Definition zeroed (D : Z -> list Z) (l : list Z) : Z -> list Z := fun k => if decide (in_clusters l k) then zero_sector else D k.

Lemma zero_sector_ok : sector_ok zero_sector.
Proof. split; [done |]. by apply Forall_replicate. Qed.

Lemma mul_spc a b : a <= b -> a * sectors_per_cluster g <= b * sectors_per_cluster g.
Proof using Hg. intros. pose proof (go_spc g Hg). apply Z.mul_le_mono_nonneg_r; lia. Qed.

Lemma cluster_lba_eq c : is_cluster g c -> cluster_lba g c = data_start_lba g + (c - 2) * sectors_per_cluster g /\
  data_start_lba g <= cluster_lba g c.
Proof using Hg.
  intros Hc. pose proof Hg as []. unfold is_cluster, limit, cluster_lba in *. rewrite (u32_small (c - 2)) by lia.
  pose proof (mul_spc (c - 2) (total_data_clusters g)). pose proof (mul_spc 0 (c - 2)). rewrite u32_small by lia. lia.
Qed.

Lemma in_run c n k : 2 <= c -> 0 < n ->
  in_clusters (seqZ c n) k <->
  data_start_lba g + (c - 2) * sectors_per_cluster g <= k < data_start_lba g + (c - 2) * sectors_per_cluster g + n * sectors_per_cluster g.
Proof using Hg.
  intros Hc Hn. unfold in_clusters, sector_cluster. rewrite elem_of_seqZ. pose proof (go_spc g Hg) as Hspc.
  pose proof (mul_spc 0 (c - 2)). set (x := k - data_start_lba g). set (q := x / sectors_per_cluster g).
  assert (Hq : sectors_per_cluster g * q <= x < sectors_per_cluster g * q + sectors_per_cluster g).
  { subst q. pose proof (Z.div_mod x (sectors_per_cluster g)). pose proof (Z.mod_pos_bound x (sectors_per_cluster g)). lia. }
  split; intros H1.
  - pose proof (mul_spc (c - 2) q). pose proof (mul_spc (q + 1) (c - 2 + n)). lia.
  - split; [lia |]. split; apply Z.nlt_ge || apply Z.nle_gt; intros H2.
    + pose proof (mul_spc (q + 1) (c - 2)). lia.
    + pose proof (mul_spc (c - 2 + n) q). lia.
Qed.

(** Zeroing a run. *)
Lemma wp_zero_run f D v c n : st g f D v -> 0 < n -> is_cluster g c -> is_cluster g (c + n - 1) -> n * sectors_per_cluster g <= AHCI_MAX_SECTORS ->
  wp (write_sectors g (cluster_lba g c) (replicate (Z.to_nat (n * sectors_per_cluster g)) zero_sector)) v
    (fun rc v' => rc = 0 /\ st g f (zeroed D (seqZ c n)) v').
Proof using Hg.
  intros Hs Hn Hc Hl Hmax. destruct (cluster_lba_eq c Hc) as [El Hge]. pose proof Hg as [].
  unfold is_cluster, limit, AHCI_MAX_SECTORS in *. pose proof (mul_spc (c + n - 2) (total_data_clusters g)) as Hle.
  assert (Hpos : 0 < n * sectors_per_cluster g) by (apply Z.mul_pos_pos; lia).
  eapply wp_val; [apply write_sectors_eq; rewrite ?length_replicate, ?Z2Nat.id by lia; [apply Hs | lia | unfold is_u32; lia | | rewrite El; lia] |].
  { intros E%(f_equal length). rewrite length_replicate in E. cbn in E. lia. }
  split; [done |]. apply (st_put_data g Hg f D); [done | by right | apply Forall_replicate, zero_sector_ok |].
  intros k. rewrite length_replicate, Z2Nat.id by lia. unfold zeroed. pose proof (in_run c n k ltac:(lia) Hn) as Hin. rewrite <- El in Hin.
  case_decide; [rewrite decide_True by tauto | by rewrite decide_False by tauto].
  apply Hin in H. by rewrite lookup_replicate_2 by lia.
Qed.

(** *** The chain under construction *)

(** The clusters of [l], free in [f], are a chain of [f'] and nothing else
    changed. *)
Record grown (f : Z -> Z) (D : Z -> list Z) (l : list Z) (f' : Z -> Z) (D' : Z -> list Z) : Prop := {
  gr_chain : l <> [] -> linked g f' l;
  gr_free : forall c, c ∈ l -> is_cluster g c /\ f c = 0;
  gr_same : forall c, c ∉ l -> f' c = f c;
  gr_zero : forall k, D' k = zeroed D l k;
}.

Lemma linked_nonzero f l c : linked g f l -> c ∈ l -> f c <> 0.
Proof.
  intros Hl [k Hk]%list_elem_of_lookup. destruct (linked_next g f l k c Hl Hk) as [_ He]. case_decide; [| unfold EOC in He; lia].
  pose proof (linked_cluster g f l (f c) Hl ltac:(by eapply list_elem_of_lookup_2)). unfold is_cluster in *. lia.
Qed.

Lemma elem_of_free_list f c : c ∈ free_list g f <-> f c = 0 /\ is_cluster g c.
Proof. unfold free_list. rewrite list_elem_of_filter, elem_of_seqZ. unfold is_cluster, limit. intuition lia. Qed.

Lemma nfree_chain f l f' : (l <> [] -> linked g f' l) -> (forall c, c ∈ l -> is_cluster g c /\ f c = 0) ->
  (forall c, c ∉ l -> f' c = f c) -> nfree g f = Z.of_nat (length l) + nfree g f'.
Proof using Hg.
  intros Hch Hf Hs. destruct (limit_bound g Hg) as (_ & _ & Hlim). unfold nfree.
  enough (free_list g f ≡ₚ l ++ free_list g f') as -> by (rewrite length_app; lia).
  assert (Hnz : forall c, c ∈ l -> f' c <> 0) by (intros c Hc; apply (linked_nonzero f' l); [apply Hch; intros ->; by apply elem_of_nil in Hc | done]).
  apply NoDup_Permutation.
  - apply NoDup_filter, NoDup_seqZ.
  - apply NoDup_app. split_and!.
    + destruct l; [constructor | by apply (linked_NoDup g f' Hlim), Hch].
    + intros c Hc [H0 _]%elem_of_free_list. by apply (Hnz c).
    + apply NoDup_filter, NoDup_seqZ.
  - intros c. rewrite elem_of_app, !elem_of_free_list. destruct (decide (c ∈ l)) as [Hc | Hc].
    + destruct (Hf c Hc). tauto.
    + rewrite (Hs c Hc). tauto.
Qed.

Lemma grown_nfree f D l f' D' : grown f D l f' D' -> nfree g f = Z.of_nat (length l) + nfree g f'.
Proof using Hg. intros []. by apply nfree_chain. Qed.

Lemma linked_append f f1 f2 l c l2 : linked g f1 l -> linked g f2 (c :: l2) ->
  (forall x, x ∈ l -> last l <> Some x -> f x = f1 x) -> (forall x, last l = Some x -> f x = c) ->
  (forall x, x ∈ c :: l2 -> f x = f2 x) -> linked g f (l ++ c :: l2).
Proof using Hg.
  intros H1 H2 Hi Hla H3. assert (Hb : linked g f (c :: l2)) by by apply (linked_ext g f2).
  destruct (limit_bound g Hg) as (_ & _ & Hlim). induction l as [| x [| y l] IH]; [done | |].
  - apply linked_cons; [apply H1 | by apply Hla | done].
  - pose proof (linked_NoDup g f1 Hlim _ H1) as [Hx _]%NoDup_cons.
    apply (linked_cons g f x y (l ++ c :: l2)); [apply H1 | | apply IH].
    + rewrite (Hi x); [apply H1 | by left |]. rewrite last_cons_cons. intros (l' & E)%last_Some. apply Hx. rewrite E.
      apply elem_of_app. right. by left.
    + apply H1.
    + intros z Hz Hl. apply Hi; [by right | by rewrite last_cons_cons].
    + intros z Hl. apply Hla. by rewrite last_cons_cons.
Qed.

Lemma linked_run f c n : 0 < n -> (forall j, 0 <= j < n -> is_cluster g (c + j)) -> linked g (run_fat f c n) (seqZ c n).
Proof.
  intros Hn Hc.
  assert (H : forall k m, 0 < m -> k + m = n -> 0 <= k -> linked g (run_fat f c n) (seqZ (c + k) m)).
  { intros k m Hm. revert k. apply (Zlt_lower_bound_ind (fun m => forall k, k + m = n -> 0 <= k -> linked g (run_fat f c n) (seqZ (c + k) m)) 1); [| lia].
    intros m' IH Hm' k Hk H0. rewrite seqZ_cons by lia. assert (Hr : is_cluster g (c + k)) by (apply Hc; lia).
    destruct (decide (m' = 1)) as [-> |].
    - split; [done |]. cbn. unfold run_fat. rewrite !decide_True by lia. done.
    - replace (Z.succ (c + k)) with (c + (k + 1)) by lia. pose proof (IH (Z.pred m') ltac:(lia) (k + 1) ltac:(lia) ltac:(lia)) as Hl.
      rewrite seqZ_cons in Hl |- * by lia. apply linked_cons; [done | | done].
      unfold run_fat. rewrite decide_True, decide_False by lia. lia. }
  replace c with (c + 0) at 2 by lia. apply H; lia.
Qed.

Lemma zeroed_app D l l2 k : zeroed (zeroed D l) l2 k = zeroed D (l ++ l2) k.
Proof. unfold zeroed. repeat case_decide; try done; unfold in_clusters in *; rewrite ?elem_of_app in *; tauto. Qed.

Definition link_tail (f : Z -> Z) (l : list Z) (c : Z) : Z -> Z :=
  match last l with None => f | Some tail => fupd f tail c end.

Lemma grown_add f D l f' D' c n : grown f D l f' D' -> 0 < n -> all_free f' c n ->
  grown f D (l ++ seqZ c n) (link_tail (run_fat f' c n) l c) (zeroed D' (seqZ c n)).
Proof using Hg.
  intros [Hch Hf Hs Hz] Hn Ha.
  assert (Hnin : forall x, x ∈ l -> x ∉ seqZ c n).
  { intros x Hx Hr%elem_of_seqZ. destruct (Ha (x - c) ltac:(lia)) as [_ H0]. replace (c + (x - c)) with x in H0 by lia.
    apply (linked_nonzero f' l x); [apply Hch; intros ->; by apply elem_of_nil in Hx | done | done]. }
  assert (Hrun : linked g (run_fat f' c n) (seqZ c n)) by (apply linked_run; [done |]; intros; by apply Ha).
  assert (Hlast : forall x, last l = Some x -> x ∈ l) by (intros x (l' & ->)%last_Some; apply elem_of_app; right; by left).
  unfold link_tail. split.
  - intros _. destruct (last l) as [tail |] eqn:El.
    + rewrite seqZ_cons in Hrun, Hnin |- * by lia. apply (linked_append _ f' (run_fat f' c n)); [apply Hch; by intros -> | done | | |].
      * intros x Hx Hne. rewrite fupd_ne by congruence. unfold run_fat. rewrite decide_False; [done |]. intros Hin.
        apply (Hnin x Hx). rewrite <- seqZ_cons by lia. apply elem_of_seqZ. lia.
      * intros x Hx. assert (x = tail) as -> by congruence. apply fupd_eq.
      * intros x Hx. apply fupd_ne. intros ->. by apply (Hnin tail (Hlast _ eq_refl)).
    + apply last_None in El as ->. done.
  - intros x [Hx | Hx]%elem_of_app; [by apply Hf |]. pose proof Hx as Hr%elem_of_seqZ.
    destruct (Ha (x - c) ltac:(lia)) as [H1 H0]. replace (c + (x - c)) with x in * by lia. split; [done |].
    rewrite <- Hs; [done |]. intros Hl. by apply (Hnin x).
  - intros x Hx. rewrite not_elem_of_app, elem_of_seqZ in Hx. destruct Hx as [Hx Hr].
    rewrite <- (Hs x Hx). assert (run_fat f' c n x = f' x) as E by (unfold run_fat; by rewrite decide_False by lia).
    destruct (last l) as [tail |]; [| done]. rewrite fupd_ne; [done |]. intros ->. by apply Hx, Hlast.
  - intros k. rewrite <- zeroed_app. unfold zeroed at 1 2. by rewrite Hz.
Qed.

(** The outcome of [fat32_allocate_detached]. *)
Definition detached (f : Z -> Z) (D : Z -> list Z) (count : Z) (r : Z + Z * Z) (v' : volume) : Prop :=
  if decide (count <= nfree g f) then
    exists l f' D', r = inr (default 0 (head l), default 0 (last l)) /\ Z.of_nat (length l) = count /\ grown f D l f' D' /\ st g f' D' v'
  else r = inl (- ENOSPC) /\ exists l D', (forall c, c ∈ l -> is_cluster g c /\ f c = 0) /\ (forall k, D' k = zeroed D l k) /\ st g f D' v'.

Lemma last_seqZ c n : 0 < n -> last (seqZ c n) = Some (c + n - 1).
Proof.
  intros Hn. replace n with ((n - 1) + 1) at 1 by lia. rewrite seqZ_app by lia. rewrite last_app. cbn. f_equal. lia.
Qed.

(** No cluster is left: the chain so far is freed again. *)
Lemma wp_detached_fail f D l f' D' v total rc : Z.of_nat (length l) < total -> grown f D l f' D' ->
  rc = - ENOSPC -> st g f' D' v /\ (forall c, is_cluster g c -> f' c <> 0) ->
  wp (_ ← (if default 0 (head l) =? 0 then mret () else fat32_free_chain g (default 0 (head l)));
      mret (inr (inl rc) : Z * Z * Z + (Z + Z * Z))) v (fun r v' => match r with inl _ => False | inr y => detached f D total y v' end).
Proof using Hg.
  intros Hlen Hgr -> [Hs Hno]. pose proof (grown_nfree _ _ _ _ _ Hgr) as Hnf. assert (E0 : nfree g f' = 0).
  { unfold nfree. destruct (free_list g f') as [| x fl] eqn:E; [done |]. assert (Hx : x ∈ free_list g f') by (rewrite E; by left).
    apply elem_of_free_list in Hx as [Hx1 Hx2]. by destruct (Hno x). }
  destruct Hgr as [Hch Hf Hsame Hz]. destruct l as [| c l].
  - apply wp_bind, wp_ret, wp_ret. unfold detached. rewrite decide_False by (cbn in *; lia). split; [done |]. exists [], D'. split_and!; [done | done |].
    eapply st_ext; [| exact Hs]. intros c _. apply Hsame, not_elem_of_nil.
  - change (default 0 (head (c :: l))) with c. destruct (Hf c ltac:(by left)) as [Hc _]. unfold is_cluster in Hc. replace (c =? 0) with false by lia.
    apply wp_bind. eapply wp_mono; [apply (wp_free_chain f' D' v c l); [done | by apply Hch] |]. intros [] v1 [Hs1 _].
    apply wp_ret. unfold detached. rewrite decide_False by (cbn in *; lia). split; [done |]. exists (c :: l), D'. split_and!; [done | done |]. eapply st_ext; [| exact Hs1].
    intros x _. unfold free_all. case_decide as Hx; [| by apply Hsame]. symmetry. by apply Hf.
Qed.

Lemma wp_detached_run f D l f' D' v count c n : grown f D l f' D' -> st g (run_fat f' c n) D' v -> all_free f' c n ->
  0 < n -> n <= count -> n * sectors_per_cluster g <= AHCI_MAX_SECTORS ->
  wp (rc ← write_sectors g (cluster_lba g c) (replicate (Z.to_nat (n * sectors_per_cluster g)) (replicate 512 0));
      if negb (rc =? 0) then
        _ ← fat32_free_chain g c;
        _ ← (if default 0 (head l) =? 0 then mret () else fat32_free_chain g (default 0 (head l)));
        mret (inr (inl rc) : Z * Z * Z + (Z + Z * Z))
      else if default 0 (head l) =? 0 then mret (inl (count - n, c, c + n - 1))
      else
        rc2 ← fat32_link_cluster g (default 0 (last l)) c;
        if negb (rc2 =? 0) then
          _ ← fat32_free_chain g c;
          _ ← fat32_free_chain g (default 0 (head l));
          mret (inr (inl (- EIO)))
        else mret (inl (count - n, default 0 (head l), c + n - 1))) v (fun r v' =>
    r = inl (count - n, if decide (l = []) then c else default 0 (head l), c + n - 1) /\
    grown f D (l ++ seqZ c n) (link_tail (run_fat f' c n) l c) (zeroed D' (seqZ c n)) /\
    st g (link_tail (run_fat f' c n) l c) (zeroed D' (seqZ c n)) v').
Proof using Hg.
  intros Hgr Hs Ha Hn Hcount Hmax. pose proof (grown_add _ _ _ _ _ _ _ Hgr Hn Ha) as Hgr'. destruct (limit_bound g Hg) as (_ & _ & Hlim).
  destruct (Ha 0 ltac:(lia)) as [Hc _]. destruct (Ha (n - 1) ltac:(lia)) as [Hl _].
  replace (c + 0) with c in Hc by lia. replace (c + (n - 1)) with (c + n - 1) in Hl by lia.
  change (replicate 512 0) with zero_sector. apply wp_bind.
  eapply wp_mono; [by apply (wp_zero_run (run_fat f' c n) D') |]. intros rc v1 [-> Hs1]. cbn [Z.eqb negb].
  destruct l as [| x l].
  - apply wp_ret. rewrite decide_True by done. split_and!; [done | done |]. exact Hs1.
  - change (default 0 (head (x :: l))) with x. destruct (gr_free _ _ _ _ _ Hgr x ltac:(by left)) as [Hx _]. unfold is_cluster in Hx. replace (x =? 0) with false by lia.
    destruct (last (x :: l)) as [tail |] eqn:El; [| by apply last_None in El].
    assert (Ht : tail ∈ x :: l) by (apply last_Some in El as (l' & ->); apply elem_of_app; right; by left).
    change (default 0 (Some tail)) with tail. apply wp_bind. unfold fat32_link_cluster.
    eapply wp_mono; [apply (wp_write_fat_entry g Hg _ _ _ tail c Hs1), (gr_free _ _ _ _ _ Hgr tail Ht) |].
    intros rc v2 (-> & Hs2 & _). cbn [Z.eqb negb]. apply wp_ret. rewrite decide_False by done. split_and!; [done | done |].
    unfold link_tail. rewrite El. rewrite land_entry in Hs2; [done |]. unfold is_cluster, EOC, ENTRY_MASK in *. lia.
Qed.

Definition detached_inv (f : Z -> Z) (D : Z -> list Z) (total rank : Z) (x : Z * Z * Z) (v : volume) : Prop :=
  let '(count, start, tail) := x in rank = count /\ 0 <= count /\
  exists l f' D', start = default 0 (head l) /\ tail = default 0 (last l) /\ Z.of_nat (length l) + count = total /\
    grown f D l f' D' /\ st g f' D' v.

Lemma wp_detached_round f D total rank x v : detached_inv f D total rank x v ->
  wp (detached_round g (AHCI_MAX_SECTORS / sectors_per_cluster g) x) v (fun r v' =>
    match r with inl x' => exists rank', detached_inv f D total rank' x' v' /\ 0 <= rank' < rank | inr y => detached f D total y v' end).
Proof using Hg.
  destruct x as [[count start] tail]. intros (-> & H0 & l & f' & D' & -> & -> & Hlen & Hgr & Hs). unfold detached_round.
  pose proof (grown_nfree _ _ _ _ _ Hgr) as Hnf. pose proof (nfree_bound g Hg f'). pose proof (go_spc g Hg) as Hspc.
  assert (Hmax : 0 < AHCI_MAX_SECTORS / sectors_per_cluster g) by (unfold AHCI_MAX_SECTORS in *; Z.to_euclidean_division_equations; nia).
  destruct (Z.eqb_spec count 0) as [-> | Hc0].
  { apply wp_ret. unfold detached. rewrite decide_True by lia. exists l, f', D'. split_and!; (done || lia). }
  set (wanted := if count <? AHCI_MAX_SECTORS / sectors_per_cluster g then count else AHCI_MAX_SECTORS / sectors_per_cluster g).
  assert (Hw : 0 < wanted <= count /\ wanted <= AHCI_MAX_SECTORS / sectors_per_cluster g) by (subst wanted; case_match; bool_to_prop; lia).
  clearbody wanted. apply wp_bind. eapply wp_mono; [apply (wp_allocate_run f' D'); [done | lia] |].
  intros [rc | [[c last_c] n]] v1 Hgot.
  - destruct Hgot as (Erc & -> & Hno). eapply wp_mono; [apply (wp_detached_fail f D l f' D' v total rc); [lia | done | done | done] |].
    by intros [] v'.
  - destruct Hgot as (Hn & -> & Ha & Hs1). eapply wp_mono; [apply (wp_detached_run f D l f' D' v1 count c n); [done | done | done | | lia |] | ].
    + lia.
    + assert (n * sectors_per_cluster g <= AHCI_MAX_SECTORS / sectors_per_cluster g * sectors_per_cluster g) by (apply mul_spc; lia).
      pose proof (Z.mul_div_le AHCI_MAX_SECTORS (sectors_per_cluster g)). lia.
    + intros r v2 (-> & Hg2 & Hs2). exists (count - n). split; [| lia]. split; [done |]. split; [lia |].
      eexists (l ++ seqZ c n), _, _. split_and!; [| | | exact Hg2 | exact Hs2].
      * destruct l; [| done]. by rewrite seqZ_cons by lia.
      * rewrite last_app, last_seqZ by lia. done.
      * rewrite length_app, length_seqZ. lia.
Qed.

Lemma wp_allocate_detached f D v count : st g f D v -> 0 < count < 2 ^ 32 ->
  wp (fat32_allocate_detached g count) v (detached f D count).
Proof using Hg.
  intros Hs Hc. pose proof (go_spc g Hg) as Hspc. unfold fat32_allocate_detached.
  replace (AHCI_MAX_SECTORS / sectors_per_cluster g =? 0) with false
    by (unfold AHCI_MAX_SECTORS in *; Z.to_euclidean_division_equations; nia).
  apply (wp_ploop (detached_inv f D count)) with (n := count).
  - intros n x v1. apply wp_detached_round.
  - split; [done |]. split; [lia |]. exists [], f, D. split_and!; [done | done | done | | done].
    split; [done | by intros c ?%elem_of_nil | done |]. intros k. unfold zeroed. rewrite decide_False; [done |].
    by intros [_ ?%elem_of_nil].
  - change (2 ^ Z.of_nat 32) with (2 ^ 32). lia.
Qed.

(** ** Walks *)

(** The cluster at a position of a chain; past its end, the end mark. *)
Definition chain_at (f : Z -> Z) (l : list Z) (i : nat) : Z :=
  match l !! i with Some c => c | None => match last l with Some c => f c | None => 0 end end.

Lemma wp_walk_steps f D i : forall v c l, st g f D v -> linked g f (c :: l) ->
  wp (walk_steps g i c) v (fun x v' => x = chain_at f (c :: l) i /\ same g v v').
Proof using Hg.
  destruct (limit_bound g Hg) as (_ & _ & Hlim).
  induction i as [| i IH]; intros v c l Hs Hl; cbn [walk_steps].
  { apply wp_ret. split; [done |]. apply same_refl, Hs. }
  assert (Hc : is_cluster g c) by apply Hl. rewrite is_data_cluster_true by done. cbn [negb]. unfold is_cluster in Hc.
  apply wp_bind. eapply wp_mono; [apply (wp_read_entry g Hg f D); [done | lia] |]. intros e v1 [-> H1].
  unfold chain_at. cbn [lookup list_lookup]. destruct l as [| x l].
  - replace (EOC <=? f c) with true by (symmetry; apply Z.leb_le, Hl). by apply wp_ret.
  - destruct Hl as (_ & -> & Hl). pose proof (linked_cluster g f _ x Hl ltac:(by left)) as Hx. unfold is_cluster in Hx.
    replace (EOC <=? x) with false by lia. eapply wp_mono; [apply (IH v1 x l); [by eapply st_same | done] |].
    intros y v2 [-> H2]. split; [done | by eapply same_trans].
Qed.

Lemma has_chain_dec f c : has_chain g f c \/ ~ has_chain g f c.
Proof using Hg.
  destruct (limit_bound g Hg) as (_ & _ & Hlim). destruct (decide (c < EOC)) as [Hc |].
  - destruct (floyd f (Z.to_nat (limit g - 2)) c c) eqn:E; [left | right]; rewrite <- floyd_spec by done; congruence.
  - right. intros [l [Hc _]]. unfold is_cluster in Hc. lia.
Qed.
End chains.

(** ** Theorems *)

(** C28. [fat32_chain_is_acyclic] terminates and decides whether the entries
    from a cluster on form a chain of clusters of the volume that ends: the two
    pointers never meet on such a chain, and the bound on the number of steps
    is never what ends the walk along one. *)
Theorem chain_is_acyclic_correct g f D v start : geom_ok g -> st g f D v -> start < EOC ->
  exists b v', fat32_chain_is_acyclic g start (cluster_limit g) v = Some (b, v') /\ same g v v' /\
    (b = true <-> exists l, linked g f (start :: l)).
Proof. intros Hg Hs Hst. rewrite (cluster_limit_eq g Hg). apply (wp_chain_is_acyclic g Hg f D v start Hs Hst). Qed.

(** C27. [fat32_free_chain] frees a proper chain completely: every cluster of it
    becomes free in both copies of the FAT, no other entry and no data sector
    changes, the free count grows by its length and the search hint is at most
    each of its clusters.  A chain that is broken, leaves the volume or runs
    into a cycle is left as it is. *)
Theorem free_chain_correct g f D v c : geom_ok g -> st g f D v ->
  exists v', fat32_free_chain g c v = Some ((), v') /\
    (forall l, linked g f (c :: l) -> st g (free_all f (c :: l)) D v' /\
       nfree g (free_all f (c :: l)) = nfree g f + Z.of_nat (length (c :: l)) /\
       forall x, x ∈ c :: l -> next_free_hint v' <= x) /\
    ((~ exists l, linked g f (c :: l)) -> same g v v').
Proof.
  intros Hg Hs. pose proof (limit_bound g Hg) as (_ & _ & Hlim). destruct (has_chain_dec g Hg f c) as [[l Hl] | Hn].
  - destruct (wp_free_chain g Hg f D v c l Hs Hl) as ([] & v' & E & Hs' & Hh). exists v'. split; [done |].
    split; [| intros Hn; by destruct Hn; exists l]. intros l' Hl'. rewrite (linked_det g f Hlim l' c l) by done.
    split_and!; [done | |].
    + rewrite (nfree_chain g Hg (free_all f (c :: l)) (c :: l) f); [lia | done | |].
      * intros x Hx. split; [by apply (linked_cluster g f (c :: l)) | unfold free_all; by rewrite decide_True].
      * intros x Hx. unfold free_all. by rewrite decide_False.
    + intros x Hx. rewrite Hh. apply foldl_min_le. by right.
  - destruct (wp_free_chain_bad g Hg f D v c Hs Hn) as ([] & v' & E & Hsm). exists v'. split; [done |]. split; [| done].
    intros l Hl. destruct Hn. by exists l.
Qed.

(** C15. [fat32_allocate_detached] succeeds exactly when the volume has enough
    free clusters.  It then returns the first and the last cluster of a chain
    of exactly [count] clusters, all of them free before, with their data
    zeroed, and changes no other entry and no other sector.  Otherwise it
    returns ENOSPC and every entry of the FAT is what it was. *)
Theorem allocate_detached_correct g f D v count : geom_ok g -> st g f D v -> 0 < count < 2 ^ 32 ->
  exists r v', fat32_allocate_detached g count v = Some (r, v') /\ detached g f D count r v'.
Proof. intros Hg Hs Hc. by apply (wp_allocate_detached g Hg). Qed.

(** ** The theorems on the small volume *)

Lemma demo_chain : linked demo_geometry (entry demo_geometry demo_volume) [3; 4].
Proof.
  split; [vm_compute; split; congruence |]. split; [vm_compute; reflexivity |].
  split; [vm_compute; split; congruence | vm_compute; congruence].
Qed.

Lemma chain_is_acyclic_correct_witness :
  exists b v', fat32_chain_is_acyclic demo_geometry 5 (cluster_limit demo_geometry) demo_volume = Some (b, v') /\
    (b = true <-> exists l, linked demo_geometry (entry demo_geometry demo_volume) (5 :: l)).
Proof.
  destruct (chain_is_acyclic_correct demo_geometry _ _ demo_volume 5 demo_geom_ok demo_st) as (b & v' & E & _ & H); [reflexivity |].
  exists b, v'. split; [exact E | exact H].
Defined.

Lemma free_chain_correct_witness :
  exists v', fat32_free_chain demo_geometry 3 demo_volume = Some ((), v') /\
    st demo_geometry (free_all (entry demo_geometry demo_volume) [3; 4]) (psec demo_geometry demo_volume) v'.
Proof.
  destruct (free_chain_correct demo_geometry _ _ demo_volume 3 demo_geom_ok demo_st) as (v' & E & H & _).
  exists v'. split; [exact E |]. apply (H [4] demo_chain).
Defined.

Lemma allocate_detached_correct_witness :
  exists r v', fat32_allocate_detached demo_geometry 2 demo_volume = Some (r, v') /\
    detached demo_geometry (entry demo_geometry demo_volume) (psec demo_geometry demo_volume) 2 r v'.
Proof. apply (allocate_detached_correct demo_geometry _ _ demo_volume 2 demo_geom_ok demo_st). lia. Defined.
