(* ===== verification/FatFile.v ===== *)
(** * FAT32: files (kernel/bsd/fat32.c)

    The per-inode cluster map and walk cursor, the mapping of file sectors to
    disk sectors, the page I/O of the address space operations, and
    truncation.  A page is the list of its eight sectors; statistics counters
    and the page cache itself are not modelled. *)
From S2P Require Import Prelude Block Fat FatChain.

Definition EFBIG : Z := 27.
Definition PAGE_CACHE_RA_MAX_PAGES : Z := 16.
Definition PAGE_SECTORS : Z := PAGE_SIZE / 512.

(** [cluster_map] holds the [cluster_map_count] entries in use. *)
Record fat32_inode_info := InodeInfo {
  start_cluster : Z;
  dir_start_cluster : Z;
  dir_entry_index : Z;
  walk_cursor : Z;
  cluster_map : list Z;
  cluster_map_capacity : Z;
}.

(** An inode, the volume and the answers of the allocator. *)
Record fstate := FState { info : fat32_inode_info; fsize : Z; vol : volume; mem : oracle }.

Definition set_info i s := FState i (fsize s) (vol s) (mem s).
Definition set_fsize n s := FState (info s) n (vol s) (mem s).
Definition set_start c i := InodeInfo c (dir_start_cluster i) (dir_entry_index i) (walk_cursor i) (cluster_map i) (cluster_map_capacity i).
Definition set_cursor c i := InodeInfo (start_cluster i) (dir_start_cluster i) (dir_entry_index i) c (cluster_map i) (cluster_map_capacity i).
Definition set_map m i := InodeInfo (start_cluster i) (dir_start_cluster i) (dir_entry_index i) (walk_cursor i) m (cluster_map_capacity i).
Definition set_capacity n i := InodeInfo (start_cluster i) (dir_start_cluster i) (dir_entry_index i) (walk_cursor i) (cluster_map i) n.

Definition fp (A : Type) : Type := prog fstate A.
Definition on_vol {A} (m : vp A) : fp A := fun s => r ← m (vol s); Some (r.1, FState (info s) (fsize s) r.2 (mem s)).
Definition get : fp fstate := fun s => Some (s, s).
Definition modify (f : fstate -> fstate) : fp () := fun s => Some ((), f s).
Definition alloc : fp bool := fun s => let (b, m) := kmalloc_ok (mem s) in Some (b, FState (info s) (fsize s) (vol s) m).

Section file.
Context (g : geometry).

(** ** The walk from the cursor *)

Definition cursor_index (cur : Z) : Z := Z.shiftr cur 32.
Definition cursor_cluster (cur : Z) : Z := Z.land cur 0xFFFFFFFF.
Definition pack_cursor (idx c : Z) : Z := Z.lor (Z.shiftl idx 32) c.

(** The loop ends at the target, or early with the entry that ends the
    chain. *)
Definition cursor_round (cluster_index : Z) (x : Z * Z) : vp (Z * Z + (Z + Z * Z)) :=
  let '(cur_idx, c) := x in
  if negb (cur_idx <? cluster_index) then mret (inr (inr (cur_idx, c)))
  else if negb (is_data_cluster c) then mret (inr (inl c))
  else
    next ← fat32_read_entry g c;
    if negb (is_data_cluster next) then mret (inr (inl next)) else mret (inl (u32 (cur_idx + 1), next)).

Definition fat32_walk_chain_cursor (cluster_index : Z) : fp Z :=
  s ← get;
  let cur := walk_cursor (info s) in
  let x :=
    if negb (is_data_cluster (cursor_cluster cur)) || (cluster_index <? cursor_index cur)
    then (0, start_cluster (info s)) else (cursor_index cur, cursor_cluster cur) in
  r ← on_vol (ploop 32 (cursor_round cluster_index) x);
  match r with
  | inl c => mret c
  | inr (idx, c) =>
      _ ← (if is_data_cluster c then modify (fun s => set_info (set_cursor (pack_cursor idx c) (info s)) s) else mret ());
      mret c
  end.

(** ** The cluster map *)

Fixpoint grow_capacity (fuel : nat) (capacity needed : Z) : Z :=
  match fuel with
  | O => capacity
  | S n =>
      if capacity <? needed
      then if UINT32_MAX / 2 <? capacity then needed else grow_capacity n (capacity * 2) needed
      else capacity
  end.

(** Room for [needed] entries, unless memory is short. *)
Definition reserve_map (needed : Z) : fp bool :=
  s ← get;
  let cap := cluster_map_capacity (info s) in
  if needed <=? cap then mret true
  else
    ok ← alloc;
    if (ok : bool) then
      _ ← modify (fun s => set_info (set_capacity (grow_capacity 32 (if cap =? 0 then 256 else cap) needed) (info s)) s);
      mret true
    else mret false.

Definition map_count (s : fstate) : Z := Z.of_nat (length (cluster_map (info s))).

(** [cluster_map[cluster_map_count++] = c], inside the allocation. *)
Definition push_map (c : Z) : fp () := fun s =>
  if map_count s <? cluster_map_capacity (info s)
  then Some ((), set_info (set_map (cluster_map (info s) ++ [c]) (info s)) s) else None.

Definition map_round (needed : Z) : fp (() + option Z) :=
  s ← get;
  if negb (map_count s <? needed) then mret (inr None)
  else
    current ← (fun s => c ← last (cluster_map (info s)); Some (c, s));
    next ← on_vol (fat32_read_entry g current);
    if negb (is_data_cluster next) then mret (inr (Some next))
    else _ ← push_map next; mret (inl ()).

Definition fat32_walk_chain_cached (cluster_index : Z) : fp Z :=
  s ← get;
  if UINT32_MAX <=? cluster_index then fat32_walk_chain_cursor cluster_index
  else if cluster_index <? map_count s then (fun s => c ← arr_get (cluster_map (info s)) cluster_index; Some (c, s))
  else
    let needed := u32 (cluster_index + 1) in
    ok ← reserve_map needed;
    if negb ok then fat32_walk_chain_cursor cluster_index
    else
      let start := start_cluster (info s) in
      if (map_count s =? 0) && negb (is_data_cluster start) then mret start
      else
        _ ← (if map_count s =? 0 then push_map start else mret ());
        r ← ploop 32 (fun _ => map_round needed) ();
        match r with
        | Some next => mret next
        | None =>
            cluster ← (fun s => c ← arr_get (cluster_map (info s)) cluster_index; Some (c, s));
            last_c ← (fun s => c ← last (cluster_map (info s)); Some (c, s));
            _ ← modify (fun s => set_info (set_cursor (pack_cursor (u32 (map_count s - 1)) last_c) (info s)) s);
            mret cluster
        end.

(** ** Sectors of a file *)

Definition file_lba (cluster file_sector : Z) : Z :=
  data_start_lba g + u32 (cluster - 2) * sectors_per_cluster g + file_sector mod sectors_per_cluster g.

Definition fat32_map_file_sector (file_sector : Z) : fp (Z + Z) :=
  if sectors_per_cluster g =? 0 then mret (inl (- EIO))
  else
    let cluster_index := file_sector / sectors_per_cluster g in
    if UINT32_MAX <? cluster_index then mret (inl (- EFBIG))
    else
      cluster ← fat32_walk_chain_cached cluster_index;
      if negb (is_data_cluster cluster) then mret (inl (- EIO))
      else
        let relative := file_lba cluster file_sector in
        if sector_count (part g) <=? relative then mret (inl (- EIO)) else mret (inr relative).

Fixpoint map_sectors (first : Z) (n : nat) : fp (Z + list Z) :=
  match n with
  | O => mret (inr [])
  | S n' =>
      r ← fat32_map_file_sector first;
      match r with
      | inl rc => mret (inl rc)
      | inr d => r' ← map_sectors (first + 1) n'; mret (match r' with inl rc => inl rc | inr l => inr (d :: l) end)
      end
  end.

(** The length of the run of consecutive sectors at the head of a list. *)
Fixpoint run_count (d : Z) (l : list Z) : nat :=
  match l with
  | [] => O
  | x :: l' => if x =? d then S (run_count (d + 1) l') else O
  end.

(** The sectors of the page that are to be read, run by run, into the page
    from position [i] on. *)
Fixpoint read_runs (fuel : nat) (l : list Z) (i : nat) (page : list (list Z)) : vp (Z * list (list Z)) :=
  match fuel, l with
  | _, [] => mret (0, page)
  | O, _ => mret (0, page)
  | S n, d :: _ =>
      let run := run_count d l in
      r ← read_sectors g d (Z.of_nat run);
      match r with
      | inl rc => mret (rc, page)
      | inr data => read_runs n (drop run l) (i + run) (splice i data page)
      end
  end.

(** The sectors of a span of [len] bytes at [byte_offset] that lie inside the
    file. *)
Definition span_sectors (size byte_offset len : Z) : Z :=
  if size <=? byte_offset then 0 else (Z.min (size - byte_offset) len + 511) / 512.

Definition blank (n : Z) : list (list Z) := replicate (Z.to_nat n) (replicate 512 0).

Definition fat32_readpage (page_index : Z) : fp (Z * list (list Z)) :=
  let page := blank PAGE_SECTORS in
  if UINT64_MAX / PAGE_SIZE <? page_index then mret (- EFBIG, page)
  else
    let byte_offset := page_index * PAGE_SIZE in
    s ← get;
    if fsize s <=? byte_offset then mret (0, page)
    else
      r ← map_sectors (byte_offset / 512) (Z.to_nat (span_sectors (fsize s) byte_offset PAGE_SIZE));
      match r with
      | inl rc => mret (rc, page)
      | inr l => on_vol (read_runs (length l) l 0 page)
      end.

(** *** Reading several pages *)

(** The extents found so far: the position in the span, the pending run (its
    position, length and first disk sector) and the staging buffer. *)
Record extents := Extents { x_logical : Z; x_run : Z; x_count : Z; x_disk : Z; staging : list (list Z) }.

Definition flush_run (x : extents) : vp (Z * extents) :=
  r ← read_sectors g (x_disk x) (x_count x);
  mret (match r with
        | inl rc => (rc, x)
        | inr data => (0, Extents (x_logical x) (x_run x) 0 (x_disk x) (splice (Z.to_nat (x_run x)) data (staging x)))
        end).

Definition extent_round (first_sector total : Z) (x : extents) : fp (extents + (Z * extents)) :=
  if negb (x_logical x <? total) then mret (inr (0, x))
  else
    let file_sector := first_sector + x_logical x in
    if sectors_per_cluster g =? 0 then mret (inr (- EIO, x))
    else
      let cluster_index := file_sector / sectors_per_cluster g in
      if UINT32_MAX <? cluster_index then mret (inr (- EFBIG, x))
      else
        cluster ← fat32_walk_chain_cached cluster_index;
        if negb (is_data_cluster cluster) then mret (inr (- EIO, x))
        else
          let in_cluster := file_sector mod sectors_per_cluster g in
          let extent := Z.min (sectors_per_cluster g - in_cluster) (total - x_logical x) in
          let disk_sector := file_lba cluster file_sector in
          if (sector_count (part g) <=? disk_sector) || (sector_count (part g) - disk_sector <? extent)
          then mret (inr (- EIO, x))
          else
            r ← (if negb (x_count x =? 0) && negb (disk_sector =? x_disk x + x_count x)
                 then on_vol (flush_run x) else mret (0, x));
            let '(rc, x1) := r in
            if negb (rc =? 0) then mret (inr (rc, x1))
            else
              let x2 := if x_count x1 =? 0 then Extents (x_logical x1) (x_logical x1) 0 disk_sector (staging x1) else x1 in
              mret (inl (Extents (x_logical x2 + extent) (x_run x2) (x_count x2 + extent) (x_disk x2) (staging x2))).

Definition fat32_readpages (first_page nr_pages : Z) : fp (Z + list (list (list Z))) :=
  if (nr_pages =? 0) || (PAGE_CACHE_RA_MAX_PAGES <? nr_pages) || (UINT64_MAX / PAGE_SIZE <? first_page)
  then mret (inl (- EINVAL))
  else
    ok ← alloc;
    if negb ok then mret (inl (- ENOMEM))
    else
      s ← get;
      let byte_offset := first_page * PAGE_SIZE in
      let total := span_sectors (fsize s) byte_offset (nr_pages * PAGE_SIZE) in
      r ← ploop 32 (extent_round (byte_offset / 512) total) (Extents 0 0 0 0 (blank (nr_pages * PAGE_SECTORS)));
      let '(rc, x) := r in
      r' ← (if (rc =? 0) && negb (x_count x =? 0) then on_vol (flush_run x) else mret (rc, x));
      let '(rc', x') := r' in
      mret (if rc' =? 0
            then inr (map (fun i => slice (i * Z.to_nat PAGE_SECTORS) (Z.to_nat PAGE_SECTORS) (staging x')) (seq 0 (Z.to_nat nr_pages)))
            else inl rc').

(** *** Writing pages *)

(** A pending run: its position in the page, its length and its disk
    sector. *)
Fixpoint write_runs (data : list (list Z)) (base : Z) (i : nat) (first count : nat) (disk : Z) (n : nat) : fp Z :=
  match n with
  | O => if (count =? 0)%nat then mret 0 else on_vol (write_sectors g disk (slice first count data))
  | S n' =>
      r ← fat32_map_file_sector (base + Z.of_nat i);
      match r with
      | inl rc => mret rc
      | inr d =>
          if (count =? 0)%nat then write_runs data base (S i) i 1 d n'
          else if d =? disk + Z.of_nat count then write_runs data base (S i) first (S count) disk n'
          else
            rc ← on_vol (write_sectors g disk (slice first count data));
            if negb (rc =? 0) then mret rc else write_runs data base (S i) i 1 d n'
      end
  end.

Fixpoint write_pages (pages : list (Z * list (list Z))) : fp Z :=
  match pages with
  | [] => mret 0
  | (page_index, data) :: pages' =>
      if UINT64_MAX / PAGE_SIZE <? page_index then mret (- EINVAL)
      else
        s ← get;
        let byte_offset := page_index * PAGE_SIZE in
        rc ← (if fsize s <=? byte_offset then mret 0
              else write_runs data (byte_offset / 512) 0 0 0 0 (Z.to_nat (span_sectors (fsize s) byte_offset PAGE_SIZE)));
        if negb (rc =? 0) then mret rc else write_pages pages'
  end.

Definition fat32_writepages (pages : list (Z * list (list Z))) : fp Z :=
  if (length pages =? 0)%nat then mret (- EINVAL) else write_pages pages.

(** ** Truncation *)

Definition fat32_invalidate_pages : fp () :=
  modify (fun s => set_info (InodeInfo (start_cluster (info s)) (dir_start_cluster (info s)) (dir_entry_index (info s)) 0 [] 0) s).

Definition le16_bytes (v : Z) : list Z := [u8 v; u8 (Z.shiftr v 8)].

(** [fst_clus_hi], [fst_clus_lo] and [file_size] of a directory entry. *)
Definition patch_entry (off start size : Z) (buf : list Z) : list Z :=
  let b1 := splice (Z.to_nat (off + 20)) (le16_bytes (Z.land (Z.shiftr start 16) 0xFFFF)) buf in
  let b2 := splice (Z.to_nat (off + 26)) (le16_bytes (Z.land start 0xFFFF)) b1 in
  splice (Z.to_nat (off + 28)) (le32_bytes size) b2.

Definition read_cluster_buf (cluster : Z) : fp (option (list Z)) :=
  ok ← alloc;
  if negb ok then mret None
  else
    r ← on_vol (read_sectors g (cluster_lba g cluster) (sectors_per_cluster g));
    mret (match r with inl _ => None | inr l => Some (concat l) end).

Definition write_cluster_sector (cluster sector_idx : Z) (data : list Z) : vp Z :=
  write_sectors g (u32 (cluster_lba g cluster + sector_idx)) [data].

Definition fat32_update_dir_entry (dir_cluster dir_idx start file_size : Z) : fp Z :=
  b ← read_cluster_buf dir_cluster;
  match b with
  | None => mret (- EIO)
  | Some buf =>
      let buf' := patch_entry (dir_idx * 32) start file_size buf in
      let sector_idx := dir_idx * 32 / 512 in
      on_vol (write_cluster_sector dir_cluster sector_idx (slice (Z.to_nat (sector_idx * 512)) 512 buf'))
  end.

Definition fat32_truncate (cluster dir_cluster dir_idx : Z) : fp Z :=
  _ ← on_vol (fat32_free_chain g cluster);
  fat32_update_dir_entry dir_cluster dir_idx 0 0.

(** The last cluster kept and its successor. *)
Definition shrink_round (keep : Z) (x : Z * Z * Z) : vp (Z * Z * Z + Z * Z) :=
  let '(i, prev, c) := x in
  if negb (i <? keep) then mret (inr (prev, c))
  else if negb (is_data_cluster c) then mret (inr (prev, 0))
  else next ← fat32_read_entry g c; mret (inl (i + 1, c, next)).

Definition shrink_chain (start keep : Z) : vp () :=
  r ← ploop 33 (shrink_round keep) (0, 0, start);
  let '(prev, c) := r in
  if negb (prev =? 0) && is_data_cluster c
  then _ ← fat32_write_fat_entry g prev EOC_MARK; fat32_free_chain g c
  else mret ().

(** The last cluster and the length of a chain. *)
Definition tail_round (x : Z * Z * Z) : vp (Z * Z * Z + Z * Z) :=
  let '(tail, have, guard) := x in
  if (tail =? 0) || (guard =? 0) then mret (inr (tail, have))
  else
    next ← fat32_read_entry g tail;
    if EOC <=? next then mret (inr (tail, have)) else mret (inl (next, u32 (have + 1), guard - 1)).

(** The new first cluster, or an error. *)
Definition grow_chain (start keep : Z) : vp (Z + Z) :=
  r ← ploop 33 tail_round (start, if start =? 0 then 0 else 1, total_data_clusters g);
  let '(tail, have) := r in
  if negb (have <? keep) then mret (inr start)
  else
    d ← fat32_allocate_detached g (keep - have);
    match d with
    | inl rc => mret (inl rc)
    | inr (dstart, _) =>
        if tail =? 0 then mret (inr dstart)
        else
          rc ← fat32_link_cluster g tail dstart;
          if negb (rc =? 0) then _ ← fat32_free_chain g dstart; mret (inl rc) else mret (inr start)
    end.

Definition keep_clusters (len : Z) : Z := u32 (u64 (len + bytes_per_cluster g - 1) / bytes_per_cluster g).

(** [ip->type] is [INODE_REGULAR]. *)
Definition fat32_ftruncate (len : Z) : fp Z :=
  s ← get;
  if bytes_per_cluster g =? 0 then mret (- EIO)
  else if fsize s =? len then mret 0
  else if len =? 0 then
    rc ← fat32_truncate (start_cluster (info s)) (dir_start_cluster (info s)) (dir_entry_index (info s));
    if negb (rc =? 0) then mret rc
    else
      _ ← modify (fun s => set_fsize 0 (set_info (set_start 0 (info s)) s));
      _ ← fat32_invalidate_pages; mret 0
  else
    rc ← (if len <? fsize s then
            if start_cluster (info s) =? 0 then mret (- EIO)
            else _ ← on_vol (shrink_chain (start_cluster (info s)) (keep_clusters len)); mret 0
          else
            r ← on_vol (grow_chain (start_cluster (info s)) (keep_clusters len));
            match r with
            | inl rc => mret rc
            | inr start => _ ← modify (fun s => set_info (set_start start (info s)) s); mret 0
            end);
    if negb (rc =? 0) then mret rc
    else
      _ ← modify (set_fsize len);
      s1 ← get;
      _ ← (if 2 <=? dir_start_cluster (info s1)
           then _ ← fat32_update_dir_entry (dir_start_cluster (info s1)) (dir_entry_index (info s1)) (start_cluster (info s1)) (u32 len);
                mret ()
           else mret ());
      _ ← fat32_invalidate_pages; mret 0.
End file.

(** ** Rules for the programs *)

Lemma wp_on_vol {A} (m : vp A) s Q :
  wp m (vol s) (fun a v => Q a (FState (info s) (fsize s) v (mem s))) -> wp (on_vol m) s Q.
Proof. intros (a & v & E & HQ). unfold wp, on_vol. rewrite E. by eexists _, _. Qed.

Lemma wp_fget s Q : Q s s -> wp get s Q.
Proof. intros HQ. by eexists _, _. Qed.

Lemma wp_modify h s Q : Q () (h s) -> wp (modify h) s Q.
Proof. intros HQ. by eexists _, _. Qed.

Lemma wp_alloc s Q : (forall b m, b = (kmalloc_ok (mem s)).1 -> Q b (FState (info s) (fsize s) (vol s) m)) -> wp alloc s Q.
Proof. intros HQ. unfold wp, alloc. destruct (kmalloc_ok (mem s)) as [b m]. eexists _, _. split; [done | by apply HQ]. Qed.

Lemma wp_some {A} (h : fstate -> option (A * fstate)) s Q a : h s = Some (a, s) -> Q a s -> wp h s Q.
Proof. intros. by eexists _, _. Qed.

Lemma cursor_pack idx c : 0 <= idx -> 0 <= c < 2 ^ 32 ->
  cursor_index (pack_cursor idx c) = idx /\ cursor_cluster (pack_cursor idx c) = c.
Proof.
  intros Hi Hc. unfold pack_cursor, cursor_index, cursor_cluster. rewrite lor_disjoint by lia.
  change 0xFFFFFFFF with (Z.ones 32). rewrite Z.land_ones, Z.shiftr_div_pow2 by lia.
  rewrite Z.div_add_l, Z.div_small by lia. split; [lia |]. rewrite Z.add_comm, Z_mod_plus_full. apply Z.mod_small. lia.
Qed.

(** Lists of sectors. *)
Lemma splice_nil {A} i (l : list A) : (i <= length l)%nat -> splice i [] l = l.
Proof. intros. unfold splice. cbn. rewrite Nat.add_0_r. apply take_drop. Qed.

Lemma splice_app {A} i (d1 d2 l : list A) : (i + length d1 + length d2 <= length l)%nat ->
  splice (i + length d1) d2 (splice i d1 l) = splice i (d1 ++ d2) l.
Proof.
  intros Hl. unfold splice. rewrite length_app. rewrite (app_assoc (take i l) d1).
  assert (Hlen : length (take i l ++ d1) = (i + length d1)%nat) by (rewrite length_app, length_take; lia).
  rewrite <- Hlen at 1. rewrite take_app_length. rewrite drop_app_ge by lia. rewrite Hlen, drop_drop, <- !app_assoc. do 4 f_equal. lia.
Qed.

Lemma slice_splice_in {A} o n j (d l : list A) : (j + length d <= n)%nat -> (o + n <= length l)%nat ->
  slice o n (splice (o + j) d l) = splice j d (slice o n l).
Proof.
  intros Hj Hl. assert (Hs : length (splice (o + j) d l) = length l) by (apply length_splice; lia).
  assert (Hsl : length (slice o n l) = n) by (apply length_slice; lia).
  apply list_eq. intros k. destruct (decide (k < n)%nat) as [Hk |].
  - rewrite lookup_slice, lookup_splice by lia. rewrite lookup_splice by lia. rewrite lookup_slice by lia.
    repeat case_decide; try lia; [f_equal; lia | done].
  - rewrite !lookup_ge_None_2; [done | rewrite length_splice; lia | rewrite length_slice; lia].
Qed.

Lemma slice_concat {A} m (ls : list (list A)) : forall k x, Forall (fun s => length s = m) ls -> ls !! k = Some x ->
  slice (k * m) m (concat ls) = x.
Proof.
  induction ls as [| y ls IH]; intros k x Hf Hk; [done |]. apply Forall_cons in Hf as [Hy Hf]. unfold slice. destruct k as [| k]; cbn.
  - injection Hk as ->. rewrite drop_0, take_app_le by lia. apply take_ge. lia.
  - rewrite drop_app_ge by lia. replace (m + k * m - length y)%nat with (k * m)%nat by lia. by apply IH.
Qed.

Lemma length_concat {A} m (ls : list (list A)) : Forall (fun s => length s = m) ls -> length (concat ls) = (length ls * m)%nat.
Proof. induction 1 as [| y ls Hy _ IH]; [done |]. cbn. rewrite length_app. lia. Qed.

(** *** Directory entries *)

Lemma load_u16_splice (s : list Z) off v : (Z.to_nat off + 2 <= length s)%nat -> 0 <= off -> 0 <= v < 2 ^ 16 ->
  load_u16 (splice (Z.to_nat off) (le16_bytes v) s) off = v.
Proof.
  intros Hl Ho Hv. unfold load_u16, byte_at, le16_bytes. rewrite !lookup_splice by (cbn; lia). cbn [length].
  rewrite !decide_True by lia. replace (Z.to_nat off - Z.to_nat off)%nat with 0%nat by lia.
  replace (Z.to_nat (off + 1) - Z.to_nat off)%nat with 1%nat by lia. cbn [lookup list_lookup default from_option id].
  rewrite lor_shiftl_add by (try apply Z.mod_pos_bound; lia). unfold u8. rewrite Z.shiftr_div_pow2 by lia.
  Z.to_euclidean_division_equations. lia.
Qed.

Lemma byte_at_splice (s d : list Z) off i : 0 <= off -> (Z.to_nat off + length d <= length s)%nat -> 0 <= i ->
  ~ off <= i < off + Z.of_nat (length d) -> byte_at (splice (Z.to_nat off) d s) i = byte_at s i.
Proof. intros Ho Hl Hi Hn. unfold byte_at. rewrite lookup_splice by done. by rewrite decide_False by lia. Qed.

(** The first cluster and the size in a directory entry. *)
Definition dir_fields (s : list Z) (off : Z) : Z * Z :=
  (load_u16 s (off + 20) * 2 ^ 16 + load_u16 s (off + 26), fat32_load_u32 s (off + 28)).

Lemma splice_bytes off d (s : list Z) : (off + length d <= 512)%nat -> Forall is_byte d -> sector_ok s -> sector_ok (splice off d s).
Proof.
  intros Hl Hd [Hs Hb]. split; [rewrite length_splice; lia |]. unfold splice. rewrite !Forall_app.
  split_and!; [by apply Forall_take | done | by apply Forall_drop].
Qed.

Lemma patch_entry_fields s e start size : sector_ok s -> 0 <= e < 16 -> is_u32 start -> is_u32 size ->
  let s' := patch_entry (e * 32) start size s in sector_ok s' /\ dir_fields s' (e * 32) = (start, size).
Proof.
  intros Hs He Hst Hsz. cbv zeta. unfold patch_entry, is_u32 in *.
  change 0xFFFF with (Z.ones 16). rewrite !Z.land_ones, Z.shiftr_div_pow2 by lia.
  assert (Hhi : 0 <= (start / 2 ^ 16) mod 2 ^ 16 < 2 ^ 16) by (apply Z.mod_pos_bound; lia).
  assert (Hlo : 0 <= start mod 2 ^ 16 < 2 ^ 16) by (apply Z.mod_pos_bound; lia).
  assert (H16 : forall v, Forall is_byte (le16_bytes v)) by (intros v; repeat constructor; apply Z.mod_pos_bound; lia).
  set (s1 := splice (Z.to_nat (e * 32 + 20)) _ s). assert (Hs1 : sector_ok s1) by (apply splice_bytes; [cbn; lia | apply H16 | done]).
  set (s2 := splice (Z.to_nat (e * 32 + 26)) _ s1). assert (Hs2 : sector_ok s2) by (apply splice_bytes; [cbn; lia | apply H16 | done]).
  split; [apply splice_bytes; [cbn; lia | apply le32_bytes_ok | done] |]. unfold dir_fields. f_equal.
  - assert (E : forall o, o = e * 32 + 20 \/ o = e * 32 + 26 -> load_u16 (splice (Z.to_nat (e * 32 + 28)) (le32_bytes size) s2) o = load_u16 s2 o).
    { intros o Ho. unfold load_u16. rewrite !byte_at_splice; try done; cbn; destruct Hs2; lia. }
    rewrite !E by auto. unfold s2 at 2. rewrite load_u16_splice by (destruct Hs1; lia).
    replace (load_u16 s2 (e * 32 + 20)) with (load_u16 s1 (e * 32 + 20)).
    + unfold s1. rewrite load_u16_splice by (destruct Hs; lia). Z.to_euclidean_division_equations. lia.
    + unfold s2, load_u16. rewrite !byte_at_splice; try done; cbn; destruct Hs1; lia.
  - apply load_store_eq; [done | lia | done].
Qed.

Lemma run_count_spec ls : forall d, (run_count d ls <= length ls)%nat /\
  forall k, (k < run_count d ls)%nat -> ls !! k = Some (d + Z.of_nat k).
Proof.
  induction ls as [| x ls IH]; intros d; cbn [run_count]; [split; [done | intros; lia] |].
  destruct (Z.eqb_spec x d) as [-> |]; [| split; [lia | intros; lia]]. destruct (IH (d + 1)) as [H1 H2].
  split; [cbn; lia |]. intros [| k] Hk; cbn [lookup list_lookup]; [f_equal; lia |]. 
  transitivity (Some (d + 1 + Z.of_nat k)); [apply H2; lia | f_equal; lia].
Qed.

Section files.
Context (g : geometry).
Hypothesis Hg : geom_ok g.

(** ** A file and its chain *)

(** [l] is the chain of the file, empty for a file without clusters; the
    cursor and the map agree with it. *)
Record file_ok (f : Z -> Z) (l : list Z) (i : fat32_inode_info) : Prop := {
  fo_start : start_cluster i = default 0 (head l);
  fo_chain : l <> [] -> linked g f l;
  fo_cursor : is_data_cluster (cursor_cluster (walk_cursor i)) = true ->
    0 <= cursor_index (walk_cursor i) /\ l !! Z.to_nat (cursor_index (walk_cursor i)) = Some (cursor_cluster (walk_cursor i));
  fo_map : cluster_map i `prefix_of` l;
  fo_room : Z.of_nat (length (cluster_map i)) <= cluster_map_capacity i;
}.

(** The parts of an inode that a walk does not change. *)
Definition kept (s s' : fstate) : Prop :=
  fsize s' = fsize s /\ start_cluster (info s') = start_cluster (info s) /\
  dir_start_cluster (info s') = dir_start_cluster (info s) /\ dir_entry_index (info s') = dir_entry_index (info s) /\
  same g (vol s) (vol s').

Section walks.
Context (f : Z -> Z) (D : Z -> list Z) (l : list Z).

Definition fs_ok (s : fstate) : Prop := st g f D (vol s) /\ file_ok f l (info s).

Lemma kept_refl s : fs_ok s -> kept s s.
Proof. intros [Hs _]. split_and!; try done. apply same_refl, Hs. Qed.

Lemma kept_trans s s1 s2 : kept s s1 -> kept s1 s2 -> kept s s2.
Proof.
  intros (? & ? & ? & ? & ?) (? & ? & ? & ? & ?). split_and!; [congruence.. |]. by eapply same_trans.
Qed.

Lemma chain_next k c : (l <> [] -> linked g f l) -> l !! k = Some c ->
  is_cluster g c /\ if decide (S k < length l)%nat then l !! S k = Some (f c) /\ is_data_cluster (f c) = true
                    else EOC <= f c /\ chain_at f l (S k) = f c.
Proof using Hg.
  intros Hl Hk. assert (Hne : l <> []) by by intros ->. specialize (Hl Hne). destruct (linked_next g f l k c Hl Hk) as [Hc He].
  split; [done |]. case_decide.
  - split; [done |]. apply (is_data_cluster_true g Hg), (linked_cluster g f l); [done | by eapply list_elem_of_lookup_2].
  - split; [done |]. unfold chain_at. rewrite lookup_ge_None_2 by lia. apply lookup_lt_Some in Hk as Hlt.
    rewrite last_lookup. replace (pred (length l)) with k by lia. by rewrite Hk.
Qed.

Lemma chain_at_end i : (l <> [] -> linked g f l) -> (length l <= i)%nat -> is_data_cluster (chain_at f l i) = false.
Proof.
  intros Hl Hi. unfold chain_at. rewrite lookup_ge_None_2 by done. destruct (last l) as [c |] eqn:E; [| done].
  rewrite last_lookup in E. assert (Hne : l <> []) by by intros ->. destruct (linked_next g f l _ c (Hl Hne) E) as [_ He].
  rewrite decide_False in He by (destruct l; [done | cbn; lia]). unfold is_data_cluster, EOC in *. lia.
Qed.

(** ** The walks agree *)

(** Past the end of the chain every walk gives the entry that ends it. *)
Lemma chain_at_past i j : (length l <= i)%nat -> (length l <= j)%nat -> chain_at f l i = chain_at f l j.
Proof. intros Hi Hj. unfold chain_at. by rewrite !lookup_ge_None_2 by done. Qed.

Definition cursor_at (idx c : Z) : Prop := 0 <= idx /\ (l !! Z.to_nat idx = Some c \/ l = [] /\ idx = 0 /\ c = 0).

Lemma wp_cursor_loop v idx c target : st g f D v -> (l <> [] -> linked g f l) -> cursor_at idx c -> idx <= target < 2 ^ 32 ->
  wp (ploop 32 (cursor_round g target) (idx, c)) v (fun r v' => same g v v' /\
    match r with
    | inl x => x = chain_at f l (Z.to_nat target) /\ (length l <= Z.to_nat target)%nat
    | inr (i, x) => i = target /\ cursor_at i x
    end).
Proof using Hg.
  intros Hs Hl Hc Ht. destruct (limit_bound g Hg) as (_ & _ & Hlim).
  assert (Hlen : Z.of_nat (length l) < 2 ^ 32 - 1).
  { unfold EOC in *. destruct l as [| x l']; [cbn; lia |]. pose proof (linked_length g f Hlim _ (Hl ltac:(done))). lia. }
  apply (wp_ploop (fun n x v' => same g v v' /\ cursor_at x.1 x.2 /\ x.1 <= target /\ n = Z.of_nat (length l) + 1 - x.1 /\ 0 <= n))
    with (n := Z.of_nat (length l) + 1 - idx).
  2: { cbn [fst snd]. split_and!; [apply same_refl, Hs | done | lia | lia |].
       destruct Hc as [? [H%lookup_lt_Some | (-> & -> & _)]]; cbn; lia. }
  2: { change (2 ^ Z.of_nat 32) with (2 ^ 32). destruct Hc. lia. }
  clear idx c Hc Ht. intros n [idx c] v1 (Hsm & Hc & Hle & -> & _). cbn [fst snd] in *. unfold cursor_round.
  pose proof (st_same g _ _ _ _ Hs Hsm) as Hs1. destruct (Z.ltb_spec idx target); cbn [negb]; last first.
  { apply wp_ret. split; [done |]. split; [lia | done]. }
  destruct Hc as [H0 [Hk | (El & -> & ->)]]; last first.
  { apply wp_ret. split; [done |]. rewrite El. split; [done | cbn; lia]. }
  destruct (chain_next (Z.to_nat idx) c Hl Hk) as [Hc Hn]. rewrite (is_data_cluster_true g Hg c Hc). cbn [negb].
  pose proof (lookup_lt_Some _ _ _ Hk) as Hlt.
  apply wp_bind. eapply wp_mono; [apply (wp_read_entry g Hg f D); [done | unfold is_cluster in Hc; lia] |].
  intros e v2 [-> H2]. pose proof (same_trans g _ _ _ Hsm H2) as Hsm2. case_decide as Hd.
  - destruct Hn as [Hn ->]. apply wp_ret. rewrite u32_small by lia. exists (Z.of_nat (length l) + 1 - (idx + 1)).
    split; [| lia]. cbn [fst snd]. split_and!; [done | | lia | lia | lia]. split; [lia |]. left. rewrite <- Hn. f_equal. lia.
  - destruct Hn as [Hn E]. replace (is_data_cluster (f c)) with false by (unfold is_data_cluster; lia). apply wp_ret.
    split; [done |]. split; [| lia]. rewrite <- E. apply chain_at_past; lia.
Qed.

Lemma file_ok_walk i cur : file_ok f l i -> cursor_at (cursor_index cur) (cursor_cluster cur) ->
  is_data_cluster (cursor_cluster cur) = true -> file_ok f l (set_cursor cur i).
Proof.
  intros [] [H0 Hc] Hd. split; try done. intros _. split; [done |]. destruct Hc as [? | (_ & _ & E)]; [done |]. by rewrite E in Hd.
Qed.

Lemma cursor_at_range idx c : (l <> [] -> linked g f l) -> cursor_at idx c -> 0 <= c < 2 ^ 32.
Proof using Hg.
  intros Hl [_ [Hk | (_ & _ & ->)]]; [| lia]. destruct (chain_next _ _ Hl Hk) as [Hc _].
  destruct (limit_bound g Hg) as (_ & _ & Hlim). unfold is_cluster, EOC in *. lia.
Qed.

Lemma wp_walk_cursor s target : fs_ok s -> 0 <= target < 2 ^ 32 ->
  wp (fat32_walk_chain_cursor g target) s (fun x s' => x = chain_at f l (Z.to_nat target) /\ fs_ok s' /\ kept s s').
Proof using Hg.
  intros [Hs Hf] Ht. unfold fat32_walk_chain_cursor. apply wp_bind, wp_fget.
  cbv zeta. pose proof (fo_cursor _ _ _ Hf) as Hcur. set (cur := walk_cursor (info s)) in *.
  set (x := if negb (is_data_cluster (cursor_cluster cur)) || (target <? cursor_index cur)
            then (0, start_cluster (info s)) else (cursor_index cur, cursor_cluster cur)). assert (Hx : cursor_at x.1 x.2 /\ x.1 <= target).
  { subst x. destruct (_ || _) eqn:E; cbn.
    - split; [| lia]. split; [lia |]. rewrite (fo_start _ _ _ Hf). destruct l; [by right | by left].
    - bool_to_prop. destruct Hcur as [? ?]; [done |]. split; [split; [lia | by left] | lia]. }
  clearbody x. destruct x as [idx c]. cbn [fst snd] in Hx. destruct Hx as [Hx Hle].
  apply wp_bind, wp_on_vol. eapply wp_mono; [apply (wp_cursor_loop _ idx c target Hs (fo_chain _ _ _ Hf) Hx); lia |].
  intros [y | [i y]] v' [Hsm Hr].
  - apply wp_ret. destruct Hr as [-> _]. split_and!; try done. split; [by eapply st_same | done].
  - destruct Hr as [-> Hy]. pose proof (cursor_at_range _ _ (fo_chain _ _ _ Hf) Hy) as Hr.
    assert (Ey : y = chain_at f l (Z.to_nat target)).
    { unfold chain_at. destruct Hy as [_ [-> | (-> & -> & ->)]]; done. }
    destruct (cursor_pack target y ltac:(lia) Hr) as [P1 P2].
    apply wp_bind. destruct (is_data_cluster y) eqn:Hd.
    + apply wp_modify, wp_ret. split_and!; try done. split; [by eapply st_same |]. cbn.
      apply file_ok_walk; [done | by rewrite P1, P2 | by rewrite P2].
    + apply wp_ret, wp_ret. split_and!; try done. split; [by eapply st_same | done].
Qed.

Lemma grow_capacity_ge fuel : forall cap needed, 0 < cap -> needed <= cap * 2 ^ Z.of_nat fuel -> needed <= grow_capacity fuel cap needed.
Proof.
  induction fuel as [| n IH]; intros cap needed Hc Hn; cbn [grow_capacity]; [lia |].
  repeat case_match; bool_to_prop; try lia. apply IH; [lia |]. rewrite Nat2Z.inj_succ, Z.pow_succ_r in Hn by lia. lia.
Qed.

Lemma wp_reserve_map s needed : fs_ok s -> 0 <= needed < 2 ^ 32 ->
  wp (reserve_map needed) s (fun b s' => fs_ok s' /\ kept s s' /\ cluster_map (info s') = cluster_map (info s) /\
    (b = true -> needed <= cluster_map_capacity (info s'))).
Proof.
  intros Hs Hn. pose proof (kept_refl s Hs). unfold reserve_map. apply wp_bind, wp_fget. destruct (_ <=? _) eqn:E; bool_to_prop.
  { apply wp_ret. by split_and!. }
  apply wp_bind, wp_alloc. intros b m _. destruct b; [apply wp_bind, wp_modify |]; apply wp_ret; [| by split_and!].
  destruct Hs as [Hs [? ? ? ? Hroom]].
  assert (Hge : needed <= grow_capacity 32 (if cluster_map_capacity (info s) =? 0 then 256 else cluster_map_capacity (info s)) needed).
  { apply grow_capacity_ge; [case_match; bool_to_prop; lia |]. change (2 ^ Z.of_nat 32) with (2 ^ 32). case_match; bool_to_prop; lia. }
  split_and!; try done. split; [done |]. split; try done. cbn [info set_info set_capacity cluster_map cluster_map_capacity]. lia.
Qed.

Lemma wp_push_map s c k : fs_ok s -> map_count s < cluster_map_capacity (info s) -> k = length (cluster_map (info s)) -> l !! k = Some c ->
  wp (push_map c) s (fun _ s' => fs_ok s' /\ kept s s' /\ cluster_map (info s') = cluster_map (info s) ++ [c] /\
    cluster_map_capacity (info s') = cluster_map_capacity (info s)).
Proof.
  intros Hs Hroom -> Hk. pose proof (kept_refl s Hs). unfold push_map, wp.
  replace (map_count s <? cluster_map_capacity (info s)) with true by lia.
  eexists _, _. split; [done |]. split_and!; try done. destruct Hs as [Hs [? ? ? Hp ?]]. split; [done |]. split; try done.
  - cbn. destruct Hp as [l2 ->]. rewrite lookup_app_r, Nat.sub_diag in Hk by lia. destruct l2 as [| y l2]; [done |]. injection Hk as ->.
    exists l2. by rewrite <- app_assoc.
  - cbn. unfold map_count in Hroom. rewrite length_app. cbn. lia.
Qed.

Lemma prefix_last s k c : fs_ok s -> last (cluster_map (info s)) = Some c -> S k = length (cluster_map (info s)) -> l !! k = Some c.
Proof.
  intros [_ Hf] Hc Hk. rewrite last_lookup, <- Hk in Hc. by apply (prefix_lookup_Some _ _ _ _ Hc), Hf.
Qed.

Lemma wp_map_loop s needed : fs_ok s -> cluster_map (info s) <> [] -> needed <= cluster_map_capacity (info s) -> 0 < needed < 2 ^ 32 ->
  wp (ploop 32 (fun _ => map_round g needed) ()) s (fun r s' => fs_ok s' /\ kept s s' /\
    match r with
    | Some x => x = chain_at f l (Z.to_nat (needed - 1))
    | None => needed <= map_count s'
    end).
Proof using Hg.
  intros Hs Hne Hcap Hn. destruct (limit_bound g Hg) as (_ & _ & Hlim). pose proof (fo_chain _ _ _ (proj2 Hs)) as Hl.
  assert (Hlen : Z.of_nat (length l) < 2 ^ 32 - 1).
  { unfold EOC in *. destruct l as [| x l']; [cbn; lia |]. pose proof (linked_length g f Hlim _ (Hl ltac:(done))). lia. }
  apply (wp_ploop (fun n _ s' => fs_ok s' /\ kept s s' /\ cluster_map (info s') <> [] /\ needed <= cluster_map_capacity (info s') /\
      n = Z.of_nat (length l) + 1 - map_count s')) with (n := Z.of_nat (length l) + 1 - map_count s).
  2: { split_and!; try done. by apply kept_refl. }
  2: { change (2 ^ Z.of_nat 32) with (2 ^ 32). unfold map_count. lia. }
  intros n [] s1 (Hs1 & Hk & Hne1 & Hcap1 & ->). unfold map_round. apply wp_bind, wp_fget. destruct (Z.ltb_spec (map_count s1) needed) as [Hlt |]; last first.
  { by apply wp_ret. }
  cbn [negb]. destruct (last (cluster_map (info s1))) as [c |] eqn:Ec; [| by apply last_None in Ec].
  assert (Hpos : (0 < length (cluster_map (info s1)))%nat) by (destruct (cluster_map (info s1)); [done | cbn; lia]).
  set (k := pred (length (cluster_map (info s1)))). assert (HSk : S k = length (cluster_map (info s1))) by (subst k; lia).
  pose proof (prefix_last s1 k c Hs1 Ec HSk) as Hlk.
  apply wp_bind. eapply wp_some; [by rewrite Ec |]. destruct (chain_next k c Hl Hlk) as [Hc Hn'].
  apply wp_bind, wp_on_vol. eapply wp_mono; [apply (wp_read_entry g Hg f D); [apply Hs1 | unfold is_cluster in Hc; lia] |].
  intros e v2 [-> H2]. set (s2 := FState (info s1) (fsize s1) v2 (mem s1)).
  assert (Hs2 : fs_ok s2) by (split; [eapply st_same; [apply Hs1 | done] | apply Hs1]).
  assert (Hk2 : kept s s2) by (eapply kept_trans; [done |]; by split_and!). unfold map_count in *. case_decide as Hd.
  - destruct Hn' as [Hn' ->]. cbn [negb]. apply wp_bind. eapply wp_mono; [apply (wp_push_map s2 (f c) (S k)); try done; unfold map_count; cbn; lia |].
    intros [] s3 (Hs3 & Hk3 & Em & Ecap). apply wp_ret. eexists. split; [split_and!; [done | by eapply kept_trans | rewrite Em; by destruct (cluster_map (info s2)) | by rewrite Ecap | reflexivity] |].
    rewrite Em, length_app. cbn. lia.
  - destruct Hn' as [Hn' E]. replace (is_data_cluster (f c)) with false by (unfold is_data_cluster; lia). apply wp_ret.
    split_and!; try done. rewrite <- E. apply chain_at_past; lia.
Qed.

Lemma map_lookup s i : fs_ok s -> 0 <= i < map_count s ->
  arr_get (cluster_map (info s)) i = Some (chain_at f l (Z.to_nat i)).
Proof.
  intros [_ Hf] Hi. destruct (arr_get_Some (cluster_map (info s)) i) as [c Hc]; [exact Hi |]. rewrite Hc. f_equal.
  apply arr_get_lookup in Hc. unfold chain_at. by rewrite (prefix_lookup_Some _ _ _ _ Hc (fo_map _ _ _ Hf)).
Qed.

Lemma wp_walk_cached s i : fs_ok s -> 0 <= i < 2 ^ 32 ->
  wp (fat32_walk_chain_cached g i) s (fun x s' => x = chain_at f l (Z.to_nat i) /\ fs_ok s' /\ kept s s').
Proof using Hg.
  intros Hs Hi. unfold fat32_walk_chain_cached. apply wp_bind, wp_fget.
  destruct (Z.leb_spec UINT32_MAX i) as [| Hmax]; [by apply wp_walk_cursor |]. unfold UINT32_MAX in Hmax.
  destruct (Z.ltb_spec i (map_count s)) as [Hc |].
  { eapply wp_some; [cbv beta; by rewrite (map_lookup s i Hs) by lia |]. split_and!; try done. by apply kept_refl. }
  rewrite (u32_small (i + 1)) by lia. apply wp_bind. eapply wp_mono; [apply wp_reserve_map; [done | lia] |].
  intros b s1 (Hs1 & Hk1 & Em & Hcap). destruct b; cbn [negb]; last first.
  { eapply wp_mono; [by apply wp_walk_cursor |]. intros x s2 (-> & Hs2 & Hk2). split_and!; [done | done |]. by eapply kept_trans. }
  specialize (Hcap eq_refl). pose proof (fo_start _ _ _ (proj2 Hs)) as Est. pose proof (fo_chain _ _ _ (proj2 Hs)) as Hl.
  assert (Hd : is_data_cluster (start_cluster (info s)) = negb (bool_decide (l = []))).
  { rewrite Est. clear -Hl Hg. destruct l as [| c l']; [done |]. apply (is_data_cluster_true g Hg), (linked_cluster g f (c :: l')); [by apply Hl | by left]. }
  rewrite Hd, negb_involutive. destruct ((map_count s =? 0) && bool_decide (l = [])) eqn:E0.
  { apply andb_true_iff in E0 as [_ E0%bool_decide_eq_true_1]. apply wp_ret. rewrite Est, E0. by split_and!. }
  apply wp_bind. apply wp_mono with (P := fun _ s2 => fs_ok s2 /\ kept s s2 /\ cluster_map (info s2) <> [] /\ i + 1 <= cluster_map_capacity (info s2)).
  { destruct (Z.eqb_spec (map_count s) 0) as [E |]; unfold map_count in *.
    - rewrite <- Em in E. destruct l as [| c l'] eqn:El; [done |]. rewrite Est.
      eapply wp_mono; [apply (wp_push_map s1 c 0); try done; rewrite ?El; unfold map_count; try done; lia |].
      intros [] s2 (Hs2 & Hk2 & Em2 & Ecap). split_and!; [done | by eapply kept_trans | rewrite Em2; by destruct (cluster_map (info s1)) | lia].
    - apply wp_ret. split_and!; [done | done | rewrite Em; by destruct (cluster_map (info s)) | done]. }
  intros [] s2 (Hs2 & Hk2 & Hne & Hcap2). apply wp_bind. eapply wp_mono; [apply (wp_map_loop s2 (i + 1)); (done || lia) |].
  replace (i + 1 - 1) with i by lia. intros [x |] s3 (Hs3 & Hk3 & Hr).
  { apply wp_ret. split_and!; [done | done |]. by eapply kept_trans. }
  apply wp_bind. eapply wp_some; [cbv beta; by rewrite (map_lookup s3 i Hs3) by lia |].
  destruct (last (cluster_map (info s3))) as [c |] eqn:Ec; [| apply last_None in Ec; unfold map_count in Hr; rewrite Ec in Hr; cbn in Hr; lia].
  apply wp_bind. eapply wp_some; [by rewrite Ec |]. apply wp_bind, wp_modify, wp_ret.
  assert (Hk : kept s s3) by by eapply kept_trans. split_and!; [done | | apply Hk..].
  pose proof (prefix_last s3 (pred (length (cluster_map (info s3)))) c Hs3 Ec) as Hlast. unfold map_count in *.
  assert (Hlt : l !! pred (length (cluster_map (info s3))) = Some c) by (apply Hlast; lia). apply lookup_lt_Some in Hlt as Hlen.
  destruct (limit_bound g Hg) as (_ & _ & Hlim). unfold EOC in Hlim.
  assert (Hll : Z.of_nat (length l) <= limit g - 2) by (apply (linked_length g f Hlim), Hl; intros ->; cbn in Hlen; lia).
  rewrite (u32_small (Z.of_nat (length (cluster_map (info s3))) - 1)) by lia.
  assert (Hcat : cursor_at (Z.of_nat (length (cluster_map (info s3))) - 1) c).
  { split; [lia |]. left. rewrite <- Hlt. f_equal. lia. }
  destruct (cursor_pack (Z.of_nat (length (cluster_map (info s3))) - 1) c) as [P1 P2]; [lia | by eapply cursor_at_range |].
  split; [apply Hs3 |]. cbn [info set_info]. apply file_ok_walk; [apply Hs3 | by rewrite P1, P2 |].
  rewrite P2. destruct (chain_next _ _ Hl Hlt) as [Hc _]. by apply (is_data_cluster_true g Hg).
Qed.

(** ** The sectors of a file *)

(** The disk sector of a sector of the file. *)
Definition disk_sector (j : Z) : option Z := c ← l !! Z.to_nat (j / sectors_per_cluster g); Some (file_lba g c j).

(** The contents of a sector of the file. *)
Definition file_sector (j : Z) : list Z := match disk_sector j with Some d => D d | None => [] end.

Definition file_sectors : Z := Z.of_nat (length l) * sectors_per_cluster g.

Lemma disk_sector_Some j : (l <> [] -> linked g f l) -> 0 <= j < file_sectors ->
  exists c d, l !! Z.to_nat (j / sectors_per_cluster g) = Some c /\ is_cluster g c /\ d = file_lba g c j /\ disk_sector j = Some d /\
    data_start_lba g <= d < sector_count (part g) /\ sector_cluster g d = c /\
    j / sectors_per_cluster g < Z.of_nat (length l) /\
    d = data_start_lba g + (c - 2) * sectors_per_cluster g + j mod sectors_per_cluster g.
Proof using Hg.
  intros Hl Hj. pose proof (go_spc g Hg) as Hspc. unfold file_sectors in Hj.
  assert (Hq : 0 <= j / sectors_per_cluster g < Z.of_nat (length l)).
  { split; [apply Z.div_pos; lia | apply Z.div_lt_upper_bound; lia]. }
  destruct (lookup_lt_is_Some_2 l (Z.to_nat (j / sectors_per_cluster g))) as [c Hc]; [lia |].
  destruct (chain_next _ _ Hl Hc) as [Hcl _]. pose proof Hg as Hg'. destruct Hg'. pose proof Hcl as Hcl'. unfold is_cluster, limit in Hcl'.
  pose proof (Z.mod_pos_bound j (sectors_per_cluster g) ltac:(lia)) as Hm.
  assert (Ed : file_lba g c j = data_start_lba g + (c - 2) * sectors_per_cluster g + j mod sectors_per_cluster g).
  { unfold file_lba. rewrite u32_small by lia. done. }
  pose proof (mul_spc g Hg (c - 1) (total_data_clusters g) ltac:(lia)). pose proof (mul_spc g Hg 0 (c - 2) ltac:(lia)).
  exists c, (file_lba g c j). unfold disk_sector. rewrite Hc. cbn [mbind option_bind]. split_and!; try done; try lia.
  unfold sector_cluster. rewrite Ed.
  replace (data_start_lba g + (c - 2) * sectors_per_cluster g + j mod sectors_per_cluster g - data_start_lba g)
    with ((c - 2) * sectors_per_cluster g + j mod sectors_per_cluster g) by lia.
  rewrite Z.div_add_l, (Z.div_small (j mod _)) by lia. lia.
Qed.

Lemma chain_short : (l <> [] -> linked g f l) -> Z.of_nat (length l) < 2 ^ 28.
Proof using Hg.
  intros Hl. destruct (limit_bound g Hg) as (_ & _ & Hlim). unfold EOC in Hlim. destruct l as [| x l']; [cbn; lia |].
  pose proof (linked_length g f Hlim _ (Hl ltac:(done))). lia.
Qed.

Lemma wp_map_file_sector s j : fs_ok s -> 0 <= j < file_sectors ->
  wp (fat32_map_file_sector g j) s (fun r s' => (exists d, r = inr d /\ disk_sector j = Some d) /\ fs_ok s' /\ kept s s').
Proof using Hg.
  intros Hs Hj. pose proof (go_spc g Hg) as Hspc. pose proof (fo_chain _ _ _ (proj2 Hs)) as Hl. pose proof (chain_short Hl).
  destruct (disk_sector_Some j Hl Hj) as (c & d & Hc & Hcl & -> & Hd & Hr & _ & Hq & _).
  unfold fat32_map_file_sector. replace (sectors_per_cluster g =? 0) with false by lia.
  replace (UINT32_MAX <? j / sectors_per_cluster g) with false by (unfold UINT32_MAX; lia).
  apply wp_bind. eapply wp_mono; [apply wp_walk_cached; [done |] |].
  { split; [apply Z.div_pos; lia | lia]. }
  intros x s1 (-> & Hs1 & Hk1). unfold chain_at. rewrite Hc, (is_data_cluster_true g Hg c Hcl). cbn [negb].
  replace (sector_count (part g) <=? file_lba g c j) with false by lia. apply wp_ret. split_and!; [by eexists | done | done].
Qed.

Definition disk_sectors (first : Z) (n : nat) : list Z := map (fun k => default 0 (disk_sector (first + Z.of_nat k))) (seq 0 n).

Lemma disk_sectors_S first n : disk_sectors first (S n) = default 0 (disk_sector first) :: disk_sectors (first + 1) n.
Proof.
  unfold disk_sectors. cbn [seq map]. replace (first + Z.of_nat 0) with first by lia. f_equal. rewrite <- seq_shift, map_map.
  apply map_ext. intros k. do 2 f_equal. lia.
Qed.

Lemma wp_map_sectors n : forall s first, fs_ok s -> 0 <= first -> first + Z.of_nat n <= file_sectors ->
  wp (map_sectors g first n) s (fun r s' => r = inr (disk_sectors first n) /\ fs_ok s' /\ kept s s').
Proof using Hg.
  induction n as [| n IH]; intros s first Hs H0 Hn; cbn [map_sectors].
  { apply wp_ret. split_and!; [done | done |]. by apply kept_refl. }
  apply wp_bind. eapply wp_mono; [apply wp_map_file_sector; [done | lia] |]. intros r s1 ((d & -> & Hd) & Hs1 & Hk1).
  apply wp_bind. eapply wp_mono; [apply (IH s1 (first + 1)); (done || lia) |]. intros r s2 (-> & Hs2 & Hk2).
  apply wp_ret. rewrite disk_sectors_S, Hd. split_and!; [done | done |]. by eapply kept_trans.
Qed.

(** ** Reading a page *)

Definition in_data (d : Z) : Prop := data_start_lba g <= d < sector_count (part g).

Lemma wp_read_data v d n : st g f D v -> 0 < n -> in_data d -> in_data (d + n - 1) ->
  wp (read_sectors g d n) v (fun r v' => r = inr (map D (seqZ d n)) /\ v' = v).
Proof using Hg.
  intros Hs Hn Hd Hl. unfold in_data in *. pose proof Hg as [].
  eapply wp_val; [apply read_sectors_eq; [apply Hs | lia | unfold is_u32; lia | lia | lia] |]. split; [| done]. f_equal.
  apply list_eq. intros k. destruct (decide (k < Z.to_nat n)%nat).
  - rewrite read_range_lookup by done. change (map D) with (fmap (M := list) D). rewrite list_lookup_fmap, lookup_seqZ_lt by lia. cbn. f_equal.
    rewrite <- (st_data _ _ _ _ Hs) by lia. unfold psec. f_equal. lia.
  - rewrite !lookup_ge_None_2; [done | rewrite length_map, length_seqZ; lia | rewrite length_read_range; lia].
Qed.

Lemma run_prefix ls d : take (run_count d ls) ls = seqZ d (Z.of_nat (run_count d ls)).
Proof.
  destruct (run_count_spec ls d) as [H1 H2]. apply list_eq. intros k. destruct (decide (k < run_count d ls)%nat).
  - rewrite lookup_take_lt, H2, lookup_seqZ_lt by lia. done.
  - rewrite lookup_take_ge by lia. by rewrite lookup_seqZ_ge by lia.
Qed.

Lemma wp_read_runs fuel : forall ls i page v, st g f D v -> Forall in_data ls -> (length ls <= fuel)%nat ->
  (i + length ls <= length page)%nat ->
  wp (read_runs g fuel ls i page) v (fun r v' => r = (0, splice i (map D ls) page) /\ v' = v).
Proof using Hg.
  induction fuel as [| fuel IH]; intros ls i page v Hs Hd Hf Hp.
  { destruct ls; [| cbn in Hf; lia]. apply wp_ret. cbn. by rewrite splice_nil by (cbn in Hp; lia). }
  destruct ls as [| d ls]; [apply wp_ret; cbn; by rewrite splice_nil by (cbn in Hp; lia) |]. cbn [read_runs].
  pose proof (run_prefix (d :: ls) d) as Ht. pose proof (run_count_spec (d :: ls) d) as [H1 H2].
  assert (Hpos : (0 < run_count d (d :: ls))%nat) by (cbn; rewrite Z.eqb_refl; lia).
  set (run := run_count d (d :: ls)) in *. clearbody run.
  assert (Hlast : in_data (d + Z.of_nat run - 1)).
  { apply (Forall_lookup_1 _ _ (pred run) _ Hd). rewrite H2 by lia. f_equal. lia. }
  apply wp_bind. eapply wp_mono; [apply (wp_read_data v d (Z.of_nat run)); [done | lia | by inversion Hd | done] |].
  intros r v1 [-> ->]. assert (Hlr : length (map D (seqZ d (Z.of_nat run))) = run) by (rewrite length_map, length_seqZ; lia).
  eapply wp_mono; [apply (IH (drop run (d :: ls))) |].
  - done.
  - by apply Forall_drop.
  - rewrite length_drop. cbn in *. lia.
  - rewrite length_drop, length_splice by lia. lia.
  - intros r v1 [-> ->]. split; [| done]. f_equal. rewrite <- Hlr at 1. rewrite splice_app.
    + f_equal. rewrite <- Ht, <- map_app, take_drop. done.
    + rewrite Hlr, length_map, length_drop. lia.
Qed.

(** [n] sectors of the file from [first] on, in a zeroed buffer of [size]
    sectors. *)
Definition filled (first n size : Z) : list (list Z) :=
  map (fun k => file_sector (first + Z.of_nat k)) (seq 0 (Z.to_nat n)) ++ blank (size - n).

(** The page of a file of [size] bytes. *)
Definition page_of (size page_index : Z) : list (list Z) :=
  filled (page_index * PAGE_SECTORS) (span_sectors size (page_index * PAGE_SIZE) PAGE_SIZE) PAGE_SECTORS.

(** The file has the clusters its size calls for. *)
Definition covered (size : Z) : Prop := 0 <= size <= file_sectors * 512.

Lemma span_bound size off len : covered size -> 0 <= off -> off mod 512 = 0 -> 0 <= len ->
  0 <= span_sectors size off len <= (len + 511) / 512 /\ (off < size -> off / 512 + span_sectors size off len <= file_sectors).
Proof using l.
  clear f D. intros Hc H0 Hm Hl. unfold covered, span_sectors in *. pose proof (Z.div_pos (len + 511) 512). case_match; bool_to_prop; [lia |].
  set (x := Z.min (size - off) len). assert (Hx : 0 <= x <= len /\ x <= size - off) by lia. clearbody x.
  Z.to_euclidean_division_equations. lia.
Qed.

Lemma disk_sectors_data first n : (l <> [] -> linked g f l) -> 0 <= first -> first + Z.of_nat n <= file_sectors ->
  Forall in_data (disk_sectors first n) /\ map D (disk_sectors first n) = map (fun k => file_sector (first + Z.of_nat k)) (seq 0 n).
Proof using Hg.
  intros Hl H0 Hn. unfold disk_sectors. split.
  - apply Forall_map, Forall_forall. intros k Hk%elem_of_seq. destruct (disk_sector_Some (first + Z.of_nat k) Hl ltac:(lia)) as (c & d & _ & _ & _ & -> & Hr & _). done.
  - rewrite map_map. apply map_ext_in. intros k Hk. apply in_seq in Hk. unfold file_sector.
    destruct (disk_sector_Some (first + Z.of_nat k) Hl ltac:(lia)) as (c & d & _ & _ & _ & -> & Hr & _). done.
Qed.

Lemma wp_readpage s p : fs_ok s -> covered (fsize s) -> 0 <= p <= UINT64_MAX / PAGE_SIZE ->
  wp (fat32_readpage g p) s (fun r s' =>
    r = (0, page_of (fsize s) p) /\ fs_ok s' /\ kept s s').
Proof using Hg.
  intros Hs Hc Hp. pose proof (kept_refl s Hs). unfold fat32_readpage. replace (UINT64_MAX / PAGE_SIZE <? p) with false by lia.
  apply wp_bind, wp_fget. destruct (Z.leb_spec (fsize s) (p * PAGE_SIZE)) as [Hle | Hlt].
  { apply wp_ret. split_and!; try done. unfold page_of, span_sectors. by replace (fsize s <=? p * PAGE_SIZE) with true by lia. }
  unfold page_of, PAGE_SIZE in *. destruct (span_bound (fsize s) (p * 4096) 4096 Hc) as [Hn Hin]; [lia | Z.to_euclidean_division_equations; lia | lia |].
  specialize (Hin Hlt). change ((4096 + 511) / 512) with 8 in Hn. replace (p * 4096 / 512) with (p * 8) in * by (Z.to_euclidean_division_equations; lia).
  set (n := span_sectors (fsize s) (p * 4096) 4096) in *. clearbody n.
  apply wp_bind. eapply wp_mono; [apply (wp_map_sectors (Z.to_nat n) s (p * 8)); (done || lia) |]. intros r s1 (-> & Hs1 & Hk1).
  destruct (disk_sectors_data (p * 8) (Z.to_nat n) (fo_chain _ _ _ (proj2 Hs))) as [Hd Em]; [lia | lia |].
  assert (Hlen : length (disk_sectors (p * 8) (Z.to_nat n)) = Z.to_nat n) by (unfold disk_sectors; by rewrite length_map, length_seq).
  apply wp_on_vol. eapply wp_mono; [apply wp_read_runs; [apply Hs1 | done | done |] |].
  { rewrite Hlen. unfold blank. rewrite length_replicate. change PAGE_SECTORS with 8. lia. }
  intros r v2 [-> ->]. split_and!; [| done | done | apply Hk1..]. f_equal. rewrite Em. unfold splice, filled. cbn [take app].
  rewrite length_map, length_seq. unfold blank. rewrite drop_replicate. change PAGE_SECTORS with 8. rewrite take_0. cbn [app]. do 2 f_equal. lia.
Qed.

(** ** Reading several pages *)

Lemma filled_lookup first n size k : 0 <= n <= size -> (k < Z.to_nat size)%nat ->
  filled first n size !! k = Some (if decide (Z.of_nat k < n) then file_sector (first + Z.of_nat k) else replicate 512 0).
Proof.
  intros Hn Hk. unfold filled, blank. case_decide.
  - rewrite lookup_app_l by (rewrite length_map, length_seq; lia). change (map ?h) with (fmap (M := list) h).
    rewrite list_lookup_fmap, lookup_seq_lt by lia. done.
  - rewrite lookup_app_r by (rewrite length_map, length_seq; lia). rewrite length_map, length_seq.
    apply lookup_replicate. split; [done | lia].
Qed.

Lemma length_filled first n size : 0 <= n <= size -> length (filled first n size) = Z.to_nat size.
Proof. intros. unfold filled, blank. rewrite length_app, length_map, length_seq, length_replicate. lia. Qed.

Lemma filled_splice first n m size ls : 0 <= n -> 0 <= m -> n + m <= size -> length ls = Z.to_nat m ->
  (forall k, (k < Z.to_nat m)%nat -> ls !! k = Some (file_sector (first + n + Z.of_nat k))) ->
  splice (Z.to_nat n) ls (filled first n size) = filled first (n + m) size.
Proof.
  intros Hn Hm Hs Hl Hk. apply list_eq_same_length with (n := Z.to_nat size).
  - apply length_filled. lia.
  - rewrite length_splice; rewrite length_filled by lia; lia.
  - intros k x y Hlt Hx Hy. rewrite lookup_splice in Hx by (rewrite length_filled by lia; lia). rewrite filled_lookup in Hy by lia.
    destruct (decide (Z.to_nat n <= k < Z.to_nat n + length ls)%nat) as [Hin | Hin].
    + rewrite Hk in Hx by lia. rewrite decide_True in Hy by lia. replace (first + n + Z.of_nat (k - Z.to_nat n)) with (first + Z.of_nat k) in Hx by lia. congruence.
    + rewrite filled_lookup in Hx by lia. repeat case_decide; try lia; congruence.
Qed.

(** The pending run of a buffer with [n] sectors settled. *)
Definition ext_inv (first total size : Z) (x : extents) : Prop :=
  0 <= x_count x /\ 0 <= x_logical x - x_count x /\ x_logical x <= total <= size /\
  staging x = filled first (x_logical x - x_count x) size /\ (0 < x_count x -> x_run x = x_logical x - x_count x) /\
  forall k, 0 <= k < x_count x -> disk_sector (first + (x_logical x - x_count x) + k) = Some (x_disk x + k).

Lemma wp_flush_run v first total size x : st g f D v -> (l <> [] -> linked g f l) -> ext_inv first total size x -> 0 < x_count x ->
  0 <= first -> first + total <= file_sectors ->
  wp (flush_run g x) v (fun r v' => exists x', r = (0, x') /\ v' = v /\ x_logical x' = x_logical x /\ x_count x' = 0 /\ ext_inv first total size x').
Proof using Hg.
  intros Hs Hl (H0 & H1 & H2 & Hst & Hrun & Hk) Hpos Hf Htot. unfold flush_run.
  assert (Hin : forall k, 0 <= k < x_count x -> in_data (x_disk x + k)).
  { intros k Hk'. destruct (disk_sector_Some (first + (x_logical x - x_count x) + k) Hl ltac:(lia)) as (c & d & _ & _ & _ & Hd & Hr & _).
    rewrite Hk in Hd by done. injection Hd as <-. done. }
  apply wp_bind. eapply wp_mono; [apply (wp_read_data v (x_disk x) (x_count x)); [done | lia | |] |].
  - replace (x_disk x) with (x_disk x + 0) by lia. apply Hin. lia.
  - replace (x_disk x + x_count x - 1) with (x_disk x + (x_count x - 1)) by lia. apply Hin. lia.
  - intros r v1 [-> ->]. apply wp_ret. eexists. split; [done |]. split_and!; [done | done | done |].
    unfold ext_inv. cbn. split_and!; try lia. rewrite Hrun, Hst by done. rewrite (filled_splice _ _ (x_count x)); [f_equal; lia | lia.. | |].
    + rewrite length_map, length_seqZ. done.
    + intros k Hk'. change (map D) with (fmap (M := list) D). rewrite list_lookup_fmap, lookup_seqZ_lt by lia. cbn. f_equal.
      unfold file_sector. by rewrite Hk by lia.
Qed.

(** The sectors of one cluster are consecutive on the disk. *)
Lemma disk_sector_run j k d : (l <> [] -> linked g f l) -> 0 <= j < file_sectors -> disk_sector j = Some d ->
  0 <= k < sectors_per_cluster g - j mod sectors_per_cluster g -> disk_sector (j + k) = Some (d + k).
Proof using Hg.
  intros Hl Hj Hd Hk. pose proof (go_spc g Hg) as Hspc. destruct (disk_sector_Some j Hl Hj) as (c & d' & Hc & Hcl & _ & Hd' & _ & _ & _ & E).
  rewrite Hd in Hd'. injection Hd' as <-. pose proof (Z.mod_pos_bound j (sectors_per_cluster g) ltac:(lia)).
  pose proof (Z.div_mod j (sectors_per_cluster g) ltac:(lia)).
  assert (Hq : (j + k) / sectors_per_cluster g = j / sectors_per_cluster g).
  { symmetry. apply (Z.div_unique _ _ _ (j mod sectors_per_cluster g + k)); lia. }
  assert (Hm : (j + k) mod sectors_per_cluster g = j mod sectors_per_cluster g + k).
  { symmetry. apply (Z.mod_unique _ _ (j / sectors_per_cluster g)); lia. }
  unfold disk_sector. rewrite Hq, Hc. cbn [mbind option_bind]. f_equal. unfold file_lba. rewrite Hm, E. unfold is_cluster in Hcl.
  destruct (limit_bound g Hg) as (_ & _ & Hlim). unfold EOC in Hlim. rewrite u32_small by lia. lia.
Qed.

Lemma ext_inv_grow first total size x j d e : ext_inv first total size x -> j = first + x_logical x ->
  (forall k, 0 <= k < e -> disk_sector (j + k) = Some (d + k)) -> 0 < e -> x_logical x + e <= total ->
  x_count x = 0 \/ d = x_disk x + x_count x ->
  let x2 := if x_count x =? 0 then Extents (x_logical x) (x_logical x) 0 d (staging x) else x in
  ext_inv first total size (Extents (x_logical x2 + e) (x_run x2) (x_count x2 + e) (x_disk x2) (staging x2)).
Proof.
  intros (H0 & H1 & H2 & Hst & Hrun & Hk) -> Hd He Ht Hor. cbv zeta. unfold ext_inv. destruct (Z.eqb_spec (x_count x) 0) as [E |]; cbn.
  - rewrite E in *. split_and!; try lia; [rewrite Hst; f_equal; lia |]. intros k Hk'. rewrite <- Hd by lia. f_equal. lia.
  - destruct Hor as [? | ->]; [done |]. replace (x_logical x + e - (x_count x + e)) with (x_logical x - x_count x) by lia.
    split_and!; try lia; [done |]. intros k Hk'. destruct (decide (k < x_count x)); [apply Hk; lia |].
    replace (first + (x_logical x - x_count x) + k) with (first + x_logical x + (k - x_count x)) by lia. rewrite Hd by lia. f_equal. lia.
Qed.

Lemma wp_extent_round s first total size x : fs_ok s -> ext_inv first total size x -> 0 <= first ->
  (0 < total -> first + total <= file_sectors) ->
  wp (extent_round g first total x) s (fun r s' => fs_ok s' /\ kept s s' /\
    match r with
    | inl x' => ext_inv first total size x' /\ x_logical x < x_logical x'
    | inr (rc, x') => rc = 0 /\ ext_inv first total size x' /\ x_logical x' = total
    end).
Proof using Hg.
  intros Hs Hx Hf Htot. pose proof (kept_refl s Hs) as Hkr. pose proof (fo_chain _ _ _ (proj2 Hs)) as Hl. pose proof (go_spc g Hg) as Hspc.
  pose proof Hx as (H0 & H1 & H2 & _). unfold extent_round. destruct (Z.ltb_spec (x_logical x) total); cbn [negb]; last first.
  { apply wp_ret. split_and!; try done; lia. }
  specialize (Htot ltac:(lia)). set (j := first + x_logical x). pose proof (chain_short Hl) as Hshort.
  destruct (disk_sector_Some j Hl ltac:(lia)) as (c & d & Hc & Hcl & Ed & Hd & Hr & _ & Hq & Ed2).
  pose proof (Z.mod_pos_bound j (sectors_per_cluster g) ltac:(lia)) as Hm.
  replace (sectors_per_cluster g =? 0) with false by lia.
  replace (UINT32_MAX <? j / sectors_per_cluster g) with false by (unfold UINT32_MAX; lia).
  apply wp_bind. eapply wp_mono; [apply wp_walk_cached; [done | split; [apply Z.div_pos; lia | lia]] |].
  intros x0 s1 (-> & Hs1 & Hk1). unfold chain_at. rewrite Hc, (is_data_cluster_true g Hg c Hcl). cbn [negb]. rewrite <- Ed. cbv zeta.
  set (e := Z.min (sectors_per_cluster g - j mod sectors_per_cluster g) (total - x_logical x)).
  assert (Hroom : d + e <= sector_count (part g)).
  { unfold is_cluster, limit in Hcl. pose proof (mul_spc g Hg (c - 1) (total_data_clusters g) ltac:(lia)). pose proof Hg as []. lia. }
  replace ((sector_count (part g) <=? d) || (sector_count (part g) - d <? e)) with false by lia.
  assert (Hrun : forall k, 0 <= k < e -> disk_sector (j + k) = Some (d + k)) by (intros k Hk; apply disk_sector_run; (done || lia)).
  apply wp_bind. destruct (negb (x_count x =? 0) && negb (d =? x_disk x + x_count x)) eqn:Hfl.
  - bool_to_prop. apply wp_on_vol. eapply wp_mono; [apply (wp_flush_run _ first total size x); [apply Hs1 | done | done | lia | done | done] |].
    intros r v2 (x' & -> & -> & Elog & Ecnt & Hx'). cbn [Z.eqb negb]. apply wp_ret.
    replace (FState (info s1) (fsize s1) (vol s1) (mem s1)) with s1 by (by destruct s1). split; [done |]. split; [done |]. split.
    + apply (ext_inv_grow first total size x' j d e); [done | by rewrite Elog | done | lia | lia | by left].
    + destruct (x_count x' =? 0); cbn; lia.
  - apply wp_ret. cbn [Z.eqb negb]. apply wp_ret. split; [done |]. split; [done |]. split.
    + apply (ext_inv_grow first total size x j d e); [done | done | done | lia | lia |].
      apply andb_false_iff in Hfl as [Hfl | Hfl]; bool_to_prop; auto.
    + destruct (x_count x =? 0); cbn; lia.
Qed.

Lemma span_page size first nr i : 0 <= first -> 0 <= i < nr ->
  span_sectors size ((first + i) * 4096) 4096 = Z.max 0 (Z.min 8 (span_sectors size (first * 4096) (nr * 4096) - 8 * i)).
Proof. intros Hf Hi. unfold span_sectors. repeat case_match; bool_to_prop; Z.to_euclidean_division_equations; lia. Qed.

(** A page of the staging buffer is the page of the file. *)
Lemma staging_page size first nr i : 0 <= first -> 0 <= i < nr -> 0 <= span_sectors size (first * 4096) (nr * 4096) <= nr * 8 ->
  slice (Z.to_nat i * 8) 8 (filled (first * 8) (span_sectors size (first * 4096) (nr * 4096)) (nr * 8)) = page_of size (first + i).
Proof.
  intros Hf Hi Hs. unfold page_of, PAGE_SIZE. rewrite (span_page size first nr i Hf Hi). change PAGE_SECTORS with 8.
  set (t := span_sectors size (first * 4096) (nr * 4096)) in *. clearbody t.
  apply list_eq_same_length with (n := 8%nat).
  - apply length_filled. lia.
  - rewrite length_slice; [done |]. rewrite length_filled by lia. lia.
  - intros k x y Hk Hx Hy. rewrite filled_lookup in Hy by lia. rewrite lookup_slice, filled_lookup in Hx by lia.
    replace (first * 8 + Z.of_nat (Z.to_nat i * 8 + k)) with ((first + i) * 8 + Z.of_nat k) in Hx by lia. repeat case_decide; try lia; congruence.
Qed.

Lemma wp_readpages s first nr : fs_ok s -> covered (fsize s) -> 0 <= first <= UINT64_MAX / PAGE_SIZE -> 0 < nr <= PAGE_CACHE_RA_MAX_PAGES ->
  wp (fat32_readpages g first nr) s (fun r s' => fs_ok s' /\ kept s s' /\
    if (kmalloc_ok (mem s)).1 then r = inr (map (fun i => page_of (fsize s) (first + Z.of_nat i)) (seq 0 (Z.to_nat nr))) else r = inl (- ENOMEM)).
Proof using Hg.
  intros Hs Hc Hf Hn. unfold fat32_readpages.
  replace ((nr =? 0) || (PAGE_CACHE_RA_MAX_PAGES <? nr) || (UINT64_MAX / PAGE_SIZE <? first)) with false by lia.
  apply wp_bind, wp_alloc. intros b m Eb. rewrite <- Eb. pose proof (kept_refl s Hs) as Hkr. destruct b; cbn [negb]; [| apply wp_ret; by split_and!].
  apply wp_bind, wp_fget. cbn [fsize]. set (s1 := FState (info s) (fsize s) (vol s) m). assert (Hs1 : fs_ok s1) by done.
  unfold PAGE_SIZE, PAGE_CACHE_RA_MAX_PAGES in *. change PAGE_SECTORS with 8.
  destruct (span_bound (fsize s) (first * 4096) (nr * 4096) Hc) as [Ht Hin]; [lia | Z.to_euclidean_division_equations; lia | lia |].
  replace (first * 4096 / 512) with (first * 8) in * by (Z.to_euclidean_division_equations; lia).
  assert (Ht' : 0 <= span_sectors (fsize s) (first * 4096) (nr * 4096) <= nr * 8) by (clear -Ht Hn; Z.to_euclidean_division_equations; lia).
  assert (Hzero : fsize s <= first * 4096 -> span_sectors (fsize s) (first * 4096) (nr * 4096) = 0).
  { intros Hle. unfold span_sectors. by replace (fsize s <=? first * 4096) with true by lia. }
  pose proof (staging_page (fsize s) first nr) as Hpage. set (t := span_sectors (fsize s) (first * 4096) (nr * 4096)) in *. clearbody t.
  assert (Hcov : 0 < t -> first * 8 + t <= file_sectors) by lia.
  apply wp_bind. apply wp_mono with (P := fun r s2 => fs_ok s2 /\ kept s s2 /\
    match r with (rc, x) => rc = 0 /\ ext_inv (first * 8) t (nr * 8) x /\ x_logical x = t end).
  { apply (wp_ploop (fun n x s2 => fs_ok s2 /\ kept s s2 /\ ext_inv (first * 8) t (nr * 8) x /\ n = t - x_logical x)) with (n := t).
    - intros n x s2 (Hs2 & Hk2 & Hx & ->). eapply wp_mono; [by apply (wp_extent_round s2 (first * 8) t (nr * 8) x); try lia |].
      intros [x' | [rc x']] s3 (Hs3 & Hk3 & Hr); pose proof (kept_trans _ _ _ Hk2 Hk3).
      + exists (t - x_logical x'). destruct Hr as [Hx' Hlt]. split; [done |]. destruct Hx' as (? & ? & ? & _). lia.
      + split; [done |]. split; [done |]. exact Hr.
    - split_and!; try done; [| cbn; lia]. unfold ext_inv. cbn [x_logical x_run x_count x_disk staging].
      change (0 - 0) with 0. split_and!; try lia. unfold filled. by rewrite Z.sub_0_r.
    - change (2 ^ Z.of_nat 32) with (2 ^ 32). lia. }
  intros [rc x] s2 (Hs2 & Hk2 & -> & Hx & Hlog). cbn [Z.eqb andb]. apply wp_bind.
  apply wp_mono with (P := fun r s3 => fs_ok s3 /\ kept s s3 /\ exists x', r = (0, x') /\ staging x' = filled (first * 8) t (nr * 8)).
  { destruct (Z.eqb_spec (x_count x) 0) as [E |]; cbn [negb].
    - apply wp_ret. split_and!; try done. exists x. split; [done |]. destruct Hx as (_ & _ & _ & -> & _). f_equal. lia.
    - pose proof Hx as (? & ? & ? & _). apply wp_on_vol.
      eapply wp_mono; [apply (wp_flush_run _ (first * 8) t (nr * 8) x); [apply Hs2 | apply (fo_chain _ _ _ (proj2 Hs2)) | done | lia | lia | lia] |].
      intros r v3 (x' & -> & -> & El & Ec & Hx'). replace (FState (info s2) (fsize s2) (vol s2) (mem s2)) with s2 by (by destruct s2).
      split_and!; try done. exists x'. split; [done |]. destruct Hx' as (_ & _ & _ & -> & _). f_equal. lia. }
  intros r s3 (Hs3 & Hk3 & x' & -> & Est). apply wp_ret. cbn [Z.eqb]. split; [done |]. split; [done |]. f_equal. rewrite Est.
  apply map_ext_in. intros i Hi. apply in_seq in Hi. change (Z.to_nat 8) with 8%nat. rewrite <- (Hpage (Z.of_nat i)) by lia. by rewrite Nat2Z.id.
Qed.

(** Two sectors of a file are never the same sector of the disk. *)
Lemma disk_sector_inj j j' d : (l <> [] -> linked g f l) -> 0 <= j < file_sectors -> 0 <= j' < file_sectors ->
  disk_sector j = Some d -> disk_sector j' = Some d -> j = j'.
Proof using Hg.
  intros Hl Hj Hj' Hd Hd'. pose proof (go_spc g Hg) as Hspc. destruct (limit_bound g Hg) as (_ & _ & Hlim).
  destruct (disk_sector_Some j Hl Hj) as (c & d1 & Hc & _ & _ & E1 & _ & Hs1 & _ & F1).
  destruct (disk_sector_Some j' Hl Hj') as (c' & d2 & Hc' & _ & _ & E2 & _ & Hs2 & _ & F2).
  assert (d1 = d) as -> by congruence. assert (d2 = d) as -> by congruence. assert (c' = c) as -> by congruence.
  assert (Hnd : NoDup l) by (apply (linked_NoDup g f Hlim), Hl; by intros ->).
  pose proof (NoDup_lookup _ _ _ _ Hnd Hc Hc') as Hq.
  pose proof (Z.div_pos j (sectors_per_cluster g) ltac:(lia) ltac:(lia)). pose proof (Z.div_pos j' (sectors_per_cluster g) ltac:(lia) ltac:(lia)).
  rewrite (Z.div_mod j (sectors_per_cluster g)), (Z.div_mod j' (sectors_per_cluster g)) by lia.
  replace (j' / sectors_per_cluster g) with (j / sectors_per_cluster g) by lia. lia.
Qed.
End walks.

(** ** Writing pages *)

Section writes.
Context (f : Z -> Z) (l : list Z).

(** The first [n] sectors of [data] are sectors [base], ... of the file in
    [D'], which is [D] elsewhere. *)
Definition wrote_file (D : Z -> list Z) (base : Z) (data : list (list Z)) (n : nat) (D' : Z -> list Z) : Prop :=
  (forall k d, (k < n)%nat -> disk_sector l (base + Z.of_nat k) = Some d -> data !! k = Some (D' d)) /\
  (forall d, (forall k, (k < n)%nat -> disk_sector l (base + Z.of_nat k) <> Some d) -> D' d = D d).

Lemma wp_write_data D v d data : st g f D v -> data <> [] -> in_data d -> in_data (d + Z.of_nat (length data) - 1) -> Forall sector_ok data ->
  wp (write_sectors g d data) v (fun rc v' => rc = 0 /\
    st g f (fun k => if decide (d <= k < d + Z.of_nat (length data)) then default [] (data !! Z.to_nat (k - d)) else D k) v').
Proof using Hg.
  intros Hs Hne Hd Hl Hok. unfold in_data in *. pose proof Hg as [].
  eapply wp_val; [apply write_sectors_eq; [apply Hs | lia | unfold is_u32; lia | done | lia] |]. split; [done |].
  apply (st_put_data g Hg f D); [done | right; lia | done | done].
Qed.

Definition kept_inode (s s' : fstate) : Prop :=
  fsize s' = fsize s /\ start_cluster (info s') = start_cluster (info s) /\
  dir_start_cluster (info s') = dir_start_cluster (info s) /\ dir_entry_index (info s') = dir_entry_index (info s).

Lemma kept_kept s s' : kept s s' -> kept_inode s s'.
Proof. intros (? & ? & ? & ? & _). by split_and!. Qed.

Lemma kept_inode_trans s s1 s2 : kept_inode s s1 -> kept_inode s1 s2 -> kept_inode s s2.
Proof. intros (? & ? & ? & ?) (? & ? & ? & ?). split_and!; congruence. Qed.

(** The pending run of [write_runs]. *)
Definition pending (base : Z) (first count : nat) (disk : Z) : Prop :=
  forall k, (k < count)%nat -> disk_sector l (base + Z.of_nat (first + k)) = Some (disk + Z.of_nat k).

Lemma wp_write_run D0 D s base data first count disk : fs_ok f D l s -> wrote_file D0 base data first D -> pending base first count disk ->
  (0 < count)%nat -> (first + count <= length data)%nat -> 0 <= base -> base + Z.of_nat (first + count) <= file_sectors l ->
  Forall sector_ok data ->
  wp (on_vol (write_sectors g disk (slice first count data))) s (fun rc s' => rc = 0 /\
    exists D', fs_ok f D' l s' /\ wrote_file D0 base data (first + count) D' /\ kept_inode s s').
Proof using Hg.
  intros [Hs Hf] [Hw1 Hw2] Hp Hc Hlen Hb Hfs Hok. pose proof (fo_chain _ _ _ Hf) as Hl.
  assert (Hsl : length (slice first count data) = count) by (apply length_slice; lia).
  assert (Hin : forall k, (k < count)%nat -> in_data (disk + Z.of_nat k)).
  { intros k Hk. pose proof (Hp k Hk) as Hd. destruct (disk_sector_Some f l _ Hl (ltac:(lia) : 0 <= base + Z.of_nat (first + k) < file_sectors l))
      as (c & d & _ & _ & _ & Hd' & Hr & _). rewrite Hd in Hd'. injection Hd' as <-. done. }
  apply wp_on_vol. eapply wp_mono; [apply (wp_write_data D); [done | | | |] |].
  - intros E. rewrite E in Hsl. cbn in Hsl. lia.
  - replace disk with (disk + Z.of_nat 0) by lia. apply Hin. lia.
  - rewrite Hsl. replace (disk + Z.of_nat count - 1) with (disk + Z.of_nat (count - 1)) by lia. apply Hin. lia.
  - by apply Forall_take, Forall_drop.
  - intros rc v' [-> Hs']. split; [done |]. eexists. split; [split; [exact Hs' | done] |]. split; [| by split_and!].
    rewrite Hsl. split.
    + intros k d Hk Hd. case_decide as Hr.
      * assert (Hk' : base + Z.of_nat k = base + Z.of_nat (first + Z.to_nat (d - disk))).
        { apply (disk_sector_inj f l _ _ d Hl); [lia | lia | done |]. rewrite Hp by lia. f_equal. lia. }
        assert (Ek : k = (first + Z.to_nat (d - disk))%nat) by lia. rewrite lookup_slice by lia. rewrite <- Ek.
        destruct (lookup_lt_is_Some_2 data k) as [x ->]; [lia | done].
      * destruct (decide (k < first)%nat); [by apply Hw1 |]. destruct Hr.
        pose proof (Hp (k - first)%nat ltac:(lia)) as Hd'. replace (first + (k - first))%nat with k in Hd' by lia. rewrite Hd in Hd'. injection Hd' as ->. lia.
    + intros d Hd. rewrite decide_False.
      * apply Hw2. intros k Hk. apply Hd. lia.
      * intros Hr. apply (Hd (first + Z.to_nat (d - disk))%nat); [lia |]. rewrite Hp by lia. f_equal. lia.
Qed.

Lemma wp_write_runs D0 data base n : forall D s i first count disk, fs_ok f D l s -> wrote_file D0 base data first D -> pending base first count disk ->
  i = (first + count)%nat -> (count = 0 -> first = 0)%nat -> (i + n <= length data)%nat -> 0 <= base -> base + Z.of_nat (i + n) <= file_sectors l ->
  Forall sector_ok data ->
  wp (write_runs g data base i first count disk n) s (fun rc s' => rc = 0 /\
    exists D', fs_ok f D' l s' /\ wrote_file D0 base data (i + n) D' /\ kept_inode s s').
Proof using Hg.
  induction n as [| n IH]; intros D s i first count disk Hs Hw Hp -> Hz Hlen Hb Hfs Hok; cbn [write_runs].
  - rewrite Nat.add_0_r in *. destruct (Nat.eqb_spec count 0) as [-> |].
    + apply wp_ret. split; [done |]. exists D. rewrite Nat.add_0_r. by split_and!.
    + by apply (wp_write_run D0 D); try lia.
  - apply wp_bind. eapply wp_mono; [apply (wp_map_file_sector f D l); [done | lia] |]. intros r s1 ((d & -> & Hd) & Hs1 & Hk1%kept_kept).
    assert (Hone : forall i', base + Z.of_nat i' = base + Z.of_nat (first + count) -> pending base i' 1 d).
    { intros i' Ei k Hk. replace k with 0%nat by lia. replace (base + Z.of_nat (i' + 0)) with (base + Z.of_nat (first + count)) by lia. rewrite Hd. f_equal. lia. }
    destruct (Nat.eqb_spec count 0) as [E0 |].
    + eapply wp_mono; [apply (IH D s1 _ (first + count)%nat 1%nat d Hs1); [| apply Hone; lia | lia | lia | lia | done | lia | done] |].
      { rewrite E0, Nat.add_0_r. done. }
      intros rc s2 (-> & D' & Hs2 & Hw2 & Hk2). split; [done |]. exists D'.
      split; [exact Hs2 |]. split; [by rewrite <- Nat.add_succ_comm | by eapply kept_inode_trans].
    + destruct (Z.eqb_spec d (disk + Z.of_nat count)) as [-> |].
      * eapply wp_mono; [apply (IH D s1 _ first (S count) disk Hs1 Hw); [| lia | lia | lia | done | lia | done] |].
        { intros k Hk. destruct (decide (k < count)%nat); [by apply Hp |]. assert (k = count) as -> by lia. done. }
        intros rc s2 (-> & D' & Hs2 & Hw2 & Hk2). split; [done |]. exists D'.
      split; [exact Hs2 |]. split; [by rewrite <- Nat.add_succ_comm | by eapply kept_inode_trans].
      * apply wp_bind. eapply wp_mono; [apply (wp_write_run D0 D s1 base data first count disk); try done; lia |].
        intros rc s2 (-> & D2 & Hs2 & Hw2 & Hk2). cbn [Z.eqb negb].
        eapply wp_mono; [apply (IH D2 s2 _ (first + count)%nat 1%nat d Hs2 Hw2); [apply Hone; lia | lia | lia | lia | done | lia | done] |].
        intros rc s3 (-> & D' & Hs3 & Hw3 & Hk3). split; [done |]. exists D'.
        split; [exact Hs3 |]. split; [by rewrite <- Nat.add_succ_comm |]. eapply kept_inode_trans, kept_inode_trans; done.
Qed.

Definition page_span (size p : Z) : Z := span_sectors size (p * PAGE_SIZE) PAGE_SIZE.

Lemma page_span_bound size p : covered l size -> 0 <= p -> 0 <= page_span size p <= 8 /\
  (0 < page_span size p -> p * 8 + page_span size p <= file_sectors l /\ p * PAGE_SIZE < size).
Proof.
  intros Hc Hp. unfold page_span, PAGE_SIZE. destruct (span_bound l size (p * 4096) 4096 Hc) as [H1 H2]; [lia | Z.to_euclidean_division_equations; lia | lia |].
  change ((4096 + 511) / 512) with 8 in H1. replace (p * 4096 / 512) with (p * 8) in * by (Z.to_euclidean_division_equations; lia).
  assert (size <= p * 4096 -> span_sectors size (p * 4096) 4096 = 0).
  { intros Hle. unfold span_sectors. by replace (size <=? p * 4096) with true by lia. }
  lia.
Qed.

Lemma wp_writepage D s p data : fs_ok f D l s -> covered l (fsize s) -> 0 <= p <= UINT64_MAX / PAGE_SIZE -> length data = 8%nat -> Forall sector_ok data ->
  wp (fat32_writepages g [(p, data)]) s (fun rc s' => rc = 0 /\ exists D', fs_ok f D' l s' /\
    wrote_file D (p * 8) data (Z.to_nat (page_span (fsize s) p)) D' /\ kept_inode s s').
Proof using Hg.
  intros Hs Hc Hp Hlen Hok. destruct (page_span_bound (fsize s) p Hc ltac:(lia)) as [Hn Hin]. unfold fat32_writepages. cbn [write_pages length Nat.eqb].
  replace (UINT64_MAX / PAGE_SIZE <? p) with false by lia. apply wp_bind, wp_fget. apply wp_bind.
  apply wp_mono with (P := fun rc s' => rc = 0 /\ exists D', fs_ok f D' l s' /\
    wrote_file D (p * 8) data (Z.to_nat (page_span (fsize s) p)) D' /\ kept_inode s s'); last first.
  { intros rc s' [-> H]. by apply wp_ret. }
  destruct (Z.leb_spec (fsize s) (p * PAGE_SIZE)) as [Hle | Hlt].
  - apply wp_ret. split; [done |]. exists D. assert (page_span (fsize s) p = 0) as -> by lia.
    split; [done |]. split; [| by split_and!]. split; [intros; lia | done].
  - replace (p * PAGE_SIZE / 512) with (p * 8) by (unfold PAGE_SIZE; Z.to_euclidean_division_equations; lia).
    fold (page_span (fsize s) p). assert (Hpos : page_span (fsize s) p = 0 \/ 0 < page_span (fsize s) p) by lia.
    eapply wp_mono; [apply (wp_write_runs D data (p * 8) (Z.to_nat (page_span (fsize s) p)) D s 0 0 0 0 Hs); try done; try lia |].
    + split; [intros; lia | done].
    + intros k Hk. lia.
    + unfold page_span, span_sectors, PAGE_SIZE in *. case_match; bool_to_prop; [lia |].
      assert (0 < (Z.min (fsize s - p * 4096) 4096 + 511) / 512) by (Z.to_euclidean_division_equations; lia). lia.
    + intros rc s' H. exact H.
Qed.

(** What the pages of the file are afterwards. *)
Lemma wrote_file_pages D D' p data size q : (l <> [] -> linked g f l) -> covered l size -> 0 <= p -> 0 <= q -> length data = 8%nat ->
  wrote_file D (p * 8) data (Z.to_nat (page_span size p)) D' ->
  page_of D' l size q = if decide (q = p) then take (Z.to_nat (page_span size p)) data ++ blank (8 - page_span size p) else page_of D l size q.
Proof using Hg.
  intros Hl Hc Hp Hq Hlen [Hw1 Hw2]. destruct (page_span_bound size p Hc Hp) as [Hn Hin]. destruct (page_span_bound size q Hc Hq) as [Hnq Hinq].
  unfold page_of. fold (page_span size q). change PAGE_SECTORS with 8. unfold filled. case_decide as Hqp.
  - subst q. f_equal. apply list_eq_same_length with (n := Z.to_nat (page_span size p)); [rewrite length_take; lia | by rewrite length_map, length_seq |].
    intros k x y Hk Hx Hy. rewrite lookup_take_lt in Hy by lia. change (map ?h) with (fmap (M := list) h) in Hx.
    rewrite list_lookup_fmap, lookup_seq_lt in Hx by lia. cbn in Hx. unfold file_sector in Hx.
    destruct (disk_sector_Some f l (p * 8 + Z.of_nat k) Hl ltac:(lia)) as (c & d & _ & _ & _ & Hd & _).
    rewrite Hd in Hx. rewrite (Hw1 k d Hk Hd) in Hy. congruence.
  - f_equal. apply map_ext_in. intros k Hk. apply in_seq in Hk. unfold file_sector.
    destruct (disk_sector_Some f l (q * 8 + Z.of_nat k) Hl ltac:(lia)) as (c & d & _ & _ & _ & Hd & _). rewrite Hd. apply Hw2.
    intros k' Hk' Hd'. pose proof (disk_sector_inj f l _ _ d Hl (ltac:(lia) : 0 <= q * 8 + Z.of_nat k < file_sectors l)
      (ltac:(lia) : 0 <= p * 8 + Z.of_nat k' < file_sectors l) Hd Hd'). lia.
Qed.
End writes.

(** ** Truncation *)

(** The FAT after the chain [l] has been cut to its first [n] clusters. *)
Definition cut (f : Z -> Z) (l : list Z) (n : nat) : Z -> Z := fun x =>
  if decide (x ∈ drop n l) then 0
  else if decide ((n < length l)%nat /\ l !! pred n = Some x) then EOC_MARK else f x.

Section resize.
Context (f : Z -> Z) (D : Z -> list Z) (l : list Z).
Hypothesis Hl : l <> [] -> linked g f l.

Lemma wp_shrink_loop v keep : st g f D v -> 0 < keep <= Z.of_nat (length l) ->
  wp (ploop 33 (shrink_round g keep) (0, 0, default 0 (head l))) v (fun r v' => same g v v' /\
    r = (default 0 (l !! pred (Z.to_nat keep)), chain_at f l (Z.to_nat keep))).
Proof using Hg Hl.
  intros Hs Hk. pose proof (chain_short f l Hl) as Hshort.
  apply (wp_ploop (fun n x v' => let '(i, prev, c) := x in same g v v' /\ 0 <= i <= keep /\ n = keep - i /\ c = chain_at f l (Z.to_nat i) /\
      (0 < i -> prev = default 0 (l !! pred (Z.to_nat i))))) with (n := keep).
  2: { split_and!; try lia; [apply same_refl, Hs |]. unfold chain_at. by destruct l. }
  2: { change (2 ^ Z.of_nat 33) with (2 ^ 33). lia. }
  intros n [[i prev] c] v1 (Hsm & Hi & -> & -> & Hprev). unfold shrink_round. destruct (Z.ltb_spec i keep); cbn [negb]; last first.
  { apply wp_ret. split; [done |]. assert (i = keep) as -> by lia. by rewrite Hprev by lia. }
  destruct (lookup_lt_is_Some_2 l (Z.to_nat i)) as [c Hc]; [lia |]. destruct (chain_next f l _ _ Hl Hc) as [Hcl Hn].
  assert (Ec : chain_at f l (Z.to_nat i) = c) by (unfold chain_at; by rewrite Hc). rewrite Ec, (is_data_cluster_true g Hg c Hcl). cbn [negb].
  apply wp_bind. eapply wp_mono; [apply (wp_read_entry g Hg f D); [by eapply st_same | unfold is_cluster in Hcl; lia] |].
  intros e v2 [-> H2]. apply wp_ret. exists (keep - (i + 1)). split; [| lia]. split_and!; [by eapply same_trans | lia | lia | lia | |].
  - replace (Z.to_nat (i + 1)) with (S (Z.to_nat i)) by lia. case_decide; [| by destruct Hn].
    destruct Hn as [Hn _]. unfold chain_at. by rewrite Hn.
  - intros _. replace (pred (Z.to_nat (i + 1))) with (Z.to_nat i) by lia. by rewrite Hc.
Qed.

Lemma linked_drop n : (n < length l)%nat -> linked g f (drop n l).
Proof using Hl.
  intros Hn. destruct (lookup_lt_is_Some_2 l n Hn) as [c Hc]. rewrite (drop_S _ _ _ Hc).
  apply (linked_app g f (take n l)). rewrite <- (drop_S _ _ _ Hc), take_drop. apply Hl. by intros ->.
Qed.

Lemma take_not_drop n x : x ∈ take n l -> x ∉ drop n l.
Proof using Hl Hg.
  intros Ht Hd. destruct (limit_bound g Hg) as (_ & _ & Hlim). assert (Hne : l <> []) by (intros E; rewrite E, take_nil in Ht; by apply elem_of_nil in Ht).
  pose proof (linked_NoDup g f Hlim l (Hl Hne)) as Hnd. rewrite <- (take_drop n l) in Hnd. apply NoDup_app in Hnd as (_ & Hnd & _). by apply (Hnd x).
Qed.

(** What is kept of the chain is a chain again. *)
Lemma linked_cut n : (0 < n <= length l)%nat -> linked g (cut f l n) (take n l).
Proof using Hl Hg.
  intros Hn. assert (Hne : l <> []) by (destruct l; [cbn in Hn; lia | done]). specialize (Hl Hne) as Hll.
  assert (H : forall m k, (k + m = n)%nat -> (0 < m)%nat -> linked g (cut f l n) (drop k (take n l))).
  { induction m as [| m IH]; intros k Hk Hm; [lia |]. destruct (lookup_lt_is_Some_2 l k) as [c Hc]; [lia |].
    assert (Hck : take n l !! k = Some c) by (rewrite lookup_take_lt by lia; done). rewrite (drop_S _ _ _ Hck).
    destruct (linked_next g f l k c Hll Hc) as [Hcl He].
    assert (Hcd : c ∉ drop n l) by (apply take_not_drop; by eapply list_elem_of_lookup_2).
    destruct (decide (m = 0)%nat) as [-> |].
    - rewrite (drop_ge (take n l) (S k)) by (rewrite length_take; lia). split; [done |]. unfold cut. rewrite decide_False by done.
      destruct (decide (n < length l)%nat).
      + rewrite decide_True; [done |]. split; [done |]. rewrite <- Hc. f_equal. lia.
      + rewrite decide_False by (intros [? _]; lia). rewrite decide_False in He by lia. done.
    - specialize (IH (S k) ltac:(lia) ltac:(lia)). destruct (lookup_lt_is_Some_2 (take n l) (S k)) as [c' Hc']; [rewrite length_take; lia |].
      rewrite (drop_S _ _ _ Hc') in IH |- *. rewrite lookup_take_lt in Hc' by lia. rewrite decide_True in He by (apply lookup_lt_Some in Hc'; lia).
      apply linked_cons; [done | | done]. unfold cut. rewrite decide_False by done. rewrite decide_False; [congruence |].
      intros [_ E]. destruct (limit_bound g Hg) as (_ & _ & Hlim). pose proof (NoDup_lookup _ _ _ _ (linked_NoDup g f Hlim l Hll) Hc E). lia. }
  apply (H n 0%nat); lia.
Qed.

Lemma wp_shrink_chain v keep : st g f D v -> 0 < keep <= Z.of_nat (length l) ->
  wp (shrink_chain g (default 0 (head l)) keep) v (fun _ v' => st g (cut f l (Z.to_nat keep)) D v').
Proof using Hg Hl.
  intros Hs Hk. set (n := Z.to_nat keep). assert (Hn : (0 < n <= length l)%nat) by lia. unfold shrink_chain. apply wp_bind.
  eapply wp_mono; [by apply wp_shrink_loop |]. intros r v1 [Hsm ->]. fold n. pose proof (st_same g _ _ _ _ Hs Hsm) as Hs1.
  destruct (lookup_lt_is_Some_2 l (pred n)) as [p Hp]; [lia |]. destruct (chain_next f l _ _ Hl Hp) as [Hpc Hnx]. rewrite Hp. cbn [default from_option id].
  replace (S (pred n)) with n in Hnx by lia. pose proof Hpc as Hpc'. unfold is_cluster in Hpc'. replace (p =? 0) with false by lia. cbn [negb andb].
  case_decide as Hlt.
  - destruct Hnx as [Hnx Hdc]. unfold chain_at. rewrite Hnx, Hdc. apply wp_bind.
    eapply wp_mono; [by apply (wp_write_fat_entry g Hg f D v1 p EOC_MARK) |]. intros rc v2 (-> & Hs2 & _).
    change (Z.land EOC_MARK ENTRY_MASK) with EOC_MARK in Hs2. pose proof (linked_drop n Hlt) as Hd. rewrite (drop_S _ _ _ Hnx) in Hd.
    assert (Hpd : p ∉ drop n l) by (apply take_not_drop; apply (list_elem_of_lookup_2 _ (pred n)); by rewrite lookup_take_lt by lia).
    rewrite (drop_S _ _ _ Hnx) in Hpd.
    eapply wp_mono; [apply (wp_free_chain g Hg (fupd f p EOC_MARK) D v2 (f p) (drop (S n) l) Hs2) |].
    + apply (linked_ext g f); [done |]. intros x Hx. apply fupd_ne. intros ->. done.
    + intros [] v3 [Hs3 _]. eapply st_ext; [| exact Hs3]. intros x _. unfold free_all, cut. rewrite <- (drop_S _ _ _ Hnx).
      case_decide; [done |]. unfold fupd. destruct (decide (x = p)) as [-> |]; [by rewrite decide_True by done |].
      rewrite decide_False; [done |]. intros [_ E]. congruence.
  - destruct Hnx as [Hnx E]. rewrite E. replace (is_data_cluster (f p)) with false by (unfold is_data_cluster; lia). apply wp_ret.
    eapply st_ext; [| exact Hs1]. intros x _. unfold cut. rewrite drop_ge by lia. rewrite decide_False by apply not_elem_of_nil.
    rewrite decide_False; [done |]. intros [? _]. lia.
Qed.

(** The file has [n] clusters afterwards: the first of them are those it had,
    the others are fresh and zeroed, the ones it lost are free, and nothing
    else changed. *)
Record resized (n : nat) (f' : Z -> Z) (D' : Z -> list Z) (l' : list Z) : Prop := {
  rz_chain : l' <> [] -> linked g f' l';
  rz_length : length l' = n;
  rz_prefix : take n l `prefix_of` l';
  rz_freed : forall x, x ∈ l -> x ∉ l' -> f' x = 0;
  rz_fresh : forall x, x ∈ l' -> x ∉ l -> f x = 0;
  rz_other : forall x, x ∉ l -> x ∉ l' -> f' x = f x;
  rz_data : forall k, D' k = zeroed g D (drop (length l) l') k;
}.

Lemma zeroed_nil k : zeroed g D [] k = D k.
Proof. unfold zeroed. rewrite decide_False; [done |]. by intros [_ ?%elem_of_nil]. Qed.

Lemma resized_cut n : (0 < n <= length l)%nat -> resized n (cut f l n) D (take n l).
Proof using Hg Hl.
  intros Hn. split.
  - intros _. by apply linked_cut.
  - rewrite length_take. lia.
  - done.
  - intros x Hx Ht. unfold cut. rewrite decide_True; [done |]. rewrite <- (take_drop n l) in Hx. apply elem_of_app in Hx as [? | ?]; done.
  - intros x Hx Hnx. destruct Hnx. by eapply subseteq_take.
  - intros x Hx _. unfold cut. rewrite decide_False by (intros Hd; apply Hx; by eapply subseteq_drop).
    rewrite decide_False; [done |]. intros [_ E]. apply Hx. by eapply list_elem_of_lookup_2.
  - intros k. rewrite drop_ge by (rewrite length_take; lia). by rewrite zeroed_nil.
Qed.

Lemma resized_same : resized (length l) f D l.
Proof using Hl.
  split; try done; [by rewrite take_ge by lia |]. intros k. by rewrite drop_all, zeroed_nil.
Qed.

Lemma wp_tail_loop v : st g f D v ->
  wp (ploop 33 (tail_round g) (default 0 (head l), if default 0 (head l) =? 0 then 0 else 1, total_data_clusters g)) v
    (fun r v' => same g v v' /\ r = (default 0 (last l), Z.of_nat (length l))).
Proof using Hg Hl.
  intros Hs. pose proof (chain_short f l Hl) as Hshort. destruct (limit_bound g Hg) as (_ & _ & Hlim). pose proof (go_total g Hg).
  assert (Htot : l <> [] -> Z.of_nat (length l) <= total_data_clusters g) by (intros Hne; pose proof (linked_length g f Hlim l (Hl Hne)); unfold limit in *; lia).
  assert (Hmax : total_data_clusters g < 2 ^ 32) by (unfold EOC, limit in *; lia).
  apply (wp_ploop (fun n x v' => let '(tail, have, guard) := x in same g v v' /\ 0 <= n /\ n = guard /\
      (l = [] /\ tail = 0 /\ have = 0 \/
       0 < have <= Z.of_nat (length l) /\ l !! Z.to_nat (have - 1) = Some tail /\ guard = total_data_clusters g - (have - 1))))
    with (n := total_data_clusters g).
  2: { split_and!; [apply same_refl, Hs | lia | done |]. destruct l as [| c l'] eqn:El; [by left |]. right.
       assert (Hc : is_cluster g c) by (apply (linked_cluster g f (c :: l')); [by apply Hl | by left]). unfold is_cluster in Hc.
       change (default 0 (head (c :: l'))) with c. replace (c =? 0) with false by lia. split_and!; [lia | cbn; lia | done | lia]. }
  2: { change (2 ^ Z.of_nat 33) with (2 ^ 33). lia. }
  intros n [[tail have] guard] v1 (Hsm & Hn & -> & Hcase). unfold tail_round.
  destruct Hcase as [(El & -> & ->) | (Hh & Hk & Eg)].
  { apply wp_ret. rewrite El. by split. }
  destruct (chain_next f l _ _ Hl Hk) as [Hcl Hnx]. pose proof Hcl as Hcl'. unfold is_cluster in Hcl'.
  specialize (Htot ltac:(by intros ->)). replace ((tail =? 0) || (guard =? 0)) with false by lia.
  apply wp_bind. eapply wp_mono; [apply (wp_read_entry g Hg f D); [by eapply st_same | lia] |]. intros e v2 [-> H2].
  pose proof (same_trans g _ _ _ Hsm H2) as Hsm2. replace (S (Z.to_nat (have - 1))) with (Z.to_nat have) in Hnx by lia. case_decide as Hlt.
  - destruct Hnx as [Hnx Hd]. unfold is_data_cluster in Hd. replace (EOC <=? f tail) with false by lia. apply wp_ret.
    exists (guard - 1). split; [| lia]. rewrite u32_small by lia. split_and!; [done | lia | done |]. right.
    split_and!; [lia | lia | | lia]. rewrite <- Hnx. f_equal. lia.
  - destruct Hnx as [Hnx _]. replace (EOC <=? f tail) with true by lia. apply wp_ret. split; [done |].
    rewrite last_lookup. replace (pred (length l)) with (Z.to_nat (have - 1)) by lia. rewrite Hk. cbn. f_equal. lia.
Qed.

Lemma chain_nonzero x : x ∈ l -> f x <> 0.
Proof using Hl. intros Hx. apply (linked_nonzero g f l); [| done]. apply Hl. intros E. rewrite E in Hx. by apply elem_of_nil in Hx. Qed.

(** Attaching a fresh chain. *)
Lemma resized_grown c2 l2 f2 D2 : grown g f D (c2 :: l2) f2 D2 ->
  resized (length l + length (c2 :: l2)) (link_tail f2 l c2) D2 (l ++ c2 :: l2).
Proof using Hg Hl.
  intros [Hch Hf Hs Hz]. specialize (Hch ltac:(done)).
  assert (Hdis : forall x, x ∈ l -> x ∉ c2 :: l2) by (intros x Hx Hx2; apply (chain_nonzero x Hx), Hf, Hx2).
  assert (Hlast : forall x, last l = Some x -> x ∈ l) by (intros x (l0 & ->)%last_Some; apply elem_of_app; right; by left).
  assert (Hlk : forall x, x ∉ l -> link_tail f2 l c2 x = f2 x).
  { intros x Hx. unfold link_tail. destruct (last l) as [t |] eqn:Et; [| done]. apply fupd_ne. intros ->. by apply Hx, Hlast. }
  split.
  - intros _. destruct l as [| c0 l0] eqn:El; [done |]. rewrite <- El in *.
    apply (linked_append g Hg _ f f2); [apply Hl; by rewrite El | done | | |].
    + intros x Hx Hne. unfold link_tail. destruct (last l) as [t |] eqn:Et; [| by apply last_None in Et; rewrite Et in El].
      rewrite fupd_ne by congruence. apply Hs. by apply Hdis.
    + intros x Hx. unfold link_tail. rewrite Hx. apply fupd_eq.
    + intros x Hx. apply Hlk. intros Hx'. by apply (Hdis x).
  - by rewrite length_app.
  - rewrite take_ge by lia. by apply prefix_app_r.
  - intros x Hx Hnx. destruct Hnx. apply elem_of_app. by left.
  - intros x [? | Hx]%elem_of_app Hnx; [done |]. by apply Hf.
  - intros x Hx Hnx. rewrite Hlk by done. apply Hs. intros Hx2. apply Hnx, elem_of_app. by right.
  - intros k. rewrite drop_app_length. apply Hz.
Qed.

(** The outcome of growing to [keep] clusters. *)
Definition grow_result (keep : Z) (r : Z + Z) (v' : volume) : Prop :=
  if decide (keep - Z.of_nat (length l) <= nfree g f) then
    exists l' f' D', r = inr (default 0 (head l')) /\ resized (Z.to_nat (Z.max keep (Z.of_nat (length l)))) f' D' l' /\ st g f' D' v'
  else r = inl (- ENOSPC) /\ exists l0 D', (forall c, c ∈ l0 -> is_cluster g c /\ f c = 0) /\ (forall k, D' k = zeroed g D l0 k) /\ st g f D' v'.

Lemma wp_grow_chain v keep : st g f D v -> 0 < keep < 2 ^ 32 ->
  wp (grow_chain g (default 0 (head l)) keep) v (grow_result keep).
Proof using Hg Hl.
  intros Hs Hk. unfold grow_chain. apply wp_bind. eapply wp_mono; [by apply wp_tail_loop |]. intros r v1 [Hsm ->].
  pose proof (st_same g _ _ _ _ Hs Hsm) as Hs1. pose proof (nfree_bound g Hg f) as Hnf. unfold grow_result.
  destruct (Z.ltb_spec (Z.of_nat (length l)) keep) as [Hlt |]; cbn [negb]; last first.
  { apply wp_ret. rewrite decide_True by lia. exists l, f, D. split_and!; [done | | done].
    replace (Z.to_nat (Z.max keep (Z.of_nat (length l)))) with (length l) by lia. apply resized_same. }
  apply wp_bind. eapply wp_mono; [apply (wp_allocate_detached g Hg f D); [done | lia] |]. intros d v2 Hd. unfold detached in Hd.
  case_decide as Hroom; last first.
  { destruct Hd as (-> & l0 & D' & H1 & H2 & H3). apply wp_ret. split; [done |]. by exists l0, D'. }
  destruct Hd as (l2 & f2 & D2 & -> & Hlen & Hgr & Hs2). destruct l2 as [| c2 l2]; [cbn in Hlen; lia |].
  pose proof (resized_grown c2 l2 f2 D2 Hgr) as Hrz. change (default 0 (head (c2 :: l2))) with c2.
  replace (length l + length (c2 :: l2))%nat with (Z.to_nat (Z.max keep (Z.of_nat (length l)))) in Hrz by lia.
  destruct (gr_free _ _ _ _ _ _ Hgr c2 ltac:(by left)) as [Hc2 _].
  destruct (last l) as [t |] eqn:Et; cbn [default from_option id].
  - assert (Ht : is_cluster g t).
    { apply (linked_cluster g f l); [apply Hl; by intros -> |]. apply last_Some in Et as (l0 & ->). apply elem_of_app. right. by left. }
    pose proof Ht as Ht'. unfold is_cluster in Ht'. replace (t =? 0) with false by lia. apply wp_bind. unfold fat32_link_cluster.
    eapply wp_mono; [by apply (wp_write_fat_entry g Hg f2 D2 v2 t c2) |]. intros rc v3 (-> & Hs3 & _). cbn [Z.eqb negb]. apply wp_ret.
    eexists _, _, _. split_and!; [| exact Hrz |].
    + destruct l; [done |]. done.
    + unfold link_tail. rewrite Et. rewrite land_entry in Hs3; [done |]. destruct (limit_bound g Hg) as (_ & _ & Hlim).
      unfold is_cluster, EOC, ENTRY_MASK in *. lia.
  - apply last_None in Et as El. cbn [Z.eqb]. apply wp_ret. eexists _, _, _. split_and!; [| exact Hrz |].
    + by rewrite El.
    + unfold link_tail. by rewrite El.
Qed.
End resize.

(** *** The directory entry *)

Definition dir_sector (dc idx : Z) : Z := cluster_lba g dc + idx / 16.

Lemma cluster_data c i : is_cluster g c -> 0 <= i < sectors_per_cluster g ->
  in_data (cluster_lba g c + i) /\ sector_cluster g (cluster_lba g c + i) = c.
Proof using Hg.
  intros Hc Hi. destruct (cluster_lba_eq g Hg c Hc) as [El Hge]. pose proof Hg as []. unfold is_cluster, limit, in_data, sector_cluster in *.
  pose proof (mul_spc g Hg (c - 1) (total_data_clusters g) ltac:(lia)). split; [lia |]. rewrite El.
  replace (data_start_lba g + (c - 2) * sectors_per_cluster g + i - data_start_lba g) with ((c - 2) * sectors_per_cluster g + i) by lia.
  rewrite Z.div_add_l, (Z.div_small i) by lia. lia.
Qed.

Lemma st_sector_ok f D v k : st g f D v -> in_data k -> sector_ok (D k).
Proof. intros Hs Hk. rewrite <- (st_data _ _ _ _ Hs) by (unfold in_data in Hk; lia). apply Hs. Qed.

Lemma patch_sector D dc idx start size : (forall i, 0 <= i < sectors_per_cluster g -> sector_ok (D (cluster_lba g dc + i))) ->
  0 <= idx < 16 * sectors_per_cluster g ->
  slice (Z.to_nat (idx * 32 / 512 * 512)) 512 (patch_entry (idx * 32) start size (concat (map D (seqZ (cluster_lba g dc) (sectors_per_cluster g))))) =
  patch_entry (idx mod 16 * 32) start size (D (dir_sector dc idx)).
Proof.
  intros Hok Hidx. set (ls := map D _). assert (Hls : Forall (fun s => length s = 512%nat) ls).
  { unfold ls. apply Forall_map, Forall_forall. intros k Hk%elem_of_seqZ.
    replace k with (cluster_lba g dc + (k - cluster_lba g dc)) by lia. apply Hok. lia. }
  assert (Hlen : length (concat ls) = (Z.to_nat (sectors_per_cluster g) * 512)%nat).
  { rewrite (length_concat 512) by done. unfold ls. by rewrite length_map, length_seqZ. }
  set (q := idx / 16). set (e := idx mod 16). assert (Hq : idx = 16 * q + e /\ 0 <= e < 16 /\ 0 <= q < sectors_per_cluster g).
  { subst q e. Z.to_euclidean_division_equations. lia. }
  replace (idx * 32 / 512) with q by (subst q e; Z.to_euclidean_division_equations; lia).
  assert (Hx : slice (Z.to_nat q * 512) 512 (concat ls) = D (dir_sector dc idx)).
  { apply slice_concat; [done |]. unfold ls. change (map D) with (fmap (M := list) D). rewrite list_lookup_fmap, lookup_seqZ_lt by lia. cbn.
    unfold dir_sector. fold q. do 2 f_equal. lia. }
  unfold patch_entry. rewrite <- Hx. replace (Z.to_nat (q * 512)) with (Z.to_nat q * 512)%nat by lia.
  assert (Hof : forall o, 0 <= o <= 28 -> Z.to_nat (idx * 32 + o) = (Z.to_nat q * 512 + Z.to_nat (e * 32 + o))%nat) by (intros; lia).
  rewrite !Hof by lia. rewrite !slice_splice_in; rewrite ?length_splice; rewrite ?length_splice, ?Hlen; cbn [length le16_bytes le32_bytes]; try lia. done.
Qed.

Lemma wp_update_dir_entry f D s dc idx start size : st g f D (vol s) -> is_cluster g dc -> 0 <= idx < 16 * sectors_per_cluster g ->
  is_u32 start -> is_u32 size ->
  wp (fat32_update_dir_entry g dc idx start size) s (fun rc s' => info s' = info s /\ fsize s' = fsize s /\
    if (kmalloc_ok (mem s)).1 then
      rc = 0 /\ exists D', st g f D' (vol s') /\ (forall k, k <> dir_sector dc idx -> D' k = D k) /\
        dir_fields (D' (dir_sector dc idx)) (idx mod 16 * 32) = (start, size)
    else rc = - EIO /\ vol s' = vol s).
Proof using Hg.
  intros Hs Hc Hidx Hst Hsz. pose proof Hg as []. destruct (cluster_lba_eq g Hg dc Hc) as [El Hge].
  assert (Hin : forall i, 0 <= i < sectors_per_cluster g -> sector_ok (D (cluster_lba g dc + i))).
  { intros i Hi. apply (st_sector_ok f D (vol s)); [done | by apply cluster_data]. }
  assert (Hq : 0 <= idx / 16 < sectors_per_cluster g) by (Z.to_euclidean_division_equations; lia).
  unfold fat32_update_dir_entry, read_cluster_buf. apply wp_bind, wp_bind, wp_alloc. intros b m Eb. rewrite <- Eb.
  destruct b; cbn [negb]; [| by apply wp_ret, wp_ret; split_and!].
  apply wp_bind, wp_on_vol. destruct (cluster_data dc 0 Hc ltac:(lia)) as [H0 _]. rewrite Z.add_0_r in H0.
  destruct (cluster_data dc (sectors_per_cluster g - 1) Hc ltac:(lia)) as [H1 _].
  eapply wp_mono; [apply (wp_read_data f D (vol s)); [done | lia | done | by rewrite <- Z.add_sub_assoc] |]. intros r v1 [-> ->].
  apply wp_ret, wp_on_vol. cbn [vol info fsize mem]. rewrite patch_sector by done.
  destruct (patch_entry_fields (D (dir_sector dc idx)) (idx mod 16) start size) as [Hok Hfld]; [by apply Hin | apply Z.mod_pos_bound; lia | done | done |].
  unfold write_cluster_sector. replace (idx * 32 / 512) with (idx / 16) by (Z.to_euclidean_division_equations; lia).
  destruct (cluster_data dc (idx / 16) Hc Hq) as [Hd _]. rewrite u32_small by (unfold in_data in Hd; lia). fold (dir_sector dc idx) in *.
  eapply wp_mono; [apply (wp_write_data f D (vol s) (dir_sector dc idx)); [done | done | done | by rewrite Z.add_simpl_r | by constructor] |].
  intros rc v2 [-> Hs2]. split_and!; try done. eexists. split; [exact Hs2 |]. cbn [length]. split.
  - intros k Hk. by rewrite decide_False by lia.
  - rewrite decide_True by lia. by replace (dir_sector dc idx - dir_sector dc idx) with 0 by lia.
Qed.

(** ** Truncation as a whole *)

Lemma bytes_per_cluster_eq : bytes_per_cluster g = sectors_per_cluster g * 512.
Proof using Hg. pose proof (go_spc g Hg). unfold bytes_per_cluster, AHCI_MAX_SECTORS in *. apply u32_small. lia. Qed.

(** The number of clusters for [len] bytes. *)
Definition clusters_for (len : Z) : Z := (len + bytes_per_cluster g - 1) / bytes_per_cluster g.

Lemma keep_clusters_eq len : 0 < len < 2 ^ 32 -> keep_clusters g len = clusters_for len /\ 0 < clusters_for len < 2 ^ 32 /\
  forall n, clusters_for len <= n <-> len <= n * bytes_per_cluster g.
Proof using Hg.
  intros Hlen. unfold keep_clusters, clusters_for. rewrite bytes_per_cluster_eq. pose proof (go_spc g Hg) as Hspc. unfold AHCI_MAX_SECTORS in *.
  set (b := sectors_per_cluster g * 512). assert (Hb : 512 <= b <= 65536) by lia. clearbody b. rewrite (u64_small (len + b - 1)) by lia.
  pose proof (Z.div_mod (len + b - 1) b ltac:(lia)). pose proof (Z.mod_pos_bound (len + b - 1) b ltac:(lia)).
  assert (Hq : 0 < (len + b - 1) / b < 2 ^ 32).
  { split; [apply Z.div_str_pos; lia |]. apply Z.div_lt_upper_bound; nia. }
  rewrite u32_small by lia. split_and!; [done | lia | lia |]. intros n. split; intros Hn.
  - assert (b * ((len + b - 1) / b) <= b * n) by (apply Z.mul_le_mono_nonneg_l; lia). lia.
  - apply Z.lt_succ_r. apply Z.div_lt_upper_bound; lia.
Qed.

Section truncate.
Context (f : Z -> Z) (D : Z -> list Z) (l : list Z) (s : fstate).
Hypothesis Hs : fs_ok f D l s.
Hypothesis Hcov : covered l (fsize s).
Hypothesis Hdir : is_cluster g (dir_start_cluster (info s)).
Hypothesis Hidx : 0 <= dir_entry_index (info s) < 16 * sectors_per_cluster g.
Hypothesis Hmem : (kmalloc_ok (mem s)).1 = true.

Let dsec : Z := dir_sector (dir_start_cluster (info s)) (dir_entry_index (info s)).
Let doff : Z := dir_entry_index (info s) mod 16 * 32.

(** The file has [n] clusters and [len] bytes, and its directory entry says
    so. *)
Definition truncated (n : nat) (len : Z) (s' : fstate) : Prop :=
  fsize s' = len /\ exists f' D1 D' l', resized f D l n f' D1 l' /\ (forall k, k <> dsec -> D' k = D1 k) /\
    fs_ok f' D' l' s' /\ dir_fields (D' dsec) doff = (start_cluster (info s'), len).

Lemma file_ok_reset f' l' i : (l' <> [] -> linked g f' l') -> start_cluster i = default 0 (head l') ->
  file_ok f' l' (InodeInfo (start_cluster i) (dir_start_cluster i) (dir_entry_index i) 0 [] 0).
Proof. intros Hl Hst. split; try done. apply prefix_nil. Qed.

(** The end of a truncation: size, directory entry, caches. *)
Lemma wp_truncate_end n len f' D1 l' v' i : resized f D l n f' D1 l' -> st g f' D1 v' -> 0 < len < 2 ^ 32 ->
  i = set_start (default 0 (head l')) (info s) ->
  wp (_ ← modify (set_fsize len);
      s1 ← get;
      _ ← (if 2 <=? dir_start_cluster (info s1)
           then _ ← fat32_update_dir_entry g (dir_start_cluster (info s1)) (dir_entry_index (info s1)) (start_cluster (info s1)) (u32 len);
                mret ()
           else mret ());
      _ ← fat32_invalidate_pages; mret 0) (FState i (fsize s) v' (mem s)) (fun rc s' => rc = 0 /\ truncated n len s').
Proof using Hg Hdir Hidx Hmem.
  intros Hrz Hst Hlen ->. pose proof (rz_chain _ _ _ _ _ _ _ Hrz) as Hl'.
  assert (Hu : is_u32 (default 0 (head l'))).
  { destruct l' as [| c l'']; [done |]. pose proof (linked_cluster g f' (c :: l'') c (Hl' ltac:(done)) ltac:(by left)) as Hc.
    destruct (limit_bound g Hg) as (_ & _ & Hlim). unfold is_cluster, is_u32, EOC in *. cbn. lia. }
  apply wp_bind, wp_modify, wp_bind, wp_fget. cbn [info set_fsize set_start dir_start_cluster dir_entry_index start_cluster].
  replace (2 <=? dir_start_cluster (info s)) with true by (unfold is_cluster in Hdir; lia). rewrite u32_small by lia.
  apply wp_bind, wp_bind. eapply wp_mono; [apply (wp_update_dir_entry f' D1); try done; cbn; unfold is_u32; lia |].
  cbn [mem info fsize set_fsize]. rewrite Hmem. intros rc s' (Ei & Ef & -> & D' & Hs' & Hk & Hfld). apply wp_ret, wp_bind, wp_modify, wp_ret.
  split; [done |]. cbn. split; [done |]. exists f', D1, D', l'. split; [done |]. split; [done |]. rewrite Ei.
  split; [| done]. split; [done |]. cbn [info set_info]. by apply file_ok_reset.
Qed.

Lemma resized_zero : resized f D l 0 (free_all f l) D [].
Proof.
  split; try done.
  - intros x Hx _. unfold free_all. by rewrite decide_True.
  - intros x Hx. by apply elem_of_nil in Hx.
  - intros x Hx _. unfold free_all. by rewrite decide_False.
  - intros k. by rewrite drop_nil, zeroed_nil.
Qed.

Lemma wp_ftruncate_zero : fsize s <> 0 -> wp (fat32_ftruncate g 0) s (fun rc s' => rc = 0 /\ truncated 0 0 s').
Proof using Hg Hs Hcov Hdir Hidx Hmem.
  intros Hne. pose proof Hs as [Hst Hf]. pose proof (go_spc g Hg) as Hspc. unfold fat32_ftruncate. apply wp_bind, wp_fget.
  rewrite bytes_per_cluster_eq. replace (sectors_per_cluster g * 512 =? 0) with false by lia. replace (fsize s =? 0) with false by lia. cbn [Z.eqb].
  assert (Hl : l <> []) by (intros E; unfold covered, file_sectors in Hcov; rewrite E in Hcov; cbn in Hcov; lia).
  pose proof (fo_chain _ _ _ Hf Hl) as Hch. rewrite (fo_start _ _ _ Hf).
  assert (exists c l', l = c :: l') as (c & l' & El) by (clear -Hl; destruct l; [done | by eexists _, _]).
  replace (default 0 (head l)) with c by (by rewrite El). rewrite El in Hch. unfold fat32_truncate. apply wp_bind, wp_bind, wp_on_vol.
  eapply wp_mono; [by apply (wp_free_chain g Hg f D (vol s) c l') |]. intros [] v1 [Hs1 _]. rewrite <- El in Hs1.
  eapply wp_mono; [by apply (wp_update_dir_entry (free_all f l) D) |]. cbn [mem info fsize]. rewrite Hmem.
  intros rc s2 (Ei & Ef & -> & D' & Hs2 & Hk & Hfld). cbn [Z.eqb negb]. apply wp_bind, wp_modify, wp_bind, wp_modify, wp_ret.
  split; [done |]. split; [done |]. exists (free_all f l), D, D', []. split; [apply resized_zero |]. split; [done |].
  split; [| done]. split; [done |]. by apply file_ok_reset.
Qed.

Lemma wp_ftruncate_shrink len : 0 < len < fsize s -> len < 2 ^ 32 ->
  wp (fat32_ftruncate g len) s (fun rc s' => rc = 0 /\ truncated (Z.to_nat (clusters_for len)) len s').
Proof using Hg Hs Hcov Hdir Hidx Hmem.
  intros Hlen Hmax. pose proof Hs as [Hst Hf]. pose proof (go_spc g Hg) as Hspc. pose proof (fo_chain _ _ _ Hf) as Hl.
  destruct (keep_clusters_eq len ltac:(lia)) as (Ek & Hk & Hle).
  assert (Hkl : clusters_for len <= Z.of_nat (length l)) by (apply Hle; rewrite bytes_per_cluster_eq; unfold covered, file_sectors in Hcov; lia).
  unfold fat32_ftruncate. apply wp_bind, wp_fget.
  rewrite bytes_per_cluster_eq. replace (sectors_per_cluster g * 512 =? 0) with false by lia. replace (fsize s =? len) with false by lia.
  replace (len =? 0) with false by lia. replace (len <? fsize s) with true by lia. rewrite Ek, (fo_start _ _ _ Hf).
  assert (Hc0 : (default 0 (head l) =? 0) = false).
  { clear -Hl Hkl Hk. destruct l as [| c l']; [cbn in Hkl; lia |]. pose proof (linked_cluster g f (c :: l') c (Hl ltac:(done)) ltac:(by left)) as Hc.
    unfold is_cluster in Hc. cbn. lia. }
  rewrite Hc0. apply wp_bind, wp_bind, wp_on_vol. eapply wp_mono; [apply (wp_shrink_chain f D l Hl (vol s)); [done | lia] |].
  intros [] v1 Hs1. apply wp_ret. cbn [Z.eqb negb].
  pose proof (resized_cut f D l Hl (Z.to_nat (clusters_for len)) ltac:(lia)) as Hrz.
  eapply wp_truncate_end; [exact Hrz | done | lia |]. destruct (info s) as [st0 ? ? ? ? ?] eqn:Ei. unfold set_start. cbn. f_equal.
  pose proof (fo_start _ _ _ Hf) as Est. cbn in Est. rewrite Est.
  destruct l as [| c l']; [cbn in Hkl; lia |]. by replace (Z.to_nat (clusters_for len)) with (S (pred (Z.to_nat (clusters_for len)))) by lia.
Qed.

Lemma wp_ftruncate_grow len : fsize s < len < 2 ^ 32 ->
  wp (fat32_ftruncate g len) s (fun rc s' =>
    if decide (clusters_for len - Z.of_nat (length l) <= nfree g f)
    then rc = 0 /\ truncated (Z.to_nat (Z.max (clusters_for len) (Z.of_nat (length l)))) len s'
    else rc = - ENOSPC /\ fsize s' = fsize s /\ info s' = info s /\
      exists l0 D', (forall c, c ∈ l0 -> is_cluster g c /\ f c = 0) /\ (forall k, D' k = zeroed g D l0 k) /\ st g f D' (vol s')).
Proof using Hg Hs Hcov Hdir Hidx Hmem.
  intros Hlen. pose proof Hs as [Hst Hf]. pose proof (go_spc g Hg) as Hspc. pose proof (fo_chain _ _ _ Hf) as Hl.
  assert (Hpos : 0 < len) by (unfold covered in Hcov; lia). destruct (keep_clusters_eq len ltac:(lia)) as (Ek & Hk & Hle).
  unfold fat32_ftruncate. apply wp_bind, wp_fget.
  rewrite bytes_per_cluster_eq. replace (sectors_per_cluster g * 512 =? 0) with false by lia. replace (fsize s =? len) with false by lia.
  replace (len =? 0) with false by lia. replace (len <? fsize s) with false by lia. rewrite Ek, (fo_start _ _ _ Hf).
  apply wp_bind, wp_bind, wp_on_vol. eapply wp_mono; [apply (wp_grow_chain f D l Hl (vol s)); [done | lia] |].
  intros r v1 Hr. unfold grow_result in Hr. case_decide.
  - destruct Hr as (l' & f' & D1 & -> & Hrz & Hs1). apply wp_bind, wp_modify, wp_ret. cbn [Z.eqb negb].
    eapply wp_truncate_end; [exact Hrz | done | lia | done].
  - destruct Hr as (-> & Hr). apply wp_ret. replace (- ENOSPC =? 0) with false by done. cbn [negb]. apply wp_ret. split_and!; try done.
Qed.
End truncate.
End files.

(** ** Theorems *)

(** The three walks agree: following the FAT from the first cluster,
    resuming at the cursor, and looking the cluster up in the map of the inode
    (extending it on demand, or falling back to the cursor when memory is
    short) all give the cluster at a position of the chain, or the entry that
    ends it, and leave a cursor and a map that agree with the chain. *)
Theorem walks_agree g f D l s i : geom_ok g -> fs_ok g f D l s -> 0 <= i < 2 ^ 32 ->
  exists v1 s2 s3, let c := chain_at f l (Z.to_nat i) in
    fat32_walk_chain g (start_cluster (info s)) i (vol s) = Some (c, v1) /\ same g (vol s) v1 /\
    fat32_walk_chain_cursor g i s = Some (c, s2) /\ fs_ok g f D l s2 /\ kept g s s2 /\
    fat32_walk_chain_cached g i s = Some (c, s3) /\ fs_ok g f D l s3 /\ kept g s s3.
Proof.
  intros Hg Hs Hi. destruct (wp_walk_cursor g Hg f D l s i Hs Hi) as (c2 & s2 & E2 & -> & Hs2 & Hk2).
  destruct (wp_walk_cached g Hg f D l s i Hs Hi) as (c3 & s3 & E3 & -> & Hs3 & Hk3).
  assert (H1 : wp (fat32_walk_chain g (start_cluster (info s)) i) (vol s) (fun x v' => x = chain_at f l (Z.to_nat i) /\ same g (vol s) v')).
  { destruct Hs as [Hst Hf]. rewrite (fo_start _ _ _ _ Hf). unfold fat32_walk_chain. destruct l as [| c l'].
    - assert (Hr : same g (vol s) (vol s)) by apply same_refl, Hst. destruct (Z.to_nat i); by apply wp_ret.
    - apply (wp_walk_steps g Hg f D); [done | by apply (fo_chain _ _ _ _ Hf)]. }
  destruct H1 as (c1 & v1 & E1 & -> & Hv1). exists v1, s2, s3. cbv zeta.
  split; [done |]. split; [done |]. split; [done |]. split; [done |]. split; [done |]. split; [done |]. by split.
Qed.

(** C19. Reading ahead is the same as reading page by page: unless its buffer
    cannot be allocated, [fat32_readpages] returns for each of the pages what
    [fat32_readpage] returns for it, although it maps cluster by cluster and
    joins extents that are adjacent on the disk across clusters and pages. *)
Theorem readpages_readpage g f D l s first nr : geom_ok g -> fs_ok g f D l s -> covered g l (fsize s) ->
  0 <= first -> 0 < nr <= PAGE_CACHE_RA_MAX_PAGES -> first + nr <= UINT64_MAX / PAGE_SIZE ->
  exists r s', fat32_readpages g first nr s = Some (r, s') /\ fs_ok g f D l s' /\
    if (kmalloc_ok (mem s)).1 then
      exists pages, r = inr pages /\ length pages = Z.to_nat nr /\
        forall i, (i < Z.to_nat nr)%nat -> exists page s'', pages !! i = Some page /\
          fat32_readpage g (first + Z.of_nat i) s = Some ((0, page), s'')
    else r = inl (- ENOMEM).
Proof.
  intros Hg Hs Hc Hf Hn Hmax. destruct (wp_readpages g Hg f D l s first nr Hs Hc ltac:(lia) Hn) as (r & s' & E & Hs' & _ & Hr).
  exists r, s'. split; [done |]. split; [done |]. destruct (kmalloc_ok (mem s)).1; [| done].
  eexists. split; [exact Hr |]. split; [by rewrite length_map, length_seq |]. intros i Hi.
  destruct (wp_readpage g Hg f D l s (first + Z.of_nat i) Hs Hc ltac:(lia)) as (x & s'' & E'' & -> & _).
  eexists _, s''. split; [| exact E'']. change (map ?h) with (fmap (M := list) h). by rewrite list_lookup_fmap, lookup_seq_lt by done.
Qed.

(** C20. Writing a page back and reading it again gives what was written, for
    the sectors of the page that contain bytes of the file (the last of them
    up to its end), and zeros in the sectors after them; every other page of
    the file reads as before. *)
Theorem writepages_roundtrip g f D l s p data : geom_ok g -> fs_ok g f D l s -> covered g l (fsize s) ->
  0 <= p <= UINT64_MAX / PAGE_SIZE -> length data = 8%nat -> Forall sector_ok data ->
  exists s', fat32_writepages g [(p, data)] s = Some (0, s') /\
    (exists s1, fat32_readpage g p s' =
       Some ((0, take (Z.to_nat (page_span (fsize s) p)) data ++ blank (8 - page_span (fsize s) p)), s1)) /\
    (forall q, 0 <= q <= UINT64_MAX / PAGE_SIZE -> q <> p ->
       exists page s1 s2, fat32_readpage g q s = Some ((0, page), s1) /\ fat32_readpage g q s' = Some ((0, page), s2)).
Proof.
  intros Hg Hs Hc Hp Hlen Hok. destruct (wp_writepage g Hg f l D s p data Hs Hc Hp Hlen Hok) as (rc & s' & E & -> & D' & Hs' & Hw & Hk).
  destruct Hk as (Ef & _). pose proof (fo_chain _ _ _ _ (proj2 Hs)) as Hl. exists s'. split; [done |].
  assert (Hc' : covered g l (fsize s')) by by rewrite Ef.
  assert (Hpg : forall q, 0 <= q -> page_of g D' l (fsize s') q =
    if decide (q = p) then take (Z.to_nat (page_span (fsize s) p)) data ++ blank (8 - page_span (fsize s) p) else page_of g D l (fsize s) q).
  { intros q Hq. rewrite Ef. apply (wrote_file_pages g Hg f l D D' p data); (done || lia). }
  split.
  - destruct (wp_readpage g Hg f D' l s' p Hs' Hc' Hp) as (x & s1 & E1 & -> & _). exists s1. rewrite E1, Hpg, decide_True by (done || lia). done.
  - intros q Hq Hne. destruct (wp_readpage g Hg f D' l s' q Hs' Hc' Hq) as (x & s2 & E2 & -> & _).
    destruct (wp_readpage g Hg f D l s q Hs Hc Hq) as (y & s1 & E1 & -> & _). exists (page_of g D l (fsize s) q), s1, s2. split; [done |].
    by rewrite E2, Hpg, decide_False by (done || lia).
Qed.


(** Truncation to zero is not atomic: when the buffer for the directory
    entry cannot be allocated, it reports an error after the whole chain has
    been freed, and the inode still refers to the first cluster, which is free
    now. *)
Theorem truncate_error_dangles g f D c l s : geom_ok g -> fs_ok g f D (c :: l) s -> fsize s <> 0 ->
  (kmalloc_ok (mem s)).1 = false ->
  exists s', fat32_ftruncate g 0 s = Some (- EIO, s') /\ start_cluster (info s') = c /\ fsize s' = fsize s /\
    st g (free_all f (c :: l)) D (vol s') /\ entry g (vol s') c = 0.
Proof.
  intros Hg [Hst Hf] Hne Hm. pose proof (go_spc g Hg) as Hspc. pose proof (fo_chain _ _ _ _ Hf ltac:(done)) as Hch.
  pose proof (linked_cluster g f _ c Hch ltac:(by left)) as Hc. pose proof (fo_start _ _ _ _ Hf) as Est. cbn in Est.
  assert (H : wp (fat32_ftruncate g 0) s (fun rc s' => rc = - EIO /\ start_cluster (info s') = c /\ fsize s' = fsize s /\
      st g (free_all f (c :: l)) D (vol s'))).
  { unfold fat32_ftruncate. apply wp_bind, wp_fget. rewrite (bytes_per_cluster_eq g Hg).
    replace (sectors_per_cluster g * 512 =? 0) with false by lia. replace (fsize s =? 0) with false by lia. cbn [Z.eqb]. rewrite Est.
    unfold fat32_truncate. apply wp_bind, wp_bind, wp_on_vol. eapply wp_mono; [by apply (wp_free_chain g Hg f D (vol s) c l) |]. intros [] v1 [Hs1 _].
    unfold fat32_update_dir_entry, read_cluster_buf. apply wp_bind, wp_bind, wp_alloc. cbn [mem]. rewrite Hm. intros b m ->. cbn [negb].
    apply wp_ret, wp_ret. replace (- EIO =? 0) with false by done. cbn [negb]. by apply wp_ret. }
  destruct H as (rc & s' & E & -> & H1 & H2 & H3). exists s'. split_and!; [done | done | done | done |].
  unfold is_cluster in Hc. rewrite <- (st_fat _ _ _ _ H3 c) by lia. unfold free_all. rewrite decide_True; [done | by left].
Qed.

(** ** The theorems on a file of the small volume *)

Definition demo_file (m : oracle) : fstate := FState (InodeInfo 3 2 0 0 [] 0) 700 demo_volume m.

Lemma demo_file_ok m : fs_ok demo_geometry (entry demo_geometry demo_volume) (psec demo_geometry demo_volume) [3; 4] (demo_file m).
Proof.
  split; [apply demo_st |]. split; [done | intros _; apply demo_chain | | apply prefix_nil | done]. cbn. done.
Qed.

Lemma demo_covered : covered demo_geometry [3; 4] 700.
Proof. split; vm_compute; congruence. Qed.

Lemma demo_data_ok : Forall sector_ok (replicate 8 (replicate 512 7)).
Proof. apply Forall_replicate. split; [done | by apply Forall_replicate]. Qed.

Lemma walks_agree_witness :
  exists s2 s3, fat32_walk_chain_cursor demo_geometry 1 (demo_file [false]) = Some (4, s2) /\
    fat32_walk_chain_cached demo_geometry 1 (demo_file [false]) = Some (4, s3).
Proof.
  destruct (walks_agree demo_geometry _ _ [3; 4] (demo_file [false]) 1 demo_geom_ok (demo_file_ok [false])) as (v1 & s2 & s3 & _ & _ & E2 & _ & _ & E3 & _); [lia |].
  exists s2, s3. split; [exact E2 | exact E3].
Defined.

Lemma readpages_readpage_witness :
  exists r s', fat32_readpages demo_geometry 0 2 (demo_file []) = Some (r, s') /\
    exists pages, r = inr pages /\ length pages = 2%nat.
Proof.
  destruct (readpages_readpage demo_geometry _ _ [3; 4] (demo_file []) 0 2 demo_geom_ok (demo_file_ok []) demo_covered) as (r & s' & E & _ & Hr);
    [lia | split; [reflexivity | vm_compute; congruence] | vm_compute; congruence |].
  exists r, s'. split; [exact E |]. destruct Hr as (pages & Hr & Hlen & _). exists pages. split; [exact Hr | exact Hlen].
Defined.

Lemma writepages_roundtrip_witness :
  exists s', fat32_writepages demo_geometry [(0, replicate 8 (replicate 512 7))] (demo_file []) = Some (0, s') /\
    exists s1, fat32_readpage demo_geometry 0 s' = Some ((0, replicate 2 (replicate 512 7) ++ replicate 6 (replicate 512 0)), s1).
Proof.
  destruct (writepages_roundtrip demo_geometry _ _ [3; 4] (demo_file []) 0 (replicate 8 (replicate 512 7)) demo_geom_ok (demo_file_ok []) demo_covered)
    as (s' & E & H & _); [split; vm_compute; congruence | reflexivity | exact demo_data_ok |].
  exists s'. split; [exact E | exact H].
Defined.


Lemma truncate_error_dangles_witness :
  exists s', fat32_ftruncate demo_geometry 0 (demo_file [false]) = Some (- EIO, s') /\ start_cluster (info s') = 3 /\
    entry demo_geometry (vol s') 3 = 0.
Proof.
  destruct (truncate_error_dangles demo_geometry _ _ 3 [4] (demo_file [false]) demo_geom_ok (demo_file_ok [false])) as (s' & E & H1 & _ & _ & H2);
    [vm_compute; congruence | reflexivity |].
  exists s'. split; [exact E |]. split; [exact H1 | exact H2].
Defined.
