(* ===== verification/Threads.v ===== *)
(** * Threads: code that takes a lock several times

    Most functions of the kernel hold a lock for part of their body only:
    between two critical sections other processors run.  Such a function is
    written once, as the sequence of its critical sections ([act]).  Read
    alone it is a program ([exec]); put in a pool with others it interleaves
    with them ([pool_step]).

    - [Step f] is one critical section, or one access outside any lock;
    - [Await b k] waits until [b] holds (a wait queue or a spin on a flag);
    - [Spin] stands for a loop that has used up its fuel: the thread is still
      running, and it never gets further.

    [safe Inv m h Q] is the rule for reasoning about one thread: [m] owns the
    resources [h] (a multiset of tokens), every critical section keeps the
    invariant [Inv] whatever the other threads own, and [m] ends with resources
    that satisfy [Q].  [pool_safe] adds the threads up. *)

From Stdlib Require Import ZArith Lia List.
From stdpp Require Import base list gmultiset relations.
From S2P Require Import Prelude.

Local Open Scope Z_scope.

(** ** Threads and their interleavings *)

Inductive act (S A : Type) : Type :=
| Done (a : A)
| Step (f : S -> option (act S A * S))
| Await (b : S -> bool) (k : act S A)
| Spin.

Arguments Done {S A} a.
Arguments Step {S A} f.
Arguments Await {S A} b k.
Arguments Spin {S A}.

#[export] Instance act_ret {S} : MRet (act S) := fun A a => Done a.

#[export] Instance act_bind {S} : MBind (act S) := fun A B k =>
  fix bind (m : act S A) : act S B :=
    match m with
    | Done a => k a
    | Step f => Step (fun s => match f s with Some (m', s') => Some (bind m', s') | None => None end)
    | Await b m' => Await b (bind m')
    | Spin => Spin
    end.

(** One critical section. *)
Definition atomic {S A} (m : prog S A) : act S A :=
  Step (fun s => match m s with Some (a, s') => Some (Done a, s') | None => None end).

(** What a thread does when it is scheduled. *)
Inductive outcome (S A : Type) : Type :=
| Idle
| Moves (m : act S A) (s : S)
| Faults.

Arguments Idle {S A}.
Arguments Moves {S A} m s.
Arguments Faults {S A}.

Definition tstep {S A} (m : act S A) (s : S) : outcome S A :=
  match m with
  | Done _ | Spin => Idle
  | Step f => match f s with Some (m', s') => Moves m' s' | None => Faults end
  | Await b k => if b s then Moves k s else Idle
  end.

(** A thread alone: its result, a fault, a wait that nobody ends, or a loop
    still running when its fuel is used up. *)
Inductive result (S A : Type) : Type :=
| Returns (a : A) (s : S)
| Crashes
| Blocks
| Runs.

Arguments Returns {S A} a s.
Arguments Crashes {S A}.
Arguments Blocks {S A}.
Arguments Runs {S A}.

Fixpoint exec {S A} (m : act S A) (s : S) : result S A :=
  match m with
  | Done a => Returns a s
  | Step f => match f s with Some (m', s') => exec m' s' | None => Crashes end
  | Await b k => if b s then exec k s else Blocks
  | Spin => Runs
  end.

Inductive pool_step {S A} : list (act S A) * S -> list (act S A) * S -> Prop :=
| pool_move ts i t t' s s' : ts !! i = Some t -> tstep t s = Moves t' s' ->
    pool_step (ts, s) (<[i := t']> ts, s').

Definition pool_faults {S A} (c : list (act S A) * S) : Prop :=
  exists i t, c.1 !! i = Some t /\ tstep t c.2 = Faults.

(** All threads have ended. *)
Definition all_done {S A} (c : list (act S A) * S) : Prop := Forall (fun t => exists a, t = Done a) c.1.

(** Running the threads in a given order. *)
Fixpoint run_schedule {S A} (sch : list nat) (c : list (act S A) * S) : option (list (act S A) * S) :=
  match sch with
  | [] => Some c
  | i :: sch' =>
      match c.1 !! i with
      | Some t => match tstep t c.2 with Moves t' s' => run_schedule sch' (<[i := t']> c.1, s') | _ => None end
      | None => None
      end
  end.

Lemma run_schedule_steps {S A} sch (c c' : list (act S A) * S) :
  run_schedule sch c = Some c' -> rtc pool_step c c'.
Proof.
  revert c. induction sch as [| i sch IH]; intros [ts s] Hr; [by simplify_eq/= |]. cbn in Hr.
  destruct (ts !! i) as [t |] eqn:Ht; [| done]. destruct (tstep t s) as [| t' s' |] eqn:Hs; [done | | done].
  eapply rtc_l; [by eapply pool_move | by apply IH].
Qed.

(** Where a schedule leads, and whether all threads have ended there. *)
Definition run_to {S A} (sch : list nat) (c : list (act S A) * S) : list (act S A) * S := default c (run_schedule sch c).

Definition is_done {S A} (t : act S A) : bool := match t with Done _ => true | _ => false end.

Definition ends {S A} (sch : list nat) (c : list (act S A) * S) : bool :=
  match run_schedule sch c with Some c' => forallb is_done c'.1 | None => false end.

Lemma ends_run {S A} sch (c : list (act S A) * S) : ends sch c = true -> rtc pool_step c (run_to sch c) /\ all_done (run_to sch c).
Proof.
  unfold ends, run_to. destruct (run_schedule sch c) as [c' |] eqn:Hr; [| done]. intros He.
  split; [by eapply run_schedule_steps |]. apply Forall_forall. intros t Ht. rewrite forallb_forall in He.
  apply list_elem_of_In in Ht. specialize (He t Ht). destruct t; try done. by eexists.
Qed.

(** A schedule after which the step of thread [i] faults. *)
Definition schedule_faults {S A} (sch : list nat) (i : nat) (c : list (act S A) * S) : bool :=
  match run_schedule sch c with
  | Some c' => match c'.1 !! i with
               | Some t => match tstep t c'.2 with Faults => true | _ => false end
               | None => false
               end
  | None => false
  end.

Lemma run_schedule_faults {S A} sch i (c : list (act S A) * S) : schedule_faults sch i c = true ->
  exists c', rtc pool_step c c' /\ pool_faults c'.
Proof.
  unfold schedule_faults. destruct (run_schedule sch c) as [c' |] eqn:Hr; [| done]. intros Hf.
  exists c'. split; [by eapply run_schedule_steps |]. exists i.
  destruct (c'.1 !! i) as [t |] eqn:Ht; [| done]. exists t. split; [done |]. by destruct (tstep t c'.2).
Qed.

(** ** Sequencing *)

Lemma exec_bind {S A B} (m : act S A) (k : A -> act S B) s :
  exec (m ≫= k) s =
  match exec m s with Returns a s' => exec (k a) s' | Crashes => Crashes | Blocks => Blocks | Runs => Runs end.
Proof.
  revert m s. fix IH 1. intros m s. destruct m as [a | f | b m |]; cbn; [done | | | done].
  - destruct (f s) as [[m' s'] |]; [apply IH | done].
  - destruct (b s); [apply IH | done].
Qed.

Lemma exec_atomic {S A} (m : prog S A) s a s' : m s = Some (a, s') -> exec (atomic m) s = Returns a s'.
Proof. intros Hm. cbn. by rewrite Hm. Qed.

Lemma exec_atomic_bind {S A B} (m : prog S A) (k : A -> act S B) s a s' :
  m s = Some (a, s') -> exec (atomic m ≫= k) s = exec (k a) s'.
Proof. intros Hm. by rewrite exec_bind, (exec_atomic _ _ _ _ Hm). Qed.

(** ** Resources *)

Section safety.
Context {S : Type} {K : Type} `{Countable K}.
Variable Inv : S -> gmultiset K -> Prop.
Implicit Types (h o : gmultiset K) (s : S).

Fixpoint safe {A} (m : act S A) (h : gmultiset K) (Q : A -> gmultiset K -> Prop) : Prop :=
  match m with
  | Done a => Q a h
  | Step f => forall s o, Inv s (h ⊎ o) ->
      match f s with
      | Some (m', s') => exists h', Inv s' (h' ⊎ o) /\ safe m' h' Q
      | None => False
      end
  | Await b k => forall s o, Inv s (h ⊎ o) -> b s = true -> exists h', Inv s (h' ⊎ o) /\ safe k h' Q
  | Spin => True
  end.

Lemma safe_mono {A} (m : act S A) h (P Q : A -> gmultiset K -> Prop) :
  safe m h P -> (forall a h', P a h' -> Q a h') -> safe m h Q.
Proof.
  intros Hm HPQ. revert m h Hm. fix IH 1. intros m h Hm. destruct m as [a | f | b m |]; cbn in *; [auto | | | done].
  - intros s o Hi. specialize (Hm s o Hi). destruct (f s) as [[m' s'] |]; [| done].
    destruct Hm as (h' & Hi' & Hm'). exists h'. split; [done | by apply IH].
  - intros s o Hi Hb. destruct (Hm s o Hi Hb) as (h' & Hi' & Hm'). exists h'. split; [done | by apply IH].
Qed.

Lemma safe_bind {A B} (m : act S A) (k : A -> act S B) h Q :
  safe m h (fun a h' => safe (k a) h' Q) -> safe (m ≫= k) h Q.
Proof.
  revert m h. fix IH 1. intros m h Hm. destruct m as [a | f | b m |]; cbn in *; [done | | | done].
  - intros s o Hi. specialize (Hm s o Hi). destruct (f s) as [[m' s'] |]; [| done].
    destruct Hm as (h' & Hi' & Hm'). exists h'. split; [done | by apply IH].
  - intros s o Hi Hb. destruct (Hm s o Hi Hb) as (h' & Hi' & Hm'). exists h'. split; [done | by apply IH].
Qed.

(** Resources a thread does not touch stay with it. *)
Lemma safe_frame {A} (m : act S A) h r Q :
  safe m h (fun a h' => Q a (h' ⊎ r)) -> safe m (h ⊎ r) Q.
Proof.
  revert m h. fix IH 1. intros m h Hm. destruct m as [a | f | b m |]; cbn in *; [done | | | done].
  - intros s o Hi. specialize (Hm s (r ⊎ o)). rewrite <- (assoc_L _) in Hi. specialize (Hm Hi).
    destruct (f s) as [[m' s'] |]; [| done]. destruct Hm as (h' & Hi' & Hm'). exists (h' ⊎ r).
    split; [by rewrite <- (assoc_L _) | by apply IH].
  - intros s o Hi Hb. rewrite <- (assoc_L _) in Hi. destruct (Hm s (r ⊎ o) Hi Hb) as (h' & Hi' & Hm').
    exists (h' ⊎ r). split; [by rewrite <- (assoc_L _) | by apply IH].
Qed.

Lemma safe_atomic {A} (m : prog S A) h (Q : A -> gmultiset K -> Prop) :
  (forall s o, Inv s (h ⊎ o) -> wp m s (fun a s' => exists h', Inv s' (h' ⊎ o) /\ Q a h')) ->
  safe (atomic m) h Q.
Proof. intros Hm s o Hi. cbn. by destruct (Hm s o Hi) as (a & s' & -> & Hq). Qed.

(** A thread alone that returns keeps the invariant and meets its
    postcondition. *)
Lemma safe_exec {A} (m : act S A) h o Q s : safe m h Q -> Inv s (h ⊎ o) ->
  match exec m s with
  | Returns a s' => exists h', Inv s' (h' ⊎ o) /\ Q a h'
  | Crashes => False
  | _ => True
  end.
Proof.
  revert m h s. fix IH 1. intros m h s Hm Hi. destruct m as [a | f | b m |]; cbn in *; [by exists h | | | done].
  - specialize (Hm s o Hi). destruct (f s) as [[m' s'] |]; [| done]. destruct Hm as (h' & Hi' & Hm'). by apply (IH m' h').
  - destruct (b s) eqn:Hb; [| done]. destruct (Hm s o Hi Hb) as (h' & Hi' & Hm'). by apply (IH m h').
Qed.

Lemma disj_union_list_insert (hs : list (gmultiset K)) i h : hs !! i = Some h ->
  exists r, ⋃+ hs = h ⊎ r /\ forall h', ⋃+ (<[i := h']> hs) = h' ⊎ r.
Proof.
  revert i. induction hs as [| h0 hs IH]; intros i Hi; [done |]. destruct i as [| i]; cbn in *.
  - simplify_eq. by exists (⋃+ hs).
  - destruct (IH i Hi) as (r & Hr & Hr'). exists (h0 ⊎ r). rewrite Hr. split; [multiset_solver |].
    intros h'. rewrite Hr'. multiset_solver.
Qed.

Lemma safe_step {A} (t : act S A) h o Q s : safe t h Q -> Inv s (h ⊎ o) ->
  match tstep t s with
  | Moves t' s' => exists h', Inv s' (h' ⊎ o) /\ safe t' h' Q
  | Idle => True
  | Faults => False
  end.
Proof.
  intros Ht Hi. destruct t as [a | f | b k |]; cbn in *; [done | | | done].
  - specialize (Ht s o Hi). by destruct (f s) as [[t' s'] |].
  - destruct (b s) eqn:Hb; [by apply (Ht s o) | done].
Qed.

(** What the threads of a pool own together satisfies the invariant, in every
    state they reach; none of them faults; and those that have ended left what
    their postcondition says. *)
Section pools.
Context {A : Type} (Q : A -> gmultiset K -> Prop).

Definition pool_ok (c : list (act S A) * S) : Prop :=
  exists hs, Forall2 (fun t h => safe t h Q) c.1 hs /\ Inv c.2 (⋃+ hs).

Lemma pool_ok_step (c c' : list (act S A) * S) : pool_ok c -> pool_step c c' -> pool_ok c'.
Proof.
  intros (hs & Hts & Hi) Hstep. destruct Hstep as [ts i t t' s s' Hl Hm]. cbn in *.
  destruct (Forall2_lookup_l _ _ _ _ _ Hts Hl) as (h & Hh & Ht).
  destruct (disj_union_list_insert hs i h Hh) as (r & Hr & Hr'). rewrite Hr in Hi.
  pose proof (safe_step t h r Q s Ht Hi) as Hs. rewrite Hm in Hs. destruct Hs as (h' & Hi' & Ht').
  exists (<[i := h']> hs). cbn. split; [by apply Forall2_insert | by rewrite Hr'].
Qed.

Lemma pool_ok_no_fault (c : list (act S A) * S) : pool_ok c -> ~ pool_faults c.
Proof.
  intros (hs & Hts & Hi) (i & t & Hl & Hf). destruct (Forall2_lookup_l _ _ _ _ _ Hts Hl) as (h & Hh & Ht).
  destruct (disj_union_list_insert hs i h Hh) as (r & Hr & _). rewrite Hr in Hi.
  pose proof (safe_step t h r Q c.2 Ht Hi) as Hs. by rewrite Hf in Hs.
Qed.

Lemma pool_ok_reach (c c' : list (act S A) * S) : pool_ok c -> rtc pool_step c c' -> pool_ok c'.
Proof. intros Hok Hr. induction Hr; eauto using pool_ok_step. Qed.

Lemma pool_ok_done (P : K -> Prop) (c : list (act S A) * S) : (forall a h k, Q a h -> k ∈ h -> P k) ->
  pool_ok c -> all_done c -> exists h, Inv c.2 h /\ forall k, k ∈ h -> P k.
Proof.
  intros HQ (hs & Hts & Hi) Hd. exists (⋃+ hs). split; [done |]. clear Hi.
  unfold all_done in Hd. induction Hts as [| t h ts hs Ht Hts IH]; cbn; [intros k Hk; multiset_solver |].
  apply Forall_cons in Hd as [[a ->] Hd']. intros k [Hk | Hk]%gmultiset_elem_of_disj_union; [by eapply HQ | by apply IH].
Qed.
End pools.
End safety.

(** Threads that neither wait nor loop: alone, they return. *)
Fixpoint straight {S A} (m : act S A) : Prop :=
  match m with
  | Done _ => True
  | Step f => forall s, match f s with Some (m', _) => straight m' | None => True end
  | Await _ _ | Spin => False
  end.

Lemma straight_bind {S A B} (m : act S A) (k : A -> act S B) : straight m -> (forall a, straight (k a)) -> straight (m ≫= k).
Proof.
  intros Hm Hk. revert m Hm. fix IH 1. intros m Hm. destruct m as [a | f | b m |]; cbn in *; [done | | done | done].
  intros s. specialize (Hm s). destruct (f s) as [[m' s'] |]; [by apply IH | done].
Qed.

Lemma straight_atomic {S A} (m : prog S A) : straight (atomic m).
Proof. intros s. by destruct (m s) as [[a s'] |]. Qed.

Lemma straight_exec {S A} (m : act S A) s : straight m -> match exec m s with Blocks | Runs => False | _ => True end.
Proof.
  revert m s. fix IH 1. intros m s Hm. destruct m as [a | f | b m |]; cbn in *; [done | | done | done].
  specialize (Hm s). destruct (f s) as [[m' s'] |]; [by apply IH | done].
Qed.
