(* ===== verification/PageCache.v ===== *)
(** * The page cache (kernel/bsd/page_cache.c, page_cache.h)

    A fixed pool of page descriptors caches pages of files.  A descriptor is
    on the free list, or hashed by (inode, page index) and on the LRU list, or
    removed from both while somebody still uses it.  [page_cache_lock] protects
    the lists and the flags; the reads and writes of the file system run
    without it, on pages that are pinned and marked [FILLING] or [WRITEBACK].

    The functions are threads ([Threads.act]): one step per critical section
    and one per access outside the lock.  Chains and lists are lists of page
    numbers: the invariant shows that a page is on at most one of the chains
    that share the [hash_next] link.  The file system is a type [F] of states
    with the inodes in it ([HasInodes]); its page operations are the function
    pointers of the inode's [i_aop]. *)

From Stdlib Require Import ZArith Lia List.
From stdpp Require Import base list gmap gmultiset relations functions.
From S2P Require Import Prelude Threads.

Local Open Scope Z_scope.

(** ** Constants *)

Definition CACHE_PAGE_FILLING : Z := 1.
Definition CACHE_PAGE_UPTODATE : Z := 2.
Definition CACHE_PAGE_DIRTY : Z := 4.
Definition CACHE_PAGE_WRITEBACK : Z := 8.
Definition CACHE_PAGE_ERROR : Z := 16.
Definition CACHE_PAGE_INVALID : Z := 32.
Definition CACHE_PAGE_READAHEAD : Z := 64.

Definition PAGE_CACHE_RA_MAX_PAGES : Z := 16.
Definition XOS_RA_MAX_PAGES : Z := PAGE_CACHE_RA_MAX_PAGES.
Definition PAGE_CACHE_RA_MMAP : Z := 0.
Definition PAGE_CACHE_RA_READ : Z := 1.
Definition PAGE_CACHE_RA_SOURCE_COUNT : Z := 2.
Definition PAGE_CACHE_RA_BUCKET_OTHER : Z := 4.
Definition PAGE_CACHE_HASH_BITS : Z := 6.
Definition PAGE_CACHE_SIZE : nat := 1024.
Definition RA_LIFECYCLE_NONE : Z := 0.
Definition RA_LIFECYCLE_OUTSTANDING : Z := 1.
Definition RA_LIFECYCLE_RESOLVED : Z := 2.
Definition INODE_REGULAR : Z := 1.

(** ** Data *)

Record read_stats := ReadStats { io_commands : Z; io_sectors : Z; fragment_splits : Z }.

(** [struct address_space_operations]; a missing operation is a null pointer,
    and [None] as a result is a fault.  [readpages] gets and returns the
    contents of the pages; [writepages] gets the index and contents of each. *)
Record aops (F : Type) := Aops {
  readpage : option (Z -> Z -> list Z -> F -> option (Z * list Z * F));
  readpages : option (Z -> Z -> list (list Z) -> F -> option (Z * list (list Z) * read_stats * F));
  writepages : option (Z -> list (Z * list Z) -> F -> option (Z * F)) }.
Arguments Aops {F}.
Arguments readpage {F}.
Arguments readpages {F}.
Arguments writepages {F}.

Record inode (F : Type) := Inode { i_type : Z; i_size : Z; i_aop : option (aops F) }.
Arguments Inode {F}.
Arguments i_type {F}.
Arguments i_size {F}.
Arguments i_aop {F}.

Class HasInodes (F : Type) := inode_at : F -> Z -> option (inode F).

Record cache_page := CachePage {
  cp_inode : option Z; cp_index : Z; cp_data : option (list Z); pin_count : Z; cp_flags : Z; cp_error : Z;
  generation : Z; dirty_seq : Z; ra_source : Z; cp_ra_bucket : Z; ra_lifecycle : Z }.

(** [struct page_cache_stats]: one name per counter. *)
Module Stat.
Inductive stat :=
| readahead_batches | readahead_pages | readahead_hits | readahead_waste
| readahead_fragment_truncations | readahead_fallbacks
| calls (source : Z) | requested_pages (source : Z) | admitted_demand (source : Z)
| admitted_speculative (source : Z) | hits (source : Z) | eviction_waste (source : Z)
| invalidation_waste (source : Z) | outstanding (source : Z) | outstanding_peak (source : Z)
| requested_window (source bucket : Z) | effective_window (source bucket : Z)
| admitted_window (source bucket : Z) | fragment_truncations (source : Z)
| reservation_conflicts (source : Z) | staging_fallbacks (source : Z)
| batch_io_commands (source : Z) | batch_io_sectors (source : Z).
#[export] Instance stat_eq_dec : EqDecision stat.
Proof. solve_decision. Defined.
End Stat.
Export (hints) Stat.

(** The variables of page_cache.c.  [kmem] is what the successive calls of
    [kmalloc] return: nothing, or memory with some contents.  [written] is a
    history variable that no code reads: what was last stored in each page. *)
Record cache (F : Type) := Cache {
  pages : list cache_page; page_cache_hash : list (list nat); lru : list nat;
  free_list : list nat; free_count : Z; kmem : nat -> option (list Z); cache_stats : Stat.stat -> Z;
  fs : F; written : Z -> Z -> list Z }.
Arguments Cache {F}.
Arguments pages {F}.
Arguments page_cache_hash {F}.
Arguments lru {F}.
Arguments free_list {F}.
Arguments free_count {F}.
Arguments kmem {F}.
Arguments cache_stats {F}.
Arguments fs {F}.
Arguments written {F}.

(** Assignments to one field. *)
Definition set_pin (n : Z) (c : cache_page) : cache_page :=
  CachePage (cp_inode c) (cp_index c) (cp_data c) n (cp_flags c) (cp_error c) (generation c) (dirty_seq c)
    (ra_source c) (cp_ra_bucket c) (ra_lifecycle c).
Definition set_flags (n : Z) (c : cache_page) : cache_page :=
  CachePage (cp_inode c) (cp_index c) (cp_data c) (pin_count c) n (cp_error c) (generation c) (dirty_seq c)
    (ra_source c) (cp_ra_bucket c) (ra_lifecycle c).
Definition set_data (d : option (list Z)) (c : cache_page) : cache_page :=
  CachePage (cp_inode c) (cp_index c) d (pin_count c) (cp_flags c) (cp_error c) (generation c) (dirty_seq c)
    (ra_source c) (cp_ra_bucket c) (ra_lifecycle c).
Definition set_error (e : Z) (c : cache_page) : cache_page :=
  CachePage (cp_inode c) (cp_index c) (cp_data c) (pin_count c) (cp_flags c) e (generation c) (dirty_seq c)
    (ra_source c) (cp_ra_bucket c) (ra_lifecycle c).
Definition set_seq (n : Z) (c : cache_page) : cache_page :=
  CachePage (cp_inode c) (cp_index c) (cp_data c) (pin_count c) (cp_flags c) (cp_error c) (generation c) n
    (ra_source c) (cp_ra_bucket c) (ra_lifecycle c).
Definition set_ra (source bucket life : Z) (c : cache_page) : cache_page :=
  CachePage (cp_inode c) (cp_index c) (cp_data c) (pin_count c) (cp_flags c) (cp_error c) (generation c)
    (dirty_seq c) source bucket life.
(** [cp->data = NULL; cp->inode = NULL; cp->flags = 0]. *)
Definition clear_page (c : cache_page) : cache_page :=
  CachePage None (cp_index c) None (pin_count c) 0 (cp_error c) (generation c) (dirty_seq c)
    (ra_source c) (cp_ra_bucket c) (ra_lifecycle c).

Definition zero_page : cache_page := CachePage None 0 None 0 0 0 0 0 0 0 0.

Section code.
Context {F : Type} `{!HasInodes F}.
Implicit Types (s : cache F) (p : nat) (ip idx source : Z).

Definition set_pages (l : list cache_page) s : cache F :=
  Cache l (page_cache_hash s) (lru s) (free_list s) (free_count s) (kmem s) (cache_stats s) (fs s) (written s).
Definition set_hash (l : list (list nat)) s : cache F :=
  Cache (pages s) l (lru s) (free_list s) (free_count s) (kmem s) (cache_stats s) (fs s) (written s).
Definition set_lru (l : list nat) s : cache F :=
  Cache (pages s) (page_cache_hash s) l (free_list s) (free_count s) (kmem s) (cache_stats s) (fs s) (written s).
Definition set_free (l : list nat) (n : Z) s : cache F :=
  Cache (pages s) (page_cache_hash s) (lru s) l n (kmem s) (cache_stats s) (fs s) (written s).
Definition set_kmem (m : nat -> option (list Z)) s : cache F :=
  Cache (pages s) (page_cache_hash s) (lru s) (free_list s) (free_count s) m (cache_stats s) (fs s) (written s).
Definition set_stats (m : Stat.stat -> Z) s : cache F :=
  Cache (pages s) (page_cache_hash s) (lru s) (free_list s) (free_count s) (kmem s) m (fs s) (written s).
Definition set_fs (f : F) s : cache F :=
  Cache (pages s) (page_cache_hash s) (lru s) (free_list s) (free_count s) (kmem s) (cache_stats s) f (written s).
Definition set_written (w : Z -> Z -> list Z) s : cache F :=
  Cache (pages s) (page_cache_hash s) (lru s) (free_list s) (free_count s) (kmem s) (cache_stats s) (fs s) w.

Definition modify (f : cache F -> cache F) : prog (cache F) unit := fun s => Some (tt, f s).
Definition getp (p : nat) : prog (cache F) cache_page := fun s => match pages s !! p with Some c => Some (c, s) | None => None end.
Definition updp (p : nat) (f : cache_page -> cache_page) : prog (cache F) unit :=
  fun s => match pages s !! p with Some c => Some (tt, set_pages (<[p := f c]> (pages s)) s) | None => None end.

(** An access through a null pointer. *)
Definition fault {A} : prog (cache F) A := fun _ => None.

(** A call of the file system. *)
Definition on_fs {A} (f : F -> option (A * F)) : prog (cache F) A :=
  fun s => match f (fs s) with Some (a, f') => Some (a, set_fs f' s) | None => None end.

(** [cache_stats.x += n] and [if (cache_stats.x) cache_stats.x--]. *)
Definition stat_add (x : Stat.stat) (n : Z) : prog (cache F) unit :=
  modify (fun s => set_stats (<[x := u64 (cache_stats s x + n)]> (cache_stats s)) s).
Definition stat_dec (x : Stat.stat) : prog (cache F) unit :=
  modify (fun s => if cache_stats s x =? 0 then s
                   else set_stats (<[x := u64 (cache_stats s x - 1)]> (cache_stats s)) s).

(** [kmalloc]. *)
Definition kmalloc : prog (cache F) (option (list Z)) :=
  fun s => Some (kmem s O, set_kmem (fun n => kmem s (S n)) s).

(** ** Helpers *)

Definition ra_bucket (n : Z) : Z :=
  if n =? 1 then 0 else if n =? 4 then 1 else if n =? 8 then 2 else if n =? 16 then 3
  else PAGE_CACHE_RA_BUCKET_OTHER.

Definition page_cache_ra_cap (requested_pages : Z) : Z :=
  let cap := if XOS_RA_MAX_PAGES =? 0 then 1 else XOS_RA_MAX_PAGES in
  let r := if requested_pages =? 0 then 1 else requested_pages in
  let r := if PAGE_CACHE_RA_MAX_PAGES <? r then PAGE_CACHE_RA_MAX_PAGES else r in
  if r <? cap then r else cap.

Definition page_cache_hashfn (ip page_index : Z) : Z :=
  let key := Z.lxor ip (Z.shiftr ip 9) in
  let key := Z.lxor key (Z.lxor page_index (Z.shiftr page_index 32)) in
  Z.land (u32 key) (Z.shiftl 1 PAGE_CACHE_HASH_BITS - 1).

Definition bucket_of (ip page_index : Z) : nat := Z.to_nat (page_cache_hashfn ip page_index).

Definition lru_remove (p : nat) : prog (cache F) unit := modify (fun s => set_lru (filter (fun q => q <> p) (lru s)) s).
Definition lru_insert_head (p : nat) : prog (cache F) unit := modify (fun s => set_lru (p :: lru s) s).
Definition lru_touch (p : nat) : prog (cache F) unit := lru_remove p ;; lru_insert_head p.

Definition free_list_pop : prog (cache F) (option nat) :=
  fun s => match free_list s with
           | [] => Some (None, s)
           | p :: l => Some (Some p, set_free l (free_count s - 1) s)
           end.
Definition free_list_push (p : nat) : prog (cache F) unit :=
  modify (fun s => set_free (p :: free_list s) (free_count s + 1) s).

Definition ra_resolve_locked (p : nat) (invalidation : bool) : prog (cache F) unit :=
  cp ← getp p;
  if negb (ra_lifecycle cp =? RA_LIFECYCLE_OUTSTANDING) then mret tt else
  let source := ra_source cp in
  if PAGE_CACHE_RA_SOURCE_COUNT <=? source then mret tt else
  stat_dec (Stat.outstanding source) ;;
  stat_add (if invalidation then Stat.invalidation_waste source else Stat.eviction_waste source) 1 ;;
  stat_add Stat.readahead_waste 1 ;;
  updp p (fun cp => set_flags (clear_flag (cp_flags cp) CACHE_PAGE_READAHEAD)
                      (set_ra (ra_source cp) (cp_ra_bucket cp) RA_LIFECYCLE_RESOLVED cp)).

Definition ra_hit_locked (p : nat) : prog (cache F) unit :=
  cp ← getp p;
  if negb (ra_lifecycle cp =? RA_LIFECYCLE_OUTSTANDING) then mret tt else
  let source := ra_source cp in
  if PAGE_CACHE_RA_SOURCE_COUNT <=? source then mret tt else
  stat_dec (Stat.outstanding source) ;;
  stat_add (Stat.hits source) 1 ;;
  stat_add Stat.readahead_hits 1 ;;
  updp p (fun cp => set_flags (clear_flag (cp_flags cp) CACHE_PAGE_READAHEAD)
                      (set_ra (ra_source cp) (cp_ra_bucket cp) RA_LIFECYCLE_RESOLVED cp)).

(** [page_cache_wait]: the thread sleeps on the page's wait queue until the
    flags are clear; every change that clears them wakes the queue. *)
Definition page_cache_wait (p : nat) (mask : Z) : act (cache F) unit :=
  Await (fun s => match pages s !! p with Some cp => negb (has_flag (cp_flags cp) mask) | None => false end) (Done tt).

Fixpoint unlink (p : nat) (chain : list nat) : list nat :=
  match chain with
  | [] => []
  | q :: chain' => if decide (q = p) then chain' else q :: unlink p chain'
  end.

(** [*link = cp->hash_next] for the link that points to [cp]. *)
Definition hash_unlink (b p : nat) : prog (cache F) unit :=
  modify (fun s => set_hash (alter (unlink p) b (page_cache_hash s)) s).

Definition hash_push (b p : nat) : prog (cache F) unit :=
  modify (fun s => set_hash (alter (cons p) b (page_cache_hash s)) s).

(** Dereferencing a page pointer in a chain walk. *)
Definition matches (ip idx : Z) (cp : cache_page) : bool :=
  bool_decide (cp_inode cp = Some ip) && (cp_index cp =? idx) && bool_decide (is_Some (cp_data cp)).

Fixpoint chain_find (ip idx : Z) (chain : list nat) : prog (cache F) (option nat) :=
  match chain with
  | [] => mret None
  | p :: chain' => cp ← getp p; if matches ip idx cp then mret (Some p) else chain_find ip idx chain'
  end.

Definition bucket (b : nat) : prog (cache F) (list nat) := fun s =>
  match page_cache_hash s !! b with Some chain => Some (chain, s) | None => None end.

Definition find_locked (ip idx : Z) : prog (cache F) (option nat) :=
  chain ← bucket (bucket_of ip idx); chain_find ip idx chain.

(** ** Operations *)

Definition page_cache_release_locked (p : nat) : prog (cache F) unit :=
  updp p (fun cp => set_pin (pin_count cp - 1) cp) ;;
  cp ← getp p;
  if (pin_count cp =? 0) && has_flag (cp_flags cp) CACHE_PAGE_INVALID
  then updp p clear_page ;; free_list_push p
  else mret tt.

Definition page_cache_release (p : nat) : act (cache F) unit := atomic (page_cache_release_locked p).

(** The first critical section of [page_cache_lookup]: find, pin, touch. *)
Definition lookup_locked (ip idx : Z) : prog (cache F) (option (nat * Z)) :=
  r ← find_locked ip idx;
  match r with
  | None => mret None
  | Some p =>
      updp p (fun cp => set_pin (pin_count cp + 1) cp) ;;
      lru_touch p ;;
      cp ← getp p;
      mret (Some (p, cp_flags cp))
  end.

Definition page_cache_lookup (ip idx : Z) : act (cache F) (option nat) :=
  if ip =? 0 then mret None else
  r ← atomic (lookup_locked ip idx);
  match r with
  | None => mret None
  | Some (p, flags) =>
      (if has_flag flags CACHE_PAGE_FILLING then page_cache_wait p CACHE_PAGE_FILLING else mret tt) ;;
      cp ← atomic (getp p);
      if has_flag (cp_flags cp) (Z.lor CACHE_PAGE_ERROR CACHE_PAGE_INVALID)
      then page_cache_release p ;; mret None
      else atomic (ra_hit_locked p) ;; mret (Some p)
  end.

Definition evictable (cp : cache_page) : bool :=
  (pin_count cp =? 0) && bool_decide (is_Some (cp_data cp)) &&
  negb (has_flag (cp_flags cp) (Z.lor (Z.lor CACHE_PAGE_FILLING CACHE_PAGE_WRITEBACK) CACHE_PAGE_DIRTY)).

(** The walk from the tail of the LRU list. *)
Fixpoint evict_scan (l : list nat) : prog (cache F) Z :=
  match l with
  | [] => mret (- ENOMEM)
  | p :: l' =>
      cp ← getp p;
      if negb (evictable cp) then evict_scan l'
      else
        ra_resolve_locked p false ;;
        hash_unlink (bucket_of (default 0 (cp_inode cp)) (cp_index cp)) p ;;
        lru_remove p ;;
        updp p clear_page ;;
        free_list_push p ;;
        mret 0
  end.

Definition page_cache_evict_locked : prog (cache F) Z := fun s => evict_scan (rev (lru s)) s.

Definition admit_page (ip idx : Z) (readahead : bool) (data : list Z) (cp : cache_page) : cache_page :=
  CachePage (Some ip) idx (Some data) 1
    (Z.lor CACHE_PAGE_FILLING (if readahead then CACHE_PAGE_READAHEAD else 0)) 0 (u32 (generation cp + 1)) 0
    PAGE_CACHE_RA_SOURCE_COUNT PAGE_CACHE_RA_BUCKET_OTHER RA_LIFECYCLE_NONE.

(** A descriptor from the free list, after an eviction when it is empty. *)
Definition free_descriptor : prog (cache F) (option nat) :=
  r ← free_list_pop;
  match r with
  | Some p => mret (Some p)
  | None =>
      rc ← page_cache_evict_locked;
      if negb (rc =? 0) then mret None
      else r ← free_list_pop; match r with Some p => mret (Some p) | None => fault end
  end.

Definition page_cache_alloc_locked (ip idx : Z) (readahead : bool) : prog (cache F) (option nat) :=
  r ← free_descriptor;
  match r with
  | None => mret None
  | Some p =>
      data ← kmalloc;
      match data with
      | None => free_list_push p ;; mret None
      | Some d =>
          updp p (admit_page ip idx readahead d) ;;
          hash_push (bucket_of ip idx) p ;;
          lru_insert_head p ;;
          mret (Some p)
      end
  end.

Definition page_cache_unhash_locked (p : nat) : prog (cache F) unit :=
  cp ← getp p;
  hash_unlink (bucket_of (default 0 (cp_inode cp)) (cp_index cp)) p ;;
  lru_remove p ;;
  updp p (fun cp => set_flags (set_flag (cp_flags cp) CACHE_PAGE_INVALID) cp).

(** [*ip]: a fault when there is no such inode. *)
Definition get_inode (ip : Z) : prog (cache F) (inode F) := fun s =>
  match inode_at (fs s) ip with Some i => Some (i, s) | None => None end.

(** The number of pages to read, from the size of the file. *)
Definition ra_window (i : inode F) (page_index window_pages : Z) : Z :=
  let window := page_cache_ra_cap window_pages in
  if i_type i =? INODE_REGULAR then
    let file_pages := u64 (i_size i + PAGE_SIZE - 1) / PAGE_SIZE in
    if file_pages <=? page_index then 1
    else if file_pages - page_index <? window then file_pages - page_index else window
  else 1.

(** The reservation loop: [n] more pages from number [i] on. *)
Fixpoint reserve_pages (ip page_index source : Z) (n : nat) (i : Z) : prog (cache F) (list nat) :=
  match n with
  | O => mret []
  | S n' =>
      let index := u64 (page_index + i) in
      r ← find_locked ip index;
      match r with
      | Some _ => (if i =? 0 then stat_add (Stat.reservation_conflicts source) 1 else mret tt) ;; mret []
      | None =>
          r ← page_cache_alloc_locked ip index (negb (i =? 0));
          match r with
          | None => mret []
          | Some p => l ← reserve_pages ip page_index source n' (i + 1); mret (p :: l)
          end
      end
  end.

(** Contents of the pages handed to the file system: a fault on a page without
    memory. *)
Fixpoint page_data (ps : list nat) : prog (cache F) (list (list Z)) :=
  match ps with
  | [] => mret []
  | p :: ps' => cp ← getp p; match cp_data cp with None => fault | Some d => l ← page_data ps'; mret (d :: l) end
  end.

Fixpoint store_data (ps : list nat) (ds : list (list Z)) : prog (cache F) unit :=
  match ps, ds with
  | p :: ps', d :: ds' => updp p (set_data (Some d)) ;; store_data ps' ds'
  | _, _ => mret tt
  end.

(** [ip->i_aop->readpages(ip, page_index, page_data, allocated, &io_stats)]
    when there is such an operation. *)
Definition call_readpages (ip page_index : Z) (ps : list nat) : prog (cache F) (bool * Z * read_stats) :=
  i ← get_inode ip;
  match i_aop i ≫= readpages with
  | None => mret (false, 0, ReadStats 0 0 0)
  | Some f =>
      ds ← page_data ps;
      r ← on_fs (f ip page_index ds);
      let '(rc, ds', st) := r in
      store_data ps ds' ;;
      mret (true, rc, st)
  end.

(** [ip->i_aop->readpage(ip, pages[i]->page_index, pages[i]->data)]. *)
Definition call_readpage (ip : Z) (p : nat) : prog (cache F) Z :=
  i ← get_inode ip;
  cp ← getp p;
  match i_aop i ≫= readpage, cp_data cp with
  | Some f, Some d =>
      r ← on_fs (f ip (cp_index cp) d);
      let '(rc, d') := r in
      updp p (set_data (Some d')) ;;
      mret rc
  | _, _ => fault
  end.

(** The critical section that ends the reading of page [i]. *)
Definition fill_done (source allocated i rc : Z) (p : nat) : prog (cache F) unit :=
  updp p (fun cp => set_flags (clear_flag (cp_flags cp) CACHE_PAGE_FILLING) cp) ;;
  if negb (rc =? 0) then
    updp p (fun cp => set_flags (set_flag (cp_flags cp) CACHE_PAGE_ERROR) (set_error rc cp)) ;;
    page_cache_unhash_locked p
  else
    updp p (fun cp => set_flags (set_flag (cp_flags cp) CACHE_PAGE_UPTODATE) cp) ;;
    if negb (i =? 0) then
      updp p (set_ra (u8 source) (u8 (ra_bucket allocated)) RA_LIFECYCLE_OUTSTANDING) ;;
      stat_add (Stat.admitted_speculative source) 1 ;;
      stat_add (Stat.outstanding source) 1 ;;
      modify (fun s => if cache_stats s (Stat.outstanding_peak source) <? cache_stats s (Stat.outstanding source)
                       then set_stats (<[Stat.outstanding_peak source := cache_stats s (Stat.outstanding source)]>
                                         (cache_stats s)) s
                       else s)
    else mret tt.

Fixpoint fill_loop (ip source allocated : Z) (batch : bool) (batch_rc : Z) (ps : list nat)
    (i admitted demand_error : Z) : act (cache F) (Z * Z) :=
  match ps with
  | [] => mret (admitted, demand_error)
  | p :: ps' =>
      rc ← (if batch then mret batch_rc else atomic (call_readpage ip p));
      atomic (fill_done source allocated i rc p) ;;
      fill_loop ip source allocated batch batch_rc ps' (i + 1)
        (if rc =? 0 then admitted + 1 else admitted)
        (if negb (rc =? 0) && (i =? 0) then rc else demand_error)
  end.

Fixpoint release_pages (ps : list nat) : act (cache F) unit :=
  match ps with
  | [] => mret tt
  | p :: ps' => page_cache_release p ;; release_pages ps'
  end.

(** From the reservation to the return: [p0] is [pages[0]]. *)
Definition fill_pages (ip page_index source : Z) (p0 : nat) (ps : list nat) : act (cache F) (Z * option nat) :=
  let allocated := Z.of_nat (S (length ps)) in
  r ← atomic (call_readpages ip page_index (p0 :: ps));
  let '(batch, batch_rc, st) := r in
  let fallback := (batch_rc =? - ENOMEM) || (batch_rc =? - EOPNOTSUPP) in
  atomic (
    (if batch && fallback then stat_add (Stat.staging_fallbacks source) 1 ;; stat_add Stat.readahead_fallbacks 1
     else mret tt) ;;
    stat_add (Stat.batch_io_commands source) (io_commands st) ;;
    stat_add (Stat.batch_io_sectors source) (io_sectors st) ;;
    stat_add (Stat.fragment_truncations source) (fragment_splits st) ;;
    stat_add Stat.readahead_fragment_truncations (fragment_splits st)) ;;
  r ← fill_loop ip source allocated (batch && negb fallback) batch_rc (p0 :: ps) 0 0 0;
  let '(admitted, demand_error) := r in
  release_pages (if demand_error =? 0 then ps else p0 :: ps) ;;
  if negb (demand_error =? 0) then page_cache_release p0 ;; mret (demand_error, None)
  else
    atomic (
      stat_add (Stat.admitted_demand source) 1 ;;
      stat_add (Stat.admitted_window source (ra_bucket admitted)) 1 ;;
      if 1 <? admitted then stat_add Stat.readahead_batches 1 ;; stat_add Stat.readahead_pages (admitted - 1)
      else mret tt) ;;
    mret (0, Some p0).

(** The body of [page_cache_get_ra]; the second result is [*out], and [again]
    is the recursive call. *)
Definition get_ra_once (again : act (cache F) (Z * option nat)) (ip page_index window_pages source : Z)
    : act (cache F) (Z * option nat) :=
  if (ip =? 0) || (window_pages =? 0) || (PAGE_CACHE_RA_SOURCE_COUNT <=? source) then mret (- EINVAL, None) else
  r ← page_cache_lookup ip page_index;
  match r with
  | Some p => mret (0, Some p)
  | None =>
      i ← atomic (get_inode ip);
      match i_aop i ≫= readpage with
      | None => mret (- EIO, None)
      | Some _ =>
          let window := ra_window i page_index window_pages in
          (if 1 <? window_pages then
             atomic (
               stat_add (Stat.calls source) 1 ;;
               stat_add (Stat.requested_pages source) window_pages ;;
               stat_add (Stat.requested_window source (ra_bucket window_pages)) 1 ;;
               stat_add (Stat.effective_window source (ra_bucket window)) 1)
           else mret tt) ;;
          ps ← atomic (reserve_pages ip page_index source (Z.to_nat window) 0);
          match ps with
          | [] => again
          | p0 :: ps' => fill_pages ip page_index source p0 ps'
          end
      end
  end.

(** Each recursive call takes one unit of fuel. *)
Fixpoint page_cache_get_ra (fuel : nat) (ip page_index window_pages source : Z) : act (cache F) (Z * option nat) :=
  get_ra_once match fuel with O => Spin | S fuel' => page_cache_get_ra fuel' ip page_index 1 source end
    ip page_index window_pages source.

Definition page_cache_fill (fuel : nat) (ip page_index : Z) : act (cache F) (option nat) :=
  r ← page_cache_get_ra fuel ip page_index 1 PAGE_CACHE_RA_READ;
  mret (if r.1 =? 0 then r.2 else None).

Definition page_cache_get (fuel : nat) (ip page_index : Z) : act (cache F) (Z * option nat) :=
  page_cache_get_ra fuel ip page_index 1 PAGE_CACHE_RA_READ.

Definition page_cache_mark_dirty (p : nat) : act (cache F) unit :=
  atomic (updp p (fun cp => set_seq (u32 (dirty_seq cp + 1)) (set_flags (set_flag (cp_flags cp) CACHE_PAGE_DIRTY) cp))).

(** The first critical section of [page_cache_writeback_pages]: the value of
    [dirty_seq] of every page, or nothing when a page is not of this file. *)
Fixpoint wb_begin (ip : Z) (ps : list (option nat)) : prog (cache F) (option (list Z)) :=
  match ps with
  | [] => mret (Some [])
  | None :: _ => mret None
  | Some p :: ps' =>
      cp ← getp p;
      if bool_decide (cp_inode cp = Some ip) && bool_decide (is_Some (cp_data cp)) then
        (if has_flag (cp_flags cp) CACHE_PAGE_DIRTY
         then updp p (fun cp => set_flags (set_flag (cp_flags cp) CACHE_PAGE_WRITEBACK) cp) else mret tt) ;;
        r ← wb_begin ip ps';
        mret (cons (dirty_seq cp) <$> r)
      else mret None
  end.

(** The index and contents of each page, as [writepages] reads them. *)
Fixpoint page_images (ps : list (option nat)) : prog (cache F) (list (Z * list Z)) :=
  match ps with
  | [] => mret []
  | None :: _ => fault
  | Some p :: ps' =>
      cp ← getp p;
      match cp_data cp with
      | None => fault
      | Some d => l ← page_images ps'; mret ((cp_index cp, d) :: l)
      end
  end.

Definition call_writepages (ip : Z) (ps : list (option nat)) : prog (cache F) Z :=
  i ← get_inode ip;
  match i_aop i ≫= writepages with
  | None => fault
  | Some f =>
      l ← page_images ps;
      on_fs (f ip l)
  end.

(** The flags after the writing of a page. *)
Definition wb_flags (rc snapshot : Z) (cp : cache_page) : Z :=
  let flags := clear_flag (cp_flags cp) CACHE_PAGE_WRITEBACK in
  if (rc =? 0) && (dirty_seq cp =? snapshot) then clear_flag flags (Z.lor CACHE_PAGE_DIRTY CACHE_PAGE_ERROR)
  else if negb (rc =? 0) then set_flag flags CACHE_PAGE_ERROR else flags.

Fixpoint wb_end (rc : Z) (ps : list (option nat)) (snapshots : list Z) : prog (cache F) unit :=
  match ps, snapshots with
  | Some p :: ps', sn :: sns => updp p (fun cp => set_flags (wb_flags rc sn cp) cp) ;; wb_end rc ps' sns
  | None :: _, _ => fault
  | _, _ => mret tt
  end.

(** [pages] and [nr_pages]: the list and its length. *)
Definition page_cache_writeback_pages (ps : list (option nat)) : act (cache F) Z :=
  if PAGE_CACHE_RA_MAX_PAGES <? Z.of_nat (length ps) then mret (- EINVAL) else
  match ps with
  | [] | None :: _ => mret (- EINVAL)
  | Some p0 :: _ =>
      cp ← atomic (getp p0);
      match cp_inode cp with
      | None => mret (- EINVAL)
      | Some ip =>
          i ← atomic (get_inode ip);
          match i_aop i ≫= writepages with
          | None => mret (- EOPNOTSUPP)
          | Some _ =>
              r ← atomic (wb_begin ip ps);
              match r with
              | None => mret (- EINVAL)
              | Some snapshots =>
                  rc ← atomic (call_writepages ip ps);
                  atomic (wb_end rc ps snapshots) ;;
                  mret rc
              end
          end
      end
  end.

Definition page_cache_writeback (p : nat) : act (cache F) Z := page_cache_writeback_pages [Some p].

(** Walk a chain and drop the pages of [ip] from it. *)
Fixpoint invalidate_chain (ip : Z) (b : nat) (chain : list nat) : prog (cache F) unit :=
  match chain with
  | [] => mret tt
  | p :: chain' =>
      cp ← getp p;
      if negb (bool_decide (cp_inode cp = Some ip)) then invalidate_chain ip b chain'
      else
        ra_resolve_locked p true ;;
        hash_unlink b p ;;
        lru_remove p ;;
        updp p (fun cp => set_flags (set_flag (cp_flags cp) CACHE_PAGE_INVALID) cp) ;;
        cp ← getp p;
        (if pin_count cp =? 0 then updp p clear_page ;; free_list_push p else mret tt) ;;
        invalidate_chain ip b chain'
  end.

Fixpoint invalidate_buckets (ip : Z) (bs : list nat) : prog (cache F) unit :=
  match bs with
  | [] => mret tt
  | b :: bs' => chain ← bucket b; invalidate_chain ip b chain ;; invalidate_buckets ip bs'
  end.

Definition hash_buckets : list nat := seq 0 (Z.to_nat (Z.shiftl 1 PAGE_CACHE_HASH_BITS)).

Definition page_cache_invalidate_inode (ip : Z) : act (cache F) unit :=
  if ip =? 0 then mret tt else atomic (invalidate_buckets ip hash_buckets).

Fixpoint collect_chain (only_ip : option Z) (chain : list nat) (max : nat) : prog (cache F) (list nat) :=
  match chain, max with
  | [], _ | _, O => mret []
  | p :: chain', S max' =>
      cp ← getp p;
      if has_flag (cp_flags cp) CACHE_PAGE_DIRTY && bool_decide (is_Some (cp_data cp)) &&
         bool_decide (is_Some (cp_inode cp)) &&
         match only_ip with None => true | Some ip => bool_decide (cp_inode cp = Some ip) end
      then
        updp p (fun cp => set_pin (pin_count cp + 1) cp) ;;
        l ← collect_chain only_ip chain' max';
        mret (p :: l)
      else collect_chain only_ip chain' max
  end.

(** The chains are walked one after the other. *)
Definition collect_dirty (only_ip : option Z) (max : nat) : prog (cache F) (list nat) :=
  fun s => collect_chain only_ip (concat (page_cache_hash s)) max s.

Fixpoint flush_pages (ps : list nat) (first_error : Z) : act (cache F) Z :=
  match ps with
  | [] => mret first_error
  | p :: ps' =>
      rc ← page_cache_writeback p;
      page_cache_release p ;;
      flush_pages ps' (if negb (rc =? 0) && (first_error =? 0) then rc else first_error)
  end.

Fixpoint flush_dirty (fuel : nat) (only_ip : option Z) : act (cache F) Z :=
  ps ← atomic (collect_dirty only_ip 64);
  match ps with
  | [] => mret 0
  | _ :: _ =>
      first_error ← flush_pages ps 0;
      if negb (first_error =? 0) then mret first_error
      else match fuel with O => Spin | S fuel' => flush_dirty fuel' only_ip end
  end.

Definition page_cache_flush_all (fuel : nat) : act (cache F) Z := flush_dirty fuel None.
Definition page_cache_flush_inode (fuel : nat) (ip : Z) : act (cache F) Z := flush_dirty fuel (Some ip).

(** [page_cache_init]: at most [n] descriptors, zeroed, on the free list. *)
Fixpoint init_pages (n : nat) : prog (cache F) unit :=
  match n with
  | O => mret tt
  | S n' =>
      m ← kmalloc;
      match m with
      | None => mret tt
      | Some _ =>
          (fun s => let p := length (pages s) in free_list_push p (set_pages (pages s ++ [zero_page]) s)) ;;
          init_pages n'
      end
  end.

Definition page_cache_init : prog (cache F) unit :=
  modify (fun s => set_hash (replicate (length hash_buckets) []) (set_lru [] s)) ;;
  init_pages PAGE_CACHE_SIZE.
End code.
