(* ===== verification/PageCacheInv.v ===== *)
(** * The page cache: invariant and critical sections

    What the lists of [PageCache] hold ([lists_ok]), who uses which page
    ([tok], the resources of [Threads.safe]), the invariant [inv] that ties
    both to the page descriptors, and the effect of every critical section
    on it. *)

From Stdlib Require Import ZArith Lia List.
From stdpp Require Import base list gmap gmultiset relations functions.
From S2P Require Import Prelude Threads PageCache.

Local Open Scope Z_scope.

(** ** Lists

    A page descriptor as the lists see it: the page of a file it holds, if
    any, and whether it was removed from the hash. *)

Definition shape_t : Type := option (Z * Z) * bool.

Definition home (cp : cache_page) : option (Z * Z) :=
  match cp_data cp, cp_inode cp with Some _, Some ip => Some (ip, cp_index cp) | _, _ => None end.

Definition invalid (cp : cache_page) : bool := has_flag (cp_flags cp) CACHE_PAGE_INVALID.
Definition filling (cp : cache_page) : bool := has_flag (cp_flags cp) CACHE_PAGE_FILLING.
Definition dirty (cp : cache_page) : bool := has_flag (cp_flags cp) CACHE_PAGE_DIRTY.
Definition uptodate (cp : cache_page) : bool := has_flag (cp_flags cp) CACHE_PAGE_UPTODATE.

Definition shape (cp : cache_page) : shape_t := (home cp, invalid cp).

Definition key_bucket (k : Z * Z) : nat := bucket_of k.1 k.2.

Record lists_ok (sh : list shape_t) (hash : list (list nat)) (lr fr : list nat) : Prop := {
  lo_len : length hash = 64%nat;
  lo_free_nodup : NoDup fr;
  lo_lru_nodup : NoDup lr;
  lo_free : forall p, p ∈ fr <-> exists b, sh !! p = Some (None, b);
  lo_lru : forall p, p ∈ lr <-> exists k, sh !! p = Some (Some k, false);
  lo_chain : forall b chain, hash !! b = Some chain -> NoDup chain /\
    forall p, p ∈ chain <-> exists k, sh !! p = Some (Some k, false) /\ key_bucket k = b;
  lo_unique : forall p q k, sh !! p = Some (Some k, false) -> sh !! q = Some (Some k, false) -> p = q }.

Lemma bucket_of_lt ip idx : (bucket_of ip idx < 64)%nat.
Proof.
  unfold bucket_of, page_cache_hashfn. cbv zeta.
  set (x := u32 _). change (Z.shiftl 1 PAGE_CACHE_HASH_BITS - 1) with (Z.ones 6).
  rewrite Z.land_ones by lia. pose proof (Z.mod_pos_bound x (2 ^ 6) eq_refl). change (2 ^ 6) with 64 in *. lia.
Qed.

Lemma unlink_notin p l : p ∉ l -> unlink p l = l.
Proof.
  induction l as [| q l IH]; intros Hp; [done |]. cbn. rewrite decide_False by set_solver.
  rewrite IH by set_solver. done.
Qed.

Lemma unlink_filter p l : NoDup l -> unlink p l = filter (fun q => q <> p) l.
Proof.
  induction l as [| q l IH]; intros Hl; [done |]. inversion_clear Hl. cbn [unlink]. rewrite filter_cons.
  destruct (decide (q = p)) as [-> | Hq].
  - rewrite decide_False by tauto. symmetry. rewrite <- IH by done. by apply unlink_notin.
  - rewrite decide_True by done. by rewrite IH.
Qed.

Lemma elem_of_remove (p q : nat) (l : list nat) : q ∈ filter (fun q => q <> p) l <-> q <> p /\ q ∈ l.
Proof. by rewrite list_elem_of_filter. Qed.

Section lists.
Context (sh : list shape_t) (hash : list (list nat)) (lr fr : list nat).
Hypothesis Hlo : lists_ok sh hash lr fr.

Lemma lo_touch p : p ∈ lr -> lists_ok sh hash (p :: filter (fun q => q <> p) lr) fr.
Proof.
  intros Hp. destruct Hlo. split; try done.
  - constructor; [rewrite elem_of_remove; tauto | by apply NoDup_filter].
  - intros q. rewrite elem_of_cons, elem_of_remove, <- lo_lru0. destruct (decide (q = p)); naive_solver.
Qed.

Lemma lo_bound p x : sh !! p = Some x -> (p < length sh)%nat.
Proof. apply lookup_lt_Some. Qed.

(** A page leaves the hash and the LRU list. *)
Lemma lo_drop p k x : sh !! p = Some (Some k, false) -> x.1 = None \/ x.2 = true ->
  lists_ok (<[p := x]> sh) (alter (unlink p) (key_bucket k) hash) (filter (fun q => q <> p) lr)
    (match x.1 with None => p :: fr | Some _ => fr end).
Proof.
  intros Hp Hx. pose proof (lo_bound _ _ Hp) as Hb. destruct Hlo.
  assert (Hpf : p ∉ fr) by (rewrite lo_free0; intros [b Hf]; congruence). split.
  - by rewrite length_alter.
  - destruct (x.1); [done | by constructor].
  - by apply NoDup_filter.
  - intros q. destruct (decide (q = p)) as [-> | Hq].
    + rewrite list_lookup_insert_eq by done. destruct x as [[?|] b]; cbn; [| set_solver].
      split; [done | intros (? & ?); congruence].
    + rewrite list_lookup_insert_ne, <- lo_free0 by done. destruct x.1; set_solver.
  - intros q. rewrite elem_of_remove. destruct (decide (q = p)) as [-> | Hq].
    + rewrite list_lookup_insert_eq by done. split; [tauto |]. intros (k' & ?). destruct x as [? b]; cbn in *.
      simplify_eq. naive_solver.
    + rewrite list_lookup_insert_ne by done. rewrite <- lo_lru0. tauto.
  - intros b chain Hc. destruct (decide (b = key_bucket k)) as [-> | Hbk].
    + rewrite list_lookup_alter_eq in Hc. apply fmap_Some in Hc as (c0 & Hc0 & ->).
      destruct (lo_chain0 _ _ Hc0) as [Hnd Hin]. rewrite unlink_filter by done. split; [by apply NoDup_filter |].
      intros q. rewrite elem_of_remove, Hin. destruct (decide (q = p)) as [-> | Hq].
      * rewrite list_lookup_insert_eq by done. split; [tauto |]. intros (k' & ? & _). destruct x; cbn in *. naive_solver.
      * rewrite list_lookup_insert_ne by done. tauto.
    + rewrite list_lookup_alter_ne in Hc by done. destruct (lo_chain0 _ _ Hc) as [Hnd Hin]. split; [done |].
      intros q. rewrite Hin. destruct (decide (q = p)) as [-> | Hq].
      * rewrite list_lookup_insert_eq by done. destruct x as [? b']; cbn in *. split; intros (k' & ? & ?); naive_solver.
      * by rewrite list_lookup_insert_ne by done.
  - intros q r k'. destruct (decide (q = p)) as [-> | Hq]; [| destruct (decide (r = p)) as [-> | Hr]].
    + rewrite list_lookup_insert_eq by done. destruct x; cbn in *. naive_solver.
    + rewrite (list_lookup_insert_eq sh p) by done. destruct x; cbn in *. naive_solver.
    + rewrite !list_lookup_insert_ne by done. apply lo_unique0.
Qed.

(** A page that nobody uses any more is free. *)
Lemma lo_reclaim p k b : sh !! p = Some (Some k, true) ->
  lists_ok (<[p := (None, b)]> sh) hash lr (p :: fr).
Proof.
  intros Hp. pose proof (lo_bound _ _ Hp) as Hb. destruct Hlo. split; try done.
  - constructor; [| done]. rewrite lo_free0. intros (? & ?). congruence.
  - intros q. rewrite elem_of_cons. destruct (decide (q = p)) as [-> | Hq].
    + rewrite list_lookup_insert_eq by done. naive_solver.
    + rewrite list_lookup_insert_ne, <- lo_free0 by done. naive_solver.
  - intros q. rewrite lo_lru0. destruct (decide (q = p)) as [-> | Hq].
    + rewrite list_lookup_insert_eq by done. split; intros (? & ?); congruence.
    + by rewrite list_lookup_insert_ne by done.
  - intros b' chain Hc. destruct (lo_chain0 _ _ Hc) as [Hnd Hin]. split; [done |].
    intros q. rewrite Hin. destruct (decide (q = p)) as [-> | Hq].
    + rewrite list_lookup_insert_eq by done. split; intros (? & ? & ?); congruence.
    + by rewrite list_lookup_insert_ne by done.
  - intros q r k'. destruct (decide (q = p)) as [-> | Hq]; [| destruct (decide (r = p)) as [-> | Hr]].
    + rewrite list_lookup_insert_eq by done. congruence.
    + rewrite (list_lookup_insert_eq sh p) by done. congruence.
    + rewrite !list_lookup_insert_ne by done. apply lo_unique0.
Qed.

(** A free page takes a page of a file that is not cached. *)
Lemma lo_admit p fr' k : fr = p :: fr' -> (forall q, sh !! q <> Some (Some k, false)) ->
  lists_ok (<[p := (Some k, false)]> sh) (alter (cons p) (key_bucket k) hash) (p :: lr) fr'.
Proof.
  intros Hf Hk. destruct Hlo. rewrite Hf in *.
  assert (Hp : exists b, sh !! p = Some (None, b)) by (apply lo_free0; by left). destruct Hp as [b0 Hp].
  pose proof (lo_bound _ _ Hp) as Hb. inversion lo_free_nodup0 as [| ? ? Hpf Hnd0]; subst.
  assert (Hpl : p ∉ lr) by (rewrite lo_lru0; intros (? & ?); congruence). split.
  - by rewrite length_alter.
  - done.
  - by constructor.
  - intros q. destruct (decide (q = p)) as [-> | Hq].
    + rewrite list_lookup_insert_eq by done. split; [done | intros (? & ?); congruence].
    + rewrite list_lookup_insert_ne, <- lo_free0 by done. set_solver.
  - intros q. rewrite elem_of_cons. destruct (decide (q = p)) as [-> | Hq].
    + rewrite list_lookup_insert_eq by done. naive_solver.
    + rewrite list_lookup_insert_ne, <- lo_lru0 by done. naive_solver.
  - intros b chain Hc. destruct (decide (b = key_bucket k)) as [-> | Hbk].
    + rewrite list_lookup_alter_eq in Hc. apply fmap_Some in Hc as (c0 & Hc0 & ->).
      destruct (lo_chain0 _ _ Hc0) as [Hnd Hin].
      split; [constructor; [rewrite Hin; intros (? & ? & ?); congruence | done] |].
      intros q. rewrite elem_of_cons, Hin. destruct (decide (q = p)) as [-> | Hq].
      * rewrite list_lookup_insert_eq by done. naive_solver.
      * rewrite list_lookup_insert_ne by done. naive_solver.
    + rewrite list_lookup_alter_ne in Hc by done. destruct (lo_chain0 _ _ Hc) as [Hnd Hin]. split; [done |].
      intros q. rewrite Hin. destruct (decide (q = p)) as [-> | Hq].
      * rewrite list_lookup_insert_eq by done. split; intros (? & ? & ?); congruence.
      * by rewrite list_lookup_insert_ne by done.
  - intros q r k'. destruct (decide (q = p)) as [-> | Hq], (decide (r = p)) as [-> | Hr]; [done | ..].
    + rewrite list_lookup_insert_eq, list_lookup_insert_ne by done. intros [= <-] ?. by destruct (Hk r).
    + rewrite list_lookup_insert_eq, list_lookup_insert_ne by done. intros ? [= <-]. by destruct (Hk q).
    + rewrite !list_lookup_insert_ne by done. apply lo_unique0.
Qed.
End lists.

(** ** Tokens

    One token per pin, with what its owner may do with the page: [Fill] and
    [Filled] before and after the contents are read, [Pin] while waiting for
    another thread's read, [Use] afterwards, [Mod] between a store and the
    marking as dirty, [Wb] and [Wbd] during a write before and after the
    transfer, with the value of [dirty_seq] at its start.  A [Credit] is the
    right to one more call of [page_cache_mark_dirty]. *)

Inductive use := Fill | Filled | Pin | Use | Mod | Wb | Wbd.
#[export] Instance use_eq_dec : EqDecision use.
Proof. solve_decision. Defined.

Definition use_code (u : use) : nat :=
  match u with Fill => 0 | Filled => 1 | Pin => 2 | Use => 3 | Mod => 4 | Wb => 5 | Wbd => 6 end%nat.
Definition use_decode (n : nat) : use := nth n [Fill; Filled; Pin; Use; Mod; Wb; Wbd] Fill.
#[export] Instance use_countable : Countable use.
Proof. apply (inj_countable' use_code use_decode). by intros []. Defined.

Inductive tok := Tok (u : use) (p : nat) (k : Z * Z) (sn : Z) | Credit.
#[export] Instance tok_eq_dec : EqDecision tok.
Proof. solve_decision. Defined.
#[export] Instance tok_countable : Countable tok.
Proof.
  apply (inj_countable' (fun t => match t with Tok u p k sn => Some (u, p, k, sn) | Credit => None end)
           (fun x => match x with Some (u, p, k, sn) => Tok u p k sn | None => Credit end)).
  by intros [].
Defined.

Definition on_page (p : nat) (t : tok) : bool :=
  match t with Tok _ q _ _ => bool_decide (q = p) | Credit => false end.
Definition is_use (us : list use) (p : nat) (t : tok) : bool :=
  match t with Tok u q _ _ => bool_decide (u ∈ us) && bool_decide (q = p) | Credit => false end.
Definition is_credit (t : tok) : bool := match t with Credit => true | _ => false end.

Definition count (P : tok -> bool) (h : gmultiset tok) : nat := length (filter (fun t => P t = true) (elements h)).

Definition pins (p : nat) : gmultiset tok -> nat := count (on_page p).
Definition fills (p : nat) : gmultiset tok -> nat := count (is_use [Fill; Filled] p).
Definition filleds (p : nat) : gmultiset tok -> nat := count (is_use [Filled] p).
Definition mods (p : nat) : gmultiset tok -> nat := count (is_use [Mod] p).
Definition credits : gmultiset tok -> nat := count is_credit.

Section counting.
Implicit Types (h o : gmultiset tok) (P : tok -> bool).

Lemma count_union P h o : count P (h ⊎ o) = (count P h + count P o)%nat.
Proof. unfold count. by rewrite gmultiset_elements_disj_union, filter_app, length_app. Qed.

Lemma count_empty P : count P ∅ = 0%nat.
Proof. unfold count. by rewrite gmultiset_elements_empty. Qed.

Lemma count_singleton P t : count P {[+ t +]} = if P t then 1%nat else 0%nat.
Proof. unfold count. rewrite gmultiset_elements_singleton, filter_cons, filter_nil. by destruct (P t). Qed.

Lemma count_pos P h : (0 < count P h)%nat <-> exists t, t ∈ h /\ P t = true.
Proof.
  unfold count. split.
  - destruct (filter (fun t => P t = true) (elements h)) as [| t l] eqn:Hl; cbn; [lia |]. intros _. exists t.
    assert (Hin : t ∈ filter (fun t => P t = true) (elements h)) by (rewrite Hl; by left).
    apply list_elem_of_filter in Hin as [? ?]. split; [by apply gmultiset_elem_of_elements | done].
  - intros (t & Ht & HP). destruct (filter (fun t => P t = true) (elements h)) eqn:Hl; cbn; [| lia].
    assert (Hin : t ∈ filter (fun t => P t = true) (elements h)).
    { apply list_elem_of_filter. split; [done | by apply gmultiset_elem_of_elements]. }
    rewrite Hl in Hin. by apply not_elem_of_nil in Hin.
Qed.

Lemma count_0 P h : (forall t, t ∈ h -> P t = false) -> count P h = 0%nat.
Proof.
  intros Hh. destruct (decide (0 < count P h)%nat) as [Hc | ?]; [| lia].
  apply count_pos in Hc as (t & Ht & HP). rewrite Hh in HP; done.
Qed.

Lemma count_le P Q h : (forall t, P t = true -> Q t = true) -> (count P h <= count Q h)%nat.
Proof.
  intros HPQ. unfold count. induction (elements h) as [| t l IH]; [done |]. rewrite !filter_cons.
  destruct (decide (P t = true)) as [HP | HP], (decide (Q t = true)) as [HQ | HQ]; cbn; [lia | | lia | lia].
  by destruct HQ; apply HPQ.
Qed.

Lemma filleds_fills p h : (filleds p h <= fills p h)%nat.
Proof. apply count_le. intros []; cbn; [| done]. destruct u; done. Qed.

Lemma pins_pos p h u k sn : Tok u p k sn ∈ h -> (0 < pins p h)%nat.
Proof. intros Ht. apply count_pos. exists (Tok u p k sn). split; [done |]. cbn. by case_bool_decide. Qed.
End counting.

#[export] Hint Rewrite count_union count_empty count_singleton : count.

Lemma list_to_set_disj_elem (l : list tok) t : t ∈ (list_to_set_disj l : gmultiset tok) <-> t ∈ l.
Proof.
  induction l as [| x l IH]; [cbn; multiset_solver |]. rewrite list_to_set_disj_cons.
  rewrite gmultiset_elem_of_disj_union, IH, gmultiset_elem_of_singleton, elem_of_cons. done.
Qed.

(** ** The invariant *)

(** The pages of files that can be read. *)
Class HasPages (F : Type) := readable : Z -> Z -> Prop.

Section invariant.
Context {F : Type} `{!HasInodes F} `{!HasPages F}.
(** The contents of the pages on disk, and whether the invariant speaks of
    contents at all (it does when no file is invalidated). *)
Variable disk : F -> Z -> Z -> list Z.
Variable coh : bool.
Implicit Types (s : cache F) (h o T : gmultiset tok) (p : nat) (cp : cache_page).

Record page_ok (f : F) (h : gmultiset tok) (p : nat) (cp : cache_page) : Prop := {
  pk_inode : is_Some (cp_data cp) <-> is_Some (cp_inode cp);
  pk_live : forall ip, cp_inode cp = Some ip -> is_Some (inode_at f ip);
  pk_pin : pin_count cp = Z.of_nat (pins p h);
  pk_orphan : invalid cp = true -> 0 < pin_count cp;
  pk_fill : fills p h = if filling cp then 1%nat else 0%nat;
  pk_uptodate : is_Some (cp_data cp) -> filling cp = false -> uptodate cp = true;
  pk_clean : filling cp = true -> dirty cp = false;
  pk_key : forall k, home cp = Some k -> readable k.1 k.2 }.

(** A token names the page of the file that the descriptor holds; only the
    thread that reads the page, and those who wait for it, have one while the
    page is being filled. *)
Definition tok_ok (cp : cache_page) (u : use) (k : Z * Z) : Prop :=
  home cp = Some k /\ (u ∉ [Fill; Filled; Pin] -> filling cp = false).

Record coherent s h : Prop := {
  co_valid : forall p cp, pages s !! p = Some cp -> invalid cp = false;
  co_data : forall p cp d k, pages s !! p = Some cp -> cp_data cp = Some d -> home cp = Some k ->
    filling cp = false \/ (0 < filleds p h)%nat -> d = written s k.1 k.2;
  co_disk : forall k, disk (fs s) k.1 k.2 = written s k.1 k.2 \/
    exists p cp, pages s !! p = Some cp /\ home cp = Some k /\ filling cp = false /\
      (dirty cp = true \/ (0 < mods p h)%nat);
  co_seq : forall p cp, pages s !! p = Some cp -> is_Some (home cp) ->
    0 <= dirty_seq cp /\ dirty_seq cp + Z.of_nat (credits h) < 2 ^ 32;
  co_snap : forall u p k sn cp, Tok u p k sn ∈ h -> u ∈ [Wb; Wbd] -> pages s !! p = Some cp -> sn <= dirty_seq cp;
  co_wbd : forall p k sn cp, Tok Wbd p k sn ∈ h -> pages s !! p = Some cp ->
    dirty_seq cp <> sn \/ (0 < mods p h)%nat \/ disk (fs s) k.1 k.2 = written s k.1 k.2 }.

Record inv s h : Prop := {
  inv_lists : lists_ok (shape <$> pages s) (page_cache_hash s) (lru s) (free_list s);
  inv_page : forall p cp, pages s !! p = Some cp -> page_ok (fs s) h p cp;
  inv_tok : forall u p k sn, Tok u p k sn ∈ h -> exists cp, pages s !! p = Some cp /\ tok_ok cp u k;
  inv_coh : coh = true -> coherent s h }.

(** What the invariant looks at. *)
Definition core (cp : cache_page) :=
  (cp_inode cp, cp_index cp, cp_data cp, pin_count cp, dirty_seq cp, (invalid cp, filling cp, dirty cp, uptodate cp)).

Lemma core_home cp cp' : core cp = core cp' -> home cp = home cp'.
Proof. unfold core, home. intros [= H1 H2 H3]. by rewrite H1, H2, H3. Qed.

Lemma core_lookup (l l' : list cache_page) p cp' : core <$> l' = core <$> l -> l' !! p = Some cp' ->
  exists cp, l !! p = Some cp /\ core cp' = core cp.
Proof.
  intros He Hl. assert (Hc : (core <$> l) !! p = Some (core cp')) by (rewrite <- He, list_lookup_fmap, Hl; done).
  rewrite list_lookup_fmap in Hc. apply fmap_Some in Hc as (cp & ? & ?). by exists cp.
Qed.

Lemma core_shape (l l' : list cache_page) : core <$> l' = core <$> l -> shape <$> l' = shape <$> l.
Proof.
  intros He. apply list_eq. intros p. rewrite !list_lookup_fmap. destruct (l' !! p) as [cp' |] eqn:Hp.
  - destruct (core_lookup l l' p cp' He Hp) as (cp & -> & Hc). cbn. f_equal. unfold shape.
    rewrite (core_home _ _ Hc). unfold core in Hc. simplify_eq. congruence.
  - assert (length l' = length l) by (rewrite <- (length_fmap core l'), He; apply length_fmap).
    rewrite lookup_ge_None in Hp. by rewrite lookup_ge_None_2 by lia.
Qed.

(** Two states with the same lists and contents. *)
Record same s s' : Prop := {
  sm_core : core <$> pages s' = core <$> pages s;
  sm_hash : page_cache_hash s' = page_cache_hash s;
  sm_lru : lru s' = lru s;
  sm_free : free_list s' = free_list s;
  sm_live : forall ip, is_Some (inode_at (fs s) ip) -> is_Some (inode_at (fs s') ip);
  sm_disk : coh = true -> forall ip idx, disk (fs s') ip idx = disk (fs s) ip idx;
  sm_written : written s' = written s }.

Ltac core_eq Hc := let E := fresh "E" in
  pose proof (core_home _ _ Hc) as E; unfold core in Hc;
  let e1 := fresh "E" in let e2 := fresh "E" in let e3 := fresh "E" in let e4 := fresh "E" in
  let e5 := fresh "E" in let e6 := fresh "E" in let e7 := fresh "E" in let e8 := fresh "E" in let e9 := fresh "E" in
  injection Hc as e1 e2 e3 e4 e5 e6 e7 e8 e9; rewrite ?E, ?e1, ?e2, ?e3, ?e4, ?e5, ?e6, ?e7, ?e8, ?e9.

Lemma page_ok_core f f' h p cp cp' : core cp' = core cp ->
  (forall ip, is_Some (inode_at f ip) -> is_Some (inode_at f' ip)) -> page_ok f h p cp -> page_ok f' h p cp'.
Proof. intros Hc Hl []. split; core_eq Hc; auto. Qed.

Lemma inv_same s s' h : same s s' -> inv s h -> inv s' h.
Proof.
  intros [Hc Hh Hl Hf Hv Hd Hw] [I1 I2 I3 I4].
  assert (Hc' : core <$> pages s = core <$> pages s') by done. split.
  - by rewrite (core_shape _ _ Hc), Hh, Hl, Hf.
  - intros p cp' Hp. destruct (core_lookup _ _ _ _ Hc Hp) as (cp & Hp' & Hcc).
    by eapply page_ok_core; [| | apply I2].
  - intros u p k sn Ht. destruct (I3 _ _ _ _ Ht) as (cp & Hp & Hok).
    destruct (core_lookup _ _ _ _ Hc' Hp) as (cp' & Hp' & Hcc). exists cp'. split; [done |].
    symmetry in Hcc. revert Hok. unfold tok_ok. by core_eq Hcc.
  - intros Hco. destruct (I4 Hco) as [C1 C2 C3 C4 C5 C6]. specialize (Hd Hco). split; rewrite ?Hw.
    + intros p cp' Hp. destruct (core_lookup _ _ _ _ Hc Hp) as (cp & Hp' & Hcc). core_eq Hcc. eauto.
    + intros p cp' d k Hp. destruct (core_lookup _ _ _ _ Hc Hp) as (cp & Hp' & Hcc). core_eq Hcc. eauto.
    + intros k. rewrite Hd. destruct (C3 k) as [? | (p & cp & Hp & Hk & Hfl & Hor)]; [by left | right].
      destruct (core_lookup _ _ _ _ Hc' Hp) as (cp' & Hp' & Hcc). exists p, cp'. symmetry in Hcc. by core_eq Hcc.
    + intros p cp' Hp. destruct (core_lookup _ _ _ _ Hc Hp) as (cp & Hp' & Hcc). core_eq Hcc. eauto.
    + intros u p k sn cp' Ht Hu Hp. destruct (core_lookup _ _ _ _ Hc Hp) as (cp & Hp' & Hcc). core_eq Hcc. eauto.
    + intros p k sn cp' Ht Hp. destruct (core_lookup _ _ _ _ Hc Hp) as (cp & Hp' & Hcc). core_eq Hcc. rewrite Hd. eauto.
Qed.

(** *** A change of one descriptor by the owner of some of its tokens *)

Definition local (p : nat) (T : gmultiset tok) : Prop := forall t, t ∈ T -> on_page p t = true \/ t = Credit.

Record upd_ok (p : nat) (cp cp' : cache_page) (T T' : gmultiset tok) : Prop := {
  up_inode : cp_inode cp' = cp_inode cp;
  up_home : home cp' = home cp;
  up_invalid : invalid cp' = invalid cp;
  up_orphan : invalid cp' = true -> 0 < pin_count cp';
  up_pin : pin_count cp' + Z.of_nat (pins p T) = pin_count cp + Z.of_nat (pins p T');
  up_fill : (fills p T' + (if filling cp then 1 else 0) = fills p T + (if filling cp' then 1 else 0))%nat;
  up_mono : filling cp = false -> filling cp' = false;
  up_uptodate : filling cp' = false -> uptodate cp' = true;
  up_clean : filling cp' = true -> dirty cp' = false;
  up_tok : forall u k sn, Tok u p k sn ∈ T' -> tok_ok cp' u k }.

Lemma local_count (P : tok -> bool) p T : local p T ->
  (forall t, on_page p t = true \/ t = Credit -> P t = false) -> count P T = 0%nat.
Proof. intros Hl HP. apply count_0. intros t Ht. apply HP, Hl, Ht. Qed.

Lemma local_other p q T us : local p T -> q <> p -> pins q T = 0%nat /\ count (is_use us q) T = 0%nat.
Proof.
  intros Hl Hq. split; apply (local_count _ p); try done; intros [u q' k sn |] Ht; cbn in *; try done;
    destruct Ht as [Ht | Ht]; try done; apply bool_decide_eq_true in Ht; subst.
  - by rewrite bool_decide_eq_false.
  - rewrite (bool_decide_eq_false_2 (p = q)) by done. apply andb_false_r.
Qed.

Lemma local_tok p q T u k sn : local p T -> Tok u q k sn ∈ T -> q = p.
Proof. intros Hl Ht. destruct (Hl _ Ht) as [Hp | Hp]; [| done]. by apply bool_decide_eq_true in Hp. Qed.

Lemma count_change (P : tok -> bool) T T' o n n' :
  (count P T' + n = count P T + n')%nat -> (count P (T ⊎ o) = n)%nat -> (count P (T' ⊎ o) = n')%nat.
Proof. rewrite !count_union. lia. Qed.

Record pages_upd s s' (p : nat) (cp' : cache_page) : Prop := {
  pu_pages : pages s' = <[p := cp']> (pages s);
  pu_hash : page_cache_hash s' = page_cache_hash s;
  pu_lru : lru s' = lru s;
  pu_free : free_list s' = free_list s;
  pu_fs : fs s' = fs s }.

Lemma inv_upd s s' p cp cp' T T' o : inv s (T ⊎ o) -> pages s !! p = Some cp -> is_Some (home cp) ->
  local p T -> local p T' -> upd_ok p cp cp' T T' -> pages_upd s s' p cp' ->
  (coh = true -> coherent s (T ⊎ o) -> coherent s' (T' ⊎ o)) -> inv s' (T' ⊎ o).
Proof.
  intros [I1 I2 I3 I4] Hp Hh HT HT' Hu [Hpg Hha Hlr Hfr Hfs] Hco.
  pose proof (lookup_lt_Some _ _ _ Hp) as Hb. destruct (I2 p cp Hp). destruct Hu. split.
  - rewrite Hpg, Hha, Hlr, Hfr, list_fmap_insert. rewrite list_insert_id; [done |].
    rewrite list_lookup_fmap, Hp. cbn. unfold shape. by rewrite up_home0, up_invalid0.
  - intros q cq Hq. rewrite Hpg in Hq. rewrite Hfs. destruct (decide (q = p)) as [-> | Hqp].
    + rewrite list_lookup_insert_eq in Hq by done. simplify_eq. split; try done.
      * rewrite up_inode0, <- pk_inode0. unfold home in *. destruct (cp_data cq), (cp_inode cq), (cp_data cp), (cp_inode cp); naive_solver.
      * by rewrite up_inode0.
      * unfold pins in *. rewrite count_union in *. lia.
      * eapply count_change; [| exact pk_fill0]. done.
      * rewrite up_home0. exact pk_key0.
    + rewrite list_lookup_insert_ne in Hq by done. destruct (I2 q cq Hq).
      destruct (local_other p q T [Fill; Filled] HT Hqp), (local_other p q T' [Fill; Filled] HT' Hqp).
      split; try done; unfold pins, fills in *; rewrite count_union in *; congruence.
  - intros u q k sn Ht. rewrite Hpg. apply gmultiset_elem_of_disj_union in Ht as [Ht | Ht].
    + assert (q = p) as -> by eauto using local_tok. exists cp'. rewrite list_lookup_insert_eq by done. split; [done | eauto].
    + destruct (I3 u q k sn) as (cq & Hq & Hok); [by apply gmultiset_elem_of_disj_union; right |].
      destruct (decide (q = p)) as [-> | Hqp].
      * exists cp'. rewrite list_lookup_insert_eq by done. split; [done |]. destruct Hok as [Hk Hf]. simplify_eq.
        split; [congruence | auto].
      * exists cq. by rewrite list_lookup_insert_ne.
  - auto.
Qed.

(** The part on contents, when neither the disk nor the history changes. *)
Record upd_coh s (p : nat) (cp cp' : cache_page) (T T' o : gmultiset tok) : Prop := {
  uc_credits : (credits T' <= credits T)%nat;
  uc_data : forall d k, cp_data cp' = Some d -> home cp' = Some k ->
    filling cp' = false \/ (0 < filleds p (T' ⊎ o))%nat -> d = written s k.1 k.2;
  uc_disk : forall k, home cp = Some k -> filling cp = false -> dirty cp = true \/ (0 < mods p (T ⊎ o))%nat ->
    disk (fs s) k.1 k.2 = written s k.1 k.2 \/ filling cp' = false /\ (dirty cp' = true \/ (0 < mods p (T' ⊎ o))%nat);
  uc_seq : dirty_seq cp <= dirty_seq cp' /\
    dirty_seq cp' + Z.of_nat (credits T') <= dirty_seq cp + Z.of_nat (credits T);
  uc_snap : forall u k sn, Tok u p k sn ∈ T' -> u ∈ [Wb; Wbd] -> sn <= dirty_seq cp';
  uc_wbd : forall k sn, home cp = Some k -> Tok Wbd p k sn ∈ T' ⊎ o ->
    dirty_seq cp' <> sn \/ (0 < mods p (T' ⊎ o))%nat \/ disk (fs s) k.1 k.2 = written s k.1 k.2 }.

Lemma coherent_upd s s' p cp cp' T T' o : inv s (T ⊎ o) -> pages s !! p = Some cp ->
  local p T -> local p T' -> upd_ok p cp cp' T T' -> pages_upd s s' p cp' -> written s' = written s ->
  upd_coh s p cp cp' T T' o -> coherent s (T ⊎ o) -> coherent s' (T' ⊎ o).
Proof.
  intros [_ _ I3 _] Hp HT HT' Hu [Hpg Hha Hlr Hfr Hfs] Hw Hc [C1 C2 C3 C4 C5 C6].
  pose proof (lookup_lt_Some _ _ _ Hp) as Hb. destruct Hu, Hc.
  assert (Hoth : forall q us, q <> p -> count (is_use us q) (T' ⊎ o) = count (is_use us q) (T ⊎ o)).
  { intros q us Hqp. rewrite !count_union. destruct (local_other p q T us HT Hqp), (local_other p q T' us HT' Hqp). lia. }
  assert (Hpages : forall q cq, pages s' !! q = Some cq -> q = p /\ cq = cp' \/ q <> p /\ pages s !! q = Some cq).
  { intros q cq Hq. rewrite Hpg in Hq. destruct (decide (q = p)) as [-> | Hqp]; [left | right].
    - rewrite list_lookup_insert_eq in Hq by done. by simplify_eq.
    - by rewrite list_lookup_insert_ne in Hq by done. }
  split; rewrite ?Hw, ?Hfs.
  - intros q cq [[-> ->] | [Hqp Hq]]%Hpages; [| eauto]. rewrite up_invalid0. eauto.
  - intros q cq d k [[-> ->] | [Hqp Hq]]%Hpages; [auto |]. unfold filleds. rewrite Hoth by done. eauto.
  - intros k. destruct (C3 k) as [? | (q & cq & Hq & Hk & Hf & Hor)]; [by left |].
    destruct (decide (q = p)) as [-> | Hqp].
    + simplify_eq. destruct (uc_disk0 k Hk Hf Hor) as [? | [? ?]]; [by left | right].
      exists p, cp'. rewrite Hpg, list_lookup_insert_eq by done. split_and!; try done. by rewrite up_home0.
    + right. exists q, cq. rewrite Hpg, list_lookup_insert_ne by done. unfold mods. by rewrite Hoth.
  - intros q cq [[-> ->] | [Hqp Hq]]%Hpages Hk; unfold credits in *; rewrite count_union in *.
    + rewrite up_home0 in Hk. specialize (C4 _ _ Hp Hk). lia.
    + specialize (C4 _ _ Hq Hk). lia.
  - intros u q k sn cq Ht Hus Hq. apply gmultiset_elem_of_disj_union in Ht as [Ht | Ht].
    + assert (q = p) as -> by eauto using local_tok. destruct (Hpages _ _ Hq) as [[_ ->] | [? _]]; [eauto | done].
    + assert (Hin : Tok u q k sn ∈ T ⊎ o) by (apply gmultiset_elem_of_disj_union; by right).
      destruct (Hpages _ _ Hq) as [[-> ->] | [Hqp Hq']]; [| eauto]. specialize (C5 _ _ _ _ _ Hin Hus Hp). lia.
  - intros q k sn cq Ht Hq. destruct (Hpages _ _ Hq) as [[-> ->] | [Hqp Hq']].
    + apply uc_wbd0; [| done]. apply gmultiset_elem_of_disj_union in Ht as [Ht | Ht].
      * rewrite <- up_home0. by destruct (up_tok0 _ _ _ Ht).
      * destruct (I3 Wbd p k sn) as (c0 & Hc0 & [? _]); [by apply gmultiset_elem_of_disj_union; right | by simplify_eq].
    + unfold mods. rewrite Hoth by done. apply (C6 q k sn cq); [| done].
      apply gmultiset_elem_of_disj_union in Ht as [Ht | Ht]; [| by apply gmultiset_elem_of_disj_union; right].
      by destruct Hqp; eauto using local_tok.
Qed.

(** *** Changes of the lists *)

Lemma inv_touch s h p : inv s h -> p ∈ lru s -> inv (set_lru (p :: filter (fun q => q <> p) (lru s)) s) h.
Proof.
  intros [I1 I2 I3 I4] Hp. split; [by apply lo_touch | done | done |]. intros Hc. destruct (I4 Hc). by split.
Qed.

(** A descriptor changes together with the lists it is on. *)
Lemma inv_relist s s' p cp' T T' o : inv s (T ⊎ o) -> (p < length (pages s))%nat -> local p T -> local p T' ->
  pages s' = <[p := cp']> (pages s) -> fs s' = fs s ->
  lists_ok (<[p := shape cp']> (shape <$> pages s)) (page_cache_hash s') (lru s') (free_list s') ->
  page_ok (fs s) (T' ⊎ o) p cp' ->
  (forall u k sn, Tok u p k sn ∈ T' ⊎ o -> tok_ok cp' u k) ->
  (coh = true -> coherent s (T ⊎ o) -> coherent s' (T' ⊎ o)) -> inv s' (T' ⊎ o).
Proof.
  intros [I1 I2 I3 I4] Hb HT HT' Hpg Hfs Hl Hpk Htk Hco. split.
  - by rewrite Hpg, list_fmap_insert.
  - intros q cq Hq. rewrite Hpg in Hq. rewrite Hfs. destruct (decide (q = p)) as [-> | Hqp].
    + rewrite list_lookup_insert_eq in Hq by done. by simplify_eq.
    + rewrite list_lookup_insert_ne in Hq by done. destruct (I2 q cq Hq).
      destruct (local_other p q T [Fill; Filled] HT Hqp), (local_other p q T' [Fill; Filled] HT' Hqp).
      split; try done; unfold pins, fills in *; rewrite count_union in *; congruence.
  - intros u q k sn Ht. rewrite Hpg. destruct (decide (q = p)) as [-> | Hqp].
    + exists cp'. rewrite list_lookup_insert_eq by done. split; [done | eauto].
    + rewrite list_lookup_insert_ne by done. apply (I3 u q k sn).
      apply gmultiset_elem_of_disj_union in Ht as [Ht | Ht]; [| by apply gmultiset_elem_of_disj_union; right].
      by destruct Hqp; eauto using local_tok.
  - auto.
Qed.

Lemma no_tok s h p : inv s h -> pins p h = 0%nat -> forall u k sn, Tok u p k sn ∉ h.
Proof. intros _ Hp u k sn Ht. pose proof (pins_pos _ _ _ _ _ Ht). lia. Qed.

Lemma no_use p h us : pins p h = 0%nat -> count (is_use us p) h = 0%nat.
Proof.
  intros Hp. enough (count (is_use us p) h <= pins p h)%nat by lia. apply count_le.
  intros [u q k sn |]; cbn; [| done]. by intros [_ ?]%andb_true_iff.
Qed.

Lemma local_empty p : local p ∅.
Proof. intros t Ht. multiset_solver. Qed.

Lemma local_singleton p u k sn : local p {[+ Tok u p k sn +]}.
Proof. intros t ->%gmultiset_elem_of_singleton. left. cbn. by case_bool_decide. Qed.

Definition retire_page (k : Z * Z) (p : nat) s : cache F :=
  set_free (p :: free_list s) (free_count s + 1)
    (set_pages (alter clear_page p (pages s))
      (set_lru (filter (fun q => q <> p) (lru s))
        (set_hash (alter (unlink p) (key_bucket k) (page_cache_hash s)) s))).

Lemma shape_lookup s p cp x b : pages s !! p = Some cp -> home cp = x -> invalid cp = b ->
  (shape <$> pages s) !! p = Some (x, b).
Proof. intros Hp <- <-. by rewrite list_lookup_fmap, Hp. Qed.

Lemma alter_insert_page s p cp f : pages s !! p = Some cp -> alter f p (pages s) = <[p := f cp]> (pages s).
Proof.
  intros Hp. apply list_eq. intros q. destruct (decide (q = p)) as [-> | Hq].
  - rewrite list_lookup_alter_eq, Hp, list_lookup_insert_eq by (by eapply lookup_lt_Some). done.
  - by rewrite list_lookup_alter_ne, list_lookup_insert_ne.
Qed.

(** A page without tokens leaves the cache; with contents to be kept it must
    be clean. *)
Lemma inv_retire s h p cp k : inv s h -> pages s !! p = Some cp -> home cp = Some k -> invalid cp = false ->
  pins p h = 0%nat -> (coh = true -> dirty cp = false) -> inv (retire_page k p s) h.
Proof.
  intros Hi Hp Hk Hv Hpin Hd. pose proof (lookup_lt_Some _ _ _ Hp) as Hb.
  pose proof (inv_page _ _ Hi p cp Hp) as Hpk. replace h with ((∅ : gmultiset tok) ⊎ h) by multiset_solver.
  eapply inv_relist with (T := ∅) (p := p) (cp' := clear_page cp);
    [by replace (∅ ⊎ h) with h by multiset_solver | done | apply local_empty | apply local_empty
    | exact (alter_insert_page _ _ _ _ Hp) | done | | | |].
  - exact (lo_drop _ _ _ _ (inv_lists _ _ Hi) p k (shape (clear_page cp)) (shape_lookup _ _ _ _ _ Hp Hk Hv) (or_introl eq_refl)).
  - destruct Hpk. rewrite Hpin in pk_pin0. replace (∅ ⊎ h) with h by multiset_solver.
    split; cbn; [by split; intros [] | done | by rewrite Hpin | done | by apply no_use | by intros [] | done | done].
  - intros u k' sn Ht. replace (∅ ⊎ h) with h in Ht by multiset_solver. by destruct (no_tok _ _ _ Hi Hpin u k' sn).
  - intros Hc. replace (∅ ⊎ h) with h by multiset_solver. intros [C1 C2 C3 C4 C5 C6].
    assert (Hpg : forall q cq, pages (retire_page k p s) !! q = Some cq ->
      q = p /\ cq = clear_page cp \/ q <> p /\ pages s !! q = Some cq).
    { intros q cq. cbn. destruct (decide (q = p)) as [-> | Hq]; [rewrite list_lookup_alter_eq, Hp; naive_solver |].
      rewrite list_lookup_alter_ne by done. naive_solver. }
    assert (Hne : forall u q k' sn, Tok u q k' sn ∈ h -> q <> p).
    { intros u q k' sn Ht ->. by destruct (no_tok _ _ _ Hi Hpin u k' sn). }
    split; cbn.
    + intros q cq [[-> ->] | [Hqp Hq]]%Hpg; [done | eauto].
    + intros q cq d k' [[-> ->] | [Hqp Hq]]%Hpg; [done | eauto].
    + intros k'. destruct (C3 k') as [? | (q & cq & Hq & Hk' & Hf & Hor)]; [by left | right].
      assert (Hqp : q <> p). { intros ->. simplify_eq. unfold mods in Hor. rewrite no_use in Hor by done.
        rewrite Hd in Hor by done. destruct Hor; [done | lia]. }
      exists q, cq. rewrite list_lookup_alter_ne by done. done.
    + intros q cq [[-> ->] | [Hqp Hq]]%Hpg; [by intros [] | eauto].
    + intros u q k' sn cq Ht Hu [[-> ->] | [Hqp Hq]]%Hpg; [by destruct (Hne _ _ _ _ Ht) | eauto].
    + intros q k' sn cq Ht [[-> ->] | [Hqp Hq]]%Hpg; [by destruct (Hne _ _ _ _ Ht) | eauto].
Qed.

(** Tokens of these kinds come and go without a change of contents. *)
Definition plain (us : list use) (p : nat) (T : gmultiset tok) : Prop :=
  forall t, t ∈ T -> exists u k sn, t = Tok u p k sn /\ u ∈ us.

Lemma plain_local us p T : plain us p T -> local p T.
Proof. intros HT t Ht. destruct (HT t Ht) as (u & k & sn & -> & _). left. cbn. by case_bool_decide. Qed.

Lemma plain_count us vs p T q : plain us p T -> (forall u, u ∈ us -> u ∉ vs) -> count (is_use vs q) T = 0%nat.
Proof.
  intros HT Hd. apply count_0. intros t Ht. destruct (HT t Ht) as (u & k & sn & -> & Hu). cbn.
  rewrite bool_decide_eq_false_2; [done | auto].
Qed.

Lemma plain_credits us p T : plain us p T -> credits T = 0%nat.
Proof. intros HT. apply count_0. intros t Ht. by destruct (HT t Ht) as (u & k & sn & -> & Hu). Qed.

Lemma plain_empty us p : plain us p ∅.
Proof. intros t Ht. multiset_solver. Qed.

Lemma plain_singleton us p u k sn : u ∈ us -> plain us p {[+ Tok u p k sn +]}.
Proof. intros Hu t ->%gmultiset_elem_of_singleton. eauto. Qed.

Lemma upd_coh_plain s p cp cp' T T' o : coherent s (T ⊎ o) -> pages s !! p = Some cp -> home cp' = home cp ->
  plain [Pin; Use; Wb; Wbd] p T -> plain [Pin; Use; Wb] p T' ->
  cp_data cp' = cp_data cp -> filling cp' = filling cp -> dirty cp' = dirty cp -> dirty_seq cp' = dirty_seq cp ->
  (forall k sn, Tok Wb p k sn ∈ T' -> sn <= dirty_seq cp) -> upd_coh s p cp cp' T T' o.
Proof.
  intros [C1 C2 C3 C4 C5 C6] Hp Hh HT HT' Hd Hf Hdi Hs Hsn.
  assert (Hm : forall vs, (forall u, u ∈ [Pin; Use; Wb; Wbd] -> u ∉ vs) ->
    count (is_use vs p) (T' ⊎ o) = count (is_use vs p) (T ⊎ o)).
  { intros vs Hvs. rewrite !count_union. rewrite (plain_count _ _ _ _ _ HT Hvs).
    rewrite (plain_count _ vs _ _ _ HT'); [done | set_solver]. }
  split; unfold filleds, mods in *; rewrite ?Hs, ?Hf, ?Hdi, ?Hd, ?Hh; rewrite ?Hm by set_solver.
  - by rewrite (plain_credits _ _ _ HT), (plain_credits _ _ _ HT').
  - intros d k. eauto.
  - intros k Hk Hfl Hor. auto.
  - rewrite (plain_credits _ _ _ HT), (plain_credits _ _ _ HT'). lia.
  - intros u k sn Ht Hu. destruct (HT' _ Ht) as (u' & k' & sn' & [= <- <- <-] & Hu'). assert (u = Wb) as -> by set_solver. eauto.
  - intros k sn Hk Ht. apply (C6 p k sn cp); [| done]. apply gmultiset_elem_of_disj_union in Ht as [Ht | Ht].
    + destruct (HT' _ Ht) as (u' & k' & sn' & [= <- <- <-] & Hu'). set_solver.
    + apply gmultiset_elem_of_disj_union. by right.
Qed.

Lemma inv_plain s s' p cp cp' T T' o : inv s (T ⊎ o) -> pages s !! p = Some cp -> is_Some (home cp) ->
  plain [Pin; Use; Wb; Wbd] p T -> plain [Pin; Use; Wb] p T' -> pages_upd s s' p cp' -> written s' = written s ->
  cp_inode cp' = cp_inode cp -> cp_index cp' = cp_index cp -> cp_data cp' = cp_data cp ->
  invalid cp' = invalid cp -> filling cp' = filling cp -> dirty cp' = dirty cp -> uptodate cp' = uptodate cp ->
  dirty_seq cp' = dirty_seq cp -> (invalid cp' = true -> 0 < pin_count cp') ->
  pin_count cp' + Z.of_nat (pins p T) = pin_count cp + Z.of_nat (pins p T') ->
  (forall u k sn, Tok u p k sn ∈ T' -> tok_ok cp u k) ->
  (coh = true -> forall k sn, Tok Wb p k sn ∈ T' -> sn <= dirty_seq cp) ->
  inv s' (T' ⊎ o).
Proof.
  intros Hi Hp Hh HT HT' Hpu Hw E1 E2 E3 E4 E5 E6 E7 E8 Ho Hpin Htk Hsn.
  assert (Ehome : home cp' = home cp) by (unfold home; by rewrite E1, E2, E3).
  assert (Hu : upd_ok p cp cp' T T').
  { destruct (inv_page _ _ Hi p cp Hp). split; try done.
    - unfold fills. rewrite (plain_count _ [Fill; Filled] _ _ _ HT), (plain_count _ [Fill; Filled] _ _ _ HT') by set_solver.
      by rewrite E5.
    - by rewrite E5.
    - rewrite E5, E7. apply pk_uptodate0. destruct Hh as [k Hk]. unfold home in Hk. by destruct (cp_data cp).
    - by rewrite E5, E6.
    - intros u k sn Ht. destruct (Htk _ _ _ Ht). split; [by rewrite Ehome | by rewrite E5]. }
  pose proof (plain_local _ _ _ HT) as HL. pose proof (plain_local _ _ _ HT') as HL'.
  apply (inv_upd s s' p cp cp' T T' o); try done. intros Hc Hco.
  apply (coherent_upd s s' p cp cp' T T' o); try done. apply upd_coh_plain; try done. by apply Hsn.
Qed.

Definition orphan_page (k : Z * Z) (p : nat) s : cache F :=
  set_pages (alter (fun cp => set_flags (set_flag (cp_flags cp) CACHE_PAGE_INVALID) cp) p (pages s))
    (set_lru (filter (fun q => q <> p) (lru s))
      (set_hash (alter (unlink p) (key_bucket k) (page_cache_hash s)) s)).

(** A page in use leaves the hash: its owners keep it. *)
Lemma inv_orphan s h p cp k : coh = false -> inv s h -> pages s !! p = Some cp -> home cp = Some k ->
  invalid cp = false -> (0 < pins p h)%nat -> inv (orphan_page k p s) h.
Proof.
  intros Hc Hi Hp Hk Hv Hpin. pose proof (lookup_lt_Some _ _ _ Hp) as Hb.
  pose proof (inv_page _ _ Hi p cp Hp) as Hpk. assert (Hh : h = (∅ : gmultiset tok) ⊎ h) by multiset_solver.
  rewrite Hh. set (cp' := set_flags (set_flag (cp_flags cp) CACHE_PAGE_INVALID) cp).
  assert (Ef : forall m, Z.land CACHE_PAGE_INVALID m = 0 -> has_flag (cp_flags cp') m = has_flag (cp_flags cp) m).
  { intros m Hm. cbn. rewrite has_flag_set. unfold has_flag at 2. rewrite Hm. apply orb_false_r. }
  eapply inv_relist with (T := ∅) (p := p) (cp' := cp');
    [by rewrite <- Hh | done | apply local_empty | apply local_empty | exact (alter_insert_page _ _ _ _ Hp) | done | | | | by rewrite Hc].
  - assert (Hsh : shape cp' = (Some k, true)) by (unfold shape, invalid; cbn; flags; by f_equal).
    rewrite Hsh. apply (lo_drop _ _ _ _ (inv_lists _ _ Hi) p k (Some k, true) (shape_lookup _ _ _ _ _ Hp Hk Hv)). by right.
  - rewrite <- Hh. destruct Hpk. split; unfold filling, dirty, uptodate; rewrite ?Ef by done; try done. cbn. lia.
  - intros u k' sn Ht. rewrite <- Hh in Ht. destruct (inv_tok _ _ Hi _ _ _ _ Ht) as (c0 & ? & Hok). simplify_eq.
    destruct Hok. split; [done |]. unfold filling. by rewrite Ef.
Qed.

Definition reclaim_page (p : nat) s : cache F :=
  set_free (p :: free_list s) (free_count s + 1)
    (set_pages (alter (fun cp => clear_page (set_pin 0 cp)) p (pages s)) s).

(** The last owner of a page that left the hash gives it back. *)
Lemma inv_reclaim s o p cp u k sn : inv s ({[+ Tok u p k sn +]} ⊎ o) -> pages s !! p = Some cp ->
  invalid cp = true -> pins p o = 0%nat -> inv (reclaim_page p s) o.
Proof.
  intros Hi Hp Hv Hpin. pose proof (lookup_lt_Some _ _ _ Hp) as Hb. assert (Ho : o = (∅ : gmultiset tok) ⊎ o) by multiset_solver.
  destruct (inv_tok _ _ Hi u p k sn) as (c0 & Hc0 & Hk & _); [multiset_solver |]. simplify_eq.
  assert (Hc : coh = false). { destruct coh eqn:Hc; [| done]. pose proof (co_valid _ _ (inv_coh _ _ Hi Hc) _ _ Hp). congruence. }
  rewrite Ho. eapply inv_relist with (p := p) (cp' := clear_page (set_pin 0 cp));
    [exact Hi | done | apply local_singleton | apply local_empty | exact (alter_insert_page _ _ _ _ Hp) | done | | | | by rewrite Hc].
  - apply (lo_reclaim _ _ _ _ (inv_lists _ _ Hi) p k). by eapply shape_lookup.
  - rewrite <- Ho. split; cbn; [by split; intros [] | done | by rewrite Hpin | done | by apply no_use | by intros [] | done | done].
  - intros u' k' sn' Ht. rewrite <- Ho in Ht. pose proof (pins_pos _ _ _ _ _ Ht). lia.
Qed.

(** A free descriptor holds a page that is not cached and is about to be read. *)
Definition admit_state (ip idx : Z) (ra : bool) (d : list Z) (p : nat) s : cache F :=
  set_lru (p :: lru s)
    (set_hash (alter (cons p) (bucket_of ip idx) (page_cache_hash s))
      (set_pages (alter (admit_page ip idx ra d) p (pages s)) s)).

Lemma inv_free_page s h p cp : inv s h -> pages s !! p = Some cp -> p ∈ free_list s -> home cp = None /\ pins p h = 0%nat.
Proof.
  intros Hi Hp Hf. apply (lo_free _ _ _ _ (inv_lists _ _ Hi)) in Hf as [b Hs].
  rewrite list_lookup_fmap, Hp in Hs. cbn in Hs. injection Hs as Hh _. split; [done |].
  destruct (decide (0 < pins p h)%nat) as [Hc | ?]; [| lia]. apply count_pos in Hc as ([u q k sn |] & Ht & Hq); [| done].
  apply bool_decide_eq_true in Hq. subst q. destruct (inv_tok _ _ Hi _ _ _ _ Ht) as (c0 & ? & Hk & _). by simplify_eq.
Qed.

Lemma inv_admit s o p fr ip idx ra d : inv (set_free (p :: fr) (free_count s + 1) s) o -> is_Some (inode_at (fs s) ip) ->
  readable ip idx -> free_list s = fr ->
  (forall q cq, pages s !! q = Some cq -> home cq = Some (ip, idx) -> invalid cq = true) ->
  (coh = true -> Z.of_nat (credits o) < 2 ^ 32) ->
  inv (admit_state ip idx ra d p s) ({[+ Tok Fill p (ip, idx) 0 +]} ⊎ o).
Proof.
  intros Hi Hlive Hrd <- Hnew Hcr. set (s0 := set_free _ _ _) in Hi.
  assert (Hin : p ∈ free_list s0) by (by left).
  assert (Hp : exists cp, pages s !! p = Some cp).
  { apply (lo_free _ _ _ _ (inv_lists _ _ Hi)) in Hin as [b Hs]. rewrite list_lookup_fmap in Hs.
    apply fmap_Some in Hs as (cp & ? & _). by exists cp. }
  destruct Hp as [cp Hp]. pose proof (lookup_lt_Some _ _ _ Hp) as Hb.
  destruct (inv_free_page s0 o p cp Hi Hp Hin) as [Hh Hpin].
  assert (Ho : o = (∅ : gmultiset tok) ⊎ o) by multiset_solver. set (cp' := admit_page ip idx ra d cp).
  assert (Ef : forall m, Z.land CACHE_PAGE_READAHEAD m = 0 -> has_flag (cp_flags cp') m = has_flag CACHE_PAGE_FILLING m).
  { intros m Hm. unfold cp', admit_page. cbn. change (Z.lor CACHE_PAGE_FILLING ?x) with (set_flag CACHE_PAGE_FILLING x).
    rewrite has_flag_set. destruct ra; [unfold has_flag at 2; rewrite Hm |]; apply orb_false_r. }
  assert (Hone : forall us q, count (is_use us q) ({[+ Tok Fill p (ip, idx) 0 +]} ⊎ o) =
     ((if bool_decide (Fill ∈ us) && bool_decide (p = q) then 1 else 0) + count (is_use us q) o)%nat).
  { intros us q. by rewrite count_union, count_singleton. }
  eapply inv_relist with (s := s0) (T := ∅) (p := p) (cp' := cp');
    [by rewrite <- Ho | done | apply local_empty | apply local_singleton | exact (alter_insert_page _ _ _ _ Hp) | done | | | |].
  - assert (Hsh : shape cp' = (Some (ip, idx), false)) by (unfold shape, invalid; by rewrite Ef).
    rewrite Hsh. apply (lo_admit _ _ _ _ (inv_lists _ _ Hi) p (free_list s) (ip, idx)); [done |].
    intros q Hq. rewrite list_lookup_fmap in Hq. apply fmap_Some in Hq as (cq & Hq & Hs). unfold shape in Hs.
    injection Hs as Hk Hv. symmetry in Hk, Hv. rewrite (Hnew q cq Hq Hk) in Hv. done.
  - split; unfold invalid, filling, dirty, uptodate, fills, pins; rewrite ?Ef by done; rewrite ?Hone, ?count_union, ?count_singleton.
    + done.
    + intros ip' [= <-]. done.
    + unfold pins in Hpin. rewrite Hpin. cbn. rewrite bool_decide_eq_true_2 by done. done.
    + done.
    + rewrite no_use by done. rewrite !bool_decide_eq_true_2 by (set_solver || done). done.
    + done.
    + done.
    + intros k [= <-]. done.
  - intros u k sn Ht. apply gmultiset_elem_of_disj_union in Ht as [Ht | Ht].
    + apply gmultiset_elem_of_singleton in Ht. simplify_eq. split; [done |]. intros Hu. destruct Hu. set_solver.
    + pose proof (pins_pos _ _ _ _ _ Ht). lia.
  - intros Hc. rewrite <- Ho. intros [C1 C2 C3 C4 C5 C6].
    assert (Hpg : forall q cq, pages (admit_state ip idx ra d p s) !! q = Some cq ->
      q = p /\ cq = cp' \/ q <> p /\ pages s0 !! q = Some cq).
    { intros q cq. cbn. destruct (decide (q = p)) as [-> | Hq]; [rewrite list_lookup_alter_eq, Hp; naive_solver |].
      rewrite list_lookup_alter_ne by done. naive_solver. }
    assert (Hne : forall u q k' sn, Tok u q k' sn ∈ o -> q <> p).
    { intros u q k' sn Ht ->. pose proof (pins_pos _ _ _ _ _ Ht). lia. }
    assert (Hto : forall u q k' sn, u <> Fill -> Tok u q k' sn ∈ {[+ Tok Fill p (ip, idx) 0 +]} ⊎ o -> Tok u q k' sn ∈ o).
    { intros u q k' sn Hu [Ht | Ht]%gmultiset_elem_of_disj_union; [| done]. apply gmultiset_elem_of_singleton in Ht. by simplify_eq. }
    assert (Hmod : forall us q, Fill ∉ us -> count (is_use us q) ({[+ Tok Fill p (ip, idx) 0 +]} ⊎ o) = count (is_use us q) o).
    { intros us q Hus. rewrite Hone, (bool_decide_eq_false_2 (Fill ∈ us)) by done. done. }
    assert (Hcre : credits ({[+ Tok Fill p (ip, idx) 0 +]} ⊎ o) = credits o).
    { unfold credits. by rewrite count_union, count_singleton. }
    split; unfold filleds, mods.
    + intros q cq [[-> ->] | [Hqp Hq]]%Hpg; [by unfold invalid; rewrite Ef | eauto].
    + intros q cq d' k' [[-> ->] | [Hqp Hq]]%Hpg; rewrite Hmod by set_solver; [| eauto].
      unfold filling. rewrite Ef, no_use by done. cbn. intros _ _ [? | ?]; [done | lia].
    + intros k'. cbn. destruct (C3 k') as [? | (q & cq & Hq & Hk' & Hf & Hor)]; [by left | right].
      assert (Hqp : q <> p) by (intros ->; change (pages s !! p = Some cq) in Hq; simplify_eq; congruence).
      exists q, cq. rewrite list_lookup_alter_ne by done. rewrite Hmod by set_solver. done.
    + rewrite Hcre. intros q cq [[-> ->] | [Hqp Hq]]%Hpg; [intros _; cbn; split; [done | by apply Hcr] | eauto].
    + intros u q k' sn cq Ht Hu. assert (Ht' : Tok u q k' sn ∈ o) by (apply Hto; [set_solver | done]).
      intros [[-> ->] | [Hqp Hq]]%Hpg; [by destruct (Hne _ _ _ _ Ht') | eauto].
    + intros q k' sn cq Ht. apply Hto in Ht; [| done].
      intros [[-> ->] | [Hqp Hq]]%Hpg; [by destruct (Hne _ _ _ _ Ht) |]. rewrite Hmod by set_solver. eauto.
Qed.
End invariant.
