(* ===== verification/PageCacheSafe.v ===== *)
(** * The page cache: threads

    The promises of a file system to the page cache ([FileSystem]), and the
    functions of [PageCache] as threads that own tokens ([Threads.safe]): what
    each may assume and what it leaves behind. *)

From Stdlib Require Import ZArith Lia List.
From stdpp Require Import base list gmap gmultiset relations functions.
From S2P Require Import Prelude Threads PageCache PageCacheInv.

Local Open Scope Z_scope.

(** ** What the file system promises

    [fs_ok] is an invariant of the file system, [disk] the contents of its
    pages, [writable] the files with a
    write operation, [fits] the contents that a page can have (a file system
    keeps nothing beyond the end of a file).  The laws on contents are only
    used, and only required, when [coh] holds. *)

Class FileSystem (F : Type) `{!HasInodes F} `{!HasPages F} (coh : bool) := {
  fs_ok : F -> Prop;
  disk : F -> Z -> Z -> list Z;
  writable : Z -> Prop;
  fits : Z -> Z -> list Z -> Prop;
  keeps (f f' : F) := fs_ok f' /\ (forall ip, is_Some (inode_at f ip) -> is_Some (inode_at f' ip));
  law_readpage f ip i a rd idx d : fs_ok f -> inode_at f ip = Some i -> i_aop i = Some a -> readpage a = Some rd ->
    readable ip idx -> exists d' f', rd ip idx d f = Some (0, d', f') /\ keeps f f' /\
      (coh = true -> d' = disk f ip idx /\ forall ip' idx', disk f' ip' idx' = disk f ip' idx');
  law_readpages f ip i a rd first ds : fs_ok f -> inode_at f ip = Some i -> i_aop i = Some a -> readpages a = Some rd ->
    0 <= first < 2 ^ 64 -> 0 < Z.of_nat (length ds) <= PAGE_CACHE_RA_MAX_PAGES ->
    (forall j, 0 <= j < Z.of_nat (length ds) -> readable ip (u64 (first + j))) ->
    exists rc ds' st f', rd ip first ds f = Some (rc, ds', st, f') /\ keeps f f' /\ length ds' = length ds /\
      (rc = 0 \/ rc = - ENOMEM \/ rc = - EOPNOTSUPP) /\
      (coh = true -> (forall ip' idx', disk f' ip' idx' = disk f ip' idx') /\
         (rc = 0 -> forall j d', ds' !! j = Some d' -> d' = disk f ip (u64 (first + Z.of_nat j))));
  law_writepages f ip i a wr l : fs_ok f -> inode_at f ip = Some i -> i_aop i = Some a -> writepages a = Some wr ->
    NoDup l.*1 -> Forall (fun x => readable ip x.1 /\ (coh = true -> fits ip x.1 x.2)) l -> exists rc f', wr ip l f = Some (rc, f') /\ keeps f f' /\
      (coh = true -> (forall idx d, (idx, d) ∈ l -> disk f' ip idx = d \/ rc <> 0 /\ disk f' ip idx = disk f ip idx) /\
         (forall ip' idx', ip' <> ip \/ idx' ∉ l.*1 -> disk f' ip' idx' = disk f ip' idx'));
  law_fits f ip idx : coh = true -> fs_ok f -> readable ip idx -> fits ip idx (disk f ip idx);
  law_readable f ip i idx w j : fs_ok f -> inode_at f ip = Some i -> readable ip idx ->
    0 <= j < ra_window i idx w -> readable ip (u64 (idx + j));
  law_has_read f ip idx : fs_ok f -> readable ip idx -> exists i, inode_at f ip = Some i /\ is_Some (i_aop i ≫= readpage);
  law_has_write f ip i : fs_ok f -> inode_at f ip = Some i -> is_Some (i_aop i ≫= writepages) <-> writable ip }.

(** Memberships in a list of kinds of tokens. *)
Ltac use_in :=
  let go := (apply (bool_decide_unpack _); vm_compute; exact I) in
  match goal with
  | |- @elem_of use _ _ _ _ => go
  | |- ~ @elem_of use _ _ _ _ => go
  | H : @elem_of use _ _ ?u ?l |- _ => exfalso; revert H; change (u ∉ l); go
  | _ => set_solver
  end.

Section threads.
Context {F : Type} `{!HasInodes F} `{!HasPages F} {coh : bool} `{!FileSystem F coh}.
Implicit Types (s : cache F) (h o : gmultiset tok) (p : nat) (cp : cache_page) (k : Z * Z).

Definition all_fit s : Prop := coh = true -> forall ip idx, readable ip idx -> fits ip idx (written s ip idx).

Definition Inv s h : Prop := inv disk coh s h /\ fs_ok (fs s) /\ Z.of_nat (credits h) < 2 ^ 32 /\ all_fit s.

(** ** Steps of the critical sections *)

Lemma wp_getp s p cp (Q : cache_page -> cache F -> Prop) : pages s !! p = Some cp -> Q cp s -> wp (getp p) s Q.
Proof. intros Hp HQ. exists cp, s. unfold getp. by rewrite Hp. Qed.

Lemma wp_updp s p cp f (Q : unit -> cache F -> Prop) : pages s !! p = Some cp ->
  Q tt (set_pages (<[p := f cp]> (pages s)) s) -> wp (updp p f) s Q.
Proof. intros Hp HQ. eexists tt, _. unfold updp. by rewrite Hp. Qed.

Lemma wp_modify_cache s f (Q : unit -> cache F -> Prop) : Q tt (f s) -> wp (modify f) s Q.
Proof. intros HQ. by eexists tt, _. Qed.

(** Changes that the invariant does not see. *)
Definition quiet s s' : Prop := same disk coh s s' /\ fs s' = fs s /\ kmem s' = kmem s.

Lemma quiet_refl s : quiet s s.
Proof. by repeat split. Qed.

Lemma quiet_trans s1 s2 s3 : quiet s1 s2 -> quiet s2 s3 -> quiet s1 s3.
Proof.
  intros ([A1 A2 A3 A4 A5 A6 A7] & ? & ?) ([B1 B2 B3 B4 B5 B6 B7] & ? & ?).
  split; [| split; congruence]. split; congruence.
Qed.

Lemma quiet_stats s st : quiet s (set_stats st s).
Proof. by repeat split. Qed.

Lemma Inv_quiet s s' h : quiet s s' -> Inv s h -> Inv s' h.
Proof.
  intros (Hs & Hf & _) (Hi & Hok & Hc & Ha). split; [by eapply inv_same |]. rewrite Hf. split_and!; [done.. |].
  intros Hco ip idx. rewrite (sm_written _ _ _ _ Hs). by apply Ha.
Qed.

Lemma wp_stat_add s x n : wp (stat_add x n) s (fun _ s' => quiet s s').
Proof. apply wp_modify_cache, quiet_stats. Qed.

Lemma wp_stat_dec s x : wp (stat_dec x) s (fun _ s' => quiet s s').
Proof. apply wp_modify_cache. destruct (_ =? 0); [apply quiet_refl | apply quiet_stats]. Qed.

Lemma wp_quiet_bind {A B} (m : prog (cache F) A) (f : A -> prog (cache F) B) s :
  wp m s (fun _ s' => quiet s s') -> (forall a s', quiet s s' -> wp (f a) s' (fun _ s'' => quiet s' s'')) ->
  wp (m ≫= f) s (fun _ s' => quiet s s').
Proof.
  intros Hm Hf. apply wp_bind. eapply wp_mono; [exact Hm |]. intros a s' Hq. cbn.
  eapply wp_mono; [by apply Hf |]. intros b s2 Hq2. exact (quiet_trans _ _ _ Hq Hq2).
Qed.

Lemma wp_quiet_ret {A} (a : A) s : wp (mret a) s (fun _ s' => quiet s s').
Proof. apply wp_ret, quiet_refl. Qed.

Lemma wp_quiet_updp s p f : is_Some (pages s !! p) -> (forall cp, core (f cp) = core cp) ->
  wp (updp p f) s (fun _ s' => quiet s s').
Proof.
  intros [cp Hp] Hf. eapply wp_updp; [done |]. split; [| done]. split; try done. cbn.
  rewrite list_fmap_insert, Hf. apply list_insert_id. by rewrite list_lookup_fmap, Hp.
Qed.

Lemma quiet_lookup s s' p : quiet s s' -> is_Some (pages s !! p) -> is_Some (pages s' !! p).
Proof.
  intros ([Hc _ _ _ _ _ _] & _) [cp Hp]. destruct (core_lookup _ _ _ _ (eq_sym Hc) Hp) as (cp' & ? & _). by exists cp'.
Qed.

Lemma core_ra cp b c l : core (set_flags (clear_flag (cp_flags cp) CACHE_PAGE_READAHEAD) (set_ra b c l cp)) = core cp.
Proof. unfold core, invalid, filling, dirty, uptodate. cbn. by rewrite !has_flag_clear by done. Qed.

Lemma wp_ra_resolve s p b : is_Some (pages s !! p) -> wp (ra_resolve_locked p b) s (fun _ s' => quiet s s').
Proof.
  intros Hp. unfold ra_resolve_locked. destruct Hp as [cp Hp]. apply wp_bind. eapply wp_getp; [done |].
  destruct (negb _); [apply wp_quiet_ret |]. destruct (_ <=? _); [apply wp_quiet_ret |].
  apply wp_quiet_bind; [apply wp_stat_dec |]. intros _ s1 H1. apply wp_quiet_bind; [apply wp_stat_add |]. intros _ s2 H2.
  apply wp_quiet_bind; [apply wp_stat_add |]. intros _ s3 H3. apply wp_quiet_updp; [| intros; apply core_ra].
  by do 3 (eapply quiet_lookup; [done |]).
Qed.

Lemma wp_ra_hit s p : is_Some (pages s !! p) -> wp (ra_hit_locked p) s (fun _ s' => quiet s s').
Proof.
  intros Hp. unfold ra_hit_locked. destruct Hp as [cp Hp]. apply wp_bind. eapply wp_getp; [done |].
  destruct (negb _); [apply wp_quiet_ret |]. destruct (_ <=? _); [apply wp_quiet_ret |].
  apply wp_quiet_bind; [apply wp_stat_dec |]. intros _ s1 H1. apply wp_quiet_bind; [apply wp_stat_add |]. intros _ s2 H2.
  apply wp_quiet_bind; [apply wp_stat_add |]. intros _ s3 H3. apply wp_quiet_updp; [| intros; apply core_ra].
  by do 3 (eapply quiet_lookup; [done |]).
Qed.

(** *** Searching *)

Definition uncached s k : Prop := forall q cq, pages s !! q = Some cq -> home cq = Some k -> invalid cq = true.

Lemma matches_home ip idx cp : (is_Some (cp_data cp) <-> is_Some (cp_inode cp)) ->
  matches ip idx cp = true <-> home cp = Some (ip, idx).
Proof.
  intros Hd. unfold matches, home. rewrite !andb_true_iff, !bool_decide_eq_true, Z.eqb_eq.
  destruct (cp_data cp), (cp_inode cp); naive_solver.
Qed.

Lemma chain_find_ok s h ip idx chain : inv disk coh s h ->
  (forall p, p ∈ chain -> is_Some (pages s !! p)) ->
  wp (chain_find ip idx chain) s (fun r s' => s' = s /\
    match r with
    | Some p => p ∈ chain /\ exists cp, pages s !! p = Some cp /\ home cp = Some (ip, idx)
    | None => forall p cp, p ∈ chain -> pages s !! p = Some cp -> home cp <> Some (ip, idx)
    end).
Proof.
  intros Hi. induction chain as [| p chain IH]; intros Hc; cbn [chain_find].
  - apply wp_ret. split; [done |]. by intros p cp ?%not_elem_of_nil.
  - destruct (Hc p) as [cp Hp]; [by left |]. apply wp_bind. eapply wp_getp; [done |].
    pose proof (matches_home ip idx cp (pk_inode _ _ _ _ (inv_page _ _ _ _ Hi p cp Hp))) as Hm.
    destruct (matches ip idx cp).
    + apply wp_ret. split; [done |]. split; [by left |]. exists cp. split; [done | by apply Hm].
    + eapply wp_mono; [apply IH; intros; apply Hc; by right |]. intros [q |] s' [-> Hr]; (split; [done |]).
      * destruct Hr as [? ?]. split; [by right | done].
      * intros q cq Hq Hpq Hh. apply elem_of_cons in Hq as [-> | Hq]; [| by eapply Hr].
        assert (cq = cp) as -> by congruence. by apply Hm in Hh.
Qed.

Lemma find_locked_ok s h ip idx : inv disk coh s h ->
  wp (find_locked ip idx) s (fun r s' => s' = s /\
    match r with
    | Some p => exists cp, pages s !! p = Some cp /\ home cp = Some (ip, idx) /\ invalid cp = false
    | None => uncached s (ip, idx)
    end).
Proof.
  intros Hi. pose proof (inv_lists _ _ _ _ Hi) as Hl. unfold find_locked.
  destruct (lookup_lt_is_Some_2 (page_cache_hash s) (bucket_of ip idx)) as [chain Hc].
  { rewrite (lo_len _ _ _ _ Hl). apply bucket_of_lt. }
  apply wp_bind. exists chain, s. split; [unfold bucket; by rewrite Hc |].
  destruct (lo_chain _ _ _ _ Hl _ _ Hc) as [_ Hin].
  assert (Hsh : forall p cp k b, pages s !! p = Some cp -> (shape <$> pages s) !! p = Some (Some k, b) -> home cp = Some k /\ invalid cp = b).
  { intros p cp k b Hp Hs. rewrite list_lookup_fmap, Hp in Hs. cbn in Hs. by injection Hs. }
  eapply wp_mono; [apply (chain_find_ok s h); [done |] |].
  - intros p (k & Hs & _)%Hin. rewrite list_lookup_fmap in Hs. apply fmap_Some in Hs as (cp & ? & _). by exists cp.
  - intros [p |] s' [-> Hr]; (split; [done |]).
    + destruct Hr as (Hpc & cp & Hp & Hh). exists cp. split_and!; [done | done |].
      apply Hin in Hpc as (k & Hs & _). by destruct (Hsh _ _ _ _ Hp Hs).
    + intros q cq Hq Hh. destruct (invalid cq) eqn:Hv; [done |]. exfalso. eapply (Hr q); [| done | done].
      apply Hin. exists (ip, idx). split; [| done]. by eapply shape_lookup.
Qed.

(** *** Pins *)

Lemma pages_updp s p cp' : pages_upd s (set_pages (<[p := cp']> (pages s)) s) p cp'.
Proof. by split. Qed.

Lemma pins_tok p u q k sn : pins p {[+ Tok u q k sn +]} = if bool_decide (q = p) then 1%nat else 0%nat.
Proof. unfold pins. by rewrite count_singleton. Qed.

Lemma empty_union h : h = (∅ : gmultiset tok) ⊎ h.
Proof. multiset_solver. Qed.

Lemma Inv_credits s s' h h' : Inv s h -> inv disk coh s' h' -> fs s' = fs s -> written s' = written s ->
  credits h' = credits h -> Inv s' h'.
Proof. intros (_ & Hf & Hc & Ha) Hi Hfs Hw Hcr. split; [done |]. unfold all_fit. by rewrite Hfs, Hcr, Hw. Qed.

Lemma credits_tok u p k sn o : credits ({[+ Tok u p k sn +]} ⊎ o) = credits o.
Proof. unfold credits. by rewrite count_union, count_singleton. Qed.

Lemma tok_page s o u p k sn : Inv s ({[+ Tok u p k sn +]} ⊎ o) -> exists cp, pages s !! p = Some cp /\ tok_ok cp u k.
Proof.
  intros (Hi & _). apply (inv_tok _ _ _ _ Hi u p k sn), gmultiset_elem_of_disj_union. left.
  by apply gmultiset_elem_of_singleton.
Qed.

(** One more owner of a page. *)
Lemma Inv_pin s o p cp k u : Inv s o -> pages s !! p = Some cp -> u ∈ [Pin; Use] -> tok_ok cp u k ->
  Inv (set_pages (<[p := set_pin (pin_count cp + 1) cp]> (pages s)) s) ({[+ Tok u p k 0 +]} ⊎ o).
Proof.
  intros HI Hp Hu Hok. eapply Inv_credits; [exact HI | | done | done | apply credits_tok]. destruct HI as (Hi & _).
  assert (Hpk := inv_page _ _ _ _ Hi _ _ Hp).
  eapply (inv_plain disk coh s _ p cp _ ∅); [by rewrite <- empty_union | done | | apply plain_empty | | apply pages_updp | ..];
    try done.
  - destruct Hok as [-> _]. by eexists.
  - apply plain_singleton. use_in.
  - intros Hv. pose proof (pk_orphan _ _ _ _ Hpk Hv). cbn. lia.
  - rewrite pins_tok. unfold pins. rewrite count_empty, bool_decide_eq_true_2 by done. cbn. lia.
  - intros u' k' sn Ht%gmultiset_elem_of_singleton. by simplify_eq.
  - intros _ k' sn Ht%gmultiset_elem_of_singleton. simplify_eq. use_in.
Qed.

Lemma lookup_locked_ok ip idx s o : Inv s o ->
  wp (lookup_locked ip idx) s (fun r s' =>
    match r with
    | None => Inv s' o
    | Some (p, fl) => Inv s' ({[+ Tok (if has_flag fl CACHE_PAGE_FILLING then Pin else Use) p (ip, idx) 0 +]} ⊎ o)
    end).
Proof.
  intros HI. unfold lookup_locked. apply wp_bind. eapply wp_mono; [by eapply find_locked_ok, HI |].
  intros [p |] s' [-> Hr]; [| by apply wp_ret]. destruct Hr as (cp & Hp & Hh & Hv).
  apply wp_bind. eapply wp_updp; [done |]. set (s1 := set_pages _ s).
  apply wp_bind. unfold lru_touch. apply wp_bind. apply wp_modify_cache. apply wp_modify_cache. apply wp_bind.
  eapply wp_getp; [cbn; apply list_lookup_insert_eq; by eapply lookup_lt_Some |]. apply wp_ret.
  assert (HI1 : Inv s1 ({[+ Tok (if filling cp then Pin else Use) p (ip, idx) 0 +]} ⊎ o)).
  { apply Inv_pin; [done | done | destruct (filling cp); use_in |]. split; [done |].
    destruct (filling cp); [use_in | done]. }
  change (has_flag _ _) with (filling cp). eapply Inv_credits; [exact HI1 | | done | done | done].
  apply (inv_touch disk coh s1); [apply HI1 |]. cbn. apply (lo_lru _ _ _ _ (inv_lists _ _ _ _ (proj1 HI))).
  exists (ip, idx). by eapply shape_lookup.
Qed.

Lemma release_ok p u k sn s o : Inv s ({[+ Tok u p k sn +]} ⊎ o) -> u ∈ [Pin; Use] ->
  wp (page_cache_release_locked p) s (fun _ s' => Inv s' o).
Proof.
  intros HI Hu. destruct (tok_page _ _ _ _ _ _ HI) as (cp & Hp & Hok).
  unfold page_cache_release_locked. apply wp_bind. eapply wp_updp; [done |]. set (s1 := set_pages _ s).
  assert (Hp1 : pages s1 !! p = Some (set_pin (pin_count cp - 1) cp)).
  { cbn. apply list_lookup_insert_eq. by eapply lookup_lt_Some. }
  apply wp_bind. eapply wp_getp; [exact Hp1 |]. cbn [pin_count cp_flags set_pin].
  pose proof (inv_page _ _ _ _ (proj1 HI) _ _ Hp) as Hpk. pose proof (pk_pin _ _ _ _ Hpk) as Hpin.
  unfold pins in Hpin. rewrite count_union, count_singleton in Hpin. cbn in Hpin.
  rewrite bool_decide_eq_true_2 in Hpin by done. fold (pins p o) in Hpin.
  destruct ((pin_count cp - 1 =? 0) && has_flag (cp_flags cp) CACHE_PAGE_INVALID) eqn:Hb.
  - apply andb_true_iff in Hb as [Hz Hv]. apply Z.eqb_eq in Hz. apply wp_bind. eapply wp_updp; [done |].
    unfold free_list_push. apply wp_modify_cache. eapply Inv_credits; [exact HI | | done | done | by rewrite credits_tok].
    assert (Hre : inv disk coh (reclaim_page p s) o) by (eapply inv_reclaim; [apply HI | done | done | lia]).
    eapply inv_same; [| exact Hre]. split; try done. cbn. rewrite (alter_insert_page s p cp _ Hp).
    rewrite list_insert_insert_eq. by rewrite Hz.
  - apply wp_ret. eapply Inv_credits; [exact HI | | done | done | by rewrite credits_tok]. rewrite (empty_union o).
    eapply (inv_plain disk coh s _ p cp _ {[+ Tok u p k sn +]}); [apply HI | done | | | apply plain_empty | apply pages_updp | ..];
      try done.
    + destruct Hok as [-> _]. by eexists.
    + apply plain_singleton. use_in.
    + cbn. intros Hv. change (has_flag (cp_flags cp) CACHE_PAGE_INVALID = true) in Hv. rewrite Hv, andb_true_r in Hb.
      apply Z.eqb_neq in Hb. lia.
    + rewrite pins_tok. unfold pins. rewrite count_empty, bool_decide_eq_true_2 by done. cbn. lia.
    + intros u' k' sn' Ht. multiset_solver.
    + intros _ k' sn' Ht. multiset_solver.
Qed.

Lemma getp_tok_ok p u k sn s o : Inv s ({[+ Tok u p k sn +]} ⊎ o) ->
  wp (getp p) s (fun cp s' => s' = s /\ tok_ok cp u k).
Proof.
  intros HI. destruct (tok_page _ _ _ _ _ _ HI) as (cp & Hp & Hok).
  by eapply wp_getp.
Qed.

(** Waiting for the end of a read. *)
Lemma Inv_wait s o p cp k sn : Inv s ({[+ Tok Pin p k sn +]} ⊎ o) -> pages s !! p = Some cp -> filling cp = false ->
  Inv s ({[+ Tok Use p k 0 +]} ⊎ o).
Proof.
  intros HI Hp Hf. eapply Inv_credits; [exact HI | | done | done | by rewrite !credits_tok].
  destruct (tok_page _ _ _ _ _ _ HI) as (c0 & ? & [Hh _]). simplify_eq.
  eapply (inv_plain disk coh s s p cp cp {[+ Tok Pin p k sn +]}); [apply HI | done | by rewrite Hh | | | | ..]; try done.
  - apply plain_singleton. use_in.
  - apply plain_singleton. use_in.
  - split; try done. by rewrite list_insert_id.
  - intros Hv. by apply (pk_orphan _ _ _ _ (inv_page _ _ _ _ (proj1 HI) _ _ Hp)).
  - by rewrite !pins_tok.
  - intros u' k' sn' Ht%gmultiset_elem_of_singleton. by simplify_eq.
  - intros _ k' sn' Ht%gmultiset_elem_of_singleton. by simplify_eq.
Qed.

Definition held (p : nat) (k : Z * Z) : gmultiset tok := {[+ Tok Use p k 0 +]}.

Lemma safe_release p u k sn : u ∈ [Pin; Use] -> safe Inv (page_cache_release p) {[+ Tok u p k sn +]} (fun _ h => h = ∅).
Proof.
  intros Hu. apply safe_atomic. intros s o HI. eapply wp_mono; [by eapply release_ok |].
  intros [] s' HI'. exists ∅. by rewrite <- empty_union.
Qed.

Lemma safe_getp p u k sn : safe Inv (atomic (getp p)) {[+ Tok u p k sn +]} (fun cp h => h = {[+ Tok u p k sn +]} /\ tok_ok cp u k).
Proof.
  apply safe_atomic. intros s o HI. eapply wp_mono; [by eapply getp_tok_ok |]. intros cp s' [-> Hok]. by eexists.
Qed.

Lemma safe_ra_hit p u k sn : safe Inv (atomic (ra_hit_locked p)) {[+ Tok u p k sn +]} (fun _ h => h = {[+ Tok u p k sn +]}).
Proof.
  apply safe_atomic. intros s o HI. destruct (tok_page _ _ _ _ _ _ HI) as (cp & Hp & Hok).
  eapply wp_mono; [by apply wp_ra_hit |]. intros [] s' Hq. eexists. split; [by eapply Inv_quiet | done].
Qed.

Lemma safe_wait p k : safe Inv (page_cache_wait p CACHE_PAGE_FILLING) {[+ Tok Pin p k 0 +]} (fun _ h => h = held p k).
Proof.
  cbn. intros s o HI Hb. destruct (pages s !! p) as [cp |] eqn:Hp; [| done]. apply negb_true_iff in Hb.
  exists (held p k). split; [eapply Inv_wait; [exact HI | exact Hp | exact Hb] | done].
Qed.

(** [page_cache_lookup] pins the page it returns. *)
Lemma safe_lookup ip idx :
  safe Inv (page_cache_lookup ip idx) ∅ (fun r h => h = match r with Some p => held p (ip, idx) | None => ∅ end).
Proof.
  unfold page_cache_lookup. destruct (ip =? 0); [done |]. apply safe_bind, safe_atomic. intros s o HI.
  rewrite <- empty_union in HI. eapply wp_mono; [by apply lookup_locked_ok |].
  intros [[p fl] |] s' HI'; [| exists ∅; by rewrite <- empty_union].
  eexists. split; [exact HI' |]. apply safe_bind.
  assert (Hw : safe Inv (if has_flag fl CACHE_PAGE_FILLING then page_cache_wait p CACHE_PAGE_FILLING else mret tt)
    {[+ Tok (if has_flag fl CACHE_PAGE_FILLING then Pin else Use) p (ip, idx) 0 +]} (fun _ h => h = held p (ip, idx))).
  { destruct (has_flag fl CACHE_PAGE_FILLING); [apply safe_wait | done]. }
  eapply safe_mono; [exact Hw |]. intros [] h ->. apply safe_bind. eapply safe_mono; [apply safe_getp |].
  intros cp h [-> _]. destruct (has_flag (cp_flags cp) _).
  - apply safe_bind. eapply safe_mono; [apply safe_release; use_in |]. by intros [] h ->.
  - apply safe_bind. eapply safe_mono; [apply safe_ra_hit |]. by intros [] h ->.
Qed.

(** *** Eviction and allocation *)

Lemma quiet_page s s' p cp : quiet s s' -> pages s !! p = Some cp -> exists cp', pages s' !! p = Some cp' /\ core cp' = core cp.
Proof.
  intros ([Hc _ _ _ _ _ _] & _) Hp. destruct (core_lookup _ _ _ _ (eq_sym Hc) Hp) as (cp' & ? & ?). by exists cp'.
Qed.

Lemma uncached_quiet s s' k : quiet s s' -> uncached s k -> uncached s' k.
Proof.
  intros ([Hc _ _ _ _ _ _] & _) Hu q cq Hq Hh. destruct (core_lookup _ _ _ _ Hc Hq) as (c0 & Hq0 & Hcc).
  rewrite (core_home _ _ Hcc) in Hh. specialize (Hu q c0 Hq0 Hh). unfold core in Hcc. injection Hcc as _ _ _ _ _ Hv.
  congruence.
Qed.

Lemma uncached_retire s p k k' : uncached s k -> uncached (retire_page k' p s) k.
Proof.
  intros Hu q cq. cbn. destruct (decide (q = p)) as [-> | Hq].
  - rewrite list_lookup_alter_eq. intros (cp & Hp & ->)%fmap_Some. done.
  - rewrite list_lookup_alter_ne by done. apply Hu.
Qed.

Lemma evict_scan_ok l s o k : Inv s o -> (forall p, p ∈ l -> p ∈ lru s) -> uncached s k ->
  wp (evict_scan l) s (fun rc s' => Inv s' o /\ uncached s' k /\ fs s' = fs s /\ (rc = 0 -> free_list s' <> []) /\
    kmem s' = kmem s).
Proof.
  intros HI Hl Hu. induction l as [| p l IH]; cbn [evict_scan]; [by apply wp_ret |].
  pose proof (inv_lists _ _ _ _ (proj1 HI)) as Hlo.
  assert (Hsh : exists k, (shape <$> pages s) !! p = Some (Some k, false)) by (apply (lo_lru _ _ _ _ Hlo), Hl; by left).
  destruct Hsh as (k' & Hsh). rewrite list_lookup_fmap in Hsh. apply fmap_Some in Hsh as (cp & Hp & Hs).
  injection Hs as Hh Hv. apply wp_bind. eapply wp_getp; [done |]. destruct (evictable cp) eqn:He; cbn [negb].
  2:{ apply IH. intros q Hq. apply Hl. by right. }
  unfold evictable in He. rewrite !has_flag_lor in He. repeat setoid_rewrite andb_true_iff in He. destruct He as [[Hpin Hd] Hf].
  apply Z.eqb_eq in Hpin. apply negb_true_iff in Hf. repeat setoid_rewrite orb_false_iff in Hf. destruct Hf as [_ Hdi].
  apply wp_bind. eapply wp_mono; [apply wp_ra_resolve; by exists cp |]. intros [] s1 Hq.
  destruct (quiet_page _ _ _ _ Hq Hp) as (cp1 & Hp1 & Hcc). pose proof (Inv_quiet _ _ _ Hq HI) as HI1.
  apply wp_bind. unfold hash_unlink. apply wp_modify_cache. apply wp_bind. unfold lru_remove. apply wp_modify_cache.
  apply wp_bind. eapply wp_updp; [exact Hp1 |]. apply wp_bind. unfold free_list_push. apply wp_modify_cache. apply wp_ret.
  set (s2 := set_free _ _ _).
  assert (Hs2 : s2 = retire_page k' p s1).
  { unfold s2, retire_page. cbn. rewrite (alter_insert_page s1 p cp1 _ Hp1). unfold key_bucket.
    unfold home in Hh. destruct (cp_data cp), (cp_inode cp); try done. injection Hh as ->. done. }
  rewrite Hs2. split_and!; [| | exact (proj1 (proj2 Hq)) | done | exact (proj2 (proj2 Hq))].
  - eapply Inv_credits; [exact HI1 | | done | done | done]. pose proof (inv_page _ _ _ _ (proj1 HI) _ _ Hp) as Hpk.
    pose proof (core_home _ _ Hcc) as Hh1. unfold core in Hcc. injection Hcc as _ _ _ _ _ Ev _ Ed _.
    apply (inv_retire disk coh s1 o p cp1 k'); [apply HI1 | done | by rewrite Hh1 | by rewrite Ev | | intros _; by rewrite Ed].
    pose proof (pk_pin _ _ _ _ Hpk). lia.
  - apply uncached_retire. by eapply uncached_quiet.
Qed.

(** A descriptor taken off the free list: pushing it back restores the
    invariant. *)
Definition popped s o (p : nat) : Prop := exists s0 fr, Inv s0 o /\ free_list s0 = p :: fr /\
  s = set_free fr (free_count s0 - 1) s0.

Lemma pop_ok s o k : Inv s o -> uncached s k ->
  wp free_list_pop s (fun r s' =>
    match r with
    | Some p => popped s' o p /\ uncached s' k /\ fs s' = fs s /\ kmem s' = kmem s
    | None => s' = s /\ free_list s = []
    end).
Proof.
  intros HI Hu. unfold wp, free_list_pop. destruct (free_list s) as [| p fr] eqn:Hf; [by eexists None, _ |].
  eexists (Some p), _. split; [done |]. split_and!; [| done | done | done]. by exists s, fr.
Qed.

Lemma free_descriptor_ok s o k : Inv s o -> uncached s k ->
  wp free_descriptor s (fun r s' =>
    match r with
    | Some p => popped s' o p /\ uncached s' k /\ fs s' = fs s /\ kmem s' = kmem s
    | None => Inv s' o /\ uncached s' k /\ fs s' = fs s /\ kmem s' = kmem s
    end).
Proof.
  intros HI Hu. unfold free_descriptor. apply wp_bind. eapply wp_mono; [by eapply pop_ok |].
  intros [p |] s1 Hr; [by apply wp_ret |]. destruct Hr as [-> _]. apply wp_bind.
  eapply wp_mono.
  { unfold page_cache_evict_locked. apply (evict_scan_ok (rev (lru s)) s o k HI); [| done].
    intros p Hp. by apply list_elem_of_In, in_rev, list_elem_of_In in Hp. }
  intros rc s1 (HI1 & Hu1 & Hf1 & Hz & Hk1). cbn beta. destruct (Z.eqb_spec rc 0) as [Hrc | Hrc]; cbn [negb]; [| by apply wp_ret].
  apply wp_bind. eapply wp_mono; [by eapply pop_ok |].
  intros [p |] s2 Hr; [apply wp_ret; by rewrite <- Hf1, <- Hk1 |]. destruct Hr as [_ Hr]. by destruct (Hz Hrc).
Qed.

Lemma alloc_locked_ok ip idx ra s o : Inv s o -> uncached s (ip, idx) -> is_Some (inode_at (fs s) ip) -> readable ip idx ->
  wp (page_cache_alloc_locked ip idx ra) s (fun r s' => fs s' = fs s /\
    Inv s' (match r with Some p => {[+ Tok Fill p (ip, idx) 0 +]} ⊎ o | None => o end)).
Proof.
  intros HI Hu Hl Hrd. unfold page_cache_alloc_locked. apply wp_bind. eapply wp_mono; [by eapply free_descriptor_ok |].
  intros [p |] s1 Hr; [| by apply wp_ret; destruct Hr as (? & _ & ? & _)].
  destruct Hr as ((s0 & fr & HI0 & Hf0 & ->) & Hu1 & Hfs1 & _).
  apply wp_bind. eexists _, _. split; [reflexivity |]. set (s2 := set_kmem _ _).
  assert (Hi2 : inv disk coh (set_free (p :: fr) (free_count s2 + 1) s2) o).
  { eapply inv_same; [| apply HI0]. by split. }
  assert (Hp2 : is_Some (pages s2 !! p)).
  { assert (Hin : p ∈ p :: fr) by (by left). apply (lo_free _ _ _ _ (inv_lists _ _ _ _ Hi2)) in Hin as [b Hs].
    rewrite list_lookup_fmap in Hs. apply fmap_Some in Hs as (cp & ? & _). by exists cp. }
  destruct Hp2 as [cp Hp2]. cbn [kmem set_free] in *. destruct (kmem s0 0%nat) as [d |].
  - apply wp_bind. eapply wp_updp; [exact Hp2 |]. apply wp_bind. unfold hash_push. apply wp_modify_cache.
    apply wp_bind. unfold lru_insert_head. apply wp_modify_cache. apply wp_ret. split; [done |].
    eapply Inv_credits; [exact HI0 | | done | done | by rewrite credits_tok].
    eapply inv_same; [| eapply (inv_admit disk coh s2 o p fr ip idx ra d)]; [| exact Hi2 | | exact Hrd | done | |].
    + split; try done. unfold admit_state. cbn [pages set_lru set_hash set_pages].
      by rewrite (alter_insert_page s2 p cp _ Hp2).
    + change (is_Some (inode_at (fs s0) ip)). change (fs s0 = fs s) in Hfs1. by rewrite Hfs1.
    + intros q cq. apply Hu1.
    + intros _. apply HI.
  - apply wp_bind. unfold free_list_push. apply wp_modify_cache. apply wp_ret. split; [done |].
    eapply Inv_credits; [exact HI0 | exact Hi2 | done | done | done].
Qed.

(** The tokens of a run of pages. *)
Fixpoint run_toks (u : use) (ip idx i : Z) (ps : list nat) : gmultiset tok :=
  match ps with
  | [] => ∅
  | p :: ps' => {[+ Tok u p (ip, u64 (idx + i)) 0 +]} ⊎ run_toks u ip idx (i + 1) ps'
  end.

Lemma reserve_ok ip idx source n : forall i s o, Inv s o -> is_Some (inode_at (fs s) ip) ->
  (forall j, i <= j < i + Z.of_nat n -> readable ip (u64 (idx + j))) ->
  wp (reserve_pages ip idx source n i) s (fun ps s' => (length ps <= n)%nat /\ Inv s' (run_toks Fill ip idx i ps ⊎ o)).
Proof.
  induction n as [| n IH]; intros i s o HI Hl Hrd; cbn [reserve_pages].
  - apply wp_ret. split; [done |]. by rewrite <- empty_union.
  - apply wp_bind. eapply wp_mono; [eapply find_locked_ok, HI |]. intros r s' [-> Hr]. destruct r as [q |].
    + apply wp_bind. eapply wp_mono with (P := fun _ s' => quiet s s').
      * destruct (i =? 0); [apply wp_stat_add | apply wp_quiet_ret].
      * intros [] s1 Hq. apply wp_ret. cbn [length run_toks]. split; [lia |]. rewrite <- empty_union. by eapply Inv_quiet.
    + apply wp_bind. eapply wp_mono; [apply alloc_locked_ok; [done | done | done | apply Hrd; lia] |]. intros [p |] s1 [Hf1 HI1].
      * apply wp_bind. eapply wp_mono; [apply IH; [exact HI1 | by rewrite Hf1 | intros j Hj; apply Hrd; lia] |]. intros ps s2 [Hlen HI2].
        apply wp_ret. cbn [length run_toks]. split; [lia |]. by rewrite (assoc_L _), (comm_L _ (run_toks _ _ _ _ _)) in HI2.
      * apply wp_ret. cbn [length run_toks]. split; [lia |]. by rewrite <- empty_union.
Qed.

(** *** Reading pages in *)

Lemma is_use_tok us p u q k sn : count (is_use us p) {[+ Tok u q k sn +]} =
  if bool_decide (u ∈ us) && bool_decide (q = p) then 1%nat else 0%nat.
Proof. by rewrite count_singleton. Qed.

(** The disk holds the current contents of a page that is being read. *)
Lemma fill_disk s o p u k : Inv s ({[+ Tok u p k 0 +]} ⊎ o) -> u ∈ [Fill; Filled] -> coh = true ->
  disk (fs s) k.1 k.2 = written s k.1 k.2.
Proof.
  intros (Hi & _) Hu Hc. pose proof (inv_coh _ _ _ _ Hi Hc) as Hco.
  destruct (inv_tok _ _ _ _ Hi u p k 0) as (cp & Hp & Hh & _); [multiset_solver |].
  destruct (co_disk _ _ _ Hco k) as [? | (q & cq & Hq & Hk & Hf & _)]; [done |]. exfalso.
  assert (q = p) as ->.
  { eapply (lo_unique _ _ _ _ (inv_lists _ _ _ _ Hi) q p k); eapply shape_lookup; eauto using co_valid. }
  simplify_eq. pose proof (pk_fill _ _ _ _ (inv_page _ _ _ _ Hi _ _ Hp)) as Hn. rewrite Hf in Hn.
  unfold fills in Hn. rewrite count_union, is_use_tok, !bool_decide_eq_true_2 in Hn by done. cbn in Hn. lia.
Qed.

Lemma fill_filling s o p u k cp : Inv s ({[+ Tok u p k 0 +]} ⊎ o) -> u ∈ [Fill; Filled] -> pages s !! p = Some cp ->
  filling cp = true /\ fills p o = 0%nat.
Proof.
  intros (Hi & _) Hu Hp. pose proof (pk_fill _ _ _ _ (inv_page _ _ _ _ Hi _ _ Hp)) as Hn.
  unfold fills in *. rewrite count_union, is_use_tok, !bool_decide_eq_true_2 in Hn by done. cbn in Hn.
  destruct (filling cp); [split; [done | lia] | lia].
Qed.

Lemma fill_uses v : v ∈ [Fill; Filled] -> v ∈ [Fill; Filled; Pin] /\ v ∉ [Wb; Wbd] /\ v <> Mod.
Proof. intros [-> | ->%list_elem_of_singleton]%elem_of_cons; split_and!; use_in. Qed.

(** The reader of a page stores its contents. *)
Lemma Inv_store s o p u v k cp d : Inv s ({[+ Tok u p k 0 +]} ⊎ o) -> u ∈ [Fill; Filled] -> v ∈ [Fill; Filled] ->
  pages s !! p = Some cp -> (coh = true -> v = Filled -> d = disk (fs s) k.1 k.2) ->
  Inv (set_pages (<[p := set_data (Some d) cp]> (pages s)) s) ({[+ Tok v p k 0 +]} ⊎ o).
Proof.
  intros HI Hu Hv Hp Hd. eapply Inv_credits; [exact HI | | done | done | by rewrite !credits_tok].
  pose proof HI as (Hi & _). destruct (fill_filling _ _ _ _ _ _ HI Hu Hp) as [Hf Hfo].
  destruct (inv_tok _ _ _ _ Hi u p k 0) as (c0 & ? & Hh & _); [multiset_solver |]. simplify_eq.
  pose proof (inv_page _ _ _ _ Hi _ _ Hp) as Hpk. destruct (inv_page _ _ _ _ Hi _ _ Hp) as [K1 K2 K3 K4 K5 K6 K7 K8].
  assert (Hh' : home (set_data (Some d) cp) = home cp).
  { unfold home in *. cbn. by destruct (cp_data cp), (cp_inode cp). }
  assert (Huo : upd_ok p cp (set_data (Some d) cp) {[+ Tok u p k 0 +]} {[+ Tok v p k 0 +]}).
  { split; try done.
    - by rewrite !pins_tok.
    - unfold fills. rewrite !is_use_tok, !bool_decide_eq_true_2 by done. done.
    - change (filling (set_data (Some d) cp)) with (filling cp). congruence.
    - intros w k' sn Ht%gmultiset_elem_of_singleton. simplify_eq. split; [by rewrite Hh' |]. intros Hn. by destruct Hn; apply fill_uses. }
  assert (HL : forall w, local p {[+ Tok w p k 0 +]}) by (intros; apply local_singleton).
  refine (inv_upd disk coh s _ p cp _ _ _ o Hi Hp (mk_is_Some _ _ Hh) (HL u) (HL v) Huo (pages_updp _ _ _) _).
  intros Hc Hco. refine (coherent_upd disk coh s _ p cp _ _ _ o Hi Hp (HL u) (HL v) Huo (pages_updp _ _ _) eq_refl _ Hco).
  split.
  - unfold credits. by rewrite !count_singleton.
  - intros d' k' [= <-] Hk' [Hb | Hb]; [change (filling cp = false) in Hb; congruence |]. rewrite Hh', Hh in Hk'. simplify_eq.
    unfold filleds in Hb. rewrite count_union, is_use_tok in Hb. pose proof (filleds_fills p o).
    unfold filleds in *. rewrite (bool_decide_eq_true_2 (p = p)), andb_true_r in Hb by done. case_bool_decide as Hvf; [| lia].
    apply list_elem_of_singleton in Hvf. rewrite Hd by done. by apply (fill_disk _ _ _ _ _ HI Hu).
  - intros k' _ Hb. congruence.
  - unfold credits. rewrite !count_singleton. cbn. split; lia.
  - intros w k' sn Ht%gmultiset_elem_of_singleton Hw. simplify_eq. by apply fill_uses in Hv as (_ & ? & _).
  - intros k' sn Hk' Ht. rewrite Hh in Hk'. simplify_eq. right. right. by apply (fill_disk _ _ _ _ _ HI Hu).
Qed.

(** The file system's own state changes, its pages do not. *)
Lemma Inv_fs s o f' : Inv s o -> keeps (fs s) f' ->
  (coh = true -> forall ip idx, disk f' ip idx = disk (fs s) ip idx) -> Inv (set_fs f' s) o.
Proof.
  intros (Hi & Hf & Hcr & Ha) [Hok Hl] Hd. split; [| done]. eapply inv_same; [| exact Hi]. by split.
Qed.

Lemma page_data_ok ip idx u ps : forall i s o, Inv s (run_toks u ip idx i ps ⊎ o) ->
  wp (page_data ps) s (fun ds s' => s' = s /\ length ds = length ps).
Proof.
  induction ps as [| p ps IH]; intros i s o HI; cbn [page_data run_toks] in *; [by apply wp_ret |].
  destruct (inv_tok _ _ _ _ (proj1 HI) u p (ip, u64 (idx + i)) 0) as (cp & Hp & Hh & _); [multiset_solver |].
  apply wp_bind. eapply wp_getp; [done |]. unfold home in Hh. destruct (cp_data cp); [| done].
  apply wp_bind. eapply wp_mono.
  { apply (IH (i + 1) s ({[+ Tok u p (ip, u64 (idx + i)) 0 +]} ⊎ o)).
    by rewrite (assoc_L _), (comm_L _ (run_toks _ _ _ _ _)). }
  intros ds s' [-> Hl]. apply wp_ret. cbn. by rewrite Hl.
Qed.

Lemma store_data_ok ip idx v ps : v ∈ [Fill; Filled] -> forall ds i s o, Inv s (run_toks Fill ip idx i ps ⊎ o) ->
  length ds = length ps ->
  (coh = true -> v = Filled -> forall j d, ds !! j = Some d -> d = disk (fs s) ip (u64 (idx + (i + Z.of_nat j)))) ->
  wp (store_data ps ds) s (fun _ s' => Inv s' (run_toks v ip idx i ps ⊎ o)).
Proof.
  intros Hv. induction ps as [| p ps IH]; intros [| d ds] i s o HI Hl Hd; try done; cbn [store_data run_toks] in *; [by apply wp_ret |].
  destruct (inv_tok _ _ _ _ (proj1 HI) Fill p (ip, u64 (idx + i)) 0) as (cp & Hp & Hh & _); [multiset_solver |].
  apply wp_bind. eapply wp_updp; [done |]. set (s1 := set_pages _ s).
  assert (HI1 : Inv s1 (run_toks Fill ip idx (i + 1) ps ⊎ ({[+ Tok v p (ip, u64 (idx + i)) 0 +]} ⊎ o))).
  { rewrite (assoc_L _), (comm_L _ (run_toks _ _ _ _ _)), <- (assoc_L _). rewrite <- (assoc_L _) in HI.
    eapply Inv_store; [exact HI | use_in | done | done |]. intros Hc Hvf. cbn.
    rewrite (Hd Hc Hvf 0%nat d) by done. by rewrite Z.add_0_r. }
  eapply wp_mono; [apply (IH ds (i + 1) s1 _ HI1); [by injection Hl |] |].
  - intros Hc Hvf j d' Hj. rewrite (Hd Hc Hvf (S j) d' Hj). do 2 f_equal. lia.
  - intros [] s2 HI2. by rewrite (assoc_L _), (comm_L _ (run_toks _ _ _ _ _)) in HI2.
Qed.

Lemma get_inode_ok s ip : is_Some (inode_at (fs s) ip) -> wp (get_inode ip) s (fun i s' => s' = s /\ inode_at (fs s) ip = Some i).
Proof. intros [i Hi]. exists i, s. unfold get_inode. by rewrite Hi. Qed.

Lemma run_toks_live s o u ip idx i p ps : Inv s (run_toks u ip idx i (p :: ps) ⊎ o) -> is_Some (inode_at (fs s) ip).
Proof.
  intros (Hi & _). destruct (inv_tok _ _ _ _ Hi u p (ip, u64 (idx + i)) 0) as (cp & Hp & Hh & _); [cbn [run_toks]; multiset_solver |].
  apply (pk_live _ _ _ _ (inv_page _ _ _ _ Hi _ _ Hp)). unfold home in Hh. destruct (cp_data cp), (cp_inode cp); try done.
  by injection Hh as ->.
Qed.

Lemma on_fs_ok {A} (f : F -> option (A * F)) s a f' : f (fs s) = Some (a, f') ->
  on_fs f s = Some (a, set_fs f' s).
Proof. intros Hf. unfold on_fs. by rewrite Hf. Qed.

(** What [readpages] leaves: pages filled when it succeeds, pages still to be
    read one by one when there is no such operation or it gave up. *)
Lemma call_readpages_ok ip idx p ps s o : Inv s (run_toks Fill ip idx 0 (p :: ps) ⊎ o) ->
  0 <= idx < 2 ^ 64 -> Z.of_nat (length (p :: ps)) <= PAGE_CACHE_RA_MAX_PAGES ->
  (forall j, 0 <= j < Z.of_nat (length (p :: ps)) -> readable ip (u64 (idx + j))) ->
  wp (call_readpages ip idx (p :: ps)) s (fun r s' => let '(batch, rc, _) := r in
    (batch = true -> rc = 0 \/ rc = - ENOMEM \/ rc = - EOPNOTSUPP) /\
    Inv s' (run_toks (if batch && (rc =? 0) then Filled else Fill) ip idx 0 (p :: ps) ⊎ o)).
Proof.
  intros HI Hidx Hmax Hr. unfold call_readpages. apply wp_bind. eapply wp_mono; [eapply get_inode_ok, run_toks_live, HI |].
  intros i s' [-> Hin]. destruct (i_aop i ≫= readpages) as [rd |] eqn:Ha; [| by apply wp_ret].
  apply bind_Some in Ha as (a & Ha & Hrd). apply wp_bind. eapply wp_mono; [by eapply page_data_ok |].
  intros ds s' [-> Hlen]. apply wp_bind. pose proof HI as (_ & Hok & _).
  destruct (law_readpages (fs s) ip i a rd idx ds Hok Hin Ha Hrd) as (rc & ds' & st & f' & He & Hk & Hl' & Hrc & Hd);
    [done | rewrite Hlen; cbn [length] in *; lia | by rewrite Hlen |].
  eapply wp_val; [by apply on_fs_ok |]. cbn beta iota. set (v := if rc =? 0 then Filled else Fill).
  assert (HI1 : Inv (set_fs f' s) (run_toks Fill ip idx 0 (p :: ps) ⊎ o)) by (apply Inv_fs; [done | done | apply Hd]).
  apply wp_bind. eapply wp_mono.
  { apply (store_data_ok ip idx v (p :: ps)) with (i := 0) (o := o); [| exact HI1 | congruence |].
    - unfold v. destruct (rc =? 0); use_in.
    - intros Hc Hv j d Hj. destruct (Hd Hc) as [Hd1 Hd2]. cbn [fs set_fs]. rewrite Hd1.
      unfold v in Hv. destruct (Z.eqb_spec rc 0); [| done]. by apply Hd2. }
  intros [] s2 HI2. apply wp_ret. done.
Qed.

Lemma call_readpage_ok ip idx p s o : Inv s ({[+ Tok Fill p (ip, idx) 0 +]} ⊎ o) -> readable ip idx ->
  wp (call_readpage ip p) s (fun rc s' => rc = 0 /\ Inv s' ({[+ Tok Filled p (ip, idx) 0 +]} ⊎ o)).
Proof.
  intros HI Hr. pose proof HI as (Hi & Hok & _).
  destruct (inv_tok _ _ _ _ Hi Fill p (ip, idx) 0) as (cp & Hp & Hh & _); [multiset_solver |].
  assert (Hd0 : exists d, cp_data cp = Some d /\ cp_inode cp = Some ip /\ cp_index cp = idx).
  { unfold home in Hh. destruct (cp_data cp), (cp_inode cp); try done. injection Hh as -> ->. eauto. }
  destruct Hd0 as (d & Hd & Hip & Hidx). pose proof (pk_live _ _ _ _ (inv_page _ _ _ _ Hi _ _ Hp) _ Hip) as Hl.
  unfold call_readpage. apply wp_bind. eapply wp_mono; [by apply get_inode_ok |]. intros i s' [-> Hin].
  apply wp_bind. eapply wp_getp; [done |]. destruct (law_has_read _ _ _ Hok Hr) as (i' & Hin' & rd & Ha). assert (i' = i) as -> by congruence. rewrite Ha, Hd, Hidx.
  apply bind_Some in Ha as (a & Ha & Hrd). apply wp_bind.
  destruct (law_readpage (fs s) ip i a rd idx d Hok Hin Ha Hrd Hr) as (d' & f' & He & Hk & Hdd).
  eapply wp_val; [by apply on_fs_ok |]. cbn beta iota. apply wp_bind. eapply wp_updp; [exact Hp |]. apply wp_ret.
  split; [done |]. eapply (Inv_store (set_fs f' s) o p Fill Filled); [| use_in | use_in | exact Hp |].
  - apply Inv_fs; [exact HI | done | apply Hdd].
  - intros Hc _. destruct (Hdd Hc) as [-> He']. cbn. by rewrite He'.
Qed.

(** A page that was read becomes usable. *)
Lemma Inv_filled s o p cp k : Inv s ({[+ Tok Filled p k 0 +]} ⊎ o) -> pages s !! p = Some cp ->
  Inv (set_pages (<[p := set_flags (set_flag (clear_flag (cp_flags cp) CACHE_PAGE_FILLING) CACHE_PAGE_UPTODATE) cp]> (pages s)) s)
    (held p k ⊎ o).
Proof.
  intros HI Hp. eapply Inv_credits; [exact HI | | done | done | by unfold held; rewrite !credits_tok]. set (cp' := set_flags _ _).
  pose proof HI as (Hi & _). destruct (fill_filling _ _ _ _ _ _ HI ltac:(use_in) Hp) as [Hf Hfo].
  destruct (inv_tok _ _ _ _ Hi Filled p k 0) as (c0 & ? & Hh & _); [multiset_solver |]. simplify_eq.
  pose proof (inv_page _ _ _ _ Hi _ _ Hp) as Hpk. destruct (inv_page _ _ _ _ Hi _ _ Hp) as [K1 K2 K3 K4 K5 K6 K7 K8].
  assert (Hf' : filling cp' = false) by (unfold filling; cbn; by flags).
  assert (Hu' : uptodate cp' = true) by (unfold uptodate; cbn; by flags).
  assert (Hd' : dirty cp' = dirty cp) by (unfold dirty; cbn; by flags).
  assert (Hv' : invalid cp' = invalid cp) by (unfold invalid; cbn; by flags).
  assert (Huo : upd_ok p cp cp' {[+ Tok Filled p k 0 +]} (held p k)).
  { split; try done.
    - by rewrite Hv'.
    - unfold held. by rewrite !pins_tok.
    - unfold fills, held. by rewrite !is_use_tok, Hf, Hf', (bool_decide_eq_true_2 (p = p)).
    - by rewrite Hf'.
    - intros w k' sn Ht%gmultiset_elem_of_singleton. by simplify_eq. }
  assert (HL : forall w, local p {[+ Tok w p k 0 +]}) by (intros; apply local_singleton).
  refine (inv_upd disk coh s _ p cp _ _ _ o Hi Hp (mk_is_Some _ _ Hh) (HL _) (HL _) Huo (pages_updp _ _ _) _).
  intros Hc Hco. refine (coherent_upd disk coh s _ p cp _ _ _ o Hi Hp (HL _) (HL _) Huo (pages_updp _ _ _) eq_refl _ Hco).
  split.
  - unfold credits, held. by rewrite !count_singleton.
  - intros d k' Hdd Hk' _. eapply (co_data _ _ _ Hco p cp); [done | done | done |]. right.
    unfold filleds. rewrite count_union, is_use_tok, !bool_decide_eq_true_2 by (done || use_in). cbn. lia.
  - intros k' _ Hb. congruence.
  - unfold credits, held. rewrite !count_singleton. cbn. split; lia.
  - intros w k' sn Ht%gmultiset_elem_of_singleton Hw. simplify_eq. use_in.
  - intros k' sn Hk' Ht. rewrite Hh in Hk'. simplify_eq. right. right. apply (fill_disk _ _ _ _ _ HI ltac:(use_in) Hc).
Qed.

Lemma fill_done_ok source allocated i p k s o : Inv s ({[+ Tok Filled p k 0 +]} ⊎ o) ->
  wp (fill_done source allocated i 0 p) s (fun _ s' => Inv s' (held p k ⊎ o)).
Proof.
  intros HI. destruct (tok_page _ _ _ _ _ _ HI) as (cp & Hp & _).
  pose proof (lookup_lt_Some _ _ _ Hp) as Hb. unfold fill_done. cbn [negb Z.eqb].
  apply wp_bind. eapply wp_updp; [done |]. apply wp_bind. eapply wp_updp; [cbn; by apply list_lookup_insert_eq |].
  cbn [pages set_pages]. rewrite list_insert_insert_eq. set (s1 := set_pages _ _).
  assert (HI1 : Inv s1 (held p k ⊎ o)) by (by apply (Inv_filled s o p cp k)).
  destruct (negb (i =? 0)); [| by apply wp_ret].
  enough (Hq : wp (updp p (set_ra (u8 source) (u8 (ra_bucket allocated)) RA_LIFECYCLE_OUTSTANDING) ;;
      stat_add (Stat.admitted_speculative source) 1 ;; stat_add (Stat.outstanding source) 1 ;;
      modify (fun s => if cache_stats s (Stat.outstanding_peak source) <? cache_stats s (Stat.outstanding source)
                       then set_stats (<[Stat.outstanding_peak source := cache_stats s (Stat.outstanding source)]> (cache_stats s)) s
                       else s)) s1 (fun _ s' => quiet s1 s')).
  { eapply wp_mono; [exact Hq |]. intros [] s2 Hq2. by eapply Inv_quiet. }
  apply wp_quiet_bind; [apply wp_quiet_updp; [eexists; cbn; by apply list_lookup_insert_eq | done] |]. intros _ s2 _.
  apply wp_quiet_bind; [apply wp_stat_add |]. intros _ s3 _. apply wp_quiet_bind; [apply wp_stat_add |]. intros _ s4 _.
  apply wp_modify_cache. destruct (_ <? _); [apply quiet_stats | apply quiet_refl].
Qed.

(** ** The functions as threads *)

Lemma run_toks_cons u ip idx i p ps :
  run_toks u ip idx i (p :: ps) = {[+ Tok u p (ip, u64 (idx + i)) 0 +]} ⊎ run_toks u ip idx (i + 1) ps.
Proof. done. Qed.

Lemma safe_quiet {A} (m : prog (cache F) A) h : (forall s, wp m s (fun _ s' => quiet s s')) ->
  safe Inv (atomic m) h (fun _ h' => h' = h).
Proof.
  intros Hm. apply safe_atomic. intros s o HI. eapply wp_mono; [apply Hm |]. intros a s' Hq. exists h.
  split; [exact (Inv_quiet _ _ _ Hq HI) | done].
Qed.

Lemma safe_fill_loop ip idx source allocated batch batch_rc ps : forall i admitted,
  (batch = true -> batch_rc = 0) ->
  (forall j, i <= j < i + Z.of_nat (length ps) -> readable ip (u64 (idx + j))) ->
  safe Inv (fill_loop ip source allocated batch batch_rc ps i admitted 0)
    (run_toks (if batch then Filled else Fill) ip idx i ps)
    (fun r h => r.2 = 0 /\ h = run_toks Use ip idx i ps).
Proof.
  induction ps as [| p ps IH]; intros i admitted Hb Hr; [done |]. cbn [fill_loop]. rewrite !run_toks_cons.
  apply safe_bind. set (k := (ip, u64 (idx + i))). set (rest := run_toks _ ip idx (i + 1) ps).
  assert (Hrd : safe Inv (if batch then mret batch_rc else atomic (call_readpage ip p))
    {[+ Tok (if batch then Filled else Fill) p k 0 +]} (fun rc h => rc = 0 /\ h = {[+ Tok Filled p k 0 +]})).
  { destruct batch; [split; auto |]. apply safe_atomic. intros s o HI. eapply wp_mono.
    - apply call_readpage_ok; [exact HI |]. apply Hr. cbn [length]. lia.
    - intros rc s' [-> HI']. by eexists. }
  apply safe_frame. eapply safe_mono; [exact Hrd |]. intros rc h [-> ->]. cbn beta. apply safe_bind, safe_frame.
  eapply safe_mono with (P := fun _ h => h = held p k).
  { apply safe_atomic. intros s o HI. eapply wp_mono; [by apply fill_done_ok |]. intros [] s' HI'. by eexists. }
  intros [] h ->. cbn beta. rewrite (comm_L _ (held p k)). apply safe_frame. cbn [negb andb Z.eqb].
  eapply safe_mono; [apply IH; [done |] |].
  - intros j Hj. apply Hr. cbn [length]. lia.
  - intros r h [Hr0 ->]. split; [done |]. by rewrite (comm_L _ (held p k)).
Qed.

Lemma safe_release_pages ip idx ps : forall i,
  safe Inv (release_pages ps) (run_toks Use ip idx i ps) (fun _ h => h = ∅).
Proof.
  induction ps as [| p ps IH]; intros i; [done |]. cbn [release_pages]. rewrite run_toks_cons.
  apply safe_bind, safe_frame. eapply safe_mono; [apply safe_release; use_in |]. intros [] h ->. cbn beta.
  rewrite <- empty_union. apply IH.
Qed.

Lemma safe_fill_pages ip idx source p0 ps :
  0 <= idx < 2 ^ 64 -> Z.of_nat (length (p0 :: ps)) <= PAGE_CACHE_RA_MAX_PAGES ->
  (forall j, 0 <= j < Z.of_nat (length (p0 :: ps)) -> readable ip (u64 (idx + j))) ->
  safe Inv (fill_pages ip idx source p0 ps) (run_toks Fill ip idx 0 (p0 :: ps))
    (fun r h => r = (0, Some p0) /\ h = held p0 (ip, u64 idx)).
Proof.
  intros Hidx Hmax Hr. unfold fill_pages. apply safe_bind.
  eapply safe_mono with (P := fun r h => let '(batch, rc, _) := r in
    (batch = true -> rc = 0 \/ rc = - ENOMEM \/ rc = - EOPNOTSUPP) /\
    h = run_toks (if batch && (rc =? 0) then Filled else Fill) ip idx 0 (p0 :: ps)).
  { apply safe_atomic. intros s o HI. eapply wp_mono; [by apply call_readpages_ok |].
    intros [[batch rc] st] s' [Hrc HI']. by eexists. }
  intros [[batch rc] st] h [Hrc ->]. apply safe_bind. eapply safe_mono; [apply safe_quiet |].
  { intros s. apply wp_quiet_bind; [| intros _ s1 _; repeat (apply wp_quiet_bind; [apply wp_stat_add | intros _ ? _]); apply wp_stat_add].
    destruct (batch && _); [| apply wp_quiet_ret]. apply wp_quiet_bind; [apply wp_stat_add | intros _ s2 _; apply wp_stat_add]. }
  intros [] h ->. cbn beta. set (fb := (rc =? - ENOMEM) || (rc =? - EOPNOTSUPP)).
  assert (Hbb : batch && (rc =? 0) = batch && negb fb).
  { destruct batch; [| done]. destruct (Hrc eq_refl) as [-> | [-> | ->]]; done. }
  rewrite Hbb. apply safe_bind. eapply safe_mono.
  { apply (safe_fill_loop ip idx source _ (batch && negb fb) rc (p0 :: ps) 0 0); [| intros j Hj; apply Hr; lia].
    intros Hb. rewrite <- Hbb in Hb. apply andb_true_iff in Hb as [_ Hb]. by apply Z.eqb_eq. }
  intros [admitted de] h [Hde ->]. cbn in Hde. subst de. cbn [Z.eqb negb]. apply safe_bind. rewrite run_toks_cons, Z.add_0_r.
  rewrite (comm_L _). apply safe_frame. eapply safe_mono; [apply safe_release_pages |]. intros [] h ->. cbn beta.
  rewrite <- empty_union. apply safe_bind. eapply safe_mono; [apply safe_quiet |].
  { intros s. do 2 (apply wp_quiet_bind; [apply wp_stat_add | intros _ ? _]).
    destruct (1 <? admitted); [apply wp_quiet_bind; [apply wp_stat_add | intros _ s2 _; apply wp_stat_add] | apply wp_quiet_ret]. }
  by intros [] h ->.
Qed.

Lemma ra_window_max (i : inode F) idx w : ra_window i idx w <= PAGE_CACHE_RA_MAX_PAGES.
Proof.
  assert (Hc : page_cache_ra_cap w <= 16).
  { unfold page_cache_ra_cap, XOS_RA_MAX_PAGES, PAGE_CACHE_RA_MAX_PAGES. repeat case_match; bool_to_prop; lia. }
  unfold ra_window, PAGE_CACHE_RA_MAX_PAGES. repeat case_match; bool_to_prop; lia.
Qed.

(** [page_cache_get_ra] of a page that can be read returns it pinned (or is
    still running). *)
Definition get_post (ip idx : Z) (r : Z * option nat) h : Prop :=
  r = (- EINVAL, None) /\ h = ∅ \/ exists p, r = (0, Some p) /\ h = held p (ip, idx).

Lemma safe_get_ra_once again ip idx window source : readable ip idx -> 0 <= idx < 2 ^ 64 ->
  safe Inv again ∅ (get_post ip idx) ->
  safe Inv (get_ra_once again ip idx window source) ∅ (get_post ip idx).
Proof.
  intros Hr Hidx Hagain. unfold get_ra_once. destruct (_ || _); [by left |].
  apply safe_bind. eapply safe_mono; [apply safe_lookup |]. intros [p |] h ->; [right; by eexists |].
  apply safe_bind, safe_atomic. intros s o HI.
  destruct (law_has_read _ _ _ (proj1 (proj2 HI)) Hr) as (i & Hi & rd & Hrd).
  eapply wp_mono; [apply get_inode_ok; by rewrite Hi |]. intros i' s' [-> Hi']. assert (i' = i) as -> by congruence.
  exists ∅. split; [done |]. rewrite Hrd. apply safe_bind.
  eapply safe_mono with (P := fun _ h => h = ∅).
  { destruct (1 <? window); [| done]. apply safe_quiet. intros s1.
    repeat (apply wp_quiet_bind; [apply wp_stat_add | intros _ ? _]). apply wp_stat_add. }
  intros [] h ->. apply safe_bind.
  eapply safe_mono with (P := fun ps h => Z.of_nat (length ps) <= Z.max 0 (ra_window i idx window) /\ h = run_toks Fill ip idx 0 ps).
  { apply safe_atomic. intros s1 o1 HI1. rewrite <- empty_union in HI1.
    destruct (law_has_read _ _ _ (proj1 (proj2 HI1)) Hr) as (i1 & Hi1 & _).
    eapply wp_mono; [apply reserve_ok; [exact HI1 | by rewrite Hi1 |] |].
    { intros j Hj. apply (law_readable (fs s) ip i idx window j); [apply HI | done | done | lia]. }
    intros ps s2 [Hlen HI2].
    eexists. split; [exact HI2 |]. split; [lia | done]. }
  intros [| p0 ps] h [Hlen ->]; [done |]. eapply safe_mono; [apply safe_fill_pages |].
  - done.
  - pose proof (ra_window_max i idx window). unfold PAGE_CACHE_RA_MAX_PAGES in *. lia.
  - intros j Hj. apply (law_readable (fs s) ip i idx window j); [apply HI | done | done | lia].
  - intros r h [-> ->]. right. exists p0. by rewrite u64_small.
Qed.

Lemma safe_get_ra fuel : forall ip idx window source, readable ip idx -> 0 <= idx < 2 ^ 64 ->
  safe Inv (page_cache_get_ra fuel ip idx window source) ∅ (get_post ip idx).
Proof.
  induction fuel as [| fuel IH]; intros ip idx window source Hr Hidx; cbn [page_cache_get_ra];
    apply safe_get_ra_once; try done. by apply IH.
Qed.

(** *** Stores and dirty pages *)

(** A store into a pinned page, with its history. *)
Definition store_page (p off : nat) (d : list Z) : prog (cache F) unit :=
  cp ← getp p;
  match home cp, cp_data cp with
  | Some (ip, idx), Some old =>
      updp p (set_data (Some (splice off d old))) ;;
      modify (fun s => set_written (fun ip' idx' => if bool_decide ((ip', idx') = (ip, idx)) then splice off d old
                                                    else written s ip' idx') s)
  | _, _ => fault
  end.

(** What a thread may store: contents that still fit. *)
Definition store_ok (off : nat) (d : list Z) (k : Z * Z) : Prop :=
  coh = true -> forall old, fits k.1 k.2 old -> fits k.1 k.2 (splice off d old).

Lemma store_page_ok p off d k s o : store_ok off d k -> Inv s (held p k ⊎ o) ->
  wp (store_page p off d) s (fun _ s' => Inv s' ({[+ Tok Mod p k 0 +]} ⊎ o)).
Proof.
  intros Hso HI. pose proof HI as (Hi & Hfs & Hcr0 & Ha).
  destruct (inv_tok _ _ _ _ Hi Use p k 0) as (cp & Hp & Hh & Hf); [unfold held; multiset_solver |].
  assert (Hf' : filling cp = false) by (apply Hf; use_in). pose proof (lookup_lt_Some _ _ _ Hp) as Hb.
  unfold store_page. apply wp_bind. eapply wp_getp; [done |]. rewrite Hh. destruct k as [ip idx].
  destruct (cp_data cp) as [old |] eqn:Hd; [| by unfold home in Hh; rewrite Hd in Hh].
  apply wp_bind. eapply wp_updp; [done |]. apply wp_modify_cache. set (new := splice off d old). set (s1 := set_written _ _).
  set (cp' := set_data (Some new) cp).
  assert (Hfit : all_fit s1).
  { intros Hc ip' idx' Hr. cbn. case_bool_decide as Hk; [| by apply Ha]. injection Hk as -> ->. apply (Hso Hc).
    cbn [fst snd]. rewrite (co_data _ _ _ (inv_coh _ _ _ _ Hi Hc) p cp old (ip, idx) Hp Hd Hh (or_introl Hf')). by apply Ha. }
  enough (inv disk coh s1 ({[+ Tok Mod p (ip, idx) 0 +]} ⊎ o)) by (split_and!; try done; unfold held in Hcr0; by rewrite credits_tok in *).
  assert (Hh' : home cp' = home cp) by (unfold home, cp'; cbn; by rewrite Hd).
  pose proof (inv_page _ _ _ _ Hi _ _ Hp) as Hpk. destruct (inv_page _ _ _ _ Hi _ _ Hp) as [K1 K2 K3 K4 K5 K6 K7 K8].
  assert (Huo : upd_ok p cp cp' (held p (ip, idx)) {[+ Tok Mod p (ip, idx) 0 +]}).
  { split; try done.
    - unfold held. by rewrite !pins_tok.
    - unfold fills, held. by rewrite !is_use_tok.
    - change (filling cp') with (filling cp). intros _. apply (pk_uptodate _ _ _ _ Hpk); [by rewrite Hd | done].
    - intros w k' sn Ht%gmultiset_elem_of_singleton. simplify_eq. split; [by rewrite Hh' | done]. }
  assert (HL : forall w, local p {[+ Tok w p (ip, idx) 0 +]}) by (intros; apply local_singleton).
  assert (Hpu : pages_upd s s1 p cp') by done.
  refine (inv_upd disk coh s s1 p cp cp' _ _ o Hi Hp (mk_is_Some _ _ Hh) (HL _) (HL _) Huo Hpu _).
  intros Hc [C1 C2 C3 C4 C5 C6].
  assert (Hm : (0 < mods p ({[+ Tok Mod p (ip, idx) 0 +]} ⊎ o))%nat).
  { unfold mods. rewrite count_union, is_use_tok, !bool_decide_eq_true_2 by (done || use_in). cbn. lia. }
  assert (Hpg : forall q cq, pages s1 !! q = Some cq -> q = p /\ cq = cp' \/ q <> p /\ pages s !! q = Some cq).
  { intros q cq Hq. cbn in Hq. destruct (decide (q = p)) as [-> | Hqp]; [left | right].
    - rewrite list_lookup_insert_eq in Hq by done. by simplify_eq.
    - by rewrite list_lookup_insert_ne in Hq by done. }
  assert (Huniq : forall q cq, pages s !! q = Some cq -> home cq = Some (ip, idx) -> q = p).
  { intros q cq Hq Hk. eapply (lo_unique _ _ _ _ (inv_lists _ _ _ _ Hi) q p (ip, idx)); eapply shape_lookup; eauto. }
  assert (Hother : forall q, q <> p -> forall us, count (is_use us q) ({[+ Tok Mod p (ip, idx) 0 +]} ⊎ o) = count (is_use us q) (held p (ip, idx) ⊎ o)).
  { intros q Hqp us. unfold held. rewrite !count_union, !is_use_tok, !(bool_decide_eq_false_2 (p = q)), !andb_false_r by done. done. }
  assert (Hw : forall k, written s1 k.1 k.2 = if bool_decide (k = (ip, idx)) then new else written s k.1 k.2) by (by intros []).
  assert (Hno : forall q k' sn, Tok Wbd q k' sn ∈ {[+ Tok Mod p (ip, idx) 0 +]} ⊎ o -> Tok Wbd q k' sn ∈ held p (ip, idx) ⊎ o).
  { intros q k' sn [Ht%gmultiset_elem_of_singleton | Ht]%gmultiset_elem_of_disj_union; [done |]. apply gmultiset_elem_of_disj_union. by right. }
  split.
  - intros q cq [[-> ->] | [_ Hq]]%Hpg; [by apply (C1 p cp) | eauto].
  - intros q cq d' k' [[-> ->] | [Hqp Hq]]%Hpg Hd' Hk' Hor; rewrite Hw.
    + rewrite Hh', Hh in Hk'. simplify_eq. rewrite bool_decide_eq_true_2 by done. by injection Hd'.
    + rewrite bool_decide_eq_false_2; [| intros ->; eauto]. unfold filleds in Hor. rewrite Hother in Hor by done. eauto.
  - intros k'. rewrite Hw. case_bool_decide as Hk'; [subst k'; right; exists p, cp' |].
    + rewrite (pu_pages _ _ _ _ Hpu), list_lookup_insert_eq by done.
      split_and!; [done | exact (eq_trans Hh' Hh) | exact Hf' | by right].
    + destruct (C3 k') as [? | (q & cq & Hq & Hkq & Hfq & Hor)]; [by left | right]. exists q, cq.
      assert (Hqp : q <> p) by (intros ->; simplify_eq; congruence). cbn. rewrite list_lookup_insert_ne by done.
      unfold mods in *. rewrite Hother by done. done.
  - assert (Hcr : credits ({[+ Tok Mod p (ip, idx) 0 +]} ⊎ o) = credits (held p (ip, idx) ⊎ o)) by (unfold held; by rewrite !credits_tok).
    rewrite Hcr. intros q cq [[-> ->] | [_ Hq]]%Hpg Hk; [apply (C4 p cp Hp); by rewrite <- Hh' | eauto].
  - intros u q k' sn cq Ht Hu Hq. assert (Ht' : Tok u q k' sn ∈ held p (ip, idx) ⊎ o).
    { apply gmultiset_elem_of_disj_union in Ht as [Ht%gmultiset_elem_of_singleton | Ht]; [simplify_eq; use_in |].
      apply gmultiset_elem_of_disj_union. by right. }
    destruct (Hpg _ _ Hq) as [[-> ->] | [_ Hq']]; [apply (C5 _ _ _ _ cp Ht' Hu Hp) | eauto].
  - intros q k' sn cq Ht Hq. destruct (Hpg _ _ Hq) as [[-> ->] | [Hqp Hq']]; [by right; left |].
    rewrite Hw, bool_decide_eq_false_2; [unfold mods; rewrite Hother by done; eauto |].
    intros ->. destruct (inv_tok _ _ _ _ Hi _ _ _ _ (Hno _ _ _ Ht)) as (c0 & Hc0 & Hk0 & _). eauto.
Qed.

(** [page_cache_mark_dirty] after a store. *)
Lemma mark_dirty_ok p k s o : Inv s (({[+ Tok Mod p k 0 +]} ⊎ {[+ Credit +]}) ⊎ o) ->
  wp (updp p (fun cp => set_seq (u32 (dirty_seq cp + 1)) (set_flags (set_flag (cp_flags cp) CACHE_PAGE_DIRTY) cp))) s
    (fun _ s' => Inv s' (held p k ⊎ o)).
Proof.
  intros HI. pose proof HI as (Hi & Hfs & Hcr & Ha). set (T := {[+ Tok Mod p k 0 +]} ⊎ {[+ Credit +]}) in *.
  destruct (inv_tok _ _ _ _ Hi Mod p k 0) as (cp & Hp & Hh & Hf); [unfold T; multiset_solver |].
  assert (Hf' : filling cp = false) by (apply Hf; use_in). eapply wp_updp; [done |]. set (cp' := set_seq _ _).
  assert (HcT : credits T = 1%nat) by (unfold T, credits; by rewrite count_union, !count_singleton).
  assert (Hch : credits (held p k) = 0%nat) by (unfold held, credits; by rewrite count_singleton).
  assert (HuT : forall us, count (is_use us p) T = if bool_decide (Mod ∈ us) then 1%nat else 0%nat).
  { intros us. unfold T. rewrite count_union, is_use_tok, count_singleton, (bool_decide_eq_true_2 (p = p)), andb_true_r by done. cbn. lia. }
  assert (Ef : forall m, Z.land CACHE_PAGE_DIRTY m = 0 -> has_flag (cp_flags cp') m = has_flag (cp_flags cp) m).
  { intros m Hm. cbn. rewrite has_flag_set. unfold has_flag at 2. rewrite Hm. apply orb_false_r. }
  assert (Hff : filling cp' = false) by (unfold filling; rewrite Ef; done).
  assert (Hdd : dirty cp' = true) by (unfold dirty; cbn; by flags).
  pose proof (inv_page _ _ _ _ Hi _ _ Hp) as Hpk. destruct (inv_page _ _ _ _ Hi _ _ Hp) as [K1 K2 K3 K4 K5 K6 K7 K8].
  assert (Huo : upd_ok p cp cp' T (held p k)).
  { split; try done; unfold invalid, uptodate; rewrite ?Ef by done; try done.
    - unfold held, T. rewrite pins_tok. unfold pins. rewrite count_union, !count_singleton. cbn.
      rewrite bool_decide_eq_true_2 by done. cbn. lia.
    - unfold fills. rewrite HuT, Hf', Hff. unfold held. rewrite is_use_tok. done.
    - intros _. apply (pk_uptodate _ _ _ _ Hpk); [| done]. unfold home in Hh. by destruct (cp_data cp).
    - congruence.
    - intros w k' sn Ht%gmultiset_elem_of_singleton. simplify_eq. split; [done | done]. }
  assert (HL : local p T). { intros t [->%gmultiset_elem_of_singleton | ->%gmultiset_elem_of_singleton]%gmultiset_elem_of_disj_union;
    [left; cbn; by case_bool_decide | by right]. }
  assert (HL' : local p (held p k)) by apply local_singleton.
  split; [| split; [done | split; [| done]]].
  2:{ unfold credits in *. rewrite count_union in *. lia. }
  refine (inv_upd disk coh s _ p cp _ _ _ o Hi Hp (mk_is_Some _ _ Hh) HL HL' Huo (pages_updp _ _ _) _).
  intros Hc Hco. refine (coherent_upd disk coh s _ p cp _ _ _ o Hi Hp HL HL' Huo (pages_updp _ _ _) eq_refl _ Hco).
  destruct (co_seq _ _ _ Hco p cp Hp (mk_is_Some _ _ Hh)) as [Hs0 Hs1]. unfold credits in Hs1, HcT, Hch. rewrite count_union in Hs1.
  assert (Hseq : dirty_seq cp' = dirty_seq cp + 1) by (cbn; apply u32_small; lia).
  split.
  - unfold credits. lia.
  - intros d k' Hd Hk' _. eapply (co_data _ _ _ Hco p cp); [done | done | done | by left].
  - intros k' _ _ _. right. split; [done | by left].
  - rewrite Hseq. unfold credits. lia.
  - intros w k' sn Ht%gmultiset_elem_of_singleton Hw. simplify_eq. use_in.
  - intros k' sn Hk' Ht. left. rewrite Hseq. assert (Ht' : Tok Wbd p k' sn ∈ T ⊎ o).
    { apply gmultiset_elem_of_disj_union in Ht as [Ht%gmultiset_elem_of_singleton | Ht]; [done |]. apply gmultiset_elem_of_disj_union. by right. }
    pose proof (co_snap _ _ _ Hco _ _ _ _ _ Ht' ltac:(use_in) Hp). lia.
Qed.

Lemma safe_store p off d k : store_ok off d k -> safe Inv (atomic (store_page p off d)) (held p k) (fun _ h => h = {[+ Tok Mod p k 0 +]}).
Proof.
  intros Hso. apply safe_atomic. intros s o HI. eapply wp_mono; [by apply store_page_ok |]. intros [] s' HI'. by eexists.
Qed.

Lemma safe_mark_dirty p k :
  safe Inv (page_cache_mark_dirty p) ({[+ Tok Mod p k 0 +]} ⊎ {[+ Credit +]}) (fun _ h => h = held p k).
Proof.
  apply safe_atomic. intros s o HI. eapply wp_mono; [by apply mark_dirty_ok |]. intros [] s' HI'. by eexists.
Qed.

(** *** Writing back *)

(** Tokens for pages of one file: descriptor, index and snapshot of each. *)
Fixpoint wb_toks (u : use) (ip : Z) (l : list (nat * Z)) (sns : list Z) : gmultiset tok :=
  match l, sns with
  | (p, idx) :: l', sn :: sns' => {[+ Tok u p (ip, idx) sn +]} ⊎ wb_toks u ip l' sns'
  | _, _ => ∅
  end.

Definition use_toks (ip : Z) (l : list (nat * Z)) : gmultiset tok := wb_toks Use ip l (replicate (length l) 0).

Lemma wb_toks_elem u ip l sns t : t ∈ wb_toks u ip l sns -> exists p idx sn, t = Tok u p (ip, idx) sn /\ (p, idx) ∈ l.
Proof.
  revert sns. induction l as [| [p idx] l IH]; intros [| sn sns] Ht; cbn [wb_toks] in Ht; [multiset_solver .. |].
  apply gmultiset_elem_of_disj_union in Ht as [->%gmultiset_elem_of_singleton | Ht]; [eauto 6 using list_elem_of_here |].
  destruct (IH _ Ht) as (p' & idx' & sn' & -> & ?). eauto 6 using list_elem_of_further.
Qed.

Lemma wb_toks_pins u v ip l sns p : pins p (wb_toks u ip l sns) = pins p (wb_toks v ip l sns).
Proof.
  revert sns. induction l as [| [q idx] l IH]; intros [| sn sns]; cbn [wb_toks]; try done.
  unfold pins in *. by rewrite !count_union, !count_singleton, IH.
Qed.

Lemma wb_toks_use us u ip l sns p : u ∉ us -> count (is_use us p) (wb_toks u ip l sns) = 0%nat.
Proof.
  intros Hu. apply count_0. intros t (q & idx & sn & -> & _)%wb_toks_elem. cbn. by rewrite bool_decide_eq_false_2.
Qed.

Lemma wb_toks_credits u ip l sns : credits (wb_toks u ip l sns) = 0%nat.
Proof. apply count_0. by intros t (q & idx & sn & -> & _)%wb_toks_elem. Qed.

Lemma Inv_wb_begin s o p cp k : Inv s (held p k ⊎ o) -> pages s !! p = Some cp ->
  Inv (set_pages (<[p := if has_flag (cp_flags cp) CACHE_PAGE_DIRTY
                         then set_flags (set_flag (cp_flags cp) CACHE_PAGE_WRITEBACK) cp else cp]> (pages s)) s)
    ({[+ Tok Wb p k (dirty_seq cp) +]} ⊎ o).
Proof.
  intros HI Hp. eapply Inv_credits; [exact HI | | done | done | by unfold held; rewrite !credits_tok]. pose proof HI as (Hi & _).
  destruct (inv_tok _ _ _ _ Hi Use p k 0) as (c0 & ? & Hok); [unfold held; multiset_solver |]. simplify_eq.
  set (cp' := if has_flag (cp_flags cp) CACHE_PAGE_DIRTY then _ else cp).
  assert (Ef : forall m, Z.land CACHE_PAGE_WRITEBACK m = 0 -> has_flag (cp_flags cp') m = has_flag (cp_flags cp) m).
  { intros m Hm. unfold cp'. destruct (has_flag (cp_flags cp) CACHE_PAGE_DIRTY); [| done]. cbn. rewrite has_flag_set.
    unfold has_flag at 2. rewrite Hm. apply orb_false_r. }
  assert (Ecp : cp_inode cp' = cp_inode cp /\ cp_index cp' = cp_index cp /\ cp_data cp' = cp_data cp /\
    dirty_seq cp' = dirty_seq cp /\ pin_count cp' = pin_count cp).
  { unfold cp'. by destruct (has_flag _ _). }
  destruct Ecp as (E1 & E2 & E3 & E4 & E5). destruct Hok as [Hh Hf].
  eapply (inv_plain disk coh s _ p cp cp' (held p k)); [exact Hi | exact Hp | by rewrite Hh | | | apply pages_updp | ..];
    try done; try (apply Ef; done).
  - apply plain_singleton. use_in.
  - apply plain_singleton. use_in.
  - rewrite E5. unfold invalid. rewrite Ef by done. apply (pk_orphan _ _ _ _ (inv_page _ _ _ _ Hi _ _ Hp)).
  - unfold held. by rewrite !pins_tok, E5.
  - intros u k' sn Ht%gmultiset_elem_of_singleton. simplify_eq. split; [done |]. intros _. apply Hf. use_in.
  - intros _ k' sn Ht%gmultiset_elem_of_singleton. by simplify_eq.
Qed.

Lemma wb_begin_ok ip l : forall s o, Inv s (use_toks ip l ⊎ o) ->
  wp (wb_begin ip (Some <$> l.*1)) s (fun r s' => exists sns, r = Some sns /\ length sns = length l /\
    Inv s' (wb_toks Wb ip l sns ⊎ o)).
Proof.
  induction l as [| [p idx] l IH]; intros s o HI; cbn [wb_begin fmap list_fmap]; [apply wp_ret; by exists [] |].
  unfold use_toks in HI. cbn [length replicate wb_toks] in HI. rewrite <- (assoc_L _) in HI. fold (use_toks ip l) in HI.
  pose proof HI as (Hi & _). destruct (inv_tok _ _ _ _ Hi Use p (ip, idx) 0) as (cp & Hp & Hh & _); [multiset_solver |].
  apply wp_bind. eapply wp_getp; [exact Hp |].
  assert (Hg : bool_decide (cp_inode cp = Some ip) && bool_decide (is_Some (cp_data cp)) = true).
  { unfold home in Hh. destruct (cp_data cp), (cp_inode cp); try done. injection Hh as -> _.
    by rewrite !bool_decide_eq_true_2. }
  rewrite Hg. apply wp_bind.
  eapply wp_mono with (P := fun _ s' => Inv s' (use_toks ip l ⊎ ({[+ Tok Wb p (ip, idx) (dirty_seq cp) +]} ⊎ o))).
  - pose proof (Inv_wb_begin s _ p cp (ip, idx) HI Hp) as HI1. rewrite (assoc_L _), (comm_L _ {[+ _ +]}), <- (assoc_L _) in HI1.
    destruct (has_flag (cp_flags cp) CACHE_PAGE_DIRTY); [by eapply wp_updp |]. apply wp_ret. eapply Inv_quiet; [| exact HI1].
    rewrite list_insert_id by done. by repeat split.
  - intros [] s1 HI1. apply wp_bind. eapply wp_mono; [by apply IH |]. intros r s2 (sns & -> & Hl & HI2). apply wp_ret.
    exists (dirty_seq cp :: sns). split_and!; [done | by cbn; rewrite Hl |]. cbn [wb_toks].
    by rewrite (assoc_L _), (comm_L _ (wb_toks _ _ _ _)) in HI2.
Qed.

Lemma page_images_ok u ip l : forall sns s o, length sns = length l -> Inv s (wb_toks u ip l sns ⊎ o) ->
  wp (page_images (Some <$> l.*1)) s (fun im s' => s' = s /\ im.*1 = l.*2 /\
    forall p idx, (p, idx) ∈ l -> exists cp d, pages s !! p = Some cp /\ home cp = Some (ip, idx) /\ cp_data cp = Some d /\ (idx, d) ∈ im).
Proof.
  induction l as [| [p idx] l IH]; intros [| sn sns] s o Hl HI; cbn [page_images fmap list_fmap]; try done.
  { apply wp_ret. split_and!; [done | done |]. intros p idx Hin. by apply not_elem_of_nil in Hin. }
  cbn [wb_toks] in HI. rewrite <- (assoc_L _) in HI.
  pose proof HI as (Hi & _). destruct (inv_tok _ _ _ _ Hi u p (ip, idx) sn) as (cp & Hp & Hh & _); [multiset_solver |].
  assert (Hd0 : exists d, cp_data cp = Some d /\ cp_index cp = idx).
  { unfold home in Hh. destruct (cp_data cp), (cp_inode cp); try done. injection Hh as -> ->. eauto. }
  destruct Hd0 as (d & Hd & Hidx). apply wp_bind. eapply wp_getp; [exact Hp |]. rewrite Hd. apply wp_bind.
  rewrite (assoc_L _), (comm_L _ {[+ _ +]}), <- (assoc_L _) in HI.
  eapply wp_mono; [apply (IH sns s _ ltac:(by injection Hl) HI) |]. intros im s' (-> & Him & Hall). apply wp_ret.
  split_and!; [done | cbn; by rewrite Him, Hidx |]. intros q idx' [Hq | Hq]%elem_of_cons.
  - injection Hq as -> ->. exists cp, d. rewrite Hidx. split_and!; try done. by left.
  - destruct (Hall _ _ Hq) as (cq & dq & ? & ? & ? & ?). exists cq, dq. split_and!; try done. by right.
Qed.

(** The transfer: the disk gets the contents that the pages have now. *)
Lemma Inv_written ip l sns s o f' (rc : Z) : Inv s (wb_toks Wb ip l sns ⊎ o) -> keeps (fs s) f' ->
  (coh = true ->
    (forall p idx, (p, idx) ∈ l -> disk f' ip idx = written s ip idx \/ rc <> 0 /\ disk f' ip idx = disk (fs s) ip idx) /\
    (forall ip' idx', ip' <> ip \/ idx' ∉ l.*2 -> disk f' ip' idx' = disk (fs s) ip' idx')) ->
  Inv (set_fs f' s) (wb_toks (if rc =? 0 then Wbd else Wb) ip l sns ⊎ o).
Proof.
  intros (Hi & Hok & Hcr & Hfit) [Hok' Hlive] Hd. set (v := if rc =? 0 then Wbd else Wb).
  assert (Hv : v ∈ [Wb; Wbd]) by (unfold v; destruct (rc =? 0); use_in).
  assert (Hpin : forall p, pins p (wb_toks v ip l sns ⊎ o) = pins p (wb_toks Wb ip l sns ⊎ o)).
  { intros p. unfold pins. rewrite !count_union. f_equal. apply wb_toks_pins. }
  assert (Hcnt : forall us p, Wb ∉ us -> Wbd ∉ us -> count (is_use us p) (wb_toks v ip l sns ⊎ o) = count (is_use us p) (wb_toks Wb ip l sns ⊎ o)).
  { intros us p H1 H2. rewrite !count_union. f_equal. rewrite !wb_toks_use; [done | done |]. unfold v. by destruct (rc =? 0). }
  assert (Hcre : credits (wb_toks v ip l sns ⊎ o) = credits (wb_toks Wb ip l sns ⊎ o)).
  { pose proof (wb_toks_credits v ip l sns). pose proof (wb_toks_credits Wb ip l sns). unfold credits in *. rewrite !count_union. lia. }
  assert (Hswap : forall u p k sn, Tok u p k sn ∈ wb_toks v ip l sns ⊎ o ->
    Tok u p k sn ∈ wb_toks Wb ip l sns ⊎ o \/ u = v /\ Tok Wb p k sn ∈ wb_toks Wb ip l sns ⊎ o /\ exists idx, k = (ip, idx) /\ (p, idx) ∈ l).
  { intros u p k sn [Ht | Ht]%gmultiset_elem_of_disj_union; [right | left; apply gmultiset_elem_of_disj_union; by right].
    clear -Ht. revert sns Ht. induction l as [| [q j] l IH]; intros [| sn0 sns]; cbn [wb_toks]; [multiset_solver .. |].
    intros [Ht%gmultiset_elem_of_singleton | Ht]%gmultiset_elem_of_disj_union.
    - simplify_eq. split_and!; [done | multiset_solver |]. eexists. split; [done | by left].
    - destruct (IH _ Ht) as (-> & Hin & idx & -> & ?). split_and!; [done | multiset_solver |]. eexists. split; [done | by right]. }
  split; [| split; [done | by rewrite Hcre]]. clear Hfit. destruct Hi as [I1 I2 I3 I4]. split.
  - done.
  - intros p cp Hp. destruct (I2 p cp Hp) as [K1 K2 K3 K4 K5 K6 K7 K8]. split; try done.
    + eauto.
    + by rewrite Hpin.
    + unfold fills. rewrite Hcnt by use_in. done.
  - intros u p k sn [Ht | (-> & Ht & _)]%Hswap; [eauto |]. destruct (I3 _ _ _ _ Ht) as (cp & Hp & Hk & Hf).
    exists cp. split; [done |]. split; [done |]. intros _. apply Hf. use_in.
  - intros Hc. destruct (I4 Hc) as [C1 C2 C3 C4 C5 C6]. destruct (Hd Hc) as [Hd1 Hd2].
    assert (Hdisk : forall k, disk (fs s) k.1 k.2 = written s k.1 k.2 -> disk f' k.1 k.2 = written s k.1 k.2).
    { intros [ip' idx'] Hk. cbn in *. destruct (decide (ip' = ip /\ idx' ∈ l.*2)) as [[-> Hin] | Hn].
      - apply list_elem_of_fmap in Hin as ([p idx] & -> & Hin). destruct (Hd1 _ _ Hin) as [? | [_ He]]; [done | exact (eq_trans He Hk)].
      - rewrite Hd2; [done |]. destruct (decide (ip' = ip)); [right; tauto | by left]. }
    split; cbn [pages fs written set_fs]; unfold filleds, mods; rewrite ?Hcre.
    + done.
    + intros p cp d k. rewrite Hcnt by use_in. apply C2.
    + intros k. destruct (C3 k) as [? | (p & cp & Hp & Hk & Hf & Hor)]; [left; auto | right].
      exists p, cp. rewrite Hcnt by use_in. done.
    + done.
    + intros u p k sn cp [Ht | (_ & Ht & _)]%Hswap Hu Hp; [eauto |]. apply (C5 Wb p k sn cp Ht); [use_in | done].
    + intros p k sn cp [Ht | (Hvv & Ht & idx & -> & Hin)]%Hswap Hp; rewrite Hcnt by use_in.
      * destruct (C6 _ _ _ _ Ht Hp) as [? | [? | ?]]; auto.
      * right. right. unfold v in Hvv. destruct (Z.eqb_spec rc 0); [| done].
        destruct (Hd1 _ _ Hin) as [? | [? _]]; done.
Qed.

Lemma wb_toks_at u ip l : forall sns p idx, length sns = length l -> (p, idx) ∈ l ->
  exists sn, Tok u p (ip, idx) sn ∈ wb_toks u ip l sns.
Proof.
  induction l as [| [q j] l IH]; intros [| sn sns] p idx Hlen Hpi; try done; [by apply not_elem_of_nil in Hpi |].
  cbn [wb_toks]. apply elem_of_cons in Hpi as [Hpi | Hpi]; [simplify_eq; exists sn; multiset_solver |].
  destruct (IH sns p idx ltac:(by injection Hlen) Hpi) as [sn' ?]. exists sn'. multiset_solver.
Qed.

Lemma NoDup_fst_unique {A B} (l : list (A * B)) a b b' : NoDup l.*1 -> (a, b) ∈ l -> (a, b') ∈ l -> b = b'.
Proof.
  intros Hnd (i & Hi)%list_elem_of_lookup (j & Hj)%list_elem_of_lookup.
  assert (i = j) as -> by (eapply (NoDup_lookup _ _ _ a Hnd); rewrite list_lookup_fmap, ?Hi, ?Hj; done). congruence.
Qed.

(** Every file can be written and the writes succeed. *)
Definition writes_succeed : Prop := forall (f : F) ip i, fs_ok f -> inode_at f ip = Some i ->
  exists a wr, i_aop i = Some a /\ writepages a = Some wr /\
    forall l, l <> [] -> NoDup l.*1 -> Forall (fun x => readable ip x.1 /\ fits ip x.1 x.2) l -> exists f', wr ip l f = Some (0, f').

Lemma call_writepages_ok ip l sns s o : length sns = length l -> NoDup l.*2 -> l <> [] -> writable ip ->
  Inv s (wb_toks Wb ip l sns ⊎ o) ->
  wp (call_writepages ip (Some <$> l.*1)) s (fun rc s' => Inv s' (wb_toks (if rc =? 0 then Wbd else Wb) ip l sns ⊎ o) /\
    (exists f', s' = set_fs f' s) /\ (coh = true -> writes_succeed -> rc = 0)).
Proof.
  intros Hlen Hnd Hne Hw HI. pose proof HI as (Hi & Hok & _ & Hfit).
  assert (Hl : is_Some (inode_at (fs s) ip)).
  { destruct l as [| [p idx] l], sns as [| sn sns]; try done.
    destruct (inv_tok _ _ _ _ Hi Wb p (ip, idx) sn) as (cp & Hp & Hh & _); [cbn [wb_toks]; multiset_solver |].
    apply (pk_live _ _ _ _ (inv_page _ _ _ _ Hi _ _ Hp)). unfold home in Hh.
    destruct (cp_data cp), (cp_inode cp); try done. by injection Hh as ->. }
  unfold call_writepages. apply wp_bind. eapply wp_mono; [by apply get_inode_ok |]. intros i s' [-> Hin].
  destruct (proj2 (law_has_write _ _ _ Hok Hin) Hw) as [wr Ha]. rewrite Ha. apply bind_Some in Ha as (a & Ha & Hwr).
  apply wp_bind. eapply wp_mono; [by eapply page_images_ok |]. intros im s' (-> & Him & Hall).
  assert (Hcur : coh = true -> forall p idx, (p, idx) ∈ l -> (idx, written s ip idx) ∈ im).
  { intros Hc p idx Hpi. destruct (Hall p idx Hpi) as (cp & d & Hp & Hh & Hcd & Hin').
    destruct (wb_toks_at Wb ip l sns p idx Hlen Hpi) as [sn Ht].
    destruct (inv_tok _ _ _ _ Hi Wb p (ip, idx) sn) as (c0 & ? & _ & Hf); [multiset_solver |]. simplify_eq.
    rewrite (co_data _ _ _ (inv_coh _ _ _ _ Hi Hc) p cp d (ip, idx) Hp Hcd Hh) in Hin'; [done |]. left. apply Hf. use_in. }
  assert (Hfor : Forall (fun x => readable ip x.1 /\ (coh = true -> fits ip x.1 x.2)) im).
  { apply Forall_forall. intros [idx d] Hd. assert (Hin1 : idx ∈ im.*1) by (apply list_elem_of_fmap; by exists (idx, d)).
    rewrite Him in Hin1. apply list_elem_of_fmap in Hin1 as ([p idx'] & Hix & Hp). cbn in Hix. subst idx'. cbn [fst snd].
    destruct (Hall p idx Hp) as (cp & d' & Hpg & Hh & _). pose proof (pk_key _ _ _ _ (inv_page _ _ _ _ Hi _ _ Hpg) _ Hh) as Hrd.
    split; [exact Hrd |]. intros Hc.
    rewrite (NoDup_fst_unique im idx d (written s ip idx)); [by apply Hfit | by rewrite Him | done | by apply (Hcur Hc p)]. }
  destruct (law_writepages (fs s) ip i a wr im Hok Hin Ha Hwr) as (rc & f' & He & Hk & Hd); [by rewrite Him | done |].
  eapply wp_val; [by apply on_fs_ok |]. split_and!; [| by exists f' |].
  2: { intros Hc Hws. destruct (Hws (fs s) ip i Hok Hin) as (a' & wr' & ? & ? & Hx). simplify_eq.
    destruct (Hx im) as [f2 Hf2]; [| by rewrite Him | | congruence].
    { intros ->. by destruct l. }
    eapply Forall_impl; [exact Hfor |]. intros x [??]. auto. }
  apply Inv_written; [done | done |]. intros Hc. destruct (Hd Hc) as [Hd1 Hd2].
  rewrite Him in Hd2. split; [| done]. intros p idx Hpi. apply Hd1. by apply (Hcur Hc p).
Qed.

(** The end of a write: a page whose [dirty_seq] did not change is clean. *)
Lemma Inv_wb_end s o p cp k sn rc : Inv s ({[+ Tok (if rc =? 0 then Wbd else Wb) p k sn +]} ⊎ o) ->
  pages s !! p = Some cp ->
  Inv (set_pages (<[p := set_flags (wb_flags rc sn cp) cp]> (pages s)) s) (held p k ⊎ o).
Proof.
  intros HI Hp. eapply Inv_credits; [exact HI | | done | done | by unfold held; rewrite !credits_tok]. set (cp' := set_flags _ cp).
  pose proof HI as (Hi & _). set (u := if rc =? 0 then Wbd else Wb) in *.
  assert (Hu : u ∈ [Wb; Wbd]) by (unfold u; destruct (rc =? 0); use_in).
  assert (Hu' : u ∉ [Fill; Filled; Pin] /\ u ∉ [Fill; Filled] /\ u ∉ [Filled] /\ u ∉ [Mod]) by (unfold u; destruct (rc =? 0); split_and!; use_in).
  destruct Hu' as (Hu1 & Hu2 & Hu3 & Hu4).
  destruct (inv_tok _ _ _ _ Hi u p k sn) as (c0 & ? & Hh & Hf); [multiset_solver |]. simplify_eq. specialize (Hf Hu1).
  assert (Ef : forall m, Z.land CACHE_PAGE_WRITEBACK m = 0 -> Z.land (Z.lor CACHE_PAGE_DIRTY CACHE_PAGE_ERROR) m = 0 ->
    has_flag CACHE_PAGE_ERROR m = false -> has_flag (cp_flags cp') m = has_flag (cp_flags cp) m).
  { intros m H1 H2 H3. unfold cp', wb_flags. cbn [cp_flags set_flags]. destruct (rc =? 0), (dirty_seq cp =? sn); cbn [andb negb];
      rewrite ?has_flag_set, ?has_flag_clear, ?H3, ?orb_false_r by done; done. }
  assert (Hd : dirty cp' = dirty cp \/ rc = 0 /\ dirty_seq cp = sn).
  { unfold dirty, cp', wb_flags. cbn [cp_flags set_flags]. destruct (Z.eqb_spec rc 0), (Z.eqb_spec (dirty_seq cp) sn);
      cbn [andb negb]; [by right | left .. ]; flags; done. }
  destruct (inv_page _ _ _ _ Hi _ _ Hp) as [K1 K2 K3 K4 K5 K6 K7 K8].
  assert (Huo : upd_ok p cp cp' {[+ Tok u p k sn +]} (held p k)).
  { split; unfold invalid, filling, uptodate, held; rewrite ?Ef by done; try done.
    - by rewrite !pins_tok.
    - unfold fills. rewrite !is_use_tok, !(bool_decide_eq_false_2 (_ ∈ _)) by (done || use_in). done.
    - intros _. apply K6; [| done]. unfold home in Hh. by destruct (cp_data cp).
    - unfold filling in Hf. congruence.
    - intros w k' sn' Ht%gmultiset_elem_of_singleton. simplify_eq. split; [done |]. intros _. unfold filling. by rewrite Ef. }
  assert (HL : forall w sn', local p {[+ Tok w p k sn' +]}) by (intros; apply local_singleton).
  refine (inv_upd disk coh s _ p cp _ _ _ o Hi Hp (mk_is_Some _ _ Hh) (HL _ _) (HL _ _) Huo (pages_updp _ _ _) _).
  intros Hc Hco. refine (coherent_upd disk coh s _ p cp _ _ _ o Hi Hp (HL _ _) (HL _ _) Huo (pages_updp _ _ _) eq_refl _ Hco).
  assert (Hcnt : forall us, u ∉ us -> Use ∉ us -> count (is_use us p) (held p k ⊎ o) = count (is_use us p) ({[+ Tok u p k sn +]} ⊎ o)).
  { intros us H1 H2. unfold held. rewrite !count_union, !is_use_tok, !(bool_decide_eq_false_2 (_ ∈ _)) by done. done. }
  split; unfold filleds, mods in *.
  - unfold credits, held. by rewrite !count_singleton.
  - intros d k' Hd' Hk' _. eapply (co_data _ _ _ Hco p cp); [done | done | done | by left].
  - intros k' Hk' _ Hor. rewrite Hcnt by (done || use_in). rewrite Hh in Hk'. simplify_eq.
    assert (Hff : filling cp' = false) by (unfold filling; by rewrite Ef).
    destruct Hd as [-> | [-> <-]]; [by right |].
    destruct (co_wbd _ _ _ Hco p k' (dirty_seq cp) cp) as [? | [? | ?]]; [apply gmultiset_elem_of_disj_union; left; by apply gmultiset_elem_of_singleton | done | done | | by left].
    right. split; [done | by right].
  - unfold credits, held. rewrite !count_singleton. cbn. split; lia.
  - intros w k' sn' Ht%gmultiset_elem_of_singleton Hw. simplify_eq. use_in.
  - intros k' sn' Hk' Ht. rewrite Hcnt by (done || use_in). apply (co_wbd _ _ _ Hco p k' sn' cp); [| done].
    apply gmultiset_elem_of_disj_union in Ht as [Ht%gmultiset_elem_of_singleton | Ht]; [done |]. apply gmultiset_elem_of_disj_union. by right.
Qed.

Lemma wb_end_ok rc ip l : forall sns s o, length sns = length l ->
  Inv s (wb_toks (if rc =? 0 then Wbd else Wb) ip l sns ⊎ o) ->
  wp (wb_end rc (Some <$> l.*1) sns) s (fun _ s' => Inv s' (use_toks ip l ⊎ o)).
Proof.
  induction l as [| [p idx] l IH]; intros [| sn sns] s o Hl HI; try done; cbn [wb_end fmap list_fmap]; [by apply wp_ret |].
  cbn [wb_toks] in HI. rewrite <- (assoc_L _) in HI. pose proof HI as (Hi & _).
  destruct (tok_page _ _ _ _ _ _ HI) as (cp & Hp & _).
  apply wp_bind. eapply wp_updp; [exact Hp |]. pose proof (Inv_wb_end _ _ _ _ _ _ _ HI Hp) as HI1.
  rewrite (assoc_L _), (comm_L _ (held _ _)), <- (assoc_L _) in HI1.
  eapply wp_mono; [apply (IH sns _ _ ltac:(by injection Hl) HI1) |]. intros [] s2 HI2.
  unfold use_toks. cbn [length replicate wb_toks]. by rewrite (assoc_L _), (comm_L _ (use_toks _ _)) in HI2.
Qed.

(** [page_cache_writeback_pages] on pages the thread holds, all of one file. *)
Lemma safe_writeback_pages ip l : NoDup l.*2 ->
  safe Inv (page_cache_writeback_pages (Some <$> l.*1)) (use_toks ip l) (fun _ h => h = use_toks ip l).
Proof.
  intros Hnd. unfold page_cache_writeback_pages. destruct (_ <? _); [done |].
  destruct l as [| [p0 idx0] l0] eqn:El; [done |]. rewrite <- El in *.
  assert (Es : Some <$> l.*1 = Some p0 :: (Some <$> l0.*1)) by (by rewrite El). rewrite Es.
  apply safe_bind, safe_atomic. intros s o HI. pose proof HI as (Hi & _).
  destruct (inv_tok _ _ _ _ Hi Use p0 (ip, idx0) 0) as (cp & Hp & Hh & _).
  { rewrite El. unfold use_toks. cbn [length replicate wb_toks]. multiset_solver. }
  eapply wp_getp; [exact Hp |]. exists (use_toks ip l). split; [done |].
  assert (Hip : cp_inode cp = Some ip).
  { unfold home in Hh. destruct (cp_data cp), (cp_inode cp); try done. by injection Hh as -> _. }
  rewrite Hip. clear s o HI Hi Hp. apply safe_bind, safe_atomic. intros s o HI. pose proof HI as (Hi & Hok & _).
  destruct (inv_tok _ _ _ _ Hi Use p0 (ip, idx0) 0) as (cp1 & Hp1 & Hh1 & _).
  { rewrite El. unfold use_toks. cbn [length replicate wb_toks]. multiset_solver. }
  assert (Hlive : is_Some (inode_at (fs s) ip)).
  { apply (pk_live _ _ _ _ (inv_page _ _ _ _ Hi _ _ Hp1)). unfold home in Hh1.
    destruct (cp_data cp1), (cp_inode cp1); try done. by injection Hh1 as -> _. }
  eapply wp_mono; [by apply get_inode_ok |]. intros i s' [-> Hin]. exists (use_toks ip l). split; [done |].
  destruct (i_aop i ≫= writepages) eqn:Hw; [| done].
  assert (Hwr : writable ip) by (apply (law_has_write _ _ _ Hok Hin); by rewrite Hw).
  rewrite <- Es.
  apply safe_bind. eapply safe_mono with (P := fun r h => exists sns, r = Some sns /\ length sns = length l /\ h = wb_toks Wb ip l sns).
  { apply safe_atomic. intros s1 o1 HI1. eapply wp_mono; [by apply wb_begin_ok |].
    intros r s2 (sns & -> & Hl & HI2). eexists. split; [exact HI2 |]. by exists sns. }
  intros r h (sns & -> & Hl & ->). apply safe_bind.
  eapply safe_mono with (P := fun rc h => h = wb_toks (if rc =? 0 then Wbd else Wb) ip l sns).
  { apply safe_atomic. intros s1 o1 HI1. eapply wp_mono; [apply (call_writepages_ok ip l sns s1 o1); try done; by rewrite El |].
    intros rc s2 (HI2 & _). eexists. split; [exact HI2 | done]. }
  intros rc h ->. apply safe_bind. eapply safe_mono with (P := fun _ h => h = use_toks ip l).
  { apply safe_atomic. intros s1 o1 HI1. eapply wp_mono; [by apply wb_end_ok |]. intros [] s2 HI2. by eexists. }
  by intros [] h ->.
Qed.

Lemma safe_writeback p k : safe Inv (page_cache_writeback p) (held p k) (fun _ h => h = held p k).
Proof.
  destruct k as [ip idx]. assert (Hu : held p (ip, idx) = use_toks ip [(p, idx)]) by (unfold held, use_toks; cbn [length replicate wb_toks]; multiset_solver).
  rewrite Hu. apply (safe_writeback_pages ip [(p, idx)]). cbn. apply NoDup_singleton.
Qed.

(** *** Invalidation *)

Definition chained s (b p : nat) : Prop :=
  exists cp k, pages s !! p = Some cp /\ home cp = Some k /\ invalid cp = false /\ key_bucket k = b.

Lemma chained_quiet s s' b p : quiet s s' -> chained s b p -> chained s' b p.
Proof.
  intros Hq (cp & k & Hp & Hh & Hv & Hb). destruct (quiet_page _ _ _ _ Hq Hp) as (cp' & Hp' & Hcc). exists cp', k.
  rewrite (core_home _ _ Hcc). unfold core in Hcc. injection Hcc as _ _ _ _ _ Ev _ _ _. rewrite Ev. done.
Qed.

Lemma chained_alter s s' b p q f : pages s' = alter f p (pages s) -> q <> p -> chained s b q -> chained s' b q.
Proof.
  intros Hs Hq (cp & k & Hp & Hk). exists cp, k. rewrite Hs, list_lookup_alter_ne by done. done.
Qed.

Lemma retire_orphan k p s cp : pages s !! p = Some cp ->
  same disk coh (retire_page k p s)
    (set_free (p :: free_list s) (free_count s + 1) (set_pages (alter clear_page p (pages (orphan_page k p s))) (orphan_page k p s))).
Proof.
  intros Hp. split; try done. cbn [pages set_free set_pages retire_page orphan_page set_lru set_hash]. f_equal.
  apply list_eq. intros q. destruct (decide (q = p)) as [-> | Hq]; [by rewrite !list_lookup_alter_eq, Hp |].
  by rewrite !list_lookup_alter_ne.
Qed.

Lemma invalidate_chain_ok ip b chain : coh = false -> forall s o, Inv s o -> NoDup chain ->
  (forall p, p ∈ chain -> chained s b p) -> wp (invalidate_chain ip b chain) s (fun _ s' => Inv s' o).
Proof.
  intros Hc. induction chain as [| p chain IH]; intros s o HI Hnd Hch; cbn [invalidate_chain]; [by apply wp_ret |].
  inversion_clear Hnd as [| ? ? Hpc Hnd']. destruct (Hch p) as (cp & k & Hp & Hh & Hv & Hb); [by left |].
  apply wp_bind. eapply wp_getp; [exact Hp |]. destruct (negb _).
  { apply IH; [done | done |]. intros q Hq. apply Hch. by right. }
  apply wp_bind. eapply wp_mono; [apply wp_ra_resolve; by exists cp |]. intros [] s1 Hq.
  destruct (quiet_page _ _ _ _ Hq Hp) as (cp1 & Hp1 & Hcc). pose proof (Inv_quiet _ _ _ Hq HI) as HI1.
  assert (Hh1 : home cp1 = Some k) by (by rewrite (core_home _ _ Hcc)).
  assert (Hv1 : invalid cp1 = false) by (unfold core in Hcc; injection Hcc as _ _ _ _ _ Ev _ _ _; by rewrite Ev).
  apply wp_bind. unfold hash_unlink. apply wp_modify_cache. apply wp_bind. unfold lru_remove. apply wp_modify_cache.
  apply wp_bind. eapply wp_updp; [exact Hp1 |].
  set (s2 := set_pages _ _). set (cp2 := set_flags (set_flag (cp_flags cp1) CACHE_PAGE_INVALID) cp1).
  assert (Hs2 : s2 = orphan_page k p s1).
  { unfold s2, orphan_page. rewrite (alter_insert_page s1 p cp1 _ Hp1), Hb. done. }
  assert (Hp2 : pages s2 !! p = Some cp2) by (cbn; apply list_lookup_insert_eq; by eapply lookup_lt_Some).
  apply wp_bind. eapply wp_getp; [exact Hp2 |]. change (pin_count cp2) with (pin_count cp1).
  pose proof (pk_pin _ _ _ _ (inv_page _ _ _ _ (proj1 HI1) _ _ Hp1)) as Hpin.
  assert (Hrest : forall s3, pages s3 = alter clear_page p (pages s2) \/ pages s3 = pages s2 -> forall q, q ∈ chain -> chained s3 b q).
  { intros s3 Hs3 q Hqc. assert (Hqp : q <> p) by (intros ->; done).
    assert (Hc2 : chained s2 b q).
    { rewrite Hs2. eapply (chained_alter s1); [done | done |]. eapply chained_quiet; [done |]. apply Hch. by right. }
    destruct Hs3 as [Hs3 | Hs3]; [by eapply chained_alter |]. destruct Hc2 as (cq & kq & Hcq). exists cq, kq. by rewrite Hs3. }
  apply wp_bind. destruct (Z.eqb_spec (pin_count cp1) 0) as [Hz | Hz].
  - apply wp_bind. eapply wp_updp; [exact Hp2 |]. unfold free_list_push. apply wp_modify_cache. apply IH; [| done |].
    + assert (HI2 : Inv (retire_page k p s1) o).
      { eapply Inv_credits; [exact HI1 | | done | done | done]. eapply inv_retire; [apply HI1 | done | done | done | lia | by rewrite Hc]. }
      eapply Inv_credits; [exact HI2 | | by rewrite Hs2 | by rewrite Hs2 | done]. eapply inv_same; [| apply HI2].
      rewrite <- (alter_insert_page s2 p cp2 _ Hp2), Hs2. exact (retire_orphan k p s1 cp1 Hp1).
    + apply Hrest. left. cbn. by rewrite <- (alter_insert_page s2 p cp2 _ Hp2).
  - apply wp_ret. apply IH; [| done | apply Hrest; by right]. rewrite Hs2.
    eapply Inv_credits; [exact HI1 | | done | done | done]. eapply inv_orphan; [done | apply HI1 | done | done | done | lia].
Qed.

Lemma bucket_ok s o b : inv disk coh s o -> (b < 64)%nat ->
  wp (bucket b) s (fun chain s' => s' = s /\ NoDup chain /\ forall p, p ∈ chain -> chained s b p).
Proof.
  intros Hi Hb. pose proof (inv_lists _ _ _ _ Hi) as Hl.
  destruct (lookup_lt_is_Some_2 (page_cache_hash s) b) as [chain Hc]; [by rewrite (lo_len _ _ _ _ Hl) |].
  exists chain, s. split; [unfold bucket; by rewrite Hc |]. destruct (lo_chain _ _ _ _ Hl _ _ Hc) as [Hnd Hin].
  split_and!; [done | done |]. intros p (k & Hs & Hk)%Hin. rewrite list_lookup_fmap in Hs.
  apply fmap_Some in Hs as (cp & Hp & Hs). injection Hs as Hh Hv. by exists cp, k.
Qed.

Lemma invalidate_buckets_ok ip bs : coh = false -> (forall b, b ∈ bs -> (b < 64)%nat) ->
  forall s o, Inv s o -> wp (invalidate_buckets ip bs) s (fun _ s' => Inv s' o).
Proof.
  intros Hc. induction bs as [| b bs IH]; intros Hbs s o HI; cbn [invalidate_buckets]; [by apply wp_ret |].
  apply wp_bind. eapply wp_mono; [apply (bucket_ok s o); [apply HI | apply Hbs; by left] |].
  intros chain s' (-> & Hnd & Hch). apply wp_bind. eapply wp_mono; [by apply invalidate_chain_ok |].
  intros [] s2 HI2. apply IH; [| done]. intros b' Hb'. apply Hbs. by right.
Qed.

Lemma safe_invalidate ip : coh = false -> safe Inv (page_cache_invalidate_inode ip) ∅ (fun _ h => h = ∅).
Proof.
  intros Hc. unfold page_cache_invalidate_inode. destruct (ip =? 0); [done |]. apply safe_atomic. intros s o HI.
  eapply wp_mono; [apply invalidate_buckets_ok; [done | | exact HI] |].
  - intros b Hb. unfold hash_buckets in Hb. apply elem_of_seq in Hb. change (Z.to_nat _) with 64%nat in Hb. lia.
  - intros [] s' HI'. by exists ∅.
Qed.

(** *** Flushing *)

Fixpoint key_toks (l : list (nat * (Z * Z))) : gmultiset tok :=
  match l with [] => ∅ | (p, k) :: l' => held p k ⊎ key_toks l' end.

Lemma chained_pin s b p q : forall f, (forall cp, home (f cp) = home cp /\ invalid (f cp) = invalid cp) ->
  chained s b q -> chained (set_pages (alter f p (pages s)) s) b q.
Proof.
  intros f Hf (cp & k & Hp & Hh & Hv & Hb). destruct (decide (q = p)) as [-> | Hq].
  - exists (f cp), k. cbn. rewrite list_lookup_alter_eq, Hp. destruct (Hf cp) as [-> ->]. done.
  - exists cp, k. cbn. by rewrite list_lookup_alter_ne by done.
Qed.

Lemma collect_chain_ok only chain : forall max s o, Inv s o -> (forall p, p ∈ chain -> exists b, chained s b p) ->
  wp (collect_chain only chain max) s (fun ps s' => exists ks, length ks = length ps /\ Inv s' (key_toks (zip ps ks) ⊎ o)).
Proof.
  induction chain as [| p chain IH]; intros max s o HI Hch; cbn [collect_chain].
  { apply wp_ret. exists []. split; [done |]. by rewrite <- empty_union. }
  destruct max as [| max]; [apply wp_ret; exists []; split; [done |]; by rewrite <- empty_union |].
  destruct (Hch p) as (b & cp & k & Hp & Hh & Hv & Hb); [by left |]. apply wp_bind. eapply wp_getp; [exact Hp |].
  destruct (_ && _) eqn:Hg.
  - rewrite !andb_true_iff in Hg. destruct Hg as (((Hd & _) & _) & _). pose proof (inv_page _ _ _ _ (proj1 HI) _ _ Hp) as Hpk.
    assert (Hf : filling cp = false).
    { destruct (filling cp) eqn:Hf; [| done]. pose proof (pk_clean _ _ _ _ Hpk Hf) as Hd'. unfold dirty in Hd'. congruence. }
    apply wp_bind. eapply wp_updp; [exact Hp |].
    pose proof (Inv_pin s o p cp k Use HI Hp ltac:(use_in) (conj Hh (fun _ => Hf))) as HI1. apply wp_bind.
    eapply wp_mono; [apply (IH max _ _ HI1) |].
    + intros q Hq. destruct (Hch q) as [b' Hb']; [by right |]. exists b'.
      rewrite <- (alter_insert_page s p cp (fun cp => set_pin (pin_count cp + 1) cp) Hp). by apply chained_pin.
    + intros ps s2 (ks & Hl & HI2). apply wp_ret. exists (k :: ks). split; [by cbn; rewrite Hl |].
      cbn [zip zip_with key_toks]. unfold held in *. rewrite (assoc_L _), (comm_L _ (key_toks _)) in HI2. exact HI2.
  - apply IH; [done |]. intros q Hq. apply Hch. by right.
Qed.

Lemma collect_dirty_ok only max s o : Inv s o ->
  wp (collect_dirty only max) s (fun ps s' => exists ks, length ks = length ps /\ Inv s' (key_toks (zip ps ks) ⊎ o)).
Proof.
  intros HI. apply (collect_chain_ok only (concat (page_cache_hash s)) max s o HI).
  intros p Hp. apply list_elem_of_In, in_concat in Hp as (chain & Hc & Hp). apply list_elem_of_In, list_elem_of_lookup in Hc as [b Hc].
  apply list_elem_of_In in Hp. exists b.
  pose proof (lookup_lt_Some _ _ _ Hc) as Hb. rewrite (lo_len _ _ _ _ (inv_lists _ _ _ _ (proj1 HI))) in Hb.
  destruct (bucket_ok s o b (proj1 HI) Hb) as (c' & s' & He & -> & _ & Hch). unfold bucket in He. rewrite Hc in He. simplify_eq. auto.
Qed.

Lemma safe_flush_pages ps : forall ks e, length ks = length ps ->
  safe Inv (flush_pages ps e) (key_toks (zip ps ks)) (fun _ h => h = ∅).
Proof.
  induction ps as [| p ps IH]; intros [| k ks] e Hl; try done. cbn [flush_pages zip zip_with key_toks].
  apply safe_bind, safe_frame. eapply safe_mono; [apply safe_writeback |]. intros rc h ->. cbn beta.
  apply safe_bind, safe_frame. eapply safe_mono; [apply safe_release; use_in |]. intros [] h ->. cbn beta.
  rewrite <- empty_union. apply IH. by injection Hl.
Qed.

Lemma safe_flush_dirty fuel only : safe Inv (flush_dirty fuel only) ∅ (fun _ h => h = ∅).
Proof.
  induction fuel as [| fuel IH]; cbn [flush_dirty]; apply safe_bind;
    (eapply safe_mono with (P := fun ps h => exists ks, length ks = length ps /\ h = key_toks (zip ps ks));
     [apply safe_atomic; intros s o HI; rewrite <- empty_union in HI; eapply wp_mono; [by apply collect_dirty_ok |];
      intros ps s' (ks & Hl & HI'); eexists; split; [exact HI' | by exists ks] |]);
    (intros ps h (ks & Hl & ->); destruct ps as [| p ps]; [done |]; apply safe_bind;
     eapply safe_mono; [by apply safe_flush_pages |]); intros e h ->; (destruct (negb _); [done |]); [done | exact IH].
Qed.
End threads.
