(* ===== verification/PageCacheUse.v ===== *)
(** * The page cache in use

    Threads that get, read, write, flush, invalidate and release pages in any
    order and any interleaving; a thread alone; and what the code does when a
    read or an allocation fails. *)

From Stdlib Require Import ZArith Lia List.
From stdpp Require Import base list gmap gmultiset relations functions.
From S2P Require Import Prelude Threads PageCache PageCacheInv PageCacheSafe.

Local Open Scope Z_scope.

(** ** Client threads *)

(** A thread keeps a table of the pages it holds, the latest first, with the
    page of a file each was asked for. *)
Inductive call :=
| CGet (ip idx window source : Z)
| CLookup (ip idx : Z)
| CUse (slot : nat)
| CCheck (slot : nat)
| CWrite (slot : nat) (ip idx : Z) (off : nat) (d : list Z)
| CWriteback (n : nat)
| CRelease (slot : nat)
| CFlush (only : option Z)
| CInvalidate (ip : Z).

Section clients.
Context {F : Type} `{!HasInodes F}.

(** An access to a held page: it must be the page asked for, with contents
    that were read. *)
Definition use_page (p : nat) (k : Z * Z) : prog (cache F) unit :=
  cp ← getp p;
  if bool_decide (home cp = Some k) && negb (filling cp) && uptodate cp then mret tt else fault.

(** A read of a held page: it must show the last store into that page of the
    file, by whatever thread. *)
Definition check_page (p : nat) (k : Z * Z) : prog (cache F) unit :=
  cp ← getp p;
  w ← (fun s => Some (written s k.1 k.2, s));
  if bool_decide (cp_data cp = Some w) then mret tt else fault.

Definition got (r : Z * option nat) (k : Z * Z) (tbl : list (nat * (Z * Z))) : list (nat * (Z * Z)) :=
  match r with (0, Some p) => (p, k) :: tbl | _ => tbl end.

(** The pages [n] calls of a batch write back: the [n] latest, when they are
    different pages of one file. *)
Definition batch (n : nat) (tbl : list (nat * (Z * Z))) : option (list (option nat)) :=
  match take n tbl with
  | [] => None
  | (p, (ip, idx)) :: l =>
      let all := (p, (ip, idx)) :: l in
      if bool_decide (Forall (fun x => x.2.1 = ip) all) && bool_decide (NoDup (snd ∘ snd <$> all))
      then Some (Some <$> all.*1) else None
  end.

Fixpoint client (fuel : nat) (cs : list call) (tbl : list (nat * (Z * Z))) : act (cache F) unit :=
  match cs with
  | [] => release_pages tbl.*1
  | c :: cs' =>
      match c with
      | CGet ip idx window source =>
          r ← page_cache_get_ra fuel ip idx window source; client fuel cs' (got r (ip, idx) tbl)
      | CLookup ip idx =>
          r ← page_cache_lookup ip idx; client fuel cs' (got (0, r) (ip, idx) tbl)
      | CUse i =>
          match tbl !! i with Some (p, k) => atomic (use_page p k) ;; client fuel cs' tbl | None => client fuel cs' tbl end
      | CCheck i =>
          match tbl !! i with Some (p, k) => atomic (check_page p k) ;; client fuel cs' tbl | None => client fuel cs' tbl end
      | CWrite i ip idx off d =>
          match tbl !! i with
          | Some (p, k) =>
              if bool_decide (k = (ip, idx))
              then atomic (store_page p off d) ;; page_cache_mark_dirty p ;; client fuel cs' tbl
              else client fuel cs' tbl
          | None => client fuel cs' tbl
          end
      | CWriteback n =>
          match batch n tbl with
          | Some ps => page_cache_writeback_pages ps ;; client fuel cs' tbl
          | None => client fuel cs' tbl
          end
      | CRelease i =>
          match tbl !! i with
          | Some (p, _) => page_cache_release p ;; client fuel cs' (delete i tbl)
          | None => client fuel cs' tbl
          end
      | CFlush only => flush_dirty fuel only ;; client fuel cs' tbl
      | CInvalidate ip => page_cache_invalidate_inode ip ;; client fuel cs' tbl
      end
  end.
End clients.

Section use.
Context {F : Type} `{!HasInodes F} `{!HasPages F} {coh : bool} `{!FileSystem F coh}.
Implicit Types (s : cache F) (h o : gmultiset tok).

(** With [coh], contents are compared, what is stored must fit, and no file is
    invalidated. *)
Definition call_ok (c : call) : Prop :=
  match c with
  | CGet ip idx _ _ => readable ip idx /\ 0 <= idx < 2 ^ 64
  | CCheck _ => coh = true
  | CWrite _ ip idx off d => store_ok off d (ip, idx)
  | CInvalidate _ => coh = false
  | _ => True
  end.

Definition is_write (c : call) : bool := match c with CWrite _ _ _ _ _ => true | _ => false end.
Definition writes (cs : list call) : nat := length (filter (fun c => is_write c = true) cs).

Fixpoint credit_toks (n : nat) : gmultiset tok :=
  match n with O => ∅ | S n' => {[+ Credit +]} ⊎ credit_toks n' end.

Definition only_credits h : Prop := forall t, t ∈ h -> t = Credit.

Lemma key_toks_lookup tbl i p k : tbl !! i = Some (p, k) -> key_toks tbl = held p k ⊎ key_toks (delete i tbl).
Proof.
  revert i. induction tbl as [| [q k'] tbl IH]; intros [| i] Hi; try done; cbn [key_toks delete list_delete] in *.
  - by simplify_eq/=.
  - rewrite (IH i Hi), !(assoc_L _). f_equal. apply (comm_L _).
Qed.

Lemma key_toks_app l l' : key_toks (l ++ l') = key_toks l ⊎ key_toks l'.
Proof. induction l as [| [p k] l IH]; cbn [app key_toks]; [multiset_solver |]. rewrite IH. multiset_solver. Qed.

Lemma key_toks_file ip l : Forall (fun x : nat * (Z * Z) => x.2.1 = ip) l ->
  key_toks l = use_toks ip ((fun x => (x.1, x.2.2)) <$> l).
Proof.
  induction l as [| [p [ip' idx]] l IH]; intros Hl; [done |]. apply Forall_cons in Hl as [Hip Hl]. cbn in Hip. subst ip'.
  unfold use_toks. cbn [key_toks fmap list_fmap length replicate wb_toks]. rewrite IH by done. done.
Qed.

Lemma safe_got r k tbl h :
  (r = (- EINVAL, None) /\ h = ∅) \/ (exists p, r = (0, Some p) /\ h = held p k) ->
  h ⊎ key_toks tbl = key_toks (got r k tbl).
Proof. intros [[-> ->] | (p & -> & ->)]; cbn [got key_toks]; [multiset_solver | done]. Qed.

Lemma safe_use p k : safe Inv (atomic (use_page p k)) (held p k) (fun _ h => h = held p k).
Proof.
  apply safe_atomic. intros s o HI. destruct (tok_page _ _ _ _ _ _ HI) as (cp & Hp & Hh & Hf).
  assert (Hf' : filling cp = false) by (apply Hf; use_in). unfold use_page. apply wp_bind. eapply wp_getp; [done |].
  rewrite Hh, Hf', bool_decide_eq_true_2 by done. cbn [negb andb].
  rewrite (pk_uptodate _ _ _ _ (inv_page _ _ _ _ (proj1 HI) _ _ Hp)); [| | done].
  - apply wp_ret. by exists (held p k).
  - unfold home in Hh. by destruct (cp_data cp).
Qed.

Lemma safe_check p k : coh = true -> safe Inv (atomic (check_page p k)) (held p k) (fun _ h => h = held p k).
Proof.
  intros Hc. apply safe_atomic. intros s o HI. destruct (tok_page _ _ _ _ _ _ HI) as (cp & Hp & Hh & Hf).
  assert (Hf' : filling cp = false) by (apply Hf; use_in). unfold check_page. apply wp_bind. eapply wp_getp; [done |].
  destruct (cp_data cp) as [d |] eqn:Hd; [| unfold home in Hh; by rewrite Hd in Hh].
  rewrite (co_data _ _ _ (inv_coh _ _ _ _ (proj1 HI) Hc) p cp d k Hp Hd Hh (or_introl Hf')).
  apply wp_bind. eexists _, s. split; [done |]. rewrite bool_decide_eq_true_2 by done. apply wp_ret. by exists (held p k).
Qed.

Lemma safe_release_tbl tbl : safe Inv (release_pages tbl.*1) (key_toks tbl) (fun _ h => h = ∅).
Proof.
  induction tbl as [| [p k] tbl IH]; [done |]. cbn [fmap list_fmap fst release_pages key_toks].
  apply safe_bind, safe_frame. eapply safe_mono; [apply safe_release; use_in |]. intros [] h ->. cbn beta.
  by rewrite <- empty_union.
Qed.

(** A thread that makes only such calls, with a credit for each write. *)
Lemma safe_client fuel cs : forall tbl, Forall call_ok cs ->
  safe Inv (client fuel cs tbl) (key_toks tbl ⊎ credit_toks (writes cs)) (fun _ h => only_credits h).
Proof.
  induction cs as [| c cs IH]; intros tbl Hok; cbn [client].
  { change (credit_toks (writes [])) with (∅ : gmultiset tok). rewrite (right_id_L _ _).
    eapply safe_mono; [apply safe_release_tbl |]. intros [] h -> t Ht. multiset_solver. }
  apply Forall_cons in Hok as [Hc Hok].
  assert (Hsame : is_write c = false -> writes (c :: cs) = writes cs).
  { intros Hw. unfold writes. rewrite filter_cons, Hw. done. }
  assert (Hslot : forall (A : Type) (m : act (cache F) A) i p k h',
    tbl !! i = Some (p, k) -> safe Inv m (held p k) (fun _ h => h = h') ->
    writes (c :: cs) = writes cs -> (forall tbl', h' ⊎ key_toks (delete i tbl) = key_toks tbl' -> 
      safe Inv (m ;; client fuel cs tbl') (key_toks tbl ⊎ credit_toks (writes (c :: cs))) (fun _ h => only_credits h))).
  { intros A m i p k h' Hi Hm Hw tbl' Ht. rewrite Hw, (key_toks_lookup _ _ _ _ Hi), <- (assoc_L _). apply safe_bind, safe_frame.
    eapply safe_mono; [exact Hm |]. intros a h ->. cbn beta. rewrite (assoc_L _), Ht. by apply IH. }
  assert (Hnone : forall (A : Type) (m : act (cache F) A), safe Inv m ∅ (fun _ h => h = ∅) -> writes (c :: cs) = writes cs ->
    safe Inv (m ;; client fuel cs tbl) (key_toks tbl ⊎ credit_toks (writes (c :: cs))) (fun _ h => only_credits h)).
  { intros A m Hm Hw. rewrite Hw, (empty_union (key_toks _ ⊎ _)). apply safe_bind, safe_frame.
    eapply safe_mono; [exact Hm |]. intros a h ->. cbn beta. rewrite <- empty_union. by apply IH. }
  destruct c as [ip idx window source | ip idx | i | i | i ip idx off d | n | i | only | ip]; cbn [call_ok] in Hc.
  - rewrite Hsame, (empty_union (key_toks _ ⊎ _)) by done. destruct Hc as [Hr Hidx].
    apply safe_bind, safe_frame. eapply safe_mono; [by apply safe_get_ra |]. intros r h Hp. cbn beta.
    rewrite (assoc_L _), (safe_got r (ip, idx) tbl h Hp). by apply IH.
  - rewrite Hsame, (empty_union (key_toks _ ⊎ _)) by done. apply safe_bind, safe_frame.
    eapply safe_mono; [apply safe_lookup |]. intros [p |] h ->; cbn [got]; [| rewrite <- empty_union; by apply IH].
    rewrite (assoc_L _). change (held p (ip, idx) ⊎ key_toks tbl) with (key_toks ((p, (ip, idx)) :: tbl)). by apply IH.
  - destruct (tbl !! i) as [[p k] |] eqn:Hi; [| rewrite Hsame by done; by apply IH].
    eapply Hslot; [exact Hi | apply safe_use | by apply Hsame | symmetry; by apply key_toks_lookup].
  - destruct (tbl !! i) as [[p k] |] eqn:Hi; [| rewrite Hsame by done; by apply IH].
    eapply Hslot; [exact Hi | by apply safe_check | by apply Hsame | symmetry; by apply key_toks_lookup].
  - assert (Hw : credit_toks (writes (CWrite i ip idx off d :: cs)) = {[+ Credit +]} ⊎ credit_toks (writes cs)) by done.
    assert (Hskip : safe Inv (client fuel cs tbl) (key_toks tbl ⊎ credit_toks (writes (CWrite i ip idx off d :: cs))) (fun _ h => only_credits h)).
    { rewrite Hw, (comm_L _ {[+ Credit +]}), (assoc_L _). apply safe_frame. eapply safe_mono; [by apply IH |].
      intros [] h Hh t [Ht | Ht]%gmultiset_elem_of_disj_union; [by apply Hh |]. by apply gmultiset_elem_of_singleton in Ht. }
    destruct (tbl !! i) as [[p k] |] eqn:Hi; [| exact Hskip]. case_bool_decide as Hk; [subst k | exact Hskip].
    rewrite Hw, (key_toks_lookup _ _ _ _ Hi), <- (assoc_L _). apply safe_bind, safe_frame.
    eapply safe_mono; [by apply safe_store |]. intros [] h ->. cbn beta. apply safe_bind. set (k := (ip, idx)).
    replace ({[+ Tok Mod p k 0 +]} ⊎ (key_toks (delete i tbl) ⊎ ({[+ Credit +]} ⊎ credit_toks (writes cs))))
      with (({[+ Tok Mod p k 0 +]} ⊎ {[+ Credit +]}) ⊎ (key_toks (delete i tbl) ⊎ credit_toks (writes cs))) by multiset_solver.
    apply safe_frame. eapply safe_mono; [apply safe_mark_dirty |]. intros [] h ->. cbn beta.
    unfold k. rewrite (assoc_L _), <- (key_toks_lookup _ _ _ _ Hi). by apply IH.
  - destruct (batch n tbl) as [ps |] eqn:Hb; [| rewrite Hsame by done; by apply IH].
    unfold batch in Hb. destruct (take n tbl) as [| [p [ip idx]] l] eqn:Ht; [done |]. cbv zeta in Hb.
    destruct (bool_decide _ && bool_decide _) eqn:Hg; [| done]. apply andb_true_iff in Hg as [Hip Hnd].
    apply bool_decide_eq_true in Hip, Hnd.
    assert (ps = Some <$> (take n tbl).*1) as -> by (rewrite Ht; congruence). rewrite <- Ht in Hip, Hnd. rewrite Hsame by done.
    assert (Hk : key_toks tbl = use_toks ip ((fun x => (x.1, x.2.2)) <$> take n tbl) ⊎ key_toks (drop n tbl)).
    { by rewrite <- key_toks_file, <- key_toks_app, take_drop. }
    rewrite Hk, <- (assoc_L _). set (fl := (fun x => (x.1, x.2.2)) <$> take n tbl) in *.
    assert (E1 : (take n tbl).*1 = fl.*1) by (unfold fl; by rewrite <- list_fmap_compose).
    assert (E2 : snd ∘ snd <$> take n tbl = fl.*2) by (unfold fl; by rewrite <- list_fmap_compose).
    rewrite E1. rewrite E2 in Hnd. apply safe_bind, safe_frame. eapply safe_mono; [by apply safe_writeback_pages |].
    intros rc h ->. cbn beta. rewrite (assoc_L _), <- Hk. by apply IH.
  - destruct (tbl !! i) as [[p k] |] eqn:Hi; [| rewrite Hsame by done; by apply IH].
    eapply Hslot; [exact Hi | apply safe_release; use_in | by apply Hsame | by rewrite <- empty_union].
  - apply Hnone; [apply safe_flush_dirty | by apply Hsame].
  - apply Hnone; [by apply safe_invalidate | by apply Hsame].
Qed.

(** ** Boot *)

(** The state before [page_cache_init]: nothing cached, and the history is what
    the disk holds. *)
Definition boot s : Prop := pages s = [] /\ free_list s = [] /\ fs_ok (fs s) /\
  (coh = true -> forall ip idx, written s ip idx = disk (fs s) ip idx).

Record fresh s0 s (n : nat) : Prop := {
  fr_pages : pages s = replicate n zero_page;
  fr_free : free_list s ≡ₚ seq 0 n;
  fr_hash : page_cache_hash s = replicate 64 [];
  fr_lru : lru s = [];
  fr_fs : fs s = fs s0;
  fr_written : written s = written s0 }.

Lemma init_pages_ok s0 n : forall m s, fresh s0 s m -> wp (init_pages n) s (fun _ s' => exists m', fresh s0 s' m').
Proof.
  induction n as [| n IH]; intros m s [F1 F2 F3 F4 F5 F6]; cbn [init_pages]; [apply wp_ret; by exists m |].
  apply wp_bind. eexists _, _. split; [reflexivity |]. destruct (kmem s 0%nat); [| apply wp_ret; by exists m].
  apply wp_bind. eexists _, _. split; [reflexivity |]. apply (IH (S m)). split; cbn -[seq replicate]; try done.
  - rewrite F1. by rewrite <- replicate_cons_app.
  - rewrite F1, length_replicate, F2, seq_S. by rewrite Permutation_cons_append.
Qed.

Lemma fresh_inv s0 s n h : boot s0 -> fresh s0 s n -> only_credits h -> Z.of_nat (credits h) < 2 ^ 32 -> Inv s h.
Proof.
  intros (_ & _ & Hok & Hw) [F1 F2 F3 F4 F5 F6] Hh Hcr.
  assert (Hz : forall p cp, pages s !! p = Some cp -> cp = zero_page).
  { intros p cp Hp. rewrite F1 in Hp. by apply lookup_replicate_1 in Hp as [-> _]. }
  assert (Hno : forall u p k sn, Tok u p k sn ∉ h) by (intros u p k sn Ht; by apply Hh in Ht).
  assert (Hc0 : forall P, P Credit = false -> count P h = 0%nat) by (intros P HP; apply count_0; intros t ->%Hh; done).
  assert (Hsh : forall p x, (shape <$> pages s) !! p = Some x -> x = (None, false)).
  { intros p x Hp. rewrite list_lookup_fmap in Hp. apply fmap_Some in Hp as (cp & Hp & ->). by rewrite (Hz p cp Hp). }
  split; [| split_and!; [by rewrite F5 | done |]]; [split |].
  - split.
    + by rewrite F3, length_replicate.
    + rewrite F2. apply NoDup_seq.
    + rewrite F4. constructor.
    + intros p. rewrite F2, elem_of_seq. split.
      * intros Hp. exists false. rewrite F1, list_lookup_fmap, lookup_replicate_2 by lia. done.
      * intros [b Hp]. apply lookup_lt_Some in Hp. rewrite length_fmap, F1, length_replicate in Hp. lia.
    + intros p. rewrite F4. split; [by intros ?%not_elem_of_nil |]. intros [k Hp%Hsh]. done.
    + intros b chain Hb. rewrite F3 in Hb. apply lookup_replicate_1 in Hb as [-> _]. split; [constructor |].
      intros p. split; [by intros ?%not_elem_of_nil |]. intros (k & Hp%Hsh & _). done.
    + intros p q k Hp%Hsh. done.
  - intros p cp ->%Hz. split; try done; [by split; intros [] | | | by intros [] ].
    + unfold pins. by rewrite Hc0.
    + unfold fills. by rewrite Hc0.
  - intros u p k sn Ht. by apply Hno in Ht.
  - intros Hc. split.
    + by intros p cp ->%Hz.
    + by intros p cp d k ->%Hz.
    + intros k. left. by rewrite F5, F6, Hw.
    + intros p cp ->%Hz. by intros [].
    + intros u p k sn cp Ht. by apply Hno in Ht.
    + intros p k sn cp Ht. by apply Hno in Ht.
  - intros Hc ip idx Hr. rewrite F6, Hw by done. by apply law_fits.
Qed.

Lemma init_fresh s s' : boot s -> page_cache_init s = Some (tt, s') -> exists n, fresh s s' n.
Proof.
  intros Hb He. destruct (init_pages_ok s PAGE_CACHE_SIZE 0 (set_hash (replicate (length hash_buckets) []) (set_lru [] s)))
    as (u & s2 & He2 & n & Hf).
  { destruct Hb as (Hp & Hfr & _). split; cbn; [done | by rewrite Hfr | done ..]. }
  unfold page_cache_init, mbind, prog_bind, modify in He. rewrite He2 in He. simplify_eq. by exists n.
Qed.

Lemma init_ok s s' h : boot s -> page_cache_init s = Some (tt, s') -> only_credits h -> Z.of_nat (credits h) < 2 ^ 32 -> Inv s' h.
Proof. intros Hb He Hh Hcr. destruct (init_fresh s s' Hb He) as [n Hf]. by eapply fresh_inv. Qed.

(** ** Pools of clients *)

Definition clients (fuel : nat) (progs : list (list call)) : list (act (cache F) unit) :=
  (fun cs => client fuel cs []) <$> progs.

Definition total_writes (progs : list (list call)) : nat := sum_list (writes <$> progs).

Lemma credit_toks_ok n : only_credits (credit_toks n) /\ credits (credit_toks n) = n.
Proof.
  induction n as [| n [IH1 IH2]]; cbn [credit_toks].
  - split; [intros t Ht; multiset_solver | done].
  - split; [intros t [Ht%gmultiset_elem_of_singleton | Ht]%gmultiset_elem_of_disj_union; auto |].
    unfold credits in *. by rewrite count_union, count_singleton, IH2.
Qed.

Lemma clients_ok fuel progs s s' : boot s -> page_cache_init s = Some (tt, s') ->
  Forall (Forall call_ok) progs -> Z.of_nat (total_writes progs) < 2 ^ 32 ->
  pool_ok Inv (fun _ h => only_credits h) (clients fuel progs, s').
Proof.
  intros Hb He Hok Hw. exists ((fun cs => credit_toks (writes cs)) <$> progs). cbn.
  assert (Hall : only_credits (⋃+ ((fun cs => credit_toks (writes cs)) <$> progs)) /\
    credits (⋃+ ((fun cs => credit_toks (writes cs)) <$> progs)) = total_writes progs).
  { clear Hok Hw. induction progs as [| cs progs [IH1 IH2]]; cbn [fmap list_fmap disj_union_list foldr].
    - split; [intros t Ht; multiset_solver | done].
    - destruct (credit_toks_ok (writes cs)) as [H1 H2]. split.
      + intros t [Ht | Ht]%gmultiset_elem_of_disj_union; [by apply H1 | by apply IH1].
      + unfold credits in *. rewrite count_union, H2, IH2. done. }
  destruct Hall as [Ha1 Ha2]. split; [| eapply init_ok; [done | done | done | by rewrite Ha2]].
  unfold clients. clear -Hok. induction Hok as [| cs progs Hcs Hok IH]; [constructor |]. cbn. constructor; [| done].
  rewrite (empty_union (credit_toks _)). change (∅ : gmultiset tok) with (key_toks []). by apply safe_client.
Qed.
End use.

(** ** A file system in memory

    One file, inode 1, of four pages, whose reads or writes may be set to fail;
    while reads work it keeps the promises. *)

Record mem_fs := MemFs { mem_reads : bool; mem_writes : bool; mem_pages : Z -> list Z }.

Definition mem_store (l : list (Z * list Z)) (f : Z -> list Z) : Z -> list Z :=
  foldr (fun x f j => if j =? x.1 then x.2 else f j) f l.

Definition mem_aops : aops mem_fs := Aops
  (Some (fun ip idx d f => Some (if mem_reads f then (0, mem_pages f idx, f) else (- EIO, d, f))))
  (Some (fun ip first ds f =>
     Some (if mem_reads f
           then (0, (fun j => mem_pages f (u64 (first + Z.of_nat j))) <$> seq 0 (length ds),
                 ReadStats 1 (8 * Z.of_nat (length ds)) 0, f)
           else (- EIO, ds, ReadStats 1 0 0, f))))
  (Some (fun ip l f =>
     Some (if mem_writes f then (0, MemFs (mem_reads f) (mem_writes f) (mem_store l (mem_pages f))) else (- EIO, f)))).

#[export] Instance mem_inodes : HasInodes mem_fs := fun f ip =>
  if ip =? 1 then Some (Inode INODE_REGULAR 16384 (Some mem_aops)) else None.

#[export] Instance mem_readable : HasPages mem_fs := fun ip idx => ip = 1.

Lemma mem_store_in l f idx d : NoDup l.*1 -> (idx, d) ∈ l -> mem_store l f idx = d.
Proof.
  induction l as [| [i e] l IH]; intros Hnd Hin; [by apply not_elem_of_nil in Hin |]. cbn in Hnd.
  inversion_clear Hnd as [| ? ? Hi Hnd']. cbn. apply elem_of_cons in Hin as [Hin | Hin]; [simplify_eq; by rewrite Z.eqb_refl |].
  destruct (Z.eqb_spec idx i) as [-> | ?]; [| by apply IH]. destruct Hi. apply list_elem_of_fmap. by exists (i, d).
Qed.

Lemma mem_store_out l f idx : idx ∉ l.*1 -> mem_store l f idx = f idx.
Proof.
  induction l as [| [i e] l IH]; intros Hout; [done |]. cbn in *. apply not_elem_of_cons in Hout as [Hi Hl].
  destruct (Z.eqb_spec idx i); [done | by apply IH].
Qed.

Lemma mem_inode_at (f : mem_fs) ip i : inode_at f ip = Some i -> ip = 1 /\ i = Inode INODE_REGULAR 16384 (Some mem_aops).
Proof. unfold inode_at, mem_inodes. destruct (Z.eqb_spec ip 1); [by intros [= <-] | done]. Qed.

(** The file system whose writes succeed when [w] holds and fail otherwise. *)
Program Definition mem_laws (coh w : bool) : FileSystem mem_fs coh := {|
  fs_ok f := mem_reads f = true /\ mem_writes f = w;
  disk f ip idx := if ip =? 1 then mem_pages f idx else [];
  writable ip := ip = 1;
  fits ip idx d := True |}.
Next Obligation.
  intros coh w f ip i a rd idx d [Hf Hw] [-> ->]%mem_inode_at [= <-] [= <-] _. rewrite Hf. eexists _, _. by do 2 (split; [done |]).
Qed.
Next Obligation.
  intros coh w f ip i a rd first ds [Hf Hw] [-> ->]%mem_inode_at [= <-] [= <-] _ _ Hr. rewrite Hf. eexists _, _, _, _.
  do 2 (split; [done |]). split; [by rewrite length_fmap, length_seq |]. split; [by left |].
  intros _. split; [done |]. intros _ j d' Hj. rewrite list_lookup_fmap in Hj. apply fmap_Some in Hj as (j' & Hj & ->).
  apply lookup_seq in Hj as [-> _]. done.
Qed.
Next Obligation.
  intros coh w f ip i a wr l [Hf Hw] [-> ->]%mem_inode_at [= <-] [= <-] Hnd _. destruct (mem_writes f) eqn:Hm.
  - eexists _, _. do 2 (split; [done |]). intros _. split.
    + intros idx d Hin. left. by apply mem_store_in.
    + intros ip' idx' Hor. destruct (Z.eqb_spec ip' 1); [| done]. destruct Hor; [done | by apply mem_store_out].
  - eexists _, _. split; [done |]. split; [by rewrite Hm |]. intros _. split; [| done]. intros idx d Hin. by right.
Qed.
Next Obligation. done. Qed.
Next Obligation. done. Qed.
Next Obligation. intros coh w f ip idx _ ->. eexists. split; [done | by eexists]. Qed.
Next Obligation.
  intros coh w f ip i _ [-> ->]%mem_inode_at. split; [done | by eexists].
Qed.

(** Before boot, with memory for [n] descriptors and for as many pages as
    wanted (of two bytes, to keep the examples small). *)
Definition unbooted {G : Type} (n : nat) (f : G) (w : Z -> Z -> list Z) : cache G :=
  Cache [] [] [] [] 0 (fun i => if bool_decide (i = n) then None else Some [0; 0]) (fun _ => 0) f w.

Definition booted {G : Type} (n : nat) (f : G) (w : Z -> Z -> list Z) : cache G :=
  match page_cache_init (unbooted n f w) with Some (_, s) => s | None => unbooted n f w end.

Definition is_some {A} (x : option A) : bool := match x with Some _ => true | None => false end.

Lemma booted_init {G : Type} n (f : G) w : is_some (page_cache_init (unbooted n f w)) = true ->
  page_cache_init (unbooted n f w) = Some (tt, booted n f w).
Proof. unfold booted. by destruct (page_cache_init _) as [[[] s] |]. Qed.

Definition zeros (reads writes : bool) : mem_fs := MemFs reads writes (fun _ => [0; 0]).
Definition zeros_of (ip idx : Z) : list Z := if ip =? 1 then [0; 0] else [].

(** ** Theorems *)

(** C6. Whatever the threads do with the cache - get pages with read-ahead, use
    them, write to them, write them back, flush, invalidate files, release -
    and however they interleave, as long as reads of the file system succeed:
    a page that a thread holds stays the page of the file it was got for, with
    its contents in memory and up to date, until the thread releases it; no
    thread ever follows a null pointer; the free list, the LRU list and the
    hash chains stay disjoint and exact; and when all threads have ended no pin
    and no removed page is left over. *)
Theorem page_cache_held_pages {F : Type} `{!HasInodes F} `{!HasPages F} `{!FileSystem F false} fuel progs (s s' : cache F) c :
  boot s -> page_cache_init s = Some (tt, s') -> Forall (Forall call_ok) progs ->
  Z.of_nat (total_writes progs) < 2 ^ 32 -> rtc pool_step (clients fuel progs, s') c ->
  ~ pool_faults c /\
  lists_ok (shape <$> pages c.2) (page_cache_hash c.2) (lru c.2) (free_list c.2) /\
  (all_done c -> forall p cp, pages c.2 !! p = Some cp -> pin_count cp = 0 /\ invalid cp = false).
Proof.
  intros Hb He Hok Hw Hr. pose proof (clients_ok fuel progs s s' Hb He Hok Hw) as Hp.
  pose proof (pool_ok_reach _ _ _ _ Hp Hr) as Hp'. split_and!; [by eapply pool_ok_no_fault | |].
  - destruct Hp' as (hs & _ & HI). apply (inv_lists _ _ _ _ (proj1 HI)).
  - intros Hd p cp Hpg. destruct (pool_ok_done _ _ (fun k => k = Credit) c (fun a h k Hh => Hh k) Hp' Hd) as (h & HI & Hh).
    pose proof (inv_page _ _ _ _ (proj1 HI) p cp Hpg) as Hpk.
    assert (Hpin : pins p h = 0%nat) by (apply count_0; intros t ->%Hh; done).
    pose proof (pk_pin _ _ _ _ Hpk) as Hz. rewrite Hpin in Hz. split; [done |].
    destruct (invalid cp) eqn:Hv; [| done]. pose proof (pk_orphan _ _ _ _ Hpk Hv). lia.
Qed.

(** C1. When files are not invalidated while in use, the cache is coherent: a
    thread that reads a page it holds sees the last store into that page of the
    file by any thread, however reads, writes, evictions, read-ahead and write
    backs interleave; and when all threads have ended, what was last stored in
    a page is on the disk, or in a dirty page of the cache. *)
Theorem page_cache_coherent {F : Type} `{!HasInodes F} `{!HasPages F} `{!FileSystem F true} fuel progs (s s' : cache F) c :
  boot s -> page_cache_init s = Some (tt, s') -> Forall (Forall call_ok) progs ->
  Z.of_nat (total_writes progs) < 2 ^ 32 -> rtc pool_step (clients fuel progs, s') c ->
  ~ pool_faults c /\
  (all_done c -> forall ip idx, disk (fs c.2) ip idx = written c.2 ip idx \/
    exists p cp, pages c.2 !! p = Some cp /\ home cp = Some (ip, idx) /\ dirty cp = true /\
      cp_data cp = Some (written c.2 ip idx)).
Proof.
  intros Hb He Hok Hw Hr. pose proof (clients_ok fuel progs s s' Hb He Hok Hw) as Hp.
  pose proof (pool_ok_reach _ _ _ _ Hp Hr) as Hp'. split; [by eapply pool_ok_no_fault |]. intros Hd ip idx.
  destruct (pool_ok_done _ _ (fun k => k = Credit) c (fun a h k Hh => Hh k) Hp' Hd) as (h & HI & Hh).
  pose proof (inv_coh _ _ _ _ (proj1 HI) eq_refl) as Hco.
  destruct (co_disk _ _ _ Hco (ip, idx)) as [? | (p & cp & Hpg & Hk & Hf & Hor)]; [by left | right].
  exists p, cp. assert (Hm : mods p h = 0%nat) by (apply count_0; intros t ->%Hh; done).
  split_and!; [done | done | destruct Hor; [done | lia] |].
  destruct (cp_data cp) as [d |] eqn:Hd'; [| unfold home in Hk; by rewrite Hd' in Hk].
  by rewrite (co_data _ _ _ Hco p cp d (ip, idx) Hpg Hd' Hk (or_introl Hf)).
Qed.

(** Two threads on a cache of two descriptors. *)
Definition demo_progs : list (list call) :=
  [[CGet 1 0 4 1; CUse 0; CWrite 0 1 0 0 [7]; CWriteback 1; CRelease 0; CGet 1 3 1 1];
   [CGet 1 0 1 0; CUse 0; CFlush None; CInvalidate 1; CUse 0]].
Definition demo_schedule : list nat :=
  [0; 0; 0; 0; 0; 1; 0; 0; 1; 0; 1; 0; 1; 0; 1; 0; 1; 0; 1; 0; 1; 0; 1; 0; 0; 0; 0; 0; 0; 0; 0; 0; 0; 0; 0; 0]%nat.

Lemma page_cache_held_pages_witness :
  is_some (run_schedule demo_schedule (clients 3 demo_progs, booted 2 (zeros true true) zeros_of)) = true /\
  forall c, run_schedule demo_schedule (clients 3 demo_progs, booted 2 (zeros true true) zeros_of) = Some c -> ~ pool_faults c.
Proof.
  split; [vm_compute; reflexivity |]. intros c Hc.
  apply (page_cache_held_pages (FileSystem0 := mem_laws false true) 3 demo_progs (unbooted 2 (zeros true true) zeros_of) (booted 2 (zeros true true) zeros_of) c).
  - by repeat split.
  - vm_compute; reflexivity.
  - repeat constructor; cbn; lia.
  - reflexivity.
  - by apply run_schedule_steps in Hc.
Defined.

Definition demo2_progs : list (list call) :=
  [[CGet 1 0 4 1; CWrite 0 1 0 0 [7]; CCheck 0; CWriteback 1; CRelease 0; CGet 1 2 1 1; CCheck 0];
   [CGet 1 0 1 0; CCheck 0; CWrite 0 1 0 1 [9]; CCheck 0; CFlush None; CCheck 0]].
Definition demo2_schedule : list nat :=
  [0; 0; 0; 0; 0; 1; 0; 0; 1; 0; 1; 0; 1; 0; 1; 0; 1; 0; 1; 0; 1; 0; 1; 0; 1; 0; 1; 0; 1; 0; 1; 0; 1; 0; 1; 0; 1; 0; 1;
   0; 1; 0; 0; 0; 0; 0]%nat.

Lemma page_cache_coherent_witness :
  is_some (run_schedule demo2_schedule (clients 3 demo2_progs, booted 2 (zeros true true) zeros_of)) = true /\
  forall c, run_schedule demo2_schedule (clients 3 demo2_progs, booted 2 (zeros true true) zeros_of) = Some c -> ~ pool_faults c.
Proof.
  split; [vm_compute; reflexivity |]. intros c Hc.
  apply (page_cache_coherent (FileSystem0 := mem_laws true true) 3 demo2_progs (unbooted 2 (zeros true true) zeros_of) (booted 2 (zeros true true) zeros_of) c).
  - by repeat split.
  - vm_compute; reflexivity.
  - repeat constructor; cbn; lia.
  - reflexivity.
  - by apply run_schedule_steps in Hc.
Defined.
