(* ===== verification/PageCacheFrame.v ===== *)
(** * The page cache: what its functions leave alone

    Relations between the states before and after a function of the cache,
    proved once for any relation ([Frame]) from what it allows for the flags of
    a page.  Two instances: no function changes the history variable; and
    reading pages makes no page dirty, bad or busy. *)

From Stdlib Require Import ZArith Lia List.
From stdpp Require Import base list gmap gmultiset relations functions.
From S2P Require Import Prelude Threads PageCache PageCacheInv.

Local Open Scope Z_scope.

(** [R] is kept by changes of the lists, the counters and the file system, by
    allocations, and by changes of a descriptor whose flags are related by
    [fl]. *)
Class Frame {F : Type} (R : cache F -> cache F -> Prop) (fl : Z -> Z -> Prop) := {
  fr_refl s : R s s;
  fr_trans s1 s2 s3 : R s1 s2 -> R s2 s3 -> R s1 s3;
  fr_hash s l : R s (set_hash l s);
  fr_lru s l : R s (set_lru l s);
  fr_free s l n : R s (set_free l n s);
  fr_stats s m : R s (set_stats m s);
  fr_fs s f : R s (set_fs f s);
  fr_kmem s : R s (set_kmem (fun n => kmem s (S n)) s);
  fr_page s p cp cp' : pages s !! p = Some cp -> fl (cp_flags cp) (cp_flags cp') ->
    R s (set_pages (<[p := cp']> (pages s)) s) }.

(** What reading does to the flags. *)
Class ReadFlags (fl : Z -> Z -> Prop) := {
  rf_same f : fl f f;
  rf_free f : fl f 0;
  rf_admit f (ra : bool) : fl f (Z.lor CACHE_PAGE_FILLING (if ra then CACHE_PAGE_READAHEAD else 0));
  rf_used f : fl f (clear_flag f CACHE_PAGE_READAHEAD);
  rf_filled f : fl f (clear_flag f CACHE_PAGE_FILLING);
  rf_uptodate f : fl f (set_flag f CACHE_PAGE_UPTODATE);
  rf_failed f : fl f (set_flag (set_flag (clear_flag f CACHE_PAGE_FILLING) CACHE_PAGE_ERROR) CACHE_PAGE_INVALID) }.

Create HintDb frame.

Section frames.
Context {F : Type} `{!HasInodes F} {R : cache F -> cache F -> Prop} {fl : Z -> Z -> Prop} `{!Frame R fl} `{!ReadFlags fl}.
Implicit Types (s : cache F).

Hint Extern 1 (R _ _) => first [apply fr_refl | apply fr_hash | apply fr_lru | apply fr_free | apply fr_stats | apply fr_fs | apply fr_kmem] : frame.
Hint Extern 1 (fl _ _) => first [apply rf_same | apply rf_free | apply rf_admit | apply rf_used | apply rf_filled | apply rf_uptodate] : frame.

Definition keep {A} (m : prog (cache F) A) : Prop := forall s a s', m s = Some (a, s') -> R s s'.

Lemma keep_ret {A} (a : A) : keep (mret a).
Proof. intros s b s' He. injection He as _ <-. auto with frame. Qed.

Lemma keep_bind {A B} (m : prog (cache F) A) (f : A -> prog (cache F) B) : keep m -> (forall a, keep (f a)) -> keep (m ≫= f).
Proof.
  intros Hm Hf s b s' He. unfold mbind, prog_bind in He. destruct (m s) as [[a s1] |] eqn:E1; [| done].
  eapply fr_trans; [by eapply Hm | by eapply Hf].
Qed.

Lemma keep_getp p : keep (getp p).
Proof. intros s a s' He. unfold getp in He. destruct (pages s !! p); simplify_eq. auto with frame. Qed.

Lemma keep_updp p f : (forall cp, fl (cp_flags cp) (cp_flags (f cp))) -> keep (updp p f).
Proof. intros Hf s a s' He. unfold updp in He. destruct (pages s !! p) eqn:Hp; simplify_eq. by eapply fr_page. Qed.

Lemma keep_modify f : (forall s, R s (f s)) -> keep (modify f).
Proof. intros Hf s a s' He. injection He as _ <-. apply Hf. Qed.

Lemma keep_fault {A} : keep (@fault F A).
Proof. by intros s a s' He. Qed.

Lemma keep_on_fs {A} (f : F -> option (A * F)) : keep (on_fs f).
Proof. intros s a s' He. unfold on_fs in He. destruct (f (fs s)) as [[]|]; simplify_eq. auto with frame. Qed.

Lemma keep_kmalloc : keep kmalloc.
Proof. intros s a s' He. injection He as _ <-. apply fr_kmem. Qed.

Lemma keep_pop : keep free_list_pop.
Proof. intros s a s' He. unfold free_list_pop in He. destruct (free_list s); simplify_eq; auto with frame. Qed.

Lemma keep_bucket b : keep (bucket b).
Proof. intros s a s' He. unfold bucket in He. destruct (page_cache_hash s !! b); simplify_eq. auto with frame. Qed.

Lemma keep_get_inode ip : keep (get_inode ip).
Proof. intros s a s' He. unfold get_inode in He. destruct (inode_at (fs s) ip); simplify_eq. auto with frame. Qed.

Lemma keep_stat_dec x : keep (stat_dec x).
Proof. apply keep_modify. intros s. destruct (_ =? 0); auto with frame. Qed.

Hint Resolve keep_ret keep_getp keep_fault keep_on_fs keep_kmalloc keep_pop keep_bucket keep_get_inode keep_stat_dec : frame.
Hint Extern 1 (keep (modify _)) => apply keep_modify; intros; try case_match; auto with frame : frame.
Hint Extern 1 (keep (updp _ _)) => apply keep_updp; intros; cbn [cp_flags set_pin set_flags set_data set_error set_seq set_ra clear_page admit_page];
  auto with frame : frame.

Ltac keeps_step := repeat match goal with
  | |- keep (_ ≫= _) => apply keep_bind; [| intros ?]
  | |- keep (match ?x with _ => _ end) => destruct x
  | |- keep (let '_ := ?x in _) => destruct x
  | |- keep _ => solve [auto with frame]
  end.

Lemma keep_stat_add x n : keep (stat_add x n).
Proof. unfold stat_add. keeps_step. Qed.
Lemma keep_push p : keep (free_list_push p).
Proof. unfold free_list_push. keeps_step. Qed.
Lemma keep_lru_remove p : keep (lru_remove p).
Proof. unfold lru_remove. keeps_step. Qed.
Lemma keep_lru_insert p : keep (lru_insert_head p).
Proof. unfold lru_insert_head. keeps_step. Qed.
Lemma keep_unlink b p : keep (hash_unlink b p).
Proof. unfold hash_unlink. keeps_step. Qed.
Lemma keep_hash_push b p : keep (hash_push b p).
Proof. unfold hash_push. keeps_step. Qed.
Lemma keep_chain_find ip idx l : keep (chain_find ip idx l).
Proof. induction l; cbn [chain_find]; keeps_step; done. Qed.
Lemma keep_page_data l : keep (page_data l).
Proof. induction l; cbn [page_data]; keeps_step; done. Qed.
Lemma keep_images l : keep (page_images l).
Proof. induction l as [| []]; cbn [page_images]; keeps_step; done. Qed.
Hint Resolve keep_stat_add keep_push keep_lru_remove keep_lru_insert keep_unlink keep_hash_push keep_chain_find keep_page_data
  keep_images : frame.
Lemma keep_find ip idx : keep (find_locked ip idx).
Proof. unfold find_locked. keeps_step. Qed.
Lemma keep_writepages ip l : keep (call_writepages ip l).
Proof. unfold call_writepages. keeps_step. Qed.
Hint Resolve keep_find keep_writepages : frame.

(** The same for threads. *)
Fixpoint akeep {A} (m : act (cache F) A) : Prop :=
  match m with
  | Done _ | Spin => True
  | Step f => forall s, match f s with Some (m', s') => R s s' /\ akeep m' | None => True end
  | Await _ k => akeep k
  end.

Lemma akeep_bind {A B} (m : act (cache F) A) (k : A -> act (cache F) B) : akeep m -> (forall a, akeep (k a)) -> akeep (m ≫= k).
Proof.
  intros Hm Hk. revert m Hm. fix IH 1. intros m Hm. destruct m as [a | f | b m |]; cbn in *; [done | | by apply IH | done].
  intros s. specialize (Hm s). destruct (f s) as [[m' s'] |]; [| done]. destruct Hm. split; [done | by apply IH].
Qed.

Lemma akeep_atomic {A} (m : prog (cache F) A) : keep m -> akeep (atomic m).
Proof. intros Hm s. destruct (m s) as [[a s'] |] eqn:He; [| done]. split; [by eapply Hm | done]. Qed.

Lemma akeep_exec {A} (m : act (cache F) A) s a s' : akeep m -> exec m s = Returns a s' -> R s s'.
Proof.
  revert m s. fix IH 1. intros m s Hm He. destruct m as [b | f | b m |]; cbn in *; [simplify_eq; auto with frame | | | done].
  - specialize (Hm s). destruct (f s) as [[m' s1] |]; [| done]. destruct Hm as [H1 Hm'].
    eapply fr_trans; [exact H1 | by eapply IH].
  - destruct (b s); [by eapply IH | done].
Qed.

Lemma akeep_ret {A} (a : A) : akeep (mret a).
Proof. done. Qed.

Ltac akeeps_step := repeat match goal with
  | |- akeep (_ ≫= _) => apply akeep_bind; [| intros ?]
  | |- akeep (atomic _) => apply akeep_atomic; keeps_step
  | |- akeep (match ?x with _ => _ end) => destruct x
  | |- akeep (let '_ := ?x in _) => destruct x
  | |- akeep _ => first [apply akeep_ret | done | solve [auto with frame]]
  end.

(** *** Reading *)

Lemma keep_resolve p b : keep (ra_resolve_locked p b).
Proof. unfold ra_resolve_locked. keeps_step. Qed.
Lemma keep_hit p : keep (ra_hit_locked p).
Proof. unfold ra_hit_locked. keeps_step. Qed.
Lemma keep_release p : keep (page_cache_release_locked p).
Proof. unfold page_cache_release_locked. keeps_step. Qed.
Hint Resolve keep_resolve keep_hit keep_release : frame.
Lemma keep_lookup ip idx : keep (lookup_locked ip idx).
Proof. unfold lookup_locked, lru_touch. keeps_step. Qed.
Lemma keep_evict_scan l : keep (evict_scan l).
Proof. induction l; cbn [evict_scan]; keeps_step; done. Qed.
Lemma keep_evict : keep page_cache_evict_locked.
Proof. intros s a s' He. by eapply keep_evict_scan. Qed.
Hint Resolve keep_lookup keep_evict : frame.
Lemma keep_alloc ip idx ra : keep (page_cache_alloc_locked ip idx ra).
Proof. unfold page_cache_alloc_locked, free_descriptor. keeps_step. Qed.
Hint Resolve keep_alloc : frame.
Lemma keep_reserve ip idx source n i : keep (reserve_pages ip idx source n i).
Proof. revert i. induction n; intros i; cbn [reserve_pages]; keeps_step; auto. Qed.
Lemma keep_store_data l ds : keep (store_data l ds).
Proof. revert ds. induction l; intros []; cbn [store_data]; keeps_step; auto. Qed.
Hint Resolve keep_reserve keep_store_data : frame.
Lemma keep_readpages ip idx l : keep (call_readpages ip idx l).
Proof. unfold call_readpages. keeps_step. Qed.
Lemma keep_readpage ip p : keep (call_readpage ip p).
Proof. unfold call_readpage. keeps_step. Qed.
Hint Resolve keep_readpages keep_readpage : frame.

(** A failed page is marked bad and removed in one critical section. *)
Lemma keep_fill_done source allocated i rc p : keep (fill_done source allocated i rc p).
Proof.
  unfold fill_done. destruct (negb (rc =? 0)); [| keeps_step]. intros s a s' He.
  unfold mbind, prog_bind, page_cache_unhash_locked, updp, getp, mbind, prog_bind in He.
  destruct (pages s !! p) as [cp |] eqn:Hp; [| done]. cbn [pages set_pages] in He.
  assert (Hb : (p < length (pages s))%nat) by (by eapply lookup_lt_Some).
  rewrite list_lookup_insert_eq in He by done. cbn [pages set_pages] in He.
  rewrite list_lookup_insert_eq in He by (by rewrite length_insert).
  unfold hash_unlink, lru_remove, modify in He. cbn [pages set_pages set_hash set_lru] in He.
  rewrite list_lookup_insert_eq in He by (by rewrite length_insert). injection He as <- <-.
  rewrite !list_insert_insert_eq.
  refine (fr_trans _ _ _ (fr_trans _ _ _ (fr_page s p cp _ Hp _) (fr_hash _ _)) (fr_lru _ _)). apply rf_failed.
Qed.
Hint Resolve keep_fill_done : frame.

Lemma akeep_release p : akeep (page_cache_release p).
Proof. unfold page_cache_release. akeeps_step. Qed.
Hint Resolve akeep_release : frame.
Lemma akeep_lookup ip idx : akeep (page_cache_lookup ip idx).
Proof. unfold page_cache_lookup. akeeps_step. Qed.
Lemma akeep_fill_loop ip source allocated b rc l i a e : akeep (fill_loop ip source allocated b rc l i a e).
Proof. revert i a e. induction l; intros; cbn [fill_loop]; akeeps_step; auto. Qed.
Lemma akeep_release_pages l : akeep (release_pages l).
Proof. induction l; cbn [release_pages]; akeeps_step. Qed.
Hint Resolve akeep_lookup akeep_fill_loop akeep_release_pages : frame.
Lemma akeep_fill_pages ip idx source p l : akeep (fill_pages ip idx source p l).
Proof. unfold fill_pages. akeeps_step. Qed.
Hint Resolve akeep_fill_pages : frame.
Lemma akeep_get_ra fuel ip idx window source : akeep (page_cache_get_ra fuel ip idx window source).
Proof. revert window. induction fuel; intros; cbn [page_cache_get_ra]; unfold get_ra_once; akeeps_step; auto. Qed.

(** *** Writing *)

Hypothesis any_flags : forall f f', fl f f'.

Lemma keep_updp_any p f : keep (updp p f).
Proof using any_flags Frame0. apply keep_updp. intros. apply any_flags. Qed.
Hint Resolve keep_updp_any : frame.
Lemma keep_wb_begin ip l : keep (wb_begin ip l).
Proof using any_flags Frame0. induction l as [| []]; cbn [wb_begin]; keeps_step; done. Qed.
Lemma keep_wb_end rc l sns : keep (wb_end rc l sns).
Proof using any_flags Frame0. revert sns. induction l as [| []]; intros []; cbn [wb_end]; keeps_step; auto. Qed.
Lemma keep_collect_chain only l max : keep (collect_chain only l max).
Proof using any_flags Frame0. revert max. induction l; intros []; cbn [collect_chain]; keeps_step; auto. Qed.
Lemma keep_collect only max : keep (collect_dirty only max).
Proof using any_flags Frame0. intros s a s' He. by eapply keep_collect_chain. Qed.
Hint Resolve keep_wb_begin keep_wb_end keep_collect : frame.
Lemma akeep_writeback l : akeep (page_cache_writeback_pages l).
Proof using any_flags Frame0. unfold page_cache_writeback_pages. akeeps_step. Qed.
Hint Resolve akeep_writeback : frame.
Lemma akeep_flush_pages l e : akeep (flush_pages l e).
Proof using any_flags Frame0 ReadFlags0. revert e. induction l; intros; cbn [flush_pages]; unfold page_cache_writeback; akeeps_step; auto. Qed.
Hint Resolve akeep_flush_pages : frame.
Lemma akeep_flush fuel only : akeep (flush_dirty fuel only).
Proof using any_flags Frame0 ReadFlags0. induction fuel; cbn [flush_dirty]; akeeps_step; done. Qed.
End frames.

(** ** The history variable *)

Definition same_history {F} (s s' : cache F) : Prop := written s' = written s.

#[export] Instance history_frame {F} : Frame (@same_history F) (fun _ _ => True).
Proof. split; try done. unfold same_history. intros. congruence. Qed.

#[export] Instance any_read_flags : ReadFlags (fun _ _ => True).
Proof. by split. Qed.

Section history.
Context {F : Type} `{!HasInodes F}.

Lemma get_ra_history fuel ip idx window source (s : cache F) r s' :
  exec (page_cache_get_ra fuel ip idx window source) s = Returns r s' -> written s' = written s.
Proof. intros He. exact (akeep_exec (R := same_history) _ _ _ _ (akeep_get_ra fuel ip idx window source) He). Qed.

Lemma flush_history fuel only (s : cache F) r s' :
  exec (flush_dirty fuel only) s = Returns r s' -> written s' = written s.
Proof. intros He. refine (akeep_exec (R := same_history) _ _ _ _ (akeep_flush _ fuel only) He). done. Qed.

Lemma writeback_history l (s : cache F) r s' :
  exec (page_cache_writeback_pages l) s = Returns r s' -> written s' = written s.
Proof. intros He. refine (akeep_exec (R := same_history) _ _ _ _ (akeep_writeback _ l) He). done. Qed.

Lemma release_history p (s : cache F) r s' : exec (page_cache_release p) s = Returns r s' -> written s' = written s.
Proof. intros He. exact (akeep_exec (R := same_history) _ _ _ _ (akeep_release p) He). Qed.
End history.

(** ** Pages that need attention

    Reading makes no page dirty and starts no write; a page that it marks bad
    is invalid as well. *)

Definition calm_flags (f f' : Z) : Prop :=
  (has_flag f' CACHE_PAGE_DIRTY = true -> has_flag f CACHE_PAGE_DIRTY = true) /\
  (has_flag f' CACHE_PAGE_WRITEBACK = true -> has_flag f CACHE_PAGE_WRITEBACK = true) /\
  (has_flag f' CACHE_PAGE_ERROR = true -> has_flag f CACHE_PAGE_ERROR = true \/ has_flag f' CACHE_PAGE_INVALID = true) /\
  (has_flag f CACHE_PAGE_INVALID = true -> has_flag f' CACHE_PAGE_ERROR = true -> has_flag f' CACHE_PAGE_INVALID = true).

(** Memory can be had as often as it is asked for. *)
Definition plenty {F} (s : cache F) : Prop := forall n, is_Some (kmem s n).

Record calm {F} (s s' : cache F) : Prop := {
  ca_length : length (pages s') = length (pages s);
  ca_page : forall q c', pages s' !! q = Some c' -> exists c, pages s !! q = Some c /\ calm_flags (cp_flags c) (cp_flags c');
  ca_plenty : plenty s -> plenty s' }.

Lemma calm_flags_trans f1 f2 f3 : calm_flags f1 f2 -> calm_flags f2 f3 -> calm_flags f1 f3.
Proof. unfold calm_flags. naive_solver. Qed.

#[export] Instance calm_read_flags : ReadFlags calm_flags.
Proof.
  split; unfold calm_flags; intros; [tauto | by split_and! | destruct ra; by split_and! | ..]; flags; tauto.
Qed.

#[export] Instance calm_frame {F} : Frame (@calm F) calm_flags.
Proof.
  assert (Hsame : forall s s' : cache F, pages s' = pages s -> (plenty s -> plenty s') -> calm s s').
  { intros s s' Hp Hk. split; [by rewrite Hp | | done]. intros q c' Hq. rewrite Hp in Hq. exists c'. split; [done | apply rf_same]. }
  split; try (intros; by apply Hsame).
  - intros s1 s2 s3 [L1 P1 K1] [L2 P2 K2]. split; [congruence | | auto]. intros q c3 H3.
    destruct (P2 q c3 H3) as (c2 & H2 & F2), (P1 q c2 H2) as (c1 & H1 & F1). exists c1. split; [done |]. by eapply calm_flags_trans.
  - intros s. apply Hsame; [done |]. intros Hk n. apply Hk.
  - intros s p cp cp' Hp Hf. split; [apply length_insert | | done]. intros q c' Hq. cbn in Hq.
    destruct (decide (q = p)) as [-> | Hne].
    + rewrite list_lookup_insert_eq in Hq by (by eapply lookup_lt_Some). simplify_eq. by exists cp.
    + rewrite list_lookup_insert_ne in Hq by done. exists c'. split; [done | apply rf_same].
Qed.
