(* ===== verification/PageCacheAlone.v ===== *)
(** * The page cache: one thread alone

    When the other threads are idle: [page_cache_get_ra] returns the page with
    its contents, flushing makes the disk hold what was stored; and what
    happens when a read or an allocation fails or a page is marked bad. *)

From Stdlib Require Import ZArith Lia List.
From stdpp Require Import base list gmap gmultiset relations functions.
From S2P Require Import Prelude Threads PageCache PageCacheInv PageCacheSafe PageCacheUse PageCacheFrame.

Local Open Scope Z_scope.

(** ** Getting a page *)

Section alone.
Context {F : Type} `{!HasInodes F} `{!HasPages F} {coh : bool} `{!FileSystem F coh}.
Implicit Types (s : cache F) (h : gmultiset tok) (p : nat) (cp : cache_page).

(** Nobody else uses the cache: no thread has a page. *)
Definition quiescent s : Prop := exists h, Inv s h /\ only_credits h.

Lemma idle_pins h p P : only_credits h -> P Credit = false -> count P h = 0%nat.
Proof. intros Hh HP. apply count_0. by intros t ->%Hh. Qed.

(** No page is being read. *)
Definition unfilled h : Prop := forall p, fills p h = 0%nat.

Lemma idle_unfilled h : only_credits h -> unfilled h.
Proof. intros Hh p. by apply idle_pins. Qed.

Lemma unfilled_held p k h : unfilled h -> unfilled (held p k ⊎ h).
Proof. intros Hh q. specialize (Hh q). unfold fills in *. rewrite count_union, Hh. unfold held. by rewrite is_use_tok. Qed.

Lemma idle_filling s h p cp : Inv s h -> unfilled h -> pages s !! p = Some cp -> filling cp = false.
Proof.
  intros (Hi & _) Hh Hp. pose proof (pk_fill _ _ _ _ (inv_page _ _ _ _ Hi _ _ Hp)) as Hf.
  rewrite Hh in Hf. by destruct (filling cp).
Qed.

(** *** Resources for one page *)

(** A descriptor is free, or some page can be evicted. *)
Definition room s : Prop := free_list s <> [] \/
  exists p cp, p ∈ lru s /\ pages s !! p = Some cp /\ evictable cp = true.

Lemma evict_scan_room l s h : Inv s h -> (forall p, p ∈ l -> p ∈ lru s) ->
  (exists p cp, p ∈ l /\ pages s !! p = Some cp /\ evictable cp = true) ->
  wp (evict_scan l) s (fun rc s' => rc = 0 /\ kmem s' = kmem s).
Proof.
  intros HI. induction l as [| q l IH]; intros Hl (p & cp & Hin & Hp & He); [by apply not_elem_of_nil in Hin |].
  cbn [evict_scan]. assert (Hq : q ∈ lru s) by (apply Hl; by left).
  apply (lo_lru _ _ _ _ (inv_lists _ _ _ _ (proj1 HI))) in Hq as (k & Hq). rewrite list_lookup_fmap in Hq.
  apply fmap_Some in Hq as (cq & Hq & _). apply wp_bind. eapply wp_getp; [exact Hq |].
  destruct (evictable cq) eqn:Hev; cbn [negb].
  - apply wp_bind. eapply wp_mono; [apply wp_ra_resolve; by exists cq |]. intros [] s1 Hqu.
    destruct (quiet_page _ _ _ _ Hqu Hq) as (c1 & Hq1 & _).
    apply wp_bind, wp_modify_cache, wp_bind, wp_modify_cache, wp_bind. eapply wp_updp; [exact Hq1 |].
    apply wp_bind, wp_modify_cache. apply wp_ret. split; [done |]. apply Hqu.
  - apply IH; [intros r Hr; apply Hl; by right |]. exists p, cp. split_and!; [| done | done].
    apply elem_of_cons in Hin as [-> | ?]; [congruence | done].
Qed.

Lemma free_descriptor_room s h k : Inv s h -> uncached s k -> room s ->
  wp free_descriptor s (fun r s' => is_Some r /\ kmem s' = kmem s).
Proof.
  intros HI Hu Hr. unfold free_descriptor. apply wp_bind. unfold wp at 1, free_list_pop.
  destruct (free_list s) as [| p fr] eqn:Hf; [| eexists _, _; split; [done |]; apply wp_ret; split; [by eexists | done]].
  eexists _, _. split; [done |]. cbn beta iota. destruct Hr as [Hr | (p & cp & Hin & Hp & He)]; [done |].
  apply wp_bind. unfold page_cache_evict_locked. assert (Hl : forall q, q ∈ rev (lru s) <-> q ∈ lru s).
  { intros q. rewrite !list_elem_of_In. symmetry. apply in_rev. }
  eapply wp_mono; [apply wp_both; [apply (evict_scan_room (rev (lru s)) s h HI) |
    apply (evict_scan_ok (rev (lru s)) s h k HI)] |]; [intros q; by rewrite Hl | exists p, cp; by rewrite Hl | intros q; by rewrite Hl | done |].
  intros rc s1 ([-> Hk] & _ & _ & _ & Hne & _). cbn [Z.eqb negb]. apply wp_bind. unfold wp at 1, free_list_pop.
  destruct (free_list s1) as [| q fr]; [by destruct (Hne eq_refl) |]. eexists _, _. split; [done |]. apply wp_ret.
  split; [by eexists | done].
Qed.

Lemma alloc_locked_room ip idx ra s h : Inv s h -> uncached s (ip, idx) -> room s -> is_Some (kmem s 0%nat) ->
  is_Some (inode_at (fs s) ip) -> wp (page_cache_alloc_locked ip idx ra) s (fun r _ => is_Some r).
Proof.
  intros HI Hu Hr [d Hd] Hl. unfold page_cache_alloc_locked. apply wp_bind.
  eapply wp_mono; [apply wp_both; [by eapply free_descriptor_room | by eapply free_descriptor_ok] |].
  intros r s1 [[[p ->] Hk] ((s0 & fr & HI0 & Hf0 & ->) & _ & _ & _)]. apply wp_bind. eexists _, _. split; [reflexivity |].
  rewrite Hk, Hd. cbn beta iota.
  assert (Hp : is_Some (pages s0 !! p)).
  { assert (Hin : p ∈ free_list s0) by (rewrite Hf0; by left). apply (lo_free _ _ _ _ (inv_lists _ _ _ _ (proj1 HI0))) in Hin as [b Hs].
    rewrite list_lookup_fmap in Hs. apply fmap_Some in Hs as (cp & ? & _). by exists cp. }
  destruct Hp as [cp Hp]. apply wp_bind. eapply wp_updp; [exact Hp |]. apply wp_bind, wp_modify_cache, wp_bind, wp_modify_cache, wp_ret. by eexists.
Qed.

(** The first page of the window is reserved. *)
Lemma reserve_room ip idx source n s h : Inv s h ->
  (forall j, 0 <= j < Z.of_nat n -> readable ip (u64 (idx + j))) -> (0 < n)%nat -> uncached s (ip, u64 idx) -> room s ->
  is_Some (kmem s 0%nat) -> is_Some (inode_at (fs s) ip) -> wp (reserve_pages ip idx source n 0) s (fun ps _ => ps <> []).
Proof.
  intros HI Hrd Hn Hu Hr Hk Hl. destruct n as [| n]; [lia |]. cbn [reserve_pages].
  assert (Hrd0 : readable ip (u64 idx)) by (rewrite <- (Z.add_0_r idx); apply Hrd; lia). rewrite Z.add_0_r. apply wp_bind.
  eapply wp_mono; [eapply find_locked_ok, HI |]. intros r s' [-> Hf]. destruct r as [p |].
  { destruct Hf as (cp & Hp & Hh & Hv). rewrite (Hu p cp Hp Hh) in Hv. done. }
  apply wp_bind. eapply wp_mono; [apply wp_both; [by eapply alloc_locked_room | by apply alloc_locked_ok] |].
  intros r s1 [[p ->] [Hf1 HI1]]. apply wp_bind. eapply wp_mono; [apply (reserve_ok ip idx source n (0 + 1) s1 _ HI1) |].
  - by rewrite Hf1.
  - intros j Hj. apply Hrd. lia.
  - intros ps s2 _. by apply wp_ret.
Qed.

(** *** A cached page *)

Lemma lookup_locked_hit ip idx s h p cp : Inv s h -> pages s !! p = Some cp -> home cp = Some (ip, idx) -> invalid cp = false ->
  exists s1, lookup_locked ip idx s = Some (Some (p, cp_flags cp), s1) /\
    pages s1 = <[p := set_pin (pin_count cp + 1) cp]> (pages s).
Proof.
  intros HI Hp Hhm Hv. destruct (find_locked_ok s h ip idx (proj1 HI)) as (r & s0 & Hr & -> & Hfound). unfold lookup_locked.
  assert (r = Some p) as ->.
  { destruct r as [q |]; [| rewrite (Hfound p cp Hp Hhm) in Hv; done]. destruct Hfound as (cq & Hq & Hhq & Hvq). f_equal.
    eapply (lo_unique _ _ _ _ (inv_lists _ _ _ _ (proj1 HI)) q p (ip, idx)); by eapply shape_lookup. }
  unfold mbind, prog_bind. rewrite Hr. unfold updp. rewrite Hp. unfold lru_touch, mbind, prog_bind, lru_remove, lru_insert_head, modify, getp.
  cbn [pages set_lru set_pages lru]. rewrite list_lookup_insert_eq by (by eapply lookup_lt_Some). by eexists.
Qed.

Lemma lookup_hit ip idx s h p cp : Inv s h -> unfilled h -> ip <> 0 -> pages s !! p = Some cp ->
  home cp = Some (ip, idx) -> invalid cp = false -> has_flag (cp_flags cp) CACHE_PAGE_ERROR = false ->
  exists s', exec (page_cache_lookup ip idx) s = Returns (Some p) s'.
Proof.
  intros HI Hh Hip Hp Hhm Hv He. pose proof (idle_filling s h p cp HI Hh Hp) as Hf. unfold page_cache_lookup.
  destruct (Z.eqb_spec ip 0); [done |].
  destruct (lookup_locked_hit ip idx s h p cp HI Hp Hhm Hv) as (s1 & Hl & Hp1). rewrite (exec_atomic_bind _ _ _ _ _ Hl). unfold filling in Hf. rewrite Hf.
  assert (Hp1' : pages s1 !! p = Some (set_pin (pin_count cp + 1) cp)) by (rewrite Hp1; apply list_lookup_insert_eq; by eapply lookup_lt_Some).
  rewrite exec_bind. cbn [exec mret act_ret]. erewrite exec_atomic_bind by (unfold getp; rewrite Hp1'; reflexivity).
  cbn [cp_flags set_pin]. rewrite has_flag_lor, He. unfold invalid in Hv. rewrite Hv. cbn [orb].
  destruct (wp_ra_hit s1 p) as ([] & s2 & He2 & _); [by eexists |]. rewrite (exec_atomic_bind _ _ _ _ _ He2). by eexists.
Qed.

Lemma lookup_miss ip idx s h : Inv s h -> uncached s (ip, idx) -> exec (page_cache_lookup ip idx) s = Returns None s.
Proof.
  intros HI Hu. unfold page_cache_lookup. destruct (ip =? 0); [done |].
  destruct (find_locked_ok s h ip idx (proj1 HI)) as (r & s0 & Hr & -> & Hf).
  destruct r as [p |]; [destruct Hf as (cp & Hp & Hh & Hv); rewrite (Hu p cp Hp Hh) in Hv; done |].
  erewrite exec_atomic_bind; [| unfold lookup_locked, mbind, prog_bind; rewrite Hr; reflexivity]. done.
Qed.

(** *** The whole function *)

Lemma ra_window_pos (i : inode F) idx w : 0 < w -> 1 <= ra_window i idx w.
Proof.
  intros Hw. assert (Hc : 1 <= page_cache_ra_cap w).
  { unfold page_cache_ra_cap. change XOS_RA_MAX_PAGES with 16. change PAGE_CACHE_RA_MAX_PAGES with 16. cbv zeta.
    destruct (Z.eqb_spec 16 0), (Z.eqb_spec w 0); try lia. destruct (Z.ltb_spec 16 w); [done |]. destruct (Z.ltb_spec w 16); lia. }
  unfold ra_window. cbv zeta. destruct (_ =? _); [| lia]. destruct (Z.leb_spec (u64 (i_size i + PAGE_SIZE - 1) / PAGE_SIZE) idx); [lia |].
  destruct (Z.ltb_spec (u64 (i_size i + PAGE_SIZE - 1) / PAGE_SIZE - idx) (page_cache_ra_cap w)); lia.
Qed.

Lemma straight_release_pages (l : list nat) : straight (release_pages (F := F) l).
Proof. induction l; [done |]. apply straight_bind; [apply straight_atomic | done]. Qed.

Lemma straight_fill_loop ip source allocated b rc (l : list nat) : forall i a e,
  straight (fill_loop (F := F) ip source allocated b rc l i a e).
Proof.
  induction l as [| p l IH]; intros; [done |]. cbn [fill_loop]. apply straight_bind; [destruct b; [done | apply straight_atomic] |].
  intros r. apply straight_bind; [apply straight_atomic |]. intros []. apply IH.
Qed.

Lemma straight_fill_pages ip idx source p (l : list nat) : straight (fill_pages (F := F) ip idx source p l).
Proof.
  unfold fill_pages. apply straight_bind; [apply straight_atomic |]. intros [[b rc] st].
  apply straight_bind; [apply straight_atomic |]. intros []. apply straight_bind; [apply straight_fill_loop |]. intros [a e].
  apply straight_bind; [apply straight_release_pages |]. intros []. destruct (negb _).
  - apply straight_bind; [apply straight_atomic | done].
  - apply straight_bind; [apply straight_atomic | done].
Qed.

(** Code that only counts. *)
Definition counts (m : prog (cache F) unit) : Prop := forall s, exists st, m s = Some (tt, set_stats st s).

Lemma counts_add x n : counts (stat_add x n).
Proof. intros s. by eexists. Qed.

Lemma counts_bind m (f : unit -> prog (cache F) unit) : counts m -> (forall u, counts (f u)) -> counts (m ≫= f).
Proof.
  intros Hm Hf s. destruct (Hm s) as [st Hs]. destruct (Hf tt (set_stats st s)) as [st' Hs']. exists st'.
  unfold mbind, prog_bind. by rewrite Hs, Hs'.
Qed.

Lemma exec_counts {B} (b : bool) m (k : unit -> act (cache F) B) s : counts m ->
  exists st, exec ((if b then atomic m else mret tt) ≫= k) s = exec (k tt) (set_stats st s).
Proof.
  intros Hm. destruct b; [| exists (cache_stats s); by destruct s].
  destruct (Hm s) as [st Hs]. exists st. by apply exec_atomic_bind.
Qed.

Lemma get_ra_once_alone again ip idx window source s h : Inv s h -> unfilled h -> readable ip idx -> 0 <= idx < 2 ^ 64 ->
  ip <> 0 -> 0 < window -> source < PAGE_CACHE_RA_SOURCE_COUNT -> is_Some (kmem s 0%nat) -> room s ->
  (forall p cp, pages s !! p = Some cp -> home cp = Some (ip, idx) -> has_flag (cp_flags cp) CACHE_PAGE_ERROR = false) ->
  exists p s', exec (get_ra_once again ip idx window source) s = Returns (0, Some p) s'.
Proof.
  intros HI Hh Hr Hidx Hip Hw Hsrc Hk Hroom Herr. unfold get_ra_once.
  assert (Harg : (ip =? 0) || (window =? 0) || (PAGE_CACHE_RA_SOURCE_COUNT <=? source) = false).
  { rewrite !orb_false_iff, !Z.eqb_neq, Z.leb_gt. lia. }
  rewrite Harg, exec_bind. destruct (find_locked_ok s h ip idx (proj1 HI)) as (r & s0 & _ & -> & Hf). destruct r as [p |].
  { destruct Hf as (cp & Hp & Hhm & Hv).
    destruct (lookup_hit ip idx s h p cp HI Hh Hip Hp Hhm Hv (Herr p cp Hp Hhm)) as (s1 & ->). cbn. eauto. }
  rewrite (lookup_miss ip idx s h HI Hf). destruct (law_has_read _ _ _ (proj1 (proj2 HI)) Hr) as (i & Hi & rd & Hrd).
  erewrite exec_atomic_bind; [| unfold get_inode; rewrite Hi; reflexivity]. rewrite Hrd. cbv zeta.
  match goal with |- context [exec ((if _ then atomic ?m else _) ≫= ?k) s] =>
    destruct (exec_counts (1 <? window) m k s) as [st ->] end.
  { repeat (apply counts_bind; [apply counts_add | intros []]). apply counts_add. }
  set (s1 := set_stats st s). assert (HI1 : Inv s1 h) by (eapply Inv_quiet; [apply quiet_stats | exact HI]).
  assert (Hl : is_Some (inode_at (fs s1) ip)) by (cbn; by rewrite Hi).
  assert (Hrd' : forall j, 0 <= j < 0 + Z.of_nat (Z.to_nat (ra_window i idx window)) -> readable ip (u64 (idx + j))).
  { intros j Hj. apply (law_readable (fs s) ip i idx window j); [apply HI | done | done | lia]. }
  destruct (wp_both _ s1 _ _ (reserve_room ip idx source (Z.to_nat (ra_window i idx window)) s1 h HI1 Hrd'
      ltac:(pose proof (ra_window_pos i idx window Hw); lia) ltac:(rewrite u64_small by done; exact Hf) Hroom Hk Hl)
    (reserve_ok ip idx source (Z.to_nat (ra_window i idx window)) 0 s1 h HI1 Hl Hrd')) as (ps & s2 & He & Hne & Hlen & HI2).
  rewrite (exec_atomic_bind _ _ _ _ _ He). destruct ps as [| p0 ps]; [done |].
  assert (Hsafe : safe Inv (fill_pages ip idx source p0 ps) (run_toks Fill ip idx 0 (p0 :: ps))
    (fun r h => r = (0, Some p0) /\ h = held p0 (ip, u64 idx))).
  { apply safe_fill_pages; [done | pose proof (ra_window_max i idx window); unfold PAGE_CACHE_RA_MAX_PAGES in *; lia |]. intros j Hj. apply (law_readable (fs s) ip i idx window j); [apply HI | done | done | lia]. }
  pose proof (safe_exec Inv _ _ h _ s2 Hsafe HI2) as Hx. pose proof (straight_exec _ s2 (straight_fill_pages ip idx source p0 ps)) as Hy.
  destruct (exec (fill_pages ip idx source p0 ps) s2) as [r s3 | | |]; try done. destruct Hx as (h' & _ & -> & _). eauto.
Qed.

Lemma get_ra_alone fuel ip idx window source s h : Inv s h -> unfilled h -> readable ip idx -> 0 <= idx < 2 ^ 64 ->
  ip <> 0 -> 0 < window -> source < PAGE_CACHE_RA_SOURCE_COUNT -> is_Some (kmem s 0%nat) -> room s ->
  (forall p cp, pages s !! p = Some cp -> home cp = Some (ip, idx) -> has_flag (cp_flags cp) CACHE_PAGE_ERROR = false) ->
  exists p s', exec (page_cache_get_ra fuel ip idx window source) s = Returns (0, Some p) s' /\
    Inv s' (held p (ip, idx) ⊎ h).
Proof.
  intros HI Hh Hr Hidx Hip Hw Hsrc Hk Hroom Herr.
  assert (Hret : exists p s', exec (page_cache_get_ra fuel ip idx window source) s = Returns (0, Some p) s').
  { destruct fuel; cbn [page_cache_get_ra]; by eapply get_ra_once_alone. }
  destruct Hret as (p & s' & He). exists p, s'. split; [done |].
  pose proof (safe_exec Inv _ ∅ h _ s (safe_get_ra fuel ip idx window source Hr Hidx)) as Hs.
  rewrite <- empty_union, He in Hs. destruct (Hs HI) as (h' & HI' & [[? _] | (q & Hq & ->)]); [done | by simplify_eq].
Qed.

(** ** Flushing *)

(** A page of the files asked for that is dirty. *)
Definition wanted (only : option Z) (cp : cache_page) : Prop := dirty cp = true /\ is_Some (cp_data cp) /\
  exists ip, cp_inode cp = Some ip /\ (only = None \/ only = Some ip).
Definition wants (only : option Z) s p : Prop := exists cp, pages s !! p = Some cp /\ wanted only cp.

Lemma tok_live s o u p ip idx sn : Inv s ({[+ Tok u p (ip, idx) sn +]} ⊎ o) -> is_Some (inode_at (fs s) ip).
Proof.
  intros HI. destruct (tok_page _ _ _ _ _ _ HI) as (cp & Hp & Hh & _).
  apply (pk_live _ _ _ _ (inv_page _ _ _ _ (proj1 HI) _ _ Hp)). unfold home in Hh.
  destruct (cp_data cp), (cp_inode cp); try done. by injection Hh as -> _.
Qed.

(** The pages [ps] of a state replaced as [f] says, the others kept. *)
Record repaged (ps : list nat) (f : nat -> cache_page -> cache_page -> Prop) s s' : Prop := {
  rp_state : exists f pg, s' = set_fs f (set_pages pg s);
  rp_length : length (pages s') = length (pages s);
  rp_other : forall q, q ∉ ps -> pages s' !! q = pages s !! q;
  rp_page : forall i p, ps !! i = Some p -> exists cp cp', pages s !! p = Some cp /\ pages s' !! p = Some cp' /\ f i cp cp' }.

Lemma repaged_nil f s : repaged [] f s s.
Proof. split; [exists (fs s), (pages s); by destruct s | done | done | done]. Qed.

(** One page, and then the rest of the list. *)
Lemma repaged_cons p ps f s s' cp cp1 : p ∉ ps -> pages s !! p = Some cp -> f 0%nat cp cp1 ->
  repaged ps (fun i => f (S i)) (set_pages (<[p := cp1]> (pages s)) s) s' -> repaged (p :: ps) f s s'.
Proof.
  intros Hn Hp Hf [(f' & pg & ->) Hl Ho Hpg]. cbn [pages set_pages] in *. rewrite length_insert in Hl. split; cbn [pages set_pages].
  - by exists f', pg.
  - done.
  - intros q [Hq1 Hq2]%not_elem_of_cons. rewrite Ho by done. by apply list_lookup_insert_ne.
  - intros [| i] x Hx; cbn in Hx.
    + injection Hx as <-. exists cp, cp1. split_and!; [done | | done]. rewrite Ho by done. apply list_lookup_insert_eq. by eapply lookup_lt_Some.
    + destruct (Hpg i x Hx) as (c & c' & Hc & Hc' & Hfc). exists c, c'. split_and!; [| done | done].
      rewrite list_lookup_insert_ne in Hc; [done |]. intros <-. by apply list_elem_of_lookup_2, Hn in Hx.
Qed.

Lemma repaged_mono ps f g s s' : repaged ps f s s' -> (forall i c c', f i c c' -> g i c c') -> repaged ps g s s'.
Proof.
  intros [H1 H2 H3 H4] Hfg. split; [done .. |]. intros i p Hi. destruct (H4 i p Hi) as (c & c' & ? & ? & ?). exists c, c'. auto.
Qed.

Lemma repaged_fs x ps f s s' : repaged ps f s s' -> repaged ps f s (set_fs x s').
Proof. intros [(f' & pg & ->) H2 H3 H4]. split; [by exists x, pg | done ..]. Qed.

Lemma repaged_trans ps f g s s1 s2 : repaged ps f s s1 -> repaged ps g s1 s2 ->
  repaged ps (fun i c c' => exists c1, f i c c1 /\ g i c1 c') s s2.
Proof.
  intros [(f1 & pg1 & ->) Hl1 Ho1 H1] [(f2 & pg2 & ->) Hl2 Ho2 H2]. split; cbn [pages set_pages set_fs] in *.
  - by exists f2, pg2.
  - congruence.
  - intros q Hq. rewrite Ho2, Ho1; done.
  - intros i p Hi. destruct (H1 i p Hi) as (c & c1 & Hc & Hc1 & Hf). destruct (H2 i p Hi) as (c1' & c2 & Hc1' & Hc2 & Hg).
    simplify_eq. exists c, c2. eauto 6.
Qed.

Definition wb_marked cp : cache_page :=
  if has_flag (cp_flags cp) CACHE_PAGE_DIRTY then set_flags (set_flag (cp_flags cp) CACHE_PAGE_WRITEBACK) cp else cp.

Lemma wb_begin_exact ip ps : forall s, NoDup ps ->
  (forall p, p ∈ ps -> exists cp, pages s !! p = Some cp /\ cp_inode cp = Some ip /\ is_Some (cp_data cp)) ->
  exists sns s', wb_begin ip (Some <$> ps) s = Some (Some sns, s') /\ length sns = length ps /\
    repaged ps (fun i cp cp' => cp' = wb_marked cp /\ sns !! i = Some (dirty_seq cp)) s s'.
Proof.
  induction ps as [| p ps IH]; intros s Hnd Hall.
  { exists [], s. split_and!; [done | done | apply repaged_nil]. }
  apply NoDup_cons in Hnd as [Hn Hnd]. destruct (Hall p ltac:(left)) as (cp & Hp & Hip & Hd).
  cbn [wb_begin fmap list_fmap]. unfold mbind, prog_bind, getp.
  rewrite Hp, !bool_decide_eq_true_2 by done. cbn [andb].
  assert (Hm : (if has_flag (cp_flags cp) CACHE_PAGE_DIRTY
      then updp p (fun cp => set_flags (set_flag (cp_flags cp) CACHE_PAGE_WRITEBACK) cp) else mret tt) s =
      Some (tt, set_pages (<[p := wb_marked cp]> (pages s)) s)).
  { unfold wb_marked, updp. destruct (has_flag _ _); [by rewrite Hp |]. rewrite list_insert_id by done. by destruct s. }
  destruct (IH (set_pages (<[p := wb_marked cp]> (pages s)) s)) as (sns & s' & He & Hl & Hr); [done | |].
  { intros q Hq. cbn. destruct (decide (q = p)) as [-> | Hne]; [by apply Hn in Hq |].
    rewrite list_lookup_insert_ne by done. apply Hall. by right. }
  exists (dirty_seq cp :: sns), s'. rewrite Hm, He.
  split_and!; [done | cbn; by rewrite Hl |]. by eapply repaged_cons.
Qed.

Lemma wb_end_exact rc ps : forall sns s, NoDup ps -> length sns = length ps -> (forall p, p ∈ ps -> is_Some (pages s !! p)) ->
  exists s', wb_end rc (Some <$> ps) sns s = Some (tt, s') /\
    repaged ps (fun i cp cp' => exists sn, sns !! i = Some sn /\ cp' = set_flags (wb_flags rc sn cp) cp) s s'.
Proof.
  induction ps as [| p ps IH]; intros [| sn sns] s Hnd Hl Hall; try done.
  { exists s. split; [done | apply repaged_nil]. }
  apply NoDup_cons in Hnd as [Hn Hnd]. destruct (Hall p ltac:(left)) as (cp & Hp). cbn [wb_end fmap list_fmap].
  destruct (IH sns (set_pages (<[p := set_flags (wb_flags rc sn cp) cp]> (pages s)) s)) as (s' & He & Hr); [done | by injection Hl | |].
  { intros q Hq. cbn. destruct (decide (q = p)) as [-> | Hne]; [by apply Hn in Hq |].
    rewrite list_lookup_insert_ne by done. apply Hall. by right. }
  exists s'. unfold mbind, prog_bind, updp. rewrite Hp. split; [exact He |]. eapply repaged_cons; [done | exact Hp | | exact Hr].
  by exists sn.
Qed.

(** Nothing to be written, nothing being written, no error. *)
Definition settled cp : Prop := dirty cp = false /\
  has_flag (cp_flags cp) CACHE_PAGE_ERROR = false /\ has_flag (cp_flags cp) CACHE_PAGE_WRITEBACK = false.

Lemma use_toks_at ip l p idx : (p, idx) ∈ l -> Tok Use p (ip, idx) 0 ∈ use_toks ip l.
Proof.
  unfold use_toks. induction l as [| [q j] l IH]; intros Hin; [by apply not_elem_of_nil in Hin |].
  cbn [length replicate wb_toks]. apply gmultiset_elem_of_disj_union.
  apply elem_of_cons in Hin as [Hin | Hin]; [left; simplify_eq; by apply gmultiset_elem_of_singleton | right; by apply IH].
Qed.

Lemma use_toks_page s o ip l p idx : Inv s (use_toks ip l ⊎ o) -> (p, idx) ∈ l ->
  exists cp, pages s !! p = Some cp /\ home cp = Some (ip, idx) /\ cp_inode cp = Some ip /\ is_Some (cp_data cp) /\
    is_Some (inode_at (fs s) ip).
Proof.
  intros HI Hin. destruct (inv_tok _ _ _ _ (proj1 HI) Use p (ip, idx) 0) as (cp & Hp & Hh & _).
  { apply gmultiset_elem_of_disj_union. left. by apply use_toks_at. }
  exists cp. assert (Hip : cp_inode cp = Some ip /\ is_Some (cp_data cp)).
  { unfold home in Hh. destruct (cp_data cp), (cp_inode cp); try done. injection Hh as -> _. eauto. }
  split_and!; try done; try apply Hip. apply (pk_live _ _ _ _ (inv_page _ _ _ _ (proj1 HI) _ _ Hp)). apply Hip.
Qed.

(** Distinct keys are on distinct pages. *)
Lemma use_toks_nodup s o ip l : Inv s (use_toks ip l ⊎ o) -> NoDup l.*2 -> NoDup l.*1.
Proof.
  intros HI Hnd. assert (Hinj : forall x y, x ∈ l -> y ∈ l -> x.1 = y.1 -> x = y).
  { intros [p i] [q j] Hx Hy Heq. cbn in Heq. subst q. destruct (use_toks_page _ _ _ _ _ _ HI Hx) as (c & Hc & Hh & _).
    destruct (use_toks_page _ _ _ _ _ _ HI Hy) as (c' & Hc' & Hh' & _). simplify_eq. congruence. }
  clear HI. induction l as [| x l IH]; cbn [fmap list_fmap] in *; [constructor |]. apply NoDup_cons in Hnd as [Hn Hnd].
  apply NoDup_cons. split; [| apply IH; [done |]; intros; apply Hinj; try done; by right].
  intros (y & Hxy & Hy)%list_elem_of_fmap. apply Hn, list_elem_of_fmap. exists y. split; [| done].
  rewrite (Hinj x y); try done; [left | by right].
Qed.

(** Alone, writing pages of one file back makes them clean. *)
Lemma writeback_exact ip l s o : coh = true -> writes_succeed -> NoDup l.*2 -> l <> [] ->
  Z.of_nat (length l) <= PAGE_CACHE_RA_MAX_PAGES -> Inv s (use_toks ip l ⊎ o) ->
  exists s', exec (page_cache_writeback_pages (Some <$> l.*1)) s = Returns 0 s' /\
    repaged l.*1 (fun _ _ => settled) s s'.
Proof.
  intros Hco Hws Hnd Hne Hlen HI. pose proof (use_toks_nodup _ _ _ _ HI Hnd) as Hnd1.
  assert (Hpg : forall p, p ∈ l.*1 -> exists cp, pages s !! p = Some cp /\ cp_inode cp = Some ip /\ is_Some (cp_data cp)).
  { intros p ([q idx] & Hq & Hin)%list_elem_of_fmap. cbn in Hq. subst q.
    destruct (use_toks_page _ _ _ _ _ _ HI Hin) as (cp & Hp & _ & Hi & Hd & _). eauto. }
  destruct l as [| [p0 idx0] l0] eqn:El; [done |]. rewrite <- El in *.
  assert (Es : Some <$> l.*1 = Some p0 :: (Some <$> l0.*1)) by (by rewrite El).
  assert (Hin0 : (p0, idx0) ∈ l) by (rewrite El; left).
  destruct (use_toks_page _ _ _ _ _ _ HI Hin0) as (cp & Hp & _ & Hip & _ & [i Hi]).
  destruct (Hws (fs s) ip i (proj1 (proj2 HI)) Hi) as (a & wr & Ha & Hwr & _).
  unfold page_cache_writeback_pages. rewrite !length_fmap, (proj2 (Z.ltb_ge _ _)) by lia. rewrite Es.
  erewrite exec_atomic_bind; [| unfold getp; rewrite Hp; reflexivity]. rewrite Hip.
  erewrite exec_atomic_bind; [| unfold get_inode; rewrite Hi; reflexivity].
  assert (Haw : i_aop i ≫= writepages = Some wr) by (by rewrite Ha). rewrite Haw, <- Es.
  destruct (wb_begin_exact ip l.*1 s Hnd1 Hpg) as (sns & s1 & Hb & Hls & Hr1).
  rewrite (exec_atomic_bind _ _ _ _ _ Hb). destruct (wb_begin_ok ip l s o HI) as (r & s1' & Hb' & sns' & -> & Hls' & HI1).
  rewrite Hb in Hb'. injection Hb' as <- <-.
  assert (Hwrt : writable ip) by (apply (law_has_write _ _ _ (proj1 (proj2 HI)) Hi); by rewrite Haw).
  destruct (call_writepages_ok ip l sns s1 o Hls' Hnd Hne Hwrt HI1) as (rc & s2 & Hc & HI2 & [f' ->] & Hrc).
  rewrite (Hrc Hco Hws) in *. rewrite (exec_atomic_bind _ _ _ _ _ Hc).
  destruct (wb_end_exact 0 l.*1 sns (set_fs f' s1)) as (s3 & He & Hr2); [done | by rewrite Hls | |].
  { intros p Hx. cbn. apply lookup_lt_is_Some. rewrite (rp_length _ _ _ _ Hr1). destruct (Hpg p Hx) as (? & ? & _). by eapply lookup_lt_Some. }
  rewrite (exec_atomic_bind _ _ _ _ _ He). exists s3. split; [done |].
  eapply repaged_mono; [eapply repaged_trans; [apply repaged_fs, Hr1 | exact Hr2] |].
  intros k c c' (c1 & [-> Hs1] & sn & Hs2 & ->). simplify_eq. unfold settled, dirty, wb_flags.
  assert (Hq : dirty_seq (wb_marked c) = dirty_seq c) by (unfold wb_marked; by destruct (has_flag _ _)).
  rewrite Hq, !Z.eqb_refl. cbn [andb cp_flags set_flags]. by flags.
Qed.

Lemma writeback_alone s o p k : coh = true -> writes_succeed -> Inv s (held p k ⊎ o) ->
  exists s' cp', exec (page_cache_writeback p) s = Returns 0 s' /\ page_cache_hash s' = page_cache_hash s /\
    pages s' = <[p := cp']> (pages s) /\ dirty cp' = false.
Proof.
  intros Hco Hws HI. destruct k as [ip idx].
  destruct (writeback_exact ip [(p, idx)] s o Hco Hws) as (s' & He & [(f & pg & ->) Hl Ho Hpg]); [apply NoDup_singleton | done | done | |].
  { unfold use_toks. cbn [length replicate wb_toks]. by rewrite (right_id_L ∅ (⊎)). }
  destruct (Hpg 0%nat p eq_refl) as (cp & cp' & Hp & Hp' & Hs & _). exists (set_fs f (set_pages pg s)), cp'. split_and!; [done | done | | done].
  apply list_eq. intros q. destruct (decide (q = p)) as [-> | Hne].
  - rewrite Hp'. symmetry. apply list_lookup_insert_eq. by eapply lookup_lt_Some.
  - rewrite Ho by (by intros ?%list_elem_of_singleton). symmetry. by apply list_lookup_insert_ne.
Qed.

Lemma release_alone s p cp : pages s !! p = Some cp -> invalid cp = false ->
  exec (page_cache_release p) s = Returns tt (set_pages (<[p := set_pin (pin_count cp - 1) cp]> (pages s)) s).
Proof.
  intros Hp Hv. unfold page_cache_release. apply exec_atomic. unfold page_cache_release_locked, mbind, prog_bind, updp, getp.
  rewrite Hp. cbn [pages set_pages]. rewrite list_lookup_insert_eq by (by eapply lookup_lt_Some). cbn [pin_count set_pin cp_flags].
  unfold invalid in Hv. by rewrite Hv, andb_false_r.
Qed.

(** A round makes the collected pages clean and dirties none. *)
Lemma flush_pages_alone only : coh = true -> writes_succeed -> forall ps ks s o, length ks = length ps ->
  Inv s (key_toks (zip ps ks) ⊎ o) ->
  exists s', exec (flush_pages ps 0) s = Returns 0 s' /\ (forall p, wants only s' p -> wants only s p /\ p ∉ ps) /\
    length (pages s') = length (pages s).
Proof.
  intros Hc Hws. induction ps as [| p ps IH]; intros [| k ks] s o Hl HI; try done.
  { exists s. split; [done |]. split; [| done]. intros p Hw. split; [done |]. apply not_elem_of_nil. }
  cbn [zip zip_with key_toks flush_pages] in *. rewrite <- (assoc_L _) in HI.
  destruct (writeback_alone s _ p k Hc Hws HI) as (s1 & cp1 & He1 & _ & Hp1 & Hd1).
  destruct (tok_page _ _ _ _ _ _ HI) as (cp & Hp & _). pose proof (lookup_lt_Some _ _ _ Hp) as Hb.
  pose proof (safe_exec Inv _ _ _ _ s (safe_writeback p k) HI) as Hx. rewrite He1 in Hx. destruct Hx as (h1 & HI1 & ->).
  assert (Hp1' : pages s1 !! p = Some cp1) by (rewrite Hp1; by apply list_lookup_insert_eq).
  assert (Hv1 : invalid cp1 = false) by (eapply (co_valid _ _ _ (inv_coh _ _ _ _ (proj1 HI1) Hc)); done).
  pose proof (release_alone s1 p cp1 Hp1' Hv1) as He2.
  pose proof (safe_exec Inv _ _ _ _ s1 (safe_release p Use k 0 ltac:(use_in)) HI1) as Hx. rewrite He2 in Hx.
  destruct Hx as (h2 & HI2 & ->). rewrite <- empty_union in HI2. set (s2 := set_pages _ s1) in *.
  destruct (IH ks s2 o ltac:(by injection Hl) HI2) as (s3 & He3 & Hw3 & Hl3). exists s3.
  rewrite exec_bind, He1, exec_bind, He2. cbn [Z.eqb negb andb]. split; [done |].
  assert (Hp2 : pages s2 = <[p := set_pin (pin_count cp1 - 1) cp1]> (pages s)) by (cbn; by rewrite Hp1, list_insert_insert_eq).
  split; [| by rewrite Hl3, Hp2, length_insert].
  intros q Hq. destruct (Hw3 q Hq) as ((cq & Hcq & Hwq) & Hnin). rewrite Hp2 in Hcq. destruct (decide (q = p)) as [-> | Hqp].
  - rewrite list_lookup_insert_eq in Hcq by done. simplify_eq. destruct Hwq as [Hdq _].
    change (dirty cp1 = true) in Hdq. congruence.
  - rewrite list_lookup_insert_ne in Hcq by done. split; [by exists cq |]. intros [? | ?]%elem_of_cons; done.
Qed.

Definition wantedb (only : option Z) (cp : cache_page) : bool :=
  has_flag (cp_flags cp) CACHE_PAGE_DIRTY && bool_decide (is_Some (cp_data cp)) && bool_decide (is_Some (cp_inode cp)) &&
  match only with None => true | Some ip => bool_decide (cp_inode cp = Some ip) end.

Lemma wantedb_spec only cp : wantedb only cp = true <-> wanted only cp.
Proof.
  unfold wantedb, wanted, dirty. rewrite !andb_true_iff, !bool_decide_eq_true. destruct only as [ip |].
  - rewrite bool_decide_eq_true. split; [intros (((? & ?) & ?) & ?); split_and!; [done | done | by exists ip; auto] |].
    intros (? & ? & ip' & Hip & [? | ?]); [done |]. simplify_eq. rewrite Hip. by repeat split.
  - split; [intros (((? & ?) & [ip ?]) & ?); split_and!; [done | done | by exists ip; auto] |].
    intros (? & ? & ip' & Hip & _). rewrite Hip. by repeat split.
Qed.

Lemma wants_pin only s p q cp n : pages s !! p = Some cp ->
  wants only (set_pages (<[p := set_pin n cp]> (pages s)) s) q <-> wants only s q.
Proof.
  intros Hp. unfold wants. cbn [pages set_pages]. destruct (decide (q = p)) as [-> | Hq].
  - rewrite list_lookup_insert_eq by (by eapply lookup_lt_Some). split; intros (c & Hc & Hw); simplify_eq; eexists; by split.
  - by rewrite list_lookup_insert_ne.
Qed.

Lemma collect_chain_alone only chain : forall max s, (forall p, p ∈ chain -> is_Some (pages s !! p)) ->
  wp (collect_chain only chain max) s (fun ps s' => (forall p, wants only s' p <-> wants only s p) /\
    length (pages s') = length (pages s) /\ (forall p, p ∈ ps -> wants only s p) /\
    (ps = [] -> max <> O -> forall p, p ∈ chain -> ~ wants only s p)).
Proof.
  induction chain as [| p chain IH]; intros max s Hc; cbn [collect_chain].
  { apply wp_ret. split_and!; [done | done | by intros p ?%not_elem_of_nil | by intros _ _ p ?%not_elem_of_nil]. }
  destruct max as [| max]; [apply wp_ret; split_and!; [done | done | by intros q ?%not_elem_of_nil | done] |].
  destruct (Hc p) as [cp Hp]; [by left |]. apply wp_bind. eapply wp_getp; [exact Hp |]. fold (wantedb only cp).
  destruct (wantedb only cp) eqn:Hw.
  - apply wantedb_spec in Hw. apply wp_bind. eapply wp_updp; [exact Hp |]. apply wp_bind. eapply wp_mono; [apply IH |].
    + intros q Hq. cbn. destruct (decide (q = p)) as [-> | Hqp]; [rewrite list_lookup_insert_eq by (by eapply lookup_lt_Some); by eexists |].
      rewrite list_lookup_insert_ne by done. apply Hc. by right.
    + intros ps s2 (H1 & H2 & H3 & _). apply wp_ret. split_and!; [| | | done].
      * intros q. by rewrite H1, wants_pin.
      * rewrite H2. cbn. apply length_insert.
      * intros q [-> | Hq]%elem_of_cons; [by exists cp |]. by eapply (wants_pin only s p), H3.
  - eapply wp_mono; [apply IH; intros q Hq; apply Hc; by right |]. intros ps s2 (H1 & H2 & H3 & H4).
    split_and!; [done | done | done |]. intros Hps Hm q [-> | Hq]%elem_of_cons; [| by apply H4].
    intros (c & ? & Hwc%wantedb_spec). simplify_eq. congruence.
Qed.

Definition nwants (only : option Z) s : nat :=
  length (filter (fun cp => wantedb only cp = true) (pages s)).

Lemma filter_length_lt {A} (P Q : A -> bool) (l l' : list A) : length l' = length l ->
  (forall i x', l' !! i = Some x' -> P x' = true -> exists x, l !! i = Some x /\ Q x = true) ->
  (exists i x, l !! i = Some x /\ Q x = true /\ forall x', l' !! i = Some x' -> P x' = false) ->
  (length (filter (fun x => P x = true) l') < length (filter (fun x => Q x = true) l))%nat.
Proof.
  assert (Hle : forall l l', length l' = length l ->
    (forall i x', l' !! i = Some x' -> P x' = true -> exists x, l !! i = Some x /\ Q x = true) ->
    (length (filter (fun x => P x = true) l') <= length (filter (fun x => Q x = true) l))%nat).
  { induction l0 as [| x l0 IH]; intros [| x' l1] Hl Hsub; try done. rewrite !filter_cons.
    assert (Hr : (length (filter (fun x => P x = true) l1) <= length (filter (fun x => Q x = true) l0))%nat).
    { apply IH; [cbn in Hl; lia |]. intros i y Hy. apply (Hsub (S i) y Hy). }
    destruct (decide (P x' = true)) as [HP | HP].
    - destruct (Hsub O x' eq_refl HP) as (y & Hy & HQ). cbn in Hy. simplify_eq. rewrite decide_True by done. cbn. lia.
    - destruct (decide _); cbn; lia. }
  revert l'. induction l as [| x l IH]; intros [| x' l'] Hl Hsub (i & y & Hy & HQ & Hnot); try done.
  rewrite !filter_cons. assert (Hsub' : forall i x', l' !! i = Some x' -> P x' = true -> exists x, l !! i = Some x /\ Q x = true).
  { intros j z Hz. apply (Hsub (S j) z Hz). }
  destruct i as [| i].
  - cbn in Hy. simplify_eq. rewrite (decide_True _ _ HQ). specialize (Hnot x' eq_refl).
    rewrite decide_False by congruence. cbn. specialize (Hle l l' ltac:(cbn in Hl; lia) Hsub'). lia.
  - assert (Hr : (length (filter (fun x => P x = true) l') < length (filter (fun x => Q x = true) l))%nat).
    { apply IH; [cbn in Hl; lia | done |]. by exists i, y. }
    destruct (decide (P x' = true)) as [HP | HP].
    + destruct (Hsub O x' eq_refl HP) as (z & Hz & HQz). cbn in Hz. simplify_eq. rewrite decide_True by done. cbn. lia.
    + destruct (decide _); cbn; lia.
Qed.

(** Flushing ends, and then the disk holds what was last stored. *)
Lemma flush_alone only : coh = true -> writes_succeed -> forall fuel s h, Inv s h -> only_credits h -> (nwants only s <= fuel)%nat ->
  exists s', exec (flush_dirty fuel only) s = Returns 0 s' /\ Inv s' h /\ forall p, ~ wants only s' p.
Proof.
  intros Hc Hws. induction fuel as [fuel IH] using lt_wf_ind. intros s h HI Hh Hn.
  assert (Hch : forall p, p ∈ concat (page_cache_hash s) -> is_Some (pages s !! p)).
  { intros p Hp. apply list_elem_of_In, in_concat in Hp as (chain & Hcc & Hp). apply list_elem_of_In, list_elem_of_lookup in Hcc as [b Hb].
    apply list_elem_of_In in Hp. destruct (lo_chain _ _ _ _ (inv_lists _ _ _ _ (proj1 HI)) _ _ Hb) as [_ Hin].
    apply Hin in Hp as (k & Hs & _). rewrite list_lookup_fmap in Hs. apply fmap_Some in Hs as (cp & ? & _). by exists cp. }
  destruct (wp_both _ s _ _ (collect_dirty_ok only 64 s h HI) (collect_chain_alone only _ 64 s Hch))
    as (ps & s1 & He & (ks & Hl & HI1) & H1 & H2 & H3 & H4).
  assert (Hw1 : forall p, wants only s p -> p ∈ concat (page_cache_hash s)).
  { intros p (cp & Hp & Hd & Hdata & ip & Hip & _). apply list_elem_of_In, in_concat.
    assert (Hhm : home cp = Some (ip, cp_index cp)). { unfold home. destruct (cp_data cp); [by rewrite Hip | by destruct Hdata]. }
    assert (Hv : invalid cp = false) by (eapply (co_valid _ _ _ (inv_coh _ _ _ _ (proj1 HI) Hc)); done).
    destruct (lookup_lt_is_Some_2 (page_cache_hash s) (bucket_of ip (cp_index cp))) as [chain Hcc].
    { rewrite (lo_len _ _ _ _ (inv_lists _ _ _ _ (proj1 HI))). apply bucket_of_lt. }
    exists chain. split; [apply list_elem_of_In; by eapply list_elem_of_lookup_2 |]. apply list_elem_of_In.
    apply (lo_chain _ _ _ _ (inv_lists _ _ _ _ (proj1 HI)) _ _ Hcc). exists (ip, cp_index cp). split; [| done]. by eapply shape_lookup. }
  destruct fuel as [| fuel]; cbn [flush_dirty]; rewrite (exec_atomic_bind _ _ _ _ _ He); destruct ps as [| p ps].
  1, 3: exists s1; split; [done |]; split; [cbn [zip zip_with key_toks] in HI1; by rewrite <- empty_union in HI1 |];
    intros q Hq%H1; exact (H4 eq_refl ltac:(done) q (Hw1 q Hq) Hq).
  - exfalso. destruct (H3 p) as (cp & Hp & Hw%wantedb_spec); [by left |].
    assert (Hin : cp ∈ filter (fun cp => wantedb only cp = true) (pages s)).
    { apply list_elem_of_filter. split; [done |]. by eapply list_elem_of_lookup_2. }
    unfold nwants in Hn. destruct (filter _ (pages s)); [by apply not_elem_of_nil in Hin | cbn in Hn; lia].
  - destruct (flush_pages_alone only Hc Hws (p :: ps) ks s1 h Hl HI1) as (s2 & He2 & Hw2 & Hl2).
    rewrite exec_bind, He2. cbn [Z.eqb negb].
    pose proof (safe_exec Inv _ _ _ _ s1 (safe_flush_pages (p :: ps) ks 0 Hl) HI1) as Hx. rewrite He2 in Hx.
    destruct Hx as (h2 & HI2 & ->). rewrite <- empty_union in HI2. apply (IH fuel); [lia | done | done |].
    enough (nwants only s2 < nwants only s)%nat by lia. unfold nwants. apply filter_length_lt; [by rewrite Hl2, H2 | |].
    + intros q c' Hc' Hw'%wantedb_spec. destruct (Hw2 q) as [Hq _]; [by exists c' |]. apply H1 in Hq as (c & Hcq & Hwc%wantedb_spec). eauto.
    + destruct (H3 p) as (cp & Hp & Hw%wantedb_spec); [by left |]. exists p, cp. split_and!; [done | done |].
      intros c' Hc'. destruct (wantedb only c') eqn:Hwc; [| done]. apply wantedb_spec in Hwc.
      destruct (Hw2 p) as [_ Hnin]; [by exists c' |]. destruct Hnin. by left.
Qed.

(** ** Pages marked bad, and no memory *)

(** A cached page with [CACHE_PAGE_ERROR]. *)
Definition bad_page s (k : Z * Z) : Prop := exists p cp, pages s !! p = Some cp /\ home cp = Some k /\
  invalid cp = false /\ has_flag (cp_flags cp) CACHE_PAGE_ERROR = true.

Lemma lookup_bad ip idx s h : Inv s h -> only_credits h -> ip <> 0 -> bad_page s (ip, idx) ->
  exists s', exec (page_cache_lookup ip idx) s = Returns None s' /\ Inv s' h /\ bad_page s' (ip, idx).
Proof.
  intros HI Hh Hip (p & cp & Hp & Hhm & Hv & He). pose proof (idle_filling s h p cp HI (idle_unfilled h Hh) Hp) as Hf.
  destruct (lookup_locked_hit ip idx s h p cp HI Hp Hhm Hv) as (s1 & Hl & Hp1).
  assert (Hp1' : pages s1 !! p = Some (set_pin (pin_count cp + 1) cp)) by (rewrite Hp1; apply list_lookup_insert_eq; by eapply lookup_lt_Some).
  assert (Hx : exec (page_cache_lookup ip idx) s = Returns None
    (set_pages (<[p := set_pin (pin_count cp + 1 - 1) (set_pin (pin_count cp + 1) cp)]> (pages s1)) s1)).
  { unfold page_cache_lookup. destruct (Z.eqb_spec ip 0); [done |]. rewrite (exec_atomic_bind _ _ _ _ _ Hl).
    unfold filling in Hf. rewrite Hf, exec_bind. cbn [exec mret act_ret].
    erewrite exec_atomic_bind by (unfold getp; rewrite Hp1'; reflexivity). cbn [cp_flags set_pin]. rewrite has_flag_lor, He. cbn [orb].
    rewrite exec_bind, (release_alone s1 p _ Hp1' Hv). done. }
  eexists. split; [exact Hx |]. split.
  - pose proof (safe_exec Inv _ ∅ h _ s (safe_lookup ip idx)) as Hs. rewrite <- empty_union, Hx in Hs.
    destruct (Hs HI) as (h' & HI' & ->). by rewrite <- empty_union in HI'.
  - eexists p, _. split; [apply list_lookup_insert_eq; by eapply lookup_lt_Some |]. done.
Qed.

(** [get_ra_once] after a lookup that found nothing to return. *)
Lemma get_ra_once_retry again ip idx window source s s1 : readable ip idx -> ip <> 0 -> 0 < window ->
  source < PAGE_CACHE_RA_SOURCE_COUNT -> fs_ok (fs s1) -> exec (page_cache_lookup ip idx) s = Returns None s1 ->
  (forall st n, (0 < n)%nat -> exists s2, reserve_pages ip idx source n 0 (set_stats st s1) = Some ([], s2)) ->
  exists st n, (0 < n)%nat /\ forall s2, reserve_pages ip idx source n 0 (set_stats st s1) = Some ([], s2) ->
    exec (get_ra_once again ip idx window source) s = exec again s2.
Proof.
  intros Hr Hip Hw Hsrc Hok Hl Hres. unfold get_ra_once.
  assert (Harg : (ip =? 0) || (window =? 0) || (PAGE_CACHE_RA_SOURCE_COUNT <=? source) = false).
  { rewrite !orb_false_iff, !Z.eqb_neq, Z.leb_gt. lia. }
  rewrite Harg, exec_bind, Hl. destruct (law_has_read _ _ _ Hok Hr) as (i & Hi & rd & Hrd).
  erewrite exec_atomic_bind; [| unfold get_inode; rewrite Hi; reflexivity]. rewrite Hrd. cbv zeta.
  match goal with |- context [exec ((if _ then atomic ?m else _) ≫= ?k) s1] =>
    destruct (exec_counts (1 <? window) m k s1) as [st ->] end.
  { repeat (apply counts_bind; [apply counts_add | intros []]). apply counts_add. }
  exists st, (Z.to_nat (ra_window i idx window)). split; [pose proof (ra_window_pos i idx window Hw); lia |].
  intros s2 He. by rewrite (exec_atomic_bind _ _ _ _ _ He).
Qed.

Lemma reserve_bad ip idx source n s h : Inv s h -> bad_page s (ip, u64 idx) -> (0 < n)%nat ->
  exists st, reserve_pages ip idx source n 0 s = Some ([], set_stats st s).
Proof.
  intros HI (p & cp & Hp & Hhm & Hv & _) Hn. destruct n as [| n]; [lia |]. cbn [reserve_pages]. rewrite Z.add_0_r.
  destruct (find_locked_ok s h ip (u64 idx) (proj1 HI)) as (r & s0 & Hr & -> & Hf).
  unfold mbind, prog_bind. rewrite Hr. destruct r as [q |]; [by eexists |]. rewrite (Hf p cp Hp Hhm) in Hv. done.
Qed.

Lemma get_ra_bad fuel : forall ip idx window source s h, Inv s h -> only_credits h -> readable ip idx -> 0 <= idx < 2 ^ 64 ->
  ip <> 0 -> 0 < window -> source < PAGE_CACHE_RA_SOURCE_COUNT -> bad_page s (ip, idx) ->
  exec (page_cache_get_ra fuel ip idx window source) s = Runs.
Proof.
  induction fuel as [| fuel IH]; intros ip idx window source s h HI Hh Hr Hidx Hip Hw Hsrc Hbad; cbn [page_cache_get_ra].
  all: destruct (lookup_bad ip idx s h HI Hh Hip Hbad) as (s1 & Hl & HI1 & Hbad1).
  all: assert (HIs : forall st, Inv (set_stats st s1) h) by (intros st; eapply Inv_quiet; [apply quiet_stats | exact HI1]).
  all: assert (Hres : forall st n, (0 < n)%nat -> exists st', reserve_pages ip idx source n 0 (set_stats st s1) = Some ([], set_stats st' (set_stats st s1)))
    by (intros st n Hn; apply (reserve_bad ip idx source n _ h (HIs st)); [by rewrite u64_small | done]).
  all: match goal with |- exec (get_ra_once ?a _ _ _ _) _ = _ =>
    destruct (get_ra_once_retry a ip idx window source s s1 Hr Hip Hw Hsrc (proj1 (proj2 HI1)) Hl) as (st & n & Hn & He);
    [intros st n Hn; destruct (Hres st n Hn) as [st' Hs']; by eexists |] end.
  all: destruct (Hres st n Hn) as [st' Hs']; rewrite (He _ Hs').
  { done. }
  apply (IH ip idx 1 source _ h); try done. eapply Inv_quiet; [apply quiet_stats | apply HIs].
Qed.

(** No memory: the descriptor goes back and the call is repeated. *)
Lemma alloc_locked_oom ip idx ra s h : Inv s h -> uncached s (ip, idx) -> (forall n, kmem s n = None) ->
  wp (page_cache_alloc_locked ip idx ra) s (fun r s' => r = None /\ uncached s' (ip, idx) /\ forall n, kmem s' n = None).
Proof.
  intros HI Hu Hk. unfold page_cache_alloc_locked. apply wp_bind. eapply wp_mono; [by eapply free_descriptor_ok |].
  intros [p |] s1 Hr; [| apply wp_ret; destruct Hr as (_ & ? & _ & ->); done].
  destruct Hr as (_ & Hu1 & _ & Hk1). apply wp_bind. eexists _, _. split; [reflexivity |]. rewrite Hk1, Hk. cbn beta iota.
  apply wp_bind, wp_modify_cache, wp_ret. split_and!; [done | done |]. intros n. cbn. apply Hk.
Qed.

Lemma reserve_oom ip idx source n s h : Inv s h -> uncached s (ip, u64 idx) -> (forall n, kmem s n = None) ->
  is_Some (inode_at (fs s) ip) -> readable ip (u64 idx) -> (0 < n)%nat ->
  wp (reserve_pages ip idx source n 0) s (fun ps s' => ps = [] /\ Inv s' h /\ uncached s' (ip, u64 idx) /\ forall n, kmem s' n = None).
Proof.
  intros HI Hu Hk Hl Hrd Hn. destruct n as [| n]; [lia |]. cbn [reserve_pages]. rewrite Z.add_0_r. apply wp_bind.
  eapply wp_mono; [eapply find_locked_ok, HI |]. intros r s' [-> Hf]. destruct r as [p |].
  { destruct Hf as (cp & Hp & Hh & Hv). rewrite (Hu p cp Hp Hh) in Hv. done. }
  apply wp_bind. eapply wp_mono; [apply wp_both; [by eapply alloc_locked_oom | by apply alloc_locked_ok] |].
  intros r s1 [(-> & Hu1 & Hk1) [_ HI1]]. by apply wp_ret.
Qed.

Lemma get_ra_oom fuel : forall ip idx window source s h, Inv s h -> readable ip idx -> 0 <= idx < 2 ^ 64 ->
  ip <> 0 -> 0 < window -> source < PAGE_CACHE_RA_SOURCE_COUNT -> uncached s (ip, idx) -> (forall n, kmem s n = None) ->
  exec (page_cache_get_ra fuel ip idx window source) s = Runs.
Proof.
  induction fuel as [| fuel IH]; intros ip idx window source s h HI Hr Hidx Hip Hw Hsrc Hu Hk; cbn [page_cache_get_ra].
  all: assert (Hl := lookup_miss ip idx s h HI Hu).
  all: assert (Hres : forall st n, (0 < n)%nat -> exists s2, reserve_pages ip idx source n 0 (set_stats st s) = Some ([], s2) /\
      Inv s2 h /\ uncached s2 (ip, idx) /\ forall n, kmem s2 n = None).
  1, 3: intros st n Hn; destruct (law_has_read _ _ _ (proj1 (proj2 HI)) Hr) as (i & Hi & _);
    destruct (reserve_oom ip idx source n (set_stats st s) h) as (ps & s2 & He & -> & HI2 & Hu2 & Hk2);
    [eapply Inv_quiet; [apply quiet_stats | exact HI] | by rewrite u64_small | done | cbn; by rewrite Hi | by rewrite u64_small | done |];
    rewrite u64_small in Hu2 by done; by exists s2.
  all: match goal with |- exec (get_ra_once ?a _ _ _ _) _ = _ =>
    destruct (get_ra_once_retry a ip idx window source s s Hr Hip Hw Hsrc (proj1 (proj2 HI)) Hl) as (st & n & Hn & He);
    [intros st n Hn; destruct (Hres st n Hn) as (s2 & ? & _); by exists s2 |] end.
  all: destruct (Hres st n Hn) as (s2 & Hs2 & HI2 & Hu2 & Hk2); rewrite (He _ Hs2).
  { done. }
  by apply (IH ip idx 1 source s2 h).
Qed.

(** ** States the threads leave behind *)

Definition reached s : Prop := exists fuel progs s0 s1 ts, boot s0 /\ page_cache_init s0 = Some (tt, s1) /\
  Forall (Forall call_ok) progs /\ Z.of_nat (total_writes progs) < 2 ^ 32 /\
  rtc pool_step (clients fuel progs, s1) (ts, s) /\ all_done (ts, s).

Lemma reached_quiescent s : reached s -> quiescent s.
Proof.
  intros (fuel & progs & s0 & s1 & ts & Hb & He & Hok & Hw & Hr & Hd).
  pose proof (pool_ok_reach _ _ _ _ (clients_ok fuel progs s0 s1 Hb He Hok Hw) Hr) as Hp.
  destruct (pool_ok_done _ _ (fun k => k = Credit) _ (fun a h k Hh => Hh k) Hp Hd) as (h & HI & Hh). by exists h.
Qed.
End alone.

(** Everything of the files asked for is on the disk after a flush. *)
Lemma flush_durable {F : Type} `{!HasInodes F} `{!HasPages F} `{!FileSystem F true} fuel only (s : cache F) :
  quiescent s -> writes_succeed (F := F) -> (length (pages s) <= fuel)%nat ->
  exists s', exec (flush_dirty fuel only) s = Returns 0 s' /\ fs_ok (fs s') /\
    forall ip idx, only = None \/ only = Some ip -> disk (fs s') ip idx = written s ip idx.
Proof.
  intros (h & HI & Hh) Hws Hfuel.
  assert (Hn : (nwants only s <= fuel)%nat) by (unfold nwants; etrans; [apply length_filter | done]).
  destruct (flush_alone only eq_refl Hws fuel s h HI Hh Hn) as (s' & He & HI' & Hno). exists s'. split; [done |]. split; [apply HI' |].
  rewrite <- (flush_history _ _ _ _ _ He). intros ip idx Honly.
  destruct (co_disk _ _ _ (inv_coh _ _ _ _ (proj1 HI') eq_refl) (ip, idx)) as [? | (p & cp & Hp & Hk & Hf & Hor)]; [done |].
  exfalso. apply (Hno p). exists cp. split; [done |]. unfold mods in Hor. rewrite (idle_pins h p) in Hor by done.
  destruct Hor as [Hd | ?]; [| lia]. unfold home in Hk. destruct (cp_data cp) eqn:Hcd, (cp_inode cp) eqn:Hci; try done.
  injection Hk as -> _. split_and!; [done | by rewrite Hcd | by exists ip].
Qed.

(** ** Theorems *)

(** C21. Whatever the threads did before, invalidation apart, once they have
    all ended a call of
    [page_cache_get_ra] for a readable page returns: it reserves a descriptor,
    if need be by evicting a page, reads the page with its read-ahead window,
    and returns it with the contents last stored there by anybody - provided a
    descriptor can be had, memory for the page can be allocated, and the page
    is not cached with the error mark of a failed write. *)
Theorem page_cache_get_returns {F : Type} `{!HasInodes F} `{!HasPages F} `{!FileSystem F true} fuel ip idx window source (s : cache F) :
  reached s -> readable ip idx -> 0 <= idx < 2 ^ 64 -> ip <> 0 -> 0 < window -> source < PAGE_CACHE_RA_SOURCE_COUNT ->
  is_Some (kmem s 0%nat) -> room s ->
  (forall p cp, pages s !! p = Some cp -> home cp = Some (ip, idx) -> has_flag (cp_flags cp) CACHE_PAGE_ERROR = false) ->
  exists p cp s', exec (page_cache_get_ra fuel ip idx window source) s = Returns (0, Some p) s' /\
    pages s' !! p = Some cp /\ home cp = Some (ip, idx) /\ cp_data cp = Some (written s ip idx) /\ pin_count cp = 1.
Proof.
  intros (h & HI & Hh)%reached_quiescent Hr Hidx Hip Hw Hsrc Hk Hroom Herr.
  destruct (get_ra_alone fuel ip idx window source s h HI (idle_unfilled h Hh) Hr Hidx Hip Hw Hsrc Hk Hroom Herr) as (p & s' & He & HI').
  destruct (tok_page _ _ _ _ _ _ HI') as (cp & Hp & Hhm & Hf). exists p, cp, s'. split_and!; [done | done | done | |].
  - destruct (cp_data cp) as [d |] eqn:Hd; [| unfold home in Hhm; by rewrite Hd in Hhm].
    rewrite (co_data _ _ _ (inv_coh _ _ _ _ (proj1 HI') eq_refl) p cp d (ip, idx) Hp Hd Hhm); [| left; apply Hf; use_in].
    by rewrite (get_ra_history _ _ _ _ _ _ _ _ He).
  - rewrite (pk_pin _ _ _ _ (inv_page _ _ _ _ (proj1 HI') _ _ Hp)). unfold pins, held.
    rewrite count_union, count_singleton, (idle_pins h p) by done. cbn. by rewrite bool_decide_eq_true_2.
Qed.

(** When the file system's writes succeed, [fsync] and [sync] do what they
    promise: [flush_dirty] terminates, returns 0, and then every page of the
    file asked for (of every file, without one) is on the disk as it was last
    stored. *)
Theorem page_cache_flush_durable {F : Type} `{!HasInodes F} `{!HasPages F} `{!FileSystem F true} fuel only (s : cache F) :
  reached s -> writes_succeed (F := F) -> (length (pages s) <= fuel)%nat ->
  exists s', exec (flush_dirty fuel only) s = Returns 0 s' /\
    forall ip idx, only = None \/ only = Some ip -> disk (fs s') ip idx = written s ip idx.
Proof.
  intros Hq%reached_quiescent Hws Hfuel. destruct (flush_durable fuel only s Hq Hws Hfuel) as (s' & ? & _ & ?). by exists s'.
Qed.

(** C38. A page whose write back failed stays in the cache with
    [CACHE_PAGE_ERROR], and from then on [page_cache_get_ra] for it never
    returns: the lookup refuses the page, the reservation finds it cached, and
    the function calls itself again, however often. *)
Theorem page_cache_get_bad_page_runs {F : Type} `{!HasInodes F} `{!HasPages F} `{!FileSystem F true} fuel ip idx window source (s : cache F) :
  reached s -> readable ip idx -> 0 <= idx < 2 ^ 64 -> ip <> 0 -> 0 < window -> source < PAGE_CACHE_RA_SOURCE_COUNT ->
  bad_page s (ip, idx) -> exec (page_cache_get_ra fuel ip idx window source) s = Runs.
Proof. intros (h & HI & Hh)%reached_quiescent ? ? ? ? ? ?. by apply (get_ra_bad _ _ _ _ _ _ h). Qed.

(** When no memory can be allocated and the page is not cached,
    [page_cache_get_ra] never returns either, although its callers expect an
    error: the failed reservation is tried again for ever. *)
Theorem page_cache_get_oom_runs {F : Type} `{!HasInodes F} `{!HasPages F} `{!FileSystem F true} fuel ip idx window source (s : cache F) :
  reached s -> readable ip idx -> 0 <= idx < 2 ^ 64 -> ip <> 0 -> 0 < window -> source < PAGE_CACHE_RA_SOURCE_COUNT ->
  (forall p cp, pages s !! p = Some cp -> home cp <> Some (ip, idx)) -> (forall n, kmem s n = None) ->
  exec (page_cache_get_ra fuel ip idx window source) s = Runs.
Proof.
  intros (h & HI & Hh)%reached_quiescent Hr Hidx Hip Hw Hsrc Hu Hk.
  apply (get_ra_oom fuel ip idx window source s h); try done. intros q cq Hq Hhq. by destruct (Hu q cq Hq).
Qed.

(** ** Examples *)

Lemma finished_reached w fuel progs sch : Forall (Forall (call_ok (FileSystem0 := mem_laws true w))) progs ->
  Z.of_nat (total_writes progs) < 2 ^ 32 ->
  ends sch (clients fuel progs, booted 2 (zeros true w) zeros_of) = true ->
  reached (FileSystem0 := mem_laws true w) (run_to sch (clients fuel progs, booted 2 (zeros true w) zeros_of)).2.
Proof.
  intros Hok Hw [Hr Hd]%ends_run. destruct (run_to _ _) as [ts s].
  exists fuel, progs, (unbooted 2 (zeros true w) zeros_of), (booted 2 (zeros true w) zeros_of), ts.
  by split_and!; [by repeat split | by destruct w; vm_compute | | | |].
Qed.

(** One thread stores into page 0 and may write it back; with [w = false] that
    fails. *)
Definition solo (wb : list call) : list (list call) := [CGet 1 0 2 1 :: CWrite 0 1 0 0 [7] :: wb].
Definition solo_pool (w : bool) (wb : list call) : list (act (cache mem_fs) unit) * cache mem_fs :=
  (clients 3 (solo wb), booted 2 (zeros true w) zeros_of).
Definition solo_end (w : bool) : cache mem_fs := (run_to (replicate 18 O) (solo_pool w [CWriteback 1])).2.
Definition solo_dirty : cache mem_fs := (run_to (replicate 13 O) (solo_pool true [])).2.

Lemma solo_reached w : reached (FileSystem0 := mem_laws true w) (solo_end w).
Proof.
  unfold solo_end, solo_pool. apply finished_reached; [repeat constructor; cbn; lia | reflexivity |].
  destruct w; vm_compute; reflexivity.
Qed.

Lemma page_cache_get_returns_witness : exists p cp s',
  exec (page_cache_get_ra 0 1 0 4 1) (solo_end true) = Returns (0, Some p) s' /\ pages s' !! p = Some cp /\
  home cp = Some (1, 0) /\ cp_data cp = Some (written (solo_end true) 1 0) /\ pin_count cp = 1.
Proof.
  refine (page_cache_get_returns (FileSystem0 := mem_laws true true) 0 1 0 4 1 (solo_end true) _ _ _ _ _ _ _ _ _).
  - apply solo_reached.
  - reflexivity.
  - lia.
  - lia.
  - lia.
  - reflexivity.
  - vm_compute. by eexists.
  - right. exists 0%nat. eexists. split_and!; [vm_compute; left | vm_compute; reflexivity | vm_compute; reflexivity].
  - vm_compute. intros [| [| p]] cp [= <-]; done.
Defined.

Lemma page_cache_flush_durable_witness : exists s', exec (flush_dirty 2 (Some 1)) solo_dirty = Returns 0 s' /\
  mem_pages (fs s') 0 = [7; 0] /\ mem_pages (fs solo_dirty) 0 = [0; 0].
Proof.
  destruct (page_cache_flush_durable (FileSystem0 := mem_laws true true) 2 (Some 1) solo_dirty) as (s' & He & Hd).
  - unfold solo_dirty, solo_pool. apply finished_reached; [repeat constructor; cbn; lia | reflexivity | vm_compute; reflexivity].
  - intros f ip i [Hr Hw] [-> ->]%mem_inode_at. eexists _, _. split; [done |]. split; [done |]. intros l _ _.
    cbn in Hw |- *. rewrite Hw. by eexists.
  - vm_compute. lia.
  - exists s'. split_and!; [exact He | | vm_compute; reflexivity]. etrans; [apply (Hd 1 0); by right | vm_compute; reflexivity].
Defined.

Lemma page_cache_get_bad_page_runs_witness :
  exec (page_cache_get_ra 5 1 0 4 1) (solo_end false) = Runs.
Proof.
  refine (page_cache_get_bad_page_runs (FileSystem0 := mem_laws true false) 5 1 0 4 1 (solo_end false) _ _ _ _ _ _ _).
  - apply solo_reached.
  - reflexivity.
  - lia.
  - lia.
  - lia.
  - reflexivity.
  - exists 1%nat. eexists. split_and!; vm_compute; reflexivity.
Defined.

(** Two descriptors, and then no memory. *)
Definition scarce : cache mem_fs :=
  Cache [] [] [] [] 0 (fun i => if bool_decide (i < 2)%nat then Some [0; 0] else None) (fun _ => 0) (zeros true true) zeros_of.
Definition scarce_booted : cache mem_fs := match page_cache_init scarce with Some (_, s) => s | None => scarce end.

Lemma page_cache_get_oom_runs_witness : exec (page_cache_get_ra 5 1 0 4 1) scarce_booted = Runs.
Proof.
  refine (page_cache_get_oom_runs (FileSystem0 := mem_laws true true) 5 1 0 4 1 scarce_booted _ _ _ _ _ _ _ _).
  - exists 0%nat, [], scarce, scarce_booted, [].
    split_and!; [by repeat split | vm_compute; reflexivity | constructor | reflexivity | apply rtc_refl | constructor].
  - reflexivity.
  - lia.
  - lia.
  - lia.
  - reflexivity.
  - vm_compute. intros [| [| p]] cp [= <-]; done.
  - reflexivity.
Defined.

(** ** A failed read

    Two threads get the same page while reads fail: the second waits for the
    first, whose two releases drop the waiter's pin as well. *)

Definition racing_progs : list (list call) := [[CGet 1 0 1 1]; [CGet 1 0 1 1; CUse 0]].
Definition racing_schedule : list nat := [0; 0; 0; 0; 1; 0; 0; 0; 0; 1; 1; 1]%nat.

(** A failed read frees a page that another thread holds.  [page_cache_get_ra]
    releases the page it could not read twice, so the descriptor goes to the
    free list, without data and with its flags cleared, under a thread that
    found it while it was being read; that thread sees neither the error nor
    the invalid mark, takes the page as its own and follows the null [data]. *)
Theorem failed_read_frees_held_page :
  exists c, rtc pool_step (clients 3 racing_progs, booted 2 (zeros false true) zeros_of) c /\ pool_faults c.
Proof. apply (run_schedule_faults racing_schedule 1). vm_compute. reflexivity. Qed.
