(* ===== verification/PageCacheSeq.v ===== *)
(** * The page cache: one thread and its pages

    Calls of one thread that holds pages while the others are idle, with what
    it needs to go on: memory, a page that can be reused, and no page that is
    marked bad or being written.  Getting and releasing pages keeps this. *)

From Stdlib Require Import ZArith Lia List.
From stdpp Require Import base list gmap gmultiset relations functions.
From S2P Require Import Prelude Threads PageCache PageCacheInv PageCacheSafe PageCacheUse PageCacheFrame PageCacheAlone.

Local Open Scope Z_scope.

Section ready.
Context {F : Type} `{!HasInodes F} `{!HasPages F} `{!FileSystem F true}.
Implicit Types (s : cache F) (h : gmultiset tok) (p q : nat) (cp : cache_page) (k : Z * Z).

Record ready s h : Prop := {
  rd_inv : Inv s h;
  rd_unfilled : unfilled h;
  rd_plenty : plenty s;
  rd_settled : forall p cp, pages s !! p = Some cp ->
    has_flag (cp_flags cp) CACHE_PAGE_ERROR = false /\ has_flag (cp_flags cp) CACHE_PAGE_WRITEBACK = false }.

(** A page that nobody holds and that has nothing to be written. *)
Definition spare s h q : Prop := pins q h = 0%nat /\ exists cp, pages s !! q = Some cp /\ dirty cp = false.

Lemma spare_room s h q : ready s h -> spare s h q -> room s.
Proof.
  intros [HI Hu _ Hs] (Hpin & cp & Hp & Hd). pose proof (proj1 HI) as Hi. pose proof (inv_lists _ _ _ _ Hi) as Hlo.
  pose proof (inv_page _ _ _ _ Hi _ _ Hp) as Hpk. pose proof (co_valid _ _ _ (inv_coh _ _ _ _ Hi eq_refl) _ _ Hp) as Hv.
  destruct (home cp) as [k |] eqn:Hh.
  - right. exists q, cp. split; [apply (lo_lru _ _ _ _ Hlo); exists k; by eapply shape_lookup |]. split; [done |].
    unfold evictable. rewrite (pk_pin _ _ _ _ Hpk), Hpin. change (Z.of_nat 0 =? 0) with true. cbn [andb].
    rewrite bool_decide_eq_true_2; [| unfold home in Hh; by destruct (cp_data cp)]. cbn [andb].
    rewrite !has_flag_lor. destruct (Hs q cp Hp) as [_ Hw]. unfold dirty in Hd. rewrite Hd, Hw.
    pose proof (idle_filling s h q cp HI Hu Hp) as Hf. unfold filling in Hf. by rewrite Hf.
  - left. assert (Hin : q ∈ free_list s) by (apply (lo_free _ _ _ _ Hlo); exists false; by eapply shape_lookup).
    intros He. rewrite He in Hin. by apply not_elem_of_nil in Hin.
Qed.

(** What reading leaves behind. *)
Lemma calm_settled s s' h' : calm s s' -> Inv s' h' ->
  (forall p cp, pages s !! p = Some cp ->
    has_flag (cp_flags cp) CACHE_PAGE_ERROR = false /\ has_flag (cp_flags cp) CACHE_PAGE_WRITEBACK = false) ->
  forall p cp, pages s' !! p = Some cp ->
    has_flag (cp_flags cp) CACHE_PAGE_ERROR = false /\ has_flag (cp_flags cp) CACHE_PAGE_WRITEBACK = false.
Proof.
  intros Hc HI Hs p c' Hp. destruct (ca_page _ _ Hc p c' Hp) as (c & Hc0 & _ & Hw & He & _). destruct (Hs p c Hc0) as [H1 H2].
  pose proof (co_valid _ _ _ (inv_coh _ _ _ _ (proj1 HI) eq_refl) _ _ Hp) as Hv. unfold invalid in Hv. split.
  - destruct (has_flag (cp_flags c') CACHE_PAGE_ERROR); [| done]. destruct (He eq_refl); congruence.
  - destruct (has_flag (cp_flags c') CACHE_PAGE_WRITEBACK); [| done]. specialize (Hw eq_refl). congruence.
Qed.

Lemma calm_dirty s s' q cp : calm s s' -> pages s !! q = Some cp -> dirty cp = false ->
  exists cp', pages s' !! q = Some cp' /\ dirty cp' = false.
Proof.
  intros Hc Hp Hd. destruct (lookup_lt_is_Some_2 (pages s') q) as [c' Hc']; [rewrite (ca_length _ _ Hc); by eapply lookup_lt_Some |].
  exists c'. split; [done |]. destruct (ca_page _ _ Hc q c' Hc') as (c & Hc0 & Hd0 & _). simplify_eq. unfold dirty in *.
  destruct (has_flag (cp_flags c') CACHE_PAGE_DIRTY); [| done]. rewrite Hd0 in Hd; done.
Qed.

Lemma get_ready fuel ip idx window source s h : ready s h -> room s -> readable ip idx -> 0 <= idx < 2 ^ 64 ->
  ip <> 0 -> 0 < window -> source < PAGE_CACHE_RA_SOURCE_COUNT ->
  exists p cp s', exec (page_cache_get_ra fuel ip idx window source) s = Returns (0, Some p) s' /\
    ready s' (held p (ip, idx) ⊎ h) /\ calm s s' /\ written s' = written s /\
    pages s' !! p = Some cp /\ home cp = Some (ip, idx) /\ cp_data cp = Some (written s ip idx).
Proof.
  intros [HI Hu Hk Hs] Hroom Hr Hidx Hip Hw Hsrc.
  destruct (get_ra_alone fuel ip idx window source s h HI Hu Hr Hidx Hip Hw Hsrc (Hk 0%nat) Hroom) as (p & s' & He & HI').
  { intros p cp Hp _. by apply (Hs p cp). }
  pose proof (akeep_exec (R := calm) _ _ _ _ (akeep_get_ra fuel ip idx window source) He) as Hc.
  pose proof (get_ra_history _ _ _ _ _ _ _ _ He) as Hwr.
  destruct (tok_page _ _ _ _ _ _ HI') as (cp & Hp & Hh & Hf). exists p, cp, s'. split; [done |].
  split; [split; [done | by apply unfilled_held | by apply (ca_plenty _ _ Hc) | by eapply calm_settled] |].
  split_and!; [done | done | done | done |]. destruct (cp_data cp) as [d |] eqn:Hd; [| unfold home in Hh; by rewrite Hd in Hh].
  rewrite <- Hwr. rewrite (co_data _ _ _ (inv_coh _ _ _ _ (proj1 HI') eq_refl) p cp d (ip, idx) Hp Hd Hh); [done |].
  left. apply Hf. use_in.
Qed.

Lemma release_ready p k s h : ready s (held p k ⊎ h) -> unfilled h ->
  exists s', exec (page_cache_release p) s = Returns tt s' /\ ready s' h /\ calm s s' /\ written s' = written s.
Proof.
  intros [HI _ Hk Hs] Hu. destruct (tok_page _ _ _ _ _ _ HI) as (cp & Hp & _).
  pose proof (co_valid _ _ _ (inv_coh _ _ _ _ (proj1 HI) eq_refl) _ _ Hp) as Hv.
  pose proof (release_alone s p cp Hp Hv) as He. eexists. split; [exact He |].
  pose proof (safe_exec Inv _ _ h _ s (safe_release p Use k 0 ltac:(use_in)) HI) as Hx. rewrite He in Hx.
  destruct Hx as (h2 & HI2 & ->). rewrite <- empty_union in HI2.
  pose proof (akeep_exec (R := calm) _ _ _ _ (akeep_release p) He) as Hc.
  split; [split; [done | done | by apply (ca_plenty _ _ Hc) | by eapply calm_settled] |]. split; [done |].
  exact (release_history _ _ _ _ He).
Qed.

(** ** A batch of pages of one file

    A writer holds the pages it has filled, [tbl] with the index of each, and
    nothing else is dirty; [n] marks of dirty pages are still to come. *)

Record batch s (ip : Z) (tbl : list (nat * Z)) (n : nat) : Prop := {
  bt_ready : ready s (use_toks ip tbl ⊎ credit_toks n);
  bt_dirty : forall p cp, pages s !! p = Some cp -> dirty cp = true -> p ∈ tbl.*1;
  bt_keys : NoDup tbl.*2 }.

Lemma use_toks_snoc ip tbl p idx : use_toks ip (tbl ++ [(p, idx)]) = held p (ip, idx) ⊎ use_toks ip tbl.
Proof.
  unfold use_toks. induction tbl as [| [q j] tbl IH]; cbn [app length replicate wb_toks]; [done |]. rewrite IH. unfold held. multiset_solver.
Qed.

Lemma use_toks_count (P : tok -> bool) ip tbl n : P Credit = false -> (forall p idx, (p, idx) ∈ tbl -> P (Tok Use p (ip, idx) 0) = false) ->
  count P (use_toks ip tbl ⊎ credit_toks n) = 0%nat.
Proof.
  intros Hc HP. rewrite count_union, (idle_pins _ 0 P (proj1 (credit_toks_ok n)) Hc), Nat.add_0_r. unfold use_toks.
  induction tbl as [| [p idx] tbl IH]; cbn [length replicate wb_toks]; [apply count_empty |].
  rewrite count_union, count_singleton, (HP p idx) by left. apply IH. intros q j Hq. apply HP. by right.
Qed.

Lemma use_toks_unfilled ip tbl n : unfilled (use_toks ip tbl ⊎ credit_toks n).
Proof. intros p. by apply use_toks_count. Qed.
#[local] Hint Resolve use_toks_unfilled : core.

(** Some page is not in the batch. *)
Lemma batch_spare s ip tbl n : batch s ip tbl n -> (length tbl < length (pages s))%nat ->
  exists q, spare s (use_toks ip tbl ⊎ credit_toks n) q.
Proof.
  intros [Hr Hd _] Hl. assert (Hq : exists q, (q < length (pages s))%nat /\ q ∉ tbl.*1).
  { destruct (decide (Exists (fun q => q ∉ tbl.*1) (seq 0 (length (pages s))))) as [He | He].
    - apply Exists_exists in He as (q & Hq%elem_of_seq & Hn). exists q. split; [lia | done].
    - exfalso. apply not_Exists_Forall in He; [| intros ?; apply _]. rewrite Forall_forall in He.
      assert (Hs : seq 0 (length (pages s)) ⊆+ tbl.*1).
      { apply NoDup_submseteq; [apply NoDup_seq |]. intros x Hx. specialize (He x Hx). destruct (decide (x ∈ tbl.*1)); [done |]. by destruct He. }
      apply submseteq_length in Hs. rewrite length_seq, length_fmap in Hs. lia. }
  destruct Hq as (q & Hlt & Hn). exists q. destruct (lookup_lt_is_Some_2 _ _ Hlt) as [cp Hp]. split.
  - apply use_toks_count; [done |]. intros p idx Hin. unfold on_page. apply bool_decide_eq_false. intros ->. apply Hn, list_elem_of_fmap. by exists (q, idx).
  - exists cp. split; [done |]. destruct (dirty cp) eqn:E; [| done]. by destruct Hn; eapply Hd.
Qed.

(** Nothing that reading does makes a page dirty. *)
Lemma batch_calm s s' ip tbl n : calm s s' -> batch s ip tbl n -> ready s' (use_toks ip tbl ⊎ credit_toks n) -> batch s' ip tbl n.
Proof.
  intros Hc [_ Hd Hk] Hr. split; [done | | done]. intros p c' Hp Hdc. destruct (ca_page _ _ Hc p c' Hp) as (c & Hp0 & Hf & _).
  eapply Hd; [done |]. unfold dirty in *. auto.
Qed.

Lemma batch_fs s f' ip tbl n : batch s ip tbl n -> keeps (fs s) f' -> (forall ip' idx, disk f' ip' idx = disk (fs s) ip' idx) ->
  batch (set_fs f' s) ip tbl n.
Proof. intros [[HI Hu Hk Hs] Hd Hn] Hf Hdk. split; [split; try done; by apply Inv_fs | done | done]. Qed.

(** With an empty batch the disk is up to date. *)
Lemma batch_disk s ip n : batch s ip [] n -> forall ip' idx, disk (fs s) ip' idx = written s ip' idx.
Proof.
  intros [[HI _ _ _] Hd _] ip' idx. destruct (co_disk _ _ _ (inv_coh _ _ _ _ (proj1 HI) eq_refl) (ip', idx)) as [He | (p & cp & Hp & _ & _ & [Hdc | Hm])];
    [done | by destruct (not_elem_of_nil p (Hd p cp Hp Hdc)) |]. exfalso. unfold mods in Hm. rewrite use_toks_count in Hm; [lia | done |].
  intros q j Hq. by apply not_elem_of_nil in Hq.
Qed.

Lemma batch_fill fuel s ip tbl n idx : batch s ip tbl n -> (length tbl < length (pages s))%nat -> idx ∉ tbl.*2 ->
  readable ip idx -> 0 <= idx < 2 ^ 64 -> ip <> 0 ->
  exists p s', exec (page_cache_fill fuel ip idx) s = Returns (Some p) s' /\ batch s' ip (tbl ++ [(p, idx)]) n /\
    length (pages s') = length (pages s) /\ written s' = written s.
Proof.
  intros Hb Hl Hn Hr Hidx Hip. destruct (batch_spare _ _ _ _ Hb Hl) as [q Hq].
  destruct (get_ready fuel ip idx 1 PAGE_CACHE_RA_READ s _ (bt_ready _ _ _ _ Hb) (spare_room _ _ _ (bt_ready _ _ _ _ Hb) Hq) Hr Hidx Hip eq_refl eq_refl)
    as (p & cp & s' & He & Hrd & Hca & Hw & _).
  exists p, s'. unfold page_cache_fill. rewrite exec_bind, He. split_and!; [done | | apply (ca_length _ _ Hca) | done].
  destruct Hb as [_ Hd Hk]. split.
  - by rewrite use_toks_snoc, <- (assoc_L _).
  - intros x c' Hx Hdx. destruct (ca_page _ _ Hca x c' Hx) as (c & Hp0 & Hf & _). rewrite fmap_app. apply elem_of_app. left.
    eapply Hd; [done |]. unfold dirty in *. auto.
  - rewrite fmap_app. apply NoDup_app. split_and!; [done | | apply NoDup_singleton]. intros x Hx ->%list_elem_of_singleton. done.
Qed.

(** The history after a store. *)
Definition stored (ip idx : Z) (new : list Z) (w : Z -> Z -> list Z) : Z -> Z -> list Z :=
  fun ip' idx' => if bool_decide ((ip', idx') = (ip, idx)) then new else w ip' idx'.

Lemma batch_store s ip tbl n p idx off d : batch s ip (tbl ++ [(p, idx)]) (S n) -> store_ok off d (ip, idx) ->
  exists s1 s', store_page p off d s = Some (tt, s1) /\ exec (page_cache_mark_dirty p) s1 = Returns tt s' /\
    batch s' ip (tbl ++ [(p, idx)]) n /\ length (pages s') = length (pages s) /\ fs s' = fs s /\
    written s' = stored ip idx (splice off d (written s ip idx)) (written s).
Proof.
  intros [[HI Hu Hk Hs] Hd Hn] Hso. set (o := use_toks ip tbl ⊎ credit_toks (S n)).
  assert (HI0 : Inv s (held p (ip, idx) ⊎ o)) by (unfold o; by rewrite (assoc_L _), <- use_toks_snoc).
  destruct (tok_page _ _ _ _ _ _ HI0) as (cp & Hp & Hh & Hf). pose proof (lookup_lt_Some _ _ _ Hp) as Hb.
  destruct (cp_data cp) as [old |] eqn:Hcd; [| unfold home in Hh; by rewrite Hcd in Hh].
  assert (old = written s ip idx) as -> by
    (apply (co_data _ _ _ (inv_coh _ _ _ _ (proj1 HI0) eq_refl) p cp old (ip, idx) Hp Hcd Hh); left; apply Hf; use_in).
  set (new := splice off d (written s ip idx)). set (c1 := set_data (Some new) cp).
  set (s1 := set_written (stored ip idx new (written s)) (set_pages (<[p := c1]> (pages s)) s)).
  assert (He1 : store_page p off d s = Some (tt, s1)).
  { unfold store_page, mbind, prog_bind, getp, updp. rewrite Hp, Hh, Hcd, Hp. done. }
  destruct (store_page_ok p off d (ip, idx) s o Hso HI0) as ([] & s1' & He1' & HI1). rewrite He1 in He1'. injection He1' as <-.
  assert (Hp1 : pages s1 !! p = Some c1) by (by apply list_lookup_insert_eq).
  set (c2 := set_seq (u32 (dirty_seq c1 + 1)) (set_flags (set_flag (cp_flags c1) CACHE_PAGE_DIRTY) c1)).
  set (s2 := set_pages (<[p := c2]> (pages s1)) s1).
  assert (He2 : exec (page_cache_mark_dirty p) s1 = Returns tt s2) by (apply exec_atomic; unfold updp; by rewrite Hp1).
  exists s1, s2. split; [done |]. split; [done |].
  assert (HI2 : Inv s2 (held p (ip, idx) ⊎ (use_toks ip tbl ⊎ credit_toks n))).
  { assert (HIc : Inv s1 (({[+ Tok Mod p (ip, idx) 0 +]} ⊎ {[+ Credit +]}) ⊎ (use_toks ip tbl ⊎ credit_toks n))).
    { replace (_ ⊎ _ ⊎ _) with ({[+ Tok Mod p (ip, idx) 0 +]} ⊎ o); [done |]. unfold o. cbn [credit_toks]. multiset_solver. }
    pose proof (safe_exec Inv _ _ _ _ _ (safe_mark_dirty p (ip, idx)) HIc) as Hx. rewrite He2 in Hx. by destruct Hx as (h' & ? & ->). }
  assert (Hlk : forall q c, pages s2 !! q = Some c -> (q = p /\ c = c2) \/ (q <> p /\ pages s !! q = Some c)).
  { intros q c Hq. cbn in Hq. rewrite list_insert_insert_eq in Hq.
    destruct (decide (q = p)) as [-> | Hne]; [left | right; split; [done |]; by rewrite list_lookup_insert_ne in Hq].
    rewrite list_lookup_insert_eq in Hq by done. by simplify_eq. }
  split; [| cbn; by rewrite !length_insert]. split; [split | | done].
  - by rewrite use_toks_snoc, <- (assoc_L _).
  - apply use_toks_unfilled.
  - done.
  - intros q c [[-> ->] | [_ Hq]]%Hlk; [| by eapply Hs]. destruct (Hs p cp Hp) as [H1 H2]. cbn [c2 c1 cp_flags set_seq set_flags set_data]. by flags.
  - intros q c [[-> ->] | [_ Hq]]%Hlk Hdc; [| by eapply Hd]. rewrite fmap_app. apply elem_of_app. right. by apply list_elem_of_singleton.
Qed.

Lemma release_batch ip n : forall tbl s, ready s (use_toks ip tbl ⊎ credit_toks n) ->
  exists s', exec (release_pages tbl.*1) s = Returns tt s' /\ ready s' (credit_toks n) /\ calm s s' /\ written s' = written s.
Proof.
  induction tbl as [| [p idx] tbl IH]; intros s Hr.
  - exists s. split_and!; [done | by rewrite (empty_union (credit_toks n)) | apply fr_refl | done].
  - assert (Hr' : ready s (held p (ip, idx) ⊎ (use_toks ip tbl ⊎ credit_toks n))) by (by rewrite (assoc_L _)).
    destruct (release_ready p (ip, idx) s _ Hr' (use_toks_unfilled _ _ _)) as (s1 & He1 & Hr1 & Hc1 & Hw1).
    destruct (IH s1 Hr1) as (s2 & He2 & Hr2 & Hc2 & Hw2). exists s2. cbn [fmap list_fmap release_pages fst].
    rewrite exec_bind, He1. split_and!; [done | done | by eapply fr_trans | congruence].
Qed.

(** Writing the batch back and letting it go. *)
Lemma batch_flush s ip tbl n : writes_succeed -> batch s ip tbl n -> tbl <> [] -> Z.of_nat (length tbl) <= PAGE_CACHE_RA_MAX_PAGES ->
  exists s1 s', exec (page_cache_writeback_pages (Some <$> tbl.*1)) s = Returns 0 s1 /\ exec (release_pages tbl.*1) s1 = Returns tt s' /\
    batch s' ip [] n /\ length (pages s') = length (pages s) /\ written s' = written s.
Proof.
  intros Hws [[HI Hu Hk Hs] Hd Hn] Hne Hl.
  destruct (writeback_exact ip tbl s _ eq_refl Hws Hn Hne Hl HI) as (s1 & He1 & Hrp).
  pose proof (safe_exec Inv _ _ _ _ _ (safe_writeback_pages ip tbl Hn) HI) as Hx. rewrite He1 in Hx. destruct Hx as (h' & HI1 & ->).
  assert (Hset : forall p cp, pages s1 !! p = Some cp -> settled cp).
  { intros p cp Hp. destruct (decide (p ∈ tbl.*1)) as [[i Hi]%list_elem_of_lookup | Hout].
    - destruct (rp_page _ _ _ _ Hrp i p Hi) as (c & c' & _ & Hc' & Hst). by simplify_eq.
    - rewrite (rp_other _ _ _ _ Hrp p Hout) in Hp. split; [| by eapply Hs]. destruct (dirty cp) eqn:E; [| done]. by destruct Hout; eapply Hd. }
  assert (Hr1 : ready s1 (use_toks ip tbl ⊎ credit_toks n)).
  { split; [done | done | | intros p cp Hp; by apply Hset in Hp as [_ ?]]. destruct (rp_state _ _ _ _ Hrp) as (f & pg & ->). exact Hk. }
  destruct (release_batch ip n tbl s1 Hr1) as (s2 & He2 & Hr2 & Hc2 & Hw2). exists s1, s2. split; [done |]. split; [done |].
  split; [| split; [rewrite (ca_length _ _ Hc2); apply Hrp |]].
  - split; [change (use_toks ip []) with (∅ : gmultiset tok); by rewrite <- (empty_union (credit_toks n)) | | constructor]. intros p c' Hp Hdc. exfalso.
    destruct (ca_page _ _ Hc2 p c' Hp) as (c & Hp0 & Hf & _). destruct (Hset p c Hp0) as [Hcl _]. unfold dirty in *. rewrite Hf in Hcl; done.
  - rewrite Hw2. by destruct (rp_state _ _ _ _ Hrp) as (f & pg & ->).
Qed.

(** After [page_cache_init]. *)
Lemma init_batch s0 s ip n : boot s0 -> page_cache_init s0 = Some (tt, s) -> plenty s -> Z.of_nat n < 2 ^ 32 ->
  batch s ip [] n /\ fs s = fs s0 /\ written s = written s0.
Proof.
  intros Hb He Hk Hn. destruct (credit_toks_ok n) as [Hc1 Hc2]. destruct (init_fresh s0 s Hb He) as [m Hf].
  assert (Hz : forall p cp, pages s !! p = Some cp -> cp = zero_page).
  { intros p cp Hp. rewrite (fr_pages _ _ _ Hf) in Hp. by apply lookup_replicate_1 in Hp as [-> _]. }
  split; [| split; apply Hf]. split; [split | | constructor].
  - change (use_toks ip []) with (∅ : gmultiset tok). rewrite <- (empty_union (credit_toks n)).
    eapply fresh_inv; [done | done | done | by rewrite Hc2].
  - apply use_toks_unfilled.
  - done.
  - by intros p cp ->%Hz.
  - by intros p cp ->%Hz.
Qed.
End ready.
