(* ===== verification/FatPages.v ===== *)
(** * The page cache over FAT32

    The page operations of FAT32 ([fat32_aops] of kernel/bsd/fat32.c, the
    functions of FatFile) keep the promises that the page cache asks of a file
    system, so the theorems about threads that share the cache hold for a file
    on a FAT32 volume, down to the sectors of the disk. *)

From Stdlib Require Import ZArith Lia List.
From stdpp Require Import base list gmap gmultiset relations functions.
From S2P Require Import Prelude Block Fat FatChain FatFile Threads PageCache PageCacheInv PageCacheSafe PageCacheUse PageCacheAlone.

Local Open Scope Z_scope.

(** ** The operations

    A page of the cache is an array of 4096 bytes, a page of FatFile the list
    of its eight sectors. *)

Definition page_sectors (d : list Z) : list (list Z) := (fun i => slice (i * 512) 512 d) <$> seq 0 8.

Section operations.
Context (g : geometry) (stats : Z -> Z -> fstate -> read_stats) (ino : Z).

(** [stats] stands for the counters of commands and sectors that
    [fat32_readpages] reports, which FatFile leaves out. *)
Definition fat32_aops : aops fstate := Aops
  (Some (fun _ page_index _ s =>
     match fat32_readpage g page_index s with
     | Some (rc, page, s') => Some (rc, concat page, s')
     | None => None
     end))
  (Some (fun _ first_page ds s =>
     let nr_pages := Z.of_nat (length ds) in
     match fat32_readpages g first_page nr_pages s with
     | Some (inl rc, s') => Some (rc, ds, stats first_page nr_pages s, s')
     | Some (inr pages, s') => Some (0, map (concat (A := Z)) pages, stats first_page nr_pages s, s')
     | None => None
     end))
  (Some (fun _ l s => fat32_writepages g ((fun x => (x.1, page_sectors x.2)) <$> l) s)).

(** The file system seen through one open file, whose inode is [ino]. *)
Definition fat32_inodes : HasInodes fstate := fun s ip =>
  if ip =? ino then Some (PageCache.Inode INODE_REGULAR (fsize s) (Some fat32_aops)) else None.

(** The indices that [fat32_readpage] accepts. *)
Definition page_range (idx : Z) : Prop := 0 <= idx <= UINT64_MAX / PAGE_SIZE.
Definition fat32_pages : HasPages fstate := fun ip idx => ip = ino /\ page_range idx.
End operations.

(** ** Bytes and sectors *)

Lemma concat_slices {A} m (d : list A) n : concat ((fun i => slice (i * m) m d) <$> seq 0 n) = take (n * m) d.
Proof.
  induction n as [| n IH]; [done |]. rewrite seq_S, fmap_app, concat_app, IH. cbn. rewrite app_nil_r. unfold slice.
  rewrite take_take_drop. f_equal. lia.
Qed.

Lemma concat_replicate {A} n m (x : A) : concat (replicate n (replicate m x)) = replicate (n * m) x.
Proof. induction n as [| n IH]; [done |]. cbn. by rewrite IH, replicate_add. Qed.

Lemma concat_sectors d : length d = 4096%nat -> concat (page_sectors d) = d.
Proof. intros Hd. unfold page_sectors. rewrite concat_slices, take_ge; [done | lia]. Qed.

Lemma sectors_concat (ss : list (list Z)) : length ss = 8%nat -> Forall (fun s => length s = 512%nat) ss ->
  page_sectors (concat ss) = ss.
Proof.
  intros Hl Hs. apply list_eq. intros k. unfold page_sectors. rewrite list_lookup_fmap.
  destruct (decide (k < 8)%nat) as [Hk | Hk].
  - rewrite lookup_seq_lt by done. destruct (lookup_lt_is_Some_2 ss k) as [x Hx]; [lia |]. cbn. rewrite Hx. f_equal.
    by apply (slice_concat 512 ss k x).
  - rewrite lookup_seq_ge by lia. symmetry. apply lookup_ge_None. lia.
Qed.

Lemma sectors_ok d : length d = 4096%nat -> Forall is_byte d -> length (page_sectors d) = 8%nat /\ Forall sector_ok (page_sectors d).
Proof.
  intros Hl Hb. unfold page_sectors. split; [by rewrite length_fmap, length_seq |]. apply Forall_fmap, Forall_forall.
  intros i Hi%elem_of_seq. cbn. split; [rewrite length_slice; lia |]. by apply Forall_take, Forall_drop.
Qed.

(** ** The promises *)

Section laws.
Context (g : geometry) (stats : Z -> Z -> fstate -> read_stats) (ino : Z).
Context (f : Z -> Z) (l : list Z) (size : Z).
Hypothesis Hg : geom_ok g.
Hypothesis Hcov : covered g l size.
Hypothesis Hsize : size < 2 ^ 32.

(** A consistent volume with FAT [f], and the file with clusters [l] and this
    size in it. *)
Definition fat_ok (s : fstate) : Prop := FatFile.fs_ok g f (psec g (vol s)) l s /\ fsize s = size.

(** What the sectors of the disk say that a page of the file is. *)
Definition fat_page (v : volume) (idx : Z) : list Z := concat (page_of g (psec g v) l size idx).

Definition fat_disk (s : fstate) (ip idx : Z) : list Z :=
  if decide (ip = ino /\ 0 <= idx) then fat_page (vol s) idx else [].

(** The bytes of a page that belong to sectors of the file. *)
Definition page_room (idx : Z) : nat := Z.to_nat (page_span size idx * 512).

Definition fat_fits (idx : Z) (d : list Z) : Prop :=
  length d = 4096%nat /\ Forall is_byte d /\ drop (page_room idx) d = replicate (4096 - page_room idx) 0.

Lemma st_psec D v : st g f D v -> st g f (psec g v) v.
Proof. intros []. by split. Qed.

Lemma page_of_agree D s idx : FatFile.fs_ok g f D l s -> 0 <= idx -> page_of g D l size idx = page_of g (psec g (vol s)) l size idx.
Proof.
  intros [Hst Hf] Hidx. destruct (page_span_bound g f l size idx Hcov Hidx) as [Hn Hin]. unfold page_of, filled. fold (page_span size idx).
  change PAGE_SECTORS with 8. f_equal. apply map_ext_in. intros k Hk. apply in_seq in Hk. unfold file_sector.
  destruct (disk_sector_Some g Hg f l (idx * 8 + Z.of_nat k) (fo_chain _ _ _ _ Hf) ltac:(lia)) as (c & d & _ & _ & _ & Hd & Hr).
  rewrite Hd. symmetry. apply (st_data _ _ _ _ Hst). right. apply Hr.
Qed.

Lemma fat_ok_intro D s : FatFile.fs_ok g f D l s -> fsize s = size -> fat_ok s.
Proof. intros [Hst Hf] Hs. split; [split; [by eapply st_psec | done] | done]. Qed.

Lemma kept_same s s' : kept g s s' -> psec g (vol s') = psec g (vol s) /\ fsize s' = fsize s.
Proof. intros (Hs & _ & _ & _ & [E _]). split; [| done]. unfold psec. by rewrite E. Qed.

Lemma page_room_le idx : 0 <= idx -> (page_room idx <= 4096)%nat /\ page_room idx = (Z.to_nat (page_span size idx) * 512)%nat.
Proof. intros Hi. destruct (page_span_bound g f l size idx Hcov Hi). unfold page_room. lia. Qed.

(** *** Reading *)

Lemma page_of_sectors s idx : FatFile.fs_ok g f (psec g (vol s)) l s -> 0 <= idx ->
  length (page_of g (psec g (vol s)) l size idx) = 8%nat /\ Forall sector_ok (page_of g (psec g (vol s)) l size idx).
Proof.
  intros [Hst Hf] Hidx. destruct (page_span_bound g f l size idx Hcov Hidx) as [Hn Hin]. unfold page_of. fold (page_span size idx).
  split; [rewrite length_filled; change PAGE_SECTORS with 8; lia |]. unfold filled. apply Forall_app. split.
  - apply Forall_map, Forall_forall. intros k Hk%elem_of_seq. change PAGE_SECTORS with 8. unfold file_sector.
    destruct (disk_sector_Some g Hg f l (idx * 8 + Z.of_nat k) (fo_chain _ _ _ _ Hf) ltac:(lia)) as (c & d & _ & _ & _ & Hd & Hr).
    rewrite Hd. eapply (st_sector_ok g f); [exact Hst | apply Hr].
  - apply Forall_replicate. split; [done |]. apply Forall_replicate. unfold is_byte. lia.
Qed.

Lemma fat_page_fits s idx : fat_ok s -> page_range idx -> fat_fits idx (fat_page (vol s) idx).
Proof.
  intros [Hok _] [Hidx Hmax]. unfold fat_fits. destruct (page_of_sectors s idx Hok Hidx) as [Hl Hs].
  destruct (page_room_le idx Hidx) as [Hr1 Hr2]. destruct (page_span_bound g f l size idx Hcov Hidx) as [Hn _].
  assert (Hlen : length (fat_page (vol s) idx) = 4096%nat).
  { unfold fat_page. rewrite (length_concat 512), Hl; [done |]. eapply Forall_impl; [exact Hs |]. by intros x []. }
  split; [done |]. split; [apply Forall_concat; eapply Forall_impl; [exact Hs |]; by intros x [] |].
  unfold fat_page, page_of, filled. fold (page_span size idx). rewrite concat_app, drop_app_length'.
  - unfold blank. change PAGE_SECTORS with 8. replace (4096 - page_room idx)%nat with (Z.to_nat (8 - page_span size idx) * 512)%nat by lia.
    apply concat_replicate.
  - rewrite (length_concat 512); [rewrite length_map, length_seq; lia |].
    unfold page_of, filled in Hs. apply Forall_app in Hs as [Hs _]. eapply Forall_impl; [exact Hs |]. by intros x [].
Qed.

Lemma fat_readpage_ok s idx : fat_ok s -> page_range idx ->
  exists s', fat32_readpage g idx s = Some (0, page_of g (psec g (vol s)) l size idx, s') /\ fat_ok s' /\
    psec g (vol s') = psec g (vol s).
Proof.
  intros [Hok Hs] Hr. destruct (wp_readpage g Hg f (psec g (vol s)) l s idx Hok ltac:(by rewrite Hs) Hr) as (r & s' & He & -> & Hok' & Hk).
  destruct (kept_same _ _ Hk) as [Hp Hs']. exists s'. rewrite Hs in He. split; [done |]. split; [| done].
  eapply fat_ok_intro; [done | congruence].
Qed.

Lemma fat_readpages_ok s first nr : fat_ok s -> page_range first -> 0 < nr <= PAGE_CACHE_RA_MAX_PAGES ->
  exists r s', fat32_readpages g first nr s = Some (r, s') /\ fat_ok s' /\ psec g (vol s') = psec g (vol s) /\
    (r = inl (- ENOMEM) \/
     r = inr (map (fun i => page_of g (psec g (vol s)) l size (first + Z.of_nat i)) (seq 0 (Z.to_nat nr)))).
Proof.
  intros [Hok Hs] Hr Hn.
  destruct (wp_readpages g Hg f (psec g (vol s)) l s first nr Hok ltac:(by rewrite Hs) Hr Hn) as (r & s' & He & Hok' & Hk & Hres).
  destruct (kept_same _ _ Hk) as [Hp Hs']. exists r, s'. split; [done |]. split; [eapply fat_ok_intro; [done | congruence] |].
  split; [done |]. rewrite Hs in Hres. destruct (kmalloc_ok (mem s)).1; auto.
Qed.

(** *** Writing *)

Lemma write_pages_cons x ps s : write_pages g (x :: ps) s =
  match fat32_writepages g [x] s with
  | Some (rc, s') => if rc =? 0 then write_pages g ps s' else Some (rc, s')
  | None => None
  end.
Proof.
  destruct x as [p data]. unfold fat32_writepages. cbn [write_pages length Nat.eqb]. destruct (UINT64_MAX / PAGE_SIZE <? p); [done |].
  unfold mbind, prog_bind, get. cbn beta iota. match goal with |- context [(if fsize s <=? ?a then ?b else ?c) s] =>
    destruct ((if fsize s <=? a then b else c) s) as [[rc s'] |] end; [| done].
  destruct (Z.eqb_spec rc 0) as [-> | Hrc]; cbn [negb]; [done |]. unfold mret, prog_ret. by destruct (Z.eqb_spec rc 0).
Qed.

Lemma fat_fits_sectors idx d : page_range idx -> fat_fits idx d -> length (page_sectors d) = 8%nat /\
  Forall sector_ok (page_sectors d) /\
  concat (take (Z.to_nat (page_span size idx)) (page_sectors d) ++ blank (8 - page_span size idx)) = d.
Proof.
  intros Hr (Hl & Hb & Hd).
  destruct (sectors_ok d Hl Hb) as [H8 Hs]. split; [done |]. split; [done |].
  destruct (page_room_le idx ltac:(apply Hr)) as [Hr1 Hr2]. destruct (page_span_bound g f l size idx Hcov ltac:(apply Hr)) as [Hn _].
  rewrite concat_app. unfold page_sectors. rewrite <- fmap_take, take_seq. replace (_ `min` 8)%nat with (Z.to_nat (page_span size idx)) by lia.
  rewrite concat_slices, <- Hr2. unfold blank. rewrite concat_replicate. replace (_ * 512)%nat with (4096 - page_room idx)%nat by lia.
  rewrite <- Hd. apply take_drop.
Qed.

Lemma fat_write_pages_ok ps : forall s, fat_ok s -> Forall (fun x => page_range x.1 /\ fat_fits x.1 x.2) ps -> NoDup ps.*1 ->
  exists s', write_pages g ((fun x => (x.1, page_sectors x.2)) <$> ps) s = Some (0, s') /\ fat_ok s' /\
    (forall idx d, (idx, d) ∈ ps -> fat_page (vol s') idx = d) /\
    (forall idx, 0 <= idx -> idx ∉ ps.*1 -> fat_page (vol s') idx = fat_page (vol s) idx).
Proof.
  induction ps as [| [p d] ps IH]; intros s Hok Hps Hnd.
  { exists s. split; [done |]. split; [done |]. split; [| done]. intros idx d Hin. by apply not_elem_of_nil in Hin. }
  apply Forall_cons in Hps as [[Hr Hf] Hps]. cbn in Hr, Hf. apply NoDup_cons in Hnd as [Hnin Hnd].
  destruct (fat_fits_sectors p d Hr Hf) as (H8 & Hs & Hd). destruct Hok as [Hok Hsz].
  destruct (wp_writepage g Hg f l (psec g (vol s)) s p (page_sectors d) Hok ltac:(by rewrite Hsz) Hr H8 Hs)
    as (rc & s1 & He & -> & D' & Hok1 & Hw & Hki). rewrite Hsz in Hw.
  assert (Hok1' : fat_ok s1) by (eapply fat_ok_intro; [exact Hok1 | destruct Hki as [-> _]; done]).
  assert (Hpg : forall q, 0 <= q -> fat_page (vol s1) q = if decide (q = p) then d else fat_page (vol s) q).
  { intros q Hq. unfold fat_page. rewrite <- (page_of_agree D' s1 q Hok1 Hq).
    rewrite (wrote_file_pages g Hg f l _ _ p (page_sectors d) size q (fo_chain _ _ _ _ (proj2 Hok)) Hcov (proj1 Hr) Hq H8 Hw).
    by case_decide. }
  destruct (IH s1 Hok1' Hps Hnd) as (s2 & He2 & Hok2 & Hin & Hout). exists s2. cbn [fmap list_fmap fst snd]. rewrite write_pages_cons, He.
  split; [exact He2 |]. split; [done |]. split.
  - intros idx d' [Heq | Hin']%elem_of_cons; [| by apply Hin]. injection Heq as -> ->.
    rewrite Hout; [| apply Hr | done]. rewrite Hpg by apply Hr. by rewrite decide_True.
  - intros idx Hidx [Hne Hni]%not_elem_of_cons. rewrite Hout by done. rewrite Hpg by done. by rewrite decide_False.
Qed.

Lemma fat_writepages_ok ps s : fat_ok s -> Forall (fun x => page_range x.1 /\ fat_fits x.1 x.2) ps -> NoDup ps.*1 ->
  exists rc s', fat32_writepages g ((fun x => (x.1, page_sectors x.2)) <$> ps) s = Some (rc, s') /\ (ps <> [] -> rc = 0) /\ fat_ok s' /\
    (forall idx d, (idx, d) ∈ ps -> fat_page (vol s') idx = d) /\
    (forall idx, 0 <= idx -> idx ∉ ps.*1 -> fat_page (vol s') idx = fat_page (vol s) idx).
Proof.
  intros Hok Hps Hnd. destruct (fat_write_pages_ok ps s Hok Hps Hnd) as (s' & He & H). unfold fat32_writepages. rewrite length_fmap.
  destruct ps as [| x ps]; [| by exists 0, s'].
  exists (- EINVAL), s. split; [done |]. split; [done |]. split; [done |]. split; [| done]. intros idx d Hin. by apply not_elem_of_nil in Hin.
Qed.

(** *** The file system *)

Lemma fat_inode_at s ip i : @inode_at _ (fat32_inodes g stats ino) s ip = Some i ->
  ip = ino /\ i = PageCache.Inode INODE_REGULAR (fsize s) (Some (fat32_aops g stats)).
Proof. unfold inode_at, fat32_inodes. destruct (Z.eqb_spec ip ino); [by intros [= <-] | done]. Qed.

Lemma fat_keeps s s' : fat_ok s' -> fat_ok s' /\ forall ip, is_Some (@inode_at _ (fat32_inodes g stats ino) s ip) ->
  is_Some (@inode_at _ (fat32_inodes g stats ino) s' ip).
Proof. intros Hok. split; [done |]. intros ip [i [-> _]%fat_inode_at]. unfold inode_at, fat32_inodes. by rewrite Z.eqb_refl. Qed.

Lemma fat_disk_psec s s' ip idx : psec g (vol s') = psec g (vol s) -> fat_disk s' ip idx = fat_disk s ip idx.
Proof. intros Hp. unfold fat_disk, fat_page. by rewrite Hp. Qed.

#[program] Definition fat32_fs : @FileSystem fstate (fat32_inodes g stats ino) (fat32_pages ino) true := {|
  PageCacheSafe.fs_ok := fat_ok;
  disk := fat_disk;
  writable ip := ip = ino;
  fits _ := fat_fits |}.
Next Obligation.
  intros s ip i a rd idx d Hok [-> ->]%fat_inode_at [= <-] [= <-] [_ Hr].
  destruct (fat_readpage_ok s idx Hok Hr) as (s' & He & Hok' & Hp). rewrite He. eexists _, _. split; [done |].
  split; [by apply fat_keeps |]. intros _. split; [unfold fat_disk; rewrite decide_True; [done | split; [done | apply Hr]] |].
  intros ip' idx'. by apply fat_disk_psec.
Qed.
Next Obligation.
  intros s ip i a rd first ds Hok [-> ->]%fat_inode_at [= <-] [= <-] Hfirst Hn Hr.
  assert (Hrf : page_range first). { destruct (Hr 0 ltac:(lia)) as [_ H0]. rewrite Z.add_0_r, u64_small in H0 by done. done. }
  destruct (fat_readpages_ok s first (Z.of_nat (length ds)) Hok Hrf Hn) as (r & s' & He & Hok' & Hp & Hres). rewrite He.
  destruct Hres as [-> | ->].
  - eexists _, _, _, _. split; [done |]. split; [by apply fat_keeps |]. split; [done |]. split; [auto |]. intros _.
    split; [intros; by apply fat_disk_psec | done].
  - eexists _, _, _, _. split; [done |]. split; [by apply fat_keeps |]. split; [by rewrite !length_map, length_seq, Nat2Z.id |].
    split; [auto |]. intros _. split; [intros; by apply fat_disk_psec |]. intros _ j d' Hj.
    rewrite map_map, Nat2Z.id in Hj. change (map ?h) with (fmap (M := list) h) in Hj. rewrite list_lookup_fmap in Hj.
    apply fmap_Some in Hj as (j' & Hj & ->). apply lookup_seq in Hj as [-> Hj]. cbn [Nat.add].
    destruct (Hr (Z.of_nat j) ltac:(lia)) as [_ Hrj]. unfold fat_disk. rewrite decide_True by (split; [done | apply Hrj]). unfold fat_page. do 2 f_equal.
    unfold page_range, UINT64_MAX, PAGE_SIZE, PAGE_CACHE_RA_MAX_PAGES in *. rewrite u64_small; [done |].
    change ((2 ^ 64 - 1) / 4096) with (2 ^ 52 - 1) in *. lia.
Qed.
Next Obligation.
  intros s ip i a wr ps Hok [-> ->]%fat_inode_at [= <-] [= <-] Hnd Hps.
  destruct (fat_writepages_ok ps s Hok) as (rc & s' & He & _ & Hok' & Hin & Hout); [| done |].
  { eapply Forall_impl; [exact Hps |]. intros [idx d] [[_ Hr] Hf]. split; [done | by apply Hf]. }
  eexists _, s'. split; [exact He |]. split; [by apply fat_keeps |]. intros _. split.
  - intros idx d Hd. left. rewrite Forall_forall in Hps. destruct (Hps _ Hd) as [[_ Hr] _]. cbn in Hr.
    unfold fat_disk. rewrite decide_True by (split; [done | apply Hr]). by apply Hin.
  - intros ip' idx' Hor. unfold fat_disk. case_decide as Hc; [| done]. destruct Hc as [-> Hi0].
    destruct Hor as [? | Hni]; [done | by apply Hout].
Qed.
Next Obligation.
  intros s ip idx _ Hok [-> Hr]. unfold fat_disk. rewrite decide_True by (split; [done | apply Hr]). by apply fat_page_fits.
Qed.
Next Obligation.
  intros s ip i idx w j [_ Hs] [-> ->]%fat_inode_at [_ Hr] Hj. split; [done |]. unfold ra_window in Hj. cbn [i_type i_size] in Hj.
  rewrite Hs in Hj. unfold page_range, UINT64_MAX, PAGE_SIZE in *. change ((2 ^ 64 - 1) / 4096) with (2 ^ 52 - 1) in *.
  unfold covered in Hcov. rewrite u64_small in Hj by lia.
  assert (Hfp : (size + 4096 - 1) / 4096 <= 2 ^ 20) by (Z.to_euclidean_division_equations; lia).
  change (INODE_REGULAR =? INODE_REGULAR) with true in Hj. cbv beta iota zeta in Hj.
  destruct (Z.leb_spec ((size + 4096 - 1) / 4096) idx) as [Hle | Hlt].
  - assert (j = 0) as -> by lia. rewrite Z.add_0_r, u64_small by lia. done.
  - assert (0 <= j < (size + 4096 - 1) / 4096 - idx) by (destruct (_ <? page_cache_ra_cap w) eqn:Hb; bool_to_prop; lia).
    rewrite u64_small by lia. lia.
Qed.
Next Obligation.
  intros s ip idx Hok [-> Hr]. unfold inode_at, fat32_inodes. rewrite Z.eqb_refl. eexists. split; [done |]. by eexists.
Qed.
Next Obligation.
  intros s ip i Hok [-> ->]%fat_inode_at. split; [done |]. by eexists.
Qed.

(** A store that stays within the sectors of the file. *)
Lemma fat_store_ok off d idx : 0 <= idx -> (off + length d <= page_room idx)%nat -> Forall is_byte d ->
  @store_ok _ _ _ _ fat32_fs off d (ino, idx).
Proof.
  intros Hidx Hr Hd _ old (Hl & Hb & Hz). destruct (page_room_le idx Hidx) as [Hm _]. cbn [fst snd] in *. split; [| split].
  - rewrite length_splice by lia. done.
  - unfold splice. apply Forall_app. split; [by apply Forall_take |]. apply Forall_app. split; [done | by apply Forall_drop].
  - cbn [snd]. rewrite <- Hz. unfold splice. rewrite drop_app_ge, drop_app_ge, drop_drop by (rewrite ?length_take; lia).
    f_equal. rewrite length_take. lia.
Qed.

Lemma fat_writes_succeed : @writes_succeed _ (fat32_inodes g stats ino) (fat32_pages ino) true fat32_fs.
Proof.
  intros s ip i Hok [-> ->]%fat_inode_at. eexists _, _. split; [done |]. split; [done |]. intros ps Hne Hnd Hps.
  destruct (fat_writepages_ok ps s Hok) as (rc & s' & He & Hrc & _); [| done | exists s'; by rewrite <- (Hrc Hne)].
  eapply Forall_impl; [exact Hps |]. intros [idx d] [[_ Hr] Hf]. by split.
Qed.

(** ** Theorems *)

#[local] Instance file_inodes : HasInodes fstate := fat32_inodes g stats ino.
#[local] Instance file_pages : HasPages fstate := fat32_pages ino.
#[local] Instance file_system : FileSystem fstate true := fat32_fs.

(** C5. Threads that share a file of fixed size on a FAT32 volume through the
    page cache, end to end.  They get, read, store into, write back and release
    pages; stores stay inside the sectors of the file, and nobody invalidates
    its pages.  On a consistent volume, however the threads interleave, none of
    them faults and each reads what was last stored; and when they have ended,
    [fsync] returns 0, every page of the file is then on the disk, in the
    sectors that the FAT gives the file, as it was last stored, and the volume
    is still consistent, with the FAT it had. *)
Theorem fat_file_durable fuel progs (s0 s1 : cache fstate) c :
  boot s0 -> page_cache_init s0 = Some (tt, s1) -> Forall (Forall call_ok) progs ->
  Z.of_nat (total_writes progs) < 2 ^ 32 -> rtc pool_step (clients fuel progs, s1) c ->
  ~ pool_faults c /\
  (all_done c -> exists s', exec (flush_dirty (length (pages c.2)) (Some ino)) c.2 = Returns 0 s' /\ fat_ok (fs s') /\
    forall idx, 0 <= idx -> fat_page (vol (fs s')) idx = written c.2 ino idx).
Proof using Hg Hcov Hsize.
  intros Hb He Hok Hw Hr. pose proof (pool_ok_reach _ _ _ _ (clients_ok fuel progs s0 s1 Hb He Hok Hw) Hr) as Hp.
  split; [by eapply pool_ok_no_fault |]. intros Hd. destruct c as [ts s].
  assert (Hq : reached s) by (by exists fuel, progs, s0, s1, ts).
  destruct (flush_durable (length (pages s)) (Some ino) s (reached_quiescent s Hq) fat_writes_succeed (le_n _)) as (s' & Hx & Hf & Hall).
  exists s'. split; [exact Hx |]. split; [exact Hf |]. intros idx Hidx. cbn [snd]. rewrite <- (Hall ino idx) by auto.
  unfold disk, file_system, fat32_fs, fat_disk. by rewrite decide_True.
Qed.
End laws.

(** ** An example

    Two threads on the file of 700 bytes of the example volume. *)

Definition no_stats (first nr : Z) (s : fstate) : read_stats := ReadStats 0 0 0.

Definition demo_written : Z -> Z -> list Z := fat_disk demo_geometry 1 [3; 4] 700 (demo_file []).
Definition demo_start : cache fstate := booted 4 (demo_file []) demo_written.

Definition sharing : list (list call) :=
  [[CGet 1 0 4 1; CWrite 0 1 0 5 [7; 8]; CCheck 0; CWriteback 1]; [CGet 1 0 1 1; CCheck 0; CWrite 0 1 0 600 [9]; CCheck 0]].
Definition sharing_schedule : list nat :=
  replicate 5 0%nat ++ [1%nat] ++ replicate 5 0%nat ++ replicate 4 1%nat ++ replicate 7 0%nat ++ replicate 4 1%nat.

Definition sharing_pool : list (act (cache fstate) unit) * cache fstate :=
  (clients (HasInodes0 := fat32_inodes demo_geometry no_stats 1) 3 sharing, demo_start).

Lemma fat_file_durable_witness : exists s',
  exec (flush_dirty (HasInodes0 := fat32_inodes demo_geometry no_stats 1) (length (pages (run_to sharing_schedule sharing_pool).2)) (Some 1))
    (run_to sharing_schedule sharing_pool).2 = Returns 0 s' /\
  slice 4 5 (fat_page demo_geometry [3; 4] 700 (vol (fs s')) 0) = slice 4 5 (written (run_to sharing_schedule sharing_pool).2 1 0) /\
  slice 4 5 (written (run_to sharing_schedule sharing_pool).2 1 0) <> slice 4 5 (demo_written 1 0).
Proof.
  assert (He : ends sharing_schedule sharing_pool = true) by (vm_compute; reflexivity).
  apply ends_run in He as [Hr Hd].
  destruct (fat_file_durable demo_geometry no_stats 1 (entry demo_geometry demo_volume) [3; 4] 700 demo_geom_ok demo_covered eq_refl
    3 sharing (unbooted 4 (demo_file []) demo_written) demo_start (run_to sharing_schedule sharing_pool)) as [_ Hend].
  - split_and!; [done | done | | done]. split; [apply demo_file_ok | done].
  - apply booted_init. vm_compute. reflexivity.
  - assert (Hget : @readable _ (fat32_pages 1) 1 0 /\ 0 <= 0 < 2 ^ 64) by (split; [split; [done | split; vm_compute; discriminate] | lia]).
    assert (Hst : forall off d, (off + length d <= 1024)%nat -> Forall is_byte d ->
      @store_ok _ _ _ _ (fat32_fs demo_geometry no_stats 1 (entry demo_geometry demo_volume) [3; 4] 700 demo_geom_ok demo_covered eq_refl) off d (1, 0)).
    { intros off d Hl Hb. apply fat_store_ok; [lia | vm_compute page_room; lia | done]. }
    repeat apply Forall_cons_2; try apply Forall_nil_2; first [exact Hget | reflexivity | exact I | apply Hst];
      first [cbn; lia | repeat constructor; unfold is_byte; lia].
  - reflexivity.
  - exact Hr.
  - destruct (Hend Hd) as (s' & Hx & _ & Hp). exists s'. split; [exact Hx |]. split; [by rewrite Hp |].
    vm_compute. discriminate.
Defined.
