(* ===== verification/FatIo.v ===== *)
(** * FAT32: reading a file (kernel/bsd/fat32.c)

    [fat32_read], which copies bytes from the pages of a file in the page
    cache to a buffer, as a thread over PageCache; and what it returns while
    other threads are idle. *)

From Stdlib Require Import ZArith Lia List.
From stdpp Require Import base list gmap gmultiset relations functions.
From S2P Require Import Prelude Block Fat FatChain FatFile Threads PageCache PageCacheInv PageCacheSafe PageCacheUse PageCacheFrame PageCacheAlone PageCacheSeq FatPages.

Local Open Scope Z_scope.

Section read.
Context {F : Type} `{!HasInodes F}.

(** [memcpy] from a page. *)
Definition copy_out (p : nat) (off n : Z) : prog (cache F) (list Z) :=
  cp ← getp p;
  match cp_data cp with
  | Some d => if off + n <=? Z.of_nat (length d) then mret (slice (Z.to_nat off) (Z.to_nat n) d) else fault
  | None => fault
  end.

Definition read_window (page_off left : Z) : Z :=
  if 4 * 4096 <=? left then
    let window := u32 ((page_off + left + 4095) / 4096) in
    if PageCache.PAGE_CACHE_RA_MAX_PAGES <? window then PageCache.PAGE_CACHE_RA_MAX_PAGES else window
  else 1.

(** The bytes at [pos] of a transfer that lie in one page. *)
Definition chunk_at (pos left : Z) : Z :=
  let chunk := 4096 - pos mod 4096 in if left <? chunk then left else chunk.

(** The buffer is the list of the bytes stored in it so far. *)
Fixpoint read_loop (rounds fuel : nat) (ip offset count nread : Z) (buf : list Z) : act (cache F) (Z * list Z) :=
  if count <=? nread then mret (s32 nread, buf)
  else
    match rounds with
    | O => Spin
    | S rounds' =>
        let pos := u64 (offset + nread) in
        let page_idx := pos / 4096 in
        let page_off := pos mod 4096 in
        let chunk := chunk_at pos (count - nread) in
        r ← page_cache_get_ra fuel ip page_idx (read_window page_off (count - nread)) PAGE_CACHE_RA_READ;
        let '(rc, cp) := r in
        if negb (rc =? 0) then mret (if nread =? 0 then rc else s32 nread, buf)
        else
          match cp with
          | None => atomic fault
          | Some p =>
              d ← atomic (copy_out p page_off chunk);
              page_cache_release p ;;
              read_loop rounds' fuel ip offset count (nread + chunk) (buf ++ d)
          end
    end.

Definition fat32_read (fuel : nat) (ip offset count : Z) : act (cache F) (Z * list Z) :=
  i ← atomic (get_inode ip);
  if i_size i <=? offset then mret (0, [])
  else
    let avail := i_size i - offset in
    let count' := if avail <? count then avail else count in
    read_loop (S (S (Z.to_nat (count' / 4096)))) fuel ip offset count' 0 [].
End read.

(** ** Bytes of a file *)

(** The byte at [x], when the pages are [w]. *)
Definition byte_of (w : Z -> list Z) (x : Z) : Z := default 0 (w (x / 4096) !! Z.to_nat (x mod 4096)).

Definition bytes_of (w : Z -> list Z) (x n : Z) : list Z := byte_of w <$> seqZ x n.

Lemma chunk_bound pos left : 0 < left -> 0 < chunk_at pos left <= left /\ pos mod 4096 + chunk_at pos left <= 4096 /\
  (chunk_at pos left < left -> (pos + chunk_at pos left) mod 4096 = 0 /\ (pos + chunk_at pos left) / 4096 = pos / 4096 + 1).
Proof.
  intros Hl. unfold chunk_at. pose proof (Z.mod_pos_bound pos 4096 ltac:(lia)). destruct (Z.ltb_spec left (4096 - pos mod 4096)); split_and!; try lia.
  intros _. replace (pos + (4096 - pos mod 4096)) with ((pos / 4096 + 1) * 4096) by (Z.to_euclidean_division_equations; lia).
  by rewrite Z.mod_mul, Z.div_mul.
Qed.

Lemma bytes_of_page w pos n : 0 <= pos -> 0 <= n -> pos mod 4096 + n <= 4096 -> length (w (pos / 4096)) = 4096%nat ->
  slice (Z.to_nat (pos mod 4096)) (Z.to_nat n) (w (pos / 4096)) = bytes_of w pos n.
Proof.
  intros Hp Hn Hm Hl. pose proof (Z.mod_pos_bound pos 4096 ltac:(lia)) as Hb. apply list_eq_same_length with (n := Z.to_nat n).
  - unfold bytes_of. by rewrite length_fmap, length_seqZ.
  - rewrite length_slice; lia.
  - intros i x y Hi Hx Hy. unfold bytes_of in Hy. rewrite list_lookup_fmap, lookup_seqZ_lt in Hy by lia. injection Hy as <-.
    rewrite lookup_slice in Hx by done. unfold byte_of.
    assert (Hd : (pos + Z.of_nat i) / 4096 = pos / 4096 /\ (pos + Z.of_nat i) mod 4096 = pos mod 4096 + Z.of_nat i)
      by (Z.to_euclidean_division_equations; lia).
    destruct Hd as [-> ->]. replace (Z.to_nat (pos mod 4096 + Z.of_nat i)) with (Z.to_nat (pos mod 4096) + i)%nat by lia. by rewrite Hx.
Qed.

Lemma bytes_of_app w x n m : 0 <= n -> 0 <= m -> bytes_of w x (n + m) = bytes_of w x n ++ bytes_of w (x + n) m.
Proof. intros Hn Hm. unfold bytes_of. by rewrite seqZ_app, fmap_app by lia. Qed.

Section read_ok.
Context {F : Type} `{!HasInodes F} `{!HasPages F} `{!FileSystem F true}.
Implicit Types (s : cache F) (h : gmultiset tok).

Lemma read_window_pos page_off left : 0 <= page_off -> left < 2 ^ 40 -> page_off < 4096 -> 0 < read_window page_off left.
Proof.
  intros H0 H1 H2. unfold read_window, PageCache.PAGE_CACHE_RA_MAX_PAGES. destruct (Z.leb_spec (4 * 4096) left); [| lia].
  assert (Hq : 4 <= (page_off + left + 4095) / 4096 < 2 ^ 32) by (Z.to_euclidean_division_equations; lia).
  rewrite u32_small by lia. destruct (_ <? _); lia.
Qed.

Lemma copy_out_ok p cp d pos n s : pages s !! p = Some cp -> cp_data cp = Some d -> length d = 4096%nat ->
  pos mod 4096 + n <= 4096 -> copy_out p (pos mod 4096) n s = Some (slice (Z.to_nat (pos mod 4096)) (Z.to_nat n) d, s).
Proof.
  intros Hp Hd Hl Hn. unfold copy_out, mbind, prog_bind, getp. rewrite Hp, Hd, Hl.
  change (Z.of_nat 4096) with 4096. by replace (pos mod 4096 + n <=? 4096) with true by lia.
Qed.

(** The pages that hold the bytes from [x] on, [n] of them, can be read. *)
Definition pages_ok s (ip x n : Z) : Prop := forall idx, x / 4096 <= idx <= (x + n - 1) / 4096 ->
  readable ip idx /\ length (written s ip idx) = 4096%nat.

Lemma read_loop_ok fuel ip offset count h q : ip <> 0 -> 0 <= offset -> offset + count < 2 ^ 40 -> unfilled h -> pins q h = 0%nat ->
  forall rounds nread buf s, ready s h -> spare s h q -> pages_ok s ip offset count -> 0 <= nread <= count ->
  (nread < count -> (offset + count - 1) / 4096 - (offset + nread) / 4096 < Z.of_nat rounds) ->
  exists s', exec (read_loop rounds fuel ip offset count nread buf) s =
      Returns (s32 count, buf ++ bytes_of (written s ip) (offset + nread) (count - nread)) s' /\
    ready s' h /\ spare s' h q /\ calm s s' /\ written s' = written s.
Proof.
  intros Hip Hoff Hsize Hu Hq. induction rounds as [| rounds IH]; intros nread buf s Hrd Hsp Hok Hn Hrounds.
  all: cbn [read_loop]; destruct (Z.leb_spec count nread) as [Hle | Hlt].
  1, 3: assert (nread = count) as -> by lia; exists s; rewrite Z.sub_diag; unfold bytes_of; rewrite app_nil_r;
    split_and!; [done | done | done | apply fr_refl | done].
  { specialize (Hrounds Hlt). exfalso. assert ((offset + nread) / 4096 <= (offset + count - 1) / 4096) by (apply Z.div_le_mono; lia). lia. }
  rewrite u64_small by lia. cbv zeta. remember (offset + nread) as pos eqn:Hpos.
  destruct (chunk_bound pos (count - nread) ltac:(lia)) as (Hc1 & Hc2 & Hc3).
  set (chunk := chunk_at pos (count - nread)) in *. pose proof (Z.mod_pos_bound pos 4096 ltac:(lia)) as Hm.
  assert (Hidx : offset / 4096 <= pos / 4096 <= (offset + count - 1) / 4096) by (split; apply Z.div_le_mono; lia).
  destruct (Hok _ Hidx) as [Hr Hl].
  assert (Hir : 0 <= pos / 4096 < 2 ^ 64) by (split; [apply Z.div_pos; lia | apply Z.div_lt_upper_bound; lia]).
  destruct (get_ready fuel ip (pos / 4096) (read_window (pos mod 4096) (count - nread)) PAGE_CACHE_RA_READ s h Hrd
    (spare_room _ _ _ Hrd Hsp) Hr Hir Hip (read_window_pos (pos mod 4096) (count - nread) ltac:(lia) ltac:(lia) ltac:(lia)) eq_refl)
    as (p & cp & s1 & He1 & Hrd1 & Hca1 & Hw1 & Hp & Hh & Hd).
  rewrite exec_bind, He1. cbn [negb Z.eqb].
  rewrite (exec_atomic_bind _ _ _ _ _ (copy_out_ok p cp _ pos chunk s1 Hp Hd Hl Hc2)), exec_bind.
  destruct (release_ready p (ip, pos / 4096) s1 h Hrd1 Hu) as (s2 & He2 & Hrd2 & Hca2 & Hw2). rewrite He2.
  rewrite (bytes_of_page (written s ip) pos chunk) by (done || lia).
  pose proof (fr_trans _ _ _ Hca1 Hca2) as Hca. assert (Hw : written s2 = written s) by congruence.
  assert (Hsp2 : spare s2 h q).
  { destruct Hsp as (_ & cq & Hcq & Hdq). split; [done |]. by eapply calm_dirty. }
  destruct (IH (nread + chunk) (buf ++ bytes_of (written s ip) pos chunk) s2 Hrd2 Hsp2) as (s3 & He3 & Hrd3 & Hsp3 & Hca3 & Hw3).
  - unfold pages_ok. by rewrite Hw.
  - lia.
  - intros Hlt'. destruct (Hc3 ltac:(lia)) as [_ Hnext]. replace (offset + (nread + chunk)) with (pos + chunk) by lia. rewrite Hnext.
    specialize (Hrounds Hlt). lia.
  - exists s3. rewrite He3, Hw, <- app_assoc. split; [| split_and!; [done | done | by eapply fr_trans | congruence]].
    do 2 f_equal. f_equal. replace (count - nread) with (chunk + (count - (nread + chunk))) by lia.
    rewrite bytes_of_app by lia. do 2 f_equal. lia.
Qed.

Lemma fat32_read_ok fuel ip offset count s h q i : ready s h -> spare s h q -> inode_at (fs s) ip = Some i -> i_size i < 2 ^ 40 ->
  ip <> 0 -> 0 <= offset -> 0 <= count -> pages_ok s ip 0 (i_size i) ->
  let n := Z.max 0 (Z.min count (i_size i - offset)) in
  exists s', exec (fat32_read fuel ip offset count) s = Returns (s32 n, bytes_of (written s ip) offset n) s' /\
    ready s' h /\ spare s' h q /\ calm s s' /\ written s' = written s.
Proof.
  intros Hrd Hsp Hi Hsz Hip Hoff Hcnt Hok n. unfold fat32_read.
  erewrite exec_atomic_bind; [| unfold get_inode; rewrite Hi; reflexivity].
  destruct (Z.leb_spec (i_size i) offset) as [Hle | Hlt].
  { assert (n = 0) as -> by lia. exists s. split_and!; [done | done | done | apply fr_refl | done]. }
  assert (Hn : (if i_size i - offset <? count then i_size i - offset else count) = n) by (destruct (Z.ltb_spec (i_size i - offset) count); lia).
  rewrite Hn. assert (Hn' : 0 <= n <= i_size i - offset) by lia. clearbody n. clear Hn Hcnt.
  destruct (read_loop_ok fuel ip offset n h q Hip Hoff ltac:(lia) (rd_unfilled _ _ Hrd) (proj1 Hsp) (S (S (Z.to_nat (n / 4096)))) 0 [] s Hrd Hsp)
    as (s' & He & H1 & H2 & H3 & H4).
  - intros idx Hidx. apply Hok. change (0 / 4096) with 0. assert (0 <= offset / 4096) by (apply Z.div_pos; lia).
    assert ((offset + n - 1) / 4096 <= (0 + i_size i - 1) / 4096) by (apply Z.div_le_mono; lia). lia.
  - lia.
  - intros Hpos. rewrite !Nat2Z.inj_succ, Z2Nat.id by (apply Z.div_pos; lia).
    clear -Hoff Hpos. Z.to_euclidean_division_equations. lia.
  - exists s'. rewrite Z.add_0_r, Z.sub_0_r in He. cbn [app] in He. by split_and!.
Qed.
End read_ok.
