(* ===== verification/FatWrite.v ===== *)
(** * FAT32: writing a file (kernel/bsd/fat32.c)

    [fat32_write], as a thread over PageCache and FatFile: it makes sure that
    the clusters exist, stores into the pages of the file in the page cache,
    and writes them back in batches of sixteen.  [i_lock] of the inode, which
    keeps writers of a file apart, is not modelled: the theorems are about
    calls of one thread.  They show that a sequence of reads, and of writes
    that stay inside the file, does what it would do on an array of bytes, and
    that each write is on the disk when it returns. *)

From Stdlib Require Import ZArith Lia List.
From stdpp Require Import base list gmap gmultiset relations functions.
From S2P Require Import Prelude Block Fat FatChain FatFile Threads PageCache PageCacheInv PageCacheSafe PageCacheUse PageCacheFrame PageCacheAlone PageCacheSeq FatPages FatIo.

Local Open Scope Z_scope.

(** ** The operation *)

Section write.
Context (g : geometry) (stats : Z -> Z -> fstate -> read_stats) (ino : Z).
#[local] Hint Extern 0 (HasInodes fstate) => exact (fat32_inodes g stats ino) : typeclass_instances.

(** [FAT_I(ip)->start_cluster] and a walk from it. *)
Definition start_of : prog (cache fstate) Z := on_fs (fun s => Some (start_cluster (info s), s)).
Definition walk_from (start chain_index : Z) : prog (cache fstate) Z := on_fs (on_vol (fat32_walk_chain g start chain_index)).

(** New clusters for the chain, under [fat_lock]: the last of them, or an
    error. *)
Definition extend_chain (need append_tail : Z) : fp (Z + Z) :=
  s ← get;
  r ← on_vol (fat32_allocate_detached g need);
  match r with
  | inl rc => mret (inl rc)
  | inr (detached_start, detached_tail) =>
      lrc ← (if negb (start_cluster (info s) =? 0) then on_vol (fat32_link_cluster g append_tail detached_start) else mret 0);
      if negb (lrc =? 0) then
        _ ← on_vol (fat32_free_chain g detached_start);
        mret (inl (- EIO))
      else
        _ ← (if start_cluster (info s) =? 0 then FatFile.modify (fun s => set_info (set_start detached_start (info s)) s) else mret ());
        mret (inr detached_tail)
  end.

(** The page cache's part of [fat32_invalidate_pages] is last. *)
Definition invalidate_file : act (cache fstate) unit :=
  atomic (on_fs fat32_invalidate_pages) ;; page_cache_invalidate_inode ino.

Inductive extended :=
| Extended (append_tail : Z)
| NoSpace (rc : Z)
| BrokenChain.

(** The clusters from [chain_index] on, [n] of them. *)
Fixpoint ensure_clusters (n : nat) (chain_index last_chain append_tail : Z) : act (cache fstate) extended :=
  match n with
  | O => mret (Extended append_tail)
  | S n' =>
      start ← atomic start_of;
      existing ← atomic (walk_from start chain_index);
      if is_data_cluster existing then ensure_clusters n' (chain_index + 1) last_chain append_tail
      else
        tail ← (if negb (start =? 0) && (append_tail =? 0) && negb (chain_index =? 0)
                then atomic (walk_from start (chain_index - 1)) else mret append_tail);
        if negb (start =? 0) && negb (is_data_cluster tail) then mret BrokenChain
        else
          r ← atomic (on_fs (extend_chain (u32 (last_chain - chain_index + 1)) tail));
          match r with
          | inl rc => mret (NoSpace rc)
          | inr detached_tail => invalidate_file ;; mret (Extended detached_tail)
          end
  end.

(** [if (pending_end > ip->size) ip->size = pending_end;] *)
Definition grow_size (pending_end : Z) : fp () :=
  FatFile.modify (fun s => if fsize s <? pending_end then set_fsize pending_end s else s).

(** The local variables of [fat32_write]. *)
Record transfer := Transfer {
  t_written : Z; t_durable : Z; t_pages : list nat; t_tail : Z; t_writeback_error : Z; t_operation_error : Z }.

(** Writing back the pages of the batch. *)
Definition write_batch (t : transfer) : act (cache fstate) transfer :=
  rc ← page_cache_writeback_pages (Some <$> t_pages t);
  release_pages (t_pages t) ;;
  mret (Transfer (t_written t) (if rc =? 0 then t_written t else t_durable t) [] (t_tail t) rc (t_operation_error t)).

(** The loop over the pages: the variables at its end, or the value of the
    early return. *)
Fixpoint write_loop (rounds fuel : nat) (offset count : Z) (buf : list Z) (t : transfer) : act (cache fstate) (Z + transfer) :=
  if count <=? t_written t then mret (inr t)
  else
    match rounds with
    | O => Spin
    | S rounds' =>
        let write_start := u64 (offset + t_written t) in
        let page_idx := write_start / 4096 in
        let page_off := write_start mod 4096 in
        let chunk := chunk_at write_start (count - t_written t) in
        let write_end := u64 (write_start + chunk - 1) in
        let first_chain := u32 (write_start / bytes_per_cluster g) in
        let last_chain := u32 (write_end / bytes_per_cluster g) in
        x ← ensure_clusters (Z.to_nat (last_chain - first_chain + 1)) first_chain last_chain (t_tail t);
        match x with
        | BrokenChain => mret (inl (if t_written t =? 0 then - EIO else s32 (t_written t)))
        | NoSpace rc => mret (inr (Transfer (t_written t) (t_durable t) (t_pages t) (t_tail t) (t_writeback_error t) rc))
        | Extended tail =>
            cp ← page_cache_fill fuel ino page_idx;
            match cp with
            | None => mret (inr (Transfer (t_written t) (t_durable t) (t_pages t) tail (t_writeback_error t) (- EIO)))
            | Some p =>
                atomic (store_page p (Z.to_nat page_off) (slice (Z.to_nat (t_written t)) (Z.to_nat chunk) buf)) ;;
                page_cache_mark_dirty p ;;
                let written' := t_written t + chunk in
                atomic (on_fs (grow_size (u64 (offset + written')))) ;;
                let t' := Transfer written' (t_durable t) (t_pages t ++ [p]) tail (t_writeback_error t) (t_operation_error t) in
                if (length (t_pages t') =? 16)%nat || (written' =? count) then
                  t2 ← write_batch t';
                  if negb (t_writeback_error t2 =? 0) then mret (inr t2) else write_loop rounds' fuel offset count buf t2
                else write_loop rounds' fuel offset count buf t'
            end
        end
    end.

(** After the loop: the rest of the batch, the size and the directory entry. *)
Definition finish_size (original_size final_size : Z) (writeback_failed : bool) : fp () :=
  _ ← (if writeback_failed then FatFile.modify (set_fsize final_size) else mret ());
  if negb (final_size =? original_size) then
    _ ← FatFile.modify (set_fsize final_size);
    s ← get;
    if 2 <=? dir_start_cluster (info s)
    then _ ← fat32_update_dir_entry g (dir_start_cluster (info s)) (dir_entry_index (info s)) (start_cluster (info s)) (u32 (fsize s));
         mret ()
    else mret ()
  else mret ().

Definition write_finish (original_size offset : Z) (t : transfer) : act (cache fstate) Z :=
  t' ← (match t_pages t with [] => mret t | _ => write_batch t end);
  let failed := negb (t_writeback_error t' =? 0) in
  let written' := if failed then t_durable t' else t_written t' in
  let operation_error := if failed then t_writeback_error t' else t_operation_error t' in
  let new_end := u64 (offset + written') in
  let final_size := if original_size <? new_end then new_end else original_size in
  atomic (on_fs (finish_size original_size final_size failed)) ;;
  mret (if written' =? 0 then operation_error else s32 written').

(** [append] is [ip->mode & O_APPEND]; [count] is the length of the buffer. *)
Definition fat32_write (fuel : nat) (append : bool) (offset : Z) (buf : list Z) : act (cache fstate) Z :=
  original_size ← atomic (on_fs (fun s => Some (fsize s, s)));
  let offset' := if append then original_size else offset in
  let count := Z.of_nat (length buf) in
  r ← write_loop (S (S (Z.to_nat (count / 4096)))) fuel offset' count buf (Transfer 0 0 [] 0 0 0);
  match r with
  | inl rc => mret rc
  | inr t => write_finish original_size offset' t
  end.
End write.

(** ** Sequences of calls

    One thread that reads and writes the file, and the same on an array of
    bytes. *)

Inductive io :=
| IoRead (offset count : Z)
| IoWrite (offset : Z) (buf : list Z).

Definition io_call (g : geometry) stats (ino : Z) (fuel : nat) (o : io) : act (cache fstate) (Z * list Z) :=
  match o with
  | IoRead offset count => fat32_read (HasInodes0 := fat32_inodes g stats ino) fuel ino offset count
  | IoWrite offset buf => rc ← fat32_write g stats ino fuel false offset buf; mret (rc, [])
  end.

Fixpoint io_calls (g : geometry) stats (ino : Z) (fuel : nat) (ops : list io) : act (cache fstate) (list (Z * list Z)) :=
  match ops with
  | [] => mret []
  | o :: ops' => r ← io_call g stats ino fuel o; rs ← io_calls g stats ino fuel ops'; mret (r :: rs)
  end.

Definition array_call (o : io) (data : list Z) : (Z * list Z) * list Z :=
  match o with
  | IoRead offset count =>
      let n := Z.max 0 (Z.min count (Z.of_nat (length data) - offset)) in
      ((s32 n, slice (Z.to_nat offset) (Z.to_nat n) data), data)
  | IoWrite offset buf => ((s32 (Z.of_nat (length buf)), []), splice (Z.to_nat offset) buf data)
  end.

Fixpoint array_calls (ops : list io) (data : list Z) : list (Z * list Z) * list Z :=
  match ops with
  | [] => ([], data)
  | o :: ops' => let '(r, data1) := array_call o data in let '(rs, data2) := array_calls ops' data1 in (r :: rs, data2)
  end.

(** Reads may go past the end of the file, writes stay inside it. *)
Definition io_ok (size : Z) (o : io) : Prop :=
  match o with
  | IoRead offset count => 0 <= offset /\ 0 <= count
  | IoWrite offset buf => 0 <= offset /\ offset + Z.of_nat (length buf) <= size /\ Forall is_byte buf
  end.

(** ** Bytes and pages *)

(** The number of pages that hold the bytes from [pos] up to [stop]. *)
Definition page_count (pos stop : Z) : nat := if stop <=? pos then 0%nat else Z.to_nat ((stop - 1) / 4096 - pos / 4096 + 1).

Lemma page_count_step pos stop : pos < stop ->
  page_count pos stop = S (page_count (pos + chunk_at pos (stop - pos)) stop).
Proof.
  intros Hlt. destruct (chunk_bound pos (stop - pos) ltac:(lia)) as (Hc1 & _ & Hc3). unfold page_count.
  replace (stop <=? pos) with false by lia. assert (pos / 4096 <= (stop - 1) / 4096) by (apply Z.div_le_mono; lia).
  destruct (Z.leb_spec stop (pos + chunk_at pos (stop - pos))) as [Hle | Hgt].
  - assert ((stop - 1) / 4096 = pos / 4096); [| lia]. unfold chunk_at in *. clear -Hlt Hle.
    destruct (Z.ltb_spec (stop - pos) (4096 - pos mod 4096)); Z.to_euclidean_division_equations; lia.
  - destruct (Hc3 ltac:(lia)) as [_ Hd]. rewrite Hd.
    assert (pos / 4096 + 1 <= (stop - 1) / 4096) by (rewrite <- Hd; apply Z.div_le_mono; lia). lia.
Qed.

(** The pages that a sequence of calls makes dirty. *)
Fixpoint io_pages (ops : list io) : nat :=
  match ops with
  | [] => 0
  | IoRead _ _ :: ops' => io_pages ops'
  | IoWrite offset buf :: ops' => page_count offset (offset + Z.of_nat (length buf)) + io_pages ops'
  end.

Lemma byte_stored (w : Z -> Z -> list Z) ip pos d x : 0 <= pos -> 0 <= x -> length (w ip (pos / 4096)) = 4096%nat ->
  pos mod 4096 + Z.of_nat (length d) <= 4096 ->
  byte_of (stored ip (pos / 4096) (splice (Z.to_nat (pos mod 4096)) d (w ip (pos / 4096))) w ip) x =
  if decide (pos <= x < pos + Z.of_nat (length d)) then default 0 (d !! Z.to_nat (x - pos)) else byte_of (w ip) x.
Proof.
  intros Hp Hx Hl Hd. pose proof (Z.mod_pos_bound pos 4096 ltac:(lia)) as Hm. pose proof (Z.mod_pos_bound x 4096 ltac:(lia)) as Hmx.
  unfold byte_of, stored. case_bool_decide as Hk.
  - injection Hk as Hk. rewrite lookup_splice by lia.
    assert (Hxp : x - pos = x mod 4096 - pos mod 4096) by (rewrite (Z.div_mod x 4096), (Z.div_mod pos 4096) at 1 by lia; lia).
    case_decide as Hc1; case_decide as Hc2; try lia; [| by rewrite <- Hk]. do 2 f_equal. lia.
  - rewrite decide_False; [done |]. intros Hr. apply Hk. f_equal.
    Z.to_euclidean_division_equations. lia.
Qed.

(** The end of a write with no page left to be written back. *)
Lemma write_finish_clean g stats ino original_size offset t (s s' : cache fstate) : t_pages t = [] ->
  t_writeback_error t = 0 -> t_operation_error t = 0 ->
  let new_end := u64 (offset + t_written t) in
  on_fs (finish_size g original_size (if original_size <? new_end then new_end else original_size) false) s = Some (tt, s') ->
  exec (write_finish g stats ino original_size offset t) s = Returns (s32 (t_written t)) s'.
Proof.
  intros Hp Hw Ho new_end Hf. unfold write_finish. rewrite Hp, exec_bind. change (exec (mret t) s) with (Returns t s). cbv beta iota zeta.
  rewrite Hw. cbn [Z.eqb negb]. fold new_end. rewrite (exec_atomic_bind _ _ _ _ _ Hf).
  destruct (Z.eqb_spec (t_written t) 0) as [-> | _]; [by rewrite Ho | done].
Qed.

Lemma set_fs_id {F} (s : cache F) : set_fs (fs s) s = s.
Proof. by destruct s. Qed.

(** ** Writing inside the file *)

Section in_place.
Context (g : geometry) (stats : Z -> Z -> fstate -> read_stats) (ino : Z).
Context (f : Z -> Z) (l : list Z) (size : Z).
Hypothesis Hg : geom_ok g.
Hypothesis Hcov : covered g l size.
Hypothesis Hsize : size < 2 ^ 32.
Hypothesis Hino : ino <> 0.

#[local] Hint Extern 0 (HasInodes fstate) => exact (fat32_inodes g stats ino) : typeclass_instances.
#[local] Hint Extern 0 (HasPages fstate) => exact (fat32_pages ino) : typeclass_instances.
#[local] Hint Extern 0 (FileSystem fstate true) => exact (fat32_fs g stats ino f l size Hg Hcov Hsize) : typeclass_instances.
Implicit Types (s : cache fstate) (tbl : list (nat * Z)).

Lemma chain_index_bound x : 0 <= x < size -> 0 <= x / bytes_per_cluster g < Z.of_nat (length l) /\ x / bytes_per_cluster g < 2 ^ 32.
Proof.
  intros Hx. rewrite (bytes_per_cluster_eq g Hg). pose proof (go_spc g Hg) as Hspc. unfold covered, file_sectors in Hcov.
  split; [split; [apply Z.div_pos; lia | apply Z.div_lt_upper_bound; nia] | apply Z.div_lt_upper_bound; nia].
Qed.

Lemma page_in_file pos : 0 <= pos < size -> readable (F := fstate) ino (pos / 4096) /\ 0 <= pos / 4096 < 2 ^ 64.
Proof.
  intros Hp. assert (0 <= pos / 4096 < 2 ^ 32) by (split; [apply Z.div_pos; lia | apply Z.div_lt_upper_bound; lia]).
  split; [split; [done |] | lia]. unfold page_range, UINT64_MAX, PAGE_SIZE. change ((2 ^ 64 - 1) / 4096) with (2 ^ 52 - 1). lia.
Qed.

Lemma chunk_room pos n : 0 <= pos -> 0 < n -> pos + n <= size -> pos mod 4096 + n <= 4096 ->
  pos mod 4096 + n <= Z.of_nat (page_room size (pos / 4096)).
Proof.
  intros Hp Hn Hs Hm. unfold page_room, page_span, span_sectors, PAGE_SIZE. pose proof (Z.mod_pos_bound pos 4096 ltac:(lia)).
  pose proof (Z.div_mod pos 4096 ltac:(lia)). replace (size <=? pos / 4096 * 4096) with false by lia.
  remember (Z.min (size - pos / 4096 * 4096) 4096) as m eqn:Em. assert (pos mod 4096 + n <= m) by lia. clear Em.
  assert (m <= (m + 511) / 512 * 512) by (Z.to_euclidean_division_equations; lia). rewrite Z2Nat.id; lia.
Qed.

(** Inside the file every cluster is there. *)
Lemma walk_in_place fs0 ci : fat_ok g f l size fs0 -> 0 <= ci < Z.of_nat (length l) -> ci < 2 ^ 32 ->
  exists c fs1, on_vol (fat32_walk_chain g (start_cluster (info fs0)) ci) fs0 = Some (c, fs1) /\ is_data_cluster c = true /\
    fat_ok g f l size fs1 /\ psec g (vol fs1) = psec g (vol fs0).
Proof.
  intros [Hok Hsz] Hci Hci'. destruct (walks_agree g f _ l fs0 ci Hg Hok ltac:(lia)) as (v1 & _ & _ & Hw & Hsm & _).
  destruct (lookup_lt_is_Some_2 l (Z.to_nat ci)) as [c Hc]; [lia |].
  exists c, (FState (info fs0) (fsize fs0) v1 (mem fs0)). unfold on_vol. rewrite Hw. unfold chain_at. rewrite Hc.
  assert (Hk : psec g v1 = psec g (vol fs0)) by (unfold psec; destruct Hsm as [-> _]; done).
  split; [done |]. split; [by apply (chain_next g Hg f l _ c (fo_chain _ _ _ _ (proj2 Hok))) in Hc as [?%(is_data_cluster_true g Hg) _] |].
  split; [| done]. split; [| done]. destruct Hok as [Hst Hf]. split; [| done]. cbn. rewrite Hk. by eapply st_same.
Qed.

Lemma batch_fat s tbl n : batch s ino tbl n -> fat_ok g f l size (fs s).
Proof. intros Hb. exact (proj1 (proj2 (rd_inv _ _ (bt_ready _ _ _ _ Hb)))). Qed.

Lemma ensure_in_place tbl k last tail n : forall ci s, batch s ino tbl k -> 0 <= ci -> ci + Z.of_nat n <= Z.of_nat (length l) ->
  ci + Z.of_nat n <= 2 ^ 32 ->
  exists f', exec (ensure_clusters g ino n ci last tail) s = Returns (Extended tail) (set_fs f' s) /\ batch (set_fs f' s) ino tbl k.
Proof.
  induction n as [| n IH]; intros ci s Hb Hci Hl Hm; cbn [ensure_clusters].
  { exists (fs s). by rewrite set_fs_id. }
  erewrite exec_atomic_bind; [| reflexivity]. rewrite set_fs_id.
  destruct (walk_in_place (fs s) ci (batch_fat _ _ _ Hb) ltac:(lia) ltac:(lia)) as (c & f1 & Hw & Hd & Hf1 & Hp).
  erewrite exec_atomic_bind; [| unfold walk_from, on_fs; rewrite Hw; reflexivity]. rewrite Hd.
  assert (Hb1 : batch (set_fs f1 s) ino tbl k).
  { apply batch_fs; [done | exact (fat_keeps g stats ino f l size (fs s) f1 Hf1) |]. intros ip idx. exact (fat_disk_psec g ino l size _ _ ip idx Hp). }
  destruct (IH (ci + 1) (set_fs f1 s) Hb1 ltac:(lia) ltac:(lia) ltac:(lia)) as (f2 & He & Hb2). by exists f2.
Qed.

(** One page of a write. *)
Lemma write_page_ok fuel s tbl k pos d : batch s ino tbl (S k) -> (length tbl < length (pages s))%nat -> pos / 4096 ∉ tbl.*2 ->
  0 <= pos -> d <> [] -> pos + Z.of_nat (length d) <= size -> pos mod 4096 + Z.of_nat (length d) <= 4096 -> Forall is_byte d ->
  exists p s1 s2 s3, exec (page_cache_fill fuel ino (pos / 4096)) s = Returns (Some p) s1 /\
    store_page p (Z.to_nat (pos mod 4096)) d s1 = Some (tt, s2) /\ exec (page_cache_mark_dirty p) s2 = Returns tt s3 /\
    batch s3 ino (tbl ++ [(p, pos / 4096)]) k /\ length (pages s3) = length (pages s) /\
    forall x, 0 <= x -> byte_of (written s3 ino) x =
      if decide (pos <= x < pos + Z.of_nat (length d)) then default 0 (d !! Z.to_nat (x - pos)) else byte_of (written s ino) x.
Proof.
  intros Hb Hl Hn Hp Hd Hs Hm Hby. assert (Hdl : (0 < length d)%nat) by (destruct d; [done | cbn; lia]).
  destruct (page_in_file pos ltac:(lia)) as [Hr Hi]. pose proof (Z.mod_pos_bound pos 4096 ltac:(lia)) as Hmb.
  destruct (batch_fill fuel s ino tbl (S k) (pos / 4096) Hb Hl Hn Hr Hi Hino) as (p & s1 & He1 & Hb1 & Hl1 & Hw1).
  assert (Hso : store_ok (F := fstate) (coh := true) (Z.to_nat (pos mod 4096)) d (ino, pos / 4096)).
  { pose proof (chunk_room pos (Z.of_nat (length d)) Hp ltac:(lia) Hs Hm). apply fat_store_ok; [lia | lia | done]. }
  destruct (batch_store s1 ino tbl k p (pos / 4096) _ d Hb1 Hso) as (s2 & s3 & He2 & He3 & Hb3 & Hl3 & _ & Hw3).
  exists p, s1, s2, s3. split_and!; [done | done | done | done | congruence |]. intros x Hx. rewrite Hw3, Hw1.
  apply byte_stored; [done | done | | done].
  destruct (rd_inv _ _ (bt_ready _ _ _ _ Hb)) as (_ & _ & _ & Hfit). by apply (Hfit eq_refl ino (pos / 4096) Hr).
Qed.

(** The clusters of one page of a write. *)
Lemma write_clusters_ok s tbl k pos n tail : batch s ino tbl k -> 0 <= pos -> 0 < n -> pos + n <= size ->
  let first := pos / bytes_per_cluster g in
  let last := (pos + n - 1) / bytes_per_cluster g in
  u32 first = first /\ u32 last = last /\
  exists f', exec (ensure_clusters g ino (Z.to_nat (last - first + 1)) first last tail) s = Returns (Extended tail) (set_fs f' s) /\
    batch (set_fs f' s) ino tbl k.
Proof.
  intros Hb Hp Hn Hs first last. destruct (chain_index_bound pos ltac:(lia)) as [Hf1 Hf2].
  destruct (chain_index_bound (pos + n - 1) ltac:(lia)) as [Hl1 Hl2]. fold first in Hf1, Hf2. fold last in Hl1, Hl2.
  assert (first <= last).
  { apply Z.div_le_mono; [rewrite (bytes_per_cluster_eq g Hg); pose proof (go_spc g Hg); lia | lia]. }
  split; [apply u32_small; lia |]. split; [apply u32_small; lia |]. apply ensure_in_place; [done | lia | lia | lia].
Qed.

Lemma write_batch_ok s tbl k t : batch s ino tbl k -> tbl <> [] -> (length tbl <= 16)%nat -> t_pages t = tbl.*1 ->
  exists s', exec (write_batch g stats ino t) s =
      Returns (Transfer (t_written t) (t_written t) [] (t_tail t) 0 (t_operation_error t)) s' /\
    batch s' ino [] k /\ length (pages s') = length (pages s) /\ written s' = written s.
Proof.
  intros Hb Hne Hl Ht. unfold write_batch. rewrite Ht.
  destruct (batch_flush s ino tbl k (fat_writes_succeed g stats ino f l size Hg Hcov Hsize) Hb Hne) as (s1 & s2 & He1 & He2 & Hb2 & Hl2 & Hw2).
  { unfold PAGE_CACHE_RA_MAX_PAGES. lia. }
  exists s2. rewrite exec_bind, He1, exec_bind, He2. by split_and!.
Qed.

(** What a write has put in the file: the bytes of [buf] from [pos] up to
    [stop], with [buf] at [offset]. *)
Definition put_bytes (offset pos stop : Z) (buf : list Z) (w w' : Z -> list Z) : Prop := forall x, 0 <= x ->
  byte_of w' x = if decide (pos <= x < stop) then default 0 (buf !! Z.to_nat (x - offset)) else byte_of w x.

Lemma put_bytes_app offset pos mid stop buf w w1 w2 : pos <= mid <= stop ->
  put_bytes offset pos mid buf w w1 -> put_bytes offset mid stop buf w1 w2 -> put_bytes offset pos stop buf w w2.
Proof.
  intros Hm H1 H2 x Hx. rewrite (H2 x Hx), (H1 x Hx). destruct (decide (mid <= x < stop)), (decide (pos <= x < mid)), (decide (pos <= x < stop)); try done; lia.
Qed.

Record loop_inv (offset : Z) (buf : list Z) (k : nat) (t : transfer) tbl s : Prop := {
  li_batch : batch s ino tbl (page_count (offset + t_written t) (offset + Z.of_nat (length buf)) + k);
  li_pages : (16 <= length (pages s))%nat;
  li_table : t_pages t = tbl.*1;
  li_short : (length tbl <= 15)%nat;
  li_before : Forall (fun idx => idx < (offset + t_written t) / 4096) tbl.*2;
  li_written : 0 <= t_written t <= Z.of_nat (length buf);
  li_flushed : t_written t = Z.of_nat (length buf) -> tbl = [];
  li_errors : t_writeback_error t = 0 /\ t_operation_error t = 0 }.

Definition loop_done (offset : Z) (buf : list Z) (k : nat) (w : Z -> list Z) (t : transfer) s : Prop := loop_inv offset buf k t [] s /\ t_written t = Z.of_nat (length buf) /\
  put_bytes offset offset (offset + Z.of_nat (length buf)) buf w (written s ino).

Lemma grow_size_ok s n : fat_ok g f l size (fs s) -> n <= size -> on_fs (grow_size n) s = Some (tt, s).
Proof.
  intros [_ Hs] Hn. unfold on_fs, grow_size, FatFile.modify. rewrite Hs. replace (size <? n) with false by lia. by rewrite set_fs_id.
Qed.

Lemma write_loop_ok fuel offset buf k w : 0 <= offset -> offset + Z.of_nat (length buf) <= size -> Forall is_byte buf ->
  forall rounds t tbl s, loop_inv offset buf k t tbl s -> put_bytes offset offset (offset + t_written t) buf w (written s ino) ->
  (page_count (offset + t_written t) (offset + Z.of_nat (length buf)) <= rounds)%nat ->
  exists t' s', exec (write_loop g stats ino rounds fuel offset (Z.of_nat (length buf)) buf t) s = Returns (inr t') s' /\
    loop_done offset buf k w t' s'.
Proof.
  intros Hoff Hend Hby. set (count := Z.of_nat (length buf)) in *.
  induction rounds as [| rounds IH]; intros t tbl s Hli Hput Hrounds; destruct Hli as [Hb Hpg Htb Hsh Hbf Hw Hfl [Hwe Hoe]];
    fold count in Hb, Hw, Hfl; cbn [write_loop]; destruct (Z.leb_spec count (t_written t)) as [Hle | Hlt].
  1, 3: assert (Hwc : t_written t = count) by lia; specialize (Hfl Hwc) as ->; exists t, s; (split; [done |]);
    split; [by split | split; [done | unfold count in Hwc; by rewrite <- Hwc]].
  { rewrite page_count_step in Hrounds by lia. lia. }
  remember (offset + t_written t) as pos eqn:Hpos. rewrite (u64_small pos) by lia. cbv zeta.
  pose proof (page_count_step pos (offset + count) ltac:(lia)) as Hpc. replace (offset + count - pos) with (count - t_written t) in Hpc by lia.
  destruct (chunk_bound pos (count - t_written t) ltac:(lia)) as (Hc1 & Hc2 & Hc3).
  remember (chunk_at pos (count - t_written t)) as chunk eqn:Hchunk. clear Hchunk.
  rewrite (u64_small (pos + chunk - 1)) by lia.
  destruct (write_clusters_ok s tbl _ pos chunk (t_tail t) Hb ltac:(lia) ltac:(lia) ltac:(lia)) as (-> & -> & f' & He0 & Hb0).
  rewrite exec_bind, He0. set (d := slice (Z.to_nat (t_written t)) (Z.to_nat chunk) buf).
  assert (Hd : Z.of_nat (length d) = chunk) by (unfold d; rewrite length_slice; lia). rewrite Hpc in Hb0. cbn [Nat.add] in Hb0.
  destruct (write_page_ok fuel (set_fs f' s) tbl _ pos d Hb0) as (p & s1 & s2 & s3 & He1 & He2 & He3 & Hb3 & Hl3 & Hw3); try (cbn; lia).
  { intros Hin. rewrite Forall_forall in Hbf. specialize (Hbf _ Hin). lia. }
  { intros Hnil. rewrite Hnil in Hd. cbn in Hd. lia. }
  { by apply Forall_take, Forall_drop. }
  rewrite exec_bind, He1, (exec_atomic_bind _ _ _ _ _ He2), exec_bind, He3. cbn [pages set_fs] in Hl3.
  assert (He4 : on_fs (grow_size (u64 (offset + (t_written t + chunk)))) s3 = Some (tt, s3)).
  { rewrite u64_small by lia. apply grow_size_ok; [by eapply batch_fat | lia]. }
  rewrite (exec_atomic_bind _ _ _ _ _ He4). cbn [t_pages t_written t_writeback_error].
  set (t1 := Transfer (t_written t + chunk) (t_durable t) (t_pages t ++ [p]) (t_tail t) (t_writeback_error t) (t_operation_error t)).
  assert (Hput3 : put_bytes offset offset (offset + t_written t1) buf w (written s3 ino)).
  { eapply put_bytes_app; [| exact Hput |]; [cbn; lia |]. intros x Hx. rewrite (Hw3 x Hx), Hd. cbn [t1 t_written].
    replace (pos + chunk) with (offset + (t_written t + chunk)) by lia. case_decide; [| done].
    unfold d. rewrite lookup_slice by lia. do 2 f_equal. lia. }
  assert (Hpages1 : t_pages t1 = (tbl ++ [(p, pos / 4096)]).*1) by (cbn; rewrite Htb, fmap_app; done).
  replace (pos + chunk) with (offset + t_written t1) in * by (cbn; lia). rewrite Hpc in Hrounds.
  assert (Hrn : (page_count (offset + t_written t1) (offset + count) <= rounds)%nat) by lia.
  change (t_pages t ++ [p]) with (t_pages t1). destruct ((length (t_pages t1) =? 16)%nat || (t_written t + chunk =? count)) eqn:Hfull.
  - destruct (write_batch_ok s3 _ _ t1 Hb3 ltac:(by destruct tbl) ltac:(rewrite length_app; cbn; lia) Hpages1) as (s4 & He5 & Hb4 & Hl4 & Hw4).
    rewrite exec_bind, He5. cbn [t_writeback_error negb Z.eqb]. eapply (IH _ [] s4); [| rewrite Hw4; exact Hput3 | exact Hrn].
    split; cbn [t_written t_pages t_writeback_error t_operation_error t1] in *; try done; try (cbn; lia).
  - apply orb_false_iff in Hfull as [Hn16%Nat.eqb_neq Hnc%Z.eqb_neq]. rewrite Hpages1, length_fmap in Hn16. rewrite length_app in Hn16. cbn in Hn16.
    eapply IH; [| exact Hput3 | exact Hrn].
    split; cbn [t_written t_pages t_writeback_error t_operation_error t1] in *; try done; try lia; [rewrite length_app; cbn; lia | ].
    destruct (Hc3 ltac:(lia)) as [_ Hnext]. rewrite Hnext, fmap_app. apply Forall_app. split; [| repeat constructor; cbn; lia].
    eapply Forall_impl; [exact Hbf |]. cbn. lia.
Qed.

Lemma page_count_rounds offset n : 0 <= offset -> 0 <= n -> (page_count offset (offset + n) <= S (S (Z.to_nat (n / 4096))))%nat.
Proof.
  intros Ho Hn. unfold page_count. destruct (Z.leb_spec (offset + n) offset); [lia |].
  assert (0 <= n / 4096) by (apply Z.div_pos; lia). enough ((offset + n - 1) / 4096 - offset / 4096 + 1 <= n / 4096 + 2) by lia.
  Z.to_euclidean_division_equations. lia.
Qed.

Lemma fat32_write_ok fuel offset buf k s : batch s ino [] (page_count offset (offset + Z.of_nat (length buf)) + k) ->
  (16 <= length (pages s))%nat -> 0 <= offset -> offset + Z.of_nat (length buf) <= size -> Forall is_byte buf ->
  exists s', exec (fat32_write g stats ino fuel false offset buf) s = Returns (s32 (Z.of_nat (length buf))) s' /\
    batch s' ino [] k /\ (16 <= length (pages s'))%nat /\
    put_bytes offset offset (offset + Z.of_nat (length buf)) buf (written s ino) (written s' ino).
Proof.
  intros Hb Hl Ho Hs Hby. unfold fat32_write. erewrite exec_atomic_bind; [| reflexivity]. rewrite set_fs_id.
  rewrite (proj2 (batch_fat _ _ _ Hb)), exec_bind.
  destruct (write_loop_ok fuel offset buf k (written s ino) Ho Hs Hby (S (S (Z.to_nat (Z.of_nat (length buf) / 4096)))) (Transfer 0 0 [] 0 0 0) [] s)
    as (t & s' & He & Hli & Hw & Hput).
  - split; cbn [t_written t_pages t_writeback_error t_operation_error]; try done; try (cbn; lia). by rewrite Z.add_0_r.
  - intros x Hx. cbn [t_written]. rewrite decide_False by lia. done.
  - cbn [t_written]. rewrite Z.add_0_r. apply page_count_rounds; lia.
  - rewrite He. destruct Hli as [Hb' Hl' Ht _ _ _ _ [He1 He2]]. rewrite Hw in Hb'.
    assert (Hz : page_count (offset + Z.of_nat (length buf)) (offset + Z.of_nat (length buf)) = 0%nat) by (unfold page_count; by rewrite Z.leb_refl).
    rewrite Hz in Hb'. exists s'. rewrite <- Hw at 1. split; [| by split_and!]. apply write_finish_clean; [done .. |].
    rewrite Hw, u64_small by lia. replace (size <? _) with false by lia. unfold on_fs, finish_size. rewrite Z.eqb_refl. by destruct s'.
Qed.

(** ** A file as an array of bytes *)

Definition file_bytes (w : Z -> list Z) : list Z := bytes_of w 0 size.

Lemma length_file_bytes w : length (file_bytes w) = Z.to_nat size.
Proof. unfold file_bytes, bytes_of. by rewrite length_fmap, length_seqZ. Qed.

Lemma lookup_file_bytes w i : (i < Z.to_nat size)%nat -> file_bytes w !! i = Some (byte_of w (Z.of_nat i)).
Proof. intros Hi. unfold file_bytes, bytes_of. rewrite list_lookup_fmap, lookup_seqZ_lt by lia. done. Qed.

Lemma file_bytes_slice w offset n : 0 <= offset -> 0 <= n -> offset + n <= size ->
  bytes_of w offset n = slice (Z.to_nat offset) (Z.to_nat n) (file_bytes w).
Proof.
  intros Ho Hn Hs. apply list_eq_same_length with (n := Z.to_nat n).
  - rewrite length_slice; [done |]. rewrite length_file_bytes. lia.
  - unfold bytes_of. by rewrite length_fmap, length_seqZ.
  - intros i x y Hi Hx Hy. rewrite lookup_slice, lookup_file_bytes in Hy by lia. unfold bytes_of in Hx.
    rewrite list_lookup_fmap, lookup_seqZ_lt in Hx by lia. cbn in Hx. simplify_eq. f_equal. lia.
Qed.

Lemma file_bytes_put w w' offset buf : 0 <= offset -> offset + Z.of_nat (length buf) <= size ->
  put_bytes offset offset (offset + Z.of_nat (length buf)) buf w w' -> file_bytes w' = splice (Z.to_nat offset) buf (file_bytes w).
Proof.
  intros Ho Hs Hp. assert (Hl : (Z.to_nat offset + length buf <= length (file_bytes w))%nat) by (rewrite length_file_bytes; lia).
  apply list_eq_same_length with (n := Z.to_nat size).
  - rewrite length_splice by done. apply length_file_bytes.
  - apply length_file_bytes.
  - intros i x y Hi Hx Hy. rewrite lookup_file_bytes in Hx by done. rewrite lookup_splice in Hy by done.
    rewrite (Hp (Z.of_nat i)) in Hx by lia. destruct (decide (Z.to_nat offset <= i < Z.to_nat offset + length buf)%nat) as [Hin | Hout].
    + rewrite decide_True in Hx by lia. replace (Z.to_nat (Z.of_nat i - offset)) with (i - Z.to_nat offset)%nat in Hx by lia.
      rewrite Hy in Hx. by simplify_eq.
    + rewrite decide_False in Hx by lia. rewrite lookup_file_bytes in Hy by done. congruence.
Qed.

Lemma file_bytes_ext w w' : (forall idx, 0 <= idx -> w idx = w' idx) -> file_bytes w = file_bytes w'.
Proof.
  intros Hw. unfold file_bytes, bytes_of. apply list_fmap_ext. intros i x Hi. apply lookup_seqZ in Hi as [-> Hi].
  unfold byte_of. rewrite Hw; [done |]. apply Z.div_pos; lia.
Qed.

Lemma batch_bytes s k : batch s ino [] k -> file_bytes (fat_page g l size (vol (fs s))) = file_bytes (written s ino).
Proof.
  intros Hb. apply file_bytes_ext. intros idx Hi. rewrite <- (batch_disk s ino k Hb ino idx). cbn. unfold fat_disk. by rewrite decide_True.
Qed.

Lemma fat32_read_in_batch fuel offset count s k : batch s ino [] k -> (16 <= length (pages s))%nat -> 0 <= offset -> 0 <= count ->
  exists s', exec (fat32_read fuel ino offset count) s = Returns (array_call (IoRead offset count) (file_bytes (written s ino))).1 s' /\
    batch s' ino [] k /\ (16 <= length (pages s'))%nat /\ written s' = written s.
Proof.
  intros Hb Hl Ho Hc. destruct (batch_spare s ino [] k Hb ltac:(cbn; lia)) as [q Hq]. pose proof (batch_fat _ _ _ Hb) as [_ Hs].
  assert (Hi : inode_at (fs s) ino = Some (PageCache.Inode INODE_REGULAR size (Some (fat32_aops g stats)))).
  { unfold inode_at, fat32_inodes. by rewrite Z.eqb_refl, Hs. }
  unfold covered in Hcov.
  destruct (fat32_read_ok fuel ino offset count s _ q _ (bt_ready _ _ _ _ Hb) Hq Hi) as (s' & He & Hr & _ & Hca & Hw); try done; cbn [i_size] in *.
  - lia.
  - intros idx Hidx. assert (Hpos : 0 <= idx * 4096 < size) by (change (0 / 4096) with 0 in Hidx; Z.to_euclidean_division_equations; lia).
    destruct (page_in_file (idx * 4096) Hpos) as [Hrd _]. rewrite Z.div_mul in Hrd by lia. split; [done |].
    destruct (rd_inv _ _ (bt_ready _ _ _ _ Hb)) as (_ & _ & _ & Hfit). by apply (Hfit eq_refl ino idx Hrd).
  - exists s'. rewrite He. split; [| split; [by eapply batch_calm | split; [by rewrite (ca_length _ _ Hca) | done]]].
    cbn [array_call fst]. rewrite length_file_bytes, Z2Nat.id by lia. do 2 f_equal.
    destruct (decide (offset <= size)); [apply file_bytes_slice; lia |]. rewrite Z.max_l by lia. done.
Qed.

Lemma io_calls_ok fuel k ops : forall s, Forall (io_ok size) ops -> batch s ino [] (io_pages ops + k) -> (16 <= length (pages s))%nat ->
  exists s', exec (io_calls g stats ino fuel ops) s = Returns (array_calls ops (file_bytes (written s ino))).1 s' /\
    batch s' ino [] k /\ file_bytes (written s' ino) = (array_calls ops (file_bytes (written s ino))).2.
Proof.
  induction ops as [| o ops IH]; intros s Hok Hb Hl; [by exists s |]. apply Forall_cons in Hok as [Ho Hok].
  cbn [io_calls array_calls]. rewrite exec_bind.
  assert (Hx : exists s1, exec (io_call g stats ino fuel o) s = Returns (array_call o (file_bytes (written s ino))).1 s1 /\
    batch s1 ino [] (io_pages ops + k) /\ (16 <= length (pages s1))%nat /\
    file_bytes (written s1 ino) = (array_call o (file_bytes (written s ino))).2).
  { destruct o as [offset count | offset buf]; cbn [io_pages] in Hb.
    - destruct Ho as [Ho Hc]. destruct (fat32_read_in_batch fuel offset count s _ Hb Hl Ho Hc) as (s1 & He & Hb1 & Hl1 & Hw).
      exists s1. split_and!; [exact He | done | done | by rewrite Hw].
    - destruct Ho as (Ho & Hs & Hby). rewrite <- Nat.add_assoc in Hb.
      destruct (fat32_write_ok fuel offset buf _ s Hb Hl Ho Hs Hby) as (s1 & He & Hb1 & Hl1 & Hp). exists s1. cbn [io_call].
      rewrite exec_bind, He. split_and!; [done | done | done |]. by apply file_bytes_put. }
  destruct Hx as (s1 & He & Hb1 & Hl1 & Hd). rewrite He, exec_bind. destruct (IH s1 Hok Hb1 Hl1) as (s2 & He2 & Hb2 & Hd2).
  rewrite He2, Hd in *. exists s2. destruct (array_call o _) as [r data1]. cbn [fst snd] in *.
  destruct (array_calls ops data1) as [rs data2]. by cbn.
Qed.

(** ** Theorems *)

(** C2. [fat32_read] and [fat32_write] implement an array of bytes: on a
    consistent volume, with an empty page cache of at least sixteen pages and
    memory to be had, any sequence of reads, wherever they are, and of writes
    inside the file returns, without a fault or an error, exactly what it
    would return on the array of the bytes that the sectors of the file hold;
    and at its end, so after each write, without [fsync], the sectors hold
    what the array does and the FAT is unchanged. *)
Theorem file_io_refines_array fuel ops (s0 s1 : cache fstate) : boot (coh := true) s0 -> page_cache_init s0 = Some (tt, s1) -> plenty s1 ->
  (16 <= length (pages s1))%nat -> Forall (io_ok size) ops -> Z.of_nat (io_pages ops) < 2 ^ 32 ->
  let '(results, data) := array_calls ops (file_bytes (fat_page g l size (vol (fs s0)))) in
  exists s', exec (io_calls g stats ino fuel ops) s1 = Returns results s' /\ fat_ok g f l size (fs s') /\
    file_bytes (fat_page g l size (vol (fs s'))) = data.
Proof.
  intros Hb He Hk Hl Hok Hn. destruct (init_batch s0 s1 ino (io_pages ops) Hb He Hk Hn) as (Hb1 & Hfs & _).
  rewrite <- Hfs, (batch_bytes _ _ Hb1). rewrite <- (Nat.add_0_r (io_pages ops)) in Hb1.
  destruct (io_calls_ok fuel 0 ops s1 Hok Hb1 Hl) as (s' & He' & Hb' & Hd). destruct (array_calls _ _) as [results data]. cbn [fst snd] in *.
  exists s'. split; [done |]. split; [by eapply batch_fat |]. by rewrite (batch_bytes _ _ Hb').
Qed.
End in_place.

(** C39. A write of no bytes is not without effect: past the end of the file it
    returns 0 but sets the size of the file, in the inode and in the directory
    entry on the disk, to its offset, although no cluster is allocated for it:
    the FAT and the chain of the file stay as they were. *)
Theorem zero_write_extends g stats ino f D l fuel offset (s : cache fstate) : geom_ok g -> FatFile.fs_ok g f D l (fs s) ->
  is_cluster g (dir_start_cluster (info (fs s))) -> 0 <= dir_entry_index (info (fs s)) < 16 * sectors_per_cluster g ->
  (kmalloc_ok (mem (fs s))).1 = true -> fsize (fs s) < offset < 2 ^ 32 -> 0 <= fsize (fs s) ->
  let dc := dir_start_cluster (info (fs s)) in
  let idx := dir_entry_index (info (fs s)) in
  exists s' D', exec (fat32_write g stats ino fuel false offset []) s = Returns 0 s' /\ fsize (fs s') = offset /\
    FatFile.fs_ok g f D' l (fs s') /\ (forall k, k <> dir_sector g dc idx -> D' k = D k) /\
    dir_fields (D' (dir_sector g dc idx)) (idx mod 16 * 32) = (start_cluster (info (fs s)), offset).
Proof.
  intros Hg [Hst Hf] Hdc Hidx Hm Hsz H0 dc idx. set (f1 := set_fsize offset (fs s)).
  assert (Hstart : is_u32 (start_cluster (info (fs s)))).
  { rewrite (fo_start _ _ _ _ Hf). destruct l as [| c l']; [unfold is_u32; cbn; lia |].
    pose proof (linked_cluster g f _ c (fo_chain _ _ _ _ Hf ltac:(done)) ltac:(left)) as Hc.
    destruct (limit_bound g Hg) as (_ & _ & Hlim). unfold is_cluster, is_u32, EOC in *. cbn. lia. }
  destruct (wp_update_dir_entry g Hg f D f1 dc idx (start_cluster (info (fs s))) offset Hst Hdc Hidx Hstart ltac:(unfold is_u32; lia))
    as (rc & f2 & He & Hi & Hs2 & Hr). change (mem f1) with (mem (fs s)) in Hr. rewrite Hm in Hr. destruct Hr as (_ & D' & Hst' & Hother & Hdir).
  exists (set_fs f2 s), D'. split; [| split; [exact Hs2 | split; [split; [done | cbn; rewrite Hi; exact Hf] | done]]].
  assert (Hfin : on_fs (finish_size g (fsize (fs s)) offset false) s = Some (tt, set_fs f2 s)).
  { unfold on_fs, finish_size. replace (offset =? fsize (fs s)) with false by lia. cbn [negb].
    unfold mbind, prog_bind, mret, prog_ret, FatFile.modify, FatFile.get. cbn beta iota. fold f1.
    change (dir_start_cluster (info f1)) with dc. replace (2 <=? dc) with true by (unfold is_cluster in Hdc; fold dc in Hdc; lia).
    change (dir_entry_index (info f1)) with idx. change (start_cluster (info f1)) with (start_cluster (info (fs s))).
    change (fsize f1) with offset. by rewrite u32_small, He by lia. }
  unfold fat32_write. erewrite exec_atomic_bind; [| reflexivity]. rewrite set_fs_id, exec_bind.
  change (exec (write_loop _ _ _ _ _ _ _ _ _) s) with (Returns (inr (Transfer 0 0 [] 0 0 0) : Z + transfer) s). cbv beta iota.
  apply (write_finish_clean g stats ino (fsize (fs s)) offset (Transfer 0 0 [] 0 0 0)); [done .. |].
  cbn [t_written]. rewrite Z.add_0_r, u64_small by lia. by replace (fsize (fs s) <? offset) with true by lia.
Qed.

(** ** Examples

    Calls on the file of 700 bytes of the example volume, with sixteen pages
    in the cache. *)

Definition io_start : cache fstate := booted 16 (demo_file []) demo_written.
Definition demo_ops : list io := [IoRead 690 100; IoWrite 510 [1; 2; 3; 4]; IoRead 509 6; IoWrite 700 []; IoRead 800 1].

Lemma io_start_ok : page_cache_init (unbooted 16 (demo_file []) demo_written) = Some (tt, io_start) /\ plenty io_start /\
  (16 <= length (pages io_start))%nat.
Proof.
  split; [apply booted_init; vm_compute; reflexivity |]. split; [| apply (bool_decide_unpack _); vm_compute; exact I].
  assert (Hk : kmem io_start = fun n => kmem (unbooted 16 (demo_file []) demo_written) (17 + n)%nat) by reflexivity.
  intros n. rewrite Hk. eexists. reflexivity.
Qed.

Lemma io_start_fs : fs io_start = demo_file [].
Proof. vm_compute. reflexivity. Qed.

Lemma demo_ops_ok : Forall (io_ok 700) demo_ops.
Proof. repeat constructor; cbn; unfold is_byte; lia. Qed.

Lemma file_io_refines_array_witness : exists s',
  exec (io_calls demo_geometry no_stats 1 3 demo_ops) io_start =
    Returns [(10, replicate 10 0); (4, []); (6, [0; 1; 2; 3; 4; 0]); (0, []); (0, [])] s' /\
  slice 509 6 (file_bytes 700 (fat_page demo_geometry [3; 4] 700 (vol (fs s')))) = [0; 1; 2; 3; 4; 0].
Proof.
  destruct io_start_ok as (Hi & Hk & Hl).
  pose proof (file_io_refines_array demo_geometry no_stats 1 (entry demo_geometry demo_volume) [3; 4] 700 demo_geom_ok demo_covered eq_refl
    ltac:(discriminate) 3 demo_ops (unbooted 16 (demo_file []) demo_written) io_start) as H.
  assert (Ha : array_calls demo_ops (file_bytes 700 (fat_page demo_geometry [3; 4] 700 (vol (fs (unbooted 16 (demo_file []) demo_written))))) =
    ([(10, replicate 10 0); (4, []); (6, [0; 1; 2; 3; 4; 0]); (0, []); (0, [])], replicate 510 0 ++ [1; 2; 3; 4] ++ replicate 186 0))
    by (vm_compute; reflexivity).
  rewrite Ha in H. destruct H as (s' & He & _ & Hd).
  - split_and!; [reflexivity | reflexivity | | intros _ ip idx; reflexivity]. split; [apply demo_file_ok | reflexivity].
  - exact Hi.
  - exact Hk.
  - exact Hl.
  - exact demo_ops_ok.
  - reflexivity.
  - exists s'. split; [exact He |]. rewrite Hd. reflexivity.
Defined.

Lemma zero_write_extends_witness : exists s',
  exec (fat32_write demo_geometry no_stats 1 3 false 100000 []) io_start = Returns 0 s' /\ fsize (fs s') = 100000 /\ fsize (fs io_start) = 700.
Proof.
  destruct (zero_write_extends demo_geometry no_stats 1 (entry demo_geometry demo_volume) (psec demo_geometry demo_volume) [3; 4] 3 100000 io_start)
    as (s' & D' & He & Hs & _); rewrite ?io_start_fs.
  - exact demo_geom_ok.
  - apply demo_file_ok.
  - split; vm_compute; congruence.
  - split; vm_compute; congruence.
  - reflexivity.
  - split; vm_compute; reflexivity.
  - vm_compute. congruence.
  - exists s'. split; [exact He |]. split; [exact Hs | reflexivity].
Defined.
